(* ===== verification/_CoqProject ===== *)
-Q . S2P
Prelude.v
BytesPipe.v
StdCopy.v
LogCopier.v
LogRing.v
ContainerState.v
LifeCycle.v
LifeLogic.v
LifeProgs.v
LifeProps.v
FileSys.v
Archive.v
ArchiveDiff.v
ArchiveProps.v
OvlArchive.v
OvlArchiveProps.v
FileSysWf.v
Digest.v
DigestSet.v
Chain.v
FileStore.v
GraphDriver.v
LayerStore.v
LayerInv.v
LayerOps.v
LayerProps.v
ContainerConfig.v
ImageModel.v
ImageFS.v
ImageStore.v
ImageInv.v
ImageProps.v
ImageRuns.v
Reference.v
RefStore.v
RefProps.v
ImageCache.v
CacheProps.v
ImageService.v
ServiceProps.v
Commit.v
CommitProps.v
OvlOpts.v
OvlMount.v
OvlOptProps.v
OvlMountProps.v
OvlCopyUp.v
OvlProps.v
OvlLookup.v
SimpImage.v
OvlReaddir.v
OvlDirFile.v
OvlDir.v
OvlReaddirProps.v
OvlDirFileProps.v
OvlLookupProps.v
OvlUnion.v
OvlView.v
OvlDirInv.v
OvlDirCopy.v
OvlDirOps.v
OvlDirProps.v
OvlDcache.v
OvlDirRename.v
OvlDirExchange.v
OvlSession.v
OvlLower.v
OvlUnionDemo.v
OvlSessionDemo.v
DriverBase.v
Overlay2.v
Overlay2Props.v
Overlay2Mount.v
Overlay2Get.v
Overlay2Users.v
Overlay2Label.v
Overlay2Remove.v
Overlay2Spec.v
