(* ===== verification/Prelude.v ===== *)
(** * Verification of Simplify-Docker-Image: containers, images, layers and the overlay

    The repository is the Docker engine ([src/engine]), its client ([src/cli]) and
    the overlay file system of Linux ([src/overlayfs]), changed so that a container
    started with the option [simp] copies every file it opens into its own layer:
    what is committed then is an image of the files the container used.

    ** The parts and how they are modelled

    The computations of the source are functions in one monad of [Prelude], state
    passing with the outcomes [Ok], [Err] and [Panic]; a nil dereference, a failed
    assertion or the use of freed memory is a [Panic].  System calls take their
    outcome from a list of faults in the state, so the theorems hold for any calls
    failing unless they say that none does.  Code that runs in several goroutines is
    a step function on the shared state and on what is left of each of them, and the
    theorems hold for every sequence of steps.

    - Files: [FileSys], [FileSysWf] have directory trees, the calls of Go's [os] and
      the atomic writers of [src/engine/pkg/ioutils/fswriters.go].
    - Digests: [Digest], [DigestSet] have SHA-256, digest strings and the sorted set
      of them, which the source takes from libraries in its vendor directory.
    - Layers ([src/engine/layer]): [Chain] has chain identifiers and the empty layer,
      [FileStore] the metadata on disk, [GraphDriver] the interface of a driver,
      [LayerStore] the store.  [LayerInv] and [LayerOps] show that every operation
      keeps the reference counts; [LayerProps] has the theorems for clients, and
      a driver in memory they are run on.
    - Images ([src/engine/image]): [ContainerConfig], [ImageModel], [ImageFS] and
      [ImageStore] with the interfaces [StoreBackend] and [LayerGetReleaser];
      [ImageInv], [ImageProps] and [ImageRuns] have its invariant, its theorems and
      its instance on files and on the layer store.  [ImageCache] and [CacheProps]
      are the build cache.
    - Names ([src/engine/reference]): [Reference], [RefStore], [RefProps].
    - The service ([src/engine/daemon/images], [daemon/commit.go]): [ImageService] and
      [ServiceProps] delete images, [Commit] and [CommitProps] commit containers;
      [CommitProps] also has the history of all clients of the layer store.
    - The overlay file system ([src/overlayfs]): [OvlOpts], [OvlMount], [OvlOptProps]
      and [OvlMountProps] are [super.c]; [OvlCopyUp] and [OvlProps] are [copy_up.c]
      and opening; [OvlLookup], [OvlLookupProps] and [OvlUnion] are [namei.c];
      [OvlReaddir], [OvlReaddirProps], [OvlDirFile] and [OvlDirFileProps] are
      [readdir.c]; [OvlUnionDemo] has layers they are run on.  [OvlDir] is [dir.c]:
      entries are made, removed and renamed.  [OvlView], [OvlDirInv],
      [OvlDirCopy], [OvlDirOps], [OvlDirProps], [OvlDirRename] and [OvlDirExchange] show
      what each call does to the tree that is seen, [OvlDcache] what the VFS then does to
      the cached dentries; [OvlSession], [OvlLower] and [OvlSessionDemo] have the theorems
      on sequences of requests.
    - The driver ([src/engine/daemon/graphdriver/overlay2]): [DriverBase] has links,
      mounts and the helpers in [src/engine/pkg]; [Overlay2] is the driver;
      [Overlay2Props], [Overlay2Mount], [Overlay2Get], [Overlay2Users],
      [Overlay2Label], [Overlay2Remove] and [Overlay2Spec] follow a layer from its files over the option string to the kernel's mount.

    - Archives ([src/engine/pkg/archive]): [Archive] compares two directories, makes the
      archive of the changes and unpacks it; [ArchiveDiff] says which changes are found,
      [ArchiveProps] what is unpacked.  [OvlArchive] and [OvlArchiveProps] are the archive of
      a layer of overlay2 with its whiteouts; [SimpImage] follows the files a simplified
      container opens through the upper layer and the archive into a layer of their own.
    - Containers: [ContainerState] has the state of a container, restart policies and
      signals ([container/state.go], [restartmanager], [pkg/signal]); [LifeCycle] has
      the requests of clients and the events of the runtime as programs that take the
      lock of the container where the code does ([daemon/start.go], [stop.go],
      [kill.go], [pause.go], [unpause.go], [restart.go], [delete.go], [monitor.go]),
      and the system in which they interleave.  [LifeLogic] is a logic for an
      invariant of the lock, with an assumption on the changes that the handling of
      events makes, [LifeProgs] proves every program in it,
      [LifeProps] has the theorems.
    - Streams: [BytesPipe] is the pipe of [pkg/ioutils] with its condition variable,
      [StdCopy] the multiplexing of output and errors ([pkg/stdcopy]); [LogCopier] cuts a
      stream into messages of a log, [LogRing] is the ring buffer before a driver of logs
      ([daemon/logger/copier.go], [ring.go]).

    ** What the theorems show

    - Histories: any sequence of operations on the layer store, the image store, the
      reference store, the mounts of a layer and the files of a directory keeps the
      invariant of its state, and reaches no panic.
    - Interleavings: whatever the programs of a container do at the same time, its state
      is consistent when its lock is free, the holder of the lock can go on, and a kill
      ends the restarts; a pipe loses no byte and no wakeup, but for writes of more than
      a million bytes, which can wait for ever; the ring of a log delivers what it took.
    - Operations: what each one returns and leaves, on its error paths too.
    - Refinement: the driver implements the lines of ancestors it stands for; a walk
      in the overlay finds the union of the layers; a listing is the set of names
      that can be looked up, taken at one moment; creating, removing,
      renaming and exchanging in the overlay, over an upper file system with extended
      attributes and without an index or redirects, is what it is in an ordinary file
      system; and these requests leave the lower layers be.
    - Round trips: references over a restart, mount options shown and parsed, the changes
      of a layer archived and unpacked, a whole layer too, streams multiplexed and taken
      apart, a stream cut into messages.
    - The change: with [simp] the files a program opens suffice for it, up to the layer
      that is unpacked from their archive, and where they do not, since opens are answered with lower files, since links that are
      followed stay behind, or since a mount has no upper layer; and a simplified start
      that fails to mount makes later starts simplified.

    ** Bounds and fuel

    Recursion that follows the data is structural.  The loops that are not have as
    fuel the number of components of a path ([copy_up_loop], [topmost]), the length of
    a string ([layer_loop], [ovl_parse_loop]), the number of retries the code allows
    ([EnsureRemoveAll]) or the number of layers ([release_loop]); running out of it is
    an error of its own, and the theorems show that it is not reached.  The loops of the
    streams have the number of bytes as fuel ([write_from], [copy_loop]), since each turn
    takes one, and [pipe_fifo], [stdcopy_total] and [copySrc_lossless] show that it
    suffices; [tar_walk] and [addChanges]
    have the depth of the directory, which [ArchiveDiff] and [OvlArchiveProps] show
    to be enough.  The recursion
    of the build cache and of the pruning of parents is bounded by a number of stack
    frames, with theorems that enough frames exist.  Reference counts of caches,
    versions, flags, modes and uses of mounts are integers, wrapped where the source
    has a fixed width.

    ** Not modelled

    - The client, the API, the builder, the cluster, the drivers of logs, networking, plugins and
      volumes: they neither hold layers or images nor change them but by the calls that
      are modelled.
    - Registries, containerd and the other services the daemon talks to; what they answer
      to the programs of a container is any reply.
    - JSON and the bytes of tar: codecs are parameters with the round trip as their law,
      and an archive is the list of its headers with their data.
    - Of archives: hard links, maps of identities, the times of directories, and the
      comparison of inode numbers that skips a directory both sides share.
    - Of containers: exec sessions, health checks, links, and the deprecated host
      configuration of a start.
    - Storage drivers other than overlay2, which the option [simp] does not reach.
    - Reading of real directories of the overlay ([ovl_iterate_file] where it passes the
      call on) is a parameter that only reads.
    - Of the overlay file system: file handles, the index directory, inode numbers and
      permissions, which are parameters where an operation asks for them, and hard links,
      since the upper layer is a tree of inodes without aliases.  What the VFS does with
      the cache of dentries is taken from its documented behaviour.
    - Concurrency inside one operation of the stores and of the overlay: the source holds
      a lock for each, so histories of whole operations are what is considered. *)

From Stdlib Require Export Ascii.
From stdpp Require Export base gmap strings list fin_maps fin_sets numbers sorting pretty.
From Stdlib Require Import ZifyBool DecimalString DecimalZ DecimalFacts.

(** ** Errors, outcomes and the effect monad *)

(** The errno values the file operations of the source can observe. *)
Inductive errno :=
| ENOENT | EEXIST | ENOTDIR | EISDIR | ENOTEMPTY | EINVAL | EIO
| EPERM | EROFS | EBUSY | ELOOP | EREMOTE | ENAMETOOLONG | ESTALE | EXDEV.

(** Go [error] values.  [Sentinel] is a package-level error variable, compared
    by identity in the source; [OsError] an error of package [os];
    [Errorf] an error built by [errors.New] or [fmt.Errorf] at the call site;
    [Wrap] an error annotated by [errors.Wrap]; the remaining constructors are
    the error classes of package [errdefs]. *)
Inductive error :=
| Sentinel (name : string)
| OsError (e : errno)
| Errorf (msg : string)
| Wrap (e : error) (msg : string)
| NotFound (msg : string)
| Conflict (msg : string)
| InvalidParameter (msg : string)
| Forbidden (msg : string)
| System (e : error)
| NotModified (msg : string)
| errNoSuchProcess (pid signal : Z).

#[export] Instance errno_eq_dec : EqDecision errno.
Proof. solve_decision. Defined.
#[export] Instance error_eq_dec : EqDecision error.
Proof. solve_decision. Defined.

(** The result of a Go call: a value, an error, or a panic. *)
Inductive outcome (A : Type) :=
| Ok (a : A)
| Err (e : error)
| Panic (msg : string).
Arguments Ok {A} _.
Arguments Err {A} _.
Arguments Panic {A} _.

#[export] Instance outcome_eq_dec `{EqDecision A} : EqDecision (outcome A).
Proof. solve_decision. Defined.

(** Stateful, fallible computations.  An error does not roll the state back. *)
Definition M (S A : Type) : Type := S → outcome A * S.

#[export] Instance M_ret S : MRet (M S) := λ A a s, (Ok a, s).
#[export] Instance M_bind S : MBind (M S) := λ A B f m s,
  match m s with
  | (Ok a, s') => f a s'
  | (Err e, s') => (Err e, s')
  | (Panic p, s') => (Panic p, s')
  end.

Section Effects.
Context {St : Type}.

Definition fail {A} (e : error) : M St A := λ s, (Err e, s).
Definition panic {A} (p : string) : M St A := λ s, (Panic p, s).
Definition get : M St St := λ s, (Ok s, s).
Definition gets {A} (f : St → A) : M St A := λ s, (Ok (f s), s).
Definition put (s' : St) : M St () := λ _, (Ok tt, s').
Definition modify (f : St → St) : M St () := λ s, (Ok tt, f s).

(** [attempt m] runs [m] and returns its error as a value, as Go code that
    inspects [err] does. *)
Definition attempt {A} (m : M St A) : M St (error + A) := λ s,
  match m s with
  | (Ok a, s') => (Ok (inr a), s')
  | (Err e, s') => (Ok (inl e), s')
  | (Panic p, s') => (Panic p, s')
  end.

(** [ignore_err m] is a call whose error is logged and dropped. *)
Definition ignore_err {A} (m : M St A) : M St () :=
  _ ← attempt m; mret tt.

(** [defer_when b m c] is [m] under a deferred function that runs [c] when the
    function returns an error, or a value [a] with [b a].  The outcome of [c]
    is dropped, unless it panics. *)
Definition defer_when {A} (b : A → bool) (m : M St A) (c : M St ()) : M St A := λ s,
  match m s with
  | (Panic p, s') => (Panic p, s')
  | (r, s') =>
      if match r with Ok a => b a | _ => true end then
        match c s' with
        | (Panic p, s'') => (Panic p, s'')
        | (_, s'') => (r, s'')
        end
      else (r, s')
  end.

Definition defer_on_error {A} (m : M St A) (c : M St ()) : M St A :=
  defer_when (λ _, false) m c.

Definition guard_err (b : bool) (e : error) : M St () :=
  if b then mret tt else fail e.

(** A Go [for _, x := range l] loop. *)
Fixpoint for_each {A} (l : list A) (f : A → M St ()) : M St () :=
  match l with
  | [] => mret tt
  | x :: l => _ ← f x; for_each l f
  end.
End Effects.

(** [zoom] runs a computation on one field of a larger state. *)
Definition zoom {S T A} (getf : S → T) (setf : T → S → S) (m : M T A) : M S A :=
  λ s, let '(r, t) := m (getf s) in (r, setf t s).

(** ** Total-correctness triples *)

(** [triple P m Q E]: from a state satisfying [P], [m] does not panic, its
    results satisfy [Q] and its errors satisfy [E]. *)
Definition triple {St A} (P : St → Prop) (m : M St A)
    (Q : A → St → Prop) (E : error → St → Prop) : Prop :=
  ∀ s, P s →
    match m s with
    | (Ok a, s') => Q a s'
    | (Err e, s') => E e s'
    | (Panic _, _) => False
    end.

Section Triples.
Context {St : Type}.
Implicit Types P : St → Prop.

Lemma triple_ret {A} P (a : A) Q E :
  (∀ s, P s → Q a s) → triple P (mret a) Q E.
Proof. intros H s Hs. apply H, Hs. Qed.

Lemma triple_fail {A} P e (Q : A → St → Prop) E :
  (∀ s, P s → E e s) → triple P (fail e) Q E.
Proof. intros H s Hs. apply H, Hs. Qed.

Lemma triple_bind {A B} P (m : M St A) (f : A → M St B) R Q E :
  triple P m R E → (∀ a, triple (R a) (f a) Q E) → triple P (m ≫= f) Q E.
Proof.
  intros Hm Hf s Hs. specialize (Hm s Hs). unfold mbind, M_bind.
  destruct (m s) as [[a|e|p] s']; [|done|done]. apply Hf, Hm.
Qed.

Lemma triple_conseq {A} P P' (m : M St A) Q Q' (E E' : error → St → Prop) :
  triple P' m Q' E' →
  (∀ s, P s → P' s) → (∀ a s, Q' a s → Q a s) → (∀ e s, E' e s → E e s) →
  triple P m Q E.
Proof.
  intros Hm HP HQ HE s Hs. specialize (Hm s (HP s Hs)).
  destruct (m s) as [[a|e|p] s']; auto.
Qed.

Lemma triple_gets {A} P (f : St → A) Q E :
  (∀ s, P s → Q (f s) s) → triple P (gets f) Q E.
Proof. intros H s Hs. apply H, Hs. Qed.

Lemma triple_modify P (f : St → St) Q E :
  (∀ s, P s → Q tt (f s)) → triple P (modify f) Q E.
Proof. intros H s Hs. apply H, Hs. Qed.

Lemma triple_guard P b e Q E :
  (∀ s, P s → b = true → Q tt s) → (∀ s, P s → b = false → E e s) →
  triple P (guard_err b e) Q E.
Proof. intros HQ HE s Hs. unfold guard_err. destruct b; [by apply HQ|by apply HE]. Qed.

Lemma triple_attempt {A} P (m : M St A) Q E Q' :
  triple P m Q' (λ e, Q (inl e)) → (∀ a s, Q' a s → Q (inr a) s) →
  triple P (attempt m) Q E.
Proof.
  intros Hm HQ s Hs. specialize (Hm s Hs). unfold attempt.
  destruct (m s) as [[a|e|p] s']; auto.
Qed.

Lemma triple_ignore {A} P (m : M St A) (Q : () → St → Prop) E :
  triple P m (λ _, Q tt) (λ _, Q tt) → triple P (ignore_err m) Q E.
Proof.
  intros Hm s Hs. specialize (Hm s Hs). unfold ignore_err, mbind, M_bind, attempt.
  destruct (m s) as [[a|e|p] s']; auto.
Qed.

Lemma triple_defer_when {A} P b (m : M St A) c (R Q : A → St → Prop)
    (R' E : error → St → Prop) :
  triple P m R R' →
  (∀ e, triple (R' e) c (λ _, E e) (λ _, E e)) →
  (∀ a, b a = true → triple (R a) c (λ _, Q a) (λ _, Q a)) →
  (∀ a s, b a = false → R a s → Q a s) →
  triple P (defer_when b m c) Q E.
Proof.
  intros Hm Hc Hb Hnb s Hs. specialize (Hm s Hs). unfold defer_when.
  destruct (m s) as [[a|e|p] s']; [| |done].
  - destruct (b a) eqn:Hba; [|by apply Hnb].
    specialize (Hb a Hba s' Hm). destruct (c s') as [[?|?|?] ?]; auto.
  - specialize (Hc e s' Hm). destruct (c s') as [[?|?|?] ?]; auto.
Qed.

Lemma triple_defer {A} P (m : M St A) c (Q : A → St → Prop) (R E : error → St → Prop) :
  triple P m Q R → (∀ e, triple (R e) c (λ _, E e) (λ _, E e)) →
  triple P (defer_on_error m c) Q E.
Proof. intros Hm Hc. by eapply triple_defer_when. Qed.

Lemma triple_for_each {A} (I : St → Prop) (l : list A) f E :
  (∀ x, x ∈ l → triple I (f x) (λ _, I) E) →
  triple I (for_each l f) (λ _, I) E.
Proof.
  induction l as [|x l IH]; intros Hf; simpl.
  - by apply triple_ret.
  - eapply triple_bind; [apply Hf; left|]. intros []. apply IH.
    intros y Hy. apply Hf. by right.
Qed.

Lemma triple_get {A} P (k : St → M St A) Q E :
  (∀ s0, P s0 → triple (λ s, s = s0) (k s0) Q E) → triple P (s ← get; k s) Q E.
Proof. intros Hk s Hs. exact (Hk s Hs s eq_refl). Qed.

(** Reading a triple off at one run. *)
Lemma triple_run {A} P (m : M St A) Q E s r s' :
  triple P m Q E → P s → m s = (r, s') →
  match r with Ok a => Q a s' | Err e => E e s' | Panic _ => False end.
Proof. intros Hm Hs Hr. specialize (Hm s Hs). rewrite Hr in Hm. by destruct r. Qed.
End Triples.

Lemma triple_zoom {S T A} (getf : S → T) (setf : T → S → S)
    (P : S → Prop) (m : M T A) Q E (P' : T → Prop) Q' E' :
  triple P' m Q' E' →
  (∀ s, P s → P' (getf s)) →
  (∀ a s t, P s → Q' a t → Q a (setf t s)) →
  (∀ e s t, P s → E' e t → E e (setf t s)) →
  triple P (zoom getf setf m) Q E.
Proof.
  intros Hm HP HQ HE s Hs. specialize (Hm (getf s) (HP s Hs)). unfold zoom.
  destruct (m (getf s)) as [[a|e|p] t]; auto.
Qed.

(** ** Machine integers *)

(** Go's [int64] arithmetic wraps around. *)
Definition wrap64 (z : Z) : Z := (z + 2 ^ 63) `mod` 2 ^ 64 - 2 ^ 63.
Definition int64_min : Z := - 2 ^ 63.
Definition int64_max : Z := 2 ^ 63 - 1.
Definition in_int64 (z : Z) : bool := (int64_min <=? z)%Z && (z <=? int64_max)%Z.

Lemma in_int64_spec z : in_int64 z = true ↔ (- 2 ^ 63 ≤ z < 2 ^ 63)%Z.
Proof. unfold in_int64, int64_min, int64_max. lia. Qed.

Lemma wrap64_bounds z : in_int64 (wrap64 z) = true.
Proof.
  apply in_int64_spec. unfold wrap64.
  pose proof (Z.mod_pos_bound (z + 2 ^ 63) (2 ^ 64)). lia.
Qed.

Lemma wrap64_small z : in_int64 z = true → wrap64 z = z.
Proof.
  intros Hz%in_int64_spec. unfold wrap64. rewrite Z.mod_small; lia.
Qed.

(** ** Strings, as the source uses them *)

Module GoString.
(** [strings.IndexByte]. *)
Fixpoint index_byte (c : ascii) (s : string) : option nat :=
  match s with
  | EmptyString => None
  | String c' s => if Ascii.eqb c c' then Some 0 else S <$> index_byte c s
  end.

(** [s[:i]] and [s[i:]]. *)
Fixpoint take (n : nat) (s : string) : string :=
  match n, s with
  | S n, String c s => String c (take n s)
  | _, _ => EmptyString
  end.
Fixpoint drop (n : nat) (s : string) : string :=
  match n, s with
  | S n, String _ s => drop n s
  | _, _ => s
  end.

(** [strings.Split] with a one-byte separator. *)
Fixpoint split (c : ascii) (s : string) : list string :=
  match s with
  | EmptyString => [EmptyString]
  | String c' s =>
      if Ascii.eqb c c' then EmptyString :: split c s
      else match split c s with
           | [] => [String c' EmptyString]
           | w :: ws => String c' w :: ws
           end
  end.

(** [strings.Join]. *)
Fixpoint join (sep : string) (l : list string) : string :=
  match l with
  | [] => EmptyString
  | [w] => w
  | w :: ws => w +:+ sep +:+ join sep ws
  end.

(** [strings.HasPrefix s p]. *)
Definition has_prefix (s p : string) : bool := String.prefix p s.

Fixpoint all_chars (p : ascii → bool) (s : string) : bool :=
  match s with
  | EmptyString => true
  | String c s => p c && all_chars p s
  end.

(** The ASCII white space of [strings.TrimSpace]. *)
Definition is_space (c : ascii) : bool :=
  let n := Ascii.nat_of_ascii c in ((9 <=? n) && (n <=? 13)) || (n =? 32).

Fixpoint trim_left (s : string) : string :=
  match s with
  | String c s' => if is_space c then trim_left s' else s
  | EmptyString => EmptyString
  end.
Fixpoint trim_right (s : string) : string :=
  match s with
  | EmptyString => EmptyString
  | String c s' =>
      match trim_right s' with
      | EmptyString => if is_space c then EmptyString else String c EmptyString
      | t => String c t
      end
  end.
(** [strings.TrimSpace]. *)
Definition trim_space (s : string) : string := trim_right (trim_left s).

Definition is_digit (c : ascii) : bool :=
  let n := Ascii.nat_of_ascii c in (48 <=? n) && (n <=? 57).
(** The class [[a-f0-9]]. *)
Definition is_hex (c : ascii) : bool :=
  let n := Ascii.nat_of_ascii c in is_digit c || ((97 <=? n) && (n <=? 102)).

Definition to_lower_char (c : ascii) : ascii :=
  let n := Ascii.nat_of_ascii c in
  if (65 <=? n) && (n <=? 90) then Ascii.ascii_of_nat (n + 32) else c.
(** [strings.ToLower] on ASCII. *)
Fixpoint to_lower (s : string) : string :=
  match s with
  | EmptyString => EmptyString
  | String c s => String (to_lower_char c) (to_lower s)
  end.

(** [fmt.Sprintf] with the verb d. *)
Definition format_int (z : Z) : string :=
  NilZero.string_of_int (Z.to_int z).

(** [strconv.ParseInt s 10 64]. *)
Definition parse_int (s : string) : option Z :=
  let d := match s with
           | String "+" r => Decimal.Pos <$> NilZero.uint_of_string r
           | _ => NilZero.int_of_string s
           end in
  match d with
  | Some i => let z := Z.of_int i in if in_int64 z then Some z else None
  | None => None
  end.
End GoString.

Section StringLemmas.
Import GoString.

Lemma app_cons c s t : String c s +:+ t = String c (s +:+ t).
Proof. done. Qed.

Lemma app_nil_l_str t : EmptyString +:+ t = t.
Proof. done. Qed.

Lemma str_length_app s t : String.length (s +:+ t) = String.length s + String.length t.
Proof. induction s as [|c s IH]; [done|]. rewrite app_cons. simpl. by rewrite IH. Qed.

Lemma app_nil_r_str s : s +:+ EmptyString = s.
Proof. induction s as [|c s IH]; [done|]. rewrite app_cons. by rewrite IH. Qed.

Lemma take_drop_str n s : take n s +:+ drop n s = s.
Proof.
  revert s. induction n as [|n IH]; intros [|c s]; simpl; try done.
  rewrite app_cons. f_equal. apply IH.
Qed.

Lemma str_take_split n m s : m ≤ n → take n s = take m s +:+ take (n - m) (drop m s).
Proof.
  revert n s. induction m as [|m IH]; intros n s Hm; simpl.
  - by rewrite Nat.sub_0_r.
  - destruct s as [|c s]; [destruct n as [|n]; [lia|]; simpl; by destruct (n - m)|]. destruct n as [|n]; [lia|]. simpl. rewrite app_cons.
    f_equal. apply IH. lia.
Qed.
Lemma str_take_length n s : String.length (take n s) = n `min` String.length s.
Proof. revert s. induction n as [|n IH]; intros [|c s]; simpl; auto. Qed.
Lemma str_take_all n s : String.length s ≤ n → take n s = s.
Proof. revert s. induction n as [|n IH]; intros [|c s]; simpl; intros Hn; [done|lia|done|]. f_equal. apply IH. lia. Qed.
Lemma str_drop_length n s : String.length (drop n s) = String.length s - n.
Proof. revert s. induction n as [|n IH]; intros [|c s]; simpl; auto. Qed.
Lemma app_assoc_str a b c : (a +:+ b) +:+ c = a +:+ (b +:+ c).
Proof. induction a as [|x a IH]; [done|]. rewrite !app_cons. by rewrite IH. Qed.

Lemma split_not_nil c s : split c s ≠ [].
Proof. destruct s as [|c' s]; simpl; [done|]. case_match; [done|]. by case_match. Qed.

(** [strings.Join] inverts [strings.Split]. *)
Lemma join_split c s : join (String c EmptyString) (split c s) = s.
Proof.
  induction s as [|c' s IH]; [done|]. cbn [split].
  destruct (Ascii.eqb_spec c c') as [<-|Hne].
  - destruct (split c s) as [|w ws] eqn:Hs; [by apply split_not_nil in Hs|].
    cbn [join] in *. by rewrite <-IH.
  - destruct (split c s) as [|w ws] eqn:Hs; [by apply split_not_nil in Hs|].
    cbn [join] in *. destruct ws; by rewrite <-IH.
Qed.

Definition avoids (c : ascii) (s : string) : Prop := index_byte c s = None.

Lemma split_avoids c s : avoids c s → split c s = [s].
Proof.
  unfold avoids. induction s as [|c' s IH]; [done|]. simpl.
  destruct (Ascii.eqb c c'); [done|]. intros Hs.
  rewrite IH; [done|]. by destruct (index_byte c s).
Qed.

Lemma split_app_sep c w s :
  avoids c w → split c (w +:+ String c s) = w :: split c s.
Proof.
  unfold avoids. induction w as [|c' w IH]; intros Hw.
  - simpl. by rewrite Ascii.eqb_refl.
  - rewrite app_cons. simpl in *. destruct (Ascii.eqb c c') eqn:Hc; [done|].
    rewrite IH; [done|]. by destruct (index_byte c w).
Qed.

(** [strings.Split] inverts [strings.Join] on separator-free words. *)
Lemma split_join c ws :
  ws ≠ [] → Forall (avoids c) ws → split c (join (String c EmptyString) ws) = ws.
Proof.
  intros Hne Hws. induction Hws as [|w ws Hw Hws IH]; [done|].
  destruct ws as [|w' ws]; [by apply split_avoids|].
  change (join _ (w :: w' :: ws)) with
    (w +:+ String c (join (String c EmptyString) (w' :: ws))).
  rewrite split_app_sep by done. f_equal. by apply IH.
Qed.

(** [strconv.ParseInt] inverts formatting on the range of [int64]. *)
Lemma parse_format_int z : in_int64 z = true → parse_int (format_int z) = Some z.
Proof.
  intros Hz. unfold parse_int, format_int.
  assert (NilZero.int_of_string (NilZero.string_of_int (Z.to_int z)) = Some (Z.to_int z)
    ∧ ∀ r, NilZero.string_of_int (Z.to_int z) ≠ String "+" r) as [Hrt Hplus].
  { split.
    - apply NilZero.isi; destruct z as [|p|p]; try done; intros [=He];
        by apply DecimalPos.Unsigned.to_uint_nonnil in He.
    - intros r. destruct z as [|p|p]; simpl; [done| |done].
      destruct (Pos.to_uint p); simpl; done. }
  replace (match NilZero.string_of_int (Z.to_int z) with
           | String "+" r => Decimal.Pos <$> NilZero.uint_of_string r
           | _ => NilZero.int_of_string (NilZero.string_of_int (Z.to_int z))
           end) with (Some (Z.to_int z)).
  { by rewrite DecimalZ.of_to, Hz. }
  rewrite Hrt. destruct (NilZero.string_of_int (Z.to_int z)) as [|[[] [] [] [] [] [] [] []] r] eqn:He; try done.
  by destruct (Hplus r).
Qed.

Lemma trim_right_nospace s :
  all_chars (λ c, negb (is_space c)) s = true → trim_right s = s.
Proof.
  induction s as [|c s IH]; [done|]. simpl.
  intros [Hc Hs]%andb_true_iff. rewrite IH by done.
  destruct s; [|done]. by destruct (is_space c).
Qed.

(** Trimming leaves a string without white space alone. *)
Lemma trim_space_id s :
  all_chars (λ c, negb (is_space c)) s = true → trim_space s = s.
Proof.
  intros Hs. unfold trim_space.
  replace (trim_left s) with s; [by apply trim_right_nospace|].
  destruct s as [|c s]; [done|]. simpl in *. by destruct (is_space c).
Qed.

Lemma all_chars_impl (p q : ascii → bool) s :
  (∀ c, p c = true → q c = true) → all_chars p s = true → all_chars q s = true.
Proof.
  intros Hpq. induction s as [|c s IH]; [done|]. simpl.
  intros [Hc Hs]%andb_true_iff. rewrite IH, Hpq; done.
Qed.

Lemma all_chars_app p s t :
  all_chars p (s +:+ t) = all_chars p s && all_chars p t.
Proof.
  induction s as [|c s IH]; [done|]. rewrite app_cons. simpl.
  by rewrite IH, andb_assoc.
Qed.

Lemma hex_not_space c : is_hex c = true → negb (is_space c) = true.
Proof. unfold is_hex, is_digit, is_space. lia. Qed.
End StringLemmas.

(** ** Counting the entries of a finite map *)

Section CountWhere.
Context `{Countable K} {V : Type}.
Implicit Types (m : gmap K V) (p : V → bool).

Definition count_where p m : nat := size (filter (λ kv, p kv.2 = true) m).

Lemma count_where_empty p : count_where p ∅ = 0.
Proof. unfold count_where. by rewrite map_filter_empty, map_size_empty. Qed.

Lemma count_where_insert_fresh p m i x :
  m !! i = None → count_where p (<[i:=x]> m) = (if p x then 1 else 0) + count_where p m.
Proof.
  intros Hi. unfold count_where. destruct (p x) eqn:Hx.
  - rewrite map_filter_insert_True by done.
    rewrite map_size_insert_None; [done|].
    apply map_lookup_filter_None. by left.
  - rewrite map_filter_insert_False by (simpl; congruence).
    by rewrite (delete_id m).
Qed.

Lemma count_where_delete p m i x :
  m !! i = Some x → count_where p m = (if p x then 1 else 0) + count_where p (delete i m).
Proof.
  intros Hi. rewrite <-(insert_delete_id m i x) at 1 by done.
  apply count_where_insert_fresh, lookup_delete_eq.
Qed.

Lemma count_where_ext p q m :
  (∀ i x, m !! i = Some x → p x = q x) → count_where p m = count_where q m.
Proof.
  intros Hpq. unfold count_where. f_equal. apply map_filter_ext.
  intros i x Hi. simpl. by rewrite (Hpq i x Hi).
Qed.

Lemma count_where_0 p m :
  count_where p m = 0 → ∀ i x, m !! i = Some x → p x = false.
Proof.
  intros Hc i x Hi. rewrite (count_where_delete p m i x Hi) in Hc.
  by destruct (p x).
Qed.

Lemma count_where_pos p m i x :
  m !! i = Some x → p x = true → 0 < count_where p m.
Proof. intros Hi Hx. rewrite (count_where_delete p m i x Hi), Hx. lia. Qed.

Lemma count_where_none p m :
  (∀ i x, m !! i = Some x → p x = false) → count_where p m = 0.
Proof.
  intros Hf. rewrite (count_where_ext p (λ _, false)) by done.
  unfold count_where. rewrite (proj2 (map_empty_filter _ _)); [by rewrite map_size_empty|].
  intros i x Hi. simpl. done.
Qed.
End CountWhere.

(** ** Serialised data *)

(** [json.Marshal] and [json.Unmarshal] at one type. *)
Class JSON (T : Type) := {
  json_marshal : T → error + string;
  json_unmarshal : string → error + T;
}.

(** Decoding what was encoded gives the value back. *)
Class JSONLaws (T : Type) `{JSON T} := {
  json_roundtrip : ∀ (x : T) s, json_marshal x = inr s → json_unmarshal s = inr x;
}.

Definition of_sum {St A} (r : error + A) : M St A :=
  match r with inl e => fail e | inr a => mret a end.
Definition of_outcome {St A} (r : outcome A) : M St A := λ s, (r, s).
Definition of_err {St} (r : option error) : M St () :=
  match r with Some e => fail e | None => mret tt end.

(** ** Partial triples

    [itr P m Q E]: started in a state with [P], an operation that succeeds ends
    in one with [Q]; one that fails or panics ends in one with [E]. *)
Section PartialTriples.
Context {St : Type}.

Definition itr {A : Type} (P : St → Prop) (m : M (St) A) (Q : A → St → Prop)
    (E : St → Prop) : Prop :=
  ∀ s, P s → match m s with (Ok a, s') => Q a s' | (_, s') => E s' end.

Lemma itr_ret {A : Type} (a : A) (P : St → Prop) (Q : A → St → Prop) E :
  (∀ s, P s → Q a s) → itr P (mret a) Q E.
Proof. done. Qed.
Lemma itr_fail {A : Type} (e : error) (P : St → Prop) (Q : A → St → Prop) (E : St → Prop) :
  (∀ s, P s → E s) → itr P (fail e) Q E.
Proof. done. Qed.
Lemma itr_panic {A : Type} (e : string) (P : St → Prop) (Q : A → St → Prop) (E : St → Prop) :
  (∀ s, P s → E s) → itr P (panic e) Q E.
Proof. done. Qed.
Lemma itr_bind {A B : Type} P (m : M (St) A) (k : A → M (St) B) R Q E :
  itr P m R E → (∀ a, itr (R a) (k a) Q E) → itr P (m ≫= k) Q E.
Proof.
  intros Hm Hk s Hs. specialize (Hm s Hs). unfold mbind, M_bind.
  destruct (m s) as [[a|e|p] s']; [by apply Hk|done|done].
Qed.
Lemma itr_conseq {A : Type} (P P' : St → Prop) (m : M (St) A) (Q Q' : A → St → Prop)
    (E E' : St → Prop) :
  itr P' m Q' E' → (∀ s, P s → P' s) → (∀ a s, Q' a s → Q a s) → (∀ s, E' s → E s) → itr P m Q E.
Proof.
  intros Hm HP HQ HE s Hs. specialize (Hm s (HP s Hs)). destruct (m s) as [[a|e|p] s']; auto.
Qed.
Lemma itr_attempt {A : Type} P (m : M (St) A) (Q : error + A → St → Prop) (E E' : St → Prop) :
  itr P m (λ a, Q (inr a)) E' → (∀ s, E' s → E s ∧ ∀ e, Q (inl e) s) → itr P (attempt m) Q E.
Proof.
  intros Hm HE s Hs. specialize (Hm s Hs). unfold attempt.
  destruct (m s) as [[a|e|p] s']; [done|by apply HE|by apply HE].
Qed.
(** An attempt whose outcome does not matter. *)
Lemma itr_ignore {A : Type} P (m : M (St) A) (Q E : St → Prop) :
  itr P m (λ _, Q) Q → (∀ s, Q s → E s) → itr P (ignore_err m) (λ _, Q) E.
Proof.
  intros Hm HE. eapply itr_bind; [eapply itr_attempt; [exact Hm|auto]|].
  intros a. apply itr_ret. by destruct a.
Qed.
Lemma itr_get {A : Type} P (k : St → M (St) A) Q E :
  (∀ s0, P s0 → itr (λ s, s = s0) (k s0) Q E) → itr P (s ← get; k s) Q E.
Proof. intros Hk s Hs. exact (Hk s Hs s eq_refl). Qed.
Lemma itr_from {A : Type} P (m : M (St) A) Q E :
  (∀ s0, P s0 → itr (λ s, s = s0) m Q E) → itr P m Q E.
Proof. intros Hm s Hs. exact (Hm s Hs s eq_refl). Qed.
Lemma itr_modify P (f : St → St) Q E : (∀ s, P s → Q tt (f s)) → itr P (modify f) Q E.
Proof. intros Hf s Hs. by apply Hf. Qed.
Lemma itr_guard P (b : bool) (e : error) (Q : () → St → Prop) (E : St → Prop) :
  (∀ s, P s → E s) → (b = true → ∀ s, P s → Q tt s) → itr P (guard_err b e) Q E.
Proof. intros HP HQ. destruct b; [by apply itr_ret, HQ|by apply itr_fail]. Qed.
Lemma itr_of_sum {A : Type} P (r : error + A) (Q : A → St → Prop) (E : St → Prop) :
  (∀ s, P s → E s) → (∀ a, r = inr a → ∀ s, P s → Q a s) → itr P (of_sum r) Q E.
Proof. intros HP HQ. destruct r as [e|a]; [by apply itr_fail|by apply itr_ret, HQ]. Qed.
Lemma itr_pure {A : Type} (φ : Prop) P (m : M (St) A) Q E :
  (φ → itr P m Q E) → itr (λ s, φ ∧ P s) m Q E.
Proof. intros Hm s [Hφ Hs]. by apply Hm. Qed.
Lemma itr_for_each {A : Type} (xs : list A) (f : A → M (St) ()) (P E : St → Prop) :
  (∀ x, x ∈ xs → itr P (f x) (λ _, P) E) → itr P (for_each xs f) (λ _, P) E.
Proof.
  induction xs as [|x xs IH]; intros Hf; simpl; [by apply itr_ret|].
  eapply itr_bind; [apply Hf; left|]. intros []. apply IH. intros y Hy. apply Hf. by right.
Qed.
Lemma itr_of_outcome {A : Type} P (o : outcome A) (E : St → Prop) :
  (∀ s, P s → E s) → itr P (of_outcome o) (λ _, P) E.
Proof. intros HE s Hs. unfold of_outcome. destruct o; auto. Qed.
(** An attempt that keeps [P] on every outcome. *)
Lemma itr_attempt_keep {A : Type} (P : St → Prop) (m : M St A) (Q : A → Prop) :
  itr P m (λ a s, P s ∧ Q a) P →
  itr P (attempt m) (λ r s, P s ∧ match r with inl _ => True | inr a => Q a end) P.
Proof. intros Hm. eapply itr_attempt; [exact Hm|]. auto. Qed.
Lemma itr_keep {A : Type} (P : St → Prop) (m : M St A) : itr P m (λ _, P) P → itr P m (λ _ s, P s ∧ True) P.
Proof. intros Hm. eapply itr_conseq; [exact Hm|done|by intros a s ?|done]. Qed.
Lemma itr_and {A : Type} (P : St → Prop) (m : M St A) Q E Q' E' :
  itr P m Q E → itr P m Q' E' → itr P m (λ a s, Q a s ∧ Q' a s) (λ s, E s ∧ E' s).
Proof.
  intros H1 H2 s Hs. specialize (H1 s Hs). specialize (H2 s Hs). by destruct (m s) as [[a|e|p] s'].
Qed.
(** A deferred function that always runs, whatever becomes of it. *)
Lemma itr_defer {A : Type} P (m : M St A) (c : M St ()) (R Q : A → St → Prop) (E' E : St → Prop) :
  itr P m R E' → (∀ a, itr (R a) c (λ _, Q a) (Q a)) → itr E' c (λ _, E) E →
  (∀ a s, Q a s → E s) → (∀ s, E' s → E s) → itr P (defer_when (λ _, true) m c) Q E.
Proof.
  intros Hm Hc He HQ HE s Hs. specialize (Hm s Hs). unfold defer_when.
  destruct (m s) as [[a|e|p] s']; [|specialize (He s' Hm); by destruct (c s') as [[?|?|?] ?]|by apply HE].
  specialize (Hc a s' Hm). destruct (c s') as [[?|?|?] s'']; [done|done|by eapply HQ].
Qed.
End PartialTriples.

Lemma itr_zoom {S T A : Type} (getf : S → T) (setf : T → S → S) (P : S → Prop) (P' : T → Prop)
    (m : M T A) Q Q' E E' :
  itr P' m Q' E' → (∀ s, P s → P' (getf s)) →
  (∀ a s t, P s → Q' a t → Q a (setf t s)) → (∀ s t, P s → E' t → E (setf t s)) →
  itr P (zoom getf setf m) Q E.
Proof.
  intros Hm HP HQ HE s Hs. specialize (Hm _ (HP s Hs)). unfold zoom.
  destruct (m (getf s)) as [[a|e|p] t]; eauto.
Qed.

(** ** Computations that never panic *)

Definition safe {St A} (m : M St A) : Prop := ∀ s p s', m s ≠ (Panic p, s').

Create HintDb safe.

Section Safe.
Context {St : Type}.

Lemma safe_ret {A} (a : A) : safe (St := St) (mret a).
Proof. done. Qed.
Lemma safe_fail {A} e : safe (St := St) (A := A) (fail e).
Proof. done. Qed.
Lemma safe_get : safe (St := St) get.
Proof. done. Qed.
Lemma safe_gets {A} (f : St → A) : safe (gets f).
Proof. done. Qed.
Lemma safe_modify (f : St → St) : safe (modify f).
Proof. done. Qed.
Lemma safe_bind {A B} (m : M St A) (f : A → M St B) :
  safe m → (∀ a, safe (f a)) → safe (m ≫= f).
Proof.
  intros Hm Hf s p s'. unfold mbind, M_bind. specialize (Hm s).
  destruct (m s) as [[a|e|q] s1]; [apply Hf|done|]. by destruct (Hm q s1).
Qed.
Lemma safe_attempt {A} (m : M St A) : safe m → safe (attempt m).
Proof.
  intros Hm s p s'. unfold attempt. specialize (Hm s).
  destruct (m s) as [[a|e|q] s1]; [done|done|]. by destruct (Hm q s1).
Qed.
Lemma safe_ignore {A} (m : M St A) : safe m → safe (ignore_err m).
Proof. intros Hm. by apply safe_bind; [apply safe_attempt|]. Qed.
Lemma safe_guard b e : safe (St := St) (guard_err b e).
Proof. by destruct b. Qed.
Lemma safe_of_sum {A} (r : error + A) : safe (St := St) (of_sum r).
Proof. by destruct r. Qed.
Lemma safe_of_err r : safe (St := St) (of_err r).
Proof. by destruct r. Qed.
Lemma safe_of_ok {A} (a : A) : safe (St := St) (of_outcome (Ok a)).
Proof. done. Qed.
Lemma safe_defer_when {A} b (m : M St A) c : safe m → safe c → safe (defer_when b m c).
Proof.
  intros Hm Hc s p s'. unfold defer_when. specialize (Hm s).
  destruct (m s) as [[a|e|q] s1].
  - destruct (b a); [|done]. specialize (Hc s1).
    destruct (c s1) as [[?|?|q] s2]; [done|done|]. by destruct (Hc q s2).
  - specialize (Hc s1).
    destruct (c s1) as [[?|?|q] s2]; [done|done|]. by destruct (Hc q s2).
  - by destruct (Hm q s1).
Qed.
Lemma safe_for_each {A} (l : list A) (f : A → M St ()) :
  (∀ x, safe (f x)) → safe (for_each l f).
Proof. intros Hf. induction l; simpl; [done|]. by apply safe_bind. Qed.
End Safe.

#[export] Hint Resolve safe_ret safe_fail safe_get safe_gets safe_modify
  safe_guard safe_of_sum safe_of_err safe_of_ok : safe.

(** Proves that a computation does not panic from its components. *)
Ltac solve_safe :=
  repeat (intros; cbv beta zeta;
    lazymatch goal with
    | |- safe (mbind _ _) => apply safe_bind; [|intros ?]
    | |- safe (attempt _) => apply safe_attempt
    | |- safe (ignore_err _) => apply safe_ignore
    | |- safe (defer_when _ _ _) => apply safe_defer_when
    | |- safe (defer_on_error _ _) => apply safe_defer_when
    | |- safe (for_each _ _) => apply safe_for_each; intros ?
    | |- safe (match ?x with _ => _ end) => destruct x
    | |- safe (match ?x with _ => _ end _) => destruct x
    | |- _ => solve [auto with safe]
    end).

(** ** Programs that leave a part of the state alone *)

Section Fixes.
Context {St B : Type} (f : St → B) (C : B → Prop).
(** From a state in which the part is as [C] says. *)
Definition fixes {A} (m : M St A) : Prop := ∀ s, C (f s) → f (m s).2 = f s.
Lemma fixes_ret {A} (a : A) : fixes (mret a).
Proof. done. Qed.
Lemma fixes_fail {A} e : fixes (fail e : M St A).
Proof. done. Qed.
Lemma fixes_panic {A} x : fixes (panic x : M St A).
Proof. done. Qed.
Lemma fixes_get : fixes get.
Proof. done. Qed.
Lemma fixes_modify g : (∀ s, f (g s) = f s) → fixes (modify g).
Proof. intros Hg s _. apply Hg. Qed.
Lemma fixes_bind {A A'} (m : M St A) (k : A → M St A') : fixes m → (∀ a, fixes (k a)) → fixes (m ≫= k).
Proof.
  intros Hm Hk s Hs. specialize (Hm s Hs). unfold mbind, M_bind. destruct (m s) as [[a|e|x] s']; [|done|done]. cbn in *. rewrite Hk; [done|by rewrite Hm].
Qed.
Lemma fixes_get_bind {A} (k : St → M St A) : (∀ s, C (f s) → fixes (k s)) → fixes (s ← get; k s).
Proof. intros Hk s Hs. exact (Hk s Hs s Hs). Qed.
Lemma fixes_attempt {A} (m : M St A) : fixes m → fixes (attempt m).
Proof. intros Hm s Hs. specialize (Hm s Hs). unfold attempt. by destruct (m s) as [[a|e|x] s']. Qed.
Lemma fixes_ignore {A} (m : M St A) : fixes m → fixes (ignore_err m).
Proof. intros Hm. apply fixes_bind; [by apply fixes_attempt|done]. Qed.
Lemma fixes_defer {A} b (m : M St A) c : fixes m → fixes c → fixes (defer_when b m c).
Proof.
  intros Hm Hc s Hs. specialize (Hm s Hs). unfold defer_when. destruct (m s) as [[a|e|x] s']; [| |done]; cbn in Hm; specialize (Hc s' ltac:(by rewrite Hm)).
  - destruct (b a); [|done]. destruct (c s') as [[]?]; cbn in *; congruence.
  - destruct (c s') as [[]?]; cbn in *; congruence.
Qed.
Lemma fixes_for_each {A} (l : list A) g : (∀ x, fixes (g x)) → fixes (for_each l g).
Proof. intros Hg. induction l as [|x l IH]; [apply fixes_ret|]. by apply fixes_bind. Qed.
Lemma fixes_guard b e : fixes (guard_err b e).
Proof. by destruct b. Qed.
End Fixes.
Create HintDb fixdb.
#[export] Hint Resolve fixes_ret fixes_fail fixes_panic fixes_get fixes_attempt fixes_ignore fixes_defer fixes_for_each fixes_guard : fixdb.
(** Through the program, case by case. *)
Ltac fixing :=
  intros; repeat (cbn beta iota zeta; first
    [ by eauto with fixdb
    | match goal with
      | |- fixes _ _ (get ≫= _) => apply fixes_get_bind; intros
      | |- fixes _ _ (_ ≫= _) => apply fixes_bind; intros
      | |- fixes _ _ (attempt _) => apply fixes_attempt
      | |- fixes _ _ (ignore_err _) => apply fixes_ignore
      | |- fixes _ _ (defer_when _ _ _) => apply fixes_defer
      | |- fixes _ _ (defer_on_error _ _) => apply fixes_defer
      | |- fixes _ _ (for_each _ _) => apply fixes_for_each; intros
      | |- fixes _ _ (modify _) => apply fixes_modify; intros
      | |- fixes _ _ (if ?b then _ else _) => destruct b
      | |- fixes _ _ (match ?x with _ => _ end) => destruct x
      end ]).
