(* ===== verification/BytesPipe.v ===== *)
(** * Pipes of bytes

    [src/engine/pkg/ioutils/bytespipe.go] and [buffer.go]: the pipe that holds the
    output of a container between the goroutine that copies it and the clients that
    are attached.  A call holds the mutex of the pipe but while it waits, so the
    calls of several goroutines interleave where one waits. *)

From S2P Require Import Prelude.

(** ** [fixedBuffer] *)

(** What was written to the slice, [pos] bytes of it, and how many were read. *)
Record fixedBuffer := mkFB { fb_cap : Z; fb_data : list ascii; fb_lastRead : Z }.

Definition errBufferFull : error := Sentinel "buffer is full".
Definition ErrShortWrite : error := Sentinel "short write".
Definition ErrClosed : error := Sentinel "write to closed BytesPipe".
Definition EOF : error := Sentinel "EOF".

Definition zlen {A} (l : list A) : Z := Z.of_nat (length l).
Definition ztake {A} (n : Z) (l : list A) : list A := take (Z.to_nat n) l.
Definition zdrop {A} (n : Z) (l : list A) : list A := drop (Z.to_nat n) l.

Definition fb_pos (b : fixedBuffer) : Z := zlen (fb_data b).
(** [fixedBuffer.Write]. *)
Definition fb_Write (b : fixedBuffer) (p : list ascii) : Z * option error * fixedBuffer :=
  let n := ((fb_cap b - fb_pos b) `min` zlen p)%Z in
  let b' := mkFB (fb_cap b) (fb_data b ++ ztake n p) (fb_lastRead b) in
  (n, if (n <? zlen p)%Z then Some (if (fb_pos b' =? fb_cap b')%Z then errBufferFull else ErrShortWrite) else None, b').
(** [fixedBuffer.Len] and [fixedBuffer.Read]. *)
Definition fb_unread (b : fixedBuffer) : list ascii := zdrop (fb_lastRead b) (fb_data b).
Definition fb_Len (b : fixedBuffer) : Z := (fb_pos b - fb_lastRead b)%Z.
Definition fb_Read (b : fixedBuffer) (room : Z) : list ascii * fixedBuffer :=
  let read := ztake room (fb_unread b) in
  (read, mkFB (fb_cap b) (fb_data b) (fb_lastRead b + zlen read)).

(** ** [BytesPipe] *)

Definition maxCap : Z := 1000000.
Definition minCap : Z := 64.
Definition blockThreshold : Z := 1000000.

Record BytesPipe := mkBP { bp_buf : list fixedBuffer; bp_bufLen : Z; bp_closeErr : option error }.

(** [getBuffer]: the buffers of a pool are empty and of one size. *)
Definition getBuffer (size : Z) : fixedBuffer := mkFB size [] 0.
Definition NewBytesPipe : BytesPipe := mkBP [getBuffer minCap] 0 None.

(** How the part of a call between taking and giving up the mutex ends: with the
    result of the call, and whether it has woken the ones that wait; or waiting,
    with what the call still has to do. *)
Inductive ended :=
  | Wrote (written : Z) (err : option error) (broadcast : bool)
  | WaitWrite (p : list ascii) (written : Z) (cap : Z)
  | Got (data : list ascii) (err : option error) (broadcast : bool)
  | WaitRead (room : Z).

(** The second half of the loop of [BytesPipe.Write]: it waits while there is too much
    in the pipe, and goes on with a new buffer, twice as big as the last one was. *)
Definition write_grow (go : list ascii → Z → BytesPipe → option (ended * BytesPipe)) (p : list ascii) (written cap : Z) (bp : BytesPipe) :
    option (ended * BytesPipe) :=
  if (blockThreshold <=? bp_bufLen bp)%Z then Some (WaitWrite p written cap, bp)
  else
    let nextCap := (cap * 2)%Z in
    let nextCap := if (maxCap <? nextCap)%Z then maxCap else nextCap in
    go p written (mkBP (bp_buf bp ++ [getBuffer nextCap]) (bp_bufLen bp) (bp_closeErr bp)).
(** [BytesPipe.Write] from the label [loop0]. *)
Fixpoint write_from (fuel : nat) (p : list ascii) (written : Z) (bp : BytesPipe) : option (ended * BytesPipe) :=
  match fuel with
  | 0 => None
  | S fuel =>
      match bp_closeErr bp with
      | Some _ => Some (Wrote written (Some ErrClosed) false, bp)
      | None =>
          let bufs := if bool_decide (bp_buf bp = []) then [getBuffer 64] else bp_buf bp in
          let b := default (getBuffer 64) (last bufs) in
          let '(n, err, b') := fb_Write b p in
          let written := (written + n)%Z in
          let bp := mkBP (removelast bufs ++ [b']) (bp_bufLen bp + n) None in
          if match err with Some e => negb (bool_decide (e = errBufferFull)) | None => false end
          then Some (Wrote written err true, bp)
          else if (zlen p =? n)%Z then Some (Wrote written None true, bp)
          else write_grow (write_from fuel) (zdrop n p) written (fb_cap b) bp
      end
  end.
(** Every turn but the first takes a byte. *)
Definition write_fuel (p : list ascii) : nat := S (S (length p)).
Definition Write (p : list ascii) (bp : BytesPipe) : option (ended * BytesPipe) := write_from (write_fuel p) p 0 bp.
(** A writer that was woken. *)
Definition rewrite (p : list ascii) (written cap : Z) (bp : BytesPipe) : option (ended * BytesPipe) :=
  if bool_decide (is_Some (bp_closeErr bp)) then write_from (write_fuel p) p written bp
  else write_grow (write_from (write_fuel p)) p written cap bp.

(** [BytesPipe.CloseWithError] and [BytesPipe.Close]. *)
Definition CloseWithError (err : option error) (bp : BytesPipe) : BytesPipe :=
  mkBP (bp_buf bp) (bp_bufLen bp) (Some (default EOF err)).
Definition Close (bp : BytesPipe) : BytesPipe := CloseWithError None bp.

(** The loop of [BytesPipe.Read]; [None] if there is no first buffer. *)
Fixpoint read_loop (fuel : nat) (room : Z) (data : list ascii) (bp : BytesPipe) : option (list ascii * BytesPipe) :=
  match fuel with
  | 0 => None
  | S fuel =>
      if (bp_bufLen bp <=? 0)%Z then Some (data, bp)
      else
        match bp_buf bp with
        | [] => None
        | b :: rest =>
            let '(read, b) := fb_Read b room in
            let bufs := if (fb_Len b =? 0)%Z then rest else b :: rest in
            let bp := mkBP bufs (bp_bufLen bp - zlen read) (bp_closeErr bp) in
            if (room =? zlen read)%Z then Some (data ++ read, bp)
            else read_loop fuel (room - zlen read) (data ++ read) bp
        end
  end.
Definition read_all (room : Z) (bp : BytesPipe) : option (ended * BytesPipe) :=
  '(data, bp) ← read_loop (S (length (bp_buf bp))) room [] bp;
  Some (Got data None true, bp).
(** [BytesPipe.Read], up to its wait and after it. *)
Definition Read (room : Z) (bp : BytesPipe) : option (ended * BytesPipe) :=
  if (bp_bufLen bp =? 0)%Z then
    match bp_closeErr bp with
    | Some e => Some (Got [] (Some e) false, bp)
    | None => Some (WaitRead room, bp)
    end
  else read_all room bp.
Definition reread (room : Z) (bp : BytesPipe) : option (ended * BytesPipe) :=
  match bp_closeErr bp with
  | Some e => if (bp_bufLen bp =? 0)%Z then Some (Got [] (Some e) false, bp) else read_all room bp
  | None => read_all room bp
  end.

(** ** Goroutines *)

(** What a goroutine waits for, and whether it has been woken. *)
Inductive waiter := Writer (p : list ascii) (written cap : Z) | Reader (room : Z).
(** The pipe, the goroutines that are in [Wait], and all the bytes that went in and
    came out. *)
Record sys := mkSys { sy_pipe : BytesPipe; sy_wait : gmap nat (waiter * bool); sy_in : list ascii; sy_out : list ascii }.
Definition new_sys : sys := mkSys NewBytesPipe ∅ [] [].

Inductive op :=
  | OWrite (t : nat) (p : list ascii)
  | ORead (t : nat) (room : nat)
  | OWake (t : nat)
  | OClose (err : option error).

(** [Broadcast]. *)
Definition wake_all (w : gmap nat (waiter * bool)) : gmap nat (waiter * bool) := (λ x, (x.1, true)) <$> w.
(** What the end of a part does to the system; [p] is what a writer had left of its
    data, after [written] bytes. *)
Definition settle_part (t : nat) (p : list ascii) (written : Z) (x : ended * BytesPipe) (s : sys) : sys :=
  let w := delete t (sy_wait s) in
  match x with
  | (Wrote n _ b, bp) => mkSys bp (if b then wake_all w else w) (sy_in s ++ ztake (n - written) p) (sy_out s)
  | (WaitWrite q n cap, bp) => mkSys bp (<[t := (Writer q n cap, false)]> w) (sy_in s ++ ztake (n - written) p) (sy_out s)
  | (Got d _ b, bp) => mkSys bp (if b then wake_all w else w) (sy_in s) (sy_out s ++ d)
  | (WaitRead k, bp) => mkSys bp (<[t := (Reader k, false)]> w) (sy_in s) (sy_out s)
  end.
(** One goroutine has its turn; it does nothing where it cannot. *)
Definition turn (o : op) (s : sys) : option sys :=
  match o with
  | OWrite t p => if bool_decide (is_Some (sy_wait s !! t)) then Some s else (λ x, settle_part t p 0 x s) <$> Write p (sy_pipe s)
  | ORead t k => if bool_decide (is_Some (sy_wait s !! t)) then Some s else (λ x, settle_part t [] 0 x s) <$> Read (Z.of_nat k) (sy_pipe s)
  | OWake t =>
      match sy_wait s !! t with
      | Some (Writer p n cap, true) => (λ x, settle_part t p n x s) <$> rewrite p n cap (sy_pipe s)
      | Some (Reader k, true) => (λ x, settle_part t [] 0 x s) <$> reread k (sy_pipe s)
      | _ => Some s
      end
  | OClose err => Some (mkSys (CloseWithError err (sy_pipe s)) (wake_all (sy_wait s)) (sy_in s) (sy_out s))
  end.
Fixpoint turns (os : list op) (s : sys) : option sys :=
  match os with [] => Some s | o :: os => s ← turn o s; turns os s end.

(** ** The invariant *)

Definition buf_ok (b : fixedBuffer) : Prop := (0 ≤ fb_lastRead b ≤ fb_pos b ∧ fb_pos b ≤ fb_cap b ∧ minCap ≤ fb_cap b ≤ maxCap)%Z.
Definition content (bp : BytesPipe) : list ascii := concat (fb_unread <$> bp_buf bp).
(** The room the next write has without a new buffer. *)
Definition spare (bufs : list fixedBuffer) : Z := match last bufs with Some b => (fb_cap b - fb_pos b)%Z | None => 64%Z end.
Record pipe_ok (bp : BytesPipe) : Prop := {
  pk_bufs : Forall buf_ok (bp_buf bp);
  pk_len : bp_bufLen bp = zlen (content bp);
  pk_bound : (bp_bufLen bp + spare (bp_buf bp) < blockThreshold + maxCap)%Z;
}.

Lemma zlen_app {A} (l k : list A) : zlen (l ++ k) = (zlen l + zlen k)%Z.
Proof. unfold zlen. rewrite length_app. lia. Qed.
Lemma zlen_nonneg {A} (l : list A) : (0 ≤ zlen l)%Z.
Proof. unfold zlen. lia. Qed.
Lemma zlen_ztake {A} n (l : list A) : (0 ≤ n ≤ zlen l)%Z → zlen (ztake n l) = n.
Proof. unfold zlen, ztake. rewrite length_take. lia. Qed.
Lemma zlen_zdrop {A} n (l : list A) : (0 ≤ n ≤ zlen l)%Z → zlen (zdrop n l) = (zlen l - n)%Z.
Proof. unfold zlen, zdrop. rewrite length_drop. lia. Qed.
Lemma ztake_all {A} n (l : list A) : (zlen l ≤ n)%Z → ztake n l = l.
Proof. unfold zlen, ztake. intros H. apply take_ge. lia. Qed.
Lemma ztake_zdrop {A} n (l : list A) : ztake n l ++ zdrop n l = l.
Proof. apply take_drop. Qed.
Lemma ztake_add {A} n m (l : list A) : (0 ≤ n)%Z → (0 ≤ m)%Z → ztake (n + m) l = ztake n l ++ ztake m (zdrop n l).
Proof. intros Hn Hm. unfold ztake, zdrop. rewrite Z2Nat.inj_add by done. by rewrite take_take_drop. Qed.
Lemma zdrop_zdrop {A} n m (l : list A) : (0 ≤ n)%Z → (0 ≤ m)%Z → zdrop m (zdrop n l) = zdrop (n + m) l.
Proof. intros Hn Hm. unfold zdrop. rewrite drop_drop, Z2Nat.inj_add by done. done. Qed.
Lemma zlen_nil {A} (l : list A) : zlen l = 0%Z → l = [].
Proof. unfold zlen. destruct l; [done|]. cbn. lia. Qed.

Lemma new_buffer_ok size : (minCap ≤ size ≤ maxCap)%Z → buf_ok (getBuffer size).
Proof. unfold buf_ok, getBuffer, fb_pos, zlen, minCap. cbn. lia. Qed.
Lemma unread_len b : buf_ok b → zlen (fb_unread b) = fb_Len b.
Proof. intros (H1&H2&_). unfold fb_unread, fb_Len, fb_pos in *. by rewrite zlen_zdrop. Qed.
Lemma content_snoc bufs b n c : content (mkBP (bufs ++ [b]) n c) = concat (fb_unread <$> bufs) ++ fb_unread b.
Proof. unfold content. cbn. rewrite fmap_app, concat_app. cbn. by rewrite app_nil_r. Qed.

(** A write to a buffer takes what fits. *)
Lemma fb_write_ok b p : buf_ok b →
  ∃ n b', (0 ≤ n ≤ zlen p)%Z ∧ buf_ok b' ∧ fb_unread b' = fb_unread b ++ ztake n p ∧ fb_cap b' = fb_cap b ∧
    (fb_cap b' - fb_pos b' = fb_cap b - fb_pos b - n)%Z ∧
    ((n = zlen p ∧ fb_Write b p = (n, None, b')) ∨ (n < zlen p ∧ n = fb_cap b - fb_pos b ∧ fb_Write b p = (n, Some errBufferFull, b'))%Z).
Proof.
  intros (Hr&Hc&Hm). set (n := ((fb_cap b - fb_pos b) `min` zlen p)%Z). pose proof (zlen_nonneg p) as Hp.
  set (b' := mkFB (fb_cap b) (fb_data b ++ ztake n p) (fb_lastRead b)).
  assert (0 ≤ n ≤ zlen p)%Z as Hn by (unfold n; lia).
  assert (fb_pos b' = fb_pos b + n)%Z as Hpos by (unfold fb_pos, b'; cbn; by rewrite zlen_app, zlen_ztake).
  exists n, b'. split_and!; [lia..| | | | |].
  - unfold buf_ok. rewrite Hpos. unfold b'. cbn [fb_lastRead fb_cap]. unfold n. lia.
  - unfold fb_unread, b', zdrop. cbn. rewrite drop_app_le; [done|]. unfold fb_pos, zlen in Hr. lia.
  - done.
  - rewrite Hpos. unfold b'. cbn [fb_cap]. lia.
  - unfold fb_Write. fold n. fold b'. destruct (Z.ltb_spec n (zlen p)) as [Hlt|Hge]; [right|left; split; [lia|done]].
    split_and!; [done|unfold n in *; lia|]. rewrite (proj2 (Z.eqb_eq _ _)); [done|]. rewrite Hpos. unfold b'. cbn [fb_cap]. unfold n in *. lia.
Qed.

(** ** Writing *)

(** How a part of a write ends that begins with [p] left of the data, after [w] bytes:
    it took [k] of them. *)
Definition write_ended (p : list ascii) (w : Z) (bp : BytesPipe) (k : Z) (x : ended) (bp' : BytesPipe) : Prop :=
  (0 ≤ k ≤ zlen p)%Z ∧ content bp' = content bp ++ ztake k p ∧ bp_closeErr bp' = bp_closeErr bp ∧
  match x with
  | Wrote n None b => n = (w + k)%Z ∧ k = zlen p ∧ b = true
  | Wrote n (Some e) b => n = (w + k)%Z ∧ k = 0%Z ∧ e = ErrClosed ∧ is_Some (bp_closeErr bp) ∧ b = false ∧ bp' = bp
  | WaitWrite q n cap =>
      n = (w + k)%Z ∧ q = zdrop k p ∧ (k < zlen p)%Z ∧ (minCap ≤ cap ≤ maxCap)%Z ∧ (blockThreshold ≤ bp_bufLen bp')%Z ∧ bp_closeErr bp = None
  | _ => False
  end.

(** The last buffer takes what fits. *)
Lemma write_last bp p : pipe_ok bp →
  let bufs := if bool_decide (bp_buf bp = []) then [getBuffer 64] else bp_buf bp in
  let b := default (getBuffer 64) (last bufs) in
  ∃ n b', let bp' := mkBP (removelast bufs ++ [b']) (bp_bufLen bp + n) None in
    (0 ≤ n ≤ zlen p)%Z ∧ pipe_ok bp' ∧ content bp' = content bp ++ ztake n p ∧ (minCap ≤ fb_cap b ≤ maxCap)%Z ∧
    ((n = zlen p ∧ fb_Write b p = (n, None, b')) ∨ (n < zlen p ∧ n = spare (bp_buf bp) ∧ fb_Write b p = (n, Some errBufferFull, b'))%Z).
Proof.
  intros [Hbufs Hlen Hbound]. cbn zeta.
  set (bufs := if bool_decide (bp_buf bp = []) then [getBuffer 64] else bp_buf bp).
  assert (∃ init b, bufs = init ++ [b] ∧ Forall buf_ok init ∧ buf_ok b ∧ content bp = concat (fb_unread <$> init) ++ fb_unread b ∧
    spare (bp_buf bp) = (fb_cap b - fb_pos b)%Z) as (init&b&Hb&Hinit&Hok&Hcont&Hsp).
  { unfold bufs. case_bool_decide as He.
    - exists [], (getBuffer 64). split_and!; [done|constructor|apply new_buffer_ok; unfold minCap, maxCap; lia| |].
      + unfold content. by rewrite He.
      + by rewrite He.
    - destruct (exists_last He) as (init&b&Hbuf). exists init, b. rewrite Hbuf in Hbufs. apply Forall_app in Hbufs as [? Hb]. rewrite Forall_singleton in Hb.
      split_and!; [done..| |].
      + unfold content. rewrite Hbuf, fmap_app, concat_app. cbn. by rewrite app_nil_r.
      + unfold spare. by rewrite Hbuf, last_snoc. }
  rewrite Hb, last_snoc, removelast_last. cbn [default].
  destruct (fb_write_ok b p Hok) as (n&b'&Hn&Hok'&Hun&Hcap&Hfree&Hres). exists n, b'.
  split; [done|]. split; [|split; [|split; [apply Hok|]]].
  - split; cbn [bp_buf bp_bufLen].
    + apply Forall_app. by split; [|apply Forall_singleton].
    + rewrite content_snoc, Hun, app_assoc, <-Hcont, zlen_app, zlen_ztake, Hlen by done. done.
    + unfold spare. rewrite last_snoc. rewrite Hsp in Hbound. lia.
  - rewrite content_snoc, Hun, app_assoc, <-Hcont. done.
  - rewrite Hsp. exact Hres.
Qed.

Lemma write_from_ok fuel : ∀ p w bp, pipe_ok bp → length p + (if (spare (bp_buf bp) =? 0)%Z then 2 else 1) ≤ fuel →
  ∃ x bp' k, write_from fuel p w bp = Some (x, bp') ∧ pipe_ok bp' ∧ write_ended p w bp k x bp'.
Proof.
  induction fuel as [|fuel IH]; intros p w bp Hok Hfuel; [destruct (_ =? _)%Z in Hfuel; lia|]. cbn [write_from]. pose proof (zlen_nonneg p) as Hp.
  destruct (bp_closeErr bp) as [e|] eqn:Hce.
  { exists (Wrote w (Some ErrClosed) false), bp, 0%Z. split; [done|]. split; [done|]. split; [lia|]. rewrite app_nil_r. split_and!; try done; lia. }
  destruct (write_last bp p Hok) as (n&b'&Hn&Hok'&Hcont&Hcap&Hres). cbn zeta in *.
  destruct Hres as [[Hall ->]|(Hlt&Hsp&->)].
  { rewrite (proj2 (Z.eqb_eq _ _)) by done. eexists _, _, n. split; [done|]. split; [exact Hok'|]. split_and!; try done; lia || congruence. }
  rewrite bool_decide_eq_true_2 by done. cbn [negb]. rewrite (proj2 (Z.eqb_neq _ _)) by lia. unfold write_grow. cbn [bp_bufLen bp_buf bp_closeErr].
  destruct (Z.leb_spec blockThreshold (bp_bufLen bp + n)) as [Hge|Hless].
  { eexists _, _, n. split; [done|]. split; [exact Hok'|]. split_and!; try done; lia || congruence. }
  set (c := if (maxCap <? _)%Z then maxCap else _). assert (minCap ≤ c ≤ maxCap)%Z as Hc by (unfold c, minCap, maxCap in *; destruct (Z.ltb_spec 1000000 (fb_cap (default (getBuffer 64) (last (if bool_decide (bp_buf bp = []) then [getBuffer 64] else bp_buf bp))) * 2)); lia).
  set (bp1 := mkBP _ _ _). assert (content bp1 = content bp ++ ztake n p) as Hc1.
  { unfold bp1. rewrite content_snoc. unfold content in Hcont. cbn in Hcont. rewrite Hcont. apply app_nil_r. }
  assert (pipe_ok bp1) as Hok1.
  { destruct Hok' as [Hb Hl _]. split; unfold bp1; cbn [bp_buf bp_bufLen].
    - apply Forall_app. split; [done|]. apply Forall_singleton. by apply new_buffer_ok.
    - cbn in Hl. rewrite Hl, content_snoc. unfold content. cbn. by rewrite app_nil_r.
    - unfold spare. rewrite last_snoc. change (fb_pos (getBuffer c)) with 0%Z. cbn [fb_cap getBuffer]. lia. }
  destruct (IH (zdrop n p) (w + n)%Z bp1 Hok1) as (x&bp'&k&Hrun&Hok2&Hend).
  { unfold spare, bp1. cbn [bp_buf]. rewrite last_snoc. change (fb_pos (getBuffer c)) with 0%Z. cbn [fb_cap getBuffer].
    rewrite (proj2 (Z.eqb_neq _ _)) by (unfold minCap in *; lia).
    unfold zdrop. rewrite length_drop. unfold zlen in *. destruct (Z.eqb_spec (spare (bp_buf bp)) 0); lia. }
  exists x, bp', (n + k)%Z. split; [exact Hrun|]. split; [done|]. destruct Hend as (Hk&Hcont'&Hce'&Hx). rewrite zlen_zdrop in * by lia.
  split; [lia|]. split; [rewrite Hcont', Hc1, ztake_add, app_assoc by lia; done|]. split; [by rewrite Hce', Hce|].
  destruct x as [m [e|] b|q m cap|? ? ?|?]; [|..|done|done].
  - by destruct Hx as (_&_&_&[? ?]&_).
  - destruct Hx as (->&->&->). split_and!; [lia|lia|done].
  - destruct Hx as (->&->&Hlt'&Hcap'&Hth&_). split_and!; try done; try lia. by rewrite zdrop_zdrop by lia.
Qed.

Lemma write_fuel_ok p bp : length p + (if (spare (bp_buf bp) =? 0)%Z then 2 else 1) ≤ write_fuel p.
Proof. unfold write_fuel. destruct (_ =? _)%Z; lia. Qed.
Lemma Write_ok p bp : pipe_ok bp → ∃ x bp' k, Write p bp = Some (x, bp') ∧ pipe_ok bp' ∧ write_ended p 0 bp k x bp'.
Proof. intros Hok. apply write_from_ok; [done|apply write_fuel_ok]. Qed.
(** A writer that was woken goes on where it was. *)
Lemma rewrite_ok p w cap bp : pipe_ok bp → (minCap ≤ cap ≤ maxCap)%Z → p ≠ [] →
  ∃ x bp' k, rewrite p w cap bp = Some (x, bp') ∧ pipe_ok bp' ∧ write_ended p w bp k x bp'.
Proof.
  intros Hok Hcap Hne. unfold rewrite. case_bool_decide as Hc; [apply write_from_ok; [done|apply write_fuel_ok]|].
  assert (0 < zlen p)%Z as Hp by (destruct p; [done|]; unfold zlen; cbn; lia).
  assert (bp_closeErr bp = None) as Hce by (destruct (bp_closeErr bp); [by destruct Hc|done]).
  unfold write_grow. destruct (Z.leb_spec blockThreshold (bp_bufLen bp)) as [Hge|Hless].
  { exists (WaitWrite p w cap), bp, 0%Z. split; [done|]. split; [done|]. split; [lia|]. rewrite app_nil_r. split_and!; try done; lia. }
  set (c := if (maxCap <? cap * 2)%Z then maxCap else (cap * 2)%Z).
  assert (minCap ≤ c ≤ maxCap)%Z as Hcc by (unfold c, minCap, maxCap in *; destruct (Z.ltb_spec 1000000 (cap * 2)); lia).
  set (bp1 := mkBP _ _ _). assert (content bp1 = content bp) as Hc1 by (unfold bp1; rewrite content_snoc; apply app_nil_r).
  destruct (write_from_ok (write_fuel p) p w bp1) as (x&bp'&k&Hrun&Hok'&Hk&Hcont&Hce'&Hx).
  - destruct Hok as [Hb Hl _]. split; unfold bp1; cbn [bp_buf bp_bufLen].
    + apply Forall_app. split; [done|]. apply Forall_singleton. by apply new_buffer_ok.
    + by fold bp1; rewrite Hc1.
    + unfold spare. rewrite last_snoc. change (fb_pos (getBuffer c)) with 0%Z. cbn [fb_cap getBuffer]. lia.
  - apply write_fuel_ok.
  - exists x, bp', k. split; [exact Hrun|]. split; [done|]. split; [done|]. rewrite Hcont, Hc1. split; [done|]. split; [done|].
    destruct x as [m [e|] b|q m cp|? ? ?|?]; try done. destruct Hx as (_&_&_&[? ?]&_). cbn in *. congruence.
Qed.

(** ** Reading *)

Lemma content_nil bp : pipe_ok bp → bp_bufLen bp = 0%Z ↔ content bp = [].
Proof. intros [_ Hl _]. rewrite Hl. split; [apply zlen_nil|by intros ->]. Qed.
(** A read from a buffer: what is read comes first, and the buffer is kept if there is more. *)
Lemma fb_read_ok b room : buf_ok b → (0 ≤ room)%Z →
  ∃ read b', fb_Read b room = (read, b') ∧ buf_ok b' ∧ fb_unread b = read ++ fb_unread b' ∧ (zlen read ≤ room)%Z ∧
    (fb_unread b' ≠ [] → zlen read = room) ∧ fb_cap b' = fb_cap b ∧ fb_pos b' = fb_pos b.
Proof.
  intros Hok Hroom. pose proof (unread_len b Hok) as Hl. destruct Hok as (Hr&Hc&Hm). set (read := ztake room (fb_unread b)). pose proof (zlen_nonneg read) as Hrd.
  assert (zlen read = room `min` zlen (fb_unread b))%Z as Hlr by (unfold read, zlen, ztake; rewrite length_take; lia).
  set (b' := mkFB (fb_cap b) (fb_data b) (fb_lastRead b + zlen read)). exists read, b'. unfold fb_Len in Hl.
  assert (fb_unread b = read ++ fb_unread b') as Hsplit.
  { unfold b', fb_unread at 2. cbn. rewrite <-zdrop_zdrop by lia. fold (fb_unread b). rewrite <-(ztake_zdrop room (fb_unread b)) at 1. fold read. f_equal.
    destruct (Z.le_ge_cases room (zlen (fb_unread b))) as [Hle|Hge]; [by rewrite Hlr, Z.min_l|].
    unfold zdrop. rewrite !drop_ge; [done|unfold zlen in *; lia..]. }
  split; [done|]. split; [|split; [done|split; [lia|split; [|done]]]].
  - unfold buf_ok, b', fb_pos in *. cbn [fb_lastRead fb_data fb_cap]. lia.
  - intros Hne. destruct (Z.le_ge_cases room (zlen (fb_unread b))) as [|Hge]; [lia|]. destruct Hne.
    rewrite Z.min_r in Hlr by lia. apply zlen_nil. rewrite Hsplit, zlen_app in Hlr. lia.
Qed.
(** The first buffer is read, and goes when it is empty. *)
Lemma read_first bp b rest read b' : pipe_ok bp → bp_buf bp = b :: rest → buf_ok b' → fb_unread b = read ++ fb_unread b' →
  fb_cap b' = fb_cap b → fb_pos b' = fb_pos b →
  let bp' := mkBP (if (fb_Len b' =? 0)%Z then rest else b' :: rest) (bp_bufLen bp - zlen read) (bp_closeErr bp) in
  pipe_ok bp' ∧ content bp = read ++ content bp'.
Proof.
  intros [Hbufs Hl Hbound] Hb Hok' Hun Hcap Hpos. cbn zeta. set (bp' := mkBP _ _ _). rewrite Hb in Hbufs. apply Forall_cons in Hbufs as [Hok Hrest].
  assert (content bp = read ++ content bp') as Hc.
  { unfold content, bp'. rewrite Hb. cbn. rewrite Hun, <-app_assoc. f_equal. pose proof (unread_len b' Hok') as Hlen.
    destruct (Z.eqb_spec (fb_Len b') 0) as [He|Hne]; [|done]. rewrite He in Hlen. by rewrite (zlen_nil _ Hlen). }
  split; [|done]. assert (bp_bufLen bp' = zlen (content bp')) as Hlen'.
  { unfold bp'. cbn [bp_bufLen]. fold bp'. rewrite Hl, Hc, zlen_app. lia. }
  pose proof (zlen_nonneg read) as Hrd. split; [| exact Hlen' |].
  - unfold bp'. cbn. destruct (_ =? _)%Z; [done|]. by constructor.
  - unfold bp'. cbn [bp_buf bp_bufLen]. destruct rest as [|b2 rest]; cbn [bp_buf].
    + rewrite Hb in Hbound. unfold spare in Hbound. cbn in Hbound. destruct (Z.eqb_spec (fb_Len b') 0) as [He|Hne].
      * assert (content bp' = []) as Hnil by done. rewrite Hnil in Hlen'.
        unfold bp' in Hlen'. cbn [bp_bufLen] in Hlen'. change (zlen ([] : list ascii)) with 0%Z in Hlen'. change (spare []) with 64%Z. unfold blockThreshold, maxCap. lia.
      * unfold spare. cbn. rewrite Hcap, Hpos. lia.
    + assert (spare (bp_buf bp) = spare (b2 :: rest)) as Hsp by (by rewrite Hb). destruct (_ =? _)%Z; [lia|].
      change (spare (b' :: b2 :: rest)) with (spare (b2 :: rest)). lia.
Qed.
Lemma read_loop_ok fuel : ∀ room data bp, pipe_ok bp → (0 ≤ room)%Z → length (bp_buf bp) < fuel →
  ∃ d bp', read_loop fuel room data bp = Some (data ++ d, bp') ∧ pipe_ok bp' ∧ content bp = d ++ content bp' ∧
    bp_closeErr bp' = bp_closeErr bp ∧ zlen d = (room `min` bp_bufLen bp)%Z.
Proof.
  induction fuel as [|fuel IH]; intros room data bp Hok Hroom Hfuel; [lia|]. cbn [read_loop].
  destruct (Z.leb_spec (bp_bufLen bp) 0) as [Hz|Hpos].
  { exists [], bp. rewrite app_nil_r. split_and!; try done. pose proof (zlen_nonneg (content bp)). pose proof (pk_len _ Hok). change (zlen ([] : list ascii)) with 0%Z. lia. }
  destruct (bp_buf bp) as [|b rest] eqn:Hb.
  { rewrite (pk_len _ Hok) in Hpos. unfold content in Hpos. rewrite Hb in Hpos. change (zlen _) with 0%Z in Hpos. lia. }
  assert (buf_ok b) as Hbok by (pose proof (pk_bufs _ Hok) as H; rewrite Hb in H; by apply Forall_cons in H as [? _]).
  destruct (fb_read_ok b room Hbok Hroom) as (read&b'&->&Hbok'&Hun&Hle&Hfull&Hcap&Hps).
  destruct (read_first bp b rest read b' Hok Hb Hbok' Hun Hcap Hps) as [Hok' Hc]. cbn zeta in *. set (bp1 := mkBP _ _ _) in *.
  pose proof (pk_len _ Hok) as Hl. rewrite Hc, zlen_app, <-(pk_len _ Hok') in Hl. pose proof (zlen_nonneg (content bp1)) as Hnn. rewrite <-(pk_len _ Hok') in Hnn.
  destruct (Z.eqb_spec room (zlen read)) as [Heq|Hne].
  { exists read, bp1. split_and!; try done. lia. }
  assert (fb_Len b' = 0%Z) as Hempty.
  { rewrite <-unread_len by done. destruct (fb_unread b') eqn:Hu; [done|]. rewrite Hfull in Hne; done. }
  destruct (IH (room - zlen read)%Z (data ++ read) bp1 Hok') as (d&bp'&Hrun&Hok2&Hc2&Hce&Hd).
  { lia. }
  { unfold bp1. cbn [bp_buf]. rewrite (proj2 (Z.eqb_eq _ _) Hempty). cbn in Hfuel. lia. }
  exists (read ++ d), bp'. rewrite Hrun, app_assoc. split_and!; try done.
  - by rewrite Hc, Hc2, app_assoc.
  - rewrite zlen_app, Hd. lia.
Qed.

(** How a part of a read ends. *)
Definition read_ended (room : Z) (bp : BytesPipe) (x : ended) (bp' : BytesPipe) : Prop :=
  match x with
  | Got d None b => content bp = d ++ content bp' ∧ zlen d = (room `min` bp_bufLen bp)%Z ∧ b = true ∧ bp_closeErr bp' = bp_closeErr bp
  | Got d (Some e) b => d = [] ∧ bp_closeErr bp = Some e ∧ bp_bufLen bp = 0%Z ∧ b = false ∧ bp' = bp
  | WaitRead k => k = room ∧ bp_bufLen bp = 0%Z ∧ bp_closeErr bp = None ∧ bp' = bp
  | _ => False
  end.
Lemma read_all_ok room bp : pipe_ok bp → (0 ≤ room)%Z → ∃ x bp', read_all room bp = Some (x, bp') ∧ pipe_ok bp' ∧ read_ended room bp x bp'.
Proof.
  intros Hok Hroom. destruct (read_loop_ok (S (length (bp_buf bp))) room [] bp Hok Hroom) as (d&bp'&Hrun&Hok'&Hc&Hce&Hd); [lia|].
  exists (Got d None true), bp'. unfold read_all. rewrite Hrun. by split_and!.
Qed.
Lemma Read_ok room bp : pipe_ok bp → (0 ≤ room)%Z → ∃ x bp', Read room bp = Some (x, bp') ∧ pipe_ok bp' ∧ read_ended room bp x bp'.
Proof.
  intros Hok Hroom. unfold Read. destruct (Z.eqb_spec (bp_bufLen bp) 0) as [Hz|Hnz]; [|by apply read_all_ok].
  destruct (bp_closeErr bp) as [e|] eqn:Hce; (eexists _, bp; split; [done|]; split; [done|]; by split_and!).
Qed.
Lemma reread_ok room bp : pipe_ok bp → (0 ≤ room)%Z → ∃ x bp', reread room bp = Some (x, bp') ∧ pipe_ok bp' ∧ read_ended room bp x bp'.
Proof.
  intros Hok Hroom. unfold reread. destruct (bp_closeErr bp) as [e|] eqn:Hce; [|by apply read_all_ok].
  destruct (Z.eqb_spec (bp_bufLen bp) 0) as [Hz|Hnz]; [|by apply read_all_ok]. eexists _, bp. split; [done|]. split; [done|]. by split_and!.
Qed.

(** ** All interleavings *)

Definition waiter_ok (w : waiter) : Prop :=
  match w with Writer p _ cap => p ≠ [] ∧ (minCap ≤ cap ≤ maxCap)%Z | Reader k => (0 ≤ k)%Z end.
Record sys_ok (s : sys) : Prop := {
  so_pipe : pipe_ok (sy_pipe s);
  so_fifo : sy_in s = sy_out s ++ content (sy_pipe s);
  so_wait : ∀ t x, sy_wait s !! t = Some x → waiter_ok x.1;
}.
Lemma wake_lookup w t x : wake_all w !! t = Some x → x.2 = true ∧ ∃ b, w !! t = Some (x.1, b).
Proof. unfold wake_all. rewrite lookup_fmap. destruct (w !! t) as [[y b]|]; [|done]. intros [= <-]. split; [done|]. by exists b. Qed.
Lemma wait_after w t t' x (b : bool) : (if b then wake_all (delete t w) else delete t w) !! t' = Some x → t' ≠ t ∧ ∃ c, w !! t' = Some (x.1, c) ∧ (x.2 = true ∨ b = false ∧ x.2 = c).
Proof.
  destruct b.
  - intros [H [c Hc]]%wake_lookup. apply lookup_delete_Some in Hc as [Hne Hc]. split; [done|]. eauto.
  - intros [Hne Hc]%lookup_delete_Some. split; [done|]. exists x.2. destruct x. eauto.
Qed.
Lemma wait_entered (w : gmap nat (waiter * bool)) t t' x y : <[t := y]> (delete t w) !! t' = Some x → t' = t ∧ x = y ∨ t' ≠ t ∧ w !! t' = Some x.
Proof. intros [[-> ->]|[Hne [_ H]%lookup_delete_Some]]%lookup_insert_Some; [by left|]. right. by split. Qed.

Lemma settle_write s t p w x bp' k : sys_ok s → pipe_ok bp' → write_ended p w (sy_pipe s) k x bp' → sys_ok (settle_part t p w (x, bp') s).
Proof.
  intros [Hp Hf Hw] Hp' (Hk&Hc&_&Hx). destruct x as [n e b|q n cap|? ? ?|?]; [| |by destruct Hx|by destruct Hx].
  - assert (n = w + k)%Z as -> by (destruct e; apply Hx). cbn. split; cbn; [done| |].
    + rewrite Hf, Hc, app_assoc. by replace (w + k - w)%Z with k by lia.
    + intros t' y (_&c&Hy&_)%wait_after. by apply (Hw t' (y.1, c)).
  - destruct Hx as (->&->&Hlt&Hcap&_). split; cbn; [done| |].
    + rewrite Hf, Hc, app_assoc. by replace (w + k - w)%Z with k by lia.
    + intros t' y [[-> ->]|[_ Hy]]%wait_entered; [|by apply (Hw t')]. split; [|done]. intros Hnil.
      assert (zlen (zdrop k p) = zlen p - k)%Z as Hl by (by apply zlen_zdrop). rewrite Hnil in Hl. change (zlen ([] : list ascii)) with 0%Z in Hl. lia.
Qed.
Lemma settle_read s t k x bp' : sys_ok s → pipe_ok bp' → (0 ≤ k)%Z → read_ended k (sy_pipe s) x bp' → sys_ok (settle_part t [] 0 (x, bp') s).
Proof.
  intros [Hp Hf Hw] Hp' Hk Hx. destruct x as [? ? ?|? ? ?|d e b|room]; [by destruct Hx|by destruct Hx| |].
  - assert (content (sy_pipe s) = d ++ content bp') as Hc by (destruct e; [by destruct Hx as (->&_&_&_&->)|apply Hx]).
    split; cbn; [done|by rewrite Hf, Hc, app_assoc|]. intros t' y (_&c&Hy&_)%wait_after. by apply (Hw t' (y.1, c)).
  - destruct Hx as (->&_&_&->). split; cbn; [done|done|]. intros t' y [[-> ->]|[_ Hy]]%wait_entered; [done|by apply (Hw t')].
Qed.
(** Every turn ends: no buffer is missing, and no loop runs for ever. *)
Lemma turn_ok o s : sys_ok s → ∃ s', turn o s = Some s' ∧ sys_ok s'.
Proof.
  intros Hok. pose proof (so_pipe _ Hok) as Hp. destruct o as [t p|t k|t|err]; cbn [turn].
  - case_bool_decide; [by exists s|]. destruct (Write_ok p (sy_pipe s) Hp) as (x&bp'&n&->&Hp'&Hx). eexists. split; [done|]. by eapply settle_write.
  - case_bool_decide; [by exists s|]. destruct (Read_ok (Z.of_nat k) (sy_pipe s) Hp) as (x&bp'&->&Hp'&Hx); [lia|]. eexists. split; [done|].
    eapply settle_read; [done|done| |done]. lia.
  - destruct (sy_wait s !! t) as [[[p n cap|k] []]|] eqn:Hw; try (by exists s); pose proof (so_wait _ Hok _ _ Hw) as Hwk; cbn in Hwk.
    + destruct Hwk as [Hne Hcap]. destruct (rewrite_ok p n cap (sy_pipe s) Hp Hcap Hne) as (x&bp'&k&->&Hp'&Hx). eexists. split; [done|]. by eapply settle_write.
    + destruct (reread_ok k (sy_pipe s) Hp Hwk) as (x&bp'&->&Hp'&Hx). eexists. split; [done|]. by eapply settle_read.
  - eexists. split; [done|]. destruct Hok as [[? ? ?] ? Hw]. split; cbn; [by split|done|]. intros t x [_ [b Hb]]%wake_lookup. by apply (Hw t (x.1, b)).
Qed.
Lemma turns_ok os : ∀ s, sys_ok s → ∃ s', turns os s = Some s' ∧ sys_ok s'.
Proof.
  induction os as [|o os IH]; intros s Hok; [by exists s|]. destruct (turn_ok o s Hok) as (s1&H1&Hok1). cbn. rewrite H1. by apply IH.
Qed.
Lemma new_sys_ok : sys_ok new_sys.
Proof.
  split; cbn; [|done|intros t x H; by rewrite lookup_empty in H].
  split; [|done|]; cbn; [|by vm_compute]. apply Forall_singleton, new_buffer_ok. unfold minCap, maxCap. lia.
Qed.

(** ** Nobody sleeps for nothing *)

(** The goroutines that were not woken wait for what is not there yet. *)
Definition sleeps_rightly (bp : BytesPipe) (w : waiter) : Prop :=
  bp_closeErr bp = None ∧ match w with Reader _ => bp_bufLen bp = 0%Z | Writer _ _ _ => (blockThreshold ≤ bp_bufLen bp)%Z end.
Definition small (w : waiter) : Prop := match w with Writer p _ _ => (zlen p ≤ blockThreshold)%Z | Reader _ => True end.
Record awake (s : sys) : Prop := {
  aw_sleep : ∀ t w, sy_wait s !! t = Some (w, false) → sleeps_rightly (sy_pipe s) w;
  aw_small : ∀ t x, sy_wait s !! t = Some x → small x.1;
}.
Lemma settle_write_awake s t p w x bp' k : sys_ok s → awake s → (zlen p ≤ blockThreshold)%Z → pipe_ok bp' →
  write_ended p w (sy_pipe s) k x bp' → awake (settle_part t p w (x, bp') s).
Proof.
  intros Hok [Hs Hsm] Hlen Hp' (Hk&Hc&Hce&Hx). destruct x as [n e b|q n cap|? ? ?|?]; [| |by destruct Hx|by destruct Hx].
  - split; cbn.
    + intros t' y (_&c&Hy&[?|[-> <-]])%wait_after; [done|]. cbn in Hy. destruct e as [e|]; [destruct Hx as (_&_&_&_&_&->)|by destruct Hx as (_&_&?)]. by apply (Hs t').
    + intros t' y (_&c&Hy&_)%wait_after. by apply (Hsm t' (y.1, c)).
  - destruct Hx as (->&->&Hlt&Hcap&Hth&Hopen). split; cbn.
    + intros t' y [[-> [= ->]]|[_ Hy]]%wait_entered; [by split; [rewrite Hce|]|]. destruct (Hs t' y Hy) as [_ Hy']. split; [by rewrite Hce|].
      destruct y as [p' n' cap'|room]; [done|]. exfalso. rewrite (pk_len _ Hp'), Hc, zlen_app, <-(pk_len _ (so_pipe _ Hok)), Hy', zlen_ztake in Hth by done. lia.
    + intros t' y [[-> ->]|[_ Hy]]%wait_entered; [|by apply (Hsm t')]. cbn. rewrite zlen_zdrop by done. lia.
Qed.
Lemma settle_read_awake s t k x bp' : awake s → read_ended k (sy_pipe s) x bp' → awake (settle_part t [] 0 (x, bp') s).
Proof.
  intros [Hs Hsm] Hx. destruct x as [? ? ?|? ? ?|d e b|room]; [by destruct Hx|by destruct Hx| |].
  - split; cbn.
    + intros t' y (_&c&Hy&[?|[-> <-]])%wait_after; [done|]. cbn in Hy. destruct e as [e|]; [destruct Hx as (_&_&_&_&->)|by destruct Hx as (_&_&?&_)]. by apply (Hs t').
    + intros t' y (_&c&Hy&_)%wait_after. by apply (Hsm t' (y.1, c)).
  - destruct Hx as (->&Hz&Hopen&->). split; cbn.
    + intros t' y [[-> [= ->]]|[_ Hy]]%wait_entered; [by split|by apply (Hs t')].
    + intros t' y [[-> ->]|[_ Hy]]%wait_entered; [done|by apply (Hsm t')].
Qed.
(** Writes of a size that never fills a pipe alone. *)
Definition op_small (o : op) : Prop := match o with OWrite _ p => (zlen p ≤ blockThreshold)%Z | _ => True end.
Lemma turn_awake o s s' : sys_ok s → awake s → op_small o → turn o s = Some s' → awake s'.
Proof.
  intros Hok Haw Ho. pose proof (so_pipe _ Hok) as Hp. destruct o as [t p|t k|t|err]; cbn [turn].
  - case_bool_decide; [by intros [= <-]|]. destruct (Write_ok p (sy_pipe s) Hp) as (x&bp'&n&->&Hp'&Hx). intros [= <-]. by eapply settle_write_awake.
  - case_bool_decide; [by intros [= <-]|]. destruct (Read_ok (Z.of_nat k) (sy_pipe s) Hp) as (x&bp'&->&Hp'&Hx); [lia|]. intros [= <-]. by eapply settle_read_awake.
  - destruct (sy_wait s !! t) as [[[p n cap|k] []]|] eqn:Hw; try (by intros [= <-]); pose proof (so_wait _ Hok _ _ Hw) as Hwk; cbn in Hwk.
    + destruct Hwk as [Hne Hcap]. destruct (rewrite_ok p n cap (sy_pipe s) Hp Hcap Hne) as (x&bp'&k&->&Hp'&Hx). intros [= <-].
      eapply settle_write_awake; [done|done| |done|done]. exact (aw_small _ Haw _ _ Hw).
    + destruct (reread_ok k (sy_pipe s) Hp Hwk) as (x&bp'&->&Hp'&Hx). intros [= <-]. by eapply settle_read_awake.
  - intros [= <-]. destruct Haw as [_ Hsm]. split; cbn.
    + by intros t w [? _]%wake_lookup.
    + intros t x [_ [b Hb]]%wake_lookup. by apply (Hsm t (x.1, b)).
Qed.
Lemma turns_awake os : ∀ s s', sys_ok s → awake s → Forall op_small os → turns os s = Some s' → awake s'.
Proof.
  induction os as [|o os IH]; intros s s' Hok Haw Hos; cbn; [by intros [= <-]|]. apply Forall_cons in Hos as [Ho Hos].
  destruct (turn_ok o s Hok) as (s1&H1&Hok1). rewrite H1. cbn. apply IH; [done| |done]. by apply (turn_awake o s).
Qed.

Lemma spare_nonneg bp : pipe_ok bp → (0 ≤ spare (bp_buf bp))%Z.
Proof.
  intros Hp. unfold spare. destruct (last _) as [b|] eqn:Hl; [|lia]. apply last_Some in Hl as [l Hl]. pose proof (pk_bufs _ Hp) as Hbs. rewrite Hl in Hbs.
  apply Forall_app in Hbs as [_ Hb]. rewrite Forall_singleton in Hb. destruct Hb as (_&?&_). lia.
Qed.

(** ** What the pipe promises *)

(** C12. Whatever goroutines write to and read from a pipe, wait, are woken and close it, in
    whatever order, every call comes to its end or waits, the bytes come out in the order
    they went in, none lost and none twice, and there are never two million bytes in the
    pipe. *)
Theorem pipe_fifo os :
  ∃ s, turns os new_sys = Some s ∧ sy_in s = sy_out s ++ content (sy_pipe s) ∧
    bp_bufLen (sy_pipe s) = zlen (content (sy_pipe s)) ∧ (bp_bufLen (sy_pipe s) < blockThreshold + maxCap)%Z.
Proof.
  destruct (turns_ok os new_sys new_sys_ok) as (s&Hs&[Hp Hf _]). exists s. split_and!; [done|done|apply Hp|].
  pose proof (pk_bound _ Hp) as Hb. pose proof (spare_nonneg _ Hp). lia.
Qed.

(** C13. While no single write is of more than a million bytes, a goroutine sleeps only for a
    reason: a reader that was not woken sleeps at an empty pipe, a writer at a full one,
    and neither at a closed one.  So reader and writer never sleep both. *)
Theorem pipe_no_lost_wakeup os s :
  Forall op_small os → turns os new_sys = Some s →
  (∀ t w, sy_wait s !! t = Some (w, false) → sleeps_rightly (sy_pipe s) w) ∧
  (∀ t t' k p n c, sy_wait s !! t = Some (Reader k, false) → sy_wait s !! t' ≠ Some (Writer p n c, false)).
Proof.
  intros Hos Hrun. assert (awake s) as [Hs _].
  { eapply turns_awake; [apply new_sys_ok| |done|done]. split; intros t x H; cbn in H; by rewrite lookup_empty in H. }
  split; [exact Hs|]. intros t t' k p n c Hr Hw. destruct (Hs _ _ Hr) as [_ Hz], (Hs _ _ Hw) as [_ Hth]. cbn in *. unfold blockThreshold in Hth. lia.
Qed.

(** C36. A write of two million bytes or more while a reader sleeps is a deadlock: the writer
    fills the pipe and goes to sleep without waking the reader, and neither is ever woken
    by the other. *)
Theorem pipe_big_write_deadlock k p :
  (blockThreshold + maxCap ≤ zlen p)%Z →
  ∃ s, turns [ORead 1 k; OWrite 2 p] new_sys = Some s ∧ (blockThreshold ≤ bp_bufLen (sy_pipe s))%Z ∧
    sy_wait s !! 1 = Some (Reader (Z.of_nat k), false) ∧ (∃ q n c, sy_wait s !! 2 = Some (Writer q n c, false)) ∧
    ∀ ts, turns (OWake <$> ts) s = Some s.
Proof.
  intros Hbig. assert (turn (ORead 1 k) new_sys = Some (mkSys NewBytesPipe {[ 1 := (Reader (Z.of_nat k), false) ]} [] [])) as Hr by done.
  set (s1 := mkSys _ _ _ _) in Hr. assert (sys_ok s1) as Hok1 by (destruct (turn_ok (ORead 1 k) new_sys new_sys_ok) as (?&H&?); by rewrite Hr in H; simplify_eq).
  destruct (Write_ok p (sy_pipe s1) (so_pipe _ Hok1)) as (x&bp'&n&Hrun&Hp'&Hk&Hc&Hce&Hx).
  assert (bp_bufLen bp' = n) as Hn by (rewrite (pk_len _ Hp'), Hc; cbn; by apply zlen_ztake).
  pose proof (pk_bound _ Hp') as Hb. pose proof (spare_nonneg _ Hp') as Hsp.
  destruct x as [m [e|] b|q m cap|? ? ?|?]; try done.
  - by destruct Hx as (_&_&_&[? ?]&_).
  - destruct Hx as (_&->&_). lia.
  - destruct Hx as (_&_&_&_&Hth&_). set (s := settle_part 2 p 0 (WaitWrite q m cap, bp') s1). exists s.
    assert (∀ t x, sy_wait s !! t = Some x → x.2 = false) as Hsleep.
    { intros t y [[-> ->]|[_ Hy]]%wait_entered; [done|]. cbn in Hy. by apply lookup_singleton_Some in Hy as [_ <-]. }
    split; [cbn [turns mbind option_bind]; rewrite Hr; cbn [turns mbind option_bind turn]; by rewrite Hrun|]. split_and!; [done|done|by eexists _, _, _|].
    intros ts. induction ts as [|t ts IH]; [done|]. assert (turn (OWake t) s = Some s) as Ht.
    { cbn [turn]. destruct (sy_wait s !! t) as [[[p' n' c'|k'] []]|] eqn:Hw; try done; by specialize (Hsleep _ _ Hw). }
    cbn [fmap list_fmap turns]. rewrite Ht. exact IH.
Qed.

(** A write of two million bytes, as a term. *)
Lemma pipe_big_write_deadlock_witness :
  ∃ s, turns [ORead 1 5; OWrite 2 (replicate (Z.to_nat 2000000) "a"%char)] new_sys = Some s ∧ (blockThreshold ≤ bp_bufLen (sy_pipe s))%Z ∧
    sy_wait s !! 1 = Some (Reader 5, false) ∧ (∃ q n c, sy_wait s !! 2 = Some (Writer q n c, false)) ∧ ∀ ts, turns (OWake <$> ts) s = Some s.
Proof.
  apply (pipe_big_write_deadlock 5 (replicate (Z.to_nat 2000000) "a"%char)). unfold zlen, blockThreshold, maxCap. rewrite length_replicate. lia.
Defined.
(** Two writers and a reader, which sleeps, is woken, and sleeps again. *)
Definition pipe_script : list op :=
  [ORead 1 3; OWrite 2 ["a"%char; "b"%char]; OWrite 3 ["c"%char]; OWake 1; ORead 1 3; ORead 1 3; OClose None; OWake 1].
Lemma pipe_no_lost_wakeup_witness :
  ∃ s, turns (take 6 pipe_script) new_sys = Some s ∧
  (∀ t w, sy_wait s !! t = Some (w, false) → sleeps_rightly (sy_pipe s) w) ∧
  (∀ t t' k p n c, sy_wait s !! t = Some (Reader k, false) → sy_wait s !! t' ≠ Some (Writer p n c, false)).
Proof.
  eexists. split; [vm_compute; reflexivity|]. apply (pipe_no_lost_wakeup (take 6 pipe_script)); [|vm_compute; reflexivity].
  repeat constructor; by vm_compute.
Defined.
