(* ===== verification/StdCopy.v ===== *)
(** * The two streams of a container on one connection

    [src/engine/pkg/stdcopy/stdcopy.go]: standard output and standard error are sent in
    frames, with a header that has the stream and the size, and are taken apart again
    on the other side. *)

From S2P Require Import Prelude BytesPipe.

(** ** Readers and writers *)

(** A writer: what it got, and how its coming calls end; a call that is not listed takes
    everything. *)
Record sink := mkSink { sk_data : list ascii; sk_plan : list (option (Z * option error)) }.
Definition sink_Write (p : list ascii) (w : sink) : Z * option error * sink :=
  match sk_plan w with
  | Some (n, err) :: plan => (n, err, mkSink (sk_data w ++ ztake n p) plan)
  | None :: plan => (zlen p, None, mkSink (sk_data w ++ p) plan)
  | [] => (zlen p, None, mkSink (sk_data w ++ p) [])
  end.
(** A reader: the pieces its data comes in, the error at the end, and if the last bytes
    come with that error. *)
Record source := mkSource { so_pieces : list (list ascii); so_end : error; so_eager : bool }.
Definition source_Read (room : Z) (r : source) : list ascii * option error * source :=
  match so_pieces r with
  | [] => ([], Some (so_end r), r)
  | p :: ps =>
      let rest := zdrop room p in
      let ps := if bool_decide (rest = []) then ps else rest :: ps in
      (ztake room p, if so_eager r && bool_decide (ps = []) then Some (so_end r) else None, mkSource ps (so_end r) (so_eager r))
  end.

(** ** Frames *)

Definition Stdin : Z := 0.
Definition Stdout : Z := 1.
Definition Stderr : Z := 2.
Definition Systemerr : Z := 3.
Definition stdWriterPrefixLen : Z := 8.
Definition startingBufLen : Z := 32 * 1024 + stdWriterPrefixLen + 1.

Definition byte_of (z : Z) : ascii := ascii_of_N (Z.to_N (z mod 256)).
Definition val_of (c : ascii) : Z := Z.of_N (N_of_ascii c).
(** [binary.BigEndian.PutUint32] and [Uint32]. *)
Definition PutUint32 (n : Z) : list ascii := [byte_of (Z.shiftr n 24); byte_of (Z.shiftr n 16); byte_of (Z.shiftr n 8); byte_of n].
Definition Uint32 (b : list ascii) : Z :=
  match b with
  | [a; b; c; d] => Z.lor (val_of d) (Z.lor (Z.shiftl (val_of c) 8) (Z.lor (Z.shiftl (val_of b) 16) (Z.shiftl (val_of a) 24)))
  | _ => 0
  end.
Definition zero : ascii := byte_of 0.

(** [stdWriter.Write]: the header and the data are one write; [None] is the nil slice. *)
Definition std_header (prefix : Z) (p : list ascii) : list ascii := [byte_of prefix; zero; zero; zero] ++ PutUint32 (zlen p mod 2 ^ 32).
Definition std_Write (prefix : Z) (p : option (list ascii)) (w : option sink) : Z * option error * option sink :=
  match w, p with
  | None, _ => (0%Z, Some (Errorf "Writer not instantiated"), None)
  | Some w, None => (0%Z, None, Some w)
  | Some w, Some p =>
      let '(n, err, w) := sink_Write (std_header prefix p ++ p) w in
      let n := (n - stdWriterPrefixLen)%Z in
      (if (n <? 0)%Z then 0%Z else n, err, Some w)
  end.

(** ** [StdCopy] *)

(** The two loops that read until there are [want] bytes in the buffer, which has room
    for [bufLen]; they return from [StdCopy] at the end of the data. *)
Inductive filled := Enough (buf : list ascii) | AtEOF | ReadErr (e : error).
Fixpoint fill (fuel : nat) (want bufLen : Z) (buf : list ascii) (r : source) : option (filled * source) :=
  match fuel with
  | 0 => None
  | S fuel =>
      if (want <=? zlen buf)%Z then Some (Enough buf, r)
      else
        let '(data, er, r) := source_Read (bufLen - zlen buf) r in
        let buf := buf ++ data in
        match er with
        | Some e =>
            if bool_decide (e = EOF) then if (zlen buf <? want)%Z then Some (AtEOF, r) else Some (Enough buf, r)
            else Some (ReadErr e, r)
        | None => fill fuel want bufLen buf r
        end
  end.
Definition source_size (r : source) : nat := S (S (length (so_pieces r) + length (concat (so_pieces r)))).

Record copying := mkCopy { cp_out : sink; cp_err : sink; cp_src : source }.
Definition to_stream (stream : Z) (s : copying) (p : list ascii) : Z * option error * copying :=
  if (stream =? Stderr)%Z then let '(n, e, w) := sink_Write p (cp_err s) in (n, e, mkCopy (cp_out s) w (cp_src s))
  else let '(n, e, w) := sink_Write p (cp_out s) in (n, e, mkCopy w (cp_err s) (cp_src s)).
Definition cp_set_src r s := mkCopy (cp_out s) (cp_err s) r.

(** The loop of [StdCopy]: the count, the error, and what the writers have. *)
Fixpoint copy_loop (fuel : nat) (buf : list ascii) (bufLen written : Z) (s : copying) : option (Z * option error * copying) :=
  match fuel with
  | 0 => None
  | S fuel =>
      '(f, r) ← fill (source_size (cp_src s)) stdWriterPrefixLen bufLen buf (cp_src s);
      let s := cp_set_src r s in
      match f with
      | AtEOF => Some (written, None, s)
      | ReadErr e => Some (0%Z, Some e, s)
      | Enough buf =>
          let stream := match buf with c :: _ => val_of c | [] => 0%Z end in
          if (Systemerr <? stream)%Z then Some (0%Z, Some (Errorf ("Unrecognized input header: " +:+ GoString.format_int stream)), s)
          else
            let frameSize := Uint32 (ztake 4 (zdrop 4 buf)) in
            let bufLen := if (bufLen <? frameSize + stdWriterPrefixLen)%Z then (frameSize + stdWriterPrefixLen + 1)%Z else bufLen in
            '(f, r) ← fill (source_size (cp_src s)) (frameSize + stdWriterPrefixLen) bufLen buf (cp_src s);
            let s := cp_set_src r s in
            match f with
            | AtEOF => Some (written, None, s)
            | ReadErr e => Some (0%Z, Some e, s)
            | Enough buf =>
                let frame := ztake frameSize (zdrop stdWriterPrefixLen buf) in
                if (stream =? Systemerr)%Z
                then Some (written, Some (Errorf ("error from daemon in stream: " +:+ String.string_of_list_ascii frame)), s)
                else
                  let '(nw, ew, s) := to_stream stream s frame in
                  match ew with
                  | Some e => Some (0%Z, Some e, s)
                  | None =>
                      if negb (nw =? frameSize)%Z then Some (0%Z, Some ErrShortWrite, s)
                      else copy_loop fuel (zdrop (frameSize + stdWriterPrefixLen) buf) bufLen (written + nw) s
                  end
            end
      end
  end.
Definition StdCopy (s : copying) : option (Z * option error * copying) :=
  copy_loop (S (length (concat (so_pieces (cp_src s))))) [] startingBufLen 0 s.

(** ** What the copy yields *)

Definition write_all (ws : list (Z * option (list ascii))) (w : option sink) : option sink :=
  foldl (λ w t, (std_Write t.1 t.2 w).2) w ws.
(** A frame of the stream [f.1]. *)
Definition frame (f : Z * list ascii) : list ascii := std_header f.1 f.2 ++ f.2.
Definition frames_of (ws : list (Z * option (list ascii))) : list (Z * list ascii) :=
  omap (λ t, pair t.1 <$> t.2) ws.
Definition frame_fits (f : Z * list ascii) : Prop := (0 ≤ f.1 < 256 ∧ zlen f.2 < 2 ^ 32)%Z.
(** The data of the frames that go to a writer. *)
Definition sent (sel : Z → bool) (fs : list (Z * list ascii)) : list ascii := concat (snd <$> filter (λ f, sel f.1 = true) fs).
Definition is_err (t : Z) : bool := (t =? Stderr)%Z.

(** How the data can end after the last frame that is copied: cut at any point of a
    frame, with a frame that has an error, or with a byte that is not a stream. *)
Inductive ending : list ascii → (Z → Z * option error) → Prop :=
  | end_cut f k : (f.1 ≤ Systemerr)%Z → frame_fits f → (0 ≤ k < zlen (frame f))%Z → ending (ztake k (frame f)) (λ w, (w, None))
  | end_system msg rest : frame_fits (Systemerr, msg) →
      ending (frame (Systemerr, msg) ++ rest) (λ w, (w, Some (Errorf ("error from daemon in stream: " +:+ String.string_of_list_ascii msg))))
  | end_unknown t rest : (Systemerr < t < 256)%Z → (7 ≤ zlen rest)%Z →
      ending (byte_of t :: rest) (λ _, (0%Z, Some (Errorf ("Unrecognized input header: " +:+ GoString.format_int t)))).

Lemma val_byte z : val_of (byte_of z) = (z mod 256)%Z.
Proof.
  unfold val_of, byte_of. pose proof (Z.mod_pos_bound z 256 eq_refl) as Hb.
  rewrite N_ascii_embedding by lia. lia.
Qed.
Lemma Uint32_PutUint32 n : (0 ≤ n < 2 ^ 32)%Z → Uint32 (PutUint32 n) = n.
Proof.
  intros Hn. unfold Uint32, PutUint32. rewrite !val_byte. change 256%Z with (2 ^ 8)%Z. apply Z.bits_inj'. intros i Hi.
  rewrite !Z.lor_spec, !Z.shiftl_spec by done.
  destruct (decide (i < 32)%Z) as [Hlt|Hge].
  - destruct (decide (i < 8)%Z); [|destruct (decide (i < 16)%Z); [|destruct (decide (i < 24)%Z)]];
      repeat match goal with
      | |- context [Z.testbit (_ mod 2 ^ 8) ?j] =>
          first [ rewrite (Z.testbit_neg_r _ j) by lia | rewrite (Z.mod_pow2_bits_high _ 8 j) by lia
                | rewrite (Z.mod_pow2_bits_low _ 8 j) by lia ]
      end; rewrite ?Z.shiftr_spec by lia; rewrite ?orb_false_l, ?orb_false_r; f_equal; lia.
  - rewrite !Z.mod_pow2_bits_high by lia.
    destruct (decide (n = 0)%Z) as [->|Hn0]; [by rewrite Z.bits_0|].
    symmetry. apply Z.bits_above_log2; [lia|]. apply Z.log2_lt_pow2; [lia|].
    apply Z.lt_le_trans with (2 ^ 32)%Z; [lia|]. apply Z.pow_le_mono_r; lia.
Qed.

(** ** Readers *)

Lemma source_Read_spec room r : (0 < room)%Z →
  ∃ data er r', source_Read room r = (data, er, r') ∧ data ++ concat (so_pieces r') = concat (so_pieces r) ∧ so_end r' = so_end r ∧
    (zlen data ≤ room)%Z ∧ (er = None ∧ source_size r' < source_size r ∨ er = Some (so_end r) ∧ so_pieces r' = []).
Proof.
  intros Hroom. destruct r as [[|p ps] e eager]; unfold source_Read; cbn [so_pieces so_end so_eager].
  { exists [], (Some e), (mkSource [] e eager). split; [done|]. cbn. split_and!; [done|done|unfold zlen; cbn; lia|by right]. }
  set (qs := if bool_decide (zdrop room p = []) then ps else zdrop room p :: ps).
  assert (ztake room p ++ concat qs = p ++ concat ps) as Hcat.
  { unfold qs. case_bool_decide as Hr; cbn.
    - rewrite <-(ztake_zdrop room p) at 2. by rewrite Hr, app_nil_r.
    - by rewrite app_assoc, ztake_zdrop. }
  assert (length qs + length (concat qs) < S (length ps) + length (p ++ concat ps)) as Hsize.
  { apply (f_equal length) in Hcat. rewrite !length_app in Hcat. rewrite length_app. unfold qs in *. case_bool_decide as Hr; cbn in *; [lia|].
    rewrite length_app in *. unfold ztake, zdrop in *. rewrite length_take, length_drop in *.
    assert (length p ≠ 0) by (destruct p; [by rewrite drop_nil in Hr|done]). lia. }
  eexists _, _, _. split; [done|]. cbn [so_pieces so_end]. split_and!; [done|done| |].
  - unfold zlen, ztake. rewrite length_take. lia.
  - case_bool_decide as Hq; [|rewrite andb_false_r; left; split; [done|]; unfold source_size; cbn [so_pieces length concat]; lia].
    destruct eager; cbn [andb]; [by right|left]. split; [done|]. unfold source_size; cbn [so_pieces length concat]. cbn in *. lia.
Qed.

Lemma fill_spec fuel want bufLen buf r : so_end r = EOF → (want ≤ bufLen)%Z → source_size r ≤ S fuel →
  ∃ f r', fill (S fuel) want bufLen buf r = Some (f, r') ∧ so_end r' = EOF ∧
    (if (want <=? zlen (buf ++ concat (so_pieces r)))%Z
     then ∃ buf', f = Enough buf' ∧ buf' ++ concat (so_pieces r') = buf ++ concat (so_pieces r) ∧ (want ≤ zlen buf')%Z
     else f = AtEOF).
Proof.
  revert buf r. induction fuel as [|fuel IH]; intros buf r He Hw Hf; [unfold source_size in Hf; lia|].
  remember (S fuel) as k eqn:Hk. cbn [fill]. subst k.
  destruct (Z.leb_spec want (zlen buf)) as [Hle|Hgt].
  { eexists _, _. split; [done|]. split; [done|]. rewrite zlen_app. pose proof (zlen_nonneg (concat (so_pieces r))).
    destruct (Z.leb_spec want (zlen buf + zlen (concat (so_pieces r)))); [eauto|lia]. }
  destruct (source_Read_spec (bufLen - zlen buf) r) as (data&er&r'&->&Hcat&Hend&_&Her); [lia|].
  rewrite <-Hcat, app_assoc. destruct Her as [[-> Hs]|[-> Hp]].
  - apply IH; [congruence|done|lia].
  - rewrite He, bool_decide_true by done. rewrite Hp. cbn [concat]. rewrite app_nil_r.
    destruct (Z.ltb_spec (zlen (buf ++ data)) want) as [Hlt|Hge].
    + eexists _, _. split; [done|]. split; [congruence|]. by destruct (Z.leb_spec want (zlen (buf ++ data))); [lia|].
    + eexists _, _. split; [done|]. split; [congruence|]. destruct (Z.leb_spec want (zlen (buf ++ data))); [|lia].
      eexists. split; [done|]. split; [|lia]. by rewrite Hp, app_nil_r.
Qed.

(** ** One turn of the loop *)

Lemma zlen_header t p : zlen (std_header t p) = 8%Z.
Proof. done. Qed.
Lemma zlen_frame f : zlen (frame f) = (8 + zlen f.2)%Z.
Proof. unfold frame. by rewrite zlen_app, zlen_header. Qed.
Lemma split_front {A} (buf rest k tail : list A) : buf ++ rest = k ++ tail → (zlen k ≤ zlen buf)%Z → ∃ q, buf = k ++ q ∧ q ++ rest = tail.
Proof.
  intros Heq Hlen. exists (drop (length k) buf). assert (take (length k) buf = k) as Hk.
  { apply (f_equal (take (length k))) in Heq. unfold zlen in Hlen. rewrite take_app_le in Heq by lia. by rewrite take_app_length in Heq. }
  assert (buf = k ++ drop (length k) buf) as Hb by (rewrite <-(take_drop (length k) buf) at 1; by rewrite Hk).
  split; [done|]. apply (app_inv_head k). by rewrite app_assoc, <-Hb.
Qed.
Lemma header_parse f q : frame_fits f →
  (match std_header f.1 f.2 ++ q with c :: _ => val_of c | [] => 0 end)%Z = f.1 ∧
  Uint32 (ztake 4 (zdrop 4 (std_header f.1 f.2 ++ q))) = zlen f.2.
Proof.
  intros [Ht Hl]. split.
  - cbn -[val_of byte_of]. rewrite val_byte. by rewrite Z.mod_small.
  - change (ztake 4 (zdrop 4 (std_header f.1 f.2 ++ q))) with (PutUint32 (zlen f.2 mod 2 ^ 32)).
    pose proof (zlen_nonneg f.2). rewrite Z.mod_small by lia. by rewrite Uint32_PutUint32.
Qed.

(** A frame that was delivered. *)
Definition deliver (f : Z * list ascii) (s : copying) : copying :=
  if is_err f.1 then mkCopy (cp_out s) (mkSink (sk_data (cp_err s) ++ f.2) []) (cp_src s)
  else mkCopy (mkSink (sk_data (cp_out s) ++ f.2) []) (cp_err s) (cp_src s).
Definition willing (s : copying) : Prop := sk_plan (cp_out s) = [] ∧ sk_plan (cp_err s) = [] ∧ so_end (cp_src s) = EOF.

Lemma to_stream_willing f s : willing s → to_stream f.1 s f.2 = (zlen f.2, None, deliver f s).
Proof. intros (Ho&He&_). unfold to_stream, deliver, is_err, sink_Write. destruct (f.1 =? Stderr)%Z; [by rewrite He|by rewrite Ho]. Qed.

(** The two reads of a turn, when the data has a whole header. *)
Lemma fill_all want bufLen buf r : so_end r = EOF → (want ≤ bufLen)%Z →
  ∃ f r', fill (source_size r) want bufLen buf r = Some (f, r') ∧ so_end r' = EOF ∧
    (if (want <=? zlen (buf ++ concat (so_pieces r)))%Z
     then ∃ buf', f = Enough buf' ∧ buf' ++ concat (so_pieces r') = buf ++ concat (so_pieces r) ∧ (want ≤ zlen buf')%Z
     else f = AtEOF).
Proof. intros He Hw. apply fill_spec; [done|done|]. unfold source_size. lia. Qed.

Section Turn.
  Context (fuel : nat) (buf : list ascii) (bufLen written : Z) (s : copying).
  Context (Hs : willing s) (Hlen : (8 ≤ bufLen)%Z).
Let stream := buf ++ concat (so_pieces (cp_src s)).

Lemma turn_short : (zlen stream < 8)%Z → ∃ r, copy_loop (S fuel) buf bufLen written s = Some (written, None, cp_set_src r s).
Proof.
  intros Hz. destruct Hs as (_&_&He). cbn [copy_loop].
  destruct (fill_all stdWriterPrefixLen bufLen buf (cp_src s) He Hlen) as (g&r&->&_&Hg). fold stream in Hg. cbn [mbind option_bind].
  unfold stdWriterPrefixLen in Hg. destruct (Z.leb_spec 8 (zlen stream)); [lia|]. rewrite Hg. eauto.
Qed.
Lemma turn_unknown t rest : stream = byte_of t :: rest → (Systemerr < t < 256)%Z → (7 ≤ zlen rest)%Z →
  ∃ r, copy_loop (S fuel) buf bufLen written s = Some (0%Z, Some (Errorf ("Unrecognized input header: " +:+ GoString.format_int t)), cp_set_src r s).
Proof.
  intros Hst Ht Hz. destruct Hs as (_&_&He). cbn [copy_loop].
  destruct (fill_all stdWriterPrefixLen bufLen buf (cp_src s) He Hlen) as (g&r&->&_&Hg). fold stream in Hg. cbn [mbind option_bind].
  unfold stdWriterPrefixLen in Hg. rewrite Hst in Hg. change (byte_of t :: rest) with ([byte_of t] ++ rest) in Hg.
  rewrite zlen_app in Hg. change (zlen [byte_of t]) with 1%Z in Hg. destruct (Z.leb_spec 8 (1 + zlen rest)); [|lia].
  destruct Hg as (buf'&->&Hb&Hl). destruct (split_front _ _ _ _ Hb) as (q&->&_); [change (zlen [byte_of t]) with 1%Z; lia|].
  cbn [app]. rewrite val_byte, Z.mod_small by (unfold Systemerr in Ht; lia).
  destruct (Z.ltb_spec Systemerr t); [eauto|lia].
Qed.

(** The header is there, and [q] of what follows it. *)
Lemma turn_header f tail : stream = std_header f.1 f.2 ++ tail → frame_fits f → (f.1 ≤ Systemerr)%Z →
  ∃ bufLen' r, so_end r = EOF ∧ (8 ≤ bufLen')%Z ∧
    if (zlen f.2 <=? zlen tail)%Z
    then ∃ q, q ++ concat (so_pieces r) = tail ∧ (zlen f.2 ≤ zlen q)%Z ∧
      copy_loop (S fuel) buf bufLen written s =
        if (f.1 =? Systemerr)%Z then Some (written, Some (Errorf ("error from daemon in stream: " +:+ String.string_of_list_ascii (ztake (zlen f.2) q))), cp_set_src r s)
        else let '(nw, ew, s) := to_stream f.1 (cp_set_src r s) (ztake (zlen f.2) q) in
          match ew with
          | Some e => Some (0%Z, Some e, s)
          | None => if negb (nw =? zlen f.2)%Z then Some (0%Z, Some ErrShortWrite, s) else copy_loop fuel (zdrop (zlen f.2) q) bufLen' (written + nw) s
          end
    else copy_loop (S fuel) buf bufLen written s = Some (written, None, cp_set_src r s).
Proof.
  intros Hst Hf Ht. destruct Hs as (_&_&He). cbn [copy_loop].
  destruct (fill_all stdWriterPrefixLen bufLen buf (cp_src s) He Hlen) as (g&r&->&Hr&Hg). fold stream in Hg. cbn [mbind option_bind].
  unfold stdWriterPrefixLen in Hg. rewrite Hst, zlen_app, zlen_header in Hg. pose proof (zlen_nonneg tail). pose proof (zlen_nonneg f.2).
  destruct (Z.leb_spec 8 (8 + zlen tail)); [|lia]. destruct Hg as (buf'&->&Hb&Hl).
  destruct (split_front _ _ _ _ Hb) as (q&->&Hq); [by rewrite zlen_header|].
  destruct (header_parse f q Hf) as [-> ->]. destruct (Z.ltb_spec Systemerr f.1); [lia|]. cbn [cp_src cp_set_src].
  set (bl := if (bufLen <? zlen f.2 + stdWriterPrefixLen)%Z then _ else _).
  assert (zlen f.2 + stdWriterPrefixLen ≤ bl)%Z as Hbl
    by (unfold bl; destruct (Z.ltb_spec bufLen (zlen f.2 + stdWriterPrefixLen)); lia).
  destruct (fill_all (zlen f.2 + stdWriterPrefixLen) bl (std_header f.1 f.2 ++ q) r Hr Hbl) as (g&r'&->&Hr'&Hg). cbn [mbind option_bind].
  exists bl, r'. split; [done|]. unfold stdWriterPrefixLen in *. split; [lia|].
  rewrite <-app_assoc, Hq, zlen_app, zlen_header in Hg.
  destruct (Z.leb_spec (zlen f.2) (zlen tail)).
  - destruct (Z.leb_spec (zlen f.2 + 8) (8 + zlen tail)); [|lia]. destruct Hg as (buf'&->&Hb'&Hl').
    destruct (split_front _ _ _ _ Hb') as (q'&->&Hq'); [rewrite zlen_header; lia|]. rewrite zlen_app, zlen_header in Hl'.
    exists q'. split; [done|]. split; [lia|].
    change (zdrop 8 (std_header f.1 f.2 ++ q')) with q'.
    replace (zdrop (zlen f.2 + 8) (std_header f.1 f.2 ++ q')) with (zdrop (zlen f.2) q'); [done|].
    rewrite Z.add_comm, <-zdrop_zdrop by lia. done.
  - destruct (Z.leb_spec (zlen f.2 + 8) (8 + zlen tail)); [lia|]. by rewrite Hg.
Qed.
End Turn.

(** ** The whole copy *)

Lemma copy_frames fs fuel : ∀ buf bufLen written s tail, willing s → (8 ≤ bufLen)%Z →
  buf ++ concat (so_pieces (cp_src s)) = concat (frame <$> fs) ++ tail → Forall (λ f, frame_fits f ∧ f.1 ≤ Stderr)%Z fs →
  ∃ buf' bufLen' r', so_end r' = EOF ∧ (8 ≤ bufLen')%Z ∧ buf' ++ concat (so_pieces r') = tail ∧
    copy_loop (length fs + fuel) buf bufLen written s =
      copy_loop fuel buf' bufLen' (written + zlen (concat fs.*2))
        (mkCopy (mkSink (sk_data (cp_out s) ++ sent (negb ∘ is_err) fs) []) (mkSink (sk_data (cp_err s) ++ sent is_err fs) []) r').
Proof.
  induction fs as [|f fs IH]; intros buf bufLen written s tail Hs Hlen Hst Hfs.
  { destruct s as [[o po] [e pe] r], Hs as (Hpo&Hpe&Hr). cbn in *. subst. exists buf, bufLen, r. split_and!; [done..|].
    unfold sent. cbn. rewrite !app_nil_r. change (zlen ([] : list ascii)) with 0%Z. by rewrite Z.add_0_r. }
  inversion Hfs as [|?? [Hf Ht] Hfs']; subst. unfold Stderr in Ht.
  rewrite fmap_cons in Hst. cbn [concat] in Hst. unfold frame at 1 in Hst. rewrite <-!app_assoc in Hst.
  destruct (turn_header (length fs + fuel) buf bufLen written s Hs Hlen f _ Hst Hf) as (bl&r&Hr&Hbl&Hturn); [unfold Systemerr; lia|].
  rewrite zlen_app in Hturn. pose proof (zlen_nonneg (concat (frame <$> fs) ++ tail)).
  destruct (Z.leb_spec (zlen f.2) (zlen f.2 + zlen (concat (frame <$> fs) ++ tail))); [|lia].
  destruct Hturn as (q&Hq&Hql&Hrun). destruct (split_front _ _ _ _ Hq Hql) as (q'&->&Hq').
  replace (ztake (zlen f.2) (f.2 ++ q')) with f.2 in Hrun by (unfold ztake, zlen; by rewrite Nat2Z.id, take_app_length).
  replace (zdrop (zlen f.2) (f.2 ++ q')) with q' in Hrun by (unfold zdrop, zlen; by rewrite Nat2Z.id, drop_app_length).
  destruct (Z.eqb_spec f.1 Systemerr); [unfold Systemerr in *; lia|].
  assert (willing (cp_set_src r s)) as Hs' by (destruct Hs as (?&?&_); by repeat split).
  rewrite to_stream_willing, Z.eqb_refl in Hrun by done. cbn [negb] in Hrun. cbn [length Nat.add]. rewrite Hrun.
  destruct (IH q' bl (written + zlen f.2)%Z (deliver f (cp_set_src r s)) tail) as (b'&bl'&r'&H1&H2&H3&->); [|done| |done|].
  { destruct Hs as (?&?&_). unfold deliver. by destruct (is_err f.1); repeat split. }
  { unfold deliver. by destruct (is_err f.1). }
  exists b', bl', r'. split_and!; [done..|]. rewrite fmap_cons. cbn [concat]. rewrite zlen_app.
  f_equal; [lia|]. unfold sent. destruct Hs as (Ho&He&_), s as [[o po] [e pe] ?]. cbn in Ho, He. subst po pe.
  unfold deliver, is_err. rewrite !filter_cons. cbn.
  destruct (f.1 =? Stderr)%Z eqn:Hb; cbn; by rewrite <-app_assoc.
Qed.

Lemma frames_length fs : length fs ≤ length (concat (frame <$> fs)).
Proof. induction fs as [|f fs IH]; [done|]. rewrite fmap_cons. cbn [concat length]. rewrite length_app. unfold frame at 1. cbn. lia. Qed.
Lemma length_frames_fuel fs tail pieces : concat pieces = concat (frame <$> fs) ++ tail →
  ∃ fuel, S (length (concat pieces)) = length fs + S fuel.
Proof.
  intros ->. rewrite length_app. pose proof (frames_length fs) as H.
  exists (length (concat (frame <$> fs)) + length tail - length fs). lia.
Qed.
Lemma write_all_frames ws d : write_all ws (Some (mkSink d [])) = Some (mkSink (d ++ concat (frame <$> frames_of ws)) []).
Proof.
  revert d. induction ws as [|[t [p|]] ws IH]; intros d; cbn; [by rewrite app_nil_r| |].
  - unfold write_all in *. cbn. rewrite IH. do 2 f_equal. rewrite <-app_assoc. done.
  - apply IH.
Qed.

Lemma copy_ending fuel buf bufLen written s tail res : willing s → (8 ≤ bufLen)%Z → ending tail res → buf ++ concat (so_pieces (cp_src s)) = tail →
  ∃ r, copy_loop (S fuel) buf bufLen written s = Some (res written, cp_set_src r s).
Proof.
  intros Hs Hlen [f k Ht Hf Hk|msg rest Hf|t rest Ht Hrest] Hst.
  - rewrite zlen_frame in Hk. destruct (decide (k < 8)%Z) as [Hk8|Hk8].
    { destruct (turn_short fuel buf bufLen written s Hs Hlen) as [r ->]; [|eauto]. rewrite Hst, zlen_ztake; [done|]. rewrite zlen_frame. lia. }
    unfold frame in Hst. replace k with (8 + (k - 8))%Z in Hst by lia. rewrite ztake_add in Hst by lia.
    change (ztake 8 (std_header f.1 f.2 ++ f.2)) with (std_header f.1 f.2) in Hst. change (zdrop 8 (std_header f.1 f.2 ++ f.2)) with f.2 in Hst.
    destruct (turn_header fuel buf bufLen written s Hs Hlen f _ Hst Hf Ht) as (bl&r&_&_&Hturn).
    rewrite zlen_ztake in Hturn by lia. destruct (Z.leb_spec (zlen f.2) (k - 8)); [lia|]. rewrite Hturn. eauto.
  - unfold frame in Hst. rewrite <-app_assoc in Hst. cbn [fst snd] in Hst.
    destruct (turn_header fuel buf bufLen written s Hs Hlen (Systemerr, msg) _ Hst Hf (Z.le_refl _)) as (bl&r&_&_&Hturn).
    cbn [fst snd] in Hturn. rewrite zlen_app in Hturn. pose proof (zlen_nonneg rest).
    destruct (Z.leb_spec (zlen msg) (zlen msg + zlen rest)); [|lia]. destruct Hturn as (q&Hq&Hql&->).
    destruct (split_front _ _ _ _ Hq Hql) as (q'&->&_).
    exists r. cbn. replace (ztake (zlen msg) (msg ++ q')) with msg by (unfold ztake, zlen; by rewrite Nat2Z.id, take_app_length). done.
  - destruct (turn_unknown fuel buf bufLen written s Hs Hlen t rest Hst Ht Hrest) as [r ->]. eauto.
Qed.

(** C14. What two [stdWriter]s wrote to a connection is taken apart again, however the
    reader cuts the data into pieces: [StdCopy] returns, each writer has exactly what was
    written to its stream, in order, and the count is right.  A stream that is cut
    within a frame ends without an error and without the part of that frame, a frame of
    the daemon's own errors is the error that is returned, and a header that is no
    stream is refused. *)
Theorem stdcopy_demux ws bytes pieces eager tail res :
  Forall (λ t, Stdin ≤ t.1 ≤ Stderr ∧ zlen (default [] t.2) < 2 ^ 32)%Z ws →
  sk_data <$> write_all ws (Some (mkSink [] [])) = Some bytes →
  concat pieces = bytes ++ tail → ending tail res →
  ∃ r, StdCopy (mkCopy (mkSink [] []) (mkSink [] []) (mkSource pieces EOF eager)) =
    Some (res (zlen (concat (frames_of ws).*2)),
      mkCopy (mkSink (sent (negb ∘ is_err) (frames_of ws)) []) (mkSink (sent is_err (frames_of ws)) []) r).
Proof.
  intros Hws Hb Hp Hend. rewrite write_all_frames in Hb. cbn in Hb. injection Hb as <-. unfold StdCopy. cbn [cp_src so_pieces].
  set (fs := frames_of ws) in *.
  assert (Forall (λ f, frame_fits f ∧ f.1 ≤ Stderr)%Z fs) as Hfs.
  { apply Forall_forall. intros f (t&Ht&Hin)%list_elem_of_omap. destruct t as [t [p|]]; [|done]. injection Hin as <-.
    rewrite Forall_forall in Hws. destruct (Hws _ Ht) as [Hr Hl]. unfold Stdin, Stderr, frame_fits in *. cbn in *. lia. }
  destruct (length_frames_fuel fs tail pieces Hp) as [fuel ->].
  destruct (copy_frames fs (S fuel) [] startingBufLen 0 (mkCopy (mkSink [] []) (mkSink [] []) (mkSource pieces EOF eager)) tail)
    as (b'&bl'&r'&H1&H2&H3&->); [done|done|done|done|].
  eapply copy_ending; [done|done|done|done].
Qed.

(** ** Any reader and any writers *)

Lemma Uint32_nonneg b : (0 ≤ Uint32 b)%Z.
Proof.
  unfold Uint32. assert (∀ c, (0 ≤ val_of c)%Z) as H by (intros; unfold val_of; lia).
  repeat case_match; try lia. rewrite !Z.lor_nonneg, !Z.shiftl_nonneg. auto.
Qed.
Lemma fill_total fuel want bufLen buf r : (want ≤ bufLen)%Z → source_size r ≤ S fuel →
  ∃ f r', fill (S fuel) want bufLen buf r = Some (f, r') ∧ so_end r' = so_end r ∧
    match f with
    | Enough buf' => buf' ++ concat (so_pieces r') = buf ++ concat (so_pieces r) ∧ (want ≤ zlen buf')%Z
    | AtEOF => so_end r = EOF
    | ReadErr e => e = so_end r ∧ e ≠ EOF
    end.
Proof.
  revert buf r. induction fuel as [|fuel IH]; intros buf r Hw Hf; [unfold source_size in Hf; lia|].
  remember (S fuel) as k eqn:Hk. cbn [fill]. subst k.
  destruct (Z.leb_spec want (zlen buf)) as [Hle|Hgt]; [by eexists _, _|].
  destruct (source_Read_spec (bufLen - zlen buf) r) as (data&er&r'&->&Hcat&Hend&_&Her); [lia|].
  destruct Her as [[-> Hs]|[-> Hp]].
  - destruct (IH (buf ++ data) r') as (f&r2&->&Hr2&H2); [done|lia|]. exists f, r2. split; [done|]. rewrite Hend, <-app_assoc, Hcat in *. done.
  - case_bool_decide as He; [|by eexists _, _]. destruct (Z.ltb_spec (zlen (buf ++ data)) want); [by eexists _, _|].
    eexists _, _. split; [done|]. split; [done|]. by rewrite <-app_assoc, Hcat.
Qed.

Definition delivered (s : copying) : Z := (zlen (sk_data (cp_out s)) + zlen (sk_data (cp_err s)))%Z.
Lemma sink_Write_full p w n w' : sink_Write p w = (n, None, w') → n = zlen p → zlen (sk_data w') = (zlen (sk_data w) + n)%Z.
Proof.
  unfold sink_Write. intros Hw ->. destruct w as [d [|[[m e]|] plan]]; simplify_eq/=; rewrite zlen_app; [done| |done].
  by rewrite ztake_all.
Qed.
Lemma to_stream_full stream s p n s' : to_stream stream s p = (n, None, s') → n = zlen p →
  delivered s' = (delivered s + n)%Z ∧ cp_src s' = cp_src s.
Proof.
  unfold to_stream, delivered. intros Ht Hn. destruct (stream =? Stderr)%Z; destruct (sink_Write p _) as [[m e] w] eqn:Hw; simplify_eq/=;
    (apply sink_Write_full in Hw; [|done]; cbn; split; [lia|done]).
Qed.

Lemma copy_loop_total fuel : ∀ buf bufLen written s, (8 ≤ bufLen)%Z → length (buf ++ concat (so_pieces (cp_src s))) < fuel →
  ∃ n e s', copy_loop fuel buf bufLen written s = Some (n, e, s') ∧
    (e = None → so_end (cp_src s) = EOF ∧ delivered s' = delivered s + (n - written))%Z.
Proof.
  induction fuel as [|fuel IH]; intros buf bufLen written s Hlen Hf; [lia|]. cbn [copy_loop].
  destruct (fill_total (S (length (so_pieces (cp_src s)) + length (concat (so_pieces (cp_src s))))) stdWriterPrefixLen bufLen buf (cp_src s) Hlen (le_n _))
    as (f&r&Hfill&Hr&Hcase). fold (source_size (cp_src s)) in Hfill. rewrite Hfill. cbn [mbind option_bind].
  destruct f as [buf1| |e]; [|eexists _, _, _; split; [done|]; intros _; split; [done|]; unfold delivered; cbn; lia|by eexists _, _, _].
  destruct Hcase as [Hb1 Hl1]. destruct (Systemerr <? _)%Z; [by eexists _, _, _|].
  set (stream := match buf1 with c :: _ => val_of c | [] => 0%Z end).
  set (size := Uint32 _). pose proof (Uint32_nonneg (ztake 4 (zdrop 4 buf1))) as Hsize. fold size in Hsize.
  set (bl := if (bufLen <? size + stdWriterPrefixLen)%Z then _ else _).
  assert (size + stdWriterPrefixLen ≤ bl)%Z as Hbl by (unfold bl; destruct (Z.ltb_spec bufLen (size + stdWriterPrefixLen)); lia).
  cbn [cp_src cp_set_src].
  destruct (fill_total (S (length (so_pieces r) + length (concat (so_pieces r)))) _ bl buf1 r Hbl (le_n _)) as (f&r'&Hfill'&Hr'&Hcase').
  fold (source_size r) in Hfill'. rewrite Hfill'. cbn [mbind option_bind].
  destruct f as [buf2| |e]; [|eexists _, _, _; split; [done|]; intros _; split; [congruence|]; unfold delivered; cbn; lia|by eexists _, _, _].
  destruct Hcase' as [Hb2 Hl2]. destruct (stream =? Systemerr)%Z; [by eexists _, _, _|].
  destruct (to_stream stream _ _) as [[nw [ew|]] s1] eqn:Hto; [by eexists _, _, _|].
  destruct (Z.eqb_spec nw size) as [->|]; [|by eexists _, _, _]. cbn [negb].
  unfold stdWriterPrefixLen in *.
  apply to_stream_full in Hto as [Hd Hsrc]; [|rewrite zlen_ztake; [done|]; rewrite zlen_zdrop; lia].
  destruct (IH (zdrop (size + 8) buf2) bl (written + size)%Z s1) as (n&e&s'&->&Hres).
  - lia.
  - rewrite Hsrc. cbn [cp_src cp_set_src]. assert (length (buf2 ++ concat (so_pieces r')) = length (buf ++ concat (so_pieces (cp_src s)))) as Hall
      by (by rewrite Hb2, Hb1). rewrite (length_app buf) in Hall. unfold zlen in Hl2. rewrite !length_app in Hall, Hf. rewrite length_app. unfold zdrop. rewrite length_drop. lia.
  - exists n, e, s'. split; [done|]. intros He. destruct (Hres He) as [H1 H2]. rewrite Hsrc in H1. cbn in H1. split; [congruence|].
    rewrite H2, Hd. unfold delivered. cbn. lia.
Qed.

(** [StdCopy] returns, whatever the reader yields and however its end and the calls of
    the writers go; and it returns without an error only if the reader ended with
    [io.EOF], and then the count is the number of bytes the two writers took. *)
Theorem stdcopy_total s : ∃ n e s', StdCopy s = Some (n, e, s') ∧
  (e = None → so_end (cp_src s) = EOF ∧ delivered s' = delivered s + n)%Z.
Proof.
  destruct (copy_loop_total (S (length (concat (so_pieces (cp_src s))))) [] startingBufLen 0 s) as (n&e&s'&H&Hres); [done|cbn; lia|].
  exists n, e, s'. split; [done|]. intros He. destruct (Hres He) as [H1 H2]. split; [done|]. lia.
Qed.

(** Output and errors in turn, an empty write and a nil one, the connection lost within
    the third frame, read in small pieces. *)
Definition demo_writes : list (Z * option (list ascii)) :=
  [(Stdout, Some (String.list_ascii_of_string "out")); (Stderr, Some (String.list_ascii_of_string "oops")); (Stdout, None);
   (Stdout, Some []); (Stdin, Some (String.list_ascii_of_string "put"))].
Definition demo_bytes : list ascii := default [] (sk_data <$> write_all demo_writes (Some (mkSink [] []))).
Definition demo_tail : list ascii := ztake 10 (frame (Stderr, String.list_ascii_of_string "lost")).
Definition demo_pieces : list (list ascii) := [ztake 3 demo_bytes; []; zdrop 3 demo_bytes ++ ztake 1 demo_tail; zdrop 1 demo_tail].
Lemma stdcopy_demux_witness : ∃ r, StdCopy (mkCopy (mkSink [] []) (mkSink [] []) (mkSource demo_pieces EOF true)) =
  Some (10%Z, None, mkCopy (mkSink (String.list_ascii_of_string "output") []) (mkSink (String.list_ascii_of_string "oops") []) r).
Proof.
  apply (stdcopy_demux demo_writes demo_bytes demo_pieces true demo_tail (λ w, (w, None))).
  - repeat constructor; vm_compute; intuition congruence.
  - reflexivity.
  - vm_compute. reflexivity.
  - apply end_cut; vm_compute; intuition congruence.
Defined.
