(* ===== verification/LogCopier.v ===== *)
(** * The copier of a container's output

    [src/engine/daemon/logger/copier.go]: a stream is cut into lines, and a line that does not
    fit the buffer into partial messages. *)

From S2P Require Import Prelude BytesPipe StdCopy.

(** ** Messages *)

(** [types.PartialLogMetaData] and the [Message] of a logger. *)
Record PartialLogMetaData := mkPartial { pl_ID : string; pl_Ordinal : Z; pl_Last : bool }.
Record Message := mkMsg { mg_Line : list ascii; mg_Source : string; mg_Timestamp : Z; mg_PLogMetaData : option PartialLogMetaData }.

Definition readSize : Z := 2 * 1024.
Definition defaultBufSize : Z := 16 * 1024.
Definition newline : ascii := byte_of 10.
(** [bytes.IndexByte] of a newline. *)
Fixpoint index_newline (l : list ascii) : option nat :=
  match l with [] => None | c :: l => if bool_decide (c = newline) then Some 0 else S <$> index_newline l end.

(** The variables of [copySrc]: the data in the buffer, those of the partial messages, how
    often the clock and the source of identifiers were asked, and how many looks at the
    channel [closed] find it open; [None] if it is never closed. *)
Record scan := mkScan {
  sc_buf : list ascii; sc_partialid : string; sc_partialTS : Z; sc_ordinal : Z; sc_firstPartial : bool; sc_hasMorePartial : bool;
  sc_ticks : nat; sc_ids : nat; sc_open : option nat }.
Definition set_buf (b : list ascii) (s : scan) : scan :=
  mkScan b (sc_partialid s) (sc_partialTS s) (sc_ordinal s) (sc_firstPartial s) (sc_hasMorePartial s) (sc_ticks s) (sc_ids s) (sc_open s).
(** A look at the channel [closed]: [None] if it is closed. *)
Definition look (s : scan) : option scan :=
  match sc_open s with
  | None => Some s
  | Some 0 => None
  | Some (S k) => Some (mkScan (sc_buf s) (sc_partialid s) (sc_partialTS s) (sc_ordinal s) (sc_firstPartial s) (sc_hasMorePartial s) (sc_ticks s) (sc_ids s) (Some k))
  end.

Section Copier.
  (** The name of the stream, the size of the buffer, the clock and the identifiers. *)
  Context (name : string) (bufSize : Z) (clock : nat → Z) (random_id : nat → string).

(** The message of a line. *)
Definition line_msg (line : list ascii) (s : scan) : Message * scan :=
  if sc_hasMorePartial s then
    (mkMsg line name (sc_partialTS s) (Some (mkPartial (sc_partialid s) (sc_ordinal s) true)),
     mkScan (sc_buf s) EmptyString (sc_partialTS s) 0 true false (sc_ticks s) (sc_ids s) (sc_open s))
  else
    (mkMsg line name (clock (sc_ticks s)) None,
     mkScan (sc_buf s) (sc_partialid s) (sc_partialTS s) (sc_ordinal s) (sc_firstPartial s) (sc_hasMorePartial s) (S (sc_ticks s)) (sc_ids s) (sc_open s)).
(** The message of a partial line. *)
Definition partial_msg (line : list ascii) (s : scan) : Message * scan :=
  if sc_firstPartial s then
    let ts := clock (sc_ticks s) in
    let id := random_id (sc_ids s) in
    (mkMsg line name ts (Some (mkPartial id 1 false)), mkScan (sc_buf s) id ts 2 false true (S (sc_ticks s)) (S (sc_ids s)) (sc_open s))
  else
    (mkMsg line name (sc_partialTS s) (Some (mkPartial (sc_partialid s) (sc_ordinal s) false)),
     mkScan (sc_buf s) (sc_partialid s) (sc_partialTS s) (sc_ordinal s + 1) false true (sc_ticks s) (sc_ids s) (sc_open s)).

(** The loop over the lines of the buffer: the messages, whether it returned because the
    copier is closed, and the variables, with the rest in the buffer. *)
Fixpoint log_lines (fuel : nat) (s : scan) : list Message * bool * scan :=
  match fuel with
  | 0 => ([], false, s)
  | S fuel =>
      match index_newline (sc_buf s) with
      | None => ([], false, s)
      | Some q =>
          match look s with
          | None => ([], true, s)
          | Some s =>
              let '(m, s) := line_msg (take q (sc_buf s)) s in
              let '(ms, closed, s) := log_lines fuel (set_buf (drop (S q) (sc_buf s)) s) in
              (m :: ms, closed, s)
          end
      end
  end.

(** What is in the buffer, as a partial message. *)
Definition flush (s : scan) : list Message * scan :=
  if bool_decide (sc_buf s = []) then ([], s) else let '(m, s') := partial_msg (sc_buf s) s in ([m], set_buf [] s').
(** The loop of [copySrc]: the messages that were logged; [None] only if the fuel is spent. *)
Fixpoint copy_turns (fuel : nat) (s : scan) (src : source) : option (list Message) :=
  match fuel with
  | 0 => None
  | S fuel =>
      match look s with
      | None => Some []
      | Some s =>
          let n := zlen (sc_buf s) in
          let upto := (if bufSize <? n + readSize then bufSize else n + readSize)%Z in
          let '(data, err, src) := if (n <? upto)%Z then source_Read (upto - n) src else ([], None, src) in
          let go (eof : bool) :=
            let s := set_buf (sc_buf s ++ data) s in
            if bool_decide (sc_buf s = []) && eof then Some []
            else
              let '(ms, closed, s') := log_lines (S (length (sc_buf s))) s in
              if closed then Some ms
              else
                let unmoved := bool_decide (length (sc_buf s') = length (sc_buf s)) in
                if eof || (unmoved && (zlen (sc_buf s') =? bufSize)%Z) then
                  let '(last, s') := flush s' in
                  if eof then Some (ms ++ last)
                  else rest ← copy_turns fuel s' src; Some (ms ++ last ++ rest)
                else rest ← copy_turns fuel s' src; Some (ms ++ rest) in
          match err with
          | Some e => if bool_decide (e = EOF) then go true else Some []
          | None => go false
          end
      end
  end.
Definition start_scan (open : option nat) : scan := mkScan [] EmptyString 0 0 true false 0 0 open.
(** [copySrc]: every turn reads. *)
Definition copySrc (open : option nat) (src : source) : option (list Message) := copy_turns (source_size src) (start_scan open) src.
End Copier.

(** ** What the messages say *)

(** A message ends a line, unless it is a partial one that is not the last. *)
Definition ends_line (m : Message) : bool := match mg_PLogMetaData m with Some p => pl_Last p | None => true end.
(** The stream the messages were cut from. *)
Definition text (ms : list Message) : list ascii := concat ((λ m, mg_Line m ++ (if ends_line m then [newline] else [])) <$> ms).
(** Partial messages follow one another, with one identifier and one time, and count from 1
    to the last; the state has what the next one must have. *)
Definition group := option (string * Z * Z).
Definition group_step (g : group) (m : Message) : option group :=
  match g, mg_PLogMetaData m with
  | None, None => Some None
  | None, Some p => if (pl_Ordinal p =? 1)%Z && negb (pl_Last p) then Some (Some (pl_ID p, 2%Z, mg_Timestamp m)) else None
  | Some (id, k, ts), Some p =>
      if bool_decide (pl_ID p = id) && (pl_Ordinal p =? k)%Z && (mg_Timestamp m =? ts)%Z
      then Some (if pl_Last p then None else Some (id, (k + 1)%Z, ts)) else None
  | Some _, None => None
  end.
Fixpoint grouped (g : group) (ms : list Message) : option group :=
  match ms with [] => Some g | m :: ms => g ← group_step g m; grouped g ms end.
(** A line without newlines that fits the buffer. *)
Definition line_fits (bufSize : Z) (m : Message) : Prop := (newline ∉ mg_Line m) ∧ (zlen (mg_Line m) ≤ bufSize)%Z.

Lemma text_app a b : text (a ++ b) = text a ++ text b.
Proof. unfold text. by rewrite fmap_app, concat_app. Qed.
Lemma text_cons m ms : text (m :: ms) = mg_Line m ++ (if ends_line m then [newline] else []) ++ text ms.
Proof. unfold text. cbn. by rewrite <-app_assoc. Qed.
Lemma grouped_app g a b : grouped g (a ++ b) = (g ← grouped g a; grouped g b).
Proof. revert g. induction a as [|m a IH]; intros g; [done|]. cbn [grouped app]. destruct (group_step g m); cbn; [apply IH|done]. Qed.
Lemma index_newline_spec l : match index_newline l with
  | Some q => l = take q l ++ newline :: drop (S q) l ∧ newline ∉ take q l
  | None => newline ∉ l
  end.
Proof.
  induction l as [|c l IH]; cbn [index_newline]; [apply not_elem_of_nil|]. case_bool_decide as Hc.
  - subst. split; [done|]. cbn. apply not_elem_of_nil.
  - destruct (index_newline l) as [q|]; cbn [fmap option_fmap option_map].
    + destruct IH as [Hl Hn]. cbn [take drop app]. split; [by f_equal|]. apply not_elem_of_cons. by split.
    + apply not_elem_of_cons. by split.
Qed.

Section Proofs.
  Context (name : string) (bufSize : Z) (clock : nat → Z) (random_id : nat → string).
Definition scan_group (s : scan) : group := if sc_hasMorePartial s then Some (sc_partialid s, sc_ordinal s, sc_partialTS s) else None.
Definition scan_ok (s : scan) : Prop := sc_hasMorePartial s = negb (sc_firstPartial s).

Lemma line_msg_ok line s : scan_ok s → let '(m, s') := line_msg name clock line s in
  mg_Line m = line ∧ ends_line m = true ∧ group_step (scan_group s) m = Some (scan_group s') ∧ scan_ok s' ∧ sc_buf s' = sc_buf s ∧ sc_open s' = sc_open s.
Proof.
  intros Hs. unfold line_msg, scan_group, scan_ok in *. destruct (sc_hasMorePartial s) eqn:Hm; cbn.
  - by rewrite bool_decide_true, !Z.eqb_refl by done.
  - by rewrite ?Hm.
Qed.
Lemma partial_msg_ok line s : scan_ok s → let '(m, s') := partial_msg name clock random_id line s in
  mg_Line m = line ∧ ends_line m = false ∧ group_step (scan_group s) m = Some (scan_group s') ∧ scan_ok s' ∧ sc_open s' = sc_open s.
Proof.
  intros Hs. unfold partial_msg, scan_group, scan_ok in *. rewrite Hs. destruct (sc_firstPartial s) eqn:Hm; cbn; [done|].
  rewrite bool_decide_true, !Z.eqb_refl by done. done.
Qed.
Lemma look_ok s s' : look s = Some s' → sc_buf s' = sc_buf s ∧ scan_group s' = scan_group s ∧ (scan_ok s → scan_ok s') ∧ (sc_open s = None → sc_open s' = None).
Proof. unfold look. destruct (sc_open s) as [[|k]|] eqn:Ho; [done|..]; intros [= <-]; cbn; by rewrite ?Ho. Qed.
Lemma look_open s : sc_open s = None → look s = Some s.
Proof. unfold look. by intros ->. Qed.

Lemma log_lines_ok fuel s : scan_ok s → length (sc_buf s) < fuel → let '(ms, closed, s') := log_lines name clock fuel s in
  text ms ++ sc_buf s' = sc_buf s ∧ (closed = false → newline ∉ sc_buf s') ∧ Forall (line_fits (zlen (sc_buf s))) ms ∧
  grouped (scan_group s) ms = Some (scan_group s') ∧ scan_ok s' ∧ (sc_open s = None → closed = false ∧ sc_open s' = None).
Proof.
  revert s. induction fuel as [|fuel IH]; intros s Hs Hf; [lia|]. cbn [log_lines]. pose proof (index_newline_spec (sc_buf s)) as Hq.
  destruct (index_newline (sc_buf s)) as [q|]; [|cbn; by split_and!]. destruct Hq as [Hbuf Hno].
  destruct (look s) as [s1|] eqn:Hl.
  2:{ cbn. split_and!; try done. intros Ho. by rewrite (look_open s Ho) in Hl. }
  apply look_ok in Hl as (Hb1&Hg1&Hok1&Ho1). specialize (Hok1 Hs). pose proof (line_msg_ok (take q (sc_buf s1)) s1 Hok1) as Hm.
  destruct (line_msg name clock (take q (sc_buf s1)) s1) as [m s2]. destruct Hm as (Hline&Hend&Hg2&Hok2&Hb2&Ho2).
  assert (length (drop (S q) (sc_buf s)) < fuel) as Hlen by (apply (f_equal length) in Hbuf; rewrite length_app in Hbuf; cbn [length] in Hbuf; lia).
  specialize (IH (set_buf (drop (S q) (sc_buf s2)) s2)). rewrite Hb2, Hb1 in IH. specialize (IH Hok2 Hlen). rewrite Hb2, Hb1.
  destruct (log_lines name clock fuel (set_buf (drop (S q) (sc_buf s)) s2)) as [[ms closed] s3]. cbn [set_buf sc_buf sc_open] in IH.
  destruct IH as (Ht&Hn&Hfit&Hg&Hok3&Ho3). split_and!; [|done| | |done|].
  - rewrite text_cons, Hline, Hend, Hb1, <-!app_assoc, Ht. by rewrite <-Hbuf at 1.
  - constructor.
    + split; rewrite Hline, Hb1; [done|]. unfold zlen. rewrite length_take. lia.
    + eapply Forall_impl; [exact Hfit|]. intros x [Hx1 Hx2]. split; [done|]. etrans; [exact Hx2|]. unfold zlen. rewrite length_drop. lia.
  - cbn [grouped]. rewrite <-Hg1, Hg2. exact Hg.
  - intros Ho. apply Ho3. rewrite Ho2. by apply Ho1.
Qed.

Lemma flush_ok s : scan_ok s → newline ∉ sc_buf s → let '(ms, s') := flush name clock random_id s in
  text ms = sc_buf s ∧ sc_buf s' = [] ∧ Forall (line_fits (zlen (sc_buf s))) ms ∧ grouped (scan_group s) ms = Some (scan_group s') ∧ scan_ok s' ∧ sc_open s' = sc_open s.
Proof.
  intros Hs Hn. unfold flush. case_bool_decide as Hb; [by rewrite Hb|]. pose proof (partial_msg_ok (sc_buf s) s Hs) as Hm.
  destruct (partial_msg name clock random_id (sc_buf s) s) as [m s']. destruct Hm as (Hl&He&Hg&Hok&Ho).
  split_and!; [by rewrite text_cons, Hl, He, app_nil_r|done| |cbn [grouped]; by rewrite Hg|done|done].
  constructor; [|constructor]. split; [by rewrite Hl|by rewrite Hl].
Qed.
Lemma fits_le a b m : line_fits a m → (a ≤ b)%Z → line_fits b m.
Proof. intros [H1 H2] Hab. split; [done|lia]. Qed.
(** The messages [ms] are cut from [data], without what is [lost], which is nothing under
    the condition [C]. *)
Definition cut (g : group) (data : list ascii) (C : Prop) (ms : list Message) (lost : list ascii) : Prop :=
  text ms ++ lost = data ∧ (C → lost = []) ∧ Forall (line_fits bufSize) ms ∧ is_Some (grouped g ms).
Lemma cut_app g g' a data C ms lost : grouped g a = Some g' → Forall (line_fits bufSize) a → cut g' data C ms lost → cut g (text a ++ data) C (a ++ ms) lost.
Proof.
  intros Hg Ha (Ht&Hl&Hf&Hr). split_and!; [by rewrite text_app, <-app_assoc, Ht|done|by apply Forall_app_2|].
  rewrite grouped_app, Hg. exact Hr.
Qed.
Lemma cut_none g data : cut g data False [] data.
Proof. by split_and!. Qed.
Lemma cut_weaken g data (C C' : Prop) ms lost : cut g data C ms lost → (C' → C) → cut g data C' ms lost.
Proof. intros (?&?&?&?) ?. split_and!; auto. Qed.
Lemma flush_cut s : scan_ok s → newline ∉ sc_buf s → (zlen (sc_buf s) ≤ bufSize)%Z → let '(ms, s') := flush name clock random_id s in
  text ms = sc_buf s ∧ sc_buf s' = [] ∧ Forall (line_fits bufSize) ms ∧ grouped (scan_group s) ms = Some (scan_group s') ∧ scan_ok s' ∧ sc_open s' = sc_open s.
Proof.
  intros Hs Hn Hb. pose proof (flush_ok s Hs Hn) as H. destruct (flush name clock random_id s) as [ms s']. destruct H as (?&?&H&?). split_and!; try tauto.
  eapply Forall_impl; [exact H|]. intros m Hm. by eapply fits_le.
Qed.
Lemma copy_turns_ok fuel s src : (0 < bufSize)%Z → scan_ok s → newline ∉ sc_buf s → (zlen (sc_buf s) < bufSize)%Z → source_size src ≤ fuel →
  ∃ ms lost, copy_turns name bufSize clock random_id fuel s src = Some ms ∧
    cut (scan_group s) (sc_buf s ++ concat (so_pieces src)) (sc_open s = None ∧ so_end src = EOF) ms lost.
Proof.
  intros Hsize. revert s src. induction fuel as [|fuel IH]; intros s src Hs Hnl Hroom Hf; [unfold source_size in Hf; lia|]. cbn [copy_turns].
  destruct (look s) as [s1|] eqn:Hl.
  2:{ eexists [], _. split; [done|]. eapply cut_weaken; [apply cut_none|]. intros [Ho _]. by rewrite look_open in Hl. }
  apply look_ok in Hl as (Hb1&Hg1&Hok1&Ho1). specialize (Hok1 Hs). rewrite Hb1.
  set (upto := (if bufSize <? _ then _ else _)%Z). assert (zlen (sc_buf s) < upto ≤ bufSize)%Z as Hup.
  { unfold upto, readSize. destruct (Z.ltb_spec bufSize (zlen (sc_buf s) + 2 * 1024)%Z); lia. }
  destruct (Z.ltb_spec (zlen (sc_buf s)) upto) as [_|]; [|lia].
  destruct (source_Read_spec (upto - zlen (sc_buf s)) src) as (data&err&src'&->&Hcat&Hend&Hlen&Herr); [lia|].
  set (s2 := set_buf (sc_buf s ++ data) s1).
  assert (zlen (sc_buf s2) ≤ bufSize)%Z as Hb2 by (cbn; rewrite zlen_app; lia).
  pose proof (log_lines_ok (S (length (sc_buf s2))) s2 Hok1 ltac:(lia)) as Hlog. change (scan_group s2) with (scan_group s1) in Hlog. rewrite Hg1 in Hlog.
  destruct (log_lines name clock (S (length (sc_buf s2))) s2) as [[ms closed] s3]. destruct Hlog as (Ht&Hn&Hfit&Hgr&Hok3&Ho3).
  assert (Forall (line_fits bufSize) ms) as Hfit' by (eapply Forall_impl; [exact Hfit|]; intros x Hx; by eapply fits_le).
  assert (zlen (sc_buf s3) ≤ zlen (sc_buf s2))%Z as Hle by (rewrite <-Ht, zlen_app; pose proof (zlen_nonneg (text ms)); lia).
  replace (sc_buf s ++ concat (so_pieces src)) with (text ms ++ sc_buf s3 ++ concat (so_pieces src')) by (rewrite app_assoc, Ht, <-Hcat; cbn; by rewrite <-app_assoc).
  assert (closed = true → ∃ lost, cut (scan_group s) (text ms ++ sc_buf s3 ++ concat (so_pieces src')) (sc_open s = None ∧ so_end src = EOF) ms lost) as Hclosed.
  { intros Hc. eexists. rewrite <-(app_nil_r ms) at 2. eapply cut_app; [done|done|]. eapply cut_weaken; [apply cut_none|]. intros [Ho _]. destruct Ho3; [by apply Ho1|congruence]. }
  destruct Herr as [[-> Hsz]|[-> Hemp]].
  - rewrite andb_false_r. destruct closed; [destruct Hclosed as [lost H]; [done|]; by exists ms, lost|]. specialize (Hn eq_refl). cbn [orb].
    destruct (bool_decide (length (sc_buf s3) = length (sc_buf s2)) && (zlen (sc_buf s3) =? bufSize)%Z) eqn:Hfull.
    + pose proof (flush_cut s3 Hok3 Hn ltac:(lia)) as Hfl. destruct (flush name clock random_id s3) as [fl s4]. destruct Hfl as (F1&F2&F3&F4&F5&F6).
      destruct (IH s4 src' F5) as (rest&lost&->&Hcut); [rewrite F2; apply not_elem_of_nil|by rewrite F2|lia|]. rewrite F2 in Hcut. cbn.
      exists (ms ++ fl ++ rest), lost. split; [done|]. eapply cut_app; [done|done|]. rewrite <-F1. eapply cut_app; [done|done|]. eapply cut_weaken; [exact Hcut|].
      intros [Ho He]. split; [rewrite F6; by apply Ho3, Ho1|congruence].
    + destruct (IH s3 src' Hok3 Hn) as (rest&lost&->&Hcut); [|lia|].
      { apply andb_false_iff in Hfull as [Hm|Hm]; [|lia]. apply bool_decide_eq_false in Hm. unfold zlen in *. lia. }
      cbn. exists (ms ++ rest), lost. split; [done|]. eapply cut_app; [done|done|]. eapply cut_weaken; [exact Hcut|]. intros [Ho He]. split; [by apply Ho3, Ho1|congruence].
  - destruct (decide (so_end src = EOF)) as [He|He].
    2:{ rewrite bool_decide_false by done. eexists [], _. split; [done|]. eapply cut_weaken; [apply cut_none|]. by intros [_ ?]. }
    rewrite bool_decide_true by done. rewrite andb_true_r. case_bool_decide as Hz.
    { exists [], []. split; [done|]. rewrite Hemp, app_nil_r, Ht, Hz. by split_and!. }
    destruct closed; [destruct Hclosed as [lost H]; [done|]; by exists ms, lost|]. specialize (Hn eq_refl). cbn [orb].
    pose proof (flush_cut s3 Hok3 Hn ltac:(lia)) as Hfl. destruct (flush name clock random_id s3) as [fl s4]. destruct Hfl as (F1&F2&F3&F4&F5&F6).
    exists (ms ++ fl), []. split; [done|]. eapply cut_app; [done|done|]. rewrite Hemp, app_nil_r. cbn [concat]. split_and!; [by rewrite F1, app_nil_r|done|done|eauto].
Qed.
End Proofs.

(** C15. The log of a stream is the stream: whatever pieces a reader yields, [copySrc] ends, and
    its messages, each line followed by a newline but for partial ones, are the beginning
    of the stream; they are all of it if the stream ends with [io.EOF] and the copier is
    not closed.  No message is longer than the buffer or has a newline in it, and partial
    messages of a line follow one another, with one identifier, one time, and ordinals that
    count from one to the last. *)
Theorem copySrc_lossless name bufSize clock random_id open src : (0 < bufSize)%Z →
  ∃ ms lost, copySrc name bufSize clock random_id open src = Some ms ∧ text ms ++ lost = concat (so_pieces src) ∧
    (open = None → so_end src = EOF → lost = []) ∧ Forall (line_fits bufSize) ms ∧ is_Some (grouped None ms).
Proof.
  intros Hsize. destruct (copy_turns_ok name bufSize clock random_id (source_size src) (start_scan open) src Hsize) as (ms&lost&Hrun&Ht&Hl&Hf&Hg);
    [done|apply not_elem_of_nil|done|done|]. exists ms, lost. split_and!; try done. intros Ho He. by apply Hl.
Qed.
Lemma copySrc_lossless_witness :
  ∃ ms, copySrc "stdout" 4 Z.of_nat (λ _, "id") None (mkSource [String.list_ascii_of_string "a long"; [newline]; String.list_ascii_of_string "b"] EOF false) = Some ms ∧
    text ms = String.list_ascii_of_string "a long" ++ [newline] ++ String.list_ascii_of_string "b" ∧ length ms = 3.
Proof.
  destruct (copySrc_lossless "stdout" 4 Z.of_nat (λ _, "id") None (mkSource [String.list_ascii_of_string "a long"; [newline]; String.list_ascii_of_string "b"] EOF false))
    as (ms&lost&Hrun&Ht&Hl&_); [done|]. rewrite (Hl eq_refl eq_refl), app_nil_r in Ht. exists ms. split; [done|]. split; [done|].
  vm_compute in Hrun. injection Hrun as <-. done.
Defined.
