(* ===== verification/LogRing.v ===== *)
(** * The ring buffer of a logger

    [src/engine/daemon/logger/ring.go]: messages are put in a bounded queue, from which a
    goroutine hands them to the driver of the log; the logger is closed while it runs. *)

From S2P Require Import Prelude BytesPipe StdCopy LogCopier.

(** ** The queue *)

Definition errClosed : error := Sentinel "closed".
Definition defaultRingMaxSize : Z := 1000000.
Record messageRing := mkRing { rg_sizeBytes : Z; rg_maxBytes : Z; rg_queue : list Message; rg_closed : bool }.
Definition newRing (maxBytes : Z) : messageRing := mkRing 0 maxBytes [] false.
(** [Enqueue]: the error, whether the message was put in the queue, and whether a waiting
    [Dequeue] is woken. *)
Definition Enqueue (m : Message) (r : messageRing) : option error * bool * bool * messageRing :=
  let mSize := zlen (mg_Line m) in
  if rg_closed r then (Some errClosed, false, false, r)
  else if (rg_maxBytes r <? mSize + rg_sizeBytes r)%Z && negb (bool_decide (rg_queue r = [])) then (None, false, true, r)
  else (None, true, true, mkRing (rg_sizeBytes r + mSize) (rg_maxBytes r) (rg_queue r ++ [m]) false).
(** One look of [Dequeue] at the queue: it waits, or it returns. *)
Inductive dequeued := MustWait | Returned (r : error + Message).
Definition Dequeue (r : messageRing) : dequeued * messageRing :=
  if bool_decide (rg_queue r = []) && negb (rg_closed r) then (MustWait, r)
  else if rg_closed r then (Returned (inl errClosed), r)
  else match rg_queue r with
       | [] => (MustWait, r)
       | msg :: queue => (Returned (inr msg), mkRing (rg_sizeBytes r - zlen (mg_Line msg)) (rg_maxBytes r) queue false)
       end.
Definition ring_Close (r : messageRing) : messageRing := mkRing (rg_sizeBytes r) (rg_maxBytes r) (rg_queue r) true.
Definition Drain (r : messageRing) : list Message * messageRing := (rg_queue r, mkRing 0 (rg_maxBytes r) [] (rg_closed r)).

(** ** The logger *)

(** Where the goroutine [run] is: before its test of [closeFlag], before the lock of
    [Dequeue], asleep in it, or with a message for the driver. *)
Inductive runner := RCheck | RLock | RWait (woken : bool) | RLog (m : Message) | RStop.
(** Where [Close] is: not called, before it closes the queue, before it drains it, with
    messages for the driver, before it closes the driver, returned. *)
Inductive closer := CIdle | CRing | CDrain | CLog (ms : list Message) (logErr : bool) | CDriver | CDone.
(** What the driver is asked. *)
Inductive driver_call := DLog (m : Message) | DClose.
(** The logger, with the messages its queue took and those that were put away after an error. *)
Record RingLogger := mkLogger {
  rl_buffer : messageRing; rl_closeFlag : bool; rl_run : runner; rl_close : closer; rl_driver : list driver_call;
  rl_taken : list Message; rl_dropped : list Message }.
Definition NewRingLogger (maxSize : Z) : RingLogger :=
  mkLogger (newRing (if (maxSize <? 0)%Z then defaultRingMaxSize else maxSize)) false RCheck CIdle [] [] [].

Definition wake (r : runner) : runner := match r with RWait _ => RWait true | r => r end.
(** The part of [Log] after the test of [closeFlag]. *)
Definition log_enqueue (m : Message) (l : RingLogger) : option error * RingLogger :=
  let '(e, taken, signal, b) := Enqueue m (rl_buffer l) in
  (e, mkLogger b (rl_closeFlag l) (if signal then wake (rl_run l) else rl_run l) (rl_close l) (rl_driver l)
        (if taken then rl_taken l ++ [m] else rl_taken l) (rl_dropped l)).
Definition ring_Log (m : Message) (l : RingLogger) : option error * RingLogger :=
  if rl_closeFlag l then (Some errClosed, l) else log_enqueue m l.
Definition on_run (r : runner) (l : RingLogger) : RingLogger :=
  mkLogger (rl_buffer l) (rl_closeFlag l) r (rl_close l) (rl_driver l) (rl_taken l) (rl_dropped l).
Definition run_dequeue (l : RingLogger) : RingLogger :=
  let '(d, b) := Dequeue (rl_buffer l) in
  mkLogger b (rl_closeFlag l) (match d with MustWait => RWait false | Returned (inl _) => RStop | Returned (inr m) => RLog m end)
    (rl_close l) (rl_driver l) (rl_taken l) (rl_dropped l).
(** A step of [run]; it logs an error of the driver and goes on. *)
Definition run_step (l : RingLogger) : option RingLogger :=
  match rl_run l with
  | RCheck => Some (on_run (if rl_closeFlag l then RStop else RLock) l)
  | RLock | RWait true => Some (run_dequeue l)
  | RWait false | RStop => None
  | RLog m => Some (mkLogger (rl_buffer l) (rl_closeFlag l) RCheck (rl_close l) (rl_driver l ++ [DLog m]) (rl_taken l) (rl_dropped l))
  end.
(** A step of [Close]; [err] says that the driver answers with an error. *)
Definition close_step (err : bool) (l : RingLogger) : option RingLogger :=
  let put b flag run c driver dropped := Some (mkLogger b flag run c driver (rl_taken l) dropped) in
  match rl_close l with
  | CIdle => put (rl_buffer l) true (rl_run l) CRing (rl_driver l) (rl_dropped l)
  | CRing =>
      let run := if rg_closed (rl_buffer l) then rl_run l else wake (rl_run l) in
      put (ring_Close (rl_buffer l)) (rl_closeFlag l) run CDrain (rl_driver l) (rl_dropped l)
  | CDrain => let '(ms, b) := Drain (rl_buffer l) in put b (rl_closeFlag l) (rl_run l) (CLog ms false) (rl_driver l) (rl_dropped l)
  | CLog (m :: ms) true => put (rl_buffer l) (rl_closeFlag l) (rl_run l) (CLog ms true) (rl_driver l) (rl_dropped l ++ [m])
  | CLog (m :: ms) false => put (rl_buffer l) (rl_closeFlag l) (rl_run l) (CLog ms err) (rl_driver l ++ [DLog m]) (rl_dropped l)
  | CLog [] _ => put (rl_buffer l) (rl_closeFlag l) (rl_run l) CDriver (rl_driver l) (rl_dropped l)
  | CDriver => put (rl_buffer l) (rl_closeFlag l) (rl_run l) CDone (rl_driver l ++ [DClose]) (rl_dropped l)
  | CDone => None
  end.

(** A caller logs a message; one that has made the test puts it in the queue; [run] and
    [Close] do a step. *)
Inductive log_move := MLog (m : Message) | MEnqueue (m : Message) | MRun | MClose (err : bool).
Definition log_step (l : RingLogger) (mv : log_move) : RingLogger :=
  match mv with
  | MLog m => (ring_Log m l).2
  | MEnqueue m => (log_enqueue m l).2
  | MRun => default l (run_step l)
  | MClose err => default l (close_step err l)
  end.

(** ** What is delivered *)

Definition logged (l : RingLogger) : list Message := omap (λ c, match c with DLog m => Some m | DClose => None end) (rl_driver l).
Definition held (r : runner) : list Message := match r with RLog m => [m] | _ => [] end.
Definition closing (c : closer) : list Message := match c with CLog ms _ => ms | _ => [] end.
Definition bytes (ms : list Message) : Z := foldr (λ m n, (zlen (mg_Line m) + n)%Z) 0%Z ms.

Record logger_ok (l : RingLogger) : Prop := mkLoggerOk {
  lk_size : rg_sizeBytes (rl_buffer l) = bytes (rg_queue (rl_buffer l));
  lk_bound : 1 < length (rg_queue (rl_buffer l)) → (rg_sizeBytes (rl_buffer l) ≤ rg_maxBytes (rl_buffer l))%Z;
  lk_all : rl_taken l ≡ₚ logged l ++ held (rl_run l) ++ rg_queue (rl_buffer l) ++ closing (rl_close l) ++ rl_dropped l;
  lk_order : rl_close l = CIdle ∨ rl_close l = CRing → rl_taken l = logged l ++ held (rl_run l) ++ rg_queue (rl_buffer l);
  lk_sleep : rl_run l = RWait false → rg_queue (rl_buffer l) = [] ∧ rg_closed (rl_buffer l) = false;
  lk_closed : rg_closed (rl_buffer l) = true ↔ rl_close l ≠ CIdle ∧ rl_close l ≠ CRing;
  lk_drained : rl_close l ≠ CIdle → rl_close l ≠ CRing → rl_close l ≠ CDrain → rg_queue (rl_buffer l) = [] }.

Lemma bytes_app a b : bytes (a ++ b) = (bytes a + bytes b)%Z.
Proof. induction a as [|m a IH]; cbn; [done|]. fold bytes. unfold bytes in *. lia. Qed.
Lemma bytes_nonneg a : (0 ≤ bytes a)%Z.
Proof. induction a as [|m a IH]; cbn; [done|]. unfold bytes in *. pose proof (zlen_nonneg (mg_Line m)). lia. Qed.
Lemma wake_held r : held (wake r) = held r.
Proof. by destruct r. Qed.
Lemma wake_awake r : wake r ≠ RWait false.
Proof. by destruct r. Qed.
Lemma open_case l : logger_ok l → rg_closed (rl_buffer l) = false → rl_close l = CIdle ∨ rl_close l = CRing.
Proof.
  intros Hok Hcl. destruct (rl_close l) eqn:Hc; auto;
    (assert (rg_closed (rl_buffer l) = true); [|congruence]; apply (lk_closed _ Hok); rewrite Hc; by split).
Qed.
Lemma enqueue_closed m l : rg_closed (rl_buffer l) = true → (log_enqueue m l).2 = l.
Proof. intros H. unfold log_enqueue, Enqueue. rewrite H. by destruct l. Qed.
Lemma enqueue_ok m l : logger_ok l → logger_ok (log_enqueue m l).2.
Proof.
  intros Hok. destruct (rg_closed (rl_buffer l)) eqn:Hcl; [by rewrite enqueue_closed|]. pose proof (open_case l Hok Hcl) as Hcase. destruct Hok as [Hs Hb Ha Ho Hw Hc Hd].
  unfold log_enqueue, Enqueue. rewrite Hcl.
  destruct ((rg_maxBytes (rl_buffer l) <? zlen (mg_Line m) + rg_sizeBytes (rl_buffer l))%Z && negb (bool_decide (rg_queue (rl_buffer l) = []))) eqn:Hfull.
  - split; cbn; rewrite ?wake_held; try done. intros H. by apply wake_awake in H.
  - split; cbn; rewrite ?wake_held.
    + rewrite bytes_app, Hs. cbn. lia.
    + rewrite length_app. cbn. intros Hlen. apply andb_false_iff in Hfull as [Hf|Hf]; [lia|]. apply negb_false_iff, bool_decide_eq_true in Hf. rewrite Hf in Hlen. cbn in Hlen. lia.
    + rewrite Ha. solve_Permutation.
    + intros _. rewrite Ho by done. by rewrite <-!app_assoc.
    + intros H. by apply wake_awake in H.
    + split; [done|]. tauto.
    + tauto.
Qed.
Lemma dequeue_ok l : logger_ok l → held (rl_run l) = [] → logger_ok (run_dequeue l).
Proof.
  intros Hok Hh. pose proof (open_case l Hok) as Hcase. destruct Hok as [Hs Hb Ha Ho Hw Hc Hd]. unfold run_dequeue, Dequeue. rewrite Hh in *.
  destruct (bool_decide (rg_queue (rl_buffer l) = []) && negb (rg_closed (rl_buffer l))) eqn:Hwait.
  { apply andb_true_iff in Hwait as [Hq%bool_decide_eq_true Hcl%negb_true_iff]. split; cbn; try done. }
  destruct (rg_closed (rl_buffer l)) eqn:Hcl; [split; cbn; try done; by rewrite Hcl|].
  destruct (rg_queue (rl_buffer l)) as [|m q] eqn:Hq; [done|]. specialize (Hcase eq_refl).
  split; cbn.
  - rewrite Hs. cbn. fold bytes. lia.
  - intros Hl. pose proof (Hb ltac:(cbn; lia)). pose proof (zlen_nonneg (mg_Line m)). lia.
  - exact Ha.
  - exact Ho.
  - done.
  - tauto.
  - tauto.
Qed.
Lemma ring_run_ok l : logger_ok l → logger_ok (default l (run_step l)).
Proof.
  intros Hok. unfold run_step. destruct (rl_run l) as [| |[]|m|] eqn:Hr; try exact Hok; cbn [default from_option id].
  - destruct Hok as [Hs Hb Ha Ho Hw Hc Hd]. rewrite Hr in *. by destruct (rl_closeFlag l); split.
  - apply dequeue_ok; [done|by rewrite Hr].
  - apply dequeue_ok; [done|by rewrite Hr].
  - destruct Hok as [Hs Hb Ha Ho Hw Hc Hd]. rewrite Hr in *. split; cbn; try done.
    + unfold logged. cbn. rewrite omap_app. cbn. rewrite Ha. cbn. by rewrite <-app_assoc.
    + intros H. rewrite Ho by done. unfold logged. cbn. rewrite omap_app. cbn. by rewrite <-app_assoc.
Qed.
Lemma close_ok err l : logger_ok l → logger_ok (default l (close_step err l)).
Proof.
  intros Hok. pose proof Hok as [Hs Hb Ha Ho Hw Hc Hd]. unfold close_step. destruct (rl_close l) as [| | |[|m ms] [|]| |] eqn:Hcl; cbn [default from_option id]; try exact Hok.
  - split; cbn; try done; [|tauto]. intros _. apply Ho. by left.
  - assert (rg_closed (rl_buffer l) = false) as Hopen by (destruct (rg_closed (rl_buffer l)); [|done]; destruct Hc as [Hc _]; by destruct Hc).
    rewrite Hopen. split; cbn; rewrite ?wake_held; try done; try (by intros [?|?]); try (intros H; by apply wake_awake in H).
  - split; cbn; try done; try lia; try (by intros [?|?]); try (by split; [|intros _; apply Hc]); try (by intros; apply Hd). intros H. by destruct (Hw H) as [_ Hw'].
  - split; cbn; try done; try (by intros [?|?]); try (by split; [|intros _; apply Hc]); try (by intros; apply Hd).
  - split; cbn; try done; try (by intros [?|?]); try (by split; [|intros _; apply Hc]); try (by intros; apply Hd).
  - split; cbn; try done; try (by intros [?|?]); try (by split; [|intros _; apply Hc]); try (by intros; apply Hd). rewrite Ha. cbn. solve_Permutation.
  - split; cbn; try done; try (by intros [?|?]); try (by split; [|intros _; apply Hc]); try (by intros; apply Hd). unfold logged. cbn. rewrite omap_app. cbn. rewrite Ha. cbn. solve_Permutation.
  - split; cbn; try done; try (by intros [?|?]); try (by split; [|intros _; apply Hc]); try (by intros; apply Hd). unfold logged. cbn. rewrite omap_app. cbn. by rewrite app_nil_r.
Qed.
Lemma log_steps_ok mvs l : logger_ok l → logger_ok (foldl log_step l mvs).
Proof.
  revert l. induction mvs as [|mv mvs IH]; intros l Hok; [done|]. apply IH. destruct mv as [m|m| |err]; cbn.
  - unfold ring_Log. destruct (rl_closeFlag l); [done|by apply enqueue_ok].
  - by apply enqueue_ok.
  - by apply ring_run_ok.
  - by apply close_ok.
Qed.
Lemma new_logger_ok maxSize : logger_ok (NewRingLogger maxSize).
Proof. split; cbn; try done; try lia; try tauto. split; [done|]. by intros [? _]. Qed.

(** C16. The ring of a logger, whatever callers, the goroutine and [Close] do in whatever order:
    until the queue is closed the driver gets the messages the queue took, in their order,
    and the rest is with the goroutine and in the queue; the goroutine sleeps only at an
    empty and open queue; the queue has not more bytes than allowed, but for a single
    message; and when all is over, and the driver gave no error to [Close], the driver got
    every message once. *)
Theorem ring_delivers maxSize mvs : let l := foldl log_step (NewRingLogger maxSize) mvs in
  (rg_closed (rl_buffer l) = false → rl_taken l = logged l ++ held (rl_run l) ++ rg_queue (rl_buffer l)) ∧
  (rl_run l = RWait false → rg_queue (rl_buffer l) = [] ∧ rg_closed (rl_buffer l) = false) ∧
  (1 < length (rg_queue (rl_buffer l)) → (bytes (rg_queue (rl_buffer l)) ≤ rg_maxBytes (rl_buffer l))%Z) ∧
  (rl_close l = CDone → rl_run l = RStop → rl_dropped l = [] → logged l ≡ₚ rl_taken l).
Proof.
  intros l. pose proof (log_steps_ok mvs _ (new_logger_ok maxSize)) as Hok. fold l in Hok. split_and!.
  - intros H. apply (lk_order _ Hok), open_case; done.
  - apply Hok.
  - intros H. rewrite <-(lk_size _ Hok). by apply (lk_bound _ Hok).
  - intros Hc Hr Hd. rewrite (lk_all _ Hok), Hc, Hr, Hd, (lk_drained _ Hok) by (by rewrite Hc). cbn. by rewrite app_nil_r.
Qed.

Lemma log_empty m l : rg_queue (rl_buffer l) = [] → rg_closed (rl_buffer l) = false → rl_closeFlag l = false →
  log_step l (MLog m) = mkLogger (mkRing (rg_sizeBytes (rl_buffer l) + zlen (mg_Line m)) (rg_maxBytes (rl_buffer l)) [m] false) false (wake (rl_run l))
    (rl_close l) (rl_driver l) (rl_taken l ++ [m]) (rl_dropped l).
Proof. intros Hq Hc Hf. cbn [log_step]. unfold ring_Log, log_enqueue, Enqueue. rewrite Hf, Hc, Hq, bool_decide_true, andb_false_r by done. done. Qed.
(** C37. [Close] does not wait for the goroutine: a message that the goroutine has taken from the
    queue, but not yet handed over, reaches the driver after the messages that came later,
    and after the driver was closed. *)
Theorem ring_close_race maxSize a b : (0 ≤ maxSize)%Z →
  let l := foldl log_step (NewRingLogger maxSize) [MLog a; MRun; MRun; MLog b; MClose false; MClose false; MClose false; MClose false; MClose false; MClose false; MRun] in
  rl_driver l = [DLog b; DClose; DLog a] ∧ rl_taken l = [a; b].
Proof.
  intros Hm. cbn [foldl]. unfold NewRingLogger. destruct (Z.ltb_spec maxSize 0) as [|_]; [lia|]. set (r := newRing maxSize).
  rewrite (log_empty a (mkLogger r false RCheck CIdle [] [] []) eq_refl eq_refl eq_refl). set (l1 := mkLogger _ _ _ _ _ _ _).
  set (n := zlen (mg_Line a)) in *. assert (log_step (log_step l1 MRun) MRun = mkLogger (mkRing (0 + n - n) maxSize [] false) false (RLog a) CIdle [] [a] []) as -> by done.
  by rewrite (log_empty b) by done.
Qed.
Lemma ring_close_race_witness : let msg n := mkMsg [] "stdout" n None in
  rl_driver (foldl log_step (NewRingLogger 10) [MLog (msg 1%Z); MRun; MRun; MLog (msg 2%Z); MClose false; MClose false; MClose false; MClose false; MClose false; MClose false; MRun])
    = [DLog (msg 2%Z); DClose; DLog (msg 1%Z)].
Proof. intros msg. destruct (ring_close_race 10 (msg 1%Z) (msg 2%Z)) as [H _]; [done|]. exact H. Defined.
