(* ===== verification/ContainerState.v ===== *)
(** * The state of a container and its restarts

    [src/engine/container/state.go]: the flags of a container and the methods that set
    them.  [src/engine/restartmanager/restartmanager.go]: if and when a container that
    has exited is started again.  [src/engine/pkg/signal]: the names of signals. *)

From S2P Require Import Prelude.

(** ** [State] *)

(** The zero time is [None].  A channel that is closed and made again is the number of
    times that was done: who waits on the channel [n] goes on when the number is greater. *)
Record State := mkState {
  Running : bool; Paused : bool; Restarting : bool; OOMKilled : bool; RemovalInProgress : bool; Dead : bool;
  Pid : Z; ExitCodeValue : Z; ErrorMsg : string; StartedAt : option Z; FinishedAt : option Z;
  waitStop : nat; waitRemove : nat }.
Record ExitStatus := mkExit { es_ExitCode : Z; es_OOMKilled : bool; es_ExitedAt : option Z }.

Definition NewState : State := mkState false false false false false false 0 0 "" None None 0 0.

Definition StateString (s : State) : string :=
  if Running s then
    if Paused s then "paused" else if Restarting s then "restarting" else "running"
  else if RemovalInProgress s then "removing"
  else if Dead s then "dead"
  else if bool_decide (StartedAt s = None) then "created"
  else "exited".
Definition IsValidStateString (s : string) : bool :=
  negb (bool_decide (s ≠ "paused" ∧ s ≠ "restarting" ∧ s ≠ "removing" ∧ s ≠ "running" ∧ s ≠ "dead" ∧ s ≠ "created" ∧ s ≠ "exited")).

Definition SetExitCode (ec : Z) (s : State) : State :=
  mkState (Running s) (Paused s) (Restarting s) (OOMKilled s) (RemovalInProgress s) (Dead s) (Pid s) ec (ErrorMsg s) (StartedAt s) (FinishedAt s)
    (waitStop s) (waitRemove s).
(** [now] is the time of the call. *)
Definition SetRunning (pid : Z) (initial : bool) (now : Z) (s : State) : State :=
  mkState true false false (OOMKilled s) (RemovalInProgress s) (Dead s) pid 0 "" (if initial then Some now else StartedAt s) (FinishedAt s)
    (waitStop s) (waitRemove s).
Definition SetStopped (e : ExitStatus) (now : Z) (s : State) : State :=
  mkState false false false (es_OOMKilled e) (RemovalInProgress s) (Dead s) 0 (es_ExitCode e) (ErrorMsg s) (StartedAt s)
    (match es_ExitedAt e with None => Some now | t => t end) (S (waitStop s)) (waitRemove s).
Definition SetRestarting (e : ExitStatus) (now : Z) (s : State) : State :=
  mkState true false true (es_OOMKilled e) (RemovalInProgress s) (Dead s) 0 (es_ExitCode e) (ErrorMsg s) (StartedAt s) (Some now)
    (S (waitStop s)) (waitRemove s).

(** The text of an error. *)
Definition errno_text (e : errno) : string :=
  match e with
  | ENOENT => "no such file or directory" | EEXIST => "file exists" | ENOTDIR => "not a directory" | EISDIR => "is a directory"
  | ENOTEMPTY => "directory not empty" | EINVAL => "invalid argument" | EIO => "input/output error" | EPERM => "operation not permitted"
  | EROFS => "read-only file system" | EBUSY => "device or resource busy" | ELOOP => "too many levels of symbolic links"
  | EREMOTE => "object is remote" | ENAMETOOLONG => "file name too long" | ESTALE => "stale file handle" | EXDEV => "invalid cross-device link"
  end.
Fixpoint error_text (e : error) : string :=
  match e with
  | Sentinel n => n
  | OsError e => errno_text e
  | Errorf m | NotFound m | Conflict m | InvalidParameter m | Forbidden m | NotModified m => m
  | Wrap e m => m +:+ ": " +:+ error_text e
  | System e => error_text e
  | errNoSuchProcess pid sig =>
      "Cannot kill process (pid=" +:+ GoString.format_int pid +:+ ") with signal " +:+ GoString.format_int sig +:+ ": no such process."
  end.
Definition SetError (err : option error) (s : State) : State :=
  mkState (Running s) (Paused s) (Restarting s) (OOMKilled s) (RemovalInProgress s) (Dead s) (Pid s) (ExitCodeValue s)
    (from_option error_text EmptyString err) (StartedAt s) (FinishedAt s) (waitStop s) (waitRemove s).
(** [State.Err]. *)
Definition state_Err (s : State) : option error := if bool_decide (ErrorMsg s = EmptyString) then None else Some (Errorf (ErrorMsg s)).

Definition set_paused (b : bool) (s : State) : State :=
  mkState (Running s) b (Restarting s) (OOMKilled s) (RemovalInProgress s) (Dead s) (Pid s) (ExitCodeValue s) (ErrorMsg s) (StartedAt s) (FinishedAt s)
    (waitStop s) (waitRemove s).
Definition set_removal (b : bool) (s : State) : State :=
  mkState (Running s) (Paused s) (Restarting s) (OOMKilled s) b (Dead s) (Pid s) (ExitCodeValue s) (ErrorMsg s) (StartedAt s) (FinishedAt s)
    (waitStop s) (waitRemove s).
(** [SetDead], and the same in [cleanupContainer]. *)
Definition SetDead (s : State) : State :=
  mkState (Running s) (Paused s) (Restarting s) (OOMKilled s) (RemovalInProgress s) true (Pid s) (ExitCodeValue s) (ErrorMsg s) (StartedAt s) (FinishedAt s)
    (waitStop s) (waitRemove s).
(** The end of [SetRemovalError]: the channel is closed and made again. *)
Definition fire_removed (s : State) : State :=
  mkState (Running s) (Paused s) (Restarting s) (OOMKilled s) (RemovalInProgress s) (Dead s) (Pid s) (ExitCodeValue s) (ErrorMsg s) (StartedAt s) (FinishedAt s)
    (waitStop s) (S (waitRemove s)).

(** ** Restarts *)

Record RestartPolicy := mkPolicy { rp_Name : string; MaximumRetryCount : Z }.
Definition IsNone (p : RestartPolicy) : bool := bool_decide (rp_Name p = "no") || bool_decide (rp_Name p = EmptyString).
Definition IsAlways (p : RestartPolicy) : bool := bool_decide (rp_Name p = "always").
Definition IsOnFailure (p : RestartPolicy) : bool := bool_decide (rp_Name p = "on-failure").
Definition IsUnlessStopped (p : RestartPolicy) : bool := bool_decide (rp_Name p = "unless-stopped").

(** Times are in nanoseconds. *)
Definition backoffMultiplier : Z := 2.
Definition defaultTimeout : Z := 100 * 1000000.
Definition maxRestartTimeout : Z := 60 * 1000000000.
Definition ErrRestartCanceled : error := Sentinel "restart canceled".

Record restartManager := mkRM { rm_policy : RestartPolicy; rm_restartCount : Z; rm_timeout : Z; rm_active : bool; rm_canceled : bool }.
(** [New]. *)
Definition rm_New (policy : RestartPolicy) (restartCount : Z) : restartManager := mkRM policy restartCount 0 false false.
Definition SetPolicy (policy : RestartPolicy) (rm : restartManager) : restartManager :=
  mkRM policy (rm_restartCount rm) (rm_timeout rm) (rm_active rm) (rm_canceled rm).
(** The delay before the next restart. *)
Definition next_timeout (timeout executionDuration : Z) : Z :=
  let t := if (10 * 1000000000 <=? executionDuration)%Z then 0%Z else timeout in
  let t := if (t =? 0)%Z then defaultTimeout else if (t <? maxRestartTimeout)%Z then (t * backoffMultiplier)%Z else t in
  if (maxRestartTimeout <? t)%Z then maxRestartTimeout else t.
(** [restartManager.ShouldRestart]; the channel that is returned is that of [rm]. *)
Definition ShouldRestart (exitCode : Z) (hasBeenManuallyStopped : bool) (executionDuration : Z) (rm : restartManager) :
    bool * option error * restartManager :=
  let p := rm_policy rm in
  if IsNone p then (false, None, rm)
  else if rm_canceled rm then (false, Some ErrRestartCanceled, rm)
  else if rm_active rm then (false, Some (Errorf "invalid call on an active restart manager"), rm)
  else
    let t := next_timeout (rm_timeout rm) executionDuration in
    let restart :=
      if IsAlways p then true
      else if IsUnlessStopped p && negb hasBeenManuallyStopped then true
      else if IsOnFailure p then
        if (MaximumRetryCount p =? 0)%Z || (rm_restartCount rm <? MaximumRetryCount p)%Z then negb (exitCode =? 0)%Z else false
      else false in
    if restart then (true, None, mkRM p (rm_restartCount rm + 1) t true false)
    else (false, None, mkRM p (rm_restartCount rm) t false false).
(** What the goroutine of [ShouldRestart] does when the time is over. *)
Definition rm_fired (rm : restartManager) : restartManager :=
  mkRM (rm_policy rm) (rm_restartCount rm) (rm_timeout rm) false (rm_canceled rm).
Definition rm_Cancel (rm : restartManager) : restartManager :=
  mkRM (rm_policy rm) (rm_restartCount rm) (rm_timeout rm) (rm_active rm) true.

(** ** Signals *)

Definition SIGKILL : Z := 9.
Definition SignalMap : list (string * Z) :=
  [("ABRT", 6); ("ALRM", 14); ("BUS", 7); ("CHLD", 17); ("CLD", 17); ("CONT", 18); ("FPE", 8); ("HUP", 1); ("ILL", 4); ("INT", 2);
   ("IO", 29); ("IOT", 6); ("KILL", 9); ("PIPE", 13); ("POLL", 29); ("PROF", 27); ("PWR", 30); ("QUIT", 3); ("SEGV", 11);
   ("STKFLT", 16); ("STOP", 19); ("SYS", 31); ("TERM", 15); ("TRAP", 5); ("TSTP", 20); ("TTIN", 21); ("TTOU", 22); ("URG", 23);
   ("USR1", 10); ("USR2", 12); ("VTALRM", 26); ("WINCH", 28); ("XCPU", 24); ("XFSZ", 25);
   ("RTMIN", 34); ("RTMIN+1", 35); ("RTMIN+2", 36); ("RTMIN+3", 37); ("RTMIN+4", 38); ("RTMIN+5", 39); ("RTMIN+6", 40);
   ("RTMIN+7", 41); ("RTMIN+8", 42); ("RTMIN+9", 43); ("RTMIN+10", 44); ("RTMIN+11", 45); ("RTMIN+12", 46); ("RTMIN+13", 47);
   ("RTMIN+14", 48); ("RTMIN+15", 49); ("RTMAX-14", 50); ("RTMAX-13", 51); ("RTMAX-12", 52); ("RTMAX-11", 53); ("RTMAX-10", 54);
   ("RTMAX-9", 55); ("RTMAX-8", 56); ("RTMAX-7", 57); ("RTMAX-6", 58); ("RTMAX-5", 59); ("RTMAX-4", 60); ("RTMAX-3", 61);
   ("RTMAX-2", 62); ("RTMAX-1", 63); ("RTMAX", 64)]%Z.
Definition to_upper_char (c : ascii) : ascii :=
  let n := nat_of_ascii c in if bool_decide (97 ≤ n ≤ 122) then ascii_of_nat (n - 32) else c.
Fixpoint to_upper (s : string) : string :=
  match s with EmptyString => EmptyString | String c s => String (to_upper_char c) (to_upper s) end.
(** [ParseSignal]: the number, which is -1 with an error. *)
Definition ParseSignal (rawSignal : string) : Z * option error :=
  let invalid := ((-1)%Z, Some (Errorf ("Invalid signal: " +:+ rawSignal))) in
  match GoString.parse_int rawSignal with
  | Some s => if (s =? 0)%Z then invalid else (s, None)
  | None =>
      let name := to_upper rawSignal in
      let name := if GoString.has_prefix name "SIG" then GoString.drop 3 name else name in
      match list_find (λ e, e.1 = name) SignalMap with Some (_, (_, n)) => (n, None) | None => invalid end
  end.
Definition ValidSignalForPlatform (sig : Z) : bool := existsb (λ e, (e.2 =? sig)%Z) SignalMap.
Definition DefaultStopSignal : string := "SIGTERM".

(** ** What a restart manager grants *)

(** The exits a manager is asked about, the ends of its delays, and cancelling it. *)
Inductive rm_event := Exited (exitCode : Z) (manual : bool) (duration : Z) | Fired | Canceled.
(** The delays before the restarts that were granted. *)
Fixpoint rm_run (es : list rm_event) (rm : restartManager) : list Z * restartManager :=
  match es with
  | [] => ([], rm)
  | Exited code manual duration :: es =>
      let '(restart, _, rm) := ShouldRestart code manual duration rm in
      let '(ds, rm') := rm_run es rm in
      (if restart then rm_timeout rm :: ds else ds, rm')
  | Fired :: es => rm_run es (rm_fired rm)
  | Canceled :: es => rm_run es (rm_Cancel rm)
  end.

Definition timeout_ok (t : Z) : Prop := (defaultTimeout ≤ t ≤ maxRestartTimeout)%Z.
Lemma next_timeout_ok t d : t = 0%Z ∨ timeout_ok t → timeout_ok (next_timeout t d).
Proof.
  unfold timeout_ok, next_timeout, defaultTimeout, maxRestartTimeout, backoffMultiplier. intros Ht.
  repeat match goal with
  | |- context [(?a <=? ?b)%Z] => destruct (Z.leb_spec a b)
  | |- context [(?a <? ?b)%Z] => destruct (Z.ltb_spec a b)
  | |- context [(?a =? ?b)%Z] => destruct (Z.eqb_spec a b)
  end; lia.
Qed.

(** One question to a manager. *)
Lemma ShouldRestart_spec code manual d rm r e rm' : ShouldRestart code manual d rm = (r, e, rm') →
  rm_timeout rm = 0%Z ∨ timeout_ok (rm_timeout rm) →
  rm_policy rm' = rm_policy rm ∧ rm_canceled rm' = rm_canceled rm ∧ (rm_timeout rm' = 0%Z ∨ timeout_ok (rm_timeout rm')) ∧
  if r then
    timeout_ok (rm_timeout rm') ∧ rm_restartCount rm' = (rm_restartCount rm + 1)%Z ∧ rm_active rm' = true ∧
    rm_canceled rm = false ∧ rm_active rm = false ∧ IsNone (rm_policy rm) = false ∧
    (IsOnFailure (rm_policy rm) = true → MaximumRetryCount (rm_policy rm) = 0 ∨ rm_restartCount rm < MaximumRetryCount (rm_policy rm))%Z
  else rm_restartCount rm' = rm_restartCount rm.
Proof.
  unfold ShouldRestart. intros Hs Ht. destruct (IsNone (rm_policy rm)) eqn:Hn; [by simplify_eq|].
  destruct (rm_canceled rm) eqn:Hc; [by simplify_eq|]. destruct (rm_active rm) eqn:Ha; [by simplify_eq|].
  pose proof (next_timeout_ok (rm_timeout rm) d Ht) as Hok.
  match type of Hs with (if ?b then _ else _) = _ => destruct b eqn:Hb end; simplify_eq/=; [|by auto].
  split_and!; try done; [by right|]. intros Hf.
  rewrite Hf in Hb. destruct (IsAlways (rm_policy rm)) eqn:Hal.
  { unfold IsAlways, IsOnFailure in *. apply bool_decide_eq_true in Hal, Hf. congruence. }
  destruct (IsUnlessStopped (rm_policy rm)) eqn:Hu.
  { unfold IsUnlessStopped, IsOnFailure in *. apply bool_decide_eq_true in Hu, Hf. congruence. }
  cbn in Hb. destruct (Z.eqb_spec (MaximumRetryCount (rm_policy rm)) 0); [by left|].
  destruct (Z.ltb_spec (rm_restartCount rm) (MaximumRetryCount (rm_policy rm))); [by right|done].
Qed.

Lemma rm_run_spec es rm ds rm' : rm_run es rm = (ds, rm') → rm_timeout rm = 0%Z ∨ timeout_ok (rm_timeout rm) →
  Forall timeout_ok ds ∧ (IsNone (rm_policy rm) = true ∨ rm_canceled rm = true → ds = []) ∧
  (rm_restartCount rm' = rm_restartCount rm + Z.of_nat (length ds))%Z ∧
  (IsOnFailure (rm_policy rm) = true → 0 < MaximumRetryCount (rm_policy rm) →
    rm_restartCount rm' ≤ rm_restartCount rm `max` MaximumRetryCount (rm_policy rm))%Z.
Proof.
  revert rm ds. induction es as [|[code manual d| |] es IH]; intros rm ds Hrun Ht; cbn in Hrun.
  - simplify_eq. split_and!; [done|done|cbn; lia|lia].
  - destruct (ShouldRestart code manual d rm) as [[r e] rm1] eqn:Hs. destruct (rm_run es rm1) as [ds1 rm2] eqn:Hr.
    apply ShouldRestart_spec in Hs as (Hp&Hc&Ht1&Hcase); [|done]. injection Hrun as Hds <-. destruct (IH _ _ Hr Ht1) as (H1&H2&H3&H4). rewrite Hp, Hc in *.
    destruct r; simplify_eq/=.
    + destruct Hcase as (Hok&Hn&_&Hc0&_&Hno&Hmax). split_and!; [by constructor|intros [?|?]; congruence|lia|].
      intros Hf Hpos. specialize (H4 Hf Hpos). destruct (Hmax Hf); lia.
    + split_and!; [done|done|lia|]. intros Hf Hpos. specialize (H4 Hf Hpos). lia.
  - by apply IH in Hrun.
  - destruct (IH _ _ Hrun Ht) as (H1&H2&H3&H4). cbn in *. split_and!; [done|intros _; apply H2; by right|done|done].
Qed.
Lemma rm_run_app es1 es2 rm : rm_run (es1 ++ es2) rm =
  let '(ds1, rm1) := rm_run es1 rm in let '(ds2, rm2) := rm_run es2 rm1 in (ds1 ++ ds2, rm2).
Proof.
  revert rm. induction es1 as [|[code manual d| |] es1 IH]; intros rm; cbn; [by destruct (rm_run es2 rm)| |apply IH|apply IH].
  destruct (ShouldRestart code manual d rm) as [[r e] rm1]. rewrite IH.
  destruct (rm_run es1 rm1) as [ds1 rm2]. destruct (rm_run es2 rm2) as [ds2 rm3]. by destruct r.
Qed.
Lemma rm_run_timeout es rm : rm_timeout rm = 0%Z ∨ timeout_ok (rm_timeout rm) →
  rm_timeout (rm_run es rm).2 = 0%Z ∨ timeout_ok (rm_timeout (rm_run es rm).2).
Proof.
  revert rm. induction es as [|[code manual d| |] es IH]; intros rm Ht; cbn; [done| |by apply IH|by apply IH].
  destruct (ShouldRestart code manual d rm) as [[r e] rm1] eqn:Hs. apply ShouldRestart_spec in Hs as (_&_&Ht1&_); [|done].
  specialize (IH _ Ht1). by destruct (rm_run es rm1).
Qed.

(** C29. Whatever exits a restart manager is asked about: it waits between 100 ms and one
    minute before each restart; it grants none under the policy "no", none after it was
    cancelled, and under "on-failure" with a maximum never more than that. *)
Theorem restarts_bounded es es' p n :
  let '(ds, rm) := rm_run es (rm_New p n) in
  Forall (λ d, defaultTimeout ≤ d ≤ maxRestartTimeout)%Z ds ∧ (IsNone p = true → ds = []) ∧
  (rm_restartCount rm = n + Z.of_nat (length ds))%Z ∧
  (IsOnFailure p = true → 0 < MaximumRetryCount p → n + Z.of_nat (length ds) ≤ n `max` MaximumRetryCount p)%Z ∧
  (rm_run (es ++ Canceled :: es') (rm_New p n)).1 = ds.
Proof.
  destruct (rm_run es (rm_New p n)) as [ds rm] eqn:Hrun.
  destruct (rm_run_spec _ _ _ _ Hrun (or_introl eq_refl)) as (H1&H2&H3&H4). cbn in *.
  split_and!; [done|by auto|done|intros; rewrite <-H3; auto|].
  rewrite rm_run_app, Hrun. cbn [rm_run].
  destruct (rm_run es' (rm_Cancel rm)) as [ds2 rm2] eqn:Hrun2.
  destruct (rm_run_spec _ _ _ _ Hrun2) as (_&Hnone&_).
  { pose proof (rm_run_timeout es (rm_New p n) (or_introl eq_refl)) as Ht. by rewrite Hrun in Ht. }
  rewrite Hnone by by right. cbn. apply app_nil_r.
Qed.
