(* ===== verification/LifeCycle.v ===== *)
(** * The life of a container in the daemon

    [src/engine/daemon/start.go], [stop.go], [kill.go], [pause.go], [unpause.go],
    [restart.go], [delete.go] and [monitor.go]: the requests of clients and the events of
    the runtime, as programs that run in parallel on one container.  A program takes
    and gives up the lock of the container where the code does; what other parts of the
    daemon and the runtime do is a call with any reply. *)

From S2P Require Import Prelude ContainerState.

(** ** The container and the programs *)

(** The fields of [Container], its [Config] and its [HostConfig] that the life cycle uses. *)
Record Ctr := mkCtr {
  ct_ID : string; ct_State : State; ct_Path : string; ct_RWLayer : bool; ct_BaseFS : option string; ct_MountLabel : string;
  RestartCount : Z; HasBeenStartedBefore : bool; HasBeenManuallyStopped : bool; ct_restartManager : option nat;
  ct_StopSignal : string; ct_StopTimeout : option Z; AutoRemove : bool; ct_RestartPolicy : RestartPolicy }.

Definition set_st (f : State → State) (c : Ctr) : Ctr :=
  mkCtr (ct_ID c) (f (ct_State c)) (ct_Path c) (ct_RWLayer c) (ct_BaseFS c) (ct_MountLabel c) (RestartCount c) (HasBeenStartedBefore c)
    (HasBeenManuallyStopped c) (ct_restartManager c) (ct_StopSignal c) (ct_StopTimeout c) (AutoRemove c) (ct_RestartPolicy c).
Definition set_fs (layer : bool) (base : option string) (c : Ctr) : Ctr :=
  mkCtr (ct_ID c) (ct_State c) (ct_Path c) layer base (ct_MountLabel c) (RestartCount c) (HasBeenStartedBefore c)
    (HasBeenManuallyStopped c) (ct_restartManager c) (ct_StopSignal c) (ct_StopTimeout c) (AutoRemove c) (ct_RestartPolicy c).
Definition set_label (l : string) (c : Ctr) : Ctr :=
  mkCtr (ct_ID c) (ct_State c) (ct_Path c) (ct_RWLayer c) (ct_BaseFS c) l (RestartCount c) (HasBeenStartedBefore c)
    (HasBeenManuallyStopped c) (ct_restartManager c) (ct_StopSignal c) (ct_StopTimeout c) (AutoRemove c) (ct_RestartPolicy c).
Definition set_restarts (n : Z) (rm : option nat) (c : Ctr) : Ctr :=
  mkCtr (ct_ID c) (ct_State c) (ct_Path c) (ct_RWLayer c) (ct_BaseFS c) (ct_MountLabel c) n (HasBeenStartedBefore c)
    (HasBeenManuallyStopped c) rm (ct_StopSignal c) (ct_StopTimeout c) (AutoRemove c) (ct_RestartPolicy c).
Definition set_been (started manually : bool) (c : Ctr) : Ctr :=
  mkCtr (ct_ID c) (ct_State c) (ct_Path c) (ct_RWLayer c) (ct_BaseFS c) (ct_MountLabel c) (RestartCount c) started
    manually (ct_restartManager c) (ct_StopSignal c) (ct_StopTimeout c) (AutoRemove c) (ct_RestartPolicy c).
Definition set_auto (b : bool) (c : Ctr) : Ctr :=
  mkCtr (ct_ID c) (ct_State c) (ct_Path c) (ct_RWLayer c) (ct_BaseFS c) (ct_MountLabel c) (RestartCount c) (HasBeenStartedBefore c)
    (HasBeenManuallyStopped c) (ct_restartManager c) (ct_StopSignal c) (ct_StopTimeout c) b (ct_RestartPolicy c).

(** What the programs share: the container, the restart managers it has had, whether the
    daemon still knows it, the copy in [containersReplica] and on disk, whether the daemon
    is shutting down, and the events that were logged. *)
Record shared := mkShared {
  sh_c : Ctr; sh_rms : list restartManager; sh_known : bool; sh_saved : option Ctr; sh_shutdown : bool; sh_log : list string }.
Definition on_c (f : Ctr → Ctr) (s : shared) : shared := mkShared (f (sh_c s)) (sh_rms s) (sh_known s) (sh_saved s) (sh_shutdown s) (sh_log s).
Definition on_rms (f : list restartManager → list restartManager) (s : shared) : shared :=
  mkShared (sh_c s) (f (sh_rms s)) (sh_known s) (sh_saved s) (sh_shutdown s) (sh_log s).
Definition on_saved (o : option Ctr) (s : shared) : shared := mkShared (sh_c s) (sh_rms s) (sh_known s) o (sh_shutdown s) (sh_log s).
Definition forget (s : shared) : shared := mkShared (sh_c s) (sh_rms s) false (sh_saved s) (sh_shutdown s) (sh_log s).
Definition on_log (m : string) (s : shared) : shared := mkShared (sh_c s) (sh_rms s) (sh_known s) (sh_saved s) (sh_shutdown s) (sh_log s ++ [m]).

(** The calls to other parts: the clock, the layer of the container, networking, volumes,
    health checks, streams, the client of containerd, the disk, and the indexes. *)
Inductive call :=
  | TimeNow | LayerMount (label : string) | LayerUnmount | GetLayerMountID | cleanupMountsByID
  | initializeNetworking | releaseNetwork | createSpec | saveApparmorConfig | getCheckpointDir (checkpoint : string)
  | getLibcontainerdCreateOptions | verifyContainerSettings | waitForStartupDone
  | cd_Create | cd_Start (checkpointDir : string) | cd_Delete | cd_DeleteTask | cd_Pause | cd_Resume | cd_Signal (sig : Z) | unix_Kill (pid sig : Z)
  | toDisk | stateCtr (s : string) | stateCtrDel | initHealthMonitor | updateHealthMonitor | stopHealthchecks
  | StreamWait | ResetStreams
  | UnmountIpcMount | UnmountSecrets | RecursiveUnmount | unregisterExecs | UnmountVolumes | CancelAttachContext | ExecExit (pid code : Z)
  | IsOSSupported | StopCollection | ReleaseLayer | EnsureRemoveAll | linkDelete | idIndexDelete | removeMountPoints | releaseName | rmLink.
(** The reply of a call: an error, and a number or a path. *)
Record reply := mkReply { r_err : option error; r_int : Z; r_str : string }.

(** The goroutine that [ProcessEvent] starts for a restart that was granted. *)
Inductive goroutine := RestartWaiter (rm : nat) (e : ExitStatus).

(** A program.  [Await] waits for the channels of a container; if [ctx] is set, it may also
    end because the time of the context is over.  [AwaitRestart] waits for the channel
    that [ShouldRestart] returned. *)
Inductive prog (A : Type) : Type :=
  | Ret (a : A)
  | Lock (k : prog A)
  | Unlock (k : prog A)
  | Get (k : shared → prog A)
  | Upd (f : shared → shared) (k : prog A)
  | Call (c : call) (k : reply → prog A)
  | Await (ctx : bool) (stop : option nat) (remove : nat) (k : bool → prog A)
  | AwaitRestart (rm : nat) (k : option error → prog A)
  | Go (g : goroutine) (k : prog A).
Arguments Ret {A}. Arguments Lock {A}. Arguments Unlock {A}. Arguments Get {A}. Arguments Upd {A}.
Arguments Call {A}. Arguments Await {A}. Arguments AwaitRestart {A}. Arguments Go {A}.
#[export] Instance prog_ret : MRet prog := @Ret.
#[export] Instance prog_bind : MBind prog := λ A B f, fix go p :=
  match p with
  | Ret a => f a
  | Lock k => Lock (go k)
  | Unlock k => Unlock (go k)
  | Get k => Get (λ s, go (k s))
  | Upd g k => Upd g (go k)
  | Call c k => Call c (λ r, go (k r))
  | Await ctx stop remove k => Await ctx stop remove (λ b, go (k b))
  | AwaitRestart rm k => AwaitRestart rm (λ e, go (k e))
  | Go g k => Go g (go k)
  end.

Definition lock : prog () := Lock (Ret ()).
Definition unlock : prog () := Unlock (Ret ()).
Definition upd (f : shared → shared) : prog () := Upd f (Ret ()).
Definition getc : prog Ctr := Get (λ s, Ret (sh_c s)).
Definition do_ (c : call) : prog (option error) := Call c (λ r, Ret (r_err r)).
Definition ignore (c : call) : prog () := Call c (λ _, Ret ()).
Definition now : prog Z := Call TimeNow (λ r, Ret (r_int r)).
Definition locked {A} (m : prog A) : prog A := _ ← lock; x ← m; _ ← unlock; mret x.
(** Go on with [k] if there was no error. *)
Definition or_err (m : prog (option error)) (k : prog (option error)) : prog (option error) :=
  e ← m; match e with Some e => mret (Some e) | None => k end.
Definition wrap_err (f : error → error) (m : prog (option error)) : prog (option error) :=
  e ← m; mret (match e with Some e => Some (f e) | None => None end).
Notation "m ;? k" := (or_err m k) (at level 100, right associativity).
Definition set_state (f : State → State) : prog () := upd (on_c (set_st f)).
(** [LogContainerEvent]. *)
Definition LogContainerEvent (action : string) : prog () := upd (on_log action).

(** ** Parts of the container *)

(** [CheckpointTo]. *)
Definition CheckpointTo : prog (option error) :=
  e ← do_ toDisk; match e with Some e => mret (Some e) | None => _ ← Get (λ s, upd (on_saved (Some (sh_c s)))); mret None end.
(** [setStateCounter]. *)
Definition setStateCounter : prog () :=
  c ← getc;
  let s := StateString (ct_State c) in
  ignore (stateCtr (if bool_decide (s = "paused") then "paused" else if bool_decide (s = "running") then "running" else "stopped")).
(** [Container.RestartManager]. *)
Definition RestartManager : prog nat :=
  Get (λ s,
    match ct_restartManager (sh_c s) with
    | Some r => mret r
    | None =>
        let r := length (sh_rms s) in
        _ ← upd (on_rms (λ l, l ++ [rm_New (ct_RestartPolicy (sh_c s)) (RestartCount (sh_c s))]));
        _ ← upd (on_c (λ c, set_restarts (RestartCount c) (Some r) c));
        mret r
    end).
(** [restartManager.Cancel] and [Container.ExitOnNext]. *)
Definition Cancel (r : nat) : prog () := upd (on_rms (alter rm_Cancel r)).
Definition ExitOnNext : prog () := r ← RestartManager; Cancel r.
(** [ResetRestartManager]. *)
Definition ResetRestartManager (resetCount : bool) : prog () :=
  c ← getc;
  _ ← (match ct_restartManager c with Some r => Cancel r | None => mret () end);
  upd (on_c (λ c, set_restarts (if resetCount then 0%Z else RestartCount c) None c)).
(** [ShouldRestart] on the manager [r]. *)
Definition rm_ShouldRestart (r : nat) (exitCode : Z) (manually : bool) (duration : Z) : prog (bool * option error) :=
  Get (λ s,
    match sh_rms s !! r with
    | Some rm =>
        let '(restart, e, rm') := ShouldRestart exitCode manually duration rm in
        _ ← upd (on_rms (insert r rm')); mret (restart, e)
    | None => mret (false, None)
    end).
(** [Container.StopSignal] and [StopTimeout]. *)
Definition StopSignal (c : Ctr) : Z :=
  let sig := if bool_decide (ct_StopSignal c = EmptyString) then 0%Z else (ParseSignal (ct_StopSignal c)).1 in
  if (sig =? 0)%Z then (ParseSignal DefaultStopSignal).1 else sig.
Definition DefaultStopTimeout : Z := 10.
Definition StopTimeout (c : Ctr) : Z := default DefaultStopTimeout (ct_StopTimeout c).
(** [IsRunning] and [GetPID]. *)
Definition IsRunning : prog bool := locked (c ← getc; mret (Running (ct_State c))).
Definition GetPID : prog Z := locked (c ← getc; mret (Pid (ct_State c))).

Inductive WaitCondition := WaitConditionNotRunning | WaitConditionNextExit | WaitConditionRemoved.
#[export] Instance WaitCondition_eq_dec : EqDecision WaitCondition.
Proof. solve_decision. Defined.
Definition DeadlineExceeded : error := Sentinel "context deadline exceeded".
(** [State.Wait] and the receive from the channel it returns: the exit code and the error. *)
Definition Wait (ctx : bool) (condition : WaitCondition) : prog (Z * option error) :=
  let status c := (ExitCodeValue (ct_State c), state_Err (ct_State c)) in
  _ ← lock; c ← getc; _ ← unlock;
  if bool_decide (condition = WaitConditionNotRunning) && negb (Running (ct_State c)) then mret (status c)
  else
    timeout ← Await ctx (if bool_decide (condition = WaitConditionRemoved) then None else Some (waitStop (ct_State c))) (waitRemove (ct_State c)) mret;
    if (timeout : bool) then mret ((-1)%Z, Some DeadlineExceeded)
    else locked (c ← getc; mret (status c)).
(** [SetRemovalInProgress], [ResetRemovalInProgress], [SetRemovalError] and [SetRemoved]. *)
Definition SetRemovalInProgress : prog bool :=
  locked (c ← getc; if RemovalInProgress (ct_State c) then mret true else (_ ← set_state (set_removal true); mret false)).
Definition ResetRemovalInProgress : prog () := locked (set_state (set_removal false)).
Definition SetRemovalError (err : option error) : prog () := _ ← set_state (SetError err); locked (set_state fire_removed).

(** ** Signals *)

Definition errNotRunning (id : string) : error := Conflict ("Container " +:+ id +:+ " is not running").
(** [errdefs.IsNotFound] and [isErrNoSuchProcess]. *)
Fixpoint IsNotFound (e : error) : bool :=
  match e with NotFound _ | errNoSuchProcess _ _ => true | Wrap e _ => IsNotFound e | _ => false end.
Definition isErrNoSuchProcess (e : error) : bool := match e with errNoSuchProcess _ _ => true | _ => false end.
Definition ESRCH : error := Sentinel "no such process".

(** [killWithSignal], what it does with the lock: the end, after it is known whether the
    container has to be resumed. *)
Definition kill_rest (sig : Z) (unpause : bool) : prog (option error) :=
  _ ← Get (λ s, if sh_shutdown s then mret () else upd (on_c (λ c, set_been (HasBeenStartedBefore c) true c)));
  c ← getc;
  if Restarting (ct_State c) then mret None
  else
    e ← do_ (cd_Signal sig);
    match e with
    | Some e =>
        if IsNotFound e then _ ← LogContainerEvent "kill"; mret None
        else mret (Some (Wrap e ("Cannot kill container " +:+ ct_ID c)))
    | None => _ ← (if unpause then ignore cd_Resume else mret ()); _ ← LogContainerEvent "kill"; mret None
    end.
Definition killWithSignal_body (sig : Z) : prog (option error) :=
  _ ← ignore stopHealthchecks;
  c ← getc;
  if negb (Running (ct_State c)) then mret (Some (errNotRunning (ct_ID c)))
  else
    let exit : prog (option error) := _ ← ExitOnNext; c ← getc; kill_rest sig (Paused (ct_State c)) in
    if negb (bool_decide (ct_StopSignal c = EmptyString)) && negb (sig =? SIGKILL)%Z then
      match ParseSignal (ct_StopSignal c) with
      | (_, Some e) => mret (Some e)
      | (containerStopSignal, None) => if (containerStopSignal =? sig)%Z then exit else kill_rest sig false
      end
    else exit.
Definition killWithSignal (sig : Z) : prog (option error) := locked (killWithSignal_body sig).
Definition killPossiblyDeadProcess (sig : Z) : prog (option error) :=
  e ← killWithSignal sig;
  match e with
  | Some e => if IsNotFound e then pid ← GetPID; mret (Some (errNoSuchProcess pid sig)) else mret (Some e)
  | None => mret None
  end.
Definition killProcessDirectly : prog (option error) :=
  '(_, err) ← Wait true WaitConditionNotRunning;
  match err with
  | None => mret None
  | Some _ =>
      pid ← GetPID;
      if (pid =? 0)%Z then mret None
      else
        e ← do_ (unix_Kill pid SIGKILL);
        match e with
        | Some e => mret (Some (if bool_decide (e = ESRCH) then errNoSuchProcess pid SIGKILL else e))
        | None => mret None
        end
  end.
Definition Kill : prog (option error) :=
  running ← IsRunning;
  if negb running then c ← getc; mret (Some (errNotRunning (ct_ID c)))
  else
    let direct : prog (option error) :=
      e ← killProcessDirectly;
      match e with
      | Some e => mret (if isErrNoSuchProcess e then None else Some e)
      | None => _ ← Wait false WaitConditionNotRunning; mret None
      end in
    e ← killPossiblyDeadProcess SIGKILL;
    match e with
    | Some e =>
        if isErrNoSuchProcess e then mret None
        else '(_, err) ← Wait true WaitConditionNotRunning; match err with Some _ => mret (Some e) | None => direct end
    | None => direct
    end.

(** The daemon still has the container, or the error [missing]; and [GetContainer]. *)
Definition if_known (missing : string → error) (k : prog (option error)) : prog (option error) :=
  Get (λ s, if sh_known s then k else mret (Some (missing (ct_ID (sh_c s))))).
Definition GetContainer (k : prog (option error)) : prog (option error) := if_known (λ id, NotFound ("No such container: " +:+ id)) k.

Definition ContainerKill (sig : Z) : prog (option error) :=
  GetContainer (
    if negb (sig =? 0)%Z && negb (ValidSignalForPlatform sig)
    then mret (Some (Errorf ("The linux daemon does not support signal " +:+ GoString.format_int sig)))
    else if (sig =? 0)%Z || (sig =? SIGKILL)%Z then Kill
    else killWithSignal sig).

(** ** Stopping, pausing, removing *)

Definition containerStop (seconds : Z) : prog (option error) :=
  running ← IsRunning;
  if negb running then mret None
  else
    c ← getc;
    let stopSignal := StopSignal c in
    e ← killPossiblyDeadProcess stopSignal;
    (match e with
     | Some _ =>
         '(_, err) ← Wait true WaitConditionNotRunning;
         match err with Some _ => killPossiblyDeadProcess SIGKILL | None => mret None end
     | None => mret None
     end) ;?
    ('(_, err) ← Wait (0 <=? seconds)%Z WaitConditionNotRunning;
     _ ← (match err with
          | Some _ =>
              e ← Kill;
              match e with Some _ => _ ← Wait false WaitConditionNotRunning; mret () | None => mret () end
          | None => mret ()
          end);
     _ ← LogContainerEvent "stop";
     mret None).
Definition ContainerStop (timeout : option Z) : prog (option error) :=
  GetContainer (
    running ← IsRunning;
    if negb running then mret (Some (NotModified "Container is already stopped"))
    else
      c ← getc;
      wrap_err (λ e, System (Wrap e ("cannot stop container: " +:+ ct_ID c))) (containerStop (default (StopTimeout c) timeout))).

Definition containerPause : prog (option error) :=
  locked (
    c ← getc;
    if negb (Running (ct_State c)) then mret (Some (errNotRunning (ct_ID c)))
    else if Paused (ct_State c) then mret (Some (Conflict ("Container " +:+ ct_ID c +:+ " is already paused")))
    else if Restarting (ct_State c)
    then mret (Some (Conflict ("Container " +:+ ct_ID c +:+ " is restarting, wait until the container is running")))
    else
      e ← do_ cd_Pause;
      match e with
      | Some e => mret (Some (Errorf ("Cannot pause container " +:+ ct_ID c +:+ ": " +:+ error_text e)))
      | None =>
          _ ← set_state (set_paused true); _ ← setStateCounter; _ ← ignore updateHealthMonitor; _ ← LogContainerEvent "pause";
          _ ← CheckpointTo; mret None
      end).
Definition ContainerPause : prog (option error) := GetContainer containerPause.
Definition containerUnpause : prog (option error) :=
  locked (
    c ← getc;
    if negb (Paused (ct_State c)) then mret (Some (Errorf ("Container " +:+ ct_ID c +:+ " is not paused")))
    else
      e ← do_ cd_Resume;
      match e with
      | Some e => mret (Some (Errorf ("Cannot unpause container " +:+ ct_ID c +:+ ": " +:+ error_text e)))
      | None =>
          _ ← set_state (set_paused false); _ ← setStateCounter; _ ← ignore updateHealthMonitor; _ ← LogContainerEvent "unpause";
          _ ← CheckpointTo; mret None
      end).
Definition ContainerUnpause : prog (option error) := GetContainer containerUnpause.

(** [cleanupContainer], after the container is stopped. *)
Definition cleanup_dead : prog (option error) :=
  _ ← locked (_ ← set_state SetDead; CheckpointTo);
  c ← getc;
  (if ct_RWLayer c then
     e ← do_ ReleaseLayer;
     match e with
     | Some e => let err := Some (Wrap e ("container " +:+ ct_ID c)) in _ ← SetRemovalError err; mret err
     | None => _ ← upd (on_c (λ c, set_fs false (ct_BaseFS c) c)); mret None
     end
   else mret None) ;?
  (e ← do_ EnsureRemoveAll;
   match e with
   | Some e => let err := Some (Wrap e ("unable to remove filesystem for " +:+ ct_ID c)) in _ ← SetRemovalError err; mret err
   | None =>
       _ ← ignore linkDelete; _ ← ignore idIndexDelete; _ ← upd forget; _ ← upd (on_saved None);
       _ ← ignore removeMountPoints; _ ← ignore releaseName; _ ← SetRemovalError None; _ ← ignore stateCtrDel;
       _ ← LogContainerEvent "destroy"; mret None
   end).
Definition cleanupContainer (forceRemove : bool) : prog (option error) :=
  running ← IsRunning;
  (if negb running then mret None
   else if negb forceRemove then
     c ← getc;
     let state := StateString (ct_State c) in
     let procedure := if bool_decide (state = "paused") then "Unpause and then stop the container before attempting removal or force remove"
                      else "Stop the container before attempting removal or force remove" in
     mret (Some (Conflict ("You cannot remove a " +:+ state +:+ " container " +:+ ct_ID c +:+ ". " +:+ procedure)))
   else
     c ← getc;
     wrap_err (λ e, Errorf ("Could not kill running container " +:+ ct_ID c +:+ ", cannot remove - " +:+ error_text e)) Kill) ;?
  (c ← getc; wrap_err (λ e, Errorf ("cannot remove " +:+ ct_ID c +:+ ": " +:+ error_text e +:+ " ")) (do_ IsOSSupported)) ;?
  (_ ← ignore StopCollection; containerStop 3) ;?
  cleanup_dead.
Definition ContainerRm (forceRemove removeLink : bool) : prog (option error) :=
  GetContainer (
    inProgress ← SetRemovalInProgress;
    if (inProgress : bool) then c ← getc; mret (Some (Conflict ("removal of container " +:+ ct_ID c +:+ " is already in progress")))
    else
      e ← Get (λ s, if negb (sh_known s) then mret None else if removeLink then do_ rmLink else cleanupContainer forceRemove);
      _ ← ResetRemovalInProgress; mret e).
(** [autoRemove]. *)
Definition autoRemove : prog () :=
  ar ← locked (c ← getc; mret (AutoRemove c));
  if (ar : bool) then _ ← ContainerRm true false; mret () else mret ().

(** ** Starting *)

(** [strings.Contains]. *)
Fixpoint str_contains (s sub : string) : bool :=
  GoString.has_prefix s sub || match s with EmptyString => false | String _ s => str_contains s sub end.
(** [translateContainerdStartErr]: the error that is returned, and the exit code that is set. *)
Definition translateContainerdStartErr (cmd : string) (err : error) : error * option Z :=
  let errDesc := error_text err in
  let contains (s2 : string) := str_contains (GoString.to_lower errDesc) s2 in
  let r := (Errorf errDesc, None) in
  let r := if contains cmd && (contains "executable file not found" || contains "no such file or directory" || contains "system cannot find the file specified")
           then (InvalidParameter errDesc, Some 127%Z) else r in
  let r := if contains "permission denied" then (InvalidParameter errDesc, Some 126%Z) else r in
  if contains "not a directory"
  then (InvalidParameter (errDesc +:+ ": Are you trying to mount a directory onto a file (or vice-versa)? Check if the specified host path exists and is the expected type"), Some 127%Z)
  else r.

(** [Daemon.Mount] and [Daemon.Unmount]. *)
Definition Unmount : prog (option error) :=
  c ← getc;
  if negb (ct_RWLayer c) then mret (Some (Errorf ("RWLayer of container " +:+ ct_ID c +:+ " is unexpectedly nil"))) else do_ LayerUnmount.
Definition Mount : prog (option error) :=
  c ← getc;
  if negb (ct_RWLayer c) then mret (Some (Errorf ("RWLayer of container " +:+ ct_ID c +:+ " is unexpectedly nil")))
  else
    Call (LayerMount (ct_MountLabel c)) (λ r,
      match r_err r with
      | Some e => mret (Some e)
      | None =>
          match ct_BaseFS c with
          | Some old =>
              if negb (bool_decide (old = r_str r)) then
                _ ← Unmount;
                mret (Some (Errorf ("Error: driver is returning inconsistent paths for container " +:+ ct_ID c +:+ " ('" +:+ old +:+ "' then '" +:+ r_str r +:+ "')")))
              else _ ← upd (on_c (λ c, set_fs (ct_RWLayer c) (Some (r_str r)) c)); mret None
          | None => _ ← upd (on_c (λ c, set_fs (ct_RWLayer c) (Some (r_str r)) c)); mret None
          end
      end).
(** [conditionalMountOnStart] of [daemon_unix.go]: the label asks for a simplified mount. *)
Definition conditionalMountOnStart (simp : bool) : prog (option error) :=
  _ ← (if simp then upd (on_c (λ c, set_label (ct_MountLabel c +:+ ",simp=on") c)) else mret ());
  Mount.

Definition Cleanup : prog () :=
  _ ← ignore releaseNetwork;
  _ ← ignore UnmountIpcMount;
  e ← Unmount;
  _ ← (match e with
       | Some _ => e ← do_ GetLayerMountID; match e with None => ignore cleanupMountsByID | Some _ => mret () end
       | None => mret ()
       end);
  _ ← ignore UnmountSecrets;
  _ ← ignore RecursiveUnmount;
  _ ← ignore unregisterExecs;
  c ← getc;
  _ ← (match ct_BaseFS c with Some p => if bool_decide (p = EmptyString) then mret () else ignore UnmountVolumes | None => mret () end);
  _ ← ignore CancelAttachContext;
  ignore cd_Delete.

(** A failed call to the runtime. *)
Definition start_err (err : error) : prog (option error) :=
  c ← getc;
  let '(e, code) := translateContainerdStartErr (ct_Path c) err in
  _ ← (match code with Some code => set_state (SetExitCode code) | None => mret () end);
  mret (Some e).
(** [containerStart], when the layer is mounted. *)
Definition start_rest (checkpoint : string) (resetRestartManager : bool) : prog (option error) :=
  do_ initializeNetworking ;?
  wrap_err System (do_ createSpec) ;?
  _ ← (if resetRestartManager then ResetRestartManager true else mret ());
  _ ← do_ saveApparmorConfig;
  dir ← (if bool_decide (checkpoint = EmptyString) then mret (mkReply None 0 EmptyString) else Call (getCheckpointDir checkpoint) mret);
  mret (r_err dir) ;?
  do_ getLibcontainerdCreateOptions ;?
  (e ← do_ cd_Create; match e with Some e => start_err e | None => mret None end) ;?
  Call (cd_Start (r_str dir)) (λ r,
    match r_err r with
    | Some e => _ ← ignore cd_Delete; start_err e
    | None =>
        t ← now;
        _ ← set_state (SetRunning (r_int r) true t);
        _ ← upd (on_c (set_been true false));
        _ ← setStateCounter; _ ← ignore initHealthMonitor; _ ← CheckpointTo; _ ← LogContainerEvent "start";
        mret None
    end).
(** [containerStart], from the mount to the end. *)
Definition start_body (checkpoint : string) (resetRestartManager simp : bool) : prog (option error) :=
  c ← getc;
  let tmp := ct_MountLabel c in
  conditionalMountOnStart simp ;?
  _ ← upd (on_c (set_label tmp));
  start_rest checkpoint resetRestartManager.
(** The deferred function of [containerStart]. *)
Definition start_failed (err : error) : prog () :=
  _ ← set_state (SetError (Some err));
  _ ← set_state (λ s, if (ExitCodeValue s =? 0)%Z then SetExitCode 128 s else s);
  _ ← CheckpointTo;
  _ ← ignore ResetStreams;
  _ ← Cleanup;
  c ← getc;
  if AutoRemove c then _ ← unlock; _ ← ContainerRm true false; lock else mret ().
Definition errMarked : error := Conflict "container is marked for removal and cannot be started".
Definition containerStart (checkpoint checkpointDir : string) (resetRestartManager : bool) (simpString : string) : prog (option error) :=
  locked (
    c ← getc;
    if resetRestartManager && Running (ct_State c) then mret None
    else if RemovalInProgress (ct_State c) || Dead (ct_State c) then mret (Some errMarked)
    else if negb (bool_decide (checkpointDir = EmptyString)) then mret (Some (Forbidden "custom checkpointdir is not supported"))
    else
      e ← start_body checkpoint resetRestartManager (bool_decide (simpString = "yes"));
      _ ← (match e with Some err => start_failed err | None => mret () end);
      mret e).
(** [ContainerStart], without the deprecated host configuration. *)
Definition ContainerStart (experimental : bool) (checkpoint checkpointDir simpString : string) : prog (option error) :=
  if negb (bool_decide (checkpoint = EmptyString)) && negb experimental
  then mret (Some (InvalidParameter "checkpoint is only supported in experimental mode"))
  else GetContainer (
    locked (
      c ← getc;
      if Paused (ct_State c) then mret (Some (Conflict "cannot start a paused container, try unpause instead"))
      else if Running (ct_State c) then mret (Some (NotModified "Container is already started"))
      else if RemovalInProgress (ct_State c) || Dead (ct_State c) then mret (Some errMarked)
      else mret None) ;?
    wrap_err (λ e, InvalidParameter (error_text e)) (do_ verifyContainerSettings) ;?
    containerStart checkpoint checkpointDir true simpString).

(** [containerRestart] and [ContainerRestart]. *)
Definition containerRestart (seconds : Z) : prog (option error) :=
  mounted ← Mount;
  e ← (running ← IsRunning;
       (if (running : bool) then
          c ← getc;
          let autoRemove := AutoRemove c in
          _ ← upd (on_c (set_auto false));
          err ← containerStop seconds;
          _ ← upd (on_c (set_auto autoRemove));
          _ ← locked CheckpointTo;
          mret err
        else mret None) ;?
       containerStart EmptyString EmptyString true EmptyString ;?
       (_ ← LogContainerEvent "restart"; mret None));
  _ ← (match mounted with None => _ ← Unmount; mret () | Some _ => mret () end);
  mret e.
Definition ContainerRestart (seconds : option Z) : prog (option error) :=
  GetContainer (
    c ← getc;
    wrap_err (λ e, Errorf ("Cannot restart container " +:+ ct_ID c +:+ ": " +:+ error_text e)) (containerRestart (default (StopTimeout c) seconds))).

(** ** Events of the runtime *)

Inductive event :=
  | EventOOM
  | EventExit (pid exitCode : Z) (exitedAt : option Z) (oom : bool) (err : option error)
  | EventStart (pid : Z)
  | EventPaused
  | EventResumed.

Definition since (t : option Z) (now : Z) : Z := match t with Some t => (now - t)%Z | None => (2 ^ 63 - 1)%Z end.
(** [ProcessEvent], the exit of the process of the container: what it does with the lock,
    and whether the container is to be removed. *)
Definition exit_body (exitCode : Z) (e : ExitStatus) (err : option error) : prog (option error * bool) :=
  _ ← ignore cd_DeleteTask; _ ← ignore StreamWait; _ ← ignore ResetStreams;
  r ← RestartManager;
  s ← Get mret; t ← now;
  '(restart, rerr) ← rm_ShouldRestart r exitCode (sh_shutdown s || HasBeenManuallyStopped (sh_c s)) (since (StartedAt (ct_State (sh_c s))) t);
  let again := bool_decide (rerr = None) && restart in
  _ ← (if again then
         _ ← upd (on_c (λ c, set_restarts (RestartCount c + 1) (ct_restartManager c) c)); t ← now; set_state (SetRestarting e t)
       else
         _ ← (match err with Some _ => set_state (SetError err) | None => mret () end); t ← now; set_state (SetStopped e t));
  _ ← ignore stopHealthchecks; _ ← LogContainerEvent "die"; _ ← Cleanup;
  _ ← (if again then Go (RestartWaiter r e) (mret ()) else mret ());
  _ ← setStateCounter;
  e ← CheckpointTo; mret (e, negb again).
Definition ProcessEvent (ev : event) : prog (option error) :=
  if_known (λ id, Errorf ("no such container: " +:+ id)) (
    match ev with
    | EventOOM => locked (_ ← ignore updateHealthMonitor; CheckpointTo ;? (_ ← LogContainerEvent "oom"; mret None))
    | EventExit pid exitCode exitedAt oom err =>
        c ← getc;
        if (pid =? Pid (ct_State c))%Z then
          '(e, stopped) ← locked (exit_body exitCode (mkExit exitCode oom exitedAt) err);
          _ ← (if (stopped : bool) then autoRemove else mret ());
          mret e
        else _ ← ignore (ExecExit pid exitCode); mret None
    | EventStart pid =>
        locked (
          c ← getc;
          if Running (ct_State c) then mret None
          else
            t ← now; _ ← set_state (SetRunning pid false t); _ ← upd (on_c (set_been true false)); _ ← setStateCounter; _ ← ignore initHealthMonitor;
            CheckpointTo ;? (_ ← LogContainerEvent "start"; mret None))
    | EventPaused =>
        locked (
          c ← getc;
          if Paused (ct_State c) then mret None
          else
            _ ← set_state (set_paused true); _ ← setStateCounter; _ ← ignore updateHealthMonitor;
            CheckpointTo ;? (_ ← LogContainerEvent "pause"; mret None))
    | EventResumed =>
        locked (
          c ← getc;
          if negb (Paused (ct_State c)) then mret None
          else
            _ ← set_state (set_paused false); _ ← setStateCounter; _ ← ignore updateHealthMonitor;
            CheckpointTo ;? (_ ← LogContainerEvent "unpause"; mret None))
    end).
(** The goroutine of [ProcessEvent]. *)
Definition restart_waiter (r : nat) (e : ExitStatus) : prog (option error) :=
  err ← AwaitRestart r mret;
  err ← (match err with
         | Some err => mret (Some err)
         | None => _ ← ignore waitForStartupDone; containerStart EmptyString EmptyString false EmptyString
         end);
  match err with
  | Some err => _ ← locked (t ← now; set_state (SetStopped e t)); _ ← autoRemove; mret (Some err)
  | None => mret None
  end.

(** ** All programs of the container *)

Inductive request :=
  | RStart (experimental : bool) (checkpoint checkpointDir simpString : string) | RStop (timeout : option Z) | RKill (sig : Z)
  | RPause | RUnpause | RRestart (seconds : option Z) | RRm (forceRemove removeLink : bool) | RWait (ctx : bool) (condition : WaitCondition).
Definition handle (r : request) : prog (option error) :=
  match r with
  | RStart experimental checkpoint checkpointDir simpString => ContainerStart experimental checkpoint checkpointDir simpString
  | RStop timeout => ContainerStop timeout
  | RKill sig => ContainerKill sig
  | RPause => ContainerPause
  | RUnpause => ContainerUnpause
  | RRestart seconds => ContainerRestart seconds
  | RRm forceRemove removeLink => ContainerRm forceRemove removeLink
  | RWait ctx condition => GetContainer ('(_, e) ← Wait ctx condition; mret e)
  end.
Definition body (g : goroutine) : prog (option error) := match g with RestartWaiter r e => restart_waiter r e end.

(** The container, who holds its lock, the events that wait ([queue] of [libcontainerd]
    hands them over one after the other, in order), the programs, of which the first is
    that of the events, and the calls that were made. *)
Record system := mkSystem {
  sy : shared; sy_lock : option nat; sy_queue : list event; sy_ths : list (prog (option error)); sy_calls : list (call * reply) }.
Definition closed (st : State) (stop : option nat) (remove : nat) : bool :=
  match stop with Some n => bool_decide (n < waitStop st) | None => false end || bool_decide (remove < waitRemove st).
(** The program [t] does one step, with the reply [r] of its call; the reply also decides
    which case a select takes. *)
Definition thread_step (t : nat) (r : reply) (s : system) : option system :=
  let put (p : prog (option error)) := <[t := p]> (sy_ths s) in
  match sy_ths s !! t with
  | None | Some (Ret _) => None
  | Some (Lock k) =>
      match sy_lock s with None => Some (mkSystem (sy s) (Some t) (sy_queue s) (put k) (sy_calls s)) | Some _ => None end
  | Some (Unlock k) =>
      if bool_decide (sy_lock s = Some t) then Some (mkSystem (sy s) None (sy_queue s) (put k) (sy_calls s)) else None
  | Some (Get k) => Some (mkSystem (sy s) (sy_lock s) (sy_queue s) (put (k (sy s))) (sy_calls s))
  | Some (Upd f k) => Some (mkSystem (f (sy s)) (sy_lock s) (sy_queue s) (put k) (sy_calls s))
  | Some (Call c k) => Some (mkSystem (sy s) (sy_lock s) (sy_queue s) (put (k r)) (sy_calls s ++ [(c, r)]))
  | Some (Await ctx stop remove k) =>
      match r_err r with
      | Some _ => if ctx then Some (mkSystem (sy s) (sy_lock s) (sy_queue s) (put (k true)) (sy_calls s)) else None
      | None =>
          if closed (ct_State (sh_c (sy s))) stop remove
          then Some (mkSystem (sy s) (sy_lock s) (sy_queue s) (put (k false)) (sy_calls s)) else None
      end
  | Some (AwaitRestart rm k) =>
      match r_err r with
      | Some _ =>
          if bool_decide (rm_canceled <$> sh_rms (sy s) !! rm = Some true)
          then Some (mkSystem (sy s) (sy_lock s) (sy_queue s) (put (k (Some ErrRestartCanceled))) (sy_calls s)) else None
      | None => Some (mkSystem (on_rms (alter rm_fired rm) (sy s)) (sy_lock s) (sy_queue s) (put (k None)) (sy_calls s))
      end
  | Some (Go g k) => Some (mkSystem (sy s) (sy_lock s) (sy_queue s) (put k ++ [body g]) (sy_calls s))
  end.
(** What can happen: a request arrives, the runtime has an event, the next event is handed
    over, a program runs. *)
Inductive move := Arrive (r : request) | Emit (e : event) | Deliver | Run (t : nat) (r : reply).
Definition move_step (m : move) (s : system) : option system :=
  match m with
  | Arrive r => Some (mkSystem (sy s) (sy_lock s) (sy_queue s) (sy_ths s ++ [handle r]) (sy_calls s))
  | Emit e => Some (mkSystem (sy s) (sy_lock s) (sy_queue s ++ [e]) (sy_ths s) (sy_calls s))
  | Deliver =>
      match sy_queue s, sy_ths s with
      | e :: q, Ret _ :: ths => Some (mkSystem (sy s) (sy_lock s) q (ProcessEvent e :: ths) (sy_calls s))
      | _, _ => None
      end
  | Run t r => thread_step t r s
  end.
Definition run (ms : list move) (s : system) : system := foldl (λ s m, default s (move_step m s)) s ms.
(** A container that no program works on. *)
Definition at_rest (sh : shared) : system := mkSystem sh None [] [Ret None] [].
