(* ===== verification/LifeLogic.v ===== *)
(** * Reasoning about the programs of a container

    What holds of a container whenever its lock is free, and of all programs on it: a
    program is looked at alone, with any state of the container where it takes the lock,
    and nothing is known of the container where it does not hold it.

    The changes the programs of a container make: Every program of [LifeCycle] changes what the lock of the container protects by a few
    kinds of steps only, each under the conditions the code checks. *)

From S2P Require Import Prelude ContainerState LifeCycle.

(** ** What the lock protects *)

(** The flags and the process, the restarts, and which restart managers are cancelled.  The
    error message, the mount label, the layer and [AutoRemove] are also written without
    the lock. *)
Record core := mkCore { k_st : State; k_count : Z; k_rm : option nat; k_canceled : list bool }.
Definition core_of (s : shared) : core :=
  mkCore (SetError None (ct_State (sh_c s))) (RestartCount (sh_c s)) (ct_restartManager (sh_c s)) (rm_canceled <$> sh_rms s).

(** ** Programs that keep an invariant *)

Section Logic.
  Context (I : core → Prop) (reply_ok : call → reply → Prop) (E : core → core → Prop) (request_ok : request → Prop) (event_ok : event → Prop).

(** [safe T h p Q]: with [h] the protected part of the container if the program holds the
    lock, it only gives up the lock where [I] holds, changes nothing that is protected
    without the lock, does not wait while it holds it, and ends in [Q]; all this as long as
    its changes of the protected part are in [T]. *)
Fixpoint safe (T : core → core → Prop) {A} (h : option core) (p : prog A) (Q : A → option core → Prop) : Prop :=
  match p with
  | Ret a => Q a h
  | Lock k => h = None ∧ ∀ x, I x → safe T (Some x) k Q
  | Unlock k => match h with Some x => I x ∧ safe T None k Q | None => False end
  | Get k => ∀ s, match h with Some x => core_of s = x | None => True end → safe T h (k s) Q
  | Upd f k =>
      match h with
      | Some x => ∀ s, core_of s = x → T x (core_of (f s)) → safe T (Some (core_of (f s))) k Q
      | None => (∀ s, core_of (f s) = core_of s) ∧ safe T None k Q
      end
  | Call c k => ∀ r, reply_ok c r → safe T h (k r) Q
  | Await _ _ _ k => h = None ∧ ∀ b, safe T None (k b) Q
  | AwaitRestart _ k => h = None ∧ ∀ e, safe T None (k e) Q
  | Go _ k => safe T h k Q
  end.
Definition done_ {A} (a : A) (h : option core) : Prop := h = None.

Lemma prog_safe_bind {A B} T (p : prog A) (f : A → prog B) h Q :
  safe T h p (λ a h, safe T h (f a) Q) → safe T h (p ≫= f) Q.
Proof.
  revert h. induction p as [a|k IH|k IH|k IH|g k IH|c k IH|ctx stop remove k IH|rm k IH|g k IH]; intros h Hp; cbn in *.
  - done.
  - destruct Hp as [? Hp]. eauto.
  - destruct h; [|done]. destruct Hp. eauto.
  - eauto.
  - destruct h; [eauto|]. destruct Hp. eauto.
  - eauto.
  - destruct Hp as [? Hp]. eauto.
  - destruct Hp as [? Hp]. eauto.
  - eauto.
Qed.
Lemma safe_mono {A} T (p : prog A) h (Q Q' : A → option core → Prop) : (∀ a h, Q a h → Q' a h) → safe T h p Q → safe T h p Q'.
Proof.
  intros HQ. revert h. induction p as [a|k IH|k IH|k IH|g k IH|c k IH|ctx stop remove k IH|rm k IH|g k IH]; intros h Hp; cbn in *.
  - eauto.
  - destruct Hp as [? Hp]. eauto.
  - destruct h; [|done]. destruct Hp. eauto.
  - eauto.
  - destruct h; [eauto|]. destruct Hp. eauto.
  - eauto.
  - destruct Hp as [? Hp]. eauto.
  - destruct Hp as [? Hp]. eauto.
  - eauto.
Qed.

Lemma safe_assume {A} (T T' : core → core → Prop) (p : prog A) h Q : (∀ x y, T' x y → T x y) → safe T h p Q → safe T' h p Q.
Proof.
  intros HT. revert h. induction p as [a|k IH|k IH|k IH|g k IH|c k IH|ctx stop remove k IH|rm k IH|g k IH]; intros h Hp; cbn in *.
  - done.
  - destruct Hp as [? Hp]. eauto.
  - destruct h; [|done]. destruct Hp. eauto.
  - eauto.
  - destruct h; [eauto|]. destruct Hp. eauto.
  - eauto.
  - destruct Hp as [? Hp]. eauto.
  - destruct Hp as [? Hp]. eauto.
  - eauto.
Qed.

(** ** The system *)

(** Only the changes of the program of the events are assumed to be in [E]. *)
Definition always_in (x y : core) : Prop := True.
Definition assumed (t : nat) : core → core → Prop := match t with 0 => E | _ => always_in end.

Definition holds (t : nat) (s : system) : option core := if bool_decide (sy_lock s = Some t) then Some (core_of (sy s)) else None.
Record sys_ok (s : system) : Prop := mkSysOk {
  so_free : sy_lock s = None → I (core_of (sy s));
  so_owner : ∀ t, sy_lock s = Some t → t < length (sy_ths s);
  so_threads : ∀ t p, sy_ths s !! t = Some p → safe (assumed t) (holds t s) p done_;
  so_queue : Forall event_ok (sy_queue s) }.

Lemma core_fired rm s : core_of (on_rms (alter rm_fired rm) s) = core_of s.
Proof.
  unfold core_of. cbn. f_equal. apply list_eq. intros i. rewrite !list_lookup_fmap.
  destruct (decide (rm = i)) as [->|]; [|by rewrite list_lookup_alter_ne]. rewrite list_lookup_alter_eq.
  by destruct (sh_rms s !! i).
Qed.

(** What is asked of the programs. *)
Record progs_ok : Prop := mkProgsOk {
  ok_body : ∀ g, safe always_in None (body g) done_;
  ok_handle : ∀ r, request_ok r → safe always_in None (handle r) done_;
  ok_event : ∀ e, event_ok e → safe E None (ProcessEvent e) done_ }.

(** A step that leaves the lock, and changes what it protects only if the program has it. *)
Lemma step_same t p k s sh : sys_ok s → sy_ths s !! t = Some p → (sy_lock s ≠ Some t → core_of sh = core_of (sy s)) →
  safe (assumed t) (if bool_decide (sy_lock s = Some t) then Some (core_of sh) else None) k done_ →
  ∀ calls, sys_ok (mkSystem sh (sy_lock s) (sy_queue s) (<[t := k]> (sy_ths s)) calls).
Proof.
  intros [Hf Ho Ht Hq] Hp Hsame Hk calls. constructor; cbn; [| | |done].
  - intros Hl. rewrite Hsame by (rewrite Hl; done). auto.
  - intros t' Hl. rewrite length_insert. auto.
  - intros t' p' Hl. unfold holds. cbn. destruct (decide (t' = t)) as [->|Hne].
    + rewrite list_lookup_insert_eq in Hl by by eapply lookup_lt_Some. by simplify_eq.
    + rewrite list_lookup_insert_ne in Hl by done. specialize (Ht _ _ Hl). unfold holds in Ht. clear Hk. revert Ht.
      case_bool_decide as Hb; [|done]. by rewrite Hsame by (rewrite Hb; congruence).
Qed.
Lemma step_lock t k s : sys_ok s → sy_lock s = None → t < length (sy_ths s) → safe (assumed t) (Some (core_of (sy s))) k done_ →
  sys_ok (mkSystem (sy s) (Some t) (sy_queue s) (<[t := k]> (sy_ths s)) (sy_calls s)).
Proof.
  intros [Hf Ho Ht Hq] Hfree Hlt Hk. constructor; cbn; [done|intros ? [= <-]; by rewrite length_insert| |done].
  intros t' p' Hl. unfold holds. cbn. destruct (decide (t' = t)) as [->|Hne].
  - rewrite list_lookup_insert_eq in Hl by done. simplify_eq. by rewrite bool_decide_true.
  - rewrite list_lookup_insert_ne in Hl by done. specialize (Ht _ _ Hl). unfold holds in Ht. rewrite Hfree in Ht.
    rewrite bool_decide_false in Ht by done. by rewrite bool_decide_false by congruence.
Qed.
Lemma step_unlock t k s : sys_ok s → sy_lock s = Some t → t < length (sy_ths s) → I (core_of (sy s)) → safe (assumed t) None k done_ →
  sys_ok (mkSystem (sy s) None (sy_queue s) (<[t := k]> (sy_ths s)) (sy_calls s)).
Proof.
  intros [Hf Ho Ht Hq] Hl Hlt HI Hk. constructor; cbn; [done|done| |done].
  intros t' p' Hl'. unfold holds. cbn. destruct (decide (t' = t)) as [->|Hne].
  - rewrite list_lookup_insert_eq in Hl' by done. by simplify_eq.
  - rewrite list_lookup_insert_ne in Hl' by done. specialize (Ht _ _ Hl'). unfold holds in Ht.
    by rewrite bool_decide_false in Ht by congruence.
Qed.
Lemma add_thread s p : sys_ok s → safe always_in None p done_ → sys_ok (mkSystem (sy s) (sy_lock s) (sy_queue s) (sy_ths s ++ [p]) (sy_calls s)).
Proof.
  intros [Hf Ho Ht Hq] Hp. constructor; cbn; [done|intros t Hl; rewrite length_app; specialize (Ho t Hl); lia| |done].
  intros t p' [Hl|[Hge Hl]]%lookup_app_Some; [by apply Ht in Hl|].
  unfold holds. cbn. rewrite bool_decide_false; [|intros Hl'; specialize (Ho _ Hl'); lia].
  apply list_lookup_singleton_Some in Hl as [_ <-]. by apply (safe_assume always_in).
Qed.

Definition calls_ok (s : system) : Prop := Forall (λ cr, reply_ok cr.1 cr.2) (sy_calls s).

Lemma thread_step_ok t r s s' : progs_ok → sys_ok s → thread_step t r s = Some s' → calls_ok s' →
  assumed t (core_of (sy s)) (core_of (sy s')) → sys_ok s'.
Proof.
  intros Hprogs Hs. unfold thread_step. destruct (sy_ths s !! t) as [p|] eqn:Hp; [|done].
  pose proof (so_threads _ Hs _ _ Hp) as Hsafe. pose proof (lookup_lt_Some _ _ _ Hp) as Hlt. unfold holds in Hsafe.
  destruct p as [a|k|k|k|f k|c k|ctx stop remove k|rm k|g k]; cbn in Hsafe; intros Hstep Hcalls Hin.
  - done.
  - destruct (sy_lock s) eqn:Hl; [done|]. simplify_eq. destruct Hsafe as [_ Hk]. apply step_lock; [done..|]. apply Hk. by apply so_free.
  - case_bool_decide as Hl; [|done]. simplify_eq. destruct Hsafe. by apply step_unlock.
  - simplify_eq. eapply step_same; [done|done|done|]. apply Hsafe. by case_bool_decide.
  - simplify_eq. case_bool_decide as Hl.
    + eapply step_same; [done|done|by intros|]. rewrite bool_decide_true by done. by apply Hsafe.
    + destruct Hsafe as [Hsame Hk]. eapply step_same; [done|done|by intros|]. by rewrite bool_decide_false.
  - simplify_eq. eapply step_same; [done|done|done|]. apply Hsafe.
    unfold calls_ok in Hcalls. cbn in Hcalls. apply Forall_app in Hcalls as [_ Hc]. by apply Forall_cons in Hc as [Hc _].
  - destruct Hsafe as [Hn Hk]. destruct (decide (sy_lock s = Some t)) as [Hl|Hl]; [by rewrite bool_decide_true in Hn|].
    assert (∀ b, sys_ok (mkSystem (sy s) (sy_lock s) (sy_queue s) (<[t := k b]> (sy_ths s)) (sy_calls s))) as Hgo
      by (intros b; eapply step_same; [done|done|done|]; by rewrite bool_decide_false).
    repeat case_match; simplify_eq; apply Hgo.
  - destruct Hsafe as [Hn Hk]. destruct (decide (sy_lock s = Some t)) as [Hl|Hl]; [by rewrite bool_decide_true in Hn|].
    repeat case_match; simplify_eq.
    + eapply step_same; [done|done|done|]. by rewrite bool_decide_false.
    + eapply step_same; [done|done|intros _; apply core_fired|]. by rewrite bool_decide_false.
  - simplify_eq. apply (add_thread (mkSystem (sy s) (sy_lock s) (sy_queue s) (<[t := k]> (sy_ths s)) (sy_calls s)) (body g)).
    + by eapply step_same.
    + by apply ok_body.
Qed.

Definition move_in (m : move) (s s' : system) : Prop := match m with Run 0 _ => E (core_of (sy s)) (core_of (sy s')) | _ => True end.
Definition move_ok (m : move) : Prop := match m with Arrive r => request_ok r | Emit e => event_ok e | _ => True end.
Lemma move_step_ok m s s' : progs_ok → sys_ok s → move_ok m → move_step m s = Some s' → calls_ok s' → move_in m s s' → sys_ok s'.
Proof.
  intros Hprogs Hs Hm. destruct m as [r|e| |t r]; cbn; intros Hstep Hcalls Hin.
  - simplify_eq. apply add_thread; [done|]. by apply ok_handle.
  - simplify_eq. destruct Hs as [Hf Ho Ht Hq]. constructor; cbn; [done|done|done|]. apply Forall_app_2; [done|by repeat constructor].
  - destruct (sy_queue s) as [|e q] eqn:Hq; [done|]. destruct (sy_ths s) as [|[a| | | | | | | |] ths] eqn:Hths; try done. simplify_eq.
    destruct Hs as [Hf Ho Ht HQ]. rewrite Hq in HQ. apply Forall_cons in HQ as [He HQ]. rewrite Hths in *.
    constructor; cbn; [done|done| |done]. intros [|t] p Hl; unfold holds; cbn.
    + cbn in Hl. injection Hl as <-. specialize (Ht 0 (Ret a) eq_refl). unfold holds in Ht.
      case_bool_decide; [done|]. by apply ok_event.
    + by apply (Ht (S t) p).
  - eapply thread_step_ok; [done..|]. by destruct t.
Qed.

Lemma calls_grow m s s' : move_step m s = Some s' → calls_ok s' → calls_ok s.
Proof.
  unfold calls_ok. destruct m as [r|e| |t r]; cbn; intros Hstep; [by simplify_eq|by simplify_eq| |].
  - by repeat case_match; simplify_eq.
  - unfold thread_step in Hstep. repeat case_match; simplify_eq/=; try done. by intros [? _]%Forall_app.
Qed.
(** Every system that is reached keeps the invariant. *)
Definition run_in (ms : list move) (s : system) : Prop :=
  ∀ ms1 m ms2, ms = ms1 ++ m :: ms2 → move_in m (run ms1 s) (run (ms1 ++ [m]) s).
Lemma run_ok ms s : progs_ok → sys_ok s → Forall move_ok ms → calls_ok (run ms s) → run_in ms s → sys_ok (run ms s).
Proof.
  intros Hprogs Hs. induction ms as [|m ms IH] using rev_ind; intros Hms; [done|].
  apply Forall_app in Hms as [Hms Hm]. rewrite Forall_singleton in Hm. unfold run in *. rewrite foldl_app. cbn.
  intros Hcalls Hin. assert (run_in ms s) as Hin'.
  { intros ms1 m' ms2 ->. apply (Hin ms1 m' (ms2 ++ [m])). by rewrite <-app_assoc. }
  specialize (Hin ms m [] eq_refl). unfold run in Hin. rewrite foldl_app in Hin. cbn in Hin.
  destruct (move_step m (foldl _ s ms)) as [s'|] eqn:Hstep; cbn in *; [|by apply IH].
  eapply move_step_ok; [done| |done|done|done|done]. apply IH; [done| |done]. by eapply calls_grow.
Qed.
(** The program that has the lock can go on, whatever the reply. *)
Lemma owner_runs s t : sys_ok s → sy_lock s = Some t → ∀ r, is_Some (thread_step t r s).
Proof.
  intros [Hf Ho Ht _] Hl r. destruct (lookup_lt_is_Some_2 (sy_ths s) t) as [p Hp]; [by apply Ho|].
  specialize (Ht _ _ Hp). unfold holds in Ht. rewrite bool_decide_true in Ht by done. unfold thread_step. rewrite Hp.
  destruct p; cbn in Ht; try by eauto; try by destruct Ht. by rewrite bool_decide_true.
Qed.
Lemma at_rest_ok sh : I (core_of sh) → sys_ok (at_rest sh).
Proof. intros HI. constructor; cbn; [done|done| |done]. intros [|t] p Hl; [|done]. by injection Hl as <-. Qed.
End Logic.

(** ** The changes the programs of a container make *)

(** ** The steps *)

(** A start gives the number of a process, and a number is not 0. *)
Definition reply_ok (c : call) (r : reply) : Prop :=
  match c with cd_Start _ => r_err r = None → r_int r ≠ 0%Z | _ => True end.

(** [reset] says that starts of users are among the programs, [paused] that the runtime
    reports containers it has paused. *)
Inductive core_step (reset paused : Prop) : core → core → Prop :=
  | cs_removal b st n rm l : core_step reset paused (mkCore st n rm l) (mkCore (set_removal b st) n rm l)
  | cs_dead st n rm l : core_step reset paused (mkCore st n rm l) (mkCore (SetDead st) n rm l)
  | cs_fire st n rm l : core_step reset paused (mkCore st n rm l) (mkCore (fire_removed st) n rm l)
  | cs_code c st n rm l : core_step reset paused (mkCore st n rm l) (mkCore (SetExitCode c st) n rm l)
  | cs_pause st n rm l : Running st = true ∧ Restarting st = false ∨ paused →
      core_step reset paused (mkCore st n rm l) (mkCore (set_paused true st) n rm l)
  | cs_resume st n rm l : core_step reset paused (mkCore st n rm l) (mkCore (set_paused false st) n rm l)
  | cs_running pid initial t st n rm l : pid ≠ 0%Z → core_step reset paused (mkCore st n rm l) (mkCore (SetRunning pid initial t st) n rm l)
  | cs_stopped e t st n rm l : core_step reset paused (mkCore st n rm l) (mkCore (SetStopped e t st) n rm l)
  | cs_restarting e t st n rm l : core_step reset paused (mkCore st n rm l) (mkCore (SetRestarting e t st) n rm l)
  | cs_count st n r l : l !! r = Some false → core_step reset paused (mkCore st n (Some r) l) (mkCore st (n + 1) (Some r) l)
  | cs_manager st n rm l : core_step reset paused (mkCore st n rm l) (mkCore st n rm (l ++ [false]))
  | cs_use st n r l : core_step reset paused (mkCore st n None l) (mkCore st n (Some r) l)
  | cs_cancel st n rm l r : core_step reset paused (mkCore st n rm l) (mkCore st n rm (alter (λ _, true) r l))
  | cs_reset st n rm l : reset → core_step reset paused (mkCore st n rm l) (mkCore st 0 None l).
Create HintDb life.
#[export] Hint Constructors core_step : life.

(** ** Programs that touch nothing protected *)

Fixpoint quiet {A} (p : prog A) : Prop :=
  match p with
  | Ret _ => True
  | Get k => ∀ s, quiet (k s)
  | Upd f k => (∀ s, core_of (f s) = core_of s) ∧ quiet k
  | Call c k => ∀ r, quiet (k r)
  | Go _ k => quiet k
  | _ => False
  end.
Lemma prog_quiet_bind {A B} (p : prog A) (f : A → prog B) : quiet p → (∀ a, quiet (f a)) → quiet (p ≫= f).
Proof.
  intros Hp Hf. induction p as [a|k IH|k IH|k IH|g k IH|c k IH|ctx stop remove k IH|rm k IH|g k IH]; cbn in *; try done.
  - intros s. by apply IH.
  - destruct Hp. auto.
  - intros r. by apply IH.
  - auto.
Qed.
Lemma quiet_or_err m k : quiet m → quiet k → quiet (or_err m k).
Proof. intros Hm Hk. apply prog_quiet_bind; [done|]. by intros [e|]. Qed.
Lemma quiet_wrap_err f m : quiet m → quiet (wrap_err f m).
Proof. intros Hm. apply prog_quiet_bind; [done|]. by intros [e|]. Qed.

Lemma quiet_state_err e : quiet (set_state (SetError e)).
Proof. by split. Qed.

Lemma quiet_getc : quiet getc. Proof. done. Qed.
Lemma quiet_do c : quiet (do_ c). Proof. done. Qed.
Lemma quiet_ignore c : quiet (ignore c). Proof. done. Qed.
Lemma quiet_now : quiet now. Proof. done. Qed.
Lemma quiet_log m : quiet (LogContainerEvent m). Proof. done. Qed.
Lemma prog_quiet_ret {A} (a : A) : quiet (mret a). Proof. done. Qed.
Lemma quiet_counter : quiet setStateCounter. Proof. done. Qed.
Lemma quiet_checkpoint : quiet CheckpointTo.
Proof. intros r. cbn. by destruct (r_err r). Qed.
Lemma quiet_unmount : quiet Unmount.
Proof. intros s. cbn. by destruct (ct_RWLayer (sh_c s)). Qed.
Lemma quiet_mount : quiet Mount.
Proof.
  intros s. cbn. destruct (ct_RWLayer (sh_c s)); [|done]. intros r. cbn.
  destruct (r_err r); [done|]. destruct (ct_BaseFS (sh_c s)) as [old|]; [|done]. destruct (negb _); [|done].
  intros s'. cbn. by destruct (ct_RWLayer (sh_c s')).
Qed.
Lemma quiet_mount_start simp : quiet (conditionalMountOnStart simp).
Proof. apply prog_quiet_bind; [by destruct simp|]. intros _. apply quiet_mount. Qed.
Lemma quiet_cleanup : quiet Cleanup.
Proof.
  unfold Cleanup. do 2 (apply prog_quiet_bind; [done|intros _]). apply prog_quiet_bind; [apply quiet_unmount|]. intros e.
  apply prog_quiet_bind; [|intros _].
  { destruct e; [|done]. apply prog_quiet_bind; [done|]. by intros [?|]. }
  do 3 (apply prog_quiet_bind; [done|intros _]). apply prog_quiet_bind; [done|]. intros c.
  apply prog_quiet_bind; [|intros _; apply prog_quiet_bind; done]. destruct (ct_BaseFS c) as [p|]; [|done]. by case_bool_decide.
Qed.
#[export] Hint Resolve quiet_getc quiet_do quiet_ignore quiet_now quiet_log prog_quiet_ret quiet_counter quiet_checkpoint quiet_unmount quiet_mount
  quiet_mount_start quiet_cleanup quiet_state_err prog_quiet_bind quiet_or_err quiet_wrap_err : life.

Section Programs.
  Context (reset paused : Prop) (I : core → Prop) (T : core → core → Prop).
  Context (Hclosed : ∀ x y, I x → core_step reset paused x y → I y).

Lemma safe_quiet {A} (p : prog A) h Q : quiet p → (∀ a, Q a h) → safe I reply_ok T h p Q.
Proof.
  intros Hp HQ. induction p as [a|k IH|k IH|k IH|g k IH|c k IH|ctx stop remove k IH|rm k IH|g k IH]; cbn in *; try done.
  - intros s _. by apply IH.
  - destruct Hp as [Hs Hp]. destruct h as [x|]; [|by auto]. intros s <- _. rewrite Hs. by apply IH.
  - intros r _. by apply IH.
  - by apply IH.
Qed.

(** [keeps p]: with the lock, [p] goes from [I] to [I]; [free p]: the same without it. *)
Definition keeps {A} (p : prog A) : Prop := ∀ x, I x → safe I reply_ok T (Some x) p (λ _ h, ∃ y, h = Some y ∧ I y).
Definition free {A} (p : prog A) : Prop := safe I reply_ok T None p (λ _ h, h = None).

Lemma keeps_quiet {A} (p : prog A) : quiet p → keeps p.
Proof. intros Hp x Hx. apply safe_quiet; eauto. Qed.
Lemma free_quiet {A} (p : prog A) : quiet p → free p.
Proof. intros Hp. by apply safe_quiet. Qed.
Lemma prog_keeps_bind {A B} (p : prog A) (f : A → prog B) : keeps p → (∀ a, keeps (f a)) → keeps (p ≫= f).
Proof.
  intros Hp Hf x Hx. apply prog_safe_bind. eapply safe_mono; [|by apply Hp]. cbn. intros a h (y&->&Hy). by apply Hf.
Qed.
Lemma free_bind {A B} (p : prog A) (f : A → prog B) : free p → (∀ a, free (f a)) → free (p ≫= f).
Proof. intros Hp Hf. apply prog_safe_bind. eapply safe_mono; [|by apply Hp]. cbn. intros a h ->. apply Hf. Qed.
Lemma free_locked {A} (p : prog A) : keeps p → free (locked p).
Proof.
  intros Hp. unfold free, locked. apply prog_safe_bind. cbn. split; [done|]. intros x Hx. apply prog_safe_bind.
  eapply safe_mono; [|by apply Hp]. cbn. intros a h (y&->&Hy). cbn. done.
Qed.
Lemma free_get {A} (f : shared → prog A) : (∀ s, free (f s)) → free (Get f).
Proof. intros Hf s _. apply Hf. Qed.
Lemma free_if_known missing (p : prog (option error)) : free p → free (if_known missing p).
Proof. intros Hp. apply free_get. intros s. by destruct (sh_known s). Qed.
Lemma free_GetContainer (p : prog (option error)) : free p → free (GetContainer p).
Proof. apply free_if_known. Qed.
Lemma free_or_err m k : free m → free k → free (or_err m k).
Proof. intros Hm Hk. apply free_bind; [done|]. by intros [e|]. Qed.
Lemma keeps_or_err m k : keeps m → keeps k → keeps (or_err m k).
Proof. intros Hm Hk. apply prog_keeps_bind; [done|]. intros [e|]; [by apply keeps_quiet|done]. Qed.
Lemma free_wrap_err f m : free m → free (wrap_err f m).
Proof. intros Hm. apply free_bind; [done|]. by intros [e|]. Qed.
Lemma free_await ctx stop remove : free (Await ctx stop remove mret).
Proof. by split. Qed.
(** A change of the state by one step. *)
Lemma keeps_upd f : (∀ s, core_step reset paused (core_of s) (core_of (f s))) → keeps (upd f).
Proof. intros Hf x Hx s <- _. cbn. eexists. split; [done|]. by eapply Hclosed. Qed.

(** ** Stepping through a program *)

Lemma keeps_state f : (∀ s, core_step reset paused (core_of s) (core_of (on_c (set_st f) s))) → keeps (set_state f).
Proof. apply keeps_upd. Qed.
End Programs.
Ltac life_quiet := solve [eauto with life].
Ltac life :=
  repeat lazymatch goal with
  | |- ∀ _, _ => intro
  | |- keeps _ _ (match ?x with _ => _ end) => destruct x
  | |- free _ _ (match ?x with _ => _ end) => destruct x
  | |- keeps _ _ (GetContainer _) => fail
  | |- free _ _ (GetContainer _) => apply free_GetContainer
  | |- free _ _ (locked _) => apply free_locked
  | |- free _ _ (or_err _ _) => first [apply free_quiet; life_quiet | apply free_or_err]
  | |- keeps _ _ (or_err _ _) => first [apply keeps_quiet; life_quiet | apply keeps_or_err]
  | |- free _ _ (wrap_err _ _) => first [apply free_quiet; life_quiet | apply free_wrap_err]
  | |- keeps _ _ (_ ≫= _) => first [apply keeps_quiet; life_quiet | apply prog_keeps_bind]
  | |- free _ _ (_ ≫= _) => first [apply free_quiet; life_quiet | apply free_bind]
  | |- free _ _ (Get _) => apply free_get
  | |- free _ _ (Await _ _ _ mret) => apply free_await
  | |- free _ _ _ => first [apply free_quiet; life_quiet | solve [eauto with life]]
  | |- keeps _ _ _ => first [apply keeps_quiet; life_quiet | solve [eauto with life]]
  end.
