(* ===== verification/LifeProgs.v ===== *)
(** * All programs of a container change it by the steps of [LifeLogic] *)

From S2P Require Import Prelude ContainerState LifeCycle LifeLogic.

Section Progs.
  Context (reset paused : Prop) (I : core → Prop) (T : core → core → Prop).
  Context (Hclosed : ∀ x y, I x → core_step reset paused x y → I y).
  Local Hint Resolve Hclosed : life.

(** ** Changes of the state *)

Lemma keeps_st f : (∀ st, SetError None (f st) = f (SetError None st)) →
  (∀ st n rm l, core_step reset paused (mkCore st n rm l) (mkCore (f st) n rm l)) → keeps I T (set_state f).
Proof. intros Hcomm Hf. eapply keeps_state; [done|]. intros s. unfold core_of. cbn. rewrite Hcomm. apply Hf. Qed.
Lemma keeps_removal b : keeps I T (set_state (set_removal b)).
Proof. apply keeps_st; [done|]. intros. apply cs_removal. Qed.
Lemma keeps_dead : keeps I T (set_state SetDead).
Proof. apply keeps_st; [done|]. intros. apply cs_dead. Qed.
Lemma keeps_fire : keeps I T (set_state fire_removed).
Proof. apply keeps_st; [done|]. intros. apply cs_fire. Qed.
Lemma keeps_code c : keeps I T (set_state (SetExitCode c)).
Proof. apply keeps_st; [done|]. intros. apply cs_code. Qed.
Lemma keeps_resume : keeps I T (set_state (set_paused false)).
Proof. apply keeps_st; [done|]. intros. apply cs_resume. Qed.
Lemma keeps_running pid initial t : pid ≠ 0%Z → keeps I T (set_state (SetRunning pid initial t)).
Proof. intros Hp. apply keeps_st; [done|]. intros. by apply cs_running. Qed.
Lemma keeps_stopped e t : keeps I T (set_state (SetStopped e t)).
Proof. apply keeps_st; [done|]. intros. apply cs_stopped. Qed.
Lemma keeps_restarting e t : keeps I T (set_state (SetRestarting e t)).
Proof. apply keeps_st; [done|]. intros. apply cs_restarting. Qed.
Lemma quiet_been a b : quiet (upd (on_c (set_been a b))).
Proof. done. Qed.
Lemma quiet_label l : quiet (upd (on_c (set_label l))).
Proof. done. Qed.
Lemma quiet_auto b : quiet (upd (on_c (set_auto b))).
Proof. done. Qed.
Lemma quiet_forget : quiet (upd forget).
Proof. done. Qed.
Lemma quiet_saved o : quiet (upd (on_saved o)).
Proof. done. Qed.

(** ** Restart managers *)

Lemma core_cancel r s : core_of (on_rms (alter rm_Cancel r) s) =
  mkCore (k_st (core_of s)) (k_count (core_of s)) (k_rm (core_of s)) (alter (λ _, true) r (k_canceled (core_of s))).
Proof.
  unfold core_of. cbn. f_equal. apply list_eq. intros i. rewrite list_lookup_fmap.
  destruct (decide (r = i)) as [->|]; [rewrite !list_lookup_alter_eq|rewrite !list_lookup_alter_ne by done]; rewrite list_lookup_fmap; [|done].
  by destruct (sh_rms s !! i).
Qed.
Lemma keeps_cancel r : keeps I T (Cancel r).
Proof. eapply keeps_upd; [done|]. intros s. rewrite core_cancel. destruct (core_of s). apply cs_cancel. Qed.

(** [RestartManager] gives the manager that the container has then. *)
Lemma manager_spec x : I x → safe I reply_ok T (Some x) RestartManager (λ r h, ∃ y, h = Some y ∧ I y ∧ k_rm y = Some r).
Proof.
  intros Hx s Hs. destruct (ct_restartManager (sh_c s)) as [r|] eqn:Hr; cbn.
  { exists x. split; [done|]. split; [done|]. by rewrite <-Hs. }
  intros s1 Hs1 _. cbn. intros s2 Hs2 _. eexists. split; [done|]. split; [|done].
  assert (core_of s1 = core_of s) as Hs1s by congruence. assert (k_rm (core_of s1) = None) as Hnone by by rewrite Hs1s.
  set (y := mkCore (k_st x) (k_count x) None (k_canceled x ++ [false])).
  assert (I y) as Hy.
  { eapply Hclosed; [exact Hx|]. subst x y. rewrite <-Hs1. destruct (core_of s1) as [st n rm l] eqn:Hc. cbn in *. subst rm. apply cs_manager. }
  assert (core_of s2 = y) as Hs2y.
  { rewrite Hs2. unfold y. rewrite <-Hs1. unfold core_of in *. cbn in *. rewrite fmap_app. f_equal. done. }
  eapply Hclosed; [exact Hy|]. rewrite <-Hs2y. subst y.
  unfold core_of in *. injection Hs2y as H1 H2 H3 H4. cbn in *. rewrite H3. apply cs_use.
Qed.
Lemma keeps_manager : keeps I T RestartManager.
Proof. intros x Hx. eapply safe_mono; [|by apply manager_spec]. intros r h (y&->&Hy&_). eauto. Qed.
Lemma keeps_exit_next : keeps I T ExitOnNext.
Proof. apply prog_keeps_bind; [apply keeps_manager|]. intros r. apply keeps_cancel. Qed.
Lemma keeps_reset_manager : reset → keeps I T (ResetRestartManager true).
Proof.
  intros Hr. apply prog_keeps_bind; [by apply keeps_quiet|]. intros c. apply prog_keeps_bind.
  - destruct (ct_restartManager c); [apply keeps_cancel|by apply keeps_quiet].
  - intros _. eapply keeps_upd; [done|]. intros s. by apply cs_reset.
Qed.
(** [ShouldRestart] grants nothing on a manager that is cancelled. *)
Lemma should_spec x r code manual d : safe I reply_ok T (Some x) (rm_ShouldRestart r code manual d)
  (λ a h, h = Some x ∧ (a.1 = true → k_canceled x !! r = Some false)).
Proof.
  intros s Hs. destruct (sh_rms s !! r) as [rm|] eqn:Hrm; [|by cbn].
  destruct (ShouldRestart code manual d rm) as [[restart e] rm'] eqn:Hsh. cbn. intros s1 Hs1 _.
  assert (rm_canceled rm' = rm_canceled rm ∧ (restart = true → rm_canceled rm = false)) as [Hsame Hgrant].
  { unfold ShouldRestart in Hsh. repeat case_match; simplify_eq/=; by rewrite ?H0. }
  assert (k_canceled x !! r = Some (rm_canceled rm)) as Hx.
  { rewrite <-Hs. cbn. by rewrite list_lookup_fmap, Hrm. }
  split; [|intros ->; by rewrite Hx, Hgrant]. f_equal.
  assert (rm_canceled <$> <[r := rm']> (sh_rms s1) = k_canceled x) as Hl.
  { rewrite list_fmap_insert, Hsame. rewrite <-Hs1 in Hx |- *. cbn in *. by apply list_insert_id. }
  rewrite <-Hs1 in Hl |- *. unfold core_of in *. cbn in *. by rewrite Hl.
Qed.
Local Hint Resolve keeps_removal keeps_dead keeps_fire keeps_code keeps_resume keeps_stopped keeps_restarting keeps_cancel keeps_manager
  keeps_exit_next keeps_reset_manager quiet_been quiet_label quiet_auto quiet_forget quiet_saved : life.

(** ** The programs *)

Lemma quiet_manually : quiet (Get (λ s, if sh_shutdown s then mret () else upd (on_c (λ c, set_been (HasBeenStartedBefore c) true c)))).
Proof. intros s. by destruct (sh_shutdown s). Qed.
Lemma keeps_kill sig : keeps I T (killWithSignal_body sig).
Proof.
  unfold killWithSignal_body, kill_rest. pose proof quiet_manually. life.
Qed.
Lemma free_wait ctx condition : free I T (Wait ctx condition).
Proof.
  unfold Wait. apply prog_safe_bind. split; [done|]. intros x Hx. apply prog_safe_bind. intros s Hs. apply prog_safe_bind. split; [done|]. 
  change (free I T (if bool_decide (condition = WaitConditionNotRunning) && negb (Running (ct_State (sh_c s))) then
    mret (ExitCodeValue (ct_State (sh_c s)), state_Err (ct_State (sh_c s)))
  else
    timeout ← Await ctx (if bool_decide (condition = WaitConditionRemoved) then None else Some (waitStop (ct_State (sh_c s)))) (waitRemove (ct_State (sh_c s))) mret;
    if (timeout : bool) then mret ((-1)%Z, Some DeadlineExceeded)
    else locked (c ← getc; mret (ExitCodeValue (ct_State c), state_Err (ct_State c))))).
  life.
Qed.
Lemma free_running : free I T IsRunning.
Proof. unfold IsRunning. life. Qed.
Lemma free_pid : free I T GetPID.
Proof. unfold GetPID. life. Qed.
Local Hint Resolve keeps_kill free_wait free_running free_pid : life.
Lemma free_kill_dead sig : free I T (killPossiblyDeadProcess sig).
Proof. unfold killPossiblyDeadProcess, killWithSignal. life. Qed.
Lemma free_kill_direct : free I T killProcessDirectly.
Proof. unfold killProcessDirectly. life. Qed.
Local Hint Resolve free_kill_dead free_kill_direct : life.
Lemma free_Kill : free I T Kill.
Proof. unfold Kill. life. Qed.
Local Hint Resolve free_Kill : life.
Lemma free_stop seconds : free I T (containerStop seconds).
Proof. unfold containerStop. life. Qed.
Local Hint Resolve free_stop : life.

(** A container is only paused by a client while its process runs. *)
Lemma keeps_getc {A} (f : Ctr → prog A) :
  (∀ x s, I x → core_of s = x → safe I reply_ok T (Some x) (f (sh_c s)) (λ _ h, ∃ y, h = Some y ∧ I y)) → keeps I T (c ← getc; f c).
Proof. intros Hf x Hx. apply prog_safe_bind. intros s Hs. by apply Hf. Qed.
Lemma safe_then {A B} (p : prog A) (f : A → prog B) x : quiet p →
  (∀ a, safe I reply_ok T (Some x) (f a) (λ _ h, ∃ y, h = Some y ∧ I y)) → safe I reply_ok T (Some x) (p ≫= f) (λ _ h, ∃ y, h = Some y ∧ I y).
Proof. intros Hp Hf. apply prog_safe_bind. by apply safe_quiet. Qed.
Lemma safe_pause {A} (p : prog A) x s : I x → core_of s = x → Running (ct_State (sh_c s)) = true → Restarting (ct_State (sh_c s)) = false → keeps I T p →
  safe I reply_ok T (Some x) (_ ← set_state (set_paused true); p) (λ _ h, ∃ y, h = Some y ∧ I y).
Proof.
  intros Hx Hs Hrun Hre Hp. apply prog_safe_bind. intros s' Hs' _. cbn. apply Hp. eapply Hclosed; [exact Hx|]. subst x.
  rewrite <-Hs'. pose proof (f_equal (λ x, Running (k_st x)) Hs') as Hrun'. pose proof (f_equal (λ x, Restarting (k_st x)) Hs') as Hre'.
  cbn in Hrun', Hre'. apply (cs_pause _ _ (SetError None (ct_State (sh_c s')))). left. cbn. by rewrite Hrun', Hre'.
Qed.
Lemma free_pause : free I T containerPause.
Proof.
  unfold containerPause. apply free_locked. apply keeps_getc. intros x s Hx Hs.
  destruct (Running (ct_State (sh_c s))) eqn:Hrun; [|by cbn; eauto]. cbn [negb].
  destruct (Paused (ct_State (sh_c s))); [by cbn; eauto|]. destruct (Restarting (ct_State (sh_c s))) eqn:Hre; [by cbn; eauto|].
  apply safe_then; [done|]. intros [e|]; [by cbn; eauto|]. eapply safe_pause; [done|done|done|done|]. life.
Qed.
Lemma free_unpause : free I T containerUnpause.
Proof. unfold containerUnpause. life. Qed.
Lemma free_removal_error e : free I T (SetRemovalError e).
Proof. unfold SetRemovalError. life. Qed.
Lemma free_in_progress : free I T SetRemovalInProgress.
Proof. unfold SetRemovalInProgress. life. Qed.
Lemma free_not_in_progress : free I T ResetRemovalInProgress.
Proof. unfold ResetRemovalInProgress. life. Qed.
Local Hint Resolve free_removal_error free_in_progress free_not_in_progress : life.
Lemma quiet_layer b : quiet (upd (on_c (λ c, set_fs b (ct_BaseFS c) c))).
Proof. done. Qed.
Local Hint Resolve quiet_layer : life.
Lemma free_cleanup_dead : free I T cleanup_dead.
Proof. unfold cleanup_dead. life. Qed.
Local Hint Resolve free_cleanup_dead : life.
Lemma free_cleanup force : free I T (cleanupContainer force).
Proof. unfold cleanupContainer. life. Qed.
Local Hint Resolve free_cleanup : life.
Lemma free_rm force link : free I T (ContainerRm force link).
Proof. unfold ContainerRm. life. Qed.
Local Hint Resolve free_rm : life.
Lemma free_autoremove : free I T autoRemove.
Proof. unfold autoRemove. life. Qed.
Local Hint Resolve free_pause free_unpause free_autoremove : life.

(** ** Starts *)

Lemma keeps_call {A} c (k : reply → prog A) : (∀ r, reply_ok c r → keeps I T (k r)) → keeps I T (Call c k).
Proof. intros Hk x Hx r Hr. by apply Hk. Qed.
Lemma keeps_interlude {A} (p : prog A) : free I T p → keeps I T (_ ← unlock; _ ← p; lock).
Proof.
  intros Hp x Hx. cbn. split; [done|]. apply prog_safe_bind. eapply safe_mono; [|exact Hp]. cbn. intros a h ->. split; [done|]. eauto.
Qed.
Lemma keeps_some_code : keeps I T (set_state (λ s, if (ExitCodeValue s =? 0)%Z then SetExitCode 128 s else s)).
Proof.
  intros x Hx s <- _. cbn. eexists. split; [done|]. unfold core_of. cbn.
  destruct (ExitCodeValue (ct_State (sh_c s)) =? 0)%Z; [|done].
  eapply Hclosed; [exact Hx|]. apply (cs_code _ _ 128 (SetError None (ct_State (sh_c s)))).
Qed.
Lemma keeps_start_err e : keeps I T (start_err e).
Proof. unfold start_err. life. Qed.
Local Hint Resolve keeps_some_code keeps_start_err : life.
Lemma keeps_start_body checkpoint b simp : (b = true → reset) → keeps I T (start_body checkpoint b simp).
Proof.
  intros Hb. unfold start_body, start_rest. apply prog_keeps_bind; [by apply keeps_quiet|]. intros c. apply keeps_or_err; [life|].
  apply prog_keeps_bind; [life|]. intros _. do 2 (apply keeps_or_err; [life|]). apply prog_keeps_bind; [destruct b; [|life]; auto with life|]. intros _.
  apply prog_keeps_bind; [life|]. intros _. apply prog_keeps_bind; [by apply keeps_quiet; case_bool_decide|]. intros dir.
  apply keeps_or_err; [life|]. apply keeps_or_err; [life|]. apply keeps_or_err; [life|].
  apply keeps_call. intros r Hr. cbn in Hr. destruct (r_err r) as [e|]; [life|].
  apply prog_keeps_bind; [life|]. intros t. apply prog_keeps_bind; [by apply keeps_running; auto|]. intros _. life.
Qed.
Lemma keeps_start_failed e : keeps I T (start_failed e).
Proof.
  unfold start_failed. do 6 (apply prog_keeps_bind; [life|]; intros ?). destruct (AutoRemove _); [|life].
  apply keeps_interlude. life.
Qed.
Local Hint Resolve keeps_start_failed : life.
Lemma free_containerStart checkpoint dir b simp : (b = true → reset) → free I T (containerStart checkpoint dir b simp).
Proof. intros Hb. pose proof (keeps_start_body checkpoint b (bool_decide (simp = "yes")) Hb). unfold containerStart. life. Qed.
Lemma free_ContainerStart ex checkpoint dir simp : reset → free I T (ContainerStart ex checkpoint dir simp).
Proof. intros Hr. pose proof (free_containerStart checkpoint dir true simp (λ _, Hr)). unfold ContainerStart. life. Qed.
Lemma free_ContainerRestart seconds : reset → free I T (ContainerRestart seconds).
Proof.
  intros Hr. pose proof (free_containerStart EmptyString EmptyString true EmptyString (λ _, Hr)).
  unfold ContainerRestart, containerRestart. life.
Qed.
Lemma free_handle r : (match r with RStart _ _ _ _ | RRestart _ => reset | _ => True end) → free I T (handle r).
Proof.
  destruct r; intros Hr; cbn [handle]; [by apply free_ContainerStart| | | | |by apply free_ContainerRestart| |].
  - unfold ContainerStop. life.
  - unfold ContainerKill, killWithSignal. life.
  - unfold ContainerPause. life.
  - unfold ContainerUnpause. life.
  - life.
  - life.
Qed.

(** ** Events *)

Lemma quiet_go (b : bool) r e : quiet (if b then Go (RestartWaiter r e) (mret ()) else mret ()).
Proof. by destruct b. Qed.
Lemma safe_count {A} r (k : prog A) y : I y → k_rm y = Some r → k_canceled y !! r = Some false → keeps I T k →
  safe I reply_ok T (Some y) (_ ← upd (on_c (λ c, set_restarts (RestartCount c + 1) (ct_restartManager c) c)); k) (λ _ h, ∃ y, h = Some y ∧ I y).
Proof.
  intros Hy Hrm Hl Hk. apply prog_safe_bind. intros s Hs _. cbn. apply Hk. eapply Hclosed; [exact Hy|]. rewrite <-Hs in *. cbn in *.
  unfold core_of. cbn. rewrite Hrm. by apply cs_count.
Qed.
Lemma keeps_exit code e err : keeps I T (exit_body code e err).
Proof.
  unfold exit_body. do 3 (apply prog_keeps_bind; [life|]; intros _). intros x Hx. apply prog_safe_bind.
  eapply safe_mono; [|by apply manager_spec]. intros r h (y&->&Hy&Hrm). apply prog_safe_bind. intros s Hs. apply safe_then; [done|]. intros t.
  apply prog_safe_bind. eapply safe_mono; [|apply should_spec]. intros [restart rerr] h [-> Hgrant]. cbn in Hgrant.
  set (again := bool_decide (rerr = None) && restart).
  assert (again = true → k_canceled y !! r = Some false) as Hfree by (intros Ha; apply Hgrant; by apply andb_prop in Ha as [_ Ha]).
  clearbody again. apply prog_safe_bind. eapply (safe_mono _ _ _ _ _ (λ _ h, ∃ y, h = Some y ∧ I y)).
  { cbn. intros _ h (z&->&Hz). revert z Hz. change (keeps I T (_ ← ignore stopHealthchecks; _ ← LogContainerEvent "die"; _ ← Cleanup;
      _ ← (if again then Go (RestartWaiter r e) (mret ()) else mret ()); _ ← setStateCounter; e ← CheckpointTo; mret (e, negb again))).
    pose proof (quiet_go again r e). life. }
  destruct again.
  - apply (safe_count r); [done|done|by apply Hfree|]. life.
  - revert y Hy Hrm Hs Hgrant Hfree. clear -Hclosed. intros y Hy _ _ _ _. revert y Hy.
    change (keeps I T (_ ← (match err with Some _ => set_state (SetError err) | None => mret () end); t ← now; set_state (SetStopped e t))). life.
Qed.
Local Hint Resolve keeps_exit : life.

(** A pause that the runtime reports: the container may not run any more. *)
Definition pause_in : Prop := ∀ x y, T x y → Paused (k_st x) = false → Paused (k_st y) = true →
  Running (k_st x) = true ∧ Restarting (k_st x) = false ∨ paused.
Lemma free_paused : pause_in → free I T (ProcessEvent EventPaused).
Proof.
  intros HT. unfold ProcessEvent. apply free_if_known, free_locked, keeps_getc. intros x s Hx Hs.
  destruct (Paused (ct_State (sh_c s))) eqn:Hp; [by cbn; eauto|]. apply prog_safe_bind. intros s' Hs' Hin. cbn -[mbind].
  assert (I (core_of (on_c (set_st (set_paused true)) s'))) as HI.
  { eapply Hclosed; [exact Hx|]. rewrite <-Hs' in Hin |- *. apply (cs_pause _ _ (SetError None (ct_State (sh_c s')))).
    apply (HT _ _ Hin); [|done]. rewrite Hs', <-Hs. exact Hp. }
  revert HI. generalize (core_of (on_c (set_st (set_paused true)) s')).
  change (keeps I T (_ ← setStateCounter; _ ← ignore updateHealthMonitor; CheckpointTo ;? (_ ← LogContainerEvent "pause"; mret None))). life.
Qed.
Definition event_ok (e : event) : Prop := match e with EventStart pid => pid ≠ 0%Z | _ => True end.
Lemma free_event e : pause_in → event_ok e → free I T (ProcessEvent e).
Proof.
  intros HT He. destruct e as [|pid code at_ oom err|pid| |]; cbn in He.
  4: by apply free_paused.
  all: unfold ProcessEvent; apply free_if_known.
  - life.
  - life.
  - apply free_locked. apply prog_keeps_bind; [life|]. intros c. destruct (Running (ct_State c)); [life|].
    apply prog_keeps_bind; [life|]. intros t. apply prog_keeps_bind; [by apply keeps_running|]. intros _. life.
  - life.
Qed.
Lemma free_waiter r e : free I T (restart_waiter r e).
Proof.
  pose proof (free_containerStart EmptyString EmptyString false EmptyString) as Hst. unfold restart_waiter.
  apply free_bind; [by split|]. intros err. apply free_bind.
  - destruct err as [err|]; [life|]. apply free_bind; [life|]. intros _. by apply Hst.
  - life.
Qed.

(** All of them. *)
Definition request_ok (r : request) : Prop := match r with RStart _ _ _ _ | RRestart _ => reset | _ => True end.
End Progs.
Lemma all_progs_ok reset paused I E : (∀ x y, I x → core_step reset paused x y → I y) → pause_in paused E →
  progs_ok I reply_ok E (request_ok reset) event_ok.
Proof.
  intros Hclosed HE. constructor.
  - intros [r e]. by apply (free_waiter reset paused I always_in Hclosed).
  - intros r Hr. by apply (free_handle reset paused I always_in Hclosed).
  - intros e He. by apply (free_event reset paused I E Hclosed).
Qed.
