(* ===== verification/LifeProps.v ===== *)
(** * What holds of the life of a container

    Whatever requests and events come, and however their programs interleave; what a kill
    and a start do when no other program runs; and runs that go wrong. *)

From S2P Require Import Prelude ContainerState LifeCycle LifeLogic LifeProgs.

(** ** One program without others *)

(** The program [p] with the replies [o], from the [n]th on: its result, the container, the
    number of the next reply, if it has the lock, and the calls it made. *)
Fixpoint alone {A} (o : nat → reply) (p : prog A) (n : nat) (held : bool) (s : shared) : option (A * shared * nat * bool * list call) :=
  match p with
  | Ret a => Some (a, s, n, held, [])
  | Lock k => if held then None else alone o k n true s
  | Unlock k => if held then alone o k n false s else None
  | Get k => alone o (k s) n held s
  | Upd f k => alone o k n held (f s)
  | Call c k => '(a, s, n', h, cs) ← alone o (k (o n)) (S n) held s; Some (a, s, n', h, c :: cs)
  | _ => None
  end.
Lemma alone_bind {A B} o (p : prog A) (f : A → prog B) n held s :
  alone o (p ≫= f) n held s =
    '(a, s, n, h, cs) ← alone o p n held s; '(b, s, n, h, cs') ← alone o (f a) n h s; Some (b, s, n, h, cs ++ cs').
Proof.
  revert n held s. induction p as [a|k IH|k IH|k IH|g k IH|c k IH|ctx stop remove k IH|rm k IH|g k IH]; intros n held s; cbn.
  - by destruct (alone o (f a) n held s) as [[[[[b s'] n'] h] cs]|].
  - destruct held; [done|]. apply IH.
  - destruct held; [|done]. apply IH.
  - apply IH.
  - apply IH.
  - rewrite IH. destruct (alone o (k (o n)) (S n) held s) as [[[[[a s'] n'] h] cs]|]; [|done]. cbn.
    by destruct (alone o (f a) n' h s') as [[[[[b s2] n2] h2] cs2]|].
  - done.
  - done.
  - done.
Qed.
(** It is a run of the system in which only this program moves. *)
Definition lock_of (t : nat) (held : bool) : option nat := if held then Some t else None.
Lemma alone_run o p t q : ∀ n held s ths calls a s' n' h cs, alone o p n held s = Some (a, s', n', h, cs) → ths !! t = Some p →
  ∃ ms rs, run ms (mkSystem s (lock_of t held) q ths calls) = mkSystem s' (lock_of t h) q (<[t := Ret a]> ths) (calls ++ rs) ∧ rs.*1 = cs.
Proof.
  assert (∀ m ms s s', move_step m s = Some s' → run (m :: ms) s = run ms s') as Hcons by (intros m ms s s' Hm; unfold run; cbn; by rewrite Hm).
  induction p as [x|k IH|k IH|k IH|g k IH|c k IH|ctx stop remove k IH|rm k IH|g k IH]; intros n held s ths calls a s' n' h cs Hal Hp; cbn in Hal; try done.
  - simplify_eq. exists [], []. rewrite list_insert_id by done. by rewrite app_nil_r.
  - destruct held; [done|].
    destruct (IH _ _ _ (<[t := k]> ths) calls _ _ _ _ _ Hal) as (ms&rs&Hrun&Hrs); [by eapply list_lookup_insert_eq, lookup_lt_Some|].
    exists (Run t (o n) :: ms), rs. split; [|done]. rewrite list_insert_insert_eq in Hrun.
    refine (eq_trans (Hcons _ _ _ _ _) Hrun). unfold move_step, thread_step. cbn. by rewrite Hp.
  - destruct held; [|done].
    destruct (IH _ _ _ (<[t := k]> ths) calls _ _ _ _ _ Hal) as (ms&rs&Hrun&Hrs); [by eapply list_lookup_insert_eq, lookup_lt_Some|].
    exists (Run t (o n) :: ms), rs. split; [|done]. rewrite list_insert_insert_eq in Hrun.
    refine (eq_trans (Hcons _ _ _ _ _) Hrun). unfold move_step, thread_step. cbn. rewrite Hp. by rewrite bool_decide_true.
  - destruct (IH s _ _ _ (<[t := k s]> ths) calls _ _ _ _ _ Hal) as (ms&rs&Hrun&Hrs); [by eapply list_lookup_insert_eq, lookup_lt_Some|].
    exists (Run t (o n) :: ms), rs. split; [|done]. rewrite list_insert_insert_eq in Hrun.
    refine (eq_trans (Hcons _ _ _ _ _) Hrun). unfold move_step, thread_step. cbn. by rewrite Hp.
  - destruct (IH _ _ _ (<[t := k]> ths) calls _ _ _ _ _ Hal) as (ms&rs&Hrun&Hrs); [by eapply list_lookup_insert_eq, lookup_lt_Some|].
    exists (Run t (o n) :: ms), rs. split; [|done]. rewrite list_insert_insert_eq in Hrun.
    refine (eq_trans (Hcons _ _ _ _ _) Hrun). unfold move_step, thread_step. cbn. by rewrite Hp.
  - destruct (alone o (k (o n)) (S n) held s) as [[[[[a1 s1] n1] h1] cs1]|] eqn:Hk; [|done]. simplify_eq/=.
    destruct (IH (o n) _ _ _ (<[t := k (o n)]> ths) (calls ++ [(c, o n)]) _ _ _ _ _ Hk) as (ms&rs&Hrun&Hrs); [by eapply list_lookup_insert_eq, lookup_lt_Some|].
    exists (Run t (o n) :: ms), ((c, o n) :: rs). split; [|cbn; by rewrite Hrs]. rewrite list_insert_insert_eq, <-app_assoc in Hrun.
    refine (eq_trans (Hcons _ _ _ _ _) Hrun). unfold move_step, thread_step. cbn. by rewrite Hp.
Qed.

(** ** Every run *)

(** What the flags of a container say of each other and of its process. *)
Definition consistent (st : State) : Prop :=
  (Restarting st = true → Running st = true ∧ Pid st = 0%Z) ∧ (Running st = false → Pid st = 0%Z) ∧
  (Running st = true → Restarting st = false → Pid st ≠ 0%Z).
Definition life_inv (paused : Prop) (x : core) : Prop :=
  consistent (k_st x) ∧ (Paused (k_st x) = true → Running (k_st x) = true ∧ Restarting (k_st x) = false ∨ paused).
Lemma life_closed reset paused x y : life_inv paused x → core_step reset paused x y → life_inv paused y.
Proof.
  unfold life_inv, consistent. intros [(H1&H2&H3) H4] Hstep. inversion Hstep; subst; cbn in *; split_and!; intros; try done; try tauto; auto.
Qed.
Definition starts_ok (s : system) : Prop := Forall (λ cr, reply_ok cr.1 cr.2) (sy_calls s).

(** The runtime reports a start with the number of a process. *)
Definition pid_given (m : move) : Prop := match m with Emit (EventStart pid) => pid ≠ 0%Z | _ => True end.

(** The event of a pause is handled when the container does not run any more: [ProcessEvent]
    marks it as paused although its process has exited. *)
Definition pauses_late (s s' : system) : bool :=
  let st := ct_State (sh_c (sy s)) in negb (Paused st) && Paused (ct_State (sh_c (sy s'))) && (negb (Running st) || Restarting st).
Fixpoint late_pause (ms : list move) (s : system) : bool :=
  match ms with
  | [] => false
  | m :: ms =>
      let s' := default s (move_step m s) in
      match m with Run 0 _ => pauses_late s s' | _ => false end || late_pause ms s'
  end.
Lemma late_pause_found ms1 r ms2 s :
  pauses_late (run ms1 s) (run (ms1 ++ [Run 0 r]) s) = true → late_pause (ms1 ++ Run 0 r :: ms2) s = true.
Proof. revert s. induction ms1 as [|m ms1 IH]; intros s H; [cbn in *; by rewrite H|]. cbn. by rewrite (IH _ H), orb_true_r. Qed.
(** What is assumed of the changes the program of the events makes. *)
Definition timely (late : bool) (x y : core) : Prop :=
  Paused (k_st x) = false → Paused (k_st y) = true → Running (k_st x) = true ∧ Restarting (k_st x) = false ∨ late = true.
Lemma timely_run ms s : run_in (timely (late_pause ms s)) ms s.
Proof.
  intros ms1 [| | |[|t] r] ms2 ->; try done. intros Hx Hy. cbn in Hx, Hy.
  destruct (Running (ct_State (sh_c (sy (run ms1 s))))) eqn:Hr; [destruct (Restarting (ct_State (sh_c (sy (run ms1 s))))) eqn:Hre|].
  2: left; cbn; by rewrite Hr, Hre.
  all: right; apply late_pause_found; unfold pauses_late; by rewrite Hx, Hy, Hr, ?Hre.
Qed.

(** C8. Whatever requests and events come and however the programs interleave, if the runtime
    gives the number of a process for every start: when no program holds the lock, a container
    that restarts counts as running and has no process, one that does not run has none, and
    one that runs has one; and it is paused only while it runs and is not about to restart,
    unless the event of a pause was handled when that was not so.  And the program that holds
    the lock can always go on: none ends or waits with it. *)
Theorem life_invariant sh ms : let s := run ms (at_rest sh) in
  consistent (ct_State (sh_c sh)) → (Paused (ct_State (sh_c sh)) = true → Running (ct_State (sh_c sh)) = true ∧ Restarting (ct_State (sh_c sh)) = false) →
  starts_ok s → Forall pid_given ms →
  (sy_lock s = None →
    consistent (ct_State (sh_c (sy s))) ∧
    (Paused (ct_State (sh_c (sy s))) = true →
      Running (ct_State (sh_c (sy s))) = true ∧ Restarting (ct_State (sh_c (sy s))) = false ∨ late_pause ms (at_rest sh) = true)) ∧
  (∀ t, sy_lock s = Some t → ∀ r, is_Some (thread_step t r s)).
Proof.
  intros s Hc Hp Hcalls Hev. set (late := late_pause ms (at_rest sh)).
  assert (sys_ok (life_inv (late = true)) reply_ok (timely late) event_ok s) as Hok.
  { apply (run_ok _ _ _ (request_ok True)); [|by apply at_rest_ok; split; [|by auto]| |done|apply timely_run].
    - apply (all_progs_ok True (late = true)); [|by intros x y H]. intros x y. apply life_closed.
    - apply Forall_forall. intros [r|e| |t r] Hm; [by destruct r| |done|done]. rewrite Forall_forall in Hev. specialize (Hev _ Hm). by destruct e. }
  split; [|intros t Hl r; by eapply owner_runs].
  intros Hl. by destruct (so_free _ _ _ _ _ Hok Hl) as [H1 H2].
Qed.

(** ** A kill *)

(** The signal makes the restart manager give up: it kills, or the container has no stop
    signal of its own, or it is that signal. *)
Definition stops (c : Ctr) (sig : Z) : Prop :=
  sig = SIGKILL ∨ ct_StopSignal c = EmptyString ∨ ParseSignal (ct_StopSignal c) = (sig, None).
Definition manager_ok (sh : shared) : Prop := match ct_restartManager (sh_c sh) with Some r => r < length (sh_rms sh) | None => True end.
Definition gave_up (sh : shared) : Prop :=
  ∃ r, ct_restartManager (sh_c sh) = Some r ∧ (rm_canceled <$> sh_rms sh) !! r = Some true.

Lemma exit_alone o n sh : manager_ok sh →
  ∃ sh', alone o ExitOnNext n true sh = Some ((), sh', n, true, []) ∧ gave_up sh' ∧
    RestartCount (sh_c sh') = RestartCount (sh_c sh) ∧ ct_State (sh_c sh') = ct_State (sh_c sh).
Proof.
  unfold manager_ok, ExitOnNext, RestartManager. intros Hm. cbn. destruct (ct_restartManager (sh_c sh)) as [r|] eqn:Hr; cbn.
  - eexists. split; [done|]. split; [|done]. exists r. split; [done|]. cbn. rewrite list_lookup_fmap, list_lookup_alter_eq.
    destruct (lookup_lt_is_Some_2 _ _ Hm) as [rm ->]. done.
  - eexists. split; [done|]. split; [|done]. eexists. split; [done|]. cbn. rewrite list_lookup_fmap, list_lookup_alter_eq, lookup_app_r by done.
    by rewrite Nat.sub_diag.
Qed.
Lemma rest_alone o sig b n sh :
  ∃ e sh' n' cs, alone o (kill_rest sig b) n true sh = Some (e, sh', n', true, cs) ∧ (gave_up sh → gave_up sh') ∧ RestartCount (sh_c sh') = RestartCount (sh_c sh).
Proof.
  unfold kill_rest. destruct sh as [c rms known saved [] log]; cbn.
  all: destruct (Restarting (ct_State c)); [by eexists _, _, _, _|].
  all: cbn; destruct (r_err (o n)) as [e|]; [|by destruct b; cbn; eexists _, _, _, _].
  all: by destruct (IsNotFound e); eexists _, _, _, _.
Qed.
Lemma kill_alone o n sig sh : manager_ok sh → Running (ct_State (sh_c sh)) = true → stops (sh_c sh) sig →
  ∃ e sh' n' cs, alone o (killWithSignal sig) n false sh = Some (e, sh', n', false, cs) ∧ gave_up sh' ∧ RestartCount (sh_c sh') = RestartCount (sh_c sh).
Proof.
  intros Hm Hrun Hst. unfold killWithSignal, locked, killWithSignal_body.
  destruct (exit_alone o (S n) sh Hm) as (sh1&Hex&Hg1&Hc1&Hs1).
  destruct (rest_alone o sig (Paused (ct_State (sh_c sh1))) (S n) sh1) as (e&sh2&n2&cs&Hrest&Hg2&Hc2).
  exists e, sh2, n2, (stopHealthchecks :: cs). split; [|split; [by auto|congruence]].
  set (exit := _ ← ExitOnNext; c ← getc; kill_rest sig (Paused (ct_State c))).
  assert (alone o exit (S n) true sh = Some (e, sh2, n2, true, cs)) as Hexit.
  { unfold exit. rewrite alone_bind, Hex. cbn [mbind option_bind]. rewrite alone_bind. cbn -[kill_rest]. rewrite Hrest. reflexivity. }
  rewrite alone_bind. cbn [alone lock mbind option_bind app]. rewrite alone_bind.
  replace (alone o (_ ← ignore stopHealthchecks; _) n true sh) with (Some (e, sh2, n2, true, stopHealthchecks :: cs)); [cbn; by rewrite app_nil_r|].
  clearbody exit. cbn -[ParseSignal kill_rest SIGKILL Z.eqb]. rewrite Hrun. cbn [negb].
  replace (if negb (bool_decide (ct_StopSignal (sh_c sh) = EmptyString)) && negb (sig =? SIGKILL)%Z then _ else exit) with exit; [by rewrite Hexit|].
  destruct Hst as [->|[Hemp|Hp]].
  - by rewrite andb_false_r.
  - by rewrite bool_decide_true.
  - rewrite Hp, Z.eqb_refl. by destruct (negb _ && _).
Qed.

(** Restarts that were granted earlier may still be waiting. *)
Definition with_waiters (sh : shared) (gs : list goroutine) : system := mkSystem sh None [] (Ret None :: (body <$> gs)) [].
Definition user_start (m : move) : bool := match m with Arrive (RStart _ _ _ _) | Arrive (RRestart _) => true | _ => false end.

Definition given_up (r : nat) (n : Z) (x : core) : Prop := k_rm x = Some r ∧ k_canceled x !! r = Some true ∧ k_count x = n.
Lemma given_up_closed r n paused x y : given_up r n x → core_step False paused x y → given_up r n y.
Proof.
  unfold given_up. intros (H1&H2&H3) Hstep. inversion Hstep; subst; cbn in *; split_and!; try done; simplify_eq.
  - by apply lookup_app_l_Some.
  - destruct (decide (r0 = r)) as [->|]; [by rewrite list_lookup_alter_eq, H2|by rewrite list_lookup_alter_ne].
Qed.
Lemma waiters_ok I reset paused sh gs : (∀ x y, I x → core_step reset paused x y → I y) → paused → I (core_of sh) →
  sys_ok I reply_ok always_in event_ok (with_waiters sh gs).
Proof.
  intros Hclosed Hpa HI. constructor; [done|done| |by cbn]. intros [|t] p Hl; [by injection Hl as <-|].
  change ((body <$> gs) !! t = Some p) in Hl. rewrite list_lookup_fmap in Hl. destruct (gs !! t) as [g|]; [|done]. injection Hl as <-. cbn.
  apply (ok_body _ _ _ _ _ (all_progs_ok reset paused I always_in Hclosed (λ _ _ _ _ _, or_intror Hpa))).
Qed.

(** C11. A kill is final: [killWithSignal] with SIGKILL or with the stop signal of the
    container returns, and whatever happens then - the process exits, restarts that
    were granted before fall due, clients stop, pause, kill and remove, in any
    interleaving - no further restart is granted, until a client starts the container. *)
Theorem killed_not_restarted o n sig sh : manager_ok sh → Running (ct_State (sh_c sh)) = true → stops (sh_c sh) sig →
  ∃ e sh' n' cs, alone o (killWithSignal sig) n false sh = Some (e, sh', n', false, cs) ∧
    ∀ gs ms, let s := run ms (with_waiters sh' gs) in
      Forall (λ m, user_start m = false) ms → Forall pid_given ms → starts_ok s →
      sy_lock s = None → RestartCount (sh_c (sy s)) = RestartCount (sh_c sh).
Proof.
  intros Hm Hrun Hst. destruct (kill_alone o n sig sh Hm Hrun Hst) as (e&sh'&n'&cs&Hal&(r&Hr&Hc)&Hcount).
  exists e, sh', n', cs. split; [done|]. intros gs ms s Hms Hev Hcalls Hl.
  assert (sys_ok (given_up r (RestartCount (sh_c sh))) reply_ok always_in event_ok s) as Hok.
  { pose proof (λ x y, given_up_closed r (RestartCount (sh_c sh)) True x y) as Hclosed.
    apply (run_ok _ _ _ (request_ok False)); [apply (all_progs_ok False True); [done|by right]|by eapply waiters_ok| |done|by intros ? [| | |[]]].
    apply Forall_forall. intros m Hin. rewrite Forall_forall in Hms, Hev. specialize (Hms m Hin). specialize (Hev m Hin).
    by destruct m as [[]|[]| |]. }
  by destruct (so_free _ _ _ _ _ Hok Hl) as (_&_&H).
Qed.

(** ** A start *)

(** The state a container is started from. *)
Definition startable (c : Ctr) : Prop :=
  Running (ct_State c) = false ∧ RemovalInProgress (ct_State c) = false ∧ Dead (ct_State c) = false ∧ AutoRemove c = false.
(** The layer is mounted, with the reply [r] of the driver. *)
Definition mounts (c : Ctr) (r : reply) : bool :=
  ct_RWLayer c && bool_decide (r_err r = None) && bool_decide (ct_BaseFS c = None ∨ ct_BaseFS c = Some (r_str r)).
Definition simp_label (simpString : string) (l : string) : string := if bool_decide (simpString = "yes") then l +:+ ",simp=on" else l.

(** A quiet program that keeps what [f] is of the container, and returns. *)
Definition same {A B} (f : shared → B) (o : nat → reply) (p : prog A) : Prop :=
  ∀ n h s, ∃ a s' n' cs, alone o p n h s = Some (a, s', n', h, cs) ∧ f s' = f s.
Lemma same_bind {A B C} (f : shared → C) o (p : prog A) (k : A → prog B) : same f o p → (∀ a, same f o (k a)) → same f o (p ≫= k).
Proof.
  intros Hp Hk n h s. destruct (Hp n h s) as (a&s1&n1&cs1&H1&F1). destruct (Hk a n1 h s1) as (b&s2&n2&cs2&H2&F2).
  rewrite alone_bind, H1. cbn. rewrite H2. cbn. eexists _, _, _, _. split; [done|congruence].
Qed.
Lemma same_do {B} (f : shared → B) o c : same f o (do_ c).
Proof. intros n h s. by eexists _, _, _, _. Qed.
Lemma same_ignore {B} (f : shared → B) o c : same f o (ignore c).
Proof. intros n h s. by eexists _, _, _, _. Qed.
Lemma same_ret {A B} (f : shared → B) o (a : A) : same f o (mret a).
Proof. intros n h s. by eexists _, _, _, _. Qed.
Lemma same_getc {B} (f : shared → B) o : same f o getc.
Proof. intros n h s. by eexists _, _, _, _. Qed.
Lemma same_upd {B} (f : shared → B) o g : (∀ s, f (g s) = f s) → same f o (upd g).
Proof. intros Hg n h s. eexists _, _, _, _. split; [done|]. apply Hg. Qed.
(** What the calls to other parts leave as it is. *)
Definition seen (s : shared) : Ctr * bool := (sh_c s, sh_known s).
Lemma same_checkpoint o : same seen o CheckpointTo.
Proof. intros n h s. cbn. destruct (r_err (o n)); by eexists _, _, _, _. Qed.
Lemma same_unmount o : same seen o Unmount.
Proof. intros n h s. cbn. destruct (ct_RWLayer (sh_c s)); by eexists _, _, _, _. Qed.
Lemma same_cleanup o : same seen o Cleanup.
Proof.
  unfold Cleanup. do 2 (apply same_bind; [apply same_ignore|intros _]). apply same_bind; [apply same_unmount|]. intros e.
  apply same_bind; [|intros _].
  { destruct e; [|apply same_ret]. apply same_bind; [apply same_do|]. intros [?|]; [apply same_ret|apply same_ignore]. }
  do 3 (apply same_bind; [apply same_ignore|intros _]). apply same_bind; [apply same_getc|]. intros c.
  apply same_bind; [|intros _; apply same_bind; intros; apply same_ignore].
  destruct (ct_BaseFS c) as [p|]; [|apply same_ret]. case_bool_decide; [apply same_ret|apply same_ignore].
Qed.

(** The program returns, with [Q] of its result, the container, the number of the next
    reply, if it has the lock, and its calls. *)
Definition ends {A} o (p : prog A) n h s (Q : A → shared → nat → bool → list call → Prop) : Prop :=
  ∃ a s' n' h' cs, alone o p n h s = Some (a, s', n', h', cs) ∧ Q a s' n' h' cs.
Lemma ends_bind {A B} o (p : prog A) (f : A → prog B) n h s Q :
  ends o p n h s (λ a s n h cs, ends o (f a) n h s (λ b s n h cs', Q b s n h (cs ++ cs'))) → ends o (p ≫= f) n h s Q.
Proof.
  intros (a&s1&n1&h1&cs1&H1&(b&s2&n2&h2&cs2&H2&HQ)). exists b, s2, n2, h2, (cs1 ++ cs2).
  split; [|done]. rewrite alone_bind, H1. cbn. rewrite H2. done.
Qed.
Lemma ends_mono {A} o (p : prog A) n h s (Q Q' : A → shared → nat → bool → list call → Prop) :
  (∀ a s n h cs, Q a s n h cs → Q' a s n h cs) → ends o p n h s Q → ends o p n h s Q'.
Proof. intros HQ (a&s1&n1&h1&cs1&H1&H). exists a, s1, n1, h1, cs1. auto. Qed.
Lemma ends_same {A} o (p : prog A) n h s Q : same seen o p → (∀ a s' n' cs, sh_c s' = sh_c s → sh_known s' = sh_known s → Q a s' n' h cs) → ends o p n h s Q.
Proof. intros Hp HQ. destruct (Hp n h s) as (a&s'&n'&cs&H1&[= H2 H3]). exists a, s', n', h, cs. auto. Qed.
Lemma ends_upd o f n h s (Q : () → shared → nat → bool → list call → Prop) : Q () (f s) n h [] → ends o (upd f) n h s Q.
Proof. intros HQ. by exists (), (f s), n, h, []. Qed.
Lemma ends_state o f n h s (Q : () → shared → nat → bool → list call → Prop) : Q () (on_c (set_st f) s) n h [] → ends o (set_state f) n h s Q.
Proof. apply ends_upd. Qed.
Lemma ends_ret {A} o (a : A) n h s (Q : A → shared → nat → bool → list call → Prop) : Q a s n h [] → ends o (mret a) n h s Q.
Proof. intros HQ. by exists a, s, n, h, []. Qed.
Lemma ends_getc o n h s (Q : Ctr → shared → nat → bool → list call → Prop) : Q (sh_c s) s n h [] → ends o getc n h s Q.
Proof. intros HQ. by exists (sh_c s), s, n, h, []. Qed.
Lemma ends_call {A} o c (k : reply → prog A) n h s (Q : A → shared → nat → bool → list call → Prop) :
  ends o (k (o n)) (S n) h s (λ a s n h cs, Q a s n h (c :: cs)) → ends o (Call c k) n h s Q.
Proof. intros (a&s1&n1&h1&cs1&H1&HQ). exists a, s1, n1, h1, (c :: cs1). split; [|done]. cbn. by rewrite H1. Qed.
Lemma ends_do o c n h s (Q : option error → shared → nat → bool → list call → Prop) : Q (r_err (o n)) s (S n) h [c] → ends o (do_ c) n h s Q.
Proof. intros HQ. apply ends_call. by apply ends_ret. Qed.
Lemma ends_or o m k n h s Q :
  ends o m n h s (λ e s n h cs, match e with Some e => Q (Some e) s n h cs | None => ends o k n h s (λ e s n h cs', Q e s n h (cs ++ cs')) end) →
  ends o (or_err m k) n h s Q.
Proof.
  intros Hm. apply ends_bind. eapply ends_mono; [|exact Hm]. intros [e|] s1 n1 h1 cs1 H; [|done]. apply ends_ret. by rewrite app_nil_r.
Qed.

Lemma ends_get {A} o (k : shared → prog A) n h s Q : ends o (k s) n h s Q → ends o (Get k) n h s Q.
Proof. done. Qed.
Lemma ends_locked {A} o (m : prog A) n s (Q : A → shared → nat → bool → list call → Prop) :
  ends o m n true s (λ a s n h cs, h = true ∧ Q a s n false cs) → ends o (locked m) n false s Q.
Proof.
  intros Hm. unfold locked. apply ends_bind. exists (), s, n, true, []. split; [done|]. apply ends_bind. eapply ends_mono; [|exact Hm].
  intros a s1 n1 h1 cs1 [-> HQ]. exists a, s1, n1, false, []. split; [done|]. by rewrite app_nil_r.
Qed.

(** What the parts of a start leave of the container. *)
Definition idle (s : shared) : bool * bool * bool * bool * bool * bool :=
  (Running (ct_State (sh_c s)), RemovalInProgress (ct_State (sh_c s)), Dead (ct_State (sh_c s)), AutoRemove (sh_c s), ct_RWLayer (sh_c s), sh_known s).
Definition kept (s s' : shared) : Prop := ct_MountLabel (sh_c s') = ct_MountLabel (sh_c s) ∧ idle s' = idle s.
Lemma start_err_ends o e n s : ends o (start_err e) n true s (λ e' s' _ h cs, h = true ∧ cs = [] ∧ is_Some e' ∧ kept s s').
Proof.
  unfold start_err. apply ends_bind, ends_getc. destruct (translateContainerdStartErr (ct_Path (sh_c s)) e) as [e' [code|]].
  - apply ends_bind, ends_state, ends_ret. by repeat split.
  - apply ends_bind, ends_ret, ends_ret. by repeat split.
Qed.
(** A removal of a container that does not run and is not being removed: the container is
    marked as dead, unless the removal is refused and leaves it as it was. *)
Lemma removal_error_ends o err n s : ends o (SetRemovalError err) n false s (λ _ s' _ h _, h = false ∧ s' = on_c (set_st fire_removed) (on_c (set_st (SetError err)) s)).
Proof. by apply ends_bind, ends_state, ends_locked, ends_state. Qed.
Definition dead_as (s s' : shared) : Prop :=
  ct_MountLabel (sh_c s') = ct_MountLabel (sh_c s) ∧ Running (ct_State (sh_c s')) = Running (ct_State (sh_c s)) ∧ Dead (ct_State (sh_c s')) = true.
Lemma dead_ends o n s : ends o cleanup_dead n false s (λ _ s' _ h _, h = false ∧ dead_as s s').
Proof.
  unfold cleanup_dead. apply ends_bind, ends_locked, ends_bind, ends_state, ends_same; [apply same_checkpoint|]. intros _ s1 n1 c1 H1 K1. split; [done|].
  assert (dead_as s s1) as D1 by (unfold dead_as; by rewrite H1).
  apply ends_bind, ends_getc, ends_or, (ends_mono _ _ _ _ _ (λ _ s' _ h _, h = false ∧ dead_as s s')).
  - intros [e|] s2 n2 h2 c2 [-> D2]; [done|]. apply ends_bind, ends_do. destruct (r_err (o n2)) as [e|].
    { apply ends_bind. eapply ends_mono; [|apply removal_error_ends]. intros _ s3 n3 h3 c3 [-> ->]. by apply ends_ret. }
    do 2 (apply ends_bind, ends_same; [apply same_ignore|intros _ ? ? ? ? ?]). apply ends_bind, ends_upd, ends_bind, ends_upd.
    do 2 (apply ends_bind, ends_same; [apply same_ignore|intros _ ? ? ? ? ?]).
    apply ends_bind. eapply ends_mono; [|apply removal_error_ends]. intros _ s3 n3 h3 c3 [-> ->].
    apply ends_bind, ends_same; [apply same_ignore|]. intros _ s9 n9 c9 H9 K9. apply ends_bind, ends_upd, ends_ret.
    split; [done|]. unfold dead_as in *. cbn in *. rewrite H9. cbn. congruence.
  - destruct (ct_RWLayer (sh_c s1)); [|by apply ends_ret]. apply ends_bind, ends_do. destruct (r_err (o n1)) as [e|].
    + apply ends_bind. eapply ends_mono; [|apply removal_error_ends]. intros _ s3 n3 h3 c3 [-> ->]. by apply ends_ret.
    + by apply ends_bind, ends_upd, ends_ret.
Qed.
Lemma cleanup_container_ends o force n s : Running (ct_State (sh_c s)) = false →
  ends o (cleanupContainer force) n false s (λ _ s' _ h cs, h = false ∧ IsOSSupported ∈ cs ∧ (dead_as s s' ∨ s' = s)).
Proof.
  intros Hr. unfold cleanupContainer, IsRunning, wrap_err, containerStop, IsRunning.
  apply ends_bind, ends_locked, ends_bind, ends_getc, ends_ret. split; [done|]. rewrite Hr. cbn [negb]. apply ends_or, ends_ret.
  apply ends_or, ends_bind, ends_getc, ends_bind, ends_do, ends_ret. destruct (r_err (o n)) as [e|]; cbn [app option_map].
  { split; [done|]. split; [set_solver|by right]. }
  apply ends_or, ends_bind, ends_same; [apply same_ignore|]. intros _ s1 n1 c1 H1 K1.
  apply ends_bind, ends_locked, ends_bind, ends_getc, ends_ret. split; [done|]. rewrite H1, Hr. cbn [negb]. apply ends_ret.
  eapply ends_mono; [|apply dead_ends]. intros e s2 n2 h2 c2 [-> D]. split; [done|]. split; [set_solver|]. left. unfold dead_as in *. by rewrite H1 in D.
Qed.
(** What a failing start leaves of a container that is to be removed when it exits. *)
Definition auto_removed (known : bool) (code : Z) (msg : string) (s' : shared) (cs : list call) : Prop :=
  let st := ct_State (sh_c s') in
  let as_failed := Dead st = false ∧ ExitCodeValue st = code ∧ ErrorMsg st = msg in
  Running st = false ∧ RemovalInProgress st = false ∧
  if known then IsOSSupported ∈ cs ∧ (Dead st = true ∨ as_failed) else as_failed.
Lemma rm_ends o force n s : Running (ct_State (sh_c s)) = false → RemovalInProgress (ct_State (sh_c s)) = false → Dead (ct_State (sh_c s)) = false →
  ends o (ContainerRm force false) n false s (λ _ s' _ h cs, h = false ∧ ct_MountLabel (sh_c s') = ct_MountLabel (sh_c s) ∧
    auto_removed (sh_known s) (ExitCodeValue (ct_State (sh_c s))) (ErrorMsg (ct_State (sh_c s))) s' cs).
Proof.
  intros Hr Hp Hd. unfold ContainerRm, GetContainer, if_known, SetRemovalInProgress, ResetRemovalInProgress. apply ends_get.
  destruct (sh_known s) eqn:Hk; [|by apply ends_ret].
  apply ends_bind, ends_locked, ends_bind, ends_getc. rewrite Hp. apply ends_bind, ends_state, ends_ret. split; [done|].
  apply ends_bind, ends_get. cbn [sh_known on_c]. rewrite Hk. cbn [negb].
  eapply ends_mono; [|by apply cleanup_container_ends]. intros e s1 n1 h1 c1 (->&Hin&H1).
  apply ends_bind, ends_locked, ends_state. split; [done|]. apply ends_ret. split; [done|]. unfold auto_removed, dead_as in *. cbn.
  rewrite app_nil_r. destruct H1 as [(?&?&?)| ->]; cbn in *; split_and!; try done; try congruence; [by left|by right].
Qed.

Definition failed (s s' : shared) (err : error) (cs : list call) : Prop :=
  ct_MountLabel (sh_c s') = ct_MountLabel (sh_c s) ∧ ∃ code, code ≠ 0%Z ∧
  if AutoRemove (sh_c s) then auto_removed (sh_known s) code (error_text err) s' cs
  else kept s s' ∧ ExitCodeValue (ct_State (sh_c s')) = code ∧ ErrorMsg (ct_State (sh_c s')) = error_text err.
Lemma start_failed_ends o err n s : Running (ct_State (sh_c s)) = false → RemovalInProgress (ct_State (sh_c s)) = false → Dead (ct_State (sh_c s)) = false →
  ends o (start_failed err) n true s (λ _ s' _ h cs, h = true ∧ failed s s' err cs).
Proof.
  intros Hr Hp Hd. unfold start_failed. apply ends_bind, ends_state, ends_bind, ends_state.
  set (s2 := on_c _ (on_c _ s)).
  assert (ExitCodeValue (ct_State (sh_c s2)) ≠ 0%Z ∧ ErrorMsg (ct_State (sh_c s2)) = error_text err ∧ kept s s2) as (Hc&He&Hkept).
  { unfold s2, kept, idle. cbn. by destruct (Z.eqb_spec (ExitCodeValue (ct_State (sh_c s))) 0). }
  apply ends_bind, ends_same; [apply same_checkpoint|]. intros _ s3 n3 c3 H3 K3.
  apply ends_bind, ends_same; [apply same_ignore|]. intros _ s4 n4 c4 H4 K4.
  apply ends_bind, ends_same; [apply same_cleanup|]. intros _ s5 n5 c5 H5 K5.
  assert (sh_c s5 = sh_c s2) as E by congruence. assert (sh_known s5 = sh_known s2) as K by congruence. clear H3 K3 H4 K4 H5 K5.
  assert (kept s s5) as [Hl5 Hi5] by (unfold kept, idle in *; by rewrite E, K). pose proof Hi5 as Hi. injection Hi as I1 I2 I3 I4 I5 I6.
  apply ends_bind, ends_getc. unfold failed. rewrite I4. destruct (AutoRemove (sh_c s)).
  2:{ apply ends_ret. split; [done|]. split; [done|]. eexists; split; [exact Hc|]. unfold kept. by rewrite E. }
  apply ends_bind. exists (), s5, n5, false, []. split; [done|].
  apply ends_bind. eapply ends_mono; [|apply rm_ends; congruence]. intros _ s6 n6 h6 c6 (->&Hl6&H6).
  exists (), s6, n6, true, []. split; [done|]. split; [done|]. split; [congruence|]. exists (ExitCodeValue (ct_State (sh_c s5))). split; [by rewrite E|].
  rewrite E, He, I6 in H6. rewrite E. unfold auto_removed in *. cbn [app]. destruct H6 as (?&?&H6). split_and!; try done.
  destruct (sh_known s); [|done]. destruct H6 as [Hin H6]. split; [|done]. clear -Hin. set_solver.
Qed.
Lemma mount_ends o n s : ends o Mount n true s (λ e s' n' h cs, h = true ∧ kept s s' ∧
  (if mounts (sh_c s) (o n) then e = None else is_Some e) ∧
  (ct_RWLayer (sh_c s) = true → head cs = Some (LayerMount (ct_MountLabel (sh_c s)))) ∧
  (mounts (sh_c s) (o n) = true → cs = [LayerMount (ct_MountLabel (sh_c s))] ∧ n' = S n)).
Proof.
  unfold Mount, mounts. apply ends_bind, ends_getc. destruct (ct_RWLayer (sh_c s)) eqn:Hl; cbn [negb andb].
  2:{ apply ends_ret. by repeat split. }
  apply ends_call. destruct (r_err (o n)) as [e|].
  { apply ends_ret. rewrite (bool_decide_false (Some e = None)) by done. cbn. split_and!; [done|done|done|done|done]. }
  rewrite (bool_decide_true (None = None)) by done. cbn [andb].
  destruct (ct_BaseFS (sh_c s)) as [old|] eqn:Hb.
  - destruct (decide (old = r_str (o n))) as [Heq|Hne].
    + rewrite (bool_decide_true (old = _)) by done. cbn [negb]. apply ends_bind, ends_upd, ends_ret.
      rewrite (bool_decide_true (_ ∨ _)) by (right; congruence). by repeat split.
    + rewrite (bool_decide_false (old = _)) by done. cbn [negb]. apply ends_bind, ends_same; [apply same_unmount|]. intros _ s1 n1 c1 H1 K1.
      apply ends_ret. rewrite (bool_decide_false (_ ∨ _)) by (intros [?|?]; congruence). unfold kept, idle. by rewrite !H1, K1.
  - apply ends_bind, ends_upd, ends_ret. rewrite (bool_decide_true (_ ∨ _)) by by left. by repeat split.
Qed.

(** What a start leaves after the mount: [r] is the reply of the runtime to the start. *)
Definition started (s : shared) (r : reply) (s' : shared) (e : option error) : Prop :=
  match e with
  | None =>
      let st := ct_State (sh_c s') in
      r_err r = None ∧ Running st = true ∧ Paused st = false ∧ Restarting st = false ∧ Pid st = r_int r ∧ ExitCodeValue st = 0%Z ∧ ErrorMsg st = EmptyString ∧
      RestartCount (sh_c s') = 0%Z ∧ HasBeenStartedBefore (sh_c s') = true ∧ HasBeenManuallyStopped (sh_c s') = false
  | Some _ => idle s' = idle s
  end.
Lemma reset_ends o n s : ends o (ResetRestartManager true) n true s (λ _ s' n' h cs, n' = n ∧ h = true ∧ cs = [] ∧ kept s s' ∧ RestartCount (sh_c s') = 0%Z).
Proof.
  unfold ResetRestartManager. apply ends_bind, ends_getc, ends_bind.
  destruct (ct_restartManager (sh_c s)) as [r|]; [apply ends_upd|apply ends_ret]; apply ends_upd; by repeat split.
Qed.
Lemma start_rest_ends o n s :
  ends o (start_rest EmptyString true) n true s (λ e s' _ h _, h = true ∧ started s (o (5 + n)) s' e ∧ ct_MountLabel (sh_c s') = ct_MountLabel (sh_c s)).
Proof.
  unfold start_rest. apply ends_or, ends_do. destruct (r_err (o n)); [done|].
  apply ends_or, ends_bind, ends_do, ends_ret. destruct (r_err (o (S n))); [done|].
  apply ends_bind. eapply ends_mono; [|apply reset_ends]. intros [] s1 ? ? ? (->&->&->&[Hl1 Hi1]&Hc1). cbn [app].
  apply ends_bind, ends_do. rewrite (bool_decide_true (EmptyString = EmptyString)) by done. apply ends_bind, ends_ret.
  apply ends_or, ends_ret. cbn [r_err r_str]. apply ends_or, ends_do. destruct (r_err (o (S (S (S n))))); [cbn; split_and!; congruence|].
  apply ends_or, ends_bind, ends_do. destruct (r_err (o (S (S (S (S n)))))) as [e|].
  { eapply ends_mono; [|apply start_err_ends]. intros e' s2 ? h ? (->&->&[? ->]&[Hl2 Hi2]). cbn. split_and!; congruence. }
  apply ends_ret, ends_call. destruct (r_err (o (S (S (S (S (S n))))))) as [e|] eqn:Hst.
  { apply ends_bind, ends_same; [apply same_ignore|]. intros _ s2 n2 c2 H2 K2.
    eapply ends_mono; [|apply start_err_ends]. intros e' s3 ? h ? (->&->&[? ->]&[Hl3 Hi3]). cbn.
    assert (idle s2 = idle s1) by (unfold idle; by rewrite H2, K2). rewrite H2 in Hl3. split_and!; congruence. }
  apply ends_bind, ends_call, ends_ret, ends_bind, ends_state, ends_bind, ends_upd.
  apply ends_bind, ends_same; [intros ???; by eexists _, _, _, _|]. intros _ s2 n2 c2 H2 K2.
  apply ends_bind, ends_same; [apply same_ignore|]. intros _ s3 n3 c3 H3 K3.
  apply ends_bind, ends_same; [apply same_checkpoint|]. intros _ s4 n4 c4 H4 K4.
  apply ends_bind, ends_upd, ends_ret. rewrite H3, H2 in H4. cbn. rewrite H4. cbn. split_and!; congruence.
Qed.
Lemma start_body_ends o n s simp :
  ends o (start_body EmptyString true simp) n true s (λ e s' _ h cs, h = true ∧ started s (o (6 + n)) s' e ∧
    let label := if simp then ct_MountLabel (sh_c s) +:+ ",simp=on" else ct_MountLabel (sh_c s) in
    ct_MountLabel (sh_c s') = (if mounts (sh_c s) (o n) then ct_MountLabel (sh_c s) else label) ∧
    (ct_RWLayer (sh_c s) = true → head cs = Some (LayerMount label)) ∧ (e = None → mounts (sh_c s) (o n) = true)).
Proof.
  unfold start_body, conditionalMountOnStart. apply ends_bind, ends_getc, ends_or, ends_bind.
  set (label := if simp then ct_MountLabel (sh_c s) +:+ ",simp=on" else ct_MountLabel (sh_c s)).
  assert (∃ s1, ends o (if simp then upd (on_c (λ c, set_label (ct_MountLabel c +:+ ",simp=on") c)) else mret ()) n true s
    (λ _ s' n' h cs, s' = s1 ∧ n' = n ∧ h = true ∧ cs = []) ∧ ct_MountLabel (sh_c s1) = label ∧ mounts (sh_c s1) = mounts (sh_c s) ∧
      ct_RWLayer (sh_c s1) = ct_RWLayer (sh_c s) ∧ idle s1 = idle s) as (s1&Hs1&Hl1&Hm1&Hw1&Hi1).
  { unfold label. destruct simp; [eexists; split; [by apply ends_upd|done]|eexists; split; [by apply ends_ret|done]]. }
  eapply ends_mono; [|exact Hs1]. intros _ ? ? ? ? (->&->&->&->). clear Hs1.
  eapply ends_mono; [|apply mount_ends]. rewrite Hm1, Hw1, Hl1. intros e s2 n2 h cs (->&[Hl2 Hi2]&Hmnt&Hhead&Hcs). cbn [app].
  rewrite Hl1 in Hl2. rewrite Hi1 in Hi2.
  destruct (mounts (sh_c s) (o n)) eqn:Hmt; [subst e|].
  2:{ destruct Hmnt as [err ->]. split_and!; try done. }
  destruct (Hcs eq_refl) as [-> ->]. apply ends_bind, ends_upd.
  eapply ends_mono; [|apply start_rest_ends].
  intros e s3 n3 h cs (->&Hst&Hlab). split_and!; try done. destruct e; [|done]. cbn in *. unfold idle in *. cbn in *. congruence.
Qed.

(** What a start of a container that may be started leaves. *)
Definition start_post (o : nat → reply) (n : nat) (sh : shared) (simpString : string) (e : option error) (sh' : shared) (cs : list call) : Prop :=
  let c := sh_c sh in let st := ct_State (sh_c sh') in
  ct_MountLabel (sh_c sh') = (if mounts c (o n) then ct_MountLabel c else simp_label simpString (ct_MountLabel c)) ∧
  (ct_RWLayer c = true → head cs = Some (LayerMount (simp_label simpString (ct_MountLabel c)))) ∧
  match e with
  | None =>
      mounts c (o n) = true ∧ r_err (o (6 + n)) = None ∧ Running st = true ∧ Paused st = false ∧ Restarting st = false ∧ Pid st = r_int (o (6 + n)) ∧
      ExitCodeValue st = 0%Z ∧ ErrorMsg st = EmptyString ∧ RestartCount (sh_c sh') = 0%Z ∧ HasBeenManuallyStopped (sh_c sh') = false
  | Some err =>
      ∃ code, code ≠ 0%Z ∧
      if AutoRemove c then auto_removed (sh_known sh) code (error_text err) sh' cs
      else startable (sh_c sh') ∧ ct_RWLayer (sh_c sh') = ct_RWLayer c ∧ ExitCodeValue st = code ∧ ErrorMsg st = error_text err
  end.
Lemma start_ends o n sh simpString : Running (ct_State (sh_c sh)) = false → RemovalInProgress (ct_State (sh_c sh)) = false → Dead (ct_State (sh_c sh)) = false →
  ends o (containerStart EmptyString EmptyString true simpString) n false sh (λ e sh' n' h cs, h = false ∧ start_post o n sh simpString e sh' cs).
Proof.
  intros Hr Hp Hd. unfold containerStart. apply ends_locked.
  apply ends_bind, ends_getc. rewrite Hr, Hp, Hd. cbn [andb orb]. rewrite (bool_decide_true (EmptyString = EmptyString)) by done. cbn [negb].
  apply ends_bind. eapply ends_mono; [|apply start_body_ends]. intros e s1 n1 h cs (->&Hs1&Hl1&Hh1&Hm1).
  change (if bool_decide (simpString = "yes") then ct_MountLabel (sh_c sh) +:+ ",simp=on" else ct_MountLabel (sh_c sh)) with (simp_label simpString (ct_MountLabel (sh_c sh))) in *.
  assert (∀ cs2, ct_RWLayer (sh_c sh) = true → head (cs ++ cs2) = Some (LayerMount (simp_label simpString (ct_MountLabel (sh_c sh))))) as Hhead.
  { intros cs2 Hw. specialize (Hh1 Hw). by destruct cs. }
  apply ends_bind. destruct e as [err|].
  - cbn in Hs1. pose proof Hs1 as Hi. injection Hi as I1 I2 I3 I4 I5 I6.
    eapply ends_mono; [|apply start_failed_ends; congruence]. intros _ s2 n2 h cs2 (->&Hl2&code&Hc&Hf). apply ends_ret.
    split; [done|]. split; [done|]. unfold start_post. rewrite Hl2, Hl1. split; [done|]. split; [by apply Hhead|]. exists code. split; [done|].
    rewrite I4, I6 in Hf. rewrite app_nil_r. destruct (AutoRemove (sh_c sh)) eqn:Ha.
    + unfold auto_removed in *. destruct Hf as (?&?&Hf). split_and!; try done. destruct (sh_known sh); [|done]. destruct Hf as [Hin Hf]. split; [|done]. clear -Hin. set_solver.
    + destruct Hf as ([_ Hi2]&Hx&Hy). rewrite Hs1 in Hi2. injection Hi2 as E1 E2 E3 E4 E5 E6. split; [|done]. unfold startable. by rewrite E1, E2, E3, E4.
  - apply ends_ret, ends_ret. split; [done|]. split; [done|]. unfold start_post. split; [done|]. split; [by apply Hhead|].
    destruct Hs1 as (?&?&?&?&?&?&?&?&?&?). split_and!; auto.
Qed.


(** C35. The label of a simplified start that fails to mount stays: [containerStart] puts the
    label back only after the mount succeeded, so the next ordinary start of the container
    still mounts it with ",simp=on". *)
Theorem simp_label_leaks o n sh : startable (sh_c sh) → ct_RWLayer (sh_c sh) = true → is_Some (r_err (o n)) →
  ∃ err sh1 n1 cs1 e sh2 n2 cs2,
    alone o (containerStart EmptyString EmptyString true "yes") n false sh = Some (Some err, sh1, n1, false, cs1) ∧
    ct_MountLabel (sh_c sh1) = ct_MountLabel (sh_c sh) +:+ ",simp=on" ∧
    alone o (containerStart EmptyString EmptyString true EmptyString) n1 false sh1 = Some (e, sh2, n2, false, cs2) ∧
    head cs2 = Some (LayerMount (ct_MountLabel (sh_c sh) +:+ ",simp=on")).
Proof.
  intros (Hr&Hp&Hd&Ha) Hl [x Hx]. destruct (start_ends o n sh "yes" Hr Hp Hd) as (e1&sh1&n1&h1&cs1&Hal1&->&Hlab1&_&Hres).
  assert (mounts (sh_c sh) (o n) = false) as Hm by (unfold mounts; rewrite Hx, (bool_decide_false (Some x = None)) by done; by rewrite andb_false_r).
  rewrite Hm in *. destruct e1 as [err|]; [|by destruct Hres]. rewrite Ha in Hres. destruct Hres as (code&_&(Hr1&Hp1&Hd1&_)&Hl1&_).
  destruct (start_ends o n1 sh1 EmptyString Hr1 Hp1 Hd1) as (e2&sh2&n2&h2&cs2&Hal2&->&_&Hhead&_).
  exists err, sh1, n1, cs1, e2, sh2, n2, cs2. split_and!; [done|done|done|]. rewrite Hhead, Hlab1 by congruence. done.
Qed.

(** ** A container *)

Definition demo_ctr (st : State) (policy : RestartPolicy) : Ctr :=
  mkCtr "4f9d" st "/bin/sh" true None "context=x" 0 false false None EmptyString None false policy.
Definition demo_shared (st : State) (policy : RestartPolicy) : shared := mkShared (demo_ctr st policy) [] true None false [].
Definition always : RestartPolicy := mkPolicy "always" 0.
(** Calls that succeed; the process is 4711. *)
Definition fine : reply := mkReply None 4711 "/merged".
Definition ticks (t k : nat) : list move := replicate k (Run t fine).


(** The driver refuses the mount of the first start. *)
Definition refused (n : nat) : reply := match n with 0 => mkReply (Some (OsError EINVAL)) 0 EmptyString | _ => fine end.
Lemma simp_label_leaks_witness : ∃ err sh1 n1 cs1 e sh2 n2 cs2,
  alone refused (containerStart EmptyString EmptyString true "yes") 0 false (demo_shared NewState always) = Some (Some err, sh1, n1, false, cs1) ∧
  ct_MountLabel (sh_c sh1) = "context=x,simp=on" ∧
  alone refused (containerStart EmptyString EmptyString true EmptyString) n1 false sh1 = Some (e, sh2, n2, false, cs2) ∧
  head cs2 = Some (LayerMount "context=x,simp=on").
Proof. apply (simp_label_leaks refused 0 (demo_shared NewState always)); [by repeat split|done|by eexists]. Defined.

(** A container that restarts always is killed while it runs; its process exits. *)
Definition running_state : State := SetRunning 4711 true 100 NewState.
Definition kill_script : list move :=
  [Emit (EventExit 4711 137 (Some 200%Z) false None); Deliver] ++ ticks 0 60 ++ [Arrive RUnpause; Arrive (RRm false false)] ++ ticks 1 20 ++ ticks 2 60.
Lemma killed_not_restarted_witness : ∃ e sh' n' cs,
  alone (λ _, fine) (killWithSignal SIGKILL) 0 false (demo_shared running_state always) = Some (e, sh', n', false, cs) ∧
  RestartCount (sh_c (sy (run kill_script (with_waiters sh' [])))) = 0%Z.
Proof.
  destruct (killed_not_restarted (λ _, fine) 0 SIGKILL (demo_shared running_state always)) as (e&sh'&n'&cs&Hal&Hrun); [done|done|by left|].
  exists e, sh', n', cs. split; [exact Hal|]. vm_compute in Hal. injection Hal as <- <- <- <-.
  apply (Hrun [] kill_script).
  - by repeat constructor.
  - by repeat constructor.
  - vm_compute. repeat constructor; done.
  - by vm_compute.
Defined.

(** The same container without a kill: it is started, its process exits, the delay is over and
    it is started again; then the runtime reports that it was paused. *)
Definition life_script : list move :=
  [Arrive (RStart false EmptyString EmptyString EmptyString)] ++ ticks 1 60 ++ [Emit (EventStart 4711); Deliver] ++ ticks 0 10 ++
  [Emit (EventExit 4711 1 (Some 200%Z) false None); Deliver] ++ ticks 0 60 ++ ticks 2 60 ++ [Emit EventPaused; Deliver] ++ ticks 0 20.
Lemma life_invariant_witness :
  let s := run life_script (at_rest (demo_shared NewState always)) in let st := ct_State (sh_c (sy s)) in
  RestartCount (sh_c (sy s)) = 1%Z ∧ Paused st = true ∧ consistent st ∧ Running st = true ∧ Restarting st = false.
Proof.
  destruct (life_invariant (demo_shared NewState always) life_script) as [Hfree _].
  - by repeat split.
  - done.
  - vm_compute. repeat constructor; done.
  - repeat constructor; done.
  - destruct Hfree as [Hc Hp]; [by vm_compute|]. split; [by vm_compute|]. split; [by vm_compute|]. split; [exact Hc|].
    destruct Hp as [Hp|Hlate]; [by vm_compute|exact Hp|by vm_compute in Hlate].
Defined.

(** The event of a pause that comes after the exit of the process leaves a container that does
    not run and is paused: [ContainerStart] refuses to start it. *)
Definition late_script : list move :=
  [Emit (EventExit 4711 1 (Some 200%Z) false None); Deliver] ++ ticks 0 60 ++ [Emit EventPaused; Deliver] ++ ticks 0 20.
Example late_pause_refuses_start :
  let s := run late_script (at_rest (demo_shared running_state (mkPolicy "no" 0))) in let st := ct_State (sh_c (sy s)) in
  late_pause late_script (at_rest (demo_shared running_state (mkPolicy "no" 0))) = true ∧ Paused st = true ∧ Running st = false ∧
  ∃ r, alone (λ _, fine) (ContainerStart false EmptyString EmptyString EmptyString) 0 false (sy s) =
    Some (Some (Conflict "cannot start a paused container, try unpause instead"), r, 0, false, []).
Proof. split_and!; [by vm_compute..|]. eexists. by vm_compute. Qed.
