(* ===== verification/FileSys.v ===== *)
(** * The file operations of Go's [os] and [ioutil], and the atomic writers

    Directory trees with explicit I/O faults, the operations of packages [os]
    and [io/ioutil] that the image and layer stores call, and
    [src/engine/pkg/ioutils/fswriters.go] on top of them. *)

From stdpp Require Import stringmap.
From S2P Require Import Prelude.

(** A cleaned absolute path, as its list of components. *)
Abbreviation path := (list string).

Inductive node :=
| Dir
| File (data : string)
| Symlink (target : string).

#[export] Instance node_eq_dec : EqDecision node.
Proof. solve_decision. Defined.

(** What the next system call does: [FailAt n] makes it fail with [EIO], a
    write after having stored its first [n] bytes. *)
Inductive fault := NoFault | FailAt (n : nat).

Record FS := mkFS { nodes : gmap path node; faults : list fault }.

Definition set_nodes (t : gmap path node) (s : FS) : FS :=
  mkFS t (faults s).

Definition node_at (t : gmap path node) (p : path) : option node :=
  match p with [] => Some Dir | _ => t !! p end.

Definition is_dir (t : gmap path node) (p : path) : bool :=
  match node_at t p with Some Dir => true | _ => false end.

Definition parent_dir (p : path) : path := removelast p.
Definition base_name (p : path) : string := default EmptyString (last p).

(** One system call: the head of [faults] decides whether it fails. *)
Definition syscall {A} (f : gmap path node → outcome A * gmap path node) : M FS A :=
  λ s, match faults s with
       | FailAt _ :: fs => (Err (OsError EIO), mkFS (nodes s) fs)
       | NoFault :: fs => let '(r, t) := f (nodes s) in (r, mkFS t fs)
       | [] => let '(r, t) := f (nodes s) in (r, mkFS t [])
       end.

Module Os.
Definition Stat (p : path) : M FS node := syscall (λ t,
  match node_at t p with
  | Some n => (Ok n, t)
  | None => (Err (OsError ENOENT), t)
  end).

Definition ReadFile (p : path) : M FS string := syscall (λ t,
  match node_at t p with
  | Some (File d) => (Ok d, t)
  | Some Dir => (Err (OsError EISDIR), t)
  | Some (Symlink _) => (Err (OsError ENOENT), t)
  | None => (Err (OsError ENOENT), t)
  end).

(** [os.OpenFile] for writing with [O_CREATE|O_TRUNC]. *)
Definition OpenTrunc (p : path) : M FS () := syscall (λ t,
  if is_dir t p then (Err (OsError EISDIR), t)
  else if is_dir t (parent_dir p) then (Ok tt, <[p := File EmptyString]> t)
  else (Err (OsError ENOENT), t)).

(** [f.Write]: the number of bytes stored and the error, as in Go. *)
Definition Write (p : path) (data : string) : M FS (nat * option error) :=
  λ s,
    let append d t :=
      match t !! p with
      | Some (File old) => <[p := File (old +:+ d)]> t
      | _ => t
      end in
    match faults s with
    | FailAt n :: fs =>
        let d := GoString.take n data in
        (Ok (String.length d, Some (OsError EIO)), mkFS (append d (nodes s)) fs)
    | NoFault :: fs => (Ok (String.length data, None), mkFS (append data (nodes s)) fs)
    | [] => (Ok (String.length data, None), mkFS (append data (nodes s)) [])
    end.

Definition Sync (p : path) : M FS () := syscall (λ t, (Ok tt, t)).
Definition Close (p : path) : M FS () := syscall (λ t, (Ok tt, t)).
Definition Chmod (p : path) : M FS () := syscall (λ t, (Ok tt, t)).

(** [ioutil.WriteFile]. *)
Definition WriteFile (p : path) (data : string) : M FS () :=
  _ ← OpenTrunc p;
  '(n, err) ← Write p data;
  let err := match err with
             | None => if n <? String.length data
                       then Some (Sentinel "io.ErrShortWrite") else None
             | e => e
             end in
  err1 ← attempt (Close p);
  match err, err1 with
  | Some e, _ => fail e
  | None, inl e => fail e
  | None, inr _ => mret tt
  end.

Definition Mkdir (p : path) : M FS () := syscall (λ t,
  match node_at t p with
  | Some _ => (Err (OsError EEXIST), t)
  | None => if is_dir t (parent_dir p) then (Ok tt, <[p := Dir]> t)
            else (Err (OsError ENOENT), t)
  end).

(** The directories [os.MkdirAll] creates, from the top down. *)
Fixpoint mkdirs (t : gmap path node) (pre todo : path) : outcome () * gmap path node :=
  match todo with
  | [] => (Ok tt, t)
  | c :: todo =>
      let p := pre ++ [c] in
      match node_at t p with
      | Some Dir => mkdirs t p todo
      | Some _ => (Err (OsError ENOTDIR), t)
      | None => mkdirs (<[p := Dir]> t) p todo
      end
  end.
Definition MkdirAll (p : path) : M FS () := syscall (λ t, mkdirs t [] p).

Definition below (p q : path) : bool := bool_decide (p `prefix_of` q).

Definition RemoveAll (p : path) : M FS () := syscall (λ t,
  (Ok tt, filter (λ kv, below p kv.1 = false) t)).

Definition has_children (t : gmap path node) (p : path) : bool :=
  bool_decide (filter (λ kv, below p kv.1 = true ∧ kv.1 ≠ p) t ≠ ∅).

Definition Remove (p : path) : M FS () := syscall (λ t,
  match t !! p with
  | None => (Err (OsError ENOENT), t)
  | Some Dir => if has_children t p then (Err (OsError ENOTEMPTY), t)
                else (Ok tt, delete p t)
  | Some _ => (Ok tt, delete p t)
  end).

(** The nodes strictly or loosely below [p], keyed relative to [p]. *)
Definition strip {A} (p : path) (t : gmap path A) : gmap path A :=
  list_to_map (omap (λ '(q, n),
    if below p q then Some (drop (length p) q, n) else None) (map_to_list t)).

Definition move_tree (old new : path) (t : gmap path node) : gmap path node :=
  kmap (app new) (strip old t) ∪ filter (λ kv, below old kv.1 = false) t.

(** [os.Rename]: a directory as the new name is refused. *)
Definition Rename (old new : path) : M FS () := syscall (λ t,
  match node_at t new, t !! old with
  | Some Dir, _ => (Err (OsError EEXIST), t)
  | _, None => (Err (OsError ENOENT), t)
  | Some _, Some Dir => (Err (OsError ENOTDIR), t)
  | _, Some _ =>
      if below old new then (Err (OsError EINVAL), t)
      else if is_dir t (parent_dir new) then (Ok tt, move_tree old new t)
      else (Err (OsError ENOENT), t)
  end).

Definition child_of (p : path) (q : path) : bool :=
  bool_decide (q ≠ [] ∧ parent_dir q = p).

Definition name_le (a b : string * bool) : Prop := String.leb a.1 b.1 = true.
#[export] Instance name_le_dec : RelDecision name_le.
Proof. intros a b. unfold name_le. apply _. Defined.

(** [ioutil.ReadDir]: the entries of a directory sorted by name, each with
    whether it is a directory. *)
Definition entries (t : gmap path node) (p : path) : list (string * bool) :=
  merge_sort name_le
    ((λ '(q, n), (base_name q, bool_decide (n = Dir)))
       <$> map_to_list (filter (λ kv, child_of p kv.1 = true) t)).
Definition ReadDir (p : path) : M FS (list (string * bool)) := syscall (λ t,
  match node_at t p with
  | Some Dir => (Ok (entries t p), t)
  | Some _ => (Err (OsError ENOTDIR), t)
  | None => (Err (OsError ENOENT), t)
  end).

(** A name starting with [pre] that [dir] does not hold, as
    [ioutil.TempFile] and [ioutil.TempDir] pick one. *)
Definition temp_name (t : gmap path node) (dir : path) (pre : string) : string :=
  fresh_string_of_set pre
    (list_to_set (base_name <$> (map_to_list (filter (λ kv, child_of dir kv.1 = true) t)).*1)).

Definition TempFile (dir : path) (pre : string) : M FS path := syscall (λ t,
  if is_dir t dir then
    let p := dir ++ [temp_name t dir pre] in (Ok p, <[p := File EmptyString]> t)
  else (Err (OsError ENOENT), t)).

Definition TempDir (dir : path) (pre : string) : M FS path := syscall (λ t,
  if is_dir t dir then
    let p := dir ++ [temp_name t dir pre] in (Ok p, <[p := Dir]> t)
  else (Err (OsError ENOENT), t)).

Definition IsNotExist (e : error) : bool := bool_decide (e = OsError ENOENT).
End Os.

(** ** [pkg/ioutils/fswriters.go] *)

Module Ioutils.
Record atomicFileWriter := {
  f : path;
  fn : path;
  writeErr : option error;
}.

Definition NewAtomicFileWriter (filename : path) : M FS atomicFileWriter :=
  f ← Os.TempFile (parent_dir filename) (".tmp-" +:+ base_name filename);
  mret {| f := f; fn := filename; writeErr := None |}.

(** [Write] returns the writer as well: it records its error there. *)
Definition afw_Write (w : atomicFileWriter) (dt : string)
    : M FS (nat * option error * atomicFileWriter) :=
  '(n, err) ← Os.Write (f w) dt;
  let w' := match err with
            | Some e => {| f := f w; fn := fn w; writeErr := Some e |}
            | None => w
            end in
  mret (n, err, w').

Definition afw_Close_body (w : atomicFileWriter) : M FS () :=
  r ← attempt (Os.Sync (f w));
  match r with
  | inl e => _ ← ignore_err (Os.Close (f w)); fail e
  | inr _ =>
      _ ← Os.Close (f w);
      _ ← Os.Chmod (f w);
      match writeErr w with
      | None => Os.Rename (f w) (fn w)
      | Some _ => mret tt
      end
  end.

(** The deferred function removes the temporary file when [Close] fails or a
    write failed before. *)
Definition afw_Close (w : atomicFileWriter) : M FS () :=
  retErr ← attempt (afw_Close_body w);
  match retErr, writeErr w with
  | inl e, _ => _ ← ignore_err (Os.Remove (f w)); fail e
  | inr _, Some _ => ignore_err (Os.Remove (f w))
  | inr _, None => mret tt
  end.

Definition AtomicWriteFile (filename : path) (data : string) : M FS () :=
  w ← NewAtomicFileWriter filename;
  '(n, err, w) ← afw_Write w data;
  let '(err, w) :=
    match err with
    | None => if n <? String.length data then
                let e := Sentinel "io.ErrShortWrite" in
                (Some e, {| f := f w; fn := fn w; writeErr := Some e |})
              else (None, w)
    | Some e => (Some e, w)
    end in
  err1 ← attempt (afw_Close w);
  match err, err1 with
  | Some e, _ => fail e
  | None, inl e => fail e
  | None, inr _ => mret tt
  end.

(** [AtomicWriteSet]: the temporary directory the files are written to. *)
Record AtomicWriteSet := { ws_root : path }.

Definition NewAtomicWriteSet (tmpDir : path) : M FS AtomicWriteSet :=
  td ← Os.TempDir tmpDir "write-set-";
  mret {| ws_root := td |}.

Definition ws_FileWriter (ws : AtomicWriteSet) (name : string) : M FS path :=
  let p := ws_root ws ++ [name] in
  _ ← Os.OpenTrunc p; mret p.

(** [syncFileCloser.Close]. *)
Definition sync_Close (p : path) : M FS () :=
  err ← attempt (Os.Sync p);
  err1 ← attempt (Os.Close p);
  match err, err1 with
  | inl e, _ => fail e
  | inr _, inl e => fail e
  | inr _, inr _ => mret tt
  end.

Definition ws_WriteFile (ws : AtomicWriteSet) (filename : string) (data : string) : M FS () :=
  f ← ws_FileWriter ws filename;
  '(n, err) ← Os.Write f data;
  let err := match err with
             | None => if n <? String.length data
                       then Some (Sentinel "io.ErrShortWrite") else None
             | e => e
             end in
  err1 ← attempt (sync_Close f);
  match err, err1 with
  | Some e, _ => fail e
  | None, inl e => fail e
  | None, inr _ => mret tt
  end.

Definition ws_Cancel (ws : AtomicWriteSet) : M FS () := Os.RemoveAll (ws_root ws).
Definition ws_Commit (ws : AtomicWriteSet) (target : path) : M FS () :=
  Os.Rename (ws_root ws) target.
End Ioutils.

(** ** Well-formed trees *)

(** Every node hangs below a directory, and the root is not stored. *)
Definition wf_tree (t : gmap path node) : Prop :=
  ∀ p n, t !! p = Some n → p ≠ [] ∧ is_dir t (parent_dir p) = true.

Section Trees.
Implicit Types (t : gmap path node) (p q r : path).

Lemma parent_dir_snoc p c : parent_dir (p ++ [c]) = p.
Proof. apply removelast_last. Qed.

Lemma base_name_snoc p c : base_name (p ++ [c]) = c.
Proof. unfold base_name. by rewrite last_snoc. Qed.

Lemma parent_base p : p ≠ [] → p = parent_dir p ++ [base_name p].
Proof.
  destruct p as [|c p _] using rev_ind; [done|]. intros _.
  by rewrite parent_dir_snoc, base_name_snoc.
Qed.

Lemma node_at_ne t p : p ≠ [] → node_at t p = t !! p.
Proof. by destruct p. Qed.

Lemma is_dir_Some t p : p ≠ [] → is_dir t p = true ↔ t !! p = Some Dir.
Proof.
  intros Hp. unfold is_dir. rewrite node_at_ne by done.
  destruct (t !! p) as [[]|]; naive_solver.
Qed.

Lemma below_spec p q : Os.below p q = true ↔ p `prefix_of` q.
Proof. apply bool_decide_eq_true. Qed.
Lemma not_below_spec p q : Os.below p q = false ↔ ¬ p `prefix_of` q.
Proof. apply bool_decide_eq_false. Qed.

(** Nothing hangs below a path that is not a directory. *)
Lemma wf_tree_below t p r :
  wf_tree t → p ≠ [] → t !! p ≠ Some Dir → r ≠ [] → t !! (p ++ r) = None.
Proof.
  intros Hwf Hp Hd. induction r as [|c r IH] using rev_ind; [done|]. intros _.
  rewrite app_assoc. destruct (t !! ((p ++ r) ++ [c])) as [n|] eqn:Hn; [|done].
  destruct (Hwf _ _ Hn) as [_ Hpar]. rewrite parent_dir_snoc in Hpar.
  apply is_dir_Some in Hpar; [|by destruct p].
  destruct r as [|c' r']; [by rewrite app_nil_r in Hpar|].
  by rewrite IH in Hpar.
Qed.

Lemma wf_tree_insert t p n :
  wf_tree t → p ≠ [] → is_dir t (parent_dir p) = true →
  (n = Dir ∨ t !! p ≠ Some Dir) → wf_tree (<[p:=n]> t).
Proof.
  intros Hwf Hp Hpar Hn q m. rewrite lookup_insert.
  assert (∀ d, is_dir t d = true → is_dir (<[p:=n]> t) d = true) as Hdir.
  { intros d Hd. destruct d as [|c d]; [done|].
    apply is_dir_Some in Hd; [|done]. apply is_dir_Some; [done|].
    rewrite lookup_insert. case_decide as Heq; [|done]. subst. by destruct Hn as [->|]. }
  case_decide as Heq.
  - subst. intros _. auto.
  - intros Hq. destruct (Hwf _ _ Hq). auto.
Qed.

Lemma wf_tree_delete t p :
  wf_tree t → Os.has_children t p = false → wf_tree (delete p t).
Proof.
  intros Hwf Hch q m. rewrite lookup_delete. case_decide as Heq; [done|]. intros Hq.
  destruct (Hwf _ _ Hq) as [Hne Hpar]. split; [done|].
  destruct (decide (parent_dir q = p)) as [Hpq|Hpq].
  - exfalso. unfold Os.has_children in Hch. apply bool_decide_eq_false in Hch.
    apply dec_stable in Hch. rewrite map_empty_filter in Hch.
    apply (Hch q m Hq). simpl. rewrite below_spec. split; [|done].
    rewrite (parent_base q Hne), Hpq. by exists [base_name q].
  - destruct (parent_dir q) as [|c d] eqn:Hd; [done|].
    apply is_dir_Some in Hpar; [|done]. apply is_dir_Some; [done|].
    by rewrite lookup_delete_ne.
Qed.

Lemma has_children_file t p n :
  wf_tree t → t !! p = Some n → n ≠ Dir → Os.has_children t p = false.
Proof.
  intros Hwf Hp Hn. apply bool_decide_eq_false. intros Hch. apply Hch.
  apply map_empty_filter. intros q m Hq. simpl. intros [[r ->]%below_spec Hne].
  destruct (Hwf _ _ Hp) as [Hpne _].
  rewrite wf_tree_below in Hq; [done|done|done|congruence|].
  intros ->. by rewrite app_nil_r in Hne.
Qed.

Lemma lookup_strip {A} p (t : gmap path A) r : Os.strip p t !! r = t !! (p ++ r).
Proof.
  unfold Os.strip. apply option_eq. intros n. rewrite <-elem_of_list_to_map.
  - rewrite list_elem_of_omap. split.
    + intros ([q m]&Hin%elem_of_map_to_list&Hq).
      destruct (Os.below p q) eqn:Hb; [|done]. apply below_spec in Hb as [r' ->].
      rewrite drop_app_length in Hq. by simplify_eq.
    + intros Hn. exists (p ++ r, n). rewrite elem_of_map_to_list. split; [done|].
      rewrite (proj2 (below_spec p (p ++ r))) by (by exists r).
      by rewrite drop_app_length.
  - rewrite list_fmap_omap.
    set (g := λ q, if Os.below p q then Some (drop (length p) q) else None).
    replace (omap _ (map_to_list t)) with (omap g (map_to_list t).*1).
    + assert (NoDup (map_to_list t).*1) as Hnd by apply NoDup_fst_map_to_list.
      induction Hnd as [|q l Hq Hnd IH]; [constructor|]. simpl.
      destruct (g q) as [r'|] eqn:Hg; [|done]. constructor; [|done].
      rewrite list_elem_of_omap. intros (q'&Hq'&Hg').
      unfold g in Hg, Hg'. destruct (Os.below p q) eqn:Hb; [|done].
      destruct (Os.below p q') eqn:Hb'; [|done].
      apply below_spec in Hb as [k ->]. apply below_spec in Hb' as [k' ->].
      rewrite !drop_app_length in *. by simplify_eq.
    + induction (map_to_list t) as [|[q m] l IH]; [done|]. simpl. unfold g at 1.
      destruct (Os.below p q); simpl; [f_equal|]; apply IH.
Qed.

Lemma lookup_move_tree_new old new t r n :
  t !! (old ++ r) = Some n → Os.move_tree old new t !! (new ++ r) = Some n.
Proof.
  intros Hn. unfold Os.move_tree. apply lookup_union_Some_l.
  by rewrite (lookup_kmap (app new)), lookup_strip.
Qed.

Lemma lookup_move_tree_other old new t q :
  ¬ new `prefix_of` q →
  Os.move_tree old new t !! q = if Os.below old q then None else t !! q.
Proof.
  intros Hq. unfold Os.move_tree. rewrite lookup_union_r.
  - rewrite map_lookup_filter. destruct (t !! q) as [n|]; simpl; [|by case_match].
    destruct (Os.below old q) eqn:Hb; simpl; by rewrite ?option_guard_True, ?option_guard_False.
  - apply (lookup_kmap_None (app new)). intros r ->. destruct Hq. by exists r.
Qed.
End Trees.

(** ** Triples about the tree alone *)

Definition ttriple {A : Type} (P : gmap path node → Prop) (m : M FS A)
    (Q : A → gmap path node → Prop) (E : error → gmap path node → Prop) : Prop :=
  triple (λ s, P (nodes s)) m (λ a s, Q a (nodes s)) (λ e s, E e (nodes s)).

Section TreeTriples.
Implicit Types P : gmap path node → Prop.

(** A system call meets its specification for every fault schedule when it
    meets it on the tree and a spurious [EIO] is acceptable. *)
Lemma ttriple_syscall {A : Type} P (g : gmap path node → outcome A * gmap path node) Q E :
  (∀ t, P t → E (OsError EIO) t) →
  (∀ t, P t → match g t with
              | (Ok a, t') => Q a t'
              | (Err e, t') => E e t'
              | (Panic _, _) => False
              end) →
  ttriple P (syscall g) Q E.
Proof.
  intros HE HQ s Hs. unfold syscall. specialize (HQ _ Hs).
  destruct (faults s) as [|[|n] fs]; simpl; [..|by apply HE];
    by destruct (g (nodes s)) as [[a|e|p] t].
Qed.

Lemma ttriple_write P (p : path) (data : string) (Q : nat * option error → gmap path node → Prop) E :
  (∀ t, P t → ∃ old, t !! p = Some (File old) ∧
     Q (String.length data, None) (<[p:=File (old +:+ data)]> t) ∧
     ∀ n, Q (String.length (GoString.take n data), Some (OsError EIO))
            (<[p:=File (old +:+ GoString.take n data)]> t)) →
  ttriple P (Os.Write p data) Q E.
Proof.
  intros H s Hs. destruct (H _ Hs) as (old&Hp&HQ&HF). unfold Os.Write.
  destruct (faults s) as [|[|n] fs]; simpl; rewrite Hp; [done..|apply HF].
Qed.

Lemma ttriple_attempt {A : Type} P (m : M FS A) (Q : error + A → gmap path node → Prop) E :
  ttriple P m (λ a, Q (inr a)) (λ e, Q (inl e)) → ttriple P (attempt m) Q E.
Proof. intros Hm. eapply triple_attempt; [exact Hm|]. auto. Qed.

Lemma ttriple_ignore {A : Type} P (m : M FS A) (Q : () → gmap path node → Prop) E :
  ttriple P m (λ _, Q tt) (λ _, Q tt) → ttriple P (ignore_err m) Q E.
Proof. intros Hm. apply (triple_ignore _ _ (λ a s, Q a (nodes s))). exact Hm. Qed.

Lemma ttriple_bind {A B : Type} P (m : M FS A) (g : A → M FS B) R Q E :
  ttriple P m R E → (∀ a, ttriple (R a) (g a) Q E) → ttriple P (m ≫= g) Q E.
Proof. intros Hm Hg. eapply triple_bind; [exact Hm|]. intros a. exact (Hg a). Qed.

Lemma ttriple_ret {A : Type} P (a : A) (Q : A → gmap path node → Prop) E :
  (∀ t, P t → Q a t) → ttriple P (mret a) Q E.
Proof. intros H. by apply triple_ret; intros s; apply H. Qed.

Lemma ttriple_fail {A : Type} P (e : error) (Q : A → gmap path node → Prop) (E : error → gmap path node → Prop) :
  (∀ t, P t → E e t) → ttriple P (fail e) Q E.
Proof. intros H. by apply triple_fail; intros s; apply H. Qed.

Lemma ttriple_conseq {A : Type} P P' (m : M FS A) (Q Q' : A → gmap path node → Prop) (E E' : error → gmap path node → Prop) :
  ttriple P' m Q' E' →
  (∀ t, P t → P' t) → (∀ a t, Q' a t → Q a t) → (∀ e t, E' e t → E e t) →
  ttriple P m Q E.
Proof. intros Hm HP HQ HE. eapply triple_conseq; [exact Hm|..]; simpl; auto. Qed.

Lemma ttriple_pure {A : Type} (φ : Prop) P (m : M FS A) (Q : A → gmap path node → Prop)
    (E : error → gmap path node → Prop) :
  (φ → ttriple P m Q E) → ttriple (λ t, φ ∧ P t) m Q E.
Proof. intros H s [Hφ Hs]. by apply H. Qed.

Lemma ttriple_ex {A B : Type} (P : B → gmap path node → Prop) (m : M FS A)
    (Q : A → gmap path node → Prop) (E : error → gmap path node → Prop) :
  (∀ b, ttriple (P b) m Q E) → ttriple (λ t, ∃ b, P b t) m Q E.
Proof. intros H s [b Hs]. by apply (H b). Qed.
End TreeTriples.

(** ** Atomic replacement of a file *)

Section AtomicWrite.
Implicit Types (t : gmap path node) (p q : path).

Lemma fresh_string_extends {A : Type} (s : string) (m : stringmap A) :
  String.length s ≤ String.length (fresh_string s m).
Proof.
  unfold fresh_string. destruct (m !! s) as [a|]; [|done].
  generalize 0%N (wf_guard 32 (fresh_string_R_wf s m) 0%N).
  fix FIX 2. intros n [acc]. simpl. unfold fresh_string_go at 1. simpl.
  destruct (Some_dec (m !! (s +:+ pretty n))) as [[x Hx]|_]; [apply FIX|].
  rewrite str_length_app. lia.
Qed.

Lemma temp_name_length t (dir : path) (pre : string) :
  String.length pre ≤ String.length (Os.temp_name t dir pre).
Proof. apply fresh_string_extends. Qed.

Lemma temp_name_fresh t (dir : path) (pre : string) : t !! (dir ++ [Os.temp_name t dir pre]) = None.
Proof.
  destruct (t !! _) as [n|] eqn:Hn; [|done]. exfalso.
  apply (fresh_string_of_set_fresh
    (list_to_set (base_name <$> (map_to_list (filter (λ kv, Os.child_of dir kv.1 = true) t)).*1)) pre).
  fold (Os.temp_name t dir pre). apply elem_of_list_to_set.
  apply list_elem_of_fmap. exists (dir ++ [Os.temp_name t dir pre]).
  split; [by rewrite base_name_snoc|]. apply list_elem_of_fmap.
  eexists (_, n). split; [done|]. apply elem_of_map_to_list, map_lookup_filter_Some.
  split; [done|]. apply bool_decide_eq_true. simpl. rewrite parent_dir_snoc.
  split; [by destruct dir|done].
Qed.

(** The temporary path [AtomicWriteFile] uses. *)
Definition tmp_path t (filename : path) : path :=
  parent_dir filename ++
    [Os.temp_name t (parent_dir filename) (".tmp-" +:+ base_name filename)].

Lemma tmp_path_ne t filename : filename ≠ [] → tmp_path t filename ≠ filename.
Proof.
  intros Hne Heq. apply (f_equal base_name) in Heq. unfold tmp_path in Heq.
  rewrite base_name_snoc in Heq.
  pose proof (temp_name_length t (parent_dir filename) (".tmp-" +:+ base_name filename)) as Hlen.
  rewrite Heq, str_length_app in Hlen. simpl in Hlen. lia.
Qed.

(** Renaming a fresh file over a path replaces exactly that path. *)
Lemma move_file t (tmp : path) p (d : string) :
  wf_tree t → tmp ≠ [] → p ≠ [] → tmp ≠ p → t !! tmp = None → t !! p ≠ Some Dir →
  Os.move_tree tmp p (<[tmp:=File d]> t) = <[p:=File d]> t.
Proof.
  intros Hwf Htmp Hp Hne Hnone Hdir. apply map_eq. intros q.
  assert (∀ r, r ≠ [] → t !! (tmp ++ r) = None) as Hbt
    by (intros r Hr; apply wf_tree_below; naive_solver).
  assert (∀ r, r ≠ [] → t !! (p ++ r) = None) as Hbp
    by (intros r Hr; by apply wf_tree_below).
  destruct (decide (p `prefix_of` q)) as [[[|c r] ->]|Hpq].
  - pose proof (lookup_move_tree_new tmp p (<[tmp:=File d]> t) [] (File d)) as Hmv.
    rewrite !app_nil_r in *. rewrite lookup_insert_eq. apply Hmv, lookup_insert_eq.
  - rewrite lookup_insert_ne, Hbp by (done || intros [=Heq]%(f_equal length); rewrite length_app in Heq; simpl in Heq; lia).
    unfold Os.move_tree. apply lookup_union_None. split.
    + rewrite (lookup_kmap (app p)), lookup_strip, lookup_insert_ne; [by apply Hbt|].
      intros Heq%(f_equal length). rewrite length_app in Heq. simpl in Heq. lia.
    + apply map_lookup_filter_None. destruct (decide (tmp = p ++ c :: r)) as [->|Htq].
      * right. intros n _. simpl. by rewrite (proj2 (below_spec _ _)).
      * left. by rewrite lookup_insert_ne, Hbp.
  - rewrite lookup_move_tree_other by done.
    rewrite (lookup_insert_ne t p q) by (intros <-; by destruct Hpq).
    destruct (Os.below tmp q) eqn:Hb; [|by rewrite lookup_insert_ne by (intros <-; apply not_below_spec in Hb; by destruct Hb)].
    apply below_spec in Hb as [[|c r] ->]; [by rewrite app_nil_r|by rewrite Hbt].
Qed.
End AtomicWrite.

Section AtomicWriteFile.
Context (t : gmap path node) (filename : path) (data : string).
Hypothesis Hwf : wf_tree t.
Hypothesis Hfn : filename ≠ [].

Local Abbreviation tmp := (tmp_path t filename).

(** The tree is as before, up to an abandoned temporary file. *)
Definition leftover (t' : gmap path node) : Prop :=
  t' = t ∨ ∃ junk, t' = <[tmp := File junk]> t.

Lemma tmp_fresh : t !! tmp = None.
Proof. apply temp_name_fresh. Qed.

Lemma tmp_not_root : tmp ≠ [].
Proof. unfold tmp_path. by destruct (parent_dir filename). Qed.

Lemma remove_tmp_leftover junk :
  ttriple (λ t', t' = <[tmp := File junk]> t) (Os.Remove tmp)
    (λ _, leftover) (λ _, leftover).
Proof.
  apply ttriple_syscall; [by intros ? ->; right; eexists|].
  intros t' ->. rewrite lookup_insert_eq. left. apply delete_insert_id, tmp_fresh.
Qed.

Lemma close_body_spec (w : Ioutils.atomicFileWriter) d :
  Ioutils.f w = tmp → Ioutils.fn w = filename →
  ttriple (λ t', t' = <[tmp := File d]> t) (Ioutils.afw_Close_body w)
    (λ _ t', match Ioutils.writeErr w with
             | None => t' = <[filename := File d]> t
             | Some _ => t' = <[tmp := File d]> t
             end)
    (λ _ t', t' = <[tmp := File d]> t).
Proof.
  intros Hf Hn. unfold Ioutils.afw_Close_body. rewrite Hf, Hn.
  assert (∀ (g : path → M FS ()) E, (g = Os.Sync ∨ g = Os.Close ∨ g = Os.Chmod) →
    (∀ t', t' = <[tmp := File d]> t → E (OsError EIO) t') →
    ttriple (λ t', t' = <[tmp := File d]> t) (g tmp) (λ _ t', t' = <[tmp := File d]> t) E) as Hnop.
  { intros g E [->|[->| ->]] HE; (apply ttriple_syscall; [exact HE|by intros ? ->]). }
  apply (ttriple_bind _ _ _ (λ _ t', t' = <[tmp := File d]> t));
    [by apply ttriple_attempt, Hnop; auto|].
  intros [e|[]]; cbn beta.
  - apply (ttriple_bind _ _ _ (λ _ t', t' = <[tmp := File d]> t));
      [by apply ttriple_ignore, Hnop; auto|intros []; by apply ttriple_fail].
  - eapply ttriple_bind; [by apply Hnop; auto|]. intros [].
    eapply ttriple_bind; [by apply Hnop; auto|]. intros [].
    destruct (Ioutils.writeErr w); [by apply ttriple_ret|].
    apply ttriple_syscall; [done|]. intros t' ->.
    assert (node_at (<[tmp:=File d]> t) filename = t !! filename) as ->.
    { rewrite node_at_ne by done. apply lookup_insert_ne, tmp_path_ne, Hfn. }
    rewrite lookup_insert_eq.
    destruct (t !! filename) as [[| |]|] eqn:Hx; try done;
      (destruct (Os.below tmp filename); [done|]; destruct (is_dir _ _); [|done];
       apply move_file; auto using tmp_not_root, tmp_path_ne, tmp_fresh; congruence).
Qed.

Lemma close_spec (w : Ioutils.atomicFileWriter) d :
  Ioutils.f w = tmp → Ioutils.fn w = filename →
  ttriple (λ t', t' = <[tmp := File d]> t) (Ioutils.afw_Close w)
    (λ _ t', match Ioutils.writeErr w with
             | None => t' = <[filename := File d]> t
             | Some _ => leftover t'
             end)
    (λ _, leftover).
Proof.
  intros Hf Hn. unfold Ioutils.afw_Close.
  apply (ttriple_bind _ _ _ (λ r t',
    match r, Ioutils.writeErr w with
    | inr _, None => t' = <[filename := File d]> t
    | _, _ => t' = <[tmp := File d]> t
    end)).
  { by apply ttriple_attempt, close_body_spec. }
  rewrite Hf. intros [e|[]]; cbn beta iota.
  - apply (ttriple_bind _ _ _ (λ _, leftover)); [|intros []; by apply ttriple_fail].
    apply ttriple_ignore, remove_tmp_leftover.
  - destruct (Ioutils.writeErr w); [|by apply ttriple_ret].
    apply ttriple_ignore, remove_tmp_leftover.
Qed.

Lemma AtomicWriteFile_spec :
  ttriple (λ t', t' = t) (Ioutils.AtomicWriteFile filename data)
    (λ _ t', t' = <[filename := File data]> t) (λ _, leftover).
Proof.
  unfold Ioutils.AtomicWriteFile, Ioutils.NewAtomicFileWriter.
  set (w0 := {| Ioutils.f := tmp; Ioutils.fn := filename; Ioutils.writeErr := None |}).
  apply (ttriple_bind _ _ _ (λ w t', w = w0 ∧ t' = <[tmp := File EmptyString]> t)).
  { apply (ttriple_bind _ _ _ (λ p t', p = tmp ∧ t' = <[tmp := File EmptyString]> t)).
    - apply ttriple_syscall; intros ? ->; [by left|]. destruct (is_dir _ _); [done|by left].
    - intros p. apply ttriple_ret. by intros t' [-> ->]. }
  intros w. apply ttriple_pure. intros ->.
  apply (ttriple_bind _ _ _ (λ r t', ∃ d,
    (Ioutils.f r.2 = tmp ∧ Ioutils.fn r.2 = filename ∧ Ioutils.writeErr r.2 = r.1.2 ∧
     (r.1.2 = None → d = data ∧ r.1.1 = String.length data)) ∧ t' = <[tmp := File d]> t)).
  { apply (ttriple_bind _ _ _ (λ r t', ∃ d, (r.2 = None → d = data ∧ r.1 = String.length data)
      ∧ t' = <[tmp := File d]> t)).
    - apply ttriple_write. intros t' ->. exists EmptyString.
      rewrite lookup_insert_eq, insert_insert_eq. split; [done|].
      split; [by exists data|]. intros n. rewrite insert_insert_eq.
      by exists (GoString.take n data).
    - intros [n err]. apply ttriple_ret. intros t' (d&Hd&->). exists d. by destruct err. }
  intros [[n err] w']. cbn [fst snd]. apply ttriple_ex. intros d.
  apply ttriple_pure. intros (Hf&Hn&He&Hd). destruct err as [e|]; simpl.
  - apply (ttriple_bind _ _ _ (λ _, leftover)); [|intros [?|?]; by apply ttriple_fail].
    pose proof (close_spec w' d Hf Hn) as Hc. rewrite He in Hc. by apply ttriple_attempt.
  - destruct (Hd eq_refl) as [-> ->]. rewrite Nat.ltb_irrefl.
    pose proof (close_spec w' data Hf Hn) as Hc. rewrite He in Hc.
    apply (ttriple_bind _ _ _ (λ r t', match r with
      | inr _ => t' = <[filename := File data]> t | inl _ => leftover t' end));
      [by apply ttriple_attempt|].
    intros [e|[]]; [by apply ttriple_fail|by apply ttriple_ret].
Qed.
End AtomicWriteFile.

(** ** [path/filepath] *)

Module Filepath.
(** One step of [filepath.Clean] on a rooted path. *)
Definition push (p : path) (c : string) : path :=
  if String.eqb c EmptyString || String.eqb c "." then p
  else if String.eqb c ".." then removelast p
  else p ++ [c].

(** [filepath.Join] of a rooted path and further elements. *)
Definition Join (root : path) (elems : list string) : path :=
  foldl push root (mjoin (GoString.split "/" <$> elems)).

(** An element that [Join] appends as it is. *)
Definition plain (c : string) : bool :=
  match GoString.index_byte "/" c with Some _ => false | None => true end
  && negb (String.eqb c EmptyString || String.eqb c "." || String.eqb c "..").

Lemma push_plain p c : plain c = true → push p c = p ++ [c].
Proof.
  unfold plain, push. destruct (GoString.index_byte "/" c); [done|]. simpl.
  destruct (String.eqb c EmptyString), (String.eqb c "."), (String.eqb c ".."); done.
Qed.

Lemma Join_plain root cs :
  Forall (λ c, plain c = true) cs → Join root cs = root ++ cs.
Proof.
  unfold Join. intros Hcs. revert root.
  induction Hcs as [|c cs Hc Hcs IH]; intros root; [by rewrite app_nil_r|].
  simpl. assert (GoString.split "/" c = [c]) as ->.
  { apply split_avoids. unfold avoids. unfold plain in Hc.
    by destruct (GoString.index_byte "/" c). }
  simpl. rewrite push_plain by done. rewrite IH. by rewrite <-app_assoc.
Qed.

Lemma hex_avoids c s :
  GoString.all_chars GoString.is_hex s = true → GoString.is_hex c = false →
  GoString.index_byte c s = None.
Proof.
  induction s as [|c' s IH]; [done|]. simpl. intros [Hc Hs]%andb_true_iff Hn.
  destruct (Ascii.eqb_spec c c') as [<-|_]; [congruence|]. by rewrite IH.
Qed.

Lemma hex_plain s :
  GoString.all_chars GoString.is_hex s = true → s ≠ EmptyString → plain s = true.
Proof.
  intros Hs Hne. unfold plain. rewrite hex_avoids by done. simpl.
  destruct (String.eqb_spec s EmptyString) as [->|_]; [done|].
  destruct (String.eqb_spec s ".") as [->|_]; [done|].
  by destruct (String.eqb_spec s "..") as [->|_].
Qed.
End Filepath.

(** ** No file operation panics *)

Lemma safe_syscall {A} (g : gmap path node → outcome A * gmap path node) :
  (∀ t p t', g t ≠ (Panic p, t')) → safe (syscall g).
Proof.
  intros Hg s p s'. unfold syscall. specialize (Hg (nodes s)).
  destruct (faults s) as [|[|n] fs]; [..|done];
    (destruct (g (nodes s)) as [[a|e|q] t]; [done|done|]; by destruct (Hg q t)).
Qed.

Lemma safe_Write p d : safe (Os.Write p d).
Proof. intros s q s'. unfold Os.Write. by destruct (faults s) as [|[|n] fs]. Qed.

Lemma safe_mkdirs t pre todo p t' : Os.mkdirs t pre todo ≠ (Panic p, t').
Proof.
  revert t pre. induction todo as [|c todo IH]; intros t pre; simpl; [done|].
  destruct (node_at t (pre ++ [c])) as [[]|]; auto.
Qed.

Ltac safe_call := apply safe_syscall; intros; repeat case_match; try done.

Section SafeOs.
Lemma safe_Stat p : safe (Os.Stat p). Proof. safe_call. Qed.
Lemma safe_ReadFile p : safe (Os.ReadFile p). Proof. safe_call. Qed.
Lemma safe_OpenTrunc p : safe (Os.OpenTrunc p). Proof. safe_call. Qed.
Lemma safe_Sync p : safe (Os.Sync p). Proof. safe_call. Qed.
Lemma safe_Close p : safe (Os.Close p). Proof. safe_call. Qed.
Lemma safe_Chmod p : safe (Os.Chmod p). Proof. safe_call. Qed.
Lemma safe_Mkdir p : safe (Os.Mkdir p). Proof. safe_call. Qed.
Lemma safe_MkdirAll p : safe (Os.MkdirAll p).
Proof. apply safe_syscall. intros. apply safe_mkdirs. Qed.
Lemma safe_RemoveAll p : safe (Os.RemoveAll p). Proof. safe_call. Qed.
Lemma safe_Remove p : safe (Os.Remove p). Proof. safe_call. Qed.
Lemma safe_Rename p q : safe (Os.Rename p q). Proof. safe_call. Qed.
Lemma safe_ReadDir p : safe (Os.ReadDir p). Proof. safe_call. Qed.
Lemma safe_TempFile p pre : safe (Os.TempFile p pre). Proof. safe_call. Qed.
Lemma safe_TempDir p pre : safe (Os.TempDir p pre). Proof. safe_call. Qed.
End SafeOs.

#[export] Hint Resolve safe_Write safe_Stat safe_ReadFile safe_OpenTrunc safe_Sync safe_Close
  safe_Chmod safe_Mkdir safe_MkdirAll safe_RemoveAll safe_Remove safe_Rename safe_ReadDir
  safe_TempFile safe_TempDir : safe.

Section SafeIoutils.
Lemma safe_WriteFile p d : safe (Os.WriteFile p d).
Proof. unfold Os.WriteFile. solve_safe. Qed.
Lemma safe_sync_Close p : safe (Ioutils.sync_Close p).
Proof. unfold Ioutils.sync_Close. solve_safe. Qed.
Hint Resolve safe_sync_Close : safe.
Lemma safe_ws_FileWriter ws n : safe (Ioutils.ws_FileWriter ws n).
Proof. unfold Ioutils.ws_FileWriter. solve_safe. Qed.
Hint Resolve safe_ws_FileWriter : safe.
Lemma safe_ws_WriteFile ws n d : safe (Ioutils.ws_WriteFile ws n d).
Proof. unfold Ioutils.ws_WriteFile. solve_safe. Qed.
Lemma safe_NewAtomicWriteSet p : safe (Ioutils.NewAtomicWriteSet p).
Proof. unfold Ioutils.NewAtomicWriteSet. solve_safe. Qed.
Lemma safe_ws_Commit ws p : safe (Ioutils.ws_Commit ws p).
Proof. unfold Ioutils.ws_Commit. solve_safe. Qed.
Lemma safe_ws_Cancel ws : safe (Ioutils.ws_Cancel ws).
Proof. unfold Ioutils.ws_Cancel. solve_safe. Qed.
Lemma safe_afw_Close w : safe (Ioutils.afw_Close w).
Proof. unfold Ioutils.afw_Close, Ioutils.afw_Close_body. solve_safe. Qed.
Hint Resolve safe_afw_Close : safe.
Lemma safe_AtomicWriteFile p d : safe (Ioutils.AtomicWriteFile p d).
Proof.
  unfold Ioutils.AtomicWriteFile, Ioutils.NewAtomicFileWriter, Ioutils.afw_Write. solve_safe.
Qed.
End SafeIoutils.

#[export] Hint Resolve safe_WriteFile safe_sync_Close safe_ws_FileWriter safe_ws_WriteFile
  safe_NewAtomicWriteSet safe_ws_Commit safe_ws_Cancel safe_AtomicWriteFile : safe.
