(* ===== verification/Archive.v ===== *)
(** * The changes of a layer and its archive

    [src/engine/pkg/archive/changes.go] and [changes_unix.go]: what changed between two
    directories; [changes.go] and [archive.go]: the archive of the changes; [diff.go]: how
    an archive is unpacked over a directory.  An archive is the list of its headers, each
    with its data.  Files have one link, so that there are no entries for hard links, nor
    the directory in which aufs keeps them; identities are not mapped, the archive is
    unpacked over the root of the process, and the times of directories are left out. *)

From S2P Require Import Prelude FileSys.

(** ** Files *)

(** The kinds of files an archive can hold. *)
Inductive kind := KDir | KReg | KSymlink | KChar | KBlock | KFifo.
#[export] Instance kind_eq_dec : EqDecision kind.
Proof. solve_decision. Defined.
(** The type bits of a mode. *)
Definition S_IFDIR : Z := 0x4000.
Definition type_bits (k : kind) : Z :=
  match k with KDir => 0x4000 | KReg => 0x8000 | KSymlink => 0xA000 | KChar => 0x2000 | KBlock => 0x6000 | KFifo => 0x1000 end.

(** A file: [fi_data] is what it holds, or the target of a link; [fi_rdev] the major and the
    minor number of a device; the time has seconds and nanoseconds. *)
Record file := mkFile {
  fi_kind : kind; fi_perm : Z; fi_uid : Z; fi_gid : Z; fi_rdev : Z * Z; fi_data : string; fi_mtime : Z * Z; fi_cap : option string }.
#[export] Instance file_eq_dec : EqDecision file.
Proof. solve_decision. Defined.
Definition st_mode (f : file) : Z := Z.lor (type_bits (fi_kind f)) (fi_perm f).
Definition st_size (f : file) : Z := match fi_kind f with KReg | KSymlink => Z.of_nat (String.length (fi_data f)) | _ => 0 end.

(** A directory, with all that is below it; its own path is []. *)
Abbreviation tree := (gmap path file).

(** ** [changes.go] *)

Definition sameFsTimeSpec (a b : Z * Z) : bool := (a.1 =? b.1)%Z && ((a.2 =? b.2)%Z || (a.2 =? 0)%Z || (b.2 =? 0)%Z).
Definition statDifferent (old new : file) : bool :=
  negb (st_mode old =? st_mode new)%Z || negb (fi_uid old =? fi_uid new)%Z || negb (fi_gid old =? fi_gid new)%Z ||
  negb (bool_decide (fi_rdev old = fi_rdev new)) ||
  (negb (Z.land (st_mode old) S_IFDIR =? S_IFDIR)%Z &&
   (negb (sameFsTimeSpec (fi_mtime old) (fi_mtime new)) || negb (st_size old =? st_size new)%Z)).
(** [bytes.Equal] of two capabilities: none is as an empty one. *)
Definition cap_bytes (f : file) : string := default EmptyString (fi_cap f).
Definition differs (old new : file) : bool := statDifferent old new || negb (bool_decide (cap_bytes old = cap_bytes new)).
(** [FileInfo.isDir]; the root has no parent. *)
Definition isDir (t : tree) (p : path) : bool :=
  match p, t !! p with
  | [], _ => true
  | _, Some f => negb (Z.land (st_mode f) S_IFDIR =? 0)%Z
  | _, None => false
  end.

Inductive ChangeType := ChangeModify | ChangeAdd | ChangeDelete.
#[export] Instance ChangeType_eq_dec : EqDecision ChangeType.
Proof. solve_decision. Defined.
Record Change := mkChange { ch_Path : path; ch_Kind : ChangeType }.
#[export] Instance Change_eq_dec : EqDecision Change.
Proof. solve_decision. Defined.

(** The names of the children of a directory. *)
Definition children (t : tree) (p : path) : list string :=
  omap (λ q, if Os.child_of p q then last q else None) (elements (dom t)).

Section Diff.
  (** The order in which a range over a map yields the keys. *)
  Context (order : list string → list string).

(** [FileInfo.addChanges] at [p]; [old_there] says that there is an [oldInfo], [added] that
    the change of the file itself is recorded. *)
Fixpoint addChanges (fuel : nat) (new old : tree) (p : path) (added old_there : bool) : list Change :=
  match fuel with
  | 0 => []
  | S fuel =>
      let own := if old_there then [] else [mkChange p ChangeAdd] in
      let oldChildren := if old_there && isDir new p then children old p else [] in
      let inside := flat_map (λ name,
        let c := p ++ [name] in
        if bool_decide (name ∈ oldChildren) then
          let d := match old !! c, new !! c with Some o, Some n => differs o n | _, _ => false end in
          (if d then [mkChange c ChangeModify] else []) ++ addChanges fuel new old c d true
        else addChanges fuel new old c false false) (order (children new p)) in
      let deleted := (λ name, mkChange (p ++ [name]) ChangeDelete) <$> order (filter (λ name, name ∉ children new p) oldChildren) in
      let changes := own ++ inside ++ deleted in
      if negb (bool_decide (changes = [])) && isDir new p && negb (added || negb old_there) && negb (bool_decide (p = []))
      then mkChange p ChangeModify :: changes else changes
  end.
Definition depth (t : tree) : nat := foldr max 0 (length <$> elements (dom t)).
(** [ChangesDirs], with the two directories read. *)
Definition ChangesDirs (new old : tree) : list Change := addChanges (S (depth new)) new old [] false true.
End Diff.

(** ** [ExportChanges] *)

(** The [tar.Header] of an entry, and its data. *)
Record Header := mkHeader {
  h_Name : string; h_Kind : kind; h_Mode : Z; h_Uid : Z; h_Gid : Z; h_Size : Z; h_Linkname : string; h_Dev : Z * Z;
  h_Cap : option string; h_ModTime : Z * Z; h_Data : string }.

Definition WhiteoutPrefix : string := ".wh.".
Definition WhiteoutMetaPrefix : string := WhiteoutPrefix +:+ WhiteoutPrefix.
Definition WhiteoutOpaqueDir : string := WhiteoutMetaPrefix +:+ ".opq".

(** The path of a change as a string, and the order of [changesByPath]. *)
Definition path_string (p : path) : string := String "/" (GoString.join "/" p).
Definition change_le (a b : Change) : Prop := String.leb (path_string (ch_Path a)) (path_string (ch_Path b)) = true.
#[export] Instance change_le_dec : RelDecision change_le.
Proof. intros a b. unfold change_le. apply _. Defined.

(** [addTarFile], with [FileInfoHeader]: the time is cut to seconds. *)
Definition addTarFile (f : file) (name : string) : Header :=
  mkHeader (if bool_decide (fi_kind f = KDir) then name +:+ "/" else name) (fi_kind f) (fi_perm f) (fi_uid f) (fi_gid f)
    (match fi_kind f with KReg => st_size f | _ => 0%Z end)
    (match fi_kind f with KSymlink => fi_data f | _ => EmptyString end) (match fi_kind f with KChar | KBlock => fi_rdev f | _ => (0, 0)%Z end)
    (fi_cap f) ((fi_mtime f).1, 0%Z) (match fi_kind f with KReg => fi_data f | _ => EmptyString end).
(** The entry of a change: a file that is gone by then is left out. *)
Definition export_one (dir : tree) (now : Z * Z) (c : Change) : option Header :=
  match ch_Kind c with
  | ChangeDelete =>
      let whiteOut := GoString.join "/" (removelast (ch_Path c) ++ [WhiteoutPrefix +:+ default EmptyString (last (ch_Path c))]) in
      Some (mkHeader whiteOut KReg 0 0 0 0 EmptyString (0, 0)%Z None now EmptyString)
  | _ => f ← dir !! ch_Path c; Some (addTarFile f (GoString.join "/" (ch_Path c)))
  end.
Definition ExportChanges (dir : tree) (now : Z * Z) (changes : list Change) : list Header :=
  omap (export_one dir now) (merge_sort change_le changes).

(** ** [UnpackLayer] *)

Section Unpack.
  (** The kernel's walk to a path: its parents may be symbolic links. *)
  Context (resolve : tree → path → error + path).

Definition file_Lstat (t : tree) (p : path) : error + file :=
  match resolve t p with
  | inl e => inl e
  | inr q => match t !! q with Some f => inr f | None => inl (OsError ENOENT) end
  end.
Definition drop_below (p : path) (t : tree) : tree := filter (λ kv, Os.below p kv.1 = false) t.
(** [os.RemoveAll]: nothing to remove is no error; the root itself cannot be removed. *)
Definition file_RemoveAll (t : tree) (p : path) : error + tree :=
  match resolve t p with
  | inl e => if bool_decide (e = OsError ENOENT) || bool_decide (e = OsError ENOTDIR) then inr t else inl e
  | inr q => if bool_decide (q = []) then inl (OsError EBUSY) else inr (drop_below q t)
  end.
(** [system.MkdirAll], from the top down. *)
Fixpoint file_MkdirAll (t : tree) (perm : Z) (pre todo : path) : error + tree :=
  match todo with
  | [] => inr t
  | c :: todo =>
      let p := pre ++ [c] in
      match resolve t p with
      | inl e => inl e
      | inr q =>
          match t !! q with
          | Some f => if bool_decide (fi_kind f = KDir) then file_MkdirAll t perm p todo
                      else if bool_decide (fi_kind f = KSymlink) then file_MkdirAll t perm p todo else inl (OsError ENOTDIR)
          | None => file_MkdirAll (<[q := mkFile KDir perm 0 0 (0, 0)%Z EmptyString (0, 0)%Z None]> t) perm p todo
          end
      end
  end.
(** The device numbers [system.Mkdev] can pack. *)
Definition Mkdev (d : Z * Z) : Z * Z := (Z.land d.1 0xfff, Z.land d.2 0xfffff).
(** [createTarFile]: a directory that is there gets the owner, the mode and the capability; a
    regular file that is there is written over, and the change of its owner takes its
    capability away; a symbolic link has no mode of its own.  Nothing else is there: the
    caller has removed it. *)
Definition createTarFile (t : tree) (p : path) (h : Header) : error + tree :=
  match resolve t p with
  | inl e => inl e
  | inr q =>
      let new := mkFile (h_Kind h) (match h_Kind h with KSymlink => 0x1ff%Z | _ => h_Mode h end) (h_Uid h) (h_Gid h) (match h_Kind h with KChar | KBlock => Mkdev (h_Dev h) | _ => (0, 0)%Z end)
        (match h_Kind h with KReg => h_Data h | KSymlink => h_Linkname h | _ => EmptyString end)
        (match h_Kind h with KDir => (0, 0)%Z | _ => h_ModTime h end) (h_Cap h) in
      match t !! q with
      | None => inr (<[q := new]> t)
      | Some f =>
          if bool_decide (h_Kind h = KDir) && bool_decide (fi_kind f = KDir)
          then inr (<[q := mkFile KDir (h_Mode h) (h_Uid h) (h_Gid h) (fi_rdev f) (fi_data f) (fi_mtime f)
                     (match h_Cap h with Some c => Some c | None => fi_cap f end)]> t)
          else if bool_decide (h_Kind h = KReg) && bool_decide (fi_kind f = KReg)
          then inr (<[q := mkFile KReg (h_Mode h) (h_Uid h) (h_Gid h) (fi_rdev f) (h_Data h +:+ GoString.drop (String.length (h_Data h)) (fi_data f))
                     (h_ModTime h) (h_Cap h)]> t)
          else inl (OsError (if bool_decide (h_Kind h = KReg) then EISDIR else EEXIST))
      end
  end.

(** The elements of a name that [filepath.Clean] leaves; they may begin with "..". *)
Definition rel_push (acc : list string) (c : string) : list string :=
  if bool_decide (c = EmptyString) || bool_decide (c = ".") then acc
  else if bool_decide (c = "..") then
    match last acc with None | Some ".." => acc ++ [".."] | Some _ => removelast acc end
  else acc ++ [c].
Definition clean_name (name : string) : list string := foldl rel_push [] (GoString.split "/" name).

Record unpacking := mkUnpack { un_tree : tree; un_paths : gset path; un_size : Z }.
(** The walk over an opaque directory: it removes what was not unpacked, with all that is below. *)
Definition clear_opaque (dir : path) (unpacked : gset path) (t : tree) : tree :=
  filter (λ kv, Os.below dir kv.1 = false ∨ Forall (λ n, take (length dir + n) kv.1 ∈ unpacked) (seq 1 (length kv.1 - length dir))) t.
(** One entry, unpacked over the root directory. *)
Definition unpack_one (u : unpacking) (h : Header) : error + unpacking :=
  let size := (un_size u + h_Size h)%Z in
  let p := Filepath.Join [] [h_Name h] in
  let t1 := match file_Lstat (un_tree u) (parent_dir p) with
            | inl e => if bool_decide (e = OsError ENOENT) then file_MkdirAll (un_tree u) 0x180 [] (parent_dir p) else inr (un_tree u)
            | inr _ => inr (un_tree u)
            end in
  match t1 with
  | inl e => inl e
  | inr t =>
      let name := clean_name (h_Name h) in
      let base := base_name p in
      if negb (GoString.has_prefix (h_Name h) "/") && GoString.has_prefix (default EmptyString (head name)) WhiteoutMetaPrefix &&
         negb (bool_decide (name = [WhiteoutOpaqueDir])) then inr (mkUnpack t (un_paths u) size)
      else if GoString.has_prefix base WhiteoutPrefix then
        if bool_decide (base = WhiteoutOpaqueDir) then
          match file_Lstat t (parent_dir p) with
          | inl e => inl e
          | inr _ => inr (mkUnpack (clear_opaque (parent_dir p) (un_paths u) t) (un_paths u) size)
          end
        else
          match file_RemoveAll t (Filepath.Join (parent_dir p) [GoString.drop 4 base]) with
          | inl e => inl e
          | inr t => inr (mkUnpack t (un_paths u) size)
          end
      else
        let t2 := match file_Lstat t p with
                  | inr f => if bool_decide (fi_kind f = KDir) && bool_decide (h_Kind h = KDir) then inr t else file_RemoveAll t p
                  | inl _ => inr t
                  end in
        match t2 with
        | inl e => inl e
        | inr t =>
            match createTarFile t p h with
            | inl e => inl e
            | inr t => inr (mkUnpack t ({[p]} ∪ un_paths u) size)
            end
        end
  end.
Fixpoint unpack_all (hs : list Header) (u : unpacking) : error + unpacking :=
  match hs with
  | [] => inr u
  | h :: hs => match unpack_one u h with inl e => inl e | inr u => unpack_all hs u end
  end.
(** [UnpackLayer]: the size, and the directory. *)
Definition UnpackLayer (t : tree) (hs : list Header) : error + Z * tree :=
  match unpack_all hs (mkUnpack t ∅ 0) with inl e => inl e | inr u => inr (un_size u, un_tree u) end.
End Unpack.
