(* ===== verification/ArchiveDiff.v ===== *)
(** * What the list of changes says

    Of every file of the new directory and of the old one: if it is recorded, and how. *)

From S2P Require Import Prelude FileSys Archive.

(** ** Directories *)

(** A name that is not the name of a whiteout. *)
Definition name_fits (c : string) : Prop := Filepath.plain c = true ∧ GoString.has_prefix c WhiteoutPrefix = false.
(** What is fixed for a kind of file. *)
Definition file_fits (f : file) : Prop :=
  (0 ≤ fi_perm f < 0x1000)%Z ∧
  match fi_kind f with
  | KDir => fi_rdev f = (0, 0)%Z ∧ fi_data f = EmptyString ∧ fi_mtime f = (0, 0)%Z ∧ fi_cap f = None
  | KReg => fi_rdev f = (0, 0)%Z
  | KSymlink => fi_rdev f = (0, 0)%Z ∧ fi_perm f = 0x1ff%Z
  | KChar | KBlock => (0 ≤ (fi_rdev f).1 < 0x1000 ∧ 0 ≤ (fi_rdev f).2 < 0x100000)%Z ∧ fi_data f = EmptyString
  | KFifo => fi_rdev f = (0, 0)%Z ∧ fi_data f = EmptyString
  end.
Record dir_ok (t : tree) : Prop := mkDirOk {
  do_root : ∃ f, t !! [] = Some f ∧ fi_kind f = KDir;
  do_parent : ∀ p n f, t !! (p ++ [n]) = Some f → ∃ d, t !! p = Some d ∧ fi_kind d = KDir;
  do_names : ∀ p f, t !! p = Some f → Forall name_fits p;
  do_files : ∀ p f, t !! p = Some f → file_fits f }.

Lemma ancestor_dir t p q : dir_ok t → is_Some (t !! q) → p `prefix_of` q → p ≠ q → ∃ d, t !! p = Some d ∧ fi_kind d = KDir.
Proof.
  intros Hok. induction q as [|n q IH] using rev_ind; intros [f Hq] Hp Hne; [by apply prefix_nil_inv in Hp|].
  destruct (do_parent _ Hok _ _ _ Hq) as (d&Hd&Hk). destruct (decide (p = q)) as [->|Hpq]; [eauto|].
  apply IH; [eauto| |done]. destruct Hp as [k Hk']. destruct k as [|x k _] using rev_ind; [rewrite app_nil_r in Hk'; congruence|].
  rewrite app_assoc in Hk'. apply app_inj_tail in Hk' as [-> _]. by exists k.
Qed.
Lemma ancestor_there t p q : dir_ok t → is_Some (t !! q) → p `prefix_of` q → is_Some (t !! p).
Proof. intros Hok Hq Hp. destruct (decide (p = q)) as [->|Hne]; [done|]. destruct (ancestor_dir t p q) as (d&->&_); eauto. Qed.

(** Modes. *)
Lemma perm_bits p i : (0 ≤ p < 0x1000)%Z → (12 ≤ i)%Z → Z.testbit p i = false.
Proof.
  intros Hp Hi. destruct (decide (p = 0)%Z) as [->|]; [by rewrite Z.bits_0|]. apply Z.bits_above_log2; [lia|].
  apply Z.log2_lt_pow2; [lia|]. apply Z.lt_le_trans with (2 ^ 12)%Z; [lia|]. apply Z.pow_le_mono_r; lia.
Qed.
Lemma perm_land p k : (0 ≤ p < 0x1000)%Z → Z.land (k * 2 ^ 12) p = 0%Z.
Proof.
  intros Hp. apply Z.bits_inj'. intros i Hi. rewrite Z.land_spec, Z.bits_0. destruct (decide (i < 12)%Z).
  - by rewrite Z.mul_pow2_bits_low.
  - rewrite (perm_bits p i) by (done || lia). apply andb_false_r.
Qed.
Lemma type_bits_mul k : ∃ m, type_bits k = (m * 2 ^ 12)%Z.
Proof. destruct k; [exists 4%Z|exists 8%Z|exists 10%Z|exists 2%Z|exists 6%Z|exists 1%Z]; done. Qed.
Lemma st_mode_add f : (0 ≤ fi_perm f < 0x1000)%Z → st_mode f = (type_bits (fi_kind f) + fi_perm f)%Z.
Proof.
  intros Hp. unfold st_mode. destruct (type_bits_mul (fi_kind f)) as [m Hm]. rewrite Hm.
  pose proof (Z.add_lor_land (m * 2 ^ 12) (fi_perm f)) as H. rewrite perm_land in H by done. lia.
Qed.
Lemma st_mode_inj f g : file_fits f → file_fits g → st_mode f = st_mode g → fi_kind f = fi_kind g ∧ fi_perm f = fi_perm g.
Proof.
  intros [Hf _] [Hg _]. rewrite !st_mode_add by done.
  destruct (fi_kind f), (fi_kind g); unfold type_bits; intros; (split; [try done; lia|lia]).
Qed.
Lemma dir_bit f : file_fits f → Z.land (st_mode f) S_IFDIR = match fi_kind f with KDir | KBlock => S_IFDIR | _ => 0%Z end.
Proof.
  intros [Hp _]. unfold st_mode. rewrite Z.land_lor_distr_l.
  replace (Z.land (fi_perm f) S_IFDIR) with 0%Z; [by destruct (fi_kind f)|].
  rewrite Z.land_comm. symmetry. apply (perm_land (fi_perm f) 4). done.
Qed.
Lemma isDir_dir t p f : dir_ok t → t !! p = Some f → fi_kind f = KDir → isDir t p = true.
Proof.
  intros Hok Hp Hk. unfold isDir. destruct p; [done|]. rewrite Hp, dir_bit by by eapply do_files. by rewrite Hk.
Qed.

(** Children. *)
Lemma children_spec t p n : n ∈ children t p ↔ is_Some (t !! (p ++ [n])).
Proof.
  unfold children. rewrite list_elem_of_omap. split.
  - intros (q&Hq&Hn). apply elem_of_elements, elem_of_dom in Hq. destruct (Os.child_of p q) eqn:Hc; [|done].
    apply bool_decide_eq_true in Hc as [Hne Hpar]. destruct q as [|m q _] using rev_ind; [done|].
    unfold parent_dir in Hpar. rewrite removelast_last in Hpar. rewrite last_snoc in Hn. by simplify_eq.
  - intros Hs. exists (p ++ [n]). split; [by apply elem_of_elements, elem_of_dom|].
    unfold Os.child_of, parent_dir. rewrite removelast_last, last_snoc, bool_decide_true; [done|]. split; [by destruct p|done].
Qed.
Lemma depth_spec t p : is_Some (t !! p) → length p ≤ depth t.
Proof.
  intros Hp. unfold depth. assert (p ∈ elements (dom t)) as Hin by by apply elem_of_elements, elem_of_dom.
  induction Hin as [|q x l Hin IH]; rewrite fmap_cons; cbn [foldr]; [lia|specialize (IH Hp); lia].
Qed.

(** ** What [ChangesDirs] finds *)

Section Changes.
  Context (order : list string → list string) (Horder : ∀ l, order l ≡ₚ l).
  Context (new old : tree) (Hnew : dir_ok new) (Hold : dir_ok old).

(** There is an [oldInfo] for the file [p] of the new directory exactly if the old one has it. *)
Lemma old_child p n : is_Some (new !! p) → is_Some (new !! (p ++ [n])) →
  bool_decide (n ∈ (if bool_decide (is_Some (old !! p)) && isDir new p then children old p else [])) = bool_decide (is_Some (old !! (p ++ [n]))).
Proof.
  intros Hp [f Hc]. apply bool_decide_ext. destruct (do_parent _ Hnew _ _ _ Hc) as (d&Hd&Hk).
  rewrite (isDir_dir new p d) by done. rewrite andb_true_r. case_bool_decide as Ho; [apply children_spec|].
  split; [by intros ?%elem_of_nil|]. intros Hs. destruct Ho. eapply ancestor_there; [exact Hold|exact Hs|by eexists].
Qed.

Definition there (p : path) : bool := bool_decide (is_Some (old !! p)).
Definition diff_at (p : path) : bool := match old !! p, new !! p with Some o, Some n => differs o n | _, _ => false end.
(** What is recorded at the child [c]. *)
Definition child_changes (fuel : nat) (c : path) : list Change :=
  if there c then (if diff_at c then [mkChange c ChangeModify] else []) ++ addChanges order fuel new old c (diff_at c) true
  else addChanges order fuel new old c false false.
Lemma add_elem fuel p added c : is_Some (new !! p) →
  (c ∈ addChanges order (S fuel) new old p added (there p) →
    c = mkChange p ChangeModify ∧ p ≠ [] ∨ c = mkChange p ChangeAdd ∧ there p = false ∨
    (∃ n, is_Some (new !! (p ++ [n])) ∧ c ∈ child_changes fuel (p ++ [n])) ∨
    (∃ n, c = mkChange (p ++ [n]) ChangeDelete ∧ is_Some (old !! (p ++ [n])) ∧ new !! (p ++ [n]) = None ∧ isDir new p = true)) ∧
  (c = mkChange p ChangeAdd ∧ there p = false ∨
    (∃ n, is_Some (new !! (p ++ [n])) ∧ c ∈ child_changes fuel (p ++ [n])) ∨
    (∃ n, c = mkChange (p ++ [n]) ChangeDelete ∧ is_Some (old !! (p ++ [n])) ∧ new !! (p ++ [n]) = None ∧ isDir new p = true ∧ there p = true) →
   c ∈ addChanges order (S fuel) new old p added (there p)).
Proof.
  intros Hp. cbn [addChanges].
  set (kids := if there p && isDir new p then children old p else []).
  set (inside := flat_map _ _). set (own := if there p then _ else _). set (del := _ <$> _).
  assert (c ∈ own ↔ c = mkChange p ChangeAdd ∧ there p = false) as Eown.
  { unfold own. destruct (there p); [rewrite elem_of_nil|rewrite list_elem_of_singleton]; intuition congruence. }
  assert (c ∈ inside ↔ ∃ n, is_Some (new !! (p ++ [n])) ∧ c ∈ child_changes fuel (p ++ [n])) as Ein.
  { unfold inside. rewrite list_elem_of_In, in_flat_map. apply exist_proper. intros n. rewrite <-!list_elem_of_In, Horder, children_spec.
    split; intros [Hn Hc]; (split; [done|]); unfold kids, there in *; rewrite old_child in * by done; exact Hc. }
  assert (c ∈ del ↔ ∃ n, c = mkChange (p ++ [n]) ChangeDelete ∧ n ∈ kids ∧ new !! (p ++ [n]) = None) as Edel.
  { unfold del. rewrite list_elem_of_fmap. apply exist_proper. intros n. rewrite Horder, list_elem_of_filter, children_spec, <-eq_None_not_Some. tauto. }
  assert (∀ n, n ∈ kids ↔ is_Some (old !! (p ++ [n])) ∧ isDir new p = true ∧ there p = true) as Ekids.
  { intros n. unfold kids. destruct (there p) eqn:Ht; cbn; [|rewrite elem_of_nil; intuition congruence].
    destruct (isDir new p); [rewrite children_spec|rewrite elem_of_nil]; intuition congruence. }
  assert (c ∈ own ++ inside ++ del ↔ _) as Eall by (rewrite !elem_of_app, Eown, Ein, Edel; reflexivity).
  split.
  - intros Hc. assert (c ∈ own ++ inside ++ del ∨ c = mkChange p ChangeModify ∧ p ≠ []) as [H|H]; [| |by left].
    { destruct (_ && negb (bool_decide (p = []))) eqn:Hb; [|by left]. apply andb_prop in Hb as [_ Hne]. apply negb_true_iff, bool_decide_eq_false in Hne.
      apply elem_of_cons in Hc as [->|Hc]; [by right|by left]. }
    right. apply Eall in H as [H|[H|(n&->&Hn&H)]]; [by left|by right; left|right; right]. apply Ekids in Hn as (?&?&?). eauto 10.
  - intros H. assert (c ∈ own ++ inside ++ del) as Hc.
    { apply Eall. destruct H as [H|[H|(n&->&?&?&?&?)]]; [by left|by right; left|right; right]. exists n. split; [done|]. split; [by apply Ekids|done]. }
    destruct (_ && negb (bool_decide (p = []))); [by apply elem_of_cons; right|done].
Qed.

(** The path of each change is below [p]; what was added or modified is in the new directory,
    what was deleted is in the old one only, next to files of the new one. *)
Definition change_ok (c : Change) : Prop :=
  ch_Path c ≠ [] ∧
  match ch_Kind c with
  | ChangeDelete => ∃ p n, ch_Path c = p ++ [n] ∧ new !! ch_Path c = None ∧ is_Some (old !! ch_Path c) ∧ is_Some (new !! p) ∧ isDir new p = true
  | _ => is_Some (new !! ch_Path c)
  end.
Lemma child_ne (p : path) n : p ++ [n] ≠ [].
Proof. by destruct p. Qed.
Lemma add_sound fuel p added c : is_Some (new !! p) → (p = [] → there p = true) → c ∈ addChanges order fuel new old p added (there p) → change_ok c.
Proof.
  revert p added. induction fuel as [|fuel IH]; intros p added Hp Hroot Hc; [by apply elem_of_nil in Hc|].
  apply add_elem in Hc as [[-> Hne]|[[-> Hno]|[(n&Hn&Hc)|(n&->&Ho&Hno&Hd)]]]; [..|done].
  - by split.
  - split; [|done]. cbn. intros E. rewrite Hroot in Hno by done. done.
  - unfold child_changes in Hc. assert (p ++ [n] = [] → there (p ++ [n]) = true) as Hr by (intros E; by apply child_ne in E).
    destruct (there (p ++ [n])) eqn:Ht; [|by eapply (IH (p ++ [n]) false); rewrite ?Ht].
    apply elem_of_app in Hc as [Hc|Hc]; [|by eapply (IH (p ++ [n]) (diff_at (p ++ [n]))); rewrite ?Ht].
    destruct (diff_at _); [|by apply elem_of_nil in Hc]. apply list_elem_of_singleton in Hc as ->. split; [apply child_ne|done].
  - split; [apply child_ne|]. cbn. eauto 10.
Qed.
(** Every file of the new directory is recorded, or as it was. *)
Definition recorded (q : path) (l : list Change) : Prop := ∃ k, k ≠ ChangeDelete ∧ mkChange q k ∈ l.
Definition unchanged (q : path) : Prop := is_Some (old !! q) ∧ diff_at q = false.
Lemma add_incl fuel p added n c : is_Some (new !! p) → is_Some (new !! (p ++ [n])) → c ∈ child_changes fuel (p ++ [n]) →
  c ∈ addChanges order (S fuel) new old p added (there p).
Proof. intros Hp Hn Hc. apply add_elem; [done|]. eauto. Qed.
Lemma child_incl fuel k c : c ∈ addChanges order fuel new old k (there k && diff_at k) (there k) → c ∈ child_changes fuel k.
Proof. unfold child_changes. destruct (there k); cbn; [|done]. intros Hc. apply elem_of_app. by right. Qed.
Lemma prefix_step (p q : path) : p `prefix_of` q → p = q ∨ ∃ n, (p ++ [n]) `prefix_of` q.
Proof. intros [[|n k] ->]; [left; by rewrite app_nil_r|right; exists n; exists k; by rewrite <-app_assoc]. Qed.
Lemma add_complete fuel p added q : is_Some (new !! p) → p `prefix_of` q → is_Some (new !! q) → length q < fuel + length p →
  p = q ∧ there p = true ∨ recorded q (addChanges order fuel new old p added (there p)) ∨ unchanged q.
Proof.
  revert p added. induction fuel as [|fuel IH]; intros p added Hp Hpq Hq Hlen.
  { apply prefix_length in Hpq. lia. }
  destruct (prefix_step _ _ Hpq) as [<-|[n Hn]].
  - destruct (there p) eqn:Ht; [by left|]. right. left. exists ChangeAdd. split; [done|]. rewrite <-Ht. apply add_elem; [done|]. auto.
  - right. assert (is_Some (new !! (p ++ [n]))) as Hc by by eapply ancestor_there.
    destruct (IH (p ++ [n]) (there (p ++ [n]) && diff_at (p ++ [n]))) as [[<- Ht]|[(k&Hk&Hin)|Hun]]; [done|done|done|rewrite length_app; cbn; lia| | |by right].
    + destruct (diff_at (p ++ [n])) eqn:Hd; [left|right; split; [by apply bool_decide_eq_true in Ht|done]].
      exists ChangeModify. split; [done|]. eapply add_incl; [done|done|]. unfold child_changes. rewrite Ht, Hd. apply elem_of_app. left. by apply list_elem_of_singleton.
    + left. exists k. split; [done|]. eapply add_incl; [done|done|]. by apply child_incl.
Qed.
(** Every file that is gone from a directory is recorded. *)
Lemma add_deletes fuel p added q n : is_Some (new !! p) → p `prefix_of` q → is_Some (new !! q) → isDir new q = true →
  is_Some (old !! (q ++ [n])) → new !! (q ++ [n]) = None → length q < fuel + length p →
  mkChange (q ++ [n]) ChangeDelete ∈ addChanges order fuel new old p added (there p).
Proof.
  revert p added. induction fuel as [|fuel IH]; intros p added Hp Hpq Hq Hd Ho Hno Hlen.
  { apply prefix_length in Hpq. lia. }
  destruct (prefix_step _ _ Hpq) as [<-|[m Hm]].
  - apply add_elem; [done|]. right. right. exists n. split_and!; try done. apply bool_decide_eq_true. eapply ancestor_there; [exact Hold|exact Ho|by eexists].
  - assert (is_Some (new !! (p ++ [m]))) as Hc by by eapply ancestor_there.
    eapply add_incl; [done|exact Hc|]. apply child_incl, IH; try done. rewrite length_app. cbn. lia.
Qed.
End Changes.
