(* ===== verification/ArchiveProps.v ===== *)
(** * A layer that is unpacked again

    The archive of the changes between two directories, unpacked over the old one, gives
    the new one. *)

From S2P Require Import Prelude FileSys Archive ArchiveDiff.

(** ** The order of an archive *)

Lemma ascii_compare_N a b : Ascii.compare a b = N.compare (N_of_ascii a) (N_of_ascii b).
Proof. done. Qed.
Lemma leb_cons a s b t : String.leb (String a s) (String b t) =
  match N.compare (N_of_ascii a) (N_of_ascii b) with Lt => true | Gt => false | Eq => String.leb s t end.
Proof. unfold String.leb. cbn. rewrite ascii_compare_N. by destruct (N_of_ascii a ?= N_of_ascii b)%N. Qed.
Lemma leb_trans s t u : String.leb s t = true → String.leb t u = true → String.leb s u = true.
Proof.
  revert t u. induction s as [|a s IH]; intros t u; [by destruct u|]. destruct t as [|b t]; [done|]. destruct u as [|c u]; [done|].
  rewrite !leb_cons. destruct (N.compare_spec (N_of_ascii a) (N_of_ascii b)) as [E1|L1|G1]; [| |done];
    destruct (N.compare_spec (N_of_ascii b) (N_of_ascii c)) as [E2|L2|G2]; try done;
    destruct (N.compare_spec (N_of_ascii a) (N_of_ascii c)) as [E3|L3|G3]; try lia; try done. apply IH.
Qed.
#[export] Instance change_le_trans : Transitive change_le.
Proof. intros a b c. apply leb_trans. Qed.
#[export] Instance change_le_total : Total change_le.
Proof. intros a b. apply String.leb_total. Qed.
Lemma leb_app s t : String.leb s (s +:+ t) = true.
Proof. induction s as [|a s IH]; [by destruct t|]. change (String a s +:+ t) with (String a (s +:+ t)). rewrite leb_cons, N.compare_refl. done. Qed.
Lemma app_string_ne s t : s +:+ t = s → t = EmptyString.
Proof. induction s as [|a s IH]; [done|]. rewrite app_cons. intros [= E]. auto. Qed.
Lemma join_app p n k : ∃ t, GoString.join "/" ((p : path) ++ n :: k) = GoString.join "/" p +:+ t ∧ (p ≠ [] → t ≠ EmptyString).
Proof.
  induction p as [|c p IH]; [by eexists|]. destruct p as [|d p].
  - eexists. split; [done|]. done.
  - destruct IH as (t&Ht&Hne). exists t. split; [|intros _; by apply Hne].
    change (GoString.join "/" ((c :: d :: p) ++ n :: k)) with (c +:+ "/" +:+ GoString.join "/" ((d :: p) ++ n :: k)). rewrite Ht.
    change (GoString.join "/" (c :: d :: p)) with (c +:+ "/" +:+ GoString.join "/" (d :: p)). by rewrite !app_assoc_str.
Qed.
(** A directory is before what is below it. *)
Lemma parent_first (p q : path) k l : p ≠ [] → p `prefix_of` q → p ≠ q → ¬ change_le (mkChange q k) (mkChange p l).
Proof.
  intros Hp [[|n r] ->] Hne; [by rewrite app_nil_r in Hne|]. unfold change_le, path_string. cbn [ch_Path]. rewrite leb_cons, N.compare_refl.
  destruct (join_app p n r) as (t&->&Ht). intros Hle. pose proof (leb_app (GoString.join "/" p) t) as Hge.
  apply (Ht Hp), (app_string_ne (GoString.join "/" p)). by apply String.leb_antisym.
Qed.

(** ** Names *)

Lemma plain_avoids c : Filepath.plain c = true → avoids "/" c.
Proof. unfold avoids, Filepath.plain. by destruct (GoString.index_byte "/" c). Qed.
Lemma plain_not_empty c : Filepath.plain c = true → c ≠ EmptyString ∧ c ≠ "." ∧ c ≠ "..".
Proof.
  unfold Filepath.plain. intros [_ H]%andb_prop. apply negb_true_iff in H. apply orb_false_iff in H as [[H1 H2]%orb_false_iff H3].
  by apply String.eqb_neq in H1, H2, H3.
Qed.
Lemma split_components p (slash : bool) : p ≠ [] → Forall (λ c, Filepath.plain c = true) p →
  GoString.split "/" (if slash then GoString.join "/" p +:+ "/" else GoString.join "/" p) = if slash then p ++ [EmptyString] else p.
Proof.
  intros Hp Hc. assert (Forall (avoids "/") p) as Ha by (eapply Forall_impl; [exact Hc|]; apply plain_avoids).
  destruct slash; [|by apply split_join].
  replace (GoString.join "/" p +:+ "/") with (GoString.join "/" (p ++ [EmptyString])).
  - apply split_join; [by destruct p|]. apply Forall_app_2; [done|]. by repeat constructor.
  - clear Hc Ha. induction p as [|c [|d p] IH]; [done|done|].
    change (GoString.join "/" ((c :: d :: p) ++ [EmptyString])) with (c +:+ "/" +:+ GoString.join "/" ((d :: p) ++ [EmptyString])).
    rewrite IH by done. change (GoString.join "/" (c :: d :: p)) with (c +:+ "/" +:+ GoString.join "/" (d :: p)). by rewrite !app_assoc_str.
Qed.
Definition entry_name (p : path) (slash : bool) : string := if slash then GoString.join "/" p +:+ "/" else GoString.join "/" p.
Lemma entry_join p slash : p ≠ [] → Forall (λ c, Filepath.plain c = true) p → Filepath.Join [] [entry_name p slash] = p.
Proof.
  intros Hp Hc. unfold Filepath.Join, entry_name. cbn. rewrite app_nil_r, split_components by done.
  assert (∀ acc, foldl Filepath.push acc p = acc ++ p) as Hpush.
  { clear Hp. induction Hc as [|c p Hc _ IH]; intros acc; cbn; [by rewrite app_nil_r|]. by rewrite Filepath.push_plain, IH, <-app_assoc. }
  destruct slash; [by rewrite foldl_app, Hpush|by rewrite Hpush].
Qed.
Lemma entry_clean p slash : p ≠ [] → Forall (λ c, Filepath.plain c = true) p → clean_name (entry_name p slash) = p.
Proof.
  intros Hp Hc. unfold clean_name, entry_name. rewrite split_components by done.
  assert (∀ acc, foldl rel_push acc p = acc ++ p) as Hpush.
  { clear Hp. induction Hc as [|c p Hc _ IH]; intros acc; cbn; [by rewrite app_nil_r|]. destruct (plain_not_empty c Hc) as (H1&H2&H3).
    unfold rel_push at 2. rewrite !bool_decide_false by done. cbn. by rewrite IH, <-app_assoc. }
  destruct slash; [by rewrite foldl_app, Hpush|by rewrite Hpush].
Qed.
Lemma prefix_app_string s t u : String.prefix (s +:+ t) u = true → String.prefix s u = true.
Proof.
  revert u. induction s as [|a s IH]; intros u; [by destruct u|]. rewrite app_cons. destruct u as [|b u]; [done|]. cbn.
  destruct (Ascii.ascii_dec a b); [apply IH|done].
Qed.
Lemma prefix_app_same s t u : String.prefix (s +:+ t) (s +:+ u) = String.prefix t u.
Proof. induction s as [|a s IH]; [done|]. rewrite !app_cons. cbn. by destruct (Ascii.ascii_dec a a). Qed.
Lemma has_prefix_wh n : GoString.has_prefix (WhiteoutPrefix +:+ n) WhiteoutPrefix = true.
Proof. by destruct n. Qed.
Lemma no_meta n : GoString.has_prefix n WhiteoutPrefix = false → GoString.has_prefix n WhiteoutMetaPrefix = false.
Proof.
  unfold GoString.has_prefix. intros H. apply not_true_iff_false. intros H'. unfold WhiteoutMetaPrefix in H'. apply prefix_app_string in H'. congruence.
Qed.
Lemma no_meta_wh n : GoString.has_prefix n WhiteoutPrefix = false → GoString.has_prefix (WhiteoutPrefix +:+ n) WhiteoutMetaPrefix = false.
Proof. unfold GoString.has_prefix, WhiteoutMetaPrefix. by rewrite prefix_app_same. Qed.
Lemma plain_wh n : Filepath.plain n = true → Filepath.plain (WhiteoutPrefix +:+ n) = true.
Proof.
  intros Hn. apply plain_avoids in Hn. unfold avoids in Hn. unfold Filepath.plain. change (WhiteoutPrefix +:+ n) with (String "." (String "w" (String "h" (String "." n)))).
  cbn [GoString.index_byte Ascii.eqb Bool.eqb]. by rewrite Hn.
Qed.
Lemma fitting_plain p : Forall name_fits p → Forall (λ c, Filepath.plain c = true) p.
Proof. intros Hp. eapply Forall_impl; [exact Hp|]. by intros c [Hc _]. Qed.
Lemma entry_no_slash p slash : p ≠ [] → Forall (λ c, Filepath.plain c = true) p → GoString.has_prefix (entry_name p slash) "/" = false.
Proof.
  intros Hp Hc. destruct p as [|c p]; [done|]. inversion Hc as [|?? Hcc _]; subst. destruct (plain_not_empty c Hcc) as [Hne _].
  apply plain_avoids in Hcc. destruct c as [|a c]; [done|]. unfold avoids in Hcc. cbn [GoString.index_byte] in Hcc.
  destruct (Ascii.eqb_spec "/" a) as [|Hna]; [done|].
  assert (∃ r, entry_name (String a c :: p) slash = String a r) as [r ->].
  { unfold entry_name. destruct p as [|d p]; destruct slash; cbn [GoString.join]; rewrite ?app_cons; by eexists. }
  unfold GoString.has_prefix. cbn [String.prefix]. destruct (Ascii.ascii_dec "/" a) as [E|]; [by destruct Hna|done].
Qed.

(** ** One entry *)

(** The walk to [p] meets directories only. *)
Definition dirs_to (t : tree) (p : path) : Prop := ∀ q, q `prefix_of` p → q ≠ p → ∃ d, t !! q = Some d ∧ fi_kind d = KDir.

Section Unpacking.
  Context (resolve : tree → path → error + path).
  Context (Hdirs : ∀ t p, dirs_to t p → resolve t p = inr p).
  Context (Hnotdir : ∀ t p q f, dirs_to t q → t !! q = Some f → fi_kind f ≠ KDir → fi_kind f ≠ KSymlink → q `prefix_of` p → q ≠ p →
    resolve t p = inl (OsError ENOTDIR)).

(** The file that an archive holds of [f]. *)
Definition stamp (f : file) : file :=
  mkFile (fi_kind f) (fi_perm f) (fi_uid f) (fi_gid f) (fi_rdev f) (fi_data f)
    (match fi_kind f with KDir => (0, 0)%Z | _ => ((fi_mtime f).1, 0%Z) end) (fi_cap f).
Definition put_file (p : path) (f : file) (t : tree) : tree :=
  <[p := stamp f]> (match t !! p with
                    | Some g => if bool_decide (fi_kind g = KDir) && bool_decide (fi_kind f = KDir) then t else drop_below p t
                    | None => t
                    end).
Lemma drop_below_lookup p t q : drop_below p t !! q = if Os.below p q then None else t !! q.
Proof.
  unfold drop_below. rewrite map_lookup_filter. destruct (t !! q) as [f|]; cbn; [|by destruct (Os.below p q)].
  destruct (Os.below p q) eqn:Hb; [by rewrite option_guard_False|by rewrite option_guard_True].
Qed.
Lemma below_iff p q : Os.below p q = true ↔ p `prefix_of` q.
Proof. apply bool_decide_eq_true. Qed.
Lemma land_mask a n : (0 ≤ a < 2 ^ n)%Z → (0 ≤ n)%Z → Z.land a (Z.ones n) = a.
Proof. intros Ha Hn. rewrite Z.land_ones by done. by apply Z.mod_small. Qed.

Lemma archive_parent_prefix (p : path) : p ≠ [] → parent_dir p `prefix_of` p ∧ parent_dir p ≠ p.
Proof.
  intros Hp. destruct p as [|n p _] using rev_ind; [done|]. unfold parent_dir. rewrite removelast_last. split; [by eexists|].
  intros E. apply (f_equal length) in E. rewrite length_app in E. cbn in E. lia.
Qed.
Lemma dirs_parent t p : dirs_to t p → dirs_to t (parent_dir p).
Proof.
  intros Hd q Hq Hne. destruct (decide (p = [])) as [->|Hp]; [by apply Hd|]. destruct (archive_parent_prefix p Hp) as [Hpp Hpn].
  apply Hd; [by etrans|]. intros ->. apply Hne. apply (anti_symm prefix); [done|]. done.
Qed.
Lemma parent_Lstat t p : p ≠ [] → dirs_to t p → ∃ f, file_Lstat resolve t (parent_dir p) = inr f.
Proof.
  intros Hp Hd. unfold file_Lstat. rewrite Hdirs by by apply dirs_parent. destruct (archive_parent_prefix p Hp) as [Hpp Hpn].
  destruct (Hd _ Hpp Hpn) as (d&->&_). eauto.
Qed.
Lemma dirs_drop t p : dirs_to t p → dirs_to (drop_below p t) p.
Proof.
  intros Hd q Hq Hne. destruct (Hd q Hq Hne) as (d&Hdq&Hk). exists d. rewrite drop_below_lookup. split; [|done].
  destruct (Os.below p q) eqn:Hb; [|done]. apply below_iff in Hb. destruct Hne. by apply (anti_symm prefix).
Qed.
Lemma prefix_snoc_inv (q p : path) n : q `prefix_of` p ++ [n] → q = p ++ [n] ∨ q `prefix_of` p.
Proof.
  intros [k Hk]. destruct k as [|x k _] using rev_ind; [left; by rewrite app_nil_r in Hk|right].
  rewrite app_assoc in Hk. apply app_inj_tail in Hk as [-> _]. by exists k.
Qed.
(** A file is created where there is none, or where there is a directory as well. *)
Lemma create_put t p f name : file_fits f → dirs_to t p →
  (t !! p = None ∨ ∃ g, t !! p = Some g ∧ fi_kind g = KDir ∧ file_fits g ∧ fi_kind f = KDir) →
  createTarFile resolve t p (addTarFile f name) = inr (<[p := stamp f]> t).
Proof.
  intros [Hp Hf] Hd Ht. unfold createTarFile. rewrite Hdirs by done. destruct f as [k perm uid gid [maj min] data mt cap]. cbn in *.
  destruct Ht as [->|(g&->&Hk&[_ Hg]&Hkf)].
  - do 2 f_equal. unfold stamp. cbn.
    assert (∀ a b, (0 ≤ a < 0x1000)%Z → (0 ≤ b < 0x100000)%Z → Mkdev (a, b) = (a, b)) as Hdev.
    { intros a b Ha Hb. unfold Mkdev. cbn [fst snd]. change 0xfff%Z with (Z.ones 12). change 0xfffff%Z with (Z.ones 20). by rewrite !land_mask. }
    destruct k.
    + destruct Hf as (?&?&?&?). by simplify_eq/=.
    + by simplify_eq/=.
    + destruct Hf as (?&?). by simplify_eq/=.
    + destruct Hf as [[H1 H2] ->]. by rewrite Hdev.
    + destruct Hf as [[H1 H2] ->]. by rewrite Hdev.
    + destruct Hf as (?&?). by simplify_eq/=.
  - subst k. rewrite Hk in Hg |- *. cbn. destruct Hg as (->&->&->&->). destruct Hf as (Hr&->&->&->). by rewrite Hr.
Qed.
Lemma unpack_add u p f : p ≠ [] → Forall name_fits p → file_fits f → dirs_to (un_tree u) p →
  (∀ g, un_tree u !! p = Some g → fi_kind g = KDir → file_fits g) →
  ∃ paths size, unpack_one resolve u (addTarFile f (GoString.join "/" p)) = inr (mkUnpack (put_file p f (un_tree u)) paths size).
Proof.
  intros Hp Hn Hf Hd Hg. pose proof (fitting_plain p Hn) as Hpl. set (h := addTarFile f (GoString.join "/" p)).
  assert (h_Name h = entry_name p (bool_decide (fi_kind f = KDir))) as Hname by done.
  destruct (parent_Lstat (un_tree u) p Hp Hd) as [par Hpar].
  unfold unpack_one. rewrite Hname, entry_join, entry_clean, entry_no_slash by done. rewrite Hpar.
  assert (GoString.has_prefix (default EmptyString (head p)) WhiteoutMetaPrefix = false) as ->.
  { destruct p as [|c p]; [done|]. inversion Hn as [|?? [_ Hc] _]; subst. by apply no_meta. }
  assert (GoString.has_prefix (base_name p) WhiteoutPrefix = false) as ->.
  { destruct p as [|c p _] using rev_ind; [done|]. apply Forall_app in Hn as [_ Hc]. rewrite Forall_singleton in Hc. unfold base_name. rewrite last_snoc. apply Hc. }
  cbn [negb andb]. unfold put_file. unfold file_Lstat at 1, file_RemoveAll. rewrite Hdirs by done. rewrite (bool_decide_false (p = [])) by done.
  change (h_Kind h) with (fi_kind f). destruct (un_tree u !! p) as [g|] eqn:Hgp.
  - destruct (decide (fi_kind g = KDir ∧ fi_kind f = KDir)) as [[Hk1 Hk2]|Hk].
    + rewrite !bool_decide_true by done. cbn [andb]. unfold h. rewrite create_put; [by eexists _, _|done|done|]. right. exists g. auto.
    + assert (bool_decide (fi_kind g = KDir) && bool_decide (fi_kind f = KDir) = false) as ->.
      { apply andb_false_iff. destruct (decide (fi_kind g = KDir)); [right|left]; apply bool_decide_eq_false; tauto. }
      unfold h. rewrite create_put; [by eexists _, _|done|by apply dirs_drop|]. left. rewrite drop_below_lookup.
      by rewrite (proj2 (below_iff p p)).
  - unfold h. rewrite create_put; [by eexists _, _|done|done|by left].
Qed.
(** A whiteout: its parent is a directory, or a file that is neither that nor a link. *)
Lemma unpack_del u dir now p n : Forall name_fits (p ++ [n]) → dirs_to (un_tree u) p →
  (∃ f, un_tree u !! p = Some f ∧ fi_kind f ≠ KSymlink ∧ (fi_kind f = KDir ∨ ∀ q, q ≠ p → p `prefix_of` q → un_tree u !! q = None)) →
  ∃ h paths size, export_one dir now (mkChange (p ++ [n]) ChangeDelete) = Some h ∧
    unpack_one resolve u h = inr (mkUnpack (drop_below (p ++ [n]) (un_tree u)) paths size).
Proof.
  intros Hn Hd (f&Hf&Hsym&Hcase). apply Forall_app in Hn as [Hn Hnn]. rewrite Forall_singleton in Hnn. destruct Hnn as [Hpl Hwh].
  unfold export_one. cbn [ch_Kind ch_Path]. rewrite removelast_last, last_snoc. cbn [default from_option id].
  set (w := p ++ [WhiteoutPrefix +:+ n]). eexists _, _, _. split; [done|].
  assert (Forall (λ c, Filepath.plain c = true) w) as Hw.
  { apply Forall_app_2; [by apply fitting_plain|]. repeat constructor. by apply plain_wh. }
  assert (w ≠ []) as Hne by by destruct p.
  unfold unpack_one. cbn [h_Name h_Size]. change (GoString.join "/" w) with (entry_name w false).
  rewrite entry_join, entry_clean, entry_no_slash by done.
  assert (parent_dir w = p) as -> by (unfold parent_dir, w; apply removelast_last).
  assert (base_name w = WhiteoutPrefix +:+ n) as -> by (unfold base_name, w; by rewrite last_snoc).
  assert (file_Lstat resolve (un_tree u) p = inr f) as -> by (unfold file_Lstat; rewrite Hdirs by done; by rewrite Hf).
  assert (GoString.has_prefix (default EmptyString (head w)) WhiteoutMetaPrefix = false) as ->.
  { unfold w. destruct p as [|c p]; cbn [app head default]; [by apply no_meta_wh|]. inversion Hn as [|?? [_ Hc] _]; subst. by apply no_meta. }
  rewrite has_prefix_wh. cbn [negb andb].
  rewrite (bool_decide_false (WhiteoutPrefix +:+ n = WhiteoutOpaqueDir)).
  2:{ intros E. assert (n = ".wh..opq") as -> by (by injection E). by vm_compute in Hwh. }
  change (GoString.drop 4 (WhiteoutPrefix +:+ n)) with n. rewrite Filepath.Join_plain by by constructor. unfold file_RemoveAll.
  destruct (decide (fi_kind f = KDir)) as [Hk|Hk].
  - rewrite Hdirs; [by rewrite bool_decide_false by apply child_ne|]. intros q Hq Hqn. destruct (decide (q = p)) as [->|Hqp]; [eauto|]. apply Hd; [|done].
    destruct (prefix_snoc_inv q p n) as [E|?]; [done|done|done].
  - rewrite (Hnotdir _ (p ++ [n]) p f); [|done|done|done|done|by eexists|intros E; apply (f_equal length) in E; rewrite length_app in E; cbn in E; lia].
    cbn. do 2 f_equal. apply map_eq. intros q. rewrite drop_below_lookup. destruct (Os.below (p ++ [n]) q) eqn:Hb; [|done].
    destruct Hcase as [|Hcase]; [done|]. apply below_iff in Hb as [k ->]. apply Hcase.
    + intros E. apply (f_equal length) in E. rewrite !length_app in E. cbn in E. lia.
    + exists ([n] ++ k). by rewrite app_assoc.
Qed.

(** ** All entries *)

  Context (order : list string → list string) (Horder : ∀ l, order l ≡ₚ l).
  Context (new old : tree) (Hnew : dir_ok new) (Hold : dir_ok old) (now : Z * Z).
Definition layer_changes : list Change := merge_sort change_le (ChangesDirs order new old).

Lemma root_there : there old [] = true.
Proof. apply bool_decide_eq_true. destruct (do_root _ Hold) as (f&->&_). eauto. Qed.
Lemma new_root : is_Some (new !! []).
Proof. destruct (do_root _ Hnew) as (f&->&_). eauto. Qed.
Lemma layer_elem c : c ∈ layer_changes ↔ c ∈ addChanges order (S (depth new)) new old [] false (there old []).
Proof. unfold layer_changes, ChangesDirs. rewrite merge_sort_Permutation, root_there. done. Qed.
Lemma layer_ok c : c ∈ layer_changes → change_ok new old c.
Proof.
  rewrite layer_elem. intros Hc. eapply (add_sound order Horder new old Hnew Hold); [apply new_root|by intros _; apply root_there|exact Hc].
Qed.
Lemma layer_complete q : is_Some (new !! q) → q ≠ [] → recorded q layer_changes ∨ unchanged new old q.
Proof.
  intros Hq Hne. destruct (add_complete order Horder new old Hnew Hold (S (depth new)) [] false q) as [[E _]|[(k&Hk&Hin)|Hun]];
    [apply new_root|apply prefix_nil|done|cbn; pose proof (depth_spec new q Hq); lia|done| |by right].
  left. exists k. split; [done|]. by apply layer_elem.
Qed.
Lemma layer_deletes q n : is_Some (new !! q) → isDir new q = true → is_Some (old !! (q ++ [n])) → new !! (q ++ [n]) = None →
  mkChange (q ++ [n]) ChangeDelete ∈ layer_changes.
Proof.
  intros Hq Hd Ho Hn. apply layer_elem. apply (add_deletes order Horder new old Hnew Hold); try done; [apply new_root|apply prefix_nil|].
  cbn. pose proof (depth_spec new q Hq). lia.
Qed.
Lemma layer_sorted l1 c l2 : layer_changes = l1 ++ c :: l2 → (∀ a, a ∈ l1 → change_le a c) ∧ (∀ b, b ∈ l2 → change_le c b).
Proof.
  intros E. assert (StronglySorted change_le layer_changes) as Hs by (apply Sorted_StronglySorted; [apply _|apply Sorted_merge_sort; apply _]).
  rewrite E in Hs. split.
  - intros a Ha. eapply StronglySorted_app_1_elem_of; [exact Hs|done|by apply elem_of_cons; left].
  - apply StronglySorted_app_1_r in Hs. apply StronglySorted_inv in Hs as [_ Hs]. rewrite Forall_forall in Hs. exact Hs.
Qed.
Lemma recorded_dec q l : recorded q l ∨ ¬ recorded q l.
Proof.
  destruct (decide (mkChange q ChangeModify ∈ l)) as [H|H]; [left; by exists ChangeModify|].
  destruct (decide (mkChange q ChangeAdd ∈ l)) as [H'|H']; [left; by exists ChangeAdd|].
  right. intros ([]&?&?); done.
Qed.
Lemma recorded_snoc q l c : recorded q (l ++ [c]) ↔ recorded q l ∨ ch_Path c = q ∧ ch_Kind c ≠ ChangeDelete.
Proof.
  split.
  - intros (k&Hk&[H|H]%elem_of_app); [left; by exists k|right]. apply list_elem_of_singleton in H as <-. done.
  - intros [(k&Hk&H)|[<- Hk]]; [exists k; split; [done|]; apply elem_of_app; by left|].
    exists (ch_Kind c). split; [done|]. apply elem_of_app. right. apply list_elem_of_singleton. by destruct c.
Qed.
(** The directories above a change are recorded before it. *)
Lemma above_first l1 c l2 r : layer_changes = l1 ++ c :: l2 → r `prefix_of` ch_Path c → r ≠ ch_Path c → r ≠ [] → recorded r layer_changes → recorded r l1.
Proof.
  intros E Hr Hne Hroot (k&Hk&Hin). exists k. split; [done|]. rewrite E in Hin. apply elem_of_app in Hin as [Hin|[Hin|Hin]%elem_of_cons]; [done| |].
  - by rewrite <-Hin in Hne.
  - exfalso. apply (proj2 (layer_sorted l1 c l2 E)) in Hin. destruct c as [q kc]. by eapply (parent_first r q kc k).
Qed.
Lemma below_later l1 c l2 q : layer_changes = l1 ++ c :: l2 → recorded q l1 → ch_Path c `prefix_of` q → ch_Path c = q.
Proof.
  intros E (k&Hk&Hin) Hp. destruct (decide (ch_Path c = q)) as [|Hne]; [done|exfalso].
  assert (change_ok new old c) as [Hroot _] by (apply layer_ok; rewrite E; set_solver).
  apply (proj1 (layer_sorted l1 c l2 E)) in Hin. destruct c as [p kc]. by eapply (parent_first p q k kc).
Qed.

(** The directory when the changes [l] are unpacked. *)
Record partly_done (l : list Change) (t : tree) : Prop := mkPartly {
  pd_done : ∀ q f, new !! q = Some f → recorded q l → t !! q = Some (stamp f);
  pd_kept : ∀ q o, is_Some (new !! q) → old !! q = Some o → ¬ recorded q l → t !! q = Some o;
  pd_wait : ∀ q, is_Some (new !! q) → old !! q = None → ¬ recorded q l → t !! q = None;
  pd_gone : ∀ q, new !! q = None → t !! q = None ∨ (t !! q = old !! q ∧ is_Some (old !! q) ∧
    ∀ r, r `prefix_of` q → (mkChange r ChangeDelete ∉ l) ∧ (recorded r l → ∀ f, new !! r = Some f → fi_kind f = KDir)) }.
Definition apply_change (c : Change) (t : tree) : tree :=
  match ch_Kind c with
  | ChangeDelete => drop_below (ch_Path c) t
  | _ => match new !! ch_Path c with Some f => put_file (ch_Path c) f t | None => t end
  end.

Lemma done_nil : partly_done [] old.
Proof.
  assert (∀ q, ¬ recorded q []) as Hno by (intros q (k&_&H); by apply elem_of_nil in H). constructor.
  - intros q f _ H. by apply Hno in H.
  - done.
  - done.
  - intros q Hq. destruct (old !! q) as [o|] eqn:Ho; [right|by left]. split; [done|]. split; [done|]. intros r _.
    split; [by apply not_elem_of_nil|]. intros H. by apply Hno in H.
Qed.
Lemma not_diff_kind q o f : old !! q = Some o → new !! q = Some f → diff_at new old q = false → fi_kind o = fi_kind f.
Proof.
  intros Ho Hf. unfold diff_at. rewrite Ho, Hf. unfold differs, statDifferent. intros [H _]%orb_false_iff.
  do 4 apply orb_false_iff in H as [H _]. apply negb_false_iff, Z.eqb_eq in H.
  apply st_mode_inj in H as [H _]; [done|exact (do_files _ Hold _ _ Ho)|exact (do_files _ Hnew _ _ Hf)].
Qed.
Section Step.
  Context (l1 : list Change) (c : Change) (l2 : list Change) (t : tree).
  Context (E : layer_changes = l1 ++ c :: l2) (Hpd : partly_done l1 t).
Lemma c_ok : change_ok new old c.
Proof. apply layer_ok. rewrite E. apply elem_of_app. right. by apply elem_of_cons; left. Qed.
Lemma no_root : ¬ recorded [] l1.
Proof. intros (k&_&H). assert (mkChange [] k ∈ layer_changes) as Hin by (rewrite E; apply elem_of_app; by left). by apply layer_ok in Hin as [? _]. Qed.
(** A directory of the new one above the change is there. *)
Lemma above_there r f : r `prefix_of` ch_Path c → r ≠ ch_Path c → new !! r = Some f → fi_kind f = KDir → ∃ d, t !! r = Some d ∧ fi_kind d = KDir.
Proof.
  intros Hr Hne Hf Hk. destruct (decide (r = [])) as [->|Hroot].
  { destruct (do_root _ Hold) as (d&Hd&Hkd). exists d. split; [|done]. eapply pd_kept; eauto using no_root. }
  destruct (layer_complete r) as [Hrec|[[o Ho] Hdiff]]; [eauto|done| |].
  - exists (stamp f). split; [|done]. eapply pd_done; [done|done|]. by eapply above_first.
  - destruct (recorded_dec r l1) as [Hrec|Hrec]; [exists (stamp f); split; [by eapply pd_done|done]|].
    exists o. split; [eapply pd_kept; eauto|]. by rewrite (not_diff_kind r o f).
Qed.
Lemma dirs_above p : p `prefix_of` ch_Path c → is_Some (new !! p) → dirs_to t p.
Proof.
  intros Hp Hs q Hq Hne. destruct (ancestor_dir new q p Hnew Hs Hq Hne) as (d&Hd&Hk).
  eapply above_there; [by etrans| |exact Hd|exact Hk]. intros ->. apply Hne. by apply (anti_symm prefix).
Qed.
(** What is there at a file of both directories. *)
Lemma both_there q f o : new !! q = Some f → old !! q = Some o → t !! q = Some (stamp f) ∨ t !! q = Some o.
Proof. intros Hf Ho. destruct (recorded_dec q l1); [left; by eapply pd_done|right; eapply pd_kept; eauto]. Qed.
Lemma stamp_fits f : file_fits f → file_fits (stamp f).
Proof. unfold file_fits, stamp. cbn. intros [Hp Hf]. split; [done|]. destruct (fi_kind f); [|done..]. by destruct Hf as (?&?&_&?). Qed.
Lemma tree_fits q g : t !! q = Some g → file_fits g.
Proof.
  intros Hg. destruct (new !! q) as [f|] eqn:Hf.
  - destruct (recorded_dec q l1) as [Hr|Hr].
    + rewrite (pd_done _ _ Hpd q f Hf Hr) in Hg. injection Hg as <-. apply stamp_fits. exact (do_files _ Hnew _ _ Hf).
    + destruct (old !! q) as [o|] eqn:Ho; [|rewrite (pd_wait _ _ Hpd q) in Hg; by eauto].
      rewrite (pd_kept _ _ Hpd q o) in Hg by eauto. injection Hg as <-. exact (do_files _ Hold _ _ Ho).
  - destruct (pd_gone _ _ Hpd q Hf) as [Hn|(Ho&_)]; [congruence|]. rewrite Ho in Hg. exact (do_files _ Hold _ _ Hg).
Qed.
Lemma put_lookup p f q : put_file p f t !! q = if decide (q = p) then Some (stamp f)
  else match t !! p with
       | Some g => if bool_decide (fi_kind g = KDir) && bool_decide (fi_kind f = KDir) then t !! q else if Os.below p q then None else t !! q
       | None => t !! q
       end.
Proof.
  unfold put_file. destruct (decide (q = p)) as [->|Hne]; [by rewrite lookup_insert_eq|]. rewrite lookup_insert_ne by done.
  destruct (t !! p) as [g|]; [|done]. destruct (_ && _); [done|]. apply drop_below_lookup.
Qed.

Lemma put_done f : ch_Kind c ≠ ChangeDelete → new !! ch_Path c = Some f → partly_done (l1 ++ [c]) (put_file (ch_Path c) f t).
Proof.
  intros Hk Hf. destruct c_ok as [Hroot _]. constructor.
  - intros q g Hg [Hr|[<- _]]%recorded_snoc; rewrite put_lookup; [|by rewrite decide_True; simplify_eq].
    destruct (decide (q = ch_Path c)) as [->|Hne]; [by simplify_eq|]. pose proof (pd_done _ _ Hpd q g Hg Hr) as Ht.
    destruct (t !! ch_Path c) as [d|]; [|done]. destruct (_ && _); [done|]. destruct (Os.below (ch_Path c) q) eqn:Hb; [|done].
    apply below_iff in Hb. destruct Hne. symmetry. by eapply below_later.
  - intros q o [g Hg] Ho Hr. rewrite recorded_snoc in Hr. rewrite put_lookup. destruct (decide (q = ch_Path c)) as [->|Hne]; [tauto|].
    assert (t !! q = Some o) as Ht by (eapply pd_kept; eauto). destruct (t !! ch_Path c) as [d|] eqn:Hd; [|done].
    destruct (Os.below (ch_Path c) q) eqn:Hb; [|by destruct (_ && _)]. apply below_iff in Hb.
    destruct (ancestor_dir new (ch_Path c) q) as (f'&Hf'&Hkf); [done|eauto|done|done|]. destruct (ancestor_dir old (ch_Path c) q) as (o'&Ho'&Hko); [done|eauto|done|done|].
    assert (fi_kind d = KDir) as Hkd by (destruct (both_there (ch_Path c) f' o') as [H|H]; [done|done| |]; rewrite Hd in H; by injection H as ->).
    rewrite !bool_decide_true by congruence. done.
  - intros q Hq Ho Hr. rewrite recorded_snoc in Hr. rewrite put_lookup. destruct (decide (q = ch_Path c)) as [->|Hne]; [tauto|].
    assert (t !! q = None) as Ht by (eapply pd_wait; eauto). destruct (t !! ch_Path c); [|done]. by destruct (_ && _), (Os.below (ch_Path c) q).
  - intros q Hq. rewrite put_lookup. destruct (decide (q = ch_Path c)) as [->|Hne]; [congruence|].
    destruct (pd_gone _ _ Hpd q Hq) as [Ht|(Ht&[o Ho]&Hall)].
    { left. destruct (t !! ch_Path c); [|done]. by destruct (_ && _), (Os.below (ch_Path c) q). }
    destruct (Os.below (ch_Path c) q) eqn:Hb; [apply below_iff in Hb|].
    + destruct (ancestor_there old (ch_Path c) q) as [o' Ho']; [done|eauto|done|].
      assert (∃ d, t !! ch_Path c = Some d) as [d Hd] by (destruct (both_there (ch_Path c) f o') as [H|H]; eauto).
      rewrite Hd. destruct (bool_decide (fi_kind d = KDir) && bool_decide (fi_kind f = KDir)) eqn:Hm; [|by left].
      apply andb_prop in Hm as [_ Hm%bool_decide_eq_true]. right. split; [done|]. split; [eauto|]. intros r Hr. destruct (Hall r Hr) as [Hd1 Hd2]. split.
      * rewrite elem_of_app, list_elem_of_singleton. intros [?|<-]; done.
      * intros [H|[<- _]]%recorded_snoc g Hg; [by eapply Hd2|]. by simplify_eq.
    + right. split; [by destruct (t !! ch_Path c) as [d|]; [destruct (_ && _)|]|]. split; [eauto|]. intros r Hr. destruct (Hall r Hr) as [Hd1 Hd2]. split.
      * rewrite elem_of_app, list_elem_of_singleton. intros [?|<-]; done.
      * intros [H|[<- _]]%recorded_snoc g Hg; [by eapply Hd2|]. apply below_iff in Hr. congruence.
Qed.
Lemma drop_done : ch_Kind c = ChangeDelete → partly_done (l1 ++ [c]) (drop_below (ch_Path c) t).
Proof.
  intros Hk. destruct c_ok as [Hroot Hc]. rewrite Hk in Hc. destruct Hc as (p&n&Hp&Hno&Ho&_).
  assert (∀ q, is_Some (new !! q) → Os.below (ch_Path c) q = false) as Hnb.
  { intros q Hq. apply not_true_iff_false. intros Hb%below_iff. assert (is_Some (new !! ch_Path c)) as [? ?] by by eapply ancestor_there. congruence. }
  assert (∀ q, recorded q (l1 ++ [c]) ↔ recorded q l1) as Hrec by (intros q; rewrite recorded_snoc; tauto).
  constructor.
  - intros q f Hf Hr%Hrec. rewrite drop_below_lookup, Hnb by eauto. by eapply pd_done.
  - intros q o Hq Hqo Hr. rewrite Hrec in Hr. rewrite drop_below_lookup, Hnb by eauto. by eapply pd_kept.
  - intros q Hq Hqo Hr. rewrite Hrec in Hr. rewrite drop_below_lookup, Hnb by eauto. by eapply pd_wait.
  - intros q Hq. rewrite drop_below_lookup. destruct (Os.below (ch_Path c) q) eqn:Hb; [by left|].
    destruct (pd_gone _ _ Hpd q Hq) as [Ht|(Ht&Hoq&Hall)]; [by left|right]. split; [done|]. split; [done|]. intros r Hr. destruct (Hall r Hr) as [H1 H2].
    split; [|by rewrite Hrec]. rewrite elem_of_app, list_elem_of_singleton. intros [?|<-]; [done|]. cbn in Hb. apply below_iff in Hr. congruence.
Qed.
End Step.
(** The entry of the change does that. *)
Lemma entry_ends l1 c l2 u : layer_changes = l1 ++ c :: l2 → partly_done l1 (un_tree u) → ∃ h paths size, export_one new now c = Some h ∧
  unpack_one resolve u h = inr (mkUnpack (apply_change c (un_tree u)) paths size).
Proof.
  intros E Hpd. pose proof (dirs_above l1 c l2 (un_tree u) E Hpd) as Habove. pose proof (above_there l1 c l2 (un_tree u) E Hpd) as Hthere.
  destruct (c_ok l1 c l2 E) as [Hroot Hc]. unfold apply_change. destruct c as [p k]. cbn [ch_Path ch_Kind] in *.
  assert (k ≠ ChangeDelete → ∃ h paths size, export_one new now (mkChange p k) = Some h ∧
    unpack_one resolve u h = inr (mkUnpack (match new !! p with Some f => put_file p f (un_tree u) | None => un_tree u end) paths size)) as Hput.
  { intros Hk. assert (is_Some (new !! p)) as [f Hf] by by destruct k.
    destruct (unpack_add u p f) as (paths&size&H); [done|exact (do_names _ Hnew _ _ Hf)|exact (do_files _ Hnew _ _ Hf)| |intros g Hg _; by eapply tree_fits|].
    { apply Habove; [done|eauto]. }
    exists (addTarFile f (GoString.join "/" p)), paths, size. rewrite Hf. split; [|exact H]. unfold export_one. cbn. rewrite Hf. by destruct k. }
  destruct k; [by apply Hput|by apply Hput|]. destruct Hc as (q&n&->&Hno&Ho&[f Hq]&Hd).
  assert (q `prefix_of` q ++ [n] ∧ q ≠ q ++ [n]) as [Hpre Hne].
  { split; [by eexists|]. intros E'. apply (f_equal length) in E'. rewrite length_app in E'. cbn in E'. lia. }
  apply unpack_del; [destruct Ho as [o Ho]; exact (do_names _ Hold _ _ Ho)|apply Habove; [done|eauto]|].
  destruct (decide (fi_kind f = KDir)) as [Hkf|Hkf].
  { destruct (Hthere q f) as (d&Hdq&Hkd); [done|done|done|done|]. exists d. split; [done|]. split; [congruence|by left]. }
  destruct (ancestor_dir old q (q ++ [n])) as (o&Hoq&Hko); [done|done|done|done|].
  assert (fi_kind f = KBlock) as Hkb.
  { unfold isDir in Hd. destruct q as [|x q]; [destruct (do_root _ Hnew) as (?&?&?); congruence|]. rewrite Hq, dir_bit in Hd by exact (do_files _ Hnew _ _ Hq).
    by destruct (fi_kind f). }
  assert (recorded q l1) as Hrec.
  { eapply above_first; [exact E|done|done| |].
    - intros ->. destruct (do_root _ Hnew) as (?&?&?); congruence.
    - destruct (layer_complete q) as [|[_ Hdiff]]; [eauto|intros ->; destruct (do_root _ Hnew) as (?&?&?); congruence|done|].
      rewrite (not_diff_kind q o f) in Hko by done. congruence. }
  exists (stamp f). split; [by eapply pd_done|]. split; [cbn; congruence|]. right. intros r Hr Hqr.
  destruct (new !! r) as [g|] eqn:Hg; [destruct (ancestor_dir new q r) as (?&?&?); [done|eauto|done|done|congruence]|].
  destruct (pd_gone _ _ Hpd r Hg) as [|(_&_&Hall)]; [done|]. destruct (Hall q Hqr) as [_ Hd']. by rewrite (Hd' Hrec f Hq) in Hkf.
Qed.

Lemma unpack_rest l2 l1 u : layer_changes = l1 ++ l2 → partly_done l1 (un_tree u) →
  ∃ u', unpack_all resolve (omap (export_one new now) l2) u = inr u' ∧ partly_done layer_changes (un_tree u').
Proof.
  revert l1 u. induction l2 as [|c l2 IH]; intros l1 u E Hpd; [exists u; split; [done|]; by rewrite E, app_nil_r|].
  destruct (entry_ends l1 c l2 u E Hpd) as (h&paths&size&Hh&Hu). cbn. rewrite Hh. cbn. rewrite Hu.
  apply (IH (l1 ++ [c])); [by rewrite <-app_assoc|]. cbn. unfold apply_change.
  destruct (c_ok l1 c l2 E) as [_ Hc]. destruct (decide (ch_Kind c = ChangeDelete)) as [Hk|Hk].
  - rewrite Hk. by eapply drop_done.
  - assert (is_Some (new !! ch_Path c)) as [f Hf] by by destruct (ch_Kind c).
    rewrite Hf. assert (partly_done (l1 ++ [c]) (put_file (ch_Path c) f (un_tree u))) as H by by eapply put_done. by destruct (ch_Kind c).
Qed.

(** ** The directory that comes out *)

Lemma stamp_same f : file_fits f → differs (stamp f) f = false.
Proof.
  intros Hf. unfold differs, statDifferent. apply orb_false_iff. split; [|unfold cap_bytes; cbn; by rewrite bool_decide_true].
  change (st_mode (stamp f)) with (st_mode f). change (st_size (stamp f)) with (st_size f). cbn [stamp fi_uid fi_gid fi_rdev fi_mtime].
  rewrite !Z.eqb_refl, bool_decide_true by done. cbn [negb orb]. rewrite dir_bit by done. rewrite orb_false_r.
  assert (fi_kind f ≠ KDir → sameFsTimeSpec (match fi_kind f with KDir => (0, 0)%Z | _ => ((fi_mtime f).1, 0%Z) end) (fi_mtime f) = true) as Ht.
  { intros Hk. unfold sameFsTimeSpec. destruct (fi_kind f); [done|..]; cbn; by rewrite Z.eqb_refl, orb_true_r. }
  destruct (decide (fi_kind f = KDir)) as [->|Hk]; [done|]. rewrite Ht by done. apply andb_false_r.
Qed.
(** Two files that have the same contents and attributes. *)
Definition same_file (a b : option file) : Prop :=
  match a, b with
  | Some g, Some f => differs g f = false ∧ fi_data g = fi_data f
  | None, None => True
  | _, _ => False
  end.
Context (Hhonest : ∀ p o f, old !! p = Some o → new !! p = Some f → differs o f = false → fi_data o = fi_data f).
Lemma first_missing p : new !! p = None → ∃ r n, (r ++ [n]) `prefix_of` p ∧ is_Some (new !! r) ∧ new !! (r ++ [n]) = None.
Proof.
  induction p as [|n p IH] using rev_ind; intros Hp; [destruct new_root; congruence|].
  destruct (new !! p) as [f|] eqn:Hf; [by exists p, n; eauto|]. destruct IH as (r&m&Hpre&Hr&Hno); [done|].
  exists r, m. split; [|done]. etrans; [exact Hpre|by eexists].
Qed.
Lemma all_done t : partly_done layer_changes t → ∀ p, p ≠ [] → same_file (t !! p) (new !! p).
Proof.
  intros Hpd p Hp. unfold same_file. destruct (new !! p) as [f|] eqn:Hf.
  - destruct (layer_complete p) as [Hr|[[o Ho] Hd]]; [eauto|done| |].
    + rewrite (pd_done _ _ Hpd p f Hf Hr). split; [apply stamp_same; exact (do_files _ Hnew _ _ Hf)|done].
    + destruct (recorded_dec p layer_changes) as [Hr|Hr].
      * rewrite (pd_done _ _ Hpd p f Hf Hr). split; [apply stamp_same; exact (do_files _ Hnew _ _ Hf)|done].
      * rewrite (pd_kept _ _ Hpd p o) by eauto. unfold diff_at in Hd. rewrite Ho, Hf in Hd. split; [done|]. by eapply Hhonest.
  - destruct (pd_gone _ _ Hpd p Hf) as [->|(->&[o Ho]&Hall)]; [done|exfalso].
    destruct (first_missing p) as (r&n&Hpre&[g Hg]&Hno); [by rewrite Hf|]. destruct (Hall (r ++ [n]) Hpre) as [Hdel _].
    assert (r `prefix_of` p) as Hrp by (etrans; [by eexists|exact Hpre]).
    destruct (decide (fi_kind g = KDir)) as [Hk|Hk].
    + apply Hdel, layer_deletes; [eauto|by eapply isDir_dir|by eapply ancestor_there|done].
    + assert (r ≠ []) as Hroot by (intros ->; destruct (do_root _ Hnew) as (?&?&?); congruence).
      assert (r ≠ p) as Hrne by (intros ->; congruence).
      destruct (ancestor_dir old r p) as (d&Hd&Hkd); [done|eauto|done|done|].
      destruct (layer_complete r) as [Hr|[_ Hdiff]]; [eauto|done| |].
      * destruct (Hall r Hrp) as [_ H]. by rewrite (H Hr g Hg) in Hk.
      * rewrite (not_diff_kind r d g) in Hkd by done. done.
Qed.
Lemma done_root t : partly_done layer_changes t → t !! [] = old !! [].
Proof.
  intros Hpd. destruct (do_root _ Hold) as (o&Ho&_). rewrite Ho. apply (pd_kept _ _ Hpd); [apply new_root|done|].
  intros (k&_&H). by apply layer_ok in H as [? _].
Qed.
Lemma same_kind g f : file_fits g → file_fits f → differs g f = false → fi_kind g = fi_kind f.
Proof.
  intros Hg Hf. unfold differs, statDifferent. intros [H _]%orb_false_iff. do 4 apply orb_false_iff in H as [H _].
  apply negb_false_iff, Z.eqb_eq in H. by destruct (st_mode_inj g f).
Qed.
Lemma done_fits t q g : partly_done layer_changes t → t !! q = Some g → file_fits g.
Proof. intros Hpd. exact (tree_fits _ _ Hpd q g). Qed.
Lemma done_ok t : partly_done layer_changes t → dir_ok t.
Proof.
  intros Hpd. pose proof (all_done t Hpd) as Hsame. pose proof (done_root t Hpd) as Hroot. constructor.
  - rewrite Hroot. apply (do_root _ Hold).
  - intros p n f Hf. specialize (Hsame (p ++ [n]) (child_ne p n)) as Hc. rewrite Hf in Hc. destruct (new !! (p ++ [n])) as [f'|] eqn:Hf'; [|done].
    destruct (do_parent _ Hnew _ _ _ Hf') as (d&Hd&Hk). destruct (decide (p = [])) as [->|Hp]; [rewrite Hroot; apply (do_root _ Hold)|].
    specialize (Hsame p Hp). rewrite Hd in Hsame. destruct (t !! p) as [g|] eqn:Hg; [|done]. destruct Hsame as [Hs _]. exists g. split; [done|].
    rewrite (same_kind g d); [done|by eapply done_fits|exact (do_files _ Hnew _ _ Hd)|done].
  - intros p f Hf. destruct (decide (p = [])) as [->|Hp]; [constructor|]. specialize (Hsame p Hp). rewrite Hf in Hsame.
    destruct (new !! p) as [f'|] eqn:Hf'; [|done]. exact (do_names _ Hnew _ _ Hf').
  - intros p f Hf. by eapply done_fits.
Qed.
End Unpacking.

(** Two directories that have the same files have no changes. *)
Lemma same_no_changes order new t fuel p : (∀ l, order l ≡ₚ l) → dir_ok new → dir_ok t → (∀ q, q ≠ [] → same_file (t !! q) (new !! q)) →
  is_Some (new !! p) → addChanges order fuel new t p false true = [].
Proof.
  intros Horder Hnew Ht Hsame. revert p. induction fuel as [|fuel IH]; intros p Hp; [done|]. cbn [addChanges].
  assert (is_Some (t !! p)) as Htp.
  { destruct (decide (p = [])) as [->|Hne]; [destruct (do_root _ Ht) as (f&->&_); eauto|]. specialize (Hsame p Hne).
    destruct Hp as [f Hf]. rewrite Hf in Hsame. destruct (t !! p); [eauto|done]. }
  set (kids := if true && isDir new p then children t p else []).
  assert (∀ n, is_Some (new !! (p ++ [n])) → bool_decide (n ∈ kids) = true) as Hkids.
  { intros n Hn. pose proof (old_child new t Hnew Ht p n Hp Hn) as H. rewrite (bool_decide_true (is_Some (t !! p))) in H by done. unfold kids. rewrite H.
    apply bool_decide_eq_true. specialize (Hsame (p ++ [n]) (child_ne p n)). destruct Hn as [f Hf]. rewrite Hf in Hsame. destruct (t !! (p ++ [n])); [eauto|done]. }
  set (inside := flat_map _ _). assert (inside = []) as ->.
  { unfold inside. assert (∀ n, n ∈ order (children new p) → is_Some (new !! (p ++ [n]))) as Hin by (intros n; by rewrite Horder, children_spec).
    induction (order (children new p)) as [|n l IHl]; [done|]. cbn [flat_map]. rewrite IHl by (intros m Hm; apply Hin; by apply elem_of_cons; right).
    assert (is_Some (new !! (p ++ [n]))) as Hn by (apply Hin; by apply elem_of_cons; left). rewrite Hkids by done.
    specialize (Hsame (p ++ [n]) (child_ne p n)). destruct Hn as [f Hf]. rewrite Hf in *. destruct (t !! (p ++ [n])) as [g|]; [|done].
    destruct Hsame as [-> _]. cbn [app]. by rewrite IH by eauto. }
  assert (filter (λ n, n ∉ children new p) kids = []) as ->.
  { apply elem_of_nil_inv. intros n [Hno Hn]%list_elem_of_filter. apply Hno, children_spec. unfold kids in Hn. cbn in Hn.
    destruct (isDir new p); [|by apply elem_of_nil in Hn]. apply children_spec in Hn as [g Hg]. specialize (Hsame (p ++ [n]) (child_ne p n)).
    rewrite Hg in Hsame. destruct (new !! (p ++ [n])); [eauto|done]. }
  assert (order [] = []) as -> by (apply Permutation_nil_r, Horder). done.
Qed.

(** ** The round trip *)

(** How the kernel walks to a path: through directories, and not through a file. *)
Definition resolve_ok (resolve : tree → path → error + path) : Prop :=
  (∀ t p, dirs_to t p → resolve t p = inr p) ∧
  (∀ t p q f, dirs_to t q → t !! q = Some f → fi_kind f ≠ KDir → fi_kind f ≠ KSymlink → q `prefix_of` p → q ≠ p → resolve t p = inl (OsError ENOTDIR)).
(** Contents do not change behind the attributes. *)
Definition honest (new old : tree) : Prop :=
  ∀ p o f, old !! p = Some o → new !! p = Some f → differs o f = false → fi_data o = fi_data f.

(** C9. A layer comes back: the changes between two directories, exported in any order the
    maps yield them and unpacked over the old directory, give a directory with exactly the
    files of the new one, with the same contents and attributes; and there is no change
    between the two any more.  The contents of a file have not changed behind its size, time
    and attributes, which are what is compared. *)
Theorem diff_apply_roundtrip resolve order new old now :
  resolve_ok resolve → (∀ l, order l ≡ₚ l) → dir_ok new → dir_ok old → honest new old →
  ∃ size t, UnpackLayer resolve old (ExportChanges new now (ChangesDirs order new old)) = inr (size, t) ∧
    (∀ p, p ≠ [] → same_file (t !! p) (new !! p)) ∧ ChangesDirs order new t = [].
Proof.
  intros [Hdirs Hnotdir] Horder Hnew Hold Hhonest.
  destruct (unpack_rest resolve Hdirs Hnotdir order Horder new old Hnew Hold now (layer_changes order new old) [] (mkUnpack old ∅ 0)) as (u&Hu&Hpd);
    [done|by apply done_nil|].
  unfold UnpackLayer, ExportChanges. fold (layer_changes order new old). rewrite Hu. exists (un_size u), (un_tree u). split; [done|].
  pose proof (all_done order Horder new old Hnew Hold Hhonest (un_tree u) Hpd) as Hsame. split; [done|].
  apply same_no_changes; [done|done|exact (done_ok order Horder new old Hnew Hold Hhonest _ Hpd)|done|]. destruct (do_root _ Hnew) as (f&->&_). eauto.
Qed.

(** A walk that follows no symbolic links. *)
Fixpoint walk_from (t : tree) (done rest : path) : error + path :=
  match rest with
  | [] => inr done
  | n :: rest =>
      match t !! done with
      | Some d => if bool_decide (fi_kind d = KDir) then walk_from t (done ++ [n]) rest else inl (OsError ENOTDIR)
      | None => inl (OsError ENOENT)
      end
  end.
Definition walk (t : tree) (p : path) : error + path := walk_from t [] p.
Lemma walk_ok : resolve_ok walk.
Proof.
  assert (∀ (t : tree) rest (done : path), dirs_to t (done ++ rest) → walk_from t done rest = inr (done ++ rest)) as Hgo.
  { intros t rest. induction rest as [|n rest IH]; intros done H; cbn [walk_from]; [by rewrite app_nil_r|].
    destruct (H done) as (d&Hd&Hk); [by eexists|intros E; by apply (f_equal length) in E; rewrite length_app in E; cbn in E; lia|].
    rewrite Hd, bool_decide_true by done. replace (done ++ n :: rest) with ((done ++ [n]) ++ rest) in * by by rewrite <- app_assoc. by apply IH. }
  assert (∀ (t : tree) f k n rest (done : path), dirs_to t (done ++ k) → t !! (done ++ k) = Some f → fi_kind f ≠ KDir →
    walk_from t done (k ++ n :: rest) = inl (OsError ENOTDIR)) as Hstop.
  { intros t f k n rest. induction k as [|m k IH]; intros done H Hf Hk; cbn [walk_from app].
    - rewrite app_nil_r in Hf. by rewrite Hf, bool_decide_false.
    - destruct (H done) as (d&Hd&Hkd); [by eexists|intros E; by apply (f_equal length) in E; rewrite length_app in E; cbn in E; lia|].
      rewrite Hd, bool_decide_true by done. replace (done ++ m :: k) with ((done ++ [m]) ++ k) in * by by rewrite <- app_assoc. by apply IH. }
  split; [intros t p; by apply (Hgo t p [])|]. intros t p q f Hq Hf Hk _ [k ->] Hne.
  destruct k as [|n k]; [by rewrite app_nil_r in Hne|]. by apply (Hstop t f q n k []).
Qed.

(** The conditions, as a test. *)
Definition fileb (f : file) : bool :=
  (0 <=? fi_perm f)%Z && (fi_perm f <? 0x1000)%Z &&
  match fi_kind f with
  | KDir => bool_decide (fi_rdev f = (0, 0)%Z) && bool_decide (fi_data f = EmptyString) && bool_decide (fi_mtime f = (0, 0)%Z) && bool_decide (fi_cap f = None)
  | KReg => bool_decide (fi_rdev f = (0, 0)%Z)
  | KSymlink => bool_decide (fi_rdev f = (0, 0)%Z) && (fi_perm f =? 0x1ff)%Z
  | _ => false
  end.
Definition dirb (t : tree) : bool :=
  match t !! [] with Some f => bool_decide (fi_kind f = KDir) | None => false end &&
  forallb (λ '(p, f), fileb f && forallb (λ c, Filepath.plain c && negb (GoString.has_prefix c WhiteoutPrefix)) p &&
    (bool_decide (p = []) || match t !! parent_dir p with Some d => bool_decide (fi_kind d = KDir) | None => false end)) (map_to_list t).
Definition honestb (new old : tree) : bool :=
  forallb (λ '(p, f), match old !! p with Some o => differs o f || bool_decide (fi_data o = fi_data f) | None => true end) (map_to_list new).
Lemma fileb_fits f : fileb f = true → file_fits f.
Proof.
  unfold fileb, file_fits. rewrite !andb_true_iff. intros [[H1 H2] H]. split; [lia|].
  destruct (fi_kind f); try done; rewrite ?andb_true_iff, ?bool_decide_eq_true in H; repeat split; try tauto. lia.
Qed.
Lemma dirb_ok t : dirb t = true → dir_ok t.
Proof.
  unfold dirb. rewrite andb_true_iff, forallb_forall. intros [Hr Hall].
  assert (∀ p f, t !! p = Some f → fileb f = true ∧ forallb (λ c, Filepath.plain c && negb (GoString.has_prefix c WhiteoutPrefix)) p = true ∧
    (bool_decide (p = []) || match t !! parent_dir p with Some d => bool_decide (fi_kind d = KDir) | None => false end) = true) as Hp.
  { intros p f Hf. specialize (Hall (p, f)). rewrite !andb_true_iff in Hall. destruct Hall as [[??]?]; [|done]. by apply list_elem_of_In, elem_of_map_to_list. }
  constructor.
  - destruct (t !! []) as [f|]; [|done]. apply bool_decide_eq_true in Hr. eauto.
  - intros p n f Hf. destruct (Hp _ _ Hf) as (_&_&H). rewrite bool_decide_false in H by apply child_ne.
    unfold parent_dir in H. rewrite removelast_last in H. cbn in H. destruct (t !! p) as [d|]; [|done]. apply bool_decide_eq_true in H. eauto.
  - intros p f Hf. destruct (Hp _ _ Hf) as (_&H&_). rewrite forallb_forall in H. apply Forall_forall. intros c Hc%list_elem_of_In.
    specialize (H c Hc). apply andb_true_iff in H as [? ?%negb_true_iff]. done.
  - intros p f Hf. by apply fileb_fits, (Hp p f).
Qed.
Lemma honestb_honest new old : honestb new old = true → honest new old.
Proof.
  unfold honestb. rewrite forallb_forall. intros H p o f Ho Hf Hd. specialize (H (p, f)). cbn in H. rewrite Ho, Hd in H.
  cbn [orb] in H. eapply bool_decide_eq_true. apply H. by apply list_elem_of_In, elem_of_map_to_list.
Qed.

Definition dir_file : file := mkFile KDir 0x1ed 0 0 (0, 0)%Z "" (0, 0)%Z None.
Definition reg_file (data : string) (mtime : Z) : file := mkFile KReg 0x1a4 0 0 (0, 0)%Z data (mtime, 0)%Z None.
Definition tree_old : tree := list_to_map [([], dir_file); (["bin"], dir_file); (["bin"; "sh"], reg_file "v1" 5%Z); (["bin"; "ed"], reg_file "ed" 5%Z);
  (["etc"], dir_file); (["etc"; "hosts"], reg_file "h" 6%Z); (["var"], reg_file "plain" 7%Z); (["tmp"], dir_file); (["tmp"; "x"], reg_file "x" 8%Z)].
Definition tree_new : tree := list_to_map [([], dir_file); (["bin"], dir_file); (["bin"; "sh"], reg_file "version 2" 9%Z);
  (["etc"], dir_file); (["etc"; "hosts"], reg_file "h" 6%Z); (["var"], dir_file); (["var"; "log"], reg_file "line" 9%Z);
  (["tmp"], mkFile KSymlink 0x1ff 0 0 (0, 0)%Z "var" (9, 0)%Z None)].
Lemma diff_apply_roundtrip_witness :
  ChangesDirs id tree_new tree_old ≠ [] ∧
  ∃ size t, UnpackLayer walk tree_old (ExportChanges tree_new (10, 0)%Z (ChangesDirs id tree_new tree_old)) = inr (size, t) ∧
    (∀ p, p ≠ [] → same_file (t !! p) (tree_new !! p)) ∧ ChangesDirs id tree_new t = [].
Proof.
  split; [by vm_compute|]. apply (diff_apply_roundtrip walk id tree_new tree_old (10, 0)%Z walk_ok); [done| | |];
    [apply dirb_ok|apply dirb_ok|apply honestb_honest]; by vm_compute.
Defined.
