(* ===== verification/OvlArchive.v ===== *)
(** * The archive of a layer of the driver overlay2

    [src/engine/pkg/archive/archive.go]: [TarWithOptions] walks the directory of a layer and
    [Unpack] unpacks an archive, with the options [Diff] and [ApplyDiff] of
    [src/engine/daemon/graphdriver/overlay2/overlay.go] give them; [archive_linux.go]: how
    whiteouts and opaque directories of the overlay file system are written and read. *)

From S2P Require Import Prelude FileSys Archive.

(** The directory of a layer: its files, and the directories that have the attribute
    [trusted.overlay.opaque] with the value "y". *)
Record layer_dir := mkLayer { ly_tree : tree; ly_opaque : gset path }.
(** A whiteout of the overlay file system. *)
Definition whiteout (f : file) : bool := bool_decide (fi_kind f = KChar) && bool_decide (fi_rdev f = (0, 0)%Z).

(** ** Writing *)

(** [filepath.Join] of the elements of a relative name. *)
Definition rel_join (elems : list string) : string := GoString.join "/" (foldl rel_push [] elems).
(** [overlayWhiteoutConverter.ConvertWrite] of the file [f]: the header, changed, and the one
    that is to be written after it. *)
Definition ConvertWrite (h : Header) (f : file) (opaque : bool) : Header * option Header :=
  let h :=
    if bool_decide (fi_kind f = KChar) && bool_decide (h_Dev h = (0, 0)%Z) then
      let elems := GoString.split "/" (h_Name h) in
      mkHeader (rel_join (removelast elems ++ [WhiteoutPrefix +:+ default EmptyString (last elems)])) KReg 0x180 (h_Uid h) (h_Gid h) 0
        (h_Linkname h) (h_Dev h) (h_Cap h) (h_ModTime h) EmptyString
    else h in
  let wo :=
    if bool_decide (fi_kind f = KDir) && opaque then
      Some (mkHeader (rel_join (GoString.split "/" (h_Name h) ++ [WhiteoutOpaqueDir])) KReg (Z.land (h_Mode h) 0x1ff) (h_Uid h) (h_Gid h) 0
        EmptyString (0, 0)%Z None (0, 0)%Z EmptyString)
    else None in
  (h, wo).
(** [addTarFile] with the converter. *)
Definition tar_entries (f : file) (opaque : bool) (name : string) : list Header :=
  let '(h, wo) := ConvertWrite (addTarFile f name) f opaque in h :: match wo with Some w => [w] | None => [] end.

(** [sort.Strings]. *)
Definition str_le (a b : string) : Prop := String.leb a b = true.
#[export] Instance str_le_dec : RelDecision str_le.
Proof. intros a b. unfold str_le. apply _. Defined.
(** [filepath.Walk] below [p]: the names of a directory in order, each with what is below it. *)
Fixpoint tar_walk (fuel : nat) (ly : layer_dir) (p : path) : list Header :=
  match fuel with
  | 0 => []
  | S fuel =>
      flat_map (λ name,
        let c := p ++ [name] in
        match ly_tree ly !! c with
        | Some f =>
            tar_entries f (bool_decide (c ∈ ly_opaque ly)) (GoString.join "/" c) ++
            (if bool_decide (fi_kind f = KDir) then tar_walk fuel ly c else [])
        | None => []
        end) (merge_sort str_le (children (ly_tree ly) p))
  end.
(** [TarWithOptions] with no files to include or to exclude: the directory itself is left out. *)
Definition TarWithOptions (ly : layer_dir) : list Header := tar_walk (S (depth (ly_tree ly))) ly [].

(** ** Reading *)

Section Reading.
  (** The kernel's walk to a path, as in [UnpackLayer], and the time. *)
  Context (resolve : tree → path → error + path) (now : Z * Z).

(** The marks of the directories that are there. *)
Definition with_tree (ly : layer_dir) (t : tree) : layer_dir := mkLayer t (filter (λ p, is_Some (t !! p)) (ly_opaque ly)).
(** [overlayWhiteoutConverter.ConvertRead]: whether the file is to be written, and the layer. *)
Definition ConvertRead (h : Header) (p : path) (ly : layer_dir) : error + bool * layer_dir :=
  let base := base_name p in
  let dir := parent_dir p in
  let t := ly_tree ly in
  if bool_decide (base = WhiteoutOpaqueDir) then
    match resolve t dir with
    | inl e => inl e
    | inr q =>
        match t !! q with
        | None => inl (OsError ENOENT)
        | Some f =>
            if bool_decide (fi_kind f = KSymlink) then
              match resolve t p with inl e => inl e | inr q => inr (false, mkLayer t ({[parent_dir q]} ∪ ly_opaque ly)) end
            else inr (false, mkLayer t ({[q]} ∪ ly_opaque ly))
        end
    end
  else if GoString.has_prefix base WhiteoutPrefix then
    match resolve t (Filepath.Join dir [GoString.drop 4 base]) with
    | inl e => inl e
    | inr q =>
        match t !! q with
        | Some _ => inl (OsError EEXIST)
        | None => inr (false, mkLayer (<[q := mkFile KChar 0 (h_Uid h) (h_Gid h) (0, 0)%Z EmptyString now None]> t) (ly_opaque ly))
        end
    end
  else inr (true, ly).

(** One entry of [Unpack], which [chrootarchive] calls with the layer as the root, so that no
    name leads out of it; directories it has to make get the mode 0777 less the umask 0022. *)
Definition unpack_entry (ly : layer_dir) (h : Header) : error + layer_dir :=
  let t := ly_tree ly in
  let p := Filepath.Join [] [h_Name h] in
  let t1 := match file_Lstat resolve t (parent_dir p) with
            | inl e => if bool_decide (e = OsError ENOENT) then file_MkdirAll resolve t 0x1ed [] (parent_dir p) else inr t
            | inr _ => inr t
            end in
  match t1 with
  | inl e => inl e
  | inr t =>
      let create (t : tree) :=
        match ConvertRead h p (with_tree ly t) with
        | inl e => inl e
        | inr (false, ly) => inr ly
        | inr (true, ly) => match createTarFile resolve (ly_tree ly) p h with inl e => inl e | inr t => inr (with_tree ly t) end
        end in
      match file_Lstat resolve t p with
      | inr f =>
          if bool_decide (fi_kind f = KDir) && bool_decide (clean_name (h_Name h) = []) && negb (GoString.has_prefix (h_Name h) "/") then inr (with_tree ly t)
          else if bool_decide (fi_kind f = KDir) && bool_decide (h_Kind h = KDir) then create t
          else match file_RemoveAll resolve t p with inl e => inl e | inr t => create t end
      | inl _ => create t
      end
  end.
Fixpoint Unpack (hs : list Header) (ly : layer_dir) : error + layer_dir :=
  match hs with
  | [] => inr ly
  | h :: hs => match unpack_entry ly h with inl e => inl e | inr ly => Unpack hs ly end
  end.
End Reading.
