(* ===== verification/OvlArchiveProps.v ===== *)
(** * What the archive of a layer holds

    The layer that [Unpack] makes of the archive that [TarWithOptions] makes of a layer:
    the same files with the same attributes, the same whiteouts and the same opaque
    directories. *)

From S2P Require Import Prelude FileSys Archive ArchiveDiff ArchiveProps OvlArchive.

(** ** Names of whiteouts *)

Lemma rel_push_plain acc (p : path) : Forall (λ c, Filepath.plain c = true) p → foldl rel_push acc p = acc ++ p.
Proof.
  intros Hc. revert acc. induction Hc as [|c p Hc _ IH]; intros acc; cbn [foldl]; [by rewrite app_nil_r|].
  destruct (plain_not_empty c Hc) as (H1&H2&H3). unfold rel_push at 2. rewrite !bool_decide_false by done. cbn [orb]. by rewrite IH, <-app_assoc.
Qed.
Lemma split_entry (p : path) : p ≠ [] → Forall (λ c, Filepath.plain c = true) p → GoString.split "/" (GoString.join "/" p) = p.
Proof. intros Hp Hc. exact (split_components p false Hp Hc). Qed.
Lemma whiteout_name (p : path) n : Forall (λ c, Filepath.plain c = true) (p ++ [n]) →
  let elems := GoString.split "/" (GoString.join "/" (p ++ [n])) in
  rel_join (removelast elems ++ [WhiteoutPrefix +:+ default EmptyString (last elems)]) = entry_name (p ++ [WhiteoutPrefix +:+ n]) false.
Proof.
  intros Hc. cbn zeta. rewrite split_entry by (done || apply child_ne). rewrite removelast_last, last_snoc. cbn [default from_option id].
  unfold rel_join. rewrite rel_push_plain; [done|]. apply Forall_app in Hc as [Hp Hn]. rewrite Forall_singleton in Hn.
  apply Forall_app_2; [done|]. constructor; [by apply plain_wh|done].
Qed.
Lemma opaque_name (p : path) : p ≠ [] → Forall (λ c, Filepath.plain c = true) p →
  rel_join (GoString.split "/" (GoString.join "/" p +:+ "/") ++ [WhiteoutOpaqueDir]) = entry_name (p ++ [WhiteoutOpaqueDir]) false.
Proof.
  intros Hp Hc. pose proof (split_components p true Hp Hc) as Hs. cbn iota in Hs. rewrite Hs. unfold rel_join.
  rewrite !foldl_app, (rel_push_plain [] p) by done. done.
Qed.

(** ** One entry *)

(** The file that is unpacked for [f]. *)
Definition unpacked (now : Z * Z) (f : file) : file :=
  if whiteout f then mkFile KChar 0 (fi_uid f) (fi_gid f) (0, 0)%Z EmptyString now None else stamp f.
Lemma unpacked_kind now f : fi_kind (unpacked now f) = fi_kind f.
Proof. destruct f as [k ??? r ???]. unfold unpacked, whiteout. cbn. destruct k; try done. by destruct (bool_decide (r = _)). Qed.

(** Names of the layer are not names of whiteouts, and marks are those of its files. *)
Record layer_ok (ly : layer_dir) : Prop := mkLayerOk {
  lo_names : ∀ q f, ly_tree ly !! q = Some f → Forall name_fits q;
  lo_marks : ∀ q, q ∈ ly_opaque ly → is_Some (ly_tree ly !! q) }.
Definition put_layer (p : path) (f : file) (ly : layer_dir) : layer_dir := mkLayer (<[p := f]> (ly_tree ly)) (ly_opaque ly).
Definition mark (p : path) (ly : layer_dir) : layer_dir := mkLayer (ly_tree ly) ({[p]} ∪ ly_opaque ly).

Section Entries.
  Context (resolve : tree → path → error + path) (now : Z * Z).
  Context (Hdirs : ∀ t p, dirs_to t p → resolve t p = inr p).

Lemma with_tree_same ly t : (∀ q, q ∈ ly_opaque ly → is_Some (t !! q)) → with_tree ly t = mkLayer t (ly_opaque ly).
Proof. intros H. unfold with_tree. f_equal. apply set_eq. intros q. rewrite elem_of_filter. intuition. Qed.
Lemma with_tree_id ly : layer_ok ly → with_tree ly (ly_tree ly) = ly.
Proof. intros [_ H]. rewrite with_tree_same by done. by destruct ly. Qed.
Lemma dirs_sibling (t : tree) (p : path) a b : dirs_to t (p ++ [a]) → dirs_to t (p ++ [b]).
Proof.
  intros H q Hq Hne. apply prefix_snoc_inv in Hq as [->|Hq]; [done|]. apply H; [by apply prefix_app_r|].
  intros ->. apply prefix_length in Hq. rewrite length_app in Hq. cbn in Hq. lia.
Qed.
(** An entry whose parent is there and whose own path is free. *)
Lemma unpack_free ly h p slash : layer_ok ly → p ≠ [] → Forall (λ c, Filepath.plain c = true) p → h_Name h = entry_name p slash →
  dirs_to (ly_tree ly) p → ly_tree ly !! p = None →
  unpack_entry resolve now ly h =
    match ConvertRead resolve now h p ly with
    | inl e => inl e
    | inr (false, ly) => inr ly
    | inr (true, ly) => match createTarFile resolve (ly_tree ly) p h with inl e => inl e | inr t => inr (with_tree ly t) end
    end.
Proof.
  intros Hok Hp Hc Hname Hd Hno. unfold unpack_entry. rewrite Hname, entry_join by done.
  destruct (parent_Lstat resolve Hdirs (ly_tree ly) p Hp Hd) as [d ->].
  assert (file_Lstat resolve (ly_tree ly) p = inl (OsError ENOENT)) as -> by (unfold file_Lstat; by rewrite Hdirs, Hno).
  by rewrite with_tree_id.
Qed.
Lemma base_snoc (p : path) n : base_name (p ++ [n]) = n.
Proof. unfold base_name. by rewrite last_snoc. Qed.
Lemma parent_snoc (p : path) n : parent_dir (p ++ [n]) = p.
Proof. unfold parent_dir. by rewrite removelast_last. Qed.

Lemma fits_not_wh n : name_fits n → n ≠ WhiteoutOpaqueDir ∧ GoString.has_prefix n WhiteoutPrefix = false.
Proof. intros [_ H]. split; [|done]. intros ->. by vm_compute in H. Qed.
(** A file other than a whiteout. *)
Lemma unpack_file ly p n f : layer_ok ly → Forall name_fits (p ++ [n]) → file_fits f → dirs_to (ly_tree ly) (p ++ [n]) → ly_tree ly !! (p ++ [n]) = None →
  unpack_entry resolve now ly (addTarFile f (GoString.join "/" (p ++ [n]))) = inr (put_layer (p ++ [n]) (stamp f) ly).
Proof.
  intros Hok Hn Hf Hd Hno. rewrite (unpack_free ly _ (p ++ [n]) (bool_decide (fi_kind f = KDir))) by (done || apply child_ne || by apply fitting_plain).
  apply Forall_app in Hn as [Hp Hnn]. rewrite Forall_singleton in Hnn. destruct (fits_not_wh n Hnn) as [H1 H2].
  unfold ConvertRead. rewrite base_snoc, (bool_decide_false (n = _)) by done. rewrite H2.
  rewrite (create_put resolve Hdirs) by auto. unfold put_layer. rewrite with_tree_same; [done|].
  intros q Hq. destruct (lo_marks _ Hok q Hq) as [g Hg]. destruct (decide (q = p ++ [n])) as [->|Hne]; [congruence|]. rewrite lookup_insert_ne by done. eauto.
Qed.
Lemma wh_free ly p n : layer_ok ly → ly_tree ly !! (p ++ [WhiteoutPrefix +:+ n]) = None.
Proof.
  intros Hok. apply eq_None_not_Some. intros [f Hf]. apply (lo_names _ Hok) in Hf. apply Forall_app in Hf as [_ Hf].
  rewrite Forall_singleton in Hf. destruct Hf as [_ Hf]. by rewrite has_prefix_wh in Hf.
Qed.
Lemma unpack_whiteout ly p n h : layer_ok ly → Forall name_fits (p ++ [n]) → dirs_to (ly_tree ly) (p ++ [n]) → ly_tree ly !! (p ++ [n]) = None →
  h_Name h = entry_name (p ++ [WhiteoutPrefix +:+ n]) false →
  unpack_entry resolve now ly h = inr (put_layer (p ++ [n]) (mkFile KChar 0 (h_Uid h) (h_Gid h) (0, 0)%Z EmptyString now None) ly).
Proof.
  intros Hok Hn Hd Hno Hname. pose proof (fitting_plain _ Hn) as Hpl. apply Forall_app in Hpl as [Hpp Hpn]. apply Forall_app in Hn as [Hp Hnn].
  rewrite Forall_singleton in Hnn, Hpn. rewrite (unpack_free ly h (p ++ [WhiteoutPrefix +:+ n]) false); [|done|apply child_ne| |done| |by apply wh_free].
  2:{ apply Forall_app_2; [done|]. constructor; [by apply plain_wh|done]. }
  2:{ by eapply dirs_sibling. }
  unfold ConvertRead. rewrite base_snoc, parent_snoc, has_prefix_wh. rewrite (bool_decide_false (WhiteoutPrefix +:+ n = _)).
  2:{ intros E. assert (n = ".wh..opq") as -> by (by injection E). destruct Hnn as [_ Hnn]. by vm_compute in Hnn. }
  change (GoString.drop 4 (WhiteoutPrefix +:+ n)) with n. rewrite Filepath.Join_plain by by constructor. by rewrite Hdirs, Hno.
Qed.
Lemma unpack_mark ly p n h f : layer_ok ly → Forall name_fits (p ++ [n]) → dirs_to (ly_tree ly) (p ++ [n]) → ly_tree ly !! (p ++ [n]) = Some f → fi_kind f = KDir →
  h_Name h = entry_name ((p ++ [n]) ++ [WhiteoutOpaqueDir]) false →
  unpack_entry resolve now ly h = inr (mark (p ++ [n]) ly).
Proof.
  intros Hok Hn Hd Hf Hk Hname.
  assert (dirs_to (ly_tree ly) ((p ++ [n]) ++ [WhiteoutOpaqueDir])) as Hd2.
  { intros q Hq Hne. apply prefix_snoc_inv in Hq as [->|Hq]; [done|]. destruct (decide (q = p ++ [n])) as [->|Hqn]; [eauto|by apply Hd]. }
  rewrite (unpack_free ly h ((p ++ [n]) ++ [WhiteoutOpaqueDir]) false); [|done|apply child_ne| |done|done|].
  2:{ apply Forall_app_2; [by apply fitting_plain|]. by constructor. }
  2:{ exact (wh_free ly (p ++ [n]) ".wh..opq" Hok). }
  unfold ConvertRead. rewrite base_snoc, parent_snoc, bool_decide_true by done. rewrite Hdirs, Hf by done. by rewrite Hk.
Qed.
End Entries.

(** ** The whole layer *)

Lemma Unpack_app resolve now a b ly : Unpack resolve now (a ++ b) ly = match Unpack resolve now a ly with inl e => inl e | inr ly => Unpack resolve now b ly end.
Proof. revert ly. induction a as [|h a IH]; intros ly; cbn [app Unpack]; [done|]. destruct (unpack_entry resolve now ly h); [done|apply IH]. Qed.
(** [q] is one of the names of [p], or below it. *)
Definition covered (p : path) (names : list string) (q : path) : bool := existsb (λ n, Os.below (p ++ [n]) q) names.
Lemma covered_spec p names q : covered p names q = true ↔ ∃ n k, n ∈ names ∧ q = p ++ n :: k.
Proof.
  unfold covered. rewrite existsb_exists. split.
  - intros (n&Hn&Hb). apply below_iff in Hb as [k ->]. exists n, k. split; [by apply list_elem_of_In|]. by rewrite <-app_assoc.
  - intros (n&k&Hn&->). exists n. split; [by apply list_elem_of_In|]. apply below_iff. exists k. by rewrite <-app_assoc.
Qed.

Section Walk.
  Context (resolve : tree → path → error + path) (now : Z * Z).
  Context (Hdirs : ∀ t p, dirs_to t p → resolve t p = inr p).
  Context (src : layer_dir) (Hsrc : dir_ok (ly_tree src)) (Hmarks : ∀ q, q ∈ ly_opaque src → ∃ d, ly_tree src !! q = Some d ∧ fi_kind d = KDir).

(** The names of [p] and what is below them were unpacked. *)
Record filled (p : path) (names : list string) (a b : layer_dir) : Prop := mkFilled {
  fl_tree : ∀ q, ly_tree b !! q = if covered p names q then unpacked now <$> ly_tree src !! q else ly_tree a !! q;
  fl_marks : ∀ q, q ∈ ly_opaque b ↔ q ∈ ly_opaque a ∨ covered p names q = true ∧ q ∈ ly_opaque src }.
(** [p] is a directory, and the names are free. *)
Record open_at (p : path) (names : list string) (ly : layer_dir) : Prop := mkOpen {
  oa_ok : layer_ok ly;
  oa_dirs : ∀ q, q `prefix_of` p → ∃ d, ly_tree ly !! q = Some d ∧ fi_kind d = KDir;
  oa_free : ∀ q, covered p names q = true → ly_tree ly !! q = None }.

Lemma covered_cons p n names q : covered p (n :: names) q = covered p [n] q || covered p names q.
Proof. unfold covered. cbn. by rewrite orb_false_r. Qed.
Lemma covered_above p names q : q `prefix_of` p → covered p names q = false.
Proof.
  intros Hq. apply not_true_is_false. intros (n&k&_&->)%covered_spec. apply prefix_length in Hq. rewrite length_app in Hq. cbn in Hq. lia.
Qed.
Lemma covered_other p n names q : n ∉ names → covered p names q = true → covered p [n] q = false.
Proof.
  intros Hn (m&k&Hm&->)%covered_spec. apply not_true_is_false. intros (m'&k'&Hm'&E)%covered_spec.
  apply app_inv_head in E. injection E as -> _. apply list_elem_of_singleton in Hm'. by subst.
Qed.
Lemma filled_ok p names a b : open_at p names a → filled p names a b → layer_ok b.
Proof.
  intros [Ha _ Hfree] [Ht Hm]. constructor.
  - intros q f. rewrite Ht. destruct (covered p names q); [|apply Ha]. destruct (ly_tree src !! q) as [g|] eqn:Hg; [|done]. intros _. exact (do_names _ Hsrc _ _ Hg).
  - intros q [Hq|[Hc Hq]]%Hm; rewrite Ht.
    + destruct (covered p names q) eqn:Hc; [|by apply Ha]. destruct (lo_marks _ Ha q Hq) as [g Hg]. by rewrite (Hfree q Hc) in Hg.
    + rewrite Hc. destruct (Hmarks q Hq) as (d&->&_). cbn. eauto.
Qed.
Lemma open_first p n names ly : open_at p (n :: names) ly → open_at p [n] ly.
Proof. intros [H1 H2 H3]. constructor; [done|done|]. intros q Hq. apply H3. by rewrite covered_cons, Hq. Qed.
Lemma filled_open p n names a b : n ∉ names → open_at p (n :: names) a → filled p [n] a b → open_at p names b.
Proof.
  intros Hn Ha Hf. constructor.
  - eapply filled_ok; [by eapply open_first|done].
  - intros q Hq. rewrite (fl_tree _ _ _ _ Hf), covered_above by done. by apply (oa_dirs _ _ _ Ha).
  - intros q Hq. rewrite (fl_tree _ _ _ _ Hf), (covered_other p n names) by done. apply (oa_free _ _ _ Ha). rewrite covered_cons, Hq. by rewrite orb_true_r.
Qed.
Lemma filled_trans p n names a b c : filled p [n] a b → filled p names b c → filled p (n :: names) a c.
Proof.
  intros [Ht1 Hm1] [Ht2 Hm2]. constructor; intros q.
  - rewrite Ht2, Ht1, (covered_cons p n names). by destruct (covered p [n] q), (covered p names q).
  - rewrite Hm2, Hm1, (covered_cons p n names), orb_true_iff. tauto.
Qed.
Lemma filled_nil p a : filled p [] a a.
Proof. constructor; intros q; cbn; [done|]. split; [by left|by intros [?|[? _]]]. Qed.

(** A name was unpacked, and then what is below it. *)
Lemma filled_child p n f L L1 L2 : let c := p ++ [n] in open_at p [n] L → ly_tree src !! c = Some f →
  ly_tree L1 = <[c := unpacked now f]> (ly_tree L) → (∀ q, q ∈ ly_opaque L1 ↔ q ∈ ly_opaque L ∨ q = c ∧ c ∈ ly_opaque src) →
  filled c (children (ly_tree src) c) L1 L2 → filled p [n] L L2.
Proof.
  intros c Ho Hf Ht1 Hm1 [Ht2 Hm2].
  assert (∀ q, covered p [n] q = true ↔ q = c ∨ ∃ m k, q = c ++ m :: k) as Hcov.
  { intros q. rewrite covered_spec. unfold c. split.
    - intros (m&k&Hm%list_elem_of_singleton&->). subst m. destruct k as [|m k]; [by left|right]. exists m, k. by rewrite <-app_assoc.
    - intros [->|(m&k&->)]; [exists n, []; split; [by apply list_elem_of_singleton|done]|]. exists n, (m :: k). split; [by apply list_elem_of_singleton|]. by rewrite <-app_assoc. }
  assert (covered c (children (ly_tree src) c) c = false) as Hcc by by apply covered_above.
  assert (∀ m k, covered c (children (ly_tree src) c) (c ++ m :: k) = bool_decide (is_Some (ly_tree src !! (c ++ [m])))) as Hin.
  { intros m k. apply eq_true_iff_eq. rewrite covered_spec, bool_decide_eq_true, <-children_spec. split.
    - intros (m'&k'&Hm'&E%app_inv_head). by injection E as -> _.
    - intros Hm. by exists m, k. }
  constructor; intros q.
  - rewrite Ht2, Ht1. destruct (covered p [n] q) eqn:Hq.
    + pose proof (oa_free _ _ _ Ho q Hq) as Hfree. apply Hcov in Hq as [->|(m&k&->)].
      * by rewrite Hcc, lookup_insert_eq, Hf.
      * rewrite Hin. case_bool_decide as Hs; [done|]. rewrite lookup_insert_ne by (intros E%(f_equal length); rewrite length_app in E; cbn in E; lia).
        rewrite Hfree. destruct (ly_tree src !! (c ++ m :: k)) as [g|] eqn:Hg; [|done]. exfalso. apply Hs. destruct k as [|x k]; [eauto|].
        destruct (ancestor_dir (ly_tree src) (c ++ [m]) (c ++ m :: x :: k)) as (d&Hd&_); [done|eauto|exists (x :: k); by rewrite <-app_assoc| |eauto].
        intros E%app_inv_head. done.
    + destruct (covered c _ q) eqn:Hq2.
      * apply covered_spec in Hq2 as (m&k&_&->). apply not_true_iff_false in Hq. destruct Hq. apply Hcov. right. eauto.
      * apply lookup_insert_ne. intros <-. apply not_true_iff_false in Hq. destruct Hq. apply Hcov. by left.
  - rewrite Hm2, Hm1. split.
    + intros [[Hq|[-> Hq]]|[Hq Hqs]]; [by left|right; split; [apply Hcov; by left|done]|right]. split; [|done]. apply Hcov. right.
      apply covered_spec in Hq as (m&k&_&->). eauto.
    + intros [Hq|[[->|(m&k&->)]%Hcov Hqs]]; [by left; left|by left; right|right]. split; [|done]. rewrite Hin. apply bool_decide_eq_true.
      destruct (Hmarks _ Hqs) as (d&Hd&_). destruct k as [|x k]; [eauto|].
      destruct (ancestor_dir (ly_tree src) (c ++ [m]) (c ++ m :: x :: k)) as (e&He&_); [done|eauto|exists (x :: k); by rewrite <-app_assoc| |eauto].
      intros E%app_inv_head. done.
Qed.

Lemma unpack_entries p n f L : let c := p ++ [n] in open_at p [n] L → ly_tree src !! c = Some f →
  ∃ L1, Unpack resolve now (tar_entries f (bool_decide (c ∈ ly_opaque src)) (GoString.join "/" c)) L = inr L1 ∧
    ly_tree L1 = <[c := unpacked now f]> (ly_tree L) ∧ (∀ q, q ∈ ly_opaque L1 ↔ q ∈ ly_opaque L ∨ q = c ∧ c ∈ ly_opaque src).
Proof.
  intros c Ho Hf. pose proof (oa_ok _ _ _ Ho) as Hok. pose proof (do_names _ Hsrc _ _ Hf) as Hn. pose proof (do_files _ Hsrc _ _ Hf) as Hfit.
  assert (dirs_to (ly_tree L) c) as Hd.
  { intros q Hq Hne. apply prefix_snoc_inv in Hq as [->|Hq]; [done|]. by apply (oa_dirs _ _ _ Ho). }
  assert (ly_tree L !! c = None) as Hno.
  { apply (oa_free _ _ _ Ho). apply covered_spec. exists n, []. split; [by apply list_elem_of_singleton|done]. }
  assert (c ∈ ly_opaque src → fi_kind f = KDir) as Hm by (intros H; destruct (Hmarks c H) as (d&Hd'&?); congruence).
  unfold tar_entries, ConvertWrite. destruct (whiteout f) eqn:Hw.
  - pose proof Hw as [Hk Hr]%andb_true_iff. apply bool_decide_eq_true in Hk, Hr. unfold addTarFile. cbn [h_Dev h_Name h_Uid h_Gid h_Mode h_Linkname h_Cap h_ModTime].
    rewrite Hk, Hr, (bool_decide_false (KChar = KDir)), !bool_decide_true by done. cbn [andb Unpack].
    rewrite (unpack_whiteout resolve now Hdirs L p n); [|done..|by apply whiteout_name, fitting_plain].
    eexists. split; [done|]. cbn [put_layer ly_tree ly_opaque h_Uid h_Gid]. split; [unfold unpacked; by rewrite Hw|].
    intros q. split; [by left|]. intros [?|[_ H]]; [done|]. rewrite Hm in Hk; done.
  - assert (bool_decide (fi_kind f = KChar) && bool_decide (h_Dev (addTarFile f (GoString.join "/" c)) = (0, 0)%Z) = false) as ->.
    { unfold whiteout in Hw. cbn [addTarFile h_Dev]. destruct (decide (fi_kind f = KChar)) as [Hk|Hk]; [|by rewrite bool_decide_false].
      rewrite Hk in *. done. }
    cbn [Unpack]. unfold c at 1. rewrite (unpack_file resolve now Hdirs L p n f) by done.
    assert (stamp f = unpacked now f) as -> by (unfold unpacked; by rewrite Hw).
    destruct (decide (c ∈ ly_opaque src)) as [Hin|Hin].
    + pose proof (Hm Hin) as Hk. rewrite !bool_decide_true by done. cbn [andb Unpack]. set (L1 := put_layer _ _ L).
      assert (open_at p [] L1) as Ho1.
      { constructor; [|intros q Hq|done].
        - constructor; cbn; intros q; [intros g|intros Hq].
          + intros [[<- _]|[_ H]]%lookup_insert_Some; [done|]. by apply (lo_names _ Hok) in H.
          + destruct (lo_marks _ Hok q Hq) as [g Hg]. destruct (decide (q = c)) as [->|Hne]; [congruence|]. rewrite lookup_insert_ne by done. eauto.
        - cbn. rewrite lookup_insert_ne; [by apply (oa_dirs _ _ _ Ho)|]. intros <-. apply prefix_length in Hq. rewrite length_app in Hq. cbn in Hq. lia. }
      rewrite (unpack_mark resolve now Hdirs L1 p n _ (unpacked now f)); [|apply Ho1|done| | | |].
      * eexists. split; [done|]. cbn. split; [done|]. intros q. rewrite elem_of_union, elem_of_singleton. intuition.
      * intros q Hq Hne. cbn. rewrite lookup_insert_ne by done. by apply Hd.
      * apply lookup_insert_eq.
      * by rewrite unpacked_kind.
      * cbn [addTarFile h_Name]. rewrite bool_decide_true by done. apply opaque_name; [apply child_ne|by apply fitting_plain].
    + rewrite (bool_decide_false (c ∈ _)), andb_false_r by done. cbn [Unpack]. eexists. split; [done|]. split; [done|].
      intros q. cbn. intuition.
Qed.

Lemma children_nodup (t : tree) p : NoDup (children t p).
Proof.
  unfold children. pose proof (NoDup_elements (dom t)) as Hnd. induction Hnd as [|q l Hq Hnd IH]; cbn; [constructor|].
  destruct (Os.child_of p q) eqn:Hc; [|done]. apply bool_decide_eq_true in Hc as [Hne Hpar].
  destruct q as [|m q _] using rev_ind; [done|]. unfold parent_dir in Hpar. rewrite removelast_last in Hpar. subst q. rewrite last_snoc.
  constructor; [|done]. intros (r&Hr&Hm)%list_elem_of_omap. destruct (Os.child_of p r) eqn:Hc; [|done].
  apply bool_decide_eq_true in Hc as [Hne' Hpar]. destruct r as [|m' r _] using rev_ind; [done|].
  unfold parent_dir in Hpar. rewrite removelast_last in Hpar. rewrite last_snoc in Hm. by simplify_eq.
Qed.
Lemma no_children p f : ly_tree src !! p = Some f → fi_kind f ≠ KDir → children (ly_tree src) p = [].
Proof.
  intros Hf Hk. apply elem_of_nil_inv. intros n [g Hg]%children_spec. destruct (do_parent _ Hsrc _ _ _ Hg) as (d&Hd&Hkd). congruence.
Qed.
(** A directory that was unpacked is ready for its own names. *)
Lemma open_child p n f L L1 : let c := p ++ [n] in open_at p [n] L → ly_tree src !! c = Some f → fi_kind f = KDir →
  ly_tree L1 = <[c := unpacked now f]> (ly_tree L) → (∀ q, q ∈ ly_opaque L1 ↔ q ∈ ly_opaque L ∨ q = c ∧ c ∈ ly_opaque src) →
  open_at c (children (ly_tree src) c) L1.
Proof.
  intros c Ho Hf Hk Ht1 Hm1. constructor.
  - constructor; [intros q g|intros q Hq]; rewrite Ht1.
    + intros [[<- _]|[_ H]]%lookup_insert_Some; [exact (do_names _ Hsrc _ _ Hf)|]. exact (lo_names _ (oa_ok _ _ _ Ho) _ _ H).
    + destruct (decide (q = c)) as [->|Hne]; [rewrite lookup_insert_eq; eauto|]. rewrite lookup_insert_ne by done.
      apply Hm1 in Hq as [Hq|[? _]]; [|done]. exact (lo_marks _ (oa_ok _ _ _ Ho) _ Hq).
  - intros q Hq. rewrite Ht1. destruct (decide (q = c)) as [->|Hne]; [exists (unpacked now f); rewrite lookup_insert_eq, unpacked_kind; done|].
    rewrite lookup_insert_ne by done. apply (oa_dirs _ _ _ Ho). by apply prefix_snoc_inv in Hq as [->|Hq].
  - intros q (m&k&_&->)%covered_spec. rewrite Ht1, lookup_insert_ne by (intros E%(f_equal length); rewrite length_app in E; cbn in E; lia).
    apply (oa_free _ _ _ Ho). apply covered_spec. exists n, (m :: k). split; [by apply list_elem_of_singleton|]. unfold c. by rewrite <-app_assoc.
Qed.
(** The walk below a directory that is deep enough. *)
Lemma unpack_walk fuel : ∀ p L, open_at p (children (ly_tree src) p) L →
  (∀ q, is_Some (ly_tree src !! q) → p `prefix_of` q → length q < length p + fuel) → 0 < fuel →
  ∃ L', Unpack resolve now (tar_walk fuel src p) L = inr L' ∧ filled p (children (ly_tree src) p) L L'.
Proof.
  induction fuel as [|fuel IH]; intros p L Ho Hlen Hpos; [lia|]. cbn [tar_walk].
  set (one := λ name, match ly_tree src !! (p ++ [name]) with Some f => _ | None => _ end).
  assert (∀ names L, NoDup names → (∀ n, n ∈ names → is_Some (ly_tree src !! (p ++ [n]))) → open_at p names L →
    ∃ L', Unpack resolve now (flat_map one names) L = inr L' ∧ filled p names L L') as Hnames.
  { clear L Ho. induction names as [|n names IHn]; intros L Hnd Hin Ho; cbn [flat_map]; [exists L; split; [done|apply filled_nil]|].
    apply NoDup_cons in Hnd as [Hn Hnd]. destruct (Hin n) as [f Hf]; [by apply elem_of_cons; left|].
    pose proof (open_first _ _ _ _ Ho) as Ho1. destruct (unpack_entries p n f L Ho1 Hf) as (L1&H1&Ht1&Hm1).
    assert (∃ L2, Unpack resolve now (if bool_decide (fi_kind f = KDir) then tar_walk fuel src (p ++ [n]) else []) L1 = inr L2 ∧
      filled (p ++ [n]) (children (ly_tree src) (p ++ [n])) L1 L2) as (L2&H2&Hf2).
    { destruct (decide (fi_kind f = KDir)) as [Hk|Hk].
      2:{ rewrite (bool_decide_false (fi_kind f = KDir)) by done. exists L1. split; [done|]. rewrite (no_children _ f) by done. apply filled_nil. }
      rewrite (bool_decide_true (fi_kind f = KDir)) by done.
      destruct fuel as [|fuel].
      { assert (children (ly_tree src) (p ++ [n]) = []) as ->; [|exists L1; split; [done|apply filled_nil]].
        apply elem_of_nil_inv. intros m [g Hg]%children_spec. specialize (Hlen (p ++ [n])).
        rewrite length_app in Hlen. cbn in Hlen. assert (length p + 1 < length p + 1); [|lia]. apply Hlen; [eauto|by eexists]. }
      apply IH; [|intros q Hq Hpre; specialize (Hlen q Hq); rewrite length_app; cbn; assert (length q < length p + S (S fuel)) by (apply Hlen; etrans; [|done]; by eexists); lia|lia].
      by eapply open_child. }
    pose proof (filled_child p n f L L1 L2 Ho1 Hf Ht1 Hm1 Hf2) as Hfill.
    destruct (IHn L2) as (L3&H3&Hf3); [done|intros m Hm; apply Hin; by apply elem_of_cons; right|by eapply filled_open|].
    exists L3. split; [|by eapply filled_trans]. rewrite Unpack_app. unfold one at 1. rewrite Hf, Unpack_app, H1, H2. done. }
  assert (merge_sort str_le (children (ly_tree src) p) ≡ₚ children (ly_tree src) p) as Hperm by apply merge_sort_Permutation.
  assert (∀ q, covered p (merge_sort str_le (children (ly_tree src) p)) q = covered p (children (ly_tree src) p) q) as Hcov.
  { intros q. apply eq_true_iff_eq. rewrite !covered_spec. by setoid_rewrite Hperm. }
  destruct (Hnames (merge_sort str_le (children (ly_tree src) p)) L) as (L'&Hrun&[Ht Hm]).
  - rewrite Hperm. apply children_nodup.
  - intros n. by rewrite Hperm, children_spec.
  - destruct Ho as [? ? Hfree]. constructor; [done|done|]. intros q. rewrite Hcov. apply Hfree.
  - exists L'. split; [done|]. constructor; intros q; rewrite <-Hcov; auto.
Qed.
End Walk.

(** The archive of a layer, unpacked in an empty one. *)
Lemma unpack_layer resolve now src root :
  (∀ t p, dirs_to t p → resolve t p = inr p) → dir_ok (ly_tree src) →
  (∀ q, q ∈ ly_opaque src → ∃ d, ly_tree src !! q = Some d ∧ fi_kind d = KDir) → fi_kind root = KDir →
  ∃ ly, Unpack resolve now (TarWithOptions src) (mkLayer {[ [] := root ]} ∅) = inr ly ∧
    (∀ p, ly_tree ly !! p = if decide (p = []) then Some root else unpacked now <$> ly_tree src !! p) ∧ ly_opaque ly = ly_opaque src ∖ {[ [] ]}.
Proof.
  intros Hdirs Hsrc Hm Hroot.
  assert (∀ q, q ≠ [] → covered [] (children (ly_tree src) []) q = true ∨ ly_tree src !! q = None ∧ covered [] (children (ly_tree src) []) q = false) as Hcov.
  { intros [|n k] Hq; [done|]. destruct (covered [] _ (n :: k)) eqn:Hc; [by left|right]. split; [|done]. apply eq_None_not_Some. intros Hs.
    apply not_true_iff_false in Hc. apply Hc. apply covered_spec. exists n, k. split; [|done]. apply children_spec. destruct k as [|m k]; [done|].
    destruct (ancestor_dir (ly_tree src) [n] (n :: m :: k)) as (d&Hd&_); [done|done|by exists (m :: k)|done|eauto]. }
  destruct (unpack_walk resolve now Hdirs src Hsrc Hm (S (depth (ly_tree src))) [] (mkLayer {[ [] := root ]} ∅)) as (ly&Hrun&[Ht Ho]).
  - constructor; cbn.
    + constructor; cbn; [|done]. by intros q f [<- _]%lookup_singleton_Some.
    + intros q Hq. apply prefix_nil_inv in Hq as ->. exists root. by rewrite lookup_singleton_eq.
    + intros q (n&k&_&->)%covered_spec. by apply lookup_singleton_ne.
  - intros q Hq _. apply depth_spec in Hq. cbn. lia.
  - lia.
  - exists ly. split; [done|]. split.
    + intros p. rewrite Ht. cbn. destruct (decide (p = [])) as [->|Hp]; [by rewrite covered_above, lookup_singleton_eq|].
      destruct (Hcov p Hp) as [->|[-> ->]]; [done|]. cbn. by rewrite lookup_singleton_ne.
    + apply set_eq. intros q. rewrite Ho, elem_of_difference, elem_of_singleton. cbn. split.
      * intros [?|[Hc Hq]]; [set_solver|]. split; [done|]. intros ->. by rewrite covered_above in Hc.
      * intros [Hq Hne]. right. split; [|done]. destruct (Hm q Hq) as (d&Hd&_). destruct (Hcov q Hne) as [?|[? _]]; [done|congruence].
Qed.

(** C10. A layer survives its archive: [Unpack] of what [TarWithOptions] makes of the directory
    of a layer, into an empty one, succeeds and gives the same files with the same kinds,
    contents, owners, modes, devices and capabilities and with their times in whole
    seconds, the same whiteouts, and the same opaque directories; and nothing else.  The root
    of the layer is not archived. *)
Theorem layer_roundtrip resolve now src root :
  (∀ t p, dirs_to t p → resolve t p = inr p) → dir_ok (ly_tree src) →
  (∀ q, q ∈ ly_opaque src → ∃ d, ly_tree src !! q = Some d ∧ fi_kind d = KDir) → fi_kind root = KDir →
  ∃ ly, Unpack resolve now (TarWithOptions src) (mkLayer {[ [] := root ]} ∅) = inr ly ∧
    (∀ p, ly_tree ly !! p = if decide (p = []) then Some root else unpacked now <$> ly_tree src !! p) ∧ ly_opaque ly = ly_opaque src ∖ {[ [] ]}.
Proof. apply unpack_layer. Qed.

(** A layer with a whiteout, an opaque directory, a link and a file with a capability. *)
Definition demo_layer : layer_dir := mkLayer
  (list_to_map [([], dir_file); (["bin"], dir_file); (["bin"; "sh"], reg_file "v1" 5%Z); (["bin"; "ed"], mkFile KChar 0 0 0 (0, 0)%Z "" (7, 3)%Z None);
    (["bin"; "ping"], mkFile KReg 0x1ed 0 0 (0, 0)%Z "ping" (8, 9)%Z (Some "net")); (["etc"], dir_file); (["sh"], mkFile KSymlink 0x1ff 0 0 (0, 0)%Z "bin/sh" (9, 0)%Z None)])
  {[ ["etc"] ]}.
Lemma demo_layer_ok : dir_ok (ly_tree demo_layer).
Proof.
  assert (∀ p f, ly_tree demo_layer !! p = Some f → p = [] ∧ f = dir_file ∨ p ≠ [] ∧ Forall name_fits p ∧ file_fits f ∧
    ∃ d, ly_tree demo_layer !! removelast p = Some d ∧ fi_kind d = KDir) as H.
  { intros p f Hf. unfold demo_layer in Hf. cbn [ly_tree list_to_map foldr uncurry] in Hf.
    repeat (apply lookup_insert_Some in Hf as [[<- <-]|[_ Hf]];
      [first [by left|right; split; [done|]; split; [by repeat constructor|]; split; [by vm_compute|]; by eexists]|]). by apply lookup_empty_Some in Hf. }
  constructor.
  - by eexists.
  - intros p n f Hf. destruct (H _ _ Hf) as [[E _]|(_&_&_&Hd)]; [by destruct (child_ne p n)|]. by rewrite removelast_last in Hd.
  - intros p f Hf. by destruct (H _ _ Hf) as [[-> _]|(_&?&_)].
  - intros p f Hf. destruct (H _ _ Hf) as [[_ ->]|(_&_&?&_)]; [by vm_compute|done].
Qed.
Lemma layer_roundtrip_witness :
  ∃ ly, Unpack walk (10, 0)%Z (TarWithOptions demo_layer) (mkLayer {[ [] := dir_file ]} ∅) = inr ly ∧
    whiteout <$> ly_tree ly !! ["bin"; "ed"] = Some true ∧ ly_opaque ly = {[ ["etc"] ]}.
Proof.
  destruct (layer_roundtrip walk (10, 0)%Z demo_layer dir_file) as (ly&Hrun&Ht&Ho).
  - apply walk_ok.
  - apply demo_layer_ok.
  - intros q Hq. change (q ∈ ({[ ["etc"] ]} : gset path)) in Hq. apply elem_of_singleton in Hq as ->. by exists dir_file.
  - done.
  - exists ly. split; [done|]. split; [by rewrite Ht|].
    rewrite Ho. change (({[ ["etc"] ]} : gset path) ∖ {[ [] ]} = {[ ["etc"] ]}). set_solver.
Defined.
