(* ===== verification/FileSysWf.v ===== *)
(** * File operations keep the tree well-formed

    Every operation of the file model keeps the invariant that each node hangs
    below a directory, whatever fails; what a successful or failed atomic write
    does to the files a client can name. *)

From stdpp Require Import stringmap.
From S2P Require Import Prelude FileSys.

(** [m] keeps trees well-formed and never panics. *)
Definition keeps {A : Type} (m : M FS A) : Prop := ttriple wf_tree m (λ _, wf_tree) (λ _, wf_tree).

Create HintDb keeps.

Section KeepsRules.
Lemma keeps_ret {A : Type} (a : A) : keeps (mret a).
Proof. by apply ttriple_ret. Qed.
Lemma keeps_fail {A : Type} (e : error) : keeps (A := A) (fail e).
Proof. by apply ttriple_fail. Qed.
Lemma keeps_bind {A B : Type} (m : M FS A) (g : A → M FS B) :
  keeps m → (∀ a, keeps (g a)) → keeps (m ≫= g).
Proof. intros Hm Hg. by apply (ttriple_bind _ _ _ (λ _, wf_tree)). Qed.
Lemma keeps_attempt {A : Type} (m : M FS A) : keeps m → keeps (attempt m).
Proof. intros Hm. by apply ttriple_attempt. Qed.
Lemma keeps_ignore {A : Type} (m : M FS A) : keeps m → keeps (ignore_err m).
Proof. intros Hm. by apply ttriple_ignore. Qed.
Lemma keeps_guard (b : bool) (e : error) : keeps (guard_err b e).
Proof. destruct b; [apply keeps_ret|apply keeps_fail]. Qed.

Lemma keeps_syscall {A : Type} (g : gmap path node → outcome A * gmap path node) :
  (∀ t, wf_tree t → match g t with (Panic _, _) => False | (_, t') => wf_tree t' end) →
  keeps (syscall g).
Proof.
  intros Hg. apply ttriple_syscall; [done|]. intros t Ht. specialize (Hg t Ht).
  by destruct (g t) as [[]].
Qed.
End KeepsRules.
#[export] Hint Resolve keeps_ret keeps_fail keeps_attempt keeps_ignore keeps_guard : keeps.

(** ** The system calls *)

Section Trees.
Implicit Types (t : gmap path node) (p q r : path).

Lemma wf_tree_mkdirs t pre todo :
  wf_tree t → is_dir t pre = true →
  match Os.mkdirs t pre todo with (Panic _, _) => False | (_, t') => wf_tree t' end.
Proof.
  revert t pre. induction todo as [|c todo IH]; intros t pre Hwf Hpre; simpl; [done|].
  assert (pre ++ [c] ≠ []) as Hne by (by destruct pre).
  destruct (node_at t (pre ++ [c])) as [[]|] eqn:Hn; [|done|done|].
  - apply IH; [done|]. unfold is_dir. by rewrite Hn.
  - apply IH.
    + apply wf_tree_insert; [done|done|by rewrite parent_dir_snoc|by left].
    + apply is_dir_Some; [done|]. apply lookup_insert_eq.
Qed.

Lemma wf_tree_remove_all t p : wf_tree t → wf_tree (filter (λ kv, Os.below p kv.1 = false) t).
Proof.
  intros Hwf q n [Hq Hb]%map_lookup_filter_Some. simpl in Hb. destruct (Hwf _ _ Hq) as [Hne Hpar].
  split; [done|]. destruct (parent_dir q) as [|c d] eqn:Hd; [done|]. rewrite <-Hd in *.
  assert (parent_dir q ≠ []) as Hdne by congruence.
  apply is_dir_Some in Hpar; [|done]. apply is_dir_Some; [done|].
  apply map_lookup_filter_Some. split; [done|]. simpl. apply not_below_spec. intros [k Hk].
  apply not_below_spec in Hb. apply Hb. exists (k ++ [base_name q]). rewrite app_assoc, <-Hk.
  by apply parent_base.
Qed.

Lemma parent_dir_length p : p ≠ [] → length p = S (length (parent_dir p)).
Proof. intros Hp. rewrite (parent_base p Hp) at 1. rewrite length_app. simpl. lia. Qed.

Lemma not_prefix_parent p q : ¬ p `prefix_of` q → ¬ p `prefix_of` parent_dir q.
Proof.
  intros Hn [k Hk]. destruct q as [|c q _] using rev_ind; [by apply Hn; exists k|].
  apply Hn. rewrite parent_dir_snoc in Hk. exists (k ++ [c]). by rewrite Hk, <-app_assoc.
Qed.

(** Moving a subtree to a place that is free, or taken by a file. *)
Lemma wf_tree_move t old new n :
  wf_tree t → new ≠ [] → t !! new ≠ Some Dir → t !! old = Some n →
  is_dir t (parent_dir new) = true → ¬ old `prefix_of` new → wf_tree (Os.move_tree old new t).
Proof.
  intros Hwf Hnew Hdir Hold Hpar Hpre.
  assert (∀ d, ¬ new `prefix_of` d → ¬ old `prefix_of` d → is_dir t d = true →
            is_dir (Os.move_tree old new t) d = true) as Hkeep.
  { intros [|c d] Hd1 Hd2 Hd; [done|]. apply is_dir_Some in Hd; [|done]. apply is_dir_Some; [done|].
    rewrite lookup_move_tree_other by done. by apply not_below_spec in Hd2 as ->. }
  intros q m Hq. destruct (decide (new `prefix_of` q)) as [[r ->]|Hnq].
  - split; [by destruct new|]. destruct r as [|c r _] using rev_ind.
    + rewrite app_nil_r. apply Hkeep; [|by apply not_prefix_parent|done].
      intros Hlen%prefix_length. rewrite (parent_dir_length new Hnew) in Hlen. lia.
    + rewrite app_assoc, parent_dir_snoc.
      assert (t !! (old ++ r ++ [c]) = Some m) as Ht.
      { unfold Os.move_tree in Hq. apply lookup_union_Some_raw in Hq as [Hq|[_ Hq]].
        - by rewrite (lookup_kmap (app new)), lookup_strip in Hq.
        - apply map_lookup_filter_Some in Hq as [Hq _].
          rewrite wf_tree_below in Hq; [done|done|done|done|by destruct r]. }
      destruct (Hwf _ _ Hold) as [Hone _]. destruct (Hwf _ _ Ht) as [_ Hp].
      rewrite app_assoc, parent_dir_snoc in Hp. apply is_dir_Some in Hp; [|by destruct old].
      apply is_dir_Some; [by destruct new|]. by apply lookup_move_tree_new.
  - rewrite lookup_move_tree_other in Hq by done. destruct (Os.below old q) eqn:Hb; [done|].
    apply not_below_spec in Hb. destruct (Hwf _ _ Hq). split; [done|].
    apply Hkeep; [by apply not_prefix_parent..|done].
Qed.
End Trees.

Section Calls.
Lemma keeps_Stat p : keeps (Os.Stat p).
Proof. apply keeps_syscall. intros t Ht. by destruct (node_at t p). Qed.
Lemma keeps_ReadFile p : keeps (Os.ReadFile p).
Proof. apply keeps_syscall. intros t Ht. by destruct (node_at t p) as [[]|]. Qed.
Lemma keeps_ReadDir p : keeps (Os.ReadDir p).
Proof. apply keeps_syscall. intros t Ht. by destruct (node_at t p) as [[]|]. Qed.
Lemma keeps_Sync p : keeps (Os.Sync p).
Proof. by apply keeps_syscall. Qed.
Lemma keeps_Close p : keeps (Os.Close p).
Proof. by apply keeps_syscall. Qed.
Lemma keeps_Chmod p : keeps (Os.Chmod p).
Proof. by apply keeps_syscall. Qed.
Lemma keeps_OpenTrunc (p : path) : p ≠ [] → keeps (Os.OpenTrunc p).
Proof.
  intros Hp. apply keeps_syscall. intros t Ht. destruct (is_dir t p) eqn:Hd; [done|].
  destruct (is_dir t (parent_dir p)) eqn:Hpar; [|done]. apply wf_tree_insert; [done..|]. right.
  intros Hp'. by rewrite (proj2 (is_dir_Some t p Hp) Hp') in Hd.
Qed.
Lemma keeps_Write p d : keeps (Os.Write p d).
Proof.
  intros s Hs. unfold Os.Write.
  assert (∀ d, wf_tree (match nodes s !! p with
    | Some (File old) => <[p := File (old +:+ d)]> (nodes s) | _ => nodes s end)) as Hw.
  { intros d'. destruct (nodes s !! p) as [[| |]|] eqn:Hp; try done. destruct (Hs _ _ Hp).
    apply wf_tree_insert; [done..|]. right. congruence. }
  destruct (faults s) as [|[]]; apply Hw.
Qed.
Lemma keeps_Mkdir (p : path) : p ≠ [] → keeps (Os.Mkdir p).
Proof.
  intros Hp. apply keeps_syscall. intros t Ht. destruct (node_at t p); [done|].
  destruct (is_dir t (parent_dir p)) eqn:Hpar; [|done]. apply wf_tree_insert; auto.
Qed.
Lemma keeps_MkdirAll p : keeps (Os.MkdirAll p).
Proof. apply keeps_syscall. intros t Ht. by apply wf_tree_mkdirs. Qed.
Lemma keeps_RemoveAll p : keeps (Os.RemoveAll p).
Proof. apply keeps_syscall. intros t Ht. by apply wf_tree_remove_all. Qed.
Lemma keeps_Remove p : keeps (Os.Remove p).
Proof.
  apply keeps_syscall. intros t Ht. destruct (t !! p) as [[| |]|] eqn:Hp; [|..|done].
  - destruct (Os.has_children t p) eqn:Hc; [done|]. by apply wf_tree_delete.
  - apply wf_tree_delete; [done|]. by eapply has_children_file.
  - apply wf_tree_delete; [done|]. by eapply has_children_file.
Qed.
Lemma keeps_Rename (p q : path) : q ≠ [] → keeps (Os.Rename p q).
Proof.
  intros Hq. apply keeps_syscall. intros t Ht. rewrite node_at_ne by done.
  assert (∀ n, t !! q ≠ Some Dir → t !! p = Some n → Os.below p q = false →
    is_dir t (parent_dir q) = true → wf_tree (Os.move_tree p q t)) as Hmv.
  { intros n H1 H2 H3%not_below_spec H4. by eapply wf_tree_move. }
  destruct (t !! q) as [[| |]|] eqn:Hqn; try done; destruct (t !! p) as [[| |]|] eqn:Hpn; try done;
    destruct (Os.below p q) eqn:Hb; try done;
    destruct (is_dir t (parent_dir q)) eqn:Hpar; try done; by eapply Hmv.
Qed.
Lemma keeps_TempFile dir pre : keeps (Os.TempFile dir pre).
Proof.
  apply keeps_syscall. intros t Ht. destruct (is_dir t dir) eqn:Hd; [|done].
  apply wf_tree_insert; [done|by destruct dir|by rewrite parent_dir_snoc|].
  right. by rewrite temp_name_fresh.
Qed.
Lemma keeps_TempDir dir pre : keeps (Os.TempDir dir pre).
Proof.
  apply keeps_syscall. intros t Ht. destruct (is_dir t dir) eqn:Hd; [|done].
  apply wf_tree_insert; [done|by destruct dir|by rewrite parent_dir_snoc|by left].
Qed.
End Calls.
#[export] Hint Resolve keeps_Stat keeps_ReadFile keeps_ReadDir keeps_Sync keeps_Close keeps_Chmod
  keeps_OpenTrunc keeps_Write keeps_Mkdir keeps_MkdirAll keeps_RemoveAll keeps_Remove keeps_Rename
  keeps_TempFile keeps_TempDir : keeps.

(** Goes through a body of binds and matches. *)
Ltac solve_keeps :=
  repeat first
    [ progress cbv zeta beta
    | progress auto with keeps
    | apply keeps_bind; [|intros ?]
    | apply keeps_attempt
    | apply keeps_ignore
    | match goal with
      | |- keeps (match ?x with _ => _ end) => destruct x
      | |- keeps (match ?x with _ => _ end _) => destruct x
      end ].

Section Writers.
Lemma keeps_afw_Close w : Ioutils.fn w ≠ [] → keeps (Ioutils.afw_Close w).
Proof. intros Hw. unfold Ioutils.afw_Close, Ioutils.afw_Close_body. solve_keeps. Qed.
Lemma keeps_AtomicWriteFile (p : path) d : p ≠ [] → keeps (Ioutils.AtomicWriteFile p d).
Proof.
  intros Hp. unfold Ioutils.AtomicWriteFile, Ioutils.NewAtomicFileWriter, Ioutils.afw_Write.
  apply (ttriple_bind _ _ _ (λ w t, Ioutils.fn w = p ∧ wf_tree t)).
  { apply (ttriple_bind _ _ _ (λ _, wf_tree)); [apply keeps_TempFile|]. intros f. by apply ttriple_ret. }
  intros w. apply ttriple_pure. intros Hw.
  apply (ttriple_bind _ _ _ (λ r t, Ioutils.fn r.2 = p ∧ wf_tree t)).
  { apply (ttriple_bind _ _ _ (λ _, wf_tree)); [apply keeps_Write|]. intros [n err].
    apply ttriple_ret. intros t Ht. by destruct err. }
  intros [[n err] w']. apply ttriple_pure. intros Hw'. simpl in Hw'.
  assert (∀ e w2, Ioutils.fn w2 = p → keeps (err1 ← attempt (Ioutils.afw_Close w2);
    match e with Some e0 => fail e0 | None => match err1 with inl e0 => fail e0 | inr _ => mret tt end end)) as Hend.
  { intros e w2 Hw2. apply keeps_bind; [apply keeps_attempt, keeps_afw_Close; congruence|].
    intros []; destruct e; auto with keeps. }
  destruct err as [e|]; [by apply (Hend (Some e))|].
  destruct (n <? String.length d); [by apply (Hend (Some _))|by apply (Hend None)].
Qed.
Lemma keeps_WriteFile (p : path) d : p ≠ [] → keeps (Os.WriteFile p d).
Proof. intros Hp. unfold Os.WriteFile. solve_keeps. Qed.
Lemma keeps_sync_Close p : keeps (Ioutils.sync_Close p).
Proof. unfold Ioutils.sync_Close. solve_keeps. Qed.
Lemma keeps_ws_FileWriter ws n : keeps (Ioutils.ws_FileWriter ws n).
Proof.
  unfold Ioutils.ws_FileWriter. apply keeps_bind; [|auto with keeps].
  apply keeps_OpenTrunc. by destruct (Ioutils.ws_root ws).
Qed.
Lemma keeps_ws_WriteFile ws n d : keeps (Ioutils.ws_WriteFile ws n d).
Proof.
  unfold Ioutils.ws_WriteFile. apply keeps_bind; [apply keeps_ws_FileWriter|]. intros f.
  apply keeps_bind; [auto with keeps|]. intros [k err].
  apply keeps_bind; [apply keeps_attempt, keeps_sync_Close|]. intros []; destruct err; solve_keeps.
Qed.
End Writers.
#[export] Hint Resolve keeps_afw_Close keeps_AtomicWriteFile keeps_WriteFile keeps_sync_Close
  keeps_ws_FileWriter keeps_ws_WriteFile : keeps.

(** ** Names of temporary files *)

Lemma str_app_assoc (s t u : string) : (s +:+ t) +:+ u = s +:+ t +:+ u.
Proof. induction s as [|c s IH]; [done|]. rewrite !app_cons. by rewrite IH. Qed.

Lemma fresh_string_prefix {A : Type} (s : string) (m : stringmap A) :
  ∃ k, fresh_string s m = s +:+ k.
Proof.
  unfold fresh_string. destruct (m !! s) as [a|]; [|exists EmptyString; by rewrite app_nil_r_str].
  generalize 0%N (wf_guard 32 (fresh_string_R_wf s m) 0%N).
  fix FIX 2. intros n [acc]. simpl. unfold fresh_string_go at 1. simpl.
  destruct (Some_dec (m !! (s +:+ pretty n))) as [[x Hx]|_]; [apply FIX|by eexists].
Qed.

Lemma tmp_path_name t filename : ∃ k,
  tmp_path t filename = parent_dir filename ++ [".tmp-" +:+ base_name filename +:+ k].
Proof.
  unfold tmp_path, Os.temp_name, fresh_string_of_set.
  destruct (fresh_string_prefix (".tmp-" +:+ base_name filename) (mapset.mapset_car
    (list_to_set (base_name <$> (map_to_list (filter (λ kv, Os.child_of (parent_dir filename) kv.1 = true) t)).*1) : stringset)))
    as [k Hk]. exists k. by rewrite Hk, str_app_assoc.
Qed.
