(* ===== verification/Digest.v ===== *)
(** * Content digests

    SHA-256, which the source takes from Go's [crypto/sha256], and the digest
    strings of [src/engine/vendor/github.com/opencontainers/go-digest]: their
    validation, their parts and the panics of the accessors. *)

From S2P Require Import Prelude.

(** ** SHA-256 *)

Module Sha256.
Local Open Scope Z_scope.

Definition w32 (x : Z) : Z := Z.land x 0xFFFFFFFF.
Definition rotr (n x : Z) : Z := Z.lor (Z.shiftr x n) (w32 (Z.shiftl x (32 - n))).

Definition ch x y z := Z.lxor (Z.land x y) (Z.land (Z.lxor x 0xFFFFFFFF) z).
Definition maj x y z := Z.lxor (Z.lxor (Z.land x y) (Z.land x z)) (Z.land y z).
Definition bsig0 x := Z.lxor (Z.lxor (rotr 2 x) (rotr 13 x)) (rotr 22 x).
Definition bsig1 x := Z.lxor (Z.lxor (rotr 6 x) (rotr 11 x)) (rotr 25 x).
Definition ssig0 x := Z.lxor (Z.lxor (rotr 7 x) (rotr 18 x)) (Z.shiftr x 3).
Definition ssig1 x := Z.lxor (Z.lxor (rotr 17 x) (rotr 19 x)) (Z.shiftr x 10).

(** The constants of the standard are the leading fractional bits of the cube
    roots of the first 64 primes, and of the square roots of the first eight. *)
Fixpoint icbrt (bits : nat) (x acc : Z) : Z :=
  match bits with
  | O => acc
  | S bits =>
      let y := acc + Z.shiftl 1 (Z.of_nat bits) in
      icbrt bits x (if y * y * y <=? x then y else acc)
  end.
Definition is_prime (n : Z) : bool := forallb (λ d, negb (n mod d =? 0)) (seqZ 2 (n - 2)).
Definition primes : list Z := take 64 (base.filter (λ n, is_prime n = true) (seqZ 2 320)).
Definition cube_frac (p : Z) : Z := w32 (icbrt 36 (Z.shiftl p 96) 0).
Definition square_frac (p : Z) : Z := w32 (Z.sqrt (Z.shiftl p 64)).

Definition ks : list Z := Eval vm_compute in map cube_frac primes.

(** The eight working words. *)
Record words := W { wa : Z; wb : Z; wc : Z; wd : Z; we : Z; wf : Z; wg : Z; wh : Z }.

Definition h0 : words := Eval vm_compute in
  match map square_frac (take 8 primes) with
  | [a; b; c; d; e; f; g; h] => W a b c d e f g h
  | _ => W 0 0 0 0 0 0 0 0
  end.

Definition round (k w : Z) (s : words) : words :=
  let t1 := wh s + bsig1 (we s) + ch (we s) (wf s) (wg s) + k + w in
  let t2 := bsig0 (wa s) + maj (wa s) (wb s) (wc s) in
  W (w32 (t1 + t2)) (wa s) (wb s) (wc s) (w32 (wd s + t1)) (we s) (wf s) (wg s).

(** The next schedule word from the last sixteen, oldest first. *)
Definition next_word (win : list Z) : Z :=
  w32 (ssig1 (nth 14 win 0) + nth 9 win 0 + ssig0 (nth 1 win 0) + nth 0 win 0).

Fixpoint rounds (kl : list Z) (win : list Z) (s : words) : words :=
  match kl with
  | [] => s
  | k :: kl => rounds kl (tail win ++ [next_word win]) (round k (nth 0 win 0) s)
  end.

Definition compress (s : words) (block : list Z) : words :=
  let r := rounds ks block s in
  W (w32 (wa s + wa r)) (w32 (wb s + wb r)) (w32 (wc s + wc r)) (w32 (wd s + wd r))
    (w32 (we s + we r)) (w32 (wf s + wf r)) (w32 (wg s + wg r)) (w32 (wh s + wh r)).

Fixpoint bytes_of (s : string) : list Z :=
  match s with
  | EmptyString => []
  | String c s => Z.of_N (N_of_ascii c) :: bytes_of s
  end.

Fixpoint be_bytes (n : nat) (z : Z) : list Z :=
  match n with
  | O => []
  | S n => Z.land (Z.shiftr z (8 * Z.of_nat n)) 0xFF :: be_bytes n z
  end.

Definition pad (bs : list Z) : list Z :=
  let len := Z.of_nat (length bs) in
  let zeros := Z.to_nat ((55 - len) mod 64) in
  bs ++ [0x80] ++ replicate zeros 0 ++ be_bytes 8 (8 * len).

Fixpoint words_of (bs : list Z) : list Z :=
  match bs with
  | a :: b :: c :: d :: bs =>
      (Z.shiftl a 24 + Z.shiftl b 16 + Z.shiftl c 8 + d) :: words_of bs
  | _ => []
  end.

Fixpoint blocks (fuel : nat) (ws : list Z) (s : words) : words :=
  match fuel with
  | O => s
  | S fuel => match ws with
              | [] => s
              | _ => blocks fuel (drop 16 ws) (compress s (take 16 ws))
              end
  end.

Definition hex_digit (z : Z) : ascii :=
  ascii_of_nat (Z.to_nat (if z <? 10 then 48 + z else 87 + z)).

Fixpoint hex_of (n : nat) (z : Z) : string :=
  match n with
  | O => EmptyString
  | S n => String (hex_digit (Z.land (Z.shiftr z (4 * Z.of_nat n)) 0xF)) (hex_of n z)
  end.

Definition hex_words (s : words) : string :=
  hex_of 8 (wa s) +:+ hex_of 8 (wb s) +:+ hex_of 8 (wc s) +:+ hex_of 8 (wd s) +:+
  hex_of 8 (we s) +:+ hex_of 8 (wf s) +:+ hex_of 8 (wg s) +:+ hex_of 8 (wh s).

(** The lower-case hexadecimal SHA-256 checksum of a byte string. *)
Definition sum (s : string) : string :=
  let ws := words_of (pad (bytes_of s)) in
  hex_words (blocks (length ws) ws h0).

Lemma hex_digit_hex z : 0 ≤ z < 16 → GoString.is_hex (hex_digit z) = true.
Proof.
  intros Hz. assert (In z (seqZ 0 16)) as Hin by (apply list_elem_of_In, elem_of_seqZ; lia).
  clear Hz. revert z Hin. apply forallb_forall. reflexivity.
Qed.

Lemma hex_of_hex n z : GoString.all_chars GoString.is_hex (hex_of n z) = true.
Proof.
  induction n as [|n IH]; [done|]. simpl. rewrite IH, andb_true_r.
  apply hex_digit_hex. rewrite (Z.land_ones _ 4) by lia. apply Z.mod_pos_bound. lia.
Qed.

Lemma hex_of_length n z : String.length (hex_of n z) = n.
Proof. induction n as [|n IH]; [done|]. simpl. by rewrite IH. Qed.

Lemma sum_hex s : GoString.all_chars GoString.is_hex (sum s) = true.
Proof. unfold sum, hex_words. by rewrite !all_chars_app, !hex_of_hex. Qed.

Lemma sum_length s : String.length (sum s) = 64%nat.
Proof. unfold sum, hex_words. by rewrite !str_length_app, !hex_of_length. Qed.
End Sha256.

Arguments Sha256.sum : simpl never.
Global Opaque Sha256.sum.

(** The FIPS 180 test vectors. *)
Example sha256_empty :
  Sha256.sum EmptyString = "e3b0c44298fc1c149afbf4c8996fb92427ae41e4649b934ca495991b7852b855".
Proof. vm_compute. reflexivity. Qed.
Example sha256_abc :
  Sha256.sum "abc" = "ba7816bf8f01cfea414140de5dae2223b00361a396177a9cb410ff61f20015ad".
Proof. vm_compute. reflexivity. Qed.

(** ** Digest strings *)

Module Digest.
Import GoString.

Definition ErrDigestInvalidFormat := Sentinel "digest.ErrDigestInvalidFormat".
Definition ErrDigestInvalidLength := Sentinel "digest.ErrDigestInvalidLength".
Definition ErrDigestUnsupported := Sentinel "digest.ErrDigestUnsupported".

(** [digest.Canonical]. *)
Definition Canonical : string := "sha256".

(** [algorithms] and [Algorithm.Size]: the digest sizes in bytes of the
    algorithms the daemon links in. *)
Definition Size (a : string) : option nat :=
  if String.eqb a "sha256" then Some 32
  else if String.eqb a "sha384" then Some 48
  else if String.eqb a "sha512" then Some 64
  else None.
Definition Available (a : string) : bool := match Size a with Some _ => true | None => false end.

(** [Algorithm.Validate]. *)
Definition alg_Validate (a encoded : string) : option error :=
  match Size a with
  | None => Some ErrDigestUnsupported
  | Some n =>
      if negb (2 * n =? String.length encoded) then Some ErrDigestInvalidLength
      else if all_chars is_hex encoded then None
      else Some ErrDigestInvalidFormat
  end.

Definition is_lower_alnum (c : ascii) : bool :=
  let n := nat_of_ascii c in is_digit c || ((97 <=? n) && (n <=? 122)).
Definition is_upper (c : ascii) : bool :=
  let n := nat_of_ascii c in (65 <=? n) && (n <=? 90).
Definition is_alg_sep (c : ascii) : bool :=
  existsb (Ascii.eqb c) [("."%char); ("+"%char); ("_"%char); ("-"%char)].
Definition is_encoded_char (c : ascii) : bool :=
  is_lower_alnum c || is_upper c || existsb (Ascii.eqb c) [("="%char); ("_"%char); ("-"%char)].

(** One or more runs of lower-case alphanumerics between single separators;
    [start] says that a run has to start here. *)
Fixpoint alg_regexp (start : bool) (s : string) : bool :=
  match s with
  | EmptyString => negb start
  | String c s =>
      if is_lower_alnum c then alg_regexp false s
      else negb start && is_alg_sep c && alg_regexp true s
  end.

(** [DigestRegexpAnchored.MatchString]. *)
Definition regexp_match (s : string) : bool :=
  match index_byte ":" s with
  | None => false
  | Some i =>
      let enc := drop (S i) s in
      alg_regexp true (take i s) && negb (String.eqb enc EmptyString)
        && all_chars is_encoded_char enc
  end.

(** [Digest.Validate]: [None] is the nil error. *)
Definition Validate (s : string) : option error :=
  match index_byte ":" s with
  | None => Some ErrDigestInvalidFormat
  | Some i =>
      if (i =? 0) || (S i =? String.length s) then Some ErrDigestInvalidFormat
      else
        let algorithm := take i s in
        let encoded := drop (S i) s in
        if negb (Available algorithm) then
          if negb (regexp_match s) then Some ErrDigestInvalidFormat
          else Some ErrDigestUnsupported
        else alg_Validate algorithm encoded
  end.

Definition valid (s : string) : bool := match Validate s with Some _ => false | None => true end.

(** [Digest.Algorithm] and [Digest.Hex] panic without a separator. *)
Definition Algorithm (s : string) : outcome string :=
  match index_byte ":" s with
  | None => Panic "no ':' separator in digest"
  | Some i => Ok (take i s)
  end.
Definition Hex (s : string) : outcome string :=
  match index_byte ":" s with
  | None => Panic "no ':' separator in digest"
  | Some i => Ok (drop (S i) s)
  end.

Definition NewDigestFromHex (alg hex : string) : string := alg +:+ ":" +:+ hex.

(** [digest.FromBytes]. *)
Definition FromBytes (p : string) : string := NewDigestFromHex Canonical (Sha256.sum p).

(** [digest.Parse]: the digest and the validation error. *)
Definition Parse (s : string) : string * option error := (s, Validate s).
End Digest.

Section DigestLemmas.
Import GoString Digest.

Lemma index_byte_app c s t :
  avoids c s → index_byte c (s +:+ String c t) = Some (String.length s).
Proof.
  unfold avoids. induction s as [|c' s IH]; intros Hs; simpl in *.
  - by rewrite Ascii.eqb_refl.
  - destruct (Ascii.eqb c c'); [done|]. by rewrite IH by (by destruct (index_byte c s)).
Qed.

Lemma take_app_str s t : take (String.length s) (s +:+ t) = s.
Proof. induction s as [|c s IH]; [by destruct t|]. rewrite app_cons. simpl. by rewrite IH. Qed.
Lemma drop_app_str s t : drop (String.length s) (s +:+ t) = t.
Proof. induction s as [|c s IH]; [by destruct t|]. rewrite app_cons. simpl. apply IH. Qed.

Section Parts.
Context (alg hex : string).
Hypothesis Halg : avoids ":" alg.

Lemma index_NewDigest : index_byte ":" (NewDigestFromHex alg hex) = Some (String.length alg).
Proof. unfold NewDigestFromHex. by apply index_byte_app. Qed.

Lemma take_NewDigest : take (String.length alg) (NewDigestFromHex alg hex) = alg.
Proof. apply take_app_str. Qed.

Lemma drop_NewDigest : drop (S (String.length alg)) (NewDigestFromHex alg hex) = hex.
Proof.
  unfold NewDigestFromHex. clear Halg. induction alg as [|c s IH]; [done|].
  rewrite app_cons. apply IH.
Qed.

Lemma Algorithm_NewDigest : Algorithm (NewDigestFromHex alg hex) = Ok alg.
Proof. unfold Algorithm. by rewrite index_NewDigest, take_NewDigest. Qed.

Lemma Hex_NewDigest : Hex (NewDigestFromHex alg hex) = Ok hex.
Proof. unfold Hex. by rewrite index_NewDigest, drop_NewDigest. Qed.
End Parts.

(** A valid digest is put together from its parts again. *)
Lemma index_byte_split c s i :
  index_byte c s = Some i → s = take i s +:+ String c (drop (S i) s) ∧ avoids c (take i s).
Proof.
  revert i. induction s as [|c' s IH]; intros i; [done|]. simpl.
  destruct (Ascii.eqb_spec c c') as [<-|Hne].
  - intros [= <-]. done.
  - destruct (index_byte c s) as [j|] eqn:Hj; [|done]. intros [= <-].
    destruct (IH j eq_refl) as [Hs Ha]. split.
    + simpl. rewrite app_cons. f_equal. exact Hs.
    + unfold avoids in *. simpl. destruct (Ascii.eqb_spec c c'); [done|]. by rewrite Ha.
Qed.

Lemma valid_parts s :
  valid s = true →
  ∃ alg hex, s = NewDigestFromHex alg hex ∧ avoids ":" alg ∧
    Algorithm s = Ok alg ∧ Hex s = Ok hex ∧ Available alg = true ∧
    alg_Validate alg hex = None.
Proof.
  unfold valid, Validate. destruct (index_byte ":" s) as [i|] eqn:Hi; [|done].
  destruct (_ || _); [done|].
  destruct (Available (take i s)) eqn:Hav; simpl; [|by destruct (regexp_match s)].
  destruct (alg_Validate _ _) eqn:Hv; [done|]. intros _.
  destruct (index_byte_split _ _ _ Hi) as [Hs Ha].
  exists (take i s), (drop (S i) s). unfold Algorithm, Hex. rewrite Hi. done.
Qed.

Lemma valid_canonical h :
  String.length h = 64 → all_chars is_hex h = true →
  valid (NewDigestFromHex Canonical h) = true.
Proof.
  intros Hl Hh. unfold valid, Validate.
  rewrite (index_NewDigest Canonical h) by done.
  rewrite take_NewDigest, drop_NewDigest. unfold NewDigestFromHex. rewrite !str_length_app, Hl.
  simpl. unfold alg_Validate. simpl. by rewrite Hl, Hh.
Qed.

Lemma FromBytes_valid p : valid (FromBytes p) = true.
Proof. apply valid_canonical; [apply Sha256.sum_length|apply Sha256.sum_hex]. Qed.

Lemma FromBytes_Algorithm p : Algorithm (FromBytes p) = Ok Canonical.
Proof. by apply Algorithm_NewDigest. Qed.

Lemma FromBytes_Hex p : Hex (FromBytes p) = Ok (Sha256.sum p).
Proof. by apply Hex_NewDigest. Qed.

(** Digests are never the empty string. *)
Lemma FromBytes_nonempty p : FromBytes p ≠ EmptyString.
Proof. done. Qed.

Lemma valid_nonempty s : valid s = true → s ≠ EmptyString.
Proof. by intros Hv ->. Qed.
End DigestLemmas.
