(* ===== verification/DigestSet.v ===== *)
(** * Sets of digests

    [src/engine/vendor/github.com/docker/distribution/digestset/set.go]: the
    sorted set the image store looks short identifiers up in, with the binary
    search of Go's [sort] package. *)

From S2P Require Import Prelude Digest.

(** ** The order of Go strings *)

(** [s < t] on strings: bytewise. *)
Fixpoint str_ltb (s t : string) : bool :=
  match s, t with
  | _, EmptyString => false
  | EmptyString, String _ _ => true
  | String a s, String b t =>
      let x := N_of_ascii a in
      let y := N_of_ascii b in
      if (x <? y)%N then true else if (x =? y)%N then str_ltb s t else false
  end.
Definition str_leb (s t : string) : bool := negb (str_ltb t s).

Section Order.
Implicit Types s t u p : string.

Lemma N_of_ascii_inj a b : N_of_ascii a = N_of_ascii b → a = b.
Proof. intros Hab. rewrite <-(ascii_N_embedding a), <-(ascii_N_embedding b). by rewrite Hab. Qed.

Lemma str_ltb_irrefl s : str_ltb s s = false.
Proof.
  induction s as [|a s IH]; [done|]. simpl. by rewrite N.ltb_irrefl, N.eqb_refl.
Qed.
Lemma str_ltb_trans s t u : str_ltb s t = true → str_ltb t u = true → str_ltb s u = true.
Proof.
  revert t u. induction s as [|a s IH]; intros [|b t] [|c u]; try done. simpl.
  destruct (N.ltb_spec (N_of_ascii a) (N_of_ascii b)), (N.ltb_spec (N_of_ascii b) (N_of_ascii c)),
    (N.ltb_spec (N_of_ascii a) (N_of_ascii c)), (N.eqb_spec (N_of_ascii a) (N_of_ascii b)),
    (N.eqb_spec (N_of_ascii b) (N_of_ascii c)), (N.eqb_spec (N_of_ascii a) (N_of_ascii c));
    try lia; try done. apply IH.
Qed.
Lemma str_ltb_total s t : str_ltb s t = false → str_ltb t s = false → s = t.
Proof.
  revert t. induction s as [|a s IH]; intros [|b t]; try done. simpl.
  destruct (N.ltb_spec (N_of_ascii a) (N_of_ascii b)), (N.ltb_spec (N_of_ascii b) (N_of_ascii a)),
    (N.eqb_spec (N_of_ascii a) (N_of_ascii b)) as [Hab|],
    (N.eqb_spec (N_of_ascii b) (N_of_ascii a)); try lia; try done.
  intros Hst Hts. by rewrite (N_of_ascii_inj _ _ Hab), (IH t).
Qed.

Lemma str_leb_refl s : str_leb s s = true.
Proof. unfold str_leb. by rewrite str_ltb_irrefl. Qed.
Lemma str_leb_trans s t u : str_leb s t = true → str_leb t u = true → str_leb s u = true.
Proof.
  unfold str_leb. rewrite !negb_true_iff. intros Hst Htu.
  destruct (str_ltb u s) eqn:Hus; [|done].
  destruct (str_ltb t u) eqn:Htu'.
  - by rewrite (str_ltb_trans _ _ _ Htu' Hus) in Hst.
  - by rewrite <-(str_ltb_total _ _ Htu' Htu), Hst in Hus.
Qed.
Lemma str_ltb_leb s t : str_ltb s t = true → str_leb s t = true.
Proof.
  unfold str_leb. intros Hst. destruct (str_ltb t s) eqn:Hts; [|done].
  pose proof (str_ltb_trans _ _ _ Hst Hts) as Hss. by rewrite str_ltb_irrefl in Hss.
Qed.
Lemma str_leb_empty s : str_leb EmptyString s = true.
Proof. by destruct s. Qed.

(** The strings with a given prefix are an interval that starts at it. *)
Lemma prefix_leb p s : String.prefix p s = true → str_leb p s = true.
Proof.
  unfold str_leb. revert s. induction p as [|a p IH]; intros [|b s]; try done. simpl.
  destruct (ascii_dec a b) as [->|]; [|done]. rewrite N.ltb_irrefl, N.eqb_refl. apply IH.
Qed.
Lemma prefix_between p s t :
  str_leb p s = true → str_leb s t = true → String.prefix p t = true → String.prefix p s = true.
Proof.
  unfold str_leb. revert s t. induction p as [|a p IH]; intros [|b s] [|c t]; try done. simpl.
  destruct (ascii_dec a c) as [->|]; [|done].
  destruct (N.ltb_spec (N_of_ascii b) (N_of_ascii c)), (N.ltb_spec (N_of_ascii c) (N_of_ascii b)),
    (N.eqb_spec (N_of_ascii b) (N_of_ascii c)) as [Hbc|], (N.eqb_spec (N_of_ascii c) (N_of_ascii b));
    try lia; try done.
  apply N_of_ascii_inj in Hbc as ->. destruct (ascii_dec c c); [|done]. apply IH.
Qed.
Lemma str_prefix_eq p s :
  String.prefix p s = true → String.length p = String.length s → p = s.
Proof.
  revert s. induction p as [|a p IH]; intros [|b s]; try done. simpl.
  destruct (ascii_dec a b) as [->|]; [|done]. intros Hp Hl. by rewrite (IH s Hp ltac:(lia)).
Qed.
Lemma str_prefix_refl s : String.prefix s s = true.
Proof. induction s as [|a s IH]; [done|]. simpl. by destruct (ascii_dec a a). Qed.
End Order.

(** ** [sort.Search] *)

Module Sort.
(** The loop of [sort.Search] on the interval from [i] to [j]. *)
Fixpoint search_loop (fuel : nat) (i j : nat) (f : nat → bool) : nat :=
  match fuel with
  | O => i
  | S fuel =>
      if i <? j then
        let h := (i + j) / 2 in
        if negb (f h) then search_loop fuel (h + 1) j f else search_loop fuel i h f
      else i
  end.
(** The interval shrinks in every step, so [n] steps are enough. *)
Definition Search (n : nat) (f : nat → bool) : nat := search_loop n 0 n f.
End Sort.

Lemma search_loop_spec fuel i j n f :
  (∀ a b, a ≤ b < n → f a = true → f b = true) →
  j - i ≤ fuel → i ≤ j ≤ n → (∀ k, k < i → f k = false) → (∀ k, j ≤ k < n → f k = true) →
  let r := Sort.search_loop fuel i j f in
  r ≤ n ∧ (∀ k, k < r → f k = false) ∧ (∀ k, r ≤ k < n → f k = true).
Proof.
  intros Hmono. revert i j. induction fuel as [|fuel IH]; intros i j Hf Hij Hlo Hhi;
    cbn [Sort.search_loop]; cbv zeta.
  { split_and!; [lia|done|]. intros k Hk. apply Hhi. lia. }
  destruct (Nat.ltb_spec i j) as [Hlt|Hge].
  2:{ split_and!; [lia|done|]. intros k Hk. apply Hhi. lia. }
  assert (i ≤ (i + j) / 2 < j) as Hh.
  { pose proof (Nat.div_mod (i + j) 2 ltac:(lia)). pose proof (Nat.mod_upper_bound (i + j) 2 ltac:(lia)). lia. }
  destruct (f ((i + j) / 2)) eqn:Hfh; cbn [negb].
  - apply IH; [lia|lia|done|]. intros k Hk. apply (Hmono ((i + j) / 2)); [lia|done].
  - apply IH; [lia|lia| |done]. intros k Hk.
    destruct (f k) eqn:Hfk; [|done]. rewrite (Hmono k ((i + j) / 2)) in Hfh; [done|lia|done].
Qed.

Lemma Search_spec n f :
  (∀ a b, a ≤ b < n → f a = true → f b = true) →
  Sort.Search n f ≤ n ∧ (∀ k, k < Sort.Search n f → f k = false) ∧
  (∀ k, Sort.Search n f ≤ k < n → f k = true).
Proof. intros Hm. apply (search_loop_spec n 0 n n f Hm); lia. Qed.

(** ** The set *)

Module DigestSet.
Definition ErrDigestNotFound := Sentinel "digestset.ErrDigestNotFound".
Definition ErrDigestAmbiguous := Sentinel "digestset.ErrDigestAmbiguous".

(** [digestEntry]. *)
Record digestEntry := mkEntry { e_alg : string; e_val : string; e_digest : string }.

(** [Set]: its entries. *)
Abbreviation digestEntries := (list digestEntry).
Definition NewSet : digestEntries := [].

(** [checkShortMatch]. *)
Definition checkShortMatch (alg hex shortAlg shortHex : string) : bool :=
  if String.length hex =? String.length shortHex then
    if negb (String.eqb hex shortHex) then false
    else if (0 <? String.length shortAlg) && negb (String.eqb alg shortAlg) then false else true
  else if negb (GoString.has_prefix hex shortHex) then false
  else if (0 <? String.length shortAlg) && negb (String.eqb alg shortAlg) then false else true.

(** The search functions: the entry at an index against a value and an
    algorithm, or against a value alone. *)
Definition at_least (val alg : string) (e : digestEntry) : bool :=
  if String.eqb (e_val e) val then str_leb alg (e_alg e) else str_leb val (e_val e).
Definition on_entry (dst : digestEntries) (g : digestEntry → bool) (i : nat) : bool :=
  match dst !! i with Some e => g e | None => false end.

(** [Lookup]. *)
Definition Lookup (dst : digestEntries) (d : string) : outcome string :=
  if length dst =? 0 then Err ErrDigestNotFound else
  let '(dgst, err) := Digest.Parse d in
  match (if bool_decide (err = Some Digest.ErrDigestInvalidFormat)
         then Ok (d, EmptyString, λ e, str_leb d (e_val e))
         else match Digest.Hex dgst, Digest.Algorithm dgst with
              | Ok hex, Ok alg => Ok (hex, alg, at_least hex alg)
              | Panic p, _ | _, Panic p => Panic p
              | Err e, _ | _, Err e => Err e
              end) with
  | Err e => Err e
  | Panic p => Panic p
  | Ok (hex, alg, searchFunc) =>
      let idx := Sort.Search (length dst) (on_entry dst searchFunc) in
      match dst !! idx with
      | None => Err ErrDigestNotFound
      | Some e =>
          if negb (checkShortMatch (e_alg e) (e_val e) alg hex) then Err ErrDigestNotFound
          else if String.eqb (e_alg e) alg && String.eqb (e_val e) hex then Ok (e_digest e)
          else match dst !! (idx + 1) with
               | Some e' =>
                   if checkShortMatch (e_alg e') (e_val e') alg hex then Err ErrDigestAmbiguous
                   else Ok (e_digest e)
               | None => Ok (e_digest e)
               end
      end
  end.

Definition entry_of (d : string) : outcome digestEntry :=
  match Digest.Algorithm d, Digest.Hex d with
  | Ok alg, Ok val => Ok (mkEntry alg val d)
  | Panic p, _ | _, Panic p => Panic p
  | Err e, _ | _, Err e => Err e
  end.

(** [Add] and [Remove]: the new entries. *)
Definition Add (dst : digestEntries) (d : string) : outcome digestEntries :=
  match Digest.Validate d with
  | Some e => Err e
  | None =>
      match entry_of d with
      | Err e => Err e
      | Panic p => Panic p
      | Ok entry =>
          let idx := Sort.Search (length dst) (on_entry dst (at_least (e_val entry) (e_alg entry))) in
          match dst !! idx with
          | None => Ok (dst ++ [entry])
          | Some e => if String.eqb (e_digest e) d then Ok dst
                      else Ok (take idx dst ++ entry :: drop idx dst)
          end
      end
  end.
Definition Remove (dst : digestEntries) (d : string) : outcome digestEntries :=
  match Digest.Validate d with
  | Some e => Err e
  | None =>
      match entry_of d with
      | Err e => Err e
      | Panic p => Panic p
      | Ok entry =>
          let idx := Sort.Search (length dst) (on_entry dst (at_least (e_val entry) (e_alg entry))) in
          match dst !! idx with
          | None => Ok dst
          | Some e => if negb (String.eqb (e_digest e) d) then Ok dst
                      else Ok (take idx dst ++ drop (S idx) dst)
          end
      end
  end.

(** [All]. *)
Definition All (dst : digestEntries) : list string := e_digest <$> dst.
End DigestSet.

(** ** Correctness *)

Section DigestSetProofs.
Import DigestSet.
Implicit Types (e : digestEntry) (dst : digestEntries) (d : string).

(** The order of the entries: by value, then by algorithm. *)
Definition ent_lt e1 e2 : Prop :=
  str_ltb (e_val e1) (e_val e2) = true ∨
  e_val e1 = e_val e2 ∧ str_ltb (e_alg e1) (e_alg e2) = true.

(** The invariant: sorted, without duplicates, every entry made from a valid
    digest. *)
Definition entry_ok e : Prop :=
  e_digest e = Digest.NewDigestFromHex (e_alg e) (e_val e) ∧ Digest.valid (e_digest e) = true ∧
  entry_of (e_digest e) = Ok e.
Definition set_ok dst : Prop := StronglySorted ent_lt dst ∧ Forall entry_ok dst.

Lemma ent_lt_trans e1 e2 e3 : ent_lt e1 e2 → ent_lt e2 e3 → ent_lt e1 e3.
Proof.
  unfold ent_lt. intros [H1|[H1 H1']] [H2|[H2 H2']].
  - left. by eapply str_ltb_trans.
  - left. by rewrite <-H2.
  - left. by rewrite H1.
  - right. split; [congruence|by eapply str_ltb_trans].
Qed.
Lemma ent_lt_irrefl e : ¬ ent_lt e e.
Proof. unfold ent_lt. rewrite !str_ltb_irrefl. intuition discriminate. Qed.

(** [at_least] decides the order against an entry. *)
Lemma at_least_false e val alg :
  at_least val alg e = false ↔ ent_lt e (mkEntry alg val EmptyString).
Proof.
  unfold at_least, ent_lt, str_leb. simpl.
  destruct (String.eqb_spec (e_val e) val) as [->|Hne]; rewrite negb_false_iff.
  - rewrite str_ltb_irrefl. intuition discriminate.
  - intuition.
Qed.
Lemma at_least_mono val alg e1 e2 :
  ent_lt e1 e2 → at_least val alg e1 = true → at_least val alg e2 = true.
Proof.
  intros Hlt H1. destruct (at_least val alg e2) eqn:H2; [done|].
  apply at_least_false in H2. rewrite <-H1. symmetry. apply at_least_false.
  by eapply ent_lt_trans.
Qed.

Lemma sorted_lookup dst i j ei ej :
  StronglySorted ent_lt dst → i < j → dst !! i = Some ei → dst !! j = Some ej → ent_lt ei ej.
Proof.
  intros Hs. revert i j. induction Hs as [|e dst Hs IH Hall]; intros i j Hij Hi Hj; [done|].
  destruct j as [|j]; [lia|]. destruct i as [|i]; simpl in *.
  - simplify_eq. rewrite Forall_lookup in Hall. by eapply Hall.
  - by eapply (IH i j); [lia|..].
Qed.

(** Searching a sorted set for the first entry that satisfies a monotone
    predicate cuts it in two. *)
Lemma search_split dst (g : digestEntry → bool) :
  StronglySorted ent_lt dst → (∀ e1 e2, ent_lt e1 e2 → g e1 = true → g e2 = true) →
  ∃ l1 l2, dst = l1 ++ l2 ∧ Sort.Search (length dst) (on_entry dst g) = length l1 ∧
    Forall (λ e, g e = false) l1 ∧ Forall (λ e, g e = true) l2.
Proof.
  intros Hs Hg. destruct (Search_spec (length dst) (on_entry dst g)) as (Hle&Hlo&Hhi).
  - unfold on_entry. intros a b Hab. destruct (dst !! a) as [ea|] eqn:Ha; [|done].
    destruct (lookup_lt_is_Some_2 dst b) as [eb Hb]; [lia|]. rewrite Hb.
    destruct (decide (a = b)) as [->|Hne]; [by simplify_eq|].
    apply Hg. by eapply (sorted_lookup dst a b); [|lia|..].
  - set (r := Sort.Search _ _) in *. exists (take r dst), (drop r dst).
    split_and!; [by rewrite take_drop|by rewrite length_take_le|..].
    + apply Forall_lookup. intros i e [Hi ?]%lookup_take_Some. specialize (Hlo i ltac:(lia)).
      unfold on_entry in Hlo. by rewrite Hi in Hlo.
    + apply Forall_lookup. intros i e Hi. rewrite lookup_drop in Hi.
      pose proof (lookup_lt_Some _ _ _ Hi). specialize (Hhi (r + i) ltac:(lia)).
      unfold on_entry in Hhi. by rewrite Hi in Hhi.
Qed.

Lemma entry_of_valid d :
  Digest.valid d = true → ∃ e, entry_of d = Ok e ∧ entry_ok e ∧ e_digest e = d.
Proof.
  intros Hv. destruct (valid_parts d Hv) as (alg&hex&Hd&_&Halg&Hhex&_).
  unfold entry_ok, entry_of. rewrite Halg, Hhex. eexists. split; [done|]. simpl.
  by rewrite Halg, Hhex.
Qed.
Lemma validate_valid d : Digest.valid d = true → Digest.Validate d = None.
Proof. unfold Digest.valid. by destruct (Digest.Validate d). Qed.

Lemma entry_ok_inj e e' : entry_ok e → entry_ok e' → e_digest e = e_digest e' → e = e'.
Proof. intros (_&_&He) (_&_&He') Hd. rewrite Hd, He' in He. congruence. Qed.

(** Where a digest belongs: everything before it is smaller, everything from
    there on is not. *)
Lemma locate dst e :
  set_ok dst → entry_ok e →
  ∃ l1 l2, dst = l1 ++ l2 ∧
    Sort.Search (length dst) (on_entry dst (at_least (e_val e) (e_alg e))) = length l1 ∧
    Forall (λ x, ent_lt x e) l1 ∧ Forall (λ x, x = e ∨ ent_lt e x) l2.
Proof.
  intros [Hs Hok] He.
  destruct (search_split dst (at_least (e_val e) (e_alg e)) Hs) as (l1&l2&Hdst&Hr&H1&H2).
  { intros e1 e2. apply at_least_mono. }
  exists l1, l2. split_and!; [done|done|..].
  - eapply Forall_impl; [done|]. intros x Hx%at_least_false. exact Hx.
  - rewrite Hdst in Hok. apply Forall_app in Hok as [_ Hok2]. rewrite Forall_forall in *.
    intros x Hx. specialize (H2 x Hx). specialize (Hok2 x Hx). simpl in H2.
    unfold at_least, str_leb in H2. unfold ent_lt.
    destruct (String.eqb_spec (e_val x) (e_val e)) as [Hv|Hv]; apply negb_true_iff in H2.
    + destruct (str_ltb (e_alg e) (e_alg x)) eqn:Ha; [by auto|].
      left. apply entry_ok_inj; [done..|]. destruct Hok2 as (->&_), He as (->&_).
      by rewrite Hv, (str_ltb_total _ _ Ha H2).
    + right. left. destruct (str_ltb (e_val e) (e_val x)) eqn:Hlt; [done|].
      destruct Hv. by apply str_ltb_total.
Qed.

Lemma locate_head dst e l1 l2 :
  set_ok dst → dst = l1 ++ l2 → Forall (λ x, x = e ∨ ent_lt e x) l2 →
  match dst !! length l1 with
  | None => l2 = []
  | Some x => (x = e ∧ ∃ l2', l2 = e :: l2') ∨ (x ≠ e ∧ Forall (ent_lt e) l2)
  end.
Proof.
  intros [Hs _] -> H2. rewrite lookup_app_r, Nat.sub_diag by lia. destruct l2 as [|x l2]; [done|]. simpl.
  apply StronglySorted_app_1_r, StronglySorted_inv in Hs as [_ Hx].
  apply Forall_cons in H2 as [[->|Hlt] H2]; [left; eauto|]. right. split.
  - intros ->. by eapply ent_lt_irrefl.
  - constructor; [done|]. eapply Forall_impl; [exact Hx|]. intros y Hy. by eapply ent_lt_trans.
Qed.

Lemma sorted_insert l1 l2 e :
  StronglySorted ent_lt (l1 ++ l2) → Forall (λ x, ent_lt x e) l1 → Forall (ent_lt e) l2 →
  StronglySorted ent_lt (l1 ++ e :: l2).
Proof.
  intros Hs H1 H2. rewrite Forall_forall in H1, H2. apply StronglySorted_app_2.
  - intros x y Hx [->|Hy]%elem_of_cons; [by apply H1|].
    by eapply (StronglySorted_app_1_elem_of ent_lt l1 l2).
  - by eapply StronglySorted_app_1_l.
  - constructor; [by eapply StronglySorted_app_1_r|by apply Forall_forall].
Qed.

Lemma All_insert l1 l2 e x : x ∈ All (l1 ++ e :: l2) ↔ x = e_digest e ∨ x ∈ All (l1 ++ l2).
Proof. unfold All. rewrite !fmap_app, fmap_cons, !elem_of_app, elem_of_cons. tauto. Qed.

Lemma foreign_digest dst x e d i :
  set_ok dst → dst !! i = Some x → entry_ok e → e_digest e = d → x ≠ e →
  String.eqb (e_digest x) d = false.
Proof.
  intros [_ Hfa] Hx He <- Hne. rewrite Forall_lookup in Hfa. apply String.eqb_neq. intros Hd.
  apply Hne, entry_ok_inj; [by eapply Hfa|done|done].
Qed.

(** Adding a valid digest succeeds, keeps the set sorted and free of
    duplicates, and adds exactly that digest. *)
Lemma Add_ok dst d :
  set_ok dst → Digest.valid d = true →
  ∃ dst', Add dst d = Ok dst' ∧ set_ok dst' ∧ ∀ x, x ∈ All dst' ↔ x = d ∨ x ∈ All dst.
Proof.
  intros Hok Hv. destruct (entry_of_valid d Hv) as (e&He&Heok&Hed). unfold Add.
  rewrite validate_valid, He by done. destruct (locate dst e Hok Heok) as (l1&l2&Hdst&->&H1&H2).
  pose proof (locate_head dst e l1 l2 Hok Hdst H2) as Hhead.
  assert (Forall (ent_lt e) l2 → set_ok (l1 ++ e :: l2)) as Hins.
  { destruct Hok as [Hs Hfa]. intros H2'. split; [apply sorted_insert; [by rewrite <-Hdst|done..]|].
    rewrite Hdst in Hfa. apply Forall_app in Hfa as [? ?]. by apply Forall_app_2, Forall_cons. }
  destruct (dst !! length l1) as [x|] eqn:Hx.
  - destruct Hhead as [(->&l2'&->)|[Hne H2']].
    + rewrite Hed, String.eqb_refl. exists dst. split_and!; [done..|]. intros x. rewrite Hdst.
      rewrite All_insert, Hed. tauto.
    + rewrite (foreign_digest dst x e d (length l1)) by done. eexists. split; [done|].
      rewrite Hdst, take_app_length, drop_app_length. split; [by apply Hins|].
      intros y. by rewrite All_insert, Hed.
  - subst l2. rewrite app_nil_r in Hdst. subst l1. eexists. split; [done|]. split; [by apply Hins|].
    intros x. rewrite All_insert, Hed, app_nil_r. tauto.
Qed.

(** Removing a valid digest succeeds, keeps the set sorted and free of
    duplicates, and removes exactly that digest. *)
Lemma Remove_ok dst d :
  set_ok dst → Digest.valid d = true →
  ∃ dst', Remove dst d = Ok dst' ∧ set_ok dst' ∧ ∀ x, x ∈ All dst' ↔ x ∈ All dst ∧ x ≠ d.
Proof.
  intros Hok Hv. destruct (entry_of_valid d Hv) as (e&He&Heok&Hed). unfold Remove.
  rewrite validate_valid, He by done. destruct (locate dst e Hok Heok) as (l1&l2&Hdst&->&H1&H2).
  pose proof (locate_head dst e l1 l2 Hok Hdst H2) as Hhead.
  assert (∀ l, Forall (λ x, x ≠ e) l → Forall entry_ok l → ∀ x, x ∈ All l → x ≠ d) as Hnot.
  { intros l Hl Hlok x Hx ->. apply list_elem_of_fmap in Hx as (y&Hy&Hyl). rewrite Forall_forall in Hl, Hlok.
    apply (Hl y Hyl). apply entry_ok_inj; [by apply Hlok|done|congruence]. }
  assert (∀ x, ent_lt x e → x ≠ e) as Hlt1 by (intros x Hx ->; by eapply ent_lt_irrefl).
  assert (∀ x, ent_lt e x → x ≠ e) as Hlt2 by (intros x Hx ->; by eapply ent_lt_irrefl).
  assert (Forall (λ x, x ≠ e) l1) as Hne1 by (eapply Forall_impl; [done|]; auto).
  pose proof Hok as [Hs Hfa]. rewrite Hdst in Hs, Hfa. pose proof Hfa as [Hfa1 Hfa2]%Forall_app.
  assert (Forall (λ x, x ≠ e) l2 → ∀ x, x ∈ All dst ↔ x ∈ All dst ∧ x ≠ d) as Hsame.
  { intros Hne2 x. split; [|tauto]. intros Hx. split; [done|]. apply (Hnot dst); [|by rewrite Hdst|done].
    rewrite Hdst. by apply Forall_app. }
  destruct (dst !! length l1) as [x|] eqn:Hx.
  - destruct Hhead as [(->&l2'&->)|[Hne H2']].
    + rewrite Hed, String.eqb_refl. cbn [negb]. eexists. split; [done|].
      rewrite Hdst, take_app_length, drop_app_ge, Nat.sub_succ_l, Nat.sub_diag by lia. cbn [drop].
      pose proof Hs as Hs'. apply StronglySorted_app_1_r, StronglySorted_inv in Hs' as [Hs2 Hgt].
      apply Forall_cons in Hfa2 as [_ Hfa2]. split; [split; [|by apply Forall_app]|].
      * apply StronglySorted_app_2; [|by eapply StronglySorted_app_1_l|done].
        intros y z Hy Hz. eapply (StronglySorted_app_1_elem_of ent_lt l1 (e :: l2')); [done..|by right].
      * intros y. rewrite All_insert, Hed. split; [|tauto]. intros Hy. split; [by right|].
        apply (Hnot (l1 ++ l2')); [apply Forall_app; split; [done|]|by apply Forall_app|done].
        eapply Forall_impl; [exact Hgt|]. auto.
    + rewrite (foreign_digest dst x e d (length l1)) by done. exists dst.
      split_and!; [done|done|]. apply Hsame. eapply Forall_impl; [exact H2'|]. auto.
  - subst l2. exists dst. split_and!; [done|done|]. by apply Hsame.
Qed.

(** *** Looking up *)

(** What an identifier denotes: an entry whose hexadecimal value it starts, or
    whose digest it starts beyond the separator. *)
Definition denotes d e : Prop :=
  String.prefix d (e_val e) = true ∨
  String.prefix d (e_digest e) = true ∧ S (String.length (e_alg e)) < String.length d.

Definition canonical e : Prop :=
  entry_ok e ∧ e_alg e = Digest.Canonical ∧ String.length (e_val e) = 64 ∧
  GoString.all_chars GoString.is_hex (e_val e) = true.

Lemma canonical_intro e : entry_ok e → e_alg e = Digest.Canonical → canonical e.
Proof.
  intros Hok Ha. pose proof Hok as (Hd&Hv&_).
  destruct (valid_parts _ Hv) as (alg&hex&_&_&Halg&Hhex&_&Hav).
  rewrite Hd, (Algorithm_NewDigest (e_alg e) (e_val e)) in Halg by (by rewrite Ha).
  rewrite Hd, (Hex_NewDigest (e_alg e) (e_val e)) in Hhex by (by rewrite Ha).
  injection Halg as <-. injection Hhex as <-. rewrite Ha in Hav. unfold Digest.alg_Validate in Hav.
  change (Digest.Size Digest.Canonical) with (Some 32) in Hav. cbv iota in Hav.
  destruct (Nat.eqb_spec (2 * 32) (String.length (e_val e))) as [Hl|]; cbn [negb] in Hav; [|done].
  destruct (GoString.all_chars _ _) eqn:Hc; [|done]. by split_and!.
Qed.

Lemma checkShortMatch_spec alg hex sa sh :
  checkShortMatch alg hex sa sh = true ↔
  String.prefix sh hex = true ∧ (sa = EmptyString ∨ alg = sa).
Proof.
  unfold checkShortMatch, GoString.has_prefix.
  assert ((if (0 <? String.length sa) && negb (String.eqb alg sa) then false else true) = true ↔
          sa = EmptyString ∨ alg = sa) as Halg.
  { destruct sa as [|c sa]; simpl; [intuition|].
    destruct (String.eqb_spec alg (String c sa)); simpl; intuition discriminate. }
  destruct (Nat.eqb_spec (String.length hex) (String.length sh)) as [Hl|Hl].
  - destruct (String.eqb_spec hex sh) as [->|Hne]; cbn [negb].
    + rewrite Halg, str_prefix_refl. intuition.
    + split; [done|]. intros [Hp _]. destruct Hne. symmetry. by apply str_prefix_eq.
  - destruct (String.prefix sh hex); cbn [negb]; [rewrite Halg|]; intuition discriminate.
Qed.

Lemma prefix_all_chars p f s :
  String.prefix p s = true → GoString.all_chars f s = true → GoString.all_chars f p = true.
Proof.
  revert s. induction p as [|a p IH]; intros [|b s]; try done. simpl.
  destruct (ascii_dec a b) as [->|]; [|done]. intros Hp [-> Hs]%andb_prop. by apply IH in Hp.
Qed.
Lemma avoids_cons c x s : avoids c (String x s) ↔ c ≠ x ∧ avoids c s.
Proof.
  unfold avoids. cbn [GoString.index_byte]. destruct (Ascii.eqb_spec c x); [intuition discriminate|].
  destruct (GoString.index_byte c s); simpl; intuition discriminate.
Qed.
Lemma prefix_NewDigest a h b v :
  avoids ":" a → avoids ":" b →
  String.prefix (Digest.NewDigestFromHex a h) (Digest.NewDigestFromHex b v) = true ↔
  a = b ∧ String.prefix h v = true.
Proof.
  unfold Digest.NewDigestFromHex. revert b.
  induction a as [|x a IH]; intros [|y b] Ha Hb; rewrite ?app_nil_l_str, ?app_cons; cbn [String.prefix].
  - destruct (ascii_dec ":" ":"); [|done]. intuition.
  - apply avoids_cons in Hb as [Hy _]. destruct (ascii_dec ":" y); [done|]. intuition discriminate.
  - apply avoids_cons in Ha as [Hx _]. destruct (ascii_dec x ":"); [done|]. intuition discriminate.
  - apply avoids_cons in Ha as [_ Ha], Hb as [_ Hb].
    destruct (ascii_dec x y) as [->|Hne]; [|intuition congruence].
    rewrite (IH b Ha Hb). intuition congruence.
Qed.
Lemma prefix_split p b v :
  String.prefix p (Digest.NewDigestFromHex b v) = true → S (String.length b) < String.length p →
  ∃ h, p = Digest.NewDigestFromHex b h ∧ h ≠ EmptyString ∧ String.prefix h v = true.
Proof.
  unfold Digest.NewDigestFromHex. revert p. induction b as [|y b IH]; intros [|x p]; try (simpl; lia).
  - rewrite app_nil_l_str. simpl. destruct (ascii_dec x ":") as [->|]; [|done].
    intros Hp Hl. exists p. split_and!; [done|by destruct p; simpl in Hl; [lia|]|done].
  - rewrite app_cons. simpl. destruct (ascii_dec x y) as [->|]; [|done]. intros Hp Hl.
    destruct (IH p Hp ltac:(lia)) as (h&->&Hh&Hpv). by exists h.
Qed.

Lemma canonical_digest e : canonical e → e_digest e = Digest.NewDigestFromHex Digest.Canonical (e_val e).
Proof. intros ((->&_)&->&_). done. Qed.

Lemma hex_no_colon s : GoString.all_chars GoString.is_hex s = true → avoids ":" s.
Proof.
  induction s as [|c s IH]; [done|]. simpl. intros [Hc Hs]%andb_prop. apply avoids_cons.
  split; [by intros <-|by apply IH].
Qed.

(** A short digest of the canonical algorithm is not malformed. *)
Lemma short_not_malformed h v :
  h ≠ EmptyString → String.prefix h v = true → GoString.all_chars GoString.is_hex v = true →
  Digest.Validate (Digest.NewDigestFromHex Digest.Canonical h) ≠ Some Digest.ErrDigestInvalidFormat.
Proof.
  intros Hne Hp Hv. unfold Digest.Validate.
  rewrite (index_NewDigest Digest.Canonical h), take_NewDigest, drop_NewDigest by done.
  destruct (_ || _) eqn:Hb.
  { unfold Digest.NewDigestFromHex in Hb. rewrite !str_length_app in Hb. destruct h; [done|]. simpl in Hb. lia. }
  cbn [negb]. change (Digest.Available Digest.Canonical) with true. cbn [negb]. unfold Digest.alg_Validate.
  change (Digest.Size Digest.Canonical) with (Some 32). cbv iota.
  destruct (negb _); [done|]. by rewrite (prefix_all_chars _ _ _ Hp Hv).
Qed.

Lemma lookup_key d :
  ∃ hex alg g,
    (if bool_decide (Digest.Validate d = Some Digest.ErrDigestInvalidFormat)
     then Ok (d, EmptyString, λ e, str_leb d (e_val e))
     else match Digest.Hex d, Digest.Algorithm d with
          | Ok hex, Ok alg => Ok (hex, alg, at_least hex alg)
          | Panic p, _ | _, Panic p => Panic p
          | Err e, _ | _, Err e => Err e
          end) = Ok (hex, alg, g) ∧
    (∀ e, g e = at_least hex alg e) ∧
    (∀ e, canonical e → denotes d e ↔ checkShortMatch (e_alg e) (e_val e) alg hex = true).
Proof.
  case_bool_decide as Hf.
  - exists d, EmptyString. eexists. split; [reflexivity|]. split.
    + intros e. unfold at_least. destruct (String.eqb_spec (e_val e) d) as [->|]; [|done].
      by rewrite str_leb_refl, str_leb_empty.
    + intros e He. pose proof He as (_&Ha&_&Hhex). rewrite checkShortMatch_spec. unfold denotes.
      split; [|intuition]. intros [Hp|[Hp Hl]]; [by auto|]. exfalso.
      rewrite (canonical_digest e He) in Hp. rewrite Ha in Hl.
      destruct (prefix_split _ _ _ Hp Hl) as (h&->&Hh&Hpv). by eapply short_not_malformed.
  - assert (∃ i, GoString.index_byte ":" d = Some i) as [i Hi].
    { unfold Digest.Validate in Hf. destruct (GoString.index_byte ":" d); [by eexists|done]. }
    destruct (index_byte_split _ _ _ Hi) as [Hd Ha].
    set (alg := GoString.take i d) in *. set (hex := GoString.drop (S i) d) in *.
    assert (Digest.Hex d = Ok hex ∧ Digest.Algorithm d = Ok alg) as [-> ->].
    { unfold Digest.Hex, Digest.Algorithm. by rewrite Hi. }
    assert (alg ≠ EmptyString ∧ hex ≠ EmptyString) as [Hane Hhne].
    { assert (i = String.length alg) as Hlen.
      { pose proof (index_byte_app ":" alg hex Ha) as Hi'. rewrite <-Hd, Hi in Hi'. congruence. }
      assert (String.length d = String.length alg + S (String.length hex)) as Hdl.
      { rewrite Hd at 1. by rewrite str_length_app. }
      unfold Digest.Validate in Hf. rewrite Hi in Hf. destruct (_ || _) eqn:Hb; [done|].
      apply orb_false_iff in Hb as [Hb1 Hb2]. apply Nat.eqb_neq in Hb1, Hb2.
      split; intros Hz; rewrite Hz in *; simpl in *; lia. }
    exists hex, alg. eexists. split; [reflexivity|]. split; [done|].
    intros e He. pose proof He as (_&Hea&_&Hhex). rewrite checkShortMatch_spec. unfold denotes.
    change (d = Digest.NewDigestFromHex alg hex) in Hd.
    rewrite (canonical_digest e He), Hd, prefix_NewDigest, Hea by done. split.
    + intros [Hp|[[-> Hp] _]]; [|by auto]. exfalso.
      pose proof (hex_no_colon _ (prefix_all_chars _ _ _ Hp Hhex)) as Hav.
      unfold avoids in Hav. by rewrite (index_NewDigest alg hex) in Hav.
    + intros [Hp [Hz|<-]]; [done|]. right. split; [done|].
      unfold Digest.NewDigestFromHex. rewrite !str_length_app. destruct hex; [done|]. simpl. lia.
Qed.

(** In a sorted set the entries from the first one not below the key on are
    the only ones that can match, and the matches are consecutive. *)
Lemma match_between hex alg e1 e2 :
  canonical e1 → canonical e2 → at_least hex alg e1 = true → e1 = e2 ∨ ent_lt e1 e2 →
  checkShortMatch (e_alg e2) (e_val e2) alg hex = true →
  checkShortMatch (e_alg e1) (e_val e1) alg hex = true.
Proof.
  intros (_&Ha1&_) (_&Ha2&_) Hge [->|Hlt]; [done|]. rewrite !checkShortMatch_spec, Ha1, Ha2.
  intros [Hp Halg]. split; [|done].
  assert (str_leb hex (e_val e1) = true) as Hle.
  { unfold at_least in Hge. destruct (String.eqb_spec (e_val e1) hex) as [->|]; [apply str_leb_refl|done]. }
  destruct Hlt as [Hlt|[Heq _]]; [|by rewrite Heq].
  eapply prefix_between; [done|by apply str_ltb_leb|done].
Qed.
Lemma match_at_least e hex alg :
  checkShortMatch (e_alg e) (e_val e) alg hex = true → at_least hex alg e = true.
Proof.
  rewrite checkShortMatch_spec. intros [Hp Halg]. unfold at_least.
  destruct (String.eqb_spec (e_val e) hex); [|by apply prefix_leb].
  destruct Halg as [->|<-]; [apply str_leb_empty|apply str_leb_refl].
Qed.

(** The window of a search: everything an identifier denotes lies behind the
    index found, from there on without a gap. *)
Lemma lookup_window dst d hex alg (g : digestEntry → bool) :
  set_ok dst → (∀ e, e ∈ dst → canonical e) → (∀ e, g e = at_least hex alg e) →
  (∀ e, canonical e → denotes d e ↔ checkShortMatch (e_alg e) (e_val e) alg hex = true) →
  ∃ l1 l2, dst = l1 ++ l2 ∧ Sort.Search (length dst) (on_entry dst g) = length l1 ∧
    (∀ e, e ∈ dst → denotes d e → e ∈ l2) ∧ StronglySorted ent_lt l2 ∧
    ∀ e l e', suffix (e :: l) l2 → e' ∈ e :: l → denotes d e' → denotes d e.
Proof.
  intros Hok Hcan Hg Hden.
  assert (∀ e, e ∈ dst → denotes d e ↔ checkShortMatch (e_alg e) (e_val e) alg hex = true) as Hm by auto.
  destruct (search_split dst g) as (l1&l2&Hdst&Hr&H1&H2); [apply Hok|..].
  { intros e1 e2. rewrite !Hg. apply at_least_mono. }
  assert (∀ e, e ∈ l2 → e ∈ dst) as Hsub by (intros e He; rewrite Hdst; apply elem_of_app; by right).
  assert (StronglySorted ent_lt l2) as Hs2.
  { destruct Hok as [Hs _]. rewrite Hdst in Hs. by eapply StronglySorted_app_1_r. }
  exists l1, l2. split_and!; [done|done| |done|].
  - intros e He Hd%Hm; [|done]. pose proof (match_at_least _ _ _ Hd) as Hge.
    rewrite Hdst in He. apply elem_of_app in He as [He|He]; [|done].
    rewrite Forall_forall in H1. specialize (H1 e He). rewrite Hg in H1. congruence.
  - intros e l e' Hsuf He' Hd'. assert (e ∈ l2 ∧ e' ∈ l2) as [He2 He2'].
    { destruct Hsuf as [k ->]. split; apply elem_of_app; right; [by left|done]. }
    apply Hm; [auto|]. apply Hm in Hd'; [|auto]. eapply (match_between _ _ e e'); [auto..| | |done].
    + rewrite Forall_forall in H2. rewrite <-Hg. by apply H2.
    + apply elem_of_cons in He' as [->|He']; [by left|right].
      destruct Hsuf as [k ->]. apply StronglySorted_app_1_r, StronglySorted_inv in Hs2 as [_ Hall].
      rewrite Forall_forall in Hall. by apply Hall.
Qed.

(** Canonical entries with the same value are the same. *)
Lemma canonical_val e e' :
  canonical e → canonical e' → String.prefix (e_val e) (e_val e') = true → e = e'.
Proof.
  intros He He' Hp. pose proof He as (Hok&_&Hl&_). pose proof He' as (Hok'&_&Hl'&_).
  apply entry_ok_inj; [done..|]. rewrite (canonical_digest e He), (canonical_digest e' He').
  by rewrite (str_prefix_eq _ _ Hp) by congruence.
Qed.

(** [Lookup] agrees with its specification on the set of an image store:
    it returns the digest of the only entry the identifier denotes, reports an
    ambiguity exactly when two denote it, finds nothing exactly when none does,
    and never panics. *)
Lemma Lookup_ok dst d :
  set_ok dst → Forall (λ e, e_alg e = Digest.Canonical) dst →
  match Lookup dst d with
  | Ok x => ∃ e, e ∈ dst ∧ e_digest e = x ∧ denotes d e ∧ ∀ e', e' ∈ dst → denotes d e' → e' = e
  | Err err =>
      err = ErrDigestNotFound ∧ (∀ e, e ∈ dst → ¬ denotes d e) ∨
      err = ErrDigestAmbiguous ∧ ∃ e1 e2, e1 ∈ dst ∧ e2 ∈ dst ∧ e1 ≠ e2 ∧ denotes d e1 ∧ denotes d e2
  | Panic _ => False
  end.
Proof.
  intros Hok Halg.
  assert (∀ e, e ∈ dst → canonical e) as Hcan.
  { destruct Hok as [_ Hfa]. rewrite Forall_forall in Hfa, Halg. intros e He. apply canonical_intro; auto. }
  unfold Lookup. destruct (Nat.eqb_spec (length dst) 0) as [Hz|_].
  { left. split; [done|]. intros e He. destruct dst; [|done]. by apply not_elem_of_nil in He. }
  unfold Digest.Parse. destruct (lookup_key d) as (hex&alg&g&->&Hg&Hden).
  destruct (lookup_window dst d hex alg g Hok Hcan Hg Hden) as (l1&l2&Hdst&->&Hin2&Hs2&Hfirst).
  rewrite Hdst, !lookup_app_r, Nat.sub_diag, Nat.add_sub' by lia. rewrite <-Hdst.
  assert (∀ e, e ∈ l2 → e ∈ dst) as Hsub by (intros e He; rewrite Hdst; apply elem_of_app; by right).
  destruct l2 as [|e l3]; simpl.
  { left. split; [done|]. intros e He Hd. by apply (not_elem_of_nil e), Hin2. }
  assert (e ∈ dst) as He by (apply Hsub; left). specialize (Hden e (Hcan e He)) as Hme.
  destruct (checkShortMatch (e_alg e) (e_val e) alg hex); simpl.
  2:{ left. split; [done|]. intros e' He' Hd. cut (false = true); [done|].
      apply Hme. by apply (Hfirst e l3 e'); [|apply Hin2|]. }
  assert (denotes d e) as Hde by (by apply Hme).
  destruct (String.eqb_spec (e_alg e) alg), (String.eqb_spec (e_val e) hex) as [Hv|]; simpl.
  { exists e. split_and!; [done..|]. intros e' He' Hd'%(Hden e' (Hcan e' He')).
    apply checkShortMatch_spec in Hd' as [Hp _]. symmetry. apply canonical_val; [auto..|]. by rewrite Hv. }
  all: destruct l3 as [|e2 l4]; simpl;
    [exists e; split_and!; [done..|]; intros e' He' Hd'%Hin2; [|done]; by apply list_elem_of_singleton in Hd'|].
  all: assert (e2 ∈ dst) as He2 by (apply Hsub; by do 2 constructor).
  all: specialize (Hden e2 (Hcan e2 He2)) as Hm2.
  all: apply StronglySorted_inv in Hs2 as [_ Hall]; apply Forall_cons in Hall as [Hlt _].
  all: destruct (checkShortMatch (e_alg e2) (e_val e2) alg hex).
  all: try (right; split; [done|]; exists e, e2; split_and!; [done..| |done|by apply Hm2];
            by intros ->; eapply ent_lt_irrefl).
  all: exists e; split_and!; [done..|]; intros e' He' Hd'; pose proof (Hin2 e' He' Hd') as Hl2;
    apply elem_of_cons in Hl2 as [->|Hl2]; [done|]; cut (false = true); [done|];
    apply Hm2; apply (Hfirst e2 l4 e'); [by exists [e]|done|done].
Qed.
End DigestSetProofs.
