(* ===== verification/Chain.v ===== *)
(** * Layer identifiers and the empty layer

    [src/engine/layer/layer.go] (errors, chain identifiers, metadata) and
    [src/engine/layer/empty.go]. *)

From S2P Require Import Prelude Digest.

(** [ChainID] and [DiffID] are digest strings. *)
Abbreviation ChainID := string (only parsing).
Abbreviation DiffID := string (only parsing).

Module LayerErr.
Definition ErrLayerDoesNotExist := Sentinel "layer.ErrLayerDoesNotExist".
Definition ErrLayerNotRetained := Sentinel "layer.ErrLayerNotRetained".
Definition ErrMountDoesNotExist := Sentinel "layer.ErrMountDoesNotExist".
Definition ErrMountNameConflict := Sentinel "layer.ErrMountNameConflict".
Definition ErrMaxDepthExceeded := Sentinel "layer.ErrMaxDepthExceeded".
End LayerErr.

(** [layer.Metadata]. *)
Record Metadata := mkMetadata {
  md_ChainID : ChainID;
  md_DiffID : DiffID;
  md_Size : Z;
  md_DiffSize : Z;
}.

#[export] Instance Metadata_eq_dec : EqDecision Metadata.
Proof. solve_decision. Defined.

(** [createChainIDFromParent]. *)
Fixpoint createChainIDFromParent (parent : ChainID) (dgsts : list DiffID) : ChainID :=
  match dgsts with
  | [] => parent
  | d :: ds =>
      if String.eqb parent EmptyString then createChainIDFromParent d ds
      else createChainIDFromParent (Digest.FromBytes (parent +:+ " " +:+ d)) ds
  end.

(** [CreateChainID]. *)
Definition CreateChainID (dgsts : list DiffID) : ChainID :=
  createChainIDFromParent EmptyString dgsts.

(** [DigestSHA256EmptyTar] and [IsEmpty]. *)
Definition DigestSHA256EmptyTar : DiffID :=
  "sha256:5f70bf18a086007016e948b04aed3b82103a36bea41755b6cddfaf10ace3c6ef".
Definition IsEmpty (diffID : DiffID) : bool := String.eqb diffID DigestSHA256EmptyTar.

Module EmptyLayer.
(** [tar.Writer.Close] on an empty archive writes the two zero blocks of 512
    bytes that end a tar stream. *)
Definition tar_footer : string :=
  Nat.iter 1024 (String Ascii.zero) EmptyString.

Definition TarStream : outcome string := Ok tar_footer.
Definition TarStreamFrom (p : ChainID) : outcome string :=
  if String.eqb p EmptyString then TarStream
  else Err (Errorf "can't get parent tar stream of an empty layer").
Definition ChainID : string := DigestSHA256EmptyTar.
Definition DiffID : string := DigestSHA256EmptyTar.
Definition Size : outcome Z := Ok 0%Z.
Definition DiffSize : outcome Z := Ok 0%Z.
End EmptyLayer.

(** The chain identifier is a left fold over the diff identifiers. *)
Definition chain_step (parent : ChainID) (d : DiffID) : ChainID :=
  if String.eqb parent EmptyString then d
  else Digest.FromBytes (parent +:+ " " +:+ d).

Lemma createChainIDFromParent_foldl p ds :
  createChainIDFromParent p ds = foldl chain_step p ds.
Proof.
  revert p. induction ds as [|d ds IH]; intros p; [done|]. simpl. unfold chain_step at 2.
  destruct (String.eqb p EmptyString); apply IH.
Qed.

Lemma createChainIDFromParent_app p ds1 ds2 :
  createChainIDFromParent p (ds1 ++ ds2) =
  createChainIDFromParent (createChainIDFromParent p ds1) ds2.
Proof. by rewrite !createChainIDFromParent_foldl, foldl_app. Qed.

Lemma createChainIDFromParent_one p d :
  createChainIDFromParent p [d] = chain_step p d.
Proof. apply createChainIDFromParent_foldl. Qed.

Lemma chain_step_valid p d :
  Digest.valid d = true → Digest.valid (chain_step p d) = true.
Proof.
  intros Hd. unfold chain_step.
  destruct (String.eqb p EmptyString); [done|apply FromBytes_valid].
Qed.

Lemma CreateChainID_valid ds :
  Forall (λ d, Digest.valid d = true) ds → ds ≠ [] → Digest.valid (CreateChainID ds) = true.
Proof.
  intros Hds Hne. unfold CreateChainID. rewrite createChainIDFromParent_foldl.
  destruct ds as [|d ds] using rev_ind; [done|]. rewrite foldl_app. simpl.
  apply chain_step_valid. apply Forall_app in Hds as [_ Hd]. by inversion Hd.
Qed.

Lemma CreateChainID_empty ds :
  Forall (λ d, Digest.valid d = true) ds → CreateChainID ds = EmptyString ↔ ds = [].
Proof.
  intros Hds. split; [|by intros ->]. intros He. destruct (decide (ds = [])); [done|].
  pose proof (CreateChainID_valid ds Hds n) as Hv. by rewrite He in Hv.
Qed.
