(* ===== verification/FileStore.v ===== *)
(** * The layer metadata store

    [src/engine/layer/filestore.go]: one directory of small files per layer and
    per mount, written through a transaction that is renamed into place. *)

From S2P Require Import Prelude FileSys Digest Chain.

(** [distribution.Descriptor]. *)
Record Descriptor := mkDescriptor {
  MediaType : string;
  DescSize : Z;
  DescDigest : string;
  URLs : list string;
}.
Definition emptyDescriptor : Descriptor := mkDescriptor EmptyString 0 EmptyString [].

#[export] Instance Descriptor_eq_dec : EqDecision Descriptor.
Proof. solve_decision. Defined.

(** The regular expression of 64 hexadecimal digits with an optional suffix. *)
Definition stringIDRegexp (s : string) : bool :=
  let h := GoString.take 64 s in
  let r := GoString.drop 64 s in
  (String.length h =? 64) && GoString.all_chars GoString.is_hex h
    && (String.eqb r EmptyString || String.eqb r "-init").

Definition supportedAlgorithms : list string := ["sha256"].

Module MetaStore.
Section FileStore.
Context `{JSON Descriptor}.
(** [fileMetadataStore.root]. *)
Context (root : path).

(** [newFSMetadataStore]. *)
Definition newFSMetadataStore : M FS () := Os.MkdirAll root.

Definition getLayerDirectory (layer : ChainID) : M FS path :=
  alg ← of_outcome (Digest.Algorithm layer);
  hex ← of_outcome (Digest.Hex layer);
  mret (Filepath.Join root [alg; hex]).

Definition getLayerFilename (layer : ChainID) (filename : string) : M FS path :=
  d ← getLayerDirectory layer;
  mret (Filepath.Join d [filename]).

Definition getMountDirectory (mount : string) : path :=
  Filepath.Join root ["mounts"; mount].

Definition getMountFilename (mount filename : string) : path :=
  Filepath.Join (getMountDirectory mount) [filename].

(** [fileMetadataTransaction], of this store. *)
Abbreviation Tx := Ioutils.AtomicWriteSet.

Definition StartTransaction : M FS Tx :=
  let tmpDir := Filepath.Join root ["tmp"] in
  _ ← Os.MkdirAll tmpDir;
  Ioutils.NewAtomicWriteSet tmpDir.

Definition tx_SetSize (tx : Tx) (size : Z) : M FS () :=
  Ioutils.ws_WriteFile tx "size" (GoString.format_int size).
Definition tx_SetParent (tx : Tx) (parent : ChainID) : M FS () :=
  Ioutils.ws_WriteFile tx "parent" parent.
Definition tx_SetDiffID (tx : Tx) (diff : DiffID) : M FS () :=
  Ioutils.ws_WriteFile tx "diff" diff.
Definition tx_SetCacheID (tx : Tx) (cacheID : string) : M FS () :=
  Ioutils.ws_WriteFile tx "cache-id" cacheID.
Definition tx_SetDescriptor (tx : Tx) (ref : Descriptor) : M FS () :=
  jsonRef ← of_sum (json_marshal ref);
  Ioutils.ws_WriteFile tx "descriptor.json" jsonRef.
(** [filestore_unix.go]: the operating system is not recorded. *)
Definition tx_setOS (tx : Tx) (os : string) : M FS () := mret tt.

(** [TarSplitWriter]: the writer's file; its contents follow with [Os.Write]. *)
Definition tx_TarSplitWriter (tx : Tx) : M FS path :=
  Ioutils.ws_FileWriter tx "tar-split.json.gz".

Definition tx_Commit (tx : Tx) (layer : ChainID) : M FS () :=
  finalDir ← getLayerDirectory layer;
  _ ← Os.MkdirAll (parent_dir finalDir);
  Ioutils.ws_Commit tx finalDir.
Definition tx_Cancel (tx : Tx) : M FS () := Ioutils.ws_Cancel tx.

Definition GetSize (layer : ChainID) : M FS Z :=
  p ← getLayerFilename layer "size";
  content ← Os.ReadFile p;
  match GoString.parse_int content with
  | Some size => mret size
  | None => fail (Errorf "strconv.ParseInt: invalid syntax or value out of range")
  end.

(** A digest file: trimmed and validated. *)
Definition parse_digest_file (content : string) : M FS string :=
  let '(dgst, err) := Digest.Parse (GoString.trim_space content) in
  _ ← of_err err;
  mret dgst.

Definition GetParent (layer : ChainID) : M FS ChainID :=
  p ← getLayerFilename layer "parent";
  r ← attempt (Os.ReadFile p);
  match r with
  | inl e => if Os.IsNotExist e then mret EmptyString else fail e
  | inr content => parse_digest_file content
  end.

Definition GetDiffID (layer : ChainID) : M FS DiffID :=
  p ← getLayerFilename layer "diff";
  content ← Os.ReadFile p;
  parse_digest_file content.

Definition GetCacheID (layer : ChainID) : M FS string :=
  p ← getLayerFilename layer "cache-id";
  contentBytes ← Os.ReadFile p;
  let content := GoString.trim_space contentBytes in
  _ ← guard_err (negb (String.eqb content EmptyString)) (Errorf "invalid cache id value");
  mret content.

Definition GetDescriptor (layer : ChainID) : M FS Descriptor :=
  p ← getLayerFilename layer "descriptor.json";
  r ← attempt (Os.ReadFile p);
  match r with
  | inl e => if Os.IsNotExist e then mret emptyDescriptor else fail e
  | inr content => of_sum (json_unmarshal content)
  end.

(** [filestore_unix.go]: [getOS] answers the host's system. *)
Definition getOS (runtime_GOOS : string) (layer : ChainID) : M FS string :=
  mret runtime_GOOS.

(** [TarSplitReader]: the compressed contents of the file. *)
Definition TarSplitReader (layer : ChainID) : M FS string :=
  p ← getLayerFilename layer "tar-split.json.gz";
  Os.ReadFile p.

Definition SetMountID (mount mountID : string) : M FS () :=
  _ ← Os.MkdirAll (getMountDirectory mount);
  Os.WriteFile (getMountFilename mount "mount-id") mountID.
Definition SetInitID (mount init : string) : M FS () :=
  _ ← Os.MkdirAll (getMountDirectory mount);
  Os.WriteFile (getMountFilename mount "init-id") init.
Definition SetMountParent (mount : string) (parent : ChainID) : M FS () :=
  _ ← Os.MkdirAll (getMountDirectory mount);
  Os.WriteFile (getMountFilename mount "parent") parent.

Definition GetMountID (mount : string) : M FS string :=
  contentBytes ← Os.ReadFile (getMountFilename mount "mount-id");
  let content := GoString.trim_space contentBytes in
  _ ← guard_err (stringIDRegexp content) (Errorf "invalid mount id value");
  mret content.

Definition GetInitID (mount : string) : M FS string :=
  r ← attempt (Os.ReadFile (getMountFilename mount "init-id"));
  match r with
  | inl e => if Os.IsNotExist e then mret EmptyString else fail e
  | inr contentBytes =>
      let content := GoString.trim_space contentBytes in
      _ ← guard_err (stringIDRegexp content) (Errorf "invalid init id value");
      mret content
  end.

Definition GetMountParent (mount : string) : M FS ChainID :=
  r ← attempt (Os.ReadFile (getMountFilename mount "parent"));
  match r with
  | inl e => if Os.IsNotExist e then mret EmptyString else fail e
  | inr content => parse_digest_file content
  end.

(** The digests among the directory entries of one algorithm. *)
Definition list_digests (algorithm : string) (infos : list (string * bool)) : list ChainID :=
  omap (λ '(name, isdir),
    if (isdir : bool) && negb (String.eqb name "mounts") then
      let dgst := Digest.NewDigestFromHex algorithm name in
      match Digest.Validate dgst with None => Some dgst | Some _ => None end
    else None) infos.

Fixpoint list_algorithms (algs : list string) (ids : list ChainID) : M FS (list ChainID) :=
  match algs with
  | [] => mret ids
  | algorithm :: algs =>
      r ← attempt (Os.ReadDir (Filepath.Join root [algorithm]));
      match r with
      | inl e => if Os.IsNotExist e then list_algorithms algs ids else fail e
      | inr fileInfos => list_algorithms algs (ids ++ list_digests algorithm fileInfos)
      end
  end.

Definition List : M FS (list ChainID * list string) :=
  ids ← list_algorithms supportedAlgorithms [];
  r ← attempt (Os.ReadDir (Filepath.Join root ["mounts"]));
  match r with
  | inl e => if Os.IsNotExist e then mret (ids, []) else fail e
  | inr fileInfos =>
      mret (ids, omap (λ '(name, isdir), if (isdir : bool) then Some name else None) fileInfos)
  end.

Definition Remove (layer : ChainID) : M FS () :=
  d ← getLayerDirectory layer;
  Os.RemoveAll d.
Definition RemoveMount (mount : string) : M FS () :=
  Os.RemoveAll (getMountDirectory mount).
End FileStore.
End MetaStore.

(** ** No metadata operation panics on a well-formed identifier *)

Section SafeMeta.
Context `{JSON Descriptor} (root : path).

Lemma safe_getLayerDirectory layer :
  Digest.valid layer = true → safe (MetaStore.getLayerDirectory root layer).
Proof.
  intros Hv. destruct (valid_parts _ Hv) as (alg&hex&_&_&Ha&Hh&_&_).
  unfold MetaStore.getLayerDirectory. rewrite Ha, Hh. solve_safe.
Qed.
Hint Resolve safe_getLayerDirectory : safe.
Lemma safe_getLayerFilename layer f :
  Digest.valid layer = true → safe (MetaStore.getLayerFilename root layer f).
Proof. intros Hv. unfold MetaStore.getLayerFilename. solve_safe. Qed.
Hint Resolve safe_getLayerFilename : safe.

Lemma safe_StartTransaction : safe (MetaStore.StartTransaction root).
Proof. unfold MetaStore.StartTransaction. solve_safe. Qed.
Lemma safe_tx_SetSize tx z : safe (MetaStore.tx_SetSize tx z).
Proof. unfold MetaStore.tx_SetSize. solve_safe. Qed.
Lemma safe_tx_SetParent tx z : safe (MetaStore.tx_SetParent tx z).
Proof. unfold MetaStore.tx_SetParent. solve_safe. Qed.
Lemma safe_tx_SetDiffID tx z : safe (MetaStore.tx_SetDiffID tx z).
Proof. unfold MetaStore.tx_SetDiffID. solve_safe. Qed.
Lemma safe_tx_SetCacheID tx z : safe (MetaStore.tx_SetCacheID tx z).
Proof. unfold MetaStore.tx_SetCacheID. solve_safe. Qed.
Lemma safe_tx_SetDescriptor tx z : safe (MetaStore.tx_SetDescriptor tx z).
Proof. unfold MetaStore.tx_SetDescriptor. solve_safe. Qed.
Lemma safe_tx_setOS tx z : safe (MetaStore.tx_setOS tx z).
Proof. unfold MetaStore.tx_setOS. solve_safe. Qed.
Lemma safe_tx_TarSplitWriter tx : safe (MetaStore.tx_TarSplitWriter tx).
Proof. unfold MetaStore.tx_TarSplitWriter. solve_safe. Qed.
Lemma safe_tx_Commit tx layer : Digest.valid layer = true → safe (MetaStore.tx_Commit root tx layer).
Proof. intros Hv. unfold MetaStore.tx_Commit. solve_safe. Qed.
Lemma safe_tx_Cancel tx : safe (MetaStore.tx_Cancel tx).
Proof. unfold MetaStore.tx_Cancel. solve_safe. Qed.
Lemma safe_meta_Remove layer : Digest.valid layer = true → safe (MetaStore.Remove root layer).
Proof. intros Hv. unfold MetaStore.Remove. solve_safe. Qed.
Lemma safe_RemoveMount m : safe (MetaStore.RemoveMount root m).
Proof. unfold MetaStore.RemoveMount. solve_safe. Qed.
Lemma safe_SetMountID m z : safe (MetaStore.SetMountID root m z).
Proof. unfold MetaStore.SetMountID. solve_safe. Qed.
Lemma safe_SetInitID m z : safe (MetaStore.SetInitID root m z).
Proof. unfold MetaStore.SetInitID. solve_safe. Qed.
Lemma safe_SetMountParent m z : safe (MetaStore.SetMountParent root m z).
Proof. unfold MetaStore.SetMountParent. solve_safe. Qed.
Lemma safe_GetMountID m : safe (MetaStore.GetMountID root m).
Proof. unfold MetaStore.GetMountID. solve_safe. Qed.
Lemma safe_GetInitID m : safe (MetaStore.GetInitID root m).
Proof. unfold MetaStore.GetInitID. solve_safe. Qed.
Lemma safe_parse_digest_file s : safe (MetaStore.parse_digest_file s).
Proof. unfold MetaStore.parse_digest_file. solve_safe. Qed.
Hint Resolve safe_parse_digest_file : safe.
Lemma safe_GetMountParent m : safe (MetaStore.GetMountParent root m).
Proof. unfold MetaStore.GetMountParent. solve_safe. Qed.
Lemma safe_GetDiffID layer : Digest.valid layer = true → safe (MetaStore.GetDiffID root layer).
Proof. intros Hv. unfold MetaStore.GetDiffID. solve_safe. Qed.
Lemma safe_GetSize layer : Digest.valid layer = true → safe (MetaStore.GetSize root layer).
Proof. intros Hv. unfold MetaStore.GetSize. solve_safe. Qed.
Lemma safe_GetCacheID layer : Digest.valid layer = true → safe (MetaStore.GetCacheID root layer).
Proof. intros Hv. unfold MetaStore.GetCacheID. solve_safe. Qed.
Lemma safe_meta_GetParent layer : Digest.valid layer = true → safe (MetaStore.GetParent root layer).
Proof. intros Hv. unfold MetaStore.GetParent. solve_safe. Qed.
Lemma safe_GetDescriptor layer : Digest.valid layer = true → safe (MetaStore.GetDescriptor root layer).
Proof. intros Hv. unfold MetaStore.GetDescriptor. solve_safe. Qed.
Lemma safe_TarSplitReader layer : Digest.valid layer = true → safe (MetaStore.TarSplitReader root layer).
Proof. intros Hv. unfold MetaStore.TarSplitReader. solve_safe. Qed.
Lemma safe_list_algorithms algs ids : safe (MetaStore.list_algorithms root algs ids).
Proof. revert ids. induction algs as [|a algs IH]; intros ids; simpl; solve_safe. Qed.
Hint Resolve safe_list_algorithms : safe.
Lemma safe_meta_List : safe (MetaStore.List root).
Proof. unfold MetaStore.List. solve_safe. Qed.
End SafeMeta.

#[export] Hint Resolve safe_getLayerDirectory safe_getLayerFilename safe_StartTransaction
  safe_tx_SetSize safe_tx_SetParent safe_tx_SetDiffID safe_tx_SetCacheID safe_tx_SetDescriptor
  safe_tx_setOS safe_tx_TarSplitWriter safe_tx_Commit safe_tx_Cancel safe_meta_Remove
  safe_RemoveMount safe_SetMountID safe_SetInitID safe_SetMountParent safe_GetMountID
  safe_GetInitID safe_GetMountParent safe_GetDiffID safe_GetSize safe_GetCacheID
  safe_meta_GetParent safe_GetDescriptor safe_TarSplitReader safe_meta_List : safe.
