(* ===== verification/GraphDriver.v ===== *)
(** * The graph driver interface

    [src/engine/daemon/graphdriver/driver.go]: what a storage driver offers to
    the layer store. *)

From S2P Require Import Prelude.

(** [CreateOpts]. *)
Record CreateOpts := {
  co_MountLabel : string;
  co_StorageOpt : gmap string string;
}.

(** An [archive.Change]: kind and path. *)
Inductive ChangeType := ChangeModify | ChangeAdd | ChangeDelete.
Record Change := { ch_Path : string; ch_Kind : ChangeType }.

(** A call into a driver with state [D]: an error or a value, and the new
    state.  Drivers report their failures as errors. *)
Definition dcall (D A : Type) : Type := D → (error + A) * D.

(** [Driver]: [ProtoDriver], [DiffDriver] and the optional
    [CapabilityDriver] and [DiffGetterDriver].  [ApplyDiff] also tells how many
    bytes of the stream it read; [path_files] is the file access of
    [storage.NewPathFileGetter] below a mount path. *)
Class GraphDriver (D : Type) := {
  drv_String : D → string;
  drv_Create : string → string → option CreateOpts → dcall D ();
  drv_CreateReadWrite : string → string → option CreateOpts → dcall D ();
  drv_Remove : string → dcall D ();
  drv_Get : string → string → dcall D string;
  drv_Put : string → dcall D ();
  drv_Exists : D → string → bool;
  drv_Status : D → list (string * string);
  drv_GetMetadata : string → dcall D (gmap string string);
  drv_Cleanup : dcall D ();
  drv_Diff : string → string → dcall D string;
  drv_Changes : string → string → dcall D (list Change);
  drv_ApplyDiff : string → string → string → dcall D (Z * nat);
  drv_DiffSize : string → string → dcall D Z;
  drv_ReproducesExactDiffs : bool;
  drv_DiffGetter : option (string → dcall D (string → error + string));
  path_files : D → string → string → error + string;
}.
