(* ===== verification/LayerStore.v ===== *)
(** * The layer store

    [src/engine/layer/layer_store.go], [ro_layer.go], [mounted_layer.go] and
    [migration.go]: content-addressed read-only layers with reference counts,
    and the mounts made from them. *)

From S2P Require Import Prelude FileSys Digest Chain FileStore GraphDriver.

(** Addresses of [roLayer], [mountedLayer] and reference objects. *)
Abbreviation loc := nat.

(** [roLayer]. *)
Record roLayer := mkRo {
  rl_chainID : ChainID;
  rl_diffID : DiffID;
  rl_parent : option loc;
  rl_cacheID : string;
  rl_size : Z;
  rl_descriptor : Descriptor;
  rl_referenceCount : Z;
  rl_references : gset loc;
}.

(** [mountedLayer]. *)
Record mountedLayer := mkMl {
  ml_name : string;
  ml_mountID : string;
  ml_initID : string;
  ml_parent : option loc;
  ml_references : gset loc;
}.

(** The maps of [layerStore] and the objects they point to.  [refs] and
    [rwrefs] are the [referencedCacheLayer] and [referencedRWLayer] objects;
    [idSource] supplies the results of [stringid.GenerateRandomID]. *)
Record Core := mkCore {
  heap : gmap loc roLayer;
  layerMap : gmap ChainID loc;
  mheap : gmap loc mountedLayer;
  mounts : gmap string loc;
  refs : gmap loc loc;
  rwrefs : gmap loc loc;
  next : loc;
  idSource : nat → string;
  idPos : nat;
}.

(** A [Layer] interface value. *)
Inductive Layer :=
| LRef (r : loc)
| LRo (l : loc)
| LEmpty.

(** [CreateRWLayerOpts]; the init function works on the driver's storage. *)
Record CreateRWLayerOpts (D : Type) := {
  rw_MountLabel : string;
  rw_InitFunc : option (string → dcall D ());
  rw_StorageOpt : gmap string string;
}.
Arguments rw_MountLabel {D} _.
Arguments rw_InitFunc {D} _.
Arguments rw_StorageOpt {D} _.

(** [maxLayerDepth]. *)
Definition maxLayerDepth : nat := 125.

Definition with_heap (f : gmap loc roLayer → gmap loc roLayer) (c : Core) : Core :=
  mkCore (f (heap c)) (layerMap c) (mheap c) (mounts c) (refs c) (rwrefs c) (next c) (idSource c) (idPos c).
Definition with_layerMap (f : gmap ChainID loc → gmap ChainID loc) (c : Core) : Core :=
  mkCore (heap c) (f (layerMap c)) (mheap c) (mounts c) (refs c) (rwrefs c) (next c) (idSource c) (idPos c).
Definition with_mheap (f : gmap loc mountedLayer → gmap loc mountedLayer) (c : Core) : Core :=
  mkCore (heap c) (layerMap c) (f (mheap c)) (mounts c) (refs c) (rwrefs c) (next c) (idSource c) (idPos c).
Definition with_mounts (f : gmap string loc → gmap string loc) (c : Core) : Core :=
  mkCore (heap c) (layerMap c) (mheap c) (f (mounts c)) (refs c) (rwrefs c) (next c) (idSource c) (idPos c).

Definition add_refcount (n : Z) (r : roLayer) : roLayer :=
  mkRo (rl_chainID r) (rl_diffID r) (rl_parent r) (rl_cacheID r) (rl_size r) (rl_descriptor r)
    (rl_referenceCount r + n) (rl_references r).
Definition set_references (f : gset loc → gset loc) (r : roLayer) : roLayer :=
  mkRo (rl_chainID r) (rl_diffID r) (rl_parent r) (rl_cacheID r) (rl_size r) (rl_descriptor r)
    (rl_referenceCount r) (f (rl_references r)).
Definition set_applied (size : Z) (diff : DiffID) (r : roLayer) : roLayer :=
  mkRo (rl_chainID r) diff (rl_parent r) (rl_cacheID r) size (rl_descriptor r)
    (rl_referenceCount r) (rl_references r).
Definition set_chainID (c : ChainID) (r : roLayer) : roLayer :=
  mkRo c (rl_diffID r) (rl_parent r) (rl_cacheID r) (rl_size r) (rl_descriptor r)
    (rl_referenceCount r) (rl_references r).
Definition set_ml_references (f : gset loc → gset loc) (m : mountedLayer) : mountedLayer :=
  mkMl (ml_name m) (ml_mountID m) (ml_initID m) (ml_parent m) (f (ml_references m)).
Definition set_ml_initID (i : string) (m : mountedLayer) : mountedLayer :=
  mkMl (ml_name m) (ml_mountID m) i (ml_parent m) (ml_references m).

Definition nil_deref : string := "invalid memory address or nil pointer dereference".

(** ** Operations on the maps and the heap *)

Module Mem.
Definition deref (l : loc) : M Core roLayer := λ c,
  match heap c !! l with
  | Some r => (Ok r, c)
  | None => (Panic nil_deref, c)
  end.
Definition mderef (m : loc) : M Core mountedLayer := λ c,
  match mheap c !! m with
  | Some r => (Ok r, c)
  | None => (Panic nil_deref, c)
  end.
Definition update (l : loc) (f : roLayer → roLayer) : M Core () :=
  modify (with_heap (alter f l)).
Definition mupdate (m : loc) (f : mountedLayer → mountedLayer) : M Core () :=
  modify (with_mheap (alter f m)).

(** [&roLayer{...}] and [&mountedLayer{...}]. *)
Definition alloc (r : roLayer) : M Core loc := λ c,
  (Ok (next c),
   mkCore (<[next c := r]> (heap c)) (layerMap c) (mheap c) (mounts c) (refs c) (rwrefs c)
     (S (next c)) (idSource c) (idPos c)).
Definition malloc (m : mountedLayer) : M Core loc := λ c,
  (Ok (next c),
   mkCore (heap c) (layerMap c) (<[next c := m]> (mheap c)) (mounts c) (refs c) (rwrefs c)
     (S (next c)) (idSource c) (idPos c)).

(** [stringid.GenerateRandomID]. *)
Definition GenerateRandomID : M Core string := λ c,
  (Ok (idSource c (idPos c)),
   mkCore (heap c) (layerMap c) (mheap c) (mounts c) (refs c) (rwrefs c)
     (next c) (idSource c) (S (idPos c))).

(** [roLayer.getReference]. *)
Definition getReference (l : loc) : M Core Layer := λ c,
  let r := next c in
  (Ok (LRef r),
   mkCore (alter (set_references (λ X, {[ r ]} ∪ X)) l (heap c)) (layerMap c) (mheap c) (mounts c)
     (<[r := l]> (refs c)) (rwrefs c) (S r) (idSource c) (idPos c)).

Definition hasReference (rl : roLayer) (ref : Layer) : bool :=
  match ref with LRef r => bool_decide (r ∈ rl_references rl) | _ => false end.
Definition hasReferences (rl : roLayer) : bool := bool_decide (0 < size (rl_references rl)).
Definition deleteReference (l : loc) (ref : Layer) : M Core () :=
  match ref with
  | LRef r => update l (set_references (λ X, X ∖ {[ r ]}))
  | _ => mret tt
  end.

(** [mountedLayer.getReference], [deleteReference], [retakeReference]. *)
Definition mgetReference (m : loc) : M Core loc := λ c,
  let r := next c in
  (Ok r,
   mkCore (heap c) (layerMap c) (alter (set_ml_references (λ X, {[ r ]} ∪ X)) m (mheap c)) (mounts c)
     (refs c) (<[r := m]> (rwrefs c)) (S r) (idSource c) (idPos c)).
Definition mhasReferences (ml : mountedLayer) : bool := bool_decide (0 < size (ml_references ml)).
Definition mdeleteReference (m : loc) (ref : loc) : M Core () :=
  ml ← mderef m;
  _ ← guard_err (bool_decide (ref ∈ ml_references ml)) LayerErr.ErrLayerNotRetained;
  mupdate m (set_ml_references (λ X, X ∖ {[ ref ]})).
Definition retakeReference (m : loc) (ref : loc) : M Core () :=
  mupdate m (set_ml_references (λ X, {[ ref ]} ∪ X)).

(** [Layer.ChainID]. *)
Definition ChainID_of (l : Layer) : M Core ChainID :=
  match l with
  | LRef r => c ← get; match refs c !! r with
                       | Some l => rl ← deref l; mret (rl_chainID rl)
                       | None => panic nil_deref
                       end
  | LRo l => rl ← deref l; mret (rl_chainID rl)
  | LEmpty => mret EmptyLayer.ChainID
  end.
(** [Layer.DiffID]. *)
Definition DiffID_of (l : Layer) : M Core DiffID :=
  match l with
  | LRef r => c ← get; match refs c !! r with
                       | Some l => rl ← deref l; mret (rl_diffID rl)
                       | None => panic nil_deref
                       end
  | LRo l => rl ← deref l; mret (rl_diffID rl)
  | LEmpty => mret EmptyLayer.DiffID
  end.

(** [getWithoutLock] and [get]: the layer, retained once more. *)
Definition getWithoutLock (layer : ChainID) : M Core (option loc) :=
  c ← get;
  match layerMap c !! layer with
  | None => mret None
  | Some l => _ ← update l (add_refcount 1); mret (Some l)
  end.
Definition ls_get (l : ChainID) : M Core (option loc) := getWithoutLock l.

(** [Get]. *)
Definition Get (l : ChainID) : M Core Layer :=
  layer ← getWithoutLock l;
  match layer with
  | None => fail LayerErr.ErrLayerDoesNotExist
  | Some l => getReference l
  end.

(** [Map]. *)
Definition Map : M Core (gmap ChainID Layer) := gets (λ c, LRo <$> layerMap c).

(** Recursion along the parent pointers.  [fuel] bounds the length of the
    chain; running out of it stands for the unbounded recursion of a cycle. *)
Fixpoint Size_go (fuel : nat) (l : loc) : M Core Z :=
  match fuel with
  | O => panic "stack overflow"
  | S fuel =>
      rl ← deref l;
      size ← match rl_parent rl with
             | Some p => Size_go fuel p
             | None => mret 0%Z
             end;
      mret (wrap64 (size + rl_size rl))
  end.
Fixpoint depth_go (fuel : nat) (l : loc) : M Core nat :=
  match fuel with
  | O => panic "stack overflow"
  | S fuel =>
      rl ← deref l;
      match rl_parent rl with
      | None => mret 1
      | Some p => d ← depth_go fuel p; mret (d + 1)
      end
  end.
(** A parent is allocated before its children, so addresses fall along the
    chain and [S l] steps are enough from [l]. *)
Definition Size (l : loc) : M Core Z := Size_go (S l) l.
Definition depth (l : loc) : M Core nat := depth_go (S l) l.
End Mem.

(** ** The store: maps, metadata files and driver *)

(** [asm.NewInputTarStream], [storage.NewJSONPacker] and gzip: the contents of
    the metadata file of a tar stream; and [asm.WriteOutputTarStream]: the tar
    stream put together from that metadata and the files of the layer. *)
Class TarSplit := {
  ts_meta : string → string;
  ts_assemble : (string → error + string) → string → error + string;
}.

(** [layerStore]. *)
Record LS (D : Type) := mkLS { core : Core; mfs : FS; drv : D }.
Arguments mkLS {D} _ _ _.
Arguments core {D} _.
Arguments mfs {D} _.
Arguments drv {D} _.

Definition set_core {D} (c : Core) (s : LS D) : LS D := mkLS c (mfs s) (drv s).
Definition set_mfs {D} (f : FS) (s : LS D) : LS D := mkLS (core s) f (drv s).

Section Lift.
Context {D : Type}.
Definition onCore {A} (m : M Core A) : M (LS D) A := zoom core set_core m.
Definition onFS {A} (m : M FS A) : M (LS D) A := zoom mfs set_mfs m.
Definition onDrv {A} (m : dcall D A) : M (LS D) A := λ s,
  let '(r, d) := m (drv s) in
  (match r with inl e => Err e | inr a => Ok a end, mkLS (core s) (mfs s) d).
End Lift.

Section Store.
Context {D : Type} `{GraphDriver D} `{JSON Descriptor} `{TarSplit}.
(** The metadata root, the store's and the host's operating system. *)
Context (root : path) (ls_os GOOS : string).

Definition useTarSplit : bool := negb drv_ReproducesExactDiffs.

(** [deleteLayer]: the metadata it fills in. *)
Definition deleteLayer (l : loc) : M (LS D) Metadata :=
  rl ← onCore (Mem.deref l);
  _ ← onDrv (drv_Remove (rl_cacheID rl));
  _ ← onFS (MetaStore.Remove root (rl_chainID rl));
  size ← onCore (Mem.Size l);
  mret (mkMetadata (rl_chainID rl) (rl_diffID rl) size (rl_size rl)).

(** The loop of [releaseLayer]; [fuel] bounds the parent chain. *)
Fixpoint release_loop (fuel : nat) (l : loc) (depth : nat) (removed : list Metadata)
    : M (LS D) (list Metadata) :=
  match fuel with
  | O => panic "unbounded parent chain"
  | S fuel =>
      rl ← onCore (Mem.deref l);
      if (rl_referenceCount rl =? 0)%Z then panic "layer not retained" else
      _ ← onCore (Mem.update l (add_refcount (-1)));
      if negb (rl_referenceCount rl - 1 =? 0)%Z then mret removed else
      if (length removed =? 0) && (0 <? depth) then panic "cannot remove layer with child" else
      if Mem.hasReferences rl then panic "cannot delete referenced layer" else
      metadata ← deleteLayer l;
      _ ← onCore (modify (with_layerMap (delete (rl_chainID rl))));
      let removed := removed ++ [metadata] in
      match rl_parent rl with
      | None => mret removed
      | Some p => release_loop fuel p (S depth) removed
      end
  end.
Definition releaseLayer (l : loc) : M (LS D) (list Metadata) :=
  release_loop (S l) l 0 [].

(** [Release]. *)
Definition Release (l : Layer) : M (LS D) (list Metadata) :=
  cid ← onCore (Mem.ChainID_of l);
  c ← onCore get;
  match layerMap c !! cid with
  | None => mret []
  | Some layer =>
      rl ← onCore (Mem.deref layer);
      if negb (Mem.hasReference rl l) then fail LayerErr.ErrLayerNotRetained else
      _ ← onCore (Mem.deleteReference layer l);
      releaseLayer layer
  end.

(** [applyTar]: the driver reads a prefix of the stream, the rest is drained;
    the digest and the tar-split metadata see every byte. *)
Definition applyTar (tx : Ioutils.AtomicWriteSet) (ts : string) (parent : string) (l : loc)
    : M (LS D) () :=
  tsw ← (if useTarSplit then p ← onFS (MetaStore.tx_TarSplitWriter tx); mret (Some p)
         else mret None);
  defer_when (λ _, true)
    (rl ← onCore (Mem.deref l);
     '(applySize, n) ← onDrv (drv_ApplyDiff (rl_cacheID rl) parent ts);
     let seen := GoString.take n ts +:+ GoString.drop n ts in
     _ ← match tsw with
         | Some p => onFS (ignore_err (Os.Write p (ts_meta seen)))
         | None => mret tt
         end;
     onCore (Mem.update l (set_applied applySize (Digest.FromBytes seen))))
    (match tsw with
     | Some p => onFS (ignore_err (Ioutils.sync_Close p))
     | None => mret tt
     end).

(** [storeLayer]. *)
Definition storeLayer (tx : Ioutils.AtomicWriteSet) (l : loc) : M (LS D) () :=
  rl ← onCore (Mem.deref l);
  _ ← onFS (MetaStore.tx_SetDiffID tx (rl_diffID rl));
  _ ← onFS (MetaStore.tx_SetSize tx (rl_size rl));
  _ ← onFS (MetaStore.tx_SetCacheID tx (rl_cacheID rl));
  _ ← (if negb (String.eqb (DescDigest (rl_descriptor rl)) EmptyString)
       then onFS (MetaStore.tx_SetDescriptor tx (rl_descriptor rl)) else mret tt);
  _ ← match rl_parent rl with
      | Some p => pl ← onCore (Mem.deref p); onFS (MetaStore.tx_SetParent tx (rl_chainID pl))
      | None => mret tt
      end;
  onFS (MetaStore.tx_setOS tx ls_os).

(** The parent of a new layer or mount: none, or retained. *)
Definition acquireParent (parent : ChainID) : M (LS D) (option loc) :=
  if String.eqb parent EmptyString then mret None else
  p ← onCore (Mem.ls_get parent);
  match p with
  | None => fail LayerErr.ErrLayerDoesNotExist
  | Some p => mret (Some p)
  end.
Definition releaseParent (p : option loc) : M (LS D) () :=
  match p with
  | Some p => ignore_err (releaseLayer p)
  | None => mret tt
  end.
Definition parentCacheID (p : option loc) : M (LS D) string :=
  match p with
  | Some p => rl ← onCore (Mem.deref p); mret (rl_cacheID rl)
  | None => mret EmptyString
  end.

(** The critical section at the end of a registration: the layer, and
    whether it already existed. *)
Definition publish (tx : Ioutils.AtomicWriteSet) (l : loc) : M (LS D) (Layer * bool) :=
  rl ← onCore (Mem.deref l);
  existingLayer ← onCore (Mem.getWithoutLock (rl_chainID rl));
  match existingLayer with
  | Some e => ref ← onCore (Mem.getReference e); mret (ref, true)
  | None =>
      _ ← onFS (MetaStore.tx_Commit root tx (rl_chainID rl));
      _ ← onCore (modify (with_layerMap <[rl_chainID rl := l]>));
      ref ← onCore (Mem.getReference l);
      mret (ref, false)
  end.

(** [registerWithDescriptor] below the deferred release of the parent. *)
Definition register_body (ts : string) (p : option loc) (descriptor : Descriptor)
    : M (LS D) (Layer * bool) :=
  pid ← parentCacheID p;
  _ ← match p with
      | Some p =>
          d ← onCore (Mem.depth p);
          guard_err (d <? maxLayerDepth) LayerErr.ErrMaxDepthExceeded
      | None => mret tt
      end;
  cacheID ← onCore Mem.GenerateRandomID;
  layer ← onCore (Mem.alloc (mkRo EmptyString EmptyString p cacheID 0 descriptor 1 ∅));
  _ ← onDrv (drv_Create cacheID pid None);
  tx ← onFS (MetaStore.StartTransaction root);
  defer_when snd
    (_ ← applyTar tx ts pid layer;
     rl ← onCore (Mem.deref layer);
     cid ← match p with
           | None => mret (rl_diffID rl)
           | Some p => pl ← onCore (Mem.deref p);
                       mret (createChainIDFromParent (rl_chainID pl) [rl_diffID rl])
           end;
     _ ← onCore (Mem.update layer (set_chainID cid));
     _ ← storeLayer tx layer;
     publish tx layer)
    (_ ← ignore_err (onDrv (drv_Remove cacheID));
     ignore_err (onFS (MetaStore.tx_Cancel tx))).

(** [registerWithDescriptor]. *)
Definition registerWithDescriptor (ts : string) (parent : ChainID) (descriptor : Descriptor)
    : M (LS D) Layer :=
  p ← acquireParent parent;
  '(ref, _) ← defer_when snd (register_body ts p descriptor) (releaseParent p);
  mret ref.

(** [Register]. *)
Definition Register (ts : string) (parent : ChainID) : M (LS D) Layer :=
  registerWithDescriptor ts parent emptyDescriptor.

(** ** Read-write layers *)

(** [saveMount]. *)
Definition saveMount (m : loc) : M (LS D) () :=
  mount ← onCore (Mem.mderef m);
  _ ← onFS (MetaStore.SetMountID root (ml_name mount) (ml_mountID mount));
  _ ← (if negb (String.eqb (ml_initID mount) EmptyString)
       then onFS (MetaStore.SetInitID root (ml_name mount) (ml_initID mount)) else mret tt);
  _ ← match ml_parent mount with
      | Some p => rl ← onCore (Mem.deref p);
                  onFS (MetaStore.SetMountParent root (ml_name mount) (rl_chainID rl))
      | None => mret tt
      end;
  onCore (modify (with_mounts <[ml_name mount := m]>)).

(** [initMount]. *)
Definition initMount (graphID parent mountLabel : string) (initFunc : string → dcall D ())
    (storageOpt : gmap string string) : M (LS D) string :=
  let initID := graphID +:+ "-init" in
  let createOpts := {| co_MountLabel := mountLabel; co_StorageOpt := storageOpt |} in
  _ ← onDrv (drv_CreateReadWrite initID parent (Some createOpts));
  p ← onDrv (drv_Get initID EmptyString);
  r ← attempt (onDrv (initFunc p));
  match r with
  | inl e => _ ← ignore_err (onDrv (drv_Put initID)); fail e
  | inr _ => _ ← onDrv (drv_Put initID); mret initID
  end.

(** [CreateRWLayer] below the deferred release of the parent. *)
Definition createRW_body (name : string) (p : option loc) (opts : option (CreateRWLayerOpts D))
    : M (LS D) loc :=
  let storageOpt := match opts with Some o => rw_StorageOpt o | None => ∅ end in
  let mountLabel := match opts with Some o => rw_MountLabel o | None => EmptyString end in
  let initFunc := match opts with Some o => rw_InitFunc o | None => None end in
  pid ← parentCacheID p;
  mountID ← onCore Mem.GenerateRandomID;
  m ← onCore (Mem.malloc (mkMl name mountID EmptyString p ∅));
  pid ← match initFunc with
        | Some f =>
            pid ← initMount mountID pid mountLabel f storageOpt;
            _ ← onCore (Mem.mupdate m (set_ml_initID pid));
            mret pid
        | None => mret pid
        end;
  let createOpts := {| co_MountLabel := EmptyString; co_StorageOpt := storageOpt |} in
  _ ← onDrv (drv_CreateReadWrite mountID pid (Some createOpts));
  _ ← saveMount m;
  mret m.

(** [CreateRWLayer]: the reference to the new mount. *)
Definition CreateRWLayer (name : string) (parent : ChainID) (opts : option (CreateRWLayerOpts D))
    : M (LS D) loc :=
  c ← onCore get;
  match mounts c !! name with
  | Some _ => fail LayerErr.ErrMountNameConflict
  | None =>
      p ← acquireParent parent;
      defer_on_error
        (m ← createRW_body name p opts; onCore (Mem.mgetReference m))
        (releaseParent p)
  end.

(** [GetRWLayer]. *)
Definition GetRWLayer (id : string) : M (LS D) loc :=
  c ← onCore get;
  match mounts c !! id with
  | None => fail LayerErr.ErrMountDoesNotExist
  | Some mount => onCore (Mem.mgetReference mount)
  end.

(** [GetMountID]. *)
Definition GetMountID (id : string) : M (LS D) string :=
  c ← onCore get;
  match mounts c !! id with
  | None => fail LayerErr.ErrMountDoesNotExist
  | Some mount => ml ← onCore (Mem.mderef mount); mret (ml_mountID ml)
  end.

(** The mount behind a [referencedRWLayer]. *)
Definition rw_mount (ref : loc) : M (LS D) loc :=
  c ← onCore get;
  match rwrefs c !! ref with
  | Some m => mret m
  | None => panic nil_deref
  end.

(** The steps of [ReleaseRWLayer] that take the reference back on error. *)
Definition removeMount (m : loc) (ml : mountedLayer) : M (LS D) () :=
  _ ← onDrv (drv_Remove (ml_mountID ml));
  _ ← (if negb (String.eqb (ml_initID ml) EmptyString)
       then onDrv (drv_Remove (ml_initID ml)) else mret tt);
  onFS (MetaStore.RemoveMount root (ml_name ml)).

(** [ReleaseRWLayer]. *)
Definition ReleaseRWLayer (ref : loc) : M (LS D) (list Metadata) :=
  rm ← rw_mount ref;
  rml ← onCore (Mem.mderef rm);
  c ← onCore get;
  match mounts c !! ml_name rml with
  | None => mret []
  | Some m =>
      _ ← onCore (Mem.mdeleteReference m ref);
      ml ← onCore (Mem.mderef m);
      if Mem.mhasReferences ml then mret [] else
      _ ← defer_on_error (removeMount m ml) (onCore (Mem.retakeReference m ref));
      _ ← onCore (modify (with_mounts (delete (ml_name ml))));
      match ml_parent ml with
      | Some p => releaseLayer p
      | None => mret []
      end
  end.

(** [cacheParent]. *)
Definition cacheParent (ml : mountedLayer) : M (LS D) string :=
  if negb (String.eqb (ml_initID ml) EmptyString) then mret (ml_initID ml)
  else parentCacheID (ml_parent ml).

(** The methods of a mounted layer. *)
Definition rw_TarStream (ref : loc) : M (LS D) string :=
  m ← rw_mount ref; ml ← onCore (Mem.mderef m);
  cp ← cacheParent ml; onDrv (drv_Diff (ml_mountID ml) cp).
Definition rw_Size (ref : loc) : M (LS D) Z :=
  m ← rw_mount ref; ml ← onCore (Mem.mderef m);
  cp ← cacheParent ml; onDrv (drv_DiffSize (ml_mountID ml) cp).
Definition rw_Changes (ref : loc) : M (LS D) (list Change) :=
  m ← rw_mount ref; ml ← onCore (Mem.mderef m);
  cp ← cacheParent ml; onDrv (drv_Changes (ml_mountID ml) cp).
Definition rw_Metadata (ref : loc) : M (LS D) (gmap string string) :=
  m ← rw_mount ref; ml ← onCore (Mem.mderef m);
  onDrv (drv_GetMetadata (ml_mountID ml)).
Definition rw_Mount (ref : loc) (mountLabel : string) : M (LS D) string :=
  m ← rw_mount ref; ml ← onCore (Mem.mderef m);
  onDrv (drv_Get (ml_mountID ml) mountLabel).
Definition rw_Unmount (ref : loc) : M (LS D) () :=
  m ← rw_mount ref; ml ← onCore (Mem.mderef m);
  onDrv (drv_Put (ml_mountID ml)).

(** ** Restoring the store from disk *)

(** [loadLayer]; [fuel] bounds the chain of parents on disk. *)
Fixpoint loadLayer (fuel : nat) (layer : ChainID) : M (LS D) loc :=
  match fuel with
  | O => panic "stack overflow"
  | S fuel =>
      c ← onCore get;
      match layerMap c !! layer with
      | Some cl => mret cl
      | None =>
          diff ← onFS (MetaStore.GetDiffID root layer);
          size ← onFS (MetaStore.GetSize root layer);
          cacheID ← onFS (MetaStore.GetCacheID root layer);
          parent ← onFS (MetaStore.GetParent root layer);
          descriptor ← onFS (MetaStore.GetDescriptor root layer);
          os ← onFS (MetaStore.getOS GOOS layer);
          _ ← guard_err (String.eqb os ls_os)
                (Errorf ("failed to load layer with os " +:+ os +:+ " into layerstore for " +:+ ls_os));
          p ← (if String.eqb parent EmptyString then mret None
               else p ← loadLayer fuel parent; mret (Some p));
          cl ← onCore (Mem.alloc (mkRo layer diff p cacheID size descriptor 0 ∅));
          _ ← onCore (modify (with_layerMap <[layer := cl]>));
          mret cl
      end
  end.
Definition load_fuel (s : LS D) : nat := S (size (nodes (mfs s))).
Definition loadLayer_top (layer : ChainID) : M (LS D) loc :=
  s ← get; loadLayer (load_fuel s) layer.

(** [loadMount]. *)
Definition loadMount (mount : string) : M (LS D) () :=
  c ← onCore get;
  match mounts c !! mount with
  | Some _ => mret tt
  | None =>
      mountID ← onFS (MetaStore.GetMountID root mount);
      initID ← onFS (MetaStore.GetInitID root mount);
      parent ← onFS (MetaStore.GetMountParent root mount);
      p ← (if String.eqb parent EmptyString then mret None
           else p ← loadLayer_top parent;
                _ ← onCore (Mem.update p (add_refcount 1));
                mret (Some p));
      ml ← onCore (Mem.malloc (mkMl mount mountID initID p ∅));
      onCore (modify (with_mounts <[mount := ml]>))
  end.

(** One iteration of the layer loop of [newStoreFromGraphDriver]. *)
Definition restoreLayer (id : ChainID) : M (LS D) () :=
  r ← attempt (loadLayer_top id);
  match r with
  | inl _ => mret tt
  | inr l =>
      rl ← onCore (Mem.deref l);
      match rl_parent rl with
      | Some p => onCore (Mem.update p (add_refcount 1))
      | None => mret tt
      end
  end.

(** [newStoreFromGraphDriver], run from empty maps. *)
Definition newStoreFromGraphDriver (IsOSSupported : string → bool) : M (LS D) () :=
  _ ← guard_err (IsOSSupported ls_os)
        (Errorf ("failed to initialize layer store as operating system '" +:+ ls_os +:+ "' is not supported"));
  _ ← onFS (MetaStore.newFSMetadataStore root);
  '(ids, mnts) ← onFS (MetaStore.List root);
  _ ← for_each ids restoreLayer;
  for_each mnts (λ mount, ignore_err (loadMount mount)).

(** ** Reading layers back *)

(** [assembleTarTo] and [naiveDiffPathDriver.DiffGetter]: the bytes written
    to the pipe. *)
Definition assembleTarTo (graphID : string) (metadata : string) : M (LS D) string :=
  match drv_DiffGetter with
  | Some getter =>
      files ← onDrv (getter graphID);
      of_sum (ts_assemble files metadata)
  | None =>
      p ← onDrv (drv_Get graphID EmptyString);
      s ← get;
      let r := ts_assemble (path_files (drv s) p) metadata in
      _ ← ignore_err (onDrv (drv_Put graphID));
      of_sum r
  end.

(** [getTarStream], read to the end. *)
Definition getTarStream (l : loc) : M (LS D) string :=
  rl ← onCore (Mem.deref l);
  if negb useTarSplit then
    cp ← parentCacheID (rl_parent rl);
    onDrv (drv_Diff (rl_cacheID rl) cp)
  else
    r ← onFS (MetaStore.TarSplitReader root (rl_chainID rl));
    assembleTarTo (rl_cacheID rl) r.

(** The digest of the bytes under the algorithm of [dgst]; [other_sum]
    computes the algorithms other than SHA-256. *)
Context (other_sum : string → string → string).
Definition verifier_digest (dgst content : string) : M (LS D) string :=
  alg ← of_outcome (Digest.Algorithm dgst);
  if String.eqb alg Digest.Canonical then mret (Digest.FromBytes content)
  else if Digest.Available alg then mret (Digest.NewDigestFromHex alg (other_sum alg content))
  else panic "digest algorithm not available".

(** [roLayer.TarStream] with [verifiedReadCloser], read to the end. *)
Definition TarStream (l : loc) : M (LS D) string :=
  rl ← onCore (Mem.deref l);
  content ← getTarStream l;
  d ← verifier_digest (rl_diffID rl) content;
  _ ← guard_err (String.eqb d (rl_diffID rl))
        (Errorf ("could not verify layer data for: " +:+ rl_diffID rl));
  mret content.

(** The loop of [TarStreamFrom]: the cache of the first ancestor with the
    given chain identifier. *)
Fixpoint find_ancestor (fuel : nat) (pl : option loc) (parent : ChainID) : M Core string :=
  match fuel, pl with
  | _, None => mret EmptyString
  | O, Some _ => panic "unbounded parent chain"
  | S fuel, Some p =>
      rl ← Mem.deref p;
      if String.eqb (rl_chainID rl) parent then mret (rl_cacheID rl)
      else find_ancestor fuel (rl_parent rl) parent
  end.
Definition TarStreamFrom (l : loc) (parent : ChainID) : M (LS D) string :=
  rl ← onCore (Mem.deref l);
  pc ← onCore (find_ancestor (S l) (rl_parent rl) parent);
  _ ← guard_err (String.eqb parent EmptyString || negb (String.eqb pc EmptyString))
        (Errorf ("layer ID '" +:+ parent +:+
           "' is not a parent of the specified layer: cannot provide diff to non-parent"));
  onDrv (drv_Diff (rl_cacheID rl) pc).

(** ** [migration.go] *)

(** [CreateRWLayerByGraphID]. *)
Definition CreateRWLayerByGraphID (name graphID : string) (parent : ChainID) : M (LS D) () :=
  c ← onCore get;
  match mounts c !! name with
  | Some m =>
      ml ← onCore (Mem.mderef m);
      pl ← match ml_parent ml with
           | Some p => onCore (Mem.deref p)
           | None => panic nil_deref
           end;
      _ ← guard_err (String.eqb (rl_chainID pl) parent) (Errorf "name conflict, mismatched parent");
      guard_err (String.eqb (ml_mountID ml) graphID) (Errorf "mount already exists")
  | None =>
      ex ← gets (λ s, drv_Exists (drv s) graphID);
      _ ← guard_err ex (Errorf ("graph ID does not exist: " +:+ graphID));
      p ← acquireParent parent;
      defer_on_error
        (m ← onCore (Mem.malloc (mkMl name graphID EmptyString p ∅));
         let initID := graphID +:+ "-init" in
         ex ← gets (λ s, drv_Exists (drv s) initID);
         _ ← (if (ex : bool) then onCore (Mem.mupdate m (set_ml_initID initID)) else mret tt);
         saveMount m)
        (releaseParent p)
  end.

(** The part of [RegisterByGraphID] under the store's lock. *)
Definition registerByGraphID_locked (l : loc) (tarDataFile : path) : M (LS D) (Layer * bool) :=
  rl ← onCore (Mem.deref l);
  existingLayer ← onCore (Mem.getWithoutLock (rl_chainID rl));
  match existingLayer with
  | Some e => ref ← onCore (Mem.getReference e); mret (ref, true)
  | None =>
      tx ← onFS (MetaStore.StartTransaction root);
      defer_on_error
        (tsw ← onFS (MetaStore.tx_TarSplitWriter tx);
         defer_when (λ _, true)
           (tdf ← onFS (Os.ReadFile tarDataFile);
            '(_, err) ← onFS (Os.Write tsw tdf);
            _ ← of_err err;
            _ ← storeLayer tx l;
            _ ← onFS (MetaStore.tx_Commit root tx (rl_chainID rl));
            _ ← onCore (modify (with_layerMap <[rl_chainID rl := l]>));
            ref ← onCore (Mem.getReference l);
            mret (ref, false))
           (onFS (ignore_err (Ioutils.sync_Close tsw))))
        (ignore_err (onFS (MetaStore.tx_Cancel tx)))
  end.

(** [RegisterByGraphID]. *)
Definition RegisterByGraphID (graphID : string) (parent : ChainID) (diffID : DiffID)
    (tarDataFile : path) (size : Z) : M (LS D) Layer :=
  p ← acquireParent parent;
  '(ref, _) ← defer_when snd
    (layer ← onCore (Mem.alloc (mkRo (createChainIDFromParent parent [diffID]) diffID p graphID
                                 size emptyDescriptor 1 ∅));
     registerByGraphID_locked layer tarDataFile)
    (releaseParent p);
  mret ref.

(** [Cleanup], [DriverStatus], [DriverName]. *)
Definition Cleanup : M (LS D) () := onDrv drv_Cleanup.
Definition DriverStatus : M (LS D) (list (string * string)) := gets (λ s, drv_Status (drv s)).
Definition DriverName : M (LS D) string := gets (λ s, drv_String (drv s)).
End Store.
