(* ===== verification/LayerInv.v ===== *)
(** * Reference counting of the layer store

    The invariant of [layerStore]: the reference count of every layer in the
    map is the number of its references, of the layers on top of it and of the
    mounts made from it; every operation keeps it, on its error paths too, and
    none of the panics of [releaseLayer] is reachable. *)

From S2P Require Import Prelude FileSys Digest Chain FileStore GraphDriver LayerStore.

(** ** The invariant *)

Definition parent_of (h : gmap loc roLayer) (l : loc) : option loc :=
  h !! l ≫= rl_parent.
Definition mparent_of (h : gmap loc mountedLayer) (m : loc) : option loc :=
  h !! m ≫= ml_parent.

Lemma parent_of_Some h l r : h !! l = Some r → parent_of h l = rl_parent r.
Proof. unfold parent_of. by intros ->. Qed.
Lemma mparent_of_Some h m ml : h !! m = Some ml → mparent_of h m = ml_parent ml.
Proof. unfold mparent_of. by intros ->. Qed.

(** The layers in the map, and the mounts, directly on top of [l]. *)
Definition children (c : Core) (l : loc) : nat :=
  count_where (λ k, bool_decide (parent_of (heap c) k = Some l)) (layerMap c).
Definition mount_children (c : Core) (l : loc) : nat :=
  count_where (λ m, bool_decide (mparent_of (mheap c) m = Some l)) (mounts c).

(** How often [l] is held by operations in progress. *)
Definition held (ext : list loc) (l : loc) : nat := length (filter (λ k, k = l) ext).

Definition mapped (c : Core) (l : loc) : Prop := ∃ id, layerMap c !! id = Some l.

(** The chain identifier of the parent. *)
Definition parent_chain (c : Core) (p : option loc) : ChainID :=
  match p with
  | Some p => match heap c !! p with Some r => rl_chainID r | None => EmptyString end
  | None => EmptyString
  end.

(** The chain identifier of a layer follows from its own digest and the chain
    identifier of its parent. *)
Definition chain_of (c : Core) (r : roLayer) : ChainID :=
  createChainIDFromParent (parent_chain c (rl_parent r)) [rl_diffID r].
Arguments chain_of : simpl never.

(** The invariant, with the pins [ext] of the operations in progress. *)
Record wf_core (ext : list loc) (c : Core) : Prop := {
  wf_key : ∀ id l, layerMap c !! id = Some l →
    ∃ r, heap c !! l = Some r ∧ rl_chainID r = id;
  wf_parent : ∀ id l r p, layerMap c !! id = Some l → heap c !! l = Some r →
    rl_parent r = Some p → mapped c p;
  wf_mount : ∀ name m, mounts c !! name = Some m →
    ∃ ml, mheap c !! m = Some ml ∧ ml_name ml = name ∧
      ∀ p, ml_parent ml = Some p → mapped c p;
  wf_count : ∀ id l r, layerMap c !! id = Some l → heap c !! l = Some r →
    rl_referenceCount r =
      Z.of_nat (size (rl_references r) + children c l + mount_children c l + held ext l);
  wf_ext : ∀ l, l ∈ ext → mapped c l;
  wf_heap : ∀ l r, heap c !! l = Some r → l < next c ∧
    ∀ p, rl_parent r = Some p → p < l ∧ is_Some (heap c !! p);
  wf_refs : ∀ l r x, heap c !! l = Some r → x ∈ rl_references r → refs c !! x = Some l;
  wf_refs_next : ∀ x l, refs c !! x = Some l → x < next c ∧ is_Some (heap c !! l);
  wf_mheap : ∀ m ml, mheap c !! m = Some ml → m < next c ∧
    ∀ x, x ∈ ml_references ml → rwrefs c !! x = Some m;
  wf_rwrefs_next : ∀ x m, rwrefs c !! x = Some m → x < next c ∧ is_Some (mheap c !! m);
  wf_valid : ∀ id l, layerMap c !! id = Some l → Digest.valid id = true;
  wf_chain : ∀ id l r, layerMap c !! id = Some l → heap c !! l = Some r →
    id = chain_of c r;
}.

(** ** Counting the pins *)

Section Held.
Implicit Types (ext : list loc) (l k : loc).

Lemma held_cons ext l k : held (k :: ext) l = (if decide (k = l) then 1 else 0) + held ext l.
Proof. unfold held. rewrite filter_cons. by case_decide. Qed.
Lemma held_cons_eq ext l : held (l :: ext) l = S (held ext l).
Proof. rewrite held_cons. by rewrite decide_True. Qed.
Lemma held_cons_ne ext l k : k ≠ l → held (k :: ext) l = held ext l.
Proof. intros Hne. rewrite held_cons. by rewrite decide_False. Qed.
Lemma held_zero ext l : l ∉ ext → held ext l = 0.
Proof.
  induction ext as [|k ext IH]; [done|]. intros [Hne Hni]%not_elem_of_cons.
  rewrite held_cons_ne by done. by apply IH.
Qed.

#[global] Instance held_perm : Proper ((≡ₚ) ==> (=) ==> (=)) held.
Proof. intros e1 e2 He l ? <-. unfold held. by rewrite He. Qed.
End Held.

#[export] Instance wf_core_perm : Proper ((≡ₚ) ==> (=) ==> iff) wf_core.
Proof.
  assert (∀ e1 e2 c, e1 ≡ₚ e2 → wf_core e1 c → wf_core e2 c) as Himpl.
  { intros e1 e2 c He [Hk Hp Hm Hc He' Hh Hr Hrn Hmh Hrw Hv Hch]. constructor; try done.
    - intros id l r Hid Hl. rewrite <-He. by apply (Hc id).
    - intros l. rewrite <-He. apply He'. }
  intros e1 e2 He c ? <-. split; apply Himpl; [done|by symmetry].
Qed.

(** ** Facts about well-formed cores *)

Section Facts.
Context (ext : list loc) (c : Core).
Hypothesis Hwf : wf_core ext c.

Lemma mapped_heap l : mapped c l → ∃ r, heap c !! l = Some r ∧ layerMap c !! rl_chainID r = Some l.
Proof.
  intros [id Hid]. destruct (wf_key _ _ Hwf _ _ Hid) as (r&Hr&<-). by exists r.
Qed.

Lemma mapped_inj id1 id2 l : layerMap c !! id1 = Some l → layerMap c !! id2 = Some l → id1 = id2.
Proof.
  intros H1 H2. destruct (wf_key _ _ Hwf _ _ H1) as (r1&Hr1&<-).
  destruct (wf_key _ _ Hwf _ _ H2) as (r2&Hr2&<-). by simplify_eq.
Qed.

Lemma unmapped_children l : ¬ mapped c l → children c l = 0.
Proof.
  intros Hl. apply count_where_none. intros id k Hk.
  apply bool_decide_eq_false. unfold parent_of. intros Hp.
  destruct (wf_key _ _ Hwf _ _ Hk) as (r&Hr&_). rewrite Hr in Hp. simpl in Hp.
  by eapply Hl, wf_parent.
Qed.

Lemma unmapped_mounts l : ¬ mapped c l → mount_children c l = 0.
Proof.
  intros Hl. apply count_where_none. intros name m Hm.
  apply bool_decide_eq_false. unfold mparent_of. intros Hp.
  destruct (wf_mount _ _ Hwf _ _ Hm) as (ml&Hml&_&Hpar). rewrite Hml in Hp. simpl in Hp.
  by eapply Hl, Hpar.
Qed.

Lemma unmapped_held l : ¬ mapped c l → held ext l = 0.
Proof. intros Hl. apply held_zero. intros Hin. by apply Hl, (wf_ext _ _ Hwf). Qed.

Lemma next_fresh_heap : heap c !! next c = None.
Proof.
  destruct (heap c !! next c) eqn:Hn; [|done]. apply (wf_heap _ _ Hwf) in Hn as [? _]. lia.
Qed.
Lemma next_fresh_mheap : mheap c !! next c = None.
Proof.
  destruct (mheap c !! next c) eqn:Hn; [|done]. apply (wf_mheap _ _ Hwf) in Hn as [? _]. lia.
Qed.
Lemma next_fresh_refs : refs c !! next c = None.
Proof.
  destruct (refs c !! next c) eqn:Hn; [|done]. apply (wf_refs_next _ _ Hwf) in Hn as [? _]. lia.
Qed.
Lemma next_fresh_rwrefs : rwrefs c !! next c = None.
Proof.
  destruct (rwrefs c !! next c) eqn:Hn; [|done]. apply (wf_rwrefs_next _ _ Hwf) in Hn as [? _]. lia.
Qed.
Lemma mapped_ne_next l : mapped c l → l ≠ next c.
Proof. intros (r&Hr&_)%mapped_heap ->. by rewrite next_fresh_heap in Hr. Qed.
End Facts.

(** ** Steps on the core *)

(** Updates that keep the identity and the parent of a layer. *)
Definition same_shape (f : roLayer → roLayer) : Prop :=
  ∀ r, rl_chainID (f r) = rl_chainID r ∧ rl_parent (f r) = rl_parent r ∧ rl_diffID (f r) = rl_diffID r.

Lemma add_refcount_shape n : same_shape (add_refcount n).
Proof. done. Qed.
Lemma set_references_shape g : same_shape (set_references g).
Proof. done. Qed.

Section Steps.
Implicit Types (c : Core) (ext : list loc).

Lemma parent_of_alter f l h k :
  same_shape f → parent_of (alter f l h) k = parent_of h k.
Proof.
  intros Hf. unfold parent_of. rewrite lookup_alter. case_decide as Hk; [|done]. subst.
  destruct (h !! k) as [r|]; [|done]. simpl. apply (Hf r).
Qed.

Lemma chain_of_alter f l c r r' :
  same_shape f → rl_parent r' = rl_parent r → rl_diffID r' = rl_diffID r →
  chain_of (with_heap (alter f l) c) r' = chain_of c r.
Proof.
  intros Hf Hp Hd. unfold chain_of. rewrite Hp, Hd. f_equal. destruct (rl_parent r) as [p|]; [|done].
  simpl. rewrite lookup_alter. case_decide as Hk; [|done]. subst.
  destruct (heap c !! p) as [rp|]; [|done]. simpl. apply (Hf rp).
Qed.

(** The chain of a layer in the map is read off its parent, which is in the map. *)
Lemma chain_of_mapped ext c c' id l r :
  wf_core ext c → layerMap c !! id = Some l → heap c !! l = Some r →
  (∀ k, mapped c k → heap c' !! k = heap c !! k) → id = chain_of c' r.
Proof.
  intros Hwf Hid Hr Hk. rewrite (wf_chain _ _ Hwf _ _ _ Hid Hr). unfold chain_of. f_equal.
  destruct (rl_parent r) as [p|] eqn:Hp; [|done]. simpl. rewrite Hk; [done|]. by eapply (wf_parent _ _ Hwf).
Qed.

(** Changing the count or the references of one layer. *)
Lemma wf_alter ext ext' f l c :
  wf_core ext c → same_shape f →
  (∀ k, k ≠ l → held ext' k = held ext k) →
  (∀ k, k ∈ ext' → mapped c k) →
  (∀ r, mapped c l → heap c !! l = Some r →
     (rl_referenceCount (f r) - Z.of_nat (size (rl_references (f r))) - Z.of_nat (held ext' l) =
     rl_referenceCount r - Z.of_nat (size (rl_references r)) - Z.of_nat (held ext l))%Z) →
  (∀ r x, heap c !! l = Some r → x ∈ rl_references (f r) → refs c !! x = Some l) →
  wf_core ext' (with_heap (alter f l) c).
Proof.
  intros Hwf Hf Hext Hin Hcnt Hrefs.
  assert (∀ k, children (with_heap (alter f l) c) k = children c k) as Hch.
  { intros k. unfold children. simpl. apply count_where_ext. intros id x _.
    by rewrite parent_of_alter. }
  constructor; simpl.
  - intros id k Hk. destruct (wf_key _ _ Hwf _ _ Hk) as (r&Hr&<-).
    destruct (decide (l = k)) as [->|Hne].
    + rewrite lookup_alter_eq, Hr. exists (f r). split; [done|]. apply Hf.
    + rewrite lookup_alter_ne by done. by exists r.
  - intros id k r p Hk Hr Hp. destruct (decide (l = k)) as [->|Hne].
    + rewrite lookup_alter_eq in Hr. destruct (heap c !! k) as [r'|] eqn:Hr'; [|done].
      simplify_eq/=. rewrite (proj1 (proj2 (Hf r'))) in Hp. by eapply (wf_parent _ _ Hwf).
    + rewrite lookup_alter_ne in Hr by done. by eapply (wf_parent _ _ Hwf).
  - apply Hwf.
  - intros id k r Hk Hr. rewrite Hch.
    change (mount_children (with_heap (alter f l) c) k) with (mount_children c k).
    destruct (decide (l = k)) as [->|Hne].
    + rewrite lookup_alter_eq in Hr. destruct (heap c !! k) as [r'|] eqn:Hr'; [|done].
      simplify_eq/=. specialize (Hcnt r' (ex_intro _ id Hk) eq_refl).
      rewrite (wf_count _ _ Hwf _ _ _ Hk Hr') in Hcnt. lia.
    + rewrite lookup_alter_ne in Hr by done. rewrite Hext by done. by apply (wf_count _ _ Hwf id).
  - done.
  - intros k r Hr. destruct (decide (l = k)) as [->|Hne].
    + rewrite lookup_alter_eq in Hr. destruct (heap c !! k) as [r'|] eqn:Hr'; [|done].
      simplify_eq/=. rewrite (proj1 (proj2 (Hf r'))). apply (wf_heap _ _ Hwf) in Hr' as [Hlt Hp].
      split; [done|]. intros p Hpp. destruct (Hp p Hpp). split; [done|].
      rewrite lookup_alter. case_decide; [|done]. subst. by apply fmap_is_Some.
    + rewrite lookup_alter_ne in Hr by done. apply (wf_heap _ _ Hwf) in Hr as [Hlt Hp].
      split; [done|]. intros p Hpp. destruct (Hp p Hpp). split; [done|].
      rewrite lookup_alter. case_decide; [|done]. subst. by apply fmap_is_Some.
  - intros k r x Hr Hx. destruct (decide (l = k)) as [->|Hne].
    + rewrite lookup_alter_eq in Hr. destruct (heap c !! k) as [r'|] eqn:Hr'; [|done].
      simplify_eq/=. by eapply Hrefs.
    + rewrite lookup_alter_ne in Hr by done. by eapply (wf_refs _ _ Hwf).
  - intros x k Hx. apply (wf_refs_next _ _ Hwf) in Hx as [? ?]. split; [done|].
    rewrite lookup_alter. case_decide; [|done]. subst. by apply fmap_is_Some.
  - apply Hwf.
  - apply Hwf.
  - apply Hwf.
  - intros id k r Hk. rewrite lookup_alter. case_decide as Hl; [subst l|].
    + destruct (heap c !! k) as [r'|] eqn:Hr'; [|done]. intros [= <-].
      rewrite (chain_of_alter f k c r') by (done || apply (Hf r')). by apply (wf_chain _ _ Hwf id k).
    + intros Hr. rewrite (chain_of_alter f l c r) by done. by apply (wf_chain _ _ Hwf id k).
Qed.

(** [referenceCount++] on behalf of an operation in progress. *)
Lemma wf_retain ext l c :
  wf_core ext c → mapped c l → wf_core (l :: ext) (with_heap (alter (add_refcount 1) l) c).
Proof.
  intros Hwf Hl. apply (wf_alter ext); try done.
  - intros k Hk. by rewrite held_cons_ne.
  - intros k [->|Hk]%elem_of_cons; [done|]. by apply (wf_ext _ _ Hwf).
  - intros r _ _. rewrite held_cons_eq. simpl. lia.
  - intros r x Hr Hx. by eapply (wf_refs _ _ Hwf).
Qed.

(** [referenceCount--] by the operation that holds the pin. *)
Lemma wf_unretain ext l c :
  wf_core (l :: ext) c → wf_core ext (with_heap (alter (add_refcount (-1)) l) c).
Proof.
  intros Hwf. apply (wf_alter (l :: ext)); try done.
  - intros k Hk. by rewrite held_cons_ne.
  - intros k Hk. apply (wf_ext _ _ Hwf). by right.
  - intros r _ _. rewrite held_cons_eq. simpl. lia.
  - intros r x Hr Hx. by eapply (wf_refs _ _ Hwf).
Qed.

(** [deleteReference] turns a reference into a pin. *)
Lemma wf_drop_reference ext l r x c :
  wf_core ext c → mapped c l → heap c !! l = Some r → x ∈ rl_references r →
  wf_core (l :: ext) (with_heap (alter (set_references (λ X, X ∖ {[ x ]})) l) c).
Proof.
  intros Hwf Hl Hr Hx. apply (wf_alter ext); try done.
  - intros k Hk. by rewrite held_cons_ne.
  - intros k [->|Hk]%elem_of_cons; [done|]. by apply (wf_ext _ _ Hwf).
  - intros r' _ Hr'. simplify_eq. rewrite held_cons_eq. simpl.
    rewrite size_difference by set_solver. rewrite size_singleton.
    assert (size (rl_references r) ≠ 0).
    { intros Hz%size_empty_inv. set_solver. }
    lia.
  - intros r' y Hr' [Hy _]%elem_of_difference. simplify_eq. by eapply (wf_refs _ _ Hwf).
Qed.

(** A new reference object. *)
Lemma wf_new_ref ext l c :
  wf_core ext c → is_Some (heap c !! l) →
  wf_core ext (mkCore (heap c) (layerMap c) (mheap c) (mounts c) (<[next c := l]> (refs c))
                 (rwrefs c) (S (next c)) (idSource c) (idPos c)).
Proof.
  intros Hwf Hl. destruct Hwf as [Hk Hp Hm Hc He Hh Hr Hrn Hmh Hrw Hv Hch] eqn:Heq.
  constructor; simpl; try done.
  - intros k r Hkr. destruct (Hh k r Hkr). split; [lia|done].
  - intros k r x Hkr Hx. rewrite lookup_insert_ne; [by eapply Hr|].
    intros <-. pose proof (Hr _ _ _ Hkr Hx) as Hx'. by rewrite (next_fresh_refs _ _ Hwf) in Hx'.
  - intros x k. rewrite lookup_insert. case_decide; intros Hx.
    + subst. simplify_eq. split; [lia|done].
    + destruct (Hrn _ _ Hx). split; [lia|done].
  - intros m ml Hml. destruct (Hmh _ _ Hml). split; [lia|done].
  - intros x m Hx. destruct (Hrw _ _ Hx). split; [lia|done].
Qed.

(** [getReference] turns a pin into a reference. *)
Lemma wf_getReference ext l c :
  wf_core (l :: ext) c →
  match Mem.getReference l c with
  | (Ok (LRef r), c') => wf_core ext c' ∧ refs c' !! r = Some l ∧ layerMap c' = layerMap c
  | _ => False
  end.
Proof.
  intros Hwf. simpl. rewrite lookup_insert_eq. split; [|done].
  assert (mapped c l) as Hl by (apply (wf_ext _ _ Hwf); left).
  destruct (mapped_heap _ _ Hwf l Hl) as (r&Hr&_).
  pose proof (wf_new_ref (l :: ext) l c Hwf ltac:(eauto)) as Hwf'.
  eapply (wf_alter (l :: ext) ext (set_references (λ X, {[ next c ]} ∪ X)) l) in Hwf'; [exact Hwf'|done|..].
  - intros k Hk. by rewrite held_cons_ne.
  - intros k Hk. apply (wf_ext _ _ Hwf). by right.
  - intros r' _ Hr'. simpl in *. simplify_eq. rewrite held_cons_eq.
    rewrite size_union, size_singleton; [lia|].
    apply disjoint_singleton_l. intros Hin. pose proof (wf_refs _ _ Hwf _ _ _ Hr Hin) as Hx.
    by rewrite (next_fresh_refs _ _ Hwf) in Hx.
  - intros r' x Hr' Hx. simpl in *. rewrite lookup_insert. case_decide; [done|].
    apply elem_of_union in Hx as [Hx%elem_of_singleton|Hx]; [congruence|].
    by eapply (wf_refs _ _ Hwf).
Qed.

(** Allocation of a layer that is not in the map yet. *)
Lemma wf_alloc ext r c :
  wf_core ext c → rl_references r = ∅ →
  (∀ p, rl_parent r = Some p → is_Some (heap c !! p)) →
  wf_core ext (Mem.alloc r c).2.
Proof.
  intros Hwf Hrefs Hpar. pose proof (next_fresh_heap _ _ Hwf) as Hfresh.
  assert (∀ k r', heap c !! k = Some r' → <[next c := r]> (heap c) !! k = Some r') as Hold.
  { intros k r' Hk. rewrite lookup_insert_ne; [done|]. intros <-. by rewrite Hfresh in Hk. }
  assert (∀ k, is_Some (heap c !! k) → is_Some (<[next c := r]> (heap c) !! k)) as HoldS.
  { intros k [r' Hk]. eauto. }
  assert (∀ id l, layerMap c !! id = Some l → ∀ r', <[next c := r]> (heap c) !! l = Some r' →
            heap c !! l = Some r') as Hnew.
  { intros id l Hid r'. rewrite lookup_insert_ne; [done|].
    intros Heq. apply (mapped_ne_next _ _ Hwf l); [by eexists|done]. }
  assert (∀ k, children (Mem.alloc r c).2 k = children c k) as Hch.
  { intros k. apply count_where_ext. intros id l Hid. simpl. unfold parent_of.
    rewrite lookup_insert_ne; [done|]. intros Heq.
    apply (mapped_ne_next _ _ Hwf l); [by eexists|done]. }
  constructor; simpl.
  - intros id l Hid. destruct (wf_key _ _ Hwf _ _ Hid) as (r'&Hr'&<-). eauto.
  - intros id l r' p Hid Hr' Hp. eapply Hnew in Hr'; [|done]. by eapply (wf_parent _ _ Hwf).
  - apply Hwf.
  - intros id l r' Hid Hr'. rewrite Hch. eapply Hnew in Hr'; [|done].
    by apply (wf_count _ _ Hwf id).
  - apply Hwf.
  - intros l r'. rewrite lookup_insert. case_decide; intros Hr'.
    + subst. simplify_eq. split; [lia|]. intros p Hp. destruct (Hpar p Hp) as [rp Hrp].
      split; [|eauto]. by apply (wf_heap _ _ Hwf) in Hrp as [? _].
    + destruct (wf_heap _ _ Hwf _ _ Hr') as [Hlt Hpp]. split; [lia|].
      intros p Hp. destruct (Hpp p Hp). auto.
  - intros l r' x. rewrite lookup_insert. case_decide; intros Hr' Hx.
    + simplify_eq. set_solver.
    + by eapply (wf_refs _ _ Hwf).
  - intros x l Hx. destruct (wf_refs_next _ _ Hwf _ _ Hx). split; [lia|auto].
  - intros m ml Hm. destruct (wf_mheap _ _ Hwf _ _ Hm). split; [lia|done].
  - intros x m Hx. destruct (wf_rwrefs_next _ _ Hwf _ _ Hx). split; [lia|done].
  - apply Hwf.
  - intros id l r' Hid Hr'. eapply Hnew in Hr'; [|done].
    eapply chain_of_mapped; [done..|]. intros k Hk. simpl.
    rewrite lookup_insert_ne; [done|]. intros <-. by apply (mapped_ne_next _ _ Hwf) in Hk.
Qed.

(** Filling in the fields of a layer that is not in the map. *)
Lemma wf_fill ext f l c :
  wf_core ext c → ¬ mapped c l →
  (∀ r, rl_parent (f r) = rl_parent r ∧ rl_references (f r) = rl_references r) →
  wf_core ext (with_heap (alter f l) c).
Proof.
  intros Hwf Hl Hf.
  assert (∀ id k, layerMap c !! id = Some k → l ≠ k) as Hne
    by (intros id k Hk ->; apply Hl; by eexists).
  assert (∀ k, is_Some (heap c !! k) → is_Some (alter f l (heap c) !! k)) as HoldS.
  { intros k Hk. rewrite lookup_alter. case_decide; [subst; by apply fmap_is_Some|done]. }
  assert (∀ k, children (with_heap (alter f l) c) k = children c k) as Hch.
  { intros k. apply count_where_ext. intros id x Hx. simpl. unfold parent_of.
    by rewrite lookup_alter_ne by (by eapply Hne). }
  constructor; simpl.
  - intros id k Hk. rewrite lookup_alter_ne by (by eapply Hne). by apply (wf_key _ _ Hwf).
  - intros id k r p Hk. rewrite lookup_alter_ne by (by eapply Hne). by apply (wf_parent _ _ Hwf id).
  - apply Hwf.
  - intros id k r Hk. rewrite lookup_alter_ne by (by eapply Hne). rewrite Hch.
    by apply (wf_count _ _ Hwf id).
  - apply Hwf.
  - intros k r. rewrite lookup_alter. case_decide; intros Hr.
    + subst. destruct (heap c !! k) as [r'|] eqn:Hr'; [|done]. simplify_eq/=.
      destruct (wf_heap _ _ Hwf _ _ Hr') as [Hlt Hpp]. split; [done|].
      intros p. rewrite (proj1 (Hf r')). intros Hp. destruct (Hpp p Hp). auto.
    + destruct (wf_heap _ _ Hwf _ _ Hr) as [Hlt Hpp]. split; [done|].
      intros p Hp. destruct (Hpp p Hp). auto.
  - intros k r x. rewrite lookup_alter. case_decide; intros Hr Hx.
    + subst. destruct (heap c !! k) as [r'|] eqn:Hr'; [|done]. simplify_eq/=.
      rewrite (proj2 (Hf r')) in Hx. by eapply (wf_refs _ _ Hwf).
    + by eapply (wf_refs _ _ Hwf).
  - intros x k Hx. destruct (wf_refs_next _ _ Hwf _ _ Hx). auto.
  - apply Hwf.
  - apply Hwf.
  - apply Hwf.
  - intros id k r Hk. rewrite lookup_alter_ne by (by eapply Hne). intros Hr.
    eapply chain_of_mapped; [done..|]. intros q [id' Hq]. simpl.
    by rewrite lookup_alter_ne by (by eapply Hne).
Qed.

(** The pin on the parent of a layer in progress. *)
Definition pins (p : option loc) : list loc :=
  match p with Some p => [p] | None => [] end.

Lemma held_pins p ext k :
  held (pins p ++ ext) k = (if bool_decide (p = Some k) then 1 else 0) + held ext k.
Proof.
  destruct p as [p|]; simpl; [|done]. rewrite held_cons.
  destruct (decide (p = k)) as [->|Hne].
  - by rewrite bool_decide_true.
  - by rewrite bool_decide_false by congruence.
Qed.

(** Entering a new layer into the map: the pin on its parent becomes the
    child's hold, and the creator holds the new layer. *)
Lemma wf_publish ext l r c :
  wf_core (pins (rl_parent r) ++ ext) c → heap c !! l = Some r → ¬ mapped c l →
  layerMap c !! rl_chainID r = None → rl_referenceCount r = 1%Z → rl_references r = ∅ →
  Digest.valid (rl_chainID r) = true →
  rl_chainID r = chain_of c r →
  wf_core (l :: ext) (with_layerMap <[rl_chainID r := l]> c).
Proof.
  intros Hwf Hr Hl Hid Hrc Hrefs Hval Hchain. set (c' := with_layerMap <[rl_chainID r := l]> c).
  assert (∀ k, mapped c k → mapped c' k) as Hmap.
  { intros k [id Hk]. exists id. simpl. rewrite lookup_insert_ne; [done|].
    intros <-. by rewrite Hid in Hk. }
  assert (mapped c' l) as Hl'. { exists (rl_chainID r). simpl. apply lookup_insert_eq. }
  assert (∀ k, children c' k = (if bool_decide (rl_parent r = Some k) then 1 else 0) + children c k) as Hch.
  { intros k. unfold children. simpl. rewrite count_where_insert_fresh by done.
    by rewrite (parent_of_Some _ _ _ Hr). }
  assert (∀ p, rl_parent r = Some p → mapped c p ∧ p < l) as Hpar.
  { intros p Hp. split.
    - apply (wf_ext _ _ Hwf). rewrite Hp. left.
    - by apply (wf_heap _ _ Hwf l r). }
  assert (∀ id k, layerMap c' !! id = Some k → (id = rl_chainID r ∧ k = l) ∨ (k ≠ l ∧ layerMap c !! id = Some k)) as Hinv.
  { intros id k. simpl. rewrite lookup_insert. case_decide; intros Hk; [left; by simplify_eq|].
    right. split; [|done]. intros ->. apply Hl. by exists id. }
  constructor.
  - intros id k [[-> ->]|[_ Hk]]%Hinv; [by exists r|by apply (wf_key _ _ Hwf)].
  - intros id k r' p [[-> ->]|[_ Hk]]%Hinv Hr' Hp; apply Hmap.
    + simpl in Hr'. simplify_eq. by apply Hpar.
    + by eapply (wf_parent _ _ Hwf).
  - intros name m Hm. destruct (wf_mount _ _ Hwf _ _ Hm) as (ml&?&?&?). exists ml. eauto.
  - intros id k r' [[-> ->]|[Hne Hk]]%Hinv Hr'; simpl in Hr'; rewrite Hch, held_cons;
      change (mount_children c' ?k) with (mount_children c k).
    + simplify_eq. rewrite (unmapped_children _ _ Hwf), (unmapped_mounts _ _ Hwf) by done.
      pose proof (unmapped_held _ _ Hwf l Hl) as Hh. rewrite held_pins in Hh.
      rewrite Hrefs, size_empty, decide_True by done. lia.
    + rewrite decide_False by done. rewrite (wf_count _ _ Hwf _ _ _ Hk Hr'), held_pins. lia.
  - intros k [->|Hk]%elem_of_cons; [done|]. apply Hmap, (wf_ext _ _ Hwf), elem_of_app. by right.
  - apply Hwf.
  - apply Hwf.
  - apply Hwf.
  - apply Hwf.
  - apply Hwf.
  - intros id k [[-> ->]|[_ Hk]]%Hinv; [done|by eapply (wf_valid _ _ Hwf)].
  - intros id k r' [[-> ->]|[_ Hk]]%Hinv Hr'; simpl in Hr'; [by simplify_eq|by apply (wf_chain _ _ Hwf id k)].
Qed.

(** Removing a layer nobody holds: its hold on the parent becomes a pin. *)
Lemma wf_unmap ext id l r c :
  wf_core ext c → layerMap c !! id = Some l → heap c !! l = Some r →
  rl_referenceCount r = 0%Z →
  wf_core (pins (rl_parent r) ++ ext) (with_layerMap (delete id) c).
Proof.
  intros Hwf Hid Hr Hrc. set (c' := with_layerMap (delete id) c).
  pose proof (wf_count _ _ Hwf _ _ _ Hid Hr) as Hcnt. rewrite Hrc in Hcnt.
  assert (∀ k, mapped c k → k ≠ l → mapped c' k) as Hmap.
  { intros k [id' Hk] Hne. exists id'. simpl. rewrite lookup_delete_ne; [done|].
    intros <-. by simplify_eq. }
  assert (∀ k, children c k = (if bool_decide (rl_parent r = Some k) then 1 else 0) + children c' k) as Hch.
  { intros k. unfold children. simpl. rewrite (count_where_delete _ _ _ _ Hid).
    by rewrite (parent_of_Some _ _ _ Hr). }
  assert (∀ id' k, layerMap c' !! id' = Some k → layerMap c !! id' = Some k ∧ k ≠ l) as Hinv.
  { intros id' k. simpl. rewrite lookup_delete. case_decide; [done|]. intros Hk. split; [done|].
    intros ->. by apply (mapped_inj _ _ Hwf id id' l) in Hk. }
  assert (∀ k r' p, mapped c k → heap c !! k = Some r' → rl_parent r' = Some p → p ≠ l) as Hnch.
  { intros k r' p [id' Hk] Hr' Hp ->.
    assert (0 < children c l) as Hpos; [|lia].
    apply (count_where_pos _ _ id' k Hk). apply bool_decide_eq_true.
    unfold parent_of. by rewrite Hr'. }
  constructor.
  - intros id' k [Hk _]%Hinv. by apply (wf_key _ _ Hwf).
  - intros id' k r' p [Hk _]%Hinv Hr' Hp. apply Hmap; [by eapply (wf_parent _ _ Hwf)|].
    by apply (Hnch k r' p); [eexists|..].
  - intros name m Hm. destruct (wf_mount _ _ Hwf _ _ Hm) as (ml&Hml&Hn&Hp). exists ml.
    split_and!; [done..|]. intros p Hpp. apply Hmap; [by apply Hp|]. intros ->.
    assert (0 < mount_children c l) as Hpos; [|lia].
    apply (count_where_pos _ _ name m Hm). apply bool_decide_eq_true.
    unfold mparent_of. by rewrite Hml.
  - intros id' k r' [Hk Hne]%Hinv Hr'. simpl in Hr'.
    change (mount_children c' k) with (mount_children c k).
    rewrite (wf_count _ _ Hwf _ _ _ Hk Hr'), Hch, held_pins. lia.
  - intros k [Hk|Hk]%elem_of_app.
    + destruct (rl_parent r) as [p|] eqn:Hp; [|by apply not_elem_of_nil in Hk].
      apply list_elem_of_singleton in Hk as ->. apply Hmap; [by eapply (wf_parent _ _ Hwf)|].
      apply (wf_heap _ _ Hwf l r) in Hp; [lia|done].
    + apply Hmap; [by apply (wf_ext _ _ Hwf)|]. intros ->.
      apply list_elem_of_split in Hk as (e1&e2&->).
      rewrite <-Permutation_middle, held_cons_eq in Hcnt. lia.
  - apply Hwf.
  - apply Hwf.
  - apply Hwf.
  - apply Hwf.
  - apply Hwf.
  - intros id' k [Hk _]%Hinv. by eapply (wf_valid _ _ Hwf).
  - intros id' k r' [Hk _]%Hinv. by apply (wf_chain _ _ Hwf id' k).
Qed.

(** ** Mounts *)

Lemma wf_malloc ext ml c :
  wf_core ext c → ml_references ml = ∅ → wf_core ext (Mem.malloc ml c).2.
Proof.
  intros Hwf Hrefs. pose proof (next_fresh_mheap _ _ Hwf) as Hfresh.
  assert (∀ name m, mounts c !! name = Some m → next c ≠ m) as Hne.
  { intros name m Hm <-. destruct (wf_mount _ _ Hwf _ _ Hm) as (ml'&Hml&_).
    by rewrite Hfresh in Hml. }
  assert (∀ k, mount_children (Mem.malloc ml c).2 k = mount_children c k) as Hmc.
  { intros k. apply count_where_ext. intros name m Hm. simpl. unfold mparent_of.
    by rewrite lookup_insert_ne by (by eapply Hne). }
  constructor; simpl; try apply Hwf.
  - intros name m Hm. rewrite lookup_insert_ne by (by eapply Hne). by apply (wf_mount _ _ Hwf).
  - intros id l r Hid Hr. rewrite Hmc. by apply (wf_count _ _ Hwf id).
  - intros l r Hr. destruct (wf_heap _ _ Hwf _ _ Hr). split; [lia|done].
  - intros x l Hx. destruct (wf_refs_next _ _ Hwf _ _ Hx). split; [lia|done].
  - intros m ml'. rewrite lookup_insert. case_decide; intros Hm.
    + simplify_eq. split; [lia|]. rewrite Hrefs. set_solver.
    + destruct (wf_mheap _ _ Hwf _ _ Hm). split; [lia|done].
  - intros x m Hx. destruct (wf_rwrefs_next _ _ Hwf _ _ Hx) as [? [ml' Hml']]. split; [lia|].
    rewrite lookup_insert. case_decide; eauto.
Qed.

Lemma wf_malter ext f m c :
  wf_core ext c →
  (∀ ml, ml_name (f ml) = ml_name ml ∧ ml_parent (f ml) = ml_parent ml) →
  (∀ ml x, mheap c !! m = Some ml → x ∈ ml_references (f ml) → rwrefs c !! x = Some m) →
  wf_core ext (with_mheap (alter f m) c).
Proof.
  intros Hwf Hf Hrefs.
  assert (∀ k, mount_children (with_mheap (alter f m) c) k = mount_children c k) as Hmc.
  { intros k. apply count_where_ext. intros name x _. simpl. unfold mparent_of.
    rewrite lookup_alter. case_decide; [|done]. subst.
    destruct (mheap c !! x) as [ml|]; [|done]. simpl. by rewrite (proj2 (Hf ml)). }
  constructor; simpl; try apply Hwf.
  - intros name k Hk. destruct (wf_mount _ _ Hwf _ _ Hk) as (ml&Hml&Hn&Hp).
    rewrite lookup_alter. case_decide; subst; [|by exists ml].
    rewrite Hml. exists (f ml). rewrite (proj1 (Hf ml)), (proj2 (Hf ml)). done.
  - intros id l r Hid Hr. rewrite Hmc. by apply (wf_count _ _ Hwf id).
  - intros k ml'. rewrite lookup_alter. case_decide; intros Hk.
    + subst. destruct (mheap c !! k) as [ml|] eqn:Hml; [|done]. simplify_eq/=.
      destruct (wf_mheap _ _ Hwf _ _ Hml). eauto.
    + by apply (wf_mheap _ _ Hwf).
  - intros x k Hx. destruct (wf_rwrefs_next _ _ Hwf _ _ Hx). split; [done|].
    rewrite lookup_alter. case_decide; [subst; by apply fmap_is_Some|done].
Qed.

Lemma wf_mgetReference ext m c :
  wf_core ext c → is_Some (mheap c !! m) →
  wf_core ext (Mem.mgetReference m c).2.
Proof.
  intros Hwf Hm.
  assert (wf_core ext (mkCore (heap c) (layerMap c) (mheap c) (mounts c) (refs c)
            (<[next c := m]> (rwrefs c)) (S (next c)) (idSource c) (idPos c))) as Hwf'.
  { constructor; simpl; try apply Hwf.
    - intros l r Hr. destruct (wf_heap _ _ Hwf _ _ Hr). split; [lia|done].
    - intros x l Hx. destruct (wf_refs_next _ _ Hwf _ _ Hx). split; [lia|done].
    - intros k ml Hk. destruct (wf_mheap _ _ Hwf _ _ Hk) as [? Hx]. split; [lia|].
      intros x Hin. rewrite lookup_insert_ne; [by apply Hx|]. intros <-.
      apply Hx in Hin. by rewrite (next_fresh_rwrefs _ _ Hwf) in Hin.
    - intros x k. rewrite lookup_insert. case_decide; intros Hx.
      + simplify_eq. split; [lia|done].
      + destruct (wf_rwrefs_next _ _ Hwf _ _ Hx). split; [lia|done]. }
  eapply (wf_malter _ (set_ml_references (λ X, {[ next c ]} ∪ X)) m) in Hwf'; [exact Hwf'|done|].
  simpl. intros ml x Hml [Hx%elem_of_singleton|Hx]%elem_of_union.
  - subst. apply lookup_insert_eq.
  - rewrite lookup_insert. case_decide; [done|]. by apply (wf_mheap _ _ Hwf m ml).
Qed.

(** [saveMount] enters the mount: the pin on its parent becomes its hold. *)
Lemma wf_save_mount ext m ml c :
  wf_core (pins (ml_parent ml) ++ ext) c → mheap c !! m = Some ml →
  mounts c !! ml_name ml = None →
  wf_core ext (with_mounts <[ml_name ml := m]> c).
Proof.
  intros Hwf Hm Hn. set (c' := with_mounts <[ml_name ml := m]> c).
  assert (∀ k, mount_children c' k =
    (if bool_decide (ml_parent ml = Some k) then 1 else 0) + mount_children c k) as Hmc.
  { intros k. unfold mount_children. simpl. rewrite count_where_insert_fresh by done.
    by rewrite (mparent_of_Some _ _ _ Hm). }
  constructor; simpl; try apply Hwf.
  - intros name k. rewrite lookup_insert. case_decide; intros Hk; [|by apply (wf_mount _ _ Hwf)].
    simplify_eq. exists ml. split_and!; [done..|]. intros p Hp.
    apply (wf_ext _ _ Hwf). rewrite Hp. left.
  - intros id l r Hid Hr. rewrite Hmc.
    change (children c' l) with (children c l).
    rewrite (wf_count _ _ Hwf _ _ _ Hid Hr), held_pins. lia.
  - intros l Hl. apply (wf_ext _ _ Hwf), elem_of_app. by right.
Qed.

(** Removing a mount: its hold on the parent becomes a pin. *)
Lemma wf_remove_mount ext name m ml c :
  wf_core ext c → mounts c !! name = Some m → mheap c !! m = Some ml →
  wf_core (pins (ml_parent ml) ++ ext) (with_mounts (delete name) c).
Proof.
  intros Hwf Hn Hm. set (c' := with_mounts (delete name) c).
  assert (∀ k, mount_children c k =
    (if bool_decide (ml_parent ml = Some k) then 1 else 0) + mount_children c' k) as Hmc.
  { intros k. unfold mount_children. simpl. rewrite (count_where_delete _ _ _ _ Hn).
    by rewrite (mparent_of_Some _ _ _ Hm). }
  constructor; simpl; try apply Hwf.
  - intros name' k Hk. apply lookup_delete_Some in Hk as [_ Hk]. by apply (wf_mount _ _ Hwf).
  - intros id l r Hid Hr.
    change (children c' l) with (children c l).
    rewrite (wf_count _ _ Hwf _ _ _ Hid Hr), Hmc, held_pins. lia.
  - intros l [Hl|Hl]%elem_of_app; [|by apply (wf_ext _ _ Hwf)].
    destruct (ml_parent ml) as [p|] eqn:Hp; [|by apply not_elem_of_nil in Hl].
    apply list_elem_of_singleton in Hl as ->.
    destruct (wf_mount _ _ Hwf _ _ Hn) as (ml'&Hml'&_&Hpar). simplify_eq. by apply Hpar.
Qed.
End Steps.
