(* ===== verification/LayerOps.v ===== *)
(** * The operations of the layer store keep its invariant *)

From S2P Require Import Prelude FileSys Digest Chain FileStore GraphDriver LayerStore LayerInv.

(** ** Symbolic execution on the core *)

(** Total correctness of a store operation started from the core [c]: file and
    driver calls may succeed or fail in any way. *)
Definition ctriple {D A : Type} (c : Core) (m : M (LS D) A)
    (Q : A → Core → Prop) (E : error → Core → Prop) : Prop :=
  triple (λ s, core s = c) m (λ a s, Q a (core s)) (λ e s, E e (core s)).

Section Rules.
Context {D : Type}.
Implicit Types c : Core.

Lemma ct_ret {A : Type} c (a : A) (Q : A → Core → Prop) (E : error → Core → Prop) :
  Q a c → ctriple (D := D) c (mret a) Q E.
Proof. intros HQ. apply triple_ret. by intros s ->. Qed.
Lemma ct_fail {A : Type} c (e : error) (Q : A → Core → Prop) (E : error → Core → Prop) :
  E e c → ctriple (D := D) c (fail e) Q E.
Proof. intros HE. apply triple_fail. by intros s ->. Qed.
Lemma ct_bind {A B : Type} c (m : M (LS D) A) (k : A → M (LS D) B) R
    (Q : B → Core → Prop) (E : error → Core → Prop) :
  ctriple c m R E → (∀ a c', R a c' → ctriple c' (k a) Q E) → ctriple c (m ≫= k) Q E.
Proof.
  intros Hm Hk. eapply triple_bind; [exact Hm|]. intros a s Hs.
  exact (Hk a (core s) Hs s eq_refl).
Qed.
Lemma ct_conseq {A : Type} c (m : M (LS D) A) (Q Q' : A → Core → Prop) (E E' : error → Core → Prop) :
  ctriple c m Q' E' → (∀ a c', Q' a c' → Q a c') → (∀ e c', E' e c' → E e c') → ctriple c m Q E.
Proof. intros Hm HQ HE. eapply triple_conseq; [exact Hm|..]; simpl; auto. Qed.

Lemma ct_core {A B : Type} c c' (m : M Core A) (a : A) (k : A → M (LS D) B)
    (Q : B → Core → Prop) (E : error → Core → Prop) :
  m c = (Ok a, c') → ctriple c' (k a) Q E → ctriple c (onCore m ≫= k) Q E.
Proof.
  intros Hm Hk s <-. unfold mbind, M_bind, onCore, zoom. rewrite Hm.
  exact (Hk (set_core c' s) eq_refl).
Qed.
Lemma ct_core_last {A : Type} c c' (m : M Core A) (a : A)
    (Q : A → Core → Prop) (E : error → Core → Prop) :
  m c = (Ok a, c') → Q a c' → ctriple (D := D) c (onCore m) Q E.
Proof. intros Hm HQ s <-. unfold onCore, zoom. by rewrite Hm. Qed.

Lemma ct_fs_last {A : Type} c (m : M FS A) (Q : A → Core → Prop) (E : error → Core → Prop) :
  safe m → (∀ a, Q a c) → (∀ e, E e c) → ctriple (D := D) c (onFS m) Q E.
Proof.
  intros Hm HQ HE s <-. unfold onFS, zoom. specialize (Hm (mfs s)).
  destruct (m (mfs s)) as [[a|e|p] f]; [apply HQ|apply HE|by destruct (Hm p f)].
Qed.
Lemma ct_fs_ignore {A : Type} c (m : M FS A) (Q : () → Core → Prop) (E : error → Core → Prop) :
  safe m → Q tt c → ctriple (D := D) c (onFS (ignore_err m)) Q E.
Proof.
  intros Hm HQ s <-. unfold onFS, zoom, ignore_err, attempt, mbind, M_bind.
  specialize (Hm (mfs s)). destruct (m (mfs s)) as [[a|e|p] f]; [done|done|by edestruct Hm].
Qed.
Lemma ct_fs {A B : Type} c (m : M FS A) (k : A → M (LS D) B)
    (Q : B → Core → Prop) (E : error → Core → Prop) :
  safe m → (∀ e, E e c) → (∀ a, ctriple c (k a) Q E) → ctriple c (onFS m ≫= k) Q E.
Proof.
  intros Hm HE Hk. eapply (ct_bind _ _ _ (λ _ c', c' = c)); [by apply ct_fs_last|].
  intros a c' ->. apply Hk.
Qed.
Lemma ct_drv_last {A : Type} c (m : dcall D A) (Q : A → Core → Prop) (E : error → Core → Prop) :
  (∀ a, Q a c) → (∀ e, E e c) → ctriple c (onDrv m) Q E.
Proof.
  intros HQ HE s <-. unfold onDrv. destruct (m (drv s)) as [[e|a] d]; [apply HE|apply HQ].
Qed.
Lemma ct_drv {A B : Type} c (m : dcall D A) (k : A → M (LS D) B)
    (Q : B → Core → Prop) (E : error → Core → Prop) :
  (∀ e, E e c) → (∀ a, ctriple c (k a) Q E) → ctriple c (onDrv m ≫= k) Q E.
Proof.
  intros HE Hk. eapply (ct_bind _ _ _ (λ _ c', c' = c)); [by apply ct_drv_last|].
  intros a c' ->. apply Hk.
Qed.
Lemma ct_guard c b (e : error) (Q : () → Core → Prop) (E : error → Core → Prop) :
  (b = true → Q tt c) → (b = false → E e c) → ctriple (D := D) c (guard_err b e) Q E.
Proof. intros HQ HE s <-. destruct b; simpl; auto. Qed.

Lemma ct_ignore {A : Type} c (m : M (LS D) A) (Q : () → Core → Prop) (E : error → Core → Prop) :
  ctriple c m (λ _, Q tt) (λ _, Q tt) → ctriple c (ignore_err m) Q E.
Proof. intros Hm. apply (triple_ignore _ _ (λ a s, Q a (core s))). exact Hm. Qed.
Lemma ct_attempt {A : Type} c (m : M (LS D) A) (Q : error + A → Core → Prop) (E : error → Core → Prop) :
  ctriple c m (λ a, Q (inr a)) (λ e, Q (inl e)) → ctriple c (attempt m) Q E.
Proof. intros Hm. eapply triple_attempt; [exact Hm|]. auto. Qed.

Lemma ct_defer_when {A : Type} c b (m : M (LS D) A) cl (R Q : A → Core → Prop)
    (R' E : error → Core → Prop) :
  ctriple c m R R' →
  (∀ e c', R' e c' → ctriple c' cl (λ _, E e) (λ _, E e)) →
  (∀ a c', b a = true → R a c' → ctriple c' cl (λ _, Q a) (λ _, Q a)) →
  (∀ a c', b a = false → R a c' → Q a c') →
  ctriple c (defer_when b m cl) Q E.
Proof.
  intros Hm He Hb Hnb. eapply triple_defer_when; [exact Hm|..].
  - intros e s Hs. exact (He e (core s) Hs s eq_refl).
  - intros a Ha s Hs. exact (Hb a (core s) Ha Hs s eq_refl).
  - intros a s Ha Hs. by apply Hnb.
Qed.
End Rules.

(** ** Walking the parent chain *)

Section Walk.
Context (ext : list loc) (c : Core).
Hypothesis Hwf : wf_core ext c.

Lemma Size_go_ok n l : l < n → is_Some (heap c !! l) → ∃ z, Mem.Size_go n l c = (Ok z, c).
Proof.
  revert l. induction n as [|n IH]; intros l Hl [r Hr]; [lia|].
  simpl. unfold mbind, M_bind, Mem.deref. rewrite Hr.
  destruct (rl_parent r) as [p|] eqn:Hp; [|by eexists].
  destruct (wf_heap _ _ Hwf _ _ Hr) as [_ Hpar]. destruct (Hpar p Hp).
  destruct (IH p) as [z ->]; [lia|done|]. by eexists.
Qed.
Lemma Size_ok l : is_Some (heap c !! l) → ∃ z, Mem.Size l c = (Ok z, c).
Proof. apply Size_go_ok. lia. Qed.

Lemma depth_go_ok n l : l < n → is_Some (heap c !! l) → ∃ d, Mem.depth_go n l c = (Ok d, c).
Proof.
  revert l. induction n as [|n IH]; intros l Hl [r Hr]; [lia|].
  simpl. unfold mbind, M_bind, Mem.deref. rewrite Hr.
  destruct (rl_parent r) as [p|] eqn:Hp; [|by eexists].
  destruct (wf_heap _ _ Hwf _ _ Hr) as [_ Hpar]. destruct (Hpar p Hp).
  destruct (IH p) as [d ->]; [lia|done|]. by eexists.
Qed.
Lemma depth_ok l : is_Some (heap c !! l) → ∃ d, Mem.depth l c = (Ok d, c).
Proof. apply depth_go_ok. lia. Qed.
End Walk.

Lemma deref_ok c l r : heap c !! l = Some r → Mem.deref l c = (Ok r, c).
Proof. unfold Mem.deref. by intros ->. Qed.
Lemma mderef_ok c m ml : mheap c !! m = Some ml → Mem.mderef m c = (Ok ml, c).
Proof. unfold Mem.mderef. by intros ->. Qed.

(** ** Releasing *)

(** A layer whose count fell to zero but whose removal failed. *)
Definition zombie (c : Core) (l : loc) : Prop :=
  mapped c l ∧ ∃ r, heap c !! l = Some r ∧ rl_referenceCount r = 0%Z.

(** What giving up a pin does to the store: exactly the layers of [mds] leave
    the map, none of which has references, and nothing else changes but
    counts. *)
Record released (c c' : Core) (mds : list Metadata) : Prop := {
  rel_map : ∀ id, layerMap c' !! id =
    (if bool_decide (id ∈ md_ChainID <$> mds) then None else layerMap c !! id);
  rel_heap : ∀ k, ∃ n, heap c' !! k = add_refcount n <$> heap c !! k;
  rel_live : ∀ id k r, layerMap c !! id = Some k → heap c !! k = Some r → rl_references r ≠ ∅ →
    layerMap c' !! id = Some k;
  rel_mheap : mheap c' = mheap c;
  rel_mounts : mounts c' = mounts c;
  rel_refs : refs c' = refs c;
  rel_rwrefs : rwrefs c' = rwrefs c;
  rel_next : next c' = next c;
}.

Section Released.
Implicit Types (c : Core) (l k : loc) (r : roLayer).

Lemma add_refcount_0 r : add_refcount 0 r = r.
Proof. destruct r. unfold add_refcount. simpl. by rewrite Z.add_0_r. Qed.
Lemma add_refcount_add m n r : add_refcount m (add_refcount n r) = add_refcount (n + m) r.
Proof. unfold add_refcount. simpl. by rewrite Z.add_assoc. Qed.
Lemma fmap_refcount_0 (o : option roLayer) : o = add_refcount 0 <$> o.
Proof. destruct o; simpl; [by rewrite add_refcount_0|done]. Qed.

Lemma released_refl c : released c c [].
Proof. split; try done. intros k. exists 0%Z. apply fmap_refcount_0. Qed.

Lemma released_trans c1 c2 c3 m1 m2 :
  released c1 c2 m1 → released c2 c3 m2 → released c1 c3 (m1 ++ m2).
Proof.
  intros R1 R2. split; try (etrans; apply R2 || apply R1).
  - intros id. rewrite (rel_map _ _ _ R2), (rel_map _ _ _ R1), fmap_app.
    rewrite (bool_decide_ext _ _ (elem_of_app _ _ id)).
    repeat case_bool_decide; tauto.
  - intros k. destruct (rel_heap _ _ _ R1 k) as [n Hn], (rel_heap _ _ _ R2 k) as [m Hm].
    exists (n + m)%Z. rewrite Hm, Hn, <-option_fmap_compose.
    destruct (heap c1 !! k); simpl; [by rewrite add_refcount_add|done].
  - intros id k r Hk Hr Hne. destruct (rel_heap _ _ _ R1 k) as [n Hn]. rewrite Hr in Hn.
    eapply (rel_live _ _ _ R2); [by eapply (rel_live _ _ _ R1)|exact Hn|done].
Qed.

Lemma released_count c l n : released c (with_heap (alter (add_refcount n) l) c) [].
Proof.
  split; try done. intros k. simpl. destruct (decide (k = l)) as [->|Hne].
  - exists n. by rewrite lookup_alter_eq.
  - exists 0%Z. rewrite lookup_alter_ne by done. apply fmap_refcount_0.
Qed.

Lemma released_unmap c l r md :
  layerMap c !! rl_chainID r = Some l → heap c !! l = Some r → rl_references r = ∅ → md_ChainID md = rl_chainID r →
  released c (with_layerMap (delete (rl_chainID r)) c) [md].
Proof.
  intros Hl Hr Hrefs Hmd. split; try done; simpl.
  - intros id. rewrite Hmd. case_bool_decide as Hid.
    + apply list_elem_of_singleton in Hid as ->. apply lookup_delete_eq.
    + apply lookup_delete_ne. set_solver.
  - intros k. exists 0%Z. apply fmap_refcount_0.
  - intros id k rk Hid Hk Hne. rewrite lookup_delete_ne; [done|].
    intros <-. congruence.
Qed.
End Released.

(** ** References held by clients *)

(** [y] is an outstanding reference to the layer [l]; to the mount [m]. *)
Definition live (c : Core) (y : loc) (id : ChainID) (l : loc) : Prop :=
  layerMap c !! id = Some l ∧ ∃ r, heap c !! l = Some r ∧ y ∈ rl_references r.
Definition mlive (c : Core) (y : loc) (name : string) (m : loc) : Prop :=
  mounts c !! name = Some m ∧ ∃ ml, mheap c !! m = Some ml ∧ y ∈ ml_references ml.

(** Every outstanding reference outside [X] is still outstanding, and no
    address is used again. *)
Record extends (X : gset loc) (c c' : Core) : Prop := {
  ext_live : ∀ y id l, y ∉ X → live c y id l → live c' y id l;
  ext_mlive : ∀ y name m, y ∉ X → mlive c y name m → mlive c' y name m;
  ext_next : next c ≤ next c';
}.

#[export] Instance extends_refl X : Reflexive (extends X).
Proof. intros c. by split. Qed.
#[export] Instance extends_trans X : Transitive (extends X).
Proof.
  intros c1 c2 c3 [L1 M1 N1] [L2 M2 N2]. split; intros; [apply L2, L1; done|apply M2, M1; done|lia].
Qed.
Create HintDb store.
#[export] Hint Resolve extends_refl released_refl : store.

Section Extends.
Implicit Types (c : Core) (X : gset loc) (l m k y : loc).

Lemma released_extends X c c' mds : released c c' mds → extends X c c'.
Proof.
  intros R. split.
  - intros y id k _ (Hk&r&Hr&Hy). split; [eapply (rel_live _ _ _ R); [done..|set_solver]|].
    destruct (rel_heap _ _ _ R k) as [n Hn]. rewrite Hr in Hn. by eexists.
  - unfold mlive. by rewrite (rel_mounts _ _ _ R), (rel_mheap _ _ _ R).
  - by rewrite (rel_next _ _ _ R).
Qed.

(** Changes to a layer under construction touch no reference. *)
Lemma fill_extends X c f l : ¬ mapped c l → extends X c (with_heap (alter f l) c).
Proof.
  intros Hl. split; [|done|simpl; lia]. intros y id k _ (Hk&r&Hr&Hy). split; [done|]. exists r.
  split; [|done]. simpl. rewrite lookup_alter_ne; [done|]. intros ->. apply Hl. by exists id.
Qed.
Lemma alloc_extends ext X c r : wf_core ext c → extends X c (Mem.alloc r c).2.
Proof.
  intros Hwf. split; [|done|simpl; lia]. intros y id k _ (Hk&rk&Hr&Hy). split; [done|]. exists rk.
  split; [|done]. simpl. rewrite lookup_insert_ne; [done|].
  apply not_eq_sym. eapply mapped_ne_next; [done|by exists id].
Qed.
Lemma malloc_extends ext X c ml : wf_core ext c → extends X c (Mem.malloc ml c).2.
Proof.
  intros Hwf. split; [done| |simpl; lia]. intros y name m _ (Hm&ml'&Hml&Hy). split; [done|]. exists ml'.
  split; [|done]. simpl. rewrite lookup_insert_ne; [done|].
  intros <-. by rewrite (next_fresh_mheap _ _ Hwf) in Hml.
Qed.
Lemma malter_extends X c f m :
  (∀ ml y, y ∈ ml_references ml → y ∉ X → y ∈ ml_references (f ml)) →
  extends X c (with_mheap (alter f m) c).
Proof.
  intros Hf. split; [done| |simpl; lia]. intros y name k Hy (Hm&ml&Hml&Hin). split; [done|]. simpl.
  destruct (decide (m = k)) as [->|Hne].
  - rewrite lookup_alter_eq, Hml. simpl. eauto.
  - rewrite lookup_alter_ne by done. eauto.
Qed.
Lemma publish_extends X c id l :
  layerMap c !! id = None → extends X c (with_layerMap <[id := l]> c).
Proof.
  intros Hid. split; [|done|simpl; lia]. intros y id' k _ (Hk&Hr). split; [|done]. simpl. rewrite lookup_insert_ne; [done|]. congruence.
Qed.
Lemma save_extends X c name m :
  mounts c !! name = None → extends X c (with_mounts <[name := m]> c).
Proof.
  intros Hn. split; [done| |simpl; lia]. intros y name' k _ (Hk&Hr). split; [|done].
  simpl. rewrite lookup_insert_ne; [done|]. congruence.
Qed.
Lemma alter_refs_extends X c f l :
  (∀ r y, y ∈ rl_references r → y ∉ X → y ∈ rl_references (f r)) →
  extends X c (with_heap (alter f l) c).
Proof.
  intros Hf. split; [|done|simpl; lia]. intros y id k Hy (Hk&r&Hr&Hin). split; [done|]. simpl.
  destruct (decide (l = k)) as [->|Hne].
  - rewrite lookup_alter_eq, Hr. simpl. eauto.
  - rewrite lookup_alter_ne by done. eauto.
Qed.
End Extends.

(** ** Reading and retaining *)

Section Retain.
Implicit Types (c : Core) (l : loc) (ext : list loc).

(** A pin is traded for a reference. *)
Lemma getReference_ok ext c id l :
  wf_core (l :: ext) c → layerMap c !! id = Some l →
  ∃ r c', Mem.getReference l c = (Ok (LRef r), c') ∧ wf_core ext c' ∧ live c' r id l ∧
    extends ∅ c c' ∧ layerMap c' = layerMap c ∧ mounts c' = mounts c ∧ r = next c.
Proof.
  intros Hwf Hid. pose proof (wf_getReference _ _ _ Hwf) as Hg.
  destruct (wf_key _ _ Hwf _ _ Hid) as (rl&Hrl&_).
  eexists _, _. split; [reflexivity|]. destruct Hg as (Hwf'&Hr&Hmap).
  split_and!; [done| | |done|done|done].
  - split; [done|]. simpl. rewrite lookup_alter_eq, Hrl. simpl.
    eexists; split; [done|]. simpl. set_solver.
  - split; [|done|simpl; lia]. intros y id' k Hy Hl.
    refine (ext_live _ _ _ (alter_refs_extends ∅ c (set_references (λ X, {[ next c ]} ∪ X)) l _) y id' k Hy Hl).
    intros r y' Hy' _. simpl. set_solver.
Qed.

Lemma getWithoutLock_ok ext c id :
  wf_core ext c →
  match layerMap c !! id with
  | None => Mem.getWithoutLock id c = (Ok None, c)
  | Some l => ∃ c', Mem.getWithoutLock id c = (Ok (Some l), c') ∧ wf_core (l :: ext) c' ∧
      c' = with_heap (alter (add_refcount 1) l) c ∧ released c c' []
  end.
Proof.
  intros Hwf. unfold Mem.getWithoutLock, mbind, M_bind, get.
  destruct (layerMap c !! id) as [l|] eqn:Hl; [|done].
  eexists. split; [done|]. split_and!; [|done|apply released_count].
  apply wf_retain; [done|by exists id].
Qed.
End Retain.

(** ** [releaseLayer] *)

Section Release.
Context {D : Type} `{GraphDriver D} `{JSON Descriptor} `{TarSplit}.
Context (root : path) (ls_os GOOS : string).

Lemma deleteLayer_ok ext c l r :
  wf_core ext c → heap c !! l = Some r → Digest.valid (rl_chainID r) = true →
  ctriple c (deleteLayer (D := D) root l)
    (λ md c', c' = c ∧ md_ChainID md = rl_chainID r ∧ md_DiffID md = rl_diffID r)
    (λ _ c', c' = c).
Proof.
  intros Hwf Hr Hv. unfold deleteLayer.
  eapply ct_core; [by apply deref_ok|].
  eapply ct_drv; [done|]. intros _. eapply ct_fs; [auto with safe|done|]. intros _.
  destruct (Size_ok _ _ Hwf l ltac:(eauto)) as [z Hz].
  eapply ct_core; [exact Hz|]. by apply ct_ret.
Qed.

(** The loop of [releaseLayer] gives up the pin on [l]; it terminates, never
    panics, and keeps the invariant whether or not the driver fails. *)
Definition release_post ext c (removed mds : list Metadata) c' : Prop :=
  wf_core ext c' ∧ (∀ k, zombie c' k → zombie c k) ∧
  ∃ mds', mds = removed ++ mds' ∧ released c c' mds'.
Definition release_err ext c c' : Prop := wf_core ext c' ∧ ∃ mds, released c c' mds.

Lemma zombie_count c l n :
  (∀ r, heap c !! l = Some r → mapped c l → (rl_referenceCount r + n ≠ 0)%Z) →
  ∀ k, zombie (with_heap (alter (add_refcount n) l) c) k → zombie c k.
Proof.
  intros Hn k (Hm&r&Hr&Hz). simpl in Hr. split; [done|].
  destruct (decide (k = l)) as [->|Hne].
  - rewrite lookup_alter_eq in Hr. destruct (heap c !! l) as [rl|] eqn:Hl; [|done].
    simplify_eq/=. by destruct (Hn rl eq_refl Hm).
  - rewrite lookup_alter_ne in Hr by done. eauto.
Qed.

Lemma zombie_unmap ext c l r n k :
  wf_core ext c → layerMap c !! rl_chainID r = Some l →
  zombie (with_layerMap (delete (rl_chainID r)) (with_heap (alter (add_refcount n) l) c)) k →
  zombie c k.
Proof.
  intros Hwf Hl ([id Hid]&rk&Hk&Hz). simpl in *. apply lookup_delete_Some in Hid as [Hne Hid].
  split; [by exists id|]. exists rk. split; [|done]. rewrite lookup_alter_ne in Hk; [done|].
  intros <-. by eapply Hne, mapped_inj.
Qed.

Lemma release_loop_ok fuel ext c l depth removed :
  wf_core (l :: ext) c → l < fuel → (0 < depth → removed ≠ []) →
  ctriple c (release_loop (D := D) root fuel l depth removed)
    (release_post ext c removed) (λ _, release_err ext c).
Proof.
  revert c l depth removed. induction fuel as [|fuel IH]; intros c l depth removed Hwf Hl Hd; [lia|].
  assert (mapped c l) as Hm by (apply (wf_ext _ _ Hwf); left).
  destruct (mapped_heap _ _ Hwf l Hm) as (r&Hr&Hid).
  pose proof (wf_count _ _ Hwf _ _ _ Hid Hr) as Hcnt. rewrite held_cons_eq in Hcnt.
  pose proof (wf_unretain _ _ _ Hwf) as Hwf1. pose proof (released_count c l (-1)) as Hrel1. simpl.
  set (c1 := with_heap (alter (add_refcount (-1)) l) c) in *.
  assert (heap c1 !! l = Some (add_refcount (-1) r)) as Hr1.
  { simpl. by rewrite lookup_alter_eq, Hr. }
  eapply ct_core; [by apply deref_ok|].
  destruct (Z.eqb_spec (rl_referenceCount r) 0) as [Hz|_]; [lia|].
  eapply ct_core; [done|]. fold c1.
  destruct (Z.eqb_spec (rl_referenceCount r - 1) 0) as [Hone|Hone]; simpl.
  2:{ apply ct_ret. split; [done|]. split; [|exists []; by rewrite app_nil_r].
      apply zombie_count. intros r' Hr' _. simplify_eq. lia. }
  assert ((length removed =? 0) && (0 <? depth) = false) as ->.
  { destruct depth, removed; naive_solver lia. }
  assert (rl_references r = ∅) as Hrefs by (apply leibniz_equiv, size_empty_inv; lia).
  assert (Mem.hasReferences r = false) as ->.
  { unfold Mem.hasReferences. apply bool_decide_eq_false. lia. }
  eapply ct_bind.
  { eapply ct_conseq; [eapply deleteLayer_ok; [exact Hwf1|exact Hr1|by eapply (wf_valid _ _ Hwf)]|..].
    - intros md c' Hc'. exact Hc'.
    - intros e c' ->. split; [done|by eexists]. }
  intros md c' (->&Hmd&_). simpl.
  eapply ct_core; [done|].
  set (c2 := with_layerMap (delete (rl_chainID r)) c1).
  assert (wf_core (pins (rl_parent r) ++ ext) c2) as Hwf2.
  { eapply (wf_unmap ext _ l (add_refcount (-1) r)); [done|done|done|]. simpl. lia. }
  assert (released c c2 [md]) as Hrel2.
  { eapply (released_trans _ _ _ []); [done|].
    by apply (released_unmap c1 l (add_refcount (-1) r)). }
  assert (∀ k, zombie c2 k → zombie c k) as Hz2 by (intros k; by eapply zombie_unmap).
  destruct (rl_parent r) as [p|] eqn:Hp; [|apply ct_ret; split_and!; [done..|by exists [md]]].
  eapply ct_conseq; [apply IH; [done| |by destruct removed]|..].
  - destruct (wf_heap _ _ Hwf _ _ Hr) as [_ Hpar]. destruct (Hpar p Hp). lia.
  - intros mds c' (Hwf'&Hz'&mds'&->&Hrel'). split_and!; [done|auto|].
    exists (md :: mds'). split; [by rewrite <-app_assoc|].
    by eapply (released_trans _ _ _ [md]).
  - intros _ c' (Hwf'&mds&Hrel'). split; [done|]. eexists. by eapply released_trans.
Qed.

Lemma releaseLayer_ok ext c l :
  wf_core (l :: ext) c →
  ctriple c (releaseLayer (D := D) root l) (release_post ext c []) (λ _, release_err ext c).
Proof. intros Hwf. apply release_loop_ok; [done|lia|lia]. Qed.

Lemma releaseParent_ok ext c p :
  wf_core (pins p ++ ext) c →
  ctriple c (releaseParent (D := D) root p) (λ _, release_err ext c) (λ _, release_err ext c).
Proof.
  intros Hwf. destruct p as [p|]; simpl.
  - apply ct_ignore. eapply ct_conseq; [apply releaseLayer_ok, Hwf|..]; [|done].
    intros mds c' (?&_&mds'&_&?). split; eauto.
  - apply ct_ret. split; [done|]. exists []. apply released_refl.
Qed.
End Release.

(** ** Registration *)

(** A layer being built on a pinned parent, not yet in the map. *)
Record in_progress (ext : list loc) (pc : ChainID) (l : loc) (r : roLayer) (c : Core) : Prop := {
  ip_wf : wf_core (pins (rl_parent r) ++ ext) c;
  ip_heap : heap c !! l = Some r;
  ip_unmapped : ¬ mapped c l;
  ip_count : rl_referenceCount r = 1%Z;
  ip_refs : rl_references r = ∅;
  ip_chain : parent_chain c (rl_parent r) = pc;
}.

Section InProgress.
Implicit Types (c : Core) (l : loc) (ext : list loc) (p : option loc).

Lemma wf_random ext c : wf_core ext c → wf_core ext (Mem.GenerateRandomID c).2.
Proof. intros []. by constructor. Qed.
Lemma random_extends X c : extends X c (Mem.GenerateRandomID c).2.
Proof. by split. Qed.

Lemma pin_heap ext c p : wf_core (pins p ++ ext) c →
  match p with Some p => ∃ r, heap c !! p = Some r | None => True end.
Proof.
  intros Hwf. destruct p as [p|]; [|done].
  destruct (mapped_heap _ _ Hwf p) as (r&Hr&_); [apply (wf_ext _ _ Hwf); set_solver|eauto].
Qed.

Lemma in_progress_alloc ext c r :
  wf_core (pins (rl_parent r) ++ ext) c → rl_references r = ∅ → rl_referenceCount r = 1%Z →
  in_progress ext (parent_chain c (rl_parent r)) (next c) r (Mem.alloc r c).2.
Proof.
  intros Hwf Hrefs Hcnt. pose proof (pin_heap _ _ _ Hwf) as Hp. split; try done; simpl.
  - apply wf_alloc; [done..|]. intros p Hpar. rewrite Hpar in Hp. by destruct Hp.
  - apply lookup_insert_eq.
  - intros Hm. by destruct (mapped_ne_next _ _ Hwf (next c) Hm).
  - destruct (rl_parent r) as [p|]; [|done]. simpl. rewrite lookup_insert_ne; [done|].
    intros <-. destruct Hp as [rp Hp]. by rewrite (next_fresh_heap _ _ Hwf) in Hp.
Qed.

Lemma in_progress_fill ext pc l r c f :
  in_progress ext pc l r c →
  (∀ r, rl_parent (f r) = rl_parent r ∧ rl_references (f r) = rl_references r) →
  rl_referenceCount (f r) = rl_referenceCount r →
  in_progress ext pc l (f r) (with_heap (alter f l) c).
Proof.
  intros [Hwf Hh Hm Hcnt Hrefs Hpc] Hf Hfc. destruct (Hf r) as [Hfp Hfr].
  split; simpl; rewrite ?Hfp, ?Hfr, ?Hfc; try done.
  - by apply wf_fill.
  - by rewrite lookup_alter_eq, Hh.
  - rewrite <-Hpc. destruct (rl_parent r) as [p|] eqn:Hp; [|done]. simpl.
    rewrite lookup_alter_ne; [done|]. intros <-.
    destruct (wf_heap _ _ Hwf _ _ Hh) as [_ Hlt]. destruct (Hlt l Hp). lia.
Qed.
End InProgress.

Section Register.
Context {D : Type} `{GraphDriver D} `{JSON Descriptor} `{TarSplit}.
Context (root : path) (ls_os GOOS : string).
Implicit Types (c : Core) (l : loc) (ext : list loc) (p : option loc).

Lemma acquireParent_ok ext c parent :
  wf_core ext c →
  ctriple c (acquireParent (D := D) parent)
    (λ p c', wf_core (pins p ++ ext) c' ∧ released c c' [] ∧ parent_chain c' p = parent ∧
             (p = None → parent = EmptyString))
    (λ e c', c' = c ∧ e = LayerErr.ErrLayerDoesNotExist ∧ layerMap c !! parent = None).
Proof.
  intros Hwf. unfold acquireParent.
  destruct (String.eqb_spec parent EmptyString) as [->|Hne].
  { apply ct_ret. auto with store. }
  pose proof (getWithoutLock_ok _ _ parent Hwf) as Hg. unfold Mem.ls_get.
  destruct (layerMap c !! parent) as [l|] eqn:Hl.
  - destruct Hg as (c'&Hg&Hwf'&->&Hrel). eapply ct_core; [exact Hg|]. apply ct_ret.
    split_and!; [done|done| |done]. simpl. rewrite lookup_alter_eq.
    destruct (wf_key _ _ Hwf _ _ Hl) as (r&->&<-). done.
  - eapply ct_core; [exact Hg|]. by apply ct_fail.
Qed.

Lemma parentCacheID_ok ext c p (Q : string → Core → Prop) E :
  wf_core (pins p ++ ext) c → (∀ s, Q s c) → ctriple c (parentCacheID (D := D) p) Q E.
Proof.
  intros Hwf HQ. pose proof (pin_heap _ _ _ Hwf) as Hp. destruct p as [p|]; simpl.
  - destruct Hp as [r Hr]. eapply ct_core; [by apply deref_ok|]. by apply ct_ret.
  - by apply ct_ret.
Qed.

Lemma applyTar_ok ext pc c tx ts parent l r :
  in_progress ext pc l r c →
  ctriple c (applyTar (D := D) tx ts parent l)
    (λ _ c', ∃ size, in_progress ext pc l (set_applied size (Digest.FromBytes ts) r) c' ∧
               extends ∅ c c')
    (λ _ c', c' = c).
Proof.
  intros Hip. unfold applyTar.
  eapply (ct_bind _ _ _ (λ _ c', c' = c)).
  { destruct (useTarSplit); [|by apply ct_ret].
    eapply ct_fs; [auto with safe|done|]. intros ?. by apply ct_ret. }
  intros tsw c' ->.
  assert (∀ c' (Q : () → Core → Prop) E, Q tt c' → ctriple (D := D) c'
    (match tsw with Some p => onFS (ignore_err (Ioutils.sync_Close p)) | None => mret tt end) Q E) as Hcl.
  { intros c' Q E HQ. destruct tsw as [p|]; [|by apply ct_ret].
    apply ct_fs_ignore; auto with safe. }
  eapply (ct_defer_when _ _ _ _ (λ _ c', ∃ size,
    in_progress ext pc l (set_applied size (Digest.FromBytes ts) r) c' ∧ extends ∅ c c') _
    (λ _ c', c' = c)); [| | |done].
  - eapply ct_core; [by apply deref_ok, Hip|].
    eapply ct_drv; [done|]. intros [applySize n].
    eapply (ct_bind _ _ _ (λ _ c', c' = c)).
    { destruct tsw; [|by apply ct_ret]. apply ct_fs_ignore; [auto with safe|done]. }
    intros _ c' ->. rewrite take_drop_str.
    eapply ct_core_last; [done|]. exists applySize. split; [|apply fill_extends, Hip].
    by apply (in_progress_fill _ _ _ r).
  - intros e c' ->. by apply Hcl.
  - intros _ c' _ HR. apply Hcl. exact HR.
Qed.
Lemma storeLayer_ok ext pc c tx l r :
  in_progress ext pc l r c →
  ctriple c (storeLayer (D := D) ls_os tx l) (λ _ c', c' = c) (λ _ c', c' = c).
Proof.
  intros Hip. pose proof (pin_heap _ _ _ (ip_wf _ _ _ _ _ Hip)) as Hp. unfold storeLayer.
  eapply ct_core; [by apply deref_ok, Hip|].
  do 3 (eapply ct_fs; [auto with safe|done|]; intros _).
  eapply (ct_bind _ _ _ (λ _ c', c' = c)).
  { destruct (negb _); [|by apply ct_ret]. apply ct_fs_last; [auto with safe|done|done]. }
  intros _ c' ->. eapply (ct_bind _ _ _ (λ _ c', c' = c)).
  { destruct (rl_parent r) as [p|]; [|by apply ct_ret]. destruct Hp as [rp Hrp].
    eapply ct_core; [by apply deref_ok|]. apply ct_fs_last; [auto with safe|done|done]. }
  intros _ c' ->. apply ct_fs_last; [auto with safe|done|done].
Qed.

(** The outcome of a registration: a reference to the layer with the chain
    identifier [id]; the parent's pin is used up by a new layer. *)
Definition registered ext p (id : ChainID) c (rb : Layer * bool) c' : Prop :=
  wf_core ((if rb.2 then pins p else []) ++ ext) c' ∧ extends ∅ c c' ∧
  ∃ y l, rb.1 = LRef y ∧ next c ≤ y ∧ live c' y id l.

Lemma registered_mono ext p id c0 c rb c' :
  extends ∅ c c0 → registered ext p id c0 rb c' → registered ext p id c rb c'.
Proof.
  intros Hext (Hwf&Hext'&y&l&Hy&Hle&Hl). pose proof (ext_next _ _ _ Hext).
  split_and!; [done|by etrans|]. exists y, l. split_and!; [done|lia|done].
Qed.

Lemma registered_existing ext pc c l r e :
  in_progress ext pc l r c → layerMap c !! rl_chainID r = Some e →
  ∃ y c1 c2, Mem.getWithoutLock (rl_chainID r) c = (Ok (Some e), c1) ∧
    Mem.getReference e c1 = (Ok (LRef y), c2) ∧
    registered ext (rl_parent r) (rl_chainID r) c (LRef y, true) c2.
Proof.
  intros Hip He. pose proof (getWithoutLock_ok _ _ (rl_chainID r) (ip_wf _ _ _ _ _ Hip)) as Hg.
  rewrite He in Hg. destruct Hg as (c1&Hg&Hwf1&Hc1&Hrel).
  destruct (getReference_ok _ _ (rl_chainID r) _ Hwf1) as (y&c2&Hy&Hwf2&Hlive&Hext&Hmap&Hmnt);
    [by rewrite Hc1|]. assert (next c ≤ y) as Hle by (destruct Hmnt as [_ ->]; by rewrite (rel_next _ _ _ Hrel)).
  exists y, c1, c2. split_and!; [done..|]. split_and!; simpl; [done| |by exists y, e].
  etrans; [by eapply released_extends|done].
Qed.

Lemma registered_new ext pc c l r :
  in_progress ext pc l r c → layerMap c !! rl_chainID r = None →
  Digest.valid (rl_chainID r) = true → rl_chainID r = createChainIDFromParent pc [rl_diffID r] →
  ∃ y c2, Mem.getReference l (with_layerMap <[rl_chainID r := l]> c) = (Ok (LRef y), c2) ∧
    registered ext (rl_parent r) (rl_chainID r) c (LRef y, false) c2.
Proof.
  intros [Hwf Hh Hm Hcnt Hrefs <-] Hnone Hv Hch.
  pose proof (wf_publish _ _ _ _ Hwf Hh Hm Hnone Hcnt Hrefs Hv Hch) as Hwf1.
  destruct (getReference_ok _ _ (rl_chainID r) _ Hwf1) as (y&c2&Hy&Hwf2&Hlive&Hext&Hmap&Hmnt);
    [apply lookup_insert_eq|].
  assert (next c ≤ y) as Hle by (by destruct Hmnt as [_ ->]).
  exists y, c2. split; [done|]. split_and!; simpl; [done| |by exists y, l].
  etrans; [by apply (publish_extends _ _ (rl_chainID r) l)|done].
Qed.

Lemma publish_ok ext pc c tx l r :
  in_progress ext pc l r c → Digest.valid (rl_chainID r) = true →
  rl_chainID r = createChainIDFromParent pc [rl_diffID r] →
  ctriple c (publish (D := D) root tx l)
    (registered ext (rl_parent r) (rl_chainID r) c) (λ _ c', c' = c).
Proof.
  intros Hip Hv Hch. unfold publish. eapply ct_core; [by apply deref_ok, Hip|].
  destruct (layerMap c !! rl_chainID r) as [e|] eqn:He.
  - destruct (registered_existing _ _ _ _ _ _ Hip He) as (y&c1&c2&Hg&Hy&Hreg).
    eapply ct_core; [exact Hg|]. eapply ct_core; [exact Hy|]. by apply ct_ret.
  - eapply ct_core; [unfold Mem.getWithoutLock, mbind, M_bind, get; by rewrite He|].
    eapply ct_fs; [auto with safe|done|]. intros _.
    destruct (registered_new _ _ _ _ _ Hip He Hv Hch) as (y&c2&Hy&Hreg).
    eapply ct_core; [done|]. eapply ct_core; [exact Hy|]. by apply ct_ret.
Qed.

(** The pin on the parent survives a failed registration. *)
Definition register_failed ext p c (_ : error) c' : Prop :=
  wf_core (pins p ++ ext) c' ∧ extends ∅ c c'.

Lemma cleanup_ok c cacheID tx (Q E : Core → Prop) :
  Q c → E c →
  ctriple c (_ ← ignore_err (onDrv (drv_Remove (D := D) cacheID));
             ignore_err (onFS (MetaStore.tx_Cancel tx))) (λ _, Q) (λ _, E).
Proof.
  intros HQ HE. eapply (ct_bind _ _ _ (λ _ c', c' = c)).
  - apply ct_ignore. by apply ct_drv_last.
  - intros _ c' ->. apply ct_ignore. apply ct_fs_last; [auto with safe|done|done].
Qed.

(** From the start of the transaction on. *)
Lemma register_tx_ok ext pc c tx ts pid l r p :
  in_progress ext pc l r c → rl_parent r = p →
  ctriple c
    (_ ← applyTar (D := D) tx ts pid l;
     rl ← onCore (Mem.deref l);
     cid ← match p with
           | None => mret (rl_diffID rl)
           | Some p => pl ← onCore (Mem.deref p);
                       mret (createChainIDFromParent (rl_chainID pl) [rl_diffID rl])
           end;
     _ ← onCore (Mem.update l (set_chainID cid));
     _ ← storeLayer ls_os tx l;
     publish root tx l)
    (registered ext p (createChainIDFromParent pc [Digest.FromBytes ts]) c)
    (register_failed ext p c).
Proof.
  intros Hip <-.
  eapply ct_bind.
  { eapply ct_conseq; [by eapply applyTar_ok| |].
    - intros a c' HR. exact HR.
    - intros e c' ->. split; [apply Hip|done]. }
  simpl. intros _ c1 (size&Hip1&Hext1).
  pose proof (pin_heap _ _ _ (ip_wf _ _ _ _ _ Hip1)) as Hp.
  pose proof (ip_chain _ _ _ _ _ Hip1) as Hpc. simpl in Hp, Hpc.
  eapply ct_core; [by apply deref_ok, Hip1|]. simpl.
  eapply (ct_bind _ _ _ (λ cid c', cid = createChainIDFromParent pc [Digest.FromBytes ts] ∧ c' = c1)).
  { destruct (rl_parent r) as [p|]; simpl in Hpc.
    - destruct Hp as [rp Hrp]. rewrite Hrp in Hpc. subst pc.
      eapply ct_core; [by apply deref_ok|]. by apply ct_ret.
    - subst pc. by apply ct_ret. }
  intros cid c' [-> ->]. set (cid := createChainIDFromParent _ _).
  assert (Digest.valid cid = true) as Hv.
  { unfold cid. rewrite createChainIDFromParent_one. apply chain_step_valid, FromBytes_valid. }
  eapply ct_core; [done|].
  eapply (in_progress_fill _ _ _ _ _ (set_chainID cid)) in Hip1 as Hip2; [|done..].
  set (c2 := with_heap _ c1) in *.
  assert (extends ∅ c c2) as Hext2 by (etrans; [done|apply fill_extends, Hip1]).
  eapply ct_bind.
  { eapply ct_conseq; [by eapply storeLayer_ok| |].
    - intros a c' HR. exact HR.
    - intros e c' ->. split; [apply Hip2|done]. }
  simpl. intros _ c' ->. eapply ct_conseq; [by eapply publish_ok|..].
  - intros rb c' Hreg. by apply (registered_mono _ _ _ c2).
  - intros e c' ->. split; [apply Hip2|done].
Qed.

Lemma register_body_ok ext c ts p desc :
  wf_core (pins p ++ ext) c →
  ctriple c (register_body (D := D) root ls_os ts p desc)
    (registered ext p (createChainIDFromParent (parent_chain c p) [Digest.FromBytes ts]) c)
    (register_failed ext p c).
Proof.
  intros Hwf. pose proof (pin_heap _ _ _ Hwf) as Hp. unfold register_body.
  eapply (ct_bind _ _ _ (λ _ c', c' = c)); [by eapply parentCacheID_ok|]. intros pid c' ->.
  eapply (ct_bind _ _ _ (λ _ c', c' = c)).
  { destruct p as [p|]; [|by apply ct_ret]. destruct Hp as [rp Hrp].
    destruct (depth_ok _ _ Hwf p) as [d Hd]; [eauto|].
    eapply ct_core; [exact Hd|]. apply ct_guard; [done|by split]. }
  intros _ c' ->. eapply ct_core; [done|].
  pose proof (wf_random _ _ Hwf) as Hwf1. pose proof (random_extends ∅ c) as Hext1. simpl in *.
  set (c1 := mkCore _ _ _ _ _ _ _ _ _) in *.
  eapply ct_core; [done|]. set (r := mkRo _ _ p _ _ _ _ _).
  pose proof (in_progress_alloc ext c1 r Hwf1 eq_refl eq_refl) as Hip.
  set (c2 := mkCore _ _ _ _ _ _ _ _ _). change (in_progress ext (parent_chain c p) (next c1) r c2) in Hip.
  assert (extends ∅ c c2) as Hext2 by (etrans; [done|by eapply (alloc_extends _ _ c1)]).
  assert (register_failed ext p c (Errorf EmptyString) c2) as Hfail by (split; [apply Hip|done]).
  eapply ct_drv; [by intros|]. intros _. eapply ct_fs; [auto with safe|by intros|]. intros tx.
  eapply ct_defer_when; [by eapply register_tx_ok|..].
  - intros e c' [Hwf' Hext']. apply cleanup_ok; split; [done|by etrans|done|by etrans].
  - intros rb c' Hb Hreg. apply (registered_mono _ _ _ c2 c) in Hreg as (Hwf'&Hext'&Hres); [|done]. rewrite Hb in Hwf'.
    apply cleanup_ok; (split_and!; [by rewrite Hb|by etrans|done]).
  - intros rb c' Hb Hreg. by apply (registered_mono _ _ _ c2).
Qed.

Lemma registered_release ext p id c ref c1 :
  registered ext p id c (ref, true) c1 →
  ctriple c1 (releaseParent (D := D) root p)
    (λ _, registered ext p id c (ref, false)) (λ _, registered ext p id c (ref, false)).
Proof.
  intros (Hwf1&Hext1&y&l&Href&Hle&Hlive). simpl in Href. subst ref.
  assert (∀ c', release_err ext c1 c' → registered ext p id c (LRef y, false) c') as Hend.
  { intros c' (Hwf'&mds&R). pose proof (released_extends ∅ _ _ _ R) as Hext.
    split_and!; [done|by etrans|]. exists y, l. split_and!; [done|done|]. by apply (ext_live _ _ _ Hext). }
  eapply ct_conseq; [by apply releaseParent_ok|..]; auto.
Qed.

Lemma failed_release ext p c e c1 :
  register_failed ext p c e c1 →
  ctriple c1 (releaseParent (D := D) root p)
    (λ _, register_failed ext None c e) (λ _, register_failed ext None c e).
Proof.
  intros (Hwf1&Hext1). eapply ct_conseq; [by apply releaseParent_ok|..];
    (intros _ c' (Hwf'&mds&R); split; [done|etrans; [done|by eapply released_extends]]).
Qed.

Lemma with_parent_ok {ext c parent id} {m : option loc → M (LS D) (Layer * bool)} :
  wf_core ext c →
  (∀ p c1, wf_core (pins p ++ ext) c1 → extends ∅ c c1 → parent_chain c1 p = parent →
     ctriple c1 (m p) (registered ext p id c1) (register_failed ext p c1)) →
  ctriple c (p ← acquireParent parent; '(ref, _) ← defer_when snd (m p) (releaseParent root p);
             mret ref)
    (λ ref, registered ext None id c (ref, false)) (register_failed ext None c).
Proof.
  intros Hwf Hm. eapply ct_bind.
  { eapply ct_conseq; [by eapply acquireParent_ok|intros p c' HR; exact HR|].
    intros e c' (->&_). by split. }
  simpl. intros p c1 (Hwf1&R1&Hpc&_). pose proof (released_extends ∅ _ _ _ R1) as Hext1.
  eapply (ct_bind _ _ _ (λ rb, registered ext None id c (rb.1, false))); [|by intros [ref b] c' HR; apply ct_ret].
  assert (∀ q rb c', registered ext q id c1 rb c' → registered ext q id c rb c') as Hmono
    by (intros; by apply (registered_mono _ _ _ c1)).
  eapply ct_defer_when; [by apply Hm|..].
  - intros e c' (Hwf'&Hext'). eapply failed_release. split; [done|by etrans].
  - intros [ref b] c' Hb HR. simpl in Hb. subst b.
    eapply ct_conseq; [by eapply registered_release, Hmono|..]; done.
  - intros [ref b] c' Hb HR. simpl in Hb. subst b. by apply Hmono in HR.
Qed.

Lemma registerWithDescriptor_ok ext c ts parent desc :
  wf_core ext c →
  ctriple c (registerWithDescriptor (D := D) root ls_os ts parent desc)
    (λ ref, registered ext None (createChainIDFromParent parent [Digest.FromBytes ts]) c (ref, false))
    (register_failed ext None c).
Proof.
  intros Hwf. apply with_parent_ok; [done|]. intros p c1 Hwf1 _ <-. by apply register_body_ok.
Qed.

Lemma registerByGraphID_locked_ok ext pc c l r file :
  in_progress ext pc l r c → Digest.valid (rl_chainID r) = true →
  rl_chainID r = createChainIDFromParent pc [rl_diffID r] →
  ctriple c (registerByGraphID_locked (D := D) root ls_os l file)
    (registered ext (rl_parent r) (rl_chainID r) c) (register_failed ext (rl_parent r) c).
Proof.
  intros Hip Hv Hch. unfold registerByGraphID_locked. eapply ct_core; [by apply deref_ok, Hip|].
  assert (∀ e, register_failed ext (rl_parent r) c e c) as Hf by (intros e; split; [apply Hip|done]).
  destruct (layerMap c !! rl_chainID r) as [e|] eqn:He.
  { destruct (registered_existing _ _ _ _ _ _ Hip He) as (y&c1&c2&Hg&Hy&Hreg).
    eapply ct_core; [exact Hg|]. eapply ct_core; [exact Hy|]. by apply ct_ret. }
  eapply ct_core; [unfold Mem.getWithoutLock, mbind, M_bind, get; by rewrite He|].
  eapply ct_fs; [auto with safe|done|]. intros tx.
  eapply (ct_defer_when _ _ _ _ (registered ext (rl_parent r) (rl_chainID r) c) _ (λ _ c', c' = c));
    [| |done|done].
  2:{ intros e c' ->. apply ct_ignore. apply ct_fs_last; [auto with safe|done|done]. }
  eapply ct_fs; [auto with safe|done|]. intros tsw.
  eapply (ct_defer_when _ _ _ _ (registered ext (rl_parent r) (rl_chainID r) c) _ (λ _ c', c' = c)).
  - eapply ct_fs; [auto with safe|done|]. intros tdf.
    eapply ct_fs; [auto with safe|done|]. intros [n err].
    eapply (ct_bind _ _ _ (λ _ c', c' = c)).
    { destruct err; [by apply ct_fail|by apply ct_ret]. }
    intros _ c' ->. eapply ct_bind; [by eapply storeLayer_ok|]. simpl. intros _ c' ->.
    eapply ct_fs; [auto with safe|done|]. intros _.
    destruct (registered_new _ _ _ _ _ Hip He Hv Hch) as (y&c2&Hy&Hreg).
    eapply ct_core; [done|]. eapply ct_core; [exact Hy|]. by apply ct_ret.
  - intros e c' ->. apply ct_fs_ignore; [auto with safe|done].
  - intros rb c' _ HR. apply ct_fs_ignore; [auto with safe|done].
  - done.
Qed.

Lemma RegisterByGraphID_ok ext c graphID parent diffID file size :
  wf_core ext c → Digest.valid diffID = true →
  ctriple c (RegisterByGraphID (D := D) root ls_os graphID parent diffID file size)
    (λ ref, registered ext None (createChainIDFromParent parent [diffID]) c (ref, false))
    (register_failed ext None c).
Proof.
  intros Hwf Hv. apply with_parent_ok; [done|]. intros p c1 Hwf1 _ <-.
  eapply ct_core; [done|]. set (r := mkRo _ _ p _ _ _ _ _).
  pose proof (in_progress_alloc ext c1 r Hwf1 eq_refl eq_refl) as Hip.
  pose proof (alloc_extends _ ∅ _ r Hwf1) as Hext.
  assert (Digest.valid (rl_chainID r) = true) as Hvr.
  { simpl. case_match; [done|by apply FromBytes_valid]. }
  eapply ct_conseq; [eapply (registerByGraphID_locked_ok _ _ _ _ r); [exact Hip|done|done]|..].
  - intros rb c' Hreg. eapply registered_mono; [exact Hext|exact Hreg].
  - intros e c' (?&?). split; [done|by etrans].
Qed.
End Register.

(** ** [Get], [Release] and the mounts *)

(** A [Layer] value some operation of the store returned. *)
Definition valid_layer (c : Core) (l : Layer) : Prop :=
  match l with
  | LRef r => is_Some (refs c !! r)
  | LRo l => is_Some (heap c !! l)
  | LEmpty => True
  end.
Definition ref_ids (l : Layer) : gset loc :=
  match l with LRef r => {[ r ]} | _ => ∅ end.

(** A mount being made on a pinned parent. *)
Record mount_in_progress (ext : list loc) (m : loc) (ml : mountedLayer) (c : Core) : Prop := {
  mp_wf : wf_core (pins (ml_parent ml) ++ ext) c;
  mp_mheap : mheap c !! m = Some ml;
  mp_refs : ml_references ml = ∅;
  mp_fresh : mounts c !! ml_name ml = None;
}.

Section References.
Context {D : Type} `{GraphDriver D} `{JSON Descriptor} `{TarSplit}.
Context (root : path) (ls_os GOOS : string).
Implicit Types (c : Core) (l m : loc) (ext : list loc) (p : option loc).

Lemma Get_core_ok ext c id :
  wf_core ext c →
  match layerMap c !! id with
  | None => Mem.Get id c = (Err LayerErr.ErrLayerDoesNotExist, c)
  | Some l => ∃ y c', Mem.Get id c = (Ok (LRef y), c') ∧ wf_core ext c' ∧ extends ∅ c c' ∧
      live c' y id l ∧ layerMap c' = layerMap c ∧ y = next c
  end.
Proof.
  intros Hwf. unfold Mem.Get, mbind, M_bind.
  pose proof (getWithoutLock_ok _ _ id Hwf) as Hg.
  destruct (layerMap c !! id) as [l|] eqn:Hl; [|by rewrite Hg].
  destruct Hg as (c1&->&Hwf1&Hc1&R).
  destruct (getReference_ok _ _ id _ Hwf1) as (y&c2&Hy&Hwf2&Hlive&Hext&Hmap&Hmnt);
    [by rewrite Hc1|].
  destruct Hmnt as [_ ->].
  eexists _, c2. split_and!; [done..| |done|by rewrite Hmap, Hc1|by rewrite Hc1].
  etrans; [by eapply released_extends|done].
Qed.

Lemma ChainID_ok ext c ref :
  wf_core ext c → valid_layer c ref → ∃ id, Mem.ChainID_of ref c = (Ok id, c).
Proof.
  intros Hwf Hv. destruct ref as [r|l|]; simpl in *; [..|by eexists].
  - destruct Hv as [l Hl]. destruct (wf_refs_next _ _ Hwf _ _ Hl) as [_ [rl Hrl]].
    unfold mbind, M_bind, get, Mem.deref. rewrite Hl, Hrl. by eexists.
  - destruct Hv as [rl Hrl]. unfold mbind, M_bind, Mem.deref. rewrite Hrl. by eexists.
Qed.

(** What [Release] promises: the given reference, and no other, stops being
    outstanding; exactly the reported layers leave the map; a reference that
    is not outstanding changes nothing. *)
Definition Release_frame ext c ref c' : Prop :=
  wf_core ext c' ∧ extends (ref_ids ref) c c' ∧
  ((∃ y id l, y ∈ ref_ids ref ∧ live c y id l) ∨ c' = c).
Definition Release_post ext c ref (mds : list Metadata) c' : Prop :=
  Release_frame ext c ref c' ∧ (∀ k, zombie c' k → zombie c k) ∧
  (∀ y id l, y ∈ ref_ids ref → ¬ live c' y id l) ∧
  ∀ id, layerMap c' !! id =
    (if bool_decide (id ∈ md_ChainID <$> mds) then None else layerMap c !! id).

Lemma drop_reference_ok ext c l r y :
  wf_core ext c → mapped c l → heap c !! l = Some r → y ∈ rl_references r →
  ∃ c1, Mem.deleteReference l (LRef y) c = (Ok tt, c1) ∧ wf_core (l :: ext) c1 ∧
    extends {[ y ]} c c1 ∧ (∀ k, zombie c1 k → zombie c k) ∧ (∀ id k, ¬ live c1 y id k) ∧
    layerMap c1 = layerMap c.
Proof.
  intros Hwf Hm Hr Hy. eexists. split; [done|]. split_and!; [by eapply wf_drop_reference| | | |done].
  - apply alter_refs_extends. intros rk x Hx Hne. simpl. set_solver.
  - intros k (Hk&rk&Hrk&Hz). simpl in *. split; [done|].
    destruct (decide (k = l)) as [->|Hne].
    + rewrite lookup_alter_eq, Hr in Hrk. simplify_eq/=. eauto.
    + rewrite lookup_alter_ne in Hrk by done. eauto.
  - intros id k (Hk&rk&Hrk&Hin). simpl in *. destruct (decide (k = l)) as [->|Hne].
    + rewrite lookup_alter_eq, Hr in Hrk. simplify_eq/=. by apply elem_of_difference in Hin as [_ ?%not_elem_of_singleton].
    + rewrite lookup_alter_ne in Hrk by done.
      pose proof (wf_refs _ _ Hwf _ _ _ Hr Hy). pose proof (wf_refs _ _ Hwf _ _ _ Hrk Hin). congruence.
Qed.

Lemma live_lt ext c y id l : wf_core ext c → live c y id l → y < next c.
Proof.
  intros Hwf (_&r&Hr&Hy). pose proof (wf_refs _ _ Hwf _ _ _ Hr Hy) as Href.
  by destruct (wf_refs_next _ _ Hwf _ _ Href).
Qed.
Lemma live_inj ext c y id id' l l' : wf_core ext c → live c y id l → live c y id' l' → id = id' ∧ l = l'.
Proof.
  intros Hwf (Hid&r&Hr&Hy) (Hid'&r'&Hr'&Hy').
  pose proof (wf_refs _ _ Hwf _ _ _ Hr Hy). pose proof (wf_refs _ _ Hwf _ _ _ Hr' Hy').
  simplify_eq. split; [|done]. by eapply mapped_inj.
Qed.

Lemma released_live_inv c c' mds y id k :
  released c c' mds → live c' y id k → live c y id k.
Proof.
  intros R (Hid&r&Hr&Hy). destruct (rel_heap _ _ _ R k) as [n Hn]. rewrite Hr in Hn.
  destruct (heap c !! k) as [r0|] eqn:Hk; [|done]. simplify_eq/=.
  split; [|by exists r0]. pose proof (rel_map _ _ _ R id) as Hi. rewrite Hid in Hi.
  by case_bool_decide.
Qed.

Lemma live_chain ext c y l id id' :
  wf_core ext c → live c y id l → Mem.ChainID_of (LRef y) c = (Ok id', c) → id' = id.
Proof.
  intros Hwf (Hm&r&Hr&Hy) Hid. destruct (wf_key _ _ Hwf _ _ Hm) as (r'&Hr'&Hl).
  pose proof (wf_refs _ _ Hwf _ _ _ Hr Hy) as Href.
  simpl in Hid.
  unfold mbind, M_bind, get, mret, M_ret, Mem.deref in Hid.
  rewrite Href, Hr in Hid. congruence.
Qed.

Lemma Release_ok ext c ref :
  wf_core ext c → valid_layer c ref →
  ctriple c (Release (D := D) root ref)
    (Release_post ext c ref) (λ _, Release_frame ext c ref).
Proof.
  intros Hwf Hv. destruct (ChainID_ok _ _ _ Hwf Hv) as [cid Hcid].
  assert (Release_frame ext c ref c) as Hsame by (split_and!; [done|done|by right]).
  unfold Release. eapply ct_core; [exact Hcid|]. eapply ct_core; [done|].
  destruct (layerMap c !! cid) as [l|] eqn:Hl.
  2:{ apply ct_ret. split_and!; [done|done| |done]. intros y id k Hy Hlive.
      destruct ref as [r| |]; simpl in Hy; [|set_solver..]. apply elem_of_singleton in Hy as ->.
      pose proof (live_chain _ _ _ _ _ _ Hwf Hlive Hcid). destruct Hlive. congruence. }
  destruct (wf_key _ _ Hwf _ _ Hl) as (r&Hr&_).
  eapply ct_core; [by apply deref_ok|].
  destruct (Mem.hasReference r ref) eqn:Href; simpl; [|by apply ct_fail].
  destruct ref as [y| |]; [|done..]. apply bool_decide_eq_true in Href.
  assert (mapped c l) as Hm by (by exists cid).
  destruct (drop_reference_ok _ _ _ _ _ Hwf Hm Hr Href) as (c1&Hd&Hwf1&Hext1&Hz1&Hno&Hmap).
  eapply ct_core; [exact Hd|].
  assert (∀ c' mds, released c1 c' mds → wf_core ext c' → Release_frame ext c (LRef y) c') as Hfr.
  { intros c' mds R Hwf'. split_and!; [done|etrans; [done|by eapply released_extends]|].
    left. exists y, cid, l. split; [set_solver|]. split; eauto. }
  eapply ct_conseq; [by apply releaseLayer_ok|..].
  - intros mds c' (Hwf'&Hz&mds'&->&R). split_and!; [by eapply Hfr|auto|..].
    + intros y' id k Hy' Hlive. simpl in Hy'. apply elem_of_singleton in Hy' as ->.
      by eapply Hno, released_live_inv.
    + intros id. by rewrite (rel_map _ _ _ R), Hmap.
  - intros e c' (Hwf'&mds&R). by eapply Hfr.
Qed.

Lemma mgetReference_ok ext c m name :
  wf_core ext c → mounts c !! name = Some m →
  ∃ y c', Mem.mgetReference m c = (Ok y, c') ∧ wf_core ext c' ∧ extends ∅ c c' ∧
    mlive c' y name m ∧ mounts c' = mounts c ∧ layerMap c' = layerMap c ∧ y = next c.
Proof.
  intros Hwf Hm. destruct (wf_mount _ _ Hwf _ _ Hm) as (ml&Hml&_&_).
  eexists _, _. split; [reflexivity|]. split_and!; [|..|done|done|done].
  - by apply (wf_mgetReference ext m).
  - split; [done| |simpl; lia]. intros y name' k Hy Hl.
    refine (ext_mlive _ _ _ (malter_extends ∅ c (set_ml_references (λ X, {[ next c ]} ∪ X)) m _) y name' k Hy Hl).
    intros ml' y' Hy' _. simpl. set_solver.
  - split; [done|]. simpl. rewrite lookup_alter_eq, Hml. eexists; split; [done|]. simpl. set_solver.
Qed.

Lemma GetRWLayer_ok ext c id :
  wf_core ext c →
  ctriple c (GetRWLayer (D := D) id)
    (λ y c', wf_core ext c' ∧ extends ∅ c c' ∧ (∃ m, mlive c' y id m) ∧ next c ≤ y < next c')
    (λ e c', c' = c ∧ e = LayerErr.ErrMountDoesNotExist ∧ mounts c !! id = None).
Proof.
  intros Hwf. unfold GetRWLayer. eapply ct_core; [done|].
  destruct (mounts c !! id) as [m|] eqn:Hm; [|by apply ct_fail].
  destruct (mgetReference_ok _ _ _ _ Hwf Hm) as (y&c'&Hy&Hwf'&Hext&Hl&_&_&->).
  eapply ct_core_last; [exact Hy|]. split_and!; [done|done|by exists m|done|].
  destruct Hl as (_&ml&Hml&Hin). apply (wf_mheap _ _ Hwf' _ _ Hml) in Hin.
  by apply (wf_rwrefs_next _ _ Hwf') in Hin as [? _].
Qed.

Lemma mount_in_progress_malloc ext c ml :
  wf_core (pins (ml_parent ml) ++ ext) c → ml_references ml = ∅ → mounts c !! ml_name ml = None →
  mount_in_progress ext (next c) ml (Mem.malloc ml c).2.
Proof.
  intros Hwf Hr Hn. split; [by apply wf_malloc|apply lookup_insert_eq|done|done].
Qed.
Lemma mount_in_progress_init ext m ml c i :
  mount_in_progress ext m ml c →
  mount_in_progress ext m (set_ml_initID i ml) (with_mheap (alter (set_ml_initID i) m) c).
Proof.
  intros [Hwf Hm Hr Hn]. split; [|simpl; by rewrite lookup_alter_eq, Hm|done|done].
  apply wf_malter; [done|done|]. simpl. intros ml' x Hml' Hx.
  by eapply (wf_mheap _ _ Hwf).
Qed.
Lemma init_extends c m i : extends ∅ c (with_mheap (alter (set_ml_initID i) m) c).
Proof. by apply malter_extends. Qed.

Lemma saveMount_ok ext c m ml :
  mount_in_progress ext m ml c →
  ctriple c (saveMount (D := D) root m)
    (λ _ c', wf_core ext c' ∧ extends ∅ c c' ∧ mounts c' !! ml_name ml = Some m)
    (λ _ c', c' = c).
Proof.
  intros [Hwf Hm Hr Hn]. pose proof (pin_heap _ _ _ Hwf) as Hp. unfold saveMount.
  eapply ct_core; [by apply mderef_ok|]. eapply ct_fs; [auto with safe|done|]. intros _.
  eapply (ct_bind _ _ _ (λ _ c', c' = c)).
  { destruct (negb _); [|by apply ct_ret]. apply ct_fs_last; [auto with safe|done|done]. }
  intros _ c' ->. eapply (ct_bind _ _ _ (λ _ c', c' = c)).
  { destruct (ml_parent ml) as [p|]; [|by apply ct_ret]. destruct Hp as [r Hrp].
    eapply ct_core; [by apply deref_ok|]. apply ct_fs_last; [auto with safe|done|done]. }
  intros _ c' ->. eapply ct_core_last; [done|]. split_and!.
  - by apply wf_save_mount.
  - by apply save_extends.
  - apply lookup_insert_eq.
Qed.

Lemma initMount_ok c graphID parent label f opts :
  ctriple c (initMount (D := D) graphID parent label f opts) (λ _ c', c' = c) (λ _ c', c' = c).
Proof.
  unfold initMount. do 2 (eapply ct_drv; [done|]; intros ?).
  eapply (ct_bind _ _ _ (λ _ c', c' = c)); [apply ct_attempt; by apply ct_drv_last|].
  intros [e|u] c' ->.
  - eapply (ct_bind _ _ _ (λ _ c', c' = c)); [apply ct_ignore; by apply ct_drv_last|].
    intros _ c' ->. by apply ct_fail.
  - eapply ct_drv; [done|]. intros _. by apply ct_ret.
Qed.

(** The pin on the parent survives a failed mount. *)
Definition mount_made ext name c m c' : Prop :=
  wf_core ext c' ∧ extends ∅ c c' ∧ mounts c' !! name = Some m.

Lemma createRW_body_ok ext c name p opts :
  wf_core (pins p ++ ext) c → mounts c !! name = None →
  ctriple c (createRW_body (D := D) root name p opts)
    (mount_made ext name c) (register_failed ext p c).
Proof.
  intros Hwf Hn. unfold createRW_body.
  eapply (ct_bind _ _ _ (λ _ c', c' = c)); [by eapply parentCacheID_ok|]. intros pid c' ->.
  eapply ct_core; [done|].
  pose proof (wf_random _ _ Hwf) as Hwf1. pose proof (random_extends ∅ c) as Hext1. simpl in *.
  set (c1 := mkCore _ _ _ _ _ _ _ _ _) in *.
  eapply ct_core; [done|]. set (ml := mkMl name _ _ p ∅).
  pose proof (mount_in_progress_malloc ext c1 ml Hwf1 eq_refl Hn) as Hmp.
  set (c2 := mkCore _ _ _ _ _ _ _ _ _). change (mount_in_progress ext (next c1) ml c2) in Hmp.
  assert (extends ∅ c c2) as Hext2 by (etrans; [done|by eapply (malloc_extends _ _ c1)]).
  assert (∀ e, register_failed ext p c e c2) as Hfail2 by (intros e; split; [apply Hmp|done]).
  eapply (ct_bind _ _ _ (λ _ c', ∃ i, mount_in_progress ext (next c1) (set_ml_initID i ml) c' ∧
                                       extends ∅ c c')).
  { destruct (match opts with Some o => rw_InitFunc o | None => None end) as [f|].
    - eapply (ct_bind _ _ _ (λ _ c', c' = c2)).
      { eapply ct_conseq; [apply initMount_ok|done|]. by intros e c' ->. }
      intros iid c' ->. eapply ct_core; [done|]. apply ct_ret. eexists. split.
      + by apply mount_in_progress_init.
      + etrans; [done|apply init_extends].
    - apply ct_ret. by exists EmptyString. }
  intros pid' c3 (i&Hmp3&Hext3).
  assert (∀ e, register_failed ext p c e c3) as Hfail3 by (intros e; split; [apply Hmp3|done]).
  eapply ct_drv; [done|]. intros _. eapply (ct_bind _ _ _ (λ _, mount_made ext name c (next c1))).
  - eapply ct_conseq; [by eapply saveMount_ok|..].
    + intros _ c' (?&?&?). split_and!; [done|by etrans|done].
    + by intros e c' ->.
  - intros _ c' HR. by apply ct_ret.
Qed.

Lemma CreateRWLayer_ok ext c name parent opts :
  wf_core ext c →
  ctriple c (CreateRWLayer (D := D) root name parent opts)
    (λ y c', wf_core ext c' ∧ extends ∅ c c' ∧ mounts c !! name = None ∧ ∃ m, mlive c' y name m)
    (register_failed ext None c).
Proof.
  intros Hwf. unfold CreateRWLayer. eapply ct_core; [done|].
  destruct (mounts c !! name) as [m|] eqn:Hn; [by apply ct_fail|].
  eapply ct_bind.
  { eapply ct_conseq; [by eapply acquireParent_ok|intros p c' HR; exact HR|].
    intros e c' (->&_). by split. }
  simpl. intros p c1 (Hwf1&R1&_&_). pose proof (released_extends ∅ _ _ _ R1) as Hext1.
  eapply (ct_defer_when _ _ _ _ _ _ (register_failed ext p c)).
  - eapply (ct_bind _ _ _ (mount_made ext name c)).
    + eapply ct_conseq; [apply createRW_body_ok; [done|by rewrite (rel_mounts _ _ _ R1)]|..].
      * intros m c' (?&?&?). split_and!; [done|by etrans|done].
      * intros e c' (?&?). split; [done|by etrans].
    + intros m c' (Hwf'&Hext'&Hm).
      destruct (mgetReference_ok _ _ _ _ Hwf' Hm) as (y&c''&Hy&Hwf''&Hext''&Hl&_).
      eapply ct_core_last; [exact Hy|].
      instantiate (1 := λ y c', wf_core ext c' ∧ extends ∅ c c' ∧ ∃ m, mlive c' y name m).
      split_and!; [done|by etrans|eauto].
  - intros e c' HR. by apply (failed_release _ _ p).
  - done.
  - intros y c' _ (?&?&?). split_and!; done.
Qed.

Lemma removeMount_ok c m ml :
  ctriple c (removeMount (D := D) root m ml) (λ _ c', c' = c) (λ _ c', c' = c).
Proof.
  unfold removeMount. eapply ct_drv; [done|]. intros _.
  eapply (ct_bind _ _ _ (λ _ c', c' = c)).
  { destruct (negb _); [by apply ct_drv_last|by apply ct_ret]. }
  intros _ c' ->. apply ct_fs_last; [auto with safe|done|done].
Qed.

Lemma mdeleteReference_ok ext c m ml y :
  wf_core ext c → mheap c !! m = Some ml → y ∈ ml_references ml →
  let c1 := with_mheap (alter (set_ml_references (λ X, X ∖ {[ y ]})) m) c in
  Mem.mdeleteReference m y c = (Ok tt, c1) ∧ wf_core ext c1 ∧ extends {[ y ]} c c1 ∧
  mheap c1 !! m = Some (set_ml_references (λ X, X ∖ {[ y ]}) ml).
Proof.
  intros Hwf Hm Hy. split_and!.
  - unfold Mem.mdeleteReference, mbind, M_bind, Mem.mderef. rewrite Hm.
    by rewrite bool_decide_eq_true_2.
  - apply wf_malter; [done|done|]. simpl. intros ml' x Hml' [Hx _]%elem_of_difference.
    by eapply (wf_mheap _ _ Hwf).
  - apply malter_extends. intros ml' x Hx Hne. simpl. set_solver.
  - simpl. by rewrite lookup_alter_eq, Hm.
Qed.

Lemma retakeReference_ok ext c m y :
  wf_core ext c → rwrefs c !! y = Some m →
  let c1 := with_mheap (alter (set_ml_references (λ X, {[ y ]} ∪ X)) m) c in
  Mem.retakeReference m y c = (Ok tt, c1) ∧ wf_core ext c1 ∧ extends ∅ c c1.
Proof.
  intros Hwf Hy. split_and!; [done|..].
  - apply wf_malter; [done|done|]. simpl.
    intros ml' x Hml' [->%elem_of_singleton|Hx]%elem_of_union; [done|].
    by eapply (wf_mheap _ _ Hwf).
  - apply malter_extends. intros ml' x Hx Hne. simpl. set_solver.
Qed.

(** No reference is left to lose when an unreferenced mount goes. *)
Lemma remove_mount_extends X c name m ml :
  mounts c !! name = Some m → mheap c !! m = Some ml → ml_references ml = ∅ →
  extends X c (with_mounts (delete name) c).
Proof.
  intros Hn Hm Hr. split; [done| |simpl; lia]. intros y name' k _ (Hk&ml'&Hml'&Hy). split; [|eauto].
  simpl. rewrite lookup_delete_ne; [done|]. intros <-. simplify_eq. set_solver.
Qed.

(** What [ReleaseRWLayer] promises. *)
Definition ReleaseRW_frame ext c y c' : Prop := wf_core ext c' ∧ extends {[ y ]} c c'.
Definition ReleaseRW_post ext c y c' : Prop :=
  ReleaseRW_frame ext c y c' ∧ ∀ name m, ¬ mlive c' y name m.

Lemma mlive_rwref ext c y name m : wf_core ext c → mlive c y name m → rwrefs c !! y = Some m.
Proof. intros Hwf (_&ml&Hml&Hy). by eapply (wf_mheap _ _ Hwf). Qed.

Lemma mlive_dropped ext c y m ml name k :
  wf_core ext c → mheap c !! m = Some ml → y ∈ ml_references ml →
  ¬ mlive (with_mheap (alter (set_ml_references (λ X, X ∖ {[ y ]})) m) c) y name k.
Proof.
  intros Hwf Hm Hy (_&ml'&Hml'&Hy'). simpl in Hml'. destruct (decide (k = m)) as [->|Hne].
  - rewrite lookup_alter_eq, Hm in Hml'. simplify_eq/=.
    by apply elem_of_difference in Hy' as [_ []%not_elem_of_singleton].
  - rewrite lookup_alter_ne in Hml' by done. destruct (wf_mheap _ _ Hwf _ _ Hm) as [_ H1m].
    destruct (wf_mheap _ _ Hwf _ _ Hml') as [_ H1k].
    specialize (H1m _ Hy). specialize (H1k _ Hy'). congruence.
Qed.

(** The last reference of a mount is gone. *)
Lemma unmount_ok ext c m ml y :
  wf_core ext c → mounts c !! ml_name ml = Some m → mheap c !! m = Some ml →
  ml_references ml = ∅ → rwrefs c !! y = Some m → (∀ name k, ¬ mlive c y name k) →
  ctriple c
    (_ ← defer_on_error (removeMount (D := D) root m ml) (onCore (Mem.retakeReference m y));
     _ ← onCore (modify (with_mounts (delete (ml_name ml))));
     match ml_parent ml with Some p => releaseLayer root p | None => mret [] end)
    (λ _, ReleaseRW_post ext c y) (λ _, ReleaseRW_frame ext c y).
Proof.
  intros Hwf Hn Hm Hr Hy Hno.
  eapply (ct_bind _ _ _ (λ _ c', c' = c)).
  { eapply ct_defer_when; [apply removeMount_ok|..|done|done].
    intros e c' ->. destruct (retakeReference_ok _ _ _ _ Hwf Hy) as (Ht&Hwf'&Hext').
    eapply ct_core_last; [exact Ht|]. split; [done|].
    destruct Hext' as [L M N]. split; [intros; apply L; set_solver|intros; apply M; set_solver|done]. }
  intros _ c' ->. eapply ct_core; [done|].
  pose proof (wf_remove_mount _ _ _ _ _ Hwf Hn Hm) as Hwf1.
  pose proof (remove_mount_extends {[ y ]} _ _ _ _ Hn Hm Hr) as Hext1.
  set (c1 := with_mounts _ c) in *.
  assert (∀ name k, ¬ mlive c1 y name k) as Hno1.
  { intros name k (Hk&Hml). apply (Hno name k). split; [|done].
    simpl in Hk. by apply lookup_delete_Some in Hk as [_ Hk]. }
  destruct (ml_parent ml) as [p|]; [|by apply ct_ret].
  eapply ct_conseq; [apply releaseLayer_ok, Hwf1|..].
  - intros mds c' (Hwf'&_&mds'&_&R). split.
    + split; [done|]. etrans; [done|by eapply released_extends].
    + intros name k. unfold mlive. rewrite (rel_mounts _ _ _ R), (rel_mheap _ _ _ R). apply Hno1.
  - intros e c' (Hwf'&mds&R). split; [done|]. etrans; [done|by eapply released_extends].
Qed.

Lemma ReleaseRWLayer_ok ext c y :
  wf_core ext c → is_Some (rwrefs c !! y) →
  ctriple c (ReleaseRWLayer (D := D) root y)
    (λ _, ReleaseRW_post ext c y) (λ _, ReleaseRW_frame ext c y).
Proof.
  intros Hwf [rm Hrm]. destruct (wf_rwrefs_next _ _ Hwf _ _ Hrm) as [_ [rml Hrml]].
  unfold ReleaseRWLayer.
  eapply (ct_bind _ _ _ (λ a c', a = rm ∧ c' = c)).
  { unfold rw_mount. eapply ct_core; [done|]. rewrite Hrm. by apply ct_ret. }
  intros ? c' [-> ->]. eapply ct_core; [by apply mderef_ok|]. eapply ct_core; [done|].
  destruct (mounts c !! ml_name rml) as [m|] eqn:Hn.
  2:{ apply ct_ret. split; [by split|]. intros name k Hl.
      pose proof (mlive_rwref _ _ _ _ _ Hwf Hl). simplify_eq.
      destruct Hl as (Hk&_). destruct (wf_mount _ _ Hwf _ _ Hk) as (ml'&Hml'&Hname&_).
      simplify_eq. }
  destruct (wf_mount _ _ Hwf _ _ Hn) as (ml&Hml&Hname&_).
  destruct (decide (y ∈ ml_references ml)) as [Hy|Hy].
  2:{ intros s Hs. unfold mbind, M_bind, onCore, zoom, Mem.mdeleteReference, mbind, M_bind, Mem.mderef.
      rewrite Hs, Hml, bool_decide_eq_false_2 by done. by split. }
  destruct (mdeleteReference_ok _ _ _ _ _ Hwf Hml Hy) as (Hd&Hwf1&Hext1&Hm1).
  pose proof (λ name k, mlive_dropped _ _ _ _ _ name k Hwf Hml Hy) as Hno1.
  destruct (wf_mheap _ _ Hwf _ _ Hml) as [_ Hrw]. specialize (Hrw y Hy).
  eapply ct_core; [exact Hd|]. set (c1 := with_mheap _ c) in *.
  eapply ct_core; [by apply mderef_ok|].
  destruct (Mem.mhasReferences _) eqn:Hhas; [by apply ct_ret|].
  apply bool_decide_eq_false in Hhas.
  eapply ct_conseq; [apply (unmount_ok ext c1 m)|..].
  - done.
  - simpl. by rewrite Hname.
  - done.
  - apply leibniz_equiv, size_empty_inv. lia.
  - done.
  - done.
  - intros mds c' ((?&?)&?). split; [split; [done|by etrans]|done].
  - intros e c' (?&?). split; [done|by etrans].
Qed.

(** [CreateRWLayerByGraphID], for a name that is free or mounted on a
    parent. *)
Lemma ct_gets {A B : Type} c (f : LS D → A) (k : A → M (LS D) B) Q E :
  (∀ a, ctriple c (k a) Q E) → ctriple c (gets f ≫= k) Q E.
Proof. intros Hk s Hs. exact (Hk (f s) s Hs). Qed.

Lemma CreateRWLayerByGraphID_ok ext c name graphID parent :
  wf_core ext c →
  (∀ m ml, mounts c !! name = Some m → mheap c !! m = Some ml → ml_parent ml ≠ None) →
  ctriple c (CreateRWLayerByGraphID (D := D) root name graphID parent)
    (λ _ c', wf_core ext c' ∧ extends ∅ c c' ∧ is_Some (mounts c' !! name))
    (register_failed ext None c).
Proof.
  intros Hwf Hpar. unfold CreateRWLayerByGraphID. eapply ct_core; [done|].
  destruct (mounts c !! name) as [m|] eqn:Hn.
  - destruct (wf_mount _ _ Hwf _ _ Hn) as (ml&Hml&Hname&Hmp).
    eapply ct_core; [by apply mderef_ok|]. specialize (Hpar m ml eq_refl Hml).
    destruct (ml_parent ml) as [p|]; [|done].
    destruct (mapped_heap _ _ Hwf p (Hmp p eq_refl)) as (r&Hr&_).
    eapply ct_core; [by apply deref_ok|].
    eapply (ct_bind _ _ _ (λ _ c', c' = c)); [by apply ct_guard|]. intros _ c' ->.
    apply ct_guard; [|by split]. intros _. split_and!; [done|done|by rewrite Hn].
  - apply ct_gets. intros ex.
    eapply (ct_bind _ _ _ (λ _ c', c' = c)); [by apply ct_guard|]. intros _ c' ->.
    eapply ct_bind.
    { eapply ct_conseq; [by eapply acquireParent_ok|intros p c' HR; exact HR|].
      intros e c' (->&_). by split. }
    simpl. intros p c1 (Hwf1&R1&_&_). pose proof (released_extends ∅ _ _ _ R1) as Hext1.
    rewrite <-(rel_mounts _ _ _ R1) in Hn.
    eapply (ct_defer_when _ _ _ _ _ _ (register_failed ext p c)); [|intros e c'; apply failed_release|done|by intros ? ? _ HR; apply HR].
    eapply ct_core; [done|]. set (ml := mkMl name _ _ p ∅).
    pose proof (mount_in_progress_malloc ext c1 ml Hwf1 eq_refl Hn) as Hmp.
    pose proof (malloc_extends _ ∅ _ ml Hwf1) as Hext2.
    apply ct_gets. intros ex'.
    eapply (ct_bind _ _ _ (λ _ c', ∃ i, mount_in_progress ext (next c1) (set_ml_initID i ml) c' ∧
                                         extends ∅ c c')).
    { destruct ex'.
      - eapply ct_core_last; [done|]. eexists. split; [by apply mount_in_progress_init|].
        etrans; [done|]. etrans; [exact Hext2|]. apply init_extends.
      - apply ct_ret. exists EmptyString. split; [done|]. etrans; [done|exact Hext2]. }
    intros _ c3 (i&Hmp3&Hext3). eapply ct_conseq; [by eapply saveMount_ok|..].
    + intros _ c' (?&?&Hm). split_and!; [done|by etrans|]. simpl in Hm. by rewrite Hm.
    + intros e c' ->. split; [apply Hmp3|done].
Qed.

(** The methods of a mounted layer change nothing in the maps. *)
Lemma rw_access_ok {A : Type} ext c y (f : mountedLayer → M (LS D) A) :
  wf_core ext c → is_Some (rwrefs c !! y) →
  (∀ m ml, rwrefs c !! y = Some m → mheap c !! m = Some ml →
     ctriple c (f ml) (λ _ c', c' = c) (λ _ c', c' = c)) →
  ctriple c (m ← rw_mount (D := D) y; ml ← onCore (Mem.mderef m); f ml)
    (λ _ c', c' = c) (λ _ c', c' = c).
Proof.
  intros Hwf [m Hm] Hf. destruct (wf_rwrefs_next _ _ Hwf _ _ Hm) as [_ [ml Hml]].
  eapply (ct_bind _ _ _ (λ a c', a = m ∧ c' = c)).
  { unfold rw_mount. eapply ct_core; [done|]. rewrite Hm. by apply ct_ret. }
  intros ? c' [-> ->]. eapply ct_core; [by apply mderef_ok|]. by apply (Hf m).
Qed.
Lemma rw_Mount_ok ext c y label :
  wf_core ext c → is_Some (rwrefs c !! y) →
  ctriple c (rw_Mount (D := D) y label) (λ _ c', c' = c) (λ _ c', c' = c).
Proof. intros Hwf Hy. eapply rw_access_ok; [done..|]. intros. by apply ct_drv_last. Qed.
Lemma rw_Unmount_ok ext c y :
  wf_core ext c → is_Some (rwrefs c !! y) →
  ctriple c (rw_Unmount (D := D) y) (λ _ c', c' = c) (λ _ c', c' = c).
Proof. intros Hwf Hy. eapply rw_access_ok; [done..|]. intros. by apply ct_drv_last. Qed.
End References.
