(* ===== verification/LayerProps.v ===== *)
(** * Properties of the layer store

    The store seen by its clients: every history of operations keeps the
    reference counts exact and never reaches a panic; what [Register],
    [Release], [CreateRWLayer] and [ReleaseRWLayer] promise; integrity of the
    streams read back.

    Concrete environments: A small storage driver kept in memory, a tar-split codec that records the
    stream verbatim and a descriptor codec: instances of the interfaces the
    layer store is verified against, on which its operations run. *)

From S2P Require Import Prelude FileSys Digest Chain FileStore GraphDriver LayerStore LayerInv LayerOps.

(** ** A driver that keeps the diff of every layer *)

Definition MemDisk := gmap string string.

Definition mem_lookup (id : string) : dcall MemDisk string := λ d,
  match d !! id with
  | Some s => (inr s, d)
  | None => (inl (Errorf ("no such layer: " +:+ id)), d)
  end.

#[export] Instance mem_driver : GraphDriver MemDisk := {
  drv_String _ := "memory";
  drv_Create id _ _ d := (inr tt, <[id := EmptyString]> d);
  drv_CreateReadWrite id _ _ d := (inr tt, <[id := EmptyString]> d);
  drv_Remove id d := (inr tt, delete id d);
  drv_Get id _ d := match d !! id with
                    | Some _ => (inr ("/" +:+ id), d)
                    | None => (inl (Errorf "no such layer"), d)
                    end;
  drv_Put _ d := (inr tt, d);
  drv_Exists d id := bool_decide (is_Some (d !! id));
  drv_Status d := [];
  drv_GetMetadata _ d := (inr ∅, d);
  drv_Cleanup d := (inr tt, d);
  drv_Diff id _ := mem_lookup id;
  drv_Changes _ _ d := (inr [], d);
  drv_ApplyDiff id _ ts d :=
    (inr (Z.of_nat (String.length ts), String.length ts), <[id := ts]> d);
  drv_DiffSize id _ d := match d !! id with
                         | Some s => (inr (Z.of_nat (String.length s)), d)
                         | None => (inl (Errorf "no such layer"), d)
                         end;
  drv_ReproducesExactDiffs := false;
  drv_DiffGetter := None;
  path_files _ _ _ := inl (Errorf "no such file");
}.

#[export] Instance verbatim_split : TarSplit := {
  ts_meta s := s;
  ts_assemble _ m := inr m;
}.

(** ** A textual codec for descriptors *)

Definition bar : ascii := "|"%char.
Definition no_bar (s : string) : bool :=
  match GoString.index_byte bar s with None => true | Some _ => false end.
Definition descriptor_fields (x : Descriptor) : list string :=
  MediaType x :: GoString.format_int (DescSize x) :: DescDigest x :: URLs x.

#[export] Instance descriptor_codec : JSON Descriptor := {
  json_marshal x :=
    if in_int64 (DescSize x) && forallb no_bar (descriptor_fields x)
    then inr (GoString.join (String bar EmptyString) (descriptor_fields x))
    else inl (Errorf "unsupported descriptor");
  json_unmarshal s :=
    match GoString.split bar s with
    | m :: z :: d :: us =>
        match GoString.parse_int z with
        | Some n => inr (mkDescriptor m n d us)
        | None => inl (Errorf "invalid size")
        end
    | _ => inl (Errorf "unexpected end of input")
    end;
}.

#[export] Instance descriptor_codec_laws : JSONLaws Descriptor.
Proof.
  constructor. intros x s. unfold json_marshal, json_unmarshal, descriptor_codec.
  destruct (in_int64 (DescSize x) && _) eqn:Hok; [|done]. intros Hs.
  assert (s = GoString.join (String bar EmptyString) (descriptor_fields x)) as -> by congruence.
  apply andb_prop in Hok as [Hz Hf]. rewrite split_join.
  - unfold descriptor_fields. rewrite parse_format_int by done. by destruct x.
  - done.
  - apply Forall_forall. intros w Hw. rewrite forallb_forall in Hf.
    specialize (Hf w ltac:(by apply list_elem_of_In)). unfold no_bar in Hf. unfold avoids.
    by destruct (GoString.index_byte bar w).
Qed.

(** ** An empty store on an empty disk *)

Definition empty_core : Core :=
  mkCore ∅ ∅ ∅ ∅ ∅ ∅ 0 (λ n, "id" +:+ GoString.format_int (Z.of_nat n)) 0.
Definition store_root : path := ["root"].
Definition empty_store : LS MemDisk :=
  mkLS empty_core {| nodes := ∅; faults := [] |} ∅.

(** ** Properties of the layer store *)

(** ** Client histories *)

(** The calls of [layer.Store], [MetadataStore] migration included, and of the
    mounted layers. *)
Inductive store_op (D : Type) :=
| OpGet (id : ChainID)
| OpRegister (ts : string) (parent : ChainID) (desc : Descriptor)
| OpRelease (ref : Layer)
| OpCreateRW (name : string) (parent : ChainID) (opts : option (CreateRWLayerOpts D))
| OpGetRW (name : string)
| OpReleaseRW (y : loc)
| OpMount (y : loc) (label : string)
| OpUnmount (y : loc)
| OpRegisterByGraphID (graphID : string) (parent : ChainID) (diffID : DiffID) (file : path) (size : Z)
| OpCreateRWByGraphID (name graphID : string) (parent : ChainID).
Arguments OpGet {D}. Arguments OpRegister {D}. Arguments OpRelease {D}. Arguments OpCreateRW {D}.
Arguments OpGetRW {D}. Arguments OpReleaseRW {D}. Arguments OpMount {D}. Arguments OpUnmount {D}.
Arguments OpRegisterByGraphID {D}. Arguments OpCreateRWByGraphID {D}.

Section Histories.
Context {D : Type} `{GraphDriver D} `{JSON Descriptor} `{TarSplit}.
Context (root : path) (ls_os : string).

Definition exec (op : store_op D) : M (LS D) () :=
  match op with
  | OpGet id => _ ← onCore (Mem.Get id); mret tt
  | OpRegister ts parent desc => _ ← registerWithDescriptor root ls_os ts parent desc; mret tt
  | OpRelease ref => _ ← Release root ref; mret tt
  | OpCreateRW name parent opts => _ ← CreateRWLayer root name parent opts; mret tt
  | OpGetRW name => _ ← GetRWLayer name; mret tt
  | OpReleaseRW y => _ ← ReleaseRWLayer root y; mret tt
  | OpMount y label => _ ← rw_Mount y label; mret tt
  | OpUnmount y => rw_Unmount y
  | OpRegisterByGraphID g parent d file size =>
      _ ← RegisterByGraphID root ls_os g parent d file size; mret tt
  | OpCreateRWByGraphID name g parent => CreateRWLayerByGraphID root name g parent
  end.

(** The references a client passes are ones it was given, the diff
    identifiers are digests, and the migration does not meet a mount without
    a parent under its name. *)
Definition admissible (c : Core) (op : store_op D) : Prop :=
  match op with
  | OpRelease ref => valid_layer c ref
  | OpReleaseRW y | OpMount y _ | OpUnmount y => is_Some (rwrefs c !! y)
  | OpRegisterByGraphID _ _ d _ _ => Digest.valid d = true
  | OpCreateRWByGraphID name _ _ =>
      ∀ m ml, mounts c !! name = Some m → mheap c !! m = Some ml → ml_parent ml ≠ None
  | _ => True
  end.

(** A client calls the store, or the disk and the driver change on their own. *)
Inductive client_step : LS D → LS D → Prop :=
| client_op op r s s' : admissible (core s) op → exec op s = (r, s') → client_step s s'
| client_env s s' : core s' = core s → client_step s s'.

Definition fresh_core (c : Core) : Prop :=
  heap c = ∅ ∧ layerMap c = ∅ ∧ mheap c = ∅ ∧ mounts c = ∅ ∧ refs c = ∅ ∧ rwrefs c = ∅.

Lemma fresh_wf c : fresh_core c → wf_core [] c.
Proof.
  intros (Hh&Hl&Hmh&Hm&Hr&Hrw). constructor; intros *; rewrite ?Hh, ?Hl, ?Hmh, ?Hm, ?Hr, ?Hrw;
    rewrite ?lookup_empty; set_solver.
Qed.

Lemma ct_drop {A : Type} c (m : M (LS D) A) (I : Core → Prop) Q E :
  ctriple c m Q E → (∀ a c', Q a c' → I c') → (∀ e c', E e c' → I c') →
  ctriple c (_ ← m; mret tt) (λ _, I) (λ _, I).
Proof.
  intros Hm HQ HE. eapply (ct_bind _ _ _ (λ _, I)).
  - eapply ct_conseq; [done|..]; auto.
  - intros a c' HI. by apply ct_ret.
Qed.

Lemma exec_ok c op :
  wf_core [] c → admissible c op →
  ctriple c (exec op) (λ _, wf_core []) (λ _, wf_core []).
Proof.
  intros Hwf Hadm. destruct op; simpl in *.
  - pose proof (Get_core_ok [] c id Hwf) as Hg. destruct (layerMap c !! id).
    + destruct Hg as (y&c'&Hy&Hwf'&_). eapply ct_core; [exact Hy|]. by apply ct_ret.
    + intros s Hs. unfold mbind, M_bind, onCore, zoom. by rewrite Hs, Hg.
  - eapply ct_drop; [by apply registerWithDescriptor_ok|..]; [intros a c' Hr|intros e c' Hr]; apply Hr.
  - eapply ct_drop; [by apply Release_ok|..]; [intros a c' Hr|intros e c' Hr]; apply Hr.
  - eapply ct_drop; [by apply CreateRWLayer_ok|..]; [intros a c' Hr|intros e c' Hr]; apply Hr.
  - eapply ct_drop; [by apply GetRWLayer_ok|..]; [intros a c' Hr; apply Hr|by intros e c' (->&_)].
  - eapply ct_drop; [by apply ReleaseRWLayer_ok|..]; [intros a c' Hr|intros e c' Hr]; apply Hr.
  - eapply ct_drop; [by eapply rw_Mount_ok|..]; by intros ? c' ->.
  - eapply ct_conseq; [by eapply rw_Unmount_ok|..]; by intros ? c' ->.
  - eapply ct_drop; [by apply RegisterByGraphID_ok|..]; [intros a c' Hr|intros e c' Hr]; apply Hr.
  - eapply ct_conseq; [by apply CreateRWLayerByGraphID_ok|..]; [intros a c' Hr|intros e c' Hr]; apply Hr.
Qed.

Lemma client_step_wf s s' : client_step s s' → wf_core [] (core s) → wf_core [] (core s').
Proof.
  intros [op r t t' Hadm Hop|t t' ->] Hwf; [|done].
  pose proof (exec_ok _ op Hwf Hadm t eq_refl) as Hx. rewrite Hop in Hx. by destruct r.
Qed.

(** C1. Reference counting is exact in every history: starting from an empty
    store, after any sequence of client calls, with any failures of the
    driver and the disk and any changes they make on their own, the count of
    every layer in the map is the number of its references, of the layers on
    top of it and of the mounts made from it, every parent of a layer and of
    a mount is in the map, the chain identifier of a layer follows from its
    digest and its parent, and no further admissible call panics. *)
Theorem store_history_invariant s0 s :
  fresh_core (core s0) → rtc client_step s0 s →
  wf_core [] (core s) ∧
  ∀ op p s', admissible (core s) op → exec op s ≠ (Panic p, s').
Proof.
  intros Hfresh Hsteps. assert (wf_core [] (core s)) as Hwf.
  { pose proof (fresh_wf _ Hfresh) as H0'. clear Hfresh.
    induction Hsteps as [|s0 s1 s2 Hst _ IH]; [done|]. by eapply IH, client_step_wf. }
  split; [done|]. intros op p s' Hadm Hop.
  pose proof (exec_ok _ op Hwf Hadm s eq_refl) as Hx. by rewrite Hop in Hx.
Qed.
End Histories.

(** ** What the operations promise *)

Section Promises.
Context {D : Type} `{GraphDriver D} `{JSON Descriptor} `{TarSplit}.
Context (root : path) (ls_os GOOS : string).
Implicit Types (c : Core) (ext : list loc).

(** [Release] never panics and keeps the invariant, on its error paths
    too.  Every reference but the given one stays outstanding.  On success
    the given one is gone, exactly the layers reported as removed have left
    the map, and no layer is left behind with a count of zero.  Releasing a
    reference that is not outstanding, a second time say, changes nothing. *)
Theorem Release_promise ext c ref :
  wf_core ext c → valid_layer c ref →
  ctriple c (Release (D := D) root ref)
    (λ mds c', wf_core ext c' ∧ extends (ref_ids ref) c c' ∧
       ((∃ y id l, y ∈ ref_ids ref ∧ live c y id l) ∨ c' = c) ∧
       (∀ k, zombie c' k → zombie c k) ∧
       (∀ y id l, y ∈ ref_ids ref → ¬ live c' y id l) ∧
       ∀ id, layerMap c' !! id =
         (if bool_decide (id ∈ md_ChainID <$> mds) then None else layerMap c !! id))
    (λ _ c', wf_core ext c' ∧ extends (ref_ids ref) c c' ∧
       ((∃ y id l, y ∈ ref_ids ref ∧ live c y id l) ∨ c' = c)).
Proof.
  intros Hwf Hv. eapply ct_conseq; [by apply Release_ok|..]; [|done].
  intros mds c' ((?&?&?)&?&?&?). by split_and!.
Qed.

(** C38. [Register] never panics and keeps the invariant and every outstanding
    reference, whatever calls of the disk and the driver fail.  On success it returns a new outstanding reference to the
    layer whose chain identifier is computed from the parent and the digest
    of the whole stream, however much of the stream the driver read. *)
Theorem Register_promise ext c ts parent :
  wf_core ext c →
  ctriple c (Register (D := D) root ls_os ts parent)
    (λ ref c', wf_core ext c' ∧ extends ∅ c c' ∧
       ∃ y l, ref = LRef y ∧ (∀ id' l', ¬ live c y id' l') ∧
              live c' y (createChainIDFromParent parent [Digest.FromBytes ts]) l)
    (λ _ c', wf_core ext c' ∧ extends ∅ c c').
Proof.
  intros Hwf. eapply ct_conseq; [by apply registerWithDescriptor_ok|..].
  - intros ref c' (?&?&y&l&?&?&?). split_and!; [done|done|]. exists y, l. split_and!; [done| |done].
    intros id' l' Hl. pose proof (live_lt _ _ _ _ _ Hwf Hl). lia.
  - intros e c' (?&?). by split.
Qed.

(** Content addressing: registering a stream on a parent again, while a
    reference to the layer with that chain identifier is outstanding, gives
    a reference to the same layer object. *)
Theorem Register_shares ext c ts parent y l :
  wf_core ext c → live c y (createChainIDFromParent parent [Digest.FromBytes ts]) l →
  ctriple c (Register (D := D) root ls_os ts parent)
    (λ ref c', ∃ y', ref = LRef y' ∧ refs c' !! y' = Some l)
    (λ _ _, True).
Proof.
  intros Hwf Hlive. eapply ct_conseq; [by apply registerWithDescriptor_ok| |done].
  intros ref c' (Hwf'&Hext&y'&l'&Href&_&Hl'&r&Hr&Hy'). exists y'. split; [exact Href|].
  destruct (ext_live _ _ _ Hext _ _ _ (not_elem_of_empty _) Hlive) as [Hl _].
  simplify_eq. by eapply (wf_refs _ _ Hwf').
Qed.

(** [p] is the parent of [l]. *)
Definition parent_rel (c : Core) (l p : loc) : Prop := parent_of (heap c) l = Some p.

Lemma ancestors_mapped ext c l a : wf_core ext c → mapped c l → rtc (parent_rel c) l a → mapped c a.
Proof.
  intros Hwf Hm Hrtc. induction Hrtc as [|l p a Hp _ IH]; [done|]. apply IH.
  destruct (mapped_heap _ _ Hwf l Hm) as (r&Hr&Hid). unfold parent_rel in Hp.
  rewrite (parent_of_Some _ _ _ Hr) in Hp. by eapply (wf_parent _ _ Hwf).
Qed.

Lemma parent_count ext c l p r :
  wf_core ext c → mapped c l → parent_rel c l p → heap c !! p = Some r → mapped c p →
  (0 < rl_referenceCount r)%Z.
Proof.
  intros Hwf [id Hid] Hp Hr [idp Hidp]. rewrite (wf_count _ _ Hwf _ _ _ Hidp Hr).
  assert (0 < children c p); [|lia]. eapply count_where_pos; [exact Hid|].
  by apply bool_decide_eq_true.
Qed.

Lemma keeps_ancestors_ok ext c y id l a :
  wf_core ext c → live c y id l → rtc (parent_rel c) l a →
  ∃ r, heap c !! a = Some r ∧ layerMap c !! rl_chainID r = Some a ∧ (0 < rl_referenceCount r)%Z.
Proof.
  intros Hwf (Hid&rl&Hrl&Hy) Hrtc. assert (mapped c l) as Hm by (by exists id).
  pose proof (ancestors_mapped _ _ _ _ Hwf Hm Hrtc) as Ha.
  destruct (mapped_heap _ _ Hwf a Ha) as (r&Hr&Hra). exists r. split_and!; [done|done|].
  apply rtc_inv_r in Hrtc as [<-|(k&Hk&Hp)].
  - simplify_eq. rewrite (wf_count _ _ Hwf _ _ _ Hid Hrl).
    assert (size (rl_references rl) ≠ 0); [|lia]. intros Hz%size_empty_inv. set_solver.
  - pose proof (ancestors_mapped _ _ _ _ Hwf Hm Hk) as Hmk.
    by apply (parent_count _ _ k a r Hwf Hmk).
Qed.

(** A reference keeps the whole chain below it: every ancestor of a layer
    with an outstanding reference is in the map under its chain identifier,
    with a positive count. *)
Theorem reference_keeps_ancestors ext c y id l a :
  wf_core ext c → live c y id l → rtc (parent_rel c) l a →
  ∃ r, heap c !! a = Some r ∧ layerMap c !! rl_chainID r = Some a ∧ (0 < rl_referenceCount r)%Z.
Proof. apply keeps_ancestors_ok. Qed.

(** [CreateRWLayer] never panics and keeps the invariant and every
    outstanding reference; on success the name was free and the result is an
    outstanding reference to the mount of that name. *)
Theorem CreateRWLayer_promise ext c name parent opts :
  wf_core ext c →
  ctriple c (CreateRWLayer (D := D) root name parent opts)
    (λ y c', wf_core ext c' ∧ extends ∅ c c' ∧ mounts c !! name = None ∧
             ∃ m, mlive c' y name m)
    (λ _ c', wf_core ext c' ∧ extends ∅ c c').
Proof. apply CreateRWLayer_ok. Qed.

(** [ReleaseRWLayer] never panics and keeps the invariant, and every
    reference but the given one stays outstanding; on success the given one
    is gone. *)
Theorem ReleaseRWLayer_promise ext c y :
  wf_core ext c → is_Some (rwrefs c !! y) →
  ctriple c (ReleaseRWLayer (D := D) root y)
    (λ _ c', wf_core ext c' ∧ extends {[ y ]} c c' ∧ ∀ name m, ¬ mlive c' y name m)
    (λ _ c', wf_core ext c' ∧ extends {[ y ]} c c').
Proof.
  intros Hwf Hy. eapply ct_conseq; [by apply ReleaseRWLayer_ok|..]; [|done].
  intros _ c' ((?&?)&?). by split_and!.
Qed.

(** Integrity of a layer read back: a stream [TarStream] delivers to the
    end without an error has the digest the layer is recorded under. *)
Theorem TarStream_integrity other_sum s l content s' :
  TarStream (D := D) root other_sum l s = (Ok content, s') →
  ∃ rl, heap (core s) !! l = Some rl ∧
    (Digest.Algorithm (rl_diffID rl) = Ok Digest.Canonical →
     Digest.FromBytes content = rl_diffID rl).
Proof.
  unfold TarStream, mbind, M_bind. unfold onCore at 1, zoom at 1, Mem.deref at 1.
  destruct (heap (core s) !! l) as [rl|]; [|done]. simpl.
  destruct (getTarStream root l _) as [[ts|e|p] s1]; [|done..].
  unfold verifier_digest, of_outcome, mbind, M_bind. intros Hrun. exists rl. split; [done|].
  intros Halg. rewrite Halg, String.eqb_refl in Hrun. unfold guard_err, mret, M_ret, fail in Hrun.
  destruct (String.eqb_spec (Digest.FromBytes ts) (rl_diffID rl)); [congruence|done].
Qed.

(** The defect of [CreateRWLayerByGraphID]: called for a name that is
    mounted without a parent, it dereferences the nil parent and panics,
    with any graph and parent identifier. *)
Theorem CreateRWLayerByGraphID_panics (s : LS D) name m ml graphID parent :
  mounts (core s) !! name = Some m → mheap (core s) !! m = Some ml → ml_parent ml = None →
  CreateRWLayerByGraphID root name graphID parent s = (Panic nil_deref, s).
Proof.
  intros Hn Hm Hp. unfold CreateRWLayerByGraphID, mbind, M_bind, onCore, zoom, get. simpl.
  rewrite Hn. unfold Mem.mderef. simpl. rewrite Hm, Hp. by destruct s.
Qed.
End Promises.

(** ** Concrete runs *)

Definition demo_id : ChainID := Eval vm_compute in Digest.FromBytes "layer one".

(** One layer, registered by a client that holds the reference 1; then a mount
    made from it, and one without a parent. *)
Definition demo : LS MemDisk := (Register store_root "linux" "layer one" EmptyString empty_store).2.
Definition demo_rw : LS MemDisk := (CreateRWLayer store_root "web" demo_id None demo).2.
Definition demo_bare : LS MemDisk := (CreateRWLayer store_root "bare" EmptyString None empty_store).2.

Lemma empty_store_fresh : fresh_core (core empty_store).
Proof. by repeat split. Qed.
Lemma demo_wf : wf_core [] (core demo).
Proof.
  pose proof (registerWithDescriptor_ok store_root "linux" [] _ "layer one" EmptyString emptyDescriptor
    (fresh_wf _ empty_store_fresh) empty_store eq_refl) as Hr.
  unfold demo, Register. destruct (registerWithDescriptor _ _ _ _ _ _) as [[ref|e|p] s]; [apply Hr..|done].
Qed.
Lemma demo_live : live (core demo) 1 (createChainIDFromParent EmptyString [Digest.FromBytes "layer one"]) 0.
Proof.
  split; [by vm_compute|]. destruct (heap (core demo) !! 0) as [r|] eqn:Hr; [|by vm_compute in Hr].
  exists r. split; [done|]. assert (Some (bool_decide (1 ∈ rl_references r)) = Some true) as Hy.
  { change (Some (bool_decide (1 ∈ rl_references r))) with
      ((λ r, bool_decide (1 ∈ rl_references r)) <$> Some r). rewrite <-Hr. by vm_compute. }
  injection Hy as Hy. by apply bool_decide_eq_true in Hy.
Qed.
Lemma demo_rw_wf : wf_core [] (core demo_rw).
Proof.
  pose proof (CreateRWLayer_ok store_root [] _ "web" demo_id None demo_wf demo eq_refl) as Hr.
  unfold demo_rw. destruct (CreateRWLayer _ _ _ _ _) as [[ref|e|p] s]; [apply Hr..|done].
Qed.

Lemma store_history_invariant_witness :
  layerMap (core demo_rw) !! demo_id = Some 0 ∧ wf_core [] (core demo_rw).
Proof.
  split; [by vm_compute|].
  refine (proj1 (store_history_invariant store_root "linux" empty_store demo_rw empty_store_fresh _)).
  eapply rtc_l.
  { exact (client_op _ _ (OpRegister "layer one" EmptyString emptyDescriptor) _ _ _ I
             (surjective_pairing _)). }
  eapply rtc_l.
  { exact (client_op _ _ (OpCreateRW "web" demo_id None) _ _ _ I (surjective_pairing _)). }
  apply rtc_once, client_env. vm_compute. reflexivity.
Defined.

Lemma Release_promise_witness :
  (∃ mds, (Release store_root (LRef 1) demo).1 = Ok mds ∧ md_ChainID <$> mds = [demo_id]) ∧
  wf_core [] (core (Release store_root (LRef 1) demo).2).
Proof.
  split; [eexists; split; vm_compute; reflexivity|].
  pose proof (Release_promise store_root [] (core demo) (LRef 1) demo_wf
    ltac:(vm_compute; eauto) demo eq_refl) as Hr.
  destruct (Release store_root (LRef 1) demo) as [[mds|e|p] s]; [apply Hr..|done].
Defined.

Lemma Register_promise_witness :
  ∃ ref, (Register store_root "linux" "layer two" demo_id demo).1 = Ok ref ∧
         wf_core [] (core (Register store_root "linux" "layer two" demo_id demo).2).
Proof.
  eexists. split; [vm_compute; reflexivity|].
  pose proof (Register_promise store_root "linux" [] (core demo) "layer two" demo_id demo_wf demo eq_refl) as Hr.
  destruct (Register store_root "linux" "layer two" demo_id demo) as [[ref|e|p] s]; [apply Hr..|done].
Defined.

Lemma Register_shares_witness :
  ∃ y, (Register store_root "linux" "layer one" EmptyString demo).1 = Ok (LRef y) ∧
       refs (core (Register store_root "linux" "layer one" EmptyString demo).2) !! y = Some 0.
Proof.
  pose proof (Register_shares store_root "linux" [] (core demo) "layer one" EmptyString 1 0
    demo_wf demo_live demo eq_refl) as Hr.
  assert (∃ ref, (Register store_root "linux" "layer one" EmptyString demo).1 = Ok ref) as [ref Hok]
    by (eexists; vm_compute; reflexivity).
  destruct (Register store_root "linux" "layer one" EmptyString demo) as [[ref'|e|p] s]; [|done..].
  destruct Hr as (y&->&Hy). by exists y.
Defined.

Lemma reference_keeps_ancestors_witness :
  ∃ r, heap (core demo) !! 0 = Some r ∧ layerMap (core demo) !! rl_chainID r = Some 0 ∧
       (0 < rl_referenceCount r)%Z.
Proof. exact (reference_keeps_ancestors [] (core demo) 1 _ 0 0 demo_wf demo_live (rtc_refl _ _)). Defined.

Lemma CreateRWLayer_promise_witness :
  (∃ y, (CreateRWLayer store_root "web" demo_id None demo).1 = Ok y) ∧
  wf_core [] (core (CreateRWLayer store_root "web" demo_id None demo).2).
Proof.
  split; [eexists; vm_compute; reflexivity|].
  pose proof (CreateRWLayer_promise store_root [] (core demo) "web" demo_id None demo_wf demo eq_refl) as Hr.
  destruct (CreateRWLayer store_root "web" demo_id None demo) as [[y|e|p] s]; [apply Hr..|done].
Defined.

Lemma ReleaseRWLayer_promise_witness :
  (∃ mds, (ReleaseRWLayer store_root 3 demo_rw).1 = Ok mds) ∧
  wf_core [] (core (ReleaseRWLayer store_root 3 demo_rw).2).
Proof.
  split; [eexists; vm_compute; reflexivity|].
  pose proof (ReleaseRWLayer_promise store_root [] (core demo_rw) 3 demo_rw_wf
    ltac:(vm_compute; eauto) demo_rw eq_refl) as Hr.
  destruct (ReleaseRWLayer store_root 3 demo_rw) as [[y|e|p] s]; [apply Hr..|done].
Defined.

Lemma TarStream_integrity_witness :
  ∃ rl, heap (core demo) !! 0 = Some rl ∧
    (Digest.Algorithm (rl_diffID rl) = Ok Digest.Canonical →
     Digest.FromBytes "layer one" = rl_diffID rl).
Proof.
  assert ((TarStream store_root (λ _ s, s) 0 demo).1 = Ok "layer one") as Hrun by (vm_compute; reflexivity).
  apply (TarStream_integrity store_root (λ _ s, s) demo 0 "layer one"
    (TarStream store_root (λ _ s, s) 0 demo).2).
  destruct (TarStream store_root (λ _ s, s) 0 demo) as [r s]. simpl in Hrun. by rewrite Hrun.
Defined.

Lemma CreateRWLayerByGraphID_panics_witness :
  (CreateRWLayerByGraphID store_root "bare" "g" EmptyString demo_bare).1 = Panic nil_deref.
Proof.
  by rewrite (CreateRWLayerByGraphID_panics store_root demo_bare "bare" 0
    (mkMl "bare" "id0" EmptyString None {[ 1 ]}) "g" EmptyString
    ltac:(vm_compute; reflexivity) ltac:(vm_compute; reflexivity) eq_refl).
Defined.
