(* ===== verification/ContainerConfig.v ===== *)
(** * Container configurations

    [src/engine/api/types/container/config.go], the merge of an image's and a
    user's configuration in [src/engine/daemon/commit.go], and the comparison
    of the build cache in [src/engine/image/cache/compare.go]. *)

From S2P Require Import Prelude.

(** A Go slice or map of which the code tells nil from empty. *)
Definition slen {A} (s : option (list A)) : nat := length (default [] s).

(** [HealthConfig]; durations in nanoseconds. *)
Record HealthConfig := mkHealth {
  h_Test : list string;
  h_Interval : Z;
  h_Timeout : Z;
  h_StartPeriod : Z;
  h_Retries : Z;
}.

(** [Config]. *)
Record Config := mkConfig {
  Hostname : string;
  Domainname : string;
  User : string;
  AttachStdin : bool;
  AttachStdout : bool;
  AttachStderr : bool;
  ExposedPorts : option (gset string);
  Tty : bool;
  OpenStdin : bool;
  StdinOnce : bool;
  Env : option (list string);
  Cmd : option (list string);
  Healthcheck : option HealthConfig;
  ArgsEscaped : bool;
  cfg_Image : string;
  Volumes : option (gset string);
  WorkingDir : string;
  Entrypoint : option (list string);
  NetworkDisabled : bool;
  MacAddress : string;
  OnBuild : option (list string);
  Labels : option (gmap string string);
  StopSignal : string;
  StopTimeout : option Z;
  Shell : option (list string);
}.

(** [new(container.Config)]. *)
Definition zero_config : Config :=
  mkConfig EmptyString EmptyString EmptyString false false false None false false false None None
    None false EmptyString None EmptyString None false EmptyString None None EmptyString None None.

#[export] Instance HealthConfig_eq_dec : EqDecision HealthConfig.
Proof. solve_decision. Defined.
#[export] Instance Config_eq_dec : EqDecision Config.
Proof. solve_decision. Defined.

Definition set_empty (s : option (gset string)) : bool := bool_decide (size (default ∅ s) = 0).
Definition env_key (s : string) : string := nth 0 (GoString.split "=" s) EmptyString.

(** ** [merge] *)

Module Merge.
(** [if s == EmptyString ...]: a string the user left open. *)
Definition or_string (user image : string) : string :=
  if String.eqb user EmptyString then image else user.

Definition ExposedPorts_ (user image : option (gset string)) : option (gset string) :=
  if set_empty user then image
  else match image with
       | Some ps => Some (default ∅ user ∪ ps)
       | None => user
       end.

(** The loop over the environment of the image; the host is not Windows. *)
Definition env_step (env : list string) (imageEnv : string) : list string :=
  if existsb (λ userEnv, String.eqb (env_key imageEnv) (env_key userEnv)) env then env
  else env ++ [imageEnv].
Definition Env_ (user image : option (list string)) : option (list string) :=
  if slen user =? 0 then image else Some (foldl env_step (default [] user) (default [] image)).

Definition Labels_ (user image : option (gmap string string)) : option (gmap string string) :=
  Some (default ∅ user ∪ default ∅ image).

Definition or_Z (user image : Z) : Z := if (user =? 0)%Z then image else user.
Definition Healthcheck_ (user image : option HealthConfig) : option HealthConfig :=
  match image with
  | None => user
  | Some i =>
      match user with
      | None => Some i
      | Some u =>
          Some (mkHealth (if length (h_Test u) =? 0 then h_Test i else h_Test u)
                  (or_Z (h_Interval u) (h_Interval i)) (or_Z (h_Timeout u) (h_Timeout i))
                  (or_Z (h_StartPeriod u) (h_StartPeriod i)) (or_Z (h_Retries u) (h_Retries i)))
      end
  end.

Definition Volumes_ (user image : option (gset string)) : option (gset string) :=
  if set_empty user then image else Some (default ∅ user ∪ default ∅ image).

(** [merge]: the user's configuration afterwards. *)
Definition merge (u i : Config) : Config :=
  let noentry := slen (Entrypoint u) =? 0 in
  let takecmd := noentry && (slen (Cmd u) =? 0) in
  mkConfig (Hostname u) (Domainname u) (or_string (User u) (User i))
    (AttachStdin u) (AttachStdout u) (AttachStderr u)
    (ExposedPorts_ (ExposedPorts u) (ExposedPorts i))
    (Tty u) (OpenStdin u) (StdinOnce u)
    (Env_ (Env u) (Env i))
    (if takecmd then Cmd i else Cmd u)
    (Healthcheck_ (Healthcheck u) (Healthcheck i))
    (if takecmd then ArgsEscaped i else ArgsEscaped u)
    (cfg_Image u)
    (Volumes_ (Volumes u) (Volumes i))
    (or_string (WorkingDir u) (WorkingDir i))
    (match Entrypoint u with None => Entrypoint i | Some _ => Entrypoint u end)
    (NetworkDisabled u) (MacAddress u) (OnBuild u)
    (Labels_ (Labels u) (Labels i))
    (or_string (StopSignal u) (StopSignal i)) (StopTimeout u) (Shell u).
End Merge.

(** ** [compare] *)

Module Compare.
Fixpoint same_strings (a b : list string) : bool :=
  match a, b with
  | x :: a, y :: b => String.eqb x y && same_strings a b
  | _, _ => true
  end.
(** [b.Labels[k]] is the empty string for a missing key. *)
Definition label (b : gmap string string) (k : string) : string := default EmptyString (b !! k).
Definition labels_match (a b : gmap string string) : bool :=
  forallb (λ '(k, v), String.eqb v (label b k)) (map_to_list a).
Definition keys_in (a b : gset string) : bool := forallb (λ k, bool_decide (k ∈ b)) (elements a).

(** [compare]. *)
Definition compare (a b : option Config) : bool :=
  match a, b with
  | Some a, Some b =>
      if OpenStdin a || OpenStdin b then false
      else if negb (Bool.eqb (AttachStdout a) (AttachStdout b))
           || negb (Bool.eqb (AttachStderr a) (AttachStderr b))
           || negb (String.eqb (User a) (User b))
           || negb (Bool.eqb (OpenStdin a) (OpenStdin b))
           || negb (Bool.eqb (Tty a) (Tty b)) then false
      else if negb (slen (Cmd a) =? slen (Cmd b)) || negb (slen (Env a) =? slen (Env b))
           || negb (size (default ∅ (Labels a)) =? size (default ∅ (Labels b)))
           || negb (size (default ∅ (ExposedPorts a)) =? size (default ∅ (ExposedPorts b)))
           || negb (slen (Entrypoint a) =? slen (Entrypoint b))
           || negb (size (default ∅ (Volumes a)) =? size (default ∅ (Volumes b))) then false
      else same_strings (default [] (Cmd a)) (default [] (Cmd b))
           && same_strings (default [] (Env a)) (default [] (Env b))
           && labels_match (default ∅ (Labels a)) (default ∅ (Labels b))
           && keys_in (default ∅ (ExposedPorts a)) (default ∅ (ExposedPorts b))
           && same_strings (default [] (Entrypoint a)) (default [] (Entrypoint b))
           && keys_in (default ∅ (Volumes a)) (default ∅ (Volumes b))
  | _, _ => false
  end.
End Compare.

(** ** Properties of [merge] *)

Section MergeProofs.
Import Merge.
Implicit Types (u i : Config) (env : list string) (k : string).

(** The entry an environment gives a variable: the first one. *)
Definition getenv k env : option string := find (λ e, String.eqb k (env_key e)) env.

Lemma getenv_app k env1 env2 :
  getenv k (env1 ++ env2) = match getenv k env1 with Some e => Some e | None => getenv k env2 end.
Proof.
  induction env1 as [|e env1 IH]; [done|]. simpl. by destruct (String.eqb k (env_key e)).
Qed.
Lemma getenv_Some_key k env e : getenv k env = Some e → env_key e = k.
Proof. intros [_ Hk]%find_some. by apply String.eqb_eq in Hk. Qed.

Lemma existsb_getenv k env :
  existsb (λ e, String.eqb k (env_key e)) env = match getenv k env with Some _ => true | None => false end.
Proof. induction env as [|e env IH]; [done|]. simpl. by destruct (String.eqb k (env_key e)). Qed.

Lemma getenv_step k env e :
  getenv k (env_step env e) =
  match getenv k env with Some e' => Some e' | None => getenv k [e] end.
Proof.
  unfold env_step. rewrite existsb_getenv. destruct (getenv (env_key e) env) as [e'|] eqn:He.
  - destruct (getenv k env) eqn:Hk; [done|]. simpl.
    destruct (String.eqb_spec k (env_key e)) as [->|]; congruence.
  - by rewrite getenv_app.
Qed.
Lemma getenv_foldl k env1 env2 :
  getenv k (foldl env_step env1 env2) =
  match getenv k env1 with Some e => Some e | None => getenv k env2 end.
Proof.
  revert env1. induction env2 as [|e env2 IH]; intros env1; simpl; [by destruct (getenv k env1)|].
  rewrite IH, getenv_step. destruct (getenv k env1); [done|]. simpl.
  by destruct (String.eqb k (env_key e)).
Qed.

(** In the merged configuration every environment variable has the user's
    value, or the image's where the user sets none. *)
Theorem merge_env u i k :
  getenv k (default [] (Env (merge u i))) =
  match getenv k (default [] (Env u)) with
  | Some e => Some e
  | None => getenv k (default [] (Env i))
  end.
Proof.
  unfold merge, Env_, slen. simpl. destruct (default [] (Env u)) as [|e env]; [done|].
  cbn [length Nat.eqb default from_option]. apply getenv_foldl.
Qed.

Lemma env_step_present env e : is_Some (getenv (env_key e) env) → env_step env e = env.
Proof. unfold env_step. rewrite existsb_getenv. by intros [e' ->]. Qed.
Lemma foldl_present env1 env2 :
  (∀ e, e ∈ env2 → is_Some (getenv (env_key e) env1)) → foldl env_step env1 env2 = env1.
Proof.
  induction env2 as [|e env2 IH]; intros Hp; [done|]. simpl.
  rewrite env_step_present by (apply Hp; left). apply IH. intros e' He'. apply Hp. by right.
Qed.
Lemma getenv_elem e env : e ∈ env → is_Some (getenv (env_key e) env).
Proof.
  intros He. destruct (getenv (env_key e) env) eqn:Hg; [by eexists|].
  apply list_elem_of_In in He. pose proof (find_none _ _ Hg e He) as Hn. cbv beta in Hn. by rewrite String.eqb_refl in Hn.
Qed.

Lemma or_string_idem a b : or_string (or_string a b) b = or_string a b.
Proof.
  unfold or_string. destruct (String.eqb a EmptyString) eqn:Ha; [by destruct (String.eqb b _)|by rewrite Ha].
Qed.
Lemma or_Z_idem a b : or_Z (or_Z a b) b = or_Z a b.
Proof.
  unfold or_Z. destruct (a =? 0)%Z eqn:Ha; [by destruct (b =? 0)%Z|by rewrite Ha].
Qed.

Lemma set_empty_false s : set_empty s = false → ∃ X, s = Some X ∧ size X ≠ 0.
Proof.
  unfold set_empty. intros Hs%bool_decide_eq_false. destruct s as [X|]; [by exists X|].
  destruct Hs. apply (size_empty (C := gset string)).
Qed.
Lemma set_empty_union X Y : size X ≠ 0 → set_empty (Some (X ∪ Y)) = false.
Proof.
  intros HX. apply bool_decide_eq_false. simpl. intros Hz%size_empty_inv.
  apply HX. apply size_empty_iff. set_solver.
Qed.

Lemma ExposedPorts_idem (u i : option (gset string)) : ExposedPorts_ (ExposedPorts_ u i) i = ExposedPorts_ u i.
Proof.
  unfold ExposedPorts_ at 2 3. destruct (set_empty u) eqn:Hu.
  - unfold ExposedPorts_. destruct (set_empty i) eqn:Hi; [done|].
    destruct i; simpl; [by rewrite (idemp_L (∪))|done].
  - destruct i as [Y|]; unfold ExposedPorts_; [|by rewrite Hu].
    apply set_empty_false in Hu as (X&->&HX). rewrite set_empty_union by done. simpl.
    by rewrite <-(assoc_L (∪)), (idemp_L (∪)).
Qed.
Lemma Volumes_idem (u i : option (gset string)) : Volumes_ (Volumes_ u i) i = Volumes_ u i.
Proof.
  unfold Volumes_ at 2 3. destruct (set_empty u) eqn:Hu.
  - unfold Volumes_. destruct (set_empty i) eqn:Hi; [done|].
    apply set_empty_false in Hi as (X&->&_). simpl. by rewrite (idemp_L (∪)).
  - apply set_empty_false in Hu as (X&->&HX). simpl. unfold Volumes_.
    rewrite set_empty_union by done. simpl.
    by rewrite <-(assoc_L (∪)), (idemp_L (∪)).
Qed.
Lemma Env_idem (u i : option (list string)) : Env_ (Env_ u i) i = Env_ u i.
Proof.
  unfold Env_ at 2 3. destruct (Nat.eqb_spec (slen u) 0) as [Hu|Hu].
  - unfold Env_. destruct (Nat.eqb_spec (slen i) 0) as [Hi|Hi]; [done|].
    destruct i as [env|]; [|done]. simpl. f_equal. apply foldl_present. intros e. apply getenv_elem.
  - unfold Env_. destruct (Nat.eqb_spec (slen (Some (foldl env_step (default [] u) (default [] i)))) 0) as [Hz|_].
    + exfalso. unfold slen in *. simpl in Hz. destruct (default [] u) as [|e env] eqn:He; [done|].
      pose proof (getenv_foldl (env_key e) (e :: env) (default [] i)) as Hg.
      destruct (foldl _ _ _); [|done]. simpl in Hg. by rewrite String.eqb_refl in Hg.
    + simpl. f_equal. apply foldl_present. intros e He. rewrite getenv_foldl.
      destruct (getenv (env_key e) (default [] u)); [by eexists|]. by apply getenv_elem.
Qed.
Lemma Healthcheck_idem (u i : option HealthConfig) : Healthcheck_ (Healthcheck_ u i) i = Healthcheck_ u i.
Proof.
  destruct i as [hi|]; [|by destruct u]. destruct u as [hu|]; simpl.
  - rewrite !or_Z_idem. destruct (Nat.eqb_spec (length (h_Test hu)) 0) as [_|Hne];
      [by destruct (_ =? 0)|]. by apply Nat.eqb_neq in Hne as ->.
  - unfold or_Z. destruct hi as [t a b c d]. simpl.
    destruct (length t =? 0), (Z.eqb_spec a 0), (Z.eqb_spec b 0), (Z.eqb_spec c 0), (Z.eqb_spec d 0); by subst.
Qed.

(** Merging the image's configuration a second time changes nothing. *)
Theorem merge_idempotent u i : merge (merge u i) i = merge u i.
Proof.
  unfold merge. cbn -[ExposedPorts_ Env_ Volumes_ Healthcheck_ Labels_ or_string slen].
  rewrite !or_string_idem, ExposedPorts_idem, Env_idem, Volumes_idem, Healthcheck_idem.
  f_equal.
  - destruct (Entrypoint u) as [l|]; simpl;
      repeat match goal with |- context [slen ?s =? 0] => destruct (slen s =? 0) eqn:?; simpl end;
      congruence.
  - destruct (Entrypoint u) as [l|]; simpl;
      repeat match goal with |- context [slen ?s =? 0] => destruct (slen s =? 0) eqn:?; simpl end;
      congruence.
  - destruct (Entrypoint u); [done|]. by destruct (Entrypoint i).
  - unfold Labels_. simpl. f_equal. by rewrite <-(assoc_L (∪)), (idemp_L (∪)).
Qed.
End MergeProofs.

(** ** Properties of [compare] *)

Section CompareProofs.
Import Compare.
Implicit Types (a b : Config).

Lemma same_strings_eq (a b : list string) :
  length a = length b → same_strings a b = true ↔ a = b.
Proof.
  revert b. induction a as [|x a IH]; intros [|y b] Hl; try done. simpl in *.
  rewrite andb_true_iff, String.eqb_eq, IH by lia. intuition congruence.
Qed.

Lemma keys_in_spec (a b : gset string) : keys_in a b = true ↔ a ⊆ b.
Proof.
  unfold keys_in. rewrite forallb_forall. split.
  - intros Hk k Hin. apply elem_of_elements, list_elem_of_In in Hin. specialize (Hk k Hin).
    by apply bool_decide_eq_true in Hk.
  - intros Hsub k Hin. apply list_elem_of_In, elem_of_elements in Hin. by apply bool_decide_eq_true, Hsub.
Qed.
Lemma keys_in_eq (a b : gset string) : size a = size b → keys_in a b = true ↔ a = b.
Proof.
  intros Hs. rewrite keys_in_spec. split; [|by intros ->]. intros Hsub.
  apply leibniz_equiv, set_subseteq_size_equiv; [done|lia].
Qed.

Lemma labels_match_spec (a b : gmap string string) :
  labels_match a b = true ↔ ∀ k v, a !! k = Some v → label b k = v.
Proof.
  unfold labels_match. rewrite forallb_forall. split.
  - intros Hall k v Hk. apply elem_of_map_to_list, list_elem_of_In in Hk.
    specialize (Hall _ Hk). simpl in Hall. by apply String.eqb_eq in Hall.
  - intros Hall [k v] Hin. apply list_elem_of_In, elem_of_map_to_list in Hin.
    by apply String.eqb_eq, eq_sym, Hall.
Qed.
Lemma labels_match_eq (a b : gmap string string) :
  size a = size b → (∀ k, a !! k ≠ Some EmptyString) → labels_match a b = true ↔ a = b.
Proof.
  intros Hs Hne. rewrite labels_match_spec. split.
  - intros Hall. assert (a ⊆ b) as Hsub.
    { apply map_subseteq_spec. intros k v Hk. specialize (Hall k v Hk). unfold label in Hall.
      destruct (b !! k) as [v'|]; simpl in *; [congruence|]. subst. by destruct (Hne k). }
    apply map_subseteq_size_eq; [done|lia].
  - intros -> k v Hk. unfold label. by rewrite Hk.
Qed.

(** Where no label of the first configuration is empty, [compare] decides
    equality of the fields the build cache looks at, and refuses interactive
    configurations. *)
Theorem compare_exact a b :
  (∀ k, default ∅ (Labels a) !! k ≠ Some EmptyString) →
  compare (Some a) (Some b) = true ↔
  OpenStdin a = false ∧ OpenStdin b = false ∧
  AttachStdout a = AttachStdout b ∧ AttachStderr a = AttachStderr b ∧
  User a = User b ∧ Tty a = Tty b ∧
  default [] (Cmd a) = default [] (Cmd b) ∧ default [] (Env a) = default [] (Env b) ∧
  default ∅ (Labels a) = default ∅ (Labels b) ∧
  default ∅ (ExposedPorts a) = default ∅ (ExposedPorts b) ∧
  default [] (Entrypoint a) = default [] (Entrypoint b) ∧
  default ∅ (Volumes a) = default ∅ (Volumes b).
Proof.
  intros Hlab. unfold compare, slen.
  destruct (OpenStdin a), (OpenStdin b); cbn [orb]; try (intuition discriminate).
  destruct (Bool.eqb_spec (AttachStdout a) (AttachStdout b)), (Bool.eqb_spec (AttachStderr a) (AttachStderr b)),
    (String.eqb_spec (User a) (User b)), (Bool.eqb_spec (Tty a) (Tty b));
    cbn [negb orb Bool.eqb]; try (intuition congruence).
  destruct (Nat.eqb_spec (length (default [] (Cmd a))) (length (default [] (Cmd b)))) as [H1|H1];
    [|cbn [negb orb]; intuition congruence].
  destruct (Nat.eqb_spec (length (default [] (Env a))) (length (default [] (Env b)))) as [H2|H2];
    [|cbn [negb orb]; intuition congruence].
  destruct (Nat.eqb_spec (size (default ∅ (Labels a))) (size (default ∅ (Labels b)))) as [H3|H3];
    [|cbn [negb orb]; intuition congruence].
  destruct (Nat.eqb_spec (size (default ∅ (ExposedPorts a))) (size (default ∅ (ExposedPorts b)))) as [H4|H4];
    [|cbn [negb orb]; intuition congruence].
  destruct (Nat.eqb_spec (length (default [] (Entrypoint a))) (length (default [] (Entrypoint b)))) as [H5|H5];
    [|cbn [negb orb]; intuition congruence].
  destruct (Nat.eqb_spec (size (default ∅ (Volumes a))) (size (default ∅ (Volumes b)))) as [H6|H6];
    [|cbn [negb orb]; intuition congruence].
  cbn [negb orb]. rewrite !andb_true_iff.
  rewrite !same_strings_eq, labels_match_eq, !keys_in_eq by done. tauto.
Qed.

(** The defect of [compare]: a label with an empty value matches a
    configuration without that label, so configurations with different labels
    compare equal, in one direction only. *)
Theorem compare_empty_label :
  ∃ a b, compare (Some a) (Some b) = true ∧ compare (Some b) (Some a) = false ∧
         default ∅ (Labels a) ≠ default ∅ (Labels b).
Proof.
  set (with_label := λ k v, mkConfig EmptyString EmptyString EmptyString false false false None false
    false false None None None false EmptyString None EmptyString None false EmptyString None
    (Some {[ k := v ]}) EmptyString None None).
  exists (with_label "release" EmptyString), (with_label "stage" "test").
  split_and!; [by vm_compute|by vm_compute|]. simpl. intros Heq.
  assert (({[ "release" := EmptyString ]} : gmap string string) !! "release" = Some EmptyString) as Hl
    by apply lookup_singleton_eq.
  rewrite Heq in Hl. by rewrite lookup_singleton_ne in Hl.
Qed.
End CompareProofs.

Lemma compare_exact_witness :
  Compare.compare (Some zero_config) (Some zero_config) = true ∧
  (Compare.compare (Some zero_config) (Some zero_config) = true → Cmd zero_config = Cmd zero_config).
Proof.
  assert (∀ k, default (∅ : gmap string string) (Labels zero_config) !! k ≠ Some EmptyString) as Hlab
    by (intros k; simpl; by rewrite lookup_empty).
  split; [|done]. apply (compare_exact zero_config zero_config Hlab). split_and!; reflexivity.
Defined.
