(* ===== verification/ImageModel.v ===== *)
(** * Images

    [src/engine/image/image.go] and [rootfs.go]: the configuration of an image,
    its root file system and history, the image made on top of another; and the
    slices its layers are kept in, with the sharing Go's [append] leaves. *)

From S2P Require Import Prelude Digest Chain ContainerConfig.

(** [ID]. *)
Abbreviation ImageID := string (only parsing).

(** [RootFS]. *)
Record RootFS := mkRootFS { rf_Type : string; DiffIDs : list DiffID }.
Definition TypeLayers : string := "layers".
Definition typeLayersWithBase : string := "layers+base".
Definition NewRootFS : RootFS := mkRootFS TypeLayers [].
Definition rf_Append (r : RootFS) (id : DiffID) : RootFS := mkRootFS (rf_Type r) (DiffIDs r ++ [id]).
Definition rf_Clone (r : RootFS) : RootFS := mkRootFS (rf_Type r) (DiffIDs r).

(** [History]; times in nanoseconds. *)
Record History := mkHistory {
  hi_Created : Z;
  hi_Author : string;
  hi_CreatedBy : string;
  hi_Comment : string;
  EmptyLayerFlag : bool;
}.
#[export] Instance RootFS_eq_dec : EqDecision RootFS.
Proof. solve_decision. Defined.
#[export] Instance History_eq_dec : EqDecision History.
Proof. solve_decision. Defined.

(** [V1Image]. *)
Record V1Image := mkV1 {
  v1_ID : string;
  v1_Parent : string;
  Comment : string;
  Created : Z;
  Container : string;
  ContainerConfig_ : Config;
  DockerVersion : string;
  Author : string;
  img_Config : option Config;
  Architecture : string;
  OS : string;
  v1_Size : Z;
}.

(** [Image]. *)
Record Image := mkImage {
  img_V1 : V1Image;
  img_Parent : ImageID;
  img_RootFS : option RootFS;
  img_History : list History;
  OSVersion : string;
  OSFeatures : list string;
  rawJSON : string;
  computedID : ImageID;
}.

Definition zero_v1 : V1Image :=
  mkV1 EmptyString EmptyString EmptyString 0 EmptyString zero_config EmptyString EmptyString None
    EmptyString EmptyString 0.
(** [new(Image)]. *)
Definition zero_image : Image := mkImage zero_v1 EmptyString None [] EmptyString [] EmptyString EmptyString.

Definition set_parent (p : ImageID) (i : Image) : Image :=
  mkImage (img_V1 i) p (img_RootFS i) (img_History i) (OSVersion i) (OSFeatures i) (rawJSON i) (computedID i).
Definition set_computedID (id : ImageID) (i : Image) : Image :=
  mkImage (img_V1 i) (img_Parent i) (img_RootFS i) (img_History i) (OSVersion i) (OSFeatures i) (rawJSON i) id.
Definition set_rawJSON (s : string) (i : Image) : Image :=
  mkImage (img_V1 i) (img_Parent i) (img_RootFS i) (img_History i) (OSVersion i) (OSFeatures i) s (computedID i).
Definition set_RootFS (r : option RootFS) (i : Image) : Image :=
  mkImage (img_V1 i) (img_Parent i) r (img_History i) (OSVersion i) (OSFeatures i) (rawJSON i) (computedID i).

(** [ChildConfig]. *)
Record ChildConfig := mkChild {
  cc_ContainerID : string;
  cc_Author : string;
  cc_Comment : string;
  cc_DiffID : DiffID;
  cc_ContainerConfig : Config;
  cc_Config : option Config;
}.

(** A configuration the codec gives back keeps the layers, the history and the
    platform of the image it was made from. *)
Class ImageJSONLaws `{JSON Image} := {
  image_roundtrip : ∀ img s, json_marshal img = inr s →
    Forall (λ d, Digest.valid d = true) (default [] (DiffIDs <$> img_RootFS img)) →
    ∃ img', json_unmarshal s = inr img' ∧ img_RootFS img' = img_RootFS img ∧
      EmptyLayerFlag <$> img_History img' = EmptyLayerFlag <$> img_History img ∧
      OS (img_V1 img') = OS (img_V1 img);
}.

Section Host.
(** [runtime.GOOS], [runtime.GOARCH] and [dockerversion.Version]. *)
Context (GOOS GOARCH version : string).

Definition BaseImgArch (img : Image) : string :=
  if String.eqb (Architecture (img_V1 img)) EmptyString then GOARCH else Architecture (img_V1 img).
Definition OperatingSystem (img : Image) : string :=
  if String.eqb (OS (img_V1 img)) EmptyString then GOOS else OS (img_V1 img).

(** [RootFS.ChainID]. *)
Definition rf_ChainID (r : RootFS) : ChainID :=
  if String.eqb GOOS "windows" && String.eqb (rf_Type r) typeLayersWithBase then EmptyString
  else CreateChainID (DiffIDs r).

(** [NewHistory] at the time [now]. *)
Definition NewHistory (now : Z) (author comment createdBy : string) (isEmptyLayer : bool) : History :=
  mkHistory now author createdBy comment isEmptyLayer.

(** [NewChildImage] at the time [now]. *)
Definition NewChildImage (now : Z) (img : Image) (child : ChildConfig) (platform : string) : Image :=
  let isEmptyLayer := IsEmpty (cc_DiffID child) in
  let rootFS := match img_RootFS img with Some r => rf_Clone r | None => NewRootFS end in
  let rootFS := if negb isEmptyLayer then rf_Append rootFS (cc_DiffID child) else rootFS in
  let imgHistory := NewHistory now (cc_Author child) (cc_Comment child)
    (GoString.join " " (default [] (Cmd (cc_ContainerConfig child)))) isEmptyLayer in
  mkImage
    (mkV1 EmptyString EmptyString EmptyString (hi_Created imgHistory) (cc_ContainerID child)
       (cc_ContainerConfig child) version (cc_Author child) (cc_Config child)
       (BaseImgArch img) platform 0)
    EmptyString (Some rootFS) (img_History img ++ [imgHistory]) (OSVersion img) (OSFeatures img)
    EmptyString EmptyString.

(** [NewFromJSON]. *)
Definition NewFromJSON `{JSON Image} (src : string) : error + Image :=
  match json_unmarshal src with
  | inl e => inl e
  | inr img =>
      match img_RootFS img with
      | None => inl (Errorf "invalid image JSON, no RootFS key")
      | Some _ => inr (set_rawJSON src img)
      end
  end.
End Host.

(** ** Well-formed images *)

(** Every history entry that made a layer has one: what [Create] accepts. *)
Definition layer_count (h : list History) : nat := length (base.filter (λ x, EmptyLayerFlag x = false) h).
Definition history_ok (img : Image) : Prop :=
  ∃ r, img_RootFS img = Some r ∧ layer_count (img_History img) ≤ length (DiffIDs r).

Lemma layer_count_app h1 h2 : layer_count (h1 ++ h2) = layer_count h1 + layer_count h2.
Proof. unfold layer_count. by rewrite filter_app, length_app. Qed.

(** A child image extends its parent: its layers are the parent's, with the
    new one on top unless it is the empty layer, its chain identifier follows
    from the parent's, its history gains one entry that says which, and the
    history still has no more layers than the root file system. *)
Theorem NewChildImage_extends GOARCH version now img r child platform :
  img_RootFS img = Some r → layer_count (img_History img) ≤ length (DiffIDs r) →
  let c := NewChildImage GOARCH version now img child platform in
  ∃ r' h, img_RootFS c = Some r' ∧ img_History c = img_History img ++ [h] ∧
    EmptyLayerFlag h = IsEmpty (cc_DiffID child) ∧
    DiffIDs r' = DiffIDs r ++ (if IsEmpty (cc_DiffID child) then [] else [cc_DiffID child]) ∧
    CreateChainID (DiffIDs r') =
      (if IsEmpty (cc_DiffID child) then CreateChainID (DiffIDs r)
       else createChainIDFromParent (CreateChainID (DiffIDs r)) [cc_DiffID child]) ∧
    history_ok c.
Proof.
  intros Hr Hc c. unfold c, NewChildImage. rewrite Hr. simpl.
  eexists _, _. split_and!; [reflexivity|reflexivity|done|..]; unfold history_ok; simpl.
  - destruct (IsEmpty _); simpl; [by rewrite app_nil_r|done].
  - destruct (IsEmpty _); simpl; [done|]. unfold CreateChainID. apply createChainIDFromParent_app.
  - eexists. split; [done|]. rewrite layer_count_app. unfold layer_count at 2.
    destruct (IsEmpty _); simpl; rewrite ?length_app; simpl; lia.
Qed.

(** ** Slices *)

Module Slices.
(** Backing arrays, as long as their capacity, and slices of them. *)
Abbreviation arrays := (gmap nat (list DiffID)).
Record slice := mkSlice { s_arr : nat; s_len : nat; s_cap : nat }.

Definition read (h : arrays) (s : slice) : list DiffID := take (s_len s) (default [] (h !! s_arr s)).
Definition slice_ok (h : arrays) (s : slice) : Prop :=
  ∃ a, h !! s_arr s = Some a ∧ length a = s_cap s ∧ s_len s ≤ s_cap s.

(** [append(s, x)]: in place where there is room, otherwise into a new array
    whose capacity [grow] chooses. *)
Definition append (grow : nat → nat) (h : arrays) (s : slice) (x : DiffID) : arrays * slice :=
  if s_len s <? s_cap s then
    (alter (<[s_len s := x]>) (s_arr s) h, mkSlice (s_arr s) (S (s_len s)) (s_cap s))
  else
    let arr := fresh (dom h) in
    let a := read h s ++ [x] in
    (<[arr := a ++ replicate (grow (s_cap s) - length a) EmptyString]> h,
     mkSlice arr (S (s_len s)) (Nat.max (grow (s_cap s)) (length a))).

(** [RootFS.Clone] copies the slice header: [append] without elements returns
    its argument. *)
Definition Clone (s : slice) : slice := s.
(** [RootFS.Append]. *)
Definition Append (grow : nat → nat) (h : arrays) (s : slice) (id : DiffID) : arrays * slice :=
  append grow h s id.
End Slices.

Section SliceProofs.
Import Slices.
Context (grow : nat → nat).
Implicit Types (h : arrays) (s : slice).

Lemma append_read h s x :
  slice_ok h s → read (append grow h s x).1 (append grow h s x).2 = read h s ++ [x].
Proof.
  intros (a&Ha&Hlen&Hle). unfold append. destruct (Nat.ltb_spec (s_len s) (s_cap s)); unfold read; simpl.
  - rewrite lookup_alter_eq, Ha. simpl. rewrite take_S_r with (x := x).
    + by rewrite take_insert_ge.
    + apply list_lookup_insert_eq. lia.
  - rewrite lookup_insert_eq. simpl. rewrite Ha. simpl. rewrite take_app_le.
    + rewrite take_ge; [done|]. rewrite length_app, length_take. simpl. lia.
    + rewrite length_app, length_take. simpl. lia.
Qed.

(** Appending to a clone gives the clone its layer and leaves the value of
    the original alone. *)
Theorem clone_append_value h s x :
  slice_ok h s →
  let '(h', c) := Append grow h (Clone s) x in
  read h' c = read h s ++ [x] ∧ read h' s = read h s.
Proof.
  intros Hok. pose proof (append_read h s x Hok) as Hr. unfold Append, Clone.
  destruct (append grow h s x) as [h' c] eqn:Happ. simpl in Hr. split; [done|].
  destruct Hok as (a&Ha&Hlen&Hle). unfold append in Happ.
  destruct (Nat.ltb_spec (s_len s) (s_cap s)); simplify_eq/=; unfold read.
  - rewrite lookup_alter_eq, Ha. simpl. by rewrite take_insert_ge.
  - rewrite lookup_insert_ne; [done|]. intros Hf. apply (is_fresh (dom h)). rewrite Hf.
    apply elem_of_dom. by eexists.
Qed.

(** The defect of [Clone]: it shares the backing array.  Two children made
    from one image whose layer slice has room to spare write their top layer
    to the same place: the first child ends up with the layer of the second. *)
Theorem clone_shares_array h s d1 d2 :
  slice_ok h s → s_len s < s_cap s →
  let '(h1, c1) := Append grow h (Clone s) d1 in
  let '(h2, c2) := Append grow h1 (Clone s) d2 in
  read h2 c1 = read h s ++ [d2] ∧ c1 = c2.
Proof.
  intros (a&Ha&Hlen&Hle) Hroom. unfold Append, Clone, append.
  assert ((s_len s <? s_cap s) = true) as -> by (by apply Nat.ltb_lt). split; [|done].
  unfold read. simpl. rewrite !lookup_alter_eq, Ha. simpl.
  rewrite list_insert_insert_eq. rewrite take_S_r with (x := d2).
  - by rewrite take_insert_ge.
  - apply list_lookup_insert_eq. lia.
Qed.
End SliceProofs.

(** ** Instances of the theorems *)

(** An array with room for two layers, and the slice of its first element. *)
Definition two_places : Slices.arrays := {[ 0 := ["sha256:base"; EmptyString] ]}.
Definition first_place : Slices.slice := Slices.mkSlice 0 1 2.

Lemma NewChildImage_extends_witness :
  let img := set_RootFS (Some (mkRootFS TypeLayers ["sha256:base"])) zero_image in
  let child := mkChild EmptyString "author" "comment" "sha256:top" zero_config None in
  history_ok (NewChildImage "amd64" "18.09" 5 img child "linux").
Proof.
  intros img child.
  destruct (NewChildImage_extends "amd64" "18.09" 5 img (mkRootFS TypeLayers ["sha256:base"]) child "linux")
    as (r'&h&_&_&_&_&_&Hok); [reflexivity|vm_compute; lia|exact Hok].
Defined.

Lemma clone_append_value_witness :
  let '(h', c) := Slices.Append S two_places (Slices.Clone first_place) "sha256:top" in
  Slices.read h' c = ["sha256:base"; "sha256:top"] ∧ Slices.read h' first_place = ["sha256:base"].
Proof.
  assert (Slices.slice_ok two_places first_place) as Hok by (eexists; split_and!; [reflexivity|reflexivity|simpl; lia]).
  exact (clone_append_value S two_places first_place "sha256:top" Hok).
Defined.

Lemma clone_shares_array_witness :
  let '(h1, c1) := Slices.Append S two_places (Slices.Clone first_place) "sha256:one" in
  let '(h2, c2) := Slices.Append S h1 (Slices.Clone first_place) "sha256:two" in
  Slices.read h2 c1 = ["sha256:base"; "sha256:two"] ∧ c1 = c2.
Proof.
  assert (Slices.slice_ok two_places first_place) as Hok by (eexists; split_and!; [reflexivity|reflexivity|simpl; lia]).
  assert (Slices.s_len first_place < Slices.s_cap first_place) as Hroom by (simpl; lia).
  exact (clone_shares_array S two_places first_place "sha256:one" "sha256:two" Hok Hroom).
Defined.
