(* ===== verification/ImageFS.v ===== *)
(** * The persistence of images

    [src/engine/image/fs.go]: the interface [StoreBackend] of the image store,
    what the store relies on, and its implementation by files, which meets it
    under any schedule of I/O failures. *)

From S2P Require Import Prelude FileSys FileSysWf Digest DigestSet Chain.

(** [StoreBackend]; [be_Walk] gives the digests the callback is called with. *)
Class Backend (F : Type) := {
  be_Walk : M F (list string);
  be_Get : string → M F string;
  be_Set : string → M F string;
  be_Delete : string → M F ();
  be_SetMetadata : string → string → string → M F ();
  be_GetMetadata : string → string → M F string;
  be_DeleteMetadata : string → string → M F ();
}.

(** ** The files *)

Definition contentDirName : string := "content".
Definition metadataDirName : string := "metadata".

Module ImageFS.
Section FSBackend.
(** [fs.root]. *)
Context (root : path).

(** [newFSStore]. *)
Definition wrap_error {A} (msg : string) (m : M FS A) : M FS A :=
  r ← attempt m;
  match r with inl e => fail (Wrap e msg) | inr a => mret a end.
Definition newFSStore : M FS () :=
  _ ← wrap_error "failed to create storage backend"
        (Os.MkdirAll (Filepath.Join root [contentDirName; Digest.Canonical]));
  wrap_error "failed to create storage backend"
    (Os.MkdirAll (Filepath.Join root [metadataDirName; Digest.Canonical])).

Definition contentFile (dgst : string) : M FS path :=
  alg ← of_outcome (Digest.Algorithm dgst);
  hex ← of_outcome (Digest.Hex dgst);
  mret (Filepath.Join root [contentDirName; alg; hex]).
Definition metadataDir (dgst : string) : M FS path :=
  alg ← of_outcome (Digest.Algorithm dgst);
  hex ← of_outcome (Digest.Hex dgst);
  mret (Filepath.Join root [metadataDirName; alg; hex]).

(** The directory entries [Walk] calls its function for. *)
Definition Walk : M FS (list string) :=
  dir ← Os.ReadDir (Filepath.Join root [contentDirName; Digest.Canonical]);
  mret (base.filter (λ dgst, Digest.valid dgst = true)
          ((λ v, Digest.NewDigestFromHex Digest.Canonical v.1) <$> dir)).

Definition get (dgst : string) : M FS string :=
  f ← contentFile dgst;
  content ← wrap_error ("failed to get digest " +:+ dgst) (Os.ReadFile f);
  _ ← guard_err (String.eqb (Digest.FromBytes content) dgst) (Errorf ("failed to verify: " +:+ dgst));
  mret content.
Definition Get (dgst : string) : M FS string := get dgst.

Definition Set_ (data : string) : M FS string :=
  _ ← guard_err (negb (String.eqb data EmptyString)) (Errorf "invalid empty data");
  let dgst := Digest.FromBytes data in
  f ← contentFile dgst;
  _ ← wrap_error "failed to write digest data" (Ioutils.AtomicWriteFile f data);
  mret dgst.

Definition Delete (dgst : string) : M FS () :=
  d ← metadataDir dgst;
  _ ← Os.RemoveAll d;
  f ← contentFile dgst;
  Os.Remove f.

Definition SetMetadata (dgst key data : string) : M FS () :=
  _ ← get dgst;
  baseDir ← metadataDir dgst;
  _ ← Os.MkdirAll baseDir;
  d ← metadataDir dgst;
  Ioutils.AtomicWriteFile (Filepath.Join d [key]) data.

Definition GetMetadata (dgst key : string) : M FS string :=
  _ ← get dgst;
  d ← metadataDir dgst;
  wrap_error "failed to read metadata" (Os.ReadFile (Filepath.Join d [key])).

Definition DeleteMetadata (dgst key : string) : M FS () :=
  d ← metadataDir dgst;
  Os.RemoveAll (Filepath.Join d [key]).

#[export] Instance fs_backend : Backend FS := {
  be_Walk := Walk;
  be_Get := Get;
  be_Set := Set_;
  be_Delete := Delete;
  be_SetMetadata := SetMetadata;
  be_GetMetadata := GetMetadata;
  be_DeleteMetadata := DeleteMetadata;
}.
End FSBackend.
End ImageFS.

(** ** What the image store relies on *)

(** A digest of the canonical algorithm. *)
Definition image_digest (d : string) : Prop := ∃ hex,
  d = Digest.NewDigestFromHex Digest.Canonical hex ∧ String.length hex = 64 ∧
  GoString.all_chars GoString.is_hex hex = true.

(** The keys under which the store keeps metadata. *)
Definition meta_key (k : string) : Prop := k = "parent" ∨ k = "lastUpdated".

(** A backend seen as a map from digests to contents and from digests and keys
    to metadata. *)
Class BackendView (F : Type) := {
  be_ok : F → Prop;
  be_content : F → string → option string;
  be_meta : F → string → string → option string;
}.

Section View.
Context {F : Type} `{BackendView F}.
Implicit Types (s : F) (d k : string).

(** The view has not changed. *)
Definition same_view s s' : Prop :=
  be_ok s' ∧ (∀ x, image_digest x → be_content s' x = be_content s x) ∧
  (∀ x y, image_digest x → meta_key y → be_meta s' x y = be_meta s x y).
(** The content of [d] is now [v]. *)
Definition content_set s s' d (v : option string) : Prop :=
  be_ok s' ∧
  (∀ x, image_digest x → be_content s' x = if decide (x = d) then v else be_content s x) ∧
  (∀ x y, image_digest x → meta_key y → be_meta s' x y = be_meta s x y).
(** The metadata of [d] under [k] is now [v]. *)
Definition meta_set s s' d k (v : option string) : Prop :=
  be_ok s' ∧ (∀ x, image_digest x → be_content s' x = be_content s x) ∧
  (∀ x y, image_digest x → meta_key y →
     be_meta s' x y = if decide (x = d ∧ y = k) then v else be_meta s x y).
(** Nothing but the metadata of [d] has changed. *)
Definition others_kept s s' d : Prop :=
  be_ok s' ∧ (∀ x, image_digest x → x ≠ d → be_content s' x = be_content s x) ∧
  (∀ x y, image_digest x → meta_key y → x ≠ d → be_meta s' x y = be_meta s x y).

(** An outcome from the state [s]: no panic, a failure changes nothing. *)
Definition outcome_ok {A : Type} s (r : outcome A * F) (Q : A → F → Prop) : Prop :=
  match r with
  | (Ok a, s') => Q a s'
  | (Err _, s') => same_view s s'
  | (Panic _, _) => False
  end.
End View.

Class BackendLaws (F : Type) `{Backend F} `{BackendView F} := {
  be_Walk_spec s : be_ok s →
    outcome_ok s (be_Walk s) (λ ds s', same_view s s' ∧ Forall image_digest ds);
  be_Get_spec s d : be_ok s → Digest.valid d = true →
    outcome_ok s (be_Get d s) (λ c s', same_view s s' ∧ be_content s d = Some c ∧ Digest.FromBytes c = d);
  (** Reading changes nothing, under any name. *)
  be_Get_reads s d : be_ok s → same_view s (be_Get d s).2;
  be_GetMetadata_reads s d k : be_ok s → same_view s (be_GetMetadata d k s).2;
  be_Set_spec s data : be_ok s →
    outcome_ok s (be_Set data s) (λ d s', d = Digest.FromBytes data ∧ content_set s s' d (Some data));
  be_SetMetadata_spec s d k v : be_ok s → image_digest d → meta_key k →
    outcome_ok s (be_SetMetadata d k v s) (λ _ s', meta_set s s' d k (Some v));
  be_GetMetadata_spec s d k : be_ok s → image_digest d → meta_key k →
    outcome_ok s (be_GetMetadata d k s) (λ v s', same_view s s' ∧ be_meta s d k = Some v);
  be_DeleteMetadata_spec s d k : be_ok s → image_digest d → meta_key k →
    outcome_ok s (be_DeleteMetadata d k s) (λ _ s', meta_set s s' d k None);
  be_Delete_spec s d : be_ok s → image_digest d →
    match be_Delete d s with
    | (Ok _, s') => others_kept s s' d ∧ be_content s' d = None ∧ ∀ y, meta_key y → be_meta s' d y = None
    | (Err _, s') => others_kept s s' d
    | (Panic _, _) => False
    end;
}.

(** ** The files implement the interface *)

Section FSView.
Context (root : path).
Implicit Types (t : gmap path node) (d x y : string).

Definition hex_part d : string := GoString.drop 7 d.
Definition content_path d : path := root ++ [contentDirName; Digest.Canonical; hex_part d].
Definition meta_dir d : path := root ++ [metadataDirName; Digest.Canonical; hex_part d].
Definition meta_path d y : path := root ++ [metadataDirName; Digest.Canonical; hex_part d; y].
Definition file_at t (p : path) : option string :=
  match t !! p with Some (File s) => Some s | _ => None end.

#[export] Instance fs_view : BackendView FS := {
  be_ok s := wf_tree (nodes s);
  be_content s d := file_at (nodes s) (content_path d);
  be_meta s d y := file_at (nodes s) (meta_path d y);
}.

Lemma hex_part_digest hex : hex_part (Digest.NewDigestFromHex Digest.Canonical hex) = hex.
Proof. apply (drop_NewDigest Digest.Canonical hex). Qed.
Lemma hex_part_inj x d : image_digest x → image_digest d → hex_part x = hex_part d → x = d.
Proof. intros (hx&->&_) (hd&->&_). rewrite !hex_part_digest. by intros ->. Qed.
Lemma image_digest_hex d :
  image_digest d → Digest.Algorithm d = Ok Digest.Canonical ∧ Digest.Hex d = Ok (hex_part d) ∧
    Filepath.plain (hex_part d) = true ∧ GoString.all_chars GoString.is_hex (hex_part d) = true.
Proof.
  intros (hex&->&Hl&Hh). rewrite hex_part_digest.
  rewrite (Algorithm_NewDigest Digest.Canonical hex), (Hex_NewDigest Digest.Canonical hex) by done.
  split_and!; [done|done| |done]. apply Filepath.hex_plain; [done|]. by intros ->.
Qed.
Lemma FromBytes_image_digest data : image_digest (Digest.FromBytes data).
Proof. eexists. split; [reflexivity|]. split; [apply Sha256.sum_length|apply Sha256.sum_hex]. Qed.
Lemma valid_image_digest hex :
  Digest.valid (Digest.NewDigestFromHex Digest.Canonical hex) = true →
  image_digest (Digest.NewDigestFromHex Digest.Canonical hex).
Proof.
  unfold Digest.valid, Digest.Validate.
  rewrite (index_NewDigest Digest.Canonical hex), take_NewDigest, drop_NewDigest by done.
  destruct (_ || _); [done|]. change (Digest.Available Digest.Canonical) with true. cbn [negb].
  unfold Digest.alg_Validate. change (Digest.Size Digest.Canonical) with (Some 32). cbv iota.
  destruct (Nat.eqb_spec (2 * 32) (String.length hex)) as [Hl|]; cbn [negb]; [|done].
  destruct (GoString.all_chars GoString.is_hex hex) eqn:Hh; [|done]. intros _. by exists hex.
Qed.

(** The paths the view looks at are all different, and different from the
    temporary names of the atomic writer. *)
Lemma content_path_inj x d : image_digest x → image_digest d → content_path x = content_path d → x = d.
Proof. intros Hx Hd [= Heq]%(inj (app root)). by apply hex_part_inj. Qed.
Lemma meta_path_inj x y d k :
  image_digest x → image_digest d → meta_path x y = meta_path d k → x = d ∧ y = k.
Proof. intros Hx Hd [= Heq ->]%(inj (app root)). split; [by apply hex_part_inj|done]. Qed.
Lemma content_meta x d y : content_path x ≠ meta_path d y.
Proof. by intros [=]%(inj (app root)). Qed.

Lemma tmp_not_content t p x : image_digest x → tmp_path t p ≠ content_path x.
Proof.
  intros Hx Heq. destruct (tmp_path_name t p) as [k Hk]. rewrite Hk in Heq.
  apply (f_equal base_name) in Heq. rewrite base_name_snoc in Heq.
  unfold content_path in Heq. change (root ++ [contentDirName; Digest.Canonical; hex_part x])
    with (root ++ [contentDirName; Digest.Canonical] ++ [hex_part x]) in Heq.
  rewrite app_assoc, base_name_snoc in Heq. destruct (image_digest_hex x Hx) as (_&_&_&Hh).
  rewrite <-Heq in Hh. by rewrite app_cons in Hh.
Qed.
Lemma tmp_not_meta t p x y : meta_key y → tmp_path t p ≠ meta_path x y.
Proof.
  intros Hy Heq. destruct (tmp_path_name t p) as [k Hk]. rewrite Hk in Heq.
  apply (f_equal base_name) in Heq. rewrite base_name_snoc in Heq.
  unfold meta_path in Heq. change (root ++ [metadataDirName; Digest.Canonical; hex_part x; y])
    with (root ++ [metadataDirName; Digest.Canonical; hex_part x] ++ [y]) in Heq.
  rewrite app_assoc, base_name_snoc, app_cons in Heq. by destruct Hy as [->| ->].
Qed.

(** ** The operations on the tree *)

Lemma contentFile_ok d s : image_digest d → ImageFS.contentFile root d s = (Ok (content_path d), s).
Proof.
  intros Hd. destruct (image_digest_hex d Hd) as (Ha&Hh&Hp&_).
  unfold ImageFS.contentFile, mbind, M_bind, of_outcome. rewrite Ha, Hh.
  unfold mret, M_ret. rewrite Filepath.Join_plain by (by repeat constructor). done.
Qed.
Lemma metadataDir_ok d s : image_digest d → ImageFS.metadataDir root d s = (Ok (meta_dir d), s).
Proof.
  intros Hd. destruct (image_digest_hex d Hd) as (Ha&Hh&Hp&_).
  unfold ImageFS.metadataDir, mbind, M_bind, of_outcome. rewrite Ha, Hh.
  unfold mret, M_ret. rewrite Filepath.Join_plain by (by repeat constructor). done.
Qed.
Lemma meta_key_plain k : meta_key k → Filepath.plain k = true.
Proof. by intros [->| ->]. Qed.
Lemma Join_meta d k : meta_key k → Filepath.Join (meta_dir d) [k] = meta_path d k.
Proof.
  intros Hk. rewrite Filepath.Join_plain by (constructor; [by apply meta_key_plain|done]).
  unfold meta_dir, meta_path. by rewrite <-app_assoc.
Qed.

Lemma tt_value {A B : Type} (m : M FS A) (a : A) (k : A → M FS B) (P : gmap path node → Prop) Q E :
  (∀ s, m s = (Ok a, s)) → ttriple P (k a) Q E → ttriple P (m ≫= k) Q E.
Proof. intros Hm Hk s Hs. unfold mbind, M_bind. rewrite Hm. by apply Hk. Qed.
Lemma tt_wrap {A : Type} (msg : string) (m : M FS A) (P : gmap path node → Prop) Q E :
  ttriple P m Q (λ e, E (Wrap e msg)) → ttriple P (ImageFS.wrap_error msg m) Q E.
Proof.
  intros Hm. unfold ImageFS.wrap_error.
  apply (ttriple_bind _ _ _ (λ r t, match r with inl e => E (Wrap e msg) t | inr a => Q a t end)).
  - by apply ttriple_attempt.
  - intros [e|a]; [by apply ttriple_fail|by apply ttriple_ret].
Qed.

Lemma image_digest_valid d : image_digest d → Digest.valid d = true.
Proof. intros (hex&->&?&?). by apply valid_canonical. Qed.
Lemma valid_alg_plain alg hex :
  Digest.alg_Validate alg hex = None → Filepath.plain alg = true ∧ Filepath.plain hex = true.
Proof.
  unfold Digest.alg_Validate. destruct (Digest.Size alg) as [n|] eqn:Hs; [|done].
  assert (Filepath.plain alg = true ∧ n ≠ 0) as [Ha Hn].
  { unfold Digest.Size in Hs. destruct (String.eqb_spec alg "sha256") as [->|_]; [by split; [|simplify_eq]|].
    destruct (String.eqb_spec alg "sha384") as [->|_]; [by split; [|simplify_eq]|].
    destruct (String.eqb_spec alg "sha512") as [->|_]; [by split; [|simplify_eq]|done]. }
  destruct (Nat.eqb_spec (2 * n) (String.length hex)) as [Hl|]; simpl; [|done].
  destruct (GoString.all_chars GoString.is_hex hex) eqn:Hh; [|done]. intros _. split; [done|].
  apply Filepath.hex_plain; [done|]. intros ->. simpl in Hl. lia.
Qed.
Lemma contentFile_valid d :
  Digest.valid d = true →
  ∃ p, p ≠ [] ∧ (∀ s, ImageFS.contentFile root d s = (Ok p, s)) ∧ (image_digest d → p = content_path d).
Proof.
  intros Hv. destruct (valid_parts d Hv) as (alg&hex&_&_&Ha&Hh&Hav&Hal).
  assert (∀ s, ImageFS.contentFile root d s = (Ok (Filepath.Join root [contentDirName; alg; hex]), s)) as Hc.
  { intros s. unfold ImageFS.contentFile, mbind, M_bind, of_outcome. by rewrite Ha, Hh. }
  exists (Filepath.Join root [contentDirName; alg; hex]). split_and!; [|done|].
  - rewrite Filepath.Join_plain by (destruct (valid_alg_plain _ _ Hal); by repeat constructor).
    by destruct root.
  - intros Hd. pose proof (contentFile_ok d {| nodes := ∅; faults := [] |} Hd) as Hok. rewrite Hc in Hok. congruence.
Qed.
Lemma get_spec t d :
  Digest.valid d = true →
  ttriple (λ t', t' = t) (ImageFS.get root d)
    (λ c t', t' = t ∧ file_at t (content_path d) = Some c ∧ Digest.FromBytes c = d) (λ _ t', t' = t).
Proof.
  intros Hd. destruct (contentFile_valid d Hd) as (p&Hp&Hc&Himg). unfold ImageFS.get. eapply tt_value; [exact Hc|].
  apply (ttriple_bind _ _ _ (λ c t', t' = t ∧ file_at t p = Some c)).
  - apply tt_wrap, ttriple_syscall; [done|]. intros ? ->. unfold file_at.
    rewrite node_at_ne by done. by destruct (t !! p) as [[]|].
  - intros c. apply (ttriple_bind _ _ _ (λ _ t', t' = t ∧ file_at t (content_path d) = Some c ∧ Digest.FromBytes c = d)).
    + destruct (String.eqb_spec (Digest.FromBytes c) d) as [Heq|]; simpl; [apply ttriple_ret|apply ttriple_fail].
      * intros t' (->&Hf). rewrite <-Himg by (rewrite <-Heq; apply FromBytes_image_digest). by split_and!.
      * by intros t' (->&_).
    + intros _. by apply ttriple_ret.
Qed.

Lemma Set_spec t data :
  wf_tree t →
  ttriple (λ t', t' = t) (ImageFS.Set_ root data)
    (λ d t', d = Digest.FromBytes data ∧ t' = <[content_path d := File data]> t)
    (λ _, leftover t (content_path (Digest.FromBytes data))).
Proof.
  intros Hwf. unfold ImageFS.Set_.
  apply (ttriple_bind _ _ _ (λ _ t', t' = t)).
  { destruct (negb _); simpl; [by apply ttriple_ret|apply ttriple_fail; intros ? ->; by left]. }
  intros _. eapply tt_value; [intros s; apply contentFile_ok, FromBytes_image_digest|].
  apply (ttriple_bind _ _ _ (λ _ t', t' = <[content_path (Digest.FromBytes data) := File data]> t)).
  - apply tt_wrap. apply AtomicWriteFile_spec; [done|]. unfold content_path. by destruct root.
  - intros _. apply ttriple_ret. by intros t' ->.
Qed.

Definition same_files t t1 : Prop := wf_tree t1 ∧ ∀ p, file_at t1 p = file_at t p.

Lemma mkdirs_files t pre todo p : file_at (Os.mkdirs t pre todo).2 p = file_at t p.
Proof.
  revert t pre. induction todo as [|c todo IH]; intros t pre; simpl; [done|].
  destruct (node_at t (pre ++ [c])) as [[]|] eqn:Hn; [apply IH|done|done|].
  rewrite IH. unfold file_at. rewrite lookup_insert. case_decide as Heq; [|done]. subst p.
  rewrite node_at_ne in Hn by (by destruct pre). by rewrite Hn.
Qed.
Lemma MkdirAll_spec t p :
  wf_tree t →
  ttriple (λ t', t' = t) (Os.MkdirAll p) (λ _, same_files t) (λ _, same_files t).
Proof.
  intros Hwf. apply ttriple_syscall; [by intros ? ->; split|]. intros ? ->.
  pose proof (wf_tree_mkdirs t [] p Hwf eq_refl) as Hk. pose proof (mkdirs_files t [] p) as Hf.
  destruct (Os.mkdirs t [] p) as [[] t']; simpl in *; [by split..|done].
Qed.

Lemma file_at_insert t p q v :
  file_at (<[p := File v]> t) q = if decide (q = p) then Some v else file_at t q.
Proof.
  unfold file_at. rewrite lookup_insert. by repeat case_decide; congruence.
Qed.

Lemma SetMetadata_spec t d k v :
  wf_tree t → image_digest d → meta_key k →
  ttriple (λ t', t' = t) (ImageFS.SetMetadata root d k v)
    (λ _ t', ∃ t1, same_files t t1 ∧ t' = <[meta_path d k := File v]> t1)
    (λ _ t', ∃ t1, same_files t t1 ∧ leftover t1 (meta_path d k) t').
Proof.
  intros Hwf Hd Hk. unfold ImageFS.SetMetadata.
  assert (∀ t1, same_files t t1 → ∃ t2, same_files t t2 ∧ leftover t2 (meta_path d k) t1) as Hleft.
  { intros t1 Ht1. exists t1. split; [done|by left]. }
  apply (ttriple_bind _ _ _ (λ _ t', t' = t)).
  { eapply ttriple_conseq; [by apply (get_spec t d), image_digest_valid|done|by intros c t' (->&_)|].
    intros e t' ->. by apply Hleft. }
  intros _. eapply tt_value; [intros s; by apply metadataDir_ok|].
  apply (ttriple_bind _ _ _ (λ _, same_files t)).
  { eapply ttriple_conseq; [by apply (MkdirAll_spec t)|done|done|]. intros e t'. apply Hleft. }
  intros _. eapply tt_value; [intros s; by apply metadataDir_ok|]. rewrite Join_meta by done.
  intros s Hs. assert (meta_path d k ≠ []) as Hne by (unfold meta_path; by destruct root).
  pose proof (AtomicWriteFile_spec (nodes s) (meta_path d k) v (proj1 Hs) Hne s eq_refl) as Hw.
  destruct (Ioutils.AtomicWriteFile _ _ s) as [[]]; [by exists (nodes s)..|done].
Qed.

Lemma GetMetadata_spec t d k :
  image_digest d → meta_key k →
  ttriple (λ t', t' = t) (ImageFS.GetMetadata root d k)
    (λ v t', t' = t ∧ file_at t (meta_path d k) = Some v) (λ _ t', t' = t).
Proof.
  intros Hd Hk. unfold ImageFS.GetMetadata. apply (ttriple_bind _ _ _ (λ _ t', t' = t)).
  { eapply ttriple_conseq; [by apply (get_spec t d), image_digest_valid|done|by intros c t' (->&_)|done]. }
  intros _. eapply tt_value; [intros s; by apply metadataDir_ok|]. rewrite Join_meta by done.
  apply tt_wrap, ttriple_syscall; [done|]. intros ? ->. unfold file_at.
  rewrite node_at_ne by (unfold meta_path; by destruct root). by destruct (t !! meta_path d k) as [[]|].
Qed.

Definition removed t (p : path) : gmap path node := filter (λ kv, Os.below p kv.1 = false) t.
Lemma file_at_removed t p q : file_at (removed t p) q = if Os.below p q then None else file_at t q.
Proof.
  unfold file_at, removed. rewrite map_lookup_filter. destruct (t !! q) as [n|]; simpl; [|by case_match].
  destruct (Os.below p q); simpl; by rewrite ?option_guard_True, ?option_guard_False.
Qed.
Lemma RemoveAll_spec t p :
  ttriple (λ t', t' = t) (Os.RemoveAll p) (λ _ t', t' = removed t p) (λ _ t', t' = t).
Proof. apply ttriple_syscall; [done|]. by intros ? ->. Qed.

Lemma DeleteMetadata_spec t d k :
  image_digest d → meta_key k →
  ttriple (λ t', t' = t) (ImageFS.DeleteMetadata root d k)
    (λ _ t', t' = removed t (meta_path d k)) (λ _ t', t' = t).
Proof.
  intros Hd Hk. unfold ImageFS.DeleteMetadata.
  eapply tt_value; [intros s; by apply metadataDir_ok|]. rewrite Join_meta by done. apply RemoveAll_spec.
Qed.

Lemma Delete_spec t d :
  image_digest d →
  ttriple (λ t', t' = t) (ImageFS.Delete root d)
    (λ _ t', t' = delete (content_path d) (removed t (meta_dir d)))
    (λ _ t', t' = t ∨ t' = removed t (meta_dir d)).
Proof.
  intros Hd. unfold ImageFS.Delete. eapply tt_value; [intros s; by apply metadataDir_ok|].
  apply (ttriple_bind _ _ _ (λ _ t', t' = removed t (meta_dir d))).
  { eapply ttriple_conseq; [apply (RemoveAll_spec t)|done|done|]. by left. }
  intros _. eapply tt_value; [intros s; by apply contentFile_ok|].
  apply ttriple_syscall; [by right|]. intros ? ->.
  destruct (removed t (meta_dir d) !! content_path d) as [[]|]; [|by auto..].
  destruct (Os.has_children _ _); by auto.
Qed.

Lemma Walk_spec t :
  ttriple (λ t', t' = t) (ImageFS.Walk root)
    (λ ds t', t' = t ∧ Forall image_digest ds) (λ _ t', t' = t).
Proof.
  unfold ImageFS.Walk. apply (ttriple_bind _ _ _ (λ _ t', t' = t)).
  - apply ttriple_syscall; [done|]. intros ? ->. by destruct (node_at t _) as [[]|].
  - intros dir. apply ttriple_ret. intros t' ->. split; [done|]. apply Forall_forall.
    intros x [Hv Hx]%list_elem_of_filter. apply list_elem_of_fmap in Hx as (v&->&_).
    by apply valid_image_digest.
Qed.

(** From the tree to the view. *)
Lemma same_files_view (s s' : FS) : same_files (nodes s) (nodes s') → same_view s s'.
Proof. intros [Hwf Hf]. split_and!; [done|..]; intros; apply Hf. Qed.
Lemma same_view_refl (s s' : FS) : wf_tree (nodes s) → nodes s' = nodes s → same_view s s'.
Proof. intros Hwf Heq. apply same_files_view. by rewrite Heq. Qed.

Lemma leftover_view (s : FS) t1 t' p :
  same_files (nodes s) t1 → wf_tree t' → leftover t1 p t' →
  wf_tree t' ∧ (∀ x, image_digest x → file_at t' (content_path x) = file_at (nodes s) (content_path x)) ∧
  (∀ x y, image_digest x → meta_key y → file_at t' (meta_path x y) = file_at (nodes s) (meta_path x y)).
Proof.
  intros [_ Hf] Hwf' Hl. split; [done|]. destruct Hl as [->|[junk ->]]; [by split; intros; apply Hf|].
  split; intros; rewrite file_at_insert; case_decide as Heq; try apply Hf; symmetry in Heq.
  - by apply tmp_not_content in Heq.
  - by apply tmp_not_meta in Heq.
Qed.

(** Runs a specification and the preservation of well-formed trees from one
    state. *)
Lemma run_spec {A : Type} (m : M FS A) (s : FS) (Q : A → gmap path node → Prop) E (R : A → FS → Prop) :
  wf_tree (nodes s) → keeps m → ttriple (λ t', t' = nodes s) m Q E →
  (∀ a s', wf_tree (nodes s') → Q a (nodes s') → R a s') →
  (∀ e s', wf_tree (nodes s') → E e (nodes s') → same_view s s') →
  outcome_ok s (m s) R.
Proof.
  intros Hwf Hk Hm HR HE. specialize (Hk s Hwf). specialize (Hm s eq_refl). unfold outcome_ok.
  destruct (m s) as [[a|e|p] s']; [by apply HR|by eapply HE|done].
Qed.

Lemma keeps_of_ok {A : Type} (m : M FS A) (a : A) : (∀ s, m s = (Ok a, s)) → keeps m.
Proof. intros Hm s Hs. by rewrite Hm. Qed.
Lemma keeps_wrap {A : Type} (msg : string) (m : M FS A) : keeps m → keeps (ImageFS.wrap_error msg m).
Proof. intros Hm. unfold ImageFS.wrap_error. solve_keeps. Qed.
Lemma keeps_contentFile d : image_digest d → keeps (ImageFS.contentFile root d).
Proof. intros Hd. eapply keeps_of_ok. intros s. by apply contentFile_ok. Qed.
Lemma keeps_metadataDir d : image_digest d → keeps (ImageFS.metadataDir root d).
Proof. intros Hd. eapply keeps_of_ok. intros s. by apply metadataDir_ok. Qed.
Hint Resolve keeps_wrap keeps_contentFile keeps_metadataDir FromBytes_image_digest : keeps.

Lemma keeps_get d : Digest.valid d = true → keeps (ImageFS.get root d).
Proof.
  intros Hd. destruct (contentFile_valid d Hd) as (p&_&Hc&_). unfold ImageFS.get.
  apply keeps_bind; [by eapply keeps_of_ok|]. intros q. solve_keeps.
Qed.
Hint Resolve keeps_get image_digest_valid : keeps.
Lemma keeps_Set data : keeps (ImageFS.Set_ root data).
Proof.
  unfold ImageFS.Set_. apply keeps_bind; [auto with keeps|]. intros _.
  intros s Hs. unfold mbind, M_bind. rewrite contentFile_ok by apply FromBytes_image_digest.
  revert s Hs. apply keeps_bind; [|auto with keeps]. apply keeps_wrap, keeps_AtomicWriteFile.
  unfold content_path. by destruct root.
Qed.
Lemma keeps_SetMetadata d k v : image_digest d → meta_key k → keeps (ImageFS.SetMetadata root d k v).
Proof.
  intros Hd Hk. unfold ImageFS.SetMetadata. do 3 (apply keeps_bind; [auto with keeps|]; intros _ || intros ?).
  intros s Hs. unfold mbind, M_bind. rewrite metadataDir_ok by done. revert s Hs.
  apply keeps_AtomicWriteFile. rewrite Join_meta by done. unfold meta_path. by destruct root.
Qed.
Lemma keeps_DeleteMetadata d k : image_digest d → keeps (ImageFS.DeleteMetadata root d k).
Proof. intros Hd. unfold ImageFS.DeleteMetadata. solve_keeps. Qed.
Lemma keeps_GetMetadata d k : image_digest d → keeps (ImageFS.GetMetadata root d k).
Proof. intros Hd. unfold ImageFS.GetMetadata. solve_keeps. Qed.
Lemma keeps_Delete d : image_digest d → keeps (ImageFS.Delete root d).
Proof. intros Hd. unfold ImageFS.Delete. solve_keeps. Qed.
Lemma keeps_Walk : keeps (ImageFS.Walk root).
Proof. unfold ImageFS.Walk. solve_keeps. Qed.

Lemma below_meta_path x y d k :
  image_digest x → image_digest d →
  Os.below (meta_path d k) (meta_path x y) = bool_decide (x = d ∧ y = k).
Proof.
  intros Hx Hd. case_bool_decide as Hxy.
  - destruct Hxy as [-> ->]. apply below_spec. reflexivity.
  - apply not_below_spec. intros Hpre. apply Hxy.
    apply prefix_length_eq in Hpre; [|unfold meta_path; by rewrite !length_app].
    symmetry in Hpre. by apply meta_path_inj.
Qed.
Lemma below_meta_dir x y d :
  image_digest x → image_digest d → Os.below (meta_dir d) (meta_path x y) = bool_decide (x = d).
Proof.
  intros Hx Hd. unfold meta_dir, meta_path. case_bool_decide as Hxy.
  - subst. apply below_spec. exists [y]. by rewrite <-app_assoc.
  - apply not_below_spec. intros Hpre%prefix_app_inv. apply Hxy, hex_part_inj; [done..|].
    by apply prefix_cons_inv_2, prefix_cons_inv_2, prefix_cons_inv_1 in Hpre.
Qed.
Lemma below_content x (p : path) c q : p = root ++ metadataDirName :: c :: q → Os.below p (content_path x) = false.
Proof.
  intros ->. apply not_below_spec. unfold content_path. intros Hpre%prefix_app_inv.
  by apply prefix_cons_inv_1 in Hpre.
Qed.

Lemma files_content_set (s s' : FS) d v :
  wf_tree (nodes s') → nodes s' = <[content_path d := File v]> (nodes s) → image_digest d →
  content_set s s' d (Some v).
Proof.
  intros Hwf Heq Hd. split_and!; [done|..]; cbn; intros; rewrite Heq, file_at_insert.
  - destruct (decide (x = d)) as [->|Hne]; [by rewrite decide_True|].
    rewrite decide_False; [done|]. intros Hc. by apply Hne, content_path_inj.
  - rewrite decide_False; [done|]. intros Hc. by eapply content_meta.
Qed.
Lemma files_meta_set (s s' : FS) t1 d k v :
  wf_tree (nodes s') → same_files (nodes s) t1 → nodes s' = <[meta_path d k := File v]> t1 →
  image_digest d → meta_set s s' d k (Some v).
Proof.
  intros Hwf [_ Hf] Heq Hd. split_and!; [done|..]; cbn; intros; rewrite Heq, file_at_insert.
  - rewrite decide_False; [apply Hf|]. intros Hc. by eapply content_meta.
  - destruct (decide (x = d ∧ y = k)) as [[-> ->]|Hne]; [by rewrite decide_True|].
    rewrite decide_False; [apply Hf|]. intros Hc. by apply Hne, meta_path_inj.
Qed.
Lemma files_meta_unset (s s' : FS) d k :
  wf_tree (nodes s') → nodes s' = removed (nodes s) (meta_path d k) → image_digest d →
  meta_set s s' d k None.
Proof.
  intros Hwf Heq Hd. split_and!; [done|..]; cbn; intros; rewrite Heq, file_at_removed.
  - by rewrite (below_content _ _ Digest.Canonical [hex_part d; k]).
  - rewrite below_meta_path by done. by case_bool_decide; case_decide.
Qed.
Lemma files_others_kept (s s' : FS) d :
  wf_tree (nodes s') → image_digest d →
  (∀ x, image_digest x → x ≠ d →
     file_at (nodes s') (content_path x) = file_at (removed (nodes s) (meta_dir d)) (content_path x)) →
  (∀ x y, file_at (nodes s') (meta_path x y) = file_at (removed (nodes s) (meta_dir d)) (meta_path x y)) →
  others_kept s s' d.
Proof.
  intros Hwf Hd Hc Hm. split_and!; [done|..]; cbn; intros x; intros; rewrite ?Hc, ?Hm by done;
    rewrite file_at_removed.
  - by rewrite (below_content _ _ Digest.Canonical [hex_part d]).
  - rewrite below_meta_dir by done. by case_bool_decide.
Qed.

(** The file implementation meets the interface the image store relies on,
    under any schedule of I/O failures. *)
(** Computations that only read. *)
Definition reads {A : Type} (m : M FS A) : Prop := ∀ s, nodes (m s).2 = nodes s.
Lemma reads_bind {A B : Type} (m : M FS A) (g : A → M FS B) : reads m → (∀ a, reads (g a)) → reads (m ≫= g).
Proof.
  intros Hm Hg s. specialize (Hm s). unfold mbind, M_bind. destruct (m s) as [[a|e|p] s']; [|done..].
  by rewrite (Hg a s').
Qed.
Lemma reads_wrap {A : Type} (msg : string) (m : M FS A) : reads m → reads (ImageFS.wrap_error msg m).
Proof.
  intros Hm s. specialize (Hm s). unfold ImageFS.wrap_error, mbind, M_bind, attempt.
  by destruct (m s) as [[a|e|p] s'].
Qed.
Lemma reads_ReadFile p : reads (Os.ReadFile p).
Proof.
  intros s. unfold Os.ReadFile, syscall. destruct (faults s) as [|[|n] fs]; [..|done];
    by destruct (node_at (nodes s) p) as [[]|].
Qed.
Lemma reads_get d : reads (ImageFS.get root d).
Proof.
  unfold ImageFS.get. apply reads_bind; [unfold ImageFS.contentFile; apply reads_bind; [done|intros alg; by apply reads_bind]|].
  intros f. apply reads_bind; [apply reads_wrap, reads_ReadFile|]. intros c. apply reads_bind; [|done].
  intros s. by destruct (String.eqb _ _).
Qed.
Lemma reads_GetMetadata d k : reads (ImageFS.GetMetadata root d k).
Proof.
  unfold ImageFS.GetMetadata. apply reads_bind; [apply reads_get|]. intros c.
  apply reads_bind; [unfold ImageFS.metadataDir; apply reads_bind; [done|intros alg; by apply reads_bind]|].
  intros f. apply reads_wrap, reads_ReadFile.
Qed.

#[export] Instance fs_backend_laws : @BackendLaws FS (ImageFS.fs_backend root) fs_view.
Proof.
  split; cbn.
  - intros s Hs. eapply run_spec; [done|apply keeps_Walk|apply Walk_spec|..].
    + intros ds s' Hwf [Heq Hds]. split; [by apply same_view_refl|done].
    + intros e s' Hwf Heq. by apply same_view_refl.
  - intros s d Hs Hd. eapply run_spec; [done|by apply keeps_get|by apply get_spec|..].
    + intros c s' Hwf (Heq&Hc&Hv). split_and!; [by apply same_view_refl|done|done].
    + intros e s' Hwf Heq. by apply same_view_refl.
  - intros s d Hs. pose proof (reads_get d s) as Hr. by apply same_view_refl.
  - intros s d k Hs. pose proof (reads_GetMetadata d k s) as Hr. by apply same_view_refl.
  - intros s data Hs. eapply run_spec; [done|apply keeps_Set|by apply Set_spec|..].
    + intros d s' Hwf (->&Heq). split; [done|]. by apply files_content_set, FromBytes_image_digest.
    + intros e s' Hwf Hl. by apply (leftover_view s (nodes s) _ _ (conj Hs (λ _, eq_refl))) in Hl.
  - intros s d k v Hs Hd Hk. eapply run_spec; [done|by apply keeps_SetMetadata|by apply SetMetadata_spec|..].
    + intros u s' Hwf (t1&Ht1&Heq). by eapply files_meta_set.
    + intros e s' Hwf (t1&Ht1&Hl). by apply (leftover_view s t1) in Hl.
  - intros s d k Hs Hd Hk. eapply run_spec; [done|by apply keeps_GetMetadata|by apply GetMetadata_spec|..].
    + intros v s' Hwf (Heq&Hv). split; [by apply same_view_refl|done].
    + intros e s' Hwf Heq. by apply same_view_refl.
  - intros s d k Hs Hd Hk.
    eapply run_spec; [done|by apply keeps_DeleteMetadata|by apply DeleteMetadata_spec|..].
    + intros u s' Hwf Heq. by apply files_meta_unset.
    + intros e s' Hwf Heq. by apply same_view_refl.
  - intros s d Hs Hd. pose proof (keeps_Delete d Hd s Hs) as Hk.
    pose proof (Delete_spec (nodes s) d Hd s eq_refl) as Hr.
    destruct (ImageFS.Delete root d s) as [[u|e|p] s']; [| |done].
    + assert (∀ q, file_at (nodes s') q =
        if decide (q = content_path d) then None else file_at (removed (nodes s) (meta_dir d)) q) as Hq.
      { intros q. rewrite Hr. unfold file_at. rewrite lookup_delete. by repeat case_decide. }
      split_and!.
      * apply files_others_kept; [done|done|..]; intros; rewrite Hq; rewrite decide_False; try done.
        -- intros Hc. by apply content_path_inj in Hc.
        -- intros Hc. symmetry in Hc. by apply content_meta in Hc.
      * by rewrite Hq, decide_True.
      * intros y Hy. rewrite Hq. case_decide; [done|]. rewrite file_at_removed, below_meta_dir by done.
        by rewrite bool_decide_eq_true_2.
    + destruct Hr as [Hr|Hr].
      * apply same_view_refl in Hr as (_&Hc&Hm); [|done]. split_and!; [done|..]; intros; auto.
      * apply files_others_kept; [done|done|..]; intros; by rewrite Hr.
Qed.
End FSView.
