(* ===== verification/ImageStore.v ===== *)
(** * The image store

    [src/engine/image/store.go]: the images, each with a reference to the layer
    its chain ends in and the set of its children, on a backend and on layer
    stores known by the interfaces [StoreBackend] and [LayerGetReleaser]. *)

From S2P Require Import Prelude FileSys Digest DigestSet Chain FileStore GraphDriver LayerStore LayerInv LayerOps ContainerConfig ImageModel ImageFS.

(** ** Layer stores, as the image store sees them *)

(** [LayerGetReleaser]. *)
Class LayerGetReleaser (L : Type) := {
  lgr_Get : ChainID → M L Layer;
  lgr_Release : Layer → M L (list Metadata);
}.

(** What the image store relies on: [lgr_holds s ref id] says that [ref] is an
    outstanding reference to the layer [id]. *)
Class LayerView (L : Type) := {
  lgr_ok : L → Prop;
  lgr_holds : L → Layer → ChainID → Prop;
}.
Class LayerLaws (L : Type) `{LayerGetReleaser L} `{LayerView L} := {
  lgr_Get_spec s id : lgr_ok s →
    match lgr_Get id s with
    | (Ok ref, s') => lgr_ok s' ∧ lgr_holds s' ref id ∧ (∀ i, ¬ lgr_holds s ref i) ∧
                      ∀ r i, lgr_holds s r i → lgr_holds s' r i
    | (Err _, s') => lgr_ok s' ∧ ∀ r i, lgr_holds s r i → lgr_holds s' r i
    | (Panic _, _) => False
    end;
  lgr_Release_spec s ref id : lgr_ok s → lgr_holds s ref id →
    match lgr_Release ref s with
    | (Ok _, s') => lgr_ok s' ∧ (∀ i, ¬ lgr_holds s' ref i) ∧
                    ∀ r i, r ≠ ref → lgr_holds s r i → lgr_holds s' r i
    | (Err _, s') => lgr_ok s' ∧ ∀ r i, r ≠ ref → lgr_holds s r i → lgr_holds s' r i
    | (Panic _, _) => False
    end;
}.

(** ** The store *)

(** [imageMeta]. *)
Record imageMeta := mkMeta { im_layer : option Layer; im_children : gset ImageID }.

(** [store]. *)
Record IS (L F : Type) := mkIS {
  lss : gmap string L;
  images : gmap ImageID imageMeta;
  ifs : F;
  digestSet : list DigestSet.digestEntry;
}.
Arguments mkIS {L F} _ _ _ _.
Arguments lss {L F} _.
Arguments images {L F} _.
Arguments ifs {L F} _.
Arguments digestSet {L F} _.

Definition ErrNotSupportedOperatingSystem := Sentinel "system.ErrNotSupportedOperatingSystem".
Definition imageNotFoundError (term : string) : error := NotFound ("No such image: " +:+ term).

(** [LCOWSupported] on a host that is not Windows, and [IsOSSupported]. *)
Definition LCOWSupported : bool := false.
Definition EqualFold (s t : string) : bool := String.eqb (GoString.to_lower s) (GoString.to_lower t).
Definition IsOSSupported (GOOS os : string) : bool :=
  if EqualFold GOOS os then true
  else if LCOWSupported && EqualFold os "linux" then true
  else false.

Section ImageStore.
Context {L F : Type} `{LayerGetReleaser L} `{Backend F} `{JSON Image}.
(** [runtime.GOOS], and [time.Time] in the format [RFC3339Nano]. *)
Context (GOOS : string) (format_time : Z → string) (parse_time : string → error + Z).

Definition set_images (f : gmap ImageID imageMeta → gmap ImageID imageMeta) (s : IS L F) : IS L F :=
  mkIS (lss s) (f (images s)) (ifs s) (digestSet s).
Definition set_ifs (f : F) (s : IS L F) : IS L F := mkIS (lss s) (images s) f (digestSet s).
Definition set_digestSet (d : list DigestSet.digestEntry) (s : IS L F) : IS L F :=
  mkIS (lss s) (images s) (ifs s) d.

Definition onBE {A} (m : M F A) : M (IS L F) A := zoom ifs set_ifs m.
(** A call on [is.lss[os]]; a missing entry is a nil interface. *)
Definition onLS {A} (os : string) (m : M L A) : M (IS L F) A := λ s,
  match lss s !! os with
  | None => (Panic nil_deref, s)
  | Some l => let '(r, l') := m l in (r, mkIS (<[os := l']> (lss s)) (images s) (ifs s) (digestSet s))
  end.
(** A call on [is.digestSet]. *)
Definition onDS (f : list DigestSet.digestEntry → outcome (list DigestSet.digestEntry)) : M (IS L F) () := λ s,
  match f (digestSet s) with
  | Ok d => (Ok tt, set_digestSet d s)
  | Err e => (Err e, s)
  | Panic p => (Panic p, s)
  end.

Definition is_GetParent (id : ImageID) : M (IS L F) ImageID := onBE (be_GetMetadata id "parent").

(** [Get]. *)
Definition is_Get (id : ImageID) : M (IS L F) Image :=
  config ← onBE (be_Get id);
  img ← of_sum (NewFromJSON config);
  let img := set_computedID id img in
  p ← attempt (is_GetParent id);
  mret (set_parent (match p with inr p => p | inl _ => EmptyString end) img).

(** [Create]. *)
Definition Create (config : string) : M (IS L F) ImageID :=
  img ← of_sum (json_unmarshal config);
  rootFS ← match img_RootFS img with Some r => mret r | None => panic nil_deref end;
  let layerCounter := layer_count (img_History img) in
  _ ← guard_err (negb (length (DiffIDs rootFS) <? layerCounter))
        (Errorf "too many non-empty layers in History section");
  imageID ← onBE (be_Set config);
  s ← get;
  match images s !! imageID with
  | Some _ => mret imageID
  | None =>
      let layerID := rf_ChainID GOOS rootFS in
      l ← (if negb (String.eqb layerID EmptyString) then
             let os := OperatingSystem GOOS img in
             _ ← guard_err (IsOSSupported GOOS os) ErrNotSupportedOperatingSystem;
             r ← attempt (onLS os (lgr_Get layerID));
             match r with
             | inl e => fail (Wrap e ("failed to get layer " +:+ layerID))
             | inr l => mret (Some l)
             end
           else mret None);
      _ ← modify (set_images <[imageID := mkMeta l ∅]>);
      r ← attempt (onDS (λ d, DigestSet.Add d imageID));
      match r with
      | inl e => _ ← modify (set_images (delete imageID)); fail e
      | inr _ => mret imageID
      end
  end.

(** [Search]. *)
Definition Search (term : string) : M (IS L F) ImageID :=
  s ← get;
  match DigestSet.Lookup (digestSet s) term with
  | Ok dgst => mret dgst
  | Err e => fail (if bool_decide (e = DigestSet.ErrDigestNotFound) then imageNotFoundError term else e)
  | Panic p => panic p
  end.

Definition drop_child (id : ImageID) (m : imageMeta) : imageMeta :=
  mkMeta (im_layer m) (im_children m ∖ {[ id ]}).
Definition add_child (id : ImageID) (m : imageMeta) : imageMeta :=
  mkMeta (im_layer m) ({[ id ]} ∪ im_children m).

(** Takes an image out of the children of its recorded parent. *)
Definition unlink (id : ImageID) : M (IS L F) () :=
  p ← attempt (is_GetParent id);
  match p with
  | inr parent => modify (set_images (alter (drop_child id) parent))
  | inl _ => mret tt
  end.

(** [Delete]. *)
Definition is_Delete (id : ImageID) : M (IS L F) (list Metadata) :=
  s ← get;
  match images s !! id with
  | None => fail (Errorf ("unrecognized image ID " +:+ id))
  | Some imageMeta =>
      r ← attempt (is_Get id);
      match r with
      | inl e => fail (Errorf ("unrecognized image " +:+ id))
      | inr img =>
          let os := OperatingSystem GOOS img in
          _ ← guard_err (IsOSSupported GOOS os) (Errorf ("unsupported image operating system " +:+ os));
          _ ← for_each (elements (im_children imageMeta))
                (λ c, ignore_err (onBE (be_DeleteMetadata c "parent")));
          _ ← unlink id;
          _ ← ignore_err (onDS (λ d, DigestSet.Remove d id));
          _ ← modify (set_images (delete id));
          _ ← ignore_err (onBE (be_Delete id));
          match im_layer imageMeta with
          | Some l => onLS os (lgr_Release l)
          | None => mret []
          end
      end
  end.

(** [SetParent]. *)
Definition SetParent (id parent : ImageID) : M (IS L F) () :=
  s ← get;
  match images s !! parent with
  | None => fail (Errorf ("unknown parent image ID " +:+ parent))
  | Some _ =>
      _ ← unlink id;
      _ ← modify (set_images (alter (add_child id) parent));
      onBE (be_SetMetadata id "parent" parent)
  end.

(** [SetLastUpdated] at the time [now], and [GetLastUpdated]. *)
Definition SetLastUpdated (now : Z) (id : ImageID) : M (IS L F) () :=
  onBE (be_SetMetadata id "lastUpdated" (format_time now)).
Definition GetLastUpdated (id : ImageID) : M (IS L F) Z :=
  r ← attempt (onBE (be_GetMetadata id "lastUpdated"));
  match r with
  | inl _ => mret 0%Z
  | inr bytes => if String.eqb bytes EmptyString then mret 0%Z else of_sum (parse_time bytes)
  end.

(** [Children]. *)
Definition is_children (im : gmap ImageID imageMeta) (id : ImageID) : gset ImageID :=
  match im !! id with Some m => im_children m | None => ∅ end.
Definition Children (id : ImageID) : M (IS L F) (list ImageID) :=
  gets (λ s, elements (is_children (images s) id)).

(** [imagesMap], [Heads] and [Map]. *)
Fixpoint collect (all : bool) (ids : list ImageID) (acc : gmap ImageID Image)
    : M (IS L F) (gmap ImageID Image) :=
  match ids with
  | [] => mret acc
  | id :: ids =>
      s ← get;
      if negb all && (0 <? length (elements (is_children (images s) id))) then collect all ids acc else
      r ← attempt (is_Get id);
      match r with
      | inl _ => collect all ids acc
      | inr img => collect all ids (<[id := img]> acc)
      end
  end.
Definition imagesMap (all : bool) : M (IS L F) (gmap ImageID Image) :=
  s ← get; collect all (map_to_list (images s)).*1 ∅.
Definition Heads : M (IS L F) (gmap ImageID Image) := imagesMap false.
Definition is_Map : M (IS L F) (gmap ImageID Image) := imagesMap true.
Definition Len : M (IS L F) nat := gets (λ s, size (images s)).

(** The callback of [restore]. *)
Definition restore_image (dgst : string) : M (IS L F) () :=
  r ← attempt (is_Get dgst);
  match r with
  | inl _ => mret tt
  | inr img =>
      let finish l :=
        _ ← onDS (λ d, DigestSet.Add d dgst);
        modify (set_images <[dgst := mkMeta l ∅]>) in
      let chainID := match img_RootFS img with Some r => rf_ChainID GOOS r | None => EmptyString end in
      if negb (String.eqb chainID EmptyString) then
        let os := OperatingSystem GOOS img in
        if negb (IsOSSupported GOOS os) then mret tt else
        r ← attempt (onLS os (lgr_Get chainID));
        match r with
        | inl e => if bool_decide (e = LayerErr.ErrLayerDoesNotExist) then mret tt else fail e
        | inr l => finish (Some l)
        end
      else finish None
  end.
(** The second pass of [restore]. *)
Definition restore_children (id : ImageID) : M (IS L F) () :=
  p ← attempt (is_GetParent id);
  match p with
  | inr parent => modify (set_images (alter (add_child id) parent))
  | inl _ => mret tt
  end.
(** [restore], run by [NewImageStore] on empty maps. *)
Definition restore : M (IS L F) () :=
  ds ← onBE be_Walk;
  _ ← for_each ds restore_image;
  s ← get;
  for_each (map_to_list (images s)).*1 restore_children.

(** [NewImageStore]. *)
Definition NewImageStore (fs : F) (lss : gmap string L) : outcome () * IS L F :=
  restore (mkIS lss ∅ fs []).
End ImageStore.

(** ** The layer store of the daemon is such a store *)

Section LayerInstance.
Context {D : Type} `{GraphDriver D} `{JSON Descriptor} `{TarSplit} (root : path).

#[export] Instance layer_get_releaser : LayerGetReleaser (LS D) := {
  lgr_Get id := onCore (Mem.Get id);
  lgr_Release ref := Release root ref;
}.

Lemma live_refs ext c y id l : wf_core ext c → live c y id l → is_Some (refs c !! y).
Proof. intros Hwf (_&r&Hr&Hy). eexists. by eapply (wf_refs _ _ Hwf). Qed.

#[export] Instance layer_view : LayerView (LS D) := {
  lgr_ok s := wf_core [] (core s);
  lgr_holds s ref id := ∃ y l, ref = LRef y ∧ live (core s) y id l;
}.
#[export] Instance layer_laws : @LayerLaws (LS D) layer_get_releaser layer_view.
Proof.
  split; cbn.
  - intros s id Hwf. unfold onCore, zoom. pose proof (Get_core_ok [] (core s) id Hwf) as Hg.
    destruct (layerMap (core s) !! id) as [l|].
    + destruct Hg as (y&c'&->&Hwf'&Hext&Hl&_&->). split_and!; [done|by eauto|..].
      * intros i (y&l'&[= <-]&Hlive). pose proof (live_lt _ _ _ _ _ Hwf Hlive). lia.
      * intros r i (y&l'&->&Hlive). exists y, l'. split; [done|]. by apply (ext_live _ _ _ Hext).
    + rewrite Hg. by split.
  - intros s ref id Hwf (y&l&->&Hlive).
    assert (valid_layer (core s) (LRef y)) as Hv by (by eapply live_refs).
    pose proof (Release_ok root [] (core s) (LRef y) Hwf Hv s eq_refl) as Hr.
    assert (∀ s' : LS D, Release_frame [] (core s) (LRef y) (core s') → ∀ r i, r ≠ LRef y →
      (∃ y0 l0, r = LRef y0 ∧ live (core s) y0 i l0) → ∃ y0 l0, r = LRef y0 ∧ live (core s') y0 i l0) as Hframe.
    { intros s' (_&Hext&_) r i Hne (y0&l0&->&Hl0). exists y0, l0. split; [done|].
      apply (ext_live _ _ _ Hext); [|done]. simpl. set_solver. }
    destruct (Release root (LRef y) s) as [[mds|e|p] s']; [| |done].
    + destruct Hr as (Hfr&_&Hno&_). split_and!; [apply Hfr| |by apply Hframe].
      intros i (y0&l0&[= <-]&Hl0). eapply Hno; [|done]. simpl. set_solver.
    + split; [apply Hr|by apply Hframe].
Qed.
End LayerInstance.
