(* ===== verification/ImageInv.v ===== *)
(** * The invariant of the image store

    Every image holds a reference of its own to the layer its chain ends in,
    and the digest set lists exactly the images; every operation keeps this,
    whatever fails and wherever it stops. *)

From S2P Require Import Prelude FileSys Digest DigestSet Chain LayerStore ContainerConfig ImageModel ImageFS ImageStore.

Section Invariant.
Context {L F : Type} `{LayerLaws L} `{BackendLaws F} `{JSON Image}.
Context (GOOS : string).
Implicit Types (s : IS L F) (l : L) (id : ImageID) (im : gmap ImageID imageMeta).

(** The image [id] is made from a configuration whose layers end in [cid]. *)
Definition image_chain id (cid : ChainID) : Prop :=
  ∃ config img r, Digest.FromBytes config = id ∧ json_unmarshal config = inr img ∧
    img_RootFS img = Some r ∧ rf_ChainID GOOS r = cid.

(** An image in the map holds its top layer in the layer store [l]. *)
Definition holds_layer l id (m : imageMeta) : Prop :=
  ∃ cid, image_chain id cid ∧
    match im_layer m with
    | Some ref => lgr_holds l ref cid
    | None => cid = EmptyString
    end.

Record layers_ok l im : Prop := {
  lo_ok : lgr_ok l;
  lo_holds : ∀ id m, im !! id = Some m → holds_layer l id m;
  lo_unique : ∀ id1 id2 m1 m2 ref, im !! id1 = Some m1 → im !! id2 = Some m2 →
    im_layer m1 = Some ref → im_layer m2 = Some ref → id1 = id2;
}.

Record digests_ok (ds : list DigestSet.digestEntry) im : Prop := {
  do_set : set_ok ds;
  do_all : ∀ d, d ∈ DigestSet.All ds ↔ is_Some (im !! d);
}.

Record names_ok im : Prop := {
  no_images : ∀ id, is_Some (im !! id) → image_digest id;
  no_children : ∀ p m c, im !! p = Some m → c ∈ im_children m → image_digest c;
}.

(** The daemon has one layer store, for the host's operating system. *)
Definition store_ok s : Prop :=
  be_ok (ifs s) ∧ (∃ l, lss s = {[ GOOS := l ]} ∧ layers_ok l (images s)) ∧
  digests_ok (digestSet s) (images s) ∧ names_ok (images s).

(** ** A call on the backend: nothing but the files changes *)

Lemma store_ok_ifs s f : store_ok s → be_ok f → store_ok (set_ifs f s).
Proof. intros (_&?&?&?) Hf. by split_and!. Qed.

(** [s] differs from [s0] only in the state of the backend. *)
Definition files_only s0 s : Prop :=
  store_ok s ∧ lss s = lss s0 ∧ images s = images s0 ∧ digestSet s = digestSet s0.
Definition same_files_view s0 s : Prop := files_only s0 s ∧ same_view (ifs s0) (ifs s).

Lemma itr_backend {A : Type} s0 (m : M F A) (Q : A → F → Prop) :
  store_ok s0 → outcome_ok (ifs s0) (m (ifs s0)) Q → (∀ a f, Q a f → be_ok f) →
  itr (λ s, s = s0) (onBE m) (λ a s, files_only s0 s ∧ Q a (ifs s)) (same_files_view s0).
Proof.
  intros Hok Hm HQ s ->. unfold onBE, zoom. destruct (m (ifs s0)) as [[a|e|p] f]; simpl in *; [..|done].
  - split; [|done]. split_and!; [|done..]. apply store_ok_ifs; [done|by eapply HQ].
  - split; [|done]. split_and!; [|done..]. apply store_ok_ifs; [done|apply Hm].
Qed.

(** ** Steps of the invariant *)

Section Alter.
Context (f : imageMeta → imageMeta) (p : ImageID).
Hypothesis Hf : ∀ m, im_layer (f m) = im_layer m.

Lemma lookup_alter_meta im id m :
  alter f p im !! id = Some m → ∃ m0, im !! id = Some m0 ∧ im_layer m = im_layer m0 ∧ (m = m0 ∨ m = f m0 ∧ id = p).
Proof using Hf.
  rewrite lookup_alter. case_decide as Hp; [|by eauto].
  subst. destruct (im !! id) as [m0|]; [|done]. intros [= <-]. eauto 6.
Qed.
Lemma layers_ok_alter l im : layers_ok l im → layers_ok l (alter f p im).
Proof using Hf.
  intros [Hok Hh Hu]. split; [done|..].
  - intros id m (m0&Hm0&Hl&_)%lookup_alter_meta. destruct (Hh _ _ Hm0) as (cid&Hc&Hm).
    exists cid. by rewrite Hl.
  - intros id1 id2 m1 m2 ref (m1'&Hx1&Hl1&_)%lookup_alter_meta (m2'&Hx2&Hl2&_)%lookup_alter_meta.
    rewrite Hl1, Hl2. by eapply Hu.
Qed.
Lemma digests_ok_alter ds im : digests_ok ds im → digests_ok ds (alter f p im).
Proof. intros [? Ha]. split; [done|]. intros d. by rewrite lookup_alter_is_Some. Qed.
Lemma store_ok_alter s :
  store_ok s → (∀ m c, c ∈ im_children (f m) → c ∈ im_children m ∨ image_digest c) →
  store_ok (set_images (alter f p) s).
Proof using Hf.
  intros (Hb&(l&Hl&Hlo)&Hd&[Hn Hc]) Hch. split_and!; [done|..]; simpl.
  - exists l. split; [done|]. by apply layers_ok_alter.
  - by apply digests_ok_alter.
  - split.
    + intros id Hid. apply Hn. by apply lookup_alter_is_Some in Hid.
    + intros q m c (m0&Hm0&_&[->|[-> _]])%lookup_alter_meta Hin; [by eapply Hc|].
      destruct (Hch _ _ Hin); [by eapply Hc|done].
Qed.
End Alter.

Lemma store_ok_drop_child s p id : store_ok s → store_ok (set_images (alter (drop_child id) p) s).
Proof. intros Hs. apply store_ok_alter; [done..|]. intros m c Hc. left. by apply elem_of_difference in Hc as [? _]. Qed.
Lemma store_ok_add_child s p id :
  store_ok s → image_digest id → store_ok (set_images (alter (add_child id) p) s).
Proof.
  intros Hs Hid. apply store_ok_alter; [done..|]. simpl.
  intros m c [->%elem_of_singleton|Hc]%elem_of_union; auto.
Qed.

(** A new image enters the map and the digest set. *)
Lemma store_ok_insert s l id o ds :
  store_ok s → lss s = {[ GOOS := l ]} → layers_ok l (images s) →
  image_digest id → holds_layer l id (mkMeta o ∅) →
  (∀ id' m ref, images s !! id' = Some m → o = Some ref → im_layer m ≠ Some ref) →
  DigestSet.Add (digestSet s) id = Ok ds →
  store_ok (set_digestSet ds (set_images <[id := mkMeta o ∅]> s)).
Proof.
  intros (Hb&_&Hd&Hn) Hl Hlo Hid Hh Hu Hadd.
  assert (Digest.valid id = true) as Hv by (destruct Hid as (hex&->&?&?); by apply valid_canonical).
  destruct (Add_ok _ _ (do_set _ _ Hd) Hv) as (ds'&Hadd'&Hset&Hall). rewrite Hadd in Hadd'.
  injection Hadd' as <-. split_and!; [done|..]; simpl.
  - exists l. split; [done|]. destruct Hlo as [Hok Hh0 Hu0]. split; [done|..].
    + intros id' m. rewrite lookup_insert. case_decide as Heq; [|by apply Hh0]. subst. by intros [= <-].
    + intros id1 id2 m1 m2 ref. rewrite !lookup_insert. repeat case_decide; subst; try done.
      * intros [= <-] Hx2 Ho Hm2. by destruct (Hu _ _ _ Hx2 Ho).
      * intros Hx1 [= <-] Hm1 Ho. by destruct (Hu _ _ _ Hx1 Ho).
      * by apply Hu0.
  - split; [done|]. intros d. rewrite Hall, (do_all _ _ Hd), lookup_insert. case_decide as Heq; subst.
    + split; [by eexists|by left].
    + split; [intros [->|?]; done|by right].
  - destruct Hn as [Hn Hc]. split.
    + intros id' [m Hm]. rewrite lookup_insert in Hm. case_decide as Heq; [by subst|]. apply Hn. by eexists.
    + intros p m c. rewrite lookup_insert. case_decide; [|by apply Hc]. intros [= <-]. simpl. set_solver.
Qed.

(** An image leaves the map and the digest set. *)
Lemma store_ok_delete s id ds :
  store_ok s → image_digest id → DigestSet.Remove (digestSet s) id = Ok ds →
  store_ok (set_images (delete id) (set_digestSet ds s)).
Proof.
  intros (Hb&(l&Hl&[Hok Hh Hu])&Hd&[Hn Hc]) Hid Hrem.
  assert (Digest.valid id = true) as Hv by (destruct Hid as (hex&->&?&?); by apply valid_canonical).
  destruct (Remove_ok _ _ (do_set _ _ Hd) Hv) as (ds'&Hrem'&Hset&Hall). rewrite Hrem in Hrem'.
  injection Hrem' as <-. split_and!; [done|..]; simpl.
  - exists l. split; [done|]. split; [done|..].
    + intros id' m [_ Hm]%lookup_delete_Some. by apply Hh.
    + intros id1 id2 m1 m2 ref [_ Hm1]%lookup_delete_Some [_ Hm2]%lookup_delete_Some. by eapply Hu.
  - split; [done|]. intros d. rewrite Hall, (do_all _ _ Hd), lookup_delete. case_decide as Heq; subst.
    + split; [by intros [_ ?]|by intros [? ?]].
    + split; [by intros [? _]|by split].
  - split.
    + intros id' [m [_ Hm]%lookup_delete_Some]. apply Hn. by eexists.
    + intros p m c [_ Hm]%lookup_delete_Some. by eapply Hc.
Qed.

Lemma digests_canonical ds im :
  digests_ok ds im → names_ok im → Forall (λ e, DigestSet.e_alg e = Digest.Canonical) ds.
Proof.
  intros [[_ Hok] Hall] [Hn _]. rewrite Forall_forall in *. intros e He. specialize (Hok e He).
  assert (image_digest (DigestSet.e_digest e)) as Hid.
  { apply Hn, Hall. unfold DigestSet.All. by apply list_elem_of_fmap_2. }
  destruct Hok as (_&_&Hent). unfold DigestSet.entry_of in Hent.
  destruct (image_digest_hex _ Hid) as (Ha&Hh&_). rewrite Ha, Hh in Hent. by injection Hent as <-.
Qed.

(** ** The operations *)

Lemma same_view_trans : Transitive (same_view (F := F)).
Proof.
  intros f1 f2 f3 (_&Hc1&Hm1) (Hok&Hc2&Hm2). split_and!; [done|..].
  - intros x Hx. by rewrite Hc2, Hc1.
  - intros x y Hx Hy. by rewrite Hm2, Hm1.
Qed.
Lemma files_only_trans s1 s2 s3 : files_only s1 s2 → files_only s2 s3 → files_only s1 s3.
Proof. intros (_&?&?&?) (?&?&?&?). split_and!; [done|congruence..]. Qed.
Lemma same_files_view_trans s1 s2 s3 :
  same_files_view s1 s2 → same_files_view s2 s3 → same_files_view s1 s3.
Proof. intros [? ?] [? ?]. split; [by eapply files_only_trans|by eapply same_view_trans]. Qed.
Lemma same_files_view_refl s : store_ok s → same_files_view s s.
Proof. intros Hs. split; [done|]. split; [apply Hs|done]. Qed.

(** Reads, of any name. *)
Lemma itr_reads {A : Type} s0 (m : M F A) :
  (∀ f, be_ok f → same_view f (m f).2) →
  itr (same_files_view s0) (onBE m) (λ _, same_files_view s0) (same_files_view s0).
Proof.
  intros Hm s Hs. unfold onBE, zoom. pose proof (Hm (ifs s) (proj1 (proj1 (proj1 Hs)))) as Hf.
  assert (same_files_view s0 (set_ifs (m (ifs s)).2 s)) as Hnew.
  { eapply same_files_view_trans; [exact Hs|]. split; [|done]. destruct Hs as ((Hok&_)&_).
    split_and!; [|done..]. apply store_ok_ifs; [done|apply Hf]. }
  by destruct (m (ifs s)) as [[a|e|p] f].
Qed.
Lemma is_GetParent_reads s0 id :
  itr (same_files_view s0) (is_GetParent id) (λ _, same_files_view s0) (same_files_view s0).
Proof. apply itr_reads. intros f Hf. by apply be_GetMetadata_reads. Qed.
Lemma is_Get_reads s0 id :
  itr (same_files_view s0) (is_Get id) (λ _, same_files_view s0) (same_files_view s0).
Proof.
  eapply itr_bind; [apply itr_reads; intros f Hf; by apply be_Get_reads|]. intros config.
  eapply itr_bind; [by apply (itr_of_sum _ _ (λ _, same_files_view s0))|]. intros img.
  eapply itr_bind; [apply itr_attempt_keep, itr_keep, is_GetParent_reads|]. intros p.
  apply itr_ret. by intros s [? _].
Qed.

Lemma is_GetParent_ok s0 id :
  store_ok s0 → image_digest id →
  itr (λ s, s = s0) (is_GetParent id)
    (λ p s, same_files_view s0 s ∧ be_meta (ifs s0) id "parent" = Some p) (same_files_view s0).
Proof.
  intros Hok Hid. eapply itr_conseq; [apply itr_backend; [done|..]| |..].
  - apply be_GetMetadata_spec; [apply Hok|done|by left].
  - by intros a f [[? _] _].
  - done.
  - by intros p s [? [? ?]].
  - done.
Qed.

(** The image a configuration with the name [id] describes. *)
Definition image_of id (config : string) (img : Image) : Prop :=
  ∃ img0 p, Digest.FromBytes config = id ∧ NewFromJSON config = inr img0 ∧
    img = set_parent p (set_computedID id img0).

Lemma is_Get_valid s0 id :
  store_ok s0 → Digest.valid id = true →
  itr (λ s, s = s0) (is_Get id)
    (λ img s, same_files_view s0 s ∧ ∃ config, be_content (ifs s0) id = Some config ∧ image_of id config img)
    (same_files_view s0).
Proof.
  intros Hok Hv. unfold is_Get.
  apply (itr_bind _ _ _ (λ config s, same_files_view s0 s ∧
    be_content (ifs s0) id = Some config ∧ Digest.FromBytes config = id)).
  { eapply itr_conseq; [apply itr_backend; [done|by apply be_Get_spec; [apply Hok|]|]|..].
    - by intros a f [[? _] _].
    - done.
    - by intros c s [? [? ?]].
    - done. }
  intros config. apply (itr_bind _ _ _ (λ img0 s, same_files_view s0 s ∧
    be_content (ifs s0) id = Some config ∧ Digest.FromBytes config = id ∧ NewFromJSON config = inr img0)).
  { apply itr_of_sum; [by intros s [? _]|]. intros img0 Heq s (?&?&?). by split_and!. }
  intros img0. apply (itr_bind _ _ _ (λ _ s, same_files_view s0 s ∧
    be_content (ifs s0) id = Some config ∧ Digest.FromBytes config = id ∧ NewFromJSON config = inr img0)).
  - apply itr_from. intros s (Hs&Hc&Hd&Hj).
    assert (image_digest id) as Hid by (rewrite <-Hd; apply FromBytes_image_digest). eapply itr_attempt.
    + eapply itr_conseq; [by apply (is_GetParent_ok s id); [apply Hs|]|done|..].
      * intros p s' [Hs' _]. split_and!; [by eapply same_files_view_trans|done..].
      * intros s' Hs'. exact (same_files_view_trans _ _ _ Hs Hs').
    + intros s' Hs'. split; [done|]. intros _. by split_and!.
  - intros p. apply itr_ret. intros s (Hs&Hc&Hd&Hj). split; [done|]. exists config. split; [done|].
    eexists img0, _. split_and!; [done|done|reflexivity].
Qed.
Lemma is_Get_ok s0 id :
  store_ok s0 → image_digest id →
  itr (λ s, s = s0) (is_Get id)
    (λ img s, same_files_view s0 s ∧ ∃ config, be_content (ifs s0) id = Some config ∧ image_of id config img)
    (same_files_view s0).
Proof. intros Hok Hid. by apply is_Get_valid, image_digest_valid. Qed.

(** Calls on the layer store. *)
Lemma layers_ok_mono l l' im :
  layers_ok l im → lgr_ok l' →
  (∀ id m ref i, im !! id = Some m → im_layer m = Some ref → lgr_holds l ref i → lgr_holds l' ref i) →
  layers_ok l' im.
Proof.
  intros [_ Hh Hu] Hok Hm. split; [done| |done].
  intros id m Hid. destruct (Hh _ _ Hid) as (cid&Hc&Hl). exists cid. split; [done|].
  destruct (im_layer m) as [ref|] eqn:Hr; [by eapply Hm|done].
Qed.
Lemma store_ok_lss s l l' :
  store_ok s → lss s = {[ GOOS := l ]} → layers_ok l' (images s) →
  store_ok (mkIS (<[GOOS := l']> (lss s)) (images s) (ifs s) (digestSet s)).
Proof.
  intros (Hb&_&Hd&Hn) Hl Hlo. split_and!; [done| |done..]. simpl. exists l'. split; [|done].
  by rewrite Hl, insert_singleton_eq.
Qed.
Lemma lss_singleton s l os : lss s = {[ GOOS := l ]} → os ≠ GOOS → lss s !! os = None.
Proof. intros -> Hne. by apply lookup_singleton_ne. Qed.

(** Only the layer store has changed. *)
Definition layers_only s0 s : Prop :=
  store_ok s ∧ images s = images s0 ∧ digestSet s = digestSet s0 ∧ ifs s = ifs s0.

Lemma onLS_Get_ok s0 os cid :
  store_ok s0 →
  itr (λ s, s = s0) (onLS os (lgr_Get cid))
    (λ ref s, layers_only s0 s ∧ ∃ l, lss s = {[ GOOS := l ]} ∧ layers_ok l (images s) ∧ lgr_holds l ref cid ∧
       ∀ id m, images s !! id = Some m → im_layer m ≠ Some ref)
    (layers_only s0).
Proof.
  intros Hok s ->. pose proof Hok as (_&(l&Hl&Hlo)&_). unfold onLS.
  destruct (decide (os = GOOS)) as [->|Hne]; [|by rewrite (lss_singleton _ _ _ Hl Hne)].
  rewrite Hl, lookup_singleton_eq. pose proof (lgr_Get_spec l cid (lo_ok _ _ Hlo)) as Hg.
  destruct (lgr_Get cid l) as [[ref|e|p] l']; [..|done].
  - destruct Hg as (Hok'&Hh&Hfresh&Hkeep).
    assert (layers_ok l' (images s0)) as Hlo' by (eapply layers_ok_mono; eauto).
    rewrite <-Hl. split; [split; [by eapply store_ok_lss|done]|]. exists l'. simpl.
    split_and!; [by rewrite Hl, insert_singleton_eq|done|done|].
    intros id m Hm Href. destruct (lo_holds _ _ Hlo _ _ Hm) as (i&_&Hi). rewrite Href in Hi.
    by apply (Hfresh i).
  - destruct Hg as [Hok' Hkeep]. rewrite <-Hl. split; [|done]. eapply store_ok_lss; [done|done|].
    eapply layers_ok_mono; eauto.
Qed.

Lemma onLS_Release_ok s0 os ref cid l :
  store_ok s0 → lss s0 = {[ GOOS := l ]} → lgr_holds l ref cid →
  (∀ id m, images s0 !! id = Some m → im_layer m ≠ Some ref) →
  itr (λ s, s = s0) (onLS os (lgr_Release ref))
    (λ _ s, layers_only s0 s ∧ ∃ l', lss s = {[ GOOS := l' ]} ∧ ∀ i, ¬ lgr_holds l' ref i)
    (layers_only s0).
Proof.
  intros Hok Hl Href Hfree s ->. pose proof Hok as (_&(l0&Hl0&Hlo)&_).
  rewrite Hl in Hl0. apply (inj _) in Hl0 as <-. unfold onLS.
  destruct (decide (os = GOOS)) as [->|Hne]; [|by rewrite (lss_singleton _ _ _ Hl Hne)].
  rewrite Hl, lookup_singleton_eq. pose proof (lgr_Release_spec l ref cid (lo_ok _ _ Hlo) Href) as Hr.
  assert (∀ l', (∀ r i, r ≠ ref → lgr_holds l r i → lgr_holds l' r i) → lgr_ok l' → layers_ok l' (images s0)) as Hmono.
  { intros l' Hkeep Hok'. eapply layers_ok_mono; [done|done|]. intros id m r i Hm Hmr Hi.
    apply Hkeep; [|done]. intros ->. by eapply Hfree. }
  destruct (lgr_Release ref l) as [[mds|e|p] l']; [..|done]; rewrite <-Hl.
  - destruct Hr as (Hok'&Hgone&Hkeep). split; [split; [eapply store_ok_lss; eauto|done]|].
    exists l'. split; [by simpl; rewrite Hl, insert_singleton_eq|done].
  - destruct Hr as (Hok'&Hkeep). split; [eapply store_ok_lss; eauto|done].
Qed.

(** [Create]. *)
Definition memory_kept s0 s : Prop :=
  store_ok s ∧ images s = images s0 ∧ digestSet s = digestSet s0.

(** What [Create] leaves behind when it succeeds. *)
Definition created (config : string) s0 id s : Prop :=
  store_ok s ∧ id = Digest.FromBytes config ∧ be_content (ifs s) id = Some config ∧
  (∀ x, image_digest x → x ≠ id → be_content (ifs s) x = be_content (ifs s0) x) ∧
  (∀ x y, image_digest x → meta_key y → be_meta (ifs s) x y = be_meta (ifs s0) x y) ∧
  match images s0 !! id with
  | Some _ => images s = images s0
  | None => ∃ o, images s = <[id := mkMeta o ∅]> (images s0)
  end.

Lemma onDS_Add_ok s0 l o id :
  store_ok s0 → lss s0 = {[ GOOS := l ]} → layers_ok l (images s0) → image_digest id →
  holds_layer l id (mkMeta o ∅) →
  (∀ id' m ref, images s0 !! id' = Some m → o = Some ref → im_layer m ≠ Some ref) →
  ∃ ds, DigestSet.Add (digestSet s0) id = Ok ds ∧
    store_ok (set_digestSet ds (set_images <[id := mkMeta o ∅]> s0)).
Proof.
  intros Hok Hl Hlo Hid Hh Hu.
  assert (Digest.valid id = true) as Hv by (destruct Hid as (hex&->&?&?); by apply valid_canonical).
  destruct (Add_ok (digestSet s0) id) as (ds&Hadd&_); [apply Hok|done|].
  exists ds. split; [done|]. by eapply store_ok_insert.
Qed.

Lemma finish_create_ok s0 l o id :
  store_ok s0 → lss s0 = {[ GOOS := l ]} → layers_ok l (images s0) → image_digest id →
  holds_layer l id (mkMeta o ∅) →
  (∀ id' m ref, images s0 !! id' = Some m → o = Some ref → im_layer m ≠ Some ref) →
  itr (λ s, s = s0)
    (_ ← modify (set_images <[id := mkMeta o ∅]>);
     r ← attempt (onDS (λ d, DigestSet.Add d id));
     match r with
     | inl e => _ ← modify (set_images (delete id)); fail e
     | inr _ => mret id
     end)
    (λ i s, i = id ∧ store_ok s ∧ images s = <[id := mkMeta o ∅]> (images s0) ∧ ifs s = ifs s0)
    (memory_kept s0).
Proof.
  intros Hok Hl Hlo Hid Hh Hu s ->.
  destruct (onDS_Add_ok s0 l o id) as (ds&Hadd&Hok'); try done.
  unfold mbind, M_bind, modify, attempt, onDS. simpl. rewrite Hadd. by split_and!.
Qed.

(** The state holds a reference of its own, [o], to the layer [cid]. *)
Definition acquired s0 (cid : ChainID) (o : option Layer) s : Prop :=
  layers_only s0 s ∧ ∃ l, lss s = {[ GOOS := l ]} ∧ layers_ok l (images s) ∧
    match o with Some ref => lgr_holds l ref cid | None => cid = EmptyString end ∧
    ∀ id m ref, images s !! id = Some m → o = Some ref → im_layer m ≠ Some ref.

Lemma acquire_ok s0 os cid :
  store_ok s0 →
  itr (λ s, s = s0)
    (r ← attempt (onLS os (lgr_Get cid));
     match r with
     | inl e => fail (Wrap e ("failed to get layer " +:+ cid))
     | inr l => mret (Some l)
     end) (acquired s0 cid) (layers_only s0).
Proof.
  intros Hok. apply (itr_bind _ _ _ (λ r s, match r with inl _ => layers_only s0 s | inr ref => acquired s0 cid (Some ref) s end)).
  - eapply itr_attempt; [|by intros s Hs; split].
    eapply itr_conseq; [by apply onLS_Get_ok|done| |done].
    intros ref s (Hs&l&Hl&Hlo&Hh&Hf). split; [done|]. exists l. split_and!; try done.
    intros id m ref' Hm [= <-]. by eapply Hf.
  - intros [e|ref]; [by apply itr_fail|by apply itr_ret].
Qed.
Lemma acquired_none s0 : store_ok s0 → acquired s0 EmptyString None s0.
Proof. intros Hok. split; [done|]. destruct Hok as (_&(l&Hl&Hlo)&_). by exists l. Qed.

Lemma be_Set_ok s0 config :
  store_ok s0 →
  itr (λ s, s = s0) (onBE (be_Set config))
    (λ id s, files_only s0 s ∧ id = Digest.FromBytes config ∧ content_set (ifs s0) (ifs s) id (Some config))
    (memory_kept s0).
Proof.
  intros Hok. eapply itr_conseq; [apply itr_backend; [done|apply be_Set_spec; apply Hok|]|done|done|].
  - by intros d f (_&?&_).
  - intros s ((?&_&?&?)&_). done.
Qed.

Lemma created_intro config s0 s1 s id :
  files_only s0 s1 → id = Digest.FromBytes config → content_set (ifs s0) (ifs s1) id (Some config) →
  store_ok s → ifs s = ifs s1 →
  match images s0 !! id with
  | Some _ => images s = images s0
  | None => ∃ o, images s = <[id := mkMeta o ∅]> (images s0)
  end → created config s0 id s.
Proof.
  intros _ -> (_&Hc&Hm) Hok Hifs Him. pose proof (FromBytes_image_digest config) as Hd.
  split_and!; [done|done|..|done]; rewrite Hifs.
  - rewrite (Hc _ Hd), decide_True; done.
  - intros x Hx Hne. by rewrite (Hc _ Hx), decide_False.
  - done.
Qed.

Lemma Create_ok s0 config :
  store_ok s0 →
  itr (λ s, s = s0) (Create GOOS config) (created config s0) (memory_kept s0).
Proof.
  intros Hok. unfold Create. assert (memory_kept s0 s0) as Hself by done.
  apply (itr_bind _ _ _ (λ img s, json_unmarshal config = inr img ∧ s = s0)).
  { apply itr_of_sum; [by intros ? ->|]. done. }
  intros img. apply itr_pure. intros Hj.
  apply (itr_bind _ _ _ (λ r s, img_RootFS img = Some r ∧ s = s0)).
  { destruct (img_RootFS img); [by apply itr_ret|apply itr_panic; by intros ? ->]. }
  intros r. apply itr_pure. intros Hr.
  apply (itr_bind _ _ _ (λ _ s, s = s0)); [apply itr_guard; [by intros ? ->|done]|]. intros _.
  eapply itr_bind; [by apply be_Set_ok|]. intros id. apply itr_get. intros s1 (Hs1&Hid&Hset).
  pose proof Hs1 as (Hok1&_&Him&Hds).
  assert (∀ s, layers_only s1 s → memory_kept s0 s) as Hlay by (intros s (?&?&?&_); split_and!; congruence).
  destruct (images s1 !! id) as [m|] eqn:Hlook.
  { apply itr_ret. intros ? ->. eapply created_intro; eauto. by rewrite <-Him, Hlook. }
  eapply (itr_bind _ _ _ (acquired s1 (rf_ChainID GOOS r))).
  - destruct (String.eqb_spec (rf_ChainID GOOS r) EmptyString) as [->|]; simpl.
    + apply itr_ret. intros ? ->. by apply acquired_none.
    + apply (itr_bind _ _ _ (λ _ s, s = s1)); [apply itr_guard; [intros ? ->; apply Hlay; done|done]|]. intros _.
      by eapply itr_conseq; [apply acquire_ok|..].
  - intros o. apply itr_from. intros s2 ((Hok2&Him2&Hds2&Hifs2)&l&Hl&Hlo&Hh&Hf).
    eapply itr_conseq; [apply (finish_create_ok s2 l o id)|..]; try done.
    + subst id. apply FromBytes_image_digest.
    + exists (rf_ChainID GOOS r). split; [|done]. exists config, img, r. done.
    + intros i s (->&Hoks&Hims&Hifs). eapply created_intro; eauto; [congruence|].
      rewrite <-Him, Hlook. exists o. congruence.
    + intros s (?&?&?). split_and!; congruence.
Qed.

(** [SetParent] and [Delete]. *)

(** The images of [s] are those of [s0], perhaps without [id] among the
    children of its recorded parent. *)
Definition unlinked s0 id s : Prop :=
  images s = images s0 ∨
  ∃ p, be_meta (ifs s0) id "parent" = Some p ∧ images s = alter (drop_child id) p (images s0).

Definition same_layers im im' : Prop := ∀ id, im_layer <$> im' !! id = im_layer <$> im !! id.
Lemma same_layers_alter (f : imageMeta → imageMeta) p im :
  (∀ m, im_layer (f m) = im_layer m) → same_layers im (alter f p im).
Proof.
  intros Hf id. rewrite lookup_alter. destruct (decide (p = id)) as [->|]; [|done].
  destruct (im !! id); [|done]. simpl. by rewrite Hf.
Qed.
Lemma unlinked_layers s0 id s : unlinked s0 id s → same_layers (images s0) (images s).
Proof. intros [->|(p&_&->)]; [done|]. by apply same_layers_alter. Qed.

(** The invariant, and every image with its layer reference. *)
Definition layers_kept s0 s : Prop := store_ok s ∧ same_layers (images s0) (images s).

Lemma unlink_ok s0 id :
  store_ok s0 → image_digest id →
  itr (λ s, s = s0) (unlink id)
    (λ _ s, store_ok s ∧ lss s = lss s0 ∧ digestSet s = digestSet s0 ∧ same_view (ifs s0) (ifs s) ∧ unlinked s0 id s)
    (layers_kept s0).
Proof.
  intros Hok Hid. unfold unlink.
  apply (itr_bind _ _ _ (λ r s, same_files_view s0 s ∧ match r with inl _ => True | inr p => be_meta (ifs s0) id "parent" = Some p end)).
  - eapply itr_attempt; [by apply is_GetParent_ok|]. intros s Hs. split; [|done].
    destruct Hs as ((?&_&Him&_)&_). split; [done|]. by rewrite Him.
  - intros [e|p].
    + apply itr_ret. intros s (((?&?&?&?)&?)&_). split_and!; try done. by left.
    + apply itr_modify. intros s (((?&?&Him&?)&?)&Hp). split_and!; try done.
      * by apply store_ok_drop_child.
      * right. exists p. split; [done|]. simpl. by rewrite Him.
Qed.

(** What [SetParent] leaves behind when it succeeds. *)
Definition parent_set s0 id parent s : Prop :=
  store_ok s ∧ digestSet s = digestSet s0 ∧ lss s = lss s0 ∧ meta_set (ifs s0) (ifs s) id "parent" (Some parent) ∧
  is_Some (images s0 !! parent) ∧
  ∃ im, (im = images s0 ∨
         ∃ p, be_meta (ifs s0) id "parent" = Some p ∧ im = alter (drop_child id) p (images s0)) ∧
    images s = alter (add_child id) parent im.

Lemma SetParent_ok s0 id parent :
  store_ok s0 → image_digest id →
  itr (λ s, s = s0) (SetParent id parent) (λ _, parent_set s0 id parent) (layers_kept s0).
Proof.
  intros Hok Hid. unfold SetParent. apply itr_get. intros ? ->.
  destruct (images s0 !! parent) as [m|] eqn:Hp; [|by apply itr_fail; intros ? ->].
  eapply itr_bind; [by apply unlink_ok|]. intros u. apply itr_from. intros s1 (Hok1&Hl1&Hd1&Hv1&Hu1).
  set (s2 := set_images (alter (add_child id) parent) s1).
  assert (store_ok s2) as Hok2 by (by apply store_ok_add_child).
  apply (itr_bind _ _ _ (λ _ s, s = s2)); [by apply itr_modify; intros ? ->|]. intros u'.
  eapply itr_conseq; [apply itr_backend; [done|apply be_SetMetadata_spec; [apply Hok2|done|by left]|]|done|..].
  - by intros ? f [? _].
  - intros u'' s [(Hoks&Hls&Hims&Hds) (Hbe&Hc&Hm)]. destruct Hv1 as (_&Hc1&Hm1).
    split; [done|]. split; [by rewrite Hds|]. split; [by rewrite Hls|]. split.
    { split; [done|]. split; [intros x Hx; rewrite (Hc _ Hx); by apply Hc1|].
      intros x y Hx Hy. rewrite (Hm _ _ Hx Hy). case_decide; [done|]. by apply Hm1. }
    split; [by eexists|]. exists (images s1). split; [|by rewrite Hims].
    destruct Hu1 as [?|?]; [by left|by right].
  - intros s ((?&_&Him&_)&_). split; [done|]. rewrite Him. intros i. simpl.
    rewrite (same_layers_alter (add_child id) parent (images s1)) by done. by apply (unlinked_layers s0 id).
Qed.

(** Whatever happens to the files of one image, the maps stay. *)
Lemma drop_files_ok {A : Type} s0 (m : M F A) :
  store_ok s0 →
  match m (ifs s0) with (Panic _, _) => False | (_, f) => be_ok f end →
  itr (λ s, s = s0) (ignore_err (onBE m)) (λ _, files_only s0) (files_only s0).
Proof.
  intros Hok Hm. apply itr_ignore; [|done]. intros s ->. unfold onBE, zoom.
  destruct (m (ifs s0)) as [[a|e|p] f]; [..|done]; (split_and!; [by apply store_ok_ifs|done..]).
Qed.

Lemma orphan_children_ok s0 cs :
  store_ok s0 → (∀ c, c ∈ cs → image_digest c) →
  itr (λ s, s = s0) (for_each cs (λ c, ignore_err (onBE (be_DeleteMetadata c "parent"))))
    (λ _, files_only s0) (files_only s0).
Proof.
  intros Hok Hcs. eapply itr_conseq; [apply (itr_for_each _ _ (files_only s0) (files_only s0))|by intros s ->|done|done].
  intros c Hc. apply itr_from. intros s Hs.
  eapply itr_conseq; [apply (drop_files_ok s); [apply Hs|]|done|..].
  - pose proof (be_DeleteMetadata_spec (ifs s) c "parent") as Hd.
    destruct Hs as ((Hbe&_)&_). specialize (Hd Hbe (Hcs c Hc) (or_introl eq_refl)).
    by destruct (be_DeleteMetadata c "parent" (ifs s)) as [[]]; simpl in Hd; [apply Hd..|].
  - intros a s' Hs'. by eapply files_only_trans.
  - intros s' Hs'. by eapply files_only_trans.
Qed.

(** The digest set and the map lose the image together. *)
Lemma forget_ok {A : Type} s0 id (k : M (IS L F) A) Q E :
  store_ok s0 → image_digest id →
  itr (λ s, store_ok s ∧ lss s = lss s0 ∧ images s = delete id (images s0)) k Q E →
  itr (λ s, s = s0)
    (_ ← ignore_err (onDS (λ d, DigestSet.Remove d id)); _ ← modify (set_images (delete id)); k) Q E.
Proof.
  intros Hok Hid Hk s ->.
  assert (Digest.valid id = true) as Hv by (destruct Hid as (hex&->&?&?); by apply valid_canonical).
  destruct (Remove_ok (digestSet s0) id) as (ds&Hrem&_); [apply Hok|done|].
  unfold ignore_err, mbind, M_bind, attempt, onDS, modify. simpl. rewrite Hrem. simpl.
  apply Hk. split_and!; [|done..]. by apply store_ok_delete.
Qed.

Lemma release_ok s0 os id (m0 : imageMeta) l :
  store_ok s0 → lss s0 = {[ GOOS := l ]} → holds_layer l id m0 →
  (∀ i m ref, images s0 !! i = Some m → im_layer m0 = Some ref → im_layer m ≠ Some ref) →
  itr (λ s, s = s0) (match im_layer m0 with Some l => onLS os (lgr_Release l) | None => mret [] end)
    (λ _ s, store_ok s ∧ images s = images s0 ∧
       ∀ l ref i, lss s = {[ GOOS := l ]} → im_layer m0 = Some ref → ¬ lgr_holds l ref i)
    (λ s, store_ok s ∧ images s = images s0).
Proof.
  intros Hok Hl (cid&_&Hh) Hfree. destruct (im_layer m0) as [ref|]; [|by apply itr_ret; intros ? ->].
  eapply itr_conseq; [eapply onLS_Release_ok; try done|done|..].
  - intros i m Hm. by eapply Hfree.
  - intros mds s ((?&?&_&_)&l'&Hl'&Hno). split_and!; [done..|].
    intros l0 ref' i Hl0 [= <-]. rewrite Hl' in Hl0. apply (inj _) in Hl0 as <-. apply Hno.
  - by intros s (?&?&_).
Qed.

(** No other image has the reference of the one that leaves. *)
Lemma delete_frees l im0 im id (m0 : imageMeta) :
  layers_ok l im0 → im0 !! id = Some m0 → same_layers im0 im →
  ∀ i m ref, delete id im !! i = Some m → im_layer m0 = Some ref → im_layer m ≠ Some ref.
Proof.
  intros Hlo Hm0 Hsame i m ref [Hne Hm]%lookup_delete_Some Href Href'.
  specialize (Hsame i). rewrite Hm in Hsame. simpl in Hsame.
  destruct (im0 !! i) as [mi|] eqn:Hi; [|done]. injection Hsame as Hsame.
  apply Hne. eapply (lo_unique _ _ Hlo); [exact Hm0|exact Hi|done|congruence].
Qed.

(** What [Delete] leaves behind when it succeeds. *)
Definition deleted s0 id (m0 : imageMeta) s : Prop :=
  store_ok s ∧ images s !! id = None ∧
  (∀ i, i ≠ id → im_layer <$> images s !! i = im_layer <$> images s0 !! i) ∧
  (∀ l ref i, lss s = {[ GOOS := l ]} → im_layer m0 = Some ref → ¬ lgr_holds l ref i).

(** Every image but [id] has kept its layer reference. *)
Definition others_layers s0 id s : Prop :=
  store_ok s ∧ ∀ i, i ≠ id → im_layer <$> images s !! i = im_layer <$> images s0 !! i.
Lemma others_files s0 id s : files_only s0 s → others_layers s0 id s.
Proof. intros (?&_&Him&_). split; [done|]. by rewrite Him. Qed.

Lemma Delete_ok s0 id :
  store_ok s0 →
  itr (λ s, s = s0) (is_Delete GOOS id)
    (λ _ s, ∃ m0, images s0 !! id = Some m0 ∧ deleted s0 id m0 s) (others_layers s0 id).
Proof.
  intros Hok. unfold is_Delete. apply itr_get. intros ? ->.
  destruct (images s0 !! id) as [m0|] eqn:Hm0; [|by apply itr_fail; intros ? ->].
  pose proof Hok as (_&(l&Hl&Hlo)&_&Hno).
  assert (image_digest id) as Hid by (apply (no_images _ Hno); by eexists).
  assert (∀ s, files_only s0 s → others_layers s0 id s) as Hfo by (intros s; apply others_files).
  apply (itr_bind _ _ _ (λ r, files_only s0)).
  { eapply itr_attempt; [eapply itr_conseq; [by apply (is_Get_ok s0 id)|done|by intros img s [[? _] _]|]|].
    - intros s Hs. exact Hs.
    - intros s [Hs _]. split; [by apply Hfo|done]. }
  intros [e|img]; [by apply itr_fail|].
  apply (itr_bind _ _ _ (λ _, files_only s0)); [by apply itr_guard|]. intros u.
  apply itr_from. intros s1 Hs1. eapply itr_bind.
  { eapply itr_conseq; [apply (orphan_children_ok s1)|done|..]; [apply Hs1|..].
    - intros c Hc. apply elem_of_elements in Hc. by eapply (no_children _ Hno).
    - intros v s Hs. exact (files_only_trans _ _ _ Hs1 Hs).
    - intros s Hs. apply Hfo. by eapply files_only_trans. }
  intros u'. apply itr_from. intros s2 Hs2. eapply itr_bind.
  { eapply itr_conseq; [apply (unlink_ok s2); [apply Hs2|done]|done|intros ? ? Hq; exact Hq|].
    intros s [? Hsame]. split; [done|]. intros i _. rewrite (Hsame i). by destruct Hs2 as (_&_&->&_). }
  intros u''. apply itr_from. intros s3 (Hok3&Hl3&_&_&Hu3). apply forget_ok; [done|done|].
  assert (same_layers (images s0) (images s3)) as Hsame.
  { apply unlinked_layers in Hu3. by destruct Hs2 as (_&_&<-&_). }
  assert (∀ s, store_ok s → images s = delete id (images s3) → others_layers s0 id s) as Hdel.
  { intros s Hoks Hims. split; [done|]. intros i Hne. rewrite Hims, lookup_delete_ne by done. apply Hsame. }
  apply itr_from. intros s4 (Hok4&Hl4&Him4). eapply itr_bind.
  { eapply itr_conseq; [apply (drop_files_ok s4); [done|]|done|..].
    - pose proof (be_Delete_spec (ifs s4) id (proj1 Hok4) Hid) as Hd.
      by destruct (be_Delete id (ifs s4)) as [[]]; [apply Hd..|].
    - intros v s Hs. exact Hs.
    - intros s (?&_&Hims&_). apply Hdel; [done|congruence]. }
  intros u3. apply itr_from. intros s5 (Hok5&Hl5&Him5&_).
  assert (lss s5 = {[GOOS := l]}) as HlG by (destruct Hs2 as (_&?&_); congruence).
  eapply itr_conseq; [apply (release_ok s5 _ id m0 l)|..]; try done.
  - by apply (lo_holds _ _ Hlo).
  - rewrite Him5, Him4. by apply (delete_frees l (images s0)).
  - intros mds s (Hoks&Hims&Hrel). exists m0. split; [done|].
    destruct (Hdel s Hoks ltac:(congruence)) as [_ Hoth]. split_and!; [done| |done|done].
    by rewrite Hims, Him5, Him4, lookup_delete_eq.
  - intros s [Hoks Hims]. apply Hdel; [done|congruence].
Qed.

(** [restore]. *)
Lemma image_of_chain id config img :
  image_of id config img → ∃ r, img_RootFS img = Some r ∧ image_chain id (rf_ChainID GOOS r).
Proof.
  intros (img0&p&Hd&Hj&->). unfold NewFromJSON in Hj. destruct (json_unmarshal config) as [|img1] eqn:Hu; [done|].
  destruct (img_RootFS img1) as [r|] eqn:Hr; [|done]. injection Hj as <-. exists r. split; [done|].
  by exists config, img1, r.
Qed.

Lemma restore_finish_ok s0 o id cid s1 :
  image_digest id → image_chain id cid → acquired s1 cid o s0 →
  itr (λ s, s = s0) (_ ← onDS (λ d, DigestSet.Add d id); modify (set_images <[id := mkMeta o ∅]>))
    (λ _, store_ok) store_ok.
Proof.
  intros Hid Hc ((Hok&_)&l&Hl&Hlo&Hh&Hf) s ->.
  destruct (onDS_Add_ok s0 l o id) as (ds&Hadd&Hok'); try done.
  { exists cid. done. }
  unfold mbind, M_bind, modify, onDS. simpl. by rewrite Hadd.
Qed.

Lemma restore_image_ok id :
  image_digest id → itr store_ok (restore_image GOOS id) (λ _, store_ok) store_ok.
Proof.
  intros Hid. apply itr_from. intros s0 Hok. unfold restore_image.
  apply (itr_bind _ _ _ (λ r s, store_ok s ∧ match r with inl _ => True | inr img => ∃ config, image_of id config img end)).
  { eapply itr_attempt; [eapply itr_conseq; [by apply (is_Get_ok s0 id)|done|..]|].
    - intros img s [Hs (config&_&?)]. split; [apply Hs|]. by exists config.
    - intros s Hs. exact Hs.
    - intros s Hs. by split; [apply Hs|split; [apply Hs|]]. }
  intros [e|img]; [apply itr_ret; by intros s [? _]|]. apply itr_from. intros s1 (Hok1&config&Himg).
  destruct (image_of_chain _ _ _ Himg) as (r&Hr&Hc). rewrite Hr.
  destruct (String.eqb_spec (rf_ChainID GOOS r) EmptyString) as [He|Hne]; cbn [negb].
  - eapply restore_finish_ok; [done|done|]. rewrite He. by apply acquired_none.
  - destruct (IsOSSupported _ _); cbn [negb]; [|by apply itr_ret; intros ? ->].
    apply (itr_bind _ _ _ (λ r' s, match r' with inl _ => store_ok s | inr ref => acquired s1 (rf_ChainID GOOS r) (Some ref) s end)).
    + eapply itr_attempt; [eapply itr_conseq; [by apply onLS_Get_ok|done|..]|].
      * intros ref s (Hs&l&Hl&Hlo&Hh&Hf). split; [done|]. exists l. split_and!; try done.
        intros i m ref' Hm [= <-]. by eapply Hf.
      * by intros s [Hs _].
      * by intros s Hs; split.
    + intros [e|ref]; [destruct (bool_decide _); [by apply itr_ret|by apply itr_fail]|].
      apply itr_from. intros s2 Hs2. by eapply restore_finish_ok.
Qed.

Lemma restore_children_ok id :
  image_digest id → itr store_ok (restore_children id) (λ _, store_ok) store_ok.
Proof.
  intros Hid. apply itr_from. intros s0 Hok. apply (itr_bind _ _ _ (λ _, store_ok)).
  - eapply itr_attempt; [eapply itr_conseq; [by apply (is_GetParent_ok s0 id)|done|..]|].
    + intros p s [Hs _]. apply Hs.
    + intros s Hs. exact Hs.
    + intros s Hs. split; [apply Hs|]. intros _. apply Hs.
  - intros [e|p]; [by apply itr_ret|]. apply itr_modify. intros s Hs. by apply store_ok_add_child.
Qed.

Lemma restore_ok : itr store_ok (restore GOOS) (λ _, store_ok) store_ok.
Proof.
  unfold restore. apply (itr_bind _ _ _ (λ ds s, store_ok s ∧ Forall image_digest ds)).
  { apply itr_from. intros s0 Hok. eapply itr_conseq; [apply itr_backend; [done|apply be_Walk_spec; apply Hok|]|done|..].
    - by intros ds f [[? _] _].
    - by intros ds s [[? _] [_ ?]].
    - by intros s [[? _] _]. }
  intros ds. apply (itr_bind _ _ _ (λ _, store_ok)).
  - intros s [Hok Hds]. rewrite Forall_forall in Hds.
    apply (itr_for_each ds _ store_ok store_ok); [|done]. intros d Hd. by apply restore_image_ok, Hds.
  - intros _. apply itr_get. intros s0 Hok.
    eapply itr_conseq; [apply (itr_for_each _ _ store_ok store_ok)|by intros s ->|done|done].
    intros id (p&->&Hp)%list_elem_of_fmap. apply restore_children_ok. destruct p as [id m].
    apply elem_of_map_to_list in Hp. apply Hok. by eexists.
Qed.
End Invariant.
