(* ===== verification/ImageProps.v ===== *)
(** * What the image store guarantees

    The theorems on [src/engine/image/store.go]: histories of calls, the
    effect of each operation and searching by prefix. *)

From S2P Require Import Prelude FileSys Digest DigestSet Chain FileStore GraphDriver LayerStore LayerInv LayerOps LayerProps ContainerConfig ImageModel ImageFS ImageStore ImageInv.

(** The calls of clients. *)
Inductive image_op :=
| IGet (id : ImageID)
| ICreate (config : string)
| ISearch (term : string)
| IDelete (id : ImageID)
| ISetParent (id parent : ImageID)
| IGetParent (id : ImageID)
| ISetLastUpdated (now : Z) (id : ImageID)
| IGetLastUpdated (id : ImageID)
| IChildren (id : ImageID)
| IHeads
| IMap
| ILen.

Section Histories.
Context {L F : Type} `{LayerLaws L} `{BackendLaws F} `{JSON Image}.
Context (GOOS : string) (format_time : Z → string) (parse_time : string → error + Z).
Implicit Types (s : IS L F) (l : L) (id : ImageID).

Definition image_exec (op : image_op) : M (IS L F) () :=
  match op with
  | IGet id => _ ← is_Get id; mret tt
  | ICreate config => _ ← Create GOOS config; mret tt
  | ISearch term => _ ← Search term; mret tt
  | IDelete id => _ ← is_Delete GOOS id; mret tt
  | ISetParent id parent => SetParent id parent
  | IGetParent id => _ ← is_GetParent id; mret tt
  | ISetLastUpdated now id => SetLastUpdated format_time now id
  | IGetLastUpdated id => _ ← GetLastUpdated parse_time id; mret tt
  | IChildren id => _ ← Children id; mret tt
  | IHeads => _ ← Heads; mret tt
  | IMap => _ ← is_Map; mret tt
  | ILen => _ ← Len; mret tt
  end.

(** The identifiers under which a client writes are digests. *)
Definition image_admissible (op : image_op) : Prop :=
  match op with
  | ISetParent id _ | ISetLastUpdated _ id => image_digest id
  | _ => True
  end.

(** A client calls the store; or the layer store and the disk change on their
    own, the layer store keeping the references the images hold. *)
Inductive image_step : IS L F → IS L F → Prop :=
| image_call op r s s' : image_admissible op → image_exec op s = (r, s') → image_step s s'
| image_env s s' l l' :
    lss s = {[ GOOS := l ]} → lss s' = {[ GOOS := l' ]} → lgr_ok l' → be_ok (ifs s') →
    images s' = images s → digestSet s' = digestSet s →
    (∀ id m ref i, images s !! id = Some m → im_layer m = Some ref → lgr_holds l ref i → lgr_holds l' ref i) →
    image_step s s'.

Lemma itr_drop {A : Type} P (m : M (IS L F) A) Q :
  itr P m Q (store_ok GOOS) → (∀ a s, Q a s → store_ok GOOS s) →
  itr P (_ ← m; mret tt) (λ _, store_ok GOOS) (store_ok GOOS).
Proof. intros Hm HQ. eapply itr_bind; [exact Hm|]. intros a. apply itr_ret. exact (HQ a). Qed.

Lemma collect_ok all ids acc :
  (∀ id, id ∈ ids → image_digest id) →
  itr (store_ok GOOS) (collect all ids acc) (λ _, store_ok GOOS) (store_ok GOOS).
Proof.
  revert acc. induction ids as [|id ids IH]; intros acc Hids; simpl; [by apply itr_ret|].
  assert (∀ i, i ∈ ids → image_digest i) as Hids' by (intros i Hi; apply Hids; by right).
  apply itr_get. intros s0 Hok. destruct (negb all && _).
  { eapply itr_conseq; [by apply IH|by intros s ->|done|done]. }
  apply (itr_bind _ _ _ (λ _, store_ok GOOS)).
  - eapply itr_attempt.
    + eapply itr_conseq; [apply (is_Get_ok GOOS s0 id); [done|apply Hids; left]|done|..].
      * intros img s [Hs _]. apply Hs.
      * intros s Hs. exact Hs.
    + intros s Hs. split; [apply Hs|]. intros _. apply Hs.
  - intros [e|img]; by apply IH.
Qed.

Lemma backend_op_ok {A : Type} (m : M F A) (Q : F → A → F → Prop) :
  (∀ f, be_ok f → outcome_ok f (m f) (Q f)) → (∀ f a f', Q f a f' → be_ok f') →
  itr (store_ok GOOS) (onBE m) (λ _, store_ok GOOS) (store_ok GOOS).
Proof.
  intros Hm HQ. apply itr_from. intros s Hok.
  eapply itr_conseq; [apply itr_backend; [done|apply Hm, Hok|by apply HQ]|done|..].
  - by intros a s' [[? _] _].
  - by intros s' [[? _] _].
Qed.

Lemma reads_ok {A : Type} s0 (m : M (IS L F) A) :
  store_ok GOOS s0 →
  itr (same_files_view GOOS s0) m (λ _, same_files_view GOOS s0) (same_files_view GOOS s0) →
  itr (λ s, s = s0) m (λ _, store_ok GOOS) (store_ok GOOS).
Proof.
  intros Hok Hm. eapply itr_conseq; [exact Hm|intros s ->; by apply same_files_view_refl|..].
  - intros a s Hs. apply Hs.
  - intros s Hs. apply Hs.
Qed.

Lemma image_exec_ok op :
  image_admissible op → itr (store_ok GOOS) (image_exec op) (λ _, store_ok GOOS) (store_ok GOOS).
Proof.
  intros Hadm. apply itr_from. intros s0 Hok. destruct op; simpl in *.
  - apply (itr_drop _ _ (λ _, store_ok GOOS)); [|done]. apply reads_ok; [done|apply is_Get_reads].
  - eapply itr_drop; [eapply itr_conseq; [by apply Create_ok|done|done|]|]; [by intros s [? _]|].
    by intros i s [? _].
  - intros s ->. unfold Search, mbind, M_bind, get. by destruct (DigestSet.Lookup _ _).
  - eapply itr_drop; [eapply itr_conseq; [by apply Delete_ok|done|done|by intros s [? _]]|]. intros mds s (m0&_&Hd). apply Hd.
  - eapply itr_conseq; [by apply SetParent_ok|done| |by intros s [? _]]. by intros _ s [? _].
  - apply (itr_drop _ _ (λ _, store_ok GOOS)); [|done]. apply reads_ok; [done|apply is_GetParent_reads].
  - apply (itr_conseq _ (store_ok GOOS) _ _ (λ _, store_ok GOOS) _ (store_ok GOOS)); [|by intros s ->|done|done].
    eapply backend_op_ok; [intros f Hf; apply be_SetMetadata_spec; [done|done|by right]|].
    by intros f a f' [? _].
  - apply (itr_drop _ _ (λ _, store_ok GOOS)); [|done]. apply (itr_bind _ _ _ (λ _, store_ok GOOS)).
    + apply (itr_attempt _ _ _ _ (store_ok GOOS)); [|done]. apply reads_ok; [done|].
      apply itr_reads. intros f Hf. by apply be_GetMetadata_reads.
    + intros [e|b]; [by apply itr_ret|]. destruct (String.eqb _ _); [by apply itr_ret|]. by apply itr_of_sum.
  - by intros s ->.
  - apply (itr_drop _ _ (λ _, store_ok GOOS)); [|done]. apply itr_get. intros ? ->.
    eapply itr_conseq; [apply (collect_ok false)|by intros s ->|done|done].
    intros id (p&->&Hp)%list_elem_of_fmap. destruct p. apply elem_of_map_to_list in Hp. apply Hok. by eexists.
  - apply (itr_drop _ _ (λ _, store_ok GOOS)); [|done]. apply itr_get. intros ? ->.
    eapply itr_conseq; [apply (collect_ok true)|by intros s ->|done|done].
    intros id (p&->&Hp)%list_elem_of_fmap. destruct p. apply elem_of_map_to_list in Hp. apply Hok. by eexists.
  - by intros s ->.
Qed.

Lemma image_step_ok s s' : image_step s s' → store_ok GOOS s → store_ok GOOS s'.
Proof.
  intros [op r t t' Hadm Hop|t t' l l' Hl Hl' Hok' Hbe Him Hds Hkeep] Hok.
  - pose proof (image_exec_ok op Hadm t Hok) as Hx. rewrite Hop in Hx. by destruct r.
  - destruct Hok as (_&(l0&Hl0&Hlo)&Hd&Hn). rewrite Hl in Hl0. apply (inj _) in Hl0 as <-.
    split_and!; [done|..]; rewrite ?Him, ?Hds; [|done..]. exists l'. split; [done|].
    eapply layers_ok_mono; eauto.
Qed.

Lemma empty_images_ok l f : lgr_ok l → be_ok f → store_ok GOOS (mkIS {[ GOOS := l ]} ∅ f []).
Proof.
  intros Hl Hf. split_and!; simpl; [done|..].
  - exists l. split; [done|]. by split.
  - split; [by split; constructor|]. intros d. simpl. rewrite lookup_empty. split; [|by intros []].
    by intros ?%not_elem_of_nil.
  - split; [by intros id []|done].
Qed.

(** C2. The image store keeps its promises in every history: from a new store
    on a disk in any consistent state, through [restore] and any calls of its
    clients, with any failures and any changes the layer store and the disk
    make on their own, every image holds a reference of its own, shared with
    no other image, to the layer its configuration's chain ends in, and the
    digest set lists exactly the images. *)
Theorem image_history_invariant l f r s1 s :
  lgr_ok l → be_ok f → NewImageStore GOOS f {[ GOOS := l ]} = (r, s1) → rtc image_step s1 s →
  store_ok GOOS s.
Proof.
  intros Hl Hf Hnew Hsteps. assert (store_ok GOOS s1) as Hok.
  { pose proof (restore_ok GOOS _ (empty_images_ok l f Hl Hf)) as Hr.
    unfold NewImageStore in Hnew. rewrite Hnew in Hr. by destruct r. }
  clear Hnew. induction Hsteps as [|s1 s2 s3 Hst _ IH]; [done|]. by eapply IH, image_step_ok.
Qed.
End Histories.

Section Effects.
Context {L F : Type} `{LayerLaws L} `{BackendLaws F} `{JSON Image}.
Context (GOOS : string).
Implicit Types (s : IS L F) (l : L) (id : ImageID).

(** [Create] stores a configuration under its digest.  If it succeeds, the
    identifier is the digest of the bytes it was given, the backend has them,
    the image is in the map with its layer referenced, and nothing else has
    changed: an image that was there keeps its metadata and children.  If it
    fails or panics, no image has come or gone. *)
Theorem Create_promise s config :
  store_ok GOOS s →
  match Create GOOS config s with
  | (Ok id, s') => store_ok GOOS s' ∧ id = Digest.FromBytes config ∧ be_content (ifs s') id = Some config ∧
      is_Some (images s' !! id) ∧
      (∀ i, i ≠ id → images s' !! i = images s !! i) ∧
      (is_Some (images s !! id) → images s' = images s) ∧
      (∀ x, image_digest x → x ≠ id → be_content (ifs s') x = be_content (ifs s) x)
  | (_, s') => store_ok GOOS s' ∧ images s' = images s ∧ digestSet s' = digestSet s
  end.
Proof.
  intros Hok. pose proof (Create_ok GOOS s config Hok s eq_refl) as Hc.
  destruct (Create GOOS config s) as [[id|e|p] s']; [|exact Hc..].
  destruct Hc as (Hok'&Hid&Hcont&Hothers&_&Him). split_and!; try done.
  - destruct (images s !! id) eqn:Hi; [by rewrite Him, Hi|]. destruct Him as [o ->]. by rewrite lookup_insert_eq.
  - intros i Hne. destruct (images s !! id); [by rewrite Him|]. destruct Him as [o ->].
    by rewrite lookup_insert_ne.
  - intros [m Hm]. by rewrite Hm in Him.
Qed.

(** [Delete] removes one image: if it succeeds, the image was there and is
    gone, every other image is still there with the same layer reference, and
    the reference the image held is no longer outstanding.  If it fails, at
    whatever point, the invariant still holds, and every other image is still
    there with its layers. *)
Theorem Delete_promise s id :
  store_ok GOOS s →
  match is_Delete GOOS id s with
  | (Ok _, s') => store_ok GOOS s' ∧ images s' !! id = None ∧
      (∀ i, i ≠ id → im_layer <$> images s' !! i = im_layer <$> images s !! i) ∧
      ∃ m, images s !! id = Some m ∧
        ∀ l ref i, lss s' = {[ GOOS := l ]} → im_layer m = Some ref → ¬ lgr_holds l ref i
  | (_, s') => store_ok GOOS s' ∧ ∀ i, i ≠ id → im_layer <$> images s' !! i = im_layer <$> images s !! i
  end.
Proof.
  intros Hok. pose proof (Delete_ok GOOS s id Hok s eq_refl) as Hd.
  destruct (is_Delete GOOS id s) as [[mds|e|p] s']; [|exact Hd..].
  destruct Hd as (m&Hm&(?&?&?&?)). split_and!; try done. by exists m.
Qed.

(** After [SetParent] has succeeded, the parent is recorded on disk, so that
    [GetParent] can only return it, and the image is among its children; all
    layers, contents and other metadata are as before. *)
Theorem SetParent_promise s id parent :
  store_ok GOOS s → image_digest id →
  match SetParent id parent s with
  | (Ok _, s') => store_ok GOOS s' ∧ id ∈ is_children (images s') parent ∧
      (∀ i, im_layer <$> images s' !! i = im_layer <$> images s !! i) ∧
      meta_set (ifs s) (ifs s') id "parent" (Some parent) ∧
      ∀ p s'', is_GetParent id s' = (Ok p, s'') → p = parent
  | (_, s') => store_ok GOOS s'
  end.
Proof.
  intros Hok Hid. pose proof (SetParent_ok GOOS s id parent Hok Hid s eq_refl) as Hp.
  destruct (SetParent id parent s) as [[u|e|p] s']; [|exact (proj1 Hp)..].
  destruct Hp as (Hok'&_&_&Hmeta&[m Hm]&im&Him&Hs').
  assert (same_layers (images s) im) as Hsame.
  { destruct Him as [->|(p&_&->)]; [done|]. by apply same_layers_alter. }
  split_and!; [done|..|done|].
  - pose proof (Hsame parent) as Hpar. rewrite Hm in Hpar. unfold is_children. rewrite Hs', lookup_alter_eq.
    destruct (im !! parent); [|done]. simpl. by apply elem_of_union_l, elem_of_singleton.
  - intros i. rewrite Hs', (same_layers_alter (add_child id) parent im) by done. apply Hsame.
  - intros p s'' Hget. pose proof (is_GetParent_ok GOOS s' id Hok' Hid s' eq_refl) as Hg.
    rewrite Hget in Hg. destruct Hg as [_ Hg]. destruct Hmeta as (_&_&Hmeta).
    rewrite (Hmeta id "parent" Hid (or_introl eq_refl)), decide_True in Hg by done. congruence.
Qed.

(** [term] is a prefix of the hexadecimal part of [id], or of [id] itself and
    longer than its algorithm and the colon. *)
Definition matches (term : string) id : Prop :=
  String.prefix term (hex_part id) = true ∨
  String.prefix term id = true ∧ S (String.length Digest.Canonical) < String.length term.

Lemma entry_image s e :
  store_ok GOOS s → e ∈ digestSet s →
  is_Some (images s !! DigestSet.e_digest e) ∧ DigestSet.e_alg e = Digest.Canonical ∧
  DigestSet.e_val e = hex_part (DigestSet.e_digest e).
Proof.
  intros (_&_&Hd&Hn) He.
  assert (is_Some (images s !! DigestSet.e_digest e)) as Hin.
  { apply (do_all _ _ Hd). unfold DigestSet.All. by apply list_elem_of_fmap_2. }
  split; [done|]. destruct Hd as [[_ Hok] _]. rewrite Forall_forall in Hok.
  destruct (Hok e He) as (_&_&Hent). unfold DigestSet.entry_of in Hent.
  destruct (image_digest_hex _ (no_images _ Hn _ Hin)) as (Ha&Hh&_).
  rewrite Ha, Hh in Hent. by injection Hent as <-.
Qed.
Lemma entry_matches s e term :
  store_ok GOOS s → e ∈ digestSet s → denotes term e ↔ matches term (DigestSet.e_digest e).
Proof.
  intros Hok He. destruct (entry_image s e Hok He) as (_&Ha&Hv). unfold denotes, matches. by rewrite Ha, Hv.
Qed.
Lemma image_entry s id :
  store_ok GOOS s → is_Some (images s !! id) → ∃ e, e ∈ digestSet s ∧ DigestSet.e_digest e = id.
Proof.
  intros (_&_&Hd&_) Hid. apply (do_all _ _ Hd) in Hid. unfold DigestSet.All in Hid.
  apply list_elem_of_fmap in Hid as (e&->&He). by exists e.
Qed.
Lemma entry_unique s e1 e2 :
  store_ok GOOS s → e1 ∈ digestSet s → e2 ∈ digestSet s →
  DigestSet.e_digest e1 = DigestSet.e_digest e2 → e1 = e2.
Proof.
  intros (_&_&Hd&_) Hin1 Hin2 Heq. destruct Hd as [[_ Hok] _]. rewrite Forall_forall in Hok.
  destruct (Hok e1 Hin1) as (_&_&Hent1), (Hok e2 Hin2) as (_&_&Hent2). congruence.
Qed.

(** [Search] is exact: it returns the only image the term matches, reports
    an ambiguous term exactly when two images match, answers that there is no
    such image exactly when none does, never panics and changes nothing. *)
Theorem Search_exact s term :
  store_ok GOOS s →
  (Search term s).2 = s ∧
  match (Search term s).1 with
  | Ok id => is_Some (images s !! id) ∧ matches term id ∧
      ∀ i, is_Some (images s !! i) → matches term i → i = id
  | Err e =>
      e = imageNotFoundError term ∧ (∀ i, is_Some (images s !! i) → ¬ matches term i) ∨
      e = DigestSet.ErrDigestAmbiguous ∧ ∃ i j, i ≠ j ∧ is_Some (images s !! i) ∧ is_Some (images s !! j) ∧
        matches term i ∧ matches term j
  | Panic _ => False
  end.
Proof.
  intros Hok. pose proof Hok as (_&_&Hd&Hn). unfold Search, mbind, M_bind, get.
  pose proof (Lookup_ok (digestSet s) term (do_set _ _ Hd) (digests_canonical _ _ Hd Hn)) as Hl.
  destruct (DigestSet.Lookup (digestSet s) term) as [x|err|p]; [..|done]; (split; [done|]); simpl.
  - destruct Hl as (e&He&<-&Hden&Huniq). split_and!.
    + by apply (entry_image s e).
    + by apply (entry_matches s e).
    + intros i Hi Hm. destruct (image_entry s i Hok Hi) as (e'&He'&<-). f_equal. apply Huniq; [done|].
      by apply (entry_matches s e').
  - destruct Hl as [[-> Hnone]|[-> (e1&e2&Hin1&Hin2&Hne&Hd1&Hd2)]].
    + left. rewrite bool_decide_true by done. split; [done|]. intros i Hi Hm.
      destruct (image_entry s i Hok Hi) as (e'&He'&<-). apply (Hnone e' He'). by apply (entry_matches s e').
    + right. rewrite bool_decide_false by done. split; [done|].
      exists (DigestSet.e_digest e1), (DigestSet.e_digest e2). split.
      { intros Heq. apply Hne. by eapply entry_unique. }
      split_and!; [by apply (entry_image s e1)|by apply (entry_image s e2)|
                   by apply (entry_matches s e1)|by apply (entry_matches s e2)].
Qed.

(** The defect of [Create] on a configuration without a root file system:
    the nil pointer is dereferenced, in every state. *)
Theorem Create_panics_without_rootfs s config img :
  json_unmarshal config = inr img → img_RootFS img = None →
  Create GOOS config s = (Panic nil_deref, s).
Proof. intros Hj Hr. unfold Create, mbind, M_bind, of_sum. rewrite Hj. simpl. by rewrite Hr. Qed.

(** The defect of the check of an image's operating system: it ignores case,
    the layer stores are looked up with case, so that a configuration whose
    operating system is spelled otherwise than the host's is accepted,
    written to the backend, and then panics. *)
Theorem Create_panics_on_case s config img r :
  store_ok GOOS s → json_unmarshal config = inr img → img_RootFS img = Some r →
  layer_count (img_History img) ≤ length (DiffIDs r) → rf_ChainID GOOS r ≠ EmptyString →
  images s !! Digest.FromBytes config = None →
  OS (img_V1 img) ≠ EmptyString → OS (img_V1 img) ≠ GOOS → EqualFold GOOS (OS (img_V1 img)) = true →
  (∀ e f, be_Set config (ifs s) ≠ (Err e, f)) →
  ∃ s', Create GOOS config s = (Panic nil_deref, s') ∧ be_content (ifs s') (Digest.FromBytes config) = Some config.
Proof.
  intros Hok Hj Hr Hcount Hne Hnone Hos Hcase Hfold Hset. unfold Create, mbind, M_bind, of_sum.
  rewrite Hj. unfold mret, M_ret. cbv beta iota zeta. rewrite Hr. unfold guard_err. rewrite (proj2 (Nat.ltb_ge _ _) Hcount). simpl.
  pose proof (be_Set_spec (ifs s) config (proj1 Hok)) as Hs. unfold onBE, zoom.
  destruct (be_Set config (ifs s)) as [[d|e|p] f] eqn:Hbe; [|by destruct (Hset e f)|done].
  destruct Hs as (->&_&Hc&_). unfold get. simpl. rewrite Hnone, (proj2 (String.eqb_neq _ _) Hne). simpl.
  unfold OperatingSystem. rewrite (proj2 (String.eqb_neq _ _) Hos).
  unfold IsOSSupported. rewrite Hfold. simpl. unfold attempt, onLS. simpl.
  destruct Hok as (_&(l&Hl&_)&_). rewrite (lss_singleton GOOS s l _ Hl Hcase). simpl.
  eexists. split; [done|]. simpl. rewrite (Hc _ (FromBytes_image_digest config)). by rewrite decide_True.
Qed.
End Effects.
