(* ===== verification/ImageRuns.v ===== *)
(** * Runs of the image store

    A textual codec for image configurations, a store of images on the files of
    [src/engine/image/fs.go] and on a layer store in memory, and the theorems
    on the image store applied to it. *)

From S2P Require Import Prelude FileSys FileSysWf Digest DigestSet Chain FileStore GraphDriver LayerStore LayerInv LayerOps LayerProps ContainerConfig ImageModel ImageFS ImageStore ImageInv ImageProps.

(** ** A codec *)

Definition set_OS (os : string) (v : V1Image) : V1Image :=
  mkV1 (v1_ID v) (v1_Parent v) (Comment v) (Created v) (Container v) (ContainerConfig_ v) (DockerVersion v)
    (Author v) (img_Config v) (Architecture v) os (v1_Size v).
Definition flag_history (b : bool) : History := mkHistory 0 EmptyString EmptyString EmptyString b.

Fixpoint show_flags (bs : list bool) : string :=
  match bs with
  | [] => EmptyString
  | b :: bs => String (if b then "e" else "l")%char (show_flags bs)
  end.
Fixpoint read_flags (s : string) : list bool :=
  match s with
  | EmptyString => []
  | String c s => Ascii.eqb c "e" :: read_flags s
  end.
Lemma read_show_flags bs : read_flags (show_flags bs) = bs.
Proof. induction bs as [|[] bs IH]; cbn [show_flags read_flags]; [done|..]; by rewrite IH. Qed.

Definition image_fields (img : Image) : list string :=
  OS (img_V1 img) ::
  match img_RootFS img with
  | None => []
  | Some r => rf_Type r :: show_flags (EmptyLayerFlag <$> img_History img) :: DiffIDs r
  end.
Definition image_of_fields (fs : list string) : error + Image :=
  match fs with
  | [os] => inr (mkImage (set_OS os zero_v1) EmptyString None [] EmptyString [] EmptyString EmptyString)
  | os :: ty :: flags :: ds =>
      inr (mkImage (set_OS os zero_v1) EmptyString (Some (mkRootFS ty ds))
             (flag_history <$> read_flags flags) EmptyString [] EmptyString EmptyString)
  | _ => inl (Errorf "unexpected end of input")
  end.

#[export] Instance image_codec : JSON Image := {
  json_marshal img :=
    if forallb no_bar (image_fields img) && bool_decide (is_Some (img_RootFS img))
    then inr (GoString.join (String bar EmptyString) (image_fields img))
    else inl (Errorf "unsupported image");
  json_unmarshal s := image_of_fields (GoString.split bar s);
}.

Lemma no_bar_avoids fs : forallb no_bar fs = true → Forall (avoids bar) fs.
Proof.
  intros Hf. apply Forall_forall. intros w Hw. rewrite forallb_forall in Hf.
  specialize (Hf w ltac:(by apply list_elem_of_In)). unfold no_bar in Hf. unfold avoids.
  by destruct (GoString.index_byte bar w).
Qed.

#[export] Instance image_codec_laws : ImageJSONLaws.
Proof.
  constructor. intros img s. unfold json_marshal, json_unmarshal, image_codec.
  destruct (forallb no_bar (image_fields img)) eqn:Hf; [|done].
  destruct (img_RootFS img) as [r|] eqn:Hr; [|done].
  rewrite bool_decide_true by (by eexists). cbn [andb]. intros Hs _.
  assert (s = GoString.join (String bar EmptyString) (image_fields img)) as -> by congruence.
  rewrite split_join by (done || by apply no_bar_avoids).
  unfold image_fields. rewrite Hr. cbn [image_of_fields]. eexists. split; [reflexivity|].
  split_and!; simpl; [by destruct r| |done].
  rewrite read_show_flags, <-list_fmap_compose. apply list_fmap_id.
Qed.

(** ** A store *)

Definition image_root : path := ["images"].
#[export] Instance run_backend : Backend FS := ImageFS.fs_backend image_root.
#[export] Instance run_view : BackendView FS := fs_view image_root.
#[export] Instance run_laws : BackendLaws FS := fs_backend_laws image_root.
#[export] Instance run_layers : LayerGetReleaser (LS MemDisk) := layer_get_releaser store_root.
#[export] Instance run_layer_view : LayerView (LS MemDisk) := layer_view.
#[export] Instance run_layer_laws : LayerLaws (LS MemDisk) := layer_laws store_root.

Definition image_disk : FS := (ImageFS.newFSStore image_root {| nodes := ∅; faults := [] |}).2.
Definition new_store : IS (LS MemDisk) FS := (NewImageStore "linux" image_disk {[ "linux" := demo ]}).2.
(** Two configurations with the same layer. *)
Definition config_one : string := Eval vm_compute in "linux|layers|l|" +:+ demo_id.
Definition config_two : string := Eval vm_compute in "linux|layers|le|" +:+ demo_id.
Definition id_one : string := Eval vm_compute in Digest.FromBytes config_one.
Definition id_two : string := Eval vm_compute in Digest.FromBytes config_two.
Definition one_store : IS (LS MemDisk) FS := (Create "linux" config_one new_store).2.
Definition two_store : IS (LS MemDisk) FS := (Create "linux" config_two one_store).2.

Lemma newFSStore_keeps root : keeps (ImageFS.newFSStore root).
Proof. unfold ImageFS.newFSStore, ImageFS.wrap_error. solve_keeps. Qed.
Lemma image_disk_ok : be_ok image_disk.
Proof.
  pose proof (newFSStore_keeps image_root {| nodes := ∅; faults := [] |}) as Hk.
  assert (wf_tree ∅) as Hwf by (by split).
  specialize (Hk Hwf). unfold image_disk.
  destruct (ImageFS.newFSStore _ _) as [[u|e|p] f]; [done..|done].
Qed.
Lemma new_store_ok : store_ok "linux" new_store.
Proof.
  pose proof (restore_ok "linux" _ (empty_images_ok "linux" demo image_disk demo_wf image_disk_ok)) as Hr.
  unfold new_store, NewImageStore. by destruct (restore _ _) as [[] s].
Qed.
Lemma Create_store_ok s config : store_ok "linux" s → store_ok "linux" (Create "linux" config s).2.
Proof.
  intros Hok. pose proof (Create_ok "linux" s config Hok s eq_refl) as Hc.
  destruct (Create "linux" config s) as [[] s']; apply Hc.
Qed.
Lemma two_store_ok : store_ok "linux" two_store.
Proof. by apply Create_store_ok, Create_store_ok, new_store_ok. Qed.
Lemma id_one_digest : image_digest id_one.
Proof. apply (FromBytes_image_digest config_one). Qed.

Lemma create_step s config :
  image_step "linux" (λ _, EmptyString) (λ _, inr 0%Z) s (Create "linux" config s).2.
Proof.
  apply (image_call _ _ _ (ICreate config) (image_exec "linux" (λ _, EmptyString) (λ _, inr 0%Z) (ICreate config) s).1);
    [done|].
  unfold image_exec, mbind, M_bind. by destruct (Create "linux" config s) as [[] s'].
Qed.

Lemma image_history_invariant_witness :
  is_Some (images two_store !! id_two) ∧ store_ok "linux" two_store.
Proof.
  split; [vm_compute; eauto|].
  refine (image_history_invariant "linux" (λ _, EmptyString) (λ _, inr 0%Z) demo image_disk _ new_store two_store
    demo_wf image_disk_ok (surjective_pairing _) _).
  eapply rtc_l; [apply create_step|]. apply rtc_once, create_step.
Defined.

Lemma Create_promise_witness :
  (Create "linux" config_one new_store).1 = Ok id_one ∧ is_Some (images one_store !! id_one).
Proof.
  assert ((Create "linux" config_one new_store).1 = Ok id_one) as Hrun by (vm_compute; reflexivity).
  split; [done|]. pose proof (Create_promise "linux" new_store config_one new_store_ok) as Hp.
  unfold one_store. destruct (Create "linux" config_one new_store) as [r s]. simpl in Hrun. subst r. apply Hp.
Defined.

Lemma Delete_promise_witness :
  (∃ mds, (is_Delete "linux" id_one two_store).1 = Ok mds) ∧
  images (is_Delete "linux" id_one two_store).2 !! id_one = None.
Proof.
  assert (∃ mds, (is_Delete "linux" id_one two_store).1 = Ok mds) as [mds Hrun]
    by (eexists; vm_compute; reflexivity).
  split; [by eexists|]. pose proof (Delete_promise "linux" two_store id_one two_store_ok) as Hp.
  destruct (is_Delete "linux" id_one two_store) as [r s]. simpl in Hrun. subst r. apply Hp.
Defined.

Lemma SetParent_promise_witness :
  (SetParent id_one id_two two_store).1 = Ok tt ∧
  id_one ∈ is_children (images (SetParent id_one id_two two_store).2) id_two.
Proof.
  assert ((SetParent id_one id_two two_store).1 = Ok tt) as Hrun by (vm_compute; reflexivity).
  split; [done|].
  pose proof (SetParent_promise "linux" two_store id_one id_two two_store_ok id_one_digest) as Hp.
  destruct (SetParent id_one id_two two_store) as [r s]. simpl in Hrun. subst r. apply Hp.
Defined.

Lemma Search_exact_witness :
  (Search (GoString.take 3 (hex_part id_one)) two_store).1 = Ok id_one ∧
  ∀ i, is_Some (images two_store !! i) → matches (GoString.take 3 (hex_part id_one)) i → i = id_one.
Proof.
  assert ((Search (GoString.take 3 (hex_part id_one)) two_store).1 = Ok id_one) as Hrun by (vm_compute; reflexivity).
  split; [done|].
  destruct (Search_exact "linux" two_store (GoString.take 3 (hex_part id_one)) two_store_ok) as [_ Hp].
  rewrite Hrun in Hp. apply Hp.
Defined.

Lemma Create_panics_without_rootfs_witness :
  (Create "linux" "linux" new_store).1 = Panic nil_deref.
Proof.
  pose proof (Create_panics_without_rootfs "linux" new_store "linux"
    (mkImage (set_OS "linux" zero_v1) EmptyString None [] EmptyString [] EmptyString EmptyString)) as Hp.
  rewrite Hp; [done|vm_compute; reflexivity|done].
Defined.

Definition config_case : string := Eval vm_compute in "Linux|layers|l|" +:+ demo_id.
Lemma Create_panics_on_case_witness :
  ∃ s', Create "linux" config_case new_store = (Panic nil_deref, s') ∧
        be_content (ifs s') (Digest.FromBytes config_case) = Some config_case.
Proof.
  apply (Create_panics_on_case "linux" new_store config_case
    (mkImage (set_OS "Linux" zero_v1) EmptyString (Some (mkRootFS "layers" [demo_id])) [flag_history false]
       EmptyString [] EmptyString EmptyString) (mkRootFS "layers" [demo_id]) new_store_ok).
  - vm_compute. reflexivity.
  - done.
  - done.
  - vm_compute. discriminate.
  - vm_compute. reflexivity.
  - done.
  - done.
  - vm_compute. reflexivity.
  - intros e f Hset. apply (f_equal fst) in Hset. vm_compute in Hset. discriminate.
Defined.
