(* ===== verification/Reference.v ===== *)
(** * Names of images

    The references of [src/engine/vendor/github.com/docker/distribution/reference],
    which the reference store and the deletion of images work with: the regular
    expressions of the names, the four kinds of named references, their familiar
    forms and their parser. *)

From S2P Require Import Prelude Digest.

(** ** Regular expressions *)

Module Regexp.
(** The expressions, with numbered capturing groups. *)
Inductive re :=
| Eps
| Cls (p : ascii → bool)
| Seq (a b : re)
| Alt (a b : re)
| Star (a : re)
| Cap (n : nat) (a : re).

Definition caps := list (nat * string).

(** The match of [r] at the front of [s] preferred by Perl and Go, among those
    the continuation [k] accepts. *)
Fixpoint run (r : re) (s : string) (cs : caps) (k : string → caps → option caps) : option caps :=
  match r with
  | Eps => k s cs
  | Cls p => match s with
             | String c s' => if p c then k s' cs else None
             | EmptyString => None
             end
  | Seq a b => run a s cs (λ s' cs', run b s' cs' k)
  | Alt a b => match run a s cs k with
               | Some x => Some x
               | None => run b s cs k
               end
  | Star a =>
      (fix star (n : nat) (s : string) (cs : caps) : option caps :=
         match n with
         | O => k s cs
         | S n => match run a s cs (λ s' cs', if String.length s' <? String.length s then star n s' cs' else None) with
                  | Some x => Some x
                  | None => k s cs
                  end
         end) (String.length s) s cs
  | Cap i a =>
      run a s cs (λ s' cs', k s' ((i, GoString.take (String.length s - String.length s') s) :: cs'))
  end.

(** [FindStringSubmatch] of an expression anchored at both ends; a group that
    took no part is empty. *)
Definition find (r : re) (s : string) : option caps :=
  run r s [] (λ s' cs, if String.eqb s' EmptyString then Some cs else None).
Fixpoint group (n : nat) (cs : caps) : string :=
  match cs with
  | [] => EmptyString
  | (i, w) :: cs => if n =? i then w else group n cs
  end.
Definition MatchString (r : re) (s : string) : bool := match find r s with Some _ => true | None => false end.

Definition lit (c : ascii) : re := Cls (Ascii.eqb c).
Definition optional (a : re) : re := Alt a Eps.
Definition plus (a : re) : re := Seq a (Star a).
(** [a{0,n}], [a{n}] and [a{n,}]. *)
Fixpoint up_to (n : nat) (a : re) : re :=
  match n with O => Eps | S n => optional (Seq a (up_to n a)) end.
Fixpoint times (n : nat) (a : re) : re :=
  match n with O => Eps | S n => Seq a (times n a) end.
Definition at_least (n : nat) (a : re) : re := Seq (times n a) (Star a).
End Regexp.

(** ** [regexp.go] *)

Module RefRegexp.
Import Regexp.

Definition in_range (lo hi : ascii) (c : ascii) : bool :=
  let n := Ascii.nat_of_ascii c in (Ascii.nat_of_ascii lo <=? n) && (n <=? Ascii.nat_of_ascii hi).
Definition lower := in_range "a" "z".
Definition upper := in_range "A" "Z".
Definition digit := in_range "0" "9".
Definition alpha (c : ascii) : bool := lower c || upper c.
Definition alnum (c : ascii) : bool := alpha c || digit c.
Definition one_of (cs : list ascii) (c : ascii) : bool := existsb (Ascii.eqb c) cs.
Definition word (c : ascii) : bool := alnum c || Ascii.eqb c "_".
Definition xdigit (c : ascii) : bool := digit c || in_range "a" "f" c || in_range "A" "F" c.

Definition alphaNumericRegexp : re := plus (Cls (λ c, lower c || digit c)).
Definition separatorRegexp : re :=
  Alt (Cls (one_of ["."; "_"]%char)) (Alt (Seq (lit "_") (lit "_")) (Star (lit "-"))).
Definition nameComponentRegexp : re :=
  Seq alphaNumericRegexp (optional (plus (Seq separatorRegexp alphaNumericRegexp))).
Definition domainComponentRegexp : re :=
  Alt (Cls alnum) (Seq (Cls alnum) (Seq (Star (Cls (λ c, alnum c || Ascii.eqb c "-"))) (Cls alnum))).
Definition DomainRegexp : re :=
  Seq domainComponentRegexp
    (Seq (optional (plus (Seq (lit ".") domainComponentRegexp)))
         (optional (Seq (lit ":") (plus (Cls digit))))).
Definition TagRegexp : re := Seq (Cls word) (up_to 127 (Cls (λ c, word c || one_of ["."; "-"]%char c))).
Definition DigestRegexp : re :=
  Seq (Seq (Cls alpha) (Star (Cls alnum)))
    (Seq (Star (Seq (Cls (one_of ["-"; "_"; "+"; "."]%char)) (Seq (Cls alpha) (Star (Cls alnum)))))
      (Seq (lit ":") (at_least 32 (Cls xdigit)))).
Definition pathRegexp : re :=
  Seq nameComponentRegexp (optional (plus (Seq (lit "/") nameComponentRegexp))).
Definition NameRegexp : re := Seq (optional (Seq DomainRegexp (lit "/"))) pathRegexp.
Definition anchoredNameRegexp : re :=
  Seq (optional (Seq (Cap 1 DomainRegexp) (lit "/"))) (Cap 2 pathRegexp).
Definition ReferenceRegexp : re :=
  Seq (Cap 1 NameRegexp)
    (Seq (optional (Seq (lit ":") (Cap 2 TagRegexp)))
         (optional (Seq (lit "@") (Cap 3 DigestRegexp)))).
Definition IdentifierRegexp : re := times 64 (Cls GoString.is_hex).
Definition ShortIdentifierRegexp : re :=
  Seq (times 6 (Cls GoString.is_hex)) (up_to 58 (Cls GoString.is_hex)).
End RefRegexp.

(** ** [reference.go] *)

(** [repository] of the package, and the types that implement [Named]:
    [repository], [taggedReference], [canonicalReference] and [reference]. *)
Record RefRepo := mkRepo { r_domain : string; r_path : string }.
Inductive Named :=
| NRepository (r : RefRepo)
| NTagged (r : RefRepo) (tag : string)
| NCanonical (r : RefRepo) (dgst : string)
| NReference (r : RefRepo) (tag dgst : string).
(** A [Reference]: a named one, or a [digestReference]. *)
Inductive RefAny := RNamed (n : Named) | RDigest (d : string).

#[export] Instance RefRepo_eq_dec : EqDecision RefRepo.
Proof. solve_decision. Defined.
#[export] Instance Named_eq_dec : EqDecision Named.
Proof. solve_decision. Defined.

Module Ref.
Definition NameTotalLengthMax : nat := 255.
Definition ErrReferenceInvalidFormat := Sentinel "reference.ErrReferenceInvalidFormat".
Definition ErrTagInvalidFormat := Sentinel "reference.ErrTagInvalidFormat".
Definition ErrDigestInvalidFormat := Sentinel "reference.ErrDigestInvalidFormat".
Definition ErrNameContainsUppercase := Sentinel "reference.ErrNameContainsUppercase".
Definition ErrNameEmpty := Sentinel "reference.ErrNameEmpty".
Definition ErrNameTooLong := Sentinel "reference.ErrNameTooLong".

Definition repo_of (n : Named) : RefRepo :=
  match n with NRepository r | NTagged r _ | NCanonical r _ | NReference r _ _ => r end.
Definition repo_Name (r : RefRepo) : string :=
  if String.eqb (r_domain r) EmptyString then r_path r else r_domain r +:+ "/" +:+ r_path r.
Definition Name (n : Named) : string := repo_Name (repo_of n).
(** The type assertions to [Tagged] and [Canonical]. *)
Definition tag_of (n : Named) : option string :=
  match n with NTagged _ t | NReference _ t _ => Some t | _ => None end.
Definition digest_of (n : Named) : option string :=
  match n with NCanonical _ d | NReference _ _ d => Some d | _ => None end.
Definition String_ (n : Named) : string :=
  match n with
  | NRepository r => repo_Name r
  | NTagged r t => repo_Name r +:+ ":" +:+ t
  | NCanonical r d => repo_Name r +:+ "@" +:+ d
  | NReference r t d => repo_Name r +:+ ":" +:+ t +:+ "@" +:+ d
  end.

(** [WithTag], [WithDigest], [TrimNamed]. *)
Definition WithTag (n : Named) (tag : string) : error + Named :=
  if negb (Regexp.MatchString RefRegexp.TagRegexp tag) then inl ErrTagInvalidFormat
  else match digest_of n with
       | Some d => inr (NReference (repo_of n) tag d)
       | None => inr (NTagged (repo_of n) tag)
       end.
Definition WithDigest (n : Named) (dgst : string) : error + Named :=
  if negb (Regexp.MatchString RefRegexp.DigestRegexp dgst) then inl ErrDigestInvalidFormat
  else match tag_of n with
       | Some t => inr (NReference (repo_of n) t dgst)
       | None => inr (NCanonical (repo_of n) dgst)
       end.
Definition TrimNamed (n : Named) : Named := NRepository (repo_of n).

(** [getBestReferenceType]; an absent tag or digest is empty. *)
Definition getBestReferenceType (r : RefRepo) (tag dgst : string) : option RefAny :=
  if String.eqb (repo_Name r) EmptyString then
    if negb (String.eqb dgst EmptyString) then Some (RDigest dgst) else None
  else if String.eqb tag EmptyString then
    if negb (String.eqb dgst EmptyString) then Some (RNamed (NCanonical r dgst))
    else Some (RNamed (NRepository r))
  else if String.eqb dgst EmptyString then Some (RNamed (NTagged r tag))
  else Some (RNamed (NReference r tag dgst)).

(** [Parse]. *)
Definition Parse (s : string) : error + RefAny :=
  match Regexp.find RefRegexp.ReferenceRegexp s with
  | None =>
      if String.eqb s EmptyString then inl ErrNameEmpty
      else if Regexp.MatchString RefRegexp.ReferenceRegexp (GoString.to_lower s) then inl ErrNameContainsUppercase
      else inl ErrReferenceInvalidFormat
  | Some matches =>
      let name := Regexp.group 1 matches in
      let tag := Regexp.group 2 matches in
      let dgst := Regexp.group 3 matches in
      if NameTotalLengthMax <? String.length name then inl ErrNameTooLong else
      let repo := match Regexp.find RefRegexp.anchoredNameRegexp name with
                  | Some m => mkRepo (Regexp.group 1 m) (Regexp.group 2 m)
                  | None => mkRepo EmptyString name
                  end in
      let finish dgst := match getBestReferenceType repo tag dgst with
                         | Some r => inr r
                         | None => inl ErrNameEmpty
                         end in
      if negb (String.eqb dgst EmptyString) then
        match Digest.Parse dgst with
        | (d, None) => finish d
        | (_, Some e) => inl e
        end
      else finish EmptyString
  end.

(** ** [normalize.go] and [helpers.go] *)

Definition legacyDefaultDomain : string := "index.docker.io".
Definition defaultDomain : string := "docker.io".
Definition officialRepoName : string := "library".
Definition defaultTag : string := "latest".

Definition contains (c : ascii) (s : string) : bool :=
  match GoString.index_byte c s with Some _ => true | None => false end.

(** [splitDockerDomain]. *)
Definition splitDockerDomain (name : string) : string * string :=
  let '(domain, remainder) :=
    match GoString.index_byte "/" name with
    | Some i =>
        let d := GoString.take i name in
        if negb (contains "." d || contains ":" d) && negb (String.eqb d "localhost")
        then (defaultDomain, name) else (d, GoString.drop (S i) name)
    | None => (defaultDomain, name)
    end in
  let domain := if String.eqb domain legacyDefaultDomain then defaultDomain else domain in
  let remainder := if String.eqb domain defaultDomain && negb (contains "/" remainder)
                   then officialRepoName +:+ "/" +:+ remainder else remainder in
  (domain, remainder).

(** [ParseNormalizedNamed]. *)
Definition ParseNormalizedNamed (s : string) : error + Named :=
  if Regexp.MatchString RefRegexp.IdentifierRegexp s then
    inl (Errorf ("invalid repository name (" +:+ s +:+ "), cannot specify 64-byte hexadecimal strings"))
  else
    let '(domain, remainder) := splitDockerDomain s in
    let remoteName := match GoString.index_byte ":" remainder with
                      | Some i => GoString.take i remainder
                      | None => remainder
                      end in
    if negb (String.eqb (GoString.to_lower remoteName) remoteName) then
      inl (Errorf "invalid reference format: repository name must be lowercase")
    else match Parse (domain +:+ "/" +:+ remainder) with
         | inl e => inl e
         | inr (RNamed n) => inr n
         | inr (RDigest d) => inl (Errorf ("reference " +:+ d +:+ " has no name"))
         end.

(** [familiarizeName] and [Familiar]. *)
Definition familiarizeName (r : RefRepo) : RefRepo :=
  if String.eqb (r_domain r) defaultDomain then
    mkRepo EmptyString
      (match GoString.split "/" (r_path r) with
       | [a; b] => if String.eqb a officialRepoName then b else r_path r
       | _ => r_path r
       end)
  else r.
Definition Familiar (n : Named) : Named :=
  match n with
  | NRepository r => NRepository (familiarizeName r)
  | NTagged r t => NTagged (familiarizeName r) t
  | NCanonical r d => NCanonical (familiarizeName r) d
  | NReference r t d => NReference (familiarizeName r) t d
  end.
Definition FamiliarName (n : Named) : string := Name (Familiar n).
Definition FamiliarString (n : Named) : string := String_ (Familiar n).

(** [IsNameOnly] and [TagNameOnly]. *)
Definition IsNameOnly (n : Named) : bool := match n with NRepository _ => true | _ => false end.
Definition TagNameOnly (n : Named) : outcome Named :=
  if IsNameOnly n then
    match WithTag n defaultTag with
    | inl e => Panic "invalid tag format"
    | inr t => Ok t
    end
  else Ok n.

(** [ParseAnyReference]. *)
Definition ParseAnyReference (ref : string) : error + RefAny :=
  if Regexp.MatchString RefRegexp.IdentifierRegexp ref then inr (RDigest ("sha256:" +:+ ref))
  else match Digest.Parse ref with
       | (d, None) => inr (RDigest d)
       | _ => match ParseNormalizedNamed ref with inl e => inl e | inr n => inr (RNamed n) end
       end.
End Ref.
