(* ===== verification/RefStore.v ===== *)
(** * The reference store

    [src/engine/reference/store.go]: the tags and digests of images, grouped by
    repository, a cache of the references by image, and the file they are kept
    in.  A nil repository, which only a hand-written file can hold, is the
    empty map. *)

From S2P Require Import Prelude FileSys FileSysWf Digest DigestSet Reference.

(** [repository] and [store]. *)
Abbreviation Repository := (gmap string string).
Record RS := mkRS {
  Repositories : gmap string Repository;
  referencesByIDCache : gmap string (gmap string Named);
  rs_fs : FS;
}.
(** [Association]. *)
Record Association := mkAssoc { as_Ref : Named; as_ID : string }.

Definition set_Repositories (f : gmap string Repository → gmap string Repository) (s : RS) : RS :=
  mkRS (f (Repositories s)) (referencesByIDCache s) (rs_fs s).
Definition set_cache (f : gmap string (gmap string Named) → gmap string (gmap string Named)) (s : RS) : RS :=
  mkRS (Repositories s) (f (referencesByIDCache s)) (rs_fs s).
Definition onFS_rs {A} (m : M FS A) : M RS A :=
  zoom rs_fs (λ f s, mkRS (Repositories s) (referencesByIDCache s) f) m.

Module RefStore.
Definition ErrDoesNotExist : error := NotFound "reference does not exist".
Definition invalidTagError (msg : string) : error := InvalidParameter msg.
Definition conflictingTagError (msg : string) : error := Conflict msg.

(** [lexicalRefs] and [lexicalAssociations]. *)
Definition ref_le (a b : Named) : Prop := str_leb (Ref.String_ a) (Ref.String_ b) = true.
Definition assoc_le (a b : Association) : Prop := ref_le (as_Ref a) (as_Ref b).
#[global] Instance ref_le_dec : RelDecision ref_le.
Proof. intros a b. unfold ref_le. apply _. Defined.
#[global] Instance assoc_le_dec : RelDecision assoc_le.
Proof. intros a b. unfold assoc_le. apply _. Defined.

(** [favorDigest]. *)
Definition favorDigest (originalRef : Named) : error + Named :=
  match Ref.digest_of originalRef, Ref.tag_of originalRef with
  | Some d, Some _ => Ref.WithDigest (Ref.TrimNamed originalRef) d
  | _, _ => inr originalRef
  end.

(** The entry of a reference leaves and enters the cache. *)
Definition cache_drop (id refStr : string) (cache : gmap string (gmap string Named)) : gmap string (gmap string Named) :=
  match cache !! id with
  | None => cache
  | Some m => let m' := delete refStr m in
              if size m' =? 0 then delete id cache else <[id := m']> cache
  end.
Definition cache_add (id refStr : string) (ref : Named) (cache : gmap string (gmap string Named))
    : gmap string (gmap string Named) :=
  <[id := <[refStr := ref]> (default ∅ (cache !! id))]> cache.

Section Store.
Context `{JSON (gmap string Repository)} (jsonPath : path).

(** [save]. *)
Definition save : M RS () :=
  s ← get;
  jsonData ← of_sum (json_marshal (Repositories s));
  onFS_rs (Ioutils.AtomicWriteFile jsonPath jsonData).

(** [addReference]. *)
Definition addReference (ref : Named) (id : string) (force : bool) : M RS () :=
  ref ← of_sum (favorDigest ref);
  let refName := Ref.FamiliarName ref in
  let refStr := Ref.FamiliarString ref in
  _ ← guard_err (negb (String.eqb refName Digest.Canonical))
        (invalidTagError "refusing to create an ambiguous tag using digest algorithm as name");
  s ← get;
  let repository := default ∅ (Repositories s !! refName) in
  _ ← modify (set_Repositories <[refName := repository]>);
  _ ← match repository !! refStr with
      | Some oldID =>
          _ ← guard_err (match Ref.digest_of ref with Some _ => false | None => true end)
                (conflictingTagError ("Cannot overwrite digest " +:+ default EmptyString (Ref.digest_of ref)));
          _ ← guard_err force
                (conflictingTagError ("Conflict: Tag " +:+ refStr +:+ " is already set to image " +:+ oldID +:+
                   ", if you want to replace it, please use the force option"));
          modify (set_cache (cache_drop oldID refStr))
      | None => mret tt
      end;
  _ ← modify (set_Repositories <[refName := <[refStr := id]> repository]>);
  _ ← modify (set_cache (cache_add id refStr ref));
  save.

(** [AddTag] and [AddDigest]. *)
Definition AddTag (ref : Named) (id : string) (force : bool) : M RS () :=
  _ ← guard_err (match Ref.digest_of ref with Some _ => false | None => true end)
        (invalidTagError "refusing to create a tag with a digest reference");
  ref ← of_outcome (Ref.TagNameOnly ref);
  addReference ref id force.
Definition AddDigest (ref : Named) (id : string) (force : bool) : M RS () := addReference ref id force.

(** [Delete]: whether a deletion happened, and the error. *)
Definition Delete (ref : Named) : M RS (bool * option error) :=
  match favorDigest ref with
  | inl e => mret (false, Some e)
  | inr ref =>
      ref ← of_outcome (Ref.TagNameOnly ref);
      let refName := Ref.FamiliarName ref in
      let refStr := Ref.FamiliarString ref in
      s ← get;
      match Repositories s !! refName with
      | None => mret (false, Some ErrDoesNotExist)
      | Some repository =>
          match repository !! refStr with
          | None => mret (false, Some ErrDoesNotExist)
          | Some id =>
              let repository := delete refStr repository in
              _ ← modify (set_Repositories
                    (λ rs, if size repository =? 0 then delete refName rs else <[refName := repository]> rs));
              _ ← modify (set_cache (cache_drop id refStr));
              r ← attempt save;
              mret (true, match r with inl e => Some e | inr _ => None end)
          end
      end
  end.

(** The reference [Get] looks up. *)
Definition get_key (ref : Named) : outcome Named :=
  match Ref.digest_of ref with
  | Some d =>
      match Ref.tag_of ref with
      | Some _ => match Ref.WithDigest (Ref.TrimNamed ref) d with inl e => Err e | inr r => Ok r end
      | None => Ok ref
      end
  | None => Ref.TagNameOnly ref
  end.
(** [Get]. *)
Definition Get (ref : Named) : M RS string :=
  ref ← of_outcome (get_key ref);
  s ← get;
  match Repositories s !! Ref.FamiliarName ref with
  | None => fail ErrDoesNotExist
  | Some repository =>
      match repository !! Ref.FamiliarString ref with
      | None => fail ErrDoesNotExist
      | Some id => mret id
      end
  end.

(** [References] and [ReferencesByName]. *)
Definition References (id : string) : M RS (list Named) :=
  gets (λ s, merge_sort ref_le (map_to_list (default ∅ (referencesByIDCache s !! id))).*2).
Fixpoint associations (entries : list (string * string)) : option (list Association) :=
  match entries with
  | [] => Some []
  | (refStr, refID) :: entries =>
      match Ref.ParseNormalizedNamed refStr with
      | inl _ => None
      | inr ref => cons (mkAssoc ref refID) <$> associations entries
      end
  end.
Definition ReferencesByName (ref : Named) : M RS (list Association) :=
  gets (λ s, match Repositories s !! Ref.FamiliarName ref with
             | None => []
             | Some repository => merge_sort assoc_le (default [] (associations (map_to_list repository)))
             end).

(** [reload]: decoding adds to the repositories that are there. *)
Definition entries_of (repos : gmap string Repository) : list (string * string) :=
  map_to_list repos ≫= λ nr, map_to_list nr.2.
Definition cache_entry (cache : gmap string (gmap string Named)) (e : string * string)
    : gmap string (gmap string Named) :=
  match Ref.ParseNormalizedNamed e.1 with
  | inl _ => cache
  | inr ref => cache_add e.2 e.1 ref cache
  end.
Definition reload : M RS () :=
  content ← onFS_rs (Os.ReadFile jsonPath);
  repos ← of_sum (json_unmarshal content);
  _ ← modify (set_Repositories (λ old, repos ∪ old));
  modify (λ s, set_cache (λ cache, foldl cache_entry cache (entries_of (Repositories s))) s).

(** [NewReferenceStore] on a disk. *)
Definition NewReferenceStore (f : FS) : outcome () * RS :=
  (r ← attempt reload;
   match r with
   | inr _ => mret tt
   | inl e => if Os.IsNotExist e then save else fail e
   end) (mkRS ∅ ∅ f).
End Store.
End RefStore.
