(* ===== verification/RefProps.v ===== *)
(** * What the reference store guarantees

    The theorems on [src/engine/reference/store.go]: the cache agrees with the
    repositories in every history, each operation does to the map from
    references to images what its name says, and the file is replaced
    atomically and read back as it was written. *)

From S2P Require Import Prelude FileSys FileSysWf Digest DigestSet Reference RefStore.

(** ** Maps of maps *)

Section Nested.
Context {A : Type}.
Implicit Types (m : gmap string (gmap string A)) (a b : string).

Definition look2 m a b : option A := m !! a ≫= (.!! b).

Lemma look2_insert m a b x a' b' :
  look2 (<[a := <[b := x]> (default ∅ (m !! a))]> m) a' b' =
  if decide (a = a' ∧ b = b') then Some x else look2 m a' b'.
Proof.
  unfold look2. rewrite lookup_insert. destruct (decide (a = a')) as [<-|Hne]; simpl.
  - rewrite lookup_insert. destruct (decide (b = b')) as [<-|Hb].
    + by rewrite decide_True.
    + rewrite decide_False by tauto. by destruct (m !! a).
  - by rewrite decide_False by tauto.
Qed.
Lemma look2_delete m a b (r : gmap string A) a' b' :
  m !! a = Some r →
  look2 (if size (delete b r) =? 0 then delete a m else <[a := delete b r]> m) a' b' =
  if decide (a = a' ∧ b = b') then None else look2 m a' b'.
Proof.
  intros Hr. unfold look2. destruct (decide (a = a')) as [<-|Hne].
  - transitivity (delete b r !! b').
    + destruct (Nat.eqb_spec (size (delete b r)) 0) as [He%map_size_empty_inv|_].
      { rewrite lookup_delete_eq, He. simpl. by rewrite lookup_empty. }
      by rewrite lookup_insert_eq.
    + rewrite Hr, lookup_delete. simpl. destruct (decide (b = b')) as [<-|Hb].
      * by rewrite decide_True.
      * by rewrite decide_False by tauto.
  - rewrite decide_False by tauto. destruct (_ =? 0); [by rewrite lookup_delete_ne|by rewrite lookup_insert_ne].
Qed.

(** No inner map is empty. *)
Definition pruned m : Prop := ∀ a r, m !! a = Some r → r ≠ ∅.
Lemma pruned_insert m a b x : pruned m → pruned (<[a := <[b := x]> (default ∅ (m !! a))]> m).
Proof.
  intros Hp a' r. rewrite lookup_insert. case_decide; [|by apply Hp].
  intros [= <-]. apply insert_non_empty.
Qed.
Lemma pruned_delete m a b (r : gmap string A) :
  pruned m → pruned (if size (delete b r) =? 0 then delete a m else <[a := delete b r]> m).
Proof.
  intros Hp a' r'. destruct (Nat.eqb_spec (size (delete b r)) 0) as [_|He].
  - intros [_ Hr]%lookup_delete_Some. by eapply Hp.
  - rewrite lookup_insert. case_decide; [|by apply Hp]. intros [= <-] Hz. apply He. by rewrite Hz.
Qed.
(** Pruned maps with the same entries are equal. *)
Lemma pruned_ext m1 m2 : pruned m1 → pruned m2 → (∀ a b, look2 m1 a b = look2 m2 a b) → m1 = m2.
Proof.
  assert (∀ m m' a r, pruned m → (∀ a b, look2 m a b = look2 m' a b) → m !! a = Some r → m' !! a = Some r) as Hhalf.
  { intros m m' a r Hp Heq Hr. destruct (m' !! a) as [r'|] eqn:Hr'.
    - f_equal. symmetry. apply map_eq. intros b. specialize (Heq a b). unfold look2 in Heq. by rewrite Hr, Hr' in Heq.
    - destruct (Hp a r Hr). apply map_empty. intros b. specialize (Heq a b). unfold look2 in Heq.
      by rewrite Hr, Hr' in Heq. }
  intros Hp1 Hp2 Heq. apply map_eq. intros a. destruct (m1 !! a) as [r|] eqn:H1.
  - symmetry. by apply (Hhalf m1 m2).
  - destruct (m2 !! a) as [r|] eqn:H2; [|done].
    rewrite (Hhalf m2 m1 a r) in H1; done.
Qed.
End Nested.

(** ** The invariant *)

(** A reference as it is stored: with a tag or a digest but not both, and read
    back from its familiar form. *)
Definition parses (r : Named) : Prop := Ref.ParseNormalizedNamed (Ref.FamiliarString r) = inr r.
Definition normal (r : Named) : Prop :=
  match r with NTagged _ _ | NCanonical _ _ => True | _ => False end.
Definition good (r : Named) : Prop := parses r ∧ normal r.

(** The image a reference stands for, if it is stored as such. *)
Definition image_of_ref (s : RS) (r : Named) : option string :=
  look2 (Repositories s) (Ref.FamiliarName r) (Ref.FamiliarString r).
Definition cached (s : RS) (id str : string) : option Named := look2 (referencesByIDCache s) id str.

Record refs_ok (s : RS) : Prop := {
  rk_repo : ∀ name str id, look2 (Repositories s) name str = Some id →
    ∃ r, cached s id str = Some r ∧ Ref.FamiliarName r = name;
  rk_cache : ∀ id str r, cached s id str = Some r →
    Ref.FamiliarString r = str ∧ good r ∧ image_of_ref s r = Some id;
  rk_pruned : pruned (referencesByIDCache s);
}.

Lemma good_inj r1 r2 : good r1 → good r2 → Ref.FamiliarString r1 = Ref.FamiliarString r2 → r1 = r2.
Proof. unfold good, parses. intros [Hg1 _] [Hg2 _] Heq. rewrite Heq in Hg1. congruence. Qed.
Lemma good_key r : good r → RefStore.get_key r = Ok r.
Proof. intros [_ Hn]. by destruct r. Qed.

(** A stored name under any repository is that of a good reference. *)
Lemma stored_good s name str id r :
  refs_ok s → look2 (Repositories s) name str = Some id → good r → Ref.FamiliarString r = str →
  name = Ref.FamiliarName r ∧ cached s id str = Some r.
Proof.
  intros Hok Hlook Hg Hstr. destruct (rk_repo _ Hok _ _ _ Hlook) as (r'&Hr'&Hname).
  destruct (rk_cache _ Hok _ _ _ Hr') as (Hstr'&Hg'&_).
  assert (r' = r) as -> by (apply good_inj; congruence). done.
Qed.

Lemma refs_ok_fs s f : refs_ok s → refs_ok (mkRS (Repositories s) (referencesByIDCache s) f).
Proof. by intros [? ? ?]. Qed.

Lemma cached_drop s id str cache id' str' :
  referencesByIDCache s = cache →
  look2 (RefStore.cache_drop id str cache) id' str' =
  if decide (id = id' ∧ str = str') then None else cached s id' str'.
Proof.
  intros <-. unfold cached, RefStore.cache_drop. destruct (referencesByIDCache s !! id) as [m|] eqn:Hm.
  - by apply look2_delete.
  - case_decide as Hd; [|done]. destruct Hd as [<- <-]. unfold look2. by rewrite Hm.
Qed.
Lemma pruned_cache_drop id str cache : pruned cache → pruned (RefStore.cache_drop id str cache).
Proof.
  intros Hp. unfold RefStore.cache_drop. destruct (cache !! id); [|done]. by apply pruned_delete.
Qed.

(** The state after a good reference has been set to an image, and after it
    has been dropped. *)
Definition set_ref (r : Named) (id : string) (s : RS) : RS :=
  mkRS (<[Ref.FamiliarName r := <[Ref.FamiliarString r := id]> (default ∅ (Repositories s !! Ref.FamiliarName r))]>
          (Repositories s))
       (RefStore.cache_add id (Ref.FamiliarString r) r
          (match image_of_ref s r with
           | Some old => RefStore.cache_drop old (Ref.FamiliarString r) (referencesByIDCache s)
           | None => referencesByIDCache s
           end))
       (rs_fs s).
Definition drop_ref (r : Named) (id : string) (repo : Repository) (s : RS) : RS :=
  mkRS (let repo := delete (Ref.FamiliarString r) repo in
        if size repo =? 0 then delete (Ref.FamiliarName r) (Repositories s)
        else <[Ref.FamiliarName r := repo]> (Repositories s))
       (RefStore.cache_drop id (Ref.FamiliarString r) (referencesByIDCache s)) (rs_fs s).

Lemma cached_set s r id id' str' :
  cached (set_ref r id s) id' str' =
  if decide (id = id' ∧ Ref.FamiliarString r = str') then Some r
  else if decide (image_of_ref s r = Some id' ∧ Ref.FamiliarString r = str') then None
  else cached s id' str'.
Proof.
  unfold cached at 1. simpl. unfold RefStore.cache_add. rewrite look2_insert. case_decide; [done|].
  destruct (image_of_ref s r) as [old|]; [|by rewrite decide_False by (by intros [? _])].
  rewrite (cached_drop s) by done. apply decide_ext. split; [by intros [-> ->]|by intros [[= ->] ->]].
Qed.
Lemma image_set s r id r' :
  good r → good r' → image_of_ref (set_ref r id s) r' = if decide (r = r') then Some id else image_of_ref s r'.
Proof.
  intros Hg Hg'. unfold image_of_ref. simpl. rewrite look2_insert. apply decide_ext. split.
  - intros [_ Heq]. by apply good_inj.
  - by intros ->.
Qed.

Lemma refs_ok_set s r id : refs_ok s → good r → refs_ok (set_ref r id s).
Proof.
  intros Hok Hg. split.
  - intros name str' id'. simpl. rewrite look2_insert. setoid_rewrite cached_set. case_decide as Hd.
    { destruct Hd as [<- <-]. intros [= <-]. exists r. by rewrite decide_True. }
    intros Hlook. destruct (rk_repo _ Hok _ _ _ Hlook) as (r'&Hr'&Hname). exists r'. split; [|done].
    assert (Ref.FamiliarString r ≠ str') as Hne.
    { intros Heq. destruct (stored_good _ _ _ _ _ Hok Hlook Hg Heq) as [-> _]. by apply Hd. }
    by rewrite !decide_False by (by intros [_ ?]).
  - intros id' str' r'. rewrite cached_set. case_decide as Hd.
    { destruct Hd as [<- <-]. intros [= <-]. split_and!; [done|done|]. by rewrite image_set, decide_True. }
    case_decide as Hd'; [done|]. intros Hc. destruct (rk_cache _ Hok _ _ _ Hc) as (Hstr&Hg'&Him).
    split_and!; [done|done|]. rewrite image_set by done. case_decide as Heq; [|done]. subst r'. by destruct Hd'.
  - apply pruned_insert. destruct (image_of_ref s r); [apply pruned_cache_drop|]; apply Hok.
Qed.

Lemma image_drop s r id repo r' :
  good r → good r' → Repositories s !! Ref.FamiliarName r = Some repo →
  image_of_ref (drop_ref r id repo s) r' = if decide (r = r') then None else image_of_ref s r'.
Proof.
  intros Hg Hg' Hrepo. unfold image_of_ref. simpl. rewrite (look2_delete _ _ _ repo) by done.
  apply decide_ext. split; [|by intros ->]. intros [_ Heq]. by apply good_inj.
Qed.
Lemma refs_ok_drop s r id repo :
  refs_ok s → good r → Repositories s !! Ref.FamiliarName r = Some repo → image_of_ref s r = Some id →
  refs_ok (drop_ref r id repo s).
Proof.
  intros Hok Hg Hrepo Him. assert (∀ id' str', cached (drop_ref r id repo s) id' str' =
    if decide (id = id' ∧ Ref.FamiliarString r = str') then None else cached s id' str') as Hcd.
  { intros id' str'. by apply (cached_drop s). }
  split.
  - intros name str' id'. simpl. rewrite (look2_delete _ _ _ repo) by done. case_decide as Hd; [done|].
    intros Hlook. destruct (rk_repo _ Hok _ _ _ Hlook) as (r'&Hr'&Hname). exists r'. split; [|done].
    rewrite Hcd, decide_False; [done|]. intros [_ Heq].
    destruct (stored_good _ _ _ _ _ Hok Hlook Hg Heq) as [-> _]. by apply Hd.
  - intros id' str' r'. rewrite Hcd. case_decide as Hd; [done|]. intros Hc.
    destruct (rk_cache _ Hok _ _ _ Hc) as (Hstr&Hg'&Him'). split_and!; [done|done|].
    rewrite image_drop by done. case_decide as Heq; [|done]. subst r'. destruct Hd. split; congruence.
  - by apply pruned_cache_drop, Hok.
Qed.

(** ** The operations *)

Section Ops.
Context `{JSONLaws (gmap string Repository)} (jsonPath : path).
Hypothesis Hpath : jsonPath ≠ [].
Implicit Types (s : RS) (r ref : Named) (id : string).

(** The content of the file. *)
Definition on_disk s : option string :=
  match nodes (rs_fs s) !! jsonPath with Some (File c) => Some c | _ => None end.
Definition rs_ok s : Prop := refs_ok s ∧ wf_tree (nodes (rs_fs s)).
(** The maps of [s] are those of [s0]. *)
Definition same_maps s0 s : Prop :=
  Repositories s = Repositories s0 ∧ referencesByIDCache s = referencesByIDCache s0.

Lemma str_length_cons c w : String.length (String c w) = S (String.length w).
Proof. done. Qed.
Lemma tmp_not_file t : tmp_path t jsonPath ≠ jsonPath.
Proof using Hpath.
  destruct (tmp_path_name t jsonPath) as [k ->]. intros Heq%(f_equal base_name).
  rewrite base_name_snoc in Heq. apply (f_equal String.length) in Heq.
  rewrite app_cons, str_length_cons, str_length_app, str_length_app in Heq. lia.
Qed.

Lemma save_ok s0 :
  wf_tree (nodes (rs_fs s0)) →
  triple (λ s, s = s0) (RefStore.save jsonPath)
    (λ _ s, same_maps s0 s ∧ wf_tree (nodes (rs_fs s)) ∧
       ∃ data, json_marshal (Repositories s0) = inr data ∧ on_disk s = Some data)
    (λ _ s, same_maps s0 s ∧ wf_tree (nodes (rs_fs s)) ∧ on_disk s = on_disk s0).
Proof using Hpath.
  intros Hwf. unfold RefStore.save. intros s ->. unfold mbind, M_bind, get.
  destruct (json_marshal (Repositories s0)) as [e|data]; simpl; [done|].
  pose proof (AtomicWriteFile_spec (nodes (rs_fs s0)) jsonPath data Hwf Hpath (rs_fs s0) eq_refl) as Hspec.
  pose proof (keeps_AtomicWriteFile jsonPath data Hpath (rs_fs s0) Hwf) as Hk.
  unfold onFS_rs, zoom. destruct (Ioutils.AtomicWriteFile jsonPath data (rs_fs s0)) as [[u|e|p] f]; [..|done].
  - split_and!; [done|done|]. exists data. split; [done|]. unfold on_disk. simpl.
    rewrite Hspec. by rewrite lookup_insert_eq.
  - split_and!; [done|done|]. unfold on_disk. simpl.
    destruct Hspec as [->|[junk ->]]; [done|]. by rewrite lookup_insert_ne by apply tmp_not_file.
Qed.

(** A reference and the form it is stored under. *)
Lemma favorDigest_key ref r :
  RefStore.get_key ref = Ok r →
  ∃ r0, RefStore.favorDigest ref = inr r0 ∧ Ref.TagNameOnly r0 = Ok r ∧
    (Ref.digest_of ref = None → r0 = ref) ∧ (Ref.digest_of ref ≠ None → r0 = r).
Proof.
  unfold RefStore.get_key, RefStore.favorDigest. destruct (Ref.digest_of ref) as [d|] eqn:Hd.
  - destruct (Ref.tag_of ref) as [t|] eqn:Ht.
    + destruct (Ref.WithDigest (Ref.TrimNamed ref) d) as [e|r1] eqn:Hw; [done|]. intros [= <-].
      exists r1. split_and!; [done| |done|done]. unfold Ref.WithDigest, Ref.TrimNamed in Hw.
      destruct (negb _); [done|]. simpl in Hw. by injection Hw as <-.
    + intros [= <-]. exists ref. split_and!; [done| |done|done]. by destruct ref.
  - intros Hk. exists ref. by split_and!.
Qed.
Lemma key_has_tag_or_digest ref r : RefStore.get_key ref = Ok r → Ref.tag_of r = None → Ref.digest_of r ≠ None.
Proof.
  intros Hk. destruct (favorDigest_key _ _ Hk) as (r0&_&Ht&_). unfold Ref.TagNameOnly, Ref.WithTag in Ht.
  destruct r0; simpl in Ht; by injection Ht as <-.
Qed.

(** What adding a reference does. *)
Definition added s0 r id s : Prop := rs_ok s ∧ same_maps (set_ref r id s0) s.

Lemma added_intro s0 r id s :
  rs_ok s0 → good r → same_maps (set_ref r id s0) s → wf_tree (nodes (rs_fs s)) → added s0 r id s.
Proof.
  intros [Hok _] Hg [HR HC] Hwf. split; [|done]. split; [|done].
  destruct s as [R C f]. simpl in *. subst. by apply (refs_ok_fs (set_ref r id s0)), refs_ok_set.
Qed.
Lemma save_set_ok s0 r id :
  rs_ok s0 → good r →
  triple (λ s, s = set_ref r id s0) (RefStore.save jsonPath)
    (λ _ s, added s0 r id s ∧ ∃ data, json_marshal (Repositories s) = inr data ∧ on_disk s = Some data)
    (λ _ s, added s0 r id s ∧ on_disk s = on_disk s0).
Proof using Hpath.
  intros Hok Hg. eapply triple_conseq; [apply (save_ok (set_ref r id s0)); apply Hok|done|..].
  - intros u s (Hm&Hw&data&Hj&Hd). split; [by apply added_intro|]. exists data.
    split; [|done]. by rewrite (proj1 Hm).
  - intros e s (Hm&Hw&Hd). split; [by apply added_intro|done].
Qed.

(** The body of [addReference] up to [save]: the reference is refused, or the
    maps are set. *)
Lemma image_repo s r :
  image_of_ref s r = default ∅ (Repositories s !! Ref.FamiliarName r) !! Ref.FamiliarString r.
Proof. unfold image_of_ref, look2. by destruct (Repositories s !! Ref.FamiliarName r). Qed.
Lemma insert_default_id s r old :
  image_of_ref s r = Some old →
  <[Ref.FamiliarName r := default ∅ (Repositories s !! Ref.FamiliarName r)]> (Repositories s) = Repositories s.
Proof.
  unfold image_of_ref, look2. destruct (Repositories s !! Ref.FamiliarName r) eqn:Hr; [|done].
  intros _. by apply insert_id.
Qed.

(** Why an addition is refused. *)
Definition refused s0 r (force : bool) : Prop :=
  Ref.FamiliarName r = Digest.Canonical ∨
  image_of_ref s0 r ≠ None ∧ (force = false ∨ Ref.digest_of r ≠ None).

Lemma addReference_ok s0 ref r id force :
  rs_ok s0 → good r → RefStore.favorDigest ref = inr r →
  triple (λ s, s = s0) (RefStore.addReference jsonPath ref id force)
    (λ _ s, added s0 r id s ∧ ¬ refused s0 r force ∧
       ∃ data, json_marshal (Repositories s) = inr data ∧ on_disk s = Some data)
    (λ _ s, s = s0 ∧ refused s0 r force ∨ added s0 r id s ∧ ¬ refused s0 r force ∧ on_disk s = on_disk s0).
Proof using Hpath.
  intros Hok Hg Hfav s ->. unfold RefStore.addReference, mbind, M_bind. rewrite Hfav. simpl.
  destruct (String.eqb_spec (Ref.FamiliarName r) Digest.Canonical) as [Heq|Hname]; simpl; [by left; split; [|left]|].
  unfold get. simpl. pose proof (image_repo s0 r) as Him.
  assert (∀ s2, ¬ refused s0 r force → s2 = set_ref r id s0 →
    match RefStore.save jsonPath s2 with
    | (Ok _, s') => added s0 r id s' ∧ ¬ refused s0 r force ∧
        ∃ data, json_marshal (Repositories s') = inr data ∧ on_disk s' = Some data
    | (Err _, s') => s' = s0 ∧ refused s0 r force ∨ added s0 r id s' ∧ ¬ refused s0 r force ∧ on_disk s' = on_disk s0
    | (Panic _, _) => False
    end) as Hsave.
  { intros s2 Hnr ->. pose proof (save_set_ok s0 r id Hok Hg _ eq_refl) as Hs.
    destruct (RefStore.save jsonPath (set_ref r id s0)) as [[u|e|p] s']; [|right|done].
    - destruct Hs as [? ?]. by split_and!.
    - destruct Hs as [? ?]. by split_and!. }
  rewrite <-Him. destruct (image_of_ref s0 r) as [old|] eqn:Hold.
  - set (s1 := set_Repositories _ s0).
    assert (s1 = s0) as ->.
    { unfold s1, set_Repositories. rewrite (insert_default_id s0 r old) by done. by destruct s0. }
    destruct (Ref.digest_of r) as [d|] eqn:Hd; simpl.
    { left. split; [done|]. right. by rewrite Hold, Hd; split; [|right]. }
    destruct force; simpl; [|left; split; [done|]; right; by rewrite Hold; split; [|left]].
    apply Hsave.
    + intros [?|[_ [?|?]]]; done.
    + unfold set_ref. rewrite Hold. unfold set_Repositories, set_cache. simpl. done.
  - apply Hsave.
    + intros [?|[? _]]; done.
    + unfold set_ref. rewrite Hold. unfold set_Repositories, set_cache. simpl. by rewrite insert_insert_eq.
Qed.

Lemma AddTag_ok s0 ref r id force :
  rs_ok s0 → good r → RefStore.get_key ref = Ok r → Ref.digest_of ref = None →
  triple (λ s, s = s0) (RefStore.AddTag jsonPath ref id force)
    (λ _ s, added s0 r id s ∧ ¬ refused s0 r force ∧
       ∃ data, json_marshal (Repositories s) = inr data ∧ on_disk s = Some data)
    (λ _ s, s = s0 ∧ refused s0 r force ∨ added s0 r id s ∧ ¬ refused s0 r force ∧ on_disk s = on_disk s0).
Proof using Hpath.
  intros Hok Hg Hkey Hd s ->. unfold RefStore.AddTag. unfold mbind, M_bind. rewrite Hd. simpl.
  unfold RefStore.get_key in Hkey. rewrite Hd in Hkey. unfold of_outcome. rewrite Hkey.
  apply (addReference_ok s0 r r id force); [done|done| |done].
  unfold RefStore.favorDigest. destruct (Ref.digest_of r) eqn:Hdr; [|done].
  unfold Ref.TagNameOnly in Hkey. by destruct ref; simpl in *; simplify_eq.
Qed.
Lemma AddDigest_ok s0 ref r id force :
  rs_ok s0 → good r → RefStore.get_key ref = Ok r → Ref.digest_of ref ≠ None →
  triple (λ s, s = s0) (RefStore.AddDigest jsonPath ref id force)
    (λ _ s, added s0 r id s ∧ ¬ refused s0 r force ∧
       ∃ data, json_marshal (Repositories s) = inr data ∧ on_disk s = Some data)
    (λ _ s, s = s0 ∧ refused s0 r force ∨ added s0 r id s ∧ ¬ refused s0 r force ∧ on_disk s = on_disk s0).
Proof using Hpath.
  intros Hok Hg Hkey Hd. destruct (favorDigest_key _ _ Hkey) as (r0&Hf&_&_&Heq).
  specialize (Heq Hd) as ->. by apply addReference_ok.
Qed.

(** What deleting a reference does. *)
Definition removed s0 r s : Prop :=
  rs_ok s ∧ ∀ r', good r' → image_of_ref s r' = if decide (r = r') then None else image_of_ref s0 r'.

(** [r] is the reference stored under the names of the key [k]. *)
Lemma Delete_core s0 ref k r :
  rs_ok s0 → good r → RefStore.get_key ref = Ok k →
  Ref.FamiliarName k = Ref.FamiliarName r → Ref.FamiliarString k = Ref.FamiliarString r →
  triple (λ s, s = s0) (RefStore.Delete jsonPath ref)
    (λ res s, match image_of_ref s0 r with
              | None => res = (false, Some RefStore.ErrDoesNotExist) ∧ s = s0
              | Some _ => res.1 = true ∧ removed s0 r s ∧
                  (res.2 = None → ∃ data, json_marshal (Repositories s) = inr data ∧ on_disk s = Some data) ∧
                  (res.2 ≠ None → on_disk s = on_disk s0)
              end)
    (λ _ _, False).
Proof using Hpath.
  intros [Hok Hwf] Hg Hkey Hname Hstr s ->. destruct (favorDigest_key _ _ Hkey) as (r0&Hf&Ht&_&_).
  unfold RefStore.Delete. rewrite Hf. unfold mbind, M_bind, of_outcome. rewrite Ht.
  unfold get. cbv beta iota zeta. rewrite Hname, Hstr. pose proof (image_repo s0 r) as Him.
  destruct (Repositories s0 !! Ref.FamiliarName r) as [repo|] eqn:Hrepo; simpl in Him.
  2:{ rewrite Him. by rewrite lookup_empty. }
  rewrite Him. destruct (repo !! Ref.FamiliarString r) as [id|] eqn:Hid; [|done].
  pose proof (refs_ok_drop s0 r id repo Hok Hg Hrepo Him) as Hok'.
  assert (∀ s', same_maps (drop_ref r id repo s0) s' → wf_tree (nodes (rs_fs s')) → removed s0 r s') as Hrem.
  { intros [R C f] [HR HC] Hwf'. simpl in *. subst. split; [split; [|done]; by apply (refs_ok_fs (drop_ref r id repo s0))|].
    intros r' Hg'. by apply (image_drop s0 r id repo). }
  pose proof (save_ok (drop_ref r id repo s0) Hwf _ eq_refl) as Hs.
  unfold modify, attempt, set_Repositories, set_cache. cbv beta iota zeta. cbn [Repositories referencesByIDCache rs_fs].
  change (mkRS _ _ _) with (drop_ref r id repo s0).
  destruct (RefStore.save jsonPath (drop_ref r id repo s0)) as [[u|e|p] s']; [..|done].
  - destruct Hs as (Hm&Hw&data&Hj&Hd). cbn. split_and!; [done|by apply Hrem| |done].
    intros _. exists data. by rewrite (proj1 Hm).
  - destruct Hs as (Hm&Hw&Hd). cbn. split_and!; [done|by apply Hrem|done|done].
Qed.
Lemma ref_Delete_ok s0 ref r :
  rs_ok s0 → good r → RefStore.get_key ref = Ok r →
  triple (λ s, s = s0) (RefStore.Delete jsonPath ref)
    (λ res s, match image_of_ref s0 r with
              | None => res = (false, Some RefStore.ErrDoesNotExist) ∧ s = s0
              | Some _ => res.1 = true ∧ removed s0 r s ∧
                  (res.2 = None → ∃ data, json_marshal (Repositories s) = inr data ∧ on_disk s = Some data) ∧
                  (res.2 ≠ None → on_disk s = on_disk s0)
              end)
    (λ _ _, False).
Proof using Hpath. intros Hok Hg Hkey. by apply (Delete_core s0 ref r r). Qed.

Lemma get_key_ok ref : (∃ k, RefStore.get_key ref = Ok k) ∨ ∃ e, RefStore.favorDigest ref = inl e.
Proof.
  unfold RefStore.get_key, RefStore.favorDigest. destruct ref as [r|r t|r d|r t d]; simpl; [left; by eexists..|].
  destruct (Ref.WithDigest _ _) as [e|k]; [right; by eexists|left; by eexists].
Qed.
(** Deleting any reference at all removes one that is stored, or nothing. *)
Lemma Delete_any s0 ref :
  rs_ok s0 →
  triple (λ s, s = s0) (RefStore.Delete jsonPath ref)
    (λ res s, res.1 = false ∧ res.2 ≠ None ∧ s = s0 ∨
              res.1 = true ∧ ∃ r, good r ∧ image_of_ref s0 r ≠ None ∧ removed s0 r s)
    (λ _ _, False).
Proof using Hpath.
  intros Hok. destruct (get_key_ok ref) as [[k Hkey]|[e He]].
  2:{ intros s ->. unfold RefStore.Delete. rewrite He. by left. }
  destruct (image_of_ref s0 k) as [id|] eqn:Him.
  - destruct (rk_repo _ (proj1 Hok) _ _ _ Him) as (r&Hr&Hname).
    destruct (rk_cache _ (proj1 Hok) _ _ _ Hr) as (Hstr&Hg&Hir).
    eapply triple_conseq; [by apply (Delete_core s0 ref k r)|done| |done].
    intros res s. rewrite Hir. intros (?&?&_). right. split; [done|]. exists r. by rewrite Hir.
  - intros s ->. destruct (favorDigest_key _ _ Hkey) as (r0&Hf&Ht&_&_).
    unfold RefStore.Delete. rewrite Hf. unfold mbind, M_bind, of_outcome. rewrite Ht.
    unfold get. cbv beta iota zeta. pose proof (image_repo s0 k) as Hk. rewrite Him in Hk.
    destruct (Repositories s0 !! Ref.FamiliarName k) as [repo|]; [|by left]. simpl in Hk. rewrite <-Hk. by left.
Qed.

(** ** Reading the file back *)

(** Every entry belongs to a good reference, under its repository. *)
Definition repos_good (R : gmap string Repository) : Prop :=
  ∀ name str id, look2 R name str = Some id →
    ∃ r, good r ∧ Ref.FamiliarName r = name ∧ Ref.FamiliarString r = str.

Lemma refs_ok_good s : refs_ok s → repos_good (Repositories s).
Proof.
  intros Hok name str id Hl. destruct (rk_repo _ Hok _ _ _ Hl) as (r&Hr&Hn).
  destruct (rk_cache _ Hok _ _ _ Hr) as (?&?&_). by exists r.
Qed.

Lemma elem_of_entries R str id :
  (str, id) ∈ RefStore.entries_of R ↔ ∃ name, look2 R name str = Some id.
Proof.
  unfold RefStore.entries_of. rewrite list_elem_of_bind. split.
  - intros ([name repo]&Hin&Hrepo). simpl in Hin. apply elem_of_map_to_list in Hrepo, Hin.
    exists name. unfold look2. by rewrite Hrepo.
  - intros [name Hl]. unfold look2 in Hl. destruct (R !! name) as [repo|] eqn:Hr; [|done].
    exists (name, repo). split; [by apply elem_of_map_to_list|by apply elem_of_map_to_list].
Qed.

Lemma look2_cache_entry c e id str :
  look2 (RefStore.cache_entry c e) id str =
  match Ref.ParseNormalizedNamed e.1 with
  | inr r => if decide (e.2 = id ∧ e.1 = str) then Some r else look2 c id str
  | inl _ => look2 c id str
  end.
Proof.
  unfold RefStore.cache_entry. destruct (Ref.ParseNormalizedNamed e.1); [done|].
  unfold RefStore.cache_add. apply look2_insert.
Qed.
Lemma look2_reload es c id str :
  look2 (foldl RefStore.cache_entry c es) id str =
  match Ref.ParseNormalizedNamed str with
  | inr r => if decide ((str, id) ∈ es) then Some r else look2 c id str
  | inl _ => look2 c id str
  end.
Proof.
  revert c. induction es as [|[str' id'] es IH]; intros c; simpl.
  - by destruct (Ref.ParseNormalizedNamed str).
  - rewrite IH, look2_cache_entry. simpl. destruct (Ref.ParseNormalizedNamed str) as [e|r] eqn:Hp.
    + destruct (Ref.ParseNormalizedNamed str') as [e'|r'] eqn:Hp'; [done|].
      rewrite decide_False; [done|]. intros [_ ->]. congruence.
    + destruct (decide ((str, id) ∈ es)) as [Hin|Hin].
      { rewrite decide_True; [done|]. by right. }
      destruct (decide (str' = str)) as [->|Hne].
      * rewrite Hp. apply decide_ext. rewrite elem_of_cons. split; [intros [-> _]; by left|].
        by intros [[= ->]|?].
      * rewrite (decide_False (P := (str, id) ∈ (str', id') :: es)).
        { destruct (Ref.ParseNormalizedNamed str'); [done|]. by rewrite decide_False by tauto. }
        rewrite elem_of_cons. intros [[= -> ->]|?]; done.
Qed.
Lemma pruned_reload es c : pruned c → pruned (foldl RefStore.cache_entry c es).
Proof.
  revert c. induction es as [|e es IH]; intros c Hc; simpl; [done|]. apply IH.
  unfold RefStore.cache_entry. destruct (Ref.ParseNormalizedNamed e.1); [done|]. by apply pruned_insert.
Qed.

Definition reloaded (R : gmap string Repository) (f : FS) : RS :=
  mkRS R (foldl RefStore.cache_entry ∅ (RefStore.entries_of R)) f.
Lemma reloaded_ok R f : repos_good R → refs_ok (reloaded R f).
Proof.
  intros HR. assert (∀ id str, cached (reloaded R f) id str =
    match Ref.ParseNormalizedNamed str with
    | inr r => if decide ((str, id) ∈ RefStore.entries_of R) then Some r else None
    | inl _ => None
    end) as Hc.
  { intros id str. unfold cached. simpl. rewrite look2_reload. unfold look2. rewrite lookup_empty.
    by destruct (Ref.ParseNormalizedNamed str). }
  split.
  - intros name str id Hl. simpl in Hl. destruct (HR _ _ _ Hl) as (r&Hg&Hn&Hs). exists r. split; [|done].
    rewrite Hc. destruct Hg as [Hg _]. unfold parses in Hg. rewrite Hs in Hg. rewrite Hg, decide_True; [done|].
    apply elem_of_entries. by exists name.
  - intros id str r. rewrite Hc. destruct (Ref.ParseNormalizedNamed str) as [e|r0] eqn:Hp; [done|].
    destruct (decide ((str, id) ∈ RefStore.entries_of R)) as [Hin|]; [|done]. intros [= ->].
    apply elem_of_entries in Hin as [name Hl]. destruct (HR _ _ _ Hl) as (r'&Hg&Hn&Hs).
    assert (r' = r) as -> by (destruct Hg as [Hg _]; unfold parses in Hg; congruence).
    split_and!; [done|done|]. unfold image_of_ref. simpl. by rewrite Hn, Hs.
  - apply pruned_reload. intros a m Hm. by rewrite lookup_empty in Hm.
Qed.
(** The cache is determined by the repositories. *)
Lemma cache_determined s1 s2 :
  refs_ok s1 → refs_ok s2 → Repositories s1 = Repositories s2 → referencesByIDCache s1 = referencesByIDCache s2.
Proof.
  assert (∀ s s' id str r, refs_ok s → refs_ok s' → Repositories s = Repositories s' →
    cached s id str = Some r → cached s' id str = Some r) as Hhalf.
  { intros s s' id str r Hok Hok' HR Hc. destruct (rk_cache _ Hok _ _ _ Hc) as (Hs&Hg&Him).
    unfold image_of_ref in Him. rewrite HR in Him. by destruct (stored_good s' _ _ _ r Hok' Him Hg) as [_ <-];
      [|rewrite Hs]. }
  intros Hok1 Hok2 HR. apply pruned_ext; [apply Hok1|apply Hok2|]. intros id str.
  apply option_eq. intros r. split; intros Hc; [by apply (Hhalf s1 s2)|by apply (Hhalf s2 s1)].
Qed.

(** The file holds these repositories. *)
Definition written s (R : gmap string Repository) : Prop := ∃ data, json_marshal R = inr data ∧ on_disk s = Some data.

Lemma read_ok s0 :
  match onFS_rs (Os.ReadFile jsonPath) s0 with
  | (Ok c, s) => on_disk s0 = Some c ∧ same_maps s0 s ∧ nodes (rs_fs s) = nodes (rs_fs s0)
  | (Err e, s) => same_maps s0 s ∧ nodes (rs_fs s) = nodes (rs_fs s0) ∧ (Os.IsNotExist e = true → on_disk s0 = None)
  | (Panic _, _) => False
  end.
Proof using Hpath.
  unfold onFS_rs, zoom, Os.ReadFile, syscall, on_disk.
  destruct (faults (rs_fs s0)) as [|[|n] fs]; [| |by split_and!];
    (destruct (nodes (rs_fs s0) !! jsonPath) as [nd|] eqn:Hn;
     rewrite (node_at_ne _ _ Hpath), Hn; [destruct nd|]; by split_and!).
Qed.

Lemma empty_rs_ok f : wf_tree (nodes f) → rs_ok (mkRS ∅ ∅ f).
Proof.
  intros Hwf. split; [|done]. split; unfold cached, look2; simpl; try (intros *; by rewrite lookup_empty).
  intros a m. by rewrite lookup_empty.
Qed.
Lemma empty_good : repos_good ∅.
Proof. intros name str id. unfold look2. by rewrite lookup_empty. Qed.

(** A new store: its repositories are those of the file, or empty if there is
    none, in which case they are written. *)
Lemma NewReferenceStore_ok f :
  wf_tree (nodes f) → (on_disk (mkRS ∅ ∅ f) = None ∨ ∃ R, repos_good R ∧ written (mkRS ∅ ∅ f) R) →
  match RefStore.NewReferenceStore jsonPath f with
  | (Ok _, s) => rs_ok s ∧ written s (Repositories s) ∧ (∀ R, written (mkRS ∅ ∅ f) R → Repositories s = R)
  | (Err _, _) => True
  | (Panic _, _) => False
  end.
Proof using Hpath H0.
  intros Hwf Hdisk. unfold RefStore.NewReferenceStore, RefStore.reload.
  set (s0 := mkRS ∅ ∅ f) in *. unfold mbind, M_bind, attempt.
  pose proof (read_ok s0) as Hread. destruct (onFS_rs (Os.ReadFile jsonPath) s0) as [[c|e|p] s]; [..|done].
  - destruct Hread as (Hc&[HR HC]&Hn). destruct Hdisk as [Hno|(R&HRg&data&Hj&Hdd)]; [congruence|].
    assert (data = c) as -> by congruence. rewrite (json_roundtrip _ _ Hj). cbn. destruct s as [R' C' f']. simpl in *. subst R' C'.
    unfold set_cache, set_Repositories. simpl. rewrite (map_union_empty R).
    pose proof (reloaded_ok R f' HRg) as Hrl. split_and!.
    + split; [exact Hrl|]. simpl. by rewrite Hn.
    + exists c. split; [done|]. unfold on_disk in *. simpl in *. by rewrite Hn, Hc.
    + intros R' (c'&Hj'&Hc'). assert (c' = c) as -> by congruence. pose proof (json_roundtrip _ _ Hj) as H1. pose proof (json_roundtrip _ _ Hj') as H2. congruence.
  - destruct Hread as ([HR HC]&Hn&Hex). destruct (Os.IsNotExist e) eqn:He; [|done].
    assert (wf_tree (nodes (rs_fs s))) as Hwfs by (by rewrite Hn).
    pose proof (save_ok s Hwfs s eq_refl) as Hs.
    destruct (RefStore.save jsonPath s) as [[u|e'|p] s']; [|done|done].
    destruct Hs as ([HR' HC']&Hw&data&Hj&Hd). rewrite HR in Hj, HR'. rewrite HC in HC'. simpl in *.
    destruct s' as [R' C' f']. simpl in *. subst. split_and!.
    + by apply empty_rs_ok.
    + by exists data.
    + intros R (c&_&Hc). by rewrite (Hex eq_refl) in Hc.
Qed.

(** ** Histories *)

Inductive ref_op :=
| RAddTag (ref : Named) (id : string) (force : bool)
| RAddDigest (ref : Named) (id : string) (force : bool)
| RDelete (ref : Named).
Definition op_ref (op : ref_op) : Named :=
  match op with RAddTag ref _ _ | RAddDigest ref _ _ | RDelete ref => ref end.
Definition ref_exec (op : ref_op) : M RS () :=
  match op with
  | RAddTag ref id force => RefStore.AddTag jsonPath ref id force
  | RAddDigest ref id force => RefStore.AddDigest jsonPath ref id force
  | RDelete ref => res ← RefStore.Delete jsonPath ref; match res.2 with Some e => fail e | None => mret tt end
  end.
(** The references of clients come from the parser, and those of [AddDigest]
    have a digest. *)
Definition ref_admissible (op : ref_op) : Prop :=
  (∃ r, RefStore.get_key (op_ref op) = Ok r ∧ good r) ∧
  match op with RAddDigest ref _ _ => Ref.digest_of ref ≠ None | _ => True end.

(** A call, a failure of the disk to come, or a restart of the daemon; beside the store
    goes what the last call that returned no error made of its repositories. *)
Inductive ref_step : RS * gmap string Repository → RS * gmap string Repository → Prop :=
| ref_call op o s W s' : ref_admissible op → ref_exec op s = (o, s') →
    ref_step (s, W) (s', match o with Ok _ => Repositories s' | _ => W end)
| ref_env s W fs : ref_step (s, W) (mkRS (Repositories s) (referencesByIDCache s) (mkFS (nodes (rs_fs s)) fs), W)
| ref_restart s W s' : RefStore.NewReferenceStore jsonPath (rs_fs s) = (Ok tt, s') → ref_step (s, W) (s', W).

Definition ref_inv (x : RS * gmap string Repository) : Prop := rs_ok x.1 ∧ repos_good x.2 ∧ written x.1 x.2.
Lemma written_same s0 s R : written s0 R → on_disk s = on_disk s0 → written s R.
Proof. intros (data&Hj&Hd) Heq. exists data. by rewrite Heq. Qed.

(** What a call makes of the store and of the file. *)
Definition stored s0 (o : outcome ()) s : Prop :=
  rs_ok s ∧ match o with Ok _ => written s (Repositories s) | Err _ => on_disk s = on_disk s0 | Panic _ => False end.
Lemma add_stored s0 r id force (m : M RS ()) :
  rs_ok s0 →
  triple (λ s, s = s0) m
    (λ _ s, added s0 r id s ∧ ¬ refused s0 r force ∧
       ∃ data, json_marshal (Repositories s) = inr data ∧ on_disk s = Some data)
    (λ _ s, s = s0 ∧ refused s0 r force ∨ added s0 r id s ∧ ¬ refused s0 r force ∧ on_disk s = on_disk s0) →
  stored s0 (m s0).1 (m s0).2.
Proof.
  intros Hok Hm. specialize (Hm s0 eq_refl). unfold stored. destruct (m s0) as [[u|e|x] s]; cbn; [| |done].
  - destruct Hm as ([Hs _]&_&Hd). by split.
  - by destruct Hm as [[-> _]|([Hs _]&_&Hd)].
Qed.
Lemma ref_exec_ok s0 op : rs_ok s0 → ref_admissible op → stored s0 (ref_exec op s0).1 (ref_exec op s0).2.
Proof using Hpath.
  intros Hok [(r&Hkey&Hg) Hadm]. destruct op as [ref id force|ref id force|ref]; simpl in *.
  - destruct (Ref.digest_of ref) as [d|] eqn:Hdig.
    + unfold RefStore.AddTag, mbind, M_bind, stored. rewrite Hdig. by split.
    + by eapply add_stored, AddTag_ok.
  - by eapply add_stored, AddDigest_ok.
  - pose proof (ref_Delete_ok s0 ref r Hok Hg Hkey s0 eq_refl) as Hd. unfold mbind, M_bind.
    destruct (RefStore.Delete jsonPath ref s0) as [[res|e|x] s]; [|done..]. destruct (image_of_ref s0 r) as [id|].
    + destruct Hd as (_&[Hs _]&Hsync&Hsame). destruct res as [b [e|]]; cbn in *; (split; [done|]); [by apply Hsame|by apply Hsync].
    + by destruct Hd as [-> ->].
Qed.
Lemma ref_step_ok x y : ref_step x y → ref_inv x → ref_inv y.
Proof using Hpath H0.
  intros [op o t W t' Hadm Hop|t W fs|t W t' Hnew] (Hok&HW&Hwr); cbn in *.
  - pose proof (ref_exec_ok t op Hok Hadm) as [Hs Hd]. rewrite Hop in Hs, Hd. destruct o as [[]|e|msg]; cbn in *; [| |done].
    + split_and!; [done|apply refs_ok_good, Hs|done].
    + split_and!; [done|done|by eapply written_same].
  - destruct Hok as [Hok Hwf]. split_and!; [split; [by apply refs_ok_fs|done]|done|done].
  - pose proof (NewReferenceStore_ok (rs_fs t) (proj2 Hok) (or_intror (ex_intro _ W (conj HW Hwr)))) as Hn.
    rewrite Hnew in Hn. destruct Hn as (Hs&Hw&Heq). rewrite (Heq W Hwr) in Hw. by split_and!.
Qed.

(** ** The theorems *)

(** C22. In every history of additions and deletions that starts with a store without
    a file, with any failures of the disk and any restarts of the daemon in between, the
    cache of references by image agrees with the repositories, and the file holds the
    repositories as the last call that returned no error left them: a call that returns
    an error has not touched it, and a store that is opened again has just them. *)
Theorem refs_history_invariant f s1 s W :
  wf_tree (nodes f) → nodes f !! jsonPath = None →
  RefStore.NewReferenceStore jsonPath f = (Ok tt, s1) → rtc ref_step (s1, Repositories s1) (s, W) →
  rs_ok s ∧ written s W ∧
  ∀ s', RefStore.NewReferenceStore jsonPath (rs_fs s) = (Ok tt, s') → Repositories s' = W ∧ rs_ok s'.
Proof using Hpath H0.
  intros Hwf Hnone Hnew Hsteps. assert (ref_inv (s1, Repositories s1)) as Hinv.
  { assert (on_disk (mkRS ∅ ∅ f) = None) as Hd by (unfold on_disk; simpl; by rewrite Hnone).
    pose proof (NewReferenceStore_ok f Hwf (or_introl Hd)) as Hn. rewrite Hnew in Hn. destruct Hn as (Hs&Hw&_).
    split_and!; [done|apply refs_ok_good, Hs|done]. }
  clear Hnew. assert (ref_inv (s, W)) as (Hok&HW&Hwr) by (revert Hinv; induction Hsteps as [|x y z Hst _ IH]; intros Hx; [done|by eapply IH, ref_step_ok]).
  split_and!; [done|done|]. intros s' Hnew. pose proof (NewReferenceStore_ok (rs_fs s) (proj2 Hok) (or_intror (ex_intro _ W (conj HW Hwr)))) as Hn.
  rewrite Hnew in Hn. destruct Hn as (Hs&_&Heq). by rewrite (Heq W Hwr).
Qed.

Lemma image_added s0 r id s r' :
  added s0 r id s → good r → good r' →
  image_of_ref s r' = if decide (r = r') then Some id else image_of_ref s0 r'.
Proof.
  intros [_ [HR _]] Hg Hg'. rewrite <-image_set by done. unfold image_of_ref. by rewrite HR.
Qed.
Lemma Get_ok s ref r id :
  RefStore.get_key ref = Ok r → image_of_ref s r = Some id → RefStore.Get ref s = (Ok id, s).
Proof.
  intros Hkey Him. unfold RefStore.Get, mbind, M_bind, of_outcome, get. rewrite Hkey.
  unfold image_of_ref, look2 in Him. destruct (Repositories s !! Ref.FamiliarName r) as [repo|]; [|done].
  simpl in Him. by rewrite Him.
Qed.

(** [AddTag] sets one reference: if it succeeds, [Get] returns the image for
    this reference, every other reference stands for what it did, and it
    replaced an image only by force.  If it fails, either the reference was
    refused and nothing has changed, or the file could not be written, and it
    is as it was. *)
Theorem AddTag_promise s ref r id force :
  rs_ok s → good r → RefStore.get_key ref = Ok r → Ref.digest_of ref = None →
  match RefStore.AddTag jsonPath ref id force s with
  | (Ok _, s') => rs_ok s' ∧ RefStore.Get ref s' = (Ok id, s') ∧
      (∀ r', good r' → r' ≠ r → image_of_ref s' r' = image_of_ref s r') ∧
      (image_of_ref s r ≠ None → force = true)
  | (Err _, s') => s' = s ∧ refused s r force ∨ rs_ok s' ∧ on_disk s' = on_disk s
  | (Panic _, _) => False
  end.
Proof using Hpath.
  intros Hok Hg Hkey Hd. pose proof (AddTag_ok s ref r id force Hok Hg Hkey Hd s eq_refl) as Ha.
  destruct (RefStore.AddTag jsonPath ref id force s) as [[u|e|p] s']; [..|done].
  - destruct Ha as (Hadd&Hnr&_). split_and!.
    + apply Hadd.
    + eapply Get_ok; [done|]. rewrite (image_added _ _ _ _ r Hadd Hg Hg). by rewrite decide_True.
    + intros r' Hg' Hne. rewrite (image_added _ _ _ _ r' Hadd Hg Hg'). by rewrite decide_False.
    + intros Hsome. destruct force; [done|]. destruct Hnr. right. by split; [|left].
  - destruct Ha as [?|(Hadd&_&?)]; [by left|right]. by split; [apply Hadd|].
Qed.

(** Digests are immutable: no [AddTag] and no [AddDigest], forced or not,
    successful or not, changes the image a stored digest reference stands
    for. *)
Theorem digest_immutable s op r id :
  rs_ok s → ref_admissible op → good r → Ref.digest_of r ≠ None → image_of_ref s r = Some id →
  match op with RDelete _ => True | _ => image_of_ref (ref_exec op s).2 r = Some id end.
Proof using Hpath.
  intros Hok [(r1&Hkey&Hg1) Hadm] Hg Hdig Him.
  assert (∀ id' force s', added s r1 id' s' → ¬ refused s r1 force → image_of_ref s' r = Some id) as Hadd.
  { intros id' force s' Ha Hnr. rewrite (image_added _ _ _ _ _ Ha Hg1 Hg). case_decide as Heq; [|done].
    subst r1. destruct Hnr. right. by rewrite Him; split; [|right]. }
  destruct op as [ref id' force|ref id' force|ref]; [| |done]; simpl in *.
  - destruct (Ref.digest_of ref) as [d|] eqn:Hd.
    { unfold RefStore.AddTag, mbind, M_bind. by rewrite Hd. }
    pose proof (AddTag_ok s ref r1 id' force Hok Hg1 Hkey Hd s eq_refl) as Ha.
    destruct (RefStore.AddTag jsonPath ref id' force s) as [[u|e|p] s']; [|destruct Ha as [[-> _]|(?&?&_)]; eauto|done].
    destruct Ha as (?&?&_); eauto.
  - pose proof (AddDigest_ok s ref r1 id' force Hok Hg1 Hkey Hadm s eq_refl) as Ha.
    destruct (RefStore.AddDigest jsonPath ref id' force s) as [[u|e|p] s']; [|destruct Ha as [[-> _]|(?&?&_)]; eauto|done].
    destruct Ha as (?&?&_); eauto.
Qed.

(** [Delete] says what it did: it answers that the reference does not exist
    exactly when it stands for no image, and then changes nothing; otherwise
    this reference and no other is gone, also when the file could not be
    written, which the error tells. *)
Theorem Delete_ref_promise s ref r :
  rs_ok s → good r → RefStore.get_key ref = Ok r →
  match RefStore.Delete jsonPath ref s with
  | (Ok (false, err), s') => image_of_ref s r = None ∧ err = Some RefStore.ErrDoesNotExist ∧ s' = s
  | (Ok (true, err), s') => image_of_ref s r ≠ None ∧ rs_ok s' ∧
      (∀ r', good r' → image_of_ref s' r' = if decide (r = r') then None else image_of_ref s r') ∧
      (err ≠ None → on_disk s' = on_disk s)
  | _ => False
  end.
Proof using Hpath.
  intros Hok Hg Hkey. pose proof (ref_Delete_ok s ref r Hok Hg Hkey s eq_refl) as Hd.
  destruct (RefStore.Delete jsonPath ref s) as [[[b err]|e|p] s']; [|done..].
  destruct (image_of_ref s r) as [id|].
  - simpl in Hd. destruct Hd as (->&[? ?]&_&?). by split_and!.
  - by destruct Hd as [[= -> ->] ->].
Qed.

Lemma elem_of_References s id r :
  r ∈ (map_to_list (default ∅ (referencesByIDCache s !! id))).*2 ↔ ∃ str, cached s id str = Some r.
Proof.
  rewrite list_elem_of_fmap. unfold cached, look2.
  destruct (referencesByIDCache s !! id) as [m|]; simpl.
  - split.
    + intros ([str r']&->&Hin). apply elem_of_map_to_list in Hin. by exists str.
    + intros [str Hstr]. exists (str, r). split; [done|]. by apply elem_of_map_to_list.
  - rewrite map_to_list_empty. split; [by intros (?&_&?%not_elem_of_nil)|by intros [? ?]].
Qed.
Lemma cached_str s id str r : refs_ok s → cached s id str = Some r → str = Ref.FamiliarString r.
Proof. intros Hok Hc. by destruct (rk_cache _ Hok _ _ _ Hc) as (->&_). Qed.

Lemma NoDup_References s id :
  refs_ok s → NoDup (map_to_list (default ∅ (referencesByIDCache s !! id))).*2.
Proof.
  intros Hok. apply NoDup_fmap_2_strong; [|apply NoDup_map_to_list].
  assert (∀ str r, (str, r) ∈ map_to_list (default ∅ (referencesByIDCache s !! id)) → str = Ref.FamiliarString r) as Hstr.
  { intros str r Hin%elem_of_map_to_list. apply (cached_str s id); [done|]. unfold cached, look2.
    destruct (referencesByIDCache s !! id); [done|]. simpl in Hin. by rewrite lookup_empty in Hin. }
  intros [str1 r1] [str2 r2] Hin1 Hin2 Heq. simpl in Heq. subst r2.
  by rewrite (Hstr _ _ Hin1), (Hstr _ _ Hin2).
Qed.

Lemma References_ok s id :
  rs_ok s →
  ∃ refs, RefStore.References id s = (Ok refs, s) ∧ NoDup refs ∧ Sorted RefStore.ref_le refs ∧
    (∀ r, r ∈ refs → good r) ∧ ∀ r, good r → r ∈ refs ↔ image_of_ref s r = Some id.
Proof.
  intros [Hok _]. eexists. split; [done|].
  set (l := (map_to_list (default ∅ (referencesByIDCache s !! id))).*2).
  pose proof (merge_sort_Permutation RefStore.ref_le l) as Hperm.
  assert (∀ r, r ∈ merge_sort RefStore.ref_le l ↔ ∃ str, cached s id str = Some r) as Hin.
  { intros r. rewrite Hperm. apply elem_of_References. }
  split_and!.
  - rewrite Hperm. by apply NoDup_References.
  - apply Sorted_merge_sort. intros a b. unfold RefStore.ref_le, str_leb.
    destruct (str_ltb (Ref.String_ b) (Ref.String_ a)) eqn:Hlt; [|by left]. right. by apply str_ltb_leb in Hlt.
  - intros r Hr. apply Hin in Hr as [str Hc]. apply (rk_cache _ Hok _ _ _ Hc).
  - intros r Hg. rewrite Hin. split.
    + intros [str Hc]. apply (rk_cache _ Hok _ _ _ Hc).
    + intros Him. exists (Ref.FamiliarString r). by destruct (stored_good s _ _ _ r Hok Him Hg).
Qed.

(** [References] lists exactly the references that stand for an image, each
    once, in the order of their strings. *)
Theorem References_exact s id :
  rs_ok s →
  ∃ refs, RefStore.References id s = (Ok refs, s) ∧ NoDup refs ∧ Sorted RefStore.ref_le refs ∧
    (∀ r, r ∈ refs → good r) ∧ ∀ r, good r → r ∈ refs ↔ image_of_ref s r = Some id.
Proof. apply References_ok. Qed.

(** A restart gives back what was written: on a disk that holds the
    repositories of the store and does not fail, a new store has the same
    repositories, and rebuilds the same cache. *)
Theorem refs_restart s data :
  rs_ok s → json_marshal (Repositories s) = inr data → on_disk s = Some data → faults (rs_fs s) = [] →
  ∃ s', RefStore.NewReferenceStore jsonPath (rs_fs s) = (Ok tt, s') ∧
    Repositories s' = Repositories s ∧ referencesByIDCache s' = referencesByIDCache s ∧
    nodes (rs_fs s') = nodes (rs_fs s).
Proof using Hpath H0.
  intros [Hok Hwf] Hj Hd Hfaults. unfold on_disk in Hd.
  destruct (nodes (rs_fs s) !! jsonPath) as [[|c|]|] eqn:Hn; [done| |done|done]. injection Hd as ->.
  exists (reloaded (Repositories s) (mkFS (nodes (rs_fs s)) [])). split_and!; [|done| |done].
  - unfold RefStore.NewReferenceStore, RefStore.reload, mbind, M_bind, attempt, onFS_rs, zoom, Os.ReadFile, syscall.
    cbn [rs_fs]. rewrite Hfaults, (node_at_ne _ _ Hpath), Hn. cbn [of_sum]. rewrite (json_roundtrip _ _ Hj). cbn.
    unfold set_cache, set_Repositories. cbn [Repositories referencesByIDCache rs_fs].
    by rewrite (map_union_empty (Repositories s)).
  - apply cache_determined; [|done|done]. apply reloaded_ok. by apply refs_ok_good.
Qed.
End Ops.

(** ** Concrete runs *)

(** A codec: the repositories as a number, in binary. *)
Fixpoint show_pos (p : positive) : string :=
  match p with
  | xH => EmptyString
  | xO p => String "0" (show_pos p)
  | xI p => String "1" (show_pos p)
  end.
Fixpoint read_pos (s : string) : option positive :=
  match s with
  | EmptyString => Some xH
  | String "0" s => xO <$> read_pos s
  | String "1" s => xI <$> read_pos s
  | _ => None
  end.
Lemma read_show_pos p : read_pos (show_pos p) = Some p.
Proof. induction p as [p IH|p IH|]; cbn [show_pos read_pos]; [by rewrite IH..|done]. Qed.

#[export] Instance repos_codec : JSON (gmap string Repository) := {
  json_marshal R := inr (show_pos (encode R));
  json_unmarshal s := match read_pos s ≫= decode with
                      | Some R => inr R
                      | None => inl (Errorf "invalid character")
                      end;
}.
#[export] Instance repos_codec_laws : JSONLaws (gmap string Repository).
Proof.
  constructor. intros R s. cbn. intros [= <-]. rewrite read_show_pos. simpl. by rewrite decode_encode.
Qed.

Definition refs_path : path := ["repositories.json"].
Definition empty_disk : FS := mkFS ∅ [].
Definition refs_new : RS := (RefStore.NewReferenceStore refs_path empty_disk).2.
Definition ubuntu : Named := NTagged (mkRepo "docker.io" "library/ubuntu") "latest".
Definition ubuntu_name : Named := NRepository (mkRepo "docker.io" "library/ubuntu").
Definition img_a : string := "sha256:a".
Definition refs_one : RS := (RefStore.AddTag refs_path ubuntu_name img_a false refs_new).2.

Lemma ubuntu_good : good ubuntu.
Proof. split; [vm_compute; reflexivity|done]. Qed.
Lemma ubuntu_key : RefStore.get_key ubuntu_name = Ok ubuntu.
Proof. vm_compute. reflexivity. Qed.
Lemma refs_path_ne : refs_path ≠ [].
Proof. done. Qed.
Lemma empty_disk_wf : wf_tree (nodes empty_disk).
Proof. by split. Qed.
Lemma refs_new_inv : ref_inv refs_path (refs_new, Repositories refs_new).
Proof.
  pose proof (NewReferenceStore_ok refs_path refs_path_ne empty_disk empty_disk_wf (or_introl eq_refl)) as Hn.
  assert ((RefStore.NewReferenceStore refs_path empty_disk).1 = Ok tt) as Hrun by (vm_compute; reflexivity).
  unfold refs_new. destruct (RefStore.NewReferenceStore refs_path empty_disk) as [o s]. simpl in Hrun. subst o.
  destruct Hn as (Hs&Hw&_). split_and!; [done|apply refs_ok_good, Hs|done].
Qed.
(** A tag is added; the next addition cannot be written. *)
Definition img_b : string := "sha256:b".
Definition refs_bad_disk : RS := mkRS (Repositories refs_one) (referencesByIDCache refs_one) (mkFS (nodes (rs_fs refs_one)) [FailAt 0]).
Definition refs_two : RS := (RefStore.AddTag refs_path ubuntu_name img_b true refs_bad_disk).2.
Lemma ubuntu_admissible id force : ref_admissible (RAddTag ubuntu_name id force).
Proof. split; [|done]. exists ubuntu. split; [apply ubuntu_key|apply ubuntu_good]. Qed.
Lemma refs_one_step : ref_step refs_path (refs_new, Repositories refs_new) (refs_one, Repositories refs_one).
Proof.
  refine (ref_call _ (RAddTag ubuntu_name img_a false) (Ok tt) refs_new _ refs_one _ _); [apply ubuntu_admissible|].
  rewrite (surjective_pairing (ref_exec refs_path _ refs_new)). apply (f_equal2 pair); [vm_compute; reflexivity|reflexivity].
Qed.
Lemma refs_two_run : ref_exec refs_path (RAddTag ubuntu_name img_b true) refs_bad_disk = (Err (OsError EIO), refs_two).
Proof.
  rewrite (surjective_pairing (ref_exec refs_path (RAddTag ubuntu_name img_b true) refs_bad_disk)).
  apply (f_equal2 pair); [vm_compute; reflexivity|reflexivity].
Qed.
Lemma refs_two_steps : rtc (ref_step refs_path) (refs_new, Repositories refs_new) (refs_two, Repositories refs_one).
Proof.
  apply (rtc_l _ _ _ _ refs_one_step), (rtc_l _ _ (refs_bad_disk, Repositories refs_one)); [apply ref_env|].
  apply rtc_once. exact (ref_call _ _ _ _ (Repositories refs_one) _ (ubuntu_admissible img_b true) refs_two_run).
Qed.
Lemma refs_new_ok : rs_ok refs_new.
Proof. exact (proj1 refs_new_inv). Qed.
Lemma refs_one_ok : rs_ok refs_one.
Proof. exact (proj1 (ref_step_ok refs_path refs_path_ne _ _ refs_one_step refs_new_inv)). Qed.

Lemma refs_history_invariant_witness :
  (RefStore.Get ubuntu_name refs_two).1 = Ok img_b ∧ (RefStore.Get ubuntu_name refs_one).1 = Ok img_a ∧ rs_ok refs_two ∧
  written refs_path refs_two (Repositories refs_one).
Proof.
  split; [vm_compute; reflexivity|]. split; [vm_compute; reflexivity|].
  destruct (refs_history_invariant refs_path refs_path_ne empty_disk refs_new refs_two (Repositories refs_one) empty_disk_wf eq_refl) as (H1&H2&_).
  - rewrite (surjective_pairing (RefStore.NewReferenceStore refs_path empty_disk)).
    apply (f_equal2 pair); [vm_compute; reflexivity|reflexivity].
  - apply refs_two_steps.
  - exact (conj H1 H2).
Defined.

Lemma AddTag_promise_witness :
  (RefStore.AddTag refs_path ubuntu_name img_a false refs_new).1 = Ok tt ∧
  RefStore.Get ubuntu_name refs_one = (Ok img_a, refs_one).
Proof.
  assert ((RefStore.AddTag refs_path ubuntu_name img_a false refs_new).1 = Ok tt) as Hrun by (vm_compute; reflexivity).
  split; [exact Hrun|].
  pose proof (AddTag_promise refs_path refs_path_ne refs_new ubuntu_name ubuntu img_a false
    refs_new_ok ubuntu_good ubuntu_key eq_refl) as Hp.
  unfold refs_one. destruct (RefStore.AddTag refs_path ubuntu_name img_a false refs_new) as [o s].
  simpl in Hrun. subst o. apply Hp.
Defined.

Definition hex64 : string := Eval vm_compute in GoString.drop 7 (Digest.FromBytes "layer one").
Definition pinned : Named := NCanonical (mkRepo "docker.io" "library/ubuntu") ("sha256:" +:+ hex64).
Definition refs_pinned : RS := (RefStore.AddDigest refs_path pinned img_a false refs_one).2.
Lemma pinned_good : good pinned.
Proof. split; [vm_compute; reflexivity|done]. Qed.
Lemma pinned_admissible id force : ref_admissible (RAddDigest pinned id force).
Proof. split; [|done]. exists pinned. split; [vm_compute; reflexivity|apply pinned_good]. Qed.
Lemma refs_pinned_ok : rs_ok refs_pinned.
Proof.
  destruct (ref_exec_ok refs_path refs_path_ne refs_one (RAddDigest pinned img_a false) refs_one_ok (pinned_admissible img_a false)) as [Hs _].
  cbn [ref_exec] in Hs. exact Hs.
Qed.

Lemma digest_immutable_witness :
  image_of_ref (ref_exec refs_path (RAddDigest pinned "sha256:b" true) refs_pinned).2 pinned = Some img_a.
Proof.
  apply (digest_immutable refs_path refs_path_ne refs_pinned (RAddDigest pinned "sha256:b" true) pinned img_a
    refs_pinned_ok (pinned_admissible _ _) pinned_good).
  - discriminate.
  - vm_compute. reflexivity.
Defined.

Lemma Delete_ref_promise_witness :
  (RefStore.Delete refs_path ubuntu_name refs_pinned).1 = Ok (true, None) ∧
  image_of_ref (RefStore.Delete refs_path ubuntu_name refs_pinned).2 pinned = Some img_a.
Proof.
  assert ((RefStore.Delete refs_path ubuntu_name refs_pinned).1 = Ok (true, None)) as Hrun by (vm_compute; reflexivity).
  split; [exact Hrun|].
  pose proof (Delete_ref_promise refs_path refs_path_ne refs_pinned ubuntu_name ubuntu
    refs_pinned_ok ubuntu_good ubuntu_key) as Hp.
  destruct (RefStore.Delete refs_path ubuntu_name refs_pinned) as [o s]. cbn [fst snd] in *. subst o.
  destruct Hp as (_&_&Hp&_). rewrite (Hp pinned pinned_good), decide_False by discriminate.
  vm_compute. reflexivity.
Defined.

Lemma References_exact_witness :
  ∃ refs, RefStore.References img_a refs_pinned = (Ok refs, refs_pinned) ∧ pinned ∈ refs.
Proof.
  destruct (References_exact refs_pinned img_a refs_pinned_ok) as (refs&Hr&_&_&_&Hin).
  exists refs. split; [exact Hr|]. apply (Hin pinned pinned_good). vm_compute. reflexivity.
Defined.

Lemma refs_restart_witness :
  ∃ s', RefStore.NewReferenceStore refs_path (rs_fs refs_one) = (Ok tt, s') ∧
        Repositories s' = Repositories refs_one.
Proof.
  pose proof (refs_restart refs_path refs_path_ne refs_one (show_pos (encode (Repositories refs_one)))
    refs_one_ok) as Hr. destruct Hr as (s'&Hs'&HR&_).
  - unfold json_marshal, repos_codec. reflexivity.
  - vm_compute. reflexivity.
  - vm_compute. reflexivity.
  - exists s'. split; [exact Hs'|exact HR].
Defined.
