(* ===== verification/ImageCache.v ===== *)
(** * The build cache

    [src/engine/image/cache/cache.go]: an image already built from a parent and
    a configuration is found among the parent's children, or in the history
    of the images a build was told to look at.  Recursion that does not end is
    a stack that overflows: [depth] is the number of frames it has room for. *)

From S2P Require Import Prelude FileSys Digest DigestSet Chain LayerStore ContainerConfig ImageModel ImageFS ImageStore.

(** [getLayerForHistoryIndex]. *)
Fixpoint layer_index (history : list History) (index layerIndex : nat) : option nat :=
  match history with
  | [] => Some layerIndex
  | h :: history =>
      match index with
      | O => if EmptyLayerFlag h then None else Some layerIndex
      | S index => layer_index history index (if EmptyLayerFlag h then layerIndex else S layerIndex)
      end
  end.
Definition getLayerForHistoryIndex (img : Image) (index : nat) : outcome DiffID :=
  match layer_index (img_History img) index 0 with
  | None => Ok EmptyString
  | Some layerIndex =>
      match img_RootFS img with
      | None => Panic nil_deref
      | Some r => match DiffIDs r !! layerIndex with
                  | Some d => Ok d
                  | None => Panic "index out of range"
                  end
      end
  end.

(** [isValidConfig]. *)
Definition isValidConfig (cfg : Config) (h : History) : bool :=
  String.eqb (GoString.join " " (default [] (Cmd cfg))) (hi_CreatedBy h).

Fixpoint same_prefix `{EqDecision A} (a b : list A) : bool :=
  match a, b with
  | [], _ => true
  | x :: a, y :: b => bool_decide (x = y) && same_prefix a b
  | _ :: _, [] => false
  end.
(** [isValidParent], on images with a root file system. *)
Definition diffs (img : Image) : list DiffID := default [] (DiffIDs <$> img_RootFS img).
Definition isValidParent (img : Image) (parent : option Image) : bool :=
  if length (img_History img) =? 0 then false
  else match parent with
       | None => true
       | Some parent =>
           if (length (img_History parent) =? 0) && (length (diffs parent) =? 0) then true
           else if length (img_History img) <=? length (img_History parent) then false
           else if length (diffs img) <? length (diffs parent) then false
           else same_prefix (img_History parent) (img_History img) && same_prefix (diffs parent) (diffs img)
       end.

(** The image [restoreCachedImage] makes. *)
Definition restored (version : string) (parent : option Image) (target : Image) (cfg : Config) (h : History)
    (layer : DiffID) : Image :=
  let history := match parent with Some p => img_History p | None => [] end ++ [h] in
  let rootFS := match parent with Some p => default NewRootFS (img_RootFS p) | None => NewRootFS end in
  let rootFS := if negb (String.eqb layer EmptyString) then rf_Append rootFS layer else rootFS in
  mkImage
    (mkV1 EmptyString EmptyString EmptyString (hi_Created h) EmptyString zero_config version
       (Author (img_V1 target)) (Some cfg) (Architecture (img_V1 target)) (OS (img_V1 target)) 0)
    EmptyString (Some rootFS) history (OSVersion target) (OSFeatures target) EmptyString EmptyString.

(** The most recent match of [getLocalCachedImage] so far. *)
Definition pick (config : Config) (m : option Image) (img : Image) : option Image :=
  if Compare.compare (Some (ContainerConfig_ (img_V1 img))) (Some config) then
    match m with
    | None => Some img
    | Some m' => if (Created (img_V1 m') <? Created (img_V1 img))%Z then Some img else m
    end
  else m.

(** [ImageCache]. *)
Record IC (L F : Type) := mkIC { sources : list Image; ic_store : IS L F }.
Arguments mkIC {L F} _ _.
Arguments sources {L F} _.
Arguments ic_store {L F} _.

Section Cache.
Context {L F : Type} `{LayerGetReleaser L} `{Backend F} `{JSON Image}.
Context (GOOS version : string) (depth : nat).

Definition onIS {A} (m : M (IS L F) A) : M (IC L F) A := zoom ic_store (λ s c, mkIC (sources c) s) m.

(** The closure [getMatch]. *)
Fixpoint getMatch (config : Config) (siblings : list ImageID) (m : option Image) : M (IS L F) (option Image) :=
  match siblings with
  | [] => mret m
  | id :: siblings =>
      r ← attempt (is_Get id);
      match r with
      | inl _ => fail (Errorf ("unable to find image " +:+ id))
      | inr img => getMatch config siblings (pick config m img)
      end
  end.
(** [getLocalCachedImage]. *)
Definition getLocalCachedImage (imgID : ImageID) (config : Config) : M (IS L F) (option Image) :=
  if String.eqb imgID EmptyString then
    images ← is_Map;
    getMatch config (base.filter (λ kv, img_Parent kv.2 = imgID) (map_to_list images)).*1 None
  else
    siblings ← Children imgID;
    getMatch config siblings None.
(** [LocalImageCache.GetCache]. *)
Definition LocalGetCache (imgID : string) (config : Config) : M (IS L F) string :=
  r ← getLocalCachedImage imgID config;
  mret (match r with Some img => computedID img | None => EmptyString end).

(** [isParent]. *)
Fixpoint isParent (depth : nat) (imgID parentID : ImageID) : M (IS L F) bool :=
  match depth with
  | O => panic "stack overflow"
  | S depth =>
      r ← attempt (is_GetParent imgID);
      match r with
      | inl _ => mret false
      | inr nextParent =>
          if String.eqb nextParent parentID then mret true else isParent depth nextParent parentID
      end
  end.
Fixpoint some_source (srcs : list Image) (imgID : ImageID) : M (IS L F) bool :=
  match srcs with
  | [] => mret false
  | s :: srcs =>
      b ← isParent depth (computedID s) imgID;
      if b : bool then mret true else some_source srcs imgID
  end.

Definition history_at (img : Image) (i : nat) : outcome History :=
  match img_History img !! i with Some h => Ok h | None => Panic "index out of range" end.

(** [restoreCachedImage]. *)
Definition restoreCachedImage (parent : option Image) (target : Image) (cfg : Config) : M (IS L F) ImageID :=
  let lenHistory := match parent with Some p => length (img_History p) | None => 0 end in
  h ← of_outcome (history_at target lenHistory);
  layer ← of_outcome (getLayerForHistoryIndex target lenHistory);
  r ← attempt (of_sum (json_marshal (restored version parent target cfg h layer)));
  match r with
  | inl e => fail (Wrap e "failed to marshal image config")
  | inr config =>
      r ← attempt (Create GOOS config);
      match r with
      | inl e => fail (Wrap e "failed to create cache image")
      | inr imgID =>
          match parent with
          | None => mret imgID
          | Some p =>
              r ← attempt (SetParent imgID (computedID p));
              match r with
              | inl e => fail (Wrap e ("failed to set parent for " +:+ computedID target +:+ " to " +:+ computedID p))
              | inr _ => mret imgID
              end
          end
      end
  end.

(** The second loop of [GetCache]. *)
Fixpoint find_target (parentID : string) (parent : option Image) (cfg : Config) (targets : list Image)
    : M (IC L F) string :=
  let lenHistory := match parent with Some p => length (img_History p) | None => 0 end in
  match targets with
  | [] => mret EmptyString
  | target :: targets =>
      if negb (isValidParent target parent) then find_target parentID parent cfg targets else
      h ← of_outcome (history_at target lenHistory);
      if negb (isValidConfig cfg h) then find_target parentID parent cfg targets else
      if length (img_History target) - 1 =? lenHistory then
        _ ← match parent with
            | None => mret tt
            | Some p =>
                r ← attempt (onIS (SetParent (computedID target) (computedID p)));
                match r with
                | inl e => fail (Wrap e ("failed to set parent for " +:+ computedID target +:+ " to " +:+ computedID p))
                | inr _ => mret tt
                end
            end;
        mret (computedID target)
      else
        r ← attempt (onIS (restoreCachedImage parent target cfg));
        match r with
        | inl e => fail (Wrap e ("failed to restore cached image from " +:+ parentID +:+ " to " +:+ computedID target))
        | inr imgID =>
            _ ← modify (λ c, mkIC [target] (ic_store c));
            mret imgID
        end
  end.

(** [GetCache]. *)
Definition GetCache (parentID : string) (cfg : Config) : M (IC L F) string :=
  imgID ← onIS (LocalGetCache parentID cfg);
  c ← get;
  found ← (if negb (String.eqb imgID EmptyString) then onIS (some_source (sources c) imgID) else mret false);
  if found : bool then mret imgID else
  parent ← (if negb (String.eqb parentID EmptyString) then
              r ← attempt (onIS (is_Get parentID));
              match r with
              | inl e => fail (Wrap e ("unable to find image " +:+ parentID))
              | inr p => mret (Some p)
              end
            else mret None);
  find_target parentID parent cfg (sources c).

(** [Populate]. *)
Definition Populate (img : Image) : M (IC L F) () := modify (λ c, mkIC (sources c ++ [img]) (ic_store c)).
End Cache.
