(* ===== verification/CacheProps.v ===== *)
(** * What the build cache guarantees

    The theorems on [src/engine/image/cache/cache.go]. *)

From S2P Require Import Prelude FileSys Digest DigestSet Chain LayerStore LayerProps ContainerConfig ImageModel ImageFS ImageStore ImageInv ImageProps ImageRuns ImageCache.

(** ** History and layers *)

Section Layers.
Implicit Types (h : History) (hs : list History) (img target : Image) (parent : option Image).

Lemma layer_index_spec hs i n h :
  hs !! i = Some h →
  layer_index hs i n = if EmptyLayerFlag h then None else Some (n + layer_count (take i hs)).
Proof.
  revert i n. induction hs as [|h0 hs IH]; intros [|i] n; simpl; try done.
  - intros [= ->]. by rewrite Nat.add_0_r.
  - intros Hi. rewrite (IH _ _ Hi). destruct (EmptyLayerFlag h); [done|]. f_equal.
    unfold layer_count. rewrite filter_cons. destruct (EmptyLayerFlag h0); simpl; lia.
Qed.
Lemma layer_count_take_S hs i h :
  hs !! i = Some h →
  layer_count (take (S i) hs) = layer_count (take i hs) + (if EmptyLayerFlag h then 0 else 1).
Proof.
  intros Hi. rewrite (take_S_r _ _ _ Hi), layer_count_app. f_equal. unfold layer_count.
  rewrite filter_cons. by destruct (EmptyLayerFlag h).
Qed.
Lemma layer_count_le hs i : layer_count (take i hs) ≤ layer_count hs.
Proof. rewrite <-(take_drop i hs) at 2. rewrite layer_count_app. lia. Qed.

Lemma layer_at_ok img i h :
  history_ok img → img_History img !! i = Some h →
  ∃ d, getLayerForHistoryIndex img i = Ok d ∧
    if EmptyLayerFlag h then d = EmptyString
    else diffs img !! layer_count (take i (img_History img)) = Some d.
Proof.
  intros (r&Hr&Hle) Hi. unfold getLayerForHistoryIndex, diffs. rewrite (layer_index_spec _ _ _ _ Hi), Hr. simpl.
  destruct (EmptyLayerFlag h) eqn:He; [by exists EmptyString|].
  assert (layer_count (take i (img_History img)) < length (DiffIDs r)) as Hlt.
  { pose proof (layer_count_take_S _ _ _ Hi) as HS. rewrite He in HS.
    pose proof (layer_count_le (img_History img) (S i)). lia. }
  destruct (lookup_lt_is_Some_2 _ _ Hlt) as [d Hd]. exists d. by rewrite Hd.
Qed.

(** The unchecked index of [getLayerForHistoryIndex] is in range for every
    image [Create] accepts: the entry of the history at a position has the
    layer that follows those of the earlier entries, or none if it made
    none, and the access does not panic. *)
Theorem getLayerForHistoryIndex_in_range img i h :
  history_ok img → img_History img !! i = Some h →
  ∃ d, getLayerForHistoryIndex img i = Ok d ∧
    if EmptyLayerFlag h then d = EmptyString
    else diffs img !! layer_count (take i (img_History img)) = Some d.
Proof. apply layer_at_ok. Qed.

(** Every entry of the history that made a layer has it, and there is no other. *)
Definition exact img : Prop := layer_count (img_History img) = length (diffs img) ∧ is_Some (img_RootFS img).

Lemma same_prefix_spec `{EqDecision A} (a b : list A) : same_prefix a b = true ↔ a `prefix_of` b.
Proof.
  revert b. induction a as [|x a IH]; intros b; simpl.
  - split; [|done]. intros _. apply prefix_nil.
  - destruct b as [|y b]; [split; [done|by intros [? ?]]|].
    rewrite andb_true_iff, bool_decide_eq_true, IH. split.
    + intros [-> ?]. by apply prefix_cons.
    + intros Hp. split; [by apply prefix_cons_inv_1 in Hp|by apply prefix_cons_inv_2 in Hp].
Qed.
Lemma prefix_take {A : Type} (a b : list A) : a `prefix_of` b → a = take (length a) b.
Proof. intros [c ->]. by rewrite take_app_length. Qed.

(** [parent], or nothing, is what the first entries of [target] describe. *)
Definition before (parent : option Image) target (n : nat) : Prop :=
  match parent with
  | None => n = 0
  | Some p => n = length (img_History p) ∧ img_History p = take n (img_History target) ∧
      diffs p = take (length (diffs p)) (diffs target) ∧ exact p
  end.
Lemma isValidParent_before target parent :
  isValidParent target parent = true → (∀ p, parent = Some p → exact p) →
  before parent target (match parent with Some p => length (img_History p) | None => 0 end) ∧
  match parent with Some p => length (img_History p) | None => 0 end < length (img_History target).
Proof.
  unfold isValidParent, before. destruct (Nat.eqb_spec (length (img_History target)) 0) as [|Hne]; [done|].
  destruct parent as [p|]; [|intros _ _; split; [done|lia]]. intros Hv Hex. specialize (Hex p eq_refl).
  destruct ((length (img_History p) =? 0) && (length (diffs p) =? 0)) eqn:Hz.
  - apply andb_prop in Hz as [Hh%Nat.eqb_eq Hd%Nat.eqb_eq].
    apply nil_length_inv in Hh, Hd. rewrite Hh, Hd. simpl. split; [done|lia].
  - destruct (Nat.leb_spec (length (img_History target)) (length (img_History p))); [done|].
    destruct (_ <? _); [done|]. apply andb_prop in Hv as [Hh%same_prefix_spec Hd%same_prefix_spec].
    split; [|done]. split_and!; [done|by apply prefix_take|by apply prefix_take|done].
Qed.

(** A restored image is a stage of its target: if the parent is an image
    whose history accounts for its layers, the image [restoreCachedImage]
    makes has the first entries of the target's history and exactly the
    layers these made, so that the next step can build on it in turn. *)
Theorem restored_is_stage version parent target cfg :
  isValidParent target parent = true → (∀ p, parent = Some p → exact p) →
  history_ok target → Forall (λ d, d ≠ EmptyString) (diffs target) →
  ∃ n h layer, n = match parent with Some p => length (img_History p) | None => 0 end ∧
    img_History target !! n = Some h ∧ getLayerForHistoryIndex target n = Ok layer ∧
    let img := restored version parent target cfg h layer in
    img_History img = take (S n) (img_History target) ∧
    diffs img = take (layer_count (take (S n) (img_History target))) (diffs target) ∧ exact img.
Proof.
  intros Hv Hex Hok Hne. destruct (isValidParent_before _ _ Hv Hex) as [Hb Hlt].
  set (n := match parent with Some p => _ | None => _ end) in *.
  destruct (lookup_lt_is_Some_2 _ _ Hlt) as [h Hh]. destruct (layer_at_ok target n h Hok Hh) as (layer&Hl&Hlay).
  exists n, h, layer. split_and!; [done|done|done|].
  assert (∃ hs ds, match parent with Some p => img_History p | None => [] end = hs ∧ hs = take n (img_History target) ∧
    DiffIDs (match parent with Some p => default NewRootFS (img_RootFS p) | None => NewRootFS end) = ds ∧
    ds = take (layer_count hs) (diffs target) ∧ layer_count hs = length ds) as (hs&ds&Hhs&Hhs'&Hds&Hds'&Hcount).
  { destruct parent as [p|]; simpl in Hb.
    - destruct Hb as (_&Hhist&Hdiff&Hcnt&[r Hr]). exists (img_History p), (diffs p).
      split_and!; [done|done|unfold diffs; by rewrite Hr| |done]. by rewrite Hcnt.
    - exists [], []. by subst n; simpl. }
  cbv zeta. unfold exact, diffs at 1 3, restored. simpl. rewrite Hhs, (take_S_r _ _ _ Hh), <-Hhs', !layer_count_app.
  assert (layer_count [h] = if EmptyLayerFlag h then 0 else 1) as Hh1 by (unfold layer_count; rewrite filter_cons; by destruct (EmptyLayerFlag h)).
  rewrite Hh1. destruct (EmptyLayerFlag h) eqn:He.
  - subst layer. simpl. rewrite Hds, Nat.add_0_r. split_and!; [done|done|done|by eexists].
  - rewrite <-Hhs' in Hlay. assert (layer ≠ EmptyString) as Hln.
    { rewrite Forall_forall in Hne. apply Hne. by eapply list_elem_of_lookup_2. }
    rewrite (proj2 (String.eqb_neq _ _) Hln). simpl. rewrite Hds.
    split_and!; [done| |rewrite length_app; simpl; lia|by eexists].
    rewrite Nat.add_1_r, (take_S_r _ _ _ Hlay). by rewrite <-Hds'.
Qed.
End Layers.

(** ** The local cache *)

Section Latest.
Context (config : Config).
Implicit Types (img m : Image) (imgs : list Image).

Definition is_match img : Prop := Compare.compare (Some (ContainerConfig_ (img_V1 img))) (Some config) = true.
Definition latest imgs (o : option Image) : Prop :=
  match o with
  | None => ∀ img, img ∈ imgs → ¬ is_match img
  | Some m => m ∈ imgs ∧ is_match m ∧
      ∀ img, img ∈ imgs → is_match img → (Created (img_V1 img) ≤ Created (img_V1 m))%Z
  end.

Lemma latest_pick imgs o img : latest imgs o → latest (imgs ++ [img]) (pick config o img).
Proof.
  unfold pick. destruct (Compare.compare _ _) eqn:Hc.
  - destruct o as [m|]; simpl.
    + intros (Hm&Hmm&Hmax). destruct (Z.ltb_spec (Created (img_V1 m)) (Created (img_V1 img))) as [Hlt|Hge].
      * split_and!; [apply elem_of_app; right; by left|done|]. intros x [Hx|Hx%list_elem_of_singleton]%elem_of_app Hmx.
        -- pose proof (Hmax x Hx Hmx). lia.
        -- subst. lia.
      * split_and!; [apply elem_of_app; by left|done|]. intros x [Hx|Hx%list_elem_of_singleton]%elem_of_app Hmx.
        -- by apply Hmax.
        -- by subst.
    + intros Hnone. split_and!; [apply elem_of_app; right; by left|done|].
      intros x [Hx|Hx%list_elem_of_singleton]%elem_of_app Hmx; [by destruct (Hnone x)|by subst].
  - assert (¬ is_match img) as Hnm by (unfold is_match; congruence). destruct o as [m|]; simpl.
    + intros (Hm&Hmm&Hmax). split_and!; [apply elem_of_app; by left|done|].
      intros x [Hx|Hx%list_elem_of_singleton]%elem_of_app Hmx; [by apply Hmax|by subst].
    + intros Hnone x [Hx|Hx%list_elem_of_singleton]%elem_of_app; [by apply Hnone|by subst].
Qed.
End Latest.

Section Store.
Context {L F : Type} `{LayerLaws L} `{BackendLaws F} `{JSON Image}.
Context (GOOS version : string).
Implicit Types (s : IS L F) (id : ImageID).

(** The images read for the identifiers [ids] from the contents of [s0]. *)
Definition read_images s0 (ids : list ImageID) (imgs : list Image) : Prop :=
  Forall2 (λ id img, ∃ config, be_content (ifs s0) id = Some config ∧ image_of id config img) ids imgs.

Lemma is_Get_read s0 s id :
  same_files_view GOOS s0 s → image_digest id →
  match is_Get id s with
  | (Ok img, s') => same_files_view GOOS s0 s' ∧ ∃ config, be_content (ifs s0) id = Some config ∧ image_of id config img
  | (_, s') => same_files_view GOOS s0 s'
  end.
Proof.
  intros Hs Hid. pose proof (is_Get_ok GOOS s id (proj1 (proj1 Hs)) Hid s eq_refl) as Hg.
  destruct (is_Get id s) as [[img|e|p] s']; [|by eapply same_files_view_trans..].
  destruct Hg as (Hs'&config&Hc&Himg). split; [by eapply same_files_view_trans|]. exists config.
  split; [|done]. destruct Hs as (_&_&Hcont&_). by rewrite <-Hcont.
Qed.

Lemma getMatch_ok config s0 ids m seen :
  (∀ id, id ∈ ids → image_digest id) → latest config seen m →
  itr (same_files_view GOOS s0) (getMatch config ids m)
    (λ o s, same_files_view GOOS s0 s ∧ ∃ imgs, read_images s0 ids imgs ∧ latest config (seen ++ imgs) o)
    (same_files_view GOOS s0).
Proof.
  revert m seen. induction ids as [|id ids IH]; intros m seen Hids Hm; simpl.
  { apply itr_ret. intros s Hs. split; [done|]. exists []. rewrite app_nil_r. by split; [constructor|]. }
  assert (image_digest id) as Hid by (apply Hids; left).
  apply (itr_bind _ _ _ (λ r s, same_files_view GOOS s0 s ∧ match r with
    | inl _ => True
    | inr img => ∃ config, be_content (ifs s0) id = Some config ∧ image_of id config img end)).
  - intros s Hs. unfold attempt. pose proof (is_Get_read s0 s id Hs Hid) as Hg.
    destruct (is_Get id s) as [[img|e|p] s']; [done|by split|done].
  - intros [e|img]; [by apply itr_fail; intros s [? _]|]. intros s [Hs Himg].
    assert (∀ i, i ∈ ids → image_digest i) as Hids' by (intros i Hi; apply Hids; by right).
    pose proof (IH (pick config m img) (seen ++ [img]) Hids' (latest_pick _ _ _ _ Hm) s Hs) as Hr.
    destruct (getMatch config ids (pick config m img) s) as [[o|e|p] s']; [|done..].
    destruct Hr as (Hs'&imgs&Himgs&Hl). split; [done|]. exists (img :: imgs).
    split; [by constructor|]. by rewrite <-app_assoc in Hl.
Qed.

(** The local cache answers with the most recent match: among the images
    recorded as children of the given one it returns the identifier of one
    made with an equal configuration, than which no other such was created
    later, and none exactly if there is no such child; the store is as
    before. *)
Theorem LocalGetCache_latest s id config :
  store_ok GOOS s → id ≠ EmptyString →
  match LocalGetCache id config s with
  | (Ok res, s') => same_files_view GOOS s s' ∧
      ∃ imgs o, read_images s (elements (is_children (images s) id)) imgs ∧ latest config imgs o ∧
        res = match o with Some img => computedID img | None => EmptyString end
  | (_, s') => same_files_view GOOS s s'
  end.
Proof.
  intros Hok Hne. unfold LocalGetCache, getLocalCachedImage. rewrite (proj2 (String.eqb_neq _ _) Hne).
  unfold Children, gets, mbind, M_bind.
  assert (∀ c, c ∈ elements (is_children (images s) id) → image_digest c) as Hch.
  { intros c Hc%elem_of_elements. unfold is_children in Hc. destruct (images s !! id) as [m|] eqn:Hm; [|set_solver].
    by eapply (no_children _ (proj2 (proj2 (proj2 Hok)))). }
  pose proof (getMatch_ok config s _ None [] Hch ltac:(by intros ? ?%not_elem_of_nil) s (same_files_view_refl GOOS s Hok)) as Hg.
  destruct (getMatch config (elements (is_children (images s) id)) None s) as [[o|e|p] s']; [|done..].
  destruct Hg as (Hs'&imgs&Himgs&Hl). split; [done|]. by exists imgs, o.
Qed.

(** ** The parent chain *)

Definition parent_link (f : F) id p : Prop := be_meta f id "parent" = Some p.

Lemma isParent_ok s (rank : ImageID → nat) depth anc :
  (∀ i p, image_digest i → parent_link (ifs s) i p → image_digest p ∧ rank p < rank i) →
  ∀ id s1, same_files_view GOOS s s1 → image_digest id → rank id < depth →
  match isParent depth id anc s1 with
  | (Ok b, s') => same_files_view GOOS s s' ∧ (b = true → tc (parent_link (ifs s)) id anc)
  | _ => False
  end.
Proof.
  intros Hrank. induction depth as [|depth IH]; intros id s1 Hs Hid Hlt; [lia|].
  cbn [isParent]. unfold mbind at 1, M_bind at 1, attempt, is_GetParent, onBE, zoom.
  pose proof (be_GetMetadata_spec (ifs s1) id "parent") as Hg. destruct Hs as [Hfo Hv].
  specialize (Hg (proj1 Hv) Hid (or_introl eq_refl)).
  destruct (be_GetMetadata id "parent" (ifs s1)) as [[p|e|msg] f]; [..|done]; simpl in Hg.
  - destruct Hg as [Hf Hp]. assert (parent_link (ifs s) id p) as Hlink.
    { unfold parent_link. destruct Hv as (_&_&Hm). by rewrite <-Hm by (done || by left). }
    assert (same_files_view GOOS s (set_ifs f s1)) as Hs2.
    { split; [|by eapply same_view_trans].
      destruct Hfo as (Hok1&?&?&?). split_and!; [|done..]. apply store_ok_ifs; [done|apply Hf]. }
    cbv beta iota. fold (set_ifs f s1). destruct (String.eqb_spec p anc) as [->|Hne].
    + cbn. split; [done|]. intros _. by apply tc_once.
    + destruct (Hrank id p Hid Hlink) as [Hpd Hplt].
      pose proof (IH p (set_ifs f s1) Hs2 Hpd ltac:(lia)) as Hr.
      destruct (isParent depth p anc (set_ifs f s1)) as [[b|e|msg] s2]; [|done..].
      destruct Hr as [Hs3 Hb]. split; [done|]. intros Hbt. eapply tc_l; [exact Hlink|by apply Hb].
  - split; [|done]. split; [|by eapply same_view_trans].
    destruct Hfo as (Hok1&?&?&?). split_and!; [|done..]. apply store_ok_ifs; [done|apply Hg].
Qed.

(** [isParent] follows the parent chain to its end: if each recorded parent
    has a smaller rank, a stack of as many frames as the rank of the image
    is enough; it answers yes only for an ancestor, and changes nothing. *)
Theorem isParent_terminates s (rank : ImageID → nat) depth id anc :
  store_ok GOOS s →
  (∀ i p, image_digest i → parent_link (ifs s) i p → image_digest p ∧ rank p < rank i) →
  image_digest id → rank id < depth →
  match isParent depth id anc s with
  | (Ok b, s') => same_files_view GOOS s s' ∧ (b = true → tc (parent_link (ifs s)) id anc)
  | _ => False
  end.
Proof.
  intros Hok Hrank Hid Hlt. by apply (isParent_ok s rank); [|apply same_files_view_refl|..].
Qed.

(** ** The store *)

(** Every image of [s0] is in [s], with the layer reference it had. *)
Definition grows s0 s : Prop :=
  store_ok GOOS s ∧ ∀ id m, images s0 !! id = Some m → im_layer <$> images s !! id = Some (im_layer m).

Lemma grows_refl s : store_ok GOOS s → grows s s.
Proof. intros Hok. split; [done|]. intros id m ->. done. Qed.
Lemma grows_view s0 s : same_files_view GOOS s0 s → grows s0 s.
Proof. intros ((Hok&_&Him&_)&_). split; [done|]. intros id m Hm. by rewrite Him, Hm. Qed.
Lemma grows_layers s0 s s' :
  grows s0 s → store_ok GOOS s' → (∀ id m, images s !! id = Some m → im_layer <$> images s' !! id = Some (im_layer m)) →
  grows s0 s'.
Proof.
  intros [_ Hg] Hok Hl. split; [done|]. intros id m Hm. specialize (Hg id m Hm).
  destruct (images s !! id) as [m'|] eqn:Hm'; [|done]. injection Hg as Hg. rewrite <-Hg. by apply Hl.
Qed.
Lemma grows_same s0 s s' :
  grows s0 s → store_ok GOOS s' → same_layers (images s) (images s') → grows s0 s'.
Proof. intros Hg Hok Hsame. eapply grows_layers; [done|done|]. intros id m Hm. by rewrite (Hsame id), Hm. Qed.
Lemma grows_images s0 s s' : grows s0 s → store_ok GOOS s' → images s' = images s → grows s0 s'.
Proof. intros Hg Hok Him. eapply grows_layers; [done|done|]. intros id m Hm. by rewrite Him, Hm. Qed.

Lemma grows_SetParent s0 id p :
  image_digest id → itr (grows s0) (SetParent id p) (λ _, grows s0) (grows s0).
Proof.
  intros Hid. apply itr_from. intros s Hg.
  eapply itr_conseq; [apply (SetParent_ok GOOS s id p); [apply Hg|done]|done|..].
  - intros _ s' (Hok'&_&_&_&_&im&Him&Hs'). eapply grows_same; [exact Hg|done|].
    intros j. rewrite Hs', (same_layers_alter (add_child id) p im) by done.
    destruct Him as [->|(q&_&->)]; [done|]. by apply same_layers_alter.
  - intros s' [Hok' Hsame]. by eapply grows_same.
Qed.
Lemma grows_Create s0 config :
  itr (grows s0) (Create GOOS config) (λ id s, grows s0 s ∧ image_digest id) (grows s0).
Proof.
  apply itr_from. intros s Hg. eapply itr_conseq; [apply (Create_ok GOOS s config), Hg|done|..].
  - intros id s' (Hok'&->&_&_&_&Him). split; [|apply FromBytes_image_digest].
    destruct (images s !! Digest.FromBytes config) as [m|] eqn:Hid; [by eapply grows_images|].
    destruct Him as [o Him]. eapply grows_layers; [exact Hg|done|]. intros i m Hm. rewrite Him.
    rewrite lookup_insert_ne by congruence. by rewrite Hm.
  - intros s' (Hok'&Him&_). by eapply grows_images.
Qed.

Lemma grows_restoreCachedImage s0 parent target cfg :
  itr (grows s0) (restoreCachedImage GOOS version parent target cfg) (λ _, grows s0) (grows s0).
Proof.
  unfold restoreCachedImage. eapply itr_bind; [by apply itr_of_outcome|]. intros h.
  eapply itr_bind; [by apply itr_of_outcome|]. intros layer.
  eapply itr_bind; [apply (itr_attempt_keep _ _ (λ _, True)); by apply itr_of_sum|].
  intros [e|config]; [by apply itr_fail; intros s [? _]|].
  eapply itr_bind; [eapply itr_conseq; [apply itr_attempt_keep, grows_Create|by intros s [? _]|by intros ? ? Hq|done]|].
  intros [e|imgID]; [by apply itr_fail; intros s [? _]|].
  destruct parent as [p|]; [|by apply itr_ret; intros s [? _]].
  intros s [Hs Hid]. revert s Hs. change (itr (grows s0) (r ← attempt (SetParent imgID (computedID p));
    match r with
    | inl e => fail (Wrap e ("failed to set parent for " +:+ computedID target +:+ " to " +:+ computedID p))
    | inr _ => mret imgID
    end) (λ _, grows s0) (grows s0)).
  eapply itr_bind; [apply (itr_attempt_keep _ _ (λ _, True))|].
  - eapply itr_conseq; [by apply grows_SetParent|done| |done]. by intros u s Hs.
  - intros [e|u]; [by apply itr_fail; intros s [? _]|by apply itr_ret; intros s [? _]].
Qed.

Lemma isParent_view s0 depth id anc :
  itr (same_files_view GOOS s0) (isParent depth id anc) (λ _, same_files_view GOOS s0) (same_files_view GOOS s0).
Proof.
  revert id. induction depth as [|depth IH]; intros id; simpl; [by apply itr_panic|].
  eapply itr_bind; [apply itr_attempt_keep, itr_keep, is_GetParent_reads|].
  intros [e|p]; [by apply itr_ret; intros s [? _]|]. intros s [Hs _]. destruct (String.eqb p anc); [done|].
  by apply (IH p s).
Qed.
Lemma some_source_view s0 depth srcs id :
  itr (same_files_view GOOS s0) (some_source depth srcs id) (λ _, same_files_view GOOS s0) (same_files_view GOOS s0).
Proof.
  induction srcs as [|img srcs IH]; simpl; [by apply itr_ret|].
  eapply itr_bind; [apply isParent_view|]. intros []; [by apply itr_ret|done].
Qed.

(** The images read have the identifiers they were read under. *)
Lemma image_of_computedID id config img : image_of id config img → computedID img = id.
Proof. by intros (img0&p&_&_&->). Qed.

Lemma collect_view s0 all ids acc :
  (∀ id, id ∈ ids → image_digest id) →
  itr (same_files_view GOOS s0) (collect all ids acc)
    (λ m s, same_files_view GOOS s0 s ∧ ∀ id, is_Some (m !! id) → id ∈ ids ∨ is_Some (acc !! id))
    (same_files_view GOOS s0).
Proof.
  revert acc. induction ids as [|id ids IH]; intros acc Hids; simpl; [apply itr_ret; by auto|].
  assert (∀ i, i ∈ ids → image_digest i) as Hids' by (intros i Hi; apply Hids; by right).
  apply itr_get. intros s Hs. destruct (negb all && _).
  { eapply itr_conseq; [by apply (IH acc)|by intros ? ->| |done]. intros m s' [? Hm]. split; [done|].
    intros i Hi. destruct (Hm i Hi); [left; by right|by right]. }
  apply (itr_bind _ _ _ (λ _, same_files_view GOOS s0)).
  - intros ? ->. unfold attempt. pose proof (is_Get_read s0 s id Hs (Hids id ltac:(left))) as Hg.
    destruct (is_Get id s) as [[img|e|p] s']; [by apply Hg|done|done].
  - intros [e|img]; (eapply itr_conseq; [by apply IH|done| |done]); intros m s' [? Hm]; (split; [done|]);
      intros i Hi; destruct (Hm i Hi) as [?|Hacc]; [left; by right|by right|left; by right|].
    rewrite lookup_insert in Hacc. case_decide as Heq; [left; subst; by left|by right].
Qed.

Lemma LocalGetCache_view s0 id config :
  store_ok GOOS s0 →
  itr (same_files_view GOOS s0) (LocalGetCache id config) (λ _, same_files_view GOOS s0) (same_files_view GOOS s0).
Proof.
  intros Hok. unfold LocalGetCache, getLocalCachedImage.
  assert (∀ ids, (∀ i, i ∈ ids → image_digest i) → itr (same_files_view GOOS s0) (getMatch config ids None)
    (λ _, same_files_view GOOS s0) (same_files_view GOOS s0)) as Hmatch.
  { intros ids Hids. eapply itr_conseq; [apply (getMatch_ok config s0 ids None [] Hids)|done| |done].
    - by intros ? ?%not_elem_of_nil.
    - by intros o s [? _]. }
  apply (itr_bind _ _ _ (λ _, same_files_view GOOS s0)); [|intros o; by apply itr_ret].
  pose proof Hok as (_&_&_&Hn). destruct (String.eqb id EmptyString).
  - apply (itr_bind _ _ _ (λ m s, same_files_view GOOS s0 s ∧ ∀ i, is_Some (m !! i) → image_digest i)).
    + apply itr_get. intros s Hs. assert (images s = images s0) as Him by apply Hs.
      assert (∀ i, i ∈ (map_to_list (images s)).*1 → image_digest i) as Hids.
      { intros i (p&->&Hp)%list_elem_of_fmap. destruct p. apply elem_of_map_to_list in Hp.
        apply (no_images _ Hn). rewrite <-Him. by eexists. }
      eapply itr_conseq; [by apply (collect_view s0)|by intros ? ->| |done].
      intros m s' [? Hm]. split; [done|]. intros i Hi. destruct (Hm i Hi) as [?|[? ?]]; [by apply Hids|done].
    + intros m s [Hs Hm]. apply Hmatch; [|done]. intros i (p&->&Hp)%list_elem_of_fmap.
      apply list_elem_of_filter in Hp as [_ Hp]. destruct p. apply elem_of_map_to_list in Hp. apply Hm. by eexists.
  - intros s Hs. unfold Children, gets, mbind, M_bind. apply (Hmatch (elements (is_children (images s) id))); [|done].
    intros c Hc%elem_of_elements. unfold is_children in Hc. replace (images s) with (images s0) in Hc by (symmetry; apply Hs).
    destruct (images s0 !! id) as [m|] eqn:Hm; [|by apply not_elem_of_empty in Hc]. by eapply (no_children _ Hn).
Qed.

(** A computation on the store, in the cache. *)
Lemma itr_onIS {A : Type} (P : IS L F → Prop) (R : list Image → Prop) (m : M (IS L F) A) (Q : A → Prop) :
  itr P m (λ a s, P s ∧ Q a) P →
  itr (λ c, P (ic_store c) ∧ R (sources c)) (onIS m) (λ a c, (P (ic_store c) ∧ R (sources c)) ∧ Q a)
    (λ c, P (ic_store c) ∧ R (sources c)).
Proof.
  intros Hm. eapply itr_zoom; [exact Hm|by intros c [? _]|..]; simpl.
  - by intros a c s [_ ?] [? ?].
  - by intros c s [_ ?] ?.
Qed.

Definition sources_ok (srcs : list Image) : Prop := Forall (λ img, image_digest (computedID img)) srcs.
Definition cache_inv s0 (c : IC L F) : Prop := grows s0 (ic_store c) ∧ sources_ok (sources c).

Lemma find_target_ok s0 parentID parent cfg targets :
  sources_ok targets →
  itr (cache_inv s0) (find_target GOOS version parentID parent cfg targets) (λ _, cache_inv s0) (cache_inv s0).
Proof.
  intros Ht. induction Ht as [|target targets Hd _ IH]; simpl; [by apply itr_ret|].
  destruct (negb (isValidParent target parent)); [done|].
  eapply itr_bind; [by apply itr_of_outcome|]. intros h.
  destruct (negb (isValidConfig cfg h)); [done|]. destruct (_ =? _).
  - apply (itr_bind _ _ _ (λ _, cache_inv s0)); [|intros u; by apply itr_ret].
    destruct parent as [p|]; [|by apply itr_ret].
    eapply itr_bind; [apply itr_attempt_keep, (itr_onIS (grows s0) sources_ok _ (λ _, True)), itr_keep, grows_SetParent; done|].
    intros [e|u]; [by apply itr_fail; intros c [? _]|by apply itr_ret; intros c [? _]].
  - eapply itr_bind; [apply itr_attempt_keep, (itr_onIS (grows s0) sources_ok _ (λ _, True)), itr_keep, grows_restoreCachedImage|].
    intros [e|imgID]; [by apply itr_fail; intros c [? _]|].
    apply (itr_bind _ _ _ (λ _, cache_inv s0)); [|intros u; by apply itr_ret].
    apply itr_modify. intros c [[Hg _] _]. split; [done|]. by constructor.
Qed.

Lemma GetCache_ok s0 srcs depth parentID cfg :
  store_ok GOOS s0 → sources_ok srcs →
  itr (λ c, same_files_view GOOS s0 (ic_store c) ∧ sources c = srcs) (GetCache GOOS version depth parentID cfg)
    (λ _, cache_inv s0) (cache_inv s0).
Proof.
  intros Hok Hsrc. set (V := λ c, same_files_view GOOS s0 (ic_store c) ∧ sources c = srcs).
  assert (∀ c, V c → cache_inv s0 c) as HV by (intros c [? Hs]; split; [by apply grows_view|by rewrite Hs]).
  assert (∀ A (m : M (IS L F) A), itr (same_files_view GOOS s0) m (λ _, same_files_view GOOS s0) (same_files_view GOOS s0) →
    itr V (onIS m) (λ _, V) V) as Hlift.
  { intros A m Hm. eapply itr_conseq; [by apply (itr_onIS (same_files_view GOOS s0) (λ l, l = srcs) m (λ _, True)), itr_keep|done|by intros a c [? _]|done]. }
  unfold GetCache. eapply itr_bind; [eapply itr_conseq; [apply Hlift, LocalGetCache_view|..]; done|]. intros imgID.
  apply itr_get. intros c Hc. pose proof Hc as [_ Heq]. rewrite Heq.
  apply (itr_bind _ _ _ (λ _, V)).
  { destruct (negb _); [|by apply itr_ret; intros ? ->].
    eapply itr_conseq; [by apply Hlift, some_source_view|by intros ? ->|done|done]. }
  intros []; [by apply itr_ret|]. apply (itr_bind _ _ _ (λ _, V)).
  - destruct (negb _); [|by apply itr_ret]. eapply itr_bind.
    + eapply itr_conseq; [apply itr_attempt_keep, itr_keep, Hlift, is_Get_reads|done|intros ? ? Hq; exact Hq|done].
    + intros [e|p]; [apply itr_fail; intros c' [? _]; by apply HV|by apply itr_ret; intros c' [? _]].
  - intros parent. eapply itr_conseq; [by apply find_target_ok|done|done|done].
Qed.

(** A query of the cache never costs an image: whatever [GetCache] finds,
    restores or fails at, the store keeps its invariant and every image it
    had, with the layers it held. *)
Theorem GetCache_keeps_images (c : IC L F) depth parentID cfg :
  store_ok GOOS (ic_store c) → sources_ok (sources c) →
  let c' := (GetCache GOOS version depth parentID cfg c).2 in
  store_ok GOOS (ic_store c') ∧
  ∀ id m, images (ic_store c) !! id = Some m → im_layer <$> images (ic_store c') !! id = Some (im_layer m).
Proof.
  intros Hok Hsrc. pose proof (GetCache_ok (ic_store c) (sources c) depth parentID cfg Hok Hsrc c) as Hg.
  specialize (Hg (conj (same_files_view_refl GOOS _ Hok) eq_refl)).
  cbv zeta. by destruct (GetCache GOOS version depth parentID cfg c) as [[a|e|p] c']; destruct Hg as [[? ?] _].
Qed.
End Store.

(** ** Concrete runs *)

Definition flags_image (flags : list bool) (ds : list DiffID) : Image :=
  mkImage zero_v1 EmptyString (Some (mkRootFS "layers" ds)) (flag_history <$> flags) EmptyString [] EmptyString
    EmptyString.
(** Three steps, the second of which made no layer, and its first two. *)
Definition three_steps : Image := flags_image [false; true; false] ["sha256:a"; "sha256:b"].
Definition two_steps : Image := flags_image [false; true] ["sha256:a"].

Lemma getLayerForHistoryIndex_in_range_witness :
  ∃ d, getLayerForHistoryIndex three_steps 2 = Ok d ∧ diffs three_steps !! 1 = Some d.
Proof.
  apply (getLayerForHistoryIndex_in_range three_steps 2 (flag_history false)); [|reflexivity].
  eexists. split; [reflexivity|]. vm_compute. lia.
Defined.

Lemma restored_is_stage_witness :
  ∃ h layer, getLayerForHistoryIndex three_steps 2 = Ok layer ∧
    diffs (restored "v" (Some two_steps) three_steps zero_config h layer) = ["sha256:a"; "sha256:b"].
Proof.
  destruct (restored_is_stage "v" (Some two_steps) three_steps zero_config) as (n&h&layer&->&_&Hl&_&Hd&_).
  - vm_compute. reflexivity.
  - intros p [= <-]. split; [reflexivity|by eexists].
  - eexists. split; [reflexivity|]. vm_compute. lia.
  - by repeat constructor.
  - exists h, layer. split; [exact Hl|exact Hd].
Defined.

Definition child_store : IS (LS MemDisk) FS := (SetParent id_one id_two two_store).2.
Lemma child_store_ok : store_ok "linux" child_store.
Proof.
  pose proof (SetParent_ok "linux" two_store id_one id_two two_store_ok id_one_digest two_store eq_refl) as Hp.
  unfold child_store. destruct (SetParent id_one id_two two_store) as [[] s]; apply Hp.
Qed.
Lemma id_two_digest : image_digest id_two.
Proof. apply (FromBytes_image_digest config_two). Qed.
Lemma child_links id p : image_digest id → parent_link (ifs child_store) id p → id = id_one ∧ p = id_two.
Proof.
  intros Hid Hp. unfold parent_link, be_meta, run_view, fs_view, file_at in Hp.
  destruct (nodes (ifs child_store) !! meta_path image_root id "parent") as [n|] eqn:Hn; [|done].
  apply elem_of_map_to_list in Hn. destruct n as [|v|]; [done| |done]. injection Hp as ->.
  remember (hex_part id) as hex eqn:Hhex. unfold meta_path in Hn. rewrite <-Hhex in Hn.
  eassert (map_to_list (nodes (ifs child_store)) = _) as Hl by (vm_compute; reflexivity).
  rewrite Hl in Hn. clear Hl.
  repeat (apply elem_of_cons in Hn as [Hn|Hn]; [try discriminate Hn|]); [|by apply not_elem_of_nil in Hn].
  injection Hn as Hh Hv. split; [|by rewrite Hv].
  apply hex_part_inj; [done|apply id_one_digest|]. by rewrite <-Hhex, Hh.
Qed.

Lemma LocalGetCache_latest_witness :
  (LocalGetCache id_two zero_config child_store).1 = Ok id_one ∧
  ∃ imgs o, latest zero_config imgs o ∧ id_one = match o with Some img => computedID img | None => EmptyString end.
Proof.
  assert ((LocalGetCache id_two zero_config child_store).1 = Ok id_one) as Hrun by (vm_compute; reflexivity).
  split; [exact Hrun|].
  assert (id_two ≠ EmptyString) as Hne by discriminate.
  pose proof (LocalGetCache_latest "linux" child_store id_two zero_config child_store_ok Hne) as Hp.
  destruct (LocalGetCache id_two zero_config child_store) as [o s]. cbn [fst] in Hrun. subst o.
  destruct Hp as (_&imgs&o&_&Hl&Ho). exists imgs, o. split; [exact Hl|exact Ho].
Defined.

Lemma isParent_terminates_witness :
  (isParent 2 id_one id_two child_store).1 = Ok true ∧
  tc (parent_link (ifs child_store)) id_one id_two.
Proof.
  assert ((isParent 2 id_one id_two child_store).1 = Ok true) as Hrun by (vm_compute; reflexivity).
  split; [exact Hrun|].
  pose proof (isParent_terminates "linux" child_store (λ i, if String.eqb i id_one then 1 else 0) 2 id_one id_two
    child_store_ok) as Hp.
  destruct (isParent 2 id_one id_two child_store) as [o s]. cbn [fst] in Hrun. subst o. apply Hp.
  - intros i p Hi Hl. destruct (child_links i p Hi Hl) as [-> ->]. split; [apply id_two_digest|vm_compute; lia].
  - apply id_one_digest.
  - vm_compute. lia.
  - reflexivity.
Defined.

Definition demo_cache : IC (LS MemDisk) FS := mkIC [] child_store.
Lemma GetCache_keeps_images_witness :
  (GetCache "linux" "v" 2 id_two zero_config demo_cache).1 = Ok EmptyString ∧
  store_ok "linux" (ic_store (GetCache "linux" "v" 2 id_two zero_config demo_cache).2).
Proof.
  split; [vm_compute; reflexivity|].
  apply (GetCache_keeps_images "linux" "v" demo_cache 2 id_two zero_config child_store_ok). constructor.
Defined.
