(* ===== verification/ImageService.v ===== *)
(** * The image service

    [src/engine/daemon/images]: looking an image up by name or identifier and
    deleting it, on the image store, the reference store and the containers of
    the daemon.  A recursion that does not end is a stack that overflows, as
    in the build cache. *)

From S2P Require Import Prelude FileSys Digest DigestSet Chain LayerStore ContainerConfig ImageModel ImageFS ImageStore Reference RefStore.

(** ** Containers *)

(** A container, as far as images are concerned. *)
Record Ctr := mkCtr {
  ct_ID : string;
  ct_ImageID : ImageID;
  ct_Running : bool;
  ct_MountLabel : string;
  ct_OS : string;
}.

(** [memoryStore]. *)
Module MemoryStore.
Definition Add (id : string) (c : Ctr) (m : gmap string Ctr) : gmap string Ctr := <[id := c]> m.
Definition Get (id : string) (m : gmap string Ctr) : option Ctr := m !! id.
Definition Delete (id : string) (m : gmap string Ctr) : gmap string Ctr := delete id m.
Definition all (m : gmap string Ctr) : list Ctr := (map_to_list m).*2.
Definition First (filter : Ctr → bool) (m : gmap string Ctr) : option Ctr := List.find filter (all m).
Definition Size (m : gmap string Ctr) : nat := size m.
End MemoryStore.

(** [stringid.TruncateID]. *)
Definition TruncateID (id : string) : string :=
  let id := match GoString.index_byte ":" id with Some i => GoString.drop (S i) id | None => id end in
  if 12 <? String.length id then GoString.take 12 id else id.

(** ** Pure helpers of [image_delete.go] *)

(** [conflictType]. *)
Definition conflictDependentChild : Z := 1.
Definition conflictRunningContainer : Z := 2.
Definition conflictActiveReference : Z := 4.
Definition conflictStoppedContainer : Z := 8.
Definition conflictHard : Z := Z.lor conflictDependentChild conflictRunningContainer.
Definition conflictSoft : Z := Z.lor conflictActiveReference conflictStoppedContainer.
Definition has_conflict (mask c : Z) : bool := negb (Z.land mask c =? 0)%Z.

(** [imageDeleteConflict] and its text. *)
Record imageDeleteConflict := mkConflict { cf_hard : bool; cf_used : bool; cf_imgID : ImageID; cf_message : string }.
Definition conflict_error (c : imageDeleteConflict) : error :=
  Conflict ("conflict: unable to delete " +:+ TruncateID (cf_imgID c) +:+ " (" +:+
    (if cf_hard c then "cannot be forced" else "must be forced") +:+ ") - " +:+ cf_message c).

Definition is_canonical (n : Named) : bool := match Ref.digest_of n with Some _ => true | None => false end.

(** The loop of [isSingleReference]: the tag seen, and the repositories of the
    digests. *)
Fixpoint single_loop (refs : list Named) (single : option Named) (canonicalRefs : gset string)
    : option (option Named * gset string) :=
  match refs with
  | [] => Some (single, canonicalRefs)
  | r :: refs =>
      if is_canonical r then single_loop refs single ({[ Ref.Name r ]} ∪ canonicalRefs)
      else match single with
           | None => single_loop refs (Some r) canonicalRefs
           | Some _ => None
           end
  end.
(** [isSingleReference]. *)
Definition isSingleReference (repoRefs : list Named) : bool :=
  match repoRefs with
  | [] => false
  | [_] => true
  | first :: _ =>
      match single_loop repoRefs None ∅ with
      | None => false
      | Some (single, canonicalRefs) =>
          let singleRef := default first single in
          (size canonicalRefs =? 1) && bool_decide (Ref.Name singleRef ∈ canonicalRefs)
      end
  end.

(** [isImageIDPrefix]. *)
Definition isImageIDPrefix (imageID possiblePrefix : string) : bool :=
  if GoString.has_prefix imageID possiblePrefix then true
  else match GoString.index_byte ":" imageID with
       | Some i => GoString.has_prefix (GoString.drop (S i) imageID) possiblePrefix
       | None => false
       end.

(** [ImageDeleteResponseItem]. *)
Inductive DeleteItem := Deleted (id : string) | Untagged (ref : string).

(** An event of the type image. *)
Record Event := mkEvent { ev_Action : string; ev_ID : string; ev_Attributes : gmap string string }.

(** ** The service *)

(** [ImageService]. *)
Record SV (L F : Type) := mkSV {
  sv_images : IS L F;
  sv_refs : RS;
  sv_containers : gmap string Ctr;
  sv_events : list Event;
}.
Arguments mkSV {L F} _ _ _ _.
Arguments sv_images {L F} _.
Arguments sv_refs {L F} _.
Arguments sv_containers {L F} _.
Arguments sv_events {L F} _.

(** [ErrImageDoesNotExist]. *)
Definition ErrImageDoesNotExist (ref : RefAny) : error :=
  NotFound ("No such image: " +:+
    match ref with
    | RDigest d => d
    | RNamed n => Ref.FamiliarString (match Ref.TagNameOnly n with Ok n => n | _ => n end)
    end).

Section Service.
Context {L F : Type} `{LayerGetReleaser L} `{Backend F} `{JSON Image} `{JSON (gmap string Repository)}.
Context (GOOS : string) (jsonPath : path).

Definition onImages {A} (m : M (IS L F) A) : M (SV L F) A :=
  zoom sv_images (λ i s, mkSV i (sv_refs s) (sv_containers s) (sv_events s)) m.
Definition onRefs {A} (m : M RS A) : M (SV L F) A :=
  zoom sv_refs (λ r s, mkSV (sv_images s) r (sv_containers s) (sv_events s)) m.

(** [GetImage]. *)
Definition GetImage (refOrID : string) : M (SV L F) Image :=
  match Ref.ParseAnyReference refOrID with
  | inl e => fail (InvalidParameter ("invalid reference format: " +:+ refOrID))
  | inr (RDigest d) =>
      r ← attempt (onImages (is_Get d));
      match r with
      | inr img => mret img
      | inl _ => fail (ErrImageDoesNotExist (RDigest d))
      end
  | inr (RNamed n) =>
      r ← attempt (onRefs (RefStore.Get n));
      hit ← match r with
            | inr dgst =>
                r ← attempt (onImages (is_Get dgst));
                mret (match r with inr img => Some img | inl _ => None end)
            | inl _ => mret None
            end;
      match hit with
      | Some img => mret img
      | None =>
          r ← attempt (onImages (Search refOrID));
          match r with
          | inr id =>
              r ← attempt (onImages (is_Get id));
              match r with
              | inr img => mret img
              | inl _ => fail (ErrImageDoesNotExist (RNamed n))
              end
          | inl _ => fail (ErrImageDoesNotExist (RNamed n))
          end
      end
  end.

(** [LogImageEvent]. *)
Definition LogImageEvent (imageID refName action : string) : M (SV L F) () :=
  r ← attempt (GetImage imageID);
  let attributes := match r with
                    | inr img => match img_Config (img_V1 img) with
                                 | Some c => default ∅ (Labels c)
                                 | None => ∅
                                 end
                    | inl _ => ∅
                    end in
  let attributes := if negb (String.eqb refName EmptyString) then <["name" := refName]> attributes else attributes in
  modify (λ s, mkSV (sv_images s) (sv_refs s) (sv_containers s) (sv_events s ++ [mkEvent action imageID attributes])).

Definition refs_to (imgID : ImageID) : M (SV L F) (list Named) := onRefs (RefStore.References imgID).

(** [removeImageRef]. *)
Definition removeImageRef (ref : Named) : M (SV L F) Named :=
  ref ← of_outcome (Ref.TagNameOnly ref);
  r ← onRefs (RefStore.Delete jsonPath ref);
  match r with
  | (_, Some e) => fail e
  | (_, None) => mret ref
  end.

(** The loop that untags, with an event for each: of [removeAllReferencesToImageID]
    and of [ImageDelete]. *)
Fixpoint untag_all (imgID : ImageID) (refs : list Named) (records : list DeleteItem) : M (SV L F) (list DeleteItem) :=
  match refs with
  | [] => mret records
  | r :: refs =>
      parsedRef ← removeImageRef r;
      _ ← LogImageEvent imgID imgID "untag";
      untag_all imgID refs (records ++ [Untagged (Ref.FamiliarString parsedRef)])
  end.
(** [removeAllReferencesToImageID]. *)
Definition removeAllReferencesToImageID (imgID : ImageID) (records : list DeleteItem) : M (SV L F) (list DeleteItem) :=
  imageRefs ← refs_to imgID;
  untag_all imgID imageRefs records.

(** [checkImageDeleteConflict]. *)
Definition checkImageDeleteConflict (imgID : ImageID) (mask : Z) : M (SV L F) (option imageDeleteConflict) :=
  refs ← refs_to imgID;
  s ← get;
  mret (
    if has_conflict mask conflictDependentChild && (0 <? length (elements (is_children (images (sv_images s)) imgID)))
    then Some (mkConflict true false imgID "image has dependent child images")
    else match (if has_conflict mask conflictRunningContainer
                then MemoryStore.First (λ c, ct_Running c && String.eqb (ct_ImageID c) imgID) (sv_containers s)
                else None) with
         | Some c => Some (mkConflict true true imgID
                       ("image is being used by running container " +:+ TruncateID (ct_ID c)))
         | None =>
             if has_conflict mask conflictActiveReference && (0 <? length refs)
             then Some (mkConflict false false imgID "image is referenced in multiple repositories")
             else match (if has_conflict mask conflictStoppedContainer
                         then MemoryStore.First (λ c, negb (ct_Running c) && String.eqb (ct_ImageID c) imgID)
                                (sv_containers s)
                         else None) with
                  | Some c => Some (mkConflict false true imgID
                                ("image is being used by stopped container " +:+ TruncateID (ct_ID c)))
                  | None => None
                  end
         end).

(** [imageIsDangling]. *)
Definition imageIsDangling (imgID : ImageID) : M (SV L F) bool :=
  refs ← refs_to imgID;
  s ← get;
  mret (negb ((0 <? length refs) || (0 <? length (elements (is_children (images (sv_images s)) imgID))))).

(** What [imageDeleteHelper] does to an image without conflicts; with its parent. *)
Definition delete_unused (imgID : ImageID) (records : list DeleteItem) : M (SV L F) (ImageID * list DeleteItem) :=
  r ← attempt (onImages (is_GetParent imgID));
  let parent := match r with inr p => p | inl _ => EmptyString end in
  records ← removeAllReferencesToImageID imgID records;
  removedLayers ← onImages (is_Delete GOOS imgID);
  _ ← LogImageEvent imgID imgID "delete";
  mret (parent, records ++ Deleted imgID :: ((λ m, Deleted (md_ChainID m)) <$> removedLayers)).

(** [imageDeleteHelper], with what happens when the stack is full. *)
Definition stack_overflow {A} : M (SV L F) A := panic "stack overflow".
Fixpoint imageDeleteHelper (overflow : M (SV L F) (list DeleteItem)) (depth : nat) (imgID : ImageID)
    (records : list DeleteItem) (force prune quiet : bool) : M (SV L F) (list DeleteItem) :=
  match depth with
  | O => overflow
  | S depth =>
      let c := if negb force then Z.lor conflictHard conflictSoft else conflictHard in
      conflict ← checkImageDeleteConflict imgID c;
      match conflict with
      | Some conflict =>
          dangling ← (if quiet then imageIsDangling imgID else mret false);
          if quiet && (negb dangling || cf_used conflict) then mret records
          else fail (conflict_error conflict)
      | None =>
          res ← delete_unused imgID records;
          let '(parent, records) := res in
          if negb prune || String.eqb parent EmptyString then mret records
          else imageDeleteHelper overflow depth parent records false true true
      end
  end.

(** The digests of [ref]'s repository are removed; the other references remain. *)
Fixpoint drop_digests (name : string) (repoRefs : list Named) (records : list DeleteItem) (remaining : list Named)
    : M (SV L F) (list DeleteItem * list Named) :=
  match repoRefs with
  | [] => mret (records, remaining)
  | r :: repoRefs =>
      if is_canonical r && String.eqb name (Ref.Name r) then
        _ ← removeImageRef r;
        drop_digests name repoRefs (records ++ [Untagged (Ref.FamiliarString r)]) remaining
      else drop_digests name repoRefs records (remaining ++ [r])
  end.

(** The branch of [ImageDelete] for a repository reference: the records so far,
    and whether references remain. *)
Definition delete_reference (imageRef : string) (imgID : ImageID) (force : bool) (repoRefs : list Named)
    : M (SV L F) (list DeleteItem * bool) :=
  s ← get;
  match (if negb force && isSingleReference repoRefs
         then MemoryStore.First (λ c, String.eqb (ct_ImageID c) imgID) (sv_containers s) else None) with
  | Some c =>
      fail (Conflict ("conflict: unable to remove repository reference " +:+ imageRef +:+
        " (must force) - container " +:+ TruncateID (ct_ID c) +:+ " is using its referenced image " +:+ TruncateID imgID))
  | None =>
      parsedRef ← of_sum (Ref.ParseNormalizedNamed imageRef);
      parsedRef ← removeImageRef parsedRef;
      _ ← LogImageEvent imgID imgID "untag";
      let records := [Untagged (Ref.FamiliarString parsedRef)] in
      repoRefs ← refs_to imgID;
      res ← (if negb (is_canonical parsedRef) &&
                negb (existsb (λ r, negb (is_canonical r) && String.eqb (Ref.Name parsedRef) (Ref.Name r)) repoRefs)
             then drop_digests (Ref.Name parsedRef) repoRefs records []
             else mret (records, repoRefs));
      mret (res.1, 0 <? length res.2)
  end.

(** [ImageDelete]. *)
Definition ImageDelete (depth : nat) (imageRef : string) (force prune : bool) : M (SV L F) (list DeleteItem) :=
  img ← GetImage imageRef;
  _ ← guard_err (IsOSSupported GOOS (OperatingSystem GOOS img))
        (Errorf "unable to delete image: operating system is not supported");
  let imgID := computedID img in
  repoRefs ← refs_to imgID;
  if negb (isImageIDPrefix imgID imageRef) then
    res ← delete_reference imageRef imgID force repoRefs;
    if (res.2 : bool) then mret res.1
    else imageDeleteHelper stack_overflow depth imgID res.1 force prune true
  else if isSingleReference repoRefs then
    let c := if negb force then Z.lor conflictHard (Z.ldiff conflictSoft conflictActiveReference) else conflictHard in
    conflict ← checkImageDeleteConflict imgID c;
    match conflict with
    | Some conflict => fail (conflict_error conflict)
    | None =>
        records ← untag_all imgID repoRefs [];
        imageDeleteHelper stack_overflow depth imgID records force prune false
    end
  else imageDeleteHelper stack_overflow depth imgID [] force prune false.
End Service.
