(* ===== verification/ServiceProps.v ===== *)
(** * What the image service guarantees

    The theorems on [src/engine/daemon/images/image.go] and [image_delete.go]:
    images in use are not deleted, no reference is left dangling, the removal
    of parents ends. *)

From S2P Require Import Prelude FileSys FileSysWf Digest DigestSet Chain LayerStore LayerProps ContainerConfig ImageModel ImageFS ImageStore ImageInv ImageRuns Reference RefStore RefProps ImageService.

(** ** Identifiers *)

Section Identifiers.
Import Regexp.

Lemma run_times p n s cs (k : string → caps → option caps) x :
  run (times n (Cls p)) s cs k = Some x →
  ∃ s1 s2, s = s1 +:+ s2 ∧ String.length s1 = n ∧ GoString.all_chars p s1 = true ∧ k s2 cs = Some x.
Proof.
  revert s. induction n as [|n IH]; intros s; cbn [times run].
  - intros Hk. by exists EmptyString, s.
  - destruct s as [|c s]; [done|]. destruct (p c) eqn:Hc; [|done]. intros Hr.
    destruct (IH s Hr) as (s1&s2&->&Hl&Ha&Hk). exists (String c s1), s2. rewrite app_cons.
    split_and!; [done|simpl; by rewrite Hl|simpl; by rewrite Hc|done].
Qed.
Lemma IdentifierRegexp_spec s :
  MatchString RefRegexp.IdentifierRegexp s = true →
  String.length s = 64 ∧ GoString.all_chars GoString.is_hex s = true.
Proof.
  unfold MatchString, find, RefRegexp.IdentifierRegexp. destruct (run _ _ _ _) as [x|] eqn:Hr; [|done].
  intros _. apply run_times in Hr as (s1&s2&->&Hl&Ha&Hk).
  destruct (String.eqb_spec s2 EmptyString) as [->|]; [|done]. by rewrite app_nil_r_str.
Qed.
End Identifiers.

Lemma ParseAny_digest ref d : Ref.ParseAnyReference ref = inr (RDigest d) → Digest.valid d = true.
Proof.
  unfold Ref.ParseAnyReference. destruct (Regexp.MatchString RefRegexp.IdentifierRegexp ref) eqn:Hm.
  - intros [= <-]. apply IdentifierRegexp_spec in Hm as [Hl Hh]. by apply (valid_canonical ref).
  - unfold Digest.Parse, Digest.valid. destruct (Digest.Validate ref) as [e|] eqn:Hv; simpl.
    + by destruct (Ref.ParseNormalizedNamed ref).
    + intros [= <-]. by rewrite Hv.
Qed.

Section Service.
Context {L F : Type} `{LayerLaws L} `{BackendLaws F} `{JSON Image} `{JSONLaws (gmap string Repository)}.
Context (GOOS : string) (jsonPath : path).
Hypothesis Hpath : jsonPath ≠ [].
Implicit Types (s : SV L F) (id : ImageID) (r : Named).

Abbreviation imgs s := (images (sv_images s)).

(** Every reference stands for an image that is there. *)
Definition no_dangling s : Prop :=
  ∀ r id, good r → image_of_ref (sv_refs s) r = Some id → is_Some (imgs s !! id).
Definition sv_ok s : Prop := store_ok GOOS (sv_images s) ∧ rs_ok (sv_refs s) ∧ no_dangling s.

(** Nothing but the disk and the events has changed. *)
Definition quiet s0 s : Prop :=
  files_only GOOS (sv_images s0) (sv_images s) ∧ sv_refs s = sv_refs s0 ∧ sv_containers s = sv_containers s0.

Lemma quiet_refl s : sv_ok s → quiet s s.
Proof. intros (Hok&_). by split_and!. Qed.
Lemma quiet_trans s1 s2 s3 : quiet s1 s2 → quiet s2 s3 → quiet s1 s3.
Proof.
  intros (Hf1&Hr1&Hc1) (Hf2&Hr2&Hc2). split_and!; [by eapply files_only_trans|congruence..].
Qed.
Lemma quiet_ok s0 s : sv_ok s0 → quiet s0 s → sv_ok s.
Proof.
  intros (_&Hr&Hd) ((Hok&_&Him&_)&Hrefs&_). split_and!; [done|by rewrite Hrefs|].
  intros r id. rewrite Hrefs, Him. apply Hd.
Qed.

Lemma quiet_onImages {A : Type} s0 (m : M (IS L F) A) (Q : A → Prop) :
  (∀ i, files_only GOOS (sv_images s0) i →
     match m i with (Ok a, i') => files_only GOOS i i' ∧ Q a | (_, i') => files_only GOOS i i' end) →
  itr (quiet s0) (onImages m) (λ a s, quiet s0 s ∧ Q a) (quiet s0).
Proof.
  intros Hm s (Hf&Hr&Hc). specialize (Hm _ Hf). unfold onImages, zoom.
  assert (∀ i, files_only GOOS (sv_images s) i → quiet s0 (mkSV i (sv_refs s) (sv_containers s) (sv_events s))) as Hq.
  { intros i Hi. split; [|done]. by eapply files_only_trans. }
  destruct (m (sv_images s)) as [[a|e|p] i]; [destruct Hm|..]; auto.
Qed.

(** Reading one image. *)
Lemma quiet_Get s0 d :
  Digest.valid d = true →
  itr (quiet s0) (onImages (is_Get d)) (λ img s, quiet s0 s ∧ image_digest (computedID img) ∧ computedID img = d) (quiet s0).
Proof.
  intros Hd. apply quiet_onImages. intros i Hi.
  pose proof (is_Get_valid GOOS i d (proj1 Hi) Hd i eq_refl) as Hg.
  destruct (is_Get d i) as [[img|e|p] i']; [|by apply Hg..].
  destruct Hg as [[Hf _] (config&_&img0&p&Hfb&_&->)]. split; [done|]. simpl. split; [|done].
  rewrite <-Hfb. apply FromBytes_image_digest.
Qed.
Lemma stored_digest s ref d :
  sv_ok s → (RefStore.Get ref (sv_refs s)).1 = Ok d → image_digest d.
Proof.
  intros (Hok&[Hrefs _]&Hd). unfold RefStore.Get, mbind, M_bind, of_outcome, get.
  destruct (RefStore.get_key ref) as [k|e|p]; [|done..].
  destruct (Repositories (sv_refs s) !! Ref.FamiliarName k) as [repo|] eqn:Hrepo; [|done].
  destruct (repo !! Ref.FamiliarString k) as [id|] eqn:Hid; [|done]. intros [= ->].
  assert (look2 (Repositories (sv_refs s)) (Ref.FamiliarName k) (Ref.FamiliarString k) = Some d) as Hl
    by (unfold look2; by rewrite Hrepo).
  destruct (rk_repo _ Hrefs _ _ _ Hl) as (r&Hr&_). destruct (rk_cache _ Hrefs _ _ _ Hr) as (_&Hg&Him).
  apply (no_images _ (proj2 (proj2 (proj2 Hok)))). by eapply Hd.
Qed.
Lemma Get_state ref (rs : RS) : (RefStore.Get ref rs).2 = rs.
Proof.
  unfold RefStore.Get, mbind, M_bind, of_outcome, get. destruct (RefStore.get_key ref); [|done..].
  destruct (Repositories rs !! _) as [repo|]; [|done]. by destruct (repo !! _).
Qed.

Lemma quiet_Get_digest s0 d :
  Digest.valid d = true →
  itr (quiet s0) (onImages (is_Get d)) (λ img s, quiet s0 s ∧ image_digest (computedID img)) (quiet s0).
Proof. intros Hd. eapply itr_conseq; [by apply quiet_Get|done|by intros img s (?&?&_)|done]. Qed.
Lemma quiet_Search s0 term :
  sv_ok s0 → itr (quiet s0) (onImages (Search term)) (λ id s, quiet s0 s ∧ image_digest id) (quiet s0).
Proof.
  intros Hok. apply quiet_onImages. intros i Hi. pose proof Hi as (Hoki&_). pose proof Hoki as (_&_&Hd&Hn).
  pose proof (Lookup_ok (digestSet i) term (do_set _ _ Hd) (digests_canonical _ _ Hd Hn)) as Hl.
  unfold Search, mbind, M_bind, get. destruct (DigestSet.Lookup (digestSet i) term) as [x|e|p]; [|done..].
  destruct Hl as (e&He&<-&_). split; [done|]. apply (no_images _ Hn), (do_all _ _ Hd).
  unfold DigestSet.All. by apply list_elem_of_fmap_2.
Qed.
Lemma quiet_refs_Get s0 ref :
  sv_ok s0 → itr (quiet s0) (onRefs (RefStore.Get ref)) (λ d s, quiet s0 s ∧ image_digest d) (quiet s0).
Proof.
  intros Hok s Hq. pose proof (quiet_ok _ _ Hok Hq) as Hoks. unfold onRefs, zoom.
  pose proof (Get_state ref (sv_refs s)) as Hst. pose proof (stored_digest s ref) as Hd.
  destruct (RefStore.Get ref (sv_refs s)) as [[d|e|p] rs]; simpl in Hst; subst rs; [split; [|by apply Hd]|..];
    by destruct Hq as (?&?&?).
Qed.

Lemma GetImage_ok s0 ref :
  sv_ok s0 → itr (quiet s0) (GetImage ref) (λ img s, quiet s0 s ∧ image_digest (computedID img)) (quiet s0).
Proof.
  intros Hok. unfold GetImage. destruct (Ref.ParseAnyReference ref) as [e|[n|d]] eqn:Hp; [by apply itr_fail|..].
  - eapply itr_bind; [by apply itr_attempt_keep, (quiet_refs_Get s0 n)|]. intros r1.
    apply (itr_bind _ _ _ (λ o s, quiet s0 s ∧ ∀ img, o = Some img → image_digest (computedID img))).
    { destruct r1 as [e|d]; [by apply itr_ret; intros s [? _]|]. intros s [Hq Hd]. revert s Hq.
      eapply itr_bind; [apply itr_attempt_keep, (quiet_Get_digest s0 d), image_digest_valid, Hd|].
      intros [e|img]; apply itr_ret; [by intros s [? _]|]. intros s [? ?]. split; [done|]. by intros ? [= <-]. }
    intros [img|]; [apply itr_ret; intros s [? Hi]; by auto|]. intros s [Hq _]. revert s Hq.
    eapply itr_bind; [by apply itr_attempt_keep, (quiet_Search s0 ref)|]. intros [e|id]; [by apply itr_fail; intros s [? _]|].
    intros s [Hq Hd]. revert s Hq.
    eapply itr_bind; [apply itr_attempt_keep, (quiet_Get_digest s0 id), image_digest_valid, Hd|].
    intros [e|img]; [by apply itr_fail; intros s [? _]|by apply itr_ret].
  - eapply itr_bind; [by eapply itr_attempt_keep, quiet_Get_digest, ParseAny_digest|].
    intros [e|img]; [by apply itr_fail; intros s [? _]|by apply itr_ret].
Qed.
Lemma LogImageEvent_ok s0 id name action :
  sv_ok s0 → itr (quiet s0) (LogImageEvent id name action) (λ _, quiet s0) (quiet s0).
Proof.
  intros Hok. eapply itr_bind; [by apply itr_attempt_keep, GetImage_ok|]. intros x.
  apply itr_modify. by intros s ((?&?&?)&_).
Qed.

(** ** References *)

(** The images and containers are those of [s0]; the references are among its
    references. *)
Definition fewer_refs s0 s : Prop :=
  files_only GOOS (sv_images s0) (sv_images s) ∧ sv_containers s = sv_containers s0 ∧ rs_ok (sv_refs s) ∧
  ∀ r id, good r → image_of_ref (sv_refs s) r = Some id → image_of_ref (sv_refs s0) r = Some id.

Lemma fewer_refl s : sv_ok s → fewer_refs s s.
Proof. intros (Hok&Hr&_). by split_and!. Qed.
Lemma fewer_trans s1 s2 s3 : fewer_refs s1 s2 → fewer_refs s2 s3 → fewer_refs s1 s3.
Proof.
  intros (Hf1&Hc1&_&Hr1) (Hf2&Hc2&Hok2&Hr2). split_and!; [by eapply files_only_trans|congruence|done|]. eauto.
Qed.
Lemma fewer_quiet s0 s : sv_ok s0 → quiet s0 s → fewer_refs s0 s.
Proof. intros (_&Hr&_) (Hf&Hrefs&Hc). split_and!; [done|done|by rewrite Hrefs|by rewrite Hrefs]. Qed.
Lemma fewer_ok s0 s : sv_ok s0 → fewer_refs s0 s → sv_ok s.
Proof.
  intros (_&_&Hd) ((Hok&_&Him&_)&_&Hr&Hsub). split_and!; [done|done|]. intros r id Hg Hi. rewrite Him. eauto.
Qed.

Lemma fewer_removed s0 r rs ev :
  sv_ok s0 → good r → removed (sv_refs s0) r rs → fewer_refs s0 (mkSV (sv_images s0) rs (sv_containers s0) ev).
Proof.
  intros (Hok&_) Hg [Hrs Hr]. split_and!; [done|done|done|]. simpl. intros r' id Hg'. rewrite (Hr r' Hg').
  by case_decide.
Qed.
Lemma removeImageRef_ok s0 ref :
  sv_ok s0 →
  itr (λ s, s = s0) (removeImageRef jsonPath ref)
    (λ _ s, fewer_refs s0 s ∧ (good ref → image_of_ref (sv_refs s) ref = None)) (fewer_refs s0).
Proof using Hpath H4.
  intros Hok s ->. unfold removeImageRef, mbind, M_bind, of_outcome.
  pose proof (fewer_refl s0 Hok) as Hself. destruct (Ref.TagNameOnly ref) as [ref'|e|p] eqn:Ht; [|done..].
  unfold onRefs, zoom. pose proof Hok as (_&Hrs&_).
  pose proof (Delete_any jsonPath Hpath (sv_refs s0) ref' Hrs _ eq_refl) as Hd.
  assert (good ref → match RefStore.Delete jsonPath ref' (sv_refs s0) with
    | (Ok (_, None), rs) => image_of_ref rs ref = None | _ => True end) as Hgone.
  { intros Hg. assert (ref' = ref) as -> by (destruct Hg as [_ Hn]; destruct ref; [done| | |done]; by injection Ht as <-).
    pose proof (ref_Delete_ok jsonPath Hpath (sv_refs s0) ref ref Hrs Hg (good_key _ Hg) _ eq_refl) as Hd'.
    destruct (RefStore.Delete jsonPath ref (sv_refs s0)) as [[[b [e|]]|e|p] rs]; [done| |done..].
    destruct (image_of_ref (sv_refs s0) ref); [|by destruct Hd'].
    destruct Hd' as (_&[_ Hr]&_). by rewrite (Hr ref Hg), decide_True. }
  destruct (RefStore.Delete jsonPath ref' (sv_refs s0)) as [[[b [e|]]|e|p] rs]; [..|done|done];
    (destruct Hd as [(_&He&->)|(_&r&Hg&_&Hrem)]; [|pose proof (fewer_removed s0 r rs (sv_events s0) Hok Hg Hrem)]).
  - by destruct s0.
  - done.
  - done.
  - by split.
Qed.

(** Untagging a list of good references removes every one of them. *)
Lemma fewer_gone s0 s r : fewer_refs s0 s → good r → image_of_ref (sv_refs s0) r = None → image_of_ref (sv_refs s) r = None.
Proof.
  intros (_&_&_&Hr) Hg Hnone. destruct (image_of_ref (sv_refs s) r) as [id|] eqn:Hi; [|done].
  by rewrite (Hr r id Hg Hi) in Hnone.
Qed.
Lemma untag_all_ok id refs records s0 :
  sv_ok s0 → Forall good refs →
  itr (λ s, s = s0) (untag_all jsonPath id refs records)
    (λ _ s, fewer_refs s0 s ∧ ∀ r, r ∈ refs → image_of_ref (sv_refs s) r = None) (fewer_refs s0).
Proof using Hpath H4.
  intros Hok Hrefs. revert records s0 Hok. induction Hrefs as [|r refs Hg Hgs IH]; intros records s0 Hok; simpl.
  { apply itr_ret. intros s ->. split; [by apply fewer_refl|]. by intros r ?%not_elem_of_nil. }
  eapply itr_bind; [by apply (removeImageRef_ok s0 r)|].
  intros ref. apply itr_from. intros s2 [Hs2 Hgone]. pose proof (fewer_ok _ _ Hok Hs2) as Hok2.
  eapply itr_bind; [eapply itr_conseq; [by apply (LogImageEvent_ok s2)|intros ? ->; by apply quiet_refl|..]|].
  { intros u s Hs. exact Hs. }
  { intros s Hs. eapply fewer_trans; [exact Hs2|]. by apply fewer_quiet. }
  intros u. apply itr_from. intros s3 Hq3. pose proof (fewer_quiet _ _ Hok2 Hq3) as Hs3.
  pose proof (fewer_trans _ _ _ Hs2 Hs3) as Hs03.
  eapply itr_conseq; [apply IH, (fewer_ok _ _ Hok Hs03)|done|..].
  - intros recs s [Hs Hrs]. split; [by eapply fewer_trans|]. intros r' [->|Hr']%elem_of_cons; [|by apply Hrs].
    eapply fewer_gone; [exact Hs|done|]. eapply fewer_gone; [exact Hs3|done|]. by apply Hgone.
  - intros s Hs. by eapply fewer_trans.
Qed.
Lemma refs_to_run s0 id :
  rs_ok (sv_refs s0) → ∃ refs, refs_to id s0 = (Ok refs, s0) ∧ Forall good refs ∧
    ∀ r, good r → r ∈ refs ↔ image_of_ref (sv_refs s0) r = Some id.
Proof.
  intros Hrs. destruct (References_ok (sv_refs s0) id Hrs) as (refs&Hr&_&_&Hg&Hin).
  exists refs. unfold refs_to, onRefs, zoom. rewrite Hr. split_and!; [by destruct s0|by apply Forall_forall|done].
Qed.
Lemma removeAll_ok s0 id records :
  sv_ok s0 →
  itr (λ s, s = s0) (removeAllReferencesToImageID jsonPath id records)
    (λ _ s, fewer_refs s0 s ∧ ∀ r, good r → image_of_ref (sv_refs s) r ≠ Some id) (fewer_refs s0).
Proof using Hpath H4.
  intros Hok s ->. destruct (refs_to_run s0 id) as (refs&Hr&Hg&Hin); [apply Hok|].
  unfold removeAllReferencesToImageID, mbind, M_bind. rewrite Hr.
  pose proof (untag_all_ok id refs records s0 Hok Hg s0 eq_refl) as Hu.
  destruct (untag_all jsonPath id refs records s0) as [[recs|e|p] s]; [|done..].
  destruct Hu as [Hs Hgone]. split; [done|]. intros r Hgr Hi.
  destruct Hs as (_&_&_&Hsub). rewrite Hgone in Hi; [done|]. apply Hin; [done|]. by apply Hsub.
Qed.

(** ** Conflicts *)

(** A container uses the image; with [force], one that runs. *)
Definition used (cs : gmap string Ctr) (force : bool) id : Prop :=
  ∃ k c, cs !! k = Some c ∧ ct_ImageID c = id ∧ (force = true → ct_Running c = true).

Lemma First_None (f : Ctr → bool) m k c : MemoryStore.First f m = None → m !! k = Some c → f c = false.
Proof.
  intros Hf Hk. apply (List.find_none f (MemoryStore.all m) Hf), list_elem_of_In. unfold MemoryStore.all.
  apply list_elem_of_fmap. exists (k, c). split; [done|]. by apply elem_of_map_to_list.
Qed.

(** The mask of [imageDeleteHelper]. *)
Definition delete_mask (force : bool) : Z := if negb force then Z.lor conflictHard conflictSoft else conflictHard.

Lemma check_run s0 id mask :
  rs_ok (sv_refs s0) → ∃ o, checkImageDeleteConflict id mask s0 = (Ok o, s0).
Proof.
  intros Hrs. destruct (refs_to_run s0 id Hrs) as (refs&Hr&_).
  unfold checkImageDeleteConflict, mbind, M_bind. rewrite Hr. by eexists.
Qed.
Lemma check_none s0 id force :
  rs_ok (sv_refs s0) → checkImageDeleteConflict id (delete_mask force) s0 = (Ok None, s0) →
  is_children (imgs s0) id = ∅ ∧ ¬ used (sv_containers s0) force id.
Proof.
  intros Hrs. destruct (refs_to_run s0 id Hrs) as (refs&Hr&_).
  unfold checkImageDeleteConflict, mbind, M_bind. rewrite Hr. unfold get, mret, M_ret.
  replace (has_conflict (delete_mask force) conflictDependentChild) with true by (by destruct force).
  replace (has_conflict (delete_mask force) conflictRunningContainer) with true by (by destruct force).
  cbn [andb]. destruct (Nat.ltb_spec 0 (length (elements (is_children (imgs s0) id)))) as [|Hch]; [done|].
  destruct (MemoryStore.First _ (sv_containers s0)) eqn:Hrun; [done|].
  destruct (_ && (0 <? length refs)); [done|]. intros Hrest. split.
  { apply leibniz_equiv, elements_empty_iff, length_zero_iff_nil. lia. }
  intros (k&c&Hk&Hid&Hforce). pose proof (First_None _ _ _ _ Hrun Hk) as Hnr. simpl in Hnr.
  rewrite Hid, String.eqb_refl, andb_true_r in Hnr. destruct force; [by rewrite Hforce in Hnr|].
  replace (has_conflict (delete_mask false) conflictStoppedContainer) with true in Hrest by done.
  destruct (MemoryStore.First (λ c, negb (ct_Running c) && _) (sv_containers s0)) eqn:Hstop; [done|].
  pose proof (First_None _ _ _ _ Hstop Hk) as Hns. cbv beta in Hns. by rewrite Hid, String.eqb_refl, Hnr in Hns.
Qed.
Lemma dangling_run s0 id : rs_ok (sv_refs s0) → ∃ b, imageIsDangling id s0 = (Ok b, s0).
Proof.
  intros Hrs. destruct (refs_to_run s0 id Hrs) as (refs&Hr&_).
  unfold imageIsDangling, mbind, M_bind. rewrite Hr. by eexists.
Qed.

(** ** Deleting *)

(** From [s0] to [s], only images outside [P] are gone. *)
Definition keeps_images (P : ImageID → Prop) s0 s : Prop :=
  sv_ok s ∧ sv_containers s = sv_containers s0 ∧
  ∀ id, P id → is_Some (imgs s0 !! id) → is_Some (imgs s !! id).

Lemma keeps_images_trans P s1 s2 s3 : keeps_images P s1 s2 → keeps_images P s2 s3 → keeps_images P s1 s3.
Proof. intros (_&Hc1&Hi1) (Hok&Hc2&Hi2). split_and!; [done|congruence|auto]. Qed.
Lemma keeps_images_fewer P s0 s : sv_ok s0 → fewer_refs s0 s → keeps_images P s0 s.
Proof.
  intros Hok Hf. split_and!; [by eapply fewer_ok|apply Hf|]. intros id _. by destruct Hf as ((_&_&->&_)&_).
Qed.
Lemma keeps_images_quiet P s0 s : sv_ok s0 → quiet s0 s → keeps_images P s0 s.
Proof. intros Hok Hq. by apply keeps_images_fewer, fewer_quiet. Qed.

(** The image store's [Delete], when no reference to the image is left. *)
Lemma service_Delete_ok P s0 id :
  sv_ok s0 → ¬ P id → (∀ r, good r → image_of_ref (sv_refs s0) r ≠ Some id) →
  itr (λ s, s = s0) (onImages (is_Delete GOOS id))
    (λ _ s, keeps_images P s0 s ∧ size (imgs s) < size (imgs s0)) (keeps_images P s0).
Proof.
  intros (Hok&Hrs&Hd) HP Hno s ->. pose proof (Delete_ok GOOS (sv_images s0) id Hok _ eq_refl) as Hdel.
  unfold onImages, zoom.
  assert (∀ i, others_layers GOOS (sv_images s0) id i →
    keeps_images P s0 (mkSV i (sv_refs s0) (sv_containers s0) (sv_events s0))) as Hk.
  { intros i [Hoki Hl]. assert (∀ j, j ≠ id → is_Some (imgs s0 !! j) → is_Some (images i !! j)) as Hstay.
    { intros j Hj [m Hm]. specialize (Hl j Hj). rewrite Hm in Hl. by destruct (images i !! j). }
    split_and!; [split_and!; [done|done|]|done|].
    - intros r j Hg Hr. apply Hstay; [|by eapply Hd]. intros ->. by eapply Hno.
    - intros j Pj. apply Hstay. by intros ->. }
  destruct (is_Delete GOOS id (sv_images s0)) as [[mds|e|p] i]; [|by apply Hk..].
  destruct Hdel as (m0&Hm0&Hoki&Hnone&Hl&_). split; [by apply Hk|]. simpl.
  assert (dom (images i) = dom (imgs s0) ∖ {[ id ]}) as Hdom.
  { apply set_eq. intros j. rewrite elem_of_difference, elem_of_singleton, !elem_of_dom.
    destruct (decide (j = id)) as [->|Hj]; [rewrite Hnone; split; [by intros []|by intros [_ ?]]|].
    specialize (Hl j Hj). rewrite <-!(fmap_is_Some im_layer), Hl. by split; [|intros [? _]]. }
  rewrite <-!size_dom, Hdom, size_difference by (apply singleton_subseteq_l, elem_of_dom; by eexists).
  rewrite size_singleton. assert (0 < size (dom (imgs s0))); [|lia].
  apply (Nat.lt_le_trans _ (size ({[id]} : gset ImageID))); [by rewrite size_singleton; lia|].
  apply subseteq_size, singleton_subseteq_l, elem_of_dom. by eexists.
Qed.

Lemma used_false cs force id : used cs force id → used cs false id.
Proof. intros (k&c&?&?&_). by exists k, c. Qed.

Lemma quiet_GetParent s0 id :
  itr (quiet s0) (onImages (is_GetParent id)) (λ _ s, quiet s0 s ∧ True) (quiet s0).
Proof using H4.
  apply quiet_onImages. intros i (Hoki&_).
  pose proof (is_GetParent_reads GOOS i id i (same_files_view_refl GOOS i Hoki)) as Hr.
  destruct (is_GetParent id i) as [[p|e|m] i']; [split; [|done]|..]; apply Hr.
Qed.

Lemma delete_unused_ok s0 id records (P : ImageID → Prop) :
  sv_ok s0 → ¬ P id →
  itr (λ s, s = s0) (delete_unused GOOS jsonPath id records)
    (λ _ s, keeps_images P s0 s ∧ size (imgs s) < size (imgs s0)) (keeps_images P s0).
Proof using Hpath H1 H4.
  intros Hok HP. unfold delete_unused. eapply itr_bind.
  { eapply itr_conseq; [apply itr_attempt_keep, quiet_GetParent|intros s ->; by apply quiet_refl|intros ? ? Hq; exact Hq|].
    intros s Hq. by apply keeps_images_quiet. }
  intros r. apply itr_from. intros s1 [Hq1 _]. pose proof (quiet_ok _ _ Hok Hq1) as Hok1.
  pose proof (keeps_images_quiet P _ _ Hok Hq1) as Hk1.
  eapply itr_bind; [eapply itr_conseq; [by apply (removeAll_ok s1 id records)|done|intros ? ? Hq; exact Hq|]|].
  { intros s Hs. eapply keeps_images_trans; [exact Hk1|]. by apply keeps_images_fewer. }
  intros recs. apply itr_from. intros s2 [Hf2 Hno]. pose proof (fewer_ok _ _ Hok1 Hf2) as Hok2.
  pose proof (keeps_images_trans P _ _ _ Hk1 (keeps_images_fewer P _ _ Hok1 Hf2)) as Hk2.
  assert (imgs s2 = imgs s0) as Him2.
  { destruct Hf2 as ((_&_&->&_)&_). by destruct Hq1 as ((_&_&->&_)&_). }
  eapply itr_bind; [eapply itr_conseq; [by apply (service_Delete_ok P s2 id)|done|intros ? ? Hq; exact Hq|]|].
  { intros s Hs. by eapply keeps_images_trans. }
  intros mds. apply itr_from. intros s3 [Hk3 Hsize]. rewrite Him2 in Hsize.
  pose proof (keeps_images_trans P _ _ _ Hk2 Hk3) as Hk03. pose proof (proj1 Hk3) as Hok3.
  eapply itr_bind; [eapply itr_conseq; [by apply (LogImageEvent_ok s3 id id "delete")|intros ? ->; by apply quiet_refl|intros ? ? Hq; exact Hq|]|].
  { intros s Hs. eapply keeps_images_trans; [exact Hk03|]. by apply keeps_images_quiet. }
  intros u. apply itr_ret. intros s Hq. split; [eapply keeps_images_trans; [exact Hk03|by apply keeps_images_quiet]|].
  by destruct Hq as ((_&_&->&_)&_).
Qed.

Lemma helper_ok overflow P depth : ∀ id records force prune q s0,
  sv_ok s0 → (∀ i, P i → used (sv_containers s0) force i) → size (imgs s0) < depth →
  itr (λ s, s = s0) (imageDeleteHelper GOOS jsonPath overflow depth id records force prune q)
    (λ _, keeps_images P s0) (keeps_images P s0).
Proof using Hpath H1 H4.
  induction depth as [|depth IH]; intros id records force prune q s0 Hok HP Hsize; [lia|].
  intros s ->. cbn [imageDeleteHelper]. fold (delete_mask force).
  pose proof Hok as (_&Hrs&_). destruct (check_run s0 id (delete_mask force) Hrs) as [o Ho].
  unfold mbind at 1, M_bind at 1. rewrite Ho.
  pose proof (keeps_images_quiet P s0 s0 Hok (quiet_refl s0 Hok)) as Hself.
  destruct o as [conflict|].
  { destruct (dangling_run s0 id Hrs) as [b Hb]. unfold mbind, M_bind.
    destruct q; [rewrite Hb; cbn [andb]; by destruct (negb b || cf_used conflict)|done]. }
  destruct (check_none s0 id force Hrs Ho) as [_ Hnot].
  assert (¬ P id) as HnP by (intros Hp; by apply Hnot, HP).
  cut (itr (λ s, s = s0) (res ← delete_unused GOOS jsonPath id records;
    let '(parent, records) := res in
    if negb prune || String.eqb parent EmptyString then mret records
    else imageDeleteHelper GOOS jsonPath overflow depth parent records false true true)
    (λ _, keeps_images P s0) (keeps_images P s0)); [intros Hc; by apply Hc|].
  eapply itr_bind; [by apply delete_unused_ok|]. intros [parent recs]. apply itr_from. intros s1 [Hk1 Hs1].
  destruct (negb prune || _); [by apply itr_ret; intros ? ->|].
  eapply itr_conseq; [apply (IH parent recs false true true s1)|done|..].
  - apply Hk1.
  - intros i Hi. destruct Hk1 as (_&->&_). by eapply used_false, HP.
  - lia.
  - intros u s Hs. by eapply keeps_images_trans.
  - intros s Hs. by eapply keeps_images_trans.
Qed.

Lemma drop_digests_ok name refs records remaining s0 :
  sv_ok s0 →
  itr (λ s, s = s0) (drop_digests jsonPath name refs records remaining) (λ _, fewer_refs s0) (fewer_refs s0).
Proof using Hpath H4.
  revert records remaining s0. induction refs as [|r refs IH]; intros records remaining s0 Hok; simpl.
  { apply itr_ret. intros ? ->. by apply fewer_refl. }
  destruct (is_canonical r && _); [|by apply IH].
  eapply itr_bind; [by apply removeImageRef_ok|]. intros ref. apply itr_from. intros s1 [Hf1 _].
  eapply itr_conseq; [apply IH, (fewer_ok _ _ Hok Hf1)|done|..].
  - intros u s Hs. by eapply fewer_trans.
  - intros s Hs. by eapply fewer_trans.
Qed.
Lemma itr_refs_to s0 id (E : SV L F → Prop) : sv_ok s0 → itr (λ s, s = s0) (refs_to id) (λ refs s, Forall good refs ∧ s = s0) E.
Proof. intros Hok s ->. destruct (refs_to_run s0 id) as (refs&->&Hg&_); [apply Hok|done]. Qed.

Lemma delete_reference_ok ref id force refs s0 :
  sv_ok s0 →
  itr (λ s, s = s0) (delete_reference jsonPath ref id force refs) (λ _, fewer_refs s0) (fewer_refs s0).
Proof using Hpath H4.
  intros Hok. unfold delete_reference. pose proof (fewer_refl s0 Hok) as Hself. apply itr_get. intros ? ->.
  destruct (if negb force && isSingleReference refs then _ else None) as [c|]; [by apply itr_fail; intros ? ->|].
  apply (itr_bind _ _ _ (λ _ s, s = s0)); [apply itr_of_sum; [by intros ? ->|done]|]. intros parsed.
  eapply itr_bind; [by apply removeImageRef_ok|]. intros ref'. apply itr_from. intros s1 [Hf1 _].
  pose proof (fewer_ok _ _ Hok Hf1) as Hok1.
  eapply itr_bind; [eapply itr_conseq; [by apply (LogImageEvent_ok s1)|intros ? ->; by apply quiet_refl|intros ? ? Hq; exact Hq|]|].
  { intros s Hs. eapply fewer_trans; [exact Hf1|]. by apply fewer_quiet. }
  intros u. apply itr_from. intros s2 Hq2. pose proof (quiet_ok _ _ Hok1 Hq2) as Hok2.
  pose proof (fewer_trans _ _ _ Hf1 (fewer_quiet _ _ Hok1 Hq2)) as Hf2.
  eapply itr_bind; [by apply itr_refs_to|]. intros refs2. apply itr_pure. intros _.
  apply (itr_bind _ _ _ (λ _, fewer_refs s0)); [|intros res; by apply itr_ret].
  destruct (negb (is_canonical ref') && _); [|by apply itr_ret; intros ? ->].
  eapply itr_conseq; [by apply drop_digests_ok|done|..].
  - intros v s Hs. by eapply fewer_trans.
  - intros s Hs. by eapply fewer_trans.
Qed.

Lemma ImageDelete_ok P depth ref force prune s0 :
  sv_ok s0 → (∀ i, P i → used (sv_containers s0) force i) → size (imgs s0) < depth →
  itr (λ s, s = s0) (ImageDelete GOOS jsonPath depth ref force prune) (λ _, keeps_images P s0) (keeps_images P s0).
Proof using Hpath H1 H4.
  intros Hok HP Hsize. unfold ImageDelete.
  assert (∀ s, quiet s0 s → keeps_images P s0 s) as Hqk by (intros s Hs; by apply keeps_images_quiet).
  assert (∀ s, fewer_refs s0 s → ∀ id records q, itr (λ s', s' = s)
    (imageDeleteHelper GOOS jsonPath stack_overflow depth id records force prune q)
    (λ _, keeps_images P s0) (keeps_images P s0)) as Hhelper.
  { intros s Hs id records q. pose proof (fewer_ok _ _ Hok Hs) as Hoks.
    pose proof (keeps_images_fewer P _ _ Hok Hs) as Hk. pose proof Hs as ((_&_&Him&_)&Hc&_).
    eapply itr_conseq; [apply (helper_ok stack_overflow P depth id records force prune q s)|done|..]; try done.
    - by rewrite Hc.
    - by rewrite Him.
    - intros u s' Hs'. by eapply keeps_images_trans.
    - intros s' Hs'. by eapply keeps_images_trans. }
  eapply itr_bind; [eapply itr_conseq; [by apply (GetImage_ok s0 ref)|intros ? ->; by apply quiet_refl|intros ? ? Hq; exact Hq|done]|].
  intros img. apply itr_from. intros s1 [Hq1 _]. pose proof (quiet_ok _ _ Hok Hq1) as Hok1.
  pose proof (fewer_quiet _ _ Hok Hq1) as Hf1.
  assert (∀ s, fewer_refs s1 s → keeps_images P s0 s) as Hfk.
  { intros s Hs. apply keeps_images_fewer; [done|]. by eapply fewer_trans. }
  apply (itr_bind _ _ _ (λ _ s, s = s1)); [apply itr_guard; [intros ? ->; by apply Hqk|done]|]. intros u.
  eapply itr_bind; [by apply itr_refs_to|]. intros refs. apply itr_pure. intros Hrefs. destruct (negb _).
  - eapply itr_bind; [eapply itr_conseq; [by apply (delete_reference_ok ref)|done|intros ? ? Hq; exact Hq|done]|].
    intros [recs more]. apply itr_from. intros s2 Hs2. simpl. destruct more; [apply itr_ret; intros ? ->; by apply Hfk|].
    apply Hhelper. by eapply fewer_trans.
  - destruct (isSingleReference refs); [|by apply Hhelper].
    intros s ->. destruct (check_run s1 (computedID img) (if negb force then
      Z.lor conflictHard (Z.ldiff conflictSoft conflictActiveReference) else conflictHard)) as [o Ho]; [apply Hok1|].
    unfold mbind at 1, M_bind at 1. rewrite Ho. destruct o as [c|]; [by apply Hqk|].
    pose proof (untag_all_ok (computedID img) refs [] s1 Hok1 Hrefs s1 eq_refl) as Hu.
    unfold mbind, M_bind. destruct (untag_all jsonPath (computedID img) refs [] s1) as [[recs|e|p] s2]; [|by apply Hfk..].
    destruct Hu as [Hu _]. apply (Hhelper s2); [by eapply fewer_trans|done].
Qed.

(** C19. [ImageDelete] spares what is in use: whatever it is asked, forced or not,
    with or without pruning, and wherever it fails, every image used by a
    running container is still there; without force, so is every image used by
    any container.  No reference is left that stands for no image, and the
    containers are untouched.  A stack of as many frames as there are images
    is enough. *)
Theorem ImageDelete_spares_used depth ref force prune s :
  sv_ok s → size (imgs s) < depth →
  let s' := (ImageDelete GOOS jsonPath depth ref force prune s).2 in
  sv_ok s' ∧ sv_containers s' = sv_containers s ∧
  ∀ id, used (sv_containers s) force id → is_Some (imgs s !! id) → is_Some (imgs s' !! id).
Proof using Hpath H1 H4.
  intros Hok Hsize. pose proof (ImageDelete_ok (used (sv_containers s) force) depth ref force prune s Hok
    ltac:(done) Hsize s eq_refl) as Hd.
  cbv zeta. by destruct (ImageDelete GOOS jsonPath depth ref force prune s) as [[recs|e|p] s'].
Qed.

(** The pruning of parents ends: each level removes an image, so that with
    more frames than there are images [imageDeleteHelper] never gets to the
    end of the stack, whatever would happen there. *)
Theorem imageDeleteHelper_terminates overflow1 overflow2 depth1 depth2 id records force prune q s :
  sv_ok s → size (imgs s) < depth1 → size (imgs s) < depth2 →
  imageDeleteHelper GOOS jsonPath overflow1 depth1 id records force prune q s =
  imageDeleteHelper GOOS jsonPath overflow2 depth2 id records force prune q s.
Proof using Hpath H1 H4.
  revert depth2 id records force prune q s.
  induction depth1 as [|depth1 IH]; intros [|depth2] id records force prune q s Hok Hs1 Hs2; [lia..|].
  cbn [imageDeleteHelper]. fold (delete_mask force). pose proof Hok as (_&Hrs&_).
  destruct (check_run s id (delete_mask force) Hrs) as [o Ho].
  unfold mbind, M_bind. rewrite Ho. destruct o as [c|]; [reflexivity|].
  pose proof (delete_unused_ok s id records (λ _, False) Hok ltac:(tauto) s eq_refl) as Hd.
  destruct (delete_unused GOOS jsonPath id records s) as [[[parent recs]|e|p] s1]; [|done..].
  destruct Hd as [Hk Hlt]. destruct (negb prune || _); [done|]. apply IH; [apply Hk|lia|lia].
Qed.

(** What the comment on [removeImageRef] calls idempotent is not: removing a
    reference that is not there is an error. *)
Theorem removeImageRef_not_idempotent s ref :
  sv_ok s → good ref → image_of_ref (sv_refs s) ref = None →
  removeImageRef jsonPath ref s = (Err RefStore.ErrDoesNotExist, s).
Proof using Hpath.
  intros (_&Hrs&_) Hg Hnone. unfold removeImageRef, mbind, M_bind, of_outcome.
  assert (Ref.TagNameOnly ref = Ok ref) as -> by (destruct Hg as [_ Hn]; by destruct ref).
  pose proof (ref_Delete_ok jsonPath Hpath (sv_refs s) ref ref Hrs Hg (good_key _ Hg) _ eq_refl) as Hd.
  unfold onRefs, zoom. rewrite Hnone in Hd.
  destruct (RefStore.Delete jsonPath ref (sv_refs s)) as [[res|e|p] rs]; [|done..].
  destruct Hd as [-> ->]. by destruct s.
Qed.
End Service.

(** ** Concrete runs *)

(** Two images; the first has a tag, the second a running container. *)
Definition tagged : RS := (RefStore.AddTag refs_path ubuntu_name id_one false refs_new).2.
Definition web : Ctr := mkCtr "web" id_two true EmptyString "linux".
Definition demo_service : SV (LS MemDisk) FS := mkSV two_store tagged {[ "web" := web ]} [].

Lemma tagged_added : added refs_new ubuntu id_one tagged.
Proof.
  pose proof (AddTag_ok refs_path refs_path_ne refs_new ubuntu_name ubuntu id_one false refs_new_ok
    ubuntu_good ubuntu_key eq_refl refs_new eq_refl) as Ha.
  assert ((RefStore.AddTag refs_path ubuntu_name id_one false refs_new).1 = Ok tt) as Hrun by (vm_compute; reflexivity).
  unfold tagged. destruct (RefStore.AddTag refs_path ubuntu_name id_one false refs_new) as [o s].
  cbn [fst] in Hrun. subst o. apply Ha.
Qed.
Lemma refs_new_empty r : image_of_ref refs_new r = None.
Proof.
  assert (Repositories refs_new = ∅) as HR by (vm_compute; reflexivity).
  unfold image_of_ref, look2. by rewrite HR.
Qed.
Lemma demo_service_ok : sv_ok "linux" demo_service.
Proof.
  split_and!; [apply two_store_ok|apply tagged_added|].
  intros r id Hg Hi. cbn [sv_refs demo_service] in Hi.
  rewrite (image_added _ _ _ _ _ tagged_added ubuntu_good Hg), refs_new_empty in Hi.
  destruct (decide (ubuntu = r)); [|discriminate Hi]. injection Hi as <-. vm_compute. eauto.
Qed.
Lemma demo_service_size : size (images (sv_images demo_service)) < 3.
Proof. vm_compute. lia. Qed.

Lemma ImageDelete_spares_used_witness :
  (ImageDelete "linux" refs_path 3 id_two true true demo_service).1 =
    Err (Conflict ("conflict: unable to delete " +:+ TruncateID id_two +:+
      " (cannot be forced) - image is being used by running container web")) ∧
  is_Some (images (sv_images (ImageDelete "linux" refs_path 3 id_two true true demo_service).2) !! id_two).
Proof.
  split; [vm_compute; reflexivity|].
  apply (ImageDelete_spares_used "linux" refs_path refs_path_ne 3 id_two true true demo_service
    demo_service_ok demo_service_size).
  - exists "web", web. split; [vm_compute; reflexivity|]. split; [reflexivity|reflexivity].
  - vm_compute. eauto.
Defined.

Lemma imageDeleteHelper_terminates_witness :
  (ImageDelete "linux" refs_path 3 "ubuntu" false true demo_service).1 =
    Ok [Untagged "ubuntu:latest"; Deleted id_one] ∧
  imageDeleteHelper "linux" refs_path stack_overflow 3 id_one [] false true true demo_service =
  imageDeleteHelper "linux" refs_path (mret []) 7 id_one [] false true true demo_service.
Proof.
  split; [vm_compute; reflexivity|].
  apply (imageDeleteHelper_terminates "linux" refs_path refs_path_ne stack_overflow (mret []) 3 7 id_one [] false true true
    demo_service demo_service_ok demo_service_size).
  vm_compute. lia.
Defined.

Lemma removeImageRef_not_idempotent_witness :
  (removeImageRef refs_path pinned demo_service).1 = Err RefStore.ErrDoesNotExist.
Proof.
  rewrite (removeImageRef_not_idempotent "linux" refs_path refs_path_ne demo_service pinned demo_service_ok pinned_good).
  - reflexivity.
  - vm_compute. reflexivity.
Defined.
