(* ===== verification/Commit.v ===== *)
(** * Committing a container

    [src/engine/daemon/images/image_commit.go] and [image_tag.go]: the changes
    of a container become a layer on top of its image, or, with the flag
    [simp], the only layer of an image of their own; the new image is stored,
    gets its parent and, if asked for, a tag. *)

From S2P Require Import Prelude FileSys Digest DigestSet Chain FileStore GraphDriver LayerStore ContainerConfig ImageModel ImageFS ImageStore Reference RefStore ImageService.

(** [backend.CommitConfig]. *)
Record CommitConfig := mkCommit {
  cm_Author : string;
  cm_Comment : string;
  cm_Config : option Config;
  cm_ContainerConfig : option Config;
  cm_ContainerID : string;
  cm_ContainerMountLabel : string;
  cm_ContainerOS : string;
  cm_ParentImageID : string;
}.

Definition set_container (label os : string) (parent : ImageID) (c : CommitConfig) : CommitConfig :=
  mkCommit (cm_Author c) (cm_Comment c) (cm_Config c) (cm_ContainerConfig c) (cm_ContainerID c) label os parent.

Section ExportContainer.
Context {D : Type} `{GraphDriver D} `{JSON Descriptor} `{TarSplit}.
Context (root : path).

(** [exportContainerRw]: the stream, and the reference its [Close] gives up. *)
Definition exportContainerRw (id mountLabel : string) : M (LS D) (string * loc) :=
  rwlayer ← GetRWLayer id;
  defer_on_error
    (_ ← rw_Mount rwlayer mountLabel;
     r ← attempt (rw_TarStream rwlayer);
     match r with
     | inl e => _ ← ignore_err (rw_Unmount rwlayer); fail e
     | inr archive => mret (archive, rwlayer)
     end)
    (ignore_err (ReleaseRWLayer root rwlayer)).
(** [Close] of the reader it returns. *)
Definition close_export (rwlayer : loc) : M (LS D) () :=
  _ ← ignore_err (rw_Unmount rwlayer);
  ignore_err (ReleaseRWLayer root rwlayer).
End ExportContainer.

Section CommitContainer.
Context {D F : Type} `{GraphDriver D} `{JSON Descriptor} `{TarSplit} `{Backend F} `{JSON Image}.
Context `{JSON (gmap string Repository)}.
(** The host, the version of the daemon, the root of the layer store, and the
    file of the reference store. *)
Context (GOOS GOARCH version : string) (root : path) (jsonPath : path).
(** [time.Time] in the format [RFC3339Nano], and the times read off the clock. *)
Context (format_time : Z → string).

(** The layer store as the image store sees it. *)
#[local] Instance commit_layers : LayerGetReleaser (LS D) := layer_get_releaser root.

(** A call on a layer store; the image store and the service share them. *)
Definition onStore {A} (os : string) (m : M (LS D) A) : M (SV (LS D) F) A := onImages (onLS os m).

(** The parent of the new image: its image, or the empty one. *)
Definition commit_parent (c : CommitConfig) (simp : bool) : M (SV (LS D) F) Image :=
  if String.eqb (cm_ParentImageID c) EmptyString || simp then mret (set_RootFS (Some NewRootFS) zero_image)
  else onImages (is_Get (cm_ParentImageID c)).

(** The part of [CommitImage] that holds the new layer. *)
Definition commit_layer (now : Z) (c : CommitConfig) (simp : bool) (parent : Image) (l : Layer)
    : M (SV (LS D) F) ImageID :=
  diffID ← onStore (cm_ContainerOS c) (onCore (Mem.DiffID_of l));
  containerConfig ← match cm_ContainerConfig c with Some x => mret x | None => panic nil_deref end;
  let cc := mkChild (cm_ContainerID c) (cm_Author c) (cm_Comment c) diffID containerConfig (cm_Config c) in
  config ← of_sum (json_marshal (NewChildImage GOARCH version now parent cc (cm_ContainerOS c)));
  id ← onImages (Create GOOS config);
  _ ← (if negb (String.eqb (cm_ParentImageID c) EmptyString) || simp
       then onImages (SetParent id (cm_ParentImageID c)) else mret tt);
  mret id.

(** The part of [CommitImage] that holds the exported stream. *)
Definition commit_stream (now : Z) (c : CommitConfig) (simp : bool) (rwTar : string)
    : M (SV (LS D) F) ImageID :=
  parent ← commit_parent c simp;
  rootFS ← match img_RootFS parent with Some r => mret r | None => panic nil_deref end;
  l ← onStore (cm_ContainerOS c) (Register root (cm_ContainerOS c) rwTar (rf_ChainID GOOS rootFS));
  defer_when (λ _, true) (commit_layer now c simp parent l)
    (ignore_err (onStore (cm_ContainerOS c) (Release root l))).

(** [CommitImage]. *)
Definition CommitImage (now : Z) (c : CommitConfig) (simp : bool) : M (SV (LS D) F) ImageID :=
  s ← get;
  match lss (sv_images s) !! cm_ContainerOS c with
  | None => fail ErrNotSupportedOperatingSystem
  | Some _ =>
      '(rwTar, rwlayer) ← onStore (cm_ContainerOS c)
                            (exportContainerRw root (cm_ContainerID c) (cm_ContainerMountLabel c));
      defer_when (λ _, true) (commit_stream now c simp rwTar)
        (onStore (cm_ContainerOS c) (close_export root rwlayer))
  end.

(** [CommitBuildStep]. *)
Definition CommitBuildStep (now : Z) (c : CommitConfig) : M (SV (LS D) F) ImageID :=
  s ← get;
  match MemoryStore.Get (cm_ContainerID c) (sv_containers s) with
  | None => fail (Errorf ("container not found: " +:+ cm_ContainerID c))
  | Some ctr => CommitImage now (set_container (ct_MountLabel ctr) (ct_OS ctr) (ct_ImageID ctr) c) false
  end.

(** [TagImageWithReference]. *)
Definition TagImageWithReference (now : Z) (imageID : ImageID) (newTag : Named) : M (SV (LS D) F) () :=
  _ ← onRefs (RefStore.AddTag jsonPath newTag imageID true);
  _ ← onImages (SetLastUpdated format_time now imageID);
  LogImageEvent imageID (Ref.FamiliarString newTag) "tag".

(** [TagImage]. *)
Definition TagImage (now : Z) (imageName repository tag : string) : M (SV (LS D) F) string :=
  img ← GetImage imageName;
  newTag ← of_sum (Ref.ParseNormalizedNamed repository);
  newTag ← (if negb (String.eqb tag EmptyString) then of_sum (Ref.WithTag (Ref.TrimNamed newTag) tag)
            else mret newTag);
  _ ← TagImageWithReference now (computedID img) newTag;
  mret (Ref.FamiliarString newTag).
End CommitContainer.
