(* ===== verification/CommitProps.v ===== *)
(** * What committing a container guarantees

    The theorems on [src/engine/daemon/images/image_commit.go]: a commit costs
    no image, its result has the layers of the parent and the container's
    changes, and with the flag [simp] the changes alone.  The images keep their layers,
    whatever the clients of the layer store do. *)

From S2P Require Import Prelude FileSys FileSysWf Digest DigestSet Chain FileStore GraphDriver LayerStore LayerInv LayerOps LayerProps ContainerConfig ImageModel ImageFS ImageStore ImageInv ImageProps ImageRuns Reference RefStore RefProps ImageService ServiceProps Commit.

(** ** The layer store *)

Section ExportContainer.
Context {D : Type} `{GraphDriver D} `{JSON Descriptor} `{TarSplit}.
Context (root : path).
Implicit Types (c : Core) (ext : list loc).

(** Giving up a reference that was not there before loses none of those that were. *)
Lemma extends_fresh ext c c1 c2 y :
  wf_core ext c → extends ∅ c c1 → extends {[ y ]} c1 c2 → next c ≤ y → extends ∅ c c2.
Proof.
  intros Hwf [L1 M1 N1] [L2 M2 N2] Hy. split; [..|lia].
  - intros y' id l _ Hl. pose proof (live_lt _ _ _ _ _ Hwf Hl). apply L2; [set_unfold; lia|]. by apply L1.
  - intros y' name m _ Hm. pose proof (mlive_rwref _ _ _ _ _ Hwf Hm) as Hr.
    apply (wf_rwrefs_next _ _ Hwf) in Hr as [? _]. apply M2; [set_unfold; lia|]. by apply M1.
Qed.

Lemma rw_TarStream_ok ext c y name m :
  wf_core ext c → mlive c y name m →
  ctriple c (rw_TarStream (D := D) y) (λ _ c', c' = c) (λ _ c', c' = c).
Proof.
  intros Hwf Hl. pose proof (mlive_rwref _ _ _ _ _ Hwf Hl) as Hy. eapply rw_access_ok; [done|by eexists|].
  intros m' ml Hm Hml. simplify_eq. destruct Hl as (Hn&_).
  destruct (wf_mount _ _ Hwf _ _ Hn) as (ml'&Hml'&_&Hp). simplify_eq.
  eapply (ct_bind _ _ _ (λ _ c', c' = c)); [|intros cp c' ->; by apply ct_drv_last].
  unfold cacheParent. destruct (negb _); [by apply ct_ret|]. unfold parentCacheID.
  destruct (ml_parent ml) as [p|]; [|by apply ct_ret].
  destruct (mapped_heap _ _ Hwf p (Hp p eq_refl)) as (r&Hr&_).
  eapply ct_core; [by apply deref_ok|]. by apply ct_ret.
Qed.

(** [exportContainerRw] takes one new reference, and gives it back if it fails. *)
Lemma exportContainerRw_ok ext c id label :
  wf_core ext c →
  ctriple c (exportContainerRw (D := D) root id label)
    (λ ry c', wf_core ext c' ∧ extends ∅ c c' ∧ next c ≤ ry.2 < next c')
    (λ _ c', wf_core ext c' ∧ extends ∅ c c').
Proof.
  intros Hwf. unfold exportContainerRw. eapply ct_bind.
  { eapply ct_conseq; [by apply GetRWLayer_ok|intros y c' HR; exact HR|]. by intros e c' (->&_). }
  intros y c1 (Hwf1&Hext1&(m&Hl)&Hy). pose proof (mlive_rwref _ _ _ _ _ Hwf1 Hl) as Hrw.
  eapply (ct_defer_when _ _ _ _ (λ ry c', c' = c1 ∧ ry.2 = y) _ (λ _ c', c' = c1)); [| |done|].
  - eapply (ct_bind _ _ _ (λ _ c', c' = c1)); [by eapply rw_Mount_ok|]. intros _ c' ->.
    eapply (ct_bind _ _ _ (λ _ c', c' = c1)).
    { apply ct_attempt. eapply ct_conseq; [by eapply rw_TarStream_ok|..]; by intros ? c' ->. }
    intros [e|a] c' ->; [|by apply ct_ret].
    eapply (ct_bind _ _ _ (λ _ c', c' = c1)); [|by intros _ c' ->; apply ct_fail].
    apply ct_ignore. eapply rw_Unmount_ok; [done|by eexists].
  - intros e c' ->. apply ct_ignore.
    eapply ct_conseq; [apply ReleaseRWLayer_ok; [done|by eexists]|..].
    + intros mds c' ((?&?)&_). split; [done|]. eapply extends_fresh; [done..|]. lia.
    + intros e' c' (?&?). split; [done|]. eapply extends_fresh; [done..|]. lia.
  - intros ry c' _ [-> ->]. split_and!; [done|done|lia|lia].
Qed.

Lemma close_export_ok ext c y :
  wf_core ext c → is_Some (rwrefs c !! y) →
  ctriple c (close_export (D := D) root y)
    (λ _ c', wf_core ext c' ∧ extends {[ y ]} c c') (λ _ c', wf_core ext c' ∧ extends {[ y ]} c c').
Proof.
  intros Hwf Hy. eapply (ct_bind _ _ _ (λ _ c', c' = c)); [by apply ct_ignore; eapply rw_Unmount_ok|].
  intros _ c' ->. apply ct_ignore.
  eapply ct_conseq; [by apply ReleaseRWLayer_ok|..]; [by intros mds c' (?&_)|by intros e c' ?].
Qed.
End ExportContainer.

(** ** The image store during a commit *)

Section CommitContainer.
Context {D F : Type} `{GraphDriver D} `{JSON Descriptor} `{TarSplit} `{BackendLaws F} `{JSON Image}.
Context `{JSONLaws (gmap string Repository)}.
Context (GOOS GOARCH version : string) (root : path).
#[local] Instance committed_layers : LayerGetReleaser (LS D) := commit_layers root.
#[local] Instance committed_view : LayerView (LS D) := layer_view.
#[local] Instance committed_laws : LayerLaws (LS D) := layer_laws root.
Implicit Types (i : IS (LS D) F) (s : SV (LS D) F) (y : loc).

(** [y] is taken, and not by an image. *)
Definition apart y i : Prop :=
  ∃ l, lss i = {[ GOOS := l ]} ∧ y < next (core l) ∧
    ∀ id m, images i !! id = Some m → im_layer m ≠ Some (LRef y).
(** Only the layer store has changed, and what was taken still is. *)
Definition stepped i0 i : Prop := layers_only GOOS i0 i ∧ ∀ y, apart y i0 → apart y i.

Lemma stepped_refl i : store_ok GOOS i → stepped i i.
Proof. intros Hok. by split. Qed.
Lemma stepped_trans i1 i2 i3 : stepped i1 i2 → stepped i2 i3 → stepped i1 i3.
Proof.
  intros ((_&?&?&?)&Ha1) ((?&?&?&?)&Ha2). split; [split_and!; congruence|]. auto.
Qed.

Lemma onLS_core {A : Type} i0 l (m : M (LS D) A) (X : gset loc) (Q : A → Core → Prop) (E : error → Core → Prop) :
  store_ok GOOS i0 → lss i0 = {[ GOOS := l ]} →
  (∀ id im y, images i0 !! id = Some im → im_layer im = Some (LRef y) → y ∉ X) →
  ctriple (core l) m Q E →
  (∀ a c, Q a c → wf_core [] c ∧ extends X (core l) c) → (∀ e c, E e c → wf_core [] c ∧ extends X (core l) c) →
  itr (λ i, i = i0) (onLS GOOS m)
    (λ a i, stepped i0 i ∧ ∃ l', lss i = {[ GOOS := l' ]} ∧ Q a (core l')) (stepped i0).
Proof.
  intros Hok Hl HX Hm HQ HE i ->. specialize (Hm l eq_refl). unfold onLS. rewrite Hl, lookup_singleton_eq.
  assert (∀ l', wf_core [] (core l') ∧ extends X (core l) (core l') →
    stepped i0 (mkIS {[ GOOS := l' ]} (images i0) (ifs i0) (digestSet i0))) as Hstep.
  { intros l' [Hwf Hext]. destruct Hok as (Hb&(l0&Hl0&Hlo)&Hd&Hn). rewrite Hl in Hl0. apply (inj _) in Hl0 as <-.
    split.
    - split; [|done]. split_and!; [done| |done..]. exists l'. split; [done|].
      eapply layers_ok_mono; [done|done|]. intros id im ref cid Hid Href (y&k&->&Hlive). exists y, k.
      split; [done|]. apply (ext_live _ _ _ Hext); [by eapply HX|done].
    - intros y (l1&Hl1&Hy&Hap). rewrite Hl in Hl1. apply (inj _) in Hl1 as <-. exists l'. split_and!; [done| |done].
      pose proof (ext_next _ _ _ Hext). simpl. lia. }
  destruct (m l) as [[a|e|p] l']; [| |done]; rewrite insert_singleton_eq.
  - split; [by apply Hstep, (HQ a)|]. by exists l'.
  - by eapply Hstep, HE.
Qed.

Lemma image_refs_lt i l id m y :
  store_ok GOOS i → lss i = {[ GOOS := l ]} → images i !! id = Some m → im_layer m = Some (LRef y) →
  y < next (core l).
Proof.
  intros (_&(l0&Hl0&Hlo)&_) Hl Hid Href. rewrite Hl in Hl0. apply (inj _) in Hl0 as <-.
  destruct (lo_holds _ _ _ Hlo _ _ Hid) as (cid&_&Hh). rewrite Href in Hh. destruct Hh as (y'&k&[= <-]&Hlive).
  eapply live_lt; [apply (lo_ok _ _ _ Hlo)|exact Hlive].
Qed.

Lemma the_store i : store_ok GOOS i → ∃ l, lss i = {[ GOOS := l ]} ∧ wf_core [] (core l).
Proof. intros (_&(l&Hl&Hlo)&_). exists l. split; [done|apply (lo_ok _ _ _ Hlo)]. Qed.

(** A reference that stands for the layer [cid], taken by the commit alone. *)
Definition held_layer y (cid : ChainID) i : Prop :=
  apart y i ∧ ∃ l k, lss i = {[ GOOS := l ]} ∧ live (core l) y cid k.

Lemma export_images i0 id label :
  store_ok GOOS i0 →
  itr (λ i, i = i0) (onLS GOOS (exportContainerRw root id label))
    (λ ry i, stepped i0 i ∧ apart ry.2 i) (stepped i0).
Proof.
  intros Hok. destruct (the_store _ Hok) as (l&Hl&Hwf).
  eapply itr_conseq; [eapply (onLS_core i0 l _ ∅)|done| |done]; [done|done|set_solver|by apply exportContainerRw_ok|..].
  - by intros ry c (?&?&_).
  - by intros e c (?&?).
  - intros ry i (Hs&l'&Hl'&_&_&Hy). split; [done|]. exists l'. split_and!; [done|lia|].
    destruct Hs as ((_&Him&_)&_). rewrite Him. intros id' m Hid Href.
    pose proof (image_refs_lt _ _ _ _ _ Hok Hl Hid Href). lia.
Qed.

Lemma Register_images i0 os ts parent :
  store_ok GOOS i0 →
  itr (λ i, i = i0) (onLS GOOS (Register root os ts parent))
    (λ ref i, stepped i0 i ∧ ∃ y, ref = LRef y ∧
       held_layer y (createChainIDFromParent parent [Digest.FromBytes ts]) i) (stepped i0).
Proof.
  intros Hok. destruct (the_store _ Hok) as (l&Hl&Hwf).
  eapply itr_conseq; [eapply (onLS_core i0 l _ ∅)|done| |done];
    [done|done|set_solver|by apply registerWithDescriptor_ok|..].
  - by intros ref c (?&?&_).
  - by intros e c (?&?).
  - intros ref i (Hs&l'&Hl'&Hwf'&_&y&k&Href&Hy&Hlive). split; [done|]. exists y. split; [done|].
    split; [|by exists l', k]. exists l'. split_and!; [done|by eapply live_lt|].
    destruct Hs as ((_&Him&_)&_). rewrite Him. intros id' m Hid Hm.
    pose proof (image_refs_lt _ _ _ _ _ Hok Hl Hid Hm). lia.
Qed.

Lemma DiffID_images i0 y cid :
  store_ok GOOS i0 → held_layer y cid i0 →
  itr (λ i, i = i0) (onLS GOOS (onCore (Mem.DiffID_of (LRef y))))
    (λ d i, stepped i0 i ∧ ∃ pc, createChainIDFromParent pc [d] = cid) (stepped i0).
Proof.
  intros Hok (_&l&k&Hl&Hlive). destruct (the_store _ Hok) as (l0&Hl0&Hwf). rewrite Hl in Hl0.
  apply (inj _) in Hl0 as <-. pose proof Hlive as (Hid&r&Hr&Hy).
  eapply itr_conseq; [eapply (onLS_core i0 l _ ∅ (λ d c, c = core l ∧ d = rl_diffID r) (λ _ c, c = core l))|done| |done];
    [done|done|set_solver|..].
  - eapply ct_core_last; [|by split]. simpl. unfold mbind, M_bind, get, Mem.deref.
    by rewrite (wf_refs _ _ Hwf _ _ _ Hr Hy), Hr.
  - by intros d c [-> _].
  - by intros e c ->.
  - intros d i (Hs&l'&_&_&->). split; [done|]. exists (parent_chain (core l) (rl_parent r)). symmetry.
    by apply (wf_chain _ _ Hwf cid k r).
Qed.

(** Giving up a reference no image has. *)
Lemma give_up_images {A : Type} i0 y (m : M (LS D) A) (valid : Core → Prop) `{∀ c, Decision (valid c)} :
  store_ok GOOS i0 → apart y i0 →
  (∀ c, wf_core [] c → valid c → ctriple c m (λ _ c', wf_core [] c' ∧ extends {[ y ]} c c')
                                             (λ _ c', wf_core [] c' ∧ extends {[ y ]} c c')) →
  (∀ l, ¬ valid (core l) → ∃ p, m l = (Panic p, l)) →
  itr (λ i, i = i0) (onLS GOOS m) (λ _, stepped i0) (stepped i0).
Proof.
  intros Hok (l&Hl&_&Hap) Hm Hp. destruct (the_store _ Hok) as (l0&Hl0&Hwf). rewrite Hl in Hl0.
  apply (inj _) in Hl0 as <-. destruct (decide (valid (core l))) as [Hv|Hv].
  - eapply itr_conseq; [eapply (onLS_core i0 l _ {[ y ]})|done| |done]; [done|done| |by apply Hm|done|done|].
    + intros id im y' Hid Him. apply not_elem_of_singleton. intros ->. by eapply Hap.
    + by intros a i [? _].
  - intros i ->. unfold onLS. rewrite Hl, lookup_singleton_eq.
    destruct (Hp l Hv) as [p ->]. rewrite insert_singleton_eq, <-Hl. destruct i0. by apply stepped_refl.
Qed.
Lemma Release_images i0 y :
  store_ok GOOS i0 → apart y i0 →
  itr (λ i, i = i0) (onLS GOOS (Release root (LRef y))) (λ _, stepped i0) (stepped i0).
Proof.
  intros Hok Hap. apply (give_up_images i0 y _ (λ c, is_Some (refs c !! y))); [done|done|..].
  - intros c Hwf Hv. eapply ct_conseq; [by apply (Release_ok root [] c (LRef y))|..].
    + by intros mds c' ((?&?&_)&_).
    + by intros e c' (?&?&_).
  - intros l Hv. exists nil_deref. apply eq_None_not_Some in Hv.
    unfold Release, mbind, M_bind, onCore, zoom. simpl. unfold mbind, M_bind, get. rewrite Hv. by destruct l.
Qed.
Lemma close_images i0 y :
  store_ok GOOS i0 → apart y i0 →
  itr (λ i, i = i0) (onLS GOOS (close_export root y)) (λ _, stepped i0) (stepped i0).
Proof.
  intros Hok Hap. apply (give_up_images i0 y _ (λ c, is_Some (rwrefs c !! y))); [done|done|..].
  - intros c Hwf Hv. by apply close_export_ok.
  - intros l Hv. exists nil_deref. apply eq_None_not_Some in Hv.
    unfold close_export, ignore_err, attempt, rw_Unmount, rw_mount, mbind, M_bind, onCore, zoom, get. simpl.
    rewrite Hv. by destruct l.
Qed.

(** What happens to the images and the backend takes no reference back. *)
Lemma apart_same y i0 i : lss i = lss i0 → images i = images i0 → apart y i0 → apart y i.
Proof. unfold apart. by intros -> ->. Qed.
Lemma apart_files y i0 i : files_only GOOS i0 i → apart y i0 → apart y i.
Proof. intros (_&?&?&_). by apply apart_same. Qed.
Lemma apart_onBE {A : Type} y (m : M F A) : itr (apart y) (onBE m) (λ _, apart y) (apart y).
Proof. intros i Hi. unfold onBE, zoom. by destruct (m (ifs i)) as [[]]. Qed.
Lemma apart_alter y (f : imageMeta → imageMeta) id i :
  (∀ m, im_layer (f m) = im_layer m) → apart y i → apart y (set_images (alter f id) i).
Proof.
  intros Hf (l&Hl&Hy&Hap). exists l. split_and!; [done|done|]. intros id' m Hm.
  apply lookup_alter_meta in Hm as (m0&Hm0&->&_); [|done]. by eapply Hap.
Qed.
Lemma SetParent_apart y id parent : itr (apart y) (SetParent id parent) (λ _, apart y) (apart y).
Proof.
  unfold SetParent. apply itr_get. intros i0 Hap. destruct (images i0 !! parent) as [m|]; [|by apply itr_fail; intros ? ->].
  eapply (itr_bind _ _ _ (λ _, apart y)).
  - apply (itr_conseq _ (apart y) _ _ (λ _, apart y) _ (apart y)); [|by intros ? ->|done|done]. unfold unlink.
    eapply (itr_bind _ _ _ (λ _, apart y)); [eapply itr_attempt; [apply apart_onBE|done]|].
    intros [e|p]; [by apply itr_ret|]. apply itr_modify. intros i Hi. by apply apart_alter.
  - intros u. eapply (itr_bind _ _ _ (λ _, apart y)); [|intros u'; apply apart_onBE].
    apply itr_modify. intros i Hi. by apply apart_alter.
Qed.

Lemma Get_images i0 os cid y :
  store_ok GOOS i0 → apart y i0 →
  itr (λ i, i = i0) (onLS os (lgr_Get cid)) (λ ref i, apart y i ∧ ref ≠ LRef y) (apart y).
Proof.
  intros Hok Hap. destruct (decide (os = GOOS)) as [->|Hne].
  - destruct (the_store _ Hok) as (l&Hl&Hwf). pose proof Hap as (l0&Hl0&Hy&_). rewrite Hl in Hl0.
    apply (inj _) in Hl0 as <-.
    eapply itr_conseq; [eapply (onLS_core i0 l _ ∅ (λ ref c, wf_core [] c ∧ extends ∅ (core l) c ∧ ref ≠ LRef y)
      (λ _ c, c = core l))|done|..]; [done|done|set_solver|..].
    + intros l' Hl'. pose proof (Get_core_ok [] (core l) cid Hwf) as Hg. cbn.
      unfold onCore, zoom. rewrite Hl'. destruct (layerMap (core l) !! cid) as [k|]; [|by rewrite Hg].
      destruct Hg as (y'&c'&->&Hwf'&Hext&_&_&->). simpl. split_and!; [done|done|]. intros [= Heq]. lia.
    + by intros ref c (?&?&_).
    + by intros e c ->.
    + intros ref i (Hs&l'&_&_&_&Hne). split; [|done]. by apply Hs.
    + intros i Hs. by apply Hs.
  - destruct (the_store _ Hok) as (l&Hl&_). intros i ->. unfold onLS. by rewrite (lss_singleton _ _ _ _ Hl Hne).
Qed.

Lemma apart_insert y id o i :
  o ≠ Some (LRef y) → apart y i → apart y (set_images <[id := mkMeta o ∅]> i).
Proof.
  intros Ho (l&Hl&Hy&Hap). exists l. split_and!; [done|done|]. intros id' m. simpl. rewrite lookup_insert.
  case_decide; [by intros [= <-]|]. apply Hap.
Qed.
Lemma apart_delete y id i : apart y i → apart y (set_images (delete id) i).
Proof.
  intros (l&Hl&Hy&Hap). exists l. split_and!; [done|done|]. intros id' m Hm. simpl in Hm. apply lookup_delete_Some in Hm as [_ Hm]. by eapply Hap.
Qed.

Lemma Create_apart i0 y config :
  store_ok GOOS i0 → apart y i0 → itr (λ i, i = i0) (Create GOOS config) (λ _, apart y) (apart y).
Proof.
  intros Hok Hap. unfold Create.
  apply (itr_bind _ _ _ (λ _ i, i = i0)); [by apply itr_of_sum; intros; subst|]. intros img.
  apply (itr_bind _ _ _ (λ _ i, i = i0)); [destruct (img_RootFS img); [by apply itr_ret|by apply itr_panic; intros ? ->]|].
  intros r. apply (itr_bind _ _ _ (λ _ i, i = i0)); [by apply itr_guard; intros; subst|]. intros u.
  eapply itr_bind.
  { eapply itr_conseq; [apply itr_and; [by apply (be_Set_ok GOOS i0 config)|]|done|intros id i HR; exact HR|].
    - eapply itr_conseq; [apply (apart_onBE y)|by intros ? ->|done|done].
    - by intros i [_ ?]. }
  intros id. apply itr_get. intros i1 ((Hf&_)&Hap1). destruct Hf as (Hok1&_).
  destruct (images i1 !! id) as [m|]; [by apply itr_ret; intros ? ->|].
  apply (itr_bind _ _ _ (λ o i, apart y i ∧ o ≠ Some (LRef y))).
  - destruct (negb _); [|by apply itr_ret; intros ? ->].
    apply (itr_bind _ _ _ (λ _ i, i = i1)); [by apply itr_guard; intros; subst|]. intros u'.
    apply (itr_bind _ _ _ (λ x i, apart y i ∧ match x with inr ref => ref ≠ LRef y | inl _ => True end)).
    + eapply itr_attempt; [by apply Get_images|]. by intros i Hi.
    + intros [e|ref]; [by apply itr_fail; intros i [? _]|]. apply itr_ret. intros i [? ?]. split; [done|]. congruence.
  - intros o. apply (itr_bind _ _ _ (λ _, apart y)).
    { apply itr_modify. intros i [Hi Ho]. by apply apart_insert. }
    intros u'. apply (itr_bind _ _ _ (λ _, apart y)).
    { eapply itr_attempt; [|by intros i Hi; split; [exact Hi|]]. intros i Hi. unfold onDS.
      by destruct (DigestSet.Add (digestSet i) id). }
    intros [e|x]; [|by apply itr_ret]. eapply (itr_bind _ _ _ (λ _, apart y)); [|by intros u''; apply itr_fail].
    apply itr_modify. intros i Hi. by apply apart_delete.
Qed.

(** ** The layers of the images *)





(** ** The commit *)

(** The images are still there with their layers, and what was taken is. *)
Definition kept i0 i : Prop :=
  store_ok GOOS i ∧
  (∀ id m, images i0 !! id = Some m → im_layer <$> images i !! id = Some (im_layer m)) ∧
  ∀ y, apart y i0 → apart y i.

Lemma kept_trans i1 i2 i3 : kept i1 i2 → kept i2 i3 → kept i1 i3.
Proof.
  intros (_&Hl1&Ha1) (Hok&Hl2&Ha2). split_and!; [done| |auto]. intros id m Hm.
  specialize (Hl1 _ _ Hm). destruct (images i2 !! id) as [m2|] eqn:Hm2; [|done]. injection Hl1 as <-. by apply Hl2.
Qed.
Lemma kept_same i0 i :
  store_ok GOOS i → images i = images i0 → (∀ y, apart y i0 → apart y i) → kept i0 i.
Proof. intros Hok Him Ha. split_and!; [done| |done]. intros id m Hm. by rewrite Him, Hm. Qed.
Lemma kept_refl i : store_ok GOOS i → kept i i.
Proof. intros Hok. by apply kept_same. Qed.
Lemma kept_stepped i0 i : stepped i0 i → kept i0 i.
Proof. intros ((Hok&Him&_)&Ha). by apply kept_same. Qed.
Lemma kept_layers i0 i :
  store_ok GOOS i → same_layers (images i0) (images i) → (∀ y, apart y i0 → apart y i) → kept i0 i.
Proof. intros Hok Him Ha. split_and!; [done| |done]. intros id m Hm. by rewrite Him, Hm. Qed.

Lemma itr_aparts {A : Type} i0 (m : M (IS (LS D) F) A) :
  (∀ y, apart y i0 → itr (λ i, i = i0) m (λ _, apart y) (apart y)) →
  itr (λ i, i = i0) m (λ _ i, ∀ y, apart y i0 → apart y i) (λ i, ∀ y, apart y i0 → apart y i).
Proof.
  intros Hm i ->. destruct (m i0) as [[a|e|p] i] eqn:Hr; intros y Hy; specialize (Hm y Hy i0 eq_refl);
    by rewrite Hr in Hm.
Qed.

Lemma Create_kept i0 config :
  store_ok GOOS i0 →
  itr (λ i, i = i0) (Create GOOS config) (λ id i, kept i0 i ∧ created GOOS config i0 id i) (kept i0).
Proof.
  intros Hok. eapply itr_conseq; [apply itr_and; [by apply (Create_ok GOOS i0 config)|]|done|..].
  - apply itr_aparts. intros y Hy. by apply Create_apart.
  - intros id i [Hc Ha]. split; [|done]. destruct Hc as (Hoki&_&_&_&_&Him). split_and!; [done| |done].
    intros id' m Hm. destruct (images i0 !! id) eqn:Hid; [by rewrite Him, Hm|].
    destruct Him as [o ->]. rewrite lookup_insert_ne by congruence. by rewrite Hm.
  - intros i [(Hoki&Him&_) Ha]. by apply kept_same.
Qed.
Lemma SetParent_kept i0 id parent :
  store_ok GOOS i0 → image_digest id →
  itr (λ i, i = i0) (SetParent id parent) (λ _ i, kept i0 i ∧ parent_set GOOS i0 id parent i) (kept i0).
Proof.
  intros Hok Hid. eapply itr_conseq; [apply itr_and; [by apply (SetParent_ok GOOS i0 id parent)|]|done|..].
  - apply itr_aparts. intros y Hy. eapply itr_conseq; [apply (SetParent_apart y)|by intros ? ->|done|done].
  - intros u i [Hp Ha]. split; [|done]. destruct Hp as (Hoki&_&_&_&_&im&Hu&Him). apply kept_layers; [done| |done].
    intros id'. rewrite Him, (same_layers_alter (add_child id) parent im) by done.
    destruct Hu as [->|(p&_&->)]; [done|]. by apply same_layers_alter.
  - intros i [[Hoki Hl] Ha]. by apply kept_layers.
Qed.

(** The rest of the service is as in [s0]. *)
Definition at_images s0 (P : IS (LS D) F → Prop) s : Prop :=
  P (sv_images s) ∧ sv_refs s = sv_refs s0 ∧ sv_containers s = sv_containers s0 ∧ sv_events s = sv_events s0.

Lemma itr_at {A : Type} s0 P (m : M (IS (LS D) F) A) Q E :
  itr P m Q E → itr (at_images s0 P) (onImages m) (λ a, at_images s0 (Q a)) (at_images s0 E).
Proof.
  intros Hm. eapply itr_zoom; [exact Hm|by intros s [? _]|..].
  - by intros a s t (_&?&?&?) HQ.
  - by intros s t (_&?&?&?) HE.
Qed.
Lemma at_mono s0 (P Q : IS (LS D) F → Prop) s : (∀ i, P i → Q i) → at_images s0 P s → at_images s0 Q s.
Proof. intros HPQ (HP&?). split; auto. Qed.
(** To run from a known state of the image store. *)
Lemma itr_at_from {A : Type} s0 (P : IS (LS D) F → Prop) (m : M (SV (LS D) F) A) Q E :
  (∀ i, P i → itr (at_images s0 (λ i', i' = i)) m Q E) → itr (at_images s0 P) m Q E.
Proof. intros Hm s (HP&Hrest). exact (Hm _ HP s (conj eq_refl Hrest)). Qed.

(** The child of [parent] that a commit of [c] makes from the changes [diff]. *)
Definition child_of (now : Z) (c : CommitConfig) (parent : Image) (diff : DiffID) (cfg : Config) : Image :=
  NewChildImage GOARCH version now parent
    (mkChild (cm_ContainerID c) (cm_Author c) (cm_Comment c) diff cfg (cm_Config c)) (cm_ContainerOS c).

(** The image [id] is made from [parent] and a layer with the chain identifier
    [cid], and has its parent if it is to have one. *)
Definition made now c (simp : bool) parent (cid : ChainID) (id : ImageID) i : Prop :=
  ∃ pc diff cfg config, createChainIDFromParent pc [diff] = cid ∧ cm_ContainerConfig c = Some cfg ∧
    json_marshal (child_of now c parent diff cfg) = inr config ∧ id = Digest.FromBytes config ∧
    be_content (ifs i) id = Some config ∧ is_Some (images i !! id) ∧
    (cm_ParentImageID c ≠ EmptyString ∨ simp = true →
     id ∈ is_children (images i) (cm_ParentImageID c) ∧
     be_meta (ifs i) id "parent" = Some (cm_ParentImageID c)).

Lemma made_stepped now c simp parent cid id i0 i :
  stepped i0 i → made now c simp parent cid id i0 → made now c simp parent cid id i.
Proof. intros ((_&Him&_&Hf)&_). unfold made. by rewrite Him, Hf. Qed.

Lemma parent_child i0 id parent i :
  parent_set GOOS i0 id parent i → image_digest id →
  id ∈ is_children (images i) parent ∧ be_meta (ifs i) id "parent" = Some parent.
Proof.
  intros (_&_&_&(_&_&Hm)&Hp&im&Hu&Him) Hid. split.
  - rewrite Him. unfold is_children. rewrite lookup_alter_eq.
    assert (is_Some (im !! parent)) as [mp ->]; [|simpl; by apply elem_of_union_l, elem_of_singleton].
    destruct Hu as [->|(p&_&->)]; [done|]. by apply lookup_alter_is_Some.
  - rewrite (Hm id "parent" Hid) by (by left). by rewrite decide_True.
Qed.

(** The end of [CommitImage]: the parent is recorded. *)
Lemma link_ok s0 i1 (c : CommitConfig) simp id (E : IS (LS D) F → Prop) :
  store_ok GOOS i1 → image_digest id → (∀ i, kept i1 i → E i) →
  itr (at_images s0 (λ i, i = i1))
    (if negb (String.eqb (cm_ParentImageID c) EmptyString) || simp
     then onImages (SetParent id (cm_ParentImageID c)) else mret tt)
    (λ _, at_images s0 (λ i, kept i1 i ∧ (∀ x, image_digest x → be_content (ifs i) x = be_content (ifs i1) x) ∧
       (cm_ParentImageID c ≠ EmptyString ∨ simp = true → id ∈ is_children (images i) (cm_ParentImageID c) ∧
          be_meta (ifs i) id "parent" = Some (cm_ParentImageID c))))
    (at_images s0 E).
Proof.
  intros Hok Hid HE. destruct (negb _ || simp) eqn:Hb.
  - eapply itr_conseq; [apply itr_at; by apply (SetParent_kept i1 id (cm_ParentImageID c))|done|..].
    + intros u s. apply at_mono. intros i [Hk Hp]. split_and!; [done| |intros _; by eapply parent_child].
      destruct Hp as (_&_&_&(_&Hc&_)&_). apply Hc.
    + intros s. by apply at_mono.
  - apply itr_ret. intros s. apply at_mono. intros i ->. split_and!; [by apply kept_refl|done|].
    apply orb_false_iff in Hb as [Hb ->]. apply negb_false_iff, String.eqb_eq in Hb.
    by intros [?|?].
Qed.

Lemma commit_layer_ok s0 i1 now c simp parent y cid :
  store_ok GOOS i1 → cm_ContainerOS c = GOOS → held_layer y cid i1 →
  itr (at_images s0 (λ i, i = i1)) (commit_layer GOOS GOARCH version root now c simp parent (LRef y))
    (λ id, at_images s0 (λ i, kept i1 i ∧ made now c simp parent cid id i)) (at_images s0 (kept i1)).
Proof.
  intros Hok Hos Hh. unfold commit_layer, onStore. rewrite Hos.
  eapply itr_bind.
  { eapply itr_conseq; [apply itr_at; by apply (DiffID_images i1 y cid)|done|intros d s HR; exact HR|].
    intros s. apply at_mono, kept_stepped. }
  intros diff. apply itr_at_from. intros i2 (Hs2&pc&Hpc). pose proof (kept_stepped _ _ Hs2) as Hk2.
  assert (store_ok GOOS i2) as Hok2 by apply Hk2.
  apply (itr_bind _ _ _ (λ cfg s, cm_ContainerConfig c = Some cfg ∧ at_images s0 (λ i, i = i2) s)).
  { destruct (cm_ContainerConfig c); [by apply itr_ret|apply itr_panic]. intros s. apply at_mono. by intros i ->. }
  intros cfg. apply itr_pure. intros Hcfg.
  apply (itr_bind _ _ _ (λ config s, json_marshal (child_of now c parent diff cfg) = inr config ∧ at_images s0 (λ i, i = i2) s)).
  { apply itr_of_sum.
    - intros s. apply at_mono. by intros i ->.
    - intros config Hj s Hs. split; [|done]. unfold child_of. by rewrite Hos. }
  intros config. apply itr_pure. intros Hj. eapply itr_bind.
  { eapply itr_conseq; [apply itr_at; by apply (Create_kept i2 config)|done|intros id s HR; exact HR|].
    intros s. apply at_mono. intros i Hi. by eapply kept_trans. }
  intros id. apply itr_at_from. intros i3 (Hk3&Hc3). assert (kept i1 i3) as Hk13 by (by eapply kept_trans).
  destruct Hc3 as (Hok3&Hid&Hcont&_&_&Him).
  assert (is_Some (images i3 !! id)) as Hthere.
  { destruct (images i2 !! id) eqn:Hx; [rewrite Him, Hx; by eexists|]. destruct Him as [o ->].
    rewrite lookup_insert_eq. by eexists. }
  assert (image_digest id) as Hdig by (subst id; apply FromBytes_image_digest).
  eapply itr_bind; [apply (link_ok s0 i3 c simp id); [done|done|]|].
  { intros i Hi. by eapply kept_trans. }
  intros u. apply itr_ret. intros s. apply at_mono. intros i (Hk&Hc&Hp). split; [by eapply kept_trans|].
  exists pc, diff, cfg, config. split_and!; [done|done|done|done|by rewrite Hc| |done].
  destruct Hthere as [m Hm]. destruct Hk as (_&Hl&_). specialize (Hl _ _ Hm). by destruct (images i !! id).
Qed.

(** The parent a commit builds on. *)
Definition parent_image (c : CommitConfig) (simp : bool) i (parent : Image) : Prop :=
  if String.eqb (cm_ParentImageID c) EmptyString || simp then parent = set_RootFS (Some NewRootFS) zero_image
  else ∃ config, be_content (ifs i) (cm_ParentImageID c) = Some config ∧ image_of (cm_ParentImageID c) config parent.

Lemma commit_parent_ok s0 i1 c simp :
  store_ok GOOS i1 → (cm_ParentImageID c = EmptyString ∨ image_digest (cm_ParentImageID c)) →
  itr (at_images s0 (λ i, i = i1)) (commit_parent c simp)
    (λ parent, at_images s0 (λ i, kept i1 i ∧ parent_image c simp i1 parent)) (at_images s0 (kept i1)).
Proof.
  intros Hok Hp. unfold commit_parent, parent_image. destruct (String.eqb_spec (cm_ParentImageID c) EmptyString) as [He|He].
  { apply itr_ret. intros s. apply at_mono. intros i ->. split; [by apply kept_refl|done]. }
  destruct Hp as [?|Hp]; [done|]. destruct simp; simpl.
  { apply itr_ret. intros s. apply at_mono. intros i ->. split; [by apply kept_refl|done]. }
  assert (∀ i, same_files_view GOOS i1 i → kept i1 i) as Hk.
  { intros i ((Hoki&Hl&Him&_)&_). apply kept_same; [done..|]. intros y. by apply apart_same. }
  eapply itr_conseq; [apply itr_at; by apply (is_Get_ok GOOS i1 (cm_ParentImageID c))|done|..].
  - intros img s. apply at_mono. intros i [Hi He']. by split; [apply Hk|].
  - intros s. by apply at_mono.
Qed.

(** The layer a commit registers: the changes on top of the parent's chain. *)
Definition committed_chain (parent : Image) (rwTar : string) : ChainID :=
  createChainIDFromParent (match img_RootFS parent with Some r => rf_ChainID GOOS r | None => EmptyString end)
    [Digest.FromBytes rwTar].

Lemma commit_stream_ok s0 i1 now c simp rwTar :
  store_ok GOOS i1 → cm_ContainerOS c = GOOS →
  (cm_ParentImageID c = EmptyString ∨ image_digest (cm_ParentImageID c)) →
  itr (at_images s0 (λ i, i = i1)) (commit_stream GOOS GOARCH version root now c simp rwTar)
    (λ id, at_images s0 (λ i, kept i1 i ∧ ∃ parent, parent_image c simp i1 parent ∧
       made now c simp parent (committed_chain parent rwTar) id i)) (at_images s0 (kept i1)).
Proof.
  intros Hok Hos Hp. unfold commit_stream, onStore. eapply itr_bind; [by apply commit_parent_ok|].
  intros parent. apply itr_at_from. intros i2 (Hk2&Hpar). assert (store_ok GOOS i2) as Hok2 by apply Hk2.
  apply (itr_bind _ _ _ (λ r s, img_RootFS parent = Some r ∧ at_images s0 (λ i, i = i2) s)).
  { destruct (img_RootFS parent); [by apply itr_ret|apply itr_panic]. intros s. apply at_mono. by intros i ->. }
  intros r. apply itr_pure. intros Hr. rewrite Hos. eapply itr_bind.
  { eapply itr_conseq; [apply itr_at; by apply (Register_images i2)|done|intros d s HR; exact HR|].
    intros s. apply at_mono. intros i Hi. eapply kept_trans; [exact Hk2|by apply kept_stepped]. }
  intros l. apply itr_at_from. intros i3 (Hs3&y&->&Hh). pose proof (kept_stepped _ _ Hs3) as Hk3.
  assert (store_ok GOOS i3) as Hok3 by apply Hk3. pose proof (kept_trans _ _ _ Hk2 Hk3) as Hk13.
  assert (∀ (P : IS (LS D) F → Prop), (∀ i i', kept i3 i → stepped i i' → P i → P i') →
    itr (at_images s0 (λ i, kept i3 i ∧ P i)) (ignore_err (onImages (onLS GOOS (Release root (LRef y)))))
      (λ _, at_images s0 (λ i, kept i1 i ∧ P i)) (at_images s0 (λ i, kept i1 i ∧ P i))) as Hrel.
  { intros P HP. apply itr_ignore; [|done]. apply itr_at_from. intros i [Hki HPi].
    assert (∀ s, at_images s0 (stepped i) s → at_images s0 (λ i, kept i1 i ∧ P i) s) as Hfin.
    { intros s. apply at_mono. intros i' Hs'. split; [|by eapply HP].
      eapply kept_trans; [exact Hk13|]. eapply kept_trans; [exact Hki|by apply kept_stepped]. }
    eapply itr_conseq; [apply itr_at, (Release_images i y); [apply Hki|apply Hki, Hh]|done|..]; auto. }
  eapply itr_defer.
  - apply (commit_layer_ok s0 i3 now c simp parent y); [done..|exact Hh].
  - intros id. eapply itr_conseq; [apply Hrel|done|..].
    + intros i i' _. apply made_stepped.
    + intros u s. apply at_mono. intros i [Hki Hm]. split; [done|]. exists parent. split; [done|].
      unfold committed_chain. rewrite Hr. exact Hm.
    + intros s. apply at_mono. intros i [Hki Hm]. split; [done|]. exists parent. split; [done|].
      unfold committed_chain. rewrite Hr. exact Hm.
  - eapply itr_conseq; [apply (Hrel (λ _, True)); done|..].
    + intros s. apply at_mono. by intros i Hi.
    + intros u s. apply at_mono. by intros i [? _].
    + intros s. apply at_mono. by intros i [? _].
  - intros id s. apply at_mono. by intros i [? _].
  - intros s. apply at_mono. intros i Hi. by eapply kept_trans.
Qed.

Definition exported s (c : CommitConfig) (rwTar : string) : Prop :=
  ∃ rwlayer s1, onStore (cm_ContainerOS c)
    (exportContainerRw root (cm_ContainerID c) (cm_ContainerMountLabel c)) s = (Ok (rwTar, rwlayer), s1).

Lemma CommitImage_ok s0 now c simp :
  store_ok GOOS (sv_images s0) → (cm_ParentImageID c = EmptyString ∨ image_digest (cm_ParentImageID c)) →
  itr (λ s, s = s0) (CommitImage GOOS GOARCH version root now c simp)
    (λ id, at_images s0 (λ i, kept (sv_images s0) i ∧ ∃ rwTar parent, exported s0 c rwTar ∧
       parent_image c simp (sv_images s0) parent ∧ made now c simp parent (committed_chain parent rwTar) id i))
    (at_images s0 (kept (sv_images s0))).
Proof.
  intros Hok Hp. unfold CommitImage. apply itr_get. intros ? ->. set (i0 := sv_images s0) in *.
  assert (∀ s, s = s0 → at_images s0 (λ i, i = i0) s) as Hstart by (by intros s ->).
  destruct (lss i0 !! cm_ContainerOS c) as [l0|] eqn:Hlk.
  2:{ apply itr_fail. intros s Hs. eapply at_mono; [|by apply Hstart]. intros i ->. by apply kept_refl. }
  assert (cm_ContainerOS c = GOOS) as Hos.
  { destruct (the_store _ Hok) as (l&Hl&_). destruct (decide (cm_ContainerOS c = GOOS)); [done|].
    by rewrite (lss_singleton _ _ _ _ Hl) in Hlk. }
  apply (itr_bind _ _ _ (λ ry s, exported s0 c ry.1 ∧ at_images s0 (λ i, stepped i0 i ∧ apart ry.2 i) s)).
  { intros s ->. pose proof (itr_at s0 _ _ _ _ (export_images i0 (cm_ContainerID c) (cm_ContainerMountLabel c) Hok)
      s0 (Hstart s0 eq_refl)) as He.
    unfold exported. unfold onStore at 1. rewrite Hos.
    destruct (onImages (onLS GOOS (exportContainerRw root (cm_ContainerID c) (cm_ContainerMountLabel c))) s0)
      as [[[ts y]|e|p] s1] eqn:Hrun.
    - split; [|done]. exists y, s1. unfold onStore. exact Hrun.
    - eapply at_mono; [|exact He]. apply kept_stepped.
    - eapply at_mono; [|exact He]. apply kept_stepped. }
  intros [rwTar y]. apply itr_pure. intros Hexp. apply itr_at_from. intros i1 (Hs1&Hap).
  pose proof (kept_stepped _ _ Hs1) as Hk1. assert (store_ok GOOS i1) as Hok1 by apply Hk1.
  assert (∀ parent, parent_image c simp i1 parent → parent_image c simp i0 parent) as Hpi.
  { intros parent. destruct Hs1 as ((_&_&_&Hf)&_). unfold parent_image. by rewrite Hf. }
  assert (∀ (P : IS (LS D) F → Prop), (∀ i i', stepped i i' → P i → P i') →
    itr (at_images s0 (λ i, kept i1 i ∧ P i)) (onStore (cm_ContainerOS c) (close_export root y))
      (λ _, at_images s0 (λ i, kept i0 i ∧ P i)) (at_images s0 (λ i, kept i0 i ∧ P i))) as Hclose.
  { intros P HP. unfold onStore. rewrite Hos. apply itr_at_from. intros i [Hki HPi].
    assert (∀ s, at_images s0 (stepped i) s → at_images s0 (λ i, kept i0 i ∧ P i) s) as Hfin.
    { intros s. apply at_mono. intros i' Hs'. split; [|by eapply HP].
      eapply kept_trans; [exact Hk1|]. eapply kept_trans; [exact Hki|by apply kept_stepped]. }
    eapply itr_conseq; [apply itr_at, (close_images i y); [apply Hki|apply Hki, Hap]|done|..]; auto. }
  eapply itr_defer.
  - by apply (commit_stream_ok s0 i1 now c simp rwTar).
  - intros id. eapply itr_conseq; [apply (Hclose (λ i, ∃ parent, parent_image c simp i1 parent ∧
      made now c simp parent (committed_chain parent rwTar) id i))|done|..].
    + intros i i' Hst (parent&Hpar&Hm). exists parent. split; [exact Hpar|by eapply made_stepped].
    + intros u s. apply at_mono. intros i (Hki&parent&Hpar&Hm). split; [done|]. exists rwTar, parent. auto.
    + intros s. apply at_mono. intros i (Hki&parent&Hpar&Hm). split; [done|]. exists rwTar, parent. auto.
  - eapply itr_conseq; [apply (Hclose (λ _, True)); done|..].
    + intros s. apply at_mono. by intros i Hi.
    + intros u s. apply at_mono. by intros i [? _].
    + intros s. apply at_mono. by intros i [? _].
  - intros id s. apply at_mono. by intros i [? _].
  - intros s. apply at_mono. intros i Hi. by eapply kept_trans.
Qed.

(** ** The theorems *)

(** What a commit leaves alone. *)
Definition spared s0 s : Prop :=
  sv_refs s = sv_refs s0 ∧ sv_containers s = sv_containers s0 ∧ sv_events s = sv_events s0 ∧
  ∀ id m, images (sv_images s0) !! id = Some m → im_layer <$> images (sv_images s) !! id = Some (im_layer m).

Lemma at_spared s0 s : sv_ok GOOS s0 → at_images s0 (kept (sv_images s0)) s → sv_ok GOOS s ∧ spared s0 s.
Proof.
  intros (_&Hr&Hd) ((Hok&Hl&_)&Hrefs&Hc&He). split; [|done]. split_and!; [done|by rewrite Hrefs|].
  intros r id Hg. rewrite Hrefs. intros Him. destruct (Hd r id Hg Him) as [m Hm]. specialize (Hl _ _ Hm).
  by destruct (images (sv_images s) !! id).
Qed.

(** C27. Committing a container costs nothing that was there: whatever fails, the
    service keeps its invariant, its references, containers and events, and
    every image with its layers.  If it succeeds, the new image is in the
    store under the digest of its configuration, which is that of a child of
    the parent, with a layer whose chain identifier is computed from the
    parent's chain and the digest of the exported changes; the child is
    recorded as such if it has a parent. *)
Theorem CommitImage_promise s now c simp :
  sv_ok GOOS s → (cm_ParentImageID c = EmptyString ∨ image_digest (cm_ParentImageID c)) →
  match CommitImage GOOS GOARCH version root now c simp s with
  | (Ok id, s') => sv_ok GOOS s' ∧ spared s s' ∧ ∃ rwTar parent, exported s c rwTar ∧
      parent_image c simp (sv_images s) parent ∧
      made now c simp parent (committed_chain parent rwTar) id (sv_images s')
  | (_, s') => sv_ok GOOS s' ∧ spared s s'
  end.
Proof.
  intros Hok Hp. pose proof (CommitImage_ok s now c simp (proj1 Hok) Hp s eq_refl) as Hc.
  destruct (CommitImage GOOS GOARCH version root now c simp s) as [[id|e|p] s']; [|by apply at_spared..].
  destruct Hc as ((Hk&He)&Hrest). destruct (at_spared s s' Hok (conj Hk Hrest)). by split_and!.
Qed.

(** C30. A simplified image stands on its own layer and yet holds its base: with
    the flag, the new image has one history entry and no layer but the
    container's changes, but it is recorded as a child of the image the
    container was made from, which therefore cannot be deleted, not even by
    force, while the simplified image is there. *)
Theorem simp_commit_pins_base s now c id s' jsonPath :
  sv_ok GOOS s → image_digest (cm_ParentImageID c) →
  CommitImage GOOS GOARCH version root now c true s = (Ok id, s') →
  (∃ config img diff h, be_content (ifs (sv_images s')) id = Some config ∧ json_marshal img = inr config ∧
     img_RootFS img = Some (mkRootFS TypeLayers (if IsEmpty diff then [] else [diff])) ∧ img_History img = [h]) ∧
  id ∈ is_children (images (sv_images s')) (cm_ParentImageID c) ∧
  ∀ overflow depth records force prune,
    imageDeleteHelper GOOS jsonPath overflow (S depth) (cm_ParentImageID c) records force prune false s' =
      (Err (conflict_error (mkConflict true false (cm_ParentImageID c) "image has dependent child images")), s').
Proof.
  intros Hok Hd Hrun. pose proof (CommitImage_ok s now c true (proj1 Hok) (or_intror Hd) s eq_refl) as Hc.
  rewrite Hrun in Hc. destruct Hc as ((Hk&rwTar&parent&_&Hpar&Hm)&Hrest).
  destruct (at_spared s s' Hok (conj Hk Hrest)) as [Hok' _].
  destruct Hm as (pc&diff&cfg&config&_&_&Hj&_&Hcont&_&Hlink).
  destruct (Hlink (or_intror eq_refl)) as [Hchild _].
  assert (parent = set_RootFS (Some NewRootFS) zero_image) as -> by
    (unfold parent_image in Hpar; by rewrite orb_true_r in Hpar).
  split_and!; [|done|].
  - eexists config, _, diff, _. split_and!; [done|exact Hj| |reflexivity]. simpl. by destruct (IsEmpty diff).
  - intros overflow depth records force prune. simpl.
    assert (0 < length (elements (is_children (images (sv_images s')) (cm_ParentImageID c)))) as Hpos.
    { apply elem_of_elements in Hchild. by destruct (elements _); [apply not_elem_of_nil in Hchild|simpl; lia]. }
    unfold checkImageDeleteConflict. destruct Hok' as (_&Hr&_).
    destruct (refs_to_run s' (cm_ParentImageID c) Hr) as (refs&Hrefs&_).
    unfold mbind, M_bind. rewrite Hrefs. unfold get, mret, M_ret.
    apply Nat.ltb_lt in Hpos. rewrite Hpos. by destruct force.
Qed.

(** C31. What the flag is for does not work from scratch: committing a container
    that has no image, with the flag, never succeeds, since the parent is set
    although there is none. *)
Theorem simp_commit_needs_parent s now c id s' :
  sv_ok GOOS s → cm_ParentImageID c = EmptyString →
  CommitImage GOOS GOARCH version root now c true s ≠ (Ok id, s').
Proof.
  intros Hok Hp Hrun. pose proof (CommitImage_ok s now c true (proj1 Hok) (or_introl Hp) s eq_refl) as Hc.
  rewrite Hrun in Hc. destruct Hc as ((((_&_&_&Hn)&_)&rwTar&parent&_&_&pc&diff&cfg&config&_&_&_&_&_&_&Hlink)&_).
  destruct (Hlink (or_intror eq_refl)) as [Hchild _]. rewrite Hp in Hchild. unfold is_children in Hchild.
  destruct (images (sv_images s') !! EmptyString) as [m|] eqn:Hm; [|by apply not_elem_of_empty in Hchild].
  destruct (no_images _ Hn EmptyString (ex_intro _ m Hm)) as (hex&Hhex&_). discriminate.
Qed.
End CommitContainer.

(** ** Concrete runs *)

(** A container made from an image with one layer. *)
Definition commit_images : IS (LS MemDisk) FS :=
  (Create "linux" config_one (NewImageStore "linux" image_disk {[ "linux" := demo_rw ]}).2).2.
Definition commit_service : SV (LS MemDisk) FS := mkSV commit_images refs_new ∅ [].
Definition web_commit (parent : ImageID) : CommitConfig :=
  mkCommit "author" "comment" None (Some zero_config) "web" EmptyString "linux" parent.
Definition run_commit (parent : ImageID) (simp : bool) : outcome ImageID * SV (LS MemDisk) FS :=
  CommitImage "linux" "amd64" "18.09" store_root 7 (web_commit parent) simp commit_service.

Lemma commit_service_ok : sv_ok "linux" commit_service.
Proof.
  split_and!; [|apply refs_new_inv|].
  - apply Create_store_ok.
    pose proof (restore_ok "linux" _ (empty_images_ok "linux" demo_rw image_disk demo_rw_wf image_disk_ok)) as Hr.
    unfold NewImageStore. by destruct (restore _ _) as [[] s].
  - intros r id _ Hi. change (sv_refs commit_service) with refs_new in Hi. rewrite refs_new_empty in Hi. discriminate Hi.
Qed.

Lemma CommitImage_promise_witness :
  (∃ id, (run_commit id_one false).1 = Ok id) ∧ spared commit_service (run_commit id_one false).2.
Proof.
  assert (∃ id, (run_commit id_one false).1 = Ok id) as [id Hrun] by (eexists; vm_compute; reflexivity).
  split; [by eexists|].
  pose proof (CommitImage_promise "linux" "amd64" "18.09" store_root commit_service 7 (web_commit id_one) false
    commit_service_ok (or_intror id_one_digest)) as Hp.
  unfold run_commit in *.
  destruct (CommitImage "linux" "amd64" "18.09" store_root 7 (web_commit id_one) false commit_service) as [o s].
  cbn [fst] in Hrun. subst o. apply Hp.
Defined.

Lemma simp_commit_pins_base_witness :
  ∃ id, (run_commit id_one true).1 = Ok id ∧
    id ∈ is_children (images (sv_images (run_commit id_one true).2)) id_one.
Proof.
  assert (∃ id, (run_commit id_one true).1 = Ok id) as [id Hrun] by (eexists; vm_compute; reflexivity).
  exists id. split; [exact Hrun|].
  pose proof (λ s, simp_commit_pins_base "linux" "amd64" "18.09" store_root commit_service 7 (web_commit id_one) id
    s refs_path commit_service_ok id_one_digest) as Hp.
  unfold run_commit in *.
  destruct (CommitImage "linux" "amd64" "18.09" store_root 7 (web_commit id_one) true commit_service) as [o s].
  cbn [fst] in Hrun. subst o. cbn [snd]. destruct (Hp s eq_refl) as (_&Hc&_). exact Hc.
Defined.

Lemma simp_commit_needs_parent_witness :
  (run_commit EmptyString true).1 = Err (Errorf "unknown parent image ID ") ∧
  ∀ id s, run_commit EmptyString true ≠ (Ok id, s).
Proof.
  split; [vm_compute; reflexivity|]. intros id s. unfold run_commit.
  pose proof (simp_commit_needs_parent "linux" "amd64" "18.09" store_root commit_service 7 (web_commit EmptyString) id s
    commit_service_ok eq_refl) as Hp. exact Hp.
Defined.

