(* ===== verification/OvlOpts.v ===== *)
(** * The overlay file system: its mount options

    [src/overlayfs/super.c] and [ovl_entry.h]: the configuration of a mount,
    how it is read off the option string, with the option [simp] of the
    simplified images, and how it is shown. *)

From S2P Require Import Prelude.

(** The kernel configuration of the module parameters. *)
Record ovl_params := mkParams {
  ovl_redirect_dir_def : bool;
  ovl_redirect_always_follow : bool;
  ovl_index_def : bool;
  ovl_nfs_export_def : bool;
  ovl_xino_auto_def : bool;
}.

Inductive xino_mode := OVL_XINO_OFF | OVL_XINO_AUTO | OVL_XINO_ON.

#[export] Instance xino_mode_eq_dec : EqDecision xino_mode.
Proof. solve_decision. Defined.

(** [struct ovl_config]; a null pointer is [None]. *)
Record ovl_config := mkConfig {
  cf_lowerdir : option string;
  cf_upperdir : option string;
  cf_workdir : option string;
  cf_default_permissions : bool;
  cf_redirect_dir : bool;
  cf_redirect_follow : bool;
  cf_redirect_mode : string;
  cf_index : bool;
  cf_nfs_export : bool;
  cf_xino : xino_mode;
  cf_simp : bool;
}.

Section Config.
Implicit Type c : ovl_config.
Definition set_lowerdir v c := mkConfig v (cf_upperdir c) (cf_workdir c) (cf_default_permissions c)
  (cf_redirect_dir c) (cf_redirect_follow c) (cf_redirect_mode c) (cf_index c) (cf_nfs_export c) (cf_xino c) (cf_simp c).
Definition set_upperdir v c := mkConfig (cf_lowerdir c) v (cf_workdir c) (cf_default_permissions c)
  (cf_redirect_dir c) (cf_redirect_follow c) (cf_redirect_mode c) (cf_index c) (cf_nfs_export c) (cf_xino c) (cf_simp c).
Definition set_workdir v c := mkConfig (cf_lowerdir c) (cf_upperdir c) v (cf_default_permissions c)
  (cf_redirect_dir c) (cf_redirect_follow c) (cf_redirect_mode c) (cf_index c) (cf_nfs_export c) (cf_xino c) (cf_simp c).
Definition set_default_permissions v c := mkConfig (cf_lowerdir c) (cf_upperdir c) (cf_workdir c) v
  (cf_redirect_dir c) (cf_redirect_follow c) (cf_redirect_mode c) (cf_index c) (cf_nfs_export c) (cf_xino c) (cf_simp c).
Definition set_redirect d f c := mkConfig (cf_lowerdir c) (cf_upperdir c) (cf_workdir c) (cf_default_permissions c)
  d f (cf_redirect_mode c) (cf_index c) (cf_nfs_export c) (cf_xino c) (cf_simp c).
Definition set_redirect_mode v c := mkConfig (cf_lowerdir c) (cf_upperdir c) (cf_workdir c) (cf_default_permissions c)
  (cf_redirect_dir c) (cf_redirect_follow c) v (cf_index c) (cf_nfs_export c) (cf_xino c) (cf_simp c).
Definition set_index v c := mkConfig (cf_lowerdir c) (cf_upperdir c) (cf_workdir c) (cf_default_permissions c)
  (cf_redirect_dir c) (cf_redirect_follow c) (cf_redirect_mode c) v (cf_nfs_export c) (cf_xino c) (cf_simp c).
Definition set_nfs_export v c := mkConfig (cf_lowerdir c) (cf_upperdir c) (cf_workdir c) (cf_default_permissions c)
  (cf_redirect_dir c) (cf_redirect_follow c) (cf_redirect_mode c) (cf_index c) v (cf_xino c) (cf_simp c).
Definition set_xino v c := mkConfig (cf_lowerdir c) (cf_upperdir c) (cf_workdir c) (cf_default_permissions c)
  (cf_redirect_dir c) (cf_redirect_follow c) (cf_redirect_mode c) (cf_index c) (cf_nfs_export c) v (cf_simp c).
Definition set_simp v c := mkConfig (cf_lowerdir c) (cf_upperdir c) (cf_workdir c) (cf_default_permissions c)
  (cf_redirect_dir c) (cf_redirect_follow c) (cf_redirect_mode c) (cf_index c) (cf_nfs_export c) (cf_xino c) v.
End Config.

(** [ovl_redirect_mode_def] and [ovl_xino_def]. *)
Definition ovl_redirect_mode_def (k : ovl_params) : string := if ovl_redirect_dir_def k then "on" else "off".
Definition ovl_xino_def (k : ovl_params) : xino_mode :=
  if ovl_xino_auto_def k then OVL_XINO_AUTO else OVL_XINO_OFF.
Definition ovl_xino_str (x : xino_mode) : string :=
  match x with OVL_XINO_OFF => "off" | OVL_XINO_AUTO => "auto" | OVL_XINO_ON => "on" end.

(** ** The tokens *)

Inductive ovl_opt :=
| OPT_LOWERDIR | OPT_UPPERDIR | OPT_WORKDIR | OPT_DEFAULT_PERMISSIONS | OPT_REDIRECT_DIR
| OPT_INDEX_ON | OPT_INDEX_OFF | OPT_NFS_EXPORT_ON | OPT_NFS_EXPORT_OFF
| OPT_XINO_ON | OPT_XINO_OFF | OPT_XINO_AUTO | OPT_SIMP_ON | OPT_SIMP_OFF | OPT_ERR.

(** A pattern of a [match_table_t]: a literal, or a literal and a string [%s]. *)
Inductive pattern := Lit (s : string) | Arg (s : string).

Definition ovl_tokens : list (ovl_opt * pattern) :=
  [(OPT_LOWERDIR, Arg "lowerdir=");
   (OPT_UPPERDIR, Arg "upperdir=");
   (OPT_WORKDIR, Arg "workdir=");
   (OPT_DEFAULT_PERMISSIONS, Lit "default_permissions");
   (OPT_REDIRECT_DIR, Arg "redirect_dir=");
   (OPT_INDEX_ON, Lit "index=on");
   (OPT_INDEX_OFF, Lit "index=off");
   (OPT_NFS_EXPORT_ON, Lit "nfs_export=on");
   (OPT_NFS_EXPORT_OFF, Lit "nfs_export=off");
   (OPT_XINO_ON, Lit "xino=on");
   (OPT_XINO_OFF, Lit "xino=off");
   (OPT_XINO_AUTO, Lit "xino=auto");
   (OPT_SIMP_ON, Lit "simp=on");
   (OPT_SIMP_OFF, Lit "simp=off")].

(** [match_one]: a string argument is not empty. *)
Definition match_one (p : pattern) (s : string) : option string :=
  match p with
  | Lit l => if String.eqb l s then Some EmptyString else None
  | Arg l => if GoString.has_prefix s l && (String.length l <? String.length s)
             then Some (GoString.drop (String.length l) s) else None
  end.

(** [match_token]: the first pattern of the table that matches. *)
Fixpoint match_token (s : string) (table : list (ovl_opt * pattern)) : ovl_opt * string :=
  match table with
  | [] => (OPT_ERR, EmptyString)
  | (t, p) :: table => match match_one p s with Some arg => (t, arg) | None => match_token s table end
  end.

Definition comma : ascii := ","%char.
Definition colon : ascii := ":"%char.
Definition backslash : ascii := "\"%char.

(** [ovl_next_opt]: the next option, and where to go on. *)
Fixpoint ovl_next_opt (s : string) : string * option string :=
  match s with
  | EmptyString => (EmptyString, None)
  | String c s =>
      if Ascii.eqb c backslash then
        match s with
        | EmptyString => (String c EmptyString, None)
        | String c' s => let '(p, rest) := ovl_next_opt s in (String c (String c' p), rest)
        end
      else if Ascii.eqb c comma then (EmptyString, Some s)
      else let '(p, rest) := ovl_next_opt s in (String c p, rest)
  end.

Section Parse.
Context (k : ovl_params).

(** [ovl_parse_redirect_mode]. *)
Definition ovl_parse_redirect_mode (c : ovl_config) (mode : string) : error + ovl_config :=
  if String.eqb mode "on" then inr (set_redirect true true c)
  else if String.eqb mode "follow" then inr (set_redirect (cf_redirect_dir c) true c)
  else if String.eqb mode "off" then
    inr (if ovl_redirect_always_follow k then set_redirect (cf_redirect_dir c) true c else c)
  else if negb (String.eqb mode "nofollow") then inl (OsError EINVAL)
  else inr c.

(** The switch of [ovl_parse_opt]. *)
Definition ovl_parse_token (t : ovl_opt) (arg : string) (c : ovl_config) : error + ovl_config :=
  match t with
  | OPT_UPPERDIR => inr (set_upperdir (Some arg) c)
  | OPT_LOWERDIR => inr (set_lowerdir (Some arg) c)
  | OPT_WORKDIR => inr (set_workdir (Some arg) c)
  | OPT_DEFAULT_PERMISSIONS => inr (set_default_permissions true c)
  | OPT_REDIRECT_DIR => inr (set_redirect_mode arg c)
  | OPT_INDEX_ON => inr (set_index true c)
  | OPT_INDEX_OFF => inr (set_index false c)
  | OPT_NFS_EXPORT_ON => inr (set_nfs_export true c)
  | OPT_NFS_EXPORT_OFF => inr (set_nfs_export false c)
  | OPT_XINO_ON => inr (set_xino OVL_XINO_ON c)
  | OPT_XINO_OFF => inr (set_xino OVL_XINO_OFF c)
  | OPT_XINO_AUTO => inr (set_xino OVL_XINO_AUTO c)
  | OPT_SIMP_ON => inr (set_simp true c)
  | OPT_SIMP_OFF => inr (set_simp false c)
  | OPT_ERR => inl (OsError EINVAL)
  end.

(** The loop of [ovl_parse_opt]; every round but the last one consumes a byte,
    so the length of the string bounds their number. *)
Fixpoint ovl_parse_loop (fuel : nat) (opt : option string) (c : ovl_config) : error + ovl_config :=
  match opt, fuel with
  | None, _ => inr c
  | Some _, 0 => inl (Errorf "out of fuel")
  | Some s, S fuel =>
      let '(p, rest) := ovl_next_opt s in
      match p with
      | EmptyString => ovl_parse_loop fuel rest c
      | _ => let '(t, arg) := match_token p ovl_tokens in
             match ovl_parse_token t arg c with
             | inl e => inl e
             | inr c => ovl_parse_loop fuel rest c
             end
      end
  end.
Definition opt_fuel (opt : option string) : nat := match opt with Some s => S (String.length s) | None => 0 end.

(** [ovl_parse_opt]. *)
Definition ovl_parse_opt (opt : option string) (c : ovl_config) : error + ovl_config :=
  let c := set_redirect_mode (ovl_redirect_mode_def k) c in
  match ovl_parse_loop (opt_fuel opt) opt c with
  | inl e => inl e
  | inr c =>
      let c := match cf_upperdir c, cf_workdir c with None, Some _ => set_workdir None c | _, _ => c end in
      ovl_parse_redirect_mode c (cf_redirect_mode c)
  end.
End Parse.

(** ** Directories in options *)

(** [ovl_unescape]. *)
Fixpoint ovl_unescape (s : string) : string :=
  match s with
  | EmptyString => EmptyString
  | String c s =>
      if Ascii.eqb c backslash then
        match s with
        | EmptyString => EmptyString
        | String c' s => String c' (ovl_unescape s)
        end
      else String c (ovl_unescape s)
  end.

(** [ovl_split_lowerdirs]: the strings it leaves one after the other in the
    buffer, unescaped; [stacklen] is their number. *)
Fixpoint ovl_split_lowerdirs (s : string) : list string :=
  match s with
  | EmptyString => [EmptyString]
  | String c s =>
      let cons c ws := match ws with [] => [String c EmptyString] | w :: ws => String c w :: ws end in
      if Ascii.eqb c backslash then
        match s with
        | EmptyString => [EmptyString]
        | String c' s => cons c' (ovl_split_lowerdirs s)
        end
      else if Ascii.eqb c colon then EmptyString :: ovl_split_lowerdirs s
      else cons c (ovl_split_lowerdirs s)
  end.

(** ** Showing the options *)

(** [seq_escape]: the bytes of [esc] in octal. *)
Definition octal_digit (n : nat) : ascii := Ascii.ascii_of_nat (48 + n mod 8).
Definition octal (c : ascii) : string :=
  let n := Ascii.nat_of_ascii c in
  String backslash (String (octal_digit (n / 64)) (String (octal_digit (n / 8)) (String (octal_digit n) EmptyString))).
Fixpoint seq_escape (s : string) (esc : ascii → bool) : string :=
  match s with
  | EmptyString => EmptyString
  | String c s => if esc c then octal c +:+ seq_escape s esc else String c (seq_escape s esc)
  end.

Definition esc_name (c : ascii) : bool := bool_decide (c ∈ [comma; "="%char; " "%char; "009"%char; "010"%char; backslash]).
Definition esc_value (c : ascii) : bool := bool_decide (c ∈ [comma; " "%char; "009"%char; "010"%char; backslash]).

(** [seq_show_option]; a null value is left out. *)
Definition seq_show_option (name : string) (value : option string) : string :=
  "," +:+ seq_escape name esc_name +:+
  match value with Some v => "=" +:+ seq_escape v esc_value | None => EmptyString end.

(** [ovl_show_options]. *)
Definition ovl_show_options (k : ovl_params) (c : ovl_config) : string :=
  seq_show_option "lowerdir" (cf_lowerdir c) +:+
  match cf_upperdir c with
  | Some _ => seq_show_option "upperdir" (cf_upperdir c) +:+ seq_show_option "workdir" (cf_workdir c)
  | None => EmptyString
  end +:+
  (if cf_default_permissions c then ",default_permissions" else EmptyString) +:+
  (if negb (String.eqb (cf_redirect_mode c) (ovl_redirect_mode_def k))
   then ",redirect_dir=" +:+ cf_redirect_mode c else EmptyString) +:+
  (if negb (eqb (cf_index c) (ovl_index_def k)) then ",index=" +:+ (if cf_index c then "on" else "off")
   else EmptyString) +:+
  (if negb (eqb (cf_nfs_export c) (ovl_nfs_export_def k))
   then ",nfs_export=" +:+ (if cf_nfs_export c then "on" else "off") else EmptyString) +:+
  (if bool_decide (cf_xino c ≠ ovl_xino_def k) then ",xino=" +:+ ovl_xino_str (cf_xino c) else EmptyString).
