(* ===== verification/OvlMount.v ===== *)
(** * The overlay file system: mounting

    [ovl_fill_super] of [src/overlayfs/super.c] and what it calls: the options
    are resolved to directories, the upper and the work directory are locked,
    the work directory is prepared, and all of it is given up when a later
    step fails. *)

From S2P Require Import Prelude FileSys OvlOpts.

(** ** Resolving a path *)

Definition slash : ascii := "/"%char.

(** The walk of [kern_path] with [LOOKUP_FOLLOW], from a directory; [links]
    symbolic links may still be followed. *)
Fixpoint link_walk (links : nat) : gmap path node → path → list string → error + path :=
  fix walk t cur comps {struct comps} :=
    match comps with
    | [] => inr cur
    | c :: rest =>
        if negb (is_dir t cur) then inl (OsError ENOTDIR)
        else if String.eqb c EmptyString || String.eqb c "." then walk t cur rest
        else if String.eqb c ".." then walk t (parent_dir cur) rest
        else
          match node_at t (cur ++ [c]) with
          | None => inl (OsError ENOENT)
          | Some (Symlink target) =>
              match links with
              | 0 => inl (OsError ELOOP)
              | S links => link_walk links t (if GoString.has_prefix target "/" then [] else cur)
                             (GoString.split slash target ++ rest)
              end
          | Some _ => walk t (cur ++ [c]) rest
          end
    end.
Definition MAXSYMLINKS : nat := 40.

(** [kern_path]: [cwd] is the working directory of the caller. *)
Definition kern_path (t : gmap path node) (cwd : path) (name : string) : error + path :=
  if String.eqb name EmptyString then inl (OsError ENOENT)
  else link_walk MAXSYMLINKS t (if GoString.has_prefix name "/" then [] else cwd) (GoString.split slash name).

(** ** The file systems below *)

(** What the file system that holds the directories supports: whether it is
    mounted read-only, how deep it is stacked, whether its entries are special
    to the kernel, and what it offers to an upper layer. *)
Record backing := mkBacking {
  bk_rdonly : bool;
  bk_stack_depth : nat;
  bk_weird : bool;
  bk_remote : bool;
  bk_decode_fh : bool;
  bk_tmpfile : bool;
  bk_xattr : bool;
}.

(** [struct ovl_fs]: the directories by their paths. *)
Record ovl_fs := mkOfs {
  ofs_config : ovl_config;
  ofs_upper : option path;
  ofs_lower : list path;
  ofs_workbasedir : option path;
  ofs_workdir : option path;
  ofs_indexdir : option path;
  ofs_tmpfile : bool;
  ofs_noxattr : bool;
  ofs_upperdir_locked : bool;
  ofs_workdir_locked : bool;
  (** [SB_RDONLY] of the super block. *)
  sb_rdonly : bool;
}.

(** The file tree, the directories marked [I_OVL_INUSE], and the super block
    that is being filled. *)
Record MS := mkMS { ms_fs : FS; ms_inuse : gset path; ms_ofs : ovl_fs }.

Section Fields.
Definition set_config c o := mkOfs c (ofs_upper o) (ofs_lower o) (ofs_workbasedir o) (ofs_workdir o) (ofs_indexdir o)
  (ofs_tmpfile o) (ofs_noxattr o) (ofs_upperdir_locked o) (ofs_workdir_locked o) (sb_rdonly o).
Definition set_upper u o := mkOfs (ofs_config o) u (ofs_lower o) (ofs_workbasedir o) (ofs_workdir o) (ofs_indexdir o)
  (ofs_tmpfile o) (ofs_noxattr o) (ofs_upperdir_locked o) (ofs_workdir_locked o) (sb_rdonly o).
Definition set_lower l o := mkOfs (ofs_config o) (ofs_upper o) l (ofs_workbasedir o) (ofs_workdir o) (ofs_indexdir o)
  (ofs_tmpfile o) (ofs_noxattr o) (ofs_upperdir_locked o) (ofs_workdir_locked o) (sb_rdonly o).
Definition set_workbase w o := mkOfs (ofs_config o) (ofs_upper o) (ofs_lower o) w (ofs_workdir o) (ofs_indexdir o)
  (ofs_tmpfile o) (ofs_noxattr o) (ofs_upperdir_locked o) (ofs_workdir_locked o) (sb_rdonly o).
Definition set_work w o := mkOfs (ofs_config o) (ofs_upper o) (ofs_lower o) (ofs_workbasedir o) w (ofs_indexdir o)
  (ofs_tmpfile o) (ofs_noxattr o) (ofs_upperdir_locked o) (ofs_workdir_locked o) (sb_rdonly o).
Definition set_indexdir i o := mkOfs (ofs_config o) (ofs_upper o) (ofs_lower o) (ofs_workbasedir o) (ofs_workdir o) i
  (ofs_tmpfile o) (ofs_noxattr o) (ofs_upperdir_locked o) (ofs_workdir_locked o) (sb_rdonly o).
Definition set_support tf nx o := mkOfs (ofs_config o) (ofs_upper o) (ofs_lower o) (ofs_workbasedir o) (ofs_workdir o)
  (ofs_indexdir o) tf nx (ofs_upperdir_locked o) (ofs_workdir_locked o) (sb_rdonly o).
Definition set_locked u w o := mkOfs (ofs_config o) (ofs_upper o) (ofs_lower o) (ofs_workbasedir o) (ofs_workdir o)
  (ofs_indexdir o) (ofs_tmpfile o) (ofs_noxattr o) u w (sb_rdonly o).
Definition set_rdonly b o := mkOfs (ofs_config o) (ofs_upper o) (ofs_lower o) (ofs_workbasedir o) (ofs_workdir o)
  (ofs_indexdir o) (ofs_tmpfile o) (ofs_noxattr o) (ofs_upperdir_locked o) (ofs_workdir_locked o) b.
End Fields.

Definition onFS {A} (m : M FS A) : M MS A := zoom ms_fs (λ f s, mkMS f (ms_inuse s) (ms_ofs s)) m.
Definition upd_ofs (f : ovl_fs → ovl_fs) : M MS () := modify (λ s, mkMS (ms_fs s) (ms_inuse s) (f (ms_ofs s))).
Definition upd_config (f : ovl_config → ovl_config) : M MS () := upd_ofs (λ o, set_config (f (ofs_config o)) o).

(** [ovl_inuse_trylock] and [ovl_inuse_unlock]. *)
Definition ovl_inuse_trylock (p : path) : M MS bool := λ s,
  if bool_decide (p ∈ ms_inuse s) then (Ok false, s) else (Ok true, mkMS (ms_fs s) ({[p]} ∪ ms_inuse s) (ms_ofs s)).
Definition ovl_inuse_unlock (p : option path) : M MS () :=
  match p with
  | Some p => modify (λ s, mkMS (ms_fs s) (ms_inuse s ∖ {[p]}) (ms_ofs s))
  | None => mret tt
  end.

(** [ovl_free_fs]: the locks it gives up. *)
Definition ovl_free_fs : M MS () :=
  o ← gets ms_ofs;
  _ ← (if ofs_workdir_locked o then ovl_inuse_unlock (ofs_workbasedir o) else mret tt);
  if ofs_upperdir_locked o then ovl_inuse_unlock (ofs_upper o) else mret tt.

(** [ovl_force_readonly]. *)
Definition ovl_force_readonly (o : ovl_fs) : bool :=
  match ofs_upper o, ofs_workdir o with Some _, Some _ => false | _, _ => true end.

Definition OVL_MAX_STACK : nat := 500.
Definition FILESYSTEM_MAX_STACK_DEPTH : nat := 2.
Definition OVL_WORKDIR_NAME : string := "work".
Definition OVL_INDEXDIR_NAME : string := "index".

Section Mount.
Context (k : ovl_params) (b : backing) (cwd : path).
(** [ovl_verify_origin] of the upper root and the first lower one, and the
    checks of an existing index directory against the upper root: file handles
    are not modelled. *)
Context (verify_origin : path → path → M MS ()) (verify_index : path → path → M MS ()).

(** [ovl_mount_dir_noesc]. *)
Definition ovl_mount_dir_noesc (name : string) : M MS path :=
  if String.eqb name EmptyString then fail (OsError EINVAL)
  else
    p ← onFS (syscall (λ t, match kern_path t cwd name with inl e => (Err e, t) | inr p => (Ok p, t) end));
    _ ← guard_err (negb (bk_weird b)) (OsError EINVAL);
    s ← get;
    _ ← guard_err (is_dir (nodes (ms_fs s)) p) (OsError EINVAL);
    mret p.

(** [ovl_mount_dir]. *)
Definition ovl_mount_dir (name : string) : M MS path :=
  p ← ovl_mount_dir_noesc (ovl_unescape name);
  _ ← guard_err (negb (bk_remote b)) (OsError EINVAL);
  mret p.

(** [ovl_lower_dir]. *)
Definition ovl_lower_dir (name : string) : M MS path :=
  p ← ovl_mount_dir_noesc name;
  o ← gets ms_ofs;
  let c := ofs_config o in
  _ ← (if (cf_nfs_export c || (cf_index c && bool_decide (is_Some (cf_upperdir c)))) && negb (bk_decode_fh b)
       then upd_config (λ c, set_nfs_export false (set_index false c)) else mret tt);
  mret p.

(** [ovl_workdir_ok]: [lock_rename] gives back an entry if one directory is
    below the other. *)
Definition ovl_workdir_ok (workdir upperdir : path) : bool :=
  negb (bool_decide (workdir = upperdir)) && negb (Os.below workdir upperdir) && negb (Os.below upperdir workdir).

(** [ovl_workdir_create]: [None] mounts read-only. *)
Definition make_workdir_entry (p : path) : M MS (option path) :=
  r ← attempt (_ ← onFS (Os.Mkdir p);
               (** The two ACL attributes are removed and the mode is cleared. *)
               _ ← onFS (Os.Chmod p); _ ← onFS (Os.Chmod p); onFS (Os.Chmod p));
  mret (match r with inl _ => None | inr _ => Some p end).
Definition ovl_workdir_create (name : string) (persist : bool) : M MS (option path) :=
  o ← gets ms_ofs;
  match ofs_workbasedir o with
  | None => panic "invalid memory address or nil pointer dereference"
  | Some base =>
      let p := base ++ [name] in
      r ← attempt (onFS (Os.Stat p));
      match r with
      | inl e => if Os.IsNotExist e then make_workdir_entry p else mret None
      | inr _ =>
          if persist then mret (Some p)
          else
            (** [ovl_workdir_cleanup], and the second try. *)
            _ ← ignore_err (onFS (Os.RemoveAll p));
            r ← attempt (onFS (Os.Stat p));
            match r with
            | inl e => if Os.IsNotExist e then make_workdir_entry p else mret None
            | inr _ => mret None
            end
      end
  end.

(** [ovl_get_upper]. *)
Definition ovl_get_upper : M MS path :=
  o ← gets ms_ofs;
  match cf_upperdir (ofs_config o) with
  | None => panic "invalid memory address or nil pointer dereference"
  | Some dir =>
      p ← ovl_mount_dir dir;
      _ ← guard_err (negb (bk_rdonly b)) (OsError EINVAL);
      locked ← ovl_inuse_trylock p;
      _ ← (if (locked : bool) then upd_ofs (set_locked true (ofs_workdir_locked o))
           else guard_err (negb (cf_index (ofs_config o))) (OsError EBUSY));
      _ ← upd_ofs (set_upper (Some p));
      mret p
  end.

(** [ovl_make_workdir]. *)
Definition ovl_make_workdir (workpath : path) : M MS () :=
  w ← ovl_workdir_create OVL_WORKDIR_NAME false;
  _ ← upd_ofs (set_work w);
  match w with
  | None => mret tt
  | Some w =>
      (** [ovl_check_d_type_supported] reads the directory. *)
      _ ← onFS (Os.ReadDir workpath);
      _ ← upd_ofs (set_support (bk_tmpfile b) false);
      _ ← (if bk_xattr b then mret tt
           else _ ← upd_ofs (set_support (bk_tmpfile b) true); upd_config (set_index false));
      o ← gets ms_ofs;
      _ ← (if cf_index (ofs_config o) && negb (bk_decode_fh b) then upd_config (set_index false) else mret tt);
      o ← gets ms_ofs;
      if cf_nfs_export (ofs_config o) && negb (cf_index (ofs_config o)) then upd_config (set_nfs_export false)
      else mret tt
  end.

(** [ovl_get_workdir]. *)
Definition ovl_get_workdir (upperpath : path) : M MS () :=
  o ← gets ms_ofs;
  match cf_workdir (ofs_config o) with
  | None => panic "invalid memory address or nil pointer dereference"
  | Some dir =>
      p ← ovl_mount_dir dir;
      _ ← guard_err (ovl_workdir_ok p upperpath) (OsError EINVAL);
      locked ← ovl_inuse_trylock p;
      _ ← (if (locked : bool) then upd_ofs (set_locked (ofs_upperdir_locked o) true)
           else guard_err (negb (cf_index (ofs_config o))) (OsError EBUSY));
      _ ← upd_ofs (set_workbase (Some p));
      ovl_make_workdir p
  end.

(** [ovl_get_indexdir]. *)
Definition ovl_get_indexdir (upperpath : path) : M MS () :=
  o ← gets ms_ofs;
  match ofs_lower o with
  | [] => panic "index out of range"
  | l :: _ =>
      _ ← verify_origin upperpath l;
      i ← ovl_workdir_create OVL_INDEXDIR_NAME true;
      _ ← upd_ofs (set_indexdir i);
      match i with Some i => verify_index i upperpath | None => mret tt end
  end.

(** The loop of [ovl_get_lowerstack]. *)
Fixpoint lower_loop (lowers : list string) : M MS (list path) :=
  match lowers with
  | [] => mret []
  | l :: ls => p ← ovl_lower_dir l; ps ← lower_loop ls; mret (p :: ps)
  end.

(** [ovl_get_lowerstack]. *)
Definition ovl_get_lowerstack : M MS () :=
  o ← gets ms_ofs;
  let c := ofs_config o in
  let lowers := ovl_split_lowerdirs (default EmptyString (cf_lowerdir c)) in
  let no_upper := bool_decide (cf_upperdir c = None) in
  _ ← guard_err (length lowers <=? OVL_MAX_STACK) (OsError EINVAL);
  _ ← guard_err (negb (no_upper && (length lowers =? 1))) (OsError EINVAL);
  _ ← (if no_upper && cf_nfs_export c && cf_redirect_follow c then upd_config (set_nfs_export false) else mret tt);
  stack ← lower_loop lowers;
  _ ← guard_err (S (bk_stack_depth b) <=? FILESYSTEM_MAX_STACK_DEPTH) (OsError EINVAL);
  upd_ofs (set_lower stack).

(** The configuration before the options are read. *)
Definition mount_config : ovl_config :=
  mkConfig None None None false false false EmptyString (ovl_index_def k) (ovl_nfs_export_def k) (ovl_xino_def k) false.
Definition mount_ofs : ovl_fs := mkOfs mount_config None [] None None None false false false false false.

(** [ovl_fill_super]. *)
Definition fill_super_body (data : option string) : M MS () :=
  c ← of_sum (ovl_parse_opt k data mount_config);
  _ ← upd_config (λ _, c);
  _ ← guard_err (bool_decide (is_Some (cf_lowerdir c))) (OsError EINVAL);
  upperpath ← match cf_upperdir c with
              | None => mret None
              | Some _ =>
                  _ ← guard_err (bool_decide (is_Some (cf_workdir c))) (OsError EINVAL);
                  u ← ovl_get_upper;
                  _ ← ovl_get_workdir u;
                  o ← gets ms_ofs;
                  _ ← (if bool_decide (ofs_workdir o = None) then upd_ofs (set_rdonly true) else mret tt);
                  mret (Some u)
              end;
  _ ← ovl_get_lowerstack;
  _ ← (if bool_decide (upperpath = None) then upd_ofs (set_rdonly true) else mret tt);
  o ← gets ms_ofs;
  _ ← (if negb (ovl_force_readonly o) && cf_index (ofs_config o) then
         match upperpath with
         | None => mret tt
         | Some u =>
             _ ← ovl_get_indexdir u;
             o ← gets ms_ofs;
             if bool_decide (ofs_indexdir o = None)
             then upd_ofs (λ o, set_rdonly true (set_work None o)) else mret tt
         end
       else mret tt);
  o ← gets ms_ofs;
  if bool_decide (ofs_indexdir o = None) then
    _ ← upd_config (set_index false);
    if bool_decide (is_Some (ofs_upper o)) && cf_nfs_export (ofs_config o)
    then upd_config (set_nfs_export false) else mret tt
  else mret tt.
Definition ovl_fill_super (data : option string) : M MS () :=
  _ ← upd_ofs (λ _, mount_ofs);
  defer_on_error (fill_super_body data) ovl_free_fs.
End Mount.
