(* ===== verification/OvlOptProps.v ===== *)
(** * The mount options, parsed and shown

    Options without commas, blanks and backslashes are read one after the
    other; what the kernel shows of a mount reads back as the mount. *)

From S2P Require Import Prelude FileSys OvlOpts OvlMount.

(** ** One option after the other *)

(** A byte that neither ends an option nor escapes one. *)
Definition plain_char (c : ascii) : bool := negb (Ascii.eqb c comma) && negb (Ascii.eqb c backslash).
Abbreviation plain := (GoString.all_chars plain_char).

Lemma plain_cons c s : plain (String c s) = true → (c =? comma)%char = false ∧ (c =? backslash)%char = false ∧ plain s = true.
Proof. cbn [GoString.all_chars]. unfold plain_char. intros [[]%andb_prop ?]%andb_prop. by rewrite <-!negb_true_iff. Qed.

Lemma next_opt_comma p s : plain p = true → ovl_next_opt (p +:+ String comma s) = (p, Some s).
Proof.
  induction p as [|c p IH]; [done|]. intros (Hc&Hb&Hp)%plain_cons. rewrite app_cons. cbn [ovl_next_opt].
  by rewrite Hc, Hb, IH.
Qed.
Lemma next_opt_last p : plain p = true → ovl_next_opt p = (p, None).
Proof.
  induction p as [|c p IH]; [done|]. intros (Hc&Hb&Hp)%plain_cons. cbn [ovl_next_opt]. by rewrite Hc, Hb, IH.
Qed.
Lemma next_opt_shorter s p r : ovl_next_opt s = (p, Some r) → String.length r < String.length s.
Proof.
  remember (String.length s) as n eqn:Hn. revert s p Hn. induction n as [n IH] using lt_wf_ind. intros s p ->.
  destruct s as [|c s]; [done|]. cbn [ovl_next_opt]. destruct (c =? backslash)%char.
  - destruct s as [|c' s]; [done|]. destruct (ovl_next_opt s) as [p' r'] eqn:He. intros [= <- ->].
    specialize (IH (String.length s) ltac:(simpl; lia) s p' eq_refl He). simpl. lia.
  - destruct (c =? comma)%char; [intros [= <- <-]; simpl; lia|].
    destruct (ovl_next_opt s) as [p' r'] eqn:He. intros [= <- ->].
    specialize (IH (String.length s) ltac:(simpl; lia) s p' eq_refl He). simpl. lia.
Qed.

(** The fuel of the loop is enough: more does not change the result. *)
Lemma parse_loop_fuel n opt c : opt_fuel opt ≤ n → ovl_parse_loop n opt c = ovl_parse_loop (opt_fuel opt) opt c.
Proof.
  remember (opt_fuel opt) as m eqn:Hm. intros Hn. revert n opt c Hm Hn.
  induction m as [m IH] using lt_wf_ind. intros n [s|] c -> Hn; [|by destruct n].
  cbn [opt_fuel] in *. destruct n as [|n]; [lia|]. cbn [ovl_parse_loop].
  destruct (ovl_next_opt s) as [p rest] eqn:Hs.
  assert (∀ c', ovl_parse_loop n rest c' = ovl_parse_loop (String.length s) rest c') as Heq.
  { intros c'. destruct rest as [r|]; [|by destruct n, (String.length s)].
    apply next_opt_shorter in Hs. cbn [opt_fuel] in IH.
    rewrite (IH (S (String.length r)) ltac:(lia) n (Some r)), (IH (S (String.length r)) ltac:(lia) (String.length s) (Some r));
      simpl; lia || done. }
  destruct p; [done|]. destruct (match_token _ _) as [t arg]. destruct (ovl_parse_token t arg c); [done|]. apply Heq.
Qed.

Definition parse_opts (opt : option string) (c : ovl_config) : error + ovl_config := ovl_parse_loop (opt_fuel opt) opt c.

(** What one option does. *)
Definition opt_step (p : string) (c : ovl_config) : error + ovl_config :=
  match p with
  | EmptyString => inr c
  | _ => let '(t, arg) := match_token p ovl_tokens in ovl_parse_token t arg c
  end.

Lemma parse_opts_comma p s c :
  plain p = true →
  parse_opts (Some (p +:+ String comma s)) c = match opt_step p c with inl e => inl e | inr c => parse_opts (Some s) c end.
Proof.
  intros Hp. unfold parse_opts at 1. cbn [opt_fuel ovl_parse_loop]. rewrite next_opt_comma by done.
  assert (opt_fuel (Some s) ≤ String.length (p +:+ String comma s)) as Hf by (rewrite str_length_app; simpl; lia).
  unfold opt_step. destruct p; [by rewrite parse_loop_fuel by done|].
  destruct (match_token _ _) as [t arg]. destruct (ovl_parse_token t arg c); [done|]. by rewrite parse_loop_fuel by done.
Qed.
Lemma parse_opts_last p c : plain p = true → parse_opts (Some p) c = opt_step p c.
Proof.
  intros Hp. unfold parse_opts. cbn [opt_fuel ovl_parse_loop]. rewrite next_opt_last by done.
  unfold opt_step. destruct p; [done|].
  destruct (match_token _ _) as [t arg]. by destruct (ovl_parse_token t arg c).
Qed.

(** Options in a row. *)
Fixpoint opt_steps (ps : list string) (c : ovl_config) : error + ovl_config :=
  match ps with
  | [] => inr c
  | p :: ps => match opt_step p c with inl e => inl e | inr c => opt_steps ps c end
  end.
Lemma opt_steps_app ps qs c :
  opt_steps (ps ++ qs) c = match opt_steps ps c with inl e => inl e | inr c => opt_steps qs c end.
Proof. revert c. induction ps as [|p ps IH]; intros c; [done|]. simpl. by destruct (opt_step p c). Qed.

Lemma parse_opts_join ps c :
  ps ≠ [] → Forall (λ p, plain p = true) ps →
  parse_opts (Some (GoString.join (String comma EmptyString) ps)) c = opt_steps ps c.
Proof.
  intros Hne Hps. revert c. induction Hps as [|p ps Hp Hps IH]; [done|]. intros c.
  destruct ps as [|q ps]; [rewrite parse_opts_last by done; simpl; by destruct (opt_step p c)|].
  change (GoString.join _ (p :: q :: ps)) with (p +:+ String comma (GoString.join (String comma EmptyString) (q :: ps))).
  rewrite parse_opts_comma by done. cbn [opt_steps]. destruct (opt_step p c); [done|]. by apply IH.
Qed.

(** The options with a value. *)
Lemma lowerdir_step v c : v ≠ EmptyString → opt_step ("lowerdir=" +:+ v) c = inr (set_lowerdir (Some v) c).
Proof. by destruct v. Qed.
Lemma upperdir_step v c : v ≠ EmptyString → opt_step ("upperdir=" +:+ v) c = inr (set_upperdir (Some v) c).
Proof. by destruct v. Qed.
Lemma workdir_step v c : v ≠ EmptyString → opt_step ("workdir=" +:+ v) c = inr (set_workdir (Some v) c).
Proof. by destruct v. Qed.

(** ** Showing and reading back *)

(** A value [seq_escape] leaves alone. *)
Abbreviation unescaped := (GoString.all_chars (λ c, negb (esc_value c))).

Lemma escape_unescaped v : unescaped v = true → seq_escape v esc_value = v.
Proof.
  induction v as [|c v IH]; [done|]. cbn [GoString.all_chars seq_escape]. intros [Hc Hv]%andb_prop.
  apply negb_true_iff in Hc. by rewrite Hc, IH.
Qed.
Lemma unescaped_plain v : unescaped v = true → plain v = true.
Proof.
  apply all_chars_impl. intros c. unfold esc_value, plain_char. rewrite negb_true_iff, bool_decide_eq_false.
  intros Hc. apply andb_true_intro. split; apply negb_true_iff, Ascii.eqb_neq; intros ->; apply Hc; set_solver.
Qed.

(** The options shown, without the commas in front of them. *)
Definition shown (k : ovl_params) (c : ovl_config) : list string :=
  match cf_lowerdir c with Some l => ["lowerdir=" +:+ l] | None => ["lowerdir"] end ++
  match cf_upperdir c with
  | Some u => ["upperdir=" +:+ u; match cf_workdir c with Some w => "workdir=" +:+ w | None => "workdir" end]
  | None => []
  end ++
  (if cf_default_permissions c then ["default_permissions"] else []) ++
  (if negb (String.eqb (cf_redirect_mode c) (ovl_redirect_mode_def k)) then ["redirect_dir=" +:+ cf_redirect_mode c] else []) ++
  (if negb (eqb (cf_index c) (ovl_index_def k)) then ["index=" +:+ (if cf_index c then "on" else "off")] else []) ++
  (if negb (eqb (cf_nfs_export c) (ovl_nfs_export_def k))
   then ["nfs_export=" +:+ (if cf_nfs_export c then "on" else "off")] else []) ++
  (if bool_decide (cf_xino c ≠ ovl_xino_def k) then ["xino=" +:+ ovl_xino_str (cf_xino c)] else []).

Definition commas (ps : list string) : string :=
  foldr (λ p s, String comma (p +:+ s)) EmptyString ps.
Lemma commas_app ps qs : commas (ps ++ qs) = commas ps +:+ commas qs.
Proof.
  induction ps as [|p ps IH]; [done|]. simpl. rewrite IH, app_cons. f_equal. unfold commas.
  generalize (foldr (λ p s, String comma (p +:+ s)) EmptyString ps). intros t. clear IH.
  induction p as [|x p IHp]; [done|]. rewrite !app_cons. by rewrite IHp.
Qed.
Lemma commas_join p ps : commas (p :: ps) = String comma (GoString.join (String comma EmptyString) (p :: ps)).
Proof.
  revert p. induction ps as [|q ps IH]; intros p; [simpl; by rewrite app_nil_r_str|].
  change (commas (p :: q :: ps)) with (String comma (p +:+ commas (q :: ps))). by rewrite IH.
Qed.

Lemma commas_if (b : bool) p : commas (if b then [p] else []) = if b then String comma p else EmptyString.
Proof. destruct b; [|done]. simpl. by rewrite app_nil_r_str. Qed.

(** Values that are shown as they are. *)
Definition shows (o : option string) : Prop := ∀ v, o = Some v → unescaped v = true.

Lemma show_options_shown k c :
  shows (cf_lowerdir c) → shows (cf_upperdir c) → shows (cf_workdir c) → ovl_show_options k c = commas (shown k c).
Proof.
  intros Hl Hu Hw. unfold ovl_show_options, shown. rewrite !commas_app, !commas_if. unfold seq_show_option.
  f_equal; [|f_equal].
  - destruct (cf_lowerdir c) as [l|]; [|done]. rewrite escape_unescaped by by apply Hl. simpl. by rewrite app_nil_r_str.
  - destruct (cf_upperdir c) as [u|]; [|done]. rewrite escape_unescaped by by apply Hu.
    destruct (cf_workdir c) as [w|]; [rewrite escape_unescaped by by apply Hw|]; simpl; by rewrite ?app_nil_r_str.
Qed.

(** What the loop leaves of the fields it does not set, and that values are not
    empty. *)
Definition parsed (k : ovl_params) (c : ovl_config) : Prop :=
  cf_redirect_dir c = false ∧ cf_redirect_follow c = false ∧
  cf_lowerdir c ≠ Some EmptyString ∧ cf_upperdir c ≠ Some EmptyString ∧ cf_workdir c ≠ Some EmptyString.

Lemma match_token_arg s table t arg : match_token s table = (t, arg) →
  (∀ l, (t, Lit l) ∉ table) → t ≠ OPT_ERR → arg ≠ EmptyString.
Proof.
  intros Hm Hlit Hne. induction table as [|[t' p] table IH]; simpl in Hm; [by injection Hm as <- <-|].
  destruct (match_one p s) as [a|] eqn:Ha.
  - injection Hm as <- <-. destruct p as [l|l]; [destruct (Hlit l); left|].
    unfold match_one in Ha. destruct (GoString.has_prefix s l); [|done]. simpl in Ha.
    destruct (Nat.ltb_spec (String.length l) (String.length s)); [|done]. injection Ha as <-.
    intros He. apply (f_equal String.length) in He. rewrite str_drop_length in He. simpl in He. lia.
  - apply IH; [done|]. intros l Hl. by apply (Hlit l); right.
Qed.

Lemma opt_step_parsed k p c c' : parsed k c → opt_step p c = inr c' → parsed k c'.
Proof.
  intros (Hd&Hf&Hl&Hu&Hw). unfold opt_step. destruct p as [|x p]; [by intros [= <-]|].
  destruct (match_token _ ovl_tokens) as [t arg] eqn:Hm.
  assert (t ∈ [OPT_LOWERDIR; OPT_UPPERDIR; OPT_WORKDIR] → arg ≠ EmptyString) as Harg.
  { intros Ht. eapply match_token_arg; [exact Hm|..].
    - intros l Hin. unfold ovl_tokens in Hin.
      repeat (apply elem_of_cons in Ht as [->|Ht];
        [repeat (apply elem_of_cons in Hin as [Hin|Hin]; [discriminate Hin|]); by apply not_elem_of_nil in Hin|]).
      by apply not_elem_of_nil in Ht.
    - intros ->. by repeat (apply elem_of_cons in Ht as [Ht|Ht]; [discriminate Ht|]); apply not_elem_of_nil in Ht. }
  destruct t; intros [= <-]; split_and!; try done; intros [= ->]; apply Harg; set_solver.
Qed.
Lemma parse_loop_parsed k n opt c c' : parsed k c → ovl_parse_loop n opt c = inr c' → parsed k c'.
Proof.
  revert opt c. induction n as [|n IH]; intros [s|] c Hc; cbn [ovl_parse_loop]; try by intros [= <-].
  destruct (ovl_next_opt s) as [p rest]. pose proof (opt_step_parsed k p c) as Hstep. unfold opt_step in Hstep.
  destruct p; [by apply IH|]. destruct (match_token _ _) as [t arg].
  destruct (ovl_parse_token t arg c) as [e|c1]; [done|]. apply IH. by apply Hstep.
Qed.

(** The blocks of [shown], one by one. *)
Lemma dirs_steps l u w c :
  l ≠ EmptyString → u ≠ Some EmptyString → w ≠ Some EmptyString → is_Some u ∧ is_Some w ∨ u = None ∧ w = None →
  cf_upperdir c = None → cf_workdir c = None →
  opt_steps (["lowerdir=" +:+ l] ++
    match u with
    | Some u => ["upperdir=" +:+ u; match w with Some w => "workdir=" +:+ w | None => "workdir" end]
    | None => []
    end) c = inr (set_workdir w (set_upperdir u (set_lowerdir (Some l) c))).
Proof.
  intros Hl Hu Hw Huw Cu Cw. rewrite opt_steps_app. cbn [opt_steps]. rewrite lowerdir_step by done.
  destruct u as [u|]; [|destruct Huw as [[[] _]|[_ ->]]; [done|]; destruct c; simpl in *; by subst].
  destruct Huw as [[_ [w' ->]]|[Hn _]]; [|done]. cbn [opt_steps].
  rewrite upperdir_step, workdir_step by (by intros ->). done.
Qed.
Lemma permissions_step (b : bool) c :
  cf_default_permissions c = false →
  opt_steps (if b then ["default_permissions"] else []) c = inr (set_default_permissions b c).
Proof. intros Hc. destruct b; [done|]. destruct c; simpl in *; by subst. Qed.
Definition redirect_modes : list string := ["on"; "follow"; "off"; "nofollow"].
Lemma redirect_step m d c :
  m ∈ redirect_modes → cf_redirect_mode c = d →
  opt_steps (if negb (String.eqb m d) then ["redirect_dir=" +:+ m] else []) c = inr (set_redirect_mode m c).
Proof.
  intros Hm Hc. destruct (String.eqb_spec m d) as [->|Hne]; [destruct c; simpl in *; by subst|].
  repeat (apply elem_of_cons in Hm as [->|Hm]; [done|]). by apply not_elem_of_nil in Hm.
Qed.
Lemma index_step (b d : bool) c :
  cf_index c = d → opt_steps (if negb (eqb b d) then ["index=" +:+ (if b then "on" else "off")] else []) c = inr (set_index b c).
Proof. intros <-. destruct c as [? ? ? ? ? ? ? ix ? ? ?]. by destruct b, ix. Qed.
Lemma nfs_export_step (b d : bool) c :
  cf_nfs_export c = d →
  opt_steps (if negb (eqb b d) then ["nfs_export=" +:+ (if b then "on" else "off")] else []) c = inr (set_nfs_export b c).
Proof. intros <-. destruct c as [? ? ? ? ? ? ? ? nx ? ?]. by destruct b, nx. Qed.
Lemma xino_step x d c :
  cf_xino c = d → opt_steps (if bool_decide (x ≠ d) then ["xino=" +:+ ovl_xino_str x] else []) c = inr (set_xino x c).
Proof. intros <-. destruct c as [? ? ? ? ? ? ? ? ? xi ?]. by destruct x, xi. Qed.

Lemma redirect_mode_known k c m c' : ovl_parse_redirect_mode k c m = inr c' → m ∈ redirect_modes.
Proof.
  unfold ovl_parse_redirect_mode, redirect_modes. rewrite !elem_of_cons.
  destruct (String.eqb_spec m "on"); [tauto|]. destruct (String.eqb_spec m "follow"); [tauto|].
  destruct (String.eqb_spec m "off"); [tauto|]. destruct (String.eqb_spec m "nofollow"); [tauto|done].
Qed.
Lemma redirect_mode_simp k c m b c' :
  ovl_parse_redirect_mode k c m = inr c' → ovl_parse_redirect_mode k (set_simp b c) m = inr (set_simp b c').
Proof. unfold ovl_parse_redirect_mode. repeat case_match; intros [= <-]; done. Qed.

(** Reading the options shown of a configuration before the redirect mode is
    looked at. *)
Lemma shown_steps k c :
  cf_redirect_dir c = false → cf_redirect_follow c = false → cf_redirect_mode c ∈ redirect_modes →
  is_Some (cf_lowerdir c) → is_Some (cf_upperdir c) ∧ is_Some (cf_workdir c) ∨ cf_upperdir c = None ∧ cf_workdir c = None →
  cf_lowerdir c ≠ Some EmptyString → cf_upperdir c ≠ Some EmptyString → cf_workdir c ≠ Some EmptyString →
  opt_steps (shown k c) (set_redirect_mode (ovl_redirect_mode_def k) (mount_config k)) = inr (set_simp false c).
Proof.
  destruct c as [l u w dp rd rf rm ix nx xi sp]. cbn. intros -> -> Hm [l' ->] Huw Nl Nu Nw.
  unfold shown. cbn [cf_lowerdir cf_upperdir cf_workdir cf_default_permissions cf_redirect_mode cf_index cf_nfs_export cf_xino].
  rewrite app_assoc, opt_steps_app, dirs_steps by (try done; by intros ->).
  rewrite opt_steps_app, permissions_step by done. rewrite opt_steps_app, redirect_step by done.
  rewrite opt_steps_app, index_step by done. rewrite opt_steps_app, nfs_export_step by done. by rewrite xino_step.
Qed.
Lemma shown_plain k c :
  shows (cf_lowerdir c) → shows (cf_upperdir c) → shows (cf_workdir c) → cf_redirect_mode c ∈ redirect_modes →
  Forall (λ p, plain p = true) (shown k c).
Proof.
  intros Hl Hu Hw Hm.
  assert (∀ s v, plain s = true → unescaped v = true → plain (s +:+ v) = true) as Happ.
  { intros s v Hs Hv%unescaped_plain. by rewrite all_chars_app, Hs, Hv. }
  unfold shown. repeat apply Forall_app_2.
  - destruct (cf_lowerdir c); repeat constructor. apply Happ; [done|by apply Hl].
  - destruct (cf_upperdir c); repeat constructor; [apply Happ; [done|by apply Hu]|].
    destruct (cf_workdir c); [|done]. apply Happ; [done|by apply Hw].
  - by destruct (cf_default_permissions c); repeat constructor.
  - destruct (negb _); repeat constructor. apply Happ; [done|].
    repeat (apply elem_of_cons in Hm as [->|Hm]; [done|]). by apply not_elem_of_nil in Hm.
  - destruct (negb _); repeat constructor. by destruct (cf_index c).
  - destruct (negb _); repeat constructor. by destruct (cf_nfs_export c).
  - destruct (bool_decide _); repeat constructor. by destruct (cf_xino c).
Qed.

Lemma redirect_mode_fields k c m c' : ovl_parse_redirect_mode k c m = inr c' → ∃ d f, c' = set_redirect d f c.
Proof.
  unfold ovl_parse_redirect_mode. destruct c as [l u w dp rd rf rm ix nx xi sp].
  repeat case_match; intros [= <-]; by eexists _, _.
Qed.
Lemma parse_commas p ps c :
  Forall (λ p, plain p = true) (p :: ps) → parse_opts (Some (commas (p :: ps))) c = opt_steps (p :: ps) c.
Proof.
  intros Hps. rewrite commas_join. rewrite <-(parse_opts_join (p :: ps) c) by done.
  exact (parse_opts_comma EmptyString _ c eq_refl).
Qed.

(** C39. What the kernel shows of a mount reads back as the same configuration,
    but for the option [simp], which it does not show.  The values are shown
    as they are if they have no commas, blanks or backslashes. *)
Theorem show_options_roundtrip k data c :
  ovl_parse_opt k data (mount_config k) = inr c →
  is_Some (cf_lowerdir c) → (is_Some (cf_upperdir c) → is_Some (cf_workdir c)) →
  shows (cf_lowerdir c) → shows (cf_upperdir c) → shows (cf_workdir c) →
  ovl_parse_opt k (Some (ovl_show_options k c)) (mount_config k) = inr (set_simp false c).
Proof.
  intros Hparse Hl Hw Sl Su Sw. rewrite show_options_shown by done. unfold ovl_parse_opt in *.
  destruct (ovl_parse_loop _ data _) as [e|c1] eqn:Hloop; [done|].
  assert (parsed k c1) as (Hd&Hf&Nl&Nu&Nw) by (eapply parse_loop_parsed; [|exact Hloop]; done).
  set (c2 := match cf_upperdir c1, cf_workdir c1 with None, Some _ => set_workdir None c1 | _, _ => c1 end) in *.
  assert (cf_redirect_dir c2 = false ∧ cf_redirect_follow c2 = false ∧ cf_lowerdir c2 ≠ Some EmptyString ∧
    cf_upperdir c2 ≠ Some EmptyString ∧ cf_workdir c2 ≠ Some EmptyString ∧
    (cf_upperdir c2 = None → cf_workdir c2 = None)) as (Hd2&Hf2&Nl2&Nu2&Nw2&Huw).
  { unfold c2. by destruct (cf_upperdir c1) eqn:?, (cf_workdir c1) eqn:?; split_and!; simpl; rewrite ?Heqo, ?Heqo0. }
  clearbody c2. pose proof (redirect_mode_known _ _ _ _ Hparse) as Hmode.
  pose proof (redirect_mode_fields _ _ _ _ Hparse) as (d&f&Hc).
  assert (shown k c = shown k c2) as -> by by rewrite Hc.
  assert (Forall (λ p, plain p = true) (shown k c2)) as Hplain by (apply shown_plain; by rewrite Hc in Sl, Su, Sw).
  assert (opt_steps (shown k c2) (set_redirect_mode (ovl_redirect_mode_def k) (mount_config k)) = inr (set_simp false c2)) as Hsteps.
  { rewrite Hc in Hl, Hw. apply shown_steps; try done. destruct (cf_upperdir c2) eqn:Hu2; [left|right; by auto].
    split; [done|]. by apply Hw. }
  destruct (shown k c2) as [|p ps] eqn:Hshown; [unfold shown in Hshown; by destruct (cf_lowerdir c2)|].
  change (ovl_parse_loop ?n ?o ?x) with (parse_opts o x). rewrite parse_commas, Hsteps by done.
  replace (match cf_upperdir (set_simp false c2), cf_workdir (set_simp false c2) with
           | None, Some _ => set_workdir None (set_simp false c2) | _, _ => set_simp false c2 end)
    with (set_simp false c2).
  - by apply redirect_mode_simp.
  - simpl. destruct (cf_upperdir c2); [done|]. by rewrite Huw.
Qed.

Lemma show_options_roundtrip_witness :
  ∃ c, ovl_parse_opt (mkParams false false true false true) (Some "upperdir=/u,lowerdir=/a:/b,workdir=/w,xino=on,simp=on")
         (mount_config (mkParams false false true false true)) = inr c ∧ cf_simp c = true ∧
    ovl_parse_opt (mkParams false false true false true) (Some (ovl_show_options (mkParams false false true false true) c))
      (mount_config (mkParams false false true false true)) = inr (set_simp false c).
Proof.
  eexists. split_and!; [vm_compute; reflexivity|reflexivity|].
  apply (show_options_roundtrip _ (Some "upperdir=/u,lowerdir=/a:/b,workdir=/w,xino=on,simp=on"));
    [vm_compute; reflexivity|by eexists|by eexists|by intros v [= <-]..].
Defined.
