(* ===== verification/OvlMountProps.v ===== *)
(** * Mounting an overlay, step by step

    Resolving the directories of the options, and what [ovl_fill_super] comes to
    when they are all there and nothing fails. *)

From S2P Require Import Prelude FileSys OvlOpts OvlMount OvlOptProps.

(** ** Running without failures *)

Section Runs.
Context {St : Type}.
Lemma bind_ok {A B} (m : M St A) (k : A → M St B) s a s' : m s = (Ok a, s') → (m ≫= k) s = k a s'.
Proof. intros Hm. unfold mbind, M_bind. by rewrite Hm. Qed.
Lemma bind_err {A B} (m : M St A) (k : A → M St B) s e s' : m s = (Err e, s') → (m ≫= k) s = (Err e, s').
Proof. intros Hm. unfold mbind, M_bind. by rewrite Hm. Qed.
Lemma attempt_ok {A} (m : M St A) s a s' : m s = (Ok a, s') → attempt m s = (Ok (inr a), s').
Proof. intros Hm. unfold attempt. by rewrite Hm. Qed.
Lemma attempt_err {A} (m : M St A) s e s' : m s = (Err e, s') → attempt m s = (Ok (inl e), s').
Proof. intros Hm. unfold attempt. by rewrite Hm. Qed.
Lemma ignore_ok {A} (m : M St A) s a s' : m s = (Ok a, s') → ignore_err m s = (Ok tt, s').
Proof. intros Hm. unfold ignore_err. by rewrite (bind_ok _ _ _ _ _ (attempt_ok _ _ _ _ Hm)). Qed.
Lemma ignore_fails {A} (m : M St A) s e s' : m s = (Err e, s') → ignore_err m s = (Ok tt, s').
Proof. intros Hm. unfold ignore_err. by rewrite (bind_ok _ _ _ _ _ (attempt_err _ _ _ _ Hm)). Qed.
End Runs.

(** ** Resolving paths *)

(** The characters of identifiers, and the names made of them. *)
Definition id_char (c : ascii) : bool :=
  let n := Ascii.nat_of_ascii c in
  GoString.is_digit c || ((65 <=? n) && (n <=? 90)) || ((97 <=? n) && (n <=? 122)) || (n =? 45) || (n =? 95).
Definition name_ok (s : string) : Prop := s ≠ EmptyString ∧ GoString.all_chars id_char s = true.

Lemma all_chars_avoids p c s : GoString.all_chars p s = true → p c = false → avoids c s.
Proof.
  unfold avoids. induction s as [|x s IH]; [done|]. cbn [GoString.all_chars GoString.index_byte].
  intros [Hx Hs]%andb_prop Hc. destruct (Ascii.eqb_spec c x) as [->|]; [congruence|]. by rewrite IH.
Qed.
Lemma name_avoids c s : name_ok s → id_char c = false → avoids c s.
Proof. intros [_ Hs]. by apply all_chars_avoids. Qed.
Lemma name_not_dots s : name_ok s → s ≠ "." ∧ s ≠ "..".
Proof. intros [_ Hs]. split; intros ->; discriminate Hs. Qed.

Section Walk.
Implicit Types (t : gmap path node) (cur : path).

Lemma walk_nil n t cur : link_walk n t cur [] = inr cur.
Proof. by destruct n. Qed.
Lemma walk_empty n t cur l : is_dir t cur = true → link_walk n t cur (EmptyString :: l) = link_walk n t cur l.
Proof. intros Hd. destruct n; simpl; by rewrite Hd. Qed.
Lemma walk_up n t cur l : is_dir t cur = true → link_walk n t cur (".." :: l) = link_walk n t (parent_dir cur) l.
Proof. intros Hd. destruct n; simpl; by rewrite Hd. Qed.
Lemma walk_dir n t cur c l :
  is_dir t cur = true → name_ok c → is_dir t (cur ++ [c]) = true → link_walk n t cur (c :: l) = link_walk n t (cur ++ [c]) l.
Proof.
  intros Hd Hc Hn. destruct (name_not_dots c Hc). destruct Hc as [Hne _].
  assert (String.eqb c EmptyString = false ∧ String.eqb c "." = false ∧ String.eqb c ".." = false) as (E1&E2&E3)
    by (by split_and!; apply String.eqb_neq).
  unfold is_dir in Hn. destruct n; simpl; rewrite Hd, E1, E2, E3; simpl;
    destruct (node_at t (cur ++ [c])) as [[]|]; done.
Qed.
Lemma walk_link n t cur c l target :
  is_dir t cur = true → name_ok c → node_at t (cur ++ [c]) = Some (Symlink target) → GoString.has_prefix target "/" = false →
  link_walk (S n) t cur (c :: l) = link_walk n t cur (GoString.split slash target ++ l).
Proof.
  intros Hd Hc Hn Habs. destruct (name_not_dots c Hc). destruct Hc as [Hne _].
  assert (String.eqb c EmptyString = false ∧ String.eqb c "." = false ∧ String.eqb c ".." = false) as (E1&E2&E3)
    by (by split_and!; apply String.eqb_neq).
  cbn [link_walk]. rewrite Hd, E1, E2, E3. cbn [negb orb]. by rewrite Hn, Habs.
Qed.
(** Down a path of directories. *)
Lemma walk_dirs n t cur p l :
  Forall name_ok p → (∀ i, is_dir t (cur ++ take i p) = true) → link_walk n t cur (p ++ l) = link_walk n t (cur ++ p) l.
Proof.
  intros Hp. revert cur. induction Hp as [|c p Hc Hp IH]; intros cur Hd; [by rewrite app_nil_r|].
  rewrite <-app_comm_cons, walk_dir; [|by specialize (Hd 0); rewrite take_0, app_nil_r in Hd|done|by specialize (Hd 1)].
  rewrite IH; [by rewrite <-app_assoc|]. intros i. rewrite <-app_assoc. apply (Hd (S i)).
Qed.
End Walk.

(** ** Reading the options of an overlay with an upper layer *)

Section Options.
Context (k : ovl_params).
(** The features the driver does not ask for are off. *)
Definition defaults_off : Prop := ovl_index_def k = false ∧ ovl_nfs_export_def k = false.

(** What the options for three directories come to. *)
Record parsed_as (c : ovl_config) (l u w : string) (simp : bool) : Prop := {
  pa_lower : cf_lowerdir c = Some l;
  pa_upper : cf_upperdir c = Some u;
  pa_work : cf_workdir c = Some w;
  pa_simp : cf_simp c = simp;
  pa_index : cf_index c = ovl_index_def k;
  pa_nfs : cf_nfs_export c = ovl_nfs_export_def k;
}.

Lemma redirect_def_ok c : ∃ d f, ovl_parse_redirect_mode k c (ovl_redirect_mode_def k) = inr (set_redirect d f c).
Proof.
  destruct c as [l u w dp rd rf rm ix nx xi sp]. unfold ovl_parse_redirect_mode, ovl_redirect_mode_def.
  destruct (ovl_redirect_dir_def k); [by eexists _, _|]. simpl. destruct (ovl_redirect_always_follow k); by eexists _, _.
Qed.

(** Parsing options that set the three directories, and possibly the flag. *)
Lemma parse_steps ps l u w simp :
  ps ≠ [] → Forall (λ p, plain p = true) ps →
  (∀ c, opt_steps ps c = inr (set_simp (simp || cf_simp c) (set_workdir (Some w) (set_upperdir (Some u) (set_lowerdir (Some l) c))))) →
  ∃ c, ovl_parse_opt k (Some (GoString.join (String comma EmptyString) ps)) (mount_config k) = inr c ∧ parsed_as c l u w simp.
Proof.
  intros Hne Hps Hs. unfold ovl_parse_opt. change (ovl_parse_loop (opt_fuel ?o) ?o ?x) with (parse_opts o x).
  rewrite parse_opts_join, Hs by done. cbn [cf_upperdir cf_workdir set_simp set_workdir set_upperdir set_lowerdir].
  match goal with |- context [ovl_parse_redirect_mode k ?c _] => destruct (redirect_def_ok c) as (d&f&Hd); simpl in *; rewrite Hd end.
  eexists. split; [done|]. split; try done. simpl. by rewrite orb_false_r.
Qed.
End Options.

(** ** Filling the super block *)

Section Fill.
Context (k : ovl_params) (b : backing) (cwd : path).
Context (verify_origin verify_index : path → path → M MS ()).

(** A file system that can be a layer. *)
Definition backing_ok : Prop :=
  bk_rdonly b = false ∧ bk_stack_depth b ≤ 1 ∧ bk_weird b = false ∧ bk_remote b = false.

Definition calm_ms (t : gmap path node) (i : gset path) (o : ovl_fs) : MS := mkMS (mkFS t []) i o.

Lemma noesc_run t i o name p :
  backing_ok → name ≠ EmptyString → kern_path t cwd name = inr p → is_dir t p = true →
  ovl_mount_dir_noesc b cwd name (calm_ms t i o) = (Ok p, calm_ms t i o).
Proof.
  intros (_&_&Hw&_) Hne Hk Hd. unfold ovl_mount_dir_noesc. rewrite (proj2 (String.eqb_neq name _)) by done.
  erewrite bind_ok; [|unfold onFS, zoom, syscall; simpl; by rewrite Hk]. rewrite Hw. simpl. unfold calm_ms.
  unfold mbind, M_bind, get, mret, M_ret, guard_err. simpl. by rewrite Hd.
Qed.
Lemma mount_dir_run t i o name p :
  backing_ok → name ≠ EmptyString → ovl_unescape name = name → kern_path t cwd name = inr p → is_dir t p = true →
  ovl_mount_dir b cwd name (calm_ms t i o) = (Ok p, calm_ms t i o).
Proof.
  intros Hb Hne Hesc Hk Hd. unfold ovl_mount_dir. rewrite Hesc, (bind_ok _ _ _ _ _ (noesc_run t i o name p Hb Hne Hk Hd)).
  destruct Hb as (_&_&_&Hr). by rewrite Hr.
Qed.
(** The name is missing. *)
Lemma mount_dir_missing t i o name :
  backing_ok → name ≠ EmptyString → ovl_unescape name = name → kern_path t cwd name = inl (OsError ENOENT) →
  ovl_mount_dir b cwd name (calm_ms t i o) = (Err (OsError ENOENT), calm_ms t i o).
Proof.
  intros Hb Hne Hesc Hk. unfold ovl_mount_dir, ovl_mount_dir_noesc. rewrite Hesc, (proj2 (String.eqb_neq name _)) by done.
  apply bind_err, bind_err. unfold onFS, zoom, syscall. simpl. by rewrite Hk.
Qed.

(** The configuration asks for neither an index nor file handles. *)
Definition plain_config (o : ovl_fs) : Prop := cf_index (ofs_config o) = false ∧ cf_nfs_export (ofs_config o) = false.

Lemma lower_dir_run t i o name p :
  backing_ok → plain_config o → name ≠ EmptyString → kern_path t cwd name = inr p → is_dir t p = true →
  ovl_lower_dir b cwd name (calm_ms t i o) = (Ok p, calm_ms t i o).
Proof.
  intros Hb [Hi Hn] Hne Hk Hd. unfold ovl_lower_dir. rewrite (bind_ok _ _ _ _ _ (noesc_run t i o name p Hb Hne Hk Hd)).
  rewrite (bind_ok _ _ _ o (calm_ms t i o)) by done. cbv zeta. by rewrite Hi, Hn.
Qed.
Lemma lower_loop_run t i o names ps :
  backing_ok → plain_config o →
  Forall2 (λ name p, name ≠ EmptyString ∧ kern_path t cwd name = inr p ∧ is_dir t p = true) names ps →
  lower_loop b cwd names (calm_ms t i o) = (Ok ps, calm_ms t i o).
Proof.
  intros Hb Ho Hall. induction Hall as [|name p names ps (Hne&Hk&Hd) Hall IH]; [done|]. cbn [lower_loop].
  by rewrite (bind_ok _ _ _ _ _ (lower_dir_run t i o name p Hb Ho Hne Hk Hd)), (bind_ok _ _ _ _ _ IH).
Qed.

(** The tree after the work directory [p] was made anew. *)
Definition remade (t : gmap path node) (p : path) : gmap path node :=
  <[p := Dir]> (match t !! p with None => t | Some _ => filter (λ kv, Os.below p kv.1 = false) t end).

Lemma make_entry_run t i o p :
  p ≠ [] → t !! p = None → is_dir t (parent_dir p) = true →
  make_workdir_entry p (calm_ms t i o) = (Ok (Some p), calm_ms (<[p := Dir]> t) i o).
Proof.
  intros Hp Hn Hd. unfold make_workdir_entry.
  assert (onFS (Os.Mkdir p) (calm_ms t i o) = (Ok tt, calm_ms (<[p := Dir]> t) i o)) as Hmk.
  { unfold onFS, zoom, Os.Mkdir, syscall. simpl. by rewrite node_at_ne, Hn, Hd. }
  rewrite (bind_ok _ _ _ (inr tt) (calm_ms (<[p := Dir]> t) i o)); [done|]. apply attempt_ok.
  by rewrite (bind_ok _ _ _ _ _ Hmk).
Qed.
Lemma workdir_create_run t i o base name :
  ofs_workbasedir o = Some base → base ≠ [] → is_dir t base = true →
  ovl_workdir_create name false (calm_ms t i o) = (Ok (Some (base ++ [name])), calm_ms (remade t (base ++ [name])) i o).
Proof.
  intros Hb Hne Hd. unfold ovl_workdir_create. rewrite (bind_ok _ _ _ o (calm_ms t i o)) by done. rewrite Hb. cbv zeta.
  set (p := base ++ [name]). assert (p ≠ []) as Hp by (by destruct base).
  assert (parent_dir p = base) as Hpar by apply parent_dir_snoc. unfold remade.
  destruct (t !! p) as [n|] eqn:Hn.
  - assert (onFS (Os.Stat p) (calm_ms t i o) = (Ok n, calm_ms t i o)) as Hst.
    { unfold onFS, zoom, Os.Stat, syscall. simpl. by rewrite node_at_ne, Hn. }
    rewrite (bind_ok _ _ _ _ _ (attempt_ok _ _ _ _ Hst)). set (t' := filter _ t).
    assert (onFS (Os.RemoveAll p) (calm_ms t i o) = (Ok tt, calm_ms t' i o)) as Hrm by done.
    rewrite (bind_ok _ _ _ _ _ (ignore_ok _ _ _ _ Hrm)).
    assert (t' !! p = None) as Hn'.
    { apply map_lookup_filter_None. right. intros m _ Hm. simpl in Hm. apply not_below_spec in Hm. by destruct Hm. }
    assert (onFS (Os.Stat p) (calm_ms t' i o) = (Err (OsError ENOENT), calm_ms t' i o)) as Hst'.
    { unfold onFS, zoom, Os.Stat, syscall. simpl. by rewrite node_at_ne, Hn'. }
    rewrite (bind_ok _ _ _ _ _ (attempt_err _ _ _ _ Hst')). apply make_entry_run; [done|done|]. rewrite Hpar.
    apply is_dir_Some in Hd; [|done]. apply is_dir_Some; [done|]. apply map_lookup_filter_Some. split; [done|].
    simpl. apply not_below_spec. intros Hl%prefix_length. unfold p in Hl. rewrite length_app in Hl. simpl in Hl. lia.
  - assert (onFS (Os.Stat p) (calm_ms t i o) = (Err (OsError ENOENT), calm_ms t i o)) as Hst.
    { unfold onFS, zoom, Os.Stat, syscall. simpl. by rewrite node_at_ne, Hn. }
    rewrite (bind_ok _ _ _ _ _ (attempt_err _ _ _ _ Hst)). by apply make_entry_run; [..|rewrite Hpar].
Qed.

Lemma get_upper_run t i o u up :
  backing_ok → cf_upperdir (ofs_config o) = Some u → u ≠ EmptyString → ovl_unescape u = u →
  kern_path t cwd u = inr up → is_dir t up = true → up ∉ i →
  ovl_get_upper b cwd (calm_ms t i o) =
    (Ok up, calm_ms t ({[up]} ∪ i) (set_upper (Some up) (set_locked true (ofs_workdir_locked o) o))).
Proof.
  intros Hb Hu Hne Hesc Hk Hd Hi. unfold ovl_get_upper. rewrite (bind_ok _ _ _ o (calm_ms t i o)) by done. rewrite Hu.
  rewrite (bind_ok _ _ _ _ _ (mount_dir_run t i o u up Hb Hne Hesc Hk Hd)). destruct Hb as (Hr&_). rewrite Hr.
  rewrite (bind_ok _ _ _ tt (calm_ms t i o)) by done.
  rewrite (bind_ok _ _ _ true (calm_ms t ({[up]} ∪ i) o)); [done|].
  unfold ovl_inuse_trylock. simpl. by rewrite bool_decide_eq_false_2.
Qed.

Lemma make_workdir_run t i o wk :
  plain_config o → ofs_workbasedir o = Some wk → wk ≠ [] → is_dir t wk = true →
  ∃ tf nx, ovl_make_workdir b wk (calm_ms t i o) =
    (Ok tt, calm_ms (remade t (wk ++ ["work"])) i (set_support tf nx (set_work (Some (wk ++ ["work"])) o))).
Proof.
  intros [Hix Hn] Hb Hne Hd. unfold ovl_make_workdir, OVL_WORKDIR_NAME.
  rewrite (bind_ok _ _ _ _ _ (workdir_create_run t i o wk "work" Hb Hne Hd)). set (t' := remade t (wk ++ ["work"])).
  rewrite (bind_ok _ _ _ tt (calm_ms t' i (set_work (Some (wk ++ ["work"])) o))) by done.
  assert (is_dir t' wk = true) as Hd'.
  { apply is_dir_Some in Hd; [|done]. apply is_dir_Some; [done|]. unfold t', remade. rewrite lookup_insert_ne.
    - destruct (t !! (wk ++ ["work"])); [|done]. apply map_lookup_filter_Some. split; [done|]. simpl. apply not_below_spec.
      intros Hl%prefix_length. rewrite length_app in Hl. simpl in Hl. lia.
    - intros He. apply (f_equal length) in He. rewrite length_app in He. simpl in He. lia. }
  erewrite bind_ok; [|unfold onFS, zoom, Os.ReadDir, syscall; simpl; unfold is_dir in Hd';
    destruct (node_at t' wk) as [[]|]; try done].
  destruct o as [c u l wb wd ix tf nx ul wl ro]. unfold plain_config in Hix, Hn. simpl in Hix, Hn.
  destruct c as [cl cu cw dp rd rf rm ci cn xi sp]. simpl in *. subst.
  exists (bk_tmpfile b), (negb (bk_xattr b)). unfold upd_ofs, upd_config, mbind, M_bind, mret, M_ret, gets, modify. simpl.
  destruct (bk_xattr b); simpl; unfold upd_config, upd_ofs, modify; simpl; done.
Qed.

Lemma get_workdir_run t i o w wk up :
  backing_ok → plain_config o → cf_workdir (ofs_config o) = Some w → w ≠ EmptyString → ovl_unescape w = w →
  kern_path t cwd w = inr wk → is_dir t wk = true → wk ≠ [] → ovl_workdir_ok wk up = true → wk ∉ i →
  ∃ tf nx, ovl_get_workdir b cwd up (calm_ms t i o) =
    (Ok tt, calm_ms (remade t (wk ++ ["work"])) ({[wk]} ∪ i)
       (set_support tf nx (set_work (Some (wk ++ ["work"])) (set_workbase (Some wk) (set_locked (ofs_upperdir_locked o) true o))))).
Proof.
  intros Hb Hp Hw Hne Hesc Hk Hd Hwk Hok Hi. unfold ovl_get_workdir.
  rewrite (bind_ok _ _ _ o (calm_ms t i o)) by done. rewrite Hw.
  rewrite (bind_ok _ _ _ _ _ (mount_dir_run t i o w wk Hb Hne Hesc Hk Hd)), Hok.
  rewrite (bind_ok _ _ _ tt (calm_ms t i o)) by done.
  rewrite (bind_ok _ _ _ true (calm_ms t ({[wk]} ∪ i) o)); [|unfold ovl_inuse_trylock; simpl; by rewrite bool_decide_eq_false_2].
  rewrite (bind_ok _ _ _ tt (calm_ms t ({[wk]} ∪ i) (set_locked (ofs_upperdir_locked o) true o))) by done.
  rewrite (bind_ok _ _ _ tt (calm_ms t ({[wk]} ∪ i) (set_workbase (Some wk) (set_locked (ofs_upperdir_locked o) true o)))) by done.
  apply make_workdir_run; done.
Qed.

Lemma get_lowerstack_run t i o l lows :
  backing_ok → plain_config o → cf_lowerdir (ofs_config o) = Some l → is_Some (cf_upperdir (ofs_config o)) →
  length (ovl_split_lowerdirs l) ≤ OVL_MAX_STACK →
  Forall2 (λ name p, name ≠ EmptyString ∧ kern_path t cwd name = inr p ∧ is_dir t p = true) (ovl_split_lowerdirs l) lows →
  ovl_get_lowerstack b cwd (calm_ms t i o) = (Ok tt, calm_ms t i (set_lower lows o)).
Proof.
  intros Hb Hp Hl [u Hu] Hlen Hall. unfold ovl_get_lowerstack. rewrite (bind_ok _ _ _ o (calm_ms t i o)) by done.
  cbv zeta. rewrite Hl, Hu. cbn [default from_option id]. rewrite bool_decide_eq_false_2 by done. cbn [andb negb].
  apply Nat.leb_le in Hlen. rewrite Hlen. rewrite !(bind_ok _ _ _ tt (calm_ms t i o)) by done.
  rewrite (bind_ok _ _ _ _ _ (lower_loop_run t i o _ _ Hb Hp Hall)). destruct Hb as (_&Hdep&_).
  rewrite (proj2 (Nat.leb_le (S (bk_stack_depth b)) FILESYSTEM_MAX_STACK_DEPTH)) by (unfold FILESYSTEM_MAX_STACK_DEPTH; lia).
  done.
Qed.

(** What a mount comes to. *)
Record mounts_as (o : ovl_fs) (up wk : path) (lows : list path) (simp : bool) : Prop := {
  ma_upper : ofs_upper o = Some up;
  ma_lower : ofs_lower o = lows;
  ma_workbase : ofs_workbasedir o = Some wk;
  ma_workdir : ofs_workdir o = Some (wk ++ ["work"]);
  ma_indexdir : ofs_indexdir o = None;
  ma_locked : ofs_upperdir_locked o = true ∧ ofs_workdir_locked o = true;
  ma_rdonly : sb_rdonly o = false;
  ma_simp : cf_simp (ofs_config o) = simp;
}.

Lemma fill_super_run t i o0 data c l u w simp up wk lows :
  backing_ok → defaults_off k → ovl_parse_opt k data (mount_config k) = inr c → parsed_as k c l u w simp →
  u ≠ EmptyString → ovl_unescape u = u → kern_path t cwd u = inr up → is_dir t up = true → up ∉ i →
  w ≠ EmptyString → ovl_unescape w = w → kern_path t cwd w = inr wk → is_dir t wk = true → wk ≠ [] → wk ∉ i →
  ovl_workdir_ok wk up = true → length (ovl_split_lowerdirs l) ≤ OVL_MAX_STACK →
  Forall2 (λ name p, name ≠ EmptyString ∧ kern_path (remade t (wk ++ ["work"])) cwd name = inr p ∧
             is_dir (remade t (wk ++ ["work"])) p = true) (ovl_split_lowerdirs l) lows →
  ∃ o, ovl_fill_super k b cwd verify_origin verify_index data (calm_ms t i o0) =
         (Ok tt, calm_ms (remade t (wk ++ ["work"])) ({[wk]} ∪ ({[up]} ∪ i)) o) ∧ mounts_as o up wk lows simp.
Proof.
  intros Hb [Dix Dn] Hparse [Pl Pu Pw Ps Pix Pn] Une Uesc Uk Ud Ui Wne Wesc Wk Wd Wn Wi Hok Hlen Hall.
  unfold ovl_fill_super. rewrite (bind_ok _ _ _ tt (calm_ms t i (mount_ofs k))) by done.
  unfold defer_on_error, defer_when, fill_super_body. rewrite Hparse.
  rewrite (bind_ok _ _ _ c (calm_ms t i (mount_ofs k))) by done.
  set (o1 := set_config c (mount_ofs k)).
  rewrite (bind_ok _ _ _ tt (calm_ms t i o1)) by done.
  rewrite (bool_decide_eq_true_2 (is_Some (cf_lowerdir c))) by by rewrite Pl.
  rewrite (bind_ok _ _ _ tt (calm_ms t i o1)) by done. rewrite Pu.
  rewrite (bool_decide_eq_true_2 (is_Some (cf_workdir c))) by by rewrite Pw.
  set (o2 := set_upper (Some up) (set_locked true (ofs_workdir_locked o1) o1)).
  assert (plain_config o2) as Hp2 by (split; simpl; congruence).
  destruct (get_workdir_run t ({[up]} ∪ i) o2 w wk up Hb Hp2 Pw Wne Wesc Wk Wd Wn Hok) as (tf&nx&Hwork).
  { intros [->%elem_of_singleton|?]%elem_of_union; [|done]. unfold ovl_workdir_ok in Hok. by rewrite bool_decide_eq_true_2 in Hok. }
  set (o3 := set_support tf nx _) in Hwork. set (t' := remade t (wk ++ ["work"])) in *.
  rewrite (bind_ok _ _ _ (Some up) (calm_ms t' ({[wk]} ∪ ({[up]} ∪ i)) o3)).
  2: { rewrite (bind_ok _ _ _ tt (calm_ms t i o1)) by done.
       rewrite (bind_ok _ _ _ _ _ (get_upper_run t i o1 u up Hb Pu Une Uesc Uk Ud Ui)).
       by rewrite (bind_ok _ _ _ _ _ Hwork). }
  assert (plain_config o3) as Hp3 by (split; simpl; congruence).
  rewrite (bind_ok _ _ _ _ _ (get_lowerstack_run t' ({[wk]} ∪ ({[up]} ∪ i)) o3 l lows Hb Hp3 Pl (ex_intro _ u Pu) Hlen Hall)).
  set (o4 := set_lower lows o3). rewrite bool_decide_eq_false_2 by done.
  rewrite (bind_ok _ _ _ tt (calm_ms t' ({[wk]} ∪ ({[up]} ∪ i)) o4)) by done.
  rewrite (bind_ok _ _ _ o4 (calm_ms t' ({[wk]} ∪ ({[up]} ∪ i)) o4)) by done.
  assert (cf_index (ofs_config o4) = false) as -> by (simpl; congruence). rewrite andb_false_r.
  rewrite (bind_ok _ _ _ tt (calm_ms t' ({[wk]} ∪ ({[up]} ∪ i)) o4)) by done.
  rewrite (bind_ok _ _ _ o4 (calm_ms t' ({[wk]} ∪ ({[up]} ∪ i)) o4)) by done.
  rewrite bool_decide_eq_true_2 by done.
  rewrite (bind_ok _ _ _ tt (calm_ms t' ({[wk]} ∪ ({[up]} ∪ i)) (set_config (set_index false (ofs_config o4)) o4))) by done.
  assert (cf_nfs_export (ofs_config o4) = false) as -> by (simpl; congruence). rewrite andb_false_r.
  eexists. split; [reflexivity|]. split; try done.
Qed.
End Fill.
