(* ===== verification/OvlCopyUp.v ===== *)
(** * The overlay file system: copy-up and opening

    [src/overlayfs/copy_up.c], [ovl_d_real] of [super.c] and
    [ovl_open_maybe_copy_up] of [inode.c]: what becomes of the upper layer when
    a file is opened, and which file the caller gets. *)

From S2P Require Import Prelude FileSys OvlOpts OvlMount.

(** ** Real inodes *)

(** The type of an inode, with the contents it is for; a character device has a
    number, as have the other special files. *)
Inductive ftype :=
| S_IFREG (data : string)
| S_IFDIR
| S_IFLNK (target : string)
| S_IFCHR (rdev : Z)
| S_IFSPECIAL (rdev : Z).

#[export] Instance ftype_eq_dec : EqDecision ftype.
Proof. solve_decision. Defined.

(** An inode of a layer below the overlay. *)
Record rinode := mkReal {
  ri_type : ftype;
  ri_mode : Z;
  ri_uid : Z;
  ri_gid : Z;
  ri_atime : Z;
  ri_mtime : Z;
  ri_nlink : nat;
  ri_append : bool;
  ri_xattrs : gmap string string;
}.

Definition set_type v i := mkReal v (ri_mode i) (ri_uid i) (ri_gid i) (ri_atime i) (ri_mtime i) (ri_nlink i)
  (ri_append i) (ri_xattrs i).
Definition set_mode v i := mkReal (ri_type i) v (ri_uid i) (ri_gid i) (ri_atime i) (ri_mtime i) (ri_nlink i)
  (ri_append i) (ri_xattrs i).
Definition set_owner u g i := mkReal (ri_type i) (ri_mode i) u g (ri_atime i) (ri_mtime i) (ri_nlink i)
  (ri_append i) (ri_xattrs i).
Definition set_times a m i := mkReal (ri_type i) (ri_mode i) (ri_uid i) (ri_gid i) a m (ri_nlink i)
  (ri_append i) (ri_xattrs i).
Definition set_xattr n v i := mkReal (ri_type i) (ri_mode i) (ri_uid i) (ri_gid i) (ri_atime i) (ri_mtime i)
  (ri_nlink i) (ri_append i) (<[n := v]> (ri_xattrs i)).

Definition is_dir_type (f : ftype) : bool := match f with S_IFDIR => true | _ => false end.
Definition is_lnk_type (f : ftype) : bool := match f with S_IFLNK _ => true | _ => false end.
Definition is_reg_type (f : ftype) : bool := match f with S_IFREG _ => true | _ => false end.
(** [special_file]. *)
Definition special_file (f : ftype) : bool := match f with S_IFCHR _ | S_IFSPECIAL _ => true | _ => false end.

(** ** A mounted overlay *)

(** The dentries of the overlay are the paths below its root.  [os_upper] gives
    [ovl_dentry_upper], [os_lower] the first entry of the lower stack;
    [os_alias] and [os_impure] are the flags [OVL_E_UPPER_ALIAS] and
    [OVL_IMPURE]; [os_temps] counts the temporary entries of the work directory. *)
Record OS := mkOS {
  os_ofs : ovl_fs;
  os_upper : gmap path rinode;
  os_lower : gmap path rinode;
  os_alias : gset path;
  os_impure : gset path;
  os_temps : nat;
  os_faults : list fault;
}.

Definition os_set_upper u s := mkOS (os_ofs s) u (os_lower s) (os_alias s) (os_impure s) (os_temps s) (os_faults s).
Definition os_set_alias a s := mkOS (os_ofs s) (os_upper s) (os_lower s) a (os_impure s) (os_temps s) (os_faults s).
Definition os_set_impure i s := mkOS (os_ofs s) (os_upper s) (os_lower s) (os_alias s) i (os_temps s) (os_faults s).
Definition os_set_temps n s := mkOS (os_ofs s) (os_upper s) (os_lower s) (os_alias s) (os_impure s) n (os_faults s).

Definition ovl_dentry_upper (s : OS) (p : path) : option rinode := os_upper s !! p.
Definition ovl_dentry_lower (s : OS) (p : path) : option rinode := os_lower s !! p.
Definition ovl_dentry_has_upper_alias (s : OS) (p : path) : bool := bool_decide (p ∈ os_alias s).
(** [ovl_dentry_real]. *)
Definition ovl_dentry_real (s : OS) (p : path) : option rinode :=
  match ovl_dentry_upper s p with Some i => Some i | None => ovl_dentry_lower s p end.

(** A call into a layer: it fails, or has its effect. *)
Definition vfs (f : OS → OS) : M OS () := λ s,
  match os_faults s with
  | FailAt _ :: fs => (Err (OsError EIO), mkOS (os_ofs s) (os_upper s) (os_lower s) (os_alias s) (os_impure s) (os_temps s) fs)
  | NoFault :: fs => (Ok tt, f (mkOS (os_ofs s) (os_upper s) (os_lower s) (os_alias s) (os_impure s) (os_temps s) fs))
  | [] => (Ok tt, f s)
  end.
(** A call that may fail and changes nothing the model has. *)
Definition vfs_call : M OS () := vfs (λ s, s).

(** ** Flags *)

Definition O_ACCMODE : Z := 3.
Definition O_TRUNC : Z := 512.
Definition O_APPEND : Z := 1024.
Definition FMODE_READ : Z := 1.
Definition FMODE_WRITE : Z := 2.
Definition FMODE_EXEC : Z := 32.
Definition FMODE_NONOTIFY : Z := 67108864.
Definition D_REAL_UPPER : Z := 2.
(** [OPEN_FMODE]. *)
Definition OPEN_FMODE (flag : Z) : Z := Z.lor (Z.land (flag + 1) O_ACCMODE) (Z.land flag FMODE_NONOTIFY).
Definition has (flags bit : Z) : bool := negb (Z.land flags bit =? 0)%Z.

Definition OVL_XATTR_PREFIX : string := "trusted.overlay.".
Definition OVL_XATTR_ORIGIN : string := "trusted.overlay.origin".
Definition OVL_XATTR_IMPURE : string := "trusted.overlay.impure".
Definition OVL_XATTR_NLINK : string := "trusted.overlay.nlink".
(** [ovl_is_private_xattr]. *)
Definition ovl_is_private_xattr (name : string) : bool := GoString.has_prefix name OVL_XATTR_PREFIX.
Definition OVL_COPY_UP_CHUNK_SIZE : Z := 1048576.

Section CopyUp.
(** The security module: what it says about copying an attribute, and the file
    handle of a lower file. *)
Context (security_inode_copy_up_xattr : string → Z) (encode_fh : path → string).
(** Copying up to the index directory, for mounts that have one. *)
Context (copy_up_indexed : path → path → Z → M OS ()).

(** ** Copying one inode *)

(** [ovl_copy_xattr]: the attributes of [old], on the new inode. *)
Fixpoint copy_xattr_loop (l : list (string * string)) (new : rinode) : M OS rinode :=
  match l with
  | [] => mret new
  | (name, value) :: l =>
      if ovl_is_private_xattr name then copy_xattr_loop l new
      else
        _ ← vfs_call;
        let error := security_inode_copy_up_xattr name in
        if (error <? 0)%Z && negb (error =? -95)%Z then fail (OsError EPERM)
        else if (error =? 1)%Z then copy_xattr_loop l new
        else _ ← vfs_call; copy_xattr_loop l (set_xattr name value new)
  end.
(** An upper file system without attributes, which [noxattr] records, has none on the new
    inode, and nothing is copied; a lower one without them has none to list. *)
Definition ovl_copy_xattr (old new : rinode) : M OS rinode :=
  s ← get;
  if ofs_noxattr (os_ofs s) then mret new
  else
    _ ← vfs_call;
    if bool_decide (ri_xattrs old = ∅) then mret new
    else _ ← vfs_call; copy_xattr_loop (map_to_list (ri_xattrs old)) new.

(** The loop of [ovl_copy_up_data]: at most [OVL_COPY_UP_CHUNK_SIZE] bytes a
    round, so [len] rounds are enough; [old] is what is still to be read. *)
Fixpoint splice_loop (fuel : nat) (len : Z) (old new : string) : M OS string :=
  match fuel with
  | 0 => mret new
  | S fuel =>
      if (len =? 0)%Z then mret new
      else
        let this_len := Z.min len OVL_COPY_UP_CHUNK_SIZE in
        _ ← vfs_call;
        let bytes := GoString.take (Z.to_nat this_len) old in
        if String.eqb bytes EmptyString then mret new
        else splice_loop fuel (len - Z.of_nat (String.length bytes)) (GoString.drop (String.length bytes) old)
               (new +:+ bytes)
  end.
(** [ovl_copy_up_data]. *)
Definition ovl_copy_up_data (old : string) (len : Z) : M OS string :=
  if (len =? 0)%Z then mret EmptyString
  else
    _ ← vfs_call;
    _ ← vfs_call;
    r ← attempt vfs_call;
    data ← match r with
           | inr _ => mret (GoString.take (Z.to_nat len) old)
           | inl _ => splice_loop (String.length old) len old EmptyString
           end;
    _ ← vfs_call;
    mret data.

(** [ovl_set_attr]; the time stamps are set as far as that works. *)
Definition ovl_set_attr (stat new : rinode) : M OS rinode :=
  new ← (if is_lnk_type (ri_type stat) then mret new else _ ← vfs_call; mret (set_mode (ri_mode stat) new));
  _ ← vfs_call;
  let new := set_owner (ri_uid stat) (ri_gid stat) new in
  r ← attempt vfs_call;
  mret (match r with inl _ => new | inr _ => set_times (ri_atime stat) (ri_mtime stat) new end).

(** [ovl_set_origin], through [ovl_check_setxattr]. *)
Definition ovl_set_origin (p : path) (new : rinode) : M OS rinode :=
  s ← get;
  if ofs_noxattr (os_ofs s) then mret new
  else _ ← vfs_call; mret (set_xattr OVL_XATTR_ORIGIN (encode_fh p) new).

(** [ovl_set_impure]. *)
Definition ovl_set_impure (p : path) : M OS () :=
  s ← get;
  if bool_decide (p ∈ os_impure s) then mret tt
  else
    _ ← (if ofs_noxattr (os_ofs s) then mret tt
         else vfs (λ s, os_set_upper (alter (set_xattr OVL_XATTR_IMPURE "y") p (os_upper s)) s));
    modify (λ s, os_set_impure ({[p]} ∪ os_impure s) s).

(** [ovl_set_timestamps] on a directory, as far as that works. *)
Definition restore_times (p : path) (pstat : rinode) : M OS () :=
  ignore_err (vfs (λ s, os_set_upper (alter (set_times (ri_atime pstat) (ri_mtime pstat)) p (os_upper s)) s)).

(** [struct ovl_copy_up_ctx]: the entry, its parent, what there is to copy. *)
Record ovl_copy_up_ctx := mkCtx {
  cx_parent : path;
  cx_dentry : path;
  cx_stat : rinode;
  cx_pstat : rinode;
  cx_tmpfile : bool;
  cx_origin : bool;
}.

(** [ovl_copy_up_inode]: fills the temporary inode.  The type carries the data
    of a regular file, cut to the size of [stat]. *)
Definition stat_size (f : ftype) (flags : Z) : Z :=
  match f with
  | S_IFREG data => if has flags O_TRUNC then 0 else Z.of_nat (String.length data)
  | _ => 0
  end.
Definition ovl_copy_up_inode (c : ovl_copy_up_ctx) (size : Z) (temp : rinode) : M OS rinode :=
  temp ← match ri_type (cx_stat c) with
         | S_IFREG data => d ← ovl_copy_up_data data size; mret (set_type (S_IFREG d) temp)
         | _ => mret temp
         end;
  temp ← ovl_copy_xattr (cx_stat c) temp;
  temp ← ovl_set_attr (cx_stat c) temp;
  if cx_origin c then ovl_set_origin (cx_dentry c) temp else mret temp.

(** The inode [ovl_get_tmpfile] creates. *)
Definition new_temp (f : ftype) : rinode :=
  mkReal (match f with S_IFREG _ => S_IFREG EmptyString | f => f end) 0 0 0 0 0 1 false ∅.

(** [ovl_copy_up_locked]: a temporary inode is created, filled and then linked
    or renamed to its place; on an error it is removed again. *)
Definition ovl_copy_up_locked (c : ovl_copy_up_ctx) (size : Z) : M OS () :=
  _ ← vfs_call;
  _ ← vfs (λ s, if cx_tmpfile c then s else os_set_temps (S (os_temps s)) s);
  defer_on_error
    (temp ← ovl_copy_up_inode c size (new_temp (ri_type (cx_stat c)));
     (** [ovl_install_temp] and [ovl_inode_update]. *)
     _ ← vfs_call;
     vfs (λ s, os_set_upper (<[cx_dentry c := temp]> (os_upper s))
                 (if cx_tmpfile c then s else os_set_temps (pred (os_temps s)) s)))
    (if cx_tmpfile c then mret tt else ignore_err (vfs (λ s, os_set_temps (pred (os_temps s)) s))).

(** [ovl_index_all] and [ovl_need_index]. *)
Definition ovl_index_all (s : OS) : bool :=
  cf_nfs_export (ofs_config (os_ofs s)) && cf_index (ofs_config (os_ofs s)).
Definition ovl_need_index (s : OS) (p : path) : bool :=
  match ovl_dentry_lower s p, ofs_indexdir (os_ofs s) with
  | Some lower, Some _ => ovl_index_all s || (negb (is_dir_type (ri_type lower)) && (1 <? ri_nlink lower))
  | _, _ => false
  end.

(** [ovl_do_copy_up]. *)
Definition ovl_do_copy_up (parent p : path) (stat pstat : rinode) (flags : Z) : M OS () :=
  s ← get;
  if ovl_need_index s p then copy_up_indexed parent p flags
  else
    let origin := is_dir_type (ri_type stat) || (ri_nlink stat =? 1) in
    _ ← ovl_set_impure parent;
    let tmpfile := is_reg_type (ri_type stat) && ofs_tmpfile (os_ofs s) in
    (** Without [O_TMPFILE] the work directory and the target are locked first;
        [ovl_workdir_ok] made sure that this works. *)
    _ ← ovl_copy_up_locked (mkCtx parent p stat pstat tmpfile origin) (stat_size (ri_type stat) flags);
    _ ← restore_times parent pstat;
    modify (λ s, os_set_alias ({[p]} ∪ os_alias s) s).

(** [ovl_link_up]: a second name for an inode that is in the upper layer. *)
Definition ovl_link_up (parent p : path) (pstat : rinode) : M OS () :=
  _ ← ovl_set_impure parent;
  _ ← vfs_call;
  _ ← vfs_call;
  _ ← vfs_call;
  _ ← restore_times parent pstat;
  _ ← modify (λ s, os_set_alias ({[p]} ∪ os_alias s) s);
  vfs_call.

Definition null_pointer : string := "NULL pointer dereference".

(** [ovl_copy_up_one]. *)
Definition ovl_copy_up_one (parent p : path) (flags : Z) : M OS () :=
  s ← get;
  match ofs_workdir (os_ofs s) with
  | None => fail (OsError EROFS)
  | Some _ =>
      match ovl_dentry_lower s p, ovl_dentry_upper s parent with
      | Some stat, Some pstat =>
          _ ← vfs_call;
          _ ← vfs_call;
          _ ← (if is_lnk_type (ri_type stat) then vfs_call else mret tt);
          (** [ovl_copy_up_start]: the lock can be interrupted. *)
          _ ← vfs_call;
          s ← get;
          if ovl_dentry_has_upper_alias s p then mret tt
          else
            _ ← match ovl_dentry_upper s p with
                | None => ovl_do_copy_up parent p stat pstat flags
                | Some _ => mret tt
                end;
            s ← get;
            if ovl_dentry_has_upper_alias s p then mret tt else ovl_link_up parent p pstat
      | _, _ => panic null_pointer
      end
  end.

(** The inner loop of [ovl_copy_up_flags]: the topmost entry on the way to [p]
    that is not in the upper layer, with its parent. *)
Fixpoint topmost (fuel : nat) (s : OS) (next : path) : option (path * path) :=
  match fuel with
  | 0 => None
  | S fuel =>
      let parent := parent_dir next in
      match ovl_dentry_upper s parent with
      | Some _ => Some (parent, next)
      | None => topmost fuel s parent
      end
  end.

(** The outer loop, for an entry that is connected to the root. *)
Fixpoint copy_up_loop (fuel : nat) (p : path) (flags : Z) : M OS () :=
  s ← get;
  if bool_decide (is_Some (ovl_dentry_upper s p)) && ovl_dentry_has_upper_alias s p then mret tt
  else
    match fuel with
    | 0 => fail (Errorf "out of fuel")
    | S fuel =>
        match topmost (S (length p)) s p with
        | None => fail (Errorf "out of fuel")
        | Some (parent, next) => _ ← ovl_copy_up_one parent next flags; copy_up_loop fuel p flags
        end
    end.
(** [ovl_copy_up_flags]: every round copies one entry of the path. *)
Definition ovl_copy_up_flags (p : path) (flags : Z) : M OS () := copy_up_loop (S (length p)) p flags.
(** [ovl_copy_up]. *)
Definition ovl_copy_up (p : path) : M OS () := ovl_copy_up_flags p 0.

(** ** Opening *)

(** [ovl_want_write]: the mount of the upper layer, which there may be none of. *)
Definition ovl_want_write : M OS () :=
  s ← get;
  match ofs_upper (os_ofs s) with None => panic null_pointer | Some _ => vfs_call end.

(** [ovl_open_need_copy_up]. *)
Definition ovl_open_need_copy_up (s : OS) (p : path) (flags : Z) : bool :=
  if cf_simp (ofs_config (os_ofs s)) then true
  else if bool_decide (is_Some (ovl_dentry_upper s p)) && ovl_dentry_has_upper_alias s p then false
  else if match ovl_dentry_real s p with Some i => special_file (ri_type i) | None => false end then false
  else if negb (has (OPEN_FMODE flags) FMODE_WRITE) && negb (has flags O_TRUNC) then false
  else true.

(** [ovl_open_maybe_copy_up]. *)
Definition ovl_open_maybe_copy_up (p : path) (file_flags : Z) : M OS () :=
  s ← get;
  if ovl_open_need_copy_up s p file_flags then
    _ ← ovl_want_write;
    ovl_copy_up_flags p file_flags
  else mret tt.

(** What [ovl_d_real] answers: an entry of the upper or of the lower layer, the
    entry of the overlay itself, or none; also the inode the caller asks for. *)
Inductive rdentry := RUpper (p : path) | RLower (p : path) | RSelf (p : path) | RNull.

#[export] Instance rdentry_eq_dec : EqDecision rdentry.
Proof. solve_decision. Defined.

(** [ovl_check_append_only]. *)
Definition ovl_check_append_only (i : rinode) (flag : Z) : M OS () :=
  if ri_append i then
    _ ← guard_err (negb (negb (Z.land flag O_ACCMODE =? 0)%Z && negb (has flag O_APPEND))) (OsError EPERM);
    guard_err (negb (has flag O_TRUNC)) (OsError EPERM)
  else mret tt.

(** The label [upper] of [ovl_d_real]. *)
Definition real_upper (p : path) (inode : option rdentry) (open_flags : Z) : M OS (option rdentry) :=
  s ← get;
  match ovl_dentry_upper s p with
  | Some i =>
      match inode with
      | None => _ ← ovl_check_append_only i open_flags; mret (Some (RUpper p))
      | Some x => mret (if bool_decide (x = RUpper p) then Some (RUpper p) else None)
      end
  | None => mret None
  end.

(** The label [lower] of [ovl_d_real], for lower layers that are no overlays
    themselves; [once] is true if [upper] may still be tried.  The warning at
    the end answers the entry of the overlay. *)
Definition real_lower (p : path) (inode : option rdentry) (open_flags : Z) (once : bool) : M OS rdentry :=
  s ← get;
  match ovl_dentry_lower s p with
  | None =>
      if once then
        r ← real_upper p inode open_flags;
        mret (default (RSelf p) r)
      else mret (RSelf p)
  | Some _ =>
      mret (match inode with
            | None => RLower p
            | Some x => if bool_decide (x = RLower p) then RLower p else RSelf p
            end)
  end.

(** [ovl_d_real]. *)
Definition ovl_d_real (p : path) (inode : option rdentry) (open_flags flags : Z) : M OS rdentry :=
  s ← get;
  match ovl_dentry_real s p with
  | None => panic null_pointer
  | Some i =>
      let copy :=
        _ ← ovl_open_maybe_copy_up p open_flags;
        if has (OPEN_FMODE flags) FMODE_EXEC || has (OPEN_FMODE flags) FMODE_READ
        then real_lower p inode open_flags true
        else
          r ← real_upper p inode open_flags;
          match r with Some d => mret d | None => real_lower p inode open_flags true end in
      if cf_simp (ofs_config (os_ofs s)) && (is_lnk_type (ri_type i) || is_dir_type (ri_type i)) then copy
      else if has flags D_REAL_UPPER then
        mret (match ovl_dentry_upper s p with Some _ => RUpper p | None => RNull end)
      else if negb (is_reg_type (ri_type i)) then mret (RSelf p)
      else copy
  end.

(** [ovl_get_link]: following a symbolic link reads it where it is. *)
Definition ovl_get_link (p : path) : M OS string :=
  s ← get;
  match ovl_dentry_real s p with
  | Some i => _ ← vfs_call; match ri_type i with S_IFLNK target => mret target | _ => fail (OsError EINVAL) end
  | None => panic null_pointer
  end.
End CopyUp.
