(* ===== verification/OvlProps.v ===== *)
(** * Copy-up keeps files whole

    The invariant of a mounted overlay, and what opening does to its layers. *)

From S2P Require Import Prelude FileSys OvlOpts OvlMount OvlCopyUp.

(** ** Paths and their prefixes *)

Lemma parent_take (p : path) n : n < length p → parent_dir (take (S n) p) = take n p.
Proof.
  intros Hn. destruct (lookup_lt_is_Some_2 p n Hn) as [c Hc].
  rewrite (take_S_r p n c Hc). apply parent_dir_snoc.
Qed.
Lemma take_snoc_ne (p : path) n : n < length p → take (S n) p ≠ [].
Proof. destruct p; simpl; [lia|done]. Qed.

(** ** Values an operation computes without touching the layers *)

Definition set_faults f s := mkOS (os_ofs s) (os_upper s) (os_lower s) (os_alias s) (os_impure s) (os_temps s) f.
Lemma set_faults_id s : set_faults (os_faults s) s = s.
Proof. by destruct s. Qed.

(** [quiet m φ]: on an upper file system with attributes [m] only consumes faults; its
    results satisfy [φ], and it fails only if a fault was waiting, or with [veto]. *)
Definition consumed (s s' : OS) : Prop := ∃ f, f `suffix_of` os_faults s ∧ s' = set_faults f s.
Definition quiet (veto : Prop) {A : Type} (m : M OS A) (φ : A → Prop) : Prop :=
  ∀ s, ofs_noxattr (os_ofs s) = false →
       match m s with
       | (Ok a, s') => consumed s s' ∧ φ a
       | (Err _, s') => consumed s s' ∧ (os_faults s ≠ [] ∨ veto)
       | (Panic _, _) => False
       end.

Lemma consumed_refl s : consumed s s.
Proof. exists (os_faults s). by rewrite set_faults_id. Qed.
Lemma consumed_trans s1 s2 s3 : consumed s1 s2 → consumed s2 s3 → consumed s1 s3.
Proof. intros (f&Hf&->) (g&Hg&->). exists g. split; [by etrans|done]. Qed.
Lemma consumed_nil s1 s2 : consumed s1 s2 → os_faults s2 ≠ [] → os_faults s1 ≠ [].
Proof. intros (f&[l Hl]&->) Hf Hn. rewrite Hn in Hl. symmetry in Hl. by apply app_eq_nil in Hl as [_ ->]. Qed.

(** One call into a layer. *)
Lemma vfs_run f s :
  (∃ s1, consumed s s1 ∧ vfs f s = (Ok tt, f s1)) ∨
  (∃ s1, consumed s s1 ∧ vfs f s = (Err (OsError EIO), s1) ∧ os_faults s ≠ []).
Proof.
  unfold vfs. destruct (os_faults s) as [|x fs] eqn:Hf; [left; exists s; split; [apply consumed_refl|done]|].
  assert (consumed s (set_faults fs s)) as Hc by (exists fs; split; [rewrite Hf; by exists [x]|done]).
  destruct x; [left|right]; eexists; (split; [exact Hc|done]).
Qed.

Section Quiet.
Context (veto : Prop).
Lemma quiet_ret {A} (a : A) (φ : A → Prop) : φ a → quiet veto (mret a) φ.
Proof. intros Ha s _. split; [apply consumed_refl|done]. Qed.
Lemma quiet_fail {A} e (φ : A → Prop) : veto → quiet veto (fail e) φ.
Proof. intros Hv s _. split; [apply consumed_refl|by right]. Qed.
Lemma quiet_bind {A B} (m : M OS A) (k : A → M OS B) φ ψ :
  quiet veto m φ → (∀ a, φ a → quiet veto (k a) ψ) → quiet veto (m ≫= k) ψ.
Proof.
  intros Hm Hk s Hs. specialize (Hm s Hs). unfold mbind, M_bind.
  destruct (m s) as [[a|e|p] s1]; [|done|done]. destruct Hm as [Hc Ha].
  specialize (Hk a Ha s1 ltac:(by destruct Hc as (?&_&->))). destruct (k a s1) as [[b|e|p] s2]; [|..|done].
  - destruct Hk as [Hc' Hb]. split; [by eapply consumed_trans|done].
  - destruct Hk as [Hc' Hb]. split; [by eapply consumed_trans|]. destruct Hb; [left|by right].
    by eapply consumed_nil.
Qed.
Lemma quiet_weaken {A} (m : M OS A) (φ ψ : A → Prop) : quiet veto m φ → (∀ a, φ a → ψ a) → quiet veto m ψ.
Proof. intros Hm Hi s Hs. specialize (Hm s Hs). destruct (m s) as [[a|e|p] s1]; [|done|done]. by destruct Hm; auto. Qed.
Lemma quiet_and {A} (m : M OS A) (φ ψ : A → Prop) : quiet veto m φ → quiet veto m ψ → quiet veto m (λ a, φ a ∧ ψ a).
Proof. intros H1 H2 s Hs. specialize (H1 s Hs). specialize (H2 s Hs). destruct (m s) as [[a|e|p] s1]; [|done|done]. by destruct H1, H2. Qed.
Lemma quiet_vfs_call : quiet veto vfs_call (λ _, True).
Proof.
  intros s _. destruct (vfs_run (λ s, s) s) as [(s1&Hc&Hr)|(s1&Hc&Hr&Hf)]; unfold vfs_call; rewrite Hr; [done|].
  split; [done|by left].
Qed.
Lemma quiet_attempt {A} (m : M OS A) (φ : A → Prop) :
  quiet veto m φ → quiet veto (attempt m) (λ r, match r with inl _ => True | inr a => φ a end).
Proof. intros Hm s Hs. specialize (Hm s Hs). unfold attempt. destruct (m s) as [[a|e|p] s1]; [done| |done]. by destruct Hm. Qed.
Lemma quiet_get {A} (k : OS → M OS A) φ : (∀ s, ofs_noxattr (os_ofs s) = false → quiet veto (k s) φ) → quiet veto (s ← get; k s) φ.
Proof. intros Hk s Hs. exact (Hk s Hs s Hs). Qed.
End Quiet.

(** ** Copying one inode *)

(** The loop copies the first [len] bytes. *)
Lemma splice_loop_copies veto fuel len old new :
  (0 ≤ len)%Z → String.length old ≤ fuel →
  quiet veto (splice_loop fuel len old new) (λ d, d = new +:+ GoString.take (Z.to_nat len) old).
Proof.
  revert len old new. induction fuel as [|fuel IH]; intros len old new Hlen Hf; simpl.
  - apply quiet_ret. destruct old; [|simpl in Hf; lia]. destruct (Z.to_nat len); simpl; by rewrite app_nil_r_str.
  - destruct (Z.eqb_spec len 0) as [->|Hne]; [apply quiet_ret; simpl; by rewrite app_nil_r_str|].
    eapply quiet_bind; [apply quiet_vfs_call|]. intros [] _.
    set (n := Z.to_nat (len `min` OVL_COPY_UP_CHUNK_SIZE)).
    assert (0 < n ≤ Z.to_nat len) as Hn by (unfold n, OVL_COPY_UP_CHUNK_SIZE; lia).
    destruct (String.eqb_spec (GoString.take n old) EmptyString) as [He|He].
    + apply quiet_ret. destruct old as [|c old]; [|destruct n; [lia|done]].
      destruct (Z.to_nat len); simpl; by rewrite app_nil_r_str.
    + set (m := String.length (GoString.take n old)).
      assert (m = n `min` String.length old) as Hm by apply str_take_length.
      assert (0 < m) by (unfold m; destruct (GoString.take n old); [done|simpl; lia]).
      eapply quiet_weaken; [apply IH|].
      * lia.
      * rewrite str_drop_length. lia.
      * intros d ->. rewrite app_assoc_str. f_equal. rewrite (str_take_split (Z.to_nat len) m) by lia.
        replace (Z.to_nat (len - Z.of_nat m)) with (Z.to_nat len - m) by lia. f_equal.
        destruct (Nat.le_ge_cases n (String.length old)).
        -- by replace m with n by lia.
        -- rewrite (str_take_all n), (str_take_all m) by lia. done.
Qed.

(** [ovl_copy_up_data] gives the first [len] bytes, or fails. *)
Lemma copy_up_data_copies veto old len :
  (0 ≤ len)%Z → quiet veto (ovl_copy_up_data old len) (λ d, d = GoString.take (Z.to_nat len) old).
Proof.
  intros Hlen. unfold ovl_copy_up_data. destruct (Z.eqb_spec len 0) as [->|Hne]; [by apply quiet_ret|].
  do 2 (eapply quiet_bind; [apply quiet_vfs_call|]; intros [] _).
  eapply quiet_bind; [eapply quiet_attempt, quiet_vfs_call|]. intros r _.
  eapply (quiet_bind _ _ _ (λ d, d = GoString.take (Z.to_nat len) old)).
  - destruct r; [|by apply quiet_ret]. eapply quiet_weaken; [by apply splice_loop_copies|]. by intros d ->.
  - intros d ->. eapply quiet_bind; [apply quiet_vfs_call|]. intros [] _. by apply quiet_ret.
Qed.

Section CopyUpProps.
Context (security_inode_copy_up_xattr : string → Z) (encode_fh : path → string)
        (copy_up_indexed : path → path → Z → M OS ()).

(** The security module refuses to copy some attribute. *)
Definition veto : Prop :=
  ∃ n, (security_inode_copy_up_xattr n < 0)%Z ∧ security_inode_copy_up_xattr n ≠ (-95)%Z.

(** The attributes a copy gets: the private ones of the overlay are left out,
    and those the security module discards. *)
Definition copied (name : string) : Prop :=
  ovl_is_private_xattr name = false ∧ security_inode_copy_up_xattr name ≠ 1%Z.

(** [new] has the attributes of [old] that are copied. *)
Definition same_xattrs (old new : rinode) : Prop :=
  ∀ n, copied n → ri_xattrs new !! n = ri_xattrs old !! n.

(** The private attributes of a copy. *)
Definition plain_xattrs (i : rinode) : Prop :=
  ∀ n, ovl_is_private_xattr n = true → n ≠ OVL_XATTR_ORIGIN → n ≠ OVL_XATTR_IMPURE → ri_xattrs i !! n = None.

Lemma xattr_loop_copies l new :
  NoDup l.*1 →
  quiet veto (copy_xattr_loop security_inode_copy_up_xattr l new) (λ i,
    ri_type i = ri_type new ∧
    ∀ n, copied n → ri_xattrs i !! n = match list_to_map (M := gmap string string) l !! n with
                                       | Some v => Some v | None => ri_xattrs new !! n end).
Proof.
  revert new. induction l as [|[name v] l IH]; intros new Hnd; simpl.
  { apply quiet_ret. split; [done|]. intros n _. by rewrite lookup_empty. }
  apply NoDup_cons in Hnd as [Hni Hnd].
  assert (∀ i : rinode, ¬ copied name → (ri_type i = ri_type new ∧ ∀ n, copied n →
      ri_xattrs i !! n = match list_to_map (M := gmap string string) l !! n with
                         | Some v => Some v | None => ri_xattrs new !! n end) →
    ri_type i = ri_type new ∧ ∀ n, copied n →
      ri_xattrs i !! n = match (<[name := v]> (list_to_map l : gmap string string)) !! n with
                         | Some v => Some v | None => ri_xattrs new !! n end) as Hskip.
  { intros i Hc [Ht Hx]. split; [done|]. intros n Hn. rewrite (Hx n Hn), lookup_insert_ne; [done|]. by intros ->. }
  destruct (ovl_is_private_xattr name) eqn:Hp.
  { eapply quiet_weaken; [by apply IH|]. intros i. apply Hskip. intros [Hc _]. congruence. }
  eapply quiet_bind; [apply quiet_vfs_call|]. intros [] _.
  destruct (_ && _) eqn:Hv; [apply quiet_fail; exists name; lia|].
  destruct (Z.eqb_spec (security_inode_copy_up_xattr name) 1) as [He|He].
  { eapply quiet_weaken; [by apply IH|]. intros i. apply Hskip. by intros [_ Hc]. }
  eapply quiet_bind; [apply quiet_vfs_call|]. intros [] _.
  eapply quiet_weaken; [by apply IH|]. intros i [Ht Hx]. split; [done|]. intros n Hn. rewrite (Hx n Hn). simpl.
  destruct (decide (n = name)) as [->|Hne].
  - rewrite lookup_insert_eq, lookup_insert_eq.
    assert ((list_to_map l : gmap string string) !! name = None) as -> by by apply not_elem_of_list_to_map_1. done.
  - by rewrite !lookup_insert_ne by done.
Qed.

Lemma xattr_loop_private l : ∀ new,
  quiet veto (copy_xattr_loop security_inode_copy_up_xattr l new) (λ i, ∀ n, ovl_is_private_xattr n = true → ri_xattrs i !! n = ri_xattrs new !! n).
Proof.
  induction l as [|[name v] l IH]; intros new; simpl; [by apply quiet_ret|].
  destruct (ovl_is_private_xattr name) eqn:Hp; [apply IH|].
  eapply quiet_bind; [apply quiet_vfs_call|]. intros [] _.
  destruct (_ && _) eqn:Hv; [apply quiet_fail; exists name; lia|].
  destruct (_ =? 1)%Z; [apply IH|]. eapply quiet_bind; [apply quiet_vfs_call|]. intros [] _.
  eapply quiet_weaken; [apply IH|]. intros i Hx n Hn. rewrite (Hx n Hn). simpl. rewrite lookup_insert_ne; [done|]. congruence.
Qed.

Lemma copy_xattr_copies old new :
  ri_xattrs new = ∅ →
  quiet veto (ovl_copy_xattr security_inode_copy_up_xattr old new) (λ i, ri_type i = ri_type new ∧ same_xattrs old i ∧ plain_xattrs i).
Proof.
  intros Hnew. apply quiet_get. intros s ->. eapply quiet_bind; [apply quiet_vfs_call|]. intros [] _. case_bool_decide as He.
  { apply quiet_ret. split_and!; [done|intros n _; by rewrite Hnew, He|intros n _ _ _; by rewrite Hnew]. }
  eapply quiet_bind; [apply quiet_vfs_call|]. intros [] _.
  eapply quiet_weaken; [apply quiet_and; [apply xattr_loop_copies, NoDup_fst_map_to_list|apply xattr_loop_private]|].
  intros i [[Ht Hx] Hp]. split; [done|]. split.
  - intros n Hn. rewrite (Hx n Hn), list_to_map_to_list, Hnew, lookup_empty. by destruct (ri_xattrs old !! n).
  - intros n Hn _ _. by rewrite (Hp n Hn), Hnew, lookup_empty.
Qed.

(** What a complete copy of [lo] is; opening with [O_TRUNC] empties it. *)
Definition cut (flags : Z) (f : ftype) : ftype :=
  match f with S_IFREG d => if has flags O_TRUNC then S_IFREG EmptyString else S_IFREG d | f => f end.
Definition copy_of (flags : Z) (lo i : rinode) : Prop :=
  ri_type i = cut flags (ri_type lo) ∧ ri_uid i = ri_uid lo ∧ ri_gid i = ri_gid lo ∧
  (is_lnk_type (ri_type lo) = false → ri_mode i = ri_mode lo) ∧ same_xattrs lo i ∧ plain_xattrs i.

Lemma set_attr_sets stat new :
  quiet veto (ovl_set_attr stat new) (λ i, ri_type i = ri_type new ∧ ri_xattrs i = ri_xattrs new ∧
    ri_uid i = ri_uid stat ∧ ri_gid i = ri_gid stat ∧ (is_lnk_type (ri_type stat) = false → ri_mode i = ri_mode stat)).
Proof.
  unfold ovl_set_attr.
  eapply (quiet_bind _ _ _ (λ i, ri_type i = ri_type new ∧ ri_xattrs i = ri_xattrs new ∧
    (is_lnk_type (ri_type stat) = false → ri_mode i = ri_mode stat))).
  { destruct (is_lnk_type _); [by apply quiet_ret|].
    eapply quiet_bind; [apply quiet_vfs_call|]. intros [] _. by apply quiet_ret. }
  intros i (Ht&Hx&Hm). eapply quiet_bind; [apply quiet_vfs_call|]. intros [] _.
  eapply quiet_bind; [eapply quiet_attempt, quiet_vfs_call|]. intros r _. apply quiet_ret. by destruct r.
Qed.

(** Filling the temporary inode makes a complete copy, or fails. *)
Lemma copy_up_inode_copies c flags :
  quiet veto (ovl_copy_up_inode security_inode_copy_up_xattr encode_fh c (stat_size (ri_type (cx_stat c)) flags)
           (new_temp (ri_type (cx_stat c))))
    (copy_of flags (cx_stat c)).
Proof.
  unfold ovl_copy_up_inode.
  eapply (quiet_bind _ _ _ (λ i, ri_type i = cut flags (ri_type (cx_stat c)) ∧ ri_xattrs i = ∅)).
  { destruct (ri_type (cx_stat c)) as [d| | | |] eqn:Ht; try by apply quiet_ret.
    eapply quiet_bind; [apply copy_up_data_copies; simpl; destruct (has _ _); lia|].
    intros data ->. apply quiet_ret. simpl. destruct (has flags O_TRUNC); split; try done.
    by rewrite Nat2Z.id, str_take_all. }
  intros i [Ht Hx]. eapply quiet_bind; [by apply copy_xattr_copies|]. intros j (Hjt&Hjx&Hjp).
  eapply quiet_bind; [apply set_attr_sets|]. intros k (Hkt&Hkx&Hu&Hg&Hm).
  assert (copy_of flags (cx_stat c) k) as Hk.
  { split_and!; [congruence|done|done|done|intros n Hn; rewrite Hkx; by apply Hjx|intros n Hn Ho Hi; rewrite Hkx; by apply Hjp]. }
  destruct (cx_origin c); [|by apply quiet_ret]. apply quiet_get. intros s ->.
  eapply quiet_bind; [apply quiet_vfs_call|]. intros [] _. apply quiet_ret.
  destruct Hk as (?&?&?&?&Hs&Hpl). split_and!; try done; intros n Hn.
  - simpl. rewrite lookup_insert_ne; [by apply Hs|]. intros <-. destruct Hn as [Hp _]. discriminate Hp.
  - intros Ho Hi. simpl. rewrite lookup_insert_ne by done. by apply Hpl.
Qed.

(** ** The invariant of a mounted overlay *)

Definition is_dir_at (m : gmap path rinode) (p : path) : Prop := ∃ i, m !! p = Some i ∧ ri_type i = S_IFDIR.

(** The upper layer is writable and has its root; the layers are trees; an entry
    has an alias exactly if it is in the upper layer; a directory is not
    covered by anything else.  There is no index directory, and the upper file system has
    extended attributes. *)
Record wf_os (s : OS) : Prop := {
  wo_root : is_dir_at (os_upper s) [];
  wo_alias : ∀ p, p ∈ os_alias s ↔ is_Some (os_upper s !! p);
  wo_up : ∀ p i, os_upper s !! p = Some i → p ≠ [] → is_dir_at (os_upper s) (parent_dir p);
  wo_low : ∀ p i, os_lower s !! p = Some i → p ≠ [] → is_dir_at (os_lower s) (parent_dir p);
  wo_kind : ∀ p, is_dir_at (os_lower s) p → is_Some (os_upper s !! p) → is_dir_at (os_upper s) p;
  wo_index : ofs_indexdir (os_ofs s) = None;
  wo_work : is_Some (ofs_workdir (os_ofs s));
  wo_mnt : is_Some (ofs_upper (os_ofs s));
  wo_xattr : ofs_noxattr (os_ofs s) = false;
}.

(** What an inode of the upper layer keeps when others are copied up: all but
    its time stamps and the mark that it has copies below. *)
Definition kept (i j : rinode) : Prop :=
  ri_type j = ri_type i ∧ ri_mode j = ri_mode i ∧ ri_uid j = ri_uid i ∧ ri_gid j = ri_gid i ∧
  ri_append j = ri_append i ∧ ∀ n, n ≠ OVL_XATTR_IMPURE → ri_xattrs j !! n = ri_xattrs i !! n.

Lemma kept_up_refl i : kept i i.
Proof. by split_and!. Qed.
Lemma kept_up_trans i j k : kept i j → kept j k → kept i k.
Proof.
  intros (?&?&?&?&?&Hx) (?&?&?&?&?&Hy). split_and!; try congruence.
  intros n Hn. by rewrite Hy, Hx.
Qed.
Lemma kept_copy flags lo i j : copy_of flags lo i → kept i j → copy_of flags lo j.
Proof.
  intros (Ht&Hu&Hg&Hm&Hx&Hp) (Kt&Km&Ku&Kg&_&Kx). split_and!; try congruence.
  - intros Hl. rewrite Km. by apply Hm.
  - intros n Hn. rewrite Kx; [by apply Hx|]. intros ->. by destruct Hn.
  - intros n Hn Ho Hi. rewrite Kx by done. by apply Hp.
Qed.

(** From [s] to [s'], nothing but copies of lower entries on the way to [p] was
    added to the upper layer. *)
Record grown (p : path) (flags : Z) (s s' : OS) : Prop := {
  gr_ofs : os_ofs s' = os_ofs s;
  gr_lower : os_lower s' = os_lower s;
  gr_old : ∀ q i, os_upper s !! q = Some i → ∃ j, os_upper s' !! q = Some j ∧ kept i j;
  gr_new : ∀ q j, os_upper s' !! q = Some j → os_upper s !! q = None →
    q `prefix_of` p ∧ ∃ lo, os_lower s !! q = Some lo ∧ copy_of flags lo j;
  gr_faults : os_faults s' `suffix_of` os_faults s;
}.

Lemma grown_refl p flags s : grown p flags s s.
Proof.
  split; [done|done| | |].
  - intros q i Hi. exists i. split; [done|apply kept_up_refl].
  - intros q j Hj Hn. congruence.
  - done.
Qed.
Lemma grown_trans p flags s1 s2 s3 : grown p flags s1 s2 → grown p flags s2 s3 → grown p flags s1 s3.
Proof.
  intros [Ho Hl Hold Hnew Hf] [Ho' Hl' Hold' Hnew' Hf']. split; [congruence|congruence| | |by etrans].
  - intros q i Hi. destruct (Hold q i Hi) as (j&Hj&Hk). destruct (Hold' q j Hj) as (j'&Hj'&Hk').
    exists j'. split; [done|by eapply kept_up_trans].
  - intros q j Hj Hn. destruct (os_upper s2 !! q) as [i|] eqn:Hi.
    + destruct (Hnew q i Hi Hn) as (Hp&lo&Hlo&Hc). split; [done|]. exists lo. split; [done|].
      destruct (Hold' q i Hi) as (j'&Hj'&Hk). simplify_eq. by eapply kept_copy.
    + destruct (Hnew' q j Hj Hi) as (Hp&lo&Hlo&Hc). split; [done|]. exists lo. by rewrite <-Hl.
Qed.

(** The states reached from [s0] while [p] is copied up. *)
Definition reached (p : path) (flags : Z) (s0 s : OS) : Prop := wf_os s ∧ grown p flags s0 s.

Lemma reached_consumed p flags s0 s s' : reached p flags s0 s → consumed s s' → reached p flags s0 s'.
Proof. intros [[] []] (f&Hf&->). split; split; try done. by etrans. Qed.

(** Changing an upper inode in what it need not keep. *)
Lemma alter_lookup (f : rinode → rinode) (m : gmap path rinode) q p i :
  (∀ i, kept i (f i)) → m !! p = Some i → ∃ j, alter f q m !! p = Some j ∧ kept i j.
Proof.
  intros Hf Hi. destruct (decide (q = p)) as [->|Hne].
  - exists (f i). by rewrite lookup_alter_eq, Hi.
  - exists i. rewrite lookup_alter_ne by done. split; [done|apply kept_up_refl].
Qed.
Lemma alter_is_Some (f : rinode → rinode) (m : gmap path rinode) q p :
  is_Some (alter f q m !! p) ↔ is_Some (m !! p).
Proof.
  destruct (decide (q = p)) as [->|Hne]; [|by rewrite lookup_alter_ne].
  rewrite lookup_alter_eq. apply fmap_is_Some.
Qed.
Lemma alter_dir (f : rinode → rinode) (m : gmap path rinode) q p :
  (∀ i, kept i (f i)) → is_dir_at m p → is_dir_at (alter f q m) p.
Proof.
  intros Hf (i&Hi&Ht). destruct (alter_lookup f m q p i Hf Hi) as (j&Hj&Hk). exists j. split; [done|].
  destruct Hk as (->&_). done.
Qed.

Lemma reached_alter p flags s0 f q s :
  (∀ i, kept i (f i)) → reached p flags s0 s → reached p flags s0 (os_set_upper (alter f q (os_upper s)) s).
Proof.
  intros Hf [[Hroot Halias Hup Hlow Hkind Hix Hw Hm] Hg]. split; [split; simpl; try done|].
  - by apply alter_dir.
  - intros r. by rewrite alter_is_Some.
  - intros r i Hi Hr. apply alter_dir; [done|].
    destruct (proj1 (alter_is_Some f (os_upper s) q r) (ex_intro _ i Hi)) as [j Hj]. by eapply Hup.
  - intros r Hd [j Hj]%alter_is_Some. apply alter_dir; [done|]. by apply Hkind.
  - eapply grown_trans; [exact Hg|]. split; simpl; [done|done|by intros; apply alter_lookup| |done].
    intros r j Hj Hn. destruct (proj1 (alter_is_Some f (os_upper s) q r) (ex_intro _ j Hj)). congruence.
Qed.

Lemma reached_impure p flags s0 i s : reached p flags s0 s → reached p flags s0 (os_set_impure i s).
Proof. intros [[] []]. by split; split. Qed.
Lemma reached_temps p flags s0 n s : reached p flags s0 s → reached p flags s0 (os_set_temps n s).
Proof. intros [[] []]. by split; split. Qed.

(** A copy of a missing entry whose parent is in the upper layer. *)
Lemma reached_copy p flags s0 q lo i s :
  reached p flags s0 s → q ≠ [] → q `prefix_of` p → os_upper s !! q = None → is_Some (os_upper s !! parent_dir q) →
  os_lower s !! q = Some lo → copy_of flags lo i →
  reached p flags s0 (os_set_alias ({[q]} ∪ os_alias s) (os_set_upper (<[q := i]> (os_upper s)) s)).
Proof.
  intros [[Hroot Halias Hup Hlow Hkind Hix Hw Hm Hxa] Hg] Hq Hpre Hn Hpar Hlo Hc.
  assert (∀ r, is_dir_at (os_upper s) r → is_dir_at (<[q := i]> (os_upper s)) r) as Hdir.
  { intros r (j&Hj&Ht). exists j. rewrite lookup_insert_ne; [done|]. intros ->. congruence. }
  assert (is_dir_at (os_upper s) (parent_dir q)) as Hpd by (apply Hkind; [by eapply Hlow|done]).
  split; [split; simpl; try done|].
  - by apply Hdir.
  - intros r. rewrite elem_of_union, elem_of_singleton, Halias. destruct (decide (q = r)) as [->|Hne].
    + rewrite lookup_insert_eq. split; [by eexists|by left].
    + rewrite lookup_insert_ne by done. split; [intros [->|?]; done|tauto].
  - intros r j Hj Hr. apply Hdir. destruct (decide (q = r)) as [->|Hne]; [done|].
    rewrite lookup_insert_ne in Hj by done. by eapply Hup.
  - intros r (j&Hj&Hjt) [k Hk]. destruct (decide (q = r)) as [->|Hne].
    + exists i. rewrite lookup_insert_eq. split; [done|]. simplify_eq. destruct Hc as (Ht&_).
      rewrite Ht, Hjt. done.
    + apply Hdir, Hkind; [by exists j|]. rewrite lookup_insert_ne in Hk by done. by exists k.
  - eapply grown_trans; [exact Hg|]. split; simpl; [done|done| | |done].
    + intros r j Hj. exists j. rewrite lookup_insert_ne by congruence. split; [done|apply kept_up_refl].
    + intros r j Hj Hr. destruct (decide (q = r)) as [->|Hne]; [|rewrite lookup_insert_ne in Hj by done; congruence].
      rewrite lookup_insert_eq in Hj. simplify_eq. eauto.
Qed.

(** ** Copying up one entry *)

Section One.
Context (p : path) (flags : Z) (s0 : OS).

(** What an error is due to. *)
Definition blame : Prop := os_faults s0 ≠ [] ∨ veto.
(** An operation that failed has copied what it has copied. *)
Definition failed (e : error) (s : OS) : Prop := reached p flags s0 s ∧ blame.

(** A state of the run in which [q] is missing and its parent is there. *)
Definition missing (q : path) (lo : rinode) (s : OS) : Prop :=
  reached p flags s0 s ∧ os_upper s !! q = None ∧ is_Some (os_upper s !! parent_dir q) ∧ os_lower s !! q = Some lo.

Lemma missing_consumed q lo s s' : missing q lo s → consumed s s' → missing q lo s'.
Proof. intros (Hr&?&?&?) Hc. pose proof (reached_consumed _ _ _ _ _ Hr Hc).
  destruct Hc as (f&Hf&->). by split_and!. Qed.
Lemma missing_temps q lo n s : missing q lo s → missing q lo (os_set_temps n s).
Proof. intros (Hr&?&?&?). split_and!; try done. by apply reached_temps. Qed.
Lemma missing_alter q lo f r s :
  (∀ i, kept i (f i)) → missing q lo s → missing q lo (os_set_upper (alter f r (os_upper s)) s).
Proof.
  intros Hf (Hr&Hn&Hp&Hl). split_and!; [by apply reached_alter| |by apply alter_is_Some|done].
  apply eq_None_not_Some. intros Hs%alter_is_Some. by apply eq_None_not_Some in Hn.
Qed.

Lemma reached_blame s : reached p flags s0 s → os_faults s ≠ [] → blame.
Proof.
  intros [_ Hg] Hf. left. intros Hn. pose proof (gr_faults _ _ _ _ Hg) as [l Hl]. rewrite Hn in Hl.
  symmetry in Hl. apply app_eq_nil in Hl as [_ Hl]. by apply Hf.
Qed.

(** A call into a layer from a state in which [q] is missing. *)
Lemma missing_vfs q lo f (Q : () → OS → Prop) :
  (∀ s, missing q lo s → Q tt (f s)) → triple (missing q lo) (vfs f) Q (λ _ s, missing q lo s ∧ blame).
Proof.
  intros HQ s Hs. destruct (vfs_run f s) as [(s1&Hc&->)|(s1&Hc&->&Hf)].
  - apply HQ. by eapply missing_consumed.
  - split; [by eapply missing_consumed|]. by eapply reached_blame; [apply Hs|].
Qed.
Lemma missing_call q lo : triple (missing q lo) vfs_call (λ _, missing q lo) (λ _ s, missing q lo s ∧ blame).
Proof. by apply missing_vfs. Qed.
Lemma missing_quiet {A : Type} q lo (m : M OS A) φ :
  quiet veto m φ → triple (missing q lo) m (λ a s, missing q lo s ∧ φ a) (λ _ s, missing q lo s ∧ blame).
Proof.
  intros Hm s Hs. specialize (Hm s (wo_xattr _ (proj1 (proj1 Hs)))). destruct (m s) as [[a|e|x] s1]; [|..|done]; destruct Hm as [Hc Hx].
  - split; [by eapply missing_consumed|done].
  - split; [by eapply missing_consumed|]. destruct Hx; [|by right]. by eapply reached_blame; [apply Hs|].
Qed.
Lemma missing_failed q lo e s : missing q lo s ∧ blame → failed e s.
Proof. by intros [[] ?]. Qed.

Lemma set_impure_kept i : kept i (set_xattr OVL_XATTR_IMPURE "y" i).
Proof. split_and!; try done. intros n Hn. simpl. by rewrite lookup_insert_ne. Qed.
Lemma set_times_kept a m i : kept i (set_times a m i).
Proof. by split_and!. Qed.

Lemma set_impure_ok q lo r :
  triple (missing q lo) (ovl_set_impure r) (λ _, missing q lo) (λ _ s, missing q lo s ∧ blame).
Proof.
  apply triple_get. intros s Hs. destruct (bool_decide _); [by apply triple_ret; intros ? ->|].
  eapply (triple_bind _ _ _ (λ _, missing q lo)).
  - destruct (ofs_noxattr _); [by apply triple_ret; intros ? ->|].
    eapply (triple_conseq _ (missing q lo) _ _ (λ _, missing q lo)); [apply missing_vfs|by intros ? ->|done|by intros ? ? H; exact H].
    intros. apply missing_alter; [apply set_impure_kept|done].
  - intros []. apply triple_modify. intros t (Hr&?&?&?). split_and!; try done. by apply reached_impure.
Qed.

(** Restoring the time stamps never fails. *)
Lemma restore_times_run r pstat s :
  ∃ f s1, consumed s s1 ∧ restore_times r pstat s = (Ok tt, os_set_upper (alter f r (os_upper s1)) s1) ∧ ∀ i, kept i (f i).
Proof.
  unfold restore_times, ignore_err, attempt, mbind, M_bind.
  match goal with |- context [vfs ?f s] => destruct (vfs_run f s) as [(s1&Hc&->)|(s1&Hc&->&Hf)] end.
  - eexists _, s1. split_and!; [done|done|]. intros i. apply set_times_kept.
  - exists id, s1. split_and!; [done| |intros i; apply kept_up_refl]. rewrite alter_id by done. by destruct s1.
Qed.

(** The copy in its place: either all of it, or nothing. *)
Lemma copy_up_locked_ok q lo pstat tmp org :
  q ≠ [] → q `prefix_of` p →
  triple (missing q lo)
    (ovl_copy_up_locked security_inode_copy_up_xattr encode_fh (mkCtx (parent_dir q) q lo pstat tmp org)
       (stat_size (ri_type lo) flags))
    (λ _ s, ∃ s1 i, missing q lo s1 ∧ copy_of flags lo i ∧ s = os_set_upper (<[q := i]> (os_upper s1)) s1)
    (λ _ s, missing q lo s ∧ blame).
Proof.
  intros Hq Hpre. unfold ovl_copy_up_locked.
  eapply triple_bind; [apply missing_call|]. intros [].
  eapply (triple_bind _ _ _ (λ _, missing q lo)).
  { apply missing_vfs. intros s Hs. destruct (cx_tmpfile _); [done|by apply missing_temps]. }
  intros []. eapply (triple_defer _ _ _ _ (λ _ s, missing q lo s ∧ blame)).
  - eapply triple_bind; [apply missing_quiet, (copy_up_inode_copies (mkCtx (parent_dir q) q lo pstat tmp org) flags)|].
    intros i. intros s [Hs Hi]. revert s Hs. simpl in Hi |- *.
    change (triple (missing q lo) (_ ← vfs_call; vfs (λ s, os_set_upper (<[q := i]> (os_upper s))
      (if tmp then s else os_set_temps (pred (os_temps s)) s)))
      (λ _ s, ∃ s1 i, missing q lo s1 ∧ copy_of flags lo i ∧ s = os_set_upper (<[q := i]> (os_upper s1)) s1)
      (λ _ s, missing q lo s ∧ blame)).
    eapply triple_bind; [apply missing_call|]. intros []. apply missing_vfs. intros s Hs.
    exists (if tmp then s else os_set_temps (pred (os_temps s)) s), i.
    split_and!; [destruct tmp; [done|by apply missing_temps]|done|]. by destruct tmp.
  - intros e. simpl. destruct tmp; [by apply triple_ret|]. apply triple_ignore. intros s [Hs Hb].
    destruct (vfs_run (λ s, os_set_temps (pred (os_temps s)) s) s) as [(s1&Hc&->)|(s1&Hc&->&Hf)];
      (split; [|done]); [apply missing_temps|]; by eapply missing_consumed.
Qed.

Lemma do_copy_up_ok q lo pstat :
  q ≠ [] → q `prefix_of` p →
  triple (missing q lo)
    (ovl_do_copy_up security_inode_copy_up_xattr encode_fh copy_up_indexed (parent_dir q) q lo pstat flags)
    (λ _ s, reached p flags s0 s ∧ is_Some (os_upper s !! q)) failed.
Proof.
  intros Hq Hpre. apply triple_get. intros s Hs.
  assert (ovl_need_index s q = false) as ->.
  { unfold ovl_need_index. rewrite (wo_index _ (proj1 (proj1 Hs))). by destruct (ovl_dentry_lower s q). }
  eapply (triple_bind _ _ _ (λ _, missing q lo)).
  { eapply triple_conseq; [apply (set_impure_ok q lo)|by intros ? ->|done|apply missing_failed]. }
  intros []. eapply triple_bind.
  { eapply triple_conseq; [by apply copy_up_locked_ok|done|by intros a t Ht; exact Ht|apply missing_failed]. }
  intros [] t (s1&i&(Hr&Hn&Hp&Hl)&Hc&->). unfold mbind, M_bind.
  destruct (restore_times_run (parent_dir q) pstat (os_set_upper (<[q:=i]> (os_upper s1)) s1)) as (f&s2&(g&Hg&->)&->&Hf).
  unfold modify.
  pose proof (reached_copy _ _ _ _ _ _ _ Hr Hq Hpre Hn Hp Hl Hc) as Hnew.
  apply (reached_alter _ _ _ f (parent_dir q) _ Hf) in Hnew.
  pose proof (reached_consumed _ _ _ _ _ Hnew (ex_intro _ g (conj Hg eq_refl))) as Hdone.
  split; [exact Hdone|]. simpl. apply alter_is_Some. rewrite lookup_insert_eq. by eexists.
Qed.

Lemma copy_up_one_ok q lo :
  q ≠ [] → q `prefix_of` p →
  triple (missing q lo)
    (ovl_copy_up_one security_inode_copy_up_xattr encode_fh copy_up_indexed (parent_dir q) q flags)
    (λ _ s, reached p flags s0 s ∧ is_Some (os_upper s !! q)) failed.
Proof.
  intros Hq Hpre. apply triple_get. intros s Hs.
  pose proof Hs as ([Hwf _]&_&[pstat Hpar]&Hlo). destruct (wo_work _ Hwf) as [w Hw]. rewrite Hw.
  unfold ovl_dentry_lower, ovl_dentry_upper. rewrite Hlo, Hpar.
  assert (triple (missing q lo) vfs_call (λ _, missing q lo) failed) as Hcall.
  { eapply triple_conseq; [apply missing_call|done|done|apply missing_failed]. }
  apply (triple_conseq _ (missing q lo) _ _ (λ _ s, reached p flags s0 s ∧ is_Some (os_upper s !! q)) _
    failed); [|by intros ? ->|done|done].
  do 2 (eapply triple_bind; [exact Hcall|]; intros []).
  eapply (triple_bind _ _ _ (λ _, missing q lo)).
  { destruct (is_lnk_type _); [exact Hcall|by apply triple_ret]. }
  intros []. eapply triple_bind; [exact Hcall|]. intros [].
  apply triple_get. intros t Ht. pose proof Ht as ([Hwt _]&Hn&_).
  unfold ovl_dentry_has_upper_alias at 1. rewrite bool_decide_eq_false_2 by
    (rewrite (wo_alias _ Hwt), Hn; by intros []).
  rewrite Hn. eapply triple_bind.
  { eapply (triple_conseq _ (missing q lo)); [by apply (do_copy_up_ok q lo pstat)|by intros ? ->|by intros a u Hu; exact Hu|done]. }
  intros []. apply triple_get. intros u [Hu Hup].
  unfold ovl_dentry_has_upper_alias. rewrite bool_decide_eq_true_2 by (by apply (wo_alias _ (proj1 Hu))).
  apply triple_ret. by intros ? ->.
Qed.

(** ** Copying up a path *)

Lemma topmost_take s n :
  wf_os s → n ≤ length p → os_upper s !! take n p = None →
  ∃ k, k < n ∧ topmost (S n) s (take n p) = Some (take k p, take (S k) p) ∧
       is_Some (os_upper s !! take k p) ∧ os_upper s !! take (S k) p = None.
Proof.
  intros Hwf. induction n as [|n IH]; intros Hn Hnone.
  { destruct (wo_root _ Hwf) as (i&Hi&_). rewrite take_0 in Hnone. congruence. }
  change (topmost (S (S n)) s (take (S n) p)) with
    (match ovl_dentry_upper s (parent_dir (take (S n) p)) with
     | Some _ => Some (parent_dir (take (S n) p), take (S n) p)
     | None => topmost (S n) s (parent_dir (take (S n) p))
     end).
  rewrite parent_take by lia. unfold ovl_dentry_upper.
  destruct (os_upper s !! take n p) as [i|] eqn:Hi.
  - exists n. split_and!; [lia|done|by eexists|done].
  - destruct (IH ltac:(lia) eq_refl) as (k&Hk&Ht&Hup&Hno). exists k. split_and!; [lia|done|done|done].
Qed.

Lemma upper_closed s n k : wf_os s → is_Some (os_upper s !! take n p) → k ≤ n → n ≤ length p → is_Some (os_upper s !! take k p).
Proof.
  intros Hwf. revert k. induction n as [|n IH]; intros k Hs Hk Hn; [by replace k with 0 by lia|].
  destruct (decide (k = S n)) as [->|]; [done|]. apply IH; [|lia|lia].
  destruct Hs as [i Hi]. destruct (wo_up _ Hwf _ _ Hi) as (j&Hj&_); [apply take_snoc_ne; lia|].
  rewrite parent_take in Hj by lia. by eexists.
Qed.
Lemma lower_closed s n k i :
  wf_os s → os_lower s !! take n p = Some i → k ≤ n → n ≤ length p → is_Some (os_lower s !! take k p).
Proof.
  intros Hwf. revert k i. induction n as [|n IH]; intros k i Hs Hk Hn; [replace k with 0 by lia; by eexists|].
  destruct (decide (k = S n)) as [->|]; [by eexists|].
  destruct (wo_low _ Hwf _ _ Hs) as (j&Hj&_); [apply take_snoc_ne; lia|].
  rewrite parent_take in Hj by lia. apply (IH k j); [done|lia|lia].
Qed.

(** The loop ends, within its fuel, with the whole path in the upper layer. *)
Lemma copy_up_loop_ok fuel k :
  length p ≤ fuel + k → k ≤ length p →
  triple (λ s, reached p flags s0 s ∧ is_Some (ovl_dentry_real s p) ∧ is_Some (os_upper s !! take k p))
    (copy_up_loop security_inode_copy_up_xattr encode_fh copy_up_indexed fuel p flags)
    (λ _ s, reached p flags s0 s ∧ is_Some (os_upper s !! p)) failed.
Proof.
  revert k. induction fuel as [|fuel IH]; intros k Hf Hk; cbn [copy_up_loop]; apply triple_get;
    intros s (Hr&Hreal&Hup); pose proof (proj1 Hr) as Hwf; unfold ovl_dentry_upper, ovl_dentry_has_upper_alias.
  { assert (take k p = p) as Htk by (apply firstn_all2; lia). rewrite Htk in Hup.
    pose proof (proj2 (wo_alias _ Hwf p) Hup). rewrite !bool_decide_eq_true_2 by done. apply triple_ret. by intros ? ->. }
  destruct (os_upper s !! p) as [i|] eqn:Hi.
  { pose proof (proj2 (wo_alias _ Hwf p) (ex_intro _ i Hi)). rewrite !bool_decide_eq_true_2 by (by try eexists).
    apply triple_ret. intros ? ->. split; [done|by rewrite Hi]. }
  rewrite bool_decide_eq_false_2 by (by intros []). cbn [andb].
  assert (take (length p) p = p) as Hall by apply firstn_all.
  destruct (topmost_take s (length p) Hwf (le_n _)) as (n&Hn&Htop&Hpar&Hno); [by rewrite Hall|].
  rewrite Hall in Htop. rewrite Htop.
  assert (k ≤ n) as Hkn.
  { destruct (Nat.le_gt_cases k n) as [|Hlt]; [done|].
    destruct (upper_closed s k (S n) Hwf Hup ltac:(lia) Hk) as [j Hj]. congruence. }
  assert (is_Some (os_lower s !! take (S n) p)) as [lo Hlo].
  { destruct Hreal as [j Hj]. unfold ovl_dentry_real, ovl_dentry_upper in Hj. rewrite Hi in Hj.
    apply (lower_closed s (length p) (S n) j Hwf); [by rewrite Hall|lia|done]. }
  assert (missing (take (S n) p) lo s) as Hm by (split_and!; try done; by rewrite parent_take by lia).
  eapply triple_bind.
  { rewrite <-(parent_take p n) by lia.
    eapply (triple_conseq _ (missing (take (S n) p) lo));
      [apply (copy_up_one_ok (take (S n) p) lo); [by apply take_snoc_ne|apply prefix_take]|by intros ? ->|
       by intros a u Hu; exact Hu|done]. }
  intros []. eapply triple_conseq; [apply (IH (S n)); lia| |done|done].
  intros u [Hu Hup']. split_and!; [done| |done].
  destruct Hreal as [j Hj]. unfold ovl_dentry_real, ovl_dentry_upper, ovl_dentry_lower in *. rewrite Hi in Hj.
  rewrite (gr_lower _ _ _ _ (proj2 Hu)), <-(gr_lower _ _ _ _ (proj2 Hr)), Hj. by destruct (os_upper u !! p).
Qed.
End One.

(** ** Opening *)

Abbreviation d_real := (ovl_d_real security_inode_copy_up_xattr encode_fh copy_up_indexed).

Lemma reached_refl p flags s : wf_os s → reached p flags s s.
Proof. intros Hwf. split; [done|apply grown_refl]. Qed.

(** [m] copies [p] up from [s], or fails for a reason. *)
Definition copies_up (p : path) (flags : Z) (s : OS) (m : M OS ()) : Prop :=
  triple (reached p flags s) m (λ _ s', reached p flags s s' ∧ is_Some (os_upper s' !! p)) (failed p flags s).

Lemma copy_up_flags_ok p flags s :
  is_Some (ovl_dentry_real s p) →
  copies_up p flags s (ovl_copy_up_flags security_inode_copy_up_xattr encode_fh copy_up_indexed p flags).
Proof.
  intros Hreal. eapply triple_conseq; [apply (copy_up_loop_ok p flags s (S (length p)) 0); lia| |done|done].
  intros t Ht. split_and!; [done| |destruct (wo_root _ (proj1 Ht)) as (i&Hi&_); by exists i].
  destruct Hreal as [i Hi]. unfold ovl_dentry_real, ovl_dentry_upper, ovl_dentry_lower in *.
  rewrite (gr_lower _ _ _ _ (proj2 Ht)). destruct (os_upper t !! p) eqn:Ht'; [done|].
  destruct (os_upper s !! p) eqn:Hs; [|by rewrite Hi].
  destruct (gr_old _ _ _ _ (proj2 Ht) p _ Hs) as (j&Hj&_). congruence.
Qed.

(** With the option, opening copies up whatever the flags are. *)
Lemma maybe_copy_up_simp p flags s :
  wf_os s → cf_simp (ofs_config (os_ofs s)) = true → is_Some (ovl_dentry_real s p) →
  triple (λ t, t = s)
    (ovl_open_maybe_copy_up security_inode_copy_up_xattr encode_fh copy_up_indexed p flags)
    (λ _ s', reached p flags s s' ∧ is_Some (os_upper s' !! p)) (failed p flags s).
Proof.
  intros Hwf Hsimp Hreal. apply triple_get. intros ? ->. unfold ovl_open_need_copy_up. rewrite Hsimp.
  eapply (triple_bind _ _ _ (λ _, reached p flags s)).
  - apply triple_get. intros ? ->. destruct (wo_mnt _ Hwf) as [m Hm]. rewrite Hm. intros ? ->.
    destruct (vfs_run (λ s, s) s) as [(s1&Hc&Hr)|(s1&Hc&Hr&Hf)]; unfold vfs_call; rewrite Hr.
    + eapply reached_consumed; [by apply reached_refl|done].
    + split; [eapply reached_consumed; [by apply reached_refl|done]|by left].
  - intros []. by apply copy_up_flags_ok.
Qed.

(** Which entry [ovl_d_real] answers: the lower one wherever there is one. *)
Definition answered (s : OS) (p : path) : rdentry :=
  match os_lower s !! p with Some _ => RLower p | None => RUpper p end.

(** Opening with the option. *)
Lemma d_real_simp s p i flags :
  wf_os s → cf_simp (ofs_config (os_ofs s)) = true →
  ovl_dentry_real s p = Some i → special_file (ri_type i) = false →
  match d_real p None flags 0 s with
  | (Ok d, s') => reached p flags s s' ∧ is_Some (os_upper s' !! p) ∧ d = answered s p
  | (Err e, s') => reached p flags s s' ∧ (blame s ∨ ri_append <$> os_upper s' !! p = Some true ∧ flags ≠ 0%Z)
  | (Panic _, _) => False
  end.
Proof.
  intros Hwf Hsimp Hreal Hsp. unfold ovl_d_real, mbind at 1, M_bind at 1, get at 1. rewrite Hreal, Hsimp.
  assert (∀ m : M OS rdentry, (if true && (is_lnk_type (ri_type i) || is_dir_type (ri_type i)) then m
    else if has 0 D_REAL_UPPER then
      mret match ovl_dentry_upper s p with Some _ => RUpper p | None => RNull end
    else if negb (is_reg_type (ri_type i)) then mret (RSelf p) else m) = m) as ->.
  { intros m. by destruct (ri_type i). }
  pose proof (maybe_copy_up_simp p flags s Hwf Hsimp (ex_intro _ i Hreal) s eq_refl) as Hc.
  unfold mbind at 1, M_bind at 1. destruct (ovl_open_maybe_copy_up _ _ _ p flags s) as [[[]|e|x] s1]; [| |done].
  2: { destruct Hc as [Hr Hb]. split; [done|by left]. }
  destruct Hc as [Hr [j Hj]].
  change (has (OPEN_FMODE 0) FMODE_EXEC || has (OPEN_FMODE 0) FMODE_READ) with true. cbv iota.
  unfold real_lower, real_upper, answered, mbind, M_bind, get, ovl_dentry_lower, ovl_dentry_upper, mret, M_ret.
  rewrite (gr_lower _ _ _ _ (proj2 Hr)). destruct (os_lower s !! p) as [lo|]; [split_and!; [done|by eexists|done]|].
  rewrite Hj. unfold ovl_check_append_only. destruct (ri_append j) eqn:Ha.
  - unfold mbind, M_bind, guard_err. destruct (negb (_ && _)) eqn:H1; simpl.
    + destruct (negb (has flags O_TRUNC)) eqn:H2; simpl; [split_and!; [done|by eexists|done]|].
      split; [done|right]. rewrite Hj. split; [simpl; congruence|]. by intros ->.
    + split; [done|right]. rewrite Hj. split; [simpl; congruence|]. by intros ->.
  - simpl. split_and!; [done|by eexists|done].
Qed.

(** Without the option an entry is copied up if it is opened for writing. *)
Lemma maybe_copy_up_any p flags s :
  wf_os s → is_Some (ovl_dentry_real s p) →
  triple (λ t, t = s)
    (ovl_open_maybe_copy_up security_inode_copy_up_xattr encode_fh copy_up_indexed p flags)
    (λ _ s', reached p flags s s' ∧ (ovl_open_need_copy_up s p flags = true → is_Some (os_upper s' !! p)))
    (failed p flags s).
Proof.
  intros Hwf Hreal. apply triple_get. intros ? ->. destruct (ovl_open_need_copy_up s p flags).
  - eapply (triple_bind _ _ _ (λ _, reached p flags s)).
    + apply triple_get. intros ? ->. destruct (wo_mnt _ Hwf) as [m Hm]. rewrite Hm. intros ? ->.
      destruct (vfs_run (λ s, s) s) as [(s1&Hc&Hr)|(s1&Hc&Hr&Hf)]; unfold vfs_call; rewrite Hr.
      * eapply reached_consumed; [by apply reached_refl|done].
      * split; [eapply reached_consumed; [by apply reached_refl|done]|by left].
    + intros []. eapply triple_conseq; [by apply copy_up_flags_ok|done|by intros a t []|done].
  - apply triple_ret. intros ? ->. split; [by apply reached_refl|done].
Qed.

(** ** What a simplified image holds *)

(** [j] is the file [i] is: only time stamps, private attributes and those the
    security module discards may differ. *)
Definition same_file (i j : rinode) : Prop :=
  ri_type j = ri_type i ∧ ri_uid j = ri_uid i ∧ ri_gid j = ri_gid i ∧
  (is_lnk_type (ri_type i) = false → ri_mode j = ri_mode i) ∧ same_xattrs i j.

Lemma same_file_trans i j k : same_file i j → same_file j k → same_file i k.
Proof.
  intros (Ht&Hu&Hg&Hm&Hx) (Ht'&Hu'&Hg'&Hm'&Hx'). split_and!; try congruence.
  - intros Hl. rewrite Hm', Hm; [done|done|congruence].
  - intros n Hn. by rewrite Hx', Hx.
Qed.
Lemma kept_up_same i j : kept i j → same_file i j.
Proof. intros (?&?&?&?&?&Hx). split_and!; try done. intros n Hn. apply Hx. intros ->. by destruct Hn. Qed.
Lemma copy_same lo j : copy_of 0 lo j → same_file lo j.
Proof. intros (Ht&?&?&?&?&_). split; [|done]. rewrite Ht. by destruct (ri_type lo). Qed.

Lemma reached_real p s s' q i :
  reached p 0 s s' → ovl_dentry_real s q = Some i → ∃ j, ovl_dentry_real s' q = Some j ∧ same_file i j.
Proof.
  intros [_ [_ Hl Hold Hnew _]]. unfold ovl_dentry_real, ovl_dentry_upper, ovl_dentry_lower. rewrite Hl.
  destruct (os_upper s !! q) as [k|] eqn:Hs.
  - intros [= ->]. destruct (Hold q i Hs) as (j&Hj&Hk). exists j. rewrite Hj. split; [done|by apply kept_up_same].
  - intros Hi. destruct (os_upper s' !! q) as [j|] eqn:Hj.
    + destruct (Hnew q j Hj Hs) as (_&lo&Hlo&Hc). exists j. split; [done|]. simplify_eq. by apply copy_same.
    + exists i. split; [done|apply kept_up_same, kept_up_refl].
Qed.
Lemma reached_upper p q s s' i :
  reached p 0 s s' → is_Some (os_upper s' !! p) → q `prefix_of` p → ovl_dentry_real s q = Some i →
  ∃ j, os_upper s' !! q = Some j ∧ same_file i j.
Proof.
  intros Hr Hp [l Hq] Hi. destruct (reached_real _ _ _ _ _ Hr Hi) as (j&Hj&Hs). exists j. split; [|done].
  unfold ovl_dentry_real, ovl_dentry_upper in Hj.
  assert (is_Some (os_upper s' !! take (length q) p)) as [k Hk].
  { apply (upper_closed p s' (length p) (length q) (proj1 Hr)); [by rewrite firstn_all| |done].
    rewrite Hq, length_app. lia. }
  rewrite Hq, take_app_length in Hk. by rewrite Hk in Hj |- *.
Qed.

(** Opening a list of files, read-only, one after the other. *)
Definition open_all (ps : list path) : M OS () := for_each ps (λ p, _ ← d_real p None 0 0; mret tt).

Lemma open_all_cons p ps s d s1 : d_real p None 0 0 s = (Ok d, s1) → open_all (p :: ps) s = open_all ps s1.
Proof. intros Hd. unfold open_all. cbn [for_each]. unfold mbind, M_bind. by rewrite Hd. Qed.

Lemma open_all_ok ps s :
  ¬ veto → wf_os s → cf_simp (ofs_config (os_ofs s)) = true → os_faults s = [] →
  Forall (λ p, ∃ i, ovl_dentry_real s p = Some i ∧ special_file (ri_type i) = false) ps →
  ∃ s', open_all ps s = (Ok tt, s') ∧ wf_os s' ∧ os_lower s' = os_lower s ∧
    (∀ p q i, p ∈ ps → q `prefix_of` p → ovl_dentry_real s q = Some i →
       ∃ j, os_upper s' !! q = Some j ∧ same_file i j) ∧
    (∀ q i, os_upper s !! q = Some i → ∃ j, os_upper s' !! q = Some j ∧ same_file i j) ∧
    (∀ q, is_Some (os_upper s' !! q) → is_Some (os_upper s !! q) ∨ ∃ p, p ∈ ps ∧ q `prefix_of` p).
Proof.
  intros Hv. revert s. induction ps as [|p ps IH]; intros s Hwf Hsimp Hf Hps.
  { exists s. split_and!; [done|done|done| | |by left]; [by intros p q i []%not_elem_of_nil|].
    intros q i Hi. exists i. split; [done|apply kept_up_same, kept_up_refl]. }
  apply Forall_cons in Hps as [(i&Hi&Hsp) Hps]. pose proof (d_real_simp s p i 0 Hwf Hsimp Hi Hsp) as Hd.
  destruct (d_real p None 0 0 s) as [[d|e|x] s1] eqn:Hone; [| |done].
  2: { by destruct Hd as [_ [[Hb|Hb]|[_ Hb]]]. }
  destruct Hd as (Hr&Hup&_). pose proof Hr as [Hwf1 Hg].
  destruct (IH s1) as (s2&Hrun&Hwf2&Hl&Hin&Hold&Hout); [done|by rewrite (gr_ofs _ _ _ _ Hg)| | |].
  { destruct (gr_faults _ _ _ _ Hg) as [l Hl]. rewrite Hf in Hl. symmetry in Hl. by apply app_eq_nil in Hl as [_ ?]. }
  { eapply Forall_impl; [exact Hps|]. intros q (k&Hk&Hks). destruct (reached_real _ _ _ _ _ Hr Hk) as (j&Hj&Hs&_).
    exists j. split; [done|]. by rewrite Hs. }
  exists s2. rewrite (open_all_cons _ _ _ _ _ Hone). split_and!; [done|done|by rewrite Hl, (gr_lower _ _ _ _ Hg)| | |].
  - intros p' q k [->|Hp']%elem_of_cons Hq Hk.
    + destruct (reached_upper _ _ _ _ _ Hr Hup Hq Hk) as (j&Hj&Hs). destruct (Hold q j Hj) as (j'&Hj'&Hs').
      exists j'. split; [done|by eapply same_file_trans].
    + destruct (reached_real _ _ _ _ _ Hr Hk) as (j&Hj&Hs). destruct (Hin p' q j Hp' Hq Hj) as (j'&Hj'&Hs').
      exists j'. split; [done|by eapply same_file_trans].
  - intros q k Hk. destruct (gr_old _ _ _ _ Hg q k Hk) as (j&Hj&Hs). destruct (Hold q j Hj) as (j'&Hj'&Hs').
    exists j'. split; [done|]. by eapply same_file_trans; [apply kept_up_same|].
  - intros q Hq. destruct (Hout q Hq) as [[j Hj]|(p'&Hp'&Hpre)]; [|right; exists p'; split; [by right|done]].
    destruct (os_upper s !! q) eqn:Hs; [by left|]. right. exists p. split; [by left|].
    by destruct (gr_new _ _ _ _ Hg q j Hj Hs).
Qed.

(** C4. With the option [simp], and unless a call into a layer fails or the
    security module refuses, opening files read-only succeeds, and afterwards
    the upper layer alone, which is all a simplified image keeps, holds every
    file that was opened and every directory above it, with the contents,
    owners, modes and attributes they had; it keeps what it had, got nothing
    else, and the lower layers are as they were. *)
Theorem simp_accesses_suffice s ps :
  ¬ veto → wf_os s → cf_simp (ofs_config (os_ofs s)) = true → os_faults s = [] →
  Forall (λ p, ∃ i, ovl_dentry_real s p = Some i ∧ special_file (ri_type i) = false) ps →
  ∃ s', open_all ps s = (Ok tt, s') ∧ wf_os s' ∧ os_lower s' = os_lower s ∧
    (∀ p q i, p ∈ ps → q `prefix_of` p → ovl_dentry_real s q = Some i →
       ∃ j, os_upper s' !! q = Some j ∧ same_file i j) ∧
    (∀ q i, os_upper s !! q = Some i → ∃ j, os_upper s' !! q = Some j ∧ same_file i j) ∧
    (∀ q, is_Some (os_upper s' !! q) → is_Some (os_upper s !! q) ∨ ∃ p, p ∈ ps ∧ q `prefix_of` p).
Proof. apply open_all_ok. Qed.

(** C26. Copy-up is all or nothing, whatever fails: it ends, it does not crash,
    the mounted overlay keeps its invariant, and every entry the upper layer
    got is on the path to the file and is a complete copy of the lower one,
    emptied if the file is opened with [O_TRUNC]; times are not compared, and the
    overlay has no index and an upper file system with extended attributes.  If it succeeds, the file is
    in the upper layer; it fails only if a call fails or the security module
    refuses. *)
Theorem copy_up_all_or_nothing s p flags :
  wf_os s → is_Some (ovl_dentry_real s p) →
  match ovl_copy_up_flags security_inode_copy_up_xattr encode_fh copy_up_indexed p flags s with
  | (Ok _, s') => wf_os s' ∧ grown p flags s s' ∧ is_Some (os_upper s' !! p)
  | (Err _, s') => wf_os s' ∧ grown p flags s s' ∧ (os_faults s ≠ [] ∨ veto)
  | (Panic _, _) => False
  end.
Proof.
  intros Hwf Hreal. pose proof (copy_up_flags_ok p flags s Hreal s (reached_refl _ _ _ Hwf)) as Hc.
  destruct (ovl_copy_up_flags _ _ _ p flags s) as [[[]|e|x] s']; [by destruct Hc as [[]]|by destruct Hc as [[]]|done].
Qed.

(** The entries [ovl_d_real] may copy up: regular files, and with the option also
    directories and symbolic links. *)
Definition opens_real (s : OS) (i : rinode) : Prop :=
  is_reg_type (ri_type i) = true ∨ cf_simp (ofs_config (os_ofs s)) = true ∧ special_file (ri_type i) = false.

Lemma d_real_lower s p i lo flags d s' :
  wf_os s → ovl_dentry_real s p = Some i → is_reg_type (ri_type i) = true → os_lower s !! p = Some lo →
  d_real p None flags 0 s = (Ok d, s') →
  d = RLower p ∧ (has (OPEN_FMODE flags) FMODE_WRITE = true → is_Some (os_upper s' !! p)).
Proof.
  intros Hwf Hreal Hreg Hlo. unfold ovl_d_real, mbind at 1, M_bind at 1, get at 1. rewrite Hreal.
  assert (is_lnk_type (ri_type i) || is_dir_type (ri_type i) = false) as -> by by destruct (ri_type i).
  rewrite andb_false_r, Hreg. cbn [negb]. change (has 0 D_REAL_UPPER) with false. cbv iota.
  pose proof (maybe_copy_up_any p flags s Hwf (ex_intro _ i Hreal) s eq_refl) as Hc.
  unfold mbind at 1, M_bind at 1. destruct (ovl_open_maybe_copy_up _ _ _ p flags s) as [[[]|e|x] s1]; [|done|done].
  destruct Hc as [Hr Hup]. change (has (OPEN_FMODE 0) FMODE_EXEC || has (OPEN_FMODE 0) FMODE_READ) with true. cbv iota.
  unfold real_lower, mbind, M_bind, get, ovl_dentry_lower, mret, M_ret.
  rewrite (gr_lower _ _ _ _ (proj2 Hr)), Hlo. intros [= <- <-]. split; [done|]. intros Hw.
  destruct (ovl_open_need_copy_up s p flags) eqn:Hn; [by apply Hup|].
  unfold ovl_open_need_copy_up in Hn. rewrite Hreal, Hw in Hn. cbn in Hn.
  destruct (cf_simp _); [done|]. destruct (bool_decide _) eqn:Hb; [|by destruct (ri_type i)].
  apply bool_decide_eq_true in Hb as [k Hk]. destruct (gr_old _ _ _ _ (proj2 Hr) p k Hk) as (j&Hj&_). by eexists.
Qed.

(** C32. Opening a file answers the file of the lower layer whenever there is one,
    even if it is opened for writing and has therefore just been copied to the
    upper layer: what is written then goes to the layer of the image.  With
    the option the same holds of directories, so a listing misses what the
    other layers have.  The test that was meant to look at the flags of the
    open looks at those of the lookup. *)
Theorem open_answers_lower s p i lo flags d s' :
  wf_os s → ovl_dentry_real s p = Some i → opens_real s i → os_lower s !! p = Some lo →
  d_real p None flags 0 s = (Ok d, s') →
  d = RLower p ∧ (has (OPEN_FMODE flags) FMODE_WRITE = true → is_Some (os_upper s' !! p)).
Proof.
  intros Hwf Hreal [Hreg|[Hsimp Hsp]] Hlo Hrun; [by eapply d_real_lower|].
  pose proof (d_real_simp s p i flags Hwf Hsimp Hreal Hsp) as Hd. rewrite Hrun in Hd.
  destruct Hd as (_&Hup&->). unfold answered. by rewrite Hlo.
Qed.

(** C33. A symbolic link that is only followed stays behind: reading its target and
    opening the file it leads to does not bring the link to the upper layer,
    so the name under which the file was opened is missing in the simplified
    image. *)
Theorem followed_link_stays_behind s p q i s' target d :
  wf_os s → cf_simp (ofs_config (os_ofs s)) = true →
  os_upper s !! p = None → ¬ p `prefix_of` q →
  ovl_dentry_real s q = Some i → special_file (ri_type i) = false →
  (t ← ovl_get_link p; d ← d_real q None 0 0; mret (t, d)) s = (Ok (target, d), s') →
  os_upper s' !! p = None.
Proof.
  intros Hwf Hsimp Hn Hpre Hreal Hsp Hrun.
  assert (∃ s1, consumed s s1 ∧ d_real q None 0 0 s1 = (Ok d, s')) as (s1&Hc&Hd).
  { revert Hrun. unfold mbind at 1, M_bind at 1, ovl_get_link, mbind at 1, M_bind at 1, get at 1.
    destruct (ovl_dentry_real s p) as [k|]; [|done]. unfold vfs_call, mbind at 1, M_bind at 1.
    destruct (vfs_run (λ s, s) s) as [(s1&Hc&->)|(s1&Hc&->&_)]; [|done].
    destruct (ri_type k) as [x| |x|x|x]; try done. cbn. unfold mbind, M_bind.
    destruct (d_real q None 0 0 s1) as [[d'|e|y] s2] eqn:Hd; try done. intros [= <- <- <-]. by exists s1. }
  pose proof (reached_consumed _ _ _ _ _ (reached_refl q 0 s Hwf) Hc) as [Hwf1 _].
  destruct Hc as (f&_&->).
  pose proof (d_real_simp (set_faults f s) q i 0 Hwf1 Hsimp Hreal Hsp) as Hq. rewrite Hd in Hq.
  destruct Hq as (Hr&_&_). destruct (os_upper s' !! p) as [j|] eqn:Hj; [|done].
  by destruct (gr_new _ _ _ _ (proj2 Hr) p j Hj Hn).
Qed.

(** C34. A mount with the option but without an upper layer crashes as soon as a
    file, a directory or a link of it is opened. *)
Theorem simp_needs_upper s p i flags :
  ofs_upper (os_ofs s) = None → cf_simp (ofs_config (os_ofs s)) = true →
  ovl_dentry_real s p = Some i → special_file (ri_type i) = false →
  d_real p None flags 0 s = (Panic null_pointer, s).
Proof.
  intros Hu Hsimp Hreal Hsp. unfold ovl_d_real, mbind at 1, M_bind at 1, get at 1. rewrite Hreal, Hsimp.
  unfold ovl_open_maybe_copy_up, ovl_open_need_copy_up, ovl_want_write, mbind, M_bind, get, panic.
  destruct (ri_type i); try done; simpl; by rewrite ?Hsimp, ?Hu.
Qed.
End CopyUpProps.

(** ** Concrete mounts *)

(** The layers: a directory with two programs and a link to one of them. *)
Definition a_dir : rinode := mkReal S_IFDIR 493 0 0 1 1 2 false ∅.
Definition a_file (d : string) : rinode := mkReal (S_IFREG d) 420 0 0 1 1 1 false {[ "user.note" := "kept" ]}.
Definition a_link (t : string) : rinode := mkReal (S_IFLNK t) 511 0 0 1 1 1 false ∅.
Definition demo_lower : gmap path rinode :=
  {[ [] := a_dir; ["bin"] := a_dir; ["bin"; "dash"] := a_file "shell"; ["bin"; "ls"] := a_file "list";
     ["bin"; "sh"] := a_link "dash" ]}.

(** Mounting two directories, with an upper layer or without. *)
Definition demo_params : ovl_params := mkParams false false false false false.
Definition demo_backing : backing := mkBacking false 0 false false true true true.
Definition demo_tree : FS := mkFS {[ ["low"] := Dir; ["base"] := Dir; ["up"] := Dir; ["work"] := Dir ]} [].
Definition demo_mount (data : string) : ovl_fs :=
  ms_ofs (ovl_fill_super demo_params demo_backing [] (λ _ _, mret tt) (λ _ _, mret tt) (Some data)
            (mkMS demo_tree ∅ (mount_ofs demo_params))).2.
Definition simp_data : string := "lowerdir=/low:/base,upperdir=/up,workdir=/work,simp=on".
Definition demo_os (data : string) : OS :=
  mkOS (demo_mount data) {[ [] := a_dir ]} demo_lower {[ [] ]} ∅ 0 [].

Lemma demo_upper data p i : os_upper (demo_os data) !! p = Some i → p = [].
Proof. unfold demo_os. cbn [os_upper]. by intros [<- _]%lookup_singleton_Some. Qed.

Lemma demo_os_wf : wf_os (demo_os simp_data).
Proof.
  assert (∀ p i, demo_lower !! p = Some i → p ≠ [] → is_dir_at demo_lower (parent_dir p)) as Hlow.
  { intros p i Hp Hne. unfold demo_lower in Hp.
    repeat (apply lookup_insert_Some in Hp as [[<- <-]|[_ Hp]]; [try done; by exists a_dir|]).
    apply lookup_singleton_Some in Hp as [<- <-]. by exists a_dir. }
  split.
  - by exists a_dir.
  - intros p. simpl. rewrite elem_of_singleton. split; [intros ->; by exists a_dir|].
    intros [i Hi]. by apply (demo_upper simp_data p i).
  - intros p i Hi. by apply demo_upper in Hi as ->.
  - exact Hlow.
  - intros p _ [i Hi]. apply demo_upper in Hi as ->. by exists a_dir.
  - vm_compute. reflexivity.
  - exists ["work"; "work"]. vm_compute. reflexivity.
  - exists ["up"]. vm_compute. reflexivity.
  - by vm_compute.
Qed.

(** A security module that lets everything be copied, and a mount without index. *)
Definition allow_all : string → Z := λ _, 0%Z.
Definition demo_fh : path → string := λ p, GoString.join "/" p.
Definition no_index : path → path → Z → M OS () := λ _ _ _, fail (OsError EIO).

Lemma no_veto : ¬ veto allow_all.
Proof. intros (n&Hn&_). unfold allow_all in Hn. lia. Qed.

Lemma simp_accesses_suffice_witness :
  ∃ s' j, open_all allow_all demo_fh no_index [["bin"; "dash"]] (demo_os simp_data) = (Ok tt, s') ∧
    os_upper s' !! ["bin"; "dash"] = Some j ∧ ri_type j = S_IFREG "shell" ∧ os_upper s' !! ["bin"; "ls"] = None.
Proof.
  destruct (simp_accesses_suffice allow_all demo_fh no_index (demo_os simp_data) [["bin"; "dash"]])
    as (s'&Hrun&_&_&Hin&_&Hout).
  - exact no_veto.
  - exact demo_os_wf.
  - vm_compute. reflexivity.
  - reflexivity.
  - constructor; [|constructor]. exists (a_file "shell"). split; reflexivity.
  - destruct (Hin ["bin"; "dash"] ["bin"; "dash"] (a_file "shell")) as (j&Hj&Ht&_); [by left|done|done|].
    exists s', j. split_and!; [done|done|done|].
    destruct (os_upper s' !! ["bin"; "ls"]) as [k|] eqn:Hk; [|done].
    destruct (Hout ["bin"; "ls"]) as [[i Hi]|(p&Hp&l&Hl)]; [by eexists|discriminate Hi|].
    apply list_elem_of_singleton in Hp as ->. discriminate Hl.
Defined.

Lemma copy_up_all_or_nothing_witness :
  match ovl_copy_up_flags allow_all demo_fh no_index ["bin"; "dash"] 0 (demo_os simp_data) with
  | (Ok _, s') => is_Some (os_upper s' !! ["bin"; "dash"])
  | _ => False
  end.
Proof.
  pose proof (copy_up_all_or_nothing allow_all demo_fh no_index (demo_os simp_data) ["bin"; "dash"] 0 demo_os_wf) as Hc.
  destruct (ovl_copy_up_flags _ _ _ _ _ _) as [[[]|e|x] s'].
  - apply Hc. by eexists.
  - destruct Hc as (_&_&[Hf|Hv]); [by eexists|by destruct Hf|]. by apply no_veto in Hv.
  - apply Hc. by eexists.
Defined.

(** Opening for writing: the answer is the file of the image. *)
Lemma open_answers_lower_witness :
  ∃ s', ovl_d_real allow_all demo_fh no_index ["bin"; "ls"] None 1 0 (demo_os simp_data)
        = (Ok (RLower ["bin"; "ls"]), s') ∧ is_Some (os_upper s' !! ["bin"; "ls"]).
Proof.
  destruct (ovl_d_real allow_all demo_fh no_index ["bin"; "ls"] None 1 0 (demo_os simp_data)) as [[d|e|x] s'] eqn:Hrun.
  - destruct (open_answers_lower allow_all demo_fh no_index (demo_os simp_data) ["bin"; "ls"] (a_file "list")
      (a_file "list") 1 d s') as [-> Hup]; [exact demo_os_wf|reflexivity|by left|reflexivity|exact Hrun|].
    exists s'. split; [done|]. by apply Hup.
  - apply (f_equal fst) in Hrun. vm_compute in Hrun. discriminate Hrun.
  - apply (f_equal fst) in Hrun. vm_compute in Hrun. discriminate Hrun.
Defined.

Lemma followed_link_stays_behind_witness :
  ∃ d s', (t ← ovl_get_link ["bin"; "sh"]; d ← ovl_d_real allow_all demo_fh no_index ["bin"; "dash"] None 0 0;
           mret (t, d)) (demo_os simp_data) = (Ok ("dash", d), s') ∧ os_upper s' !! ["bin"; "sh"] = None.
Proof.
  destruct ((t ← ovl_get_link ["bin"; "sh"]; d ← ovl_d_real allow_all demo_fh no_index ["bin"; "dash"] None 0 0;
           mret (t, d)) (demo_os simp_data)) as [o s'] eqn:Hrun.
  assert (∃ d, o = Ok ("dash", d)) as [d ->].
  { apply (f_equal fst) in Hrun. vm_compute in Hrun. by eexists. }
  exists d, s'. split; [done|].
  apply (followed_link_stays_behind allow_all demo_fh no_index (demo_os simp_data) ["bin"; "sh"] ["bin"; "dash"]
    (a_file "shell") s' "dash" d); [exact demo_os_wf|vm_compute; reflexivity|reflexivity| |reflexivity|reflexivity|exact Hrun].
  intros [l Hl]. discriminate Hl.
Defined.

(** The options of a mount without an upper layer are accepted. *)
Lemma simp_needs_upper_witness :
  ovl_d_real allow_all demo_fh no_index ["bin"; "ls"] None 0 0 (demo_os "lowerdir=/low:/base,simp=on")
    = (Panic null_pointer, demo_os "lowerdir=/low:/base,simp=on").
Proof.
  apply (simp_needs_upper allow_all demo_fh no_index _ _ (a_file "list")); [vm_compute; reflexivity..|reflexivity|reflexivity].
Defined.
