(* ===== verification/OvlLookup.v ===== *)
(** * The overlay file system: looking names up

    [ovl_lookup] of [src/overlayfs/namei.c] and what it calls: which of the layers
    below an overlay a name of a directory leads to. *)

From S2P Require Import Prelude FileSys OvlOpts OvlMount OvlCopyUp.

(** ** The layers *)

(** The trees below the overlay, the upper one first, by the indices of
    [struct ovl_layer]; a whiteout is a character device with number 0.
    [ls_noxattr] is the field of [struct ovl_fs], [ls_impure] the flag
    [OVL_IMPURE] of upper directories. *)
Record LS := mkLS {
  ls_layers : list (gmap path rinode);
  ls_noxattr : bool;
  ls_impure : gset path;
  ls_faults : list fault;
}.

Definition node (s : LS) (i : nat) (p : path) : option rinode := t ← ls_layers s !! i; t !! p.

(** A call into a layer that reads it. *)
Definition vfs_read {A} (f : LS → A) : M LS A := λ s,
  match ls_faults s with
  | FailAt _ :: fs => (Err (OsError EIO), mkLS (ls_layers s) (ls_noxattr s) (ls_impure s) fs)
  | NoFault :: fs => (Ok (f s), mkLS (ls_layers s) (ls_noxattr s) (ls_impure s) fs)
  | [] => (Ok (f s), s)
  end.
(** A call into a layer that changes it. *)
Definition set_layer (i : nat) (t : gmap path rinode) (s : LS) : LS :=
  mkLS (<[i := t]> (ls_layers s)) (ls_noxattr s) (ls_impure s) (ls_faults s).
Definition vfs_write (i : nat) (f : gmap path rinode → gmap path rinode) : M LS () := λ s,
  match ls_faults s with
  | FailAt _ :: fs => (Err (OsError EIO), mkLS (ls_layers s) (ls_noxattr s) (ls_impure s) fs)
  | NoFault :: fs =>
      (Ok tt, set_layer i (f (default ∅ (ls_layers s !! i))) (mkLS (ls_layers s) (ls_noxattr s) (ls_impure s) fs))
  | [] => (Ok tt, set_layer i (f (default ∅ (ls_layers s !! i))) s)
  end.

Definition lookup_one_len (i : nat) (base : path) (name : string) : M LS (option rinode) :=
  vfs_read (λ s, node s i (base ++ [name])).
Definition vfs_getxattr (i : nat) (p : path) (name : string) : M LS (option string) :=
  vfs_read (λ s, n ← node s i p; ri_xattrs n !! name).

Definition OVL_XATTR_OPAQUE : string := "trusted.overlay.opaque".
Definition OVL_XATTR_REDIRECT : string := "trusted.overlay.redirect".
Definition WHITEOUT_DEV : Z := 0.

(** [ovl_is_whiteout]. *)
Definition ovl_is_whiteout (n : rinode) : bool :=
  match ri_type n with S_IFCHR rdev => (rdev =? WHITEOUT_DEV)%Z | _ => false end.

(** [ovl_check_dir_xattr]: a value that is longer does not fit the buffer. *)
Definition ovl_check_dir_xattr (i : nat) (p : path) (n : rinode) (name : string) : M LS bool :=
  if negb (is_dir_type (ri_type n)) then mret false
  else
    r ← attempt (vfs_getxattr i p name);
    mret (match r with inr (Some v) => String.eqb v "y" | _ => false end).
Definition ovl_is_opaquedir (i : nat) (p : path) (n : rinode) : M LS bool := ovl_check_dir_xattr i p n OVL_XATTR_OPAQUE.

(** [ovl_check_setxattr] of the entry of a layer: what an upper layer without attributes
    makes of it. *)
Definition ovl_check_setxattr (d : nat * path) (name value : string) (xerr : option error) : M LS () :=
  s ← get;
  if ls_noxattr s then match xerr with Some e => fail e | None => mret tt end
  else vfs_write d.1 (alter (set_xattr name value) d.2).

(** ** [struct ovl_lookup_data] *)

Record ovl_lookup_data := mkData {
  ld_name : string;
  ld_is_dir : bool;
  ld_opaque : bool;
  ld_stop : bool;
  ld_last : bool;
  ld_redirect : option string;
}.
Definition ld_set_is_dir d := mkData (ld_name d) true (ld_opaque d) (ld_stop d) (ld_last d) (ld_redirect d).
Definition ld_set_opaque d := mkData (ld_name d) (ld_is_dir d) true (ld_stop d) (ld_last d) (ld_redirect d).
Definition ld_set_stop b d := mkData (ld_name d) (ld_is_dir d) (ld_opaque d) b (ld_last d) (ld_redirect d).
Definition ld_set_last b d := mkData (ld_name d) (ld_is_dir d) (ld_opaque d) (ld_stop d) b (ld_redirect d).
Definition ld_set_redirect r d := mkData r (ld_is_dir d) (ld_opaque d) (ld_stop d) (ld_last d) (Some r).

(** The names of an absolute redirect are not empty. *)
Definition redirect_valid (v : string) : bool :=
  match v with
  | String _ rest => forallb (λ c, negb (String.eqb c EmptyString)) (GoString.split slash rest)
  | EmptyString => false
  end.
Definition is_absolute (v : string) : bool := GoString.has_prefix v "/".
Definition has_slash (v : string) : bool := match GoString.index_byte slash v with Some _ => true | None => false end.

(** [ovl_check_redirect]. *)
Definition ovl_check_redirect (i : nat) (p : path) (d : ovl_lookup_data) (prelen : nat) (post : string) : M LS ovl_lookup_data :=
  r ← attempt (vfs_getxattr i p OVL_XATTR_REDIRECT);
  match r with
  | inr (Some v) =>
      if String.eqb v EmptyString then mret d
      else
        r ← attempt (vfs_getxattr i p OVL_XATTR_REDIRECT);
        match r with
        | inr (Some v) =>
            if String.eqb v EmptyString then mret d
            else if is_absolute v then
              if redirect_valid v then mret (ld_set_redirect (v +:+ post) (ld_set_stop false d)) else mret d
            else if has_slash v then mret d
            else mret (ld_set_redirect (GoString.take prelen (ld_name d) +:+ v +:+ post) d)
        | _ => mret d
        end
  | _ => mret d
  end.

Section Lookup.
(** [ofs]: the mounted overlay; [weird] and [remote]: dentries with operations of
    their own; [namelen]: the longest name; [fh]: the file handle of a lower
    directory, if its file system has any.  [check_origin] finds the file a
    non-directory was copied from, [verify_origin] compares a stored handle, and
    [lookup_index] looks an inode up in the index. *)
Context (ofs : ovl_fs) (weird remote : nat → path → bool) (namelen : nat) (fh : nat * path → string)
        (check_origin : path → M LS (list (nat * path))) (verify_origin : path → nat * path → M LS ())
        (lookup_index : option path → nat * path → M LS (option path)).

(** [ovl_lookup_single]. *)
Definition ovl_lookup_single (i : nat) (base : path) (d : ovl_lookup_data) (name : string) (prelen : nat) (post : string) :
    M LS (option path * ovl_lookup_data) :=
  let last_element := String.eqb post EmptyString in
  let this := base ++ [name] in
  r ← attempt (lookup_one_len i base name);
  match r with
  | inl e => if bool_decide (e = OsError ENOENT ∨ e = OsError ENAMETOOLONG) then mret (None, d) else fail e
  | inr None => mret (None, d)
  | inr (Some n) =>
      if weird i this then fail (OsError EREMOTE)
      else if ovl_is_whiteout n then mret (None, ld_set_stop true (ld_set_opaque d))
      else if negb (is_dir_type (ri_type n)) then
        let d := ld_set_stop true d in
        if ld_is_dir d then mret (None, d) else mret (Some this, d)
      else
        let d := if last_element then ld_set_is_dir d else d in
        if ld_last d then mret (Some this, d)
        else
          opaque ← ovl_is_opaquedir i this n;
          if (opaque : bool) then
            let d := ld_set_stop true d in
            mret (Some this, if last_element then ld_set_opaque d else d)
          else
            d ← ovl_check_redirect i this d prelen post;
            mret (Some this, d)
  end.

(** The loop of [ovl_lookup_layer] over an absolute name: [rem] characters of it
    are left, counted from its end; it is a [size_t]. *)
Definition can_lookup (s : LS) (i : nat) (p : path) : bool :=
  match node s i p with Some n => is_dir_type (ri_type n) | None => false end.
Fixpoint layer_loop (fuel : nat) (i : nat) (base : option path) (d : ovl_lookup_data) (rem : Z) :
    M LS (option path * ovl_lookup_data) :=
  match fuel with
  | 0 => fail (Errorf "out of fuel")
  | S fuel =>
      s ← get;
      match base with
      | None => mret (None, d)
      | Some b =>
          if negb (can_lookup s i b) then mret (Some b, d)
          else
            let len := Z.of_nat (String.length (ld_name d)) in
            let off := Z.to_nat (len - rem) in
            let rest := GoString.drop off (ld_name d) in
            let this := match GoString.index_byte slash rest with Some k => GoString.take k rest | None => rest end in
            let next := GoString.drop (String.length this) rest in
            if negb (bool_decide (String.get (off - 1) (ld_name d) = Some slash)) then fail (OsError EIO)
            else
              '(found, d) ← ovl_lookup_single i b d this off next;
              if String.eqb next EmptyString then mret (found, d)
              else
                let rem := (rem - Z.of_nat (String.length this) - 1)%Z in
                if (rem <? 0)%Z || (Z.of_nat (String.length (ld_name d)) <=? rem)%Z then fail (OsError EIO)
                else layer_loop fuel i found d rem
      end
  end.
(** [ovl_lookup_layer]. *)
Definition ovl_lookup_layer (i : nat) (base : path) (d : ovl_lookup_data) : M LS (option path * ovl_lookup_data) :=
  if negb (is_absolute (ld_name d)) then ovl_lookup_single i base d (ld_name d) 0 EmptyString
  else
    let rem := (Z.of_nat (String.length (ld_name d)) - 1)%Z in
    s ← get;
    if can_lookup s i base then layer_loop (S (S (String.length (ld_name d)))) i (Some base) d rem
    else mret (None, d).

(** ** [ovl_lookup] *)

(** A dentry: its upper entry and its [lowerstack]. *)
Record ovl_dentry := mkDentry { de_upper : option path; de_lowers : list (nat * path) }.
#[export] Instance ovl_dentry_eq_dec : EqDecision ovl_dentry.
Proof. solve_decision. Defined.

(** [ovl_fix_origin]: with write access to the upper mount the handle of the lower
    directory is stored in the upper one, and the directory above is marked. *)
Definition ovl_fix_origin (lower upper : nat * path) : M LS () :=
  r ← attempt (vfs_getxattr upper.1 upper.2 OVL_XATTR_ORIGIN);
  match r with
  | inr (Some _) => mret tt
  | _ =>
      _ ← vfs_read (λ _, tt);
      _ ← ovl_check_setxattr upper OVL_XATTR_ORIGIN (fh lower) None;
      s ← get;
      let dir := parent_dir upper.2 in
      if bool_decide (dir ∈ ls_impure s) then mret tt
      else
        _ ← ovl_check_setxattr (upper.1, dir) OVL_XATTR_IMPURE "y" None;
        modify (λ s, mkLS (ls_layers s) (ls_noxattr s) ({[dir]} ∪ ls_impure s) (ls_faults s))
  end.

(** [ovl_verify_lower]. *)
Definition ovl_verify_lower : bool := cf_nfs_export (ofs_config ofs) && cf_index (ofs_config ofs).

(** The variables of the loop: the data, [stack], and the verified [origin]. *)
Record ovl_stack := mkStack { lk_data : ovl_lookup_data; lk_stack : list (nat * path); lk_origin : option (nat * path) }.

(** The loop over the lower layers of the parent.  [jump] is what an absolute
    redirect leads to, while the stack is not yet the one of the root; [roe] is
    the number of layers of the root. *)
Fixpoint lookup_lowers (roe : nat) (upper : option path) (jump : option (nat → ovl_stack → M LS ovl_stack))
    (l : list (nat * path)) (k : ovl_stack) : M LS ovl_stack :=
  match l with
  | [] => mret k
  | (idx, base) :: rest =>
      if ld_stop (lk_data k) then mret k
      else
        let follow := cf_redirect_follow (ofs_config ofs) in
        let d := ld_set_last (if follow then idx =? roe else bool_decide (rest = [])) (lk_data k) in
        '(this, d) ← ovl_lookup_layer idx base d;
        match this with
        | None => lookup_lowers roe upper jump rest (mkStack d (lk_stack k) (lk_origin k))
        | Some p =>
            let first := bool_decide (lk_stack k = []) in
            _ ← match upper with
                | Some u => s ← get; if first && negb (ls_noxattr s) then ovl_fix_origin (idx, p) (0, u) else mret tt
                | None => mret tt
                end;
            v ← match upper with
                | Some u =>
                    if first && ovl_verify_lower then
                      r ← attempt (verify_origin u (idx, p));
                      mret (match r with inl _ => Some false | inr _ => Some true end)
                    else mret None
                | None => mret None
                end;
            match v with
            | Some false => mret (mkStack d (lk_stack k) (lk_origin k))
            | _ =>
                let origin := match v with Some true => Some (idx, p) | _ => lk_origin k end in
                let k := mkStack d (lk_stack k ++ [(idx, p)]) origin in
                if bool_decide (is_Some (ld_redirect d)) && negb follow then fail (OsError EPERM)
                else if ld_stop d then mret k
                else
                  match ld_redirect d, jump with
                  | Some r, Some j => if is_absolute r then j idx k else lookup_lowers roe upper jump rest k
                  | _, _ => lookup_lowers roe upper jump rest k
                  end
            end
        end
  end.

(** What [ovl_lookup] finds: an entry of the dentry, negative if there is no upper
    one and the stack is empty. *)
Record ovl_found := mkFound {
  fo_upper : option path;
  fo_alias : bool;
  fo_lowers : list (nat * path);
  fo_opaque : bool;
  fo_redirect : option string;
}.
Definition fo_positive (f : ovl_found) : bool := bool_decide (is_Some (fo_upper f)) || negb (bool_decide (fo_lowers f = [])).

(** Its first part, the upper directory: the entry, the data, and the stack if it
    was copied up. *)
Definition lookup_upper (parent : ovl_dentry) (d : ovl_lookup_data) : M LS (option path * ovl_lookup_data * list (nat * path)) :=
  match de_upper parent with
  | None => mret (None, d, [])
  | Some base =>
      '(upper, d) ← ovl_lookup_layer 0 base d;
      match upper with
      | Some u =>
          if remote 0 u then fail (OsError EREMOTE)
          else if negb (ld_is_dir d) then
            stack ← check_origin u;
            mret (upper, d, stack)
          else mret (upper, d, [])
      | None => mret (upper, d, [])
      end
  end.
Definition ovl_lookup (root parent : ovl_dentry) (name : string) : M LS ovl_found :=
  if namelen <? String.length name then fail (OsError ENAMETOOLONG)
  else
    let follow := cf_redirect_follow (ofs_config ofs) in
    let d := mkData name false false false (if follow then false else bool_decide (de_lowers parent = [])) None in
    '(upper, d, stack) ← lookup_upper parent d;
    let at_root := match ld_redirect d with Some r => is_absolute r | None => false end in
    let roe := length (de_lowers root) in
    let poe := if at_root then de_lowers root else de_lowers parent in
    let jump := if at_root || bool_decide (parent = root) then None
                else Some (λ idx, lookup_lowers roe upper None (drop idx (de_lowers root))) in
    k ← lookup_lowers roe upper jump poe (mkStack d stack None);
    let origin := match lk_stack k with
                  | l :: _ => if negb (bool_decide (is_Some upper)) || negb (ld_is_dir (lk_data k)) then Some l else lk_origin k
                  | [] => lk_origin k
                  end in
    index ← match origin with
            | Some l =>
                if bool_decide (is_Some (ofs_indexdir ofs)) &&
                   (negb (ld_is_dir (lk_data k)) || (cf_nfs_export (ofs_config ofs) && cf_index (ofs_config ofs)))
                then lookup_index upper l else mret None
            | None => mret None
            end;
    mret (mkFound (match upper with Some u => Some u | None => index end) (bool_decide (is_Some upper)) (lk_stack k)
            (ld_opaque d) (ld_redirect d)).

(** [ovl_lower_positive] of an entry that has an upper file: whether a name below
    would appear without it. *)
Fixpoint lower_positive_loop (l : list (nat * path)) (name : string) : M LS bool :=
  match l with
  | [] => mret false
  | (idx, base) :: rest =>
      r ← attempt (lookup_one_len idx base name);
      match r with
      | inl e => if bool_decide (e = OsError ENOENT ∨ e = OsError ENAMETOOLONG) then lower_positive_loop rest name else mret true
      | inr None => lower_positive_loop rest name
      | inr (Some n) => mret (negb (ovl_is_whiteout n))
      end
  end.
Definition ovl_lower_positive (parent : ovl_dentry) (name : string) (f : ovl_found) : M LS bool :=
  if negb (fo_positive f) then mret (fo_opaque f)
  else if bool_decide (fo_upper f = None) then mret true
  else lower_positive_loop (de_lowers parent) name.
End Lookup.
