(* ===== verification/SimpImage.v ===== *)
(** * The image of a simplified container

    From the files a container opens to the layer of the image it is committed to: a
    container that is started with [simp] copies the files it opens to its upper layer
    ([src/overlayfs]); [Diff] of the driver makes the archive of that layer, and
    [ApplyDiff] unpacks it in the only layer of the new image. *)

From S2P Require Import Prelude FileSys OvlOpts OvlMount OvlCopyUp OvlProps OvlLookup Archive ArchiveDiff ArchiveProps OvlArchive OvlArchiveProps.

(** An inode of the upper layer as a file of an archive: the attribute with the capabilities
    is kept, other attributes are not; block devices, pipes and sockets are left out. *)
Definition capability : string := "security.capability".
Definition file_of (i : rinode) : option file :=
  let perm := Z.land (ri_mode i) 0xfff in
  let cap := ri_xattrs i !! capability in
  match ri_type i with
  | S_IFREG data => Some (mkFile KReg perm (ri_uid i) (ri_gid i) (0, 0)%Z data (ri_mtime i, 0%Z) cap)
  | OvlCopyUp.S_IFDIR => Some (mkFile KDir perm (ri_uid i) (ri_gid i) (0, 0)%Z EmptyString (0, 0)%Z None)
  | S_IFLNK target => Some (mkFile KSymlink 0x1ff (ri_uid i) (ri_gid i) (0, 0)%Z target (ri_mtime i, 0%Z) cap)
  | S_IFCHR rdev => Some (mkFile KChar perm (ri_uid i) (ri_gid i) (Z.land (Z.shiftr rdev 20) 0xfff, Z.land rdev 0xfffff) EmptyString (ri_mtime i, 0%Z) cap)
  | S_IFSPECIAL _ => None
  end.
Definition marked (kv : path * rinode) : bool :=
  is_dir_type (ri_type kv.2) && bool_decide (ri_xattrs kv.2 !! OVL_XATTR_OPAQUE = Some "y").
Definition upper_layer (m : gmap path rinode) : layer_dir := mkLayer (omap file_of m) (dom (filter (λ kv, marked kv = true) m)).

(** [f] is the file [i]. *)
Definition image_of (copied : string → Prop) (i : rinode) (f : file) : Prop :=
  match ri_type i with
  | S_IFREG data => fi_kind f = KReg ∧ fi_data f = data ∧ (copied capability → fi_cap f = ri_xattrs i !! capability)
  | OvlCopyUp.S_IFDIR => fi_kind f = KDir
  | S_IFLNK target => fi_kind f = KSymlink ∧ fi_data f = target
  | _ => False
  end ∧ fi_uid f = ri_uid i ∧ fi_gid f = ri_gid i ∧ (is_lnk_type (ri_type i) = false → fi_perm f = Z.land (ri_mode i) 0xfff).

Lemma land_range a n : (0 ≤ n)%Z → (0 ≤ Z.land a (Z.ones n) < 2 ^ n)%Z.
Proof. intros Hn. rewrite Z.land_ones by done. apply Z.mod_pos_bound. lia. Qed.
Lemma file_of_fits i f : file_of i = Some f → file_fits f.
Proof.
  pose proof (land_range (ri_mode i) 12 ltac:(done)) as Hp. change (Z.ones 12) with 0xfff%Z in Hp. change (2 ^ 12)%Z with 0x1000%Z in Hp.
  unfold file_of. destruct (ri_type i) as [d| |t|r|r]; intros [= <-]; split; try done. cbn. split; [|done].
  pose proof (land_range (Z.shiftr r 20) 12 ltac:(done)). pose proof (land_range r 20 ltac:(done)).
  change (Z.ones 12) with 0xfff%Z in *. change (Z.ones 20) with 0xfffff%Z in *. lia.
Qed.
Lemma file_of_dir i : ri_type i = OvlCopyUp.S_IFDIR → ∃ f, file_of i = Some f ∧ fi_kind f = KDir.
Proof. unfold file_of. intros ->. eauto. Qed.

Section Upper.
  Context (s : OS) (Hwf : wf_os s) (Hnames : ∀ q, is_Some (os_upper s !! q) → Forall name_fits q).
Lemma upper_lookup p : ly_tree (upper_layer (os_upper s)) !! p = os_upper s !! p ≫= file_of.
Proof. apply lookup_omap. Qed.
Lemma upper_dir p : is_dir_at (os_upper s) p → ∃ f, ly_tree (upper_layer (os_upper s)) !! p = Some f ∧ fi_kind f = KDir.
Proof. intros (i&Hi&Ht). rewrite upper_lookup, Hi. by apply file_of_dir. Qed.
Lemma upper_ok : dir_ok (ly_tree (upper_layer (os_upper s))).
Proof.
  constructor.
  - apply upper_dir, (wo_root _ Hwf).
  - intros p n f. rewrite upper_lookup. destruct (os_upper s !! (p ++ [n])) as [i|] eqn:Hi; [|done]. intros _. apply upper_dir.
    pose proof (wo_up _ Hwf _ _ Hi (child_ne p n)) as H. unfold parent_dir in H. by rewrite removelast_last in H.
  - intros p f. rewrite upper_lookup. destruct (os_upper s !! p) as [i|] eqn:Hi; [|done]. intros _. apply Hnames. eauto.
  - intros p f. rewrite upper_lookup. destruct (os_upper s !! p) as [i|] eqn:Hi; [|done]. apply file_of_fits.
Qed.
Lemma upper_marks q : q ∈ ly_opaque (upper_layer (os_upper s)) → ∃ d, ly_tree (upper_layer (os_upper s)) !! q = Some d ∧ fi_kind d = KDir.
Proof.
  unfold upper_layer. cbn [ly_opaque]. intros [i [Hi Hm]%map_lookup_filter_Some]%elem_of_dom. apply upper_dir. exists i. split; [done|].
  unfold marked in Hm. apply andb_true_iff in Hm as [Hm _]. cbn in Hm. by destruct (ri_type i).
Qed.
End Upper.
Lemma unpacked_image copied i j f now : special_file (ri_type i) = false → ri_type j = ri_type i → ri_uid j = ri_uid i → ri_gid j = ri_gid i →
  (is_lnk_type (ri_type i) = false → ri_mode j = ri_mode i) → (∀ n, copied n → ri_xattrs j !! n = ri_xattrs i !! n) → file_of j = Some f →
  image_of copied i (unpacked now f).
Proof.
  intros Hs Ht Hu Hg Hm Hx Hf. unfold file_of in Hf. rewrite Ht in Hf. unfold image_of, unpacked, whiteout.
  destruct (ri_type i) as [d| |t|r|r]; try done; injection Hf as <-; cbn in *; try rewrite Hm by done; split_and!; try done.
  intros Hc. exact (Hx _ Hc).
Qed.

(** C5. A simplified image has what its container used: when files are opened read-only in a
    container that was just started with [simp], the layer that [ApplyDiff] unpacks, from the
    archive that [Diff] makes of the upper layer, has every file that was opened and every
    directory above it, with their contents, owners, modes and capabilities, and nothing else. *)
Theorem simplified_layer_complete security encode indexed resolve now s ps root :
  ¬ veto security → wf_os s → cf_simp (ofs_config (os_ofs s)) = true → os_faults s = [] →
  (∀ q, is_Some (os_upper s !! q) → q = []) →
  Forall (λ p, Forall name_fits p ∧ ∃ i, ovl_dentry_real s p = Some i ∧ special_file (ri_type i) = false) ps →
  (∀ t p, dirs_to t p → resolve t p = inr p) → fi_kind root = KDir →
  ∃ s' ly, open_all security encode indexed ps s = (Ok tt, s') ∧
    Unpack resolve now (TarWithOptions (upper_layer (os_upper s'))) (mkLayer {[ [] := root ]} ∅) = inr ly ∧
    (∀ p q i, p ∈ ps → q `prefix_of` p → q ≠ [] → ovl_dentry_real s q = Some i → ∃ f, ly_tree ly !! q = Some f ∧ image_of (copied security) i f) ∧
    (∀ q, is_Some (ly_tree ly !! q) → q = [] ∨ ∃ p, p ∈ ps ∧ q `prefix_of` p).
Proof.
  intros Hv Hwf Hsimp Hf Hfresh Hps Hdirs Hroot.
  destruct (open_all_ok security encode indexed ps s) as (s'&Hrun&Hwf'&_&Hin&_&Hout); [done|done|done|done|eapply Forall_impl; [exact Hps|]; by intros p [_ ?]|].
  assert (∀ q, is_Some (os_upper s' !! q) → q = [] ∨ ∃ p, p ∈ ps ∧ q `prefix_of` p) as Hof.
  { intros q [H|H]%Hout; [left; by apply Hfresh|by right]. }
  assert (∀ q, is_Some (os_upper s' !! q) → Forall name_fits q) as Hnames.
  { intros q [->|(p&Hp&k&->)]%Hof; [constructor|]. rewrite Forall_forall in Hps. destruct (Hps _ Hp) as [Hn _]. by apply Forall_app in Hn as [? _]. }
  destruct (unpack_layer resolve now (upper_layer (os_upper s')) root) as (ly&Hu&Ht&_);
    [done|by apply upper_ok|by apply upper_marks|done|].
  exists s', ly. split_and!; [done|done| |].
  - intros p q i Hp Hq Hne Hi. destruct (Hin p q i Hp Hq Hi) as (j&Hj&Htj&Huj&Hgj&Hmj&Hxj).
    pose proof (upper_ok s' Hwf' Hnames) as Hok. assert (ly_tree (upper_layer (os_upper s')) !! q = file_of j) as Hl by by rewrite upper_lookup, Hj.
    assert (special_file (ri_type i) = false) as Hs.
    { rewrite Forall_forall in Hps. destruct (Hps _ Hp) as [_ (ip&Hip&Hsp)]. destruct (decide (q = p)) as [->|Hqp]; [congruence|].
      destruct (Hin p p ip Hp ltac:(done) Hip) as (jp&Hjp&Htp&_). assert (ly_tree (upper_layer (os_upper s')) !! p = file_of jp) as Hlp by by rewrite upper_lookup, Hjp.
      destruct (ancestor_dir _ q p Hok) as (d&Hd&Hk); [|done|done|].
      - rewrite Hlp. unfold file_of. rewrite Htp. destruct (ri_type ip); try done; eauto.
      - rewrite Hl in Hd. unfold file_of in Hd. rewrite Htj in Hd. destruct (ri_type i); try done. by injection Hd as <-. }
    destruct (file_of j) as [f|] eqn:Hfj; [|unfold file_of in Hfj; rewrite Htj in Hfj; by destruct (ri_type i)].
    exists (unpacked now f). rewrite Ht, decide_False, Hl by done. split; [done|]. by eapply unpacked_image.
  - intros q Hq. apply Hof. rewrite Ht in Hq. destruct (decide (q = [])) as [->|Hne]; [destruct (wo_root _ Hwf') as (i&->&_); eauto|].
    rewrite upper_lookup in Hq. destruct (os_upper s' !! q); [eauto|by destruct Hq].
Qed.

Lemma simplified_layer_complete_witness :
  ∃ s' ly f, open_all allow_all demo_fh no_index [["bin"; "dash"]; ["bin"; "sh"]] (demo_os simp_data) = (Ok tt, s') ∧
    Unpack walk (10, 0)%Z (TarWithOptions (upper_layer (os_upper s'))) (mkLayer {[ [] := dir_file ]} ∅) = inr ly ∧
    ly_tree ly !! ["bin"; "dash"] = Some f ∧ fi_data f = "shell" ∧ ly_tree ly !! ["bin"; "ls"] = None.
Proof.
  destruct (simplified_layer_complete allow_all demo_fh no_index walk (10, 0)%Z (demo_os simp_data) [["bin"; "dash"]; ["bin"; "sh"]] dir_file)
    as (s'&ly&Hrun&Hu&Hin&Hout).
  - exact no_veto.
  - exact demo_os_wf.
  - vm_compute. reflexivity.
  - reflexivity.
  - intros q [i Hi]. by apply demo_upper in Hi.
  - repeat constructor; eexists; (split; [reflexivity|done]).
  - apply walk_ok.
  - done.
  - destruct (Hin ["bin"; "dash"] ["bin"; "dash"] (a_file "shell")) as (f&Hf&(_&Hd&_)&_); [by left|done|done|done|].
    exists s', ly, f. split_and!; [done|done|done|done|]. apply eq_None_not_Some. intros [?|(p&Hp&k&Hk)]%Hout; [done|].
    apply elem_of_cons in Hp as [->|Hp]; [by injection Hk|]. apply list_elem_of_singleton in Hp as ->. by injection Hk.
Defined.
