(* ===== verification/OvlReaddir.v ===== *)
(** * The overlay file system: reading directories

    [src/overlayfs/readdir.c]: the entries of the directories of all layers are
    merged into one list, with a search tree for the names it has already. *)

From S2P Require Import Prelude FileSys OvlOpts OvlMount OvlCopyUp OvlLookup.

(** ** The tree of names *)

(** [strncmp] of [name] with [other] up to the length of [name]. *)
Fixpoint strncmp (name other : string) : comparison :=
  match name, other with
  | EmptyString, _ => Eq
  | String _ _, EmptyString => Gt
  | String c name, String c' other =>
      match N.compare (N_of_ascii c) (N_of_ascii c') with Eq => strncmp name other | r => r end
  end.

(** [struct rb_node]; the names are the entries of the cache. *)
Inductive rb_tree := RbLeaf | RbNode (l : rb_tree) (name : string) (r : rb_tree).

(** Where a search goes at a node. *)
Inductive direction := GoLeft | GoRight | Found.
Definition entry_cmp (name other : string) : direction :=
  match strncmp name other with
  | Gt => GoRight
  | Lt => GoLeft
  | Eq => if String.length name <? String.length other then GoLeft else Found
  end.

(** [ovl_cache_entry_find]. *)
Fixpoint ovl_cache_entry_find (t : rb_tree) (name : string) : bool :=
  match t with
  | RbLeaf => false
  | RbNode l x r =>
      match entry_cmp name x with
      | GoRight => ovl_cache_entry_find r name
      | GoLeft => ovl_cache_entry_find l name
      | Found => true
      end
  end.
(** [ovl_cache_entry_find_link] and [rb_link_node]: the tree with the name where the
    search for it ends, or nothing if it is there. *)
Fixpoint ovl_cache_entry_find_link (t : rb_tree) (name : string) : option rb_tree :=
  match t with
  | RbLeaf => Some (RbNode RbLeaf name RbLeaf)
  | RbNode l x r =>
      match entry_cmp name x with
      | GoRight => (λ r, RbNode l x r) <$> ovl_cache_entry_find_link r name
      | GoLeft => (λ l, RbNode l x r) <$> ovl_cache_entry_find_link l name
      | Found => None
      end
  end.

(** ** [struct ovl_cache_entry] and [struct ovl_readdir_data] *)

(** An entry, without its inode numbers. *)
Record ovl_cache_entry := mkEntry { ce_name : string; ce_is_upper : bool; ce_is_whiteout : bool }.
Definition ce_set_whiteout (b : bool) (e : ovl_cache_entry) := mkEntry (ce_name e) (ce_is_upper e) b.

(** [rd_maybe] is the chain of [first_maybe_whiteout], by the names of its entries. *)
Record ovl_readdir_data := mkRdd {
  rd_list : list ovl_cache_entry;
  rd_middle : list ovl_cache_entry;
  rd_root : rb_tree;
  rd_maybe : list string;
}.

Section Readdir.
(** [iterate]: what [iterate_dir] gives for a directory, the names and whether their
    type is [DT_CHR]; [rebalance]: [rb_insert_color]. *)
Context (iterate : LS → nat → path → list (string * bool)) (rebalance : rb_tree → rb_tree).

(** [ovl_cache_entry_new]. *)
Definition ovl_cache_entry_new (is_upper : bool) (name : string) (chr : bool) (d : ovl_readdir_data) :
    ovl_cache_entry * ovl_readdir_data :=
  (mkEntry name is_upper false,
   if chr then mkRdd (rd_list d) (rd_middle d) (rd_root d) (name :: rd_maybe d) else d).

(** [ovl_cache_entry_add_rb]. *)
Definition ovl_cache_entry_add_rb (is_upper : bool) (d : ovl_readdir_data) (name : string) (chr : bool) : ovl_readdir_data :=
  match ovl_cache_entry_find_link (rd_root d) name with
  | None => d
  | Some root =>
      let '(p, d) := ovl_cache_entry_new is_upper name chr d in
      mkRdd (rd_list d ++ [p]) (rd_middle d) (rebalance root) (rd_maybe d)
  end.

(** [list_move_tail] to the middle. *)
Definition is_named (name : string) (e : ovl_cache_entry) : Prop := ce_name e = name.
#[global] Instance is_named_dec name e : Decision (is_named name e).
Proof. unfold is_named. apply _. Defined.
Definition move_to_middle (name : string) (d : ovl_readdir_data) : ovl_readdir_data :=
  let l := rd_list d ++ rd_middle d in
  mkRdd (filter (λ e, ¬ is_named name e) (rd_list d))
    (filter (λ e, ¬ is_named name e) (rd_middle d) ++ filter (is_named name) l) (rd_root d) (rd_maybe d).

(** [ovl_fill_lowest]. *)
Definition ovl_fill_lowest (is_upper : bool) (d : ovl_readdir_data) (name : string) (chr : bool) : ovl_readdir_data :=
  if ovl_cache_entry_find (rd_root d) name then move_to_middle name d
  else
    let '(p, d) := ovl_cache_entry_new is_upper name chr d in
    mkRdd (rd_list d) (rd_middle d ++ [p]) (rd_root d) (rd_maybe d).

(** [ovl_fill_merge]. *)
Definition ovl_fill_merge (is_lowest is_upper : bool) (d : ovl_readdir_data) (e : string * bool) : ovl_readdir_data :=
  if is_lowest then ovl_fill_lowest is_upper d e.1 e.2 else ovl_cache_entry_add_rb is_upper d e.1 e.2.

(** [ovl_check_whiteouts]: the entries of the chain, the last one first. *)
Definition mark_whiteout (name : string) (b : bool) (d : ovl_readdir_data) : ovl_readdir_data :=
  let mark e := if decide (is_named name e) then ce_set_whiteout b e else e in
  mkRdd (mark <$> rd_list d) (mark <$> rd_middle d) (rd_root d) (rd_maybe d).
Fixpoint whiteouts_loop (i : nat) (p : path) (names : list string) (d : ovl_readdir_data) : M LS ovl_readdir_data :=
  match names with
  | [] => mret d
  | name :: names =>
      r ← attempt (lookup_one_len i p name);
      whiteouts_loop i p names
        (match r with
         | inr (Some n) => mark_whiteout name (ovl_is_whiteout n) d
         | inr None => mark_whiteout name false d
         | inl _ => d
         end)
  end.
Definition ovl_check_whiteouts (i : nat) (p : path) (d : ovl_readdir_data) : M LS ovl_readdir_data :=
  _ ← vfs_read (λ _, tt);
  whiteouts_loop i p (rd_maybe d) (mkRdd (rd_list d) (rd_middle d) (rd_root d) []).

(** [ovl_dir_read]. *)
Definition ovl_dir_read (is_lowest is_upper : bool) (i : nat) (p : path) (d : ovl_readdir_data) : M LS ovl_readdir_data :=
  _ ← vfs_read (λ _, tt);
  entries ← vfs_read (λ s, iterate s i p);
  let d := foldl (ovl_fill_merge is_lowest is_upper) (mkRdd (rd_list d) (rd_middle d) (rd_root d) []) entries in
  if bool_decide (rd_maybe d = []) then mret d else ovl_check_whiteouts i p d.

(** The real directories of a dentry, as [ovl_path_next] enumerates them, with
    whether each is the upper one. *)
Definition real_dirs (de : ovl_dentry) : list (bool * (nat * path)) :=
  match de_upper de with Some u => [(true, (0, u))] | None => [] end ++ (pair false <$> de_lowers de).

(** [ovl_dir_read_merged]: the entries of the lowest directory come first. *)
Fixpoint read_merged_loop (l : list (bool * (nat * path))) (d : ovl_readdir_data) : M LS ovl_readdir_data :=
  match l with
  | [] => mret d
  | (up, (i, p)) :: rest =>
      d ← ovl_dir_read (bool_decide (rest = [])) up i p d;
      read_merged_loop rest d
  end.
Definition ovl_dir_read_merged (de : ovl_dentry) : M LS (list ovl_cache_entry) :=
  d ← read_merged_loop (real_dirs de) (mkRdd [] [] RbLeaf []);
  mret (rd_middle d ++ rd_list d).

(** [ovl_iterate] of a merged directory: the names it emits. *)
Definition ovl_iterate (de : ovl_dentry) : M LS (list string) :=
  l ← ovl_dir_read_merged de;
  mret (ce_name <$> filter (λ e, ce_is_whiteout e = false) l).

(** [ovl_check_empty_dir]: the whiteouts of the upper directory that are left. *)
Fixpoint empty_loop (l : list ovl_cache_entry) : option (list ovl_cache_entry) :=
  match l with
  | [] => Some []
  | e :: l =>
      if ce_is_whiteout e then if ce_is_upper e then cons e <$> empty_loop l else empty_loop l
      else if String.eqb (ce_name e) "." || String.eqb (ce_name e) ".." then empty_loop l
      else None
  end.
Definition ovl_check_empty_dir (de : ovl_dentry) : M LS (list ovl_cache_entry) :=
  l ← ovl_dir_read_merged de;
  match empty_loop l with Some l => mret l | None => fail (OsError ENOTEMPTY) end.
End Readdir.
