(* ===== verification/OvlDirFile.v ===== *)
(** * The overlay file system: open directories

    The files of [src/overlayfs/readdir.c]: opening a directory of the overlay,
    reading it piece by piece, seeking and closing, and the cache of its entries
    that the open files share.  Allocations succeed; inode numbers are not
    modelled, but the lookup of one may fail. *)

From S2P Require Import Prelude FileSys OvlOpts OvlMount OvlCopyUp OvlLookup OvlReaddir.

(** ** The files of a directory *)

(** [struct ovl_dir_cache]. *)
Record ovl_dir_cache := mkCache { dc_refcount : Z; dc_version : Z; dc_entries : list ovl_cache_entry }.

(** [struct ovl_dir_file] of a [struct file] with its position [f_pos]; the cursor
    is an index into the entries of the cache, their number standing for the head
    of the list.  [od_out] are the names the caller was given. *)
Record ovl_dir_file := mkOd {
  od_is_real : bool;
  od_cache : option nat;
  od_cursor : nat;
  od_pos : Z;
  od_out : list string;
}.
Definition od_set_real b od := mkOd b (od_cache od) (od_cursor od) (od_pos od) (od_out od).
Definition od_set_cache c cur od := mkOd (od_is_real od) c cur (od_pos od) (od_out od).
Definition od_set_cursor cur od := mkOd (od_is_real od) (od_cache od) cur (od_pos od) (od_out od).
Definition od_set_pos p od := mkOd (od_is_real od) (od_cache od) (od_cursor od) p (od_out od).
Definition od_emit names od := mkOd (od_is_real od) (od_cache od) (od_cursor od) (od_pos od) (od_out od ++ names).
Definition od_next od := mkOd (od_is_real od) (od_cache od) (S (od_cursor od)) (od_pos od + 1) (od_out od).

(** A directory of the overlay: the layers, its dentry and the version of its inode;
    [df_whiteouts] is the flag [OVL_WHITEOUTS].  [df_caches] are the caches that are
    allocated, [df_icache] the one of the inode, and [df_files] are the open files. *)
Record DF := mkDF {
  df_ls : LS;
  df_dentry : ovl_dentry;
  df_version : Z;
  df_whiteouts : bool;
  df_caches : gmap nat ovl_dir_cache;
  df_icache : option nat;
  df_files : gmap nat ovl_dir_file;
}.
Definition df_set_ls l s := mkDF l (df_dentry s) (df_version s) (df_whiteouts s) (df_caches s) (df_icache s) (df_files s).
Definition df_set_version v s := mkDF (df_ls s) (df_dentry s) v (df_whiteouts s) (df_caches s) (df_icache s) (df_files s).
Definition df_set_caches c s := mkDF (df_ls s) (df_dentry s) (df_version s) (df_whiteouts s) c (df_icache s) (df_files s).
Definition df_set_icache c s := mkDF (df_ls s) (df_dentry s) (df_version s) (df_whiteouts s) (df_caches s) c (df_files s).
Definition df_set_files f s := mkDF (df_ls s) (df_dentry s) (df_version s) (df_whiteouts s) (df_caches s) (df_icache s) f.

Definition in_layers {A} (m : M LS A) : M DF A := zoom df_ls df_set_ls m.

(** The memory of a file or of a cache that was freed is not to be used. *)
Definition the_file (fd : nat) : M DF ovl_dir_file :=
  s ← get; match df_files s !! fd with Some od => mret od | None => panic "use after free" end.
Definition the_cache (c : nat) : M DF ovl_dir_cache :=
  s ← get; match df_caches s !! c with Some dc => mret dc | None => panic "use after free" end.
Definition upd_file (fd : nat) (f : ovl_dir_file → ovl_dir_file) : M DF () := modify (λ s, df_set_files (alter f fd (df_files s)) s).

Section DirFile.
(** How the layers list a directory, how a tree is rebalanced, and which entries
    need their number looked up; [iterate_real] reads a directory that is not
    merged, from a position, with room for some names. *)
Context (iterate : LS → nat → path → list (string * bool)) (rebalance : rb_tree → rb_tree)
        (needs_ino : ovl_cache_entry → bool) (iterate_real : ovl_dentry → Z → nat → M LS (list string * Z))
        (seek_real : ovl_dentry → Z → Z → Z → M LS Z).

(** ** The cache *)

(** [ovl_cache_put]. *)
Definition ovl_cache_put (c : nat) : M DF () :=
  dc ← the_cache c;
  let refs := (dc_refcount dc - 1)%Z in
  if (refs =? 0)%Z then
    _ ← modify (λ s, if bool_decide (df_icache s = Some c) then df_set_icache None s else s);
    modify (λ s, df_set_caches (delete c (df_caches s)) s)
  else modify (λ s, df_set_caches (<[c := mkCache refs (dc_version dc) (dc_entries dc)]> (df_caches s)) s).

(** [ovl_dir_is_real]. *)
Definition ovl_dir_is_real (s : DF) : bool := negb (df_whiteouts s).

(** [ovl_dir_reset]. *)
Definition ovl_dir_reset (fd : nat) : M DF () :=
  od ← the_file fd;
  _ ← match od_cache od with
      | None => mret tt
      | Some c =>
          dc ← the_cache c;
          s ← get;
          if (df_version s =? dc_version dc)%Z then mret tt
          else _ ← ovl_cache_put c; upd_file fd (od_set_cache None 0)
      end;
  s ← get;
  let is_real := ovl_dir_is_real s in
  if Bool.eqb (od_is_real od) is_real || is_real then mret tt else upd_file fd (od_set_real false).

(** [ovl_cache_get]. *)
Definition ovl_cache_get : M DF nat :=
  s ← get;
  valid ← match df_icache s with
          | None => mret None
          | Some c => dc ← the_cache c; mret (if (df_version s =? dc_version dc)%Z then Some (c, dc) else None)
          end;
  match valid with
  | Some (c, dc) =>
      _ ← modify (λ s, df_set_caches (<[c := mkCache (dc_refcount dc + 1) (dc_version dc) (dc_entries dc)]> (df_caches s)) s);
      mret c
  | None =>
      _ ← modify (df_set_icache None);
      entries ← in_layers (ovl_dir_read_merged iterate rebalance (df_dentry s));
      s ← get;
      let c := fresh (dom (df_caches s)) in
      _ ← modify (λ s, df_set_caches (<[c := mkCache 1 (df_version s) entries]> (df_caches s)) s);
      _ ← modify (df_set_icache (Some c));
      mret c
  end.

(** [ovl_seek_cursor]. *)
Definition ovl_seek_cursor (fd c : nat) (pos : Z) : M DF () :=
  dc ← the_cache c;
  upd_file fd (od_set_cursor (Nat.min (Z.to_nat pos) (length (dc_entries dc)))).

(** ** Reading *)

(** The loop of [ovl_iterate] over the entries from the cursor on; [room] is how
    many names [dir_emit] takes. *)
Fixpoint emit_loop (fd : nat) (l : list ovl_cache_entry) (room : nat) : M DF () :=
  match l with
  | [] => mret tt
  | e :: l =>
      let next room := _ ← upd_file fd od_next; emit_loop fd l room in
      if ce_is_whiteout e then next room
      else
        _ ← (if needs_ino e then in_layers (vfs_read (λ _, tt)) else mret tt);
        match room with
        | 0 => mret tt
        | S room => _ ← upd_file fd (od_emit [ce_name e]); next room
        end
  end.

(** [ovl_iterate]. *)
Definition ovl_iterate_file (fd room : nat) : M DF () :=
  od ← the_file fd;
  _ ← (if (od_pos od =? 0)%Z then ovl_dir_reset fd else mret tt);
  od ← the_file fd;
  if od_is_real od then
    s ← get;
    '(names, pos) ← in_layers (iterate_real (df_dentry s) (od_pos od) room);
    _ ← upd_file fd (od_emit names);
    upd_file fd (od_set_pos pos)
  else
    _ ← match od_cache od with
        | Some _ => mret tt
        | None =>
            c ← ovl_cache_get;
            _ ← upd_file fd (od_set_cache (Some c) (od_cursor od));
            ovl_seek_cursor fd c (od_pos od)
        end;
    od ← the_file fd;
    match od_cache od with
    | None => panic "NULL pointer dereference"
    | Some c => dc ← the_cache c; emit_loop fd (drop (od_cursor od) (dc_entries dc)) room
    end.

(** [ovl_dir_llseek]; [SEEK_SET] is 0 and [SEEK_CUR] is 1. *)
Definition ovl_dir_llseek (fd : nat) (offset origin : Z) : M DF Z :=
  od ← the_file fd;
  _ ← (if (od_pos od =? 0)%Z then ovl_dir_reset fd else mret tt);
  od ← the_file fd;
  if od_is_real od then
    s ← get;
    res ← in_layers (seek_real (df_dentry s) (od_pos od) offset origin);
    _ ← upd_file fd (od_set_pos res);
    mret res
  else
    offset ← (if (origin =? 1)%Z then mret (offset + od_pos od)%Z
              else if (origin =? 0)%Z then mret offset
              else fail (OsError EINVAL));
    if (offset <? 0)%Z then fail (OsError EINVAL)
    else
      _ ← (if (offset =? od_pos od)%Z then mret tt
           else
             _ ← upd_file fd (od_set_pos offset);
             match od_cache od with Some c => ovl_seek_cursor fd c offset | None => mret tt end);
      mret offset.

(** [ovl_dir_open] of a new file, and [ovl_dir_release]. *)
Definition ovl_dir_open (fd : nat) : M DF () :=
  _ ← in_layers (vfs_read (λ _, tt));
  s ← get;
  modify (df_set_files (<[fd := mkOd (ovl_dir_is_real s) None 0 0 []]> (df_files s))).
Definition ovl_dir_release (fd : nat) : M DF () :=
  od ← the_file fd;
  _ ← match od_cache od with Some c => ovl_cache_put c | None => mret tt end;
  modify (λ s, df_set_files (delete fd (df_files s)) s).

(** ** A directory in use *)

(** [ovl_dentry_version_inc] of a merged directory: the version is an [u64]. *)
Definition ovl_dentry_version_inc : M DF () := modify (λ s, df_set_version ((df_version s + 1) mod 2 ^ 64) s).

(** What the processes do that use the directory: the calls on open files, and the
    operations that change its layers, which note that in the version. *)
Inductive df_op :=
| DOpen (fd : nat)
| DIterate (fd room : nat)
| DSeek (fd : nat) (offset origin : Z)
| DRelease (fd : nat)
| DChange (f : list (gmap path rinode) → list (gmap path rinode)).
Definition df_step (op : df_op) : M DF () :=
  s ← get;
  match op with
  | DOpen fd => if bool_decide (is_Some (df_files s !! fd)) then mret tt else ignore_err (ovl_dir_open fd)
  | DIterate fd room => if bool_decide (is_Some (df_files s !! fd)) then ignore_err (ovl_iterate_file fd room) else mret tt
  | DSeek fd o w => if bool_decide (is_Some (df_files s !! fd)) then ignore_err (_ ← ovl_dir_llseek fd o w; mret tt) else mret tt
  | DRelease fd => if bool_decide (is_Some (df_files s !! fd)) then ignore_err (ovl_dir_release fd) else mret tt
  | DChange f =>
      _ ← modify (λ s, df_set_ls (mkLS (f (ls_layers (df_ls s))) (ls_noxattr (df_ls s)) (ls_impure (df_ls s)) (ls_faults (df_ls s))) s);
      ovl_dentry_version_inc
  end.
Fixpoint df_run (ops : list df_op) : M DF () :=
  match ops with
  | [] => mret tt
  | op :: ops => _ ← df_step op; df_run ops
  end.
End DirFile.
