(* ===== verification/OvlDir.v ===== *)
(** * The overlay file system: changing directories

    [src/overlayfs/dir.c]: entries are created, removed and renamed in the upper
    layer.  What is not to be seen half done is prepared in the work directory and
    put in its place by one rename; what is below in other layers is covered by
    whiteouts and opaque directories. *)

From S2P Require Import Prelude FileSys OvlOpts OvlMount OvlCopyUp OvlLookup OvlReaddir.

(** ** The upper file system *)

(** A dentry of the overlay: what [ovl_lookup] found, and the flag [OVL_WHITEOUTS] of
    its inode. *)
Record oentry := mkOentry {
  oe_upper : option path;
  oe_lowers : list (nat * path);
  oe_opaque : bool;
  oe_whiteouts : bool;
  oe_redirect : option string;
}.
Definition oe_set_upper u e := mkOentry u (oe_lowers e) (oe_opaque e) (oe_whiteouts e) (oe_redirect e).
Definition oe_set_redirect r e := mkOentry (oe_upper e) (oe_lowers e) (oe_opaque e) (oe_whiteouts e) r.
Definition oe_set_opaque e := mkOentry (oe_upper e) (oe_lowers e) true (oe_whiteouts e) (oe_redirect e).
Definition oe_dentry (e : oentry) : ovl_dentry := mkDentry (oe_upper e) (oe_lowers e).
Definition oe_positive (e : oentry) : bool := bool_decide (is_Some (oe_upper e)) || negb (bool_decide (oe_lowers e = [])).

(** The layers, the work directory, the counter of temporary names, and the dentries
    of the overlay that are in the cache, negative ones among them. *)
Record DS := mkDS {
  ds_ofs : ovl_fs;
  ds_ls : LS;
  ds_work : gmap path rinode;
  ds_temp_id : Z;
  ds_dentries : gmap path oentry;
}.
Definition ds_set_ls l s := mkDS (ds_ofs s) l (ds_work s) (ds_temp_id s) (ds_dentries s).
Definition ds_set_work w s := mkDS (ds_ofs s) (ds_ls s) w (ds_temp_id s) (ds_dentries s).
Definition ds_set_temp_id n s := mkDS (ds_ofs s) (ds_ls s) (ds_work s) n (ds_dentries s).
Definition ds_set_dentries d s := mkDS (ds_ofs s) (ds_ls s) (ds_work s) (ds_temp_id s) d.

(** The trees the calls are about: a layer, the upper one being the first, and the work
    directory. *)
Inductive side := Layer (i : nat) | Work.
Abbreviation Upper := (Layer 0).
#[export] Instance side_eq_dec : EqDecision side.
Proof. solve_decision. Defined.
Definition layer_tree (i : nat) (s : DS) : gmap path rinode := default ∅ (ls_layers (ds_ls s) !! i).
Abbreviation upper_tree := (layer_tree 0).
Definition tree (d : side) (s : DS) : gmap path rinode :=
  match d with Layer i => layer_tree i s | Work => ds_work s end.
Definition set_tree (d : side) (t : gmap path rinode) (s : DS) : DS :=
  match d with Layer i => ds_set_ls (set_layer i t (ds_ls s)) s | Work => ds_set_work t s end.

(** A call into a file system below: it fails, or does what it does. *)
Definition ls_set_faults f l := mkLS (ls_layers l) (ls_noxattr l) (ls_impure l) f.
Definition real {A} (f : DS → outcome A * DS) : M DS A := λ s,
  match ls_faults (ds_ls s) with
  | FailAt _ :: fs => (Err (OsError EIO), ds_set_ls (ls_set_faults fs (ds_ls s)) s)
  | NoFault :: fs => f (ds_set_ls (ls_set_faults fs (ds_ls s)) s)
  | [] => f s
  end.
Definition real_call : M DS () := real (λ s, (Ok tt, s)).
Definition on_layers {A} (m : M LS A) : M DS A := zoom ds_ls ds_set_ls m.

Definition dir_at (t : gmap path rinode) (p : path) : bool :=
  match t !! p with Some n => is_dir_type (ri_type n) | None => false end.
Definition no_children (t : gmap path rinode) (p : path) : bool :=
  forallb (λ e, bool_decide (e.1 = p) || negb (bool_decide (p `prefix_of` e.1))) (map_to_list t).

(** [lookup_one_len], of a name that may have no entry. *)
Definition real_lookup (d : side) (p : path) : M DS (option rinode) := real (λ s, (Ok (tree d s !! p), s)).
(** [vfs_create], [vfs_mkdir], [vfs_mknod] and [vfs_symlink]. *)
Definition real_create (d : side) (p : path) (n : rinode) : M DS () := real (λ s,
  match tree d s !! p with
  | Some _ => (Err (OsError EEXIST), s)
  | None => if dir_at (tree d s) (parent_dir p) then (Ok tt, set_tree d (<[p := n]> (tree d s)) s) else (Err (OsError ENOENT), s)
  end).
(** [vfs_unlink] and [vfs_rmdir]. *)
Definition real_unlink (d : side) (p : path) : M DS () := real (λ s,
  match tree d s !! p with
  | None => (Err (OsError ENOENT), s)
  | Some n => if is_dir_type (ri_type n) then (Err (OsError EISDIR), s) else (Ok tt, set_tree d (delete p (tree d s)) s)
  end).
Definition real_rmdir (d : side) (p : path) : M DS () := real (λ s,
  match tree d s !! p with
  | None => (Err (OsError ENOENT), s)
  | Some n =>
      if negb (is_dir_type (ri_type n)) then (Err (OsError ENOTDIR), s)
      else if no_children (tree d s) p then (Ok tt, set_tree d (delete p (tree d s)) s) else (Err (OsError ENOTEMPTY), s)
  end).
(** [vfs_setxattr] and [notify_change]. *)
Definition real_alter (d : side) (p : path) (f : rinode → rinode) : M DS () := real (λ s,
  (Ok tt, set_tree d (alter f p (tree d s)) s)).

(** [vfs_rename] with its flags.  The entry and what is below it takes the place of
    the other one, which a directory does only if that is an empty directory; with
    [RENAME_EXCHANGE] they change places, and with [RENAME_WHITEOUT] a whiteout is
    left behind. *)
Definition RENAME_NOREPLACE : Z := 1.
Definition RENAME_EXCHANGE : Z := 2.
Definition RENAME_WHITEOUT : Z := 4.
Definition prune {V} (p : path) (t : gmap path V) : gmap path V := filter (λ e, Os.below p e.1 = false) t.
Definition graft {V} (p : path) (sub t : gmap path V) : gmap path V := kmap (app p) sub ∪ prune p t.
Definition whiteout_node : rinode := mkReal (S_IFCHR WHITEOUT_DEV) 0 0 0 0 0 1 false ∅.
Definition replaces (old : rinode) (new : option rinode) (empty : bool) : option error :=
  match new with
  | None => None
  | Some n =>
      if is_dir_type (ri_type old) then
        if negb (is_dir_type (ri_type n)) then Some (OsError ENOTDIR) else if empty then None else Some (OsError ENOTEMPTY)
      else if is_dir_type (ri_type n) then Some (OsError EISDIR) else None
  end.
Definition real_rename (a : side * path) (b : side * path) (flags : Z) : M DS () := real (λ s,
  let A := Os.strip a.2 (tree a.1 s) in
  let B := Os.strip b.2 (tree b.1 s) in
  match tree a.1 s !! a.2 with
  | None => (Err (OsError ENOENT), s)
  | Some old =>
      if negb (dir_at (tree b.1 s) (parent_dir b.2)) then (Err (OsError ENOENT), s)
      else
        let s1 := set_tree a.1 (prune a.2 (tree a.1 s)) s in
        let s2 := set_tree b.1 (graft b.2 A (tree b.1 s1)) s1 in
        if has flags RENAME_EXCHANGE then
          match tree b.1 s !! b.2 with
          | None => (Err (OsError ENOENT), s)
          | Some _ => (Ok tt, set_tree a.1 (graft a.2 B (tree a.1 s2)) s2)
          end
        else
          match replaces old (tree b.1 s !! b.2) (no_children (tree b.1 s) b.2) with
          | Some e => (Err e, s)
          | None =>
              (Ok tt, if has flags RENAME_WHITEOUT then set_tree a.1 (<[a.2 := whiteout_node]> (tree a.1 s2)) s2 else s2)
          end
  end).

(** ** Copying up *)

(** What [OvlCopyUp] sees of the state: the upper layer, and of the entries that are
    directories or not in it the first of their lower ones. *)
Definition first_lower (l : LS) (e : oentry) : option rinode :=
  match oe_lowers e with (i, q) :: _ => node l i q | [] => None end.
Definition copy_source (s : DS) (p : path) (e : oentry) : option rinode :=
  if bool_decide (oe_upper e = None) || dir_at (upper_tree s) p then first_lower (ds_ls s) e else None.
Definition os_of (s : DS) : OS :=
  mkOS (ds_ofs s) (upper_tree s) (map_imap (copy_source s) (ds_dentries s)) (dom (upper_tree s)) (ls_impure (ds_ls s)) 0
    (ls_faults (ds_ls s)).
Definition copied_up (s : DS) (o : OS) (p : path) (e : oentry) : oentry :=
  match upper_tree s !! p, os_upper o !! p with
  | None, Some _ => mkOentry (Some p) (oe_lowers e) (oe_opaque e) true (oe_redirect e)
  | _, _ => e
  end.
(** What [OvlCopyUp] leaves, with what it has done to the lower entries it was given. *)
Definition put_source (o : OS) (s : DS) (p : path) (l : list (gmap path rinode)) : list (gmap path rinode) :=
  match ds_dentries s !! p ≫= λ e, head (oe_lowers e) with
  | Some (i, q) => alter (partial_alter (λ _, os_lower o !! p) q) i l
  | None => l
  end.
Definition put_sources (o : OS) (s : DS) : list (gmap path rinode) :=
  foldr (put_source o s) (ls_layers (ds_ls s)) (elements (dom (os_lower (os_of s)))).
Definition put_os (o : OS) (s : DS) : DS :=
  mkDS (ds_ofs s) (mkLS (<[0 := os_upper o]> (put_sources o s)) (ls_noxattr (ds_ls s)) (os_impure o) (os_faults o))
    (ds_work s) (ds_temp_id s) (map_imap (λ p e, Some (copied_up s o p e)) (ds_dentries s)).
Definition on_os {A} (m : M OS A) : M DS A := λ s, let '(r, o) := m (os_of s) in (r, put_os o s).

Section Dir.
(** The security module, file handles and copying up to an index; how the layers list a
    directory; the umask, the ids of the caller, the mode and the access control
    lists a new entry of a directory gets, and what the upper file system makes of a
    mode; whether the inode of a new entry is one that is in the cache for
    another file; and the link counts of an index. *)
Context (security_inode_copy_up_xattr : string → Z) (encode_fh : path → string) (copy_up_indexed : path → path → Z → M OS ())
        (iterate : LS → nat → path → list (string * bool)) (rebalance : rb_tree → rb_tree)
        (umask fsuid fsgid : Z) (posixacl : bool)
        (posix_acl_create : path → ftype → Z → Z * option string * option string) (fs_mode : Z → Z) (inode_stale : path → bool)
        (nlink_start_indexed nlink_end_indexed : path → M DS ()) (ovl_redirect_max : nat).

Definition copy_up (p : path) : M DS () := on_os (ovl_copy_up security_inode_copy_up_xattr encode_fh copy_up_indexed p).
Definition want_write : M DS () := on_os ovl_want_write.

(** The VFS has the dentry of an entry, and of the directory it is in. *)
Definition the_dentry (p : path) : M DS oentry :=
  s ← get; match ds_dentries s !! p with Some e => mret e | None => panic "no dentry" end.

(** ** Kinds of entries *)

Definition real_node (s : DS) (e : oentry) : option rinode :=
  match oe_upper e with Some u => upper_tree s !! u | None => first_lower (ds_ls s) e end.
(** [d_is_dir]. *)
Definition oe_is_dir (s : DS) (e : oentry) : bool :=
  match real_node s e with Some n => is_dir_type (ri_type n) | None => false end.
(** [ovl_path_type]. *)
Definition type_upper (e : oentry) : bool := bool_decide (is_Some (oe_upper e)).
Definition ovl_type_origin (e : oentry) : bool := type_upper e && negb (bool_decide (oe_lowers e = [])).
Definition ovl_type_merge (s : DS) (e : oentry) : bool :=
  if type_upper e then negb (bool_decide (oe_lowers e = [])) && oe_is_dir s e else 1 <? length (oe_lowers e).
Definition ovl_type_merge_or_lower (s : DS) (e : oentry) : bool := ovl_type_merge s e || negb (type_upper e).
(** [ovl_dentry_is_whiteout]. *)
Definition ovl_dentry_is_whiteout (e : oentry) : bool := negb (oe_positive e) && oe_opaque e.
(** [ovl_pure_upper]. *)
Definition ovl_pure_upper (e : oentry) : bool := bool_decide (oe_lowers e = []) && negb (oe_whiteouts e).

(** [d_drop]: the dentry is not found any more, nor what is below it. *)
Definition d_drop (p : path) : M DS () := modify (λ s, ds_set_dentries (filter (λ e, Os.below p e.1 = false) (ds_dentries s)) s).

(** ** Temporary entries and whiteouts *)

(** [ovl_cleanup]; its callers go on whatever it returns. *)
Definition ovl_cleanup (d : side) (p : path) : M DS () :=
  s ← get; ignore_err (if dir_at (tree d s) p then real_rmdir d p else real_unlink d p).

Definition hex_digit (n : Z) : ascii :=
  if (n <? 10)%Z then ascii_of_N (Z.to_N (48 + n)) else ascii_of_N (Z.to_N (87 + n)).
Fixpoint hex_loop (fuel : nat) (n : Z) (acc : string) : string :=
  match fuel with
  | 0 => acc
  | S fuel =>
      let acc := String (hex_digit (n mod 16)) acc in
      if (n / 16 =? 0)%Z then acc else hex_loop fuel (n / 16) acc
  end.
(** [ovl_lookup_temp]; the counter has 32 bits. *)
Definition temp_name (n : Z) : string := "#" +:+ hex_loop 8 n EmptyString.
Definition ovl_lookup_temp : M DS path :=
  _ ← modify (λ s, ds_set_temp_id ((ds_temp_id s + 1) mod 2 ^ 32) s);
  s ← get;
  let p := [temp_name (ds_temp_id s)] in
  r ← real_lookup Work p;
  match r with Some _ => fail (OsError EIO) | None => mret p end.

(** [ovl_whiteout]. *)
Definition ovl_whiteout : M DS path :=
  tmp ← ovl_lookup_temp;
  _ ← real_create Work tmp whiteout_node;
  mret tmp.

(** [ovl_cleanup_and_whiteout]. *)
Definition ovl_cleanup_and_whiteout (p : path) : M DS () :=
  whiteout ← ovl_whiteout;
  s ← get;
  let is_dir := dir_at (upper_tree s) p in
  _ ← defer_on_error (real_rename (Work, whiteout) (Upper, p) (if is_dir then RENAME_EXCHANGE else 0))
        (ovl_cleanup Work whiteout);
  if is_dir then ovl_cleanup Work whiteout else mret tt.

(** ** Creating *)

(** [struct ovl_cattr], and the inode that is made of it. *)
Record ovl_cattr := mkAttr { ca_type : ftype; ca_mode : Z; ca_uid : Z; ca_gid : Z }.
Definition ca_set_mode m a := mkAttr (ca_type a) m (ca_uid a) (ca_gid a).
Definition attr_node (a : ovl_cattr) : rinode :=
  mkReal (ca_type a) (fs_mode (ca_mode a)) (ca_uid a) (ca_gid a) 0 0 (if is_dir_type (ca_type a) then 2 else 1) false ∅.

(** [ovl_create_real], of an entry that was looked up. *)
Definition ovl_create_real (d : side) (p : path) (a : ovl_cattr) : M DS () :=
  r ← real_lookup d p;
  match r with Some _ => fail (OsError ESTALE) | None => real_create d p (attr_node a) end.
(** [ovl_create_temp]. *)
Definition ovl_create_temp (a : ovl_cattr) : M DS path :=
  tmp ← ovl_lookup_temp;
  _ ← real_create Work tmp (attr_node a);
  mret tmp.

(** [ovl_set_opaque_xerr] and [ovl_set_opaque] of the upper entry [x] of the dentry
    [p], which is marked too. *)
Definition ovl_set_opaque_xerr (p : path) (x : side * path) (xerr : error) : M DS () :=
  s ← get;
  if ls_noxattr (ds_ls s) then fail xerr
  else
    _ ← real_alter x.1 x.2 (set_xattr OVL_XATTR_OPAQUE "y");
    modify (λ s, ds_set_dentries (alter oe_set_opaque p (ds_dentries s)) s).
Definition ovl_set_opaque (p : path) (x : side * path) : M DS () := ovl_set_opaque_xerr p x (OsError EIO).

(** [ovl_instantiate] of a new entry. *)
Definition ovl_instantiate (p : path) : M DS () :=
  if inode_stale p then fail (OsError ESTALE)
  else modify (λ s, ds_set_dentries (alter (oe_set_upper (Some p)) p (ds_dentries s)) s).

(** [ovl_create_upper]. *)
Definition ovl_create_upper (dir : path) (name : string) (a : ovl_cattr) : M DS () :=
  let p := dir ++ [name] in
  let a := if posixacl then a else ca_set_mode (Z.land (ca_mode a) (Z.lnot umask)) a in
  _ ← ovl_create_real Upper p a;
  parent ← the_dentry dir;
  s ← get;
  _ ← (if ovl_type_merge s parent && is_dir_type (ca_type a) then ignore_err (ovl_set_opaque p (Upper, p)) else mret tt);
  defer_on_error (ovl_instantiate p) (ovl_cleanup Upper p).

(** [ovl_cleanup_whiteouts]. *)
Definition ovl_cleanup_whiteouts (d : side) (p : path) (list : list ovl_cache_entry) : M DS () :=
  for_each list (λ e,
    if negb (ce_is_whiteout e && ce_is_upper e) then mret tt
    else
      r ← attempt (real_lookup d (p ++ [ce_name e]));
      match r with inr (Some _) => ovl_cleanup d (p ++ [ce_name e]) | _ => mret tt end).

(** [ovl_clear_empty]: a directory with nothing but whiteouts is replaced by an opaque
    one. *)
Definition ovl_clear_empty (p : path) (list : list ovl_cache_entry) : M DS () :=
  s ← get;
  match ofs_workdir (ds_ofs s) with
  | None => fail (OsError EROFS)
  | Some _ =>
      _ ← real_call;
      stat ← real_lookup Upper p;
      match stat with
      | None => fail (OsError ESTALE)
      | Some stat =>
          if negb (is_dir_type (ri_type stat)) then fail (OsError ESTALE)
          else
            opaquedir ← ovl_create_temp (mkAttr S_IFDIR (ri_mode stat) 0 0);
            _ ← defer_on_error
                  (let new := attr_node (mkAttr S_IFDIR (ri_mode stat) 0 0) in
                   new ← on_os (ovl_copy_xattr security_inode_copy_up_xattr stat new);
                   _ ← modify (λ s, set_tree Work (<[opaquedir := new]> (tree Work s)) s);
                   _ ← ovl_set_opaque p (Work, opaquedir);
                   s ← get;
                   new ← on_os (ovl_set_attr stat (default new (tree Work s !! opaquedir)));
                   _ ← modify (λ s, set_tree Work (<[opaquedir := new]> (tree Work s)) s);
                   real_rename (Work, opaquedir) (Upper, p) RENAME_EXCHANGE)
                  (ovl_cleanup Work opaquedir);
            _ ← ovl_cleanup_whiteouts Work opaquedir list;
            _ ← ovl_cleanup Work opaquedir;
            d_drop p
      end
  end.

Definition XATTR_NAME_POSIX_ACL_ACCESS : string := "system.posix_acl_access".
Definition XATTR_NAME_POSIX_ACL_DEFAULT : string := "system.posix_acl_default".
(** [ovl_set_upper_acl]. *)
Definition ovl_set_upper_acl (tmp : path) (name : string) (acl : option string) : M DS () :=
  match acl with None => mret tt | Some v => real_alter Work tmp (set_xattr name v) end.

(** [ovl_create_over_whiteout].  When [ovl_instantiate] fails, the new entry is removed
    as if it still were in the work directory, which [may_delete] of the VFS takes
    for a bug of the kernel. *)
Definition wrong_parent : string := "kernel BUG: the parent of the victim is not the directory".
Definition ovl_create_over_whiteout (dir : path) (name : string) (a : ovl_cattr) : M DS () :=
  let p := dir ++ [name] in
  s ← get;
  match ofs_workdir (ds_ofs s) with
  | None => fail (OsError EROFS)
  | Some _ =>
      _ ← real_call;
      let '(mode, acl, default_acl) := posix_acl_create dir (ca_type a) (ca_mode a) in
      let a := ca_set_mode mode a in
      (** [ovl_lock_rename_workdir]. *)
      _ ← real_call;
      _ ← real_lookup Upper p;
      tmp ← ovl_create_temp a;
      let is_dir := is_dir_type (ca_type a) in
      _ ← defer_on_error
            (_ ← (if negb (is_lnk_type (ca_type a)) && negb (fs_mode (ca_mode a) =? ca_mode a)%Z
                  then real_alter Work tmp (set_mode (ca_mode a)) else mret tt);
             _ ← ovl_set_upper_acl tmp XATTR_NAME_POSIX_ACL_ACCESS acl;
             _ ← ovl_set_upper_acl tmp XATTR_NAME_POSIX_ACL_DEFAULT default_acl;
             if is_dir then
               _ ← ovl_set_opaque p (Work, tmp);
               real_rename (Work, tmp) (Upper, p) RENAME_EXCHANGE
             else real_rename (Work, tmp) (Upper, p) 0)
            (ovl_cleanup Work tmp);
      _ ← (if is_dir then ovl_cleanup Work tmp else mret tt);
      r ← attempt (ovl_instantiate p);
      match r with inl _ => panic wrong_parent | inr _ => mret tt end
  end.

(** [ovl_create_or_link], of an entry that is no hard link. *)
Definition ovl_create_or_link (dir : path) (name : string) (a : ovl_cattr) : M DS () :=
  _ ← copy_up dir;
  (** [security_dentry_create_files_as]. *)
  _ ← real_call;
  e ← the_dentry (dir ++ [name]);
  if ovl_dentry_is_whiteout e then ovl_create_over_whiteout dir name a else ovl_create_upper dir name a.

(** [inode_init_owner]: the group of a directory that hands it on. *)
Definition S_ISGID : Z := 1024.
Definition inode_init_owner (parent : option rinode) (f : ftype) (mode : Z) : ovl_cattr :=
  match parent with
  | Some n =>
      if has (ri_mode n) S_ISGID
      then mkAttr f (if is_dir_type f then Z.lor mode S_ISGID else mode) fsuid (ri_gid n)
      else mkAttr f mode fsuid fsgid
  | None => mkAttr f mode fsuid fsgid
  end.
(** [ovl_create_object]. *)
Definition ovl_create_object (dir : path) (name : string) (f : ftype) (mode : Z) : M DS () :=
  _ ← want_write;
  parent ← the_dentry dir;
  s ← get;
  ovl_create_or_link dir name (inode_init_owner (real_node s parent) f mode).

(** [ovl_create], [ovl_mkdir], [ovl_mknod] and [ovl_symlink]. *)
Definition ovl_create (dir : path) (name : string) (mode : Z) : M DS () :=
  ovl_create_object dir name (S_IFREG EmptyString) (Z.land mode 4095).
Definition ovl_mkdir (dir : path) (name : string) (mode : Z) : M DS () :=
  ovl_create_object dir name S_IFDIR (Z.land mode 4095).
Definition ovl_mknod (dir : path) (name : string) (f : ftype) (mode : Z) : M DS () :=
  match f with
  | S_IFCHR rdev => if (rdev =? WHITEOUT_DEV)%Z then fail (OsError EPERM) else ovl_create_object dir name f mode
  | _ => ovl_create_object dir name f mode
  end.
Definition ovl_symlink (dir : path) (name : string) (link : string) : M DS () :=
  ovl_create_object dir name (S_IFLNK link) 0.

(** ** Removing *)

(** [ovl_nlink_start] and [ovl_nlink_end]; without an index only the lock of the inode
    is left, which can be interrupted. *)
Definition ovl_nlink_start (p : path) (e : oentry) : M DS () :=
  if negb (oe_positive e) then mret tt
  else
    s ← get;
    match ofs_indexdir (ds_ofs s) with Some _ => nlink_start_indexed p | None => real_call end.
Definition ovl_nlink_end (p : path) : M DS () :=
  s ← get;
  match ofs_indexdir (ds_ofs s) with Some _ => nlink_end_indexed p | None => mret tt end.

(** [ovl_remove_and_whiteout]; [list] has the whiteouts of the upper directory. *)
Definition ovl_remove_and_whiteout (p : path) (e : oentry) (list : list ovl_cache_entry) : M DS () :=
  s ← get;
  match ofs_workdir (ds_ofs s) with
  | None => fail (OsError EROFS)
  | Some _ =>
      let clear := negb (bool_decide (list = [])) in
      _ ← (if clear then ovl_clear_empty p list else mret tt);
      _ ← real_call;
      upper ← real_lookup Upper p;
      if (clear || type_upper e) && bool_decide (upper = None) then fail (OsError ESTALE)
      else
        r ← attempt (ovl_cleanup_and_whiteout p);
        _ ← d_drop p;
        match r with inl err => fail err | inr _ => mret tt end
  end.

(** [ovl_remove_upper]. *)
Definition ovl_remove_upper (p : path) (e : oentry) (is_dir : bool) (list : list ovl_cache_entry) : M DS () :=
  _ ← (if negb (bool_decide (list = [])) then ovl_clear_empty p list else mret tt);
  upper ← real_lookup Upper p;
  if bool_decide (upper = None) then fail (OsError ESTALE)
  else
    _ ← (if is_dir then real_rmdir Upper p else real_unlink Upper p);
    d_drop p.

(** [ovl_lower_positive]. *)
Definition lower_positive (dir : path) (name : string) (e : oentry) : M DS bool :=
  parent ← the_dentry dir;
  on_layers (ovl_lower_positive (oe_dentry parent) name (mkFound (oe_upper e) true (oe_lowers e) (oe_opaque e) (oe_redirect e))).
(** [ovl_check_empty_dir]. *)
Definition check_empty_dir (e : oentry) : M DS (list ovl_cache_entry) :=
  on_layers (ovl_check_empty_dir iterate rebalance (oe_dentry e)).

(** [ovl_do_remove]. *)
Definition ovl_do_remove (dir : path) (name : string) (is_dir : bool) : M DS () :=
  let p := dir ++ [name] in
  e ← the_dentry p;
  positive ← lower_positive dir name e;
  list ← (if is_dir && (positive || negb (ovl_pure_upper e)) then check_empty_dir e else mret []);
  _ ← want_write;
  _ ← copy_up dir;
  _ ← ovl_nlink_start p e;
  defer_when (λ _, true)
    (if (positive : bool) then ovl_remove_and_whiteout p e list else ovl_remove_upper p e is_dir list)
    (ovl_nlink_end p).
(** [ovl_unlink] and [ovl_rmdir]. *)
Definition ovl_unlink (dir : path) (name : string) : M DS () := ovl_do_remove dir name false.
Definition ovl_rmdir (dir : path) (name : string) : M DS () := ovl_do_remove dir name true.

(** ** Renaming *)

(** [ovl_redirect_dir] and [ovl_can_move]. *)
Definition ovl_redirect_dir (s : DS) : bool := cf_redirect_dir (ofs_config (ds_ofs s)) && negb (ls_noxattr (ds_ls s)).
Definition ovl_can_move (s : DS) (e : oentry) : bool :=
  ovl_redirect_dir s || negb (oe_is_dir s e) || negb (ovl_type_merge_or_lower s e).

(** [ovl_get_redirect]: the loop writes the path from its end to the front of the
    buffer, of which [buflen] bytes are left; [names] are the names of the path, the
    last one first. *)
Fixpoint redirect_loop (d : gmap path oentry) (names : list string) (buflen : nat) (buf : string) : option string :=
  match names with
  | [] => Some buf
  | c :: rest =>
      let name := default c (d !! rev names ≫= oe_redirect) in
      let thislen := String.length name in
      if buflen <? thislen + (if is_absolute name then 0 else 1) then None
      else
        let buf := name +:+ buf in
        if is_absolute buf then Some buf else redirect_loop d rest (buflen - thislen - 1) ("/" +:+ buf)
  end.
Definition ovl_get_redirect (s : DS) (p : path) (samedir : bool) : option string :=
  if samedir then last p else redirect_loop (ds_dentries s) (rev p) ovl_redirect_max EmptyString.

(** [ovl_set_redirect]. *)
Definition ovl_set_redirect (p : path) (e : oentry) (samedir : bool) : M DS () :=
  if match oe_redirect e with Some r => samedir || is_absolute r | None => false end then mret tt
  else
    s ← get;
    match ovl_get_redirect s p samedir with
    | None => fail (OsError EXDEV)
    | Some r =>
        if ls_noxattr (ds_ls s) then fail (OsError EXDEV)
        else
          res ← attempt (real_alter Upper p (set_xattr OVL_XATTR_REDIRECT r));
          match res with
          | inl _ => fail (OsError EXDEV)
          | inr _ => modify (λ s, ds_set_dentries (alter (oe_set_redirect (Some r)) p (ds_dentries s)) s)
          end
    end.

(** What becomes of a directory that moves: its lower directories are found by a
    redirect; one that has none must not get any. *)
Definition prepare_move (p : path) (e : oentry) (is_dir opaque samedir : bool) (dir : path) : M DS () :=
  if negb is_dir then mret tt
  else
    parent ← the_dentry dir;
    s ← get;
    if ovl_type_merge_or_lower s e then ovl_set_redirect p e samedir
    else if negb opaque && ovl_type_merge s parent then ovl_set_opaque_xerr p (Upper, p) (OsError EXDEV)
    else mret tt.

(** The flags of the rename in the upper layer, and whether a whiteout is left where
    the entry was that has to be removed. *)
Definition rename_flags (flags : Z) (overwrite positive is_dir new_white : bool) : Z * bool :=
  if negb overwrite then (flags, false)
  else if positive then (Z.lor flags (if new_white then RENAME_EXCHANGE else RENAME_WHITEOUT), false)
  else if is_dir && new_white then (Z.lor flags RENAME_EXCHANGE, true)
  else (flags, false).

(** The part of [ovl_rename] that has both upper directories locked. *)
Definition rename_locked (olddir newdir : path) (old new : path) (is_dir new_is_dir overwrite samedir : bool)
    (flags : Z) (cleanup_whiteout : bool) (new0 : oentry) : M DS () :=
  e ← the_dentry old;
  olddentry ← real_lookup Upper old;
  if bool_decide (olddentry = None) then fail (OsError ESTALE)
  else
    newdentry ← real_lookup Upper new;
    s ← get;
    let e' := default new0 (ds_dentries s !! new) in
    let new_opaque := oe_opaque e' in
    _ ← guard_err
          (if oe_positive e' && type_upper e' then negb (bool_decide (newdentry = None))
           else match newdentry with Some n => new_opaque && ovl_is_whiteout n | None => true end) (OsError ESTALE);
    _ ← guard_err (negb (Os.below old newdir) && negb (Os.below new olddir) && negb (bool_decide (old = new))) (OsError ESTALE);
    _ ← prepare_move old e is_dir (oe_opaque e) samedir newdir;
    _ ← (if negb overwrite then prepare_move new e' new_is_dir new_opaque samedir olddir else mret tt);
    _ ← real_rename (Upper, old) (Upper, new) flags;
    if cleanup_whiteout then ovl_cleanup Upper old else mret tt.

(** [ovl_rename]. *)
Definition ovl_rename (olddir : path) (oldname : string) (newdir : path) (newname : string) (flags : Z) : M DS () :=
  let old := olddir ++ [oldname] in
  let new := newdir ++ [newname] in
  let overwrite := negb (has flags RENAME_EXCHANGE) in
  let samedir := bool_decide (olddir = newdir) in
  e ← the_dentry old;
  e' ← the_dentry new;
  s ← get;
  let is_dir := oe_is_dir s e in
  let new_is_dir := oe_is_dir s e' in
  _ ← guard_err (Z.land flags (Z.lnot (Z.lor RENAME_EXCHANGE RENAME_NOREPLACE)) =? 0)%Z (OsError EINVAL);
  let flags := Z.land flags (Z.lnot RENAME_NOREPLACE) in
  _ ← guard_err (ovl_can_move s e && (overwrite || ovl_can_move s e')) (OsError EXDEV);
  list ← (if overwrite && new_is_dir && negb (ovl_pure_upper e') then check_empty_dir e' else mret []);
  positive ← (if overwrite then lower_positive olddir oldname e else mret false);
  let '(flags, cleanup_whiteout) := rename_flags flags overwrite positive is_dir (ovl_dentry_is_whiteout e') in
  _ ← want_write;
  _ ← copy_up old;
  _ ← copy_up newdir;
  _ ← (if overwrite then ovl_nlink_start new e' else copy_up new);
  let cleared := negb (bool_decide (list = [])) in
  defer_when (λ _, true)
    (_ ← (if cleared then ovl_clear_empty new list else mret tt);
     e ← the_dentry old;
     _ ← (if negb samedir && ovl_type_origin e then on_os (ovl_set_impure newdir) else mret tt);
     s ← get;
     let e' := default e' (ds_dentries s !! new) in
     _ ← (if negb samedir && negb overwrite && ovl_type_origin e' then on_os (ovl_set_impure olddir) else mret tt);
     rename_locked olddir newdir old new is_dir new_is_dir overwrite samedir flags cleanup_whiteout e')
    (if overwrite then ovl_nlink_end new else mret tt).
End Dir.
