(* ===== verification/OvlReaddirProps.v ===== *)
(** * What reading an overlay directory gives

    The search tree finds exactly the names it has, so every name is listed once,
    for the uppermost directory that has it.

    Checking that a directory is empty: [ovl_check_empty_dir] reads a directory of the overlay.  Also when some of the
    calls fail, it takes a directory for empty only if it shows no name. *)

From S2P Require Import Prelude FileSys OvlOpts OvlMount OvlCopyUp OvlLookup OvlReaddir OvlMountProps.

(** ** The order of the tree *)

Lemma entry_cmp_nil s : entry_cmp EmptyString s = match s with EmptyString => Found | _ => GoLeft end.
Proof. by destruct s. Qed.
Lemma entry_cmp_cons c a s :
  entry_cmp (String c a) s =
    match s with
    | EmptyString => GoRight
    | String c' b => match N.compare (N_of_ascii c) (N_of_ascii c') with Eq => entry_cmp a b | Lt => GoLeft | Gt => GoRight end
    end.
Proof.
  destruct s as [|c' b]; [done|]. unfold entry_cmp. cbn [strncmp String.length].
  destruct (N.compare _ _); [|done|done]. destruct (strncmp a b); [|done|done].
  by replace (S (String.length a) <? S (String.length b)) with (String.length a <? String.length b).
Qed.

Definition str_lt (a b : string) : Prop := entry_cmp a b = GoLeft.
Lemma ascii_code_inj c c' : N.compare (N_of_ascii c) (N_of_ascii c') = Eq → c = c'.
Proof. intros H%N.compare_eq. by rewrite <-(ascii_N_embedding c), H, ascii_N_embedding. Qed.
Lemma entry_cmp_found a b : entry_cmp a b = Found ↔ a = b.
Proof.
  revert b. induction a as [|c a IH]; intros b.
  - rewrite entry_cmp_nil. by destruct b.
  - rewrite entry_cmp_cons. destruct b as [|c' b]; [done|]. destruct (N.compare (N_of_ascii c) (N_of_ascii c')) eqn:Hc.
    + apply ascii_code_inj in Hc as ->. rewrite IH. split; congruence.
    + split; [done|]. intros [= -> ->]. by rewrite N.compare_refl in Hc.
    + split; [done|]. intros [= -> ->]. by rewrite N.compare_refl in Hc.
Qed.
Lemma entry_cmp_right a b : entry_cmp a b = GoRight ↔ str_lt b a.
Proof.
  unfold str_lt. revert b. induction a as [|c a IH]; intros b.
  - rewrite entry_cmp_nil. destruct b; [done|]. by rewrite entry_cmp_cons.
  - rewrite entry_cmp_cons. destruct b as [|c' b]; [by rewrite entry_cmp_nil|]. rewrite entry_cmp_cons.
    rewrite (N.compare_antisym (N_of_ascii c) (N_of_ascii c')). by destruct (N.compare (N_of_ascii c) (N_of_ascii c')); cbn.
Qed.
Lemma str_lt_trans a b c : str_lt a b → str_lt b c → str_lt a c.
Proof.
  unfold str_lt. revert b c. induction a as [|x a IH]; intros b c.
  - rewrite !entry_cmp_nil. destruct b; [done|]. by destruct c.
  - rewrite entry_cmp_cons. destruct b as [|y b]; [done|]. rewrite entry_cmp_cons. destruct c as [|z c]; [done|].
    rewrite entry_cmp_cons. destruct (N.compare_spec (N_of_ascii x) (N_of_ascii y)) as [Hxy|Hxy|Hxy]; [|intros _|done].
    + rewrite Hxy. destruct (N.compare_spec (N_of_ascii y) (N_of_ascii z)); [|done|done]. by apply IH.
    + destruct (N.compare_spec (N_of_ascii y) (N_of_ascii z)) as [Hyz|Hyz|Hyz]; [|intros _|done].
      * intros _. rewrite <-Hyz. by apply N.compare_lt_iff in Hxy as ->.
      * by rewrite (proj2 (N.compare_lt_iff _ _) (N.lt_trans _ _ _ Hxy Hyz)).
Qed.
Lemma str_lt_irrefl a : ¬ str_lt a a.
Proof. unfold str_lt. by rewrite (proj2 (entry_cmp_found a a) eq_refl). Qed.

(** ** The tree finds what it has *)

Fixpoint inorder (t : rb_tree) : list string :=
  match t with RbLeaf => [] | RbNode l x r => inorder l ++ x :: inorder r end.
Definition bst (t : rb_tree) : Prop := StronglySorted str_lt (inorder t).

Lemma sorted_app (l1 l2 : list string) x :
  StronglySorted str_lt (l1 ++ x :: l2) ↔
    StronglySorted str_lt l1 ∧ StronglySorted str_lt l2 ∧ (∀ y, y ∈ l1 → str_lt y x) ∧ (∀ y, y ∈ l2 → str_lt x y).
Proof.
  split.
  - induction l1 as [|y l1 IH]; cbn.
    + intros [Hs Hall]%StronglySorted_inv. rewrite Forall_forall in Hall. split_and!; [constructor|done| |done].
      by intros y ?%not_elem_of_nil.
    + intros [Hs Hall]%StronglySorted_inv. destruct (IH Hs) as (H1&H2&H3&H4). rewrite Forall_forall in Hall. split_and!; try done.
      * constructor; [done|]. apply Forall_forall. intros z Hz. apply Hall, elem_of_app. by left.
      * intros z [->|Hz]%elem_of_cons; [|by apply H3]. apply Hall, elem_of_app. right. by left.
  - intros (H1&H2&H3&H4). induction l1 as [|y l1 IH]; cbn.
    + constructor; [done|]. by apply Forall_forall.
    + apply StronglySorted_inv in H1 as [H1 Hall]. rewrite Forall_forall in Hall. constructor.
      * apply IH; [done|]. intros z Hz. apply H3. by right.
      * apply Forall_forall. intros z [Hz|[->|Hz]%elem_of_cons]%elem_of_app; [by apply Hall|apply H3; by left|].
        eapply str_lt_trans; [apply H3; by left|by apply H4].
Qed.

Lemma find_in t name : bst t → ovl_cache_entry_find t name = true ↔ name ∈ inorder t.
Proof.
  unfold bst. induction t as [|l IHl x r IHr]; cbn [ovl_cache_entry_find inorder].
  - intros _. split; [done|]. by intros ?%not_elem_of_nil.
  - intros (Hl&Hr&Hlx&Hrx)%sorted_app. rewrite elem_of_app, elem_of_cons.
    destruct (entry_cmp name x) eqn:Hc.
    + rewrite IHl by done. split; [by left|]. intros [?|[->|Hn]]; [done| |].
      * by apply str_lt_irrefl in Hc.
      * destruct (str_lt_irrefl x). eapply str_lt_trans; [by apply Hrx|done].
    + rewrite IHr by done. apply entry_cmp_right in Hc. split; [by right; right|]. intros [Hn|[->|?]]; [|by apply str_lt_irrefl in Hc|done].
      destruct (str_lt_irrefl x). eapply str_lt_trans; [done|by apply Hlx].
    + apply entry_cmp_found in Hc as ->. split; [|done]. intros _. right. by left.
Qed.

Lemma find_link_in t name :
  bst t →
  match ovl_cache_entry_find_link t name with
  | None => name ∈ inorder t
  | Some t' => (name ∉ inorder t) ∧ bst t' ∧ ∀ x, x ∈ inorder t' ↔ x = name ∨ x ∈ inorder t
  end.
Proof.
  unfold bst. induction t as [|l IHl x r IHr]; cbn [ovl_cache_entry_find_link inorder].
  - intros _. split_and!; [apply not_elem_of_nil|repeat constructor|]. intros y. cbn.
    rewrite list_elem_of_singleton. split; [by left|]. intros [?|?%not_elem_of_nil]; done.
  - intros (Hl&Hr&Hlx&Hrx)%sorted_app. destruct (entry_cmp name x) eqn:Hc.
    + specialize (IHl Hl). destruct (ovl_cache_entry_find_link l name) as [l'|]; cbn [fmap option_fmap option_map inorder];
        [|apply elem_of_app; by left].
      destruct IHl as (Hn&Hs&Hin). split_and!.
      * rewrite elem_of_app, elem_of_cons. intros [?|[->|Hnr]]; [done|by apply str_lt_irrefl in Hc|].
        destruct (str_lt_irrefl x). eapply str_lt_trans; [by apply Hrx|done].
      * apply sorted_app. split_and!; [done|done| |done]. intros y [->|Hy]%Hin; [done|by apply Hlx].
      * intros y. rewrite !elem_of_app, Hin. tauto.
    + apply entry_cmp_right in Hc. specialize (IHr Hr).
      destruct (ovl_cache_entry_find_link r name) as [r'|]; cbn [fmap option_fmap option_map inorder];
        [|apply elem_of_app; right; by right].
      destruct IHr as (Hn&Hs&Hin). split_and!.
      * rewrite elem_of_app, elem_of_cons. intros [Hnl|[->|?]]; [|by apply str_lt_irrefl in Hc|done].
        destruct (str_lt_irrefl x). eapply str_lt_trans; [done|by apply Hlx].
      * apply sorted_app. split_and!; [done|done|done|]. intros y [->|Hy]%Hin; [done|by apply Hrx].
      * intros y. rewrite !elem_of_app, !elem_of_cons, Hin. tauto.
    + apply entry_cmp_found in Hc as ->. apply elem_of_app. right. by left.
Qed.

Lemma filter_eq {A} (P Q : A → Prop) `{∀ x, Decision (P x), ∀ x, Decision (Q x)} (l : list A) :
  (∀ x, x ∈ l → P x ↔ Q x) → filter P l = filter Q l.
Proof.
  induction l as [|x l IH]; intros Hl; [done|]. rewrite !filter_cons. rewrite IH by (intros y Hy; apply Hl; by right).
  pose proof (Hl x ltac:(by left)) as Hx. destruct (decide (P x)), (decide (Q x)); tauto.
Qed.

Lemma nodup_keys {A B} (l : list (A * B)) a b b' : NoDup l.*1 → (a, b) ∈ l → (a, b') ∈ l → b = b'.
Proof.
  induction l as [|[x y] l IH]; [by intros _ ?%not_elem_of_nil|]. rewrite fmap_cons, NoDup_cons. intros [Hx Hnd].
  intros [H1|H1]%elem_of_cons [H2|H2]%elem_of_cons; [congruence| | |by apply IH].
  - injection H1 as -> ->. destruct Hx. apply list_elem_of_fmap. by exists (x, b').
  - injection H2 as -> ->. destruct Hx. apply list_elem_of_fmap. by exists (x, b).
Qed.

Lemma nodup_filter_fmap {A B} (f : A → B) (P : A → Prop) `{∀ x, Decision (P x)} (l : list A) :
  NoDup (f <$> l) → NoDup (f <$> filter P l).
Proof.
  induction l as [|x l IH]; [done|]. rewrite fmap_cons, NoDup_cons. intros [Hx Hnd]. rewrite filter_cons.
  destruct (decide (P x)); [|by apply IH]. rewrite fmap_cons, NoDup_cons. split; [|by apply IH].
  intros (y&He&[_ Hy]%list_elem_of_filter)%list_elem_of_fmap. apply Hx, list_elem_of_fmap. by exists y.
Qed.

(** ** One directory *)

Section Reading.
Context (iterate : LS → nat → path → list (string * bool)) (rebalance : rb_tree → rb_tree).
(** Balancing keeps the order of the names. *)
Context (Hrebalance : ∀ t, inorder (rebalance t) = inorder t).

Definition rd_all (d : ovl_readdir_data) : list ovl_cache_entry := rd_list d ++ rd_middle d.
Definition rd_names (d : ovl_readdir_data) : list string := ce_name <$> rd_all d.

(** One name more: it is there already, or comes in as a new entry. *)
Definition filled (up : bool) (d d' : ovl_readdir_data) (c : string) (chr : bool) : Prop :=
  if decide (c ∈ rd_names d) then rd_all d' ≡ₚ rd_all d ∧ rd_maybe d' = rd_maybe d
  else rd_all d' ≡ₚ rd_all d ++ [mkEntry c up false] ∧ rd_maybe d' = (if chr then [c] else []) ++ rd_maybe d.

Lemma fill_upper up d c chr :
  bst (rd_root d) → (∀ x, x ∈ inorder (rd_root d) ↔ x ∈ rd_names d) →
  let d' := ovl_fill_merge rebalance false up d (c, chr) in
  filled up d d' c chr ∧ bst (rd_root d') ∧ ∀ x, x ∈ inorder (rd_root d') ↔ x ∈ rd_names d'.
Proof.
  intros Hb Hin. unfold ovl_fill_merge, ovl_cache_entry_add_rb, filled. cbn [fst snd]. cbv zeta.
  pose proof (find_link_in (rd_root d) c Hb) as Hf. destruct (ovl_cache_entry_find_link (rd_root d) c) as [t|].
  - destruct Hf as (Hn&Hb'&Hin'). rewrite decide_False by by rewrite <-Hin.
    assert (∀ l m, rd_all (mkRdd (rd_list d ++ [mkEntry c up false]) (rd_middle d) l m) ≡ₚ rd_all d ++ [mkEntry c up false]) as Hp.
    { intros l m. unfold rd_all. cbn. rewrite <-!app_assoc. apply Permutation_app_head. by rewrite Permutation_app_comm. }
    unfold ovl_cache_entry_new, bst. destruct chr; cbn [rd_root rd_maybe rd_list rd_middle]; rewrite Hrebalance;
      (split_and!; [apply Hp|done|done|]; intros x; rewrite Hin', Hin; unfold rd_names; rewrite (Hp _ _);
       rewrite fmap_app, elem_of_app; cbn; rewrite list_elem_of_singleton; tauto).
  - rewrite decide_True by by rewrite <-Hin. done.
Qed.

Lemma filter_named (l : list ovl_cache_entry) c :
  l ≡ₚ filter (λ e, ¬ is_named c e) l ++ filter (is_named c) l.
Proof.
  induction l as [|e l IH]; [done|]. rewrite !filter_cons. destruct (decide (is_named c e)) as [He|He].
  - rewrite decide_False by tauto. rewrite <-Permutation_middle. by constructor.
  - rewrite decide_True by tauto. cbn. by constructor.
Qed.

Lemma fill_lowest up d c chr :
  bst (rd_root d) → (c ∈ inorder (rd_root d) ↔ c ∈ rd_names d) →
  let d' := ovl_fill_merge rebalance true up d (c, chr) in filled up d d' c chr ∧ rd_root d' = rd_root d.
Proof.
  intros Hb Hin. unfold ovl_fill_merge, ovl_fill_lowest, filled. cbn [fst snd]. cbv zeta.
  pose proof (find_in (rd_root d) c Hb) as Hf. destruct (ovl_cache_entry_find (rd_root d) c).
  - rewrite decide_True by (apply Hin, Hf; done). split; [|done]. split; [|done]. unfold move_to_middle, rd_all. cbn.
    etrans; [|symmetry; apply (filter_named (rd_list d ++ rd_middle d) c)].
    rewrite (filter_app (λ e, ¬ is_named c e)). by rewrite <-app_assoc.
  - rewrite decide_False by (rewrite <-Hin; intros Hc%Hf; done). unfold ovl_cache_entry_new, rd_all.
    destruct chr; cbn; by rewrite <-app_assoc.
Qed.

(** All names of a directory: the new ones come in, in its order. *)
Lemma filled_fold (lowest up : bool) es : ∀ d,
  NoDup es.*1 → bst (rd_root d) →
  (if lowest then ∀ x, x ∈ es.*1 → x ∈ inorder (rd_root d) ↔ x ∈ rd_names d else ∀ x, x ∈ inorder (rd_root d) ↔ x ∈ rd_names d) →
  let d' := foldl (ovl_fill_merge rebalance lowest up) d es in
  rd_all d' ≡ₚ rd_all d ++ ((λ e, mkEntry e.1 up false) <$> filter (λ e, e.1 ∉ rd_names d) es) ∧
  rd_maybe d' = reverse (filter (λ e, e.2 = true) (filter (λ e, e.1 ∉ rd_names d) es)).*1 ++ rd_maybe d ∧
  (lowest = false → bst (rd_root d') ∧ ∀ x, x ∈ inorder (rd_root d') ↔ x ∈ rd_names d').
Proof.
  induction es as [|[c chr] es IH]; intros d Hnd Hb Hin; cbn [foldl].
  - cbn. rewrite app_nil_r. split_and!; [done|done|]. intros ->. done.
  - apply NoDup_cons in Hnd as [Hc Hnd]. set (d1 := ovl_fill_merge rebalance lowest up d (c, chr)).
    assert (filled up d d1 c chr ∧ bst (rd_root d1) ∧ (if lowest then ∀ x, x ∈ es.*1 → x ∈ inorder (rd_root d1) ↔ x ∈ rd_names d1
      else ∀ x, x ∈ inorder (rd_root d1) ↔ x ∈ rd_names d1)) as (Hf&Hb1&Hin1).
    { destruct lowest; [|by apply fill_upper].
      destruct (fill_lowest up d c chr Hb (Hin c ltac:(by left))) as [Hf Hr]. split_and!; [done|unfold bst, d1; by rewrite Hr|].
      intros x Hx. unfold d1 at 1. rewrite Hr, (Hin x) by by right. unfold filled in Hf. unfold rd_names.
      destruct (decide (c ∈ rd_names d)); destruct Hf as [Hf _]; fold d1 in Hf; rewrite Hf; [done|].
      rewrite fmap_app, elem_of_app. cbn. rewrite list_elem_of_singleton. split; [by left|]. intros [? | ->]; done. }
    destruct (IH d1 Hnd Hb1 Hin1) as (Hall&Hmaybe&Hroot).
    assert (filter (λ e, e.1 ∉ rd_names d1) es = filter (λ e, e.1 ∉ rd_names d) es) as Hsame.
    { apply filter_eq. intros e He. assert (e.1 ≠ c) by (intros <-; apply Hc, list_elem_of_fmap; by exists e).
      unfold filled in Hf. unfold rd_names. destruct (decide (c ∈ rd_names d)); destruct Hf as [-> _]; [done|].
      rewrite fmap_app, elem_of_app. cbn. rewrite list_elem_of_singleton. tauto. }
    rewrite Hsame in Hall, Hmaybe. split_and!; [| |done].
    + rewrite Hall. unfold filled in Hf. rewrite filter_cons. cbn [fst].
      destruct (decide (c ∈ rd_names d)) as [Hcd|Hcd]; destruct Hf as [-> _].
      * by rewrite decide_False by tauto.
      * rewrite decide_True by done. rewrite <-app_assoc. done.
    + rewrite Hmaybe. unfold filled in Hf. rewrite !filter_cons. cbn [fst].
      destruct (decide (c ∈ rd_names d)) as [Hcd|Hcd]; destruct Hf as [_ ->].
      * by rewrite decide_False by tauto.
      * rewrite decide_True by done. rewrite filter_cons. cbn [snd]. destruct chr.
        -- rewrite decide_True by done. cbn [fmap list_fmap fst]. rewrite reverse_cons, <-app_assoc. done.
        -- by rewrite decide_False by done.
Qed.

(** ** Whiteouts *)

Definition quiet (s : LS) : Prop := ls_faults s = [].
Lemma read_quiet {A} (f : LS → A) s : quiet s → vfs_read f s = (Ok (f s), s).
Proof. unfold quiet, vfs_read. by intros ->. Qed.

(** A directory has a whiteout of this name. *)
Definition white (s : LS) (i : nat) (p : path) (c : string) : bool :=
  match node s i (p ++ [c]) with Some n => ovl_is_whiteout n | None => false end.
Definition flag (s : LS) (i : nat) (p : path) (names : list string) (e : ovl_cache_entry) : ovl_cache_entry :=
  if decide (ce_name e ∈ names) then ce_set_whiteout (white s i p (ce_name e)) e else e.

Lemma whiteouts_run s i p names : ∀ d, quiet s →
  ∃ d', whiteouts_loop i p names d s = (Ok d', s) ∧ rd_root d' = rd_root d ∧ rd_maybe d' = rd_maybe d ∧
    rd_all d' = flag s i p names <$> rd_all d.
Proof.
  induction names as [|c names IH]; intros d Hq.
  - exists d. split_and!; try done. rewrite <-(list_fmap_id (rd_all d)) at 1. apply list_fmap_ext. intros k e _. unfold flag.
    by rewrite decide_False by apply not_elem_of_nil.
  - cbn [whiteouts_loop]. unfold lookup_one_len. rewrite (bind_ok _ _ _ _ _ (attempt_ok _ _ _ _ (read_quiet _ _ Hq))).
    set (d1 := match node s i (p ++ [c]) with Some n => mark_whiteout c (ovl_is_whiteout n) d | None => mark_whiteout c false d end).
    assert (d1 = mark_whiteout c (white s i p c) d) as Hd1 by (unfold d1, white; by destruct (node s i (p ++ [c]))).
    destruct (IH d1 Hq) as (d'&Hrun&Hr&Hm&Hall). exists d'. split_and!; [exact Hrun|by rewrite Hr, Hd1|by rewrite Hm, Hd1|].
    rewrite Hall, Hd1. unfold rd_all, mark_whiteout. cbn [rd_list rd_middle]. rewrite <-fmap_app, <-list_fmap_compose.
    apply list_fmap_ext. intros k e _. unfold compose, flag. destruct (decide (is_named c e)) as [He|He].
    + unfold is_named in He. subst c. destruct (decide (ce_name e ∈ ce_name e :: names)) as [_|Hn]; [|by destruct Hn; left].
      change (ce_name (ce_set_whiteout ?b e)) with (ce_name e). by destruct (decide (ce_name e ∈ names)).
    + destruct (decide (ce_name e ∈ names)); [by rewrite decide_True by by right|].
      rewrite decide_False; [done|]. intros [Hc|?]%elem_of_cons; [by apply He|done].
Qed.

(** Reading one directory. *)
Lemma dir_read_run (lowest up : bool) s i p d :
  quiet s → NoDup (iterate s i p).*1 → bst (rd_root d) → (∀ x, x ∈ inorder (rd_root d) ↔ x ∈ rd_names d) →
  ∃ d', ovl_dir_read iterate rebalance lowest up i p d s = (Ok d', s) ∧
    rd_all d' ≡ₚ rd_all d ++ ((λ e, mkEntry e.1 up (e.2 && white s i p e.1)) <$> filter (λ e, e.1 ∉ rd_names d) (iterate s i p)) ∧
    (lowest = false → bst (rd_root d') ∧ ∀ x, x ∈ inorder (rd_root d') ↔ x ∈ rd_names d').
Proof.
  intros Hq Hnd Hb Hin. unfold ovl_dir_read. rewrite (bind_ok _ _ _ _ _ (read_quiet (λ _, tt) s Hq)).
  rewrite (bind_ok _ _ _ _ _ (read_quiet _ s Hq)). set (d0 := mkRdd (rd_list d) (rd_middle d) (rd_root d) []).
  set (es := iterate s i p) in *.
  destruct (filled_fold lowest up es d0 Hnd Hb) as (Hall&Hmaybe&Hroot); [destruct lowest; [intros x _|intros x]; apply Hin|].
  set (d1 := foldl (ovl_fill_merge rebalance lowest up) d0 es) in *. change (rd_names d0) with (rd_names d) in *.
  change (rd_all d0) with (rd_all d) in *. rewrite app_nil_r in Hmaybe. set (new := filter (λ e, e.1 ∉ rd_names d) es) in *.
  assert (∀ e, e ∈ new → e.2 = true → e.1 ∈ rd_maybe d1) as Hin1.
  { intros e He Ht. rewrite Hmaybe. apply elem_of_reverse, list_elem_of_fmap. exists e. split; [done|]. by apply list_elem_of_filter. }
  assert (∀ c, c ∈ rd_maybe d1 → (c ∉ rd_names d) ∧ ∃ e, e ∈ es ∧ e.1 = c ∧ e.2 = true) as Hin2.
  { intros c. rewrite Hmaybe, elem_of_reverse, list_elem_of_fmap. intros (e&->&[Ht He]%list_elem_of_filter).
    apply list_elem_of_filter in He as [Hn He]. split; [done|]. by exists e. }
  assert (flag s i p (rd_maybe d1) <$> (rd_all d ++ ((λ e, mkEntry e.1 up false) <$> new)) =
    rd_all d ++ ((λ e, mkEntry e.1 up (e.2 && white s i p e.1)) <$> new)) as Hflag.
  { rewrite fmap_app. f_equal.
    - rewrite <-(list_fmap_id (rd_all d)) at 2. apply list_fmap_ext. intros k e He%list_elem_of_lookup_2. unfold flag.
      rewrite decide_False; [done|]. intros Hc%Hin2. destruct Hc as [Hc _]. apply Hc, list_elem_of_fmap. by exists e.
    - rewrite <-list_fmap_compose. apply list_fmap_ext. intros k e He%list_elem_of_lookup_2. unfold compose, flag. cbn [ce_name].
      destruct e as [c b]. cbn [fst snd] in *. destruct b.
      + rewrite decide_True by by apply (Hin1 (c, true)). done.
      + rewrite decide_False; [done|]. intros (_&[c' b']&He'&Hc'&Hb')%Hin2. cbn in Hc', Hb'. subst.
        apply list_elem_of_filter in He as [_ He]. by pose proof (nodup_keys _ _ _ _ Hnd He He'). }
  case_bool_decide as Hm.
  - exists d1. split_and!; [done| |done]. rewrite Hall. rewrite <-Hflag, Hm. apply reflexive_eq. symmetry.
    rewrite <-(list_fmap_id (_ ++ _)) at 2. apply list_fmap_ext. intros k e _. unfold flag.
    by rewrite decide_False by apply not_elem_of_nil.
  - unfold ovl_check_whiteouts. rewrite (bind_ok _ _ _ _ _ (read_quiet (λ _, tt) s Hq)).
    set (d2 := mkRdd (rd_list d1) (rd_middle d1) (rd_root d1) []).
    destruct (whiteouts_run s i p (rd_maybe d1) d2 Hq) as (d'&Hrun&Hr&_&Hall'). exists d'. split_and!; [exact Hrun| |].
    + rewrite Hall'. change (rd_all d2) with (rd_all d1). by rewrite Hall, Hflag.
    + intros Hl. destruct (Hroot Hl) as [Hb1 Hi1]. rewrite Hr. change (rd_root d2) with (rd_root d1). split; [done|]. intros x. rewrite Hi1. unfold rd_names. rewrite Hall'.
      change (rd_all d2) with (rd_all d1). rewrite <-list_fmap_compose. 
      replace (ce_name ∘ flag s i p (rd_maybe d1) <$> rd_all d1) with (ce_name <$> rd_all d1); [done|].
      apply list_fmap_ext. intros k e _. unfold compose, flag. by destruct (decide _).
Qed.

(** ** All directories *)

(** The entries of the directories in turn, without the names that came before. *)
Fixpoint merged (s : LS) (rs : list (bool * (nat * path))) (names : list string) : list ovl_cache_entry :=
  match rs with
  | [] => []
  | (up, (i, p)) :: rest =>
      let new := (λ e, mkEntry e.1 up (e.2 && white s i p e.1)) <$> filter (λ e, e.1 ∉ names) (iterate s i p) in
      new ++ merged s rest (names ++ (ce_name <$> new))
  end.
Lemma merged_ext s rs n1 n2 : (∀ x, x ∈ n1 ↔ x ∈ n2) → merged s rs n1 = merged s rs n2.
Proof.
  revert n1 n2. induction rs as [|[up [i p]] rs IH]; intros n1 n2 Hn; [done|]. cbn [merged].
  rewrite (filter_eq (λ e, e.1 ∉ n1) (λ e, e.1 ∉ n2)) by (intros e _; by rewrite Hn). f_equal. apply IH. intros x.
  by rewrite !elem_of_app, Hn.
Qed.

Lemma merged_loop_run s rs : ∀ d,
  quiet s → Forall (λ r, NoDup (iterate s r.2.1 r.2.2).*1) rs → bst (rd_root d) → (∀ x, x ∈ inorder (rd_root d) ↔ x ∈ rd_names d) →
  ∃ d', read_merged_loop iterate rebalance rs d s = (Ok d', s) ∧ rd_all d' ≡ₚ rd_all d ++ merged s rs (rd_names d).
Proof.
  induction rs as [|[up [i p]] rs IH]; intros d Hq Hnd Hb Hin.
  - exists d. split; [done|]. cbn. by rewrite app_nil_r.
  - apply Forall_cons in Hnd as [Hnd Hnds]. cbn [fst snd] in Hnd. cbn [read_merged_loop merged].
    destruct (dir_read_run (bool_decide (rs = [])) up s i p d Hq Hnd Hb Hin) as (d1&Hrun&Hall&Hroot).
    rewrite (bind_ok _ _ _ _ _ Hrun). set (new := _ <$> filter _ _) in Hall |- *.
    assert (∀ x, x ∈ rd_names d1 ↔ x ∈ rd_names d ++ (ce_name <$> new)) as Hnames.
    { intros x. unfold rd_names. rewrite Hall, fmap_app. done. }
    destruct (decide (rs = [])) as [->|Hne].
    + exists d1. split; [done|]. cbn. by rewrite app_nil_r.
    + rewrite bool_decide_eq_false_2 in Hroot by done. destruct (Hroot eq_refl) as [Hb1 Hin1].
      destruct (IH d1 Hq Hnds Hb1 Hin1) as (d'&Hrun'&Hall'). exists d'. split; [done|].
      rewrite Hall', Hall, <-app_assoc, (merged_ext s rs _ _ Hnames). done.
Qed.

(** What a file system says of its directories. *)
Record iterate_ok (s : LS) (i : nat) (p : path) : Prop := {
  io_nodup : NoDup (iterate s i p).*1;
  io_names : ∀ c, c ≠ "." → c ≠ ".." → c ∈ (iterate s i p).*1 ↔ is_Some (node s i (p ++ [c]));
  io_chr : ∀ c b n, (c, b) ∈ iterate s i p → c ≠ "." → c ≠ ".." → node s i (p ++ [c]) = Some n →
    b = match ri_type n with S_IFCHR _ => true | _ => false end;
}.

Lemma merged_names s rs : ∀ names,
  Forall (λ r, NoDup (iterate s r.2.1 r.2.2).*1) rs →
  NoDup (ce_name <$> merged s rs names) ∧ ∀ x, x ∈ ce_name <$> merged s rs names → x ∉ names.
Proof.
  induction rs as [|[up [i p]] rs IH]; intros names Hnd; cbn [merged].
  - split; [constructor|]. by intros x ?%not_elem_of_nil.
  - apply Forall_cons in Hnd as [Hnd Hnds]. cbn [fst snd] in Hnd. set (new := _ <$> filter _ _).
    assert (ce_name <$> new = (filter (λ e, e.1 ∉ names) (iterate s i p)).*1) as Hnew.
    { unfold new. rewrite <-list_fmap_compose. done. }
    assert (∀ x, x ∈ ce_name <$> new → x ∉ names) as Hfresh.
    { intros x. rewrite Hnew, list_elem_of_fmap. intros (e&->&[? _]%list_elem_of_filter). done. }
    destruct (IH (names ++ (ce_name <$> new)) Hnds) as [Hnd' Hfr']. rewrite fmap_app. split.
    + apply NoDup_app. split_and!; [|intros x Hx1 Hx2; apply (Hfr' x Hx2), elem_of_app; by right|done].
      rewrite Hnew. by apply nodup_filter_fmap.
    + intros x [Hx|Hx]%elem_of_app; [by apply Hfresh|]. intros Hn. apply (Hfr' x Hx), elem_of_app. by left.
Qed.

(** The uppermost entry of a name. *)
Fixpoint first_node (s : LS) (rs : list (bool * (nat * path))) (c : string) : option rinode :=
  match rs with
  | [] => None
  | (_, (i, p)) :: rest => match node s i (p ++ [c]) with Some n => Some n | None => first_node s rest c end
  end.
Definition visible (s : LS) (rs : list (bool * (nat * path))) (c : string) : bool :=
  match first_node s rs c with Some n => negb (ovl_is_whiteout n) | None => false end.

Lemma merged_visible s rs c : ∀ names,
  Forall (λ r, iterate_ok s r.2.1 r.2.2) rs → c ≠ "." → c ≠ ".." → c ∉ names →
  (∃ e, e ∈ merged s rs names ∧ ce_name e = c ∧ ce_is_whiteout e = false) ↔ visible s rs c = true.
Proof.
  unfold visible. induction rs as [|[up [i p]] rs IH]; intros names Hok Hd1 Hd2 Hn; cbn [merged first_node].
  - split; [|done]. by intros (e&?%not_elem_of_nil&_).
  - apply Forall_cons in Hok as [[Hnd Hnm Hch] Hok]. cbn [fst snd] in *. set (new := _ <$> filter _ _).
    destruct (node s i (p ++ [c])) as [n|] eqn:Hnode.
    + assert (c ∈ (iterate s i p).*1) as Hc by (apply Hnm; [done|done|by rewrite Hnode]).
      apply list_elem_of_fmap in Hc as ([c' b]&Heq&Hcb). cbn in Heq. subst c'.
      assert (mkEntry c up (b && white s i p c) ∈ new) as Hin.
      { apply list_elem_of_fmap. exists (c, b). split; [done|]. by apply list_elem_of_filter. }
      assert (b && white s i p c = ovl_is_whiteout n) as Hw.
      { unfold white. rewrite Hnode, (Hch c b n) by done. unfold ovl_is_whiteout. by destruct (ri_type n). }
      split.
      * intros (e&[He|He]%elem_of_app&Hec&Hew).
        -- apply list_elem_of_fmap in He as ([c' b']&->&[_ Hb']%list_elem_of_filter). cbn in Hec, Hew. subst c'.
           pose proof (nodup_keys _ _ _ _ Hnd Hcb Hb') as ->. by rewrite <-Hw, Hew.
        -- destruct (merged_names s rs (names ++ (ce_name <$> new))) as [_ Hfr].
           { eapply Forall_impl; [exact Hok|]. by intros r []. }
           destruct (Hfr c); [apply list_elem_of_fmap; by exists e|]. apply elem_of_app. right. apply list_elem_of_fmap. eexists. split; [|exact Hin]. done.
      * intros Hv. eexists. split; [apply elem_of_app; left; exact Hin|]. split; [done|]. cbn. rewrite Hw. by apply negb_true_iff.
    + assert (c ∉ (iterate s i p).*1) as Hc by (rewrite Hnm, Hnode by done; by intros []).
      assert (∀ e, e ∈ new → ce_name e ≠ c) as Hnc.
      { intros e (e'&->&[_ He']%list_elem_of_filter)%list_elem_of_fmap Heq. cbn in Heq. subst c. apply Hc, list_elem_of_fmap. by exists e'. }
      rewrite <-(IH (names ++ (ce_name <$> new))); [|done|done|done|].
      * split; intros (e&He&Hec&Hew); [apply elem_of_app in He as [He|He]; [by destruct (Hnc e He)|by exists e]|].
        exists e. split; [|done]. apply elem_of_app. by right.
      * intros [?|(e&->&He)%list_elem_of_fmap]%elem_of_app; [done|by destruct (Hnc e He)].
Qed.

(** The names of the entries that are no whiteouts. *)
Definition shown (l : list ovl_cache_entry) : list string := ce_name <$> filter (λ e, ce_is_whiteout e = false) l.

Lemma dir_read_merged_run s de :
  quiet s → Forall (λ r, iterate_ok s r.2.1 r.2.2) (real_dirs de) →
  ∃ l, ovl_dir_read_merged iterate rebalance de s = (Ok l, s) ∧ NoDup (ce_name <$> l) ∧
    ∀ c, c ≠ "." → c ≠ ".." → c ∈ shown l ↔ visible s (real_dirs de) c = true.
Proof.
  intros Hq Hok.
  assert (Forall (λ r, NoDup (iterate s r.2.1 r.2.2).*1) (real_dirs de)) as Hnd by (eapply Forall_impl; [exact Hok|by intros r []]).
  destruct (merged_loop_run s (real_dirs de) (mkRdd [] [] RbLeaf []) Hq Hnd) as (d'&Hrun&Hall); [constructor|done|].
  unfold ovl_dir_read_merged. rewrite (bind_ok _ _ _ _ _ Hrun).
  eexists. split; [reflexivity|]. change (rd_all (mkRdd [] [] RbLeaf [])) with (@nil ovl_cache_entry) in Hall.
  change (rd_names (mkRdd [] [] RbLeaf [])) with (@nil string) in Hall. rewrite app_nil_l in Hall.
  assert (rd_middle d' ++ rd_list d' ≡ₚ merged s (real_dirs de) []) as Hp by (rewrite <-Hall; apply Permutation_app_comm).
  destruct (merged_names s (real_dirs de) [] Hnd) as [Hnodup _]. split; [by rewrite Hp|].
  intros c Hd1 Hd2. rewrite <-(merged_visible s (real_dirs de) c []) by (done || apply not_elem_of_nil).
  unfold shown. rewrite list_elem_of_fmap. split.
  - intros (e&->&[Hw He]%list_elem_of_filter). exists e. by rewrite <-Hp.
  - intros (e&He&<-&Hw). exists e. split; [done|]. apply list_elem_of_filter. by rewrite Hp.
Qed.

(** The names [ovl_iterate] emits. *)
Lemma ovl_iterate_run s de :
  quiet s → Forall (λ r, iterate_ok s r.2.1 r.2.2) (real_dirs de) →
  ∃ names, ovl_iterate iterate rebalance de s = (Ok names, s) ∧ NoDup names ∧
    ∀ c, c ≠ "." → c ≠ ".." → c ∈ names ↔ visible s (real_dirs de) c = true.
Proof.
  intros Hq Hok. destruct (dir_read_merged_run s de Hq Hok) as (l&Hrun&Hnd&Hc). exists (shown l).
  unfold ovl_iterate. rewrite (bind_ok _ _ _ _ _ Hrun). split; [done|]. split; [by apply nodup_filter_fmap|done].
Qed.
End Reading.

(** ** Checking that a directory is empty *)

(** A state in which calls were made. *)
Definition called (s s' : LS) : Prop := ∃ f, s' = mkLS (ls_layers s) (ls_noxattr s) (ls_impure s) f.
Lemma called_refl s : called s s.
Proof. exists (ls_faults s). by destruct s. Qed.
Lemma called_trans s1 s2 s3 : called s1 s2 → called s2 s3 → called s1 s3.
Proof. intros [f ->] [g ->]. by exists g. Qed.
Lemma called_node s s' i p : called s s' → node s' i p = node s i p.
Proof. by intros [f ->]. Qed.
Lemma called_first s s' rs c : called s s' → first_node s' rs c = first_node s rs c.
Proof. intros Hc. induction rs as [|[up [i p]] rs IH]; [done|]. cbn. by rewrite (called_node s s'), IH. Qed.
Lemma read_called {A} (f : LS → A) s : ∃ s', called s s' ∧ (vfs_read f s = (Ok (f s), s') ∨ vfs_read f s = (Err (OsError EIO), s')).
Proof.
  unfold vfs_read. destruct (ls_faults s) as [|[|n] fs] eqn:Hf.
  - exists s. split; [apply called_refl|by left].
  - eexists. split; [by exists fs|by left].
  - eexists. split; [by exists fs|by right].
Qed.

Lemma mark_names c b d : ce_name <$> rd_all (mark_whiteout c b d) = ce_name <$> rd_all d.
Proof.
  unfold rd_all, mark_whiteout. cbn. rewrite <-fmap_app, <-list_fmap_compose. apply list_fmap_ext. intros k e _. unfold compose.
  by destruct (decide (is_named c e)).
Qed.
Lemma mark_white c b d e : e ∈ rd_all (mark_whiteout c b d) → ce_is_whiteout e = true →
  (∃ e0, e0 ∈ rd_all d ∧ ce_name e0 = ce_name e ∧ ce_is_whiteout e0 = true) ∨ (ce_name e = c ∧ b = true).
Proof.
  unfold rd_all, mark_whiteout. cbn. rewrite <-fmap_app. intros (e0&->&He0)%list_elem_of_fmap.
  destruct (decide (is_named c e0)) as [Hc|]; cbn; [by right|]. intros Hw. left. by exists e0.
Qed.

(** An entry is marked only if the directory has a whiteout. *)
Lemma whiteouts_called i p names : ∀ d s, ∃ d' s',
  whiteouts_loop i p names d s = (Ok d', s') ∧ called s s' ∧ rd_root d' = rd_root d ∧ ce_name <$> rd_all d' = ce_name <$> rd_all d ∧
  ∀ e, e ∈ rd_all d' → ce_is_whiteout e = true →
    (∃ e0, e0 ∈ rd_all d ∧ ce_name e0 = ce_name e ∧ ce_is_whiteout e0 = true) ∨ (ce_name e ∈ names ∧ white s i p (ce_name e) = true).
Proof.
  induction names as [|c names IH]; intros d s.
  { exists d, s. split_and!; [done|apply called_refl|done|done|]. intros e He Hw. left. by exists e. }
  cbn [whiteouts_loop]. unfold lookup_one_len. destruct (read_called (λ s, node s i (p ++ [c])) s) as (s1&Hc&Hr).
  set (d1 := match vfs_read (λ s, node s i (p ++ [c])) s with
             | (Ok (Some n), _) => mark_whiteout c (ovl_is_whiteout n) d | (Ok None, _) => mark_whiteout c false d | _ => d end).
  assert (rd_root d1 = rd_root d ∧ ce_name <$> rd_all d1 = ce_name <$> rd_all d ∧
    ∀ e, e ∈ rd_all d1 → ce_is_whiteout e = true →
      (∃ e0, e0 ∈ rd_all d ∧ ce_name e0 = ce_name e ∧ ce_is_whiteout e0 = true) ∨ (ce_name e ∈ c :: names ∧ white s i p (ce_name e) = true))
    as (Hd1r&Hd1n&Hd1w).
  { unfold d1. destruct Hr as [-> | ->].
    - unfold white. destruct (node s i (p ++ [c])) as [n|] eqn:Hn; (split_and!; [done|apply mark_names|]);
        intros e He Hw; (destruct (mark_white _ _ _ _ He Hw) as [|[-> Hb]]; [by left|]); [|done].
      right. rewrite Hn. split; [left|done].
    - split_and!; [done|done|]. intros e He Hw. left. by exists e. }
  destruct (IH d1 s1) as (d'&s'&Hrun&Hc'&Hr'&Hn'&Hw'). exists d', s'. split_and!.
  - rewrite <-Hrun. unfold mbind, M_bind, attempt, d1. destruct Hr as [-> | ->]; [by destruct (node s i (p ++ [c]))|done].
  - by eapply called_trans.
  - congruence.
  - congruence.
  - intros e He Hw. destruct (Hw' e He Hw) as [(e0&He0&Hn0&Hw0)|[Hin Hwh]].
    + rewrite <-Hn0. by apply Hd1w.
    + right. split; [by right|]. unfold white in *. by rewrite (called_node s s1) in Hwh.
Qed.

Section Empty.
Context (iterate : LS → nat → path → list (string * bool)) (rebalance : rb_tree → rb_tree).
Context (Hrebalance : ∀ t, inorder (rebalance t) = inorder t) (Hiter : ∀ s i p, iterate_ok iterate s i p).

(** What has been read of the directories [rs] for the name [c]. *)
Record noted (s : LS) (rs : list (bool * (nat * path))) (d : ovl_readdir_data) : Prop := {
  no_names : ∀ c, c ≠ "." → c ≠ ".." → is_Some (first_node s rs c) → c ∈ rd_names d;
  no_white : ∀ e, e ∈ rd_all d → ce_name e ≠ "." → ce_name e ≠ ".." → ce_is_whiteout e = true →
    ∃ n, first_node s rs (ce_name e) = Some n ∧ ovl_is_whiteout n = true;
}.
Lemma first_app s rs r c : first_node s (rs ++ [r]) c = match first_node s rs c with Some n => Some n | None => node s r.2.1 (r.2.2 ++ [c]) end.
Proof.
  induction rs as [|[up [i p]] rs IH]; cbn; [destruct r as [up [i p]]; cbn; by destruct (node s i (p ++ [c]))|].
  by destruct (node s i (p ++ [c])).
Qed.

Lemma dir_read_called (lowest up : bool) i p rs d s :
  noted s rs d → bst (rd_root d) → (∀ x, x ∈ inorder (rd_root d) ↔ x ∈ rd_names d) →
  match ovl_dir_read iterate rebalance lowest up i p d s with
  | (Ok d', s') => called s s' ∧ noted s (rs ++ [(up, (i, p))]) d' ∧
      (lowest = false → bst (rd_root d') ∧ ∀ x, x ∈ inorder (rd_root d') ↔ x ∈ rd_names d')
  | (Err _, s') => called s s'
  | (Panic _, _) => False
  end.
Proof.
  intros [Hn Hw] Hb Hin. unfold ovl_dir_read. unfold mbind at 1, M_bind at 1.
  destruct (read_called (λ _, tt) s) as (s1&Hc1&[-> | ->]); [|done]. unfold mbind at 1, M_bind at 1.
  destruct (read_called (λ s, iterate s i p) s1) as (s2&Hc2&[-> | ->]); [|by eapply called_trans].
  pose proof (called_trans _ _ _ Hc1 Hc2) as Hc. set (d0 := mkRdd (rd_list d) (rd_middle d) (rd_root d) []).
  destruct (Hiter s1 i p) as [Hnd Hnm _]. set (es := iterate s1 i p) in *.
  destruct (filled_fold rebalance Hrebalance lowest up es d0 Hnd Hb) as (Hall&Hmaybe&Hroot); [destruct lowest; [intros x _|intros x]; apply Hin|].
  set (d1 := foldl (ovl_fill_merge rebalance lowest up) d0 es) in *. change (rd_names d0) with (rd_names d) in *.
  change (rd_all d0) with (rd_all d) in *. rewrite app_nil_r in Hmaybe.
  assert (∀ c, c ∈ rd_names d1 ↔ c ∈ rd_names d ∨ c ∈ es.*1) as Hnames.
  { intros c. unfold rd_names at 1. rewrite Hall, fmap_app, elem_of_app. fold (rd_names d). rewrite <-list_fmap_compose. split.
    - intros [|(e&->&[_ He]%list_elem_of_filter)%list_elem_of_fmap]; [by left|right]. apply list_elem_of_fmap. by exists e.
    - intros [|(e&->&He)%list_elem_of_fmap]; [by left|]. destruct (decide (e.1 ∈ rd_names d)); [by left|right].
      apply list_elem_of_fmap. exists e. split; [done|]. by apply list_elem_of_filter. }
  assert (∀ d' s', called s s' → ce_name <$> rd_all d' = ce_name <$> rd_all d1 →
    (∀ e, e ∈ rd_all d' → ce_is_whiteout e = true →
      (∃ e0, e0 ∈ rd_all d1 ∧ ce_name e0 = ce_name e ∧ ce_is_whiteout e0 = true) ∨ (ce_name e ∈ rd_maybe d1 ∧ white s' i p (ce_name e) = true)) →
    noted s (rs ++ [(up, (i, p))]) d') as Hdone.
  { intros d' s' Hcs Heq Hwh. assert (∀ c, c ∈ rd_names d' ↔ c ∈ rd_names d ∨ c ∈ es.*1) as Hnames' by (unfold rd_names at 1; by rewrite Heq).
    split.
    - intros c H1 H2. rewrite first_app. cbn. rewrite Hnames'. destruct (first_node s rs c) eqn:Hf; [intros _; left; apply Hn; [done|done|by rewrite Hf]|].
      intros Hsome. right. apply Hnm; [done|done|]. by rewrite (called_node s s1).
    - intros e He H1 H2 Ht. rewrite first_app. cbn. destruct (Hwh e He Ht) as [(e0&He0&Hn0&Hw0)|[Hm Hwt]].
      + rewrite Hall in He0. apply elem_of_app in He0 as [He0|(x&->&_)%list_elem_of_fmap]; [|done].
        destruct (Hw e0 He0) as (n&Hf&?); [by rewrite Hn0|by rewrite Hn0|done|]. rewrite Hn0 in Hf. rewrite Hf. by exists n.
      + rewrite Hmaybe, elem_of_reverse, list_elem_of_fmap in Hm. destruct Hm as (x&Hx&[_ [Hx' _]%list_elem_of_filter]%list_elem_of_filter).
        rewrite <-Hx in Hx'. destruct (first_node s rs (ce_name e)) eqn:Hf.
        { destruct Hx'. apply Hn; [done|done|by rewrite Hf]. }
        unfold white in Hwt. rewrite (called_node s s') in Hwt by done. destruct (node s i (p ++ [ce_name e])) as [n|]; [|done]. by exists n. }
  case_bool_decide as Hm.
  - split; [done|]. split; [|done]. eapply Hdone; [exact Hc|done|]. intros e He Ht. left. by exists e.
  - unfold ovl_check_whiteouts. unfold mbind, M_bind. destruct (read_called (λ _, tt) s2) as (s3&Hc3&[-> | ->]); [|by eapply called_trans].
    pose proof (called_trans _ _ _ Hc Hc3) as Hc'. set (d2 := mkRdd (rd_list d1) (rd_middle d1) (rd_root d1) []).
    destruct (whiteouts_called i p (rd_maybe d1) d2 s3) as (d'&s'&->&Hcs&Hr&Hnn&Hww). split; [by eapply called_trans|]. split; [by eapply Hdone|].
    intros Hl. destruct (Hroot Hl) as [Hb1 Hi1]. rewrite Hr. split; [done|]. intros x. cbn [rd_root d2]. rewrite Hi1. unfold rd_names. by rewrite Hnn.
Qed.

Lemma merged_called rest : ∀ rs d s,
  noted s rs d → bst (rd_root d) → (∀ x, x ∈ inorder (rd_root d) ↔ x ∈ rd_names d) →
  match read_merged_loop iterate rebalance rest d s with
  | (Ok d', s') => called s s' ∧ noted s (rs ++ rest) d'
  | (Err _, s') => called s s'
  | (Panic _, _) => False
  end.
Proof.
  induction rest as [|[up [i p]] rest IH]; intros rs d s Hno Hb Hin; cbn [read_merged_loop].
  { rewrite app_nil_r. split; [apply called_refl|done]. }
  pose proof (dir_read_called (bool_decide (rest = [])) up i p rs d s Hno Hb Hin) as Hd. unfold mbind, M_bind.
  destruct (ovl_dir_read _ _ _ _ _ _ _ s) as [[d1|e|x] s1]; [|done|done]. destruct Hd as (Hc&Hno1&Hroot).
  destruct (decide (rest = [])) as [->|Hne]; [done|]. rewrite bool_decide_eq_false_2 in Hroot by done. destruct (Hroot eq_refl) as [Hb1 Hin1].
  pose proof (λ l c, called_first s s1 l c Hc) as Hf. assert (noted s1 (rs ++ [(up, (i, p))]) d1) as Hno1'.
  { destruct Hno1 as [H1 H2]. split; [intros c; rewrite Hf; apply H1|intros e; rewrite Hf; apply H2]. }
  specialize (IH _ d1 s1 Hno1' Hb1 Hin1). rewrite <-app_assoc in IH. cbn in IH.
  destruct (read_merged_loop _ _ rest d1 s1) as [[d'|e|x] s']; [|by eapply called_trans|done]. destruct IH as [Hc' Hno']. split; [by eapply called_trans|].
  destruct Hno' as [H1 H2]. split; [intros c; rewrite <-Hf; apply H1|intros e; rewrite <-Hf; apply H2].
Qed.

Lemma empty_loop_white l l' : empty_loop l = Some l' → ∀ e, e ∈ l → ce_is_whiteout e = true ∨ ce_name e = "." ∨ ce_name e = "..".
Proof.
  revert l'. induction l as [|x l IH]; intros l' Hl e He; [by apply not_elem_of_nil in He|]. cbn in Hl.
  assert (∃ l'', empty_loop l = Some l'' ∧ (ce_is_whiteout x = true ∨ ce_name x = "." ∨ ce_name x = "..")) as (l''&Hl''&Hx).
  { destruct (ce_is_whiteout x).
    - destruct (empty_loop l) as [l''|]; [by exists l''; split; [|left]|]. by destruct (ce_is_upper x).
    - destruct (String.eqb_spec (ce_name x) "."), (String.eqb_spec (ce_name x) ".."); cbn in Hl; [exists l'; auto..|done]. }
  apply elem_of_cons in He as [->|He]; [done|by eapply IH].
Qed.

(** A directory that passes shows nothing, and reading it changes no layer. *)
Lemma check_empty_called de s :
  match ovl_check_empty_dir iterate rebalance de s with
  | (Ok _, s') => called s s' ∧ ∀ c, c ≠ "." → c ≠ ".." → visible s (real_dirs de) c = false
  | (Err _, s') => called s s'
  | (Panic _, _) => False
  end.
Proof.
  unfold ovl_check_empty_dir, ovl_dir_read_merged.
  pose proof (merged_called (real_dirs de) [] (mkRdd [] [] RbLeaf []) s) as Hm. unfold mbind, M_bind.
  destruct (read_merged_loop _ _ _ _ s) as [[d|e|x] s']; [|apply Hm; [|constructor|done]..].
  2,3: split; [by intros c _ _ []|by intros e' ?%not_elem_of_nil].
  destruct Hm as [Hc [Hn Hw]]; [split; [by intros c _ _ []|by intros e' ?%not_elem_of_nil]|constructor|done|]. cbn in Hn, Hw. cbn.
  destruct (empty_loop _) as [l|] eqn:Hl; [|done]. split; [done|]. intros c H1 H2. unfold visible.
  destruct (first_node s (real_dirs de) c) as [n|] eqn:Hf; [|done]. apply negb_false_iff.
  assert (c ∈ rd_names d) as (e&->&He)%list_elem_of_fmap by (apply Hn; [done|done|by rewrite Hf]).
  destruct (empty_loop_white _ _ Hl e) as [Ht|[?|?]]; [|  |done|done].
  { unfold rd_all in He. rewrite elem_of_app in *. tauto. }
  destruct (Hw e He H1 H2 Ht) as (m&Hm&?). congruence.
Qed.
End Empty.
