(* ===== verification/OvlDirFileProps.v ===== *)
(** * Open directories: what holds of them

    However many files of a directory are open, read, sought in and closed while it
    changes, no cache is used after it was freed and none is kept longer; and who
    reads a directory piece by piece gets the names it had at one moment. *)

From S2P Require Import Prelude FileSys OvlOpts OvlMount OvlCopyUp OvlLookup OvlReaddir OvlMountProps OvlReaddirProps OvlDirFile.

(** ** The files that hold a cache *)

Definition holders (m : gmap nat ovl_dir_file) (c : nat) : gset nat := dom (filter (λ e, od_cache e.2 = Some c) m).
Lemma elem_of_holders m c fd : fd ∈ holders m c ↔ ∃ od, m !! fd = Some od ∧ od_cache od = Some c.
Proof.
  unfold holders. rewrite elem_of_dom. split.
  - intros [od [Hm Hc]%map_lookup_filter_Some]. by exists od.
  - intros (od&Hm&Hc). exists od. by apply map_lookup_filter_Some.
Qed.
Lemma holders_alter m c fd f : (∀ od, od_cache (f od) = od_cache od) → holders (alter f fd m) c = holders m c.
Proof.
  intros Hf. apply leibniz_equiv, set_equiv. intros x. rewrite !elem_of_holders. destruct (decide (x = fd)) as [->|Hne].
  - rewrite lookup_alter_eq. split.
    + intros (od&(od'&Hod&->)%fmap_Some&Hc). exists od'. by rewrite <-Hc.
    + intros (od&Hod&Hc). exists (f od). by rewrite Hod, Hf.
  - by rewrite lookup_alter_ne.
Qed.
(** A file lets go of its cache, if it has one. *)
Lemma holders_drop m m' c fd :
  (∀ x, x ≠ fd → m' !! x = m !! x) → (∀ od, m' !! fd = Some od → od_cache od = None) → holders m' c = holders m c ∖ {[fd]}.
Proof.
  intros Hne Hfd. apply leibniz_equiv, set_equiv. intros x. rewrite elem_of_difference, !elem_of_holders, elem_of_singleton.
  destruct (decide (x = fd)) as [->|Hx]; [|rewrite Hne by done; tauto].
  split; [intros (od&Hod&Hc); rewrite (Hfd od Hod) in Hc; done|by intros [_ []]].
Qed.
(** A file that has none gets one. *)
Lemma holders_take m m' c fd od :
  (∀ x, x ≠ fd → m' !! x = m !! x) → m' !! fd = Some od → (∀ od', m !! fd = Some od' → od_cache od' = None) →
  holders m' c = if decide (od_cache od = Some c) then {[fd]} ∪ holders m c else holders m c.
Proof.
  intros Hne Hfd Hold. apply leibniz_equiv, set_equiv. intros x.
  assert (x ∈ holders m' c ↔ x = fd ∧ od_cache od = Some c ∨ x ∈ holders m c) as ->.
  { rewrite !elem_of_holders. destruct (decide (x = fd)) as [->|Hx]; [|rewrite Hne by done; tauto]. split.
    - intros (od'&Hod'&Hc). left. rewrite Hfd in Hod'. by injection Hod' as ->.
    - intros [[_ Hc]|(od'&Hod'&Hc)]; [by exists od|]. by rewrite (Hold _ Hod') in Hc. }
  destruct (decide (od_cache od = Some c)); [rewrite elem_of_union, elem_of_singleton|]; tauto.
Qed.

(** ** The invariant *)

(** The caches that are allocated are the ones of open files, each as often as its
    count says; the one of the inode is one of them. *)
Definition count_ok (o : option ovl_dir_cache) (h : gset nat) : Prop :=
  match o with Some dc => dc_refcount dc = Z.of_nat (size h) ∧ h ≠ ∅ | None => h = ∅ end.
Record dwf (s : DF) : Prop := {
  dw_count : ∀ c, count_ok (df_caches s !! c) (holders (df_files s) c);
  dw_icache : ∀ c, df_icache s = Some c → is_Some (df_caches s !! c);
}.

(** A directory nobody uses. *)
Definition unused (s : DF) : Prop := df_files s = ∅ ∧ df_caches s = ∅ ∧ df_icache s = None.
Lemma holders_empty c : holders ∅ c = ∅.
Proof. apply leibniz_equiv, set_equiv. intros x. rewrite elem_of_holders. split; [by intros (od&?%lookup_empty_Some&_)|by intros ?%elem_of_empty]. Qed.
Lemma unused_wf s : unused s → dwf s.
Proof.
  intros (Hf&Hc&Hi). split; [|by rewrite Hi]. intros c. rewrite Hc, Hf, lookup_empty. apply holders_empty.
Qed.

(** A computation that reads the layers: where no call fails, they stay as they are. *)
Definition reads {A} (m : M LS A) : Prop := ∀ l, match m l with (Panic _, _) => False | (_, l') => quiet l → l' = l end.
Lemma lreads_ret {A} (a : A) : reads (mret a).
Proof. by intros l. Qed.
Lemma lreads_read {A} (f : LS → A) : reads (vfs_read f).
Proof. intros l. unfold vfs_read, quiet. destruct (ls_faults l) as [|[] fs]; done. Qed.
Lemma lreads_bind {A B} (m : M LS A) (k : A → M LS B) : reads m → (∀ a, reads (k a)) → reads (m ≫= k).
Proof.
  intros Hm Hk l. specialize (Hm l). unfold mbind, M_bind. destruct (m l) as [[a|e|p] l1]; [|done|done].
  specialize (Hk a l1). destruct (k a l1) as [[b|e|p] l2]; try done; intros Hq; specialize (Hm Hq); subst; auto.
Qed.
Lemma lreads_attempt {A} (m : M LS A) : reads m → reads (attempt m).
Proof. intros Hm l. specialize (Hm l). unfold attempt. by destruct (m l) as [[a|e|p] l1]. Qed.
Lemma lreads_whiteouts i p names : ∀ d, reads (whiteouts_loop i p names d).
Proof.
  induction names as [|name names IH]; intros d; cbn; [apply lreads_ret|].
  apply lreads_bind; [apply lreads_attempt, lreads_read|]. intros r. apply IH.
Qed.
Lemma lreads_merged iterate rebalance de : reads (ovl_dir_read_merged iterate rebalance de).
Proof.
  apply lreads_bind; [|intros; apply lreads_ret]. generalize (mkRdd [] [] RbLeaf []).
  induction (real_dirs de) as [|[up [i p]] rest IH]; intros d; cbn; [apply lreads_ret|].
  apply lreads_bind; [|apply IH]. apply lreads_bind; [apply lreads_read|]. intros _. apply lreads_bind; [apply lreads_read|]. intros es.
  cbn zeta. case_bool_decide; [apply lreads_ret|]. apply lreads_bind; [apply lreads_read|]. intros _. apply lreads_whiteouts.
Qed.

(** Where no call fails, the merged directory is read. *)
Definition succeeds {A} (m : M LS A) : Prop := ∀ l, quiet l → ∃ a, m l = (Ok a, l).
Lemma succeeds_ret {A} (a : A) : succeeds (mret a).
Proof. intros l _. by exists a. Qed.
Lemma succeeds_read {A} (f : LS → A) : succeeds (vfs_read f).
Proof. intros l Hq. eexists. by apply read_quiet. Qed.
Lemma succeeds_bind {A B} (m : M LS A) (k : A → M LS B) : succeeds m → (∀ a, succeeds (k a)) → succeeds (m ≫= k).
Proof. intros Hm Hk l Hq. destruct (Hm l Hq) as [a Ha]. rewrite (bind_ok _ _ _ _ _ Ha). by apply Hk. Qed.
Lemma succeeds_attempt {A} (m : M LS A) : succeeds m → succeeds (attempt m).
Proof. intros Hm l Hq. destruct (Hm l Hq) as [a Ha]. exists (inr a). by apply attempt_ok. Qed.
Lemma succeeds_whiteouts i p names : ∀ d, succeeds (whiteouts_loop i p names d).
Proof.
  induction names as [|name names IH]; intros d; cbn; [apply succeeds_ret|].
  apply succeeds_bind; [apply succeeds_attempt, succeeds_read|]. intros r. apply IH.
Qed.
Lemma succeeds_merged iterate rebalance de : succeeds (ovl_dir_read_merged iterate rebalance de).
Proof.
  apply succeeds_bind; [|intros; apply succeeds_ret]. generalize (mkRdd [] [] RbLeaf []).
  induction (real_dirs de) as [|[up [i p]] rest IH]; intros d; cbn; [apply succeeds_ret|].
  apply succeeds_bind; [|apply IH]. apply succeeds_bind; [apply succeeds_read|]. intros _. apply succeeds_bind; [apply succeeds_read|].
  intros es. cbn zeta. case_bool_decide; [apply succeeds_ret|]. apply succeeds_bind; [apply succeeds_read|]. intros _. apply succeeds_whiteouts.
Qed.

Definition same_cache (dc dc' : ovl_dir_cache) : Prop := dc_version dc' = dc_version dc ∧ dc_entries dc' = dc_entries dc.

Section DirProps.
Context (iterate : LS → nat → path → list (string * bool)) (rebalance : rb_tree → rb_tree)
        (needs_ino : ovl_cache_entry → bool) (iterate_real : ovl_dentry → Z → nat → M LS (list string * Z))
        (seek_real : ovl_dentry → Z → Z → Z → M LS Z).

(** What a call on the file [fd0] may do to the rest of the state. *)
Definition entries_now (s : DF) : list ovl_cache_entry :=
  match (ovl_dir_read_merged iterate rebalance (df_dentry s) (df_ls s)).1 with Ok l => l | _ => [] end.
Record evolves (fd0 : nat) (s s' : DF) : Prop := {
  ev_dentry : df_dentry s' = df_dentry s;
  ev_version : df_version s' = df_version s;
  ev_whiteouts : df_whiteouts s' = df_whiteouts s;
  ev_files : ∀ fd, fd ≠ fd0 → df_files s' !! fd = df_files s !! fd;
  ev_ls : quiet (df_ls s) → df_ls s' = df_ls s;
  ev_caches : ∀ c dc', df_caches s' !! c = Some dc' →
    (∃ dc, df_caches s !! c = Some dc ∧ same_cache dc dc') ∨
    dc_version dc' = df_version s ∧ (quiet (df_ls s) → dc_entries dc' = entries_now s);
  ev_held : ∀ fd od c dc, fd ≠ fd0 → df_files s !! fd = Some od → od_cache od = Some c → df_caches s !! c = Some dc →
    ∃ dc', df_caches s' !! c = Some dc' ∧ same_cache dc dc';
}.
Lemma evolves_refl fd s : evolves fd s s.
Proof. split; try done; [intros c dc ?; left; by exists dc|intros ? ? c dc _ _ _ ?; by exists dc]. Qed.
Lemma evolves_trans fd s1 s2 s3 : evolves fd s1 s2 → evolves fd s2 s3 → evolves fd s1 s3.
Proof.
  intros H1 H2. split.
  - by rewrite (ev_dentry _ _ _ H2), (ev_dentry _ _ _ H1).
  - by rewrite (ev_version _ _ _ H2), (ev_version _ _ _ H1).
  - by rewrite (ev_whiteouts _ _ _ H2), (ev_whiteouts _ _ _ H1).
  - intros x Hx. by rewrite (ev_files _ _ _ H2), (ev_files _ _ _ H1).
  - intros Hq. rewrite (ev_ls _ _ _ H2), (ev_ls _ _ _ H1); [done|done|]. by rewrite (ev_ls _ _ _ H1).
  - intros c dc' Hc. destruct (ev_caches _ _ _ H2 c dc' Hc) as [(dc&Hdc&Hs)|[Hv He]].
    + destruct (ev_caches _ _ _ H1 c dc Hdc) as [(dc0&Hdc0&Hs0)|[Hv He]]; [left; exists dc0; split; [done|]|right].
      * destruct Hs, Hs0. split; congruence.
      * destruct Hs as [-> ->]. done.
    + right. rewrite (ev_version _ _ _ H1) in Hv. split; [done|]. intros Hq. rewrite He by (by rewrite (ev_ls _ _ _ H1)).
      unfold entries_now. by rewrite (ev_dentry _ _ _ H1), (ev_ls _ _ _ H1).
  - intros x od c dc Hx Hf Hc Hdc. destruct (ev_held _ _ _ H1 x od c dc Hx Hf Hc Hdc) as (dc1&Hdc1&Hs1).
    destruct (ev_held _ _ _ H2 x od c dc1 Hx) as (dc2&Hdc2&Hs2); [by rewrite (ev_files _ _ _ H1)|done|done|].
    exists dc2. split; [done|]. destruct Hs1, Hs2. split; congruence.
Qed.
Lemma in_layers_run {A} (m : M LS A) fd s : reads m → dwf s →
  ∃ r l', in_layers m s = (r, df_set_ls l' s) ∧ m (df_ls s) = (r, l') ∧ dwf (df_set_ls l' s) ∧ evolves fd s (df_set_ls l' s) ∧
    match r with Panic _ => False | _ => True end.
Proof.
  intros Hm [Hc Hi]. specialize (Hm (df_ls s)). unfold in_layers, zoom. destruct (m (df_ls s)) as [r l'] eqn:Hr.
  exists r, l'. split; [done|]. split; [done|]. split; [by split|]. split; [|by destruct r].
  split; try done; [by destruct r|intros c dc ?; left; by exists dc|intros ? ? c dc _ _ _ ?; by exists dc].
Qed.
Lemma the_file_run s fd od : df_files s !! fd = Some od → the_file fd s = (Ok od, s).
Proof. intros H. unfold the_file. rewrite (bind_ok _ _ _ s s) by done. by rewrite H. Qed.
Lemma the_cache_run s c dc : df_caches s !! c = Some dc → the_cache c s = (Ok dc, s).
Proof. intros H. unfold the_cache. rewrite (bind_ok _ _ _ s s) by done. by rewrite H. Qed.
Lemma held_cache s fd od c : dwf s → df_files s !! fd = Some od → od_cache od = Some c → is_Some (df_caches s !! c).
Proof.
  intros Hwf Hf Hc. pose proof (dw_count _ Hwf c) as H. destruct (df_caches s !! c); [done|]. cbn in H.
  assert (fd ∈ holders (df_files s) c) as Hin by (apply elem_of_holders; by exists od). by rewrite H in Hin.
Qed.

(** A file changes, but not its cache. *)
Lemma upd_file_run s fd f : dwf s → (∀ od, od_cache (f od) = od_cache od) →
  let s' := df_set_files (alter f fd (df_files s)) s in upd_file fd f s = (Ok tt, s') ∧ dwf s' ∧ evolves fd s s'.
Proof.
  intros [Hc Hi] Hf. split; [done|]. split; [split; [intros c; cbn; by rewrite holders_alter|done]|].
  split; try done; [intros x Hx; cbn; by rewrite lookup_alter_ne|intros c dc ?; left; by exists dc|intros ? ? c dc _ _ _ ?; by exists dc].
Qed.

(** ** Letting a cache go *)

Lemma put_run s fd od c :
  dwf s → df_files s !! fd = Some od → od_cache od = Some c →
  ∃ s1, ovl_cache_put c s = (Ok tt, s1) ∧ df_files s1 = df_files s ∧
    ∀ m', (∀ x, x ≠ fd → m' !! x = df_files s !! x) → (∀ od', m' !! fd = Some od' → od_cache od' = None) →
      dwf (df_set_files m' s1) ∧ evolves fd s (df_set_files m' s1).
Proof.
  intros Hwf Hf Hc. destruct (held_cache s fd od c Hwf Hf Hc) as [dc Hdc]. pose proof (dw_count _ Hwf c) as Hcount.
  rewrite Hdc in Hcount. destruct Hcount as [Href Hne].
  assert (fd ∈ holders (df_files s) c) as Hin by (apply elem_of_holders; by exists od).
  assert (Z.of_nat (size (holders (df_files s) c ∖ {[fd]})) = dc_refcount dc - 1)%Z as Hsize.
  { rewrite Href, size_difference by set_solver. rewrite size_singleton.
    assert (size (holders (df_files s) c) ≠ 0) by (intros H0%size_empty_inv; by apply Hne, leibniz_equiv). lia. }
  assert (∀ m' c', (∀ x, x ≠ fd → m' !! x = df_files s !! x) → (∀ od', m' !! fd = Some od' → od_cache od' = None) → c' ≠ c →
    holders m' c' = holders (df_files s) c') as Hother.
  { intros m' c' Hm1 Hm2 Hcc. rewrite (holders_drop _ _ c' fd Hm1 Hm2). apply leibniz_equiv, difference_disjoint.
    assert (fd ∉ holders (df_files s) c'); [|set_solver]. intros (od'&Hod'&Hc')%elem_of_holders. congruence. }
  unfold ovl_cache_put. rewrite (bind_ok _ _ _ _ _ (the_cache_run _ _ _ Hdc)).
  destruct (Z.eqb_spec (dc_refcount dc - 1) 0) as [Hz|Hz].
  - set (s0 := if bool_decide (df_icache s = Some c) then df_set_icache None s else s).
    exists (df_set_caches (delete c (df_caches s0)) s0). split; [done|]. split; [unfold s0; by case_bool_decide|].
    assert (df_caches s0 = df_caches s) as Hcs by (unfold s0; by case_bool_decide).
    intros m' Hm1 Hm2. split.
    + split; cbn; rewrite Hcs.
      * intros c'. destruct (decide (c' = c)) as [->|Hcc].
        -- rewrite lookup_delete_eq. cbn. rewrite (holders_drop _ _ c fd Hm1 Hm2). apply leibniz_equiv, size_empty_iff. lia.
        -- rewrite lookup_delete_ne by done. rewrite (Hother m' c') by done. apply Hwf.
      * intros c' Hi. unfold s0 in Hi. case_bool_decide as Hb; [done|]. cbn in Hi. rewrite lookup_delete_ne by congruence.
        by apply Hwf.
    + split; cbn; try (unfold s0; by case_bool_decide).
      * intros x Hx. by apply Hm1.
      * intros c' dc' [_ Hc']%lookup_delete_Some. left. exists dc'. by rewrite Hcs in Hc'.
      * intros x od' c' dc' Hx Hf' Hc' Hdc'. exists dc'. split; [|done]. rewrite Hcs. apply lookup_delete_Some. split; [|done]. intros <-.
        assert ({[fd; x]} ⊆ holders (df_files s) c) as Hsub.
        { assert (x ∈ holders (df_files s) c) by (apply elem_of_holders; by exists od').
          apply union_subseteq. split; by apply singleton_subseteq_l. }
        apply subseteq_size in Hsub. rewrite size_union, !size_singleton in Hsub by set_solver. lia.
  - eexists. split; [done|]. split; [done|]. intros m' Hm1 Hm2. split.
    + split; cbn.
      * intros c'. destruct (decide (c' = c)) as [->|Hcc].
        -- rewrite lookup_insert_eq. cbn. rewrite (holders_drop _ _ c fd Hm1 Hm2), Hsize. split; [done|].
           intros He. rewrite He, size_empty in Hsize. lia.
        -- rewrite lookup_insert_ne by done. rewrite (Hother m' c') by done. apply Hwf.
      * intros c' Hi. destruct (decide (c' = c)) as [->|Hcc]; [by rewrite lookup_insert_eq|]. rewrite lookup_insert_ne by done. by apply Hwf.
    + split; cbn; try done.
      * intros c' dc' [[-> <-]|[_ Hc']]%lookup_insert_Some; left; [by exists dc|by exists dc'].
      * intros x od' c' dc' Hx Hf' Hc' Hdc'. destruct (decide (c' = c)) as [->|Hcc].
        -- rewrite lookup_insert_eq. eexists. split; [done|]. rewrite Hdc in Hdc'. by injection Hdc' as <-.
        -- rewrite lookup_insert_ne by done. by exists dc'.
Qed.
(** ** The file that is used *)

(** A file that was only read from: it gave its caller the names of the entries up to
    its cursor, of a list with the property [Snap]. *)
Definition file_ok (Snap : list ovl_cache_entry → Prop) (s : DF) (od : ovl_dir_file) : Prop :=
  match od_cache od with
  | None => od_out od = [] ∧ od_pos od = 0%Z
  | Some c => ∃ dc, df_caches s !! c = Some dc ∧ Snap (dc_entries dc) ∧ od_pos od = Z.of_nat (od_cursor od) ∧
      od_cursor od ≤ length (dc_entries dc) ∧ od_out od = shown (take (od_cursor od) (dc_entries dc))
  end.

Lemma alter_file s fd od f : df_files s !! fd = Some od → df_files (df_set_files (alter f fd (df_files s)) s) !! fd = Some (f od).
Proof. intros H. cbn. by rewrite lookup_alter_eq, H. Qed.

(** The first part of [ovl_dir_reset]. *)
Lemma reset_cache_run s fd od :
  dwf s → df_files s !! fd = Some od →
  ∃ s' od', (match od_cache od with
             | None => mret tt
             | Some c => dc ← the_cache c; s ← get;
                 if (df_version s =? dc_version dc)%Z then mret tt else _ ← ovl_cache_put c; upd_file fd (od_set_cache None 0)
             end) s = (Ok tt, s') ∧ dwf s' ∧ evolves fd s s' ∧ df_files s' !! fd = Some od' ∧ od_is_real od' = od_is_real od ∧
    od_out od' = od_out od ∧ ∀ Snap, od_pos od = 0%Z → file_ok Snap s od → file_ok Snap s' od' ∧ od_pos od' = 0%Z.
Proof.
  intros Hwf Hf.
  assert (∃ s' od', (Ok tt, s) = (Ok tt, s') ∧ dwf s' ∧ evolves fd s s' ∧ df_files s' !! fd = Some od' ∧ od_is_real od' = od_is_real od ∧
    od_out od' = od_out od ∧ ∀ Snap, od_pos od = 0%Z → file_ok Snap s od → file_ok Snap s' od' ∧ od_pos od' = 0%Z) as Hsame.
  { exists s, od. split_and!; try done. apply evolves_refl. }
  destruct (od_cache od) as [c|] eqn:Hc; [|exact Hsame].
  destruct (held_cache s fd od c Hwf Hf Hc) as [dc Hdc].
  rewrite (bind_ok _ _ _ _ _ (the_cache_run _ _ _ Hdc)), (bind_ok _ _ _ s s) by done.
  destruct (df_version s =? dc_version dc)%Z; [exact Hsame|]. clear Hsame.
  destruct (put_run s fd od c Hwf Hf Hc) as (s1&Hrun&Hfiles&Hnext). rewrite (bind_ok _ _ _ _ _ Hrun).
  eexists _, (od_set_cache None 0 od). split; [done|]. rewrite Hfiles.
  destruct (Hnext (alter (od_set_cache None 0) fd (df_files s))) as [Hwf' Hev].
  { intros x Hx. by rewrite lookup_alter_ne. }
  { intros od'. rewrite lookup_alter_eq, Hf. by intros [= <-]. }
  split; [done|]. split; [done|]. split; [cbn; by rewrite lookup_alter_eq, Hf|]. split; [done|]. split; [done|]. intros Snap Hpos. unfold file_ok. rewrite Hc. cbn.
  intros (dc'&_&_&Hp&_&->). by assert (od_cursor od = 0) as -> by lia.
Qed.
Lemma reset_run s fd od :
  dwf s → df_files s !! fd = Some od →
  ∃ s' od', ovl_dir_reset fd s = (Ok tt, s') ∧ dwf s' ∧ evolves fd s s' ∧ df_files s' !! fd = Some od' ∧
    (df_whiteouts s = true → od_is_real od' = false) ∧ od_out od' = od_out od ∧
    ∀ Snap, od_pos od = 0%Z → file_ok Snap s od → file_ok Snap s' od' ∧ od_pos od' = 0%Z.
Proof.
  intros Hwf Hf. unfold ovl_dir_reset. rewrite (bind_ok _ _ _ _ _ (the_file_run _ _ _ Hf)).
  destruct (reset_cache_run s fd od Hwf Hf) as (s1&od1&Hrun&Hwf1&Hev1&Hf1&Hreal&Hout1&Hok1).
  rewrite (bind_ok _ _ _ _ _ Hrun), (bind_ok _ _ _ s1 s1) by done. cbn zeta. unfold ovl_dir_is_real.
  rewrite (ev_whiteouts _ _ _ Hev1), <-Hreal.
  destruct (df_whiteouts s) eqn:Hw; cbn [negb]; [|rewrite orb_true_r; by exists s1, od1]. rewrite orb_false_r.
  destruct (od_is_real od1) eqn:Hr; cbn [Bool.eqb]; [|by exists s1, od1].
  destruct (upd_file_run s1 fd (od_set_real false) Hwf1) as (Hrun2&Hwf2&Hev2); [done|].
  eexists _, (od_set_real false od1). split; [exact Hrun2|]. split; [done|]. split; [by eapply evolves_trans|].
  split; [by apply alter_file|]. split; [done|]. split; [done|]. exact Hok1.
Qed.
(** ** Getting a cache *)

(** The count of [c] goes up by one holder. *)
Lemma count_up s fd od' c m' o :
  (∀ x, x ≠ fd → m' !! x = df_files s !! x) → m' !! fd = Some od' → od_cache od' = Some c →
  (∀ od, df_files s !! fd = Some od → od_cache od = None) → count_ok o (holders (df_files s) c) →
  ∀ v l, count_ok (Some (mkCache (default 0%Z (dc_refcount <$> o) + 1) v l)) (holders m' c).
Proof.
  intros Hm Hfd Hc Hold Hcount v l. rewrite (holders_take _ m' c fd od' Hm Hfd Hold), decide_True by done. cbn.
  split; [|set_solver]. assert (fd ∉ holders (df_files s) c) as Hn.
  { intros (od&Hod&Hod')%elem_of_holders. by rewrite (Hold od Hod) in Hod'. }
  rewrite size_union, size_singleton by set_solver. destruct o as [dc|]; cbn in *; [destruct Hcount as [-> _]|rewrite Hcount, size_empty]; lia.
Qed.
Lemma count_other s fd od' c c' m' :
  (∀ x, x ≠ fd → m' !! x = df_files s !! x) → m' !! fd = Some od' → od_cache od' = Some c →
  (∀ od, df_files s !! fd = Some od → od_cache od = None) → c' ≠ c → holders m' c' = holders (df_files s) c'.
Proof. intros Hm Hfd Hc Hold Hne. rewrite (holders_take _ m' c' fd od' Hm Hfd Hold), decide_False by congruence. done. Qed.

Lemma cache_get_run s fd od :
  dwf s → df_files s !! fd = Some od → od_cache od = None →
  (∃ e s', ovl_cache_get iterate rebalance s = (Err e, s') ∧ df_files s' = df_files s ∧ dwf s' ∧ evolves fd s s' ∧
    ¬ quiet (df_ls s)) ∨
  (∃ c s1 dc', ovl_cache_get iterate rebalance s = (Ok c, s1) ∧ df_files s1 = df_files s ∧ df_caches s1 !! c = Some dc' ∧
    dc_version dc' = df_version s ∧
    ((∃ dc, df_caches s !! c = Some dc ∧ same_cache dc dc') ∨ dc_entries dc' = entries_now s) ∧
    ∀ m' od', (∀ x, x ≠ fd → m' !! x = df_files s !! x) → m' !! fd = Some od' → od_cache od' = Some c →
      dwf (df_set_files m' s1) ∧ evolves fd s (df_set_files m' s1)).
Proof.
  intros Hwf Hf Hnone. unfold ovl_cache_get. rewrite (bind_ok _ _ _ s s) by done.
  assert (∀ od', df_files s !! fd = Some od' → od_cache od' = None) as Hold by (intros od'; rewrite Hf; by intros [= <-]).
  assert (∃ valid, (match df_icache s with
                    | None => mret None
                    | Some c => dc ← the_cache c; mret (if (df_version s =? dc_version dc)%Z then Some (c, dc) else None)
                    end) s = (Ok valid, s) ∧
            ∀ c dc, valid = Some (c, dc) → df_caches s !! c = Some dc ∧ dc_version dc = df_version s) as (valid&Hrun&Hvalid).
  { destruct (df_icache s) as [c|] eqn:Hi; [|by exists None]. destruct (dw_icache _ Hwf c Hi) as [dc Hdc].
    rewrite (bind_ok _ _ _ _ _ (the_cache_run _ _ _ Hdc)). eexists. split; [done|]. intros c' dc'.
    destruct (Z.eqb_spec (df_version s) (dc_version dc)); [|done]. by intros [= <- <-]. }
  rewrite (bind_ok _ _ _ _ _ Hrun). clear Hrun. destruct valid as [[c dc]|].
  - right. destruct (Hvalid c dc eq_refl) as [Hdc Hv]. eexists c, _, _. split; [done|]. split; [done|].
    split; [apply lookup_insert_eq|]. split; [done|]. split; [left; by exists dc|]. intros m' od' Hm Hfd Hc. split; [split|split]; cbn; try done.
    + intros c'. destruct (decide (c' = c)) as [->|Hne].
      * rewrite lookup_insert_eq. refine (count_up s fd od' c m' (Some dc) Hm Hfd Hc Hold _ _ _).
        pose proof (dw_count _ Hwf c) as H. by rewrite Hdc in H.
      * rewrite lookup_insert_ne by done. rewrite (count_other s fd od' c c' m') by done. apply Hwf.
    + intros c' Hi. destruct (decide (c' = c)) as [->|]; [by rewrite lookup_insert_eq|]. rewrite lookup_insert_ne by done. by apply Hwf.
    + intros c' dc' [[-> <-]|[_ Hc']]%lookup_insert_Some; left; [by exists dc|by exists dc'].
    + intros x odx c' dcx _ _ _ Hdcx. destruct (decide (c' = c)) as [->|]; [|rewrite lookup_insert_ne by done; by exists dcx].
      rewrite lookup_insert_eq. eexists. split; [done|]. rewrite Hdc in Hdcx. by injection Hdcx as <-.
  - assert (dwf (df_set_icache None s)) as Hwf0 by (split; cbn; [apply Hwf|done]).
    assert (evolves fd s (df_set_icache None s)) as Hev0.
    { split; try done; [intros c dc ?; left; by exists dc|intros ? ? c dc _ _ _ ?; by exists dc]. }
    rewrite (bind_ok _ _ _ tt (df_set_icache None s)) by done.
    destruct (in_layers_run (ovl_dir_read_merged iterate rebalance (df_dentry s)) fd _ (lreads_merged _ _ _) Hwf0)
      as (r&l'&Hrun&Hr&Hwf1&Hev1&Hsafe). cbn in Hr.
    destruct r as [entries|e|]; [|left|done].
    2:{ rewrite (bind_err _ _ _ _ _ Hrun). eexists _, _. split; [done|]. split; [done|]. split; [done|]. split; [by eapply evolves_trans|]. intros Hq.
        destruct (succeeds_merged iterate rebalance (df_dentry s) (df_ls s) Hq) as [a Ha]. by rewrite Ha in Hr. }
    right. rewrite (bind_ok _ _ _ _ _ Hrun). set (s1 := df_set_ls l' (df_set_icache None s)) in *.
    rewrite (bind_ok _ _ _ s1 s1) by done. cbn zeta. set (c := fresh (dom (df_caches s1))).
    assert (df_caches s !! c = None) as Hfresh by (apply not_elem_of_dom; apply is_fresh).
    assert (entries = entries_now s) as Hentries by (unfold entries_now; by rewrite Hr).
    eexists c, _, _. split; [done|]. split; [done|]. split; [apply lookup_insert_eq|]. split; [done|]. split; [by right|].
    intros m' od' Hm Hfd Hc. split; [split|split]; cbn; try done.
    + intros c'. destruct (decide (c' = c)) as [->|Hne].
      * rewrite lookup_insert_eq. refine (count_up s fd od' c m' None Hm Hfd Hc Hold _ _ _).
        pose proof (dw_count _ Hwf c) as H. by rewrite Hfresh in H.
      * rewrite lookup_insert_ne by done. rewrite (count_other s fd od' c c' m') by done. apply Hwf.
    + intros c' [= <-]. by rewrite lookup_insert_eq.
    + intros Hq. apply (ev_ls _ _ _ Hev1). done.
    + intros c' dc' [[-> <-]|[_ Hc']]%lookup_insert_Some; [by right|left; by exists dc'].
    + intros x odx c' dcx _ _ _ Hdcx. rewrite lookup_insert_ne by congruence. by exists dcx.
Qed.
(** ** Reading on *)

Definition advance (k : nat) (l : list ovl_cache_entry) (od : ovl_dir_file) : ovl_dir_file :=
  mkOd (od_is_real od) (od_cache od) (od_cursor od + k) (od_pos od + Z.of_nat k) (od_out od ++ shown (take k l)).
Lemma advance_0 l od : advance 0 l od = od.
Proof. unfold advance. destruct od. cbn. by rewrite Nat.add_0_r, Z.add_0_r, app_nil_r. Qed.
Lemma shown_cons e l : shown (e :: l) = (if ce_is_whiteout e then [] else [ce_name e]) ++ shown l.
Proof. unfold shown. rewrite filter_cons. destruct (ce_is_whiteout e); [rewrite decide_False by done|rewrite decide_True by done]; done. Qed.
Lemma advance_S k e l od :
  advance k l (od_next (od_emit (if ce_is_whiteout e then [] else [ce_name e]) od)) = advance (S k) (e :: l) od.
Proof.
  unfold advance. cbn [take]. rewrite shown_cons. unfold od_next, od_emit. cbn. f_equal; [lia|lia|]. by rewrite <-app_assoc.
Qed.
Definition no_panic {A} (r : outcome A) : Prop := match r with Panic _ => False | _ => True end.

Lemma emit_run fd l : ∀ room s od,
  dwf s → df_files s !! fd = Some od →
  ∃ r s' k, emit_loop needs_ino fd l room s = (r, s') ∧ no_panic r ∧ dwf s' ∧ evolves fd s s' ∧ df_caches s' = df_caches s ∧
    k ≤ length l ∧ df_files s' !! fd = Some (advance k l od) ∧
    (quiet (df_ls s) → r = Ok tt ∧ (k = length l ∨ room ≤ length (shown (take k l)))).
Proof.
  induction l as [|e l IH]; intros room s od Hwf Hf; cbn [emit_loop].
  { exists (Ok tt), s, 0. rewrite advance_0. split_and!; try done; [apply evolves_refl|]. intros _. split; [done|by left]. }
  assert (∀ s1 od1 room, dwf s1 → evolves fd s s1 → df_caches s1 = df_caches s → df_files s1 !! fd = Some od1 →
    od1 = od_emit (if ce_is_whiteout e then [] else [ce_name e]) od →
    ∃ r s' k, (_ ← upd_file fd od_next; emit_loop needs_ino fd l room) s1 = (r, s') ∧ no_panic r ∧ dwf s' ∧ evolves fd s s' ∧
      df_caches s' = df_caches s ∧ k ≤ S (length l) ∧ df_files s' !! fd = Some (advance k (e :: l) od) ∧
      (quiet (df_ls s) → r = Ok tt ∧ (k = S (length l) ∨ (if ce_is_whiteout e then room else S room) ≤ length (shown (take k (e :: l)))))) as Hnext.
  { intros s1 od1 room1 Hwf1 Hev1 Hc1 Hf1 ->. destruct (upd_file_run s1 fd od_next Hwf1) as (Hrun&Hwf2&Hev2); [done|].
    rewrite (bind_ok _ _ _ _ _ Hrun). destruct (IH room1 _ _ Hwf2 (alter_file s1 fd _ od_next Hf1)) as (r&s'&k&Hr&Hp&Hwf'&Hev'&Hc'&Hk&Hf'&Hq').
    exists r, s', (S k). rewrite advance_S in Hf'. split; [done|]. split; [done|]. split; [done|].
    split; [by eapply evolves_trans, evolves_trans|]. split; [by rewrite Hc'|]. split; [lia|]. split; [done|]. intros Hq.
    destruct Hq' as [-> Hend]; [cbn; by rewrite (ev_ls _ _ _ Hev1)|]. split; [done|]. destruct Hend as [->|Hend]; [by left|right].
    cbn [take]. rewrite shown_cons, length_app. destruct (ce_is_whiteout e); cbn; lia. }
  destruct (ce_is_whiteout e) eqn:Hw.
  { apply (Hnext s od); try done; [apply evolves_refl|]. unfold od_emit. rewrite app_nil_r. by destruct od. }
  destruct (in_layers_run (if needs_ino e then vfs_read (λ _, tt) else mret tt) fd s) as (r&l'&Hrun&_&Hwf1&Hev1&Hsafe);
    [destruct (needs_ino e); [apply lreads_read|apply lreads_ret]|done|].
  assert ((if needs_ino e then in_layers (vfs_read (λ _, tt)) else mret tt) s = (r, df_set_ls l' s)) as Hrun'.
  { rewrite <-Hrun. destruct (needs_ino e); [done|]. unfold in_layers, zoom. cbn. by destruct s. }
  destruct r as [[]|err|]; [|exists (Err err), (df_set_ls l' s), 0; rewrite (bind_err _ _ _ _ _ Hrun'), advance_0|done].
  2:{ split_and!; try done; [cbn; lia|]. intros Hq. destruct (needs_ino e); [|done]. unfold in_layers, zoom in Hrun'. by rewrite read_quiet in Hrun'. }
  rewrite (bind_ok _ _ _ _ _ Hrun'). destruct room as [|room].
  { exists (Ok tt), (df_set_ls l' s), 0. rewrite advance_0. split_and!; try done; [cbn; lia|]. intros _. split; [done|right; lia]. }
  destruct (upd_file_run (df_set_ls l' s) fd (od_emit [ce_name e]) Hwf1) as (Hrun2&Hwf2&Hev2); [done|].
  rewrite (bind_ok _ _ _ _ _ Hrun2). apply (Hnext _ (od_emit [ce_name e] od)); [done|by eapply evolves_trans|done|by apply alter_file|done].
Qed.

Lemma seek_run s fd od c dc pos :
  dwf s → df_files s !! fd = Some od → df_caches s !! c = Some dc →
  ∃ s', ovl_seek_cursor fd c pos s = (Ok tt, s') ∧ dwf s' ∧ evolves fd s s' ∧ df_caches s' = df_caches s ∧
    df_files s' !! fd = Some (od_set_cursor (Nat.min (Z.to_nat pos) (length (dc_entries dc))) od).
Proof.
  intros Hwf Hf Hc. unfold ovl_seek_cursor. rewrite (bind_ok _ _ _ _ _ (the_cache_run _ _ _ Hc)).
  destruct (upd_file_run s fd (od_set_cursor (Nat.min (Z.to_nat pos) (length (dc_entries dc)))) Hwf) as (Hrun&Hwf'&Hev); [done|].
  eexists. split; [exact Hrun|]. split; [done|]. split; [done|]. split; [done|]. by apply alter_file.
Qed.
(** A file without a cache gets one, and its cursor. *)
Lemma attach_run s fd od :
  dwf s → df_files s !! fd = Some od → od_cache od = None →
  (∃ e s', (c ← ovl_cache_get iterate rebalance; _ ← upd_file fd (od_set_cache (Some c) (od_cursor od)); ovl_seek_cursor fd c (od_pos od)) s =
      (Err e, s') ∧ df_files s' = df_files s ∧ dwf s' ∧ evolves fd s s' ∧ ¬ quiet (df_ls s)) ∨
  (∃ s' c dc, (c ← ovl_cache_get iterate rebalance; _ ← upd_file fd (od_set_cache (Some c) (od_cursor od)); ovl_seek_cursor fd c (od_pos od)) s =
      (Ok tt, s') ∧ dwf s' ∧ evolves fd s s' ∧ df_caches s' !! c = Some dc ∧ dc_version dc = df_version s ∧
    ((∃ dc0, df_caches s !! c = Some dc0 ∧ same_cache dc0 dc) ∨ dc_entries dc = entries_now s) ∧
    df_files s' !! fd = Some (od_set_cursor (Nat.min (Z.to_nat (od_pos od)) (length (dc_entries dc))) (od_set_cache (Some c) (od_cursor od) od))).
Proof.
  intros Hwf Hf Hnone. destruct (cache_get_run s fd od Hwf Hf Hnone) as [(e&s'&Hrun&Hrest)|(c&s1&dc&Hrun&Hfiles&Hdc&Hv&Hfrom&Hnext)].
  { left. exists e, s'. by rewrite (bind_err _ _ _ _ _ Hrun). }
  right. rewrite (bind_ok _ _ _ _ _ Hrun). set (od1 := od_set_cache (Some c) (od_cursor od) od).
  set (m' := alter (od_set_cache (Some c) (od_cursor od)) fd (df_files s)).
  assert (m' !! fd = Some od1) as Hm' by (unfold m'; by rewrite lookup_alter_eq, Hf).
  destruct (Hnext m' od1) as [Hwf1 Hev1]; [intros x Hx; unfold m'; by rewrite lookup_alter_ne|done|done|].
  rewrite (bind_ok _ _ _ tt (df_set_files m' s1)) by (unfold upd_file, m'; by rewrite <-Hfiles).
  destruct (seek_run (df_set_files m' s1) fd od1 c dc (od_pos od) Hwf1 Hm' Hdc) as (s2&Hrun2&Hwf2&Hev2&Hc2&Hf2).
  exists s2, c, dc. split; [done|]. split; [done|]. split; [by eapply evolves_trans|]. split; [by rewrite Hc2|]. done.
Qed.

(** The cache is up to date: a list with the version of the inode is the one that would
    be read now. *)
Definition coherent (s : DF) : Prop :=
  quiet (df_ls s) ∧ ∀ c dc, df_caches s !! c = Some dc → dc_version dc = df_version s → dc_entries dc = entries_now s.
Lemma entries_now_evolves fd s s' : evolves fd s s' → quiet (df_ls s) → entries_now s' = entries_now s.
Proof. intros Hev Hq. unfold entries_now. by rewrite (ev_dentry _ _ _ Hev), (ev_ls _ _ _ Hev). Qed.
Lemma coherent_evolves fd s s' : evolves fd s s' → coherent s → coherent s'.
Proof.
  intros Hev [Hq Hc]. split; [by rewrite (ev_ls _ _ _ Hev)|]. intros c dc' Hdc' Hv. rewrite (ev_version _ _ _ Hev) in Hv.
  rewrite (entries_now_evolves _ _ _ Hev Hq). destruct (ev_caches _ _ _ Hev c dc' Hdc') as [(dc&Hdc&Hv'&He')|[_ He]]; [|by apply He].
  rewrite He'. apply (Hc c); [done|]. congruence.
Qed.

(** Emitting keeps a file one that was only read from. *)
Lemma advance_ok Snap s s' od c dc k :
  df_caches s' = df_caches s → od_cache od = Some c → df_caches s !! c = Some dc → file_ok Snap s od →
  k ≤ length (drop (od_cursor od) (dc_entries dc)) → file_ok Snap s' (advance k (drop (od_cursor od) (dc_entries dc)) od).
Proof.
  intros Hcs Hc Hdc Hok Hk. unfold file_ok in *. cbn [od_cache advance]. rewrite Hc, Hcs in *.
  destruct Hok as (dc'&Hdc'&Hsnap&Hpos&Hle&Hout). rewrite Hdc in Hdc'. injection Hdc' as <-. rewrite length_drop in Hk.
  exists dc. split; [done|]. split; [done|]. cbn. split; [lia|]. split; [lia|]. rewrite Hout.
  rewrite <-(take_take_drop (dc_entries dc) (od_cursor od) k) at 1. unfold shown. by rewrite filter_app, fmap_app.
Qed.
(** ** The calls *)

Context (Hreal : ∀ de pos room, reads (iterate_real de pos room)) (Hseek : ∀ de pos off org, reads (seek_real de pos off org)).

(** What a call leaves of the file it is for. *)
Definition file_kept (s : DF) (od : ovl_dir_file) (s' : DF) (od' : ovl_dir_file) : Prop :=
  df_whiteouts s = true → od_is_real od = false → coherent s → ∀ Snap, Snap (entries_now s) → file_ok Snap s od →
    od_is_real od' = false ∧ file_ok Snap s' od'.

Lemma maybe_reset_run s fd od :
  dwf s → df_files s !! fd = Some od →
  ∃ s' od', (if (od_pos od =? 0)%Z then ovl_dir_reset fd else mret tt) s = (Ok tt, s') ∧ dwf s' ∧ evolves fd s s' ∧
    df_files s' !! fd = Some od' ∧ file_kept s od s' od' ∧ od_out od' = od_out od.
Proof.
  intros Hwf Hf. destruct (Z.eqb_spec (od_pos od) 0) as [Hz|Hz].
  - destruct (reset_run s fd od Hwf Hf) as (s'&od'&Hrun&Hwf'&Hev&Hf'&Hr&Hout&Hok). exists s', od'. split; [done|]. split; [done|].
    split; [done|]. split; [done|]. split; [|done]. intros Hw _ _ Snap _ Hfo. split; [by apply Hr|]. by apply Hok.
  - exists s, od. split; [done|]. split; [done|]. split; [apply evolves_refl|]. split; [done|]. by split.
Qed.

(** A call with room for some names gives that many, or reaches the end. *)
Definition file_read (room : nat) (s : DF) (od : ovl_dir_file) (s' : DF) (od' : ovl_dir_file) : Prop :=
  df_whiteouts s = true → od_is_real od = false → coherent s → ∀ Snap, Snap (entries_now s) → file_ok Snap s od →
    ∃ c dc names, od_cache od' = Some c ∧ df_caches s' !! c = Some dc ∧ od_out od' = od_out od ++ names ∧
      (od_cursor od' = length (dc_entries dc) ∨ room ≤ length names).

(** The rest of [ovl_iterate] on a merged directory. *)
Lemma read_on_run s fd od room :
  dwf s → df_files s !! fd = Some od →
  ∃ r s' od', (_ ← match od_cache od with
                   | Some _ => mret tt
                   | None => c ← ovl_cache_get iterate rebalance; _ ← upd_file fd (od_set_cache (Some c) (od_cursor od));
                       ovl_seek_cursor fd c (od_pos od)
                   end;
               od ← the_file fd;
               match od_cache od with
               | None => panic "NULL pointer dereference"
               | Some c => dc ← the_cache c; emit_loop needs_ino fd (drop (od_cursor od) (dc_entries dc)) room
               end) s = (r, s') ∧ no_panic r ∧ dwf s' ∧ evolves fd s s' ∧ df_files s' !! fd = Some od' ∧ file_kept s od s' od' ∧
    file_read room s od s' od'.
Proof.
  intros Hwf Hf.
  assert (∀ s1 od1 c dc, dwf s1 → evolves fd s s1 → df_files s1 !! fd = Some od1 → od_cache od1 = Some c → df_caches s1 !! c = Some dc →
    file_kept s od s1 od1 → od_out od1 = od_out od →
    ∃ r s' od', (od ← the_file fd;
       match od_cache od with
       | None => panic "NULL pointer dereference"
       | Some c => dc ← the_cache c; emit_loop needs_ino fd (drop (od_cursor od) (dc_entries dc)) room
       end) s1 = (r, s') ∧ no_panic r ∧ dwf s' ∧ evolves fd s s' ∧ df_files s' !! fd = Some od' ∧ file_kept s od s' od' ∧
      file_read room s od s' od') as Hgo.
  { intros s1 od1 c dc Hwf1 Hev1 Hf1 Hc1 Hdc1 Hkept Hout1. rewrite (bind_ok _ _ _ _ _ (the_file_run _ _ _ Hf1)), Hc1.
    rewrite (bind_ok _ _ _ _ _ (the_cache_run _ _ _ Hdc1)).
    destruct (emit_run fd (drop (od_cursor od1) (dc_entries dc)) room s1 od1 Hwf1 Hf1) as (r&s'&k&Hr&Hp&Hwf'&Hev'&Hcs&Hk&Hf'&Hq').
    eexists r, s', _. split; [done|]. split; [done|]. split; [done|]. split; [by eapply evolves_trans|]. split; [exact Hf'|].
    split; intros Hw Hnr Hcoh Snap Hnow Hfo; destruct (Hkept Hw Hnr Hcoh Snap Hnow Hfo) as [Hr1 Hfo1]; [split; [done|]; by eapply advance_ok|].
    destruct Hq' as [_ Hend]; [rewrite (ev_ls _ _ _ Hev1); apply Hcoh|].
    exists c, dc, (shown (take k (drop (od_cursor od1) (dc_entries dc)))). rewrite Hcs. cbn. rewrite Hout1.
    split; [done|]. split; [done|]. split; [done|]. destruct Hend as [->|]; [left|by right]. rewrite length_drop.
    unfold file_ok in Hfo1. rewrite Hc1 in Hfo1. destruct Hfo1 as (dc'&Hdc'&_&_&Hle&_). rewrite Hdc1 in Hdc'. injection Hdc' as <-. lia. }
  destruct (od_cache od) as [c|] eqn:Hc.
  { destruct (held_cache s fd od c Hwf Hf Hc) as [dc Hdc]. rewrite (bind_ok _ _ _ tt s) by done.
    apply (Hgo s od c dc); try done. apply evolves_refl. }
  destruct (attach_run s fd od Hwf Hf Hc) as [(e&s'&Hrun&Hfiles&Hwf'&Hev&Hnq)|(s1&c&dc&Hrun&Hwf1&Hev1&Hdc&Hv&Hfrom&Hf1)].
  { rewrite (bind_err _ _ _ _ _ Hrun). exists (Err e), s', od. split; [done|]. split; [done|]. split; [done|]. split; [done|].
    split; [by rewrite Hfiles|]. split; [|intros _ _ [Hq _]; by destruct Hnq].
    intros _ Hnr _ Snap _. unfold file_ok. by rewrite Hc. }
  rewrite (bind_ok _ _ _ _ _ Hrun). eapply Hgo; [exact Hwf1|exact Hev1|exact Hf1|done|exact Hdc| |done].
  intros _ Hnr [Hq Hcoh] Snap Hnow. unfold file_ok. rewrite Hc. cbn. intros [Hout Hpos]. split; [done|]. exists dc.
  rewrite Hpos, Hout. cbn. split; [done|]. split; [|split; [done|split; [lia|done]]].
  destruct Hfrom as [(dc0&Hdc0&Hv0&He0)|He]; [|by rewrite He]. rewrite He0, (Hcoh c dc0 Hdc0); [done|]. congruence.
Qed.

Lemma file_kept_trans fd s od s1 od1 s2 od2 :
  evolves fd s s1 → file_kept s od s1 od1 → file_kept s1 od1 s2 od2 → file_kept s od s2 od2.
Proof.
  intros Hev H1 H2 Hw Hr Hcoh Snap Hnow Hok. destruct (H1 Hw Hr Hcoh Snap Hnow Hok) as [Hr1 Hok1].
  apply H2; [by rewrite (ev_whiteouts _ _ _ Hev)|done|by eapply coherent_evolves| |done].
  rewrite (entries_now_evolves _ _ _ Hev); [done|apply Hcoh].
Qed.

Lemma iterate_file_run s fd od room :
  dwf s → df_files s !! fd = Some od →
  ∃ r s' od', ovl_iterate_file iterate rebalance needs_ino iterate_real fd room s = (r, s') ∧ no_panic r ∧ dwf s' ∧ evolves fd s s' ∧
    df_files s' !! fd = Some od' ∧ file_kept s od s' od' ∧ file_read room s od s' od'.
Proof.
  intros Hwf Hf. unfold ovl_iterate_file. rewrite (bind_ok _ _ _ _ _ (the_file_run _ _ _ Hf)).
  destruct (maybe_reset_run s fd od Hwf Hf) as (s1&od1&Hrun&Hwf1&Hev1&Hf1&Hk1&Hout1).
  rewrite (bind_ok _ _ _ _ _ Hrun), (bind_ok _ _ _ _ _ (the_file_run _ _ _ Hf1)).
  destruct (od_is_real od1) eqn:Hr1.
  2:{ destruct (read_on_run s1 fd od1 room Hwf1 Hf1) as (r&s'&od'&Hrun'&Hp&Hwf'&Hev'&Hf'&Hk'&Hrd'). exists r, s', od'.
      split; [done|]. split; [done|]. split; [done|]. split; [by eapply evolves_trans|]. split; [done|]. split; [by eapply file_kept_trans|].
      intros Hw Hr Hcoh Snap Hnow Hok. destruct (Hk1 Hw Hr Hcoh Snap Hnow Hok) as [_ Hok1]. rewrite <-Hout1.
      eapply Hrd'; [by rewrite (ev_whiteouts _ _ _ Hev1)|done|by eapply coherent_evolves| |exact Hok1].
      rewrite (entries_now_evolves _ _ _ Hev1); [done|apply Hcoh]. }
  rewrite (bind_ok _ _ _ s1 s1) by done.
  assert (∀ s' od', file_kept s od s' od' ∧ file_read room s od s' od') as Hvoid.
  { intros s' od'. split; intros Hw Hr Hcoh Snap Hnow Hok; destruct (Hk1 Hw Hr Hcoh Snap Hnow Hok); congruence. }
  destruct (in_layers_run (iterate_real (df_dentry s1) (od_pos od1) room) fd s1 (Hreal _ _ _) Hwf1) as (r&l'&Hrun2&_&Hwf2&Hev2&Hsafe).
  destruct r as [[names pos]|e|]; [|exists (Err e), (df_set_ls l' s1), od1; rewrite (bind_err _ _ _ _ _ Hrun2)|done].
  2:{ split; [done|]. split; [done|]. split; [done|]. split; [by eapply evolves_trans|]. split; [done|apply Hvoid]. }
  rewrite (bind_ok _ _ _ _ _ Hrun2).
  destruct (upd_file_run _ fd (od_emit names) Hwf2) as (Hrun3&Hwf3&Hev3); [done|]. rewrite (bind_ok _ _ _ _ _ Hrun3).
  destruct (upd_file_run _ fd (od_set_pos pos) Hwf3) as (Hrun4&Hwf4&Hev4); [done|].
  eexists _, _, _. split; [exact Hrun4|]. split; [done|]. split; [done|]. split; [eapply evolves_trans; [exact Hev1|]; eapply evolves_trans; [exact Hev2|]; by eapply evolves_trans|].
  split; [by repeat apply alter_file|apply Hvoid].
Qed.
Lemma llseek_run s fd od offset origin :
  dwf s → df_files s !! fd = Some od →
  ∃ r s', ovl_dir_llseek seek_real fd offset origin s = (r, s') ∧ no_panic r ∧ dwf s' ∧ evolves fd s s'.
Proof.
  intros Hwf Hf. unfold ovl_dir_llseek. rewrite (bind_ok _ _ _ _ _ (the_file_run _ _ _ Hf)).
  destruct (maybe_reset_run s fd od Hwf Hf) as (s1&od1&Hrun&Hwf1&Hev1&Hf1&_&_).
  rewrite (bind_ok _ _ _ _ _ Hrun), (bind_ok _ _ _ _ _ (the_file_run _ _ _ Hf1)).
  destruct (od_is_real od1).
  - rewrite (bind_ok _ _ _ s1 s1) by done.
    destruct (in_layers_run (seek_real (df_dentry s1) (od_pos od1) offset origin) fd s1 (Hseek _ _ _ _) Hwf1) as (r&l'&Hrun2&_&Hwf2&Hev2&Hsafe).
    destruct r as [res|e|]; [|rewrite (bind_err _ _ _ _ _ Hrun2); eexists _, _; split; [done|]; split; [done|]; split; [done|]; by eapply evolves_trans|done].
    rewrite (bind_ok _ _ _ _ _ Hrun2). destruct (upd_file_run _ fd (od_set_pos res) Hwf2) as (Hrun3&Hwf3&Hev3); [done|].
    rewrite (bind_ok _ _ _ _ _ Hrun3). eexists _, _. split; [done|]. split; [done|]. split; [done|]. by eapply evolves_trans, evolves_trans.
  - set (o := if (origin =? 1)%Z then _ else _). assert (o s1 = (Err (OsError EINVAL), s1) ∨ ∃ off, o s1 = (Ok off, s1)) as [Ho|[off Ho]].
    { unfold o. destruct (origin =? 1)%Z; [right; by eexists|]. destruct (origin =? 0)%Z; [right; by eexists|by left]. }
    { rewrite (bind_err _ _ _ _ _ Ho). by eexists _, s1. }
    rewrite (bind_ok _ _ _ _ _ Ho). destruct (off <? 0)%Z; [by eexists _, s1|].
    destruct (off =? od_pos od1)%Z; [rewrite (bind_ok _ _ _ tt s1) by done; by eexists _, s1|].
    destruct (upd_file_run _ fd (od_set_pos off) Hwf1) as (Hrun3&Hwf3&Hev3); [done|].
    set (s3 := df_set_files _ s1) in *.
    assert (∃ s4, (match od_cache od1 with Some c => ovl_seek_cursor fd c off | None => mret tt end) s3 = (Ok tt, s4) ∧ dwf s4 ∧ evolves fd s3 s4)
      as (s4&Hrun4&Hwf4&Hev4).
    { destruct (od_cache od1) as [c|] eqn:Hc; [|exists s3; split; [done|]; split; [done|apply evolves_refl]].
      destruct (held_cache s1 fd od1 c Hwf1 Hf1 Hc) as [dc Hdc].
      destruct (seek_run s3 fd (od_set_pos off od1) c dc off Hwf3) as (s4&Hrun4&Hwf4&Hev4&_); [by apply alter_file|done|by exists s4]. }
    erewrite bind_ok; [|rewrite (bind_ok _ _ _ _ _ Hrun3); exact Hrun4].
    eexists _, _. split; [done|]. split; [done|]. split; [done|]. by eapply evolves_trans, evolves_trans.
Qed.

Lemma open_run s fd :
  dwf s → df_files s !! fd = None →
  ∃ r s', ovl_dir_open fd s = (r, s') ∧ no_panic r ∧ dwf s' ∧ evolves fd s s' ∧
    (quiet (df_ls s) → r = Ok tt ∧ df_files s' !! fd = Some (mkOd (ovl_dir_is_real s) None 0 0 [])).
Proof.
  intros Hwf Hf. unfold ovl_dir_open.
  destruct (in_layers_run (vfs_read (λ _, tt)) fd s (lreads_read _) Hwf) as (r&l'&Hrun&Hr&Hwf1&Hev1&Hsafe).
  destruct r as [[]|e|]; [|rewrite (bind_err _ _ _ _ _ Hrun)|done].
  2:{ eexists _, _. split; [done|]. split; [done|]. split; [done|]. split; [done|]. intros Hq. by rewrite read_quiet in Hr. }
  rewrite (bind_ok _ _ _ _ _ Hrun), (bind_ok _ _ _ (df_set_ls l' s) (df_set_ls l' s)) by done.
  eexists _, _. split; [done|]. split; [done|]. set (od := mkOd _ _ _ _ _).
  assert (∀ x, x ≠ fd → <[fd := od]> (df_files s) !! x = df_files s !! x) as Hne by (intros x Hx; by rewrite lookup_insert_ne).
  split; [|split; [|intros _; split; [done|apply lookup_insert_eq]]].
  - split; cbn; [|apply Hwf]. intros c.
    rewrite (holders_take (df_files s) _ c fd od Hne), decide_False; [apply Hwf|done|apply lookup_insert_eq|by rewrite Hf].
  - destruct Hev1. by split.
Qed.

Lemma release_run s fd od :
  dwf s → df_files s !! fd = Some od →
  ∃ s', ovl_dir_release fd s = (Ok tt, s') ∧ dwf s' ∧ evolves fd s s'.
Proof.
  intros Hwf Hf. unfold ovl_dir_release. rewrite (bind_ok _ _ _ _ _ (the_file_run _ _ _ Hf)).
  assert (∀ x, x ≠ fd → delete fd (df_files s) !! x = df_files s !! x) as Hne by (intros x Hx; by rewrite lookup_delete_ne).
  assert (∀ od', delete fd (df_files s) !! fd = Some od' → od_cache od' = None) as Hgone by (intros od'; by rewrite lookup_delete_eq).
  destruct (od_cache od) as [c|] eqn:Hc.
  - destruct (put_run s fd od c Hwf Hf Hc) as (s1&Hrun&Hfiles&Hnext). rewrite (bind_ok _ _ _ _ _ Hrun).
    eexists. split; [done|]. rewrite Hfiles. by apply Hnext.
  - rewrite (bind_ok _ _ _ tt s) by done. eexists. split; [done|]. split.
    + split; cbn; [|apply Hwf]. intros c. rewrite (holders_drop (df_files s) _ c fd Hne Hgone).
      replace (holders (df_files s) c ∖ {[fd]}) with (holders (df_files s) c); [apply Hwf|].
      symmetry. apply leibniz_equiv, difference_disjoint. assert (fd ∉ holders (df_files s) c) as Hn.
      { intros (od'&Hod'&Hc')%elem_of_holders. congruence. }
      by apply disjoint_singleton_r.
    + destruct (evolves_refl fd s). by split.
Qed.
(** ** Histories *)

Definition op_fd (op : df_op) : option nat :=
  match op with DOpen fd | DIterate fd _ | DSeek fd _ _ | DRelease fd => Some fd | DChange _ => None end.
Definition run_step := df_step iterate rebalance needs_ino iterate_real seek_real.
Definition run_ops := df_run iterate rebalance needs_ino iterate_real seek_real.

Lemma ignore_safe {A} (m : M DF A) s r s' : m s = (r, s') → no_panic r → ignore_err m s = (Ok tt, s').
Proof. destruct r as [a|e|]; intros Hm Hp; [by eapply ignore_ok|by eapply ignore_fails|done]. Qed.
Lemma ignore_ret {A} (m : M DF A) s r s' : m s = (r, s') → no_panic r → ignore_err (_ ← m; mret tt) s = (Ok tt, s').
Proof.
  intros Hm Hp. destruct r as [a|e|]; [|eapply ignore_fails, bind_err, Hm|done].
  eapply (ignore_ok _ _ tt). by rewrite (bind_ok _ _ _ _ _ Hm).
Qed.

(** A step on a file. *)
Lemma step_file op fd s :
  op_fd op = Some fd → dwf s →
  ∃ s', run_step op s = (Ok tt, s') ∧ dwf s' ∧ evolves fd s s' ∧
    ∀ room od, op = DIterate fd room → df_files s !! fd = Some od →
      ∃ od', df_files s' !! fd = Some od' ∧ file_kept s od s' od' ∧ file_read room s od s' od'.
Proof.
  intros Hop Hwf. unfold run_step, df_step. rewrite (bind_ok _ _ _ s s) by done.
  assert (∃ s', (Ok tt, s) = (Ok tt, s') ∧ dwf s' ∧ evolves fd s s') as Hsame by (exists s; split; [done|]; split; [done|apply evolves_refl]).
  destruct op as [fd'|fd' room'|fd' o w|fd'|]; cbn in Hop; try discriminate; injection Hop as ->; case_bool_decide as Hs.
  - destruct Hsame as (s'&?&?&?). exists s'. by split_and!.
  - apply eq_None_not_Some in Hs. destruct (open_run s fd Hwf Hs) as (r&s'&Hrun&Hp&Hwf'&Hev&_). exists s'.
    rewrite (ignore_safe _ _ _ _ Hrun Hp). by split_and!.
  - destruct Hs as [od Hf]. destruct (iterate_file_run s fd od room' Hwf Hf) as (r&s'&od'&Hrun&Hp&Hwf'&Hev&Hf'&Hk&Hrd). exists s'.
    rewrite (ignore_safe _ _ _ _ Hrun Hp). split; [done|]. split; [done|]. split; [done|]. intros room od0 [= ->] Hf0. rewrite Hf in Hf0. injection Hf0 as <-. by exists od'.
  - destruct Hsame as (s'&?&?&?). exists s'. split; [done|]. split; [done|]. split; [done|]. intros room od _ Hf. by destruct Hs.
  - destruct Hs as [od Hf]. destruct (llseek_run s fd od o w Hwf Hf) as (r&s'&Hrun&Hp&Hwf'&Hev). exists s'.
    rewrite (ignore_ret _ _ _ _ Hrun Hp). by split_and!.
  - destruct Hsame as (s'&?&?&?). exists s'. by split_and!.
  - destruct Hs as [od Hf]. destruct (release_run s fd od Hwf Hf) as (s'&Hrun&Hwf'&Hev). exists s'.
    rewrite (ignore_ok _ _ _ _ Hrun). by split_and!.
  - destruct Hsame as (s'&?&?&?). exists s'. by split_and!.
Qed.
Lemma step_change f s :
  run_step (DChange f) s =
    (Ok tt, df_set_version ((df_version s + 1) mod 2 ^ 64)
              (df_set_ls (mkLS (f (ls_layers (df_ls s))) (ls_noxattr (df_ls s)) (ls_impure (df_ls s)) (ls_faults (df_ls s))) s)).
Proof. done. Qed.

Lemma run_safe ops : ∀ s, dwf s → ∃ s', run_ops ops s = (Ok tt, s') ∧ dwf s'.
Proof.
  induction ops as [|op ops IH]; intros s Hwf; [by exists s|]. unfold run_ops. cbn [df_run].
  assert (∃ s1, run_step op s = (Ok tt, s1) ∧ dwf s1) as (s1&Hrun&Hwf1).
  { destruct (op_fd op) as [fd|] eqn:Hop; [destruct (step_file op fd s Hop Hwf) as (s1&?&?&_); by exists s1|].
    destruct op as [| | | |f]; try done. rewrite step_change. eexists. split; [done|]. destruct Hwf. by split. }
  rewrite (bind_ok _ _ _ _ _ Hrun). apply (IH s1 Hwf1).
Qed.

(** Versions count the changes, as long as they do not wrap around. *)
Definition counted (n : nat) (s : DF) : Prop :=
  quiet (df_ls s) ∧ df_version s = Z.of_nat n ∧
  ∀ c dc, df_caches s !! c = Some dc → (dc_version dc ≤ Z.of_nat n)%Z ∧ (dc_version dc = Z.of_nat n → dc_entries dc = entries_now s).
Lemma counted_coherent n s : counted n s → coherent s.
Proof. intros (Hq&Hv&Hc). split; [done|]. intros c dc Hdc Hdv. apply (Hc c dc Hdc). congruence. Qed.
Lemma counted_evolves n fd s s' : evolves fd s s' → counted n s → counted n s'.
Proof.
  intros Hev (Hq&Hv&Hc). split; [by rewrite (ev_ls _ _ _ Hev)|]. split; [by rewrite (ev_version _ _ _ Hev)|].
  intros c dc' Hdc'. rewrite (entries_now_evolves _ _ _ Hev Hq).
  destruct (ev_caches _ _ _ Hev c dc' Hdc') as [(dc&Hdc&Hdv&He)|[Hdv He]]; [rewrite Hdv, He; by apply (Hc c)|].
  rewrite Hdv, Hv. split; [lia|]. intros _. by apply He.
Qed.
Lemma counted_change n f s s' :
  counted n s → (Z.of_nat n + 1 < 2 ^ 64)%Z → run_step (DChange f) s = (Ok tt, s') → counted (S n) s'.
Proof.
  intros (Hq&Hv&Hc) Hn. rewrite step_change. intros [= <-]. split; [done|]. cbn. rewrite Hv, Z.mod_small by lia. split; [lia|].
  intros c dc Hdc. destruct (Hc c dc Hdc). split; [lia|]. lia.
Qed.

Lemma file_ok_mono (Snap Snap' : list ovl_cache_entry → Prop) s od : (∀ l, Snap l → Snap' l) → file_ok Snap s od → file_ok Snap' s od.
Proof. intros H. unfold file_ok. destruct (od_cache od); [|done]. intros (dc&?&?&?). exists dc. auto. Qed.

(** What the others do does not concern the file [fd]. *)
Definition leaves (fd : nat) (op : df_op) : bool :=
  match op with DOpen fd' | DSeek fd' _ _ | DRelease fd' => negb (fd' =? fd) | _ => true end.
Definition moment (ops : list df_op) (s : DF) (l : list ovl_cache_entry) : Prop :=
  ∃ ops1 ops2 s1, ops = ops1 ++ ops2 ∧ run_ops ops1 s = (Ok tt, s1) ∧ quiet (df_ls s1) ∧ df_dentry s1 = df_dentry s ∧ l = entries_now s1.
Lemma moment_cons op ops s s1 l :
  run_step op s = (Ok tt, s1) → df_dentry s1 = df_dentry s → moment ops s1 l → moment (op :: ops) s l.
Proof.
  intros Hstep Hde (ops1&ops2&s2&->&Hrun&Hq&Hd&->). exists (op :: ops1), ops2, s2. split; [done|]. split; [|split; [done|split; [congruence|done]]].
  unfold run_ops. cbn [df_run]. by rewrite (bind_ok _ _ _ _ _ Hstep).
Qed.

Lemma reading_step op fd n s od Snap :
  dwf s → counted n s → (Z.of_nat n + 1 < 2 ^ 64)%Z → df_whiteouts s = true → df_files s !! fd = Some od → od_is_real od = false →
  Snap (entries_now s) → file_ok Snap s od → leaves fd op = true →
  ∃ s' od' n', run_step op s = (Ok tt, s') ∧ dwf s' ∧ counted n' s' ∧ n' ≤ S n ∧ df_whiteouts s' = true ∧ df_dentry s' = df_dentry s ∧
    df_files s' !! fd = Some od' ∧ od_is_real od' = false ∧ file_ok Snap s' od'.
Proof.
  intros Hwf Hcnt Hn Hw Hf Hr Hsnap Hok Hleave. destruct (op_fd op) as [fd'|] eqn:Hop.
  - destruct (step_file op fd' s Hop Hwf) as (s'&Hrun&Hwf'&Hev&Hit).
    assert (∃ od', df_files s' !! fd = Some od' ∧ od_is_real od' = false ∧ file_ok Snap s' od') as (od'&Hf'&Hr'&Hok').
    { destruct (decide (fd = fd')) as [<-|Hne].
      - destruct op as [?|fd1 room|? ? ?|?|]; cbn in Hop; try discriminate; injection Hop as ->;
          cbn in Hleave; try (by rewrite Nat.eqb_refl in Hleave).
        destruct (Hit room od eq_refl Hf) as (od'&Hf'&Hk&_). exists od'. split; [done|]. by apply Hk; [..|eapply counted_coherent| |].
      - exists od. rewrite (ev_files _ _ _ Hev) by done. split; [done|]. split; [done|]. unfold file_ok in *.
        destruct (od_cache od) as [c|] eqn:Hc; [|done]. destruct Hok as (dc&Hdc&Hs&Hrest).
        destruct (ev_held _ _ _ Hev fd od c dc Hne Hf Hc Hdc) as (dc'&Hdc'&_&He). exists dc'. rewrite He. done. }
    exists s', od', n. split; [done|]. split; [done|]. split; [by eapply counted_evolves|]. split; [lia|].
    split; [by rewrite (ev_whiteouts _ _ _ Hev)|]. split; [apply Hev|]. done.
  - destruct op as [| | | |f]; try done. destruct (run_step (DChange f) s) as [r s'] eqn:Hrun. pose proof Hrun as Hrun'.
    rewrite step_change in Hrun. injection Hrun as <- Hs'. exists s', od, (S n).
    split; [done|]. split; [rewrite <-Hs'; destruct Hwf; by split|]. split; [by eapply counted_change|]. split; [lia|].
    by rewrite <-Hs'.
Qed.
Lemma reading_run ops fd : ∀ n s od (Snap : list ovl_cache_entry → Prop),
  dwf s → counted n s → (Z.of_nat n + Z.of_nat (length ops) < 2 ^ 64)%Z → df_whiteouts s = true → df_files s !! fd = Some od →
  od_is_real od = false → file_ok Snap s od → forallb (leaves fd) ops = true →
  ∃ s' od', run_ops ops s = (Ok tt, s') ∧ df_files s' !! fd = Some od' ∧ file_ok (λ l, Snap l ∨ moment ops s l) s' od'.
Proof.
  induction ops as [|op ops IH]; intros n s od Snap Hwf Hcnt Hn Hw Hf Hr Hok Hleave.
  { exists s, od. split; [done|]. split; [done|]. eapply file_ok_mono; [|done]. by left. }
  cbn in Hleave. apply andb_true_iff in Hleave as [Hl Hls]. cbn [length] in Hn.
  set (Snap1 l := Snap l ∨ l = entries_now s).
  destruct (reading_step op fd n s od Snap1) as (s1&od1&n1&Hrun&Hwf1&Hcnt1&Hn1&Hw1&Hd1&Hf1&Hr1&Hok1); try done; [lia|by right|
    eapply file_ok_mono; [|exact Hok]; by left|].
  destruct (IH n1 s1 od1 Snap1 Hwf1 Hcnt1) as (s'&od'&Hrun'&Hf'&Hok'); try done; [lia|].
  exists s', od'. split; [unfold run_ops; cbn [df_run]; by rewrite (bind_ok _ _ _ _ _ Hrun)|]. split; [done|].
  eapply file_ok_mono; [|exact Hok']. intros l [[Hs| ->]|Hm]; [by left|right|right; by eapply moment_cons].
  exists [], (op :: ops), s. split; [done|]. split; [done|]. split; [apply Hcnt|done].
Qed.

Lemma counted_run ops : ∀ n s, dwf s → counted n s → (Z.of_nat n + Z.of_nat (length ops) < 2 ^ 64)%Z →
  ∃ s' n', run_ops ops s = (Ok tt, s') ∧ dwf s' ∧ counted n' s' ∧ n' ≤ n + length ops ∧ df_whiteouts s' = df_whiteouts s ∧
    df_dentry s' = df_dentry s.
Proof.
  induction ops as [|op ops IH]; intros n s Hwf Hcnt Hn; [exists s, n; split_and!; try done; cbn; lia|]. cbn [length] in *.
  assert (∃ s1 n1, run_step op s = (Ok tt, s1) ∧ dwf s1 ∧ counted n1 s1 ∧ n1 ≤ S n ∧ df_whiteouts s1 = df_whiteouts s ∧ df_dentry s1 = df_dentry s)
    as (s1&n1&Hrun&Hwf1&Hcnt1&Hn1&Hw1&Hd1).
  { destruct (op_fd op) as [fd|] eqn:Hop.
    - destruct (step_file op fd s Hop Hwf) as (s1&Hrun&Hwf1&Hev&_). exists s1, n. split; [done|]. split; [done|].
      split; [by eapply counted_evolves|]. split; [lia|]. split; apply Hev.
    - destruct op as [| | | |f]; try done. destruct (run_step (DChange f) s) as [r s1] eqn:Hrun. pose proof Hrun as Hrun'.
      rewrite step_change in Hrun'. injection Hrun' as <- Hs1. exists s1, (S n). split; [done|].
      split; [rewrite <-Hs1; destruct Hwf; by split|]. split; [eapply counted_change; [done|lia|done]|]. split; [lia|]. by rewrite <-Hs1. }
  destruct (IH n1 s1 Hwf1 Hcnt1) as (s'&n'&Hrun'&Hwf'&Hcnt'&Hn'&Hw'&Hd'); [lia|]. exists s', n'.
  split; [unfold run_ops; cbn [df_run]; by rewrite (bind_ok _ _ _ _ _ Hrun)|]. split; [done|]. split; [done|]. split; [lia|].
  split; congruence.
Qed.
(** One call with room. *)
Lemma shown_take k l : ∃ rest, shown l = shown (take k l) ++ rest.
Proof. exists (shown (drop k l)). rewrite <-(take_drop k l) at 1. unfold shown. by rewrite filter_app, fmap_app. Qed.
Lemma file_ok_out L s od : file_ok (λ l, l = L) s od → ∃ rest, shown L = od_out od ++ rest.
Proof.
  unfold file_ok. destruct (od_cache od) as [c|]; [|intros [-> _]; by exists (shown L)].
  intros (dc&_&->&_&_&->). apply shown_take.
Qed.
Lemma many_calls fd room N : ∀ n s od,
  dwf s → counted n s → df_whiteouts s = true → df_files s !! fd = Some od → od_is_real od = false →
  file_ok (λ l, l = entries_now s) s od →
  ∃ s' od', run_ops (replicate N (DIterate fd (S room))) s = (Ok tt, s') ∧ df_files s' !! fd = Some od' ∧
    (∃ more, od_out od' = od_out od ++ more) ∧ (∃ rest, shown (entries_now s) = od_out od' ++ rest) ∧
    (length (od_out od) + N ≤ length (od_out od') ∨ od_out od' = shown (entries_now s)).
Proof.
  induction N as [|N IH]; intros n s od Hwf Hcnt Hw Hf Hr Hok.
  { exists s, od. split; [done|]. split; [done|]. split; [exists []; by rewrite app_nil_r|]. split; [by eapply file_ok_out|]. left. lia. }
  destruct (step_file (DIterate fd (S room)) fd s eq_refl Hwf) as (s1&Hrun&Hwf1&Hev&Hit).
  destruct (Hit _ od eq_refl Hf) as (od1&Hf1&Hk&Hrd). pose proof (counted_coherent _ _ Hcnt) as Hcoh.
  destruct (Hk Hw Hr Hcoh (λ l, l = entries_now s) eq_refl Hok) as [Hr1 Hok1].
  destruct (Hrd Hw Hr Hcoh (λ l, l = entries_now s) eq_refl Hok) as (c&dc&names&Hc&Hdc&Hout&Hend).
  assert (entries_now s1 = entries_now s) as Hnow by (apply (entries_now_evolves fd); [done|apply Hcoh]).
  destruct (IH n s1 od1) as (s'&od'&Hrun'&Hf'&[more Hmore]&[rest Hrest]&Hlen); try done;
    [by eapply counted_evolves|by rewrite (ev_whiteouts _ _ _ Hev)|by rewrite Hnow|].
  rewrite Hnow in *. exists s', od'. split; [unfold run_ops; cbn [replicate df_run]; by rewrite (bind_ok _ _ _ _ _ Hrun)|].
  split; [done|]. split; [exists (names ++ more); by rewrite Hmore, Hout, app_assoc|]. split; [by exists rest|].
  destruct Hlen as [Hlen|]; [|by right]. destruct Hend as [Hend|Hend]; [|left; rewrite Hout, length_app in Hlen; lia].
  right. unfold file_ok in Hok1. rewrite Hc in Hok1. destruct Hok1 as (dc'&Hdc'&He&_&_&Hout1).
  rewrite Hdc in Hdc'. injection Hdc' as <-. rewrite Hend, take_ge, He in Hout1 by done. rewrite Hmore, Hout1 in Hrest |- *.
  rewrite <-app_assoc in Hrest. rewrite <-(app_nil_r (shown (entries_now s))) in Hrest at 1. apply app_inv_head in Hrest.
  symmetry in Hrest. apply app_nil in Hrest as [-> _]. by rewrite app_nil_r.
Qed.
End DirProps.

(** C23. No cache of a directory is used after it was freed, and none is left behind:
    whatever files are opened, read, sought in and closed while calls into the layers
    fail and the directory changes, no call touches freed memory, every cache is
    counted as often as files hold it, and once all files are closed none is left. *)
Theorem dir_caches_safe iterate rebalance needs_ino iterate_real seek_real ops s :
  (∀ de pos room, reads (iterate_real de pos room)) → (∀ de pos off org, reads (seek_real de pos off org)) → unused s →
  ∃ s', df_run iterate rebalance needs_ino iterate_real seek_real ops s = (Ok tt, s') ∧ dwf s' ∧
    (df_files s' = ∅ → df_caches s' = ∅ ∧ df_icache s' = None).
Proof.
  intros Hreal Hseek Hs.
  destruct (run_safe iterate rebalance needs_ino iterate_real seek_real Hreal Hseek ops s (unused_wf s Hs)) as (s'&Hrun&Hwf).
  exists s'. split; [done|]. split; [done|]. intros Hf.
  assert (df_caches s' = ∅) as Hc.
  { apply map_eq. intros c. pose proof (dw_count _ Hwf c) as H. rewrite Hf, holders_empty in H. rewrite lookup_empty.
    destruct (df_caches s' !! c); [by destruct H|done]. }
  split; [done|]. destruct (df_icache s') as [c|] eqn:Hi; [|done]. destruct (dw_icache _ Hwf c Hi) as [dc Hdc]. by rewrite Hc in Hdc.
Qed.

(** C24. Reading a directory piece by piece is atomic: a file that is opened and then
    only read, in pieces of any size and with anything else going on, gives its reader
    names that the merged directory had at one moment since, each at most once, and at
    the end of its list all of them.  (Up to 2^64 changes, no call failing.) *)
Theorem readdir_snapshot iterate rebalance needs_ino iterate_real seek_real fd ops1 ops2 s s1 :
  (∀ t, inorder (rebalance t) = inorder t) → (∀ s i p, iterate_ok iterate s i p) →
  (∀ de pos room, reads (iterate_real de pos room)) → (∀ de pos off org, reads (seek_real de pos off org)) →
  unused s → quiet (df_ls s) → df_version s = 0%Z → df_whiteouts s = true →
  (Z.of_nat (length ops1 + length ops2) < 2 ^ 64 - 1)%Z →
  df_run iterate rebalance needs_ino iterate_real seek_real ops1 s = (Ok tt, s1) →
  df_files s1 !! fd = None → forallb (leaves fd) ops2 = true →
  ∃ s2 od, df_run iterate rebalance needs_ino iterate_real seek_real (DOpen fd :: ops2) s1 = (Ok tt, s2) ∧ df_files s2 !! fd = Some od ∧
    match od_cache od with
    | None => od_out od = []
    | Some c => ∃ dc ops3 ops4 s3, df_caches s2 !! c = Some dc ∧ DOpen fd :: ops2 = ops3 ++ ops4 ∧
        df_run iterate rebalance needs_ino iterate_real seek_real ops3 s1 = (Ok tt, s3) ∧ NoDup (od_out od) ∧
        (∀ x, x ≠ "." → x ≠ ".." → x ∈ od_out od → visible (df_ls s3) (real_dirs (df_dentry s)) x = true) ∧
        (od_cursor od = length (dc_entries dc) →
           ∀ x, x ≠ "." → x ≠ ".." → visible (df_ls s3) (real_dirs (df_dentry s)) x = true → x ∈ od_out od)
    end.
Proof.
  intros Hreb Hiter Hreal Hseek Hs Hq Hv Hw Hlen Hrun1 Hnone Hleave.
  destruct (counted_run iterate rebalance needs_ino iterate_real seek_real Hreal Hseek ops1 0 s (unused_wf s Hs))
    as (s1'&n&Hrun1'&Hwf1&Hcnt1&Hn&Hw1&Hd1); [|lia|].
  { split; [done|]. split; [done|]. destruct Hs as (_&Hc&_). rewrite Hc. by intros c dc ?%lookup_empty_Some. }
  unfold run_ops in Hrun1'. rewrite Hrun1 in Hrun1'. injection Hrun1' as <-.
  destruct (open_run iterate rebalance s1 fd Hwf1 Hnone) as (r&s2&Hopen&_&Hwf2&Hev&Hnew).
  destruct Hnew as [-> Hf2]; [apply Hcnt1|]. rewrite Hw in Hw1. unfold ovl_dir_is_real in Hf2. rewrite Hw1 in Hf2. cbn [negb] in Hf2.
  assert (run_step iterate rebalance needs_ino iterate_real seek_real (DOpen fd) s1 = (Ok tt, s2)) as Hstep.
  { unfold run_step, df_step. rewrite (bind_ok _ _ _ s1 s1) by done. rewrite bool_decide_eq_false_2 by (by rewrite eq_None_not_Some in Hnone).
    by apply (ignore_ok _ _ _ _ Hopen). }
  destruct (reading_run iterate rebalance needs_ino iterate_real seek_real Hreal Hseek ops2 fd n s2 (mkOd false None 0 0 []) (λ _, False) Hwf2
              (counted_evolves _ _ _ _ _ _ Hev Hcnt1)) as (s3&od&Hrun3&Hf3&Hok); try done; [lia|by rewrite (ev_whiteouts _ _ _ _ _ Hev)|].
  exists s3, od. split; [cbn [df_run]; by rewrite (bind_ok _ _ _ _ _ Hstep)|]. split; [done|].
  unfold file_ok in Hok. destruct (od_cache od) as [c|]; [|by destruct Hok].
  destruct Hok as (dc&Hdc&[[]|Hm]&_&_&Hout).
  apply (moment_cons iterate rebalance needs_ino iterate_real seek_real (DOpen fd)) with (s := s1) in Hm; [|done|apply Hev].
  destruct Hm as (ops3&ops4&s4&Hops&Hrun4&Hq4&Hd4&He). exists dc, ops3, ops4, s4. split; [done|]. split; [done|]. split; [done|].
  destruct (dir_read_merged_run iterate rebalance Hreb (df_ls s4) (df_dentry s4) Hq4) as (l&Hl&Hnd&Hvis).
  { apply Forall_forall. intros r _. apply Hiter. }
  assert (dc_entries dc = l) as Hdl by (rewrite He; unfold entries_now; by rewrite Hl). rewrite Hout, Hdl.
  assert (df_dentry s4 = df_dentry s) as Hd by congruence. rewrite Hd in Hvis.
  split; [|split].
  - apply nodup_filter_fmap. rewrite <-(take_drop (od_cursor od) l), fmap_app in Hnd. by apply NoDup_app in Hnd as [? _].
  - intros x Hx1 Hx2 Hx. apply Hvis; [done..|]. rewrite <-(take_drop (od_cursor od) l). unfold shown in *. rewrite filter_app, fmap_app.
    apply elem_of_app. by left.
  - intros -> x Hx1 Hx2 Hx. rewrite take_ge by done. by apply Hvis.
Qed.

(** Reading a directory comes to its end: a file of the merged directory that is
    opened and then read with room for at least one name per call has, after one call
    more than there are names, given its reader exactly the names of the directory,
    each once. *)
Theorem readdir_finishes iterate rebalance needs_ino iterate_real seek_real fd room s N :
  (∀ t, inorder (rebalance t) = inorder t) → (∀ s i p, iterate_ok iterate s i p) →
  (∀ de pos room, reads (iterate_real de pos room)) → (∀ de pos off org, reads (seek_real de pos off org)) →
  unused s → quiet (df_ls s) → df_version s = 0%Z → df_whiteouts s = true →
  length (shown (entries_now iterate rebalance s)) < N →
  ∃ s' od, df_run iterate rebalance needs_ino iterate_real seek_real (DOpen fd :: replicate N (DIterate fd (S room))) s = (Ok tt, s') ∧
    df_files s' !! fd = Some od ∧ NoDup (od_out od) ∧
    ∀ x, x ≠ "." → x ≠ ".." → x ∈ od_out od ↔ visible (df_ls s) (real_dirs (df_dentry s)) x = true.
Proof.
  intros Hreb Hiter Hreal Hseek Hs Hq Hv Hw HN. pose proof (unused_wf s Hs) as Hwf.
  assert (counted iterate rebalance 0 s) as Hcnt.
  { split; [done|]. split; [done|]. destruct Hs as (_&Hc&_). rewrite Hc. by intros c dc ?%lookup_empty_Some. }
  assert (df_files s !! fd = None) as Hnone by (destruct Hs as (->&_); apply lookup_empty).
  destruct (open_run iterate rebalance s fd Hwf Hnone) as (r&s1&Hopen&_&Hwf1&Hev&Hnew).
  destruct Hnew as [-> Hf1]; [done|]. unfold ovl_dir_is_real in Hf1. rewrite Hw in Hf1. cbn [negb] in Hf1.
  assert (entries_now iterate rebalance s1 = entries_now iterate rebalance s) as Hnow by (by eapply entries_now_evolves).
  destruct (many_calls iterate rebalance needs_ino iterate_real seek_real Hreal Hseek fd room N 0 s1 (mkOd false None 0 0 []) Hwf1
    (counted_evolves _ _ _ _ _ _ Hev Hcnt)) as (s'&od&Hrun&Hf&_&[rest Hrest]&Hend); try done; [by rewrite (ev_whiteouts _ _ _ _ _ Hev)|].
  rewrite Hnow in *. exists s', od. split.
  { cbn [df_run]. rewrite (bind_ok _ _ _ tt s1); [exact Hrun|]. unfold df_step. rewrite (bind_ok _ _ _ s s) by done.
    rewrite bool_decide_eq_false_2 by (by rewrite eq_None_not_Some in Hnone). by apply (ignore_ok _ _ _ _ Hopen). }
  split; [done|]. destruct Hend as [Hend| ->].
  { apply (f_equal length) in Hrest. rewrite length_app in Hrest. cbn in Hend. lia. }
  destruct (dir_read_merged_run iterate rebalance Hreb (df_ls s) (df_dentry s) Hq) as (l&Hl&Hnd&Hvis).
  { apply Forall_forall. intros r _. apply Hiter. }
  assert (entries_now iterate rebalance s = l) as -> by (unfold entries_now; by rewrite Hl). split; [by apply nodup_filter_fmap|done].
Qed.
