(* ===== verification/OvlLookupProps.v ===== *)
(** * What looking names up finds

    While no call fails and no directory is redirected, a name leads to the
    entries of it in the layers of its directory, down to the first one that
    hides what is below. *)

From S2P Require Import Prelude FileSys OvlOpts OvlMount OvlCopyUp OvlLookup OvlReaddir OvlMountProps OvlReaddirProps.

(** ** States that differ in private attributes *)

Definition is_dir_node (n : rinode) : bool := is_dir_type (ri_type n).
Definition is_opaque_node (n : rinode) : bool := bool_decide (ri_xattrs n !! OVL_XATTR_OPAQUE = Some "y").

(** The origin of a directory and the mark of its parent are the overlay's own
    notes. *)
Definition similar_node (n m : rinode) : Prop :=
  ri_type n = ri_type m ∧ (∀ x, x ≠ OVL_XATTR_ORIGIN → x ≠ OVL_XATTR_IMPURE → ri_xattrs n !! x = ri_xattrs m !! x) ∧
  ri_uid n = ri_uid m ∧ ri_gid n = ri_gid m ∧ ri_mode n = ri_mode m.
Record similar (s s' : LS) : Prop := {
  sm_length : length (ls_layers s') = length (ls_layers s);
  sm_node : ∀ i p, option_Forall2 similar_node (node s i p) (node s' i p);
  sm_faults : ls_faults s' = ls_faults s;
}.
Lemma similar_node_refl n : similar_node n n.
Proof. done. Qed.
Lemma similar_opt_refl o : option_Forall2 similar_node o o.
Proof. destruct o; constructor. apply similar_node_refl. Qed.
Lemma similar_refl s : similar s s.
Proof. split; [done| |done]. intros i p. apply similar_opt_refl. Qed.
Lemma similar_trans s1 s2 s3 : similar s1 s2 → similar s2 s3 → similar s1 s3.
Proof.
  intros [L1 N1 F1] [L2 N2 F2]. split; [congruence| |congruence]. intros i p. specialize (N1 i p). specialize (N2 i p).
  destruct N1 as [n m (Ht&Hx&?&?&?)|]; [|inversion N2; constructor]. inversion N2 as [m' k (Ht'&Hx'&?&?&?) Hm|]; subst. constructor.
  split_and!; [congruence| |congruence..]. intros x Ho Hi. by rewrite Hx, Hx'.
Qed.

Lemma similar_whiteout n m : similar_node n m → ovl_is_whiteout n = ovl_is_whiteout m.
Proof. intros [Ht _]. unfold ovl_is_whiteout. by rewrite Ht. Qed.
Lemma similar_dir n m : similar_node n m → is_dir_node n = is_dir_node m.
Proof. intros [Ht _]. unfold is_dir_node. by rewrite Ht. Qed.
Lemma similar_opaque n m : similar_node n m → is_opaque_node n = is_opaque_node m.
Proof. intros (_&Hx&_). unfold is_opaque_node. by rewrite Hx. Qed.

Definition no_redirect (s : LS) : Prop := ∀ i p n, node s i p = Some n → ri_xattrs n !! OVL_XATTR_REDIRECT = None.
Lemma similar_no_redirect s s' : similar s s' → no_redirect s → no_redirect s'.
Proof.
  intros Hs Hn i p m Hm. pose proof (sm_node _ _ Hs i p) as Hnode. rewrite Hm in Hnode.
  inversion Hnode as [n m' (_&Hx&_) Hn'|]; subst. rewrite <-Hx by done. by apply (Hn i p).
Qed.
Lemma similar_quiet s s' : similar s s' → quiet s → quiet s'.
Proof. intros Hs. unfold quiet. by rewrite (sm_faults _ _ Hs). Qed.

(** ** One layer *)

Section LookupRuns.
Context (ofs : ovl_fs) (weird remote : nat → path → bool) (namelen : nat) (fh : nat * path → string)
        (check_origin : path → M LS (list (nat * path))) (verify_origin : path → nat * path → M LS ())
        (lookup_index : option path → nat * path → M LS (option path)).
Context (Hweird : ∀ i p, weird i p = false) (Hremote : ∀ i p, remote i p = false).

(** What looking up [name] in the directory [base] of layer [i] finds, and the
    data then. *)
Definition single_spec (s : LS) (i : nat) (base : path) (d : ovl_lookup_data) (name : string) : option path * ovl_lookup_data :=
  match node s i (base ++ [name]) with
  | None => (None, d)
  | Some n =>
      if ovl_is_whiteout n then (None, ld_set_stop true (ld_set_opaque d))
      else if negb (is_dir_node n) then (if ld_is_dir d then None else Some (base ++ [name]), ld_set_stop true d)
      else if negb (ld_last d) && is_opaque_node n then (Some (base ++ [name]), ld_set_opaque (ld_set_stop true (ld_set_is_dir d)))
      else (Some (base ++ [name]), ld_set_is_dir d)
  end.
Lemma single_run s i base d name :
  quiet s → no_redirect s → ovl_lookup_single weird i base d name 0 EmptyString s = (Ok (single_spec s i base d name), s).
Proof.
  intros Hq Hn. unfold ovl_lookup_single, single_spec, lookup_one_len.
  rewrite (bind_ok _ _ _ _ _ (attempt_ok _ _ _ _ (read_quiet _ s Hq))).
  destruct (node s i (base ++ [name])) as [n|] eqn:Hnode; [|done]. rewrite Hweird.
  destruct (ovl_is_whiteout n); [done|]. fold (is_dir_node n). destruct (is_dir_node n) eqn:Hd; cbn [negb String.eqb]; [|cbn [ld_is_dir ld_set_stop]; by destruct (ld_is_dir d)].
  cbn [ld_last ld_set_is_dir]. destruct (ld_last d) eqn:Hl; [by cbn|]. cbn [negb andb].
  unfold ovl_is_opaquedir, ovl_check_dir_xattr, vfs_getxattr. fold (is_dir_node n). rewrite Hd. cbn [negb].
  erewrite bind_ok; [|rewrite (bind_ok _ _ _ _ _ (attempt_ok _ _ _ _ (read_quiet _ s Hq))); reflexivity].
  rewrite Hnode. cbn [mbind option_bind]. unfold is_opaque_node.
  destruct (ri_xattrs n !! OVL_XATTR_OPAQUE) as [v|] eqn:Hv.
  - destruct (String.eqb_spec v "y") as [->|Hne]; [by rewrite bool_decide_eq_true_2|].
    rewrite bool_decide_eq_false_2 by congruence. unfold ovl_check_redirect, vfs_getxattr.
    erewrite bind_ok; [|rewrite (bind_ok _ _ _ _ _ (attempt_ok _ _ _ _ (read_quiet _ s Hq))); rewrite Hnode; cbn; rewrite (Hn _ _ _ Hnode); reflexivity].
    done.
  - rewrite bool_decide_eq_false_2 by congruence. unfold ovl_check_redirect, vfs_getxattr.
    erewrite bind_ok; [|rewrite (bind_ok _ _ _ _ _ (attempt_ok _ _ _ _ (read_quiet _ s Hq))); rewrite Hnode; cbn; rewrite (Hn _ _ _ Hnode); reflexivity].
    done.
Qed.

(** The handle of a lower directory, stored or not. *)
Lemma set_upper_xattr s p x v :
  x = OVL_XATTR_ORIGIN ∨ x = OVL_XATTR_IMPURE → quiet s →
  ∃ s', vfs_write 0 (alter (set_xattr x v) p) s = (Ok tt, s') ∧ similar s s'.
Proof.
  intros Hx Hq. exists (set_layer 0 (alter (set_xattr x v) p (default ∅ (ls_layers s !! 0))) s).
  split; [unfold vfs_write; by rewrite Hq|]. split; [apply length_insert| |done]. intros i q. unfold node, set_layer. cbn [ls_layers].
  destruct (decide (i = 0)) as [->|Hi].
  - destruct (ls_layers s !! 0) as [t|] eqn:Ht; [|rewrite list_insert_ge by (by apply lookup_ge_None); rewrite Ht; constructor].
    rewrite list_lookup_insert_eq by (by eapply lookup_lt_Some). cbn. destruct (decide (q = p)) as [->|Hp].
    + rewrite lookup_alter_eq. destruct (t !! p) as [n|]; constructor. split_and!; [done| |done..]. intros y Ho Hi. cbn.
      rewrite lookup_insert_ne; [done|]. by destruct Hx as [->| ->].
    + rewrite lookup_alter_ne by done. apply similar_opt_refl.
  - rewrite list_lookup_insert_ne by done. apply similar_opt_refl.
Qed.
Lemma setxattr_run s p x v : x = OVL_XATTR_ORIGIN ∨ x = OVL_XATTR_IMPURE → quiet s →
  ∃ s', ovl_check_setxattr (0, p) x v None s = (Ok tt, s') ∧ similar s s'.
Proof.
  intros Hx Hq. unfold ovl_check_setxattr. rewrite (bind_ok _ _ _ s s) by done.
  destruct (ls_noxattr s); [by exists s; split; [|apply similar_refl]|]. by apply set_upper_xattr.
Qed.
Lemma fix_origin_run s lower u : quiet s → ∃ s', ovl_fix_origin fh lower (0, u) s = (Ok tt, s') ∧ similar s s'.
Proof.
  intros Hq. unfold ovl_fix_origin, vfs_getxattr. cbn [fst snd]. cbv zeta.
  rewrite (bind_ok _ _ _ _ _ (attempt_ok _ _ _ _ (read_quiet _ s Hq))).
  destruct (node s 0 u ≫= _) as [v|]; [by exists s; split; [|apply similar_refl]|].
  rewrite (bind_ok _ _ _ _ _ (read_quiet _ s Hq)).
  destruct (setxattr_run s u OVL_XATTR_ORIGIN (fh lower)) as (s1&Hs1&Hsim1); [by left|done|].
  rewrite (bind_ok _ _ _ _ _ Hs1). rewrite (bind_ok _ _ _ s1 s1) by done.
  case_bool_decide; [by exists s1|].
  destruct (setxattr_run s1 (parent_dir u) OVL_XATTR_IMPURE "y") as (s2&Hs2&Hsim2); [by right|by eapply similar_quiet|].
  rewrite (bind_ok _ _ _ _ _ Hs2). eexists. split; [done|]. eapply similar_trans; [exact Hsim1|].
  eapply similar_trans; [exact Hsim2|]. destruct (similar_refl s2). by split.
Qed.

(** ** The layers of a directory *)

(** The entries of [name] in the directories [l], down to the first one that hides
    what is below it; once a directory was met, only directories count. *)
Fixpoint collect_layers (s : LS) (name : string) (l : list (nat * path)) (is_dir : bool) : list (nat * path) :=
  match l with
  | [] => []
  | (i, base) :: rest =>
      match node s i (base ++ [name]) with
      | None => collect_layers s name rest is_dir
      | Some n =>
          if ovl_is_whiteout n then []
          else if negb (is_dir_node n) then (if is_dir then [] else [(i, base ++ [name])])
          else (i, base ++ [name]) :: (if is_opaque_node n then [] else collect_layers s name rest true)
      end
  end.
Lemma collect_similar s s' name l : ∀ b, similar s s' → collect_layers s' name l b = collect_layers s name l b.
Proof.
  induction l as [|[i base] rest IH]; intros b Hs; [done|]. cbn [collect_layers].
  destruct (sm_node _ _ Hs i (base ++ [name])) as [n m Hnm|]; [|by apply IH].
  by rewrite <-(similar_whiteout _ _ Hnm), <-(similar_dir _ _ Hnm), <-(similar_opaque _ _ Hnm), IH.
Qed.

(** Only the last directory of a list is the one of the lowest layer. *)
Fixpoint last_at (roe : nat) (l : list (nat * path)) : Prop :=
  match l with
  | [] => True
  | (i, _) :: rest => (i = roe → rest = []) ∧ last_at roe rest
  end.

Lemma note_run s upper (first : bool) lower : quiet s →
  ∃ s', (match upper with
         | Some u => s ← get; if first && negb (ls_noxattr s) then ovl_fix_origin fh lower (0, u) else mret tt
         | None => mret tt
         end) s = (Ok tt, s') ∧ similar s s'.
Proof.
  intros Hq. destruct upper as [u|]; [|by exists s; split; [|apply similar_refl]].
  rewrite (bind_ok _ _ _ s s) by done.
  destruct (first && negb (ls_noxattr s)); [by apply fix_origin_run|by exists s; split; [|apply similar_refl]].
Qed.

Context (Hverify : ovl_verify_lower ofs = false).
Definition last_flag (roe i : nat) (rest : list (nat * path)) : bool :=
  if cf_redirect_follow (ofs_config ofs) then i =? roe else bool_decide (rest = []).
(** An entry that was found is pushed on the stack. *)
Lemma lowers_found roe upper jump i base rest k s p d :
  quiet s → ld_stop (lk_data k) = false → ld_redirect d = None →
  ovl_lookup_layer weird i base (ld_set_last (last_flag roe i rest) (lk_data k)) s = (Ok (Some p, d), s) →
  ∃ s1, similar s s1 ∧
    let k1 := mkStack d (lk_stack k ++ [(i, p)]) (lk_origin k) in
    lookup_lowers ofs weird fh verify_origin roe upper jump ((i, base) :: rest) k s =
      if ld_stop d then (Ok k1, s1) else lookup_lowers ofs weird fh verify_origin roe upper jump rest k1 s1.
Proof.
  intros Hq Hstop Hr Hlayer. destruct (note_run s upper (bool_decide (lk_stack k = [])) (i, p) Hq) as (s1&Hs1&Hsim).
  exists s1. split; [done|]. cbn [lookup_lowers]. rewrite Hstop. cbn zeta. rewrite (bind_ok _ _ _ _ _ Hlayer).
  cbn zeta. rewrite (bind_ok _ _ _ _ _ Hs1), Hverify, andb_false_r. rewrite (bind_ok _ _ _ None s1) by (by destruct upper).
  rewrite Hr, bool_decide_eq_false_2 by (by intros []). cbn [andb]. by destruct (ld_stop d).
Qed.
Lemma lowers_run roe upper jump name l : ∀ k s,
  quiet s → no_redirect s → is_absolute name = false → last_at roe l → ld_name (lk_data k) = name → ld_redirect (lk_data k) = None →
  ∃ k' s', lookup_lowers ofs weird fh verify_origin roe upper jump l k s = (Ok k', s') ∧ similar s s' ∧
    lk_stack k' = lk_stack k ++ (if ld_stop (lk_data k) then [] else collect_layers s name l (ld_is_dir (lk_data k))).
Proof.
  induction l as [|[i base] rest IH]; intros k s Hq Hn Ha Hl Hname Hr.
  { exists k, s. split; [done|]. split; [apply similar_refl|]. destruct (ld_stop _); by rewrite app_nil_r. }
  destruct (ld_stop (lk_data k)) eqn:Hstop.
  { exists k, s. cbn [lookup_lowers]. rewrite Hstop. split; [done|]. split; [apply similar_refl|]. by rewrite app_nil_r. }
  destruct Hl as [Hlast Hl]. set (d := ld_set_last (last_flag roe i rest) (lk_data k)).
  assert (ld_last d = true → rest = []) as Hd.
  { cbn [ld_last ld_set_last d]. unfold last_flag. destruct (cf_redirect_follow _); [intros H%Nat.eqb_eq; auto|by case_bool_decide]. }
  assert (ovl_lookup_layer weird i base d s = (Ok (single_spec s i base d name), s)) as Hlayer.
  { unfold ovl_lookup_layer. cbn [ld_name ld_set_last d]. rewrite Hname, Ha. by apply single_run. }
  assert (∀ p d', single_spec s i base d name = (Some p, d') → ld_redirect d' = None → ld_name d' = name →
    ∃ k' s', lookup_lowers ofs weird fh verify_origin roe upper jump ((i, base) :: rest) k s = (Ok k', s') ∧ similar s s' ∧
      lk_stack k' = lk_stack k ++ (i, p) :: (if ld_stop d' then [] else collect_layers s name rest (ld_is_dir d'))) as Hfound.
  { intros p d' Hsp Hr' Hname'. rewrite Hsp in Hlayer.
    destruct (lowers_found roe upper jump i base rest k s p d' Hq Hstop Hr' Hlayer) as (s1&Hsim&Hrun). cbn zeta in Hrun.
    destruct (ld_stop d') eqn:Hst'; [by eexists _, s1|].
    destruct (IH (mkStack d' (lk_stack k ++ [(i, p)]) (lk_origin k)) s1) as (k'&s'&Hrun'&Hs&Hst); try done;
      [by eapply similar_quiet|by eapply similar_no_redirect|].
    exists k', s'. split; [by rewrite Hrun|]. split; [by eapply similar_trans|]. rewrite Hst. cbn. rewrite Hst', <-app_assoc. cbn.
    by rewrite (collect_similar s s1). }
  assert (∀ d', single_spec s i base d name = (None, d') → ld_redirect d' = None → ld_name d' = name →
    ∃ k' s', lookup_lowers ofs weird fh verify_origin roe upper jump ((i, base) :: rest) k s = (Ok k', s') ∧ similar s s' ∧
      lk_stack k' = lk_stack k ++ (if ld_stop d' then [] else collect_layers s name rest (ld_is_dir d'))) as Hnone.
  { intros d' Hsp Hr' Hname'. rewrite Hsp in Hlayer.
    destruct (IH (mkStack d' (lk_stack k) (lk_origin k)) s) as (k'&s'&Hrun&Hs&Hst); try done.
    exists k', s'. split; [|done]. cbn [lookup_lowers]. rewrite Hstop. by rewrite (bind_ok _ _ _ _ _ Hlayer). }
  unfold single_spec in Hfound, Hnone. cbn [collect_layers].
  destruct (node s i (base ++ [name])) as [n|] eqn:Hnode.
  2:{ destruct (Hnone d) as (k'&s'&Hrun&Hs&Hst); try done. exists k', s'. split; [done|]. split; [done|]. rewrite Hst. cbn. by rewrite Hstop. }
  destruct (ovl_is_whiteout n); [by apply (Hnone _ eq_refl)|].
  destruct (is_dir_node n); cbn [negb] in *.
  - destruct (is_opaque_node n); rewrite ?andb_false_r, ?andb_true_r in Hfound.
    + destruct (ld_last d) eqn:Hlst; cbn [negb] in Hfound; [|by apply (Hfound _ _ eq_refl)].
      destruct (Hfound _ _ eq_refl) as (k'&s'&Hrun&Hs&Hst); try done. exists k', s'. split; [done|]. split; [done|].
      rewrite Hst, (Hd eq_refl). cbn. by destruct (ld_stop _).
    + destruct (Hfound _ _ eq_refl) as (k'&s'&Hrun&Hs&Hst); try done. exists k', s'. split; [done|]. split; [done|].
      rewrite Hst. cbn. by rewrite Hstop.
  - cbn [ld_is_dir ld_set_last d] in *. destruct (ld_is_dir (lk_data k)); [by apply (Hnone _ eq_refl)|by apply (Hfound _ _ eq_refl)].
Qed.

(** ** A lookup *)

Context (Hindex : ofs_indexdir ofs = None) (Horigin : ∀ u s, ∃ st, check_origin u s = (Ok st, s)).

(** The directories of a dentry, and what is found of [name] in them. *)
Definition dirs_of (de : ovl_dentry) : list (nat * path) :=
  match de_upper de with Some u => [(0, u)] | None => [] end ++ de_lowers de.
Definition found_in (s : LS) (de : ovl_dentry) (name : string) : list (nat * path) := collect_layers s name (dirs_of de) false.

(** The result of a lookup is what the layers hold: an upper entry comes first, and
    below a directory the stack is the rest. *)
Definition finds (s : LS) (f : ovl_found) (l : list (nat * path)) : Prop :=
  match fo_upper f with
  | Some u => ∃ rest, l = (0, u) :: rest ∧ (can_lookup s 0 u = true → fo_lowers f = rest)
  | None => fo_lowers f = l
  end.
Lemma finds_positive s f l : finds s f l → fo_positive f = negb (bool_decide (l = [])).
Proof. unfold finds, fo_positive. destruct (fo_upper f); [intros (rest&->&_)|intros ->]; done. Qed.

(** The upper part of a lookup leaves to the lower one what is to be collected. *)
Lemma upper_run parent (last : bool) name s :
  quiet s → no_redirect s → is_absolute name = false → (last = true → de_lowers parent = []) →
  ∃ upper d' stack,
    lookup_upper weird remote check_origin parent (mkData name false false false last None) s = (Ok (upper, d', stack), s) ∧
    ld_redirect d' = None ∧ ld_name d' = name ∧
    let rest := if ld_stop d' then [] else collect_layers s name (de_lowers parent) (ld_is_dir d') in
    match upper with
    | Some u => found_in s parent name = (0, u) :: rest ∧ (can_lookup s 0 u = true → stack = [])
    | None => stack = [] ∧ found_in s parent name = rest ∧ ∀ base n, de_upper parent = Some base → node s 0 (base ++ [name]) = Some n →
        ld_opaque d' = true ∧ ld_stop d' = true
    end.
Proof.
  intros Hq Hn Ha Hlast. unfold lookup_upper, found_in, dirs_of. destruct (de_upper parent) as [base|]; cbn [app collect_layers].
  2:{ by eexists _, _, _. }
  erewrite bind_ok; [|unfold ovl_lookup_layer; cbn [ld_name]; rewrite Ha; by apply single_run].
  unfold single_spec. destruct (node s 0 (base ++ [name])) as [n|] eqn:Hnode; [|eexists _, _, _; split; [done|]; cbn; split_and!; try done; intros b m [= <-] Hm; congruence].
  destruct (ovl_is_whiteout n); [by eexists _, _, _|].
  destruct (is_dir_node n) eqn:Hdir; cbn [negb ld_last ld_is_dir].
  - destruct (negb last && is_opaque_node n) eqn:Hop; rewrite Hremote; (eexists _, _, _; split; [done|]); cbn.
    + by apply andb_true_iff in Hop as [_ ->].
    + split; [done|]. split; [done|]. split; [|done]. f_equal. apply andb_false_iff in Hop as [Hl| ->]; [|done].
      apply negb_false_iff, Hlast in Hl as ->. by destruct (is_opaque_node n).
  - rewrite Hremote. cbn [ld_is_dir ld_set_stop negb]. destruct (Horigin (base ++ [name]) s) as [st Hst].
    rewrite (bind_ok _ _ _ _ _ Hst). eexists _, _, _. split; [done|]. cbn. split; [done|]. split; [done|]. split; [done|].
    unfold can_lookup. rewrite Hnode. unfold is_dir_node in Hdir. by rewrite Hdir.
Qed.

Lemma lookup_run root parent name s :
  quiet s → no_redirect s → is_absolute name = false → String.length name ≤ namelen →
  last_at (length (de_lowers root)) (de_lowers parent) →
  ∃ f s', ovl_lookup ofs weird remote namelen fh check_origin verify_origin lookup_index root parent name s = (Ok f, s') ∧
    similar s s' ∧ finds s f (found_in s parent name) ∧
    (fo_upper f = None → ∀ base n, de_upper parent = Some base → node s 0 (base ++ [name]) = Some n → fo_opaque f = true ∧ fo_lowers f = []).
Proof.
  intros Hq Hn Ha Hlen Hlast. unfold ovl_lookup. rewrite (proj2 (Nat.ltb_ge _ _) Hlen). cbn zeta. set (last := if cf_redirect_follow _ then _ else _).
  destruct (upper_run parent last name s) as (upper&d&stack&Hup&Hr&Hname&Hfound); try done.
  { unfold last. destruct (cf_redirect_follow _); [done|by case_bool_decide]. }
  rewrite (bind_ok _ _ _ _ _ Hup). cbn zeta in *. rewrite Hr. cbn [orb].
  set (jump := if bool_decide (parent = root) then None else _).
  destruct (lowers_run (length (de_lowers root)) upper jump name (de_lowers parent) (mkStack d stack None) s) as (k&s'&Hrun&Hs&Hst); try done.
  rewrite (bind_ok _ _ _ _ _ Hrun).
  rewrite (bind_ok _ _ _ None s') by (rewrite Hindex; by destruct (match lk_stack k with [] => _ | _ => _ end)).
  eexists _, s'. split; [done|]. split; [done|]. unfold finds. cbn in *. destruct upper as [u|].
  - destruct Hfound as [-> Hnil]. split; [|done]. eexists. split; [done|]. intros Hc. by rewrite Hst, (Hnil Hc).
  - destruct Hfound as (->&->&Hw). rewrite Hst. split; [done|]. intros _ base n Hb Hno. destruct (Hw base n Hb Hno) as [-> ->]. done.
Qed.
End LookupRuns.

(** ** Listing and looking up agree *)

Lemma collect_visible s rs c : negb (bool_decide (collect_layers s c rs.*2 false = [])) = visible s rs c.
Proof.
  unfold visible. induction rs as [|[up [i p]] rs IH]; [done|]. cbn [fmap list_fmap snd collect_layers first_node].
  destruct (node s i (p ++ [c])) as [n|]; [|exact IH].
  destruct (ovl_is_whiteout n); [done|]. by destruct (is_dir_node n).
Qed.
Lemma found_visible s de c : negb (bool_decide (found_in s de c = [])) = visible s (real_dirs de) c.
Proof.
  rewrite <-collect_visible. unfold found_in, dirs_of, real_dirs. rewrite fmap_app, <-list_fmap_compose.
  destruct (de_upper de); by rewrite list_fmap_id.
Qed.

(** C25. A directory of the overlay lists exactly the names that can be looked up in
    it, and each of them once: while no call fails and nothing is redirected,
    [ovl_iterate] over the merged layers emits a name if and only if [ovl_lookup]
    of it finds an entry. *)
Theorem listing_is_lookup
    (iterate : LS → nat → path → list (string * bool)) (rebalance : rb_tree → rb_tree)
    (ofs : ovl_fs) (weird remote : nat → path → bool) (namelen : nat) (fh : nat * path → string)
    (check_origin : path → M LS (list (nat * path))) (verify_origin : path → nat * path → M LS ())
    (lookup_index : option path → nat * path → M LS (option path)) root de s :
  (∀ t, inorder (rebalance t) = inorder t) →
  (∀ i p, weird i p = false) → (∀ i p, remote i p = false) → ovl_verify_lower ofs = false → ofs_indexdir ofs = None →
  (∀ u s, ∃ st, check_origin u s = (Ok st, s)) →
  quiet s → no_redirect s → last_at (length (de_lowers root)) (de_lowers de) →
  Forall (λ r, iterate_ok iterate s r.2.1 r.2.2) (real_dirs de) →
  ∃ names, ovl_iterate iterate rebalance de s = (Ok names, s) ∧ NoDup names ∧
    ∀ c, c ≠ "." → c ≠ ".." → is_absolute c = false → String.length c ≤ namelen →
      ∃ f s', ovl_lookup ofs weird remote namelen fh check_origin verify_origin lookup_index root de c s = (Ok f, s') ∧
        (c ∈ names ↔ fo_positive f = true).
Proof.
  intros Hreb Hw Hr Hv Hi Ho Hq Hn Hl Hok.
  destruct (ovl_iterate_run iterate rebalance Hreb s de Hq Hok) as (names&Hrun&Hnd&Hc).
  exists names. split; [done|]. split; [done|]. intros c H1 H2 Ha Hlen.
  destruct (lookup_run ofs weird remote namelen fh check_origin verify_origin lookup_index Hw Hr Hv Hi Ho root de c s Hq Hn Ha Hlen Hl)
    as (f&s'&Hf&_&Hfinds&_).
  exists f, s'. split; [done|]. by rewrite (Hc c H1 H2), (finds_positive _ _ _ Hfinds), found_visible.
Qed.

(** ** What looking up leaves alone *)

(** A part of the layers that does not show the overlay's notes on a directory of the
    upper layer is as it was, whichever calls fail. *)
Section LookupFixes.
Context {B : Type} (f : LS → B).
Abbreviation lfix := (fixes f (λ _, True)).
Context (Hread : ∀ A (g : LS → A), lfix (vfs_read g))
        (Hset : ∀ p x v e, x = OVL_XATTR_ORIGIN ∨ x = OVL_XATTR_IMPURE → lfix (ovl_check_setxattr (0, p) x v e))
        (Himpure : ∀ s i, f (mkLS (ls_layers s) (ls_noxattr s) i (ls_faults s)) = f s).
Context (ofs : ovl_fs) (weird remote : nat → path → bool) (namelen : nat) (fh : nat * path → string)
        (check_origin : path → M LS (list (nat * path))) (verify_origin : path → nat * path → M LS ())
        (lookup_index : option path → nat * path → M LS (option path)).
Context (Horigin : ∀ u, lfix (check_origin u)) (Hverify : ovl_verify_lower ofs = false) (Hindex : ofs_indexdir ofs = None).
Lemma fixes_lookup_one i p c : lfix (lookup_one_len i p c).
Proof. apply Hread. Qed.
Lemma fixes_getxattr i p x : lfix (vfs_getxattr i p x).
Proof. apply Hread. Qed.
#[local] Hint Resolve Hread Horigin fixes_lookup_one fixes_getxattr : fixdb.
Lemma fixes_opaquedir i p n : lfix (ovl_is_opaquedir i p n).
Proof. unfold ovl_is_opaquedir, ovl_check_dir_xattr. fixing. Qed.
Lemma fixes_redirect i p d n post : lfix (ovl_check_redirect i p d n post).
Proof. unfold ovl_check_redirect. fixing. Qed.
#[local] Hint Resolve fixes_opaquedir fixes_redirect : fixdb.
Lemma fixes_single i base d name n post : lfix (ovl_lookup_single weird i base d name n post).
Proof. unfold ovl_lookup_single. fixing. Qed.
#[local] Hint Resolve fixes_single : fixdb.
Lemma fixes_layer_loop fuel i : ∀ base d rem, lfix (layer_loop weird fuel i base d rem).
Proof. induction fuel as [|fuel IH]; intros base d rem; cbn [layer_loop]; fixing. Qed.
#[local] Hint Resolve fixes_layer_loop : fixdb.
Lemma fixes_layer i base d : lfix (ovl_lookup_layer weird i base d).
Proof. unfold ovl_lookup_layer. fixing. Qed.
#[local] Hint Resolve fixes_layer : fixdb.
Lemma fixes_fix_origin lower u : lfix (ovl_fix_origin fh lower (0, u)).
Proof. unfold ovl_fix_origin. cbn [fst snd]. fixing; apply Hset; auto. Qed.
#[local] Hint Resolve fixes_fix_origin : fixdb.
Lemma fixes_lowers roe upper jump l : (∀ j, jump = Some j → ∀ i k, lfix (j i k)) →
  ∀ k, lfix (lookup_lowers ofs weird fh verify_origin roe upper jump l k).
Proof.
  intros Hj. induction l as [|[i base] l IH]; intros k; cbn [lookup_lowers]; rewrite ?Hverify, ?andb_false_r; fixing.
Qed.
Lemma fixes_lookup root parent name : lfix (ovl_lookup ofs weird remote namelen fh check_origin verify_origin lookup_index root parent name).
Proof.
  unfold ovl_lookup, lookup_upper. rewrite Hindex. fixing; apply fixes_lowers; intros j Hj i k; destruct (_ || _); try done; injection Hj as <-; by apply fixes_lowers.
Qed.
End LookupFixes.
