(* ===== verification/OvlUnion.v ===== *)
(** * The union of the layers

    What an overlay promises of its layers, stated without the directories it
    walks through: a path shows the entries of the layers that no layer above
    hides.  Walking with [ovl_lookup], one name after the other, finds exactly
    these. *)

From S2P Require Import Prelude FileSys OvlOpts OvlMount OvlCopyUp OvlLookup OvlReaddir OvlMountProps OvlReaddirProps OvlLookupProps.

(** ** The specification *)

(** Layer [j] hides what is at and below [q] in the layers under it: it has a
    whiteout, a file, or an opaque directory there. *)
Definition hides (s : LS) (j : nat) (q : path) : bool :=
  match node s j q with Some n => negb (is_dir_node n) || is_opaque_node n | None => false end.
Definition blocked (s : LS) (j : nat) (p : path) : bool := existsb (λ k, hides s j (take (S k) p)) (seq 0 (length p)).
Definition shows (s : LS) (i : nat) (p : path) : bool :=
  match node s i p with Some n => negb (ovl_is_whiteout n) | None => false end.
Definition seen (s : LS) (p : path) (i : nat) : bool := shows s i p && forallb (λ j, negb (blocked s j p)) (seq 0 i).

(** The layers whose entries make up the one of [p]: the first seen, and the
    directories seen below it. *)
Definition union (s : LS) (p : path) : list nat :=
  match filter (λ i, seen s p i = true) (seq 0 (length (ls_layers s))) with
  | [] => []
  | i :: rest => i :: filter (λ j, can_lookup s j p = true) rest
  end.

(** What is below a path is below a directory, in every layer; so is the layer. *)
Record layers_wf (s : LS) : Prop := {
  lw_parent : ∀ i p c, is_Some (node s i (p ++ [c])) → can_lookup s i p = true;
  lw_root : ∀ i, i < length (ls_layers s) → can_lookup s i [] = true;
}.

(** ** Sorted lists of layers *)

Lemma sorted_seq a n : StronglySorted lt (seq a n).
Proof. revert a. induction n as [|n IH]; intros a; cbn; constructor; [apply IH|]. apply Forall_forall. intros x Hx%elem_of_seq. lia. Qed.
Lemma sorted_filter (P : nat → Prop) `{∀ x, Decision (P x)} l : StronglySorted lt l → StronglySorted lt (filter P l).
Proof.
  induction 1 as [|x l Hs IH Hx]; [constructor|]. rewrite filter_cons. destruct (decide (P x)); [|done].
  constructor; [done|]. rewrite Forall_forall in *. intros y [_ Hy]%list_elem_of_filter. by apply Hx.
Qed.
Lemma sorted_same l1 l2 : StronglySorted lt l1 → StronglySorted lt l2 → (∀ x, x ∈ l1 ↔ x ∈ l2) → l1 = l2.
Proof.
  intros H1. revert l2. induction H1 as [|x l Hs IH Hx]; intros l2 H2 Heq.
  - destruct l2 as [|y l2]; [done|]. destruct (not_elem_of_nil y). apply Heq. left.
  - destruct H2 as [|y l2 Hs2 Hy]; [destruct (not_elem_of_nil x); apply Heq; left|].
    rewrite Forall_forall in Hx, Hy. assert (x = y) as <-.
    { assert (x ∈ y :: l2) as [|Hin]%elem_of_cons by (apply Heq; left); [done|].
      assert (y ∈ x :: l) as [|Hin']%elem_of_cons by (apply Heq; left); [done|].
      specialize (Hx _ Hin'). specialize (Hy _ Hin). lia. }
    f_equal. apply IH; [done|]. intros z. specialize (Heq z). rewrite !elem_of_cons in Heq.
    split; intros Hz; [destruct (proj1 Heq) as [->|]; auto; specialize (Hx _ Hz); lia|destruct (proj2 Heq) as [->|]; auto; specialize (Hy _ Hz); lia].
Qed.
Lemma existsb_same {A} (f g : A → bool) l : (∀ x, In x l → f x = g x) → existsb f l = existsb g l.
Proof. induction l as [|x l IH]; intros H; [done|]. cbn. rewrite (H x), IH; [done|intros; apply H|]; cbn; auto. Qed.

Section Spec.
Context (s : LS).

Lemma seen_true p i : seen s p i = true ↔ shows s i p = true ∧ ∀ j, j < i → blocked s j p = false.
Proof.
  unfold seen. rewrite andb_true_iff, forallb_forall. split; intros [? H]; (split; [done|]).
  - intros j Hj. apply negb_true_iff, H, in_seq. lia.
  - intros j Hj%in_seq. apply negb_true_iff, H. lia.
Qed.
Lemma blocked_snoc j p c : blocked s j (p ++ [c]) = blocked s j p || hides s j (p ++ [c]).
Proof.
  unfold blocked. rewrite length_app, seq_app, existsb_app. cbn [length seq existsb]. rewrite orb_false_r. f_equal.
  - apply existsb_same. intros k Hk%in_seq. rewrite take_app_le by lia. done.
  - rewrite take_ge; [done|]. rewrite length_app. cbn. lia.
Qed.
Lemma shows_in_range i p : shows s i p = true → i < length (ls_layers s).
Proof. unfold shows, node. destruct (ls_layers s !! i) eqn:Hl; [|done]. intros _. by eapply lookup_lt_Some. Qed.
Lemma dir_shows i p : can_lookup s i p = true → shows s i p = true.
Proof. unfold can_lookup, shows, ovl_is_whiteout. destruct (node s i p) as [n|]; [|done]. by destruct (ri_type n). Qed.
Lemma shows_node i p : shows s i p = true → is_Some (node s i p).
Proof. unfold shows. by destruct (node s i p). Qed.
Lemma hides_node i p : hides s i p = true → is_Some (node s i p).
Proof. unfold hides. by destruct (node s i p). Qed.

Lemma union_sorted p : StronglySorted lt (union s p).
Proof.
  unfold union. pose proof (sorted_filter (λ i, seen s p i = true) _ (sorted_seq 0 (length (ls_layers s)))) as Hf.
  destruct Hf as [|i rest Hs Hi]; constructor; [by apply sorted_filter|]. rewrite Forall_forall in *.
  intros y [_ Hy]%list_elem_of_filter. by apply Hi.
Qed.
Lemma union_elem p i :
  i ∈ union s p ↔ seen s p i = true ∧ (can_lookup s i p = true ∨ ∀ j, j < i → seen s p j = false).
Proof.
  assert (∀ j, j ∈ filter (λ i, seen s p i = true) (seq 0 (length (ls_layers s))) ↔ seen s p j = true) as Hin.
  { intros j. rewrite list_elem_of_filter, elem_of_seq. split; [by intros []|]. intros Hj. split; [done|].
    apply seen_true in Hj as [?%shows_in_range _]. lia. }
  unfold union. pose proof (sorted_filter (λ i, seen s p i = true) _ (sorted_seq 0 (length (ls_layers s)))) as Hf.
  destruct Hf as [|i0 rest Hs Hi0].
  { split; [by intros ?%not_elem_of_nil|]. by intros [?%Hin%not_elem_of_nil _]. }
  rewrite elem_of_cons, list_elem_of_filter. rewrite Forall_forall in Hi0. split.
  - intros [->|[Hd Hr]]; [|split; [apply Hin; by right|by left]]. split; [apply Hin; by left|]. right. intros j Hj.
    apply not_true_iff_false. intros [->|Hjr]%Hin%elem_of_cons; [lia|]. specialize (Hi0 _ Hjr). lia.
  - intros [Hseen Hd]. apply Hin in Hseen as Hel. apply elem_of_cons in Hel as [->|Hr]; [by left|]. right. split; [|done].
    destruct Hd as [|Hfirst]; [done|]. specialize (Hfirst i0 (Hi0 _ Hr)). rewrite (proj1 (Hin i0)) in Hfirst; [done|left].
Qed.

(** [collect_layers] among entries of the same path. *)
Fixpoint pick_layers (q : path) (l : list nat) (is_dir : bool) : list nat :=
  match l with
  | [] => []
  | i :: rest =>
      match node s i q with
      | None => pick_layers q rest is_dir
      | Some n =>
          if ovl_is_whiteout n then []
          else if negb (is_dir_node n) then (if is_dir then [] else [i])
          else i :: (if is_opaque_node n then [] else pick_layers q rest true)
      end
  end.
Lemma collect_pick p c l b : collect_layers s c ((λ i, (i, p)) <$> l) b = (λ i, (i, p ++ [c])) <$> pick_layers (p ++ [c]) l b.
Proof.
  revert b. induction l as [|i rest IH]; intros b; [done|]. cbn [fmap list_fmap collect_layers pick_layers].
  destruct (node s i (p ++ [c])) as [n|]; [|apply IH]. destruct (ovl_is_whiteout n); [done|].
  destruct (is_dir_node n); cbn [negb]; [|by destruct b]. destruct (is_opaque_node n); [done|]. cbn. f_equal. apply IH.
Qed.
Lemma pick_sub q l : ∀ b x, x ∈ pick_layers q l b → x ∈ l.
Proof.
  induction l as [|i rest IH]; intros b x; [done|]. cbn [pick_layers]. destruct (node s i q) as [n|]; [|intros ?; right; eauto].
  destruct (ovl_is_whiteout n); [by intros ?%not_elem_of_nil|]. destruct (is_dir_node n); cbn [negb].
  - intros [->|Hx]%elem_of_cons; [left|]. right. destruct (is_opaque_node n); [by apply not_elem_of_nil in Hx|eauto].
  - destruct b; [by intros ?%not_elem_of_nil|]. intros ->%list_elem_of_singleton. left.
Qed.
Lemma pick_sorted q l : StronglySorted lt l → ∀ b, StronglySorted lt (pick_layers q l b).
Proof.
  induction 1 as [|i rest Hs IH Hi]; intros b; [constructor|]. cbn [pick_layers]. destruct (node s i q) as [n|]; [|apply IH].
  destruct (ovl_is_whiteout n); [constructor|]. destruct (is_dir_node n); cbn [negb].
  - constructor; [destruct (is_opaque_node n); [constructor|apply IH]|]. rewrite Forall_forall in *. intros x Hx.
    destruct (is_opaque_node n); [by apply not_elem_of_nil in Hx|]. eapply Hi, pick_sub, Hx.
  - destruct b; repeat constructor.
Qed.
Lemma pick_elem q l : StronglySorted lt l → ∀ b i,
  i ∈ pick_layers q l b ↔ i ∈ l ∧ shows s i q = true ∧ (∀ j, j ∈ l → j < i → hides s j q = false) ∧
    (can_lookup s i q = true ∨ b = false ∧ ∀ j, j ∈ l → j < i → shows s j q = false).
Proof.
  induction 1 as [|i0 rest Hs IH Hi0]; intros b i; cbn [pick_layers].
  { split; [by intros ?%not_elem_of_nil|]. by intros [?%not_elem_of_nil _]. }
  rewrite Forall_forall in Hi0.
  assert (i ∈ i0 :: rest ↔ i = i0 ∨ i ∈ rest ∧ i0 < i) as Hin.
  { rewrite elem_of_cons. split; [intros [->|Hr]; [by left|right; split; [done|by apply Hi0]]|intros [->|[? _]]; [by left|by right]]. }
  assert (∀ P : nat → Prop, (∀ j, j ∈ i0 :: rest → j < i → P j) ↔ (i0 < i → P i0) ∧ (∀ j, j ∈ rest → j < i → P j)) as Hall.
  { intros P. split; [intros H; split; [intros; apply H; [left|done]|intros; apply H; [by right|done]]|]. intros [H0 H1] j [->|Hj]%elem_of_cons ?; auto. }
  rewrite Hin, !Hall. clear Hall.
  destruct (node s i0 q) as [n|] eqn:Hn.
  - assert (hides s i0 q = negb (is_dir_node n) || is_opaque_node n) as Hh by (unfold hides; by rewrite Hn).
    assert (shows s i0 q = negb (ovl_is_whiteout n)) as Hsh by (unfold shows; by rewrite Hn).
    assert (can_lookup s i0 q = is_dir_node n) as Hc by (unfold can_lookup; by rewrite Hn).
    assert (ovl_is_whiteout n = true → is_dir_node n = false) as Hwd by (unfold ovl_is_whiteout, is_dir_node; by destruct (ri_type n)).
    assert (∀ j, j ∈ rest → j < i0 → False) as Hbelow by (intros j ?%Hi0 ?; lia).
    destruct (ovl_is_whiteout n) eqn:Hw; cbn [negb] in Hsh.
    { split; [by intros ?%not_elem_of_nil|]. intros ([->|[_ Hlt]]&Hs'&[Hh' _]&_); [congruence|].
      specialize (Hh' Hlt). rewrite Hh, Hwd in Hh'; done. }
    destruct (is_dir_node n) eqn:Hdir; cbn [negb].
    + rewrite elem_of_cons. split.
      * intros [->|Hi].
        { split_and!; [by left|done|lia|by intros j ? ?%Hbelow|by left]. }
        destruct (is_opaque_node n) eqn:Hop; [by apply not_elem_of_nil in Hi|]. apply IH in Hi as (Hr&Hs'&Hh'&Hd).
        split_and!; [right; split; [done|by apply Hi0]|done|done|done|]. left. by destruct Hd as [|[]].
      * intros ([->|[Hr Hlt]]&Hs'&[Hh' Hhr]&Hd); [by left|]. right. specialize (Hh' Hlt). rewrite Hh in Hh'. cbn in Hh'. rewrite Hh'.
        apply IH. split_and!; [done..|]. left. destruct Hd as [|[_ [H0 _]]]; [done|]. specialize (H0 Hlt). congruence.
    + split.
      * destruct b; [by intros ?%not_elem_of_nil|]. intros ->%list_elem_of_singleton.
        split_and!; [by left|done|lia|by intros j ? ?%Hbelow|]. right. split_and!; [done|lia|by intros j ? ?%Hbelow].
      * intros ([->|[_ Hlt]]&_&[Hh' _]&Hd); [|specialize (Hh' Hlt); by rewrite Hh in Hh'].
        destruct Hd as [|[-> _]]; [congruence|]. by apply list_elem_of_singleton.
  - assert (hides s i0 q = false) as Hh by (unfold hides; by rewrite Hn).
    assert (shows s i0 q = false) as Hsh by (unfold shows; by rewrite Hn).
    rewrite IH, Hh, Hsh. split; [|].
    + intros (?&?&?&Hd). split_and!; [right; split; [done|by apply Hi0]|done|done|done|]. destruct Hd as [|[]]; [by left|by right].
    + intros ([->|[? _]]&?&[_ ?]&Hd); [congruence|]. split_and!; [done..|]. destruct Hd as [|(?&_&?)]; [by left|by right].
Qed.

(** ** The union of a name is found in the union of its directory *)

Context (Hwf : layers_wf s).
Lemma seen_parent p c i : seen s (p ++ [c]) i = true → seen s p i = true ∧ can_lookup s i p = true.
Proof.
  intros [Hs Hb]%seen_true. assert (can_lookup s i p = true) as Hd by (by eapply (lw_parent _ Hwf), shows_node).
  split; [|done]. apply seen_true. split; [by apply dir_shows|]. intros j Hj. specialize (Hb j Hj).
  rewrite blocked_snoc in Hb. by apply orb_false_iff in Hb as [? _].
Qed.
(** A layer above one that is seen is seen too where it has something. *)
Lemma seen_above p i j : seen s p i = true → j < i → shows s j p = true → seen s p j = true.
Proof. intros [_ Hb]%seen_true Hj Hs. apply seen_true. split; [done|]. intros k Hk. apply Hb. lia. Qed.
Lemma union_parent p c i : i ∈ union s (p ++ [c]) → i ∈ union s p.
Proof. intros [[Hs Hd]%seen_parent _]%union_elem. apply union_elem. auto. Qed.
Lemma union_prefix p q : union s p = [] → union s (p ++ q) = [].
Proof.
  intros Hp. induction q as [|c q IH] using rev_ind; [by rewrite app_nil_r|]. rewrite app_assoc.
  destruct (union s ((p ++ q) ++ [c])) as [|i l] eqn:Hu; [done|]. assert (i ∈ union s (p ++ q)) as Hi.
  { apply (union_parent _ c). rewrite Hu. left. }
  rewrite IH in Hi. by apply not_elem_of_nil in Hi.
Qed.

Lemma union_snoc p c : union s (p ++ [c]) = pick_layers (p ++ [c]) (union s p) false.
Proof.
  apply sorted_same; [apply union_sorted|apply pick_sorted, union_sorted|]. intros i.
  rewrite pick_elem by apply union_sorted. split.
  - intros Hi. pose proof (union_parent _ _ _ Hi) as Hp. apply union_elem in Hi as [Hseen Hd].
    pose proof Hseen as [Hs Hb]%seen_true. split_and!; [done|done| |].
    + intros j _ Hj. specialize (Hb j Hj). rewrite blocked_snoc in Hb. by apply orb_false_iff in Hb as [_ ?].
    + destruct Hd as [|Hfirst]; [by left|]. right. split; [done|]. intros j _ Hj. apply not_true_iff_false. intros Hsj.
      specialize (Hfirst j Hj). by rewrite (seen_above _ i) in Hfirst.
  - intros ([Hseen _]%union_elem&Hs&Hh&Hd).
    assert (∀ j, j < i → is_Some (node s j (p ++ [c])) → j ∈ union s p) as Hin.
    { intros j Hj Hc%(lw_parent _ Hwf). apply union_elem. split; [|by left]. eapply seen_above; [done..|by apply dir_shows]. }
    apply union_elem. split.
    + apply seen_true. split; [done|]. intros j Hj. rewrite blocked_snoc. apply orb_false_iff. split.
      * apply seen_true in Hseen as [_ Hb]. by apply Hb.
      * apply not_true_iff_false. intros Hhj. specialize (Hh j). rewrite Hhj in Hh. discriminate Hh; [|done]. by apply Hin, hides_node.
    + destruct Hd as [|[_ Hfirst]]; [by left|]. right. intros j Hj. apply not_true_iff_false. intros [Hsj _]%seen_true.
      specialize (Hfirst j). rewrite Hsj in Hfirst. discriminate Hfirst; [|done]. by apply Hin, shows_node.
Qed.
Lemma collect_union p c : collect_layers s c ((λ i, (i, p)) <$> union s p) false = (λ i, (i, p ++ [c])) <$> union s (p ++ [c]).
Proof. by rewrite collect_pick, union_snoc. Qed.
End Spec.

(** Private attributes do not matter. *)
Lemma union_similar s s' p : similar s s' → union s' p = union s p.
Proof.
  intros Hs. assert (∀ i q, hides s' i q = hides s i q) as Hh.
  { intros i q. unfold hides. destruct (sm_node _ _ Hs i q) as [n m Hnm|]; [|done]. by rewrite (similar_dir _ _ Hnm), (similar_opaque _ _ Hnm). }
  assert (∀ i, shows s' i p = shows s i p) as Hsh.
  { intros i. unfold shows. destruct (sm_node _ _ Hs i p) as [n m Hnm|]; [|done]. by rewrite (similar_whiteout _ _ Hnm). }
  assert (∀ i, can_lookup s' i p = can_lookup s i p) as Hc.
  { intros i. unfold can_lookup. destruct (sm_node _ _ Hs i p) as [n m [Ht _]|]; [|done]. by rewrite Ht. }
  assert (∀ i, seen s' p i = seen s p i) as Hse.
  { intros i. apply eq_true_iff_eq. rewrite !seen_true, Hsh. unfold blocked.
    split; intros [? Hb]; (split; [done|]); intros j Hj; rewrite <-(Hb j Hj); apply existsb_same; intros; by rewrite Hh. }
  apply sorted_same; [apply union_sorted..|]. intros i. rewrite !union_elem, Hse, Hc.
  split; (intros [? Hd]; split; [done|]; destruct Hd as [|Hd]; [by left|right; intros j Hj; specialize (Hd j Hj); congruence]).
Qed.
Lemma can_lookup_similar s s' i p : similar s s' → can_lookup s' i p = can_lookup s i p.
Proof. intros Hs. unfold can_lookup. destruct (sm_node _ _ Hs i p) as [n m [Ht _]|]; [|done]. by rewrite Ht. Qed.
Lemma layers_wf_similar s s' : similar s s' → layers_wf s → layers_wf s'.
Proof.
  intros Hs [Hp Hr]. split.
  - intros i p c Hi. rewrite (can_lookup_similar s) by done. apply (Hp i p c).
    destruct (sm_node _ _ Hs i (p ++ [c])); [done|by destruct Hi].
  - intros i Hi. rewrite (can_lookup_similar s) by done. apply Hr. by rewrite <-(sm_length _ _ Hs).
Qed.

(** ** Walking *)

(** The dentry of an entry of the union. *)
Definition at_path (p : path) (l : list nat) : list (nat * path) := (λ i, (i, p)) <$> l.
Definition stands (s : LS) (de : ovl_dentry) (p : path) : Prop :=
  match de_upper de with
  | Some u => u = p ∧ ∃ rest, union s p = 0 :: rest ∧ (can_lookup s 0 p = true → de_lowers de = at_path p rest)
  | None => union s p ≠ [] ∧ de_lowers de = at_path p (union s p)
  end.
Definition root_dentry (s : LS) : ovl_dentry := mkDentry (Some []) (at_path [] (seq 1 (length (ls_layers s) - 1))).

Lemma stands_similar s s' de p : similar s s' → stands s de p → stands s' de p.
Proof.
  intros Hs. unfold stands. rewrite (union_similar s s') by done. destruct (de_upper de); [|done].
  by rewrite (can_lookup_similar s s').
Qed.
Lemma stands_union s de p : stands s de p → union s p ≠ [].
Proof. unfold stands. destruct (de_upper de); [intros [_ (rest&->&_)]; done|by intros []]. Qed.
Lemma root_stands s : layers_wf s → 0 < length (ls_layers s) → stands s (root_dentry s) [].
Proof.
  intros Hwf Hn. assert (union s [] = seq 0 (length (ls_layers s))) as Hu.
  { apply sorted_same; [apply union_sorted|apply sorted_seq|]. intros i. rewrite union_elem, elem_of_seq, seen_true. split.
    - intros [[?%shows_in_range _] _]. lia.
    - intros [_ Hi]. pose proof (lw_root _ Hwf i Hi) as Hd. split; [|by left]. split; [by apply dir_shows|done]. }
  unfold stands, root_dentry. cbn [de_upper de_lowers]. split; [done|]. rewrite Hu. destruct (length (ls_layers s)) as [|n]; [lia|].
  exists (seq 1 n). split; [done|]. cbn. by rewrite Nat.sub_0_r.
Qed.

Lemma sorted_last_at roe p l : StronglySorted lt l → (∀ i, i ∈ l → i ≤ roe) → last_at roe (at_path p l).
Proof.
  induction 1 as [|i l Hs IH Hi]; intros Hle; [done|]. rewrite Forall_forall in Hi. cbn. split.
  - intros ->. destruct l as [|j l]; [done|]. specialize (Hi j). specialize (Hle j). exfalso.
    assert (roe < j) by (apply Hi; left). assert (j ≤ roe) by (apply Hle; right; left). lia.
  - apply IH. intros j Hj. apply Hle. by right.
Qed.

(** The first layer of the union is the dentry's own. *)
Definition de_is_dir (s : LS) (de : ovl_dentry) : bool :=
  match dirs_of de with (i, p) :: _ => can_lookup s i p | [] => false end.
Lemma stands_dirs s de p : stands s de p → de_is_dir s de = true → dirs_of de = at_path p (union s p).
Proof.
  unfold stands, dirs_of, de_is_dir, dirs_of. destruct (de_upper de) as [u|]; cbn.
  - intros [-> (rest&->&Hd)] Hc. by rewrite (Hd Hc).
  - by intros [_ ->].
Qed.
Lemma stands_file s de p c : layers_wf s → stands s de p → de_is_dir s de = false → union s (p ++ [c]) = [].
Proof.
  intros Hwf Hst Hnd.
  assert (∃ i rest, union s p = i :: rest ∧ can_lookup s i p = false) as (i&rest&Hu&Hi).
  { unfold stands, de_is_dir, dirs_of in *. destruct (de_upper de) as [u|]; cbn in *.
    - destruct Hst as [-> (rest&->&_)]. by exists 0, rest.
    - destruct Hst as [Hne Hl]. rewrite Hl in Hnd. destruct (union s p) as [|i rest]; [done|]. by exists i, rest. }
  destruct (union s (p ++ [c])) as [|k l] eqn:Hk; [done|]. exfalso.
  assert (k ∈ union s (p ++ [c])) as Hin by (rewrite Hk; left).
  pose proof Hin as [[Hks Hkd]%(seen_parent _ Hwf) _]%union_elem. apply (union_parent _ Hwf) in Hin.
  pose proof (union_sorted s p) as Hsort. rewrite Hu in Hsort, Hin. apply elem_of_cons in Hin as [->|Hr]; [congruence|].
  inversion Hsort as [|?? _ Hlt]; subst. rewrite Forall_forall in Hlt. specialize (Hlt _ Hr).
  apply seen_true in Hks as [_ Hb]. specialize (Hb i Hlt).
  assert (seen s p i = true) as [Hs _]%seen_true by (apply union_elem; rewrite Hu; left).
  destruct p as [|c' p' _] using rev_ind; [pose proof (lw_root _ Hwf i (shows_in_range _ _ _ Hs)); congruence|].
  rewrite blocked_snoc in Hb. apply orb_false_iff in Hb as [_ Hh]. unfold hides, can_lookup in *. apply shows_node in Hs as [n Hn].
  rewrite Hn in *. unfold is_dir_node in Hh. by rewrite Hi in Hh.
Qed.

Section Walk.
Context (ofs : ovl_fs) (weird remote : nat → path → bool) (namelen : nat) (fh : nat * path → string)
        (check_origin : path → M LS (list (nat * path))) (verify_origin : path → nat * path → M LS ())
        (lookup_index : option path → nat * path → M LS (option path)).

(** The walk of the VFS along a path: each name is looked up in the dentry of the
    one before, if that is a directory. *)
Fixpoint walk (root de : ovl_dentry) (p : path) : M LS (option ovl_dentry) :=
  match p with
  | [] => mret (Some de)
  | c :: rest =>
      s ← get;
      if negb (de_is_dir s de) then mret None
      else
        f ← ovl_lookup ofs weird remote namelen fh check_origin verify_origin lookup_index root de c;
        if fo_positive f then walk root (mkDentry (fo_upper f) (fo_lowers f)) rest else mret None
  end.

Context (Hweird : ∀ i p, weird i p = false) (Hremote : ∀ i p, remote i p = false)
        (Hverify : ovl_verify_lower ofs = false) (Hindex : ofs_indexdir ofs = None)
        (Horigin : ∀ u s, ∃ st, check_origin u s = (Ok st, s)).
Definition plain_name (c : string) : Prop := is_absolute c = false ∧ String.length c ≤ namelen.

Lemma lookup_step root s de p c :
  quiet s → no_redirect s → layers_wf s → S (length (de_lowers root)) = length (ls_layers s) →
  plain_name c → stands s de p → de_is_dir s de = true →
  ∃ f s', ovl_lookup ofs weird remote namelen fh check_origin verify_origin lookup_index root de c s = (Ok f, s') ∧
    similar s s' ∧
    (if fo_positive f then stands s (mkDentry (fo_upper f) (fo_lowers f)) (p ++ [c]) else union s (p ++ [c]) = []) ∧
    (fo_upper f = None → ∀ base n, de_upper de = Some base → node s 0 (base ++ [c]) = Some n → fo_opaque f = true ∧ fo_lowers f = []).
Proof.
  intros Hq Hn Hwf Hroot [Ha Hlen] Hst Hd. pose proof (stands_dirs _ _ _ Hst Hd) as Hdirs.
  assert (last_at (length (de_lowers root)) (de_lowers de)) as Hlast.
  { assert (∀ l : list nat, (∀ x, x ∈ l → x ∈ union s p) → ∀ i, i ∈ l → i ≤ length (de_lowers root)) as Hle.
    { intros l Hl i Hi%Hl. apply union_elem in Hi as [[?%shows_in_range _]%seen_true _]. lia. }
    pose proof (union_sorted s p) as Hsort. unfold stands in Hst. unfold de_is_dir, dirs_of in Hd. destruct (de_upper de) as [u|].
    - destruct Hst as [-> (rest&Hu&Hl)]. cbn in Hd. rewrite (Hl Hd). rewrite Hu in *. apply sorted_last_at; [by inversion Hsort|].
      apply Hle. intros. by right.
    - destruct Hst as [_ ->]. apply sorted_last_at; [done|]. by apply Hle. }
  destruct (lookup_run ofs weird remote namelen fh check_origin verify_origin lookup_index Hweird Hremote Hverify Hindex Horigin
              root de c s Hq Hn Ha Hlen Hlast) as (f&s'&Hf&Hs&Hfinds&Hwhite).
  exists f, s'. split; [done|]. split; [done|]. split; [|exact Hwhite]. pose proof (finds_positive _ _ _ Hfinds) as Hpos. rewrite Hpos. clear Hpos.
  unfold found_in in *. rewrite Hdirs in *. unfold at_path in Hfinds |- *. rewrite (collect_union _ Hwf) in *.
  unfold stands, finds in *. cbn [de_upper de_lowers]. destruct (union s (p ++ [c])) as [|i l] eqn:Hu; cbn [fmap list_fmap negb] in *.
  { by rewrite bool_decide_eq_true_2. }
  rewrite bool_decide_eq_false_2 by done. cbn [negb]. destruct (fo_upper f) as [u|]; [|done].
  destruct Hfinds as (rest&Heq&Hl). injection Heq as -> <- <-. split; [done|]. by exists l.
Qed.

Lemma walk_from root q : ∀ de p s,
  quiet s → no_redirect s → layers_wf s → S (length (de_lowers root)) = length (ls_layers s) →
  Forall plain_name q → stands s de p →
  ∃ r s', walk root de q s = (Ok r, s') ∧ similar s s' ∧
    match r with Some de' => stands s de' (p ++ q) | None => union s (p ++ q) = [] end.
Proof.
  induction q as [|c q IH]; intros de p s Hq Hn Hwf Hroot Hnames Hst; cbn [walk].
  { eexists _, s. split; [done|]. split; [apply similar_refl|]. by rewrite app_nil_r. }
  apply Forall_cons in Hnames as [Hc Hnames]. rewrite (bind_ok _ _ _ s s) by done.
  replace (p ++ c :: q) with ((p ++ [c]) ++ q) by (by rewrite <-app_assoc).
  destruct (de_is_dir s de) eqn:Hd; cbn [negb].
  2:{ eexists _, s. split; [done|]. split; [apply similar_refl|]. apply union_prefix; [done|]. by eapply stands_file. }
  destruct (lookup_step root s de p c) as (f&s1&Hf&Hs&Hres&_); try done. rewrite (bind_ok _ _ _ _ _ Hf).
  destruct (fo_positive f).
  2:{ eexists _, s1. split; [done|]. split; [done|]. by apply union_prefix. }
  destruct (IH (mkDentry (fo_upper f) (fo_lowers f)) (p ++ [c]) s1) as (r&s'&Hr&Hs'&Hres').
  - by eapply similar_quiet.
  - by eapply similar_no_redirect.
  - by eapply layers_wf_similar.
  - by rewrite (sm_length _ _ Hs).
  - done.
  - by eapply stands_similar.
  - exists r, s'. split; [done|]. split; [by eapply similar_trans|]. destruct r as [de'|]; [|by rewrite <-(union_similar s s1)].
    unfold stands in *. rewrite (union_similar s s1), (can_lookup_similar s s1) in Hres' by done. done.
Qed.
End Walk.

(** C6. The overlay is the union of its layers: while no call fails and nothing is
    redirected, walking a path from the root with [ovl_lookup], name by name, finds
    an entry if and only if some layer shows the path and no layer above hides it
    or a directory on the way, and then its dentry stands for exactly the layers of
    the union, in their order. *)
Theorem walk_is_union (ofs : ovl_fs) (weird remote : nat → path → bool) (namelen : nat) (fh : nat * path → string)
    (check_origin : path → M LS (list (nat * path))) (verify_origin : path → nat * path → M LS ())
    (lookup_index : option path → nat * path → M LS (option path)) s p :
  (∀ i p, weird i p = false) → (∀ i p, remote i p = false) → ovl_verify_lower ofs = false → ofs_indexdir ofs = None →
  (∀ u s, ∃ st, check_origin u s = (Ok st, s)) →
  quiet s → no_redirect s → layers_wf s → 0 < length (ls_layers s) → Forall (plain_name namelen) p →
  ∃ r s', walk ofs weird remote namelen fh check_origin verify_origin lookup_index (root_dentry s) (root_dentry s) p s = (Ok r, s') ∧
    match r with Some de => stands s de p | None => union s p = [] end.
Proof.
  intros Hw Hr Hv Hi Ho Hq Hn Hwf Hlen Hp.
  destruct (walk_from ofs weird remote namelen fh check_origin verify_origin lookup_index Hw Hr Hv Hi Ho (root_dentry s) p (root_dentry s) [] s)
    as (r&s'&Hrun&_&Hres); try done; [|by apply root_stands|by exists r, s'].
  unfold root_dentry, at_path. cbn [de_lowers]. rewrite length_fmap, length_seq. lia.
Qed.
