(* ===== verification/OvlView.v ===== *)
(** * What an overlay shows

    The entry of every path of an overlay, as one tree over what the lower layers
    show, and how it changes when a subtree of the upper layer is replaced by
    another one.

    Copying up does not change what an overlay shows: Copies of lower entries in the upper layer stand for what they are copies of:
    the union of every path stays the same but for the copies on top. *)

From S2P Require Import Prelude FileSys OvlOpts OvlMount OvlCopyUp OvlLookup OvlReaddir OvlDir OvlMountProps OvlReaddirProps OvlLookupProps OvlUnion OvlProps.

(** ** The view of the layers *)

Definition view (s : LS) (p : path) : option rinode := match union s p with i :: _ => node s i p | [] => None end.
Definition lower_of (s : LS) : LS := mkLS (tail (ls_layers s)) (ls_noxattr s) (ls_impure s) (ls_faults s).

(** One tree over others: its entries, and what they do not cover. *)
Definition hide_node (n : rinode) : bool := negb (is_dir_node n) || is_opaque_node n.
Definition hide_at (u : gmap path rinode) (q : path) : bool := match u !! q with Some n => hide_node n | None => false end.
Definition covered (u : gmap path rinode) (p : path) : bool := existsb (λ k, hide_at u (take (S k) p)) (seq 0 (length p)).
Definition nonwhite (o : option rinode) : option rinode := match o with Some n => if ovl_is_whiteout n then None else Some n | None => None end.
Definition over (u : gmap path rinode) (L : path → option rinode) (p : path) : option rinode :=
  match u !! p with Some n => nonwhite (Some n) | None => if covered u p then None else L p end.

Lemma covered_true u p : covered u p = true ↔ ∃ q, q ≠ [] ∧ q `prefix_of` p ∧ hide_at u q = true.
Proof.
  unfold covered. rewrite existsb_exists. split.
  - intros (k&[_ Hk]%in_seq&Hh). exists (take (S k) p). split_and!; [destruct p; cbn in Hk; [lia|done]|apply prefix_take|done].
  - intros (q&Hne&[r ->]&Hh). exists (length q - 1). destruct q as [|c q]; [done|]. cbn [length]. split.
    + apply in_seq. rewrite length_app. cbn. lia.
    + replace (S (S (length q) - 1)) with (length (c :: q)) by (cbn; lia). by rewrite take_app_length.
Qed.
Lemma covered_prefix u p r : covered u p = true → covered u (p ++ r) = true.
Proof. rewrite !covered_true. intros (q&?&Hp&?). exists q. split_and!; [done|by apply prefix_app_r|done]. Qed.

(** The first layer over the others. *)
Lemma node_tail s i p : node (lower_of s) i p = node s (S i) p.
Proof. unfold node, lower_of. cbn. by destruct (ls_layers s). Qed.
Lemma blocked_covered s u rest p : ls_layers s = u :: rest → blocked s 0 p = covered u p.
Proof. intros Hl. unfold blocked, covered, hides, hide_at, node. rewrite Hl. done. Qed.
Lemma blocked_tail s j p : blocked (lower_of s) j p = blocked s (S j) p.
Proof. unfold blocked, hides. apply existsb_same. intros k _. by rewrite node_tail. Qed.
Lemma seen_tail s i p : seen s p (S i) = negb (blocked s 0 p) && seen (lower_of s) p i.
Proof.
  apply eq_true_iff_eq. rewrite andb_true_iff, negb_true_iff, !seen_true. unfold shows. rewrite node_tail. split.
  - intros [Hs Hb]. split_and!; [apply Hb; lia|done|]. intros j Hj. rewrite blocked_tail. apply Hb. lia.
  - intros (H0&Hs&Hb). split; [done|]. intros [|j] Hj; [done|]. rewrite <-blocked_tail. apply Hb. lia.
Qed.

Lemma least_seen s p i : seen s p i = true → ∃ k, seen s p k = true ∧ k ≤ i ∧ ∀ j, j < k → seen s p j = false.
Proof.
  induction i as [i IH] using lt_wf_ind. intros Hi.
  destruct (decide (Forall (λ k, seen s p k = false) (seq 0 i))) as [Hall|Hex].
  - exists i. split_and!; [done..|]. intros k Hk. rewrite Forall_forall in Hall. apply Hall, elem_of_seq. lia.
  - apply not_Forall_Exists, Exists_exists in Hex as (k&Hk%elem_of_seq&Hs); [|intros ?; apply _].
    destruct (IH k) as (l&?&?&?); [lia|by apply not_false_is_true|]. exists l. split_and!; [done|lia|done].
Qed.
(** The view is the first entry that is seen. *)
Lemma view_first s p n : view s p = Some n ↔ ∃ i, node s i p = Some n ∧ seen s p i = true ∧ ∀ j, j < i → seen s p j = false.
Proof.
  unfold view. split.
  - destruct (union s p) as [|i l] eqn:Hu; [done|]. intros Hn. exists i. split; [done|].
    assert (i ∈ union s p) as Hin by (rewrite Hu; left). apply union_elem in Hin as [Hs Hd]. split; [done|].
    intros j Hj. apply not_true_iff_false. intros Hsj.
    destruct (least_seen _ _ _ Hsj) as (k&Hk&Hki&Hkf).
    assert (k ∈ union s p) as Hin by (apply union_elem; auto). rewrite Hu in Hin.
    pose proof (union_sorted s p) as Hsort. rewrite Hu in Hsort. inversion Hsort as [|?? _ Hlt]; subst. rewrite Forall_forall in Hlt.
    apply elem_of_cons in Hin as [->|Hin]; [lia|]. specialize (Hlt _ Hin). lia.
  - intros (i&Hn&Hs&Hf). assert (i ∈ union s p) as Hin by (apply union_elem; auto).
    destruct (union s p) as [|k l] eqn:Hu; [by apply not_elem_of_nil in Hin|]. apply elem_of_cons in Hin as [->|Hin]; [done|].
    pose proof (union_sorted s p) as Hsort. rewrite Hu in Hsort. inversion Hsort as [|?? _ Hlt]; subst. rewrite Forall_forall in Hlt.
    specialize (Hlt _ Hin). assert (k ∈ union s p) as [Hks _]%union_elem by (rewrite Hu; left). rewrite Hf in Hks; done.
Qed.
Lemma view_whiteout s p n : view s p = Some n → ovl_is_whiteout n = false.
Proof.
  intros (i&Hn&[Hs _]%seen_true&_)%view_first. unfold shows in Hs. rewrite Hn in Hs. by apply negb_true_iff.
Qed.

Lemma view_over s u rest p : layers_wf s → ls_layers s = u :: rest → view s p = over u (view (lower_of s)) p.
Proof.
  intros Hwf Hl. assert (node s 0 p = u !! p) as H0 by (unfold node; by rewrite Hl).
  assert (∀ n, u !! p = Some n → ovl_is_whiteout n = true → covered u p = true) as Hwc.
  { intros n Hn Hw. apply covered_true. exists p. split_and!; [|done|].
    - intros ->. pose proof (lw_root _ Hwf 0) as Hr. rewrite Hl in Hr. specialize (Hr ltac:(cbn; lia)).
      unfold can_lookup in Hr. rewrite H0, Hn in Hr. unfold ovl_is_whiteout in Hw. by destruct (ri_type n).
    - unfold hide_at, hide_node, is_dir_node. rewrite Hn. unfold ovl_is_whiteout in Hw. by destruct (ri_type n). }
  apply option_eq. intros n. rewrite view_first. unfold over. split.
  - intros (i&Hn&Hs&Hf). destruct i as [|i].
    + rewrite H0 in Hn. rewrite Hn. cbn. apply seen_true in Hs as [Hs _]. unfold shows in Hs. rewrite H0, Hn in Hs.
      apply negb_true_iff in Hs. by rewrite Hs.
    + rewrite seen_tail in Hs. apply andb_true_iff in Hs as [Hb%negb_true_iff Hs]. rewrite (blocked_covered _ _ _ _ Hl) in Hb.
      destruct (u !! p) as [m|] eqn:Hm.
      * cbn. destruct (ovl_is_whiteout m) eqn:Hw; [rewrite (Hwc m) in Hb; done|].
        assert (seen s p 0 = true) as H; [|rewrite Hf in H; [done|lia]]. apply seen_true. split; [|lia]. unfold shows. by rewrite H0, Hw.
      * rewrite Hb. apply view_first. exists i. rewrite node_tail. split_and!; [done..|]. intros j Hj.
        specialize (Hf (S j) ltac:(lia)). rewrite seen_tail, (blocked_covered _ _ _ _ Hl), Hb in Hf. done.
  - destruct (u !! p) as [m|] eqn:Hm.
    + cbn. destruct (ovl_is_whiteout m) eqn:Hw; [done|]. intros [= ->]. exists 0. split_and!; [done| |lia].
      apply seen_true. split; [|lia]. unfold shows. by rewrite H0, Hw.
    + destruct (covered u p) eqn:Hc; [done|]. intros (i&Hn&Hs&Hf)%view_first. exists (S i). rewrite node_tail in Hn. split_and!; [done| |].
      * by rewrite seen_tail, (blocked_covered _ _ _ _ Hl), Hc.
      * intros [|j] Hj; [|rewrite seen_tail, Hf by lia; by rewrite andb_false_r].
        unfold seen, shows. by rewrite H0.
Qed.

(** What is below an entry is below a directory. *)
Definition closed (v : path → option rinode) : Prop := ∀ p c, is_Some (v (p ++ [c])) → ∃ n, v p = Some n ∧ is_dir_node n = true.
Lemma view_closed s : layers_wf s → closed (view s).
Proof.
  intros Hwf p c [n (i&Hn&Hs&_)%view_first]. pose proof (seen_parent _ Hwf _ _ _ Hs) as [Hsp Hd].
  assert (union s (p ++ [c]) ≠ []) as Hne.
  { destruct (least_seen _ _ _ Hs) as (k&Hk&_&Hf). intros Hu.
    assert (k ∈ union s (p ++ [c])) as Hin by (apply union_elem; auto). rewrite Hu in Hin. by apply not_elem_of_nil in Hin. }
  assert (stands s (mkDentry None (at_path p (union s p))) p) as Hst.
  { unfold stands. cbn. split; [|done]. intros Hu. by rewrite union_prefix in Hne. }
  destruct (de_is_dir s (mkDentry None (at_path p (union s p)))) eqn:Hdir.
  - unfold de_is_dir, dirs_of, at_path in Hdir. cbn in Hdir. unfold view. destruct (union s p) as [|k l]; cbn in Hdir; [done|].
    unfold can_lookup in Hdir. destruct (node s k p) as [m|]; [|done]. by exists m.
  - by rewrite (stands_file s _ p c Hwf Hst Hdir) in Hne.
Qed.
Lemma closed_none v p r : closed v → v p = None → v (p ++ r) = None.
Proof.
  intros Hc Hp. induction r as [|c r IH] using rev_ind; [by rewrite app_nil_r|]. rewrite app_assoc.
  destruct (v ((p ++ r) ++ [c])) as [n|] eqn:Hn; [|done]. destruct (Hc (p ++ r) c) as (m&Hm&_); [by exists n|]. congruence.
Qed.
Lemma closed_file v p n r : closed v → v p = Some n → is_dir_node n = false → r ≠ [] → v (p ++ r) = None.
Proof.
  intros Hc Hp Hd Hr. destruct r as [|c r]; [done|]. replace (p ++ c :: r) with ((p ++ [c]) ++ r) by (by rewrite <-app_assoc).
  apply closed_none; [done|]. destruct (v (p ++ [c])) as [m|] eqn:Hm; [|done]. destruct (Hc p c) as (k&Hk&Hkd); [by exists m|]. congruence.
Qed.

(** ** Replacing a subtree *)

Lemma below_app p r : Os.below p (p ++ r) = true.
Proof. apply below_spec. by exists r. Qed.
Lemma below_cases p r : (∃ t, r = p ++ t ∧ Os.below p r = true) ∨ (¬ p `prefix_of` r ∧ Os.below p r = false).
Proof.
  destruct (Os.below p r) eqn:Hb; [left|right; split; [by apply not_below_spec|done]].
  apply below_spec in Hb as [t ->]. by exists t.
Qed.
Lemma lookup_prune {V} (p : path) (u : gmap path V) r : prune p u !! r = if Os.below p r then None else u !! r.
Proof.
  apply option_eq. intros n. unfold prune. rewrite map_lookup_filter_Some. cbn.
  destruct (Os.below p r); (split; [by intros []|by intros ?]).
Qed.
Lemma lookup_graft {V} (p : path) (A u : gmap path V) r :
  graft p A u !! r = if Os.below p r then A !! drop (length p) r else u !! r.
Proof.
  unfold graft. rewrite lookup_union, lookup_prune. destruct (below_cases p r) as [(t&->&->)|[Hn ->]].
  - rewrite (lookup_kmap (app p)), drop_app_length. by destruct (A !! t).
  - assert (kmap (app p) A !! r = None) as ->; [|by destruct (u !! r)].
    apply lookup_kmap_None; [apply _|]. intros t ->. destruct Hn. by exists t.
Qed.
Lemma prune_graft {V} (p : path) (u : gmap path V) : prune p u = graft p ∅ u.
Proof. apply map_eq. intros r. rewrite lookup_prune, lookup_graft. by destruct (Os.below p r). Qed.

(** A tree of the file system. *)
Record tree_wf (u : gmap path rinode) : Prop := {
  tw_root : dir_at u [] = true;
  tw_parent : ∀ p c, is_Some (u !! (p ++ [c])) → dir_at u p = true;
}.
Lemma tree_none u p r : tree_wf u → u !! p = None → u !! (p ++ r) = None.
Proof.
  intros Hwf Hp. induction r as [|c r IH] using rev_ind; [by rewrite app_nil_r|]. rewrite app_assoc.
  destruct (u !! ((p ++ r) ++ [c])) as [n|] eqn:Hn; [|done].
  assert (dir_at u (p ++ r) = true) as Hd by (apply (tw_parent _ Hwf _ c); by exists n). unfold dir_at in Hd. by rewrite IH in Hd.
Qed.
Lemma tree_file u p r : tree_wf u → dir_at u p = false → r ≠ [] → u !! (p ++ r) = None.
Proof.
  intros Hwf Hp Hr. destruct r as [|c r]; [done|]. replace (p ++ c :: r) with ((p ++ [c]) ++ r) by (by rewrite <-app_assoc).
  apply tree_none; [done|]. destruct (u !! (p ++ [c])) as [n|] eqn:Hn; [|done].
  rewrite (tw_parent _ Hwf p c) in Hp; [done|by exists n].
Qed.

(** Nothing of the lower layers is shown at [p] or below. *)
Definition low_none (u : gmap path rinode) (L : path → option rinode) (p : path) : Prop := covered u (parent_dir p) = true ∨ L p = None.
Definition sealed (u : gmap path rinode) (L : path → option rinode) (p : path) : Prop := hide_at u p = true ∨ low_none u L p.

Lemma parent_prefix p q : p ≠ [] → q `prefix_of` parent_dir p → q `prefix_of` p ∧ ¬ p `prefix_of` q.
Proof.
  intros Hp Hq. destruct p as [|c p _] using rev_ind; [done|]. rewrite parent_dir_snoc in Hq. split; [by apply prefix_app_r|].
  intros Hpq. assert (p ++ [c] `prefix_of` p) as Hl%prefix_length by (by etrans). rewrite length_app in Hl. cbn in Hl. lia.
Qed.
Lemma prefix_parent p q : q `prefix_of` p → ¬ p `prefix_of` q → q `prefix_of` parent_dir p.
Proof.
  intros [t ->] Hn. destruct t as [|c t _] using rev_ind; [destruct Hn; by rewrite app_nil_r|].
  rewrite app_assoc, parent_dir_snoc. by apply prefix_app_r.
Qed.
Lemma covered_same u u' p : (∀ q, q `prefix_of` p → u' !! q = u !! q) → covered u' p = covered u p.
Proof.
  intros H. apply eq_true_iff_eq. rewrite !covered_true. unfold hide_at.
  split; intros (q&?&Hp&Hh); exists q; (split_and!; [done|done|]); [rewrite <-H|rewrite H]; done.
Qed.

Section Over.
Context (L : path → option rinode) (HL : closed L).

Lemma over_sealed u p r : p ≠ [] → sealed u L p → over u L (p ++ r) = nonwhite (u !! (p ++ r)).
Proof.
  intros Hp Hs. unfold over. destruct (u !! (p ++ r)) as [n|] eqn:Hn; [done|]. cbn. destruct (covered u (p ++ r)) eqn:Hc; [done|].
  destruct Hs as [Hh|[Hc'|HL']].
  - assert (covered u (p ++ r) = true); [|congruence]. apply covered_true. exists p. split_and!; [done|by apply prefix_app_r|done].
  - assert (covered u (p ++ r) = true); [|congruence]. apply covered_true in Hc' as (q&?&Hq&?). apply covered_true. exists q.
    split_and!; [done| |done]. apply prefix_app_r. by apply parent_prefix.
  - by apply closed_none.
Qed.

(** Replacing what the upper layer has at [p] and below changes the view there, and
    nowhere else. *)
Lemma over_graft u p A r :
  p ≠ [] → sealed (graft p A u) L p →
  over (graft p A u) L r = if Os.below p r then nonwhite (A !! drop (length p) r) else over u L r.
Proof.
  intros Hp Hs. destruct (below_cases p r) as [(t&->&Hb)|[Hn Hb]]; rewrite Hb.
  - rewrite over_sealed by done. by rewrite lookup_graft, below_app.
  - unfold over. rewrite lookup_graft, Hb. destruct (u !! r); [done|]. rewrite (covered_same u); [done|].
    intros q Hq. rewrite lookup_graft. destruct (below_cases p q) as [(t&->&_)|[_ ->]]; [|done]. destruct Hn. etrans; [|done]. by exists t.
Qed.
Lemma low_none_graft u p q A : p ≠ [] → ¬ q `prefix_of` p ∨ q = p → low_none (graft q A u) L p ↔ low_none u L p.
Proof.
  intros Hp Hq. unfold low_none. rewrite (covered_same u); [done|]. intros r Hr%parent_prefix; [|done]. rewrite lookup_graft.
  destruct (below_cases q r) as [(t&->&_)|[_ ->]]; [|done]. destruct Hr as [Hr Hn], Hq as [Hq| ->]; [destruct Hq|destruct Hn; by exists t].
  etrans; [|done]. by exists t.
Qed.
Lemma sealed_root u p A n : A !! [] = Some n → hide_node n = true → sealed (graft p A u) L p.
Proof.
  intros HA Hh. left. unfold hide_at. rewrite lookup_graft, (proj2 (below_spec p p)) by done.
  by rewrite drop_ge, HA by done.
Qed.
Lemma sealed_low u p A : p ≠ [] → low_none u L p → sealed (graft p A u) L p.
Proof. intros Hp Hl. right. apply low_none_graft; auto. Qed.

(** Nothing below is shown, if the view has nothing without the upper entry. *)
Lemma low_none_over u p : p ≠ [] → over (prune p u) L p = None → low_none u L p.
Proof.
  intros Hp. rewrite prune_graft. unfold over. rewrite lookup_graft, (proj2 (below_spec p p)), lookup_empty by done.
  intros Ho. destruct (covered (graft p ∅ u) p) eqn:Hc; [left|by right].
  apply covered_true in Hc as (q&?&Hq&Hh). unfold hide_at in Hh. rewrite lookup_graft in Hh.
  destruct (below_cases p q) as [(t&->&Hb)|[Hn Hb]]; rewrite Hb in Hh; [by rewrite lookup_empty in Hh|].
  apply covered_true. exists q. split_and!; [done|by apply prefix_parent|done].
Qed.
End Over.

(** ** The union depends on the shape of the entries *)

Definition shape (n : rinode) : bool * bool * bool := (is_dir_node n, ovl_is_whiteout n, is_opaque_node n).
Lemma shape_parts n m : shape n = shape m → is_dir_node n = is_dir_node m ∧ ovl_is_whiteout n = ovl_is_whiteout m ∧ is_opaque_node n = is_opaque_node m.
Proof. unfold shape. intros H. by simplify_eq. Qed.
Lemma shape_cases (o o' : option rinode) : shape <$> o = shape <$> o' → o = None ∧ o' = None ∨ ∃ n m, o = Some n ∧ o' = Some m ∧ shape n = shape m.
Proof. destruct o as [n|], o' as [m|]; intros H; [|done|done|by left]. right. exists n, m. by apply (inj Some) in H. Qed.
Lemma pick_shape s s' q l : (∀ i, i ∈ l → shape <$> node s' i q = shape <$> node s i q) → ∀ b, pick_layers s' q l b = pick_layers s q l b.
Proof.
  induction l as [|i l IH]; intros Hs b; [done|]. cbn [pick_layers]. assert (∀ b, pick_layers s' q l b = pick_layers s q l b) as IH'.
  { apply IH. intros j Hj. apply Hs. by right. }
  destruct (shape_cases _ _ (Hs i ltac:(left))) as [[-> ->]|(n&m&->&->&(->&->&->)%shape_parts)]; [apply IH'|].
  by rewrite IH'.
Qed.
Lemma shows_shape s s' i q : shape <$> node s' i q = shape <$> node s i q → shows s' i q = shows s i q.
Proof. intros [[H1 H2]|(n&m&H1&H2&(_&H&_)%shape_parts)]%shape_cases; unfold shows; by rewrite H1, H2, ?H. Qed.
Lemma lookup_shape s s' i q : shape <$> node s' i q = shape <$> node s i q → can_lookup s' i q = can_lookup s i q.
Proof. intros [[H1 H2]|(n&m&H1&H2&(H&_)%shape_parts)]%shape_cases; unfold can_lookup; rewrite H1, H2; done. Qed.
Lemma union_shape s s' q :
  (∀ i r, r `prefix_of` q → shape <$> node s' i r = shape <$> node s i r) → union s' q = union s q.
Proof.
  intros Hs. assert (∀ i, blocked s' i q = blocked s i q) as Hb.
  { intros i. apply existsb_same. intros k Hk. unfold hides.
    destruct (shape_cases _ _ (Hs i (take (S k) q) (prefix_take _ _))) as [[-> ->]|(n&m&->&->&(->&_&->)%shape_parts)]; done. }
  assert (∀ i, seen s' q i = seen s q i) as Hseen.
  { intros i. apply eq_true_iff_eq. rewrite !seen_true, (shows_shape s s') by (by apply Hs). by setoid_rewrite Hb. }
  apply sorted_same; [apply union_sorted..|]. intros i. rewrite !union_elem, (lookup_shape s s') by (by apply Hs). by setoid_rewrite Hseen.
Qed.

(** The view has nothing exactly where the union has nothing. *)
Lemma view_none s p : view s p = None ↔ union s p = [].
Proof.
  unfold view. destruct (union s p) as [|i l] eqn:Hu; [done|]. split; [|done]. intros Hn.
  assert (i ∈ union s p) as [[Hs _]%seen_true _]%union_elem by (rewrite Hu; left). unfold shows in Hs. by rewrite Hn in Hs.
Qed.
Lemma view_head s p n : view s p = Some n → ∃ i l, union s p = i :: l ∧ node s i p = Some n.
Proof. unfold view. destruct (union s p) as [|i l]; [done|]. eauto. Qed.

(** Looking for directories only, from a directory on. *)
Lemma pick_dir s q l : ∀ i rest, pick_layers s q l false = i :: rest → can_lookup s i q = true → pick_layers s q l true = i :: rest.
Proof.
  induction l as [|j l IH]; intros i rest; [done|]. cbn [pick_layers]. destruct (node s j q) as [n|] eqn:Hn; [|apply IH].
  destruct (ovl_is_whiteout n); [done|]. destruct (is_dir_node n) eqn:Hd; cbn [negb]; [done|]. intros [= -> <-].
  unfold can_lookup. rewrite Hn. unfold is_dir_node in Hd. by rewrite Hd.
Qed.
(** The layers below one that has a file, or nothing to show. *)
Lemma pick_nil s q l b : pick_layers s q l false = [] → pick_layers s q l b = [].
Proof.
  revert b. induction l as [|j l IH]; intros b; [done|]. cbn [pick_layers]. destruct (node s j q) as [n|]; [|apply IH].
  destruct (ovl_is_whiteout n); [done|]. by destruct (is_dir_node n).
Qed.

(** ** Copying up does not change what an overlay shows *)

Section Raise.
Context (sec : string → Z).

(** The layers with copies of entries that were shown from below. *)
Record raised (s s' : LS) : Prop := {
  ra_length : length (ls_layers s') = length (ls_layers s);
  ra_lower : ∀ i q, node s' (S i) q = node s (S i) q;
  ra_old : ∀ q i, node s 0 q = Some i → ∃ j, node s' 0 q = Some j ∧ kept i j;
  ra_new : ∀ q j, node s' 0 q = Some j → node s 0 q = None → ∃ lo, view s q = Some lo ∧ copy_of sec 0 lo j;
  ra_wf : layers_wf s';
}.

Lemma opaque_private : ovl_is_private_xattr OVL_XATTR_OPAQUE = true ∧ ovl_is_private_xattr OVL_XATTR_REDIRECT = true.
Proof. done. Qed.
Lemma kept_shape i j : kept i j → shape j = shape i.
Proof.
  intros (Ht&_&_&_&_&Hx). unfold shape, is_dir_node, ovl_is_whiteout, is_opaque_node. rewrite Ht, Hx; done.
Qed.
Lemma copy_plain lo j : copy_of sec 0 lo j → is_opaque_node j = false ∧ is_dir_node j = is_dir_node lo ∧ ovl_is_whiteout j = ovl_is_whiteout lo.
Proof.
  intros (Ht&_&_&_&_&Hp). unfold is_opaque_node, is_dir_node, ovl_is_whiteout. rewrite Ht, Hp by done.
  split; [done|]. by destruct (ri_type lo).
Qed.

Section Union.
Context (s s' : LS) (Hwf : layers_wf s) (Hr : raised s s').

Definition new_copy (q : path) : Prop := node s 0 q = None ∧ is_Some (node s' 0 q).
#[local] Instance new_copy_dec q : Decision (new_copy q).
Proof. unfold new_copy. apply _. Defined.

Lemma old_shape q : ¬ new_copy q → shape <$> node s' 0 q = shape <$> node s 0 q.
Proof.
  unfold new_copy. intros Hn. destruct (node s 0 q) as [i|] eqn:Hi.
  - destruct (ra_old _ _ Hr _ _ Hi) as (j&->&Hk%kept_shape). cbn. by rewrite Hk.
  - destruct (node s' 0 q) as [j|] eqn:Hj; [|done]. destruct Hn. by split.
Qed.
Lemma lower_not_top q : node s 0 q = None → 0 ∉ union s q.
Proof. intros Hn [[Hs _]%seen_true _]%union_elem. unfold shows in Hs. by rewrite Hn in Hs. Qed.

(** The union of a copied directory has the copy on top. *)
Definition raised_union (q : path) : list nat :=
  if decide (new_copy q) then 0 :: (if can_lookup s' 0 q then union s q else []) else union s q.

Lemma pick_raised q l b : 0 ∉ l → pick_layers s' q l b = pick_layers s q l b.
Proof. intros H0. apply pick_shape. intros [|i] Hi; [done|]. by rewrite (ra_lower _ _ Hr). Qed.
Lemma pick_new q j lo rest :
  node s' 0 q = Some j → view s q = Some lo → copy_of sec 0 lo j → union s q = pick_layers s q rest false → 0 ∉ rest →
  pick_layers s' q (0 :: rest) false = 0 :: (if can_lookup s' 0 q then union s q else []).
Proof.
  intros Hj Hlo Hc Hu H0. destruct (copy_plain _ _ Hc) as (Hop&Hd&Hw). cbn [pick_layers]. rewrite Hj, Hw, Hop, (view_whiteout _ _ _ Hlo).
  unfold can_lookup. rewrite Hj. fold (is_dir_node j). destruct (is_dir_node j) eqn:Hjd; cbn [negb]; [|done].
  f_equal. rewrite pick_raised by done. destruct (view_head _ _ _ Hlo) as (i&l&Hl&Hn). rewrite Hl in Hu. rewrite Hl.
  apply pick_dir; [done|]. unfold can_lookup. rewrite Hn. unfold is_dir_node in Hd. congruence.
Qed.
Lemma dir_on_top q : can_lookup s 0 q = true → ∃ rest, union s q = 0 :: rest ∧ 0 ∉ rest.
Proof.
  intros Hd. assert (0 ∈ union s q) as Hin.
  { apply union_elem. split; [|by left]. apply seen_true. split; [by apply dir_shows|lia]. }
  pose proof (union_sorted s q) as Hs. destruct Hs as [|i rest Hs Hi]; [by apply not_elem_of_nil in Hin|]. rewrite Forall_forall in Hi.
  apply elem_of_cons in Hin as [<-|Hin]; [exists rest; split; [done|]; intros H%Hi; lia|]. specialize (Hi _ Hin). lia.
Qed.

Lemma union_raised q : union s' q = raised_union q.
Proof.
  assert (∀ q, ¬ new_copy q → 0 ∉ union s q ∨ shape <$> node s' 0 q = shape <$> node s 0 q) as Hold by (right; by apply old_shape).
  induction q as [|c p IH] using rev_ind.
  { unfold raised_union. destruct (decide (new_copy [])) as [[Hn [j Hj]]|Hnew].
    - exfalso. assert (0 < length (ls_layers s)) as Hlen.
      { rewrite <-(ra_length _ _ Hr). unfold node in Hj. destruct (ls_layers s'); [done|cbn; lia]. }
      pose proof (lw_root _ Hwf 0 Hlen) as Hd. unfold can_lookup in Hd. by rewrite Hn in Hd.
    - apply union_shape. intros [|i] r Hp%prefix_nil_inv; subst; [by apply old_shape|by rewrite (ra_lower _ _ Hr)]. }
  rewrite (union_snoc _ (ra_wf _ _ Hr)), IH. unfold raised_union at 1. destruct (decide (new_copy p)) as [[Hn [j Hj]]|Hp].
  - destruct (ra_new _ _ Hr _ _ Hj Hn) as (lo&Hlo&Hc). pose proof (lower_not_top _ Hn) as H0.
    assert (node s 0 (p ++ [c]) = None) as Hcn.
    { destruct (node s 0 (p ++ [c])) eqn:E; [|done]. assert (can_lookup s 0 p = true) as Hd; [|unfold can_lookup in Hd; by rewrite Hn in Hd].
      apply (lw_parent _ Hwf 0 p c). by rewrite E. }
    destruct (can_lookup s' 0 p) eqn:Hd.
    + unfold raised_union. destruct (decide (new_copy (p ++ [c]))) as [[_ [k Hk]]|Hnc].
      * destruct (ra_new _ _ Hr _ _ Hk Hcn) as (lo'&Hlo'&Hc'). eapply pick_new; try done. by apply union_snoc.
      * destruct (node s' 0 (p ++ [c])) as [k|] eqn:Hk; [destruct Hnc; split; [done|by rewrite Hk]|].
        cbn [pick_layers]. rewrite Hk, pick_raised by done. by rewrite <-union_snoc.
    + assert (node s' 0 (p ++ [c]) = None) as Hk.
      { destruct (node s' 0 (p ++ [c])) eqn:E; [|done]. rewrite (lw_parent _ (ra_wf _ _ Hr) 0 p c) in Hd; [done|by rewrite E]. }
      cbn [pick_layers]. rewrite Hk. unfold raised_union. destruct (decide (new_copy (p ++ [c]))) as [[_ [? ?]]|_]; [congruence|].
      destruct (copy_plain _ _ Hc) as (_&Hjd&_). symmetry. apply view_none, (closed_file _ _ lo); [by apply view_closed|done| |done].
      rewrite <-Hjd. unfold can_lookup in Hd. by rewrite Hj in Hd.
  - unfold raised_union. destruct (decide (new_copy (p ++ [c]))) as [[Hcn [k Hk]]|Hnc].
    + destruct (ra_new _ _ Hr _ _ Hk Hcn) as (lo&Hlo&Hc). assert (can_lookup s 0 p = true) as (rest&Hu&H0)%dir_on_top.
      { rewrite <-(lookup_shape s s') by (by apply old_shape). apply (lw_parent _ (ra_wf _ _ Hr) 0 p c). by rewrite Hk. }
      rewrite Hu. eapply pick_new; try done. rewrite (union_snoc _ Hwf), Hu. cbn [pick_layers]. by rewrite Hcn.
    + rewrite (union_snoc _ Hwf). apply pick_shape. intros [|i] _; [by apply old_shape|by rewrite (ra_lower _ _ Hr)].
Qed.

(** The views are the same, up to what a copy does not keep. *)
Lemma view_raised q : option_Forall2 (same_file sec) (view s q) (view s' q).
Proof.
  unfold view at 2. rewrite union_raised. unfold raised_union. destruct (decide (new_copy q)) as [[Hn [j Hj]]|Hnew].
  - destruct (ra_new _ _ Hr _ _ Hj Hn) as (lo&->&Hc). rewrite Hj. constructor. by apply copy_same.
  - unfold view. destruct (union s q) as [|i l] eqn:Hu; [constructor|]. destruct i as [|i].
    + destruct (node s 0 q) as [n|] eqn:Hn.
      * destruct (ra_old _ _ Hr _ _ Hn) as (m&->&Hk). constructor. by apply kept_up_same.
      * destruct (node s' 0 q) eqn:Hm; [|constructor]. destruct Hnew. by split.
    + rewrite (ra_lower _ _ Hr). destruct (node s (S i) q); constructor. apply kept_up_same, kept_up_refl.
Qed.
End Union.
End Raise.
