(* ===== verification/OvlDirInv.v ===== *)
(** * The cache of dentries and the layers

    The invariant of an overlay that is written to: the layers are trees, and every
    dentry in the cache stands for the union of its path. *)

From S2P Require Import Prelude FileSys OvlOpts OvlMount OvlCopyUp OvlProps OvlLookup OvlReaddir OvlDir OvlMountProps OvlReaddirProps OvlLookupProps OvlUnion OvlView.

(** ** The invariant *)

(** A dentry: a positive one stands for the union; a negative one has nothing to
    show, and knows if the upper layer has a whiteout. *)
Record entry_ok (l : LS) (p : path) (e : oentry) : Prop := {
  eo_positive : oe_positive e = true → stands l (oe_dentry e) p;
  eo_upper : oe_upper e = None → oe_positive e = true → node l 0 p = None;
  eo_negative : oe_positive e = false → union l p = [] ∧ (is_Some (node l 0 p) → oe_opaque e = true);
}.

(** Names the VFS does not take for the directory itself or the one above. *)
Definition dot_free (c : string) : Prop := c ≠ "." ∧ c ≠ "..".
Record coherent (s : DS) : Prop := {
  co_wf : layers_wf (ds_ls s);
  co_some : 0 < length (ls_layers (ds_ls s));
  co_redirect : no_redirect (ds_ls s);
  co_names : ∀ i q c, is_Some (node (ds_ls s) i (q ++ [c])) → dot_free c;
  co_work : tree_wf (ds_work s);
  co_index : ofs_indexdir (ds_ofs s) = None;
  co_workdir : is_Some (ofs_workdir (ds_ofs s));
  co_mnt : is_Some (ofs_upper (ds_ofs s));
  co_xattr : ofs_noxattr (ds_ofs s) = false;
  co_root : is_Some (ds_dentries s !! []);
  co_parent : ∀ p c, is_Some (ds_dentries s !! (p ++ [c])) →
    ∃ e, ds_dentries s !! p = Some e ∧ oe_positive e = true ∧ oe_is_dir s e = true;
  co_entry : ∀ p e, ds_dentries s !! p = Some e → entry_ok (ds_ls s) p e;
}.

(** What the overlay shows, and what its lower layers do. *)
Definition shown_at (s : DS) : path → option rinode := view (ds_ls s).
Definition below_at (s : DS) : path → option rinode := view (lower_of (ds_ls s)).

Lemma upper_node s p : upper_tree s !! p = node (ds_ls s) 0 p.
Proof. unfold layer_tree, node. by destruct (ls_layers (ds_ls s) !! 0); cbn; [|rewrite lookup_empty]. Qed.
Lemma upper_layers s : 0 < length (ls_layers (ds_ls s)) → ls_layers (ds_ls s) = upper_tree s :: tail (ls_layers (ds_ls s)).
Proof. unfold layer_tree. destruct (ls_layers (ds_ls s)); cbn; [lia|done]. Qed.
Lemma dir_at_lookup s p : dir_at (upper_tree s) p = can_lookup (ds_ls s) 0 p.
Proof. unfold dir_at, can_lookup. by rewrite upper_node. Qed.
Lemma below_node l i p : node (lower_of l) i p = node l (S i) p.
Proof. apply node_tail. Qed.

(** The real inode of a positive dentry is what is shown. *)
Lemma entry_real s p e : entry_ok (ds_ls s) p e → oe_positive e = true → real_node s e = shown_at s p.
Proof.
  intros Hok Hp. pose proof (eo_positive _ _ _ Hok Hp) as Hst.
  unfold stands, oe_dentry in Hst. cbn in Hst. unfold real_node, shown_at, view, first_lower.
  destruct (oe_upper e) as [u|].
  - destruct Hst as [-> (rest&->&_)]. by rewrite upper_node.
  - destruct Hst as [Hne ->]. by destruct (union (ds_ls s) p).
Qed.

Section Coherent.
Context (s : DS) (Hco : coherent s).

Lemma shown_over p : shown_at s p = over (upper_tree s) (below_at s) p.
Proof. apply (view_over _ _ (tail (ls_layers (ds_ls s)))); [apply Hco|apply upper_layers, Hco]. Qed.
Lemma lower_wf : layers_wf (lower_of (ds_ls s)).
Proof.
  split.
  - intros i p c Hi. rewrite node_tail in Hi. unfold can_lookup. rewrite node_tail. by apply (lw_parent _ (co_wf _ Hco) (S i) p c).
  - intros i Hi. unfold can_lookup. rewrite node_tail. apply (lw_root _ (co_wf _ Hco)). unfold lower_of in Hi. cbn in Hi.
    destruct (ls_layers (ds_ls s)); cbn in *; lia.
Qed.
Lemma below_closed : closed (below_at s).
Proof. apply view_closed, lower_wf. Qed.
Lemma upper_wf : tree_wf (upper_tree s).
Proof.
  split.
  - rewrite dir_at_lookup. apply (lw_root _ (co_wf _ Hco)), Hco.
  - intros p c Hn. rewrite upper_node in Hn. rewrite dir_at_lookup. by apply (lw_parent _ (co_wf _ Hco) 0 p c).
Qed.

Lemma real_shown p e : ds_dentries s !! p = Some e → oe_positive e = true → real_node s e = shown_at s p.
Proof. intros He. by apply entry_real, (co_entry _ Hco). Qed.
Lemma positive_shown p e : ds_dentries s !! p = Some e → oe_positive e = bool_decide (is_Some (shown_at s p)).
Proof.
  intros He. pose proof (co_entry _ Hco _ _ He) as Hok. unfold shown_at. destruct (oe_positive e) eqn:Hp.
  - rewrite bool_decide_eq_true_2; [done|]. apply not_eq_None_Some. rewrite view_none. eapply stands_union, eo_positive; done.
  - rewrite bool_decide_eq_false_2; [done|]. rewrite (proj2 (view_none _ _)); [by intros []|]. by eapply eo_negative.
Qed.
Lemma upper_positive p e : ds_dentries s !! p = Some e → oe_positive e = true →
  oe_upper e = match upper_tree s !! p with Some _ => Some p | None => None end.
Proof.
  intros He Hp. pose proof (co_entry _ Hco _ _ He) as Hok. pose proof (eo_positive _ _ _ Hok Hp) as Hst. unfold stands, oe_dentry in Hst. cbn in Hst.
  rewrite upper_node. destruct (oe_upper e) as [u|] eqn:Hu; [|by rewrite (eo_upper _ _ _ Hok)].
  destruct Hst as [-> (rest&Hun&_)]. assert (0 ∈ union (ds_ls s) p) as [[[n Hn]%shows_node _]%seen_true _]%union_elem by (rewrite Hun; left).
  by rewrite Hn.
Qed.
Lemma dir_shown p e n : ds_dentries s !! p = Some e → oe_positive e = true → shown_at s p = Some n → oe_is_dir s e = is_dir_node n.
Proof. intros He Hp Hn. unfold oe_is_dir. by rewrite (real_shown p e), Hn. Qed.
End Coherent.

(** Dentries depend on the shape of the layers. *)
Lemma entry_same l l' p e :
  (∀ i r, r `prefix_of` p → shape <$> node l' i r = shape <$> node l i r) → entry_ok l p e → entry_ok l' p e.
Proof.
  intros Hs [Hpos Hup Hneg].
  assert (node l' 0 p = None ↔ node l 0 p = None) as Hnone.
  { destruct (shape_cases _ _ (Hs 0 p (reflexivity _))) as [[-> ->]|(n&m&->&->&_)]; done. }
  split.
  - intros H. specialize (Hpos H). unfold stands in *. rewrite (union_shape l l') by done. destruct (de_upper _); [|done].
    by rewrite (lookup_shape l l') by (by apply Hs).
  - intros Hu H. by apply Hnone, Hup.
  - intros H. specialize (Hneg H). rewrite (union_shape l l') by done. split; [apply Hneg|].
    rewrite <-not_eq_None_Some, Hnone, not_eq_None_Some. apply Hneg.
Qed.

(** ** Steps that do not touch the upper layer *)

(** Dentries may get the flag that they are opaque, the work directory and the counter
    may change, and calls are made. *)
Record still (s0 s : DS) : Prop := {
  sl_layers : ls_layers (ds_ls s) = ls_layers (ds_ls s0);
  sl_ofs : ds_ofs s = ds_ofs s0;
  sl_work : tree_wf (ds_work s);
  sl_dentries : oe_dentry <$> ds_dentries s = oe_dentry <$> ds_dentries s0;
  sl_opaque : ∀ p e0 e, ds_dentries s0 !! p = Some e0 → ds_dentries s !! p = Some e → oe_opaque e0 = true → oe_opaque e = true;
}.
Lemma still_refl s : coherent s → still s s.
Proof. intros Hco. split; [done..|apply Hco|done|]. intros p e0 e ??. by simplify_eq. Qed.
Lemma still_lookup s0 s p e : still s0 s → ds_dentries s !! p = Some e → ∃ e0, ds_dentries s0 !! p = Some e0 ∧ oe_dentry e0 = oe_dentry e.
Proof.
  intros Hs He. assert ((oe_dentry <$> ds_dentries s) !! p = Some (oe_dentry e)) as H by (by rewrite lookup_fmap, He).
  rewrite (sl_dentries _ _ Hs), lookup_fmap in H. destruct (ds_dentries s0 !! p) as [e0|]; [|done]. exists e0. split; [done|]. by apply (inj Some) in H.
Qed.
Lemma still_lookup_r s0 s p e0 : still s0 s → ds_dentries s0 !! p = Some e0 → ∃ e, ds_dentries s !! p = Some e ∧ oe_dentry e0 = oe_dentry e.
Proof.
  intros Hs He. assert ((oe_dentry <$> ds_dentries s0) !! p = Some (oe_dentry e0)) as H by (by rewrite lookup_fmap, He).
  rewrite <-(sl_dentries _ _ Hs), lookup_fmap in H. destruct (ds_dentries s !! p) as [e|]; [|done]. exists e. split; [done|]. by apply (inj Some) in H.
Qed.
Lemma still_trans s1 s2 s3 : still s1 s2 → still s2 s3 → still s1 s3.
Proof.
  intros H12 H23. split; [etrans; [apply H23|apply H12]..|apply H23|etrans; [apply H23|apply H12]|].
  intros p e1 e3 He1 He3 Ho. destruct (still_lookup _ _ _ _ H23 He3) as (e2&He2&_). eapply (sl_opaque _ _ H23); [done..|]. by eapply (sl_opaque _ _ H12).
Qed.
Lemma still_node s0 s i p : still s0 s → node (ds_ls s) i p = node (ds_ls s0) i p.
Proof. intros Hs. unfold node. by rewrite (sl_layers _ _ Hs). Qed.
Lemma still_shape s0 s : still s0 s → ∀ i p, shape <$> node (ds_ls s) i p = shape <$> node (ds_ls s0) i p.
Proof. intros Hs i p. by rewrite (still_node s0 s). Qed.
Lemma still_upper s0 s : still s0 s → upper_tree s = upper_tree s0.
Proof. intros Hs. unfold layer_tree. by rewrite (sl_layers _ _ Hs). Qed.
Lemma still_union s0 s p : still s0 s → union (ds_ls s) p = union (ds_ls s0) p.
Proof. intros Hs. apply union_shape. intros. by apply still_shape. Qed.
Lemma still_shown s0 s p : still s0 s → shown_at s p = shown_at s0 p.
Proof. intros Hs. unfold shown_at, view. rewrite (still_union s0 s) by done. destruct (union _ p); [done|]. by apply still_node. Qed.
Lemma real_of_dentry s0 s e0 e : (∀ i p, node (ds_ls s) i p = node (ds_ls s0) i p) → oe_dentry e0 = oe_dentry e → real_node s e = real_node s0 e0.
Proof.
  intros Hn [= Hu Hl]. unfold real_node, first_lower. rewrite Hu, Hl. destruct (oe_upper e) as [u|]; [by rewrite !upper_node, Hn|].
  destruct (oe_lowers e) as [|[i q] ?]; [done|]. by rewrite Hn.
Qed.
Lemma positive_dentry e0 e : oe_dentry e0 = oe_dentry e → oe_positive e = oe_positive e0.
Proof. intros [= Hu Hl]. unfold oe_positive. by rewrite Hu, Hl. Qed.
Lemma still_coherent s0 s : coherent s0 → still s0 s → coherent s.
Proof.
  intros Hco Hs. pose proof (sl_layers _ _ Hs) as Hl. split.
  - destruct (co_wf _ Hco) as [Hp Hr]. split.
    + intros i p c. rewrite (still_node s0 s), (lookup_shape (ds_ls s0)) by (done || by apply still_shape). apply Hp.
    + intros i. rewrite Hl, (lookup_shape (ds_ls s0)) by (by apply still_shape). apply Hr.
  - rewrite Hl. apply Hco.
  - intros i p n. rewrite (still_node s0 s) by done. apply Hco.
  - intros i q c. rewrite (still_node s0 s) by done. apply Hco.
  - apply Hs.
  - rewrite (sl_ofs _ _ Hs). apply Hco.
  - rewrite (sl_ofs _ _ Hs). apply Hco.
  - rewrite (sl_ofs _ _ Hs). apply Hco.
  - rewrite (sl_ofs _ _ Hs). apply Hco.
  - destruct (co_root _ Hco) as [e He]. destruct (still_lookup_r _ _ _ _ Hs He) as (e'&->&_). done.
  - intros p c [e He]. destruct (still_lookup _ _ _ _ Hs He) as (e0&He0&_). destruct (co_parent _ Hco p c) as (d0&Hd0&Hpos&Hdir); [by exists e0|].
    destruct (still_lookup_r _ _ _ _ Hs Hd0) as (d&Hd&Heq). exists d. split_and!; [done|by rewrite (positive_dentry d0)|].
    unfold oe_is_dir. rewrite (real_of_dentry s0 s d0); [done| |done]. intros. by apply still_node.
  - intros p e He. destruct (still_lookup _ _ _ _ Hs He) as (e0&He0&Heq). pose proof (co_entry _ Hco _ _ He0) as Hok.
    assert (oe_upper e0 = oe_upper e) as Hu by (by injection Heq).
    apply (entry_same (ds_ls s0)); [intros; by apply still_shape|]. destruct Hok as [Hpos Hup Hneg]. split.
    + rewrite <-Heq, (positive_dentry e0 e) by done. done.
    + rewrite <-Hu, (positive_dentry e0 e) by done. done.
    + rewrite (positive_dentry e0 e) by done. intros H. specialize (Hneg H) as [? Hop]. split; [done|]. intros Hn.
      eapply (sl_opaque _ _ Hs); [done..|]. by apply Hop.
Qed.

(** ** Replacing a subtree of the upper layer *)

(** A subtree, which may be empty, and no entry of it leads elsewhere. *)
Record sub_wf (A : gmap path rinode) : Prop := {
  sw_parent : ∀ p c, is_Some (A !! (p ++ [c])) → dir_at A p = true;
  sw_redirect : ∀ p n, A !! p = Some n → ri_xattrs n !! OVL_XATTR_REDIRECT = None;
  sw_names : ∀ p c, is_Some (A !! (p ++ [c])) → dot_free c;
}.
Lemma sub_empty : sub_wf ∅.
Proof.
  split; [intros p c [n Hn]; by rewrite lookup_empty in Hn|intros p n; by rewrite lookup_empty|].
  intros p c [n Hn]. by rewrite lookup_empty in Hn.
Qed.
Lemma sub_single n : ri_xattrs n !! OVL_XATTR_REDIRECT = None → sub_wf {[ [] := n ]}.
Proof.
  intros Hn. split.
  - intros p c [m [Hm _]%lookup_singleton_Some]. by destruct p.
  - intros p m [_ <-]%lookup_singleton_Some. done.
  - intros p c [m [Hm _]%lookup_singleton_Some]. by destruct p.
Qed.
Lemma dir_at_strip u p q : dir_at (Os.strip p u) q = dir_at u (p ++ q).
Proof. unfold dir_at. by rewrite lookup_strip. Qed.

Lemma parent_dir_cons (p q : path) c : q ++ [c] = p → parent_dir p = q.
Proof. intros <-. apply parent_dir_snoc. Qed.
(** Where a name is below [p], its directory is too, or the name is [p]. *)
Lemma below_snoc p q c : Os.below p (q ++ [c]) = Os.below p q || bool_decide (p = q ++ [c]).
Proof.
  destruct (below_cases p (q ++ [c])) as [(t&Ht&->)|[Hn ->]].
  - destruct t as [|d t _] using rev_ind; [rewrite app_nil_r in Ht; rewrite bool_decide_eq_true_2 by done; by rewrite orb_true_r|].
    rewrite app_assoc in Ht. apply app_inj_tail in Ht as [-> _]. by rewrite below_app.
  - symmetry. apply orb_false_iff. split.
    + apply not_below_spec. intros H. destruct Hn. by apply prefix_app_r.
    + apply bool_decide_eq_false. intros ->. by destruct Hn.
Qed.

Lemma dir_at_graft p A u q : dir_at (graft p A u) q = if Os.below p q then dir_at A (drop (length p) q) else dir_at u q.
Proof. unfold dir_at. rewrite lookup_graft. by destruct (Os.below p q). Qed.
Lemma graft_wf p A u :
  tree_wf u → p ≠ [] → (∀ q c, is_Some (A !! (q ++ [c])) → dir_at A q = true) → (A !! [] = None ∨ dir_at u (parent_dir p) = true) →
  tree_wf (graft p A u).
Proof.
  intros Hu Hp HA Hpar. split.
  - rewrite dir_at_graft. destruct (below_cases p []) as [(t&Ht&_)|[_ ->]]; [by destruct p|apply Hu].
  - intros q c. rewrite lookup_graft, dir_at_graft, below_snoc. destruct (below_cases p q) as [(t&->&->)|[Hn ->]]; cbn [orb].
    + rewrite <-app_assoc, !drop_app_length. apply HA.
    + case_bool_decide as Heq; [|apply (tw_parent _ Hu)]. subst p. rewrite drop_ge by done. rewrite parent_dir_snoc in Hpar.
      destruct Hpar as [Hnone|?]; [rewrite Hnone; by intros []|done].
Qed.

(** The upper layer is [u]; but for that, as [still]. *)
Record upto (u : gmap path rinode) (s0 s : DS) : Prop := {
  up_layers : ls_layers (ds_ls s) = u :: tail (ls_layers (ds_ls s0));
  up_ofs : ds_ofs s = ds_ofs s0;
  up_work : tree_wf (ds_work s);
  up_dentries : oe_dentry <$> ds_dentries s = oe_dentry <$> ds_dentries s0;
  up_opaque : ∀ p e0 e, ds_dentries s0 !! p = Some e0 → ds_dentries s !! p = Some e → oe_opaque e0 = true → oe_opaque e = true;
}.
Lemma upto_still s0 s : coherent s0 → upto (upper_tree s0) s0 s ↔ still s0 s.
Proof.
  intros Hco. pose proof (upper_layers _ (co_some _ Hco)) as Hl.
  split; intros [H1 ????]; split; try done; (etrans; [exact H1|done]).
Qed.
Lemma upto_upper u s0 s : upto u s0 s → upper_tree s = u.
Proof. intros Hs. unfold layer_tree. by rewrite (up_layers _ _ _ Hs). Qed.
Lemma upto_below u s0 s i q : upto u s0 s → node (ds_ls s) (S i) q = node (ds_ls s0) (S i) q.
Proof. intros Hs. unfold node. rewrite (up_layers _ _ _ Hs). cbn. by destruct (ls_layers (ds_ls s0)). Qed.
Lemma upto_top u s0 s q : upto u s0 s → node (ds_ls s) 0 q = u !! q.
Proof. intros Hs. by rewrite <-upper_node, (upto_upper u s0). Qed.
Lemma upto_below_at u s0 s q : coherent s0 → upto u s0 s → below_at s q = below_at s0 q.
Proof.
  intros Hco Hs. assert (∀ i r, node (lower_of (ds_ls s)) i r = node (lower_of (ds_ls s0)) i r) as Hn.
  { intros i r. rewrite !node_tail. by apply (upto_below u). }
  unfold below_at, view. rewrite (union_shape (lower_of (ds_ls s0))) by (intros; by rewrite Hn).
  destruct (union _ q); [done|apply Hn].
Qed.
Lemma upto_lookup u s0 s q e : upto u s0 s → ds_dentries s !! q = Some e → ∃ e0, ds_dentries s0 !! q = Some e0 ∧ oe_dentry e0 = oe_dentry e.
Proof.
  intros Hs He. assert ((oe_dentry <$> ds_dentries s) !! q = Some (oe_dentry e)) as H by (by rewrite lookup_fmap, He).
  rewrite (up_dentries _ _ _ Hs), lookup_fmap in H. destruct (ds_dentries s0 !! q) as [e0|]; [|done]. exists e0. split; [done|]. by apply (inj Some) in H.
Qed.
Lemma upto_lookup_r u s0 s q e0 : upto u s0 s → ds_dentries s0 !! q = Some e0 → ∃ e, ds_dentries s !! q = Some e ∧ oe_dentry e0 = oe_dentry e.
Proof.
  intros Hs He. assert ((oe_dentry <$> ds_dentries s0) !! q = Some (oe_dentry e0)) as H by (by rewrite lookup_fmap, He).
  rewrite <-(up_dentries _ _ _ Hs), lookup_fmap in H. destruct (ds_dentries s !! q) as [e|]; [|done]. exists e. split; [done|]. by apply (inj Some) in H.
Qed.
Lemma upto_layers_wf u s0 s : coherent s0 → tree_wf u → upto u s0 s → layers_wf (ds_ls s).
Proof.
  intros Hco Hu Hs. destruct (co_wf _ Hco) as [Hp Hr]. split.
  - intros [|i] p c; unfold can_lookup.
    + rewrite (upto_top u s0 s (p ++ [c])), (upto_top u s0 s p) by done. apply Hu.
    + rewrite (upto_below u s0 s i (p ++ [c])), (upto_below u s0 s i p) by done. apply Hp.
  - intros [|i]; unfold can_lookup.
    + rewrite (upto_top u s0) by done. intros _. apply Hu.
    + rewrite (upto_below u s0), (up_layers _ _ _ Hs) by done. cbn. intros Hi. apply Hr. destruct (ls_layers (ds_ls s0)); cbn in *; lia.
Qed.
Lemma upto_shown u s0 s q : coherent s0 → tree_wf u → upto u s0 s → shown_at s q = over u (below_at s0) q.
Proof.
  intros Hco Hu Hs. unfold shown_at. rewrite (view_over _ u (tail (ls_layers (ds_ls s0)))); [|by eapply upto_layers_wf|apply Hs].
  unfold over. destruct (u !! q); [done|]. destruct (covered u q); [done|]. by apply (upto_below_at u).
Qed.

(** The dentries at and below [p] are dropped. *)
Definition dropped (p : path) (s : DS) : DS := ds_set_dentries (filter (λ e, Os.below p e.1 = false) (ds_dentries s)) s.
Lemma dropped_lookup p s q : ds_dentries (dropped p s) !! q = if Os.below p q then None else ds_dentries s !! q.
Proof.
  cbn. apply option_eq. intros e. rewrite map_lookup_filter_Some. cbn. destruct (Os.below p q); (split; [by intros []|by intros ?]).
Qed.

Section Drop.
Context (s0 s : DS) (p : path) (A : gmap path rinode).
Context (Hco : coherent s0) (Hp : p ≠ []) (HA : sub_wf A) (Hpar : A !! [] = None ∨ dir_at (upper_tree s0) (parent_dir p) = true)
        (Hname : A !! [] = None ∨ ∀ q c, p = q ++ [c] → dot_free c) (Hs : upto (graft p A (upper_tree s0)) s0 s).

Lemma grafted_wf : tree_wf (graft p A (upper_tree s0)).
Proof. apply graft_wf; [by apply upper_wf|done|apply HA|done]. Qed.
Lemma node_aside i q : Os.below p q = false → node (ds_ls s) i q = node (ds_ls s0) i q.
Proof.
  intros Hq. destruct i as [|i]; [|by eapply upto_below]. rewrite (upto_top _ s0 s) by done. by rewrite lookup_graft, Hq, upper_node.
Qed.
Lemma aside_prefix q r : Os.below p q = false → r `prefix_of` q → Os.below p r = false.
Proof. rewrite !not_below_spec. intros Hn Hr Hpr. destruct Hn. by etrans. Qed.
Lemma grafted_redirect : no_redirect (ds_ls s).
Proof.
  intros [|i] q n; [|rewrite (upto_below _ s0 s) by done; apply Hco]. rewrite (upto_top _ s0 s), lookup_graft by done.
  destruct (Os.below p q); [apply (sw_redirect _ HA)|]. rewrite upper_node. apply Hco.
Qed.
Lemma grafted_names i q c : is_Some (node (ds_ls s) i (q ++ [c])) → dot_free c.
Proof.
  destruct i as [|i]; [|rewrite (upto_below _ s0 s) by done; apply Hco]. rewrite (upto_top _ s0 s), lookup_graft, below_snoc by done.
  destruct (below_cases p q) as [(t&->&->)|[Hn ->]]; cbn [orb].
  - rewrite <-app_assoc, drop_app_length. apply (sw_names _ HA).
  - case_bool_decide as Heq; [|rewrite upper_node; apply Hco]. subst p. rewrite drop_ge by done. intros Hsome.
    destruct Hname as [Hnone|Hok]; [rewrite Hnone in Hsome; by destruct Hsome|by eapply Hok].
Qed.
(** The real inodes of dentries aside are the same. *)
Lemma real_aside q e0 e : Os.below p q = false → ds_dentries s0 !! q = Some e0 → oe_dentry e0 = oe_dentry e → oe_positive e0 = true →
  real_node (dropped p s) e = real_node s0 e0.
Proof.
  intros Hq He0 Heq Hpos. pose proof (eo_positive _ _ _ (co_entry _ Hco _ _ He0) Hpos) as Hst. injection Heq as Hu Hl.
  unfold stands in Hst. cbn in Hst. unfold real_node, first_lower. rewrite <-Hu, <-Hl. destruct (oe_upper e0) as [u|].
  - destruct Hst as [-> _]. rewrite !upper_node. by apply node_aside.
  - destruct Hst as [_ ->]. destruct (union (ds_ls s0) q) as [|i rest]; [done|]. by apply node_aside.
Qed.

Lemma drop_coherent : coherent (dropped p s).
Proof.
  split.
  - exact (upto_layers_wf _ s0 s Hco grafted_wf Hs).
  - cbn. rewrite (up_layers _ _ _ Hs). cbn. lia.
  - exact grafted_redirect.
  - exact grafted_names.
  - apply Hs.
  - cbn. rewrite (up_ofs _ _ _ Hs). apply Hco.
  - cbn. rewrite (up_ofs _ _ _ Hs). apply Hco.
  - cbn. rewrite (up_ofs _ _ _ Hs). apply Hco.
  - cbn. rewrite (up_ofs _ _ _ Hs). apply Hco.
  - rewrite dropped_lookup. destruct (below_cases p []) as [(t&Ht&_)|[_ ->]]; [by destruct p|].
    destruct (co_root _ Hco) as [e He]. by destruct (upto_lookup_r _ _ _ _ _ Hs He) as (e'&->&_).
  - intros q c [e He]. rewrite dropped_lookup in He. destruct (Os.below p (q ++ [c])) eqn:Hb; [done|].
    assert (Os.below p q = false) as Hq by (eapply aside_prefix; [done|by apply prefix_app_r]).
    destruct (upto_lookup _ _ _ _ _ Hs He) as (e0&He0&_). destruct (co_parent _ Hco q c) as (d0&Hd0&Hpos&Hdir); [by exists e0|].
    destruct (upto_lookup_r _ _ _ _ _ Hs Hd0) as (d&Hd&Heq). exists d. rewrite dropped_lookup, Hq. split_and!; [done|by rewrite (positive_dentry d0)|].
    unfold oe_is_dir. by rewrite (real_aside q d0).
  - intros q e He. rewrite dropped_lookup in He. destruct (Os.below p q) eqn:Hq; [done|].
    destruct (upto_lookup _ _ _ _ _ Hs He) as (e0&He0&Heq). pose proof (co_entry _ Hco _ _ He0) as Hok.
    assert (oe_upper e0 = oe_upper e) as Hu by (by injection Heq).
    apply (entry_same (ds_ls s0)).
    { intros i r Hr. cbn. rewrite node_aside; [done|by eapply aside_prefix]. }
    destruct Hok as [Hpos Hup Hneg]. split.
    + rewrite <-Heq, (positive_dentry e0 e) by done. done.
    + rewrite <-Hu, (positive_dentry e0 e) by done. done.
    + rewrite (positive_dentry e0 e) by done. intros H. specialize (Hneg H) as [? Hop]. split; [done|]. intros Hn.
      eapply (up_opaque _ _ _ Hs); [done..|]. by apply Hop.
Qed.

(** What is shown aside does not change; at [p] and below it is the new subtree. *)
Lemma drop_shown q :
  sealed (graft p A (upper_tree s0)) (below_at s0) p →
  shown_at s q = if Os.below p q then nonwhite (A !! drop (length p) q) else shown_at s0 q.
Proof.
  intros Hse. rewrite (upto_shown _ s0 s) by (done || exact grafted_wf). rewrite over_graft by (done || by apply below_closed).
  by rewrite (shown_over s0).
Qed.
End Drop.

(** A dentry comes in. *)
Lemma add_coherent s p e :
  coherent s → p ≠ [] → ds_dentries s !! p = None → entry_ok (ds_ls s) p e →
  (∃ d, ds_dentries s !! parent_dir p = Some d ∧ oe_positive d = true ∧ oe_is_dir s d = true) →
  coherent (ds_set_dentries (<[p := e]> (ds_dentries s)) s).
Proof.
  intros Hco Hp Hn He (d&Hd&Hdp&Hdd). destruct Hco as [? ? ? ? ? ? ? ? ? ? Hpar Hent]. split; try done; cbn.
  - by rewrite lookup_insert_ne.
  - intros q c Hq. destruct (decide (p = q ++ [c])) as [->|Hne].
    + rewrite parent_dir_snoc in Hd. exists d. rewrite lookup_insert_ne; [done|]. intros Heq. rewrite Heq in Hn. congruence.
    + rewrite lookup_insert_ne in Hq by done. destruct (Hpar q c Hq) as (d'&Hd'&?&?). exists d'.
      rewrite lookup_insert_ne; [done|]. intros ->. congruence.
  - intros q e'. destruct (decide (p = q)) as [->|Hne]; [rewrite lookup_insert_eq; by intros [= ->]|]. rewrite lookup_insert_ne by done. auto.
Qed.
