(* ===== verification/OvlDirCopy.v ===== *)
(** * Copying up while directories are changed

    What [OvlProps] shows of copying up, for the layers and the cache of dentries:
    the invariant is kept, and every path shows the same file. *)

From S2P Require Import Prelude FileSys OvlOpts OvlMount OvlCopyUp OvlProps OvlLookup OvlReaddir OvlDir OvlMountProps OvlReaddirProps OvlLookupProps OvlUnion OvlView OvlDirInv.

(** ** The view copying up has *)

Lemma is_dir_at_spec m p : is_dir_at m p ↔ dir_at m p = true.
Proof.
  unfold is_dir_at, dir_at. split; [intros (i&->&Ht); by rewrite Ht|]. destruct (m !! p) as [i|]; [|done]. intros H. exists i. split; [done|].
  by destruct (ri_type i).
Qed.

Section Os.
Context (s : DS) (Hco : coherent s).

Lemma negative_lowers e : oe_positive e = false → oe_upper e = None ∧ oe_lowers e = [].
Proof.
  unfold oe_positive. intros [Hu Hl]%orb_false_iff. apply bool_decide_eq_false in Hu. apply negb_false_iff, bool_decide_eq_true in Hl.
  split; [by destruct (oe_upper e); [destruct Hu|]|done].
Qed.

(** An entry that can be copied is a directory below one in the upper layer, or shown
    from below. *)
Lemma source_spec p lo : os_lower (os_of s) !! p = Some lo →
  ∃ e i rest, ds_dentries s !! p = Some e ∧ oe_positive e = true ∧ oe_lowers e = at_path p (i :: rest) ∧ node (ds_ls s) i p = Some lo ∧
    match upper_tree s !! p with
    | None => union (ds_ls s) p = i :: rest ∧ shown_at s p = Some lo
    | Some _ => dir_at (upper_tree s) p = true ∧ union (ds_ls s) p = 0 :: i :: rest
    end.
Proof.
  cbn. rewrite map_lookup_imap. destruct (ds_dentries s !! p) as [e|] eqn:He; [|done]. cbn. unfold copy_source.
  destruct (oe_positive e) eqn:Hp.
  2:{ destruct (negative_lowers _ Hp) as [_ Hl]. unfold first_lower. rewrite Hl. by destruct (_ || _). }
  pose proof (eo_positive _ _ _ (co_entry _ Hco _ _ He) Hp) as Hst. pose proof (upper_positive _ Hco _ _ He Hp) as Hup.
  destruct (bool_decide (oe_upper e = None) || dir_at (upper_tree s) p) eqn:Hc; [|done]. intros Hlo.
  unfold first_lower in Hlo. destruct (oe_lowers e) as [|[i q] l] eqn:Hl; [done|].
  unfold stands in Hst. cbn in Hst. rewrite Hup in Hst, Hc. destruct (upper_tree s !! p) as [n|] eqn:Hn.
  - cbn in Hc. rewrite dir_at_lookup in Hc. destruct Hst as [_ (rest&Hu&Hd)]. specialize (Hd Hc). rewrite Hl in Hd.
    destruct rest as [|j rest]; [done|]. cbn in Hd. injection Hd as -> -> ->. exists e, j, rest. split_and!; try done. by rewrite dir_at_lookup.
  - destruct Hst as [_ Hd]. rewrite Hl in Hd. destruct (union (ds_ls s) p) as [|j rest] eqn:Hu; [done|]. cbn in Hd. injection Hd as -> -> ->.
    exists e, j, rest. split_and!; try done. unfold shown_at, view. by rewrite Hu.
Qed.
Lemma source_dir p e lo i : ds_dentries s !! p = Some e → oe_positive e = true → oe_is_dir s e = true → S i ∈ union (ds_ls s) p →
  node (ds_ls s) (S i) p = Some lo → is_dir_at (os_lower (os_of s)) p.
Proof.
  intros He Hp Hd Hin Hlo. pose proof (eo_positive _ _ _ (co_entry _ Hco _ _ He) Hp) as Hst. pose proof (upper_positive _ Hco _ _ He Hp) as Hup.
  unfold oe_is_dir, real_node in Hd. rewrite Hup in Hd. unfold stands in Hst. cbn in Hst. rewrite Hup in Hst.
  unfold is_dir_at. cbn. rewrite map_lookup_imap, He. cbn. unfold copy_source, dir_at. rewrite Hup.
  destruct (upper_tree s !! p) as [n|] eqn:Hn; cbn.
  - cbn in Hd. rewrite Hn in Hd. rewrite Hd. destruct Hst as [_ (rest&Hu&Hl)]. rewrite Hu in Hin.
    apply elem_of_cons in Hin as [?|Hin]; [done|].
    assert (can_lookup (ds_ls s) 0 p = true) as Hc by (unfold can_lookup; by rewrite <-upper_node, Hn). specialize (Hl Hc).
    destruct rest as [|j rest]; [by apply not_elem_of_nil in Hin|]. unfold first_lower. rewrite Hl. cbn.
    assert (j ∈ union (ds_ls s) p) as Hj by (rewrite Hu; right; left). apply union_elem in Hj as [Hjs Hjd].
    destruct Hjd as [Hjd|Hfirst].
    + unfold can_lookup in Hjd. destruct (node (ds_ls s) j p) as [m|]; [|done]. exists m. split; [done|]. by destruct (ri_type m).
    + exfalso. destruct j as [|j].
      * pose proof (union_sorted (ds_ls s) p) as Hs. rewrite Hu in Hs. inversion Hs as [|?? _ Hlt]; subst. rewrite Forall_forall in Hlt.
        specialize (Hlt 0 ltac:(left)). lia.
      * assert (seen (ds_ls s) p 0 = true) as H0; [|rewrite Hfirst in H0; [done|lia]]. apply seen_true. split; [by apply dir_shows|lia].
  - destruct (first_lower (ds_ls s) e) as [m|]; [|done]. exists m. split; [done|]. by destruct (ri_type m).
Qed.

Lemma os_wf : wf_os (os_of s).
Proof.
  pose proof (upper_wf _ Hco) as Hu. split; cbn.
  - apply is_dir_at_spec, Hu.
  - intros p. apply elem_of_dom.
  - intros p i Hi Hp. apply is_dir_at_spec. destruct p as [|c p _] using rev_ind; [done|]. rewrite parent_dir_snoc.
    apply (tw_parent _ Hu p c). by exists i.
  - intros p lo Hlo Hp. destruct (source_spec _ _ Hlo) as (e&i&rest&He&Hpos&Hl&Hn&Hm). destruct p as [|c p _] using rev_ind; [done|].
    rewrite parent_dir_snoc. destruct (co_parent _ Hco p c) as (d&Hd&Hdp&Hdd); [by exists e|].
    assert (∃ j, i = S j ∧ i ∈ union (ds_ls s) (p ++ [c])) as (j&->&Hin).
    { destruct (upper_tree s !! (p ++ [c])) as [n|] eqn:Hn0.
      - destruct Hm as [_ Hm]. pose proof (union_sorted (ds_ls s) (p ++ [c])) as Hs. rewrite Hm in Hs.
        inversion Hs as [|?? _ Hlt]; subst. rewrite Forall_forall in Hlt. specialize (Hlt i ltac:(left)).
        exists (i - 1). split; [lia|]. rewrite Hm. right. left.
      - destruct Hm as [Hm _]. exists (i - 1). split; [|rewrite Hm; left]. destruct i as [|i]; [|lia].
        rewrite upper_node in Hn0. congruence. }
    assert (is_Some (node (ds_ls s) (S j) p)) as [m Hm'].
    { assert (can_lookup (ds_ls s) (S j) p = true) as Hc by (apply (lw_parent _ (co_wf _ Hco) _ p c); by rewrite Hn).
      unfold can_lookup in Hc. by destruct (node (ds_ls s) (S j) p). }
    eapply source_dir; [done..| |exact Hm']. apply (union_parent _ (co_wf _ Hco) _ c). exact Hin.
  - intros p (lo&Hlo&Ht) [n Hn]. destruct (source_spec _ _ Hlo) as (e&i&rest&_&_&_&_&Hm). rewrite Hn in Hm. apply is_dir_at_spec, Hm.
  - apply Hco.
  - apply Hco.
  - apply Hco.
  - apply Hco.
Qed.
End Os.

(** ** What becomes of the state *)

(** Lower entries that are left as they are. *)
Lemma put_source_same (s : DS) (o : OS) p l : (∀ q, os_lower o !! q = os_lower (os_of s) !! q) → p ∈ dom (os_lower (os_of s)) → l = ls_layers (ds_ls s) →
  put_source o s p l = l.
Proof.
  intros Hlow Hp ->. unfold put_source. apply elem_of_dom in Hp as [n Hn]. rewrite (Hlow p), Hn. cbn in Hn. rewrite map_lookup_imap in Hn.
  destruct (ds_dentries s !! p) as [e|]; [|done]. cbn in Hn |- *. unfold copy_source in Hn. destruct (_ || _); [|done]. unfold first_lower in Hn.
  destruct (oe_lowers e) as [|[i q] ?]; [done|]. cbn. unfold node in Hn. apply list_eq. intros j. destruct (decide (j = i)) as [->|Hne].
  - rewrite list_lookup_alter_eq. destruct (ls_layers (ds_ls s) !! i) as [t|]; [|done]. cbn in Hn |- *. f_equal.
    apply map_eq. intros r. destruct (decide (r = q)) as [->|Hr]; [by rewrite lookup_partial_alter_eq|by rewrite lookup_partial_alter_ne].
  - by rewrite list_lookup_alter_ne.
Qed.
Lemma put_sources_same (s : DS) (o : OS) : os_lower o = os_lower (os_of s) → put_sources o s = ls_layers (ds_ls s).
Proof.
  intros Hlow. unfold put_sources. assert (∀ l, (∀ p, p ∈ l → p ∈ dom (os_lower (os_of s))) → foldr (put_source o s) (ls_layers (ds_ls s)) l = ls_layers (ds_ls s)) as H.
  { induction l as [|p l IH]; intros Hl; [done|]. cbn. rewrite IH by (intros q Hq; apply Hl; by right). apply put_source_same; [by rewrite Hlow|apply Hl; by left|done]. }
  apply H. intros p. by rewrite elem_of_elements.
Qed.

Section Grown.
Context (sec : string → Z).
Context (s : DS) (p : path) (o : OS) (Hco : coherent s) (Hwf : wf_os o) (Hg : grown sec p 0 (os_of s) o).

Lemma put_layers : ls_layers (ds_ls (put_os o s)) = os_upper o :: tail (ls_layers (ds_ls s)).
Proof. cbn [put_os ds_ls ls_layers]. rewrite (put_sources_same s o) by apply Hg. by rewrite (upper_layers _ (co_some _ Hco)) at 1. Qed.
Lemma put_upper : upper_tree (put_os o s) = os_upper o.
Proof. unfold layer_tree. by rewrite put_layers. Qed.
Lemma put_top q : node (ds_ls (put_os o s)) 0 q = os_upper o !! q.
Proof. by rewrite <-upper_node, put_upper. Qed.
Lemma put_lower i q : node (ds_ls (put_os o s)) (S i) q = node (ds_ls s) (S i) q.
Proof. unfold node. rewrite put_layers. cbn. by destruct (ls_layers (ds_ls s)). Qed.
Lemma put_tree_wf : tree_wf (os_upper o).
Proof.
  split; [apply is_dir_at_spec, Hwf|]. intros q c [n Hn]. apply is_dir_at_spec. rewrite <-(parent_dir_snoc q c).
  eapply (wo_up _ Hwf); [exact Hn|]. by destruct q.
Qed.
Lemma put_wf : layers_wf (ds_ls (put_os o s)).
Proof.
  destruct (co_wf _ Hco) as [Hp Hr]. split.
  - intros [|i] q c; unfold can_lookup.
    + rewrite (put_top (q ++ [c])), (put_top q). apply put_tree_wf.
    + rewrite (put_lower i (q ++ [c])), (put_lower i q). apply Hp.
  - intros [|i]; unfold can_lookup.
    + rewrite put_top. intros _. apply put_tree_wf.
    + rewrite put_lower, put_layers. cbn. intros Hi. apply Hr. destruct (ls_layers (ds_ls s)); cbn in *; lia.
Qed.
Lemma put_raised : raised sec (ds_ls s) (ds_ls (put_os o s)).
Proof.
  split.
  - rewrite put_layers. by rewrite (upper_layers s (co_some _ Hco)).
  - apply put_lower.
  - intros q i Hi. rewrite put_top. apply (gr_old _ _ _ _ _ Hg). by rewrite <-upper_node in Hi.
  - intros q j Hj Hn. rewrite put_top in Hj. rewrite <-upper_node in Hn. destruct (gr_new _ _ _ _ _ Hg q j Hj Hn) as (_&lo&Hlo&Hc).
    exists lo. split; [|done]. destruct (source_spec _ Hco _ _ Hlo) as (e&i&rest&_&_&_&_&Hm). rewrite Hn in Hm. apply Hm.
  - exact put_wf.
Qed.
Lemma put_dentry q : ds_dentries (put_os o s) !! q = copied_up s o q <$> ds_dentries s !! q.
Proof. cbn. rewrite map_lookup_imap. by destruct (ds_dentries s !! q). Qed.
Lemma put_shown q : option_Forall2 (same_file sec) (shown_at s q) (shown_at (put_os o s) q).
Proof. apply view_raised; [apply Hco|exact put_raised]. Qed.

(** A dentry that got an upper entry, and one that did not. *)
Lemma put_cases q e : ds_dentries s !! q = Some e →
  (new_copy (ds_ls s) (ds_ls (put_os o s)) q ∧ oe_positive e = true ∧ oe_upper e = None ∧
   copied_up s o q e = mkOentry (Some q) (oe_lowers e) (oe_opaque e) true (oe_redirect e)) ∨
  (¬ new_copy (ds_ls s) (ds_ls (put_os o s)) q ∧ copied_up s o q e = e).
Proof.
  intros He. unfold new_copy, copied_up. rewrite put_top, upper_node. destruct (node (ds_ls s) 0 q) as [n|] eqn:Hn; [right; by split; [intros []|]|].
  destruct (os_upper o !! q) as [j|] eqn:Hj; [left|right; by split; [intros [_ []]|]]. split; [done|].
  assert (is_Some (shown_at s q)) as Hs.
  { destruct (ra_new _ _ _ put_raised q j) as (lo&Hlo&_); [by rewrite put_top|done|]. unfold shown_at. by rewrite Hlo. }
  pose proof (positive_shown _ Hco _ _ He) as Hp. rewrite bool_decide_eq_true_2 in Hp by done. split_and!; [done| |done].
  rewrite (upper_positive _ Hco _ _ He Hp), upper_node. by rewrite Hn.
Qed.
Lemma put_entry q e : ds_dentries s !! q = Some e → entry_ok (ds_ls (put_os o s)) q (copied_up s o q e).
Proof.
  intros He. pose proof (co_entry _ Hco _ _ He) as [Hpos Hup Hneg]. pose proof (union_raised sec _ _ (co_wf _ Hco) put_raised q) as Hu.
  destruct (put_cases _ _ He) as [(Hnew&Hp&Hn&->)|[Hnew ->]]; unfold raised_union in Hu.
  - rewrite decide_True in Hu by done. specialize (Hpos Hp). unfold stands in Hpos. cbn in Hpos. rewrite Hn in Hpos. split; [|done|done].
    intros _. unfold stands. cbn [de_upper de_lowers oe_dentry oe_upper oe_lowers]. split; [done|]. eexists. split; [exact Hu|].
    intros ->. apply Hpos.
  - rewrite decide_False in Hu by done. pose proof (old_shape sec _ _ put_raised q Hnew) as Hsh. split.
    + intros H. specialize (Hpos H). unfold stands in *. rewrite Hu. destruct (de_upper _); [|done].
      by rewrite (lookup_shape (ds_ls s)).
    + intros Hn H. specialize (Hup Hn H). destruct (shape_cases _ _ Hsh) as [[-> _]|(n&m&_&?&_)]; [done|congruence].
    + intros H. specialize (Hneg H) as [? Hop]. split; [congruence|]. intros Hs. apply Hop.
      destruct (shape_cases _ _ Hsh) as [[Hx _]|(n&m&_&->&_)]; [rewrite Hx in Hs; by destruct Hs|done].
Qed.
Lemma copied_positive q e : ds_dentries s !! q = Some e → oe_positive (copied_up s o q e) = oe_positive e.
Proof. intros He. by destruct (put_cases _ _ He) as [(_&->&_&->)|[_ ->]]. Qed.
Lemma put_redirect : no_redirect (ds_ls (put_os o s)).
Proof.
  intros [|i] q n Hn; [|rewrite put_lower in Hn; by eapply (co_redirect _ Hco)]. destruct (node (ds_ls s) 0 q) as [m|] eqn:Hm.
  - destruct (ra_old _ _ _ put_raised _ _ Hm) as (j&Hj&(_&_&_&_&_&Hx)). simplify_eq. rewrite Hx by done. by eapply (co_redirect _ Hco).
  - destruct (ra_new _ _ _ put_raised _ _ Hn Hm) as (lo&_&(_&_&_&_&_&Hx)). by apply Hx.
Qed.

Lemma put_names i q c : is_Some (node (ds_ls (put_os o s)) i (q ++ [c])) → dot_free c.
Proof.
  destruct i as [|i]; [|rewrite put_lower; apply Hco]. intros [n Hn]. destruct (node (ds_ls s) 0 (q ++ [c])) as [m|] eqn:Hm.
  - apply (co_names _ Hco 0 q). by rewrite Hm.
  - destruct (ra_new _ _ _ put_raised _ _ Hn Hm) as (lo&(j&Hj&_)%view_first&_). apply (co_names _ Hco j q). by rewrite Hj.
Qed.

Lemma put_coherent : coherent (put_os o s).
Proof.
  split.
  - exact put_wf.
  - rewrite put_layers. cbn. lia.
  - exact put_redirect.
  - exact put_names.
  - apply Hco.
  - apply Hco.
  - apply Hco.
  - apply Hco.
  - apply Hco.
  - rewrite put_dentry. destruct (co_root _ Hco) as [e ->]. done.
  - intros q c. rewrite !put_dentry. intros [e [e0 [He0 _]]%fmap_Some]. destruct (co_parent _ Hco q c) as (d&Hd&Hp&Hdir); [by exists e0|].
    exists (copied_up s o q d). rewrite Hd. split; [done|]. rewrite copied_positive by done. split; [done|].
    assert (entry_ok (ds_ls (put_os o s)) q (copied_up s o q d)) as Hok by (by apply put_entry).
    unfold oe_is_dir. rewrite (entry_real _ q) by (done || by rewrite copied_positive).
    unfold oe_is_dir in Hdir. rewrite (real_shown _ Hco _ _ Hd Hp) in Hdir. destruct (put_shown q) as [n m Hnm|]; [|done]. by destruct Hnm as (->&_).
  - intros q e. rewrite put_dentry. intros (e0&He0&->)%fmap_Some. by apply put_entry.
Qed.
End Grown.

(** ** Operations that copy up *)

Section Keep.
Context (sec : string → Z).

Definition same_view (s s' : DS) : Prop := ∀ q, option_Forall2 (same_file sec) (shown_at s q) (shown_at s' q).
Lemma same_file_refl i : same_file sec i i.
Proof. apply kept_up_same, kept_up_refl. Qed.
Lemma same_opt_refl o : option_Forall2 (same_file sec) o o.
Proof. destruct o; constructor. apply same_file_refl. Qed.
Lemma same_opt_trans o1 o2 o3 : option_Forall2 (same_file sec) o1 o2 → option_Forall2 (same_file sec) o2 o3 → option_Forall2 (same_file sec) o1 o3.
Proof. intros [i j H|] H'; inversion H'; subst; constructor. by eapply same_file_trans. Qed.
Lemma seen_same_refl s : same_view s s.
Proof. intros q. apply same_opt_refl. Qed.
Lemma seen_same_trans s1 s2 s3 : same_view s1 s2 → same_view s2 s3 → same_view s1 s3.
Proof. intros H1 H2 q. by eapply same_opt_trans. Qed.

(** The overlay is the same, but for copies in the upper layer. *)
Record kept_dir (s0 s : DS) : Prop := {
  kd_coherent : coherent s;
  kd_view : same_view s0 s;
  kd_below : ∀ q, below_at s q = below_at s0 q;
  kd_upper : ∀ q i, upper_tree s0 !! q = Some i → ∃ j, upper_tree s !! q = Some j ∧ shape j = shape i;
  kd_dentry : ∀ q e0, ds_dentries s0 !! q = Some e0 →
    ∃ e, ds_dentries s !! q = Some e ∧ oe_positive e = oe_positive e0 ∧ (oe_positive e0 = false → e = e0) ∧
      oe_lowers e = oe_lowers e0 ∧ oe_opaque e = oe_opaque e0;
}.
Lemma kept_dir_refl s : coherent s → kept_dir s s.
Proof. intros Hco. split; [done|apply seen_same_refl|done|eauto|]. intros q e He. by exists e. Qed.
Lemma kept_dir_trans s1 s2 s3 : kept_dir s1 s2 → kept_dir s2 s3 → kept_dir s1 s3.
Proof.
  intros [_ Hv Hb Hu Hd] [Hco Hv' Hb' Hu' Hd']. split; [done|by eapply seen_same_trans|intros q; by rewrite Hb', Hb| |].
  - intros q i Hi. destruct (Hu q i Hi) as (j&Hj&Hs). destruct (Hu' q j Hj) as (k&Hk&Hs'). exists k. split; [done|congruence].
  - intros q e0 He0. destruct (Hd q e0 He0) as (e&He&Hp&Hn&?&?). destruct (Hd' q e He) as (e'&He'&Hp'&Hn'&?&?). exists e'.
    split_and!; [done|congruence| |congruence|congruence]. intros Hneg. rewrite Hn', Hn; [done|done|congruence].
Qed.
Lemma put_kept s p o : coherent s → wf_os o → grown sec p 0 (os_of s) o → kept_dir s (put_os o s).
Proof.
  intros Hco Hwf Hg. pose proof (put_raised sec s p o Hco Hwf Hg) as Hr. split.
  - by eapply put_coherent.
  - intros q. by eapply put_shown.
  - intros q. unfold below_at, view. assert (∀ i r, node (lower_of (ds_ls (put_os o s))) i r = node (lower_of (ds_ls s)) i r) as Hn.
    { intros i r. rewrite !node_tail. apply (ra_lower _ _ _ Hr). }
    rewrite (union_shape (lower_of (ds_ls s))) by (intros; by rewrite Hn). destruct (union _ q); [done|apply Hn].
  - intros q i Hi. rewrite upper_node in Hi. destruct (ra_old _ _ _ Hr _ _ Hi) as (j&Hj&Hk). rewrite upper_node. exists j. split; [done|by apply kept_shape].
  - intros q e0 He0. rewrite put_dentry, He0. eexists. split; [done|]. split; [by eapply copied_positive|].
    destruct (put_cases sec s p o Hco Hwf Hg _ _ He0) as [(_&Hp'&_&->)|[_ ->]]; [|done]. split_and!; [congruence|done|done].
Qed.

(** [m] leaves the layers as [OvlProps] says. *)
Definition os_safe {A} (m : M OS A) (φ : A → OS → Prop) (o : OS) : Prop :=
  match m o with
  | (Ok a, o') => wf_os o' ∧ (∃ p, grown sec p 0 o o') ∧ φ a o'
  | (Err _, o') => wf_os o' ∧ ∃ p, grown sec p 0 o o'
  | (Panic _, _) => False
  end.
Lemma on_os_kept {A} s0 (m : M OS A) (φ : A → OS → Prop) (P : DS → Prop) :
  (∀ s, P s → kept_dir s0 s) → (∀ s, P s → os_safe m φ (os_of s)) →
  triple P (on_os m) (λ a s', ∃ s, P s ∧ kept_dir s s' ∧ ∃ o, φ a o ∧ upper_tree s' = os_upper o) (λ _, kept_dir s0).
Proof.
  intros HP Hm s Hs. specialize (Hm s Hs). pose proof (HP s Hs) as Hk. pose proof (kd_coherent _ _ Hk) as Hco.
  unfold on_os, os_safe in *. destruct (m (os_of s)) as [[a|e|x] o]; [| |done].
  - destruct Hm as (Hwf&[p Hg]&Hφ). exists s. split; [done|]. split; [by eapply put_kept|]. exists o. split; [done|]. by eapply put_upper.
  - destruct Hm as (Hwf&[p Hg]). eapply kept_dir_trans; [done|]. by eapply put_kept.
Qed.
Lemma quiet_safe {A} veto (m : M OS A) (φ : A → Prop) o : OvlProps.quiet veto m φ → wf_os o → os_safe m (λ a _, φ a) o.
Proof.
  intros Hq Hwf. specialize (Hq o (wo_xattr _ Hwf)). unfold os_safe. assert (reached sec [] 0 o o) as Hr by (split; [done|apply grown_refl]).
  destruct (m o) as [[a|e|x] o']; [| |done]; destruct Hq as [Hc ?]; pose proof (reached_consumed _ _ _ _ _ _ Hr Hc) as [? ?]; eauto.
Qed.

Section Ops.
Context (encode_fh : path → string) (copy_up_indexed : path → path → Z → M OS ()).

Lemma want_write_safe o : wf_os o → os_safe ovl_want_write (λ _ _, True) o.
Proof.
  intros Hwf. unfold os_safe, ovl_want_write, mbind, M_bind, get. cbn. destruct (wo_mnt _ Hwf) as [u Hu]. rewrite Hu.
  pose proof (quiet_safe False vfs_call (λ _, True) o (quiet_vfs_call _) Hwf) as H. unfold os_safe in H.
  destruct (vfs_call o) as [[[]|e|x] o']; done.
Qed.
Lemma want_write_kept s0 : triple (kept_dir s0) want_write (λ _, kept_dir s0) (λ _, kept_dir s0).
Proof.
  eapply triple_conseq; [apply (on_os_kept s0 ovl_want_write (λ _ _, True) (kept_dir s0)); [done|]|done| |done].
  - intros s Hs. apply want_write_safe, os_wf, Hs.
  - intros [] s' (s&Hs&Hk&_). by eapply kept_dir_trans.
Qed.
Lemma copy_up_safe o p : wf_os o → is_Some (ovl_dentry_real o p) →
  os_safe (ovl_copy_up sec encode_fh copy_up_indexed p) (λ _ o', is_Some (os_upper o' !! p)) o.
Proof.
  intros Hwf Hr. pose proof (copy_up_flags_ok sec encode_fh copy_up_indexed p 0 o Hr o (reached_refl _ _ _ _ Hwf)) as H. unfold os_safe, ovl_copy_up.
  destruct (ovl_copy_up_flags _ _ _ p 0 o) as [[[]|e|x] o']; [| |done].
  - destruct H as [[] ?]. eauto.
  - destruct H as [[] ?]. eauto.
Qed.
Lemma dentry_real s p e : coherent s → ds_dentries s !! p = Some e → oe_positive e = true → is_Some (ovl_dentry_real (os_of s) p).
Proof.
  intros Hco He Hp. unfold ovl_dentry_real, ovl_dentry_upper, ovl_dentry_lower. cbn. destruct (upper_tree s !! p) as [n|] eqn:Hn; [done|].
  rewrite map_lookup_imap, He. cbn. pose proof (upper_positive _ Hco _ _ He Hp) as Hu. rewrite Hn in Hu. unfold copy_source. rewrite Hu.
  cbn [bool_decide orb]. rewrite bool_decide_eq_true_2 by done. cbn [orb].
  pose proof (real_shown _ Hco _ _ He Hp) as Hr. unfold real_node in Hr. rewrite Hu in Hr. rewrite Hr.
  pose proof (positive_shown _ Hco _ _ He) as Hs. rewrite Hp in Hs. symmetry in Hs. by apply bool_decide_eq_true in Hs.
Qed.
Lemma copy_up_kept s0 p e0 : ds_dentries s0 !! p = Some e0 → oe_positive e0 = true →
  triple (kept_dir s0) (copy_up sec encode_fh copy_up_indexed p) (λ _ s, kept_dir s0 s ∧ is_Some (upper_tree s !! p)) (λ _, kept_dir s0).
Proof.
  intros He0 Hp0. unfold copy_up. eapply triple_conseq; [apply (on_os_kept s0 _ (λ _ o', is_Some (os_upper o' !! p)) (kept_dir s0)); [done|]|done| |done].
  - intros s Hs. destruct (kd_dentry _ _ Hs _ _ He0) as (e&He&Hp&_). apply copy_up_safe; [apply os_wf, Hs|].
    eapply dentry_real; [apply Hs|done|congruence].
  - intros [] s' (s&Hs&Hk&o&Ho&Hu). split; [by eapply kept_dir_trans|]. by rewrite Hu.
Qed.
End Ops.
End Keep.
