(* ===== verification/OvlDirOps.v ===== *)
(** * The steps of changing a directory

    What the calls into the upper file system and the helpers around temporary
    entries do to the upper layer and to the work directory, whichever of them
    fails.

    Whiteouts, empty directories and new entries: The operations of [dir.c] that put something prepared in the work directory in
    its place: whichever call fails, the upper layer is as before, or has the new
    subtree where it belongs. *)

From S2P Require Import Prelude FileSys OvlOpts OvlMount OvlCopyUp OvlProps OvlLookup OvlReaddir OvlDir OvlMountProps OvlReaddirProps OvlLookupProps OvlUnion OvlView OvlDirInv OvlDirCopy.

(** ** Calls *)

(** The precondition made weaker, and a fact it has, used. *)
Lemma triple_pre {St A} (P P' : St → Prop) (m : M St A) Q E : triple P' m Q E → (∀ s, P s → P' s) → triple P m Q E.
Proof. intros Hm HP s Hs. by apply Hm, HP. Qed.
Lemma triple_pull {St A} (φ : Prop) (P : St → Prop) (m : M St A) Q E : (∀ s, P s → φ) → (φ → triple P m Q E) → triple P m Q E.
Proof. intros Hφ Hm s Hs. apply (Hm (Hφ s Hs) s Hs). Qed.

Definition with_faults (f : list fault) (s : DS) : DS := ds_set_ls (ls_set_faults f (ds_ls s)) s.
Lemma triple_real {A} (P : DS → Prop) (f : DS → outcome A * DS) Q (E : error → DS → Prop) :
  (∀ s fs, P s → P (with_faults fs s)) → (∀ e s, P s → E e s) →
  (∀ s, P s → match f s with (Ok a, s') => Q a s' | (Err e, s') => E e s' | (Panic _, _) => False end) →
  triple P (real f) Q E.
Proof.
  intros Hf HE Hok s Hs. unfold real. destruct (ls_faults (ds_ls s)) as [|[|n] fs].
  - by apply Hok.
  - apply (Hok (with_faults fs s)). by apply Hf.
  - apply HE, (Hf _ fs Hs).
Qed.

Lemma upto_faults u s0 s fs : upto u s0 s → upto u s0 (with_faults fs s).
Proof. by intros []. Qed.
#[export] Hint Resolve upto_faults : core.

Lemma strip_single_none (u : gmap path rinode) p r n : Os.strip p u = {[ [] := n ]} → r ≠ [] → u !! (p ++ r) = None.
Proof. intros Hs Hr. rewrite <-lookup_strip, Hs. by apply lookup_singleton_ne. Qed.
Lemma strip_root (u : gmap path rinode) p n : Os.strip p u = {[ [] := n ]} → u !! p = Some n.
Proof. intros Hs. rewrite <-(app_nil_r p) at 1. by rewrite <-lookup_strip, Hs, lookup_singleton_eq. Qed.

(** Changes of a tree, as replacing a subtree. *)
Lemma insert_graft u p n : tree_wf u → u !! p = None → <[p := n]> u = graft p {[ [] := n ]} u.
Proof.
  intros Hu Hn. apply map_eq. intros q. rewrite lookup_graft. destruct (below_cases p q) as [(t&->&->)|[Hb ->]].
  - rewrite drop_app_length. destruct (decide (t = [])) as [->|Ht].
    + by rewrite app_nil_r, lookup_insert_eq, lookup_singleton_eq.
    + rewrite lookup_singleton_ne, lookup_insert_ne; [by apply tree_none| |done]. intros Heq%(f_equal length). rewrite length_app in Heq.
      by destruct t; [|cbn in Heq; lia].
  - rewrite lookup_insert_ne; [done|]. intros ->. by destruct Hb.
Qed.
Lemma delete_graft (u : gmap path rinode) p : (∀ r, r ≠ [] → u !! (p ++ r) = None) → delete p u = graft p ∅ u.
Proof.
  intros Hn. apply map_eq. intros q. rewrite lookup_graft, lookup_empty. destruct (below_cases p q) as [(t&->&->)|[Hb ->]].
  - destruct (decide (t = [])) as [->|Ht]; [by rewrite app_nil_r, lookup_delete_eq|]. rewrite lookup_delete_ne; [by apply Hn|].
    intros Heq%(f_equal length). rewrite length_app in Heq. by destruct t; [|cbn in Heq; lia].
  - rewrite lookup_delete_ne; [done|]. intros ->. by destruct Hb.
Qed.
Lemma no_children_spec u p : no_children u p = true → ∀ r, r ≠ [] → u !! (p ++ r) = None.
Proof.
  unfold no_children. rewrite forallb_forall. intros H r Hr. destruct (u !! (p ++ r)) as [n|] eqn:Hn; [|done]. exfalso.
  specialize (H (p ++ r, n)). cbn in H. assert (bool_decide (p ++ r = p) || negb (bool_decide (p `prefix_of` p ++ r)) = true) as H'.
  { apply H, list_elem_of_In. by apply elem_of_map_to_list. }
  apply orb_true_iff in H' as [H'%bool_decide_eq_true|H'%negb_true_iff%bool_decide_eq_false].
  - apply (f_equal length) in H'. rewrite length_app in H'. destruct r; [done|cbn in H'; lia].
  - destruct H'. by exists r.
Qed.
Lemma alter_strip (u : gmap path rinode) p f n : Os.strip p u = {[ [] := n ]} → Os.strip p (alter f p u) = {[ [] := f n ]}.
Proof.
  intros Hs. apply map_eq. intros q. rewrite lookup_strip. destruct (decide (q = [])) as [->|Hq].
  - rewrite app_nil_r, lookup_alter_eq, (strip_root _ _ _ Hs), lookup_singleton_eq. done.
  - rewrite lookup_singleton_ne by done. rewrite lookup_alter_ne; [by eapply strip_single_none|].
    intros Heq%(f_equal length). rewrite length_app in Heq. by destruct q; [|cbn in Heq; lia].
Qed.
Lemma alter_tree_wf (u : gmap path rinode) p f : (∀ n, is_dir_type (ri_type (f n)) = is_dir_type (ri_type n)) → tree_wf u → tree_wf (alter f p u).
Proof.
  intros Hf [Hr Hp]. assert (∀ q, dir_at (alter f p u) q = dir_at u q) as Hd.
  { intros q. unfold dir_at. destruct (decide (p = q)) as [->|]; [rewrite lookup_alter_eq|by rewrite lookup_alter_ne].
    destruct (u !! q); [apply Hf|done]. }
  split; [by rewrite Hd|]. intros q c Hq. rewrite Hd. apply (Hp q c). by apply alter_is_Some in Hq.
Qed.
Lemma strip_graft {V} (u : gmap path V) p A : Os.strip p (graft p A u) = A.
Proof. apply map_eq. intros q. by rewrite lookup_strip, lookup_graft, below_app, drop_app_length. Qed.
Lemma strip_sub u p : tree_wf u → ∀ q c, is_Some (Os.strip p u !! (q ++ [c])) → dir_at (Os.strip p u) q = true.
Proof. intros Hu q c. rewrite lookup_strip, app_assoc, dir_at_strip. apply Hu. Qed.
Lemma single_sub (n : rinode) : ∀ q c, is_Some (({[ [] := n ]} : gmap path rinode) !! (q ++ [c])) → dir_at {[ [] := n ]} q = true.
Proof. intros q c [m [Hm _]%lookup_singleton_Some]. by destruct q. Qed.
Lemma empty_sub : ∀ q c, is_Some ((∅ : gmap path rinode) !! (q ++ [c])) → dir_at ∅ q = true.
Proof. intros q c [m Hm]. by rewrite lookup_empty in Hm. Qed.

(** ** The upper layer *)

Section Upper.
Context (s0 : DS) (u : gmap path rinode) (Hu : tree_wf u).
Abbreviation at_u := (upto u s0).

Lemma set_upper_upto t s : at_u s → upto t s0 (set_tree Upper t s).
Proof. intros Hs. destruct (Hs) as [Hl ????]. split; try done. cbn. by rewrite Hl. Qed.

Lemma call_upto : triple at_u real_call (λ _, at_u) (λ _, at_u).
Proof. apply triple_real; auto. Qed.
Lemma lookup_upto p : triple at_u (real_lookup Upper p) (λ r s, at_u s ∧ r = u !! p) (λ _, at_u).
Proof. apply triple_real; [auto..|]. intros s Hs. split; [done|]. cbn. by rewrite (upto_upper _ _ _ Hs). Qed.
Lemma create_upto p n :
  triple at_u (real_create Upper p n)
    (λ _ s, upto (graft p {[ [] := n ]} u) s0 s ∧ u !! p = None ∧ dir_at u (parent_dir p) = true) (λ _, at_u).
Proof.
  apply triple_real; [auto..|]. intros s Hs. cbn [tree]. rewrite (upto_upper _ _ _ Hs). destruct (u !! p) eqn:Hn; [done|].
  destruct (dir_at u (parent_dir p)) eqn:Hd; [|done]. rewrite <-insert_graft by done. split; [|done]. by apply set_upper_upto.
Qed.
Lemma unlink_upto p :
  triple at_u (real_unlink Upper p)
    (λ _ s, upto (graft p ∅ u) s0 s ∧ ∃ n, u !! p = Some n ∧ is_dir_type (ri_type n) = false) (λ _, at_u).
Proof.
  apply triple_real; [auto..|]. intros s Hs. cbn [tree]. rewrite (upto_upper _ _ _ Hs). destruct (u !! p) as [n|] eqn:Hn; [|done].
  destruct (is_dir_type (ri_type n)) eqn:Hd; [done|]. rewrite delete_graft.
  - split; [by apply set_upper_upto|by exists n].
  - intros r Hr. apply tree_file; [done| |done]. unfold dir_at. by rewrite Hn.
Qed.
Lemma rmdir_upto p :
  triple at_u (real_rmdir Upper p)
    (λ _ s, upto (graft p ∅ u) s0 s ∧ ∀ r, r ≠ [] → u !! (p ++ r) = None) (λ _, at_u).
Proof.
  apply triple_real; [auto..|]. intros s Hs. cbn [tree]. rewrite (upto_upper _ _ _ Hs). destruct (u !! p) as [n|] eqn:Hn; [|done].
  destruct (is_dir_type (ri_type n)); [|done]. cbn [negb]. destruct (no_children u p) eqn:Hc; [|done].
  pose proof (no_children_spec _ _ Hc) as Hnone. rewrite delete_graft by done. split; [by apply set_upper_upto|done].
Qed.

(** ** Temporary entries *)

Definition is_temp (tmp : path) : Prop := ∃ c, tmp = [c].
(** There is nothing but the inode [n] at [tmp]. *)
Definition temp_at (tmp : path) (n : rinode) (s : DS) : Prop :=
  at_u s ∧ is_temp tmp ∧ Os.strip tmp (ds_work s) = {[ [] := n ]}.
Lemma temp_faults tmp n s fs : temp_at tmp n s → temp_at tmp n (with_faults fs s).
Proof. intros (?&?&?). split; [auto|done]. Qed.
Lemma temp_upto tmp n s : temp_at tmp n s → at_u s.
Proof. by intros []. Qed.
#[local] Hint Resolve temp_faults temp_upto : core.

Lemma set_work_upto t s : at_u s → tree_wf t → at_u (set_tree Work t s).
Proof. intros [????] Ht. by split. Qed.
Lemma work_upto s : at_u s → tree_wf (tree Work s).
Proof. by intros []. Qed.

Lemma cleanup_work p E : p ≠ [] → triple at_u (ovl_cleanup Work p) (λ _, at_u) E.
Proof.
  intros Hp. assert (∀ s, at_u s → (∀ r, r ≠ [] → tree Work s !! (p ++ r) = None) → at_u (set_tree Work (delete p (tree Work s)) s)) as Hdel.
  { intros s Hs Hn. rewrite delete_graft by done. apply set_work_upto; [done|]. apply graft_wf; [by apply work_upto|done|apply empty_sub|by left]. }
  unfold ovl_cleanup. apply triple_get. intros s1 Hs1. apply triple_ignore.
  apply (triple_pre _ at_u); [|by intros ? ->].
  destruct (dir_at _ _); apply triple_real; auto; intros s Hs; cbn [tree].
  - destruct (ds_work s !! p) as [n|]; [|done]. destruct (is_dir_type _); [|done]. cbn [negb]. destruct (no_children _ _) eqn:Hc; [|done].
    apply Hdel; [done|]. by apply no_children_spec.
  - destruct (ds_work s !! p) as [n|] eqn:Hn; [|done]. destruct (is_dir_type _) eqn:Hd; [done|]. apply Hdel; [done|].
    intros r Hr. apply tree_file; [by apply work_upto| |done]. unfold dir_at. cbn. by rewrite Hn.
Qed.
Lemma temp_ne tmp : is_temp tmp → tmp ≠ [].
Proof. by intros [c ->]. Qed.

Lemma lookup_temp_ok : triple at_u ovl_lookup_temp (λ tmp s, at_u s ∧ is_temp tmp ∧ ds_work s !! tmp = None) (λ _, at_u).
Proof.
  unfold ovl_lookup_temp. eapply triple_bind; [apply (triple_modify _ _ (λ _, at_u)); by intros s []|]. intros [].
  apply triple_get. intros s1 Hs1. set (tmp := [temp_name (ds_temp_id s1)]).
  apply (triple_pre _ at_u); [|by intros ? ->].
  eapply (triple_bind _ _ _ (λ r s, at_u s ∧ r = ds_work s !! tmp)); [by apply triple_real; auto|]. intros [n|]; [by apply triple_fail; intros s []|].
  apply triple_ret. intros s [Hs Hn]. split_and!; [done|by eexists|done].
Qed.
Lemma create_work tmp n : is_temp tmp →
  triple (λ s, at_u s ∧ ds_work s !! tmp = None) (real_create Work tmp n) (λ _, temp_at tmp n) (λ _, at_u).
Proof.
  intros Ht. apply triple_real; [intros s fs []; split; auto|by intros e s []|]. intros s [Hs Hn]. cbn [tree]. rewrite Hn.
  destruct (dir_at _ _) eqn:Hd; [|done]. rewrite insert_graft by (by apply work_upto || done). split_and!; [|done|].
  - apply set_work_upto; [done|]. apply graft_wf; [by apply work_upto|by apply temp_ne|apply single_sub|by right].
  - cbn. by rewrite strip_graft.
Qed.
Lemma create_temp_node n : triple at_u (tmp ← ovl_lookup_temp; _ ← real_create Work tmp n; mret tmp) (λ tmp, temp_at tmp n) (λ _, at_u).
Proof.
  eapply triple_bind; [apply lookup_temp_ok|]. intros tmp. apply (triple_pull (is_temp tmp)); [by intros s (_&?&_)|]. intros Ht.
  eapply triple_bind; [eapply triple_pre; [by apply create_work|by intros s (?&_&?)]|]. intros []. by apply triple_ret.
Qed.
Lemma create_temp_ok fs_mode a : triple at_u (ovl_create_temp fs_mode a) (λ tmp, temp_at tmp (attr_node fs_mode a)) (λ _, at_u).
Proof. apply create_temp_node. Qed.
Lemma whiteout_ok : triple at_u ovl_whiteout (λ tmp, temp_at tmp whiteout_node) (λ _, at_u).
Proof. apply create_temp_node. Qed.

(** The inode is changed, or replaced by another one of its kind. *)
Lemma alter_temp tmp n f : (∀ n, is_dir_type (ri_type (f n)) = is_dir_type (ri_type n)) →
  triple (temp_at tmp n) (real_alter Work tmp f) (λ _, temp_at tmp (f n)) (λ _, temp_at tmp n).
Proof.
  intros Hf. apply triple_real; [auto..|]. intros s (Hs&Ht&Hn). split_and!; [|done|by apply alter_strip].
  apply set_work_upto; [done|]. apply alter_tree_wf; [done|by apply work_upto].
Qed.
Lemma store_temp tmp n m : is_dir_type (ri_type m) = is_dir_type (ri_type n) →
  ∀ s, temp_at tmp n s → temp_at tmp m (set_tree Work (<[tmp := m]> (tree Work s)) s).
Proof.
  intros Hm s (Hs&Ht&Hn). pose proof (strip_root _ _ _ Hn) as Hr. assert (<[tmp := m]> (tree Work s) = graft tmp {[ [] := m ]} (tree Work s)) as ->.
  { apply map_eq. intros q. rewrite lookup_graft. destruct (below_cases tmp q) as [(t&->&->)|[Hb ->]].
    - rewrite drop_app_length. destruct (decide (t = [])) as [->|Hne]; [by rewrite app_nil_r, lookup_insert_eq, lookup_singleton_eq|].
      rewrite lookup_singleton_ne, lookup_insert_ne by (done || (intros Heq%(f_equal length); rewrite length_app in Heq; destruct t; [done|cbn in Heq; lia])).
      by eapply strip_single_none.
    - rewrite lookup_insert_ne; [done|]. intros ->. by destruct Hb. }
  split_and!; [|done|cbn; apply strip_graft]. apply set_work_upto; [done|]. apply graft_wf; [by apply work_upto|by apply temp_ne|apply single_sub|].
  right. destruct Ht as [c ->]. apply (tw_parent _ (work_upto _ Hs) [] c). by exists n.
Qed.
Lemma cleanup_temp tmp n E : triple (temp_at tmp n) (ovl_cleanup Work tmp) (λ _, at_u) E.
Proof.
  apply (triple_pull (is_temp tmp)); [by intros s (_&?&_)|]. intros Ht. eapply triple_pre; [apply cleanup_work; by apply temp_ne|]. by intros s [].
Qed.

(** A temporary inode takes its place in the upper layer. *)
Lemma install_temp tmp n p flags : flags = 0%Z ∨ flags = RENAME_EXCHANGE →
  triple (temp_at tmp n) (real_rename (Work, tmp) (Upper, p) flags)
    (λ _ s, upto (graft p {[ [] := n ]} u) s0 s ∧ dir_at u (parent_dir p) = true) (λ _, temp_at tmp n).
Proof.
  intros Hfl. apply triple_real; [auto..|]. intros s (Hs&Ht&Hn). cbn [fst snd tree]. rewrite (strip_root _ _ _ Hn), (upto_upper _ _ _ Hs), Hn.
  destruct (dir_at u (parent_dir p)) eqn:Hd; cbn [negb]; [|done].
  pose proof (temp_ne _ Ht) as Hne. pose proof (work_upto _ Hs) as Hw. cbn [tree] in Hw.
  assert (tree_wf (prune tmp (ds_work s))) as Hw1 by (rewrite prune_graft; apply graft_wf; [done|done|apply empty_sub|by left]).
  set (s1 := set_tree Work (prune tmp (ds_work s)) s). assert (at_u s1) as Hs1 by (by apply set_work_upto).
  rewrite (upto_upper _ _ _ Hs1). set (s2 := set_tree Upper _ s1).
  assert (upto (graft p {[ [] := n ]} u) s0 s2) as Hs2 by (by apply set_upper_upto).
  destruct Hfl as [-> | ->].
  - change (has 0 RENAME_EXCHANGE) with false. cbv iota. change (has 0 RENAME_WHITEOUT) with false. cbv iota.
    destruct (replaces _ _ _); [done|]. done.
  - change (has RENAME_EXCHANGE RENAME_EXCHANGE) with true. cbv iota. destruct (u !! p) as [m|] eqn:Hm; [|done]. split; [|done].
    destruct Hs2 as [???? Ho]. split; try done. cbn. apply graft_wf; [done|done|by apply strip_sub|]. right.
    destruct Ht as [c ->]. apply Hw1.
Qed.
End Upper.

(** ** Whiteouts, empty directories and new entries *)

Lemma mark_opaque_upto u s0 p s : upto u s0 s → upto u s0 (ds_set_dentries (alter oe_set_opaque p (ds_dentries s)) s).
Proof.
  intros [Hl Ho Hw Hd Hop]. split; try done; cbn.
  - rewrite <-Hd. apply map_eq. intros q. rewrite !lookup_fmap. destruct (decide (p = q)) as [->|]; [rewrite lookup_alter_eq|by rewrite lookup_alter_ne].
    by destruct (ds_dentries s !! q).
  - intros q e0 e He0. destruct (decide (p = q)) as [->|]; [rewrite lookup_alter_eq|rewrite lookup_alter_ne by done; by apply Hop].
    destruct (ds_dentries s !! q) as [e'|] eqn:He'; [|done]. intros [= <-] _. done.
Qed.

Section Steps.
Context (s0 : DS) (u : gmap path rinode) (Hu : tree_wf u).
Abbreviation at_u := (upto u s0).

Lemma set_opaque_temp tmp n p :
  triple (temp_at s0 u tmp n) (ovl_set_opaque p (Work, tmp)) (λ _, temp_at s0 u tmp (set_xattr OVL_XATTR_OPAQUE "y" n)) (λ _, temp_at s0 u tmp n).
Proof.
  unfold ovl_set_opaque, ovl_set_opaque_xerr. apply triple_get. intros s1 Hs1. destruct (ls_noxattr _); [by apply triple_fail; intros ? ->|].
  apply (triple_pre _ (temp_at s0 u tmp n)); [|by intros ? ->]. eapply triple_bind; [by apply alter_temp|]. intros [].
  apply triple_modify. intros s (Hs&Ht&Hn). split; [by apply mark_opaque_upto|done].
Qed.

(** [ovl_cleanup_and_whiteout]. *)
Lemma whiteout_over p :
  triple at_u (ovl_cleanup_and_whiteout p)
    (λ _ s, upto (graft p {[ [] := whiteout_node ]} u) s0 s ∧ dir_at u (parent_dir p) = true) (λ _, at_u).
Proof.
  unfold ovl_cleanup_and_whiteout. eapply triple_bind; [by apply whiteout_ok|]. intros tmp.
  apply (triple_pull (is_temp tmp)); [by intros s (_&?&_)|]. intros Ht. apply triple_get. intros s1 Hs1.
  apply (triple_pre _ (temp_at s0 u tmp whiteout_node)); [|by intros ? ->]. eapply triple_bind.
  - eapply triple_defer; [apply install_temp; [done|destruct (dir_at (upper_tree s1) p); auto]|]. intros e. apply cleanup_temp.
  - intros []. destruct (dir_at (upper_tree s1) p); [|by apply triple_ret]. apply (triple_pull (dir_at u (parent_dir p) = true)); [by intros s []|]. intros Hd.
    eapply triple_conseq; [apply (cleanup_work s0 (graft p {[ [] := whiteout_node ]} u) tmp (λ _ _, False)); by apply temp_ne|by intros s []| |done].
    done.
Qed.

(** The inode of a new entry: what it was created as, and no mark of the overlay. *)
Definition new_inode (a : ovl_cattr) (n : rinode) : Prop :=
  ri_type n = ca_type a ∧ ri_uid n = ca_uid a ∧ ri_gid n = ca_gid a ∧ ri_xattrs n !! OVL_XATTR_REDIRECT = None.
Definition temp_of (tmp : path) (a : ovl_cattr) (s : DS) : Prop := ∃ n, temp_at s0 u tmp n s ∧ new_inode a n.
Lemma alter_new tmp a f : (∀ n, new_inode a n → new_inode a (f n)) → (∀ n, is_dir_type (ri_type (f n)) = is_dir_type (ri_type n)) →
  triple (temp_of tmp a) (real_alter Work tmp f) (λ _, temp_of tmp a) (λ _, temp_of tmp a).
Proof.
  intros Hf Hd s (n&Hn&Ha). pose proof (alter_temp s0 u tmp n f Hd s Hn) as H. destruct (real_alter _ _ _ s) as [[[]|e|?] s']; [| |done].
  - exists (f n). auto.
  - by exists n.
Qed.
Lemma set_acl_new tmp a x acl : x ≠ OVL_XATTR_REDIRECT → triple (temp_of tmp a) (ovl_set_upper_acl tmp x acl) (λ _, temp_of tmp a) (λ _, temp_of tmp a).
Proof.
  intros Hx. destruct acl as [v|]; [|by apply triple_ret]. apply alter_new; [|done]. intros n (?&?&?&?). split_and!; try done. cbn.
  by rewrite lookup_insert_ne.
Qed.
Lemma cleanup_new tmp a E : triple (temp_of tmp a) (ovl_cleanup Work tmp) (λ _, at_u) E.
Proof. intros s (n&Hn&_). by apply (cleanup_temp s0 u tmp n E). Qed.

(** The upper layer has the new entry, which hides what is below it. *)
Definition put_new (p : path) (a : ovl_cattr) (s : DS) : Prop :=
  ∃ n, upto (graft p {[ [] := n ]} u) s0 s ∧ new_inode a n ∧ hide_node n = true ∧ dir_at u (parent_dir p) = true.
Lemma install_new tmp a p : is_dir_type (ca_type a) = false →
  triple (temp_of tmp a) (real_rename (Work, tmp) (Upper, p) 0) (λ _, put_new p a) (λ _, temp_of tmp a).
Proof.
  intros Hd s (n&Hn&Ha). pose proof (install_temp s0 u Hu tmp n p 0 (or_introl eq_refl) s Hn) as H.
  destruct (real_rename _ _ _ s) as [[[]|e|?] s']; [| |done].
  - destruct H as [Hs Hp]. exists n. split_and!; try done; try apply Ha. unfold hide_node, is_dir_node. destruct Ha as (->&_). by rewrite Hd.
  - by exists n.
Qed.
Lemma install_opaque tmp a p :
  triple (temp_of tmp a) (_ ← ovl_set_opaque p (Work, tmp); real_rename (Work, tmp) (Upper, p) RENAME_EXCHANGE) (λ _, put_new p a) (λ _, temp_of tmp a).
Proof.
  intros s (n&Hn&Ha). revert s Hn. eapply triple_bind.
  - eapply triple_conseq; [apply (set_opaque_temp tmp n p)|done|done|]. intros e s Hs. by exists n.
  - intros []. eapply triple_conseq; [apply install_temp; [done|by right]|done| |].
    + intros [] s [Hs Hp]. exists (set_xattr OVL_XATTR_OPAQUE "y" n). destruct Ha as (?&?&?&?). split_and!; try done.
      * split_and!; try done. cbn. by rewrite lookup_insert_ne.
      * unfold hide_node, is_opaque_node. cbn. rewrite lookup_insert_eq. apply orb_true_r.
    + intros e s Hs. exists (set_xattr OVL_XATTR_OPAQUE "y" n). split; [done|]. destruct Ha as (?&?&?&?). split_and!; try done. cbn.
      by rewrite lookup_insert_ne.
Qed.
Lemma cleanup_put tmp p a E : tmp ≠ [] → triple (put_new p a) (ovl_cleanup Work tmp) (λ _, put_new p a) E.
Proof.
  intros Hne s (n&Hn&Hr). pose proof (cleanup_work s0 (graft p {[ [] := n ]} u) tmp E Hne s Hn) as H.
  destruct (ovl_cleanup _ _ s) as [[[]|e|?] s']; [|done|done]. by exists n.
Qed.

(** What is prepared of a new entry, in the place of a whiteout. *)
Lemma over_whiteout {A} fs_mode a p acl default_acl (k : M DS A) Q E :
  let is_dir := is_dir_type (ca_type a) in
  (∀ e s, at_u s → E e s) → triple (put_new p a) k Q E →
  triple at_u
    (tmp ← ovl_create_temp fs_mode a;
     _ ← defer_on_error
            (_ ← (if negb (is_lnk_type (ca_type a)) && negb (fs_mode (ca_mode a) =? ca_mode a)%Z
                  then real_alter Work tmp (set_mode (ca_mode a)) else mret tt);
             _ ← ovl_set_upper_acl tmp XATTR_NAME_POSIX_ACL_ACCESS acl;
             _ ← ovl_set_upper_acl tmp XATTR_NAME_POSIX_ACL_DEFAULT default_acl;
             if is_dir then
               _ ← ovl_set_opaque p (Work, tmp);
               real_rename (Work, tmp) (Upper, p) RENAME_EXCHANGE
             else real_rename (Work, tmp) (Upper, p) 0)
            (ovl_cleanup Work tmp);
     _ ← (if is_dir then ovl_cleanup Work tmp else mret tt);
     k) Q E.
Proof.
  intros is_dir HE Hk. eapply triple_bind; [eapply triple_conseq; [by apply create_temp_ok|done|done|exact HE]|]. intros tmp.
  apply (triple_pull (is_temp tmp)); [by intros s (_&?&_)|]. intros Ht.
  apply (triple_pre _ (temp_of tmp a)). 2:{ intros s Hs. eexists. split; [exact Hs|]. by split_and!. }
  eapply (triple_bind _ _ _ (λ _, put_new p a)).
  - eapply (triple_defer _ _ _ _ (λ _, temp_of tmp a)).
    2:{ intros e. eapply triple_conseq; [apply (cleanup_new tmp a (λ _, at_u))|done|intros [] s; apply HE|intros e' s; apply HE]. }
    eapply (triple_bind _ _ _ (λ _, temp_of tmp a)); [|intros []].
    { destruct (_ && _); [|by apply triple_ret]. by apply alter_new. }
    eapply (triple_bind _ _ _ (λ _, temp_of tmp a)); [by apply set_acl_new|]. intros [].
    eapply (triple_bind _ _ _ (λ _, temp_of tmp a)); [by apply set_acl_new|]. intros [].
    unfold is_dir. destruct (is_dir_type (ca_type a)) eqn:Hd; [apply install_opaque|by apply install_new].
  - intros []. eapply (triple_bind _ _ _ (λ _, put_new p a)); [|by intros []].
    destruct is_dir; [|by apply triple_ret]. apply cleanup_put. by apply temp_ne.
Qed.

(** ** Clearing a directory *)

Lemma put_quiet s f : ls_layers (ds_ls s) ≠ [] → put_os (set_faults f (os_of s)) s = with_faults f s.
Proof.
  intros Hne. unfold put_os, with_faults, ds_set_ls, ls_set_faults. rewrite put_sources_same by done. cbn. f_equal.
  - f_equal. unfold layer_tree. by destruct (ls_layers (ds_ls s)).
  - apply map_eq. intros q. rewrite map_lookup_imap. destruct (ds_dentries s !! q) as [e|]; [|done]. cbn. unfold copied_up. cbn.
    by destruct (upper_tree s !! q).
Qed.
(** There is an upper layer, and it has attributes. *)
Definition can_copy (s : DS) : Prop := ls_layers (ds_ls s) ≠ [] ∧ ofs_noxattr (ds_ofs s) = false.
Lemma on_os_quiet {A} veto (m : M OS A) φ (P : DS → Prop) :
  OvlProps.quiet veto m φ → (∀ s, P s → can_copy s) → (∀ s fs, P s → P (with_faults fs s)) →
  triple P (on_os m) (λ a s, P s ∧ φ a) (λ _, P).
Proof.
  intros Hq Hne Hf s Hs. destruct (Hne s Hs) as [Hl Hx]. specialize (Hq (os_of s) Hx). unfold on_os.
  destruct (m (os_of s)) as [[a|e|x] o]; [| |done]; destruct Hq as [(f&_&->) ?]; rewrite put_quiet by auto; auto.
Qed.
Lemma upto_ne v s : upto v s0 s → ls_layers (ds_ls s) ≠ [].
Proof. intros Hs. by rewrite (up_layers _ _ _ Hs). Qed.

Lemma cleanup_whiteouts_ok (v : gmap path rinode) p list E : triple (upto v s0) (ovl_cleanup_whiteouts Work p list) (λ _, upto v s0) E.
Proof.
  apply triple_for_each. intros e _. destruct (negb _); [by apply triple_ret|].
  eapply (triple_bind _ _ _ (λ _, upto v s0)); [eapply (triple_attempt _ _ _ _ (λ _, upto v s0)); [|done]; apply triple_real; auto|].
  intros [?|[n|]]; [by apply triple_ret| |by apply triple_ret]. apply cleanup_work. by destruct p.
Qed.

Context (sec : string → Z) (Hattrs : ofs_noxattr (ds_ofs s0) = false).
(** The directory is replaced by an opaque one that is the same otherwise. *)
Definition cleared (p : path) (s : DS) : Prop :=
  ∃ n stat, upto (graft p {[ [] := n ]} u) s0 s ∧ u !! p = Some stat ∧ is_dir_node stat = true ∧ same_file sec stat n ∧
    hide_node n = true ∧ ri_xattrs n !! OVL_XATTR_REDIRECT = None ∧ dir_at u (parent_dir p) = true.

Lemma temp_ready tmp n s : temp_at s0 u tmp n s → can_copy s.
Proof. intros (Hs&_). split; [by eapply upto_ne|]. by rewrite (up_ofs _ _ _ Hs). Qed.
#[local] Hint Resolve temp_faults temp_ready : core.
Definition some_temp (tmp : path) (s : DS) : Prop := ∃ n, temp_at s0 u tmp n s.
(** A step on the temporary inode. *)
Lemma some_temp_bind {A B} tmp n (m : M DS A) (k : A → M DS B) R Q :
  triple (temp_at s0 u tmp n) m R (λ _, temp_at s0 u tmp n) → (∀ a, triple (R a) (k a) Q (λ _, some_temp tmp)) →
  triple (temp_at s0 u tmp n) (m ≫= k) Q (λ _, some_temp tmp).
Proof. intros Hm Hk. eapply triple_bind; [|exact Hk]. eapply triple_conseq; [exact Hm|done|done|]. intros e s Hs. by exists n. Qed.
Lemma fill_opaque fs_mode stat tmp p : u !! p = Some stat → is_dir_type (ri_type stat) = true →
  let new := attr_node fs_mode (mkAttr S_IFDIR (ri_mode stat) 0 0) in
  triple (temp_at s0 u tmp new)
    (new ← on_os (ovl_copy_xattr sec stat new);
     _ ← modify (λ s, set_tree Work (<[tmp := new]> (tree Work s)) s);
     _ ← ovl_set_opaque p (Work, tmp);
     s ← get;
     new ← on_os (ovl_set_attr stat (default new (tree Work s !! tmp)));
     _ ← modify (λ s, set_tree Work (<[tmp := new]> (tree Work s)) s);
     real_rename (Work, tmp) (Upper, p) RENAME_EXCHANGE)
    (λ _, cleared p) (λ _, some_temp tmp).
Proof.
  intros Hstat Hd new. eapply some_temp_bind.
  { eapply on_os_quiet; [by apply (copy_xattr_copies sec stat new)|apply temp_ready|intros s fs; apply temp_faults]. }
  intros n1. apply (triple_pull (ri_type n1 = S_IFDIR ∧ same_xattrs sec stat n1 ∧ plain_xattrs n1)); [intros s [_ H]; exact H|]. intros (Ht1&Hx1&Hp1).
  eapply (triple_bind _ _ _ (λ _, temp_at s0 u tmp n1)).
  { apply triple_modify. intros s [Hs _]. eapply store_temp; [|exact Hs]. by rewrite Ht1. }
  intros []. eapply some_temp_bind; [apply (set_opaque_temp tmp n1 p)|]. intros [].
  set (n2 := set_xattr OVL_XATTR_OPAQUE "y" n1). apply triple_get. intros s1 Hs1.
  assert (tree Work s1 !! tmp = Some n2) as -> by (by apply strip_root, Hs1). cbn [default].
  apply (triple_pre _ (temp_at s0 u tmp n2)); [|by intros ? ->]. eapply some_temp_bind.
  { eapply on_os_quiet; [by apply (set_attr_sets sec stat n2)|apply temp_ready|intros s fs; apply temp_faults]. }
  intros n3. cbv beta. match goal with |- triple (λ s, _ ∧ ?φ) _ _ _ => apply (triple_pull φ) end; [by intros s [_ H]|]. intros (Ht3&Hx3&Hu3&Hg3&Hm3).
  assert (ri_type stat = S_IFDIR) as Hst by (by destruct (ri_type stat)).
  eapply (triple_bind _ _ _ (λ _, temp_at s0 u tmp n3)).
  { apply triple_modify. intros s [Hs _]. eapply store_temp; [|exact Hs]. by rewrite Ht3. }
  intros []. eapply triple_conseq; [apply (install_temp s0 u Hu tmp n3); by right|done| |intros e s Hs; by exists n3].
  intros [] s [Hs Hpd]. exists n3, stat. split_and!; try done.
  - split_and!; try done; [by rewrite Ht3, Hst|]. intros x Hx. rewrite Hx3. cbn. rewrite lookup_insert_ne; [by apply Hx1|]. intros <-. by destruct Hx.
  - unfold hide_node, is_opaque_node. rewrite Hx3. cbn. rewrite lookup_insert_eq. apply orb_true_r.
  - rewrite Hx3. cbn. rewrite lookup_insert_ne by done. by apply Hp1.
Qed.
Lemma cleared_keep p m : (∀ v E, triple (upto v s0) m (λ _ : (), upto v s0) E) → ∀ E, triple (cleared p) m (λ _, cleared p) E.
Proof.
  intros Hm E s (n&stat&Hs&H). specialize (Hm _ E s Hs). destruct (m s) as [[[]|e|x] s']; [|done|done]. exists n, stat. by split.
Qed.
Lemma clear_empty_ok fs_mode p list :
  triple at_u (ovl_clear_empty sec fs_mode p list) (λ _ s, ∃ s1, cleared p s1 ∧ s = dropped p s1) (λ _, at_u).
Proof.
  unfold ovl_clear_empty. apply triple_get. intros s1 Hs1. apply (triple_pre _ at_u); [|by intros ? ->].
  destruct (ofs_workdir _); [|by apply triple_fail]. eapply triple_bind; [apply call_upto|]. intros [].
  eapply triple_bind; [apply lookup_upto|]. intros [stat|]; [|by apply triple_fail; intros ? []].
  apply (triple_pull (u !! p = Some stat)); [by intros s [_ ?]|]. intros Hstat. apply (triple_pre _ at_u); [|by intros s []].
  destruct (is_dir_type (ri_type stat)) eqn:Hd; cbn [negb]; [|by apply triple_fail].
  eapply triple_bind; [apply create_temp_ok|]. intros tmp. apply (triple_pull (is_temp tmp)); [by intros s (_&?&_)|]. intros Ht.
  eapply (triple_bind _ _ _ (λ _, cleared p)).
  { eapply (triple_defer _ _ _ _ (λ _, some_temp tmp)); [by apply fill_opaque|]. intros e s (n&Hn). by apply (cleanup_temp s0 u tmp n). }
  intros []. eapply (triple_bind _ _ _ (λ _, cleared p)); [apply cleared_keep; intros v E; apply cleanup_whiteouts_ok|]. intros [].
  eapply (triple_bind _ _ _ (λ _, cleared p)); [apply cleared_keep; intros v E; apply cleanup_work; by apply temp_ne|]. intros [].
  apply triple_modify. intros s Hs. by exists s.
Qed.
End Steps.
