(* ===== verification/OvlDirProps.v ===== *)
(** * Creating and removing entries of an overlay

    The operations of [dir.c] change one entry of what the overlay shows, or none:
    copies, whiteouts and opaque directories in the upper layer do not show, and
    neither does an operation that fails half way. *)

From S2P Require Import Prelude FileSys OvlOpts OvlMount OvlCopyUp OvlProps OvlLookup OvlReaddir OvlDir OvlMountProps OvlReaddirProps OvlLookupProps OvlUnion OvlView OvlDirInv OvlDirCopy OvlDirOps.

(** The state, fixed. *)
Lemma triple_at {St A} (P : St → Prop) (m : M St A) Q E : (∀ b, P b → triple (λ s, s = b) m Q E) → triple P m Q E.
Proof. intros Hm s Hs. exact (Hm s Hs s eq_refl). Qed.

Section Props.
Context (sec : string → Z) (encode_fh : path → string) (copy_up_indexed : path → path → Z → M OS ()).

(** ** What an operation may do *)

(** Nothing shows: the state the operation started from, and another one. *)
Definition unseen (s s' : DS) : Prop := coherent s' ∧ same_view sec s s'.
(** The entry [p] is gone, with what was below it. *)
Definition gone (p : path) (s s' : DS) : Prop :=
  coherent s' ∧ ∀ q, if Os.below p q then shown_at s' q = None else option_Forall2 (same_file sec) (shown_at s q) (shown_at s' q).

Lemma unseen_refl s : coherent s → unseen s s.
Proof. intros Hco. split; [done|apply seen_same_refl]. Qed.
Lemma unseen_trans s1 s2 s3 : unseen s1 s2 → unseen s2 s3 → unseen s1 s3.
Proof. intros [_ H1] [? H2]. split; [done|by eapply seen_same_trans]. Qed.
Lemma unseen_gone p s1 s2 s3 : unseen s1 s2 → gone p s2 s3 → gone p s1 s3.
Proof. intros [_ H1] [? H2]. split; [done|]. intros q. specialize (H2 q). destruct (Os.below p q); [done|]. by eapply same_opt_trans. Qed.
Lemma kept_unseen s s' : kept_dir sec s s' → unseen s s'.
Proof. by intros []. Qed.
Lemma still_unseen s s' : coherent s → still s s' → unseen s s'.
Proof. intros Hco Hs. split; [by eapply still_coherent|]. intros q. rewrite (still_shown s s') by done. apply same_opt_refl. Qed.
Lemma upto_unseen s s' : coherent s → upto (upper_tree s) s s' → unseen s s'.
Proof. intros Hco Hs. apply still_unseen; [done|]. by apply upto_still. Qed.
Lemma upto_refl s : coherent s → upto (upper_tree s) s s.
Proof. intros Hco. by apply upto_still, still_refl. Qed.

Lemma shown_dot_free s q c : coherent s → is_Some (shown_at s (q ++ [c])) → dot_free c.
Proof. intros Hco [n (i&Hn&_)%view_first]. apply (co_names _ Hco i q). by rewrite Hn. Qed.
Lemma upper_plain s q c : coherent s → is_Some (upper_tree s !! (q ++ [c])) → dot_free c.
Proof. intros Hco. rewrite upper_node. apply Hco. Qed.

(** Dropping dentries does not show. *)
Lemma strip_sub_wf s p : coherent s → sub_wf (Os.strip p (upper_tree s)).
Proof.
  intros Hco. split.
  - by apply strip_sub, upper_wf.
  - intros q n. rewrite lookup_strip, upper_node. apply Hco.
  - intros q c. rewrite lookup_strip, app_assoc. by apply upper_plain.
Qed.
Lemma graft_strip (u : gmap path rinode) p : graft p (Os.strip p u) u = u.
Proof. apply map_eq. intros q. rewrite lookup_graft. destruct (below_cases p q) as [(t&->&->)|[_ ->]]; [|done]. by rewrite lookup_strip, drop_app_length. Qed.
Lemma drop_unseen s s' p : coherent s → p ≠ [] → upto (upper_tree s) s s' → unseen s (dropped p s').
Proof.
  intros Hco Hp Hs. split.
  - apply (drop_coherent s s' p (Os.strip p (upper_tree s))); [done|done|by apply strip_sub_wf| | |by rewrite graft_strip].
    + rewrite lookup_strip, app_nil_r. destruct (upper_tree s !! p) as [n|] eqn:Hn; [right|by left].
      destruct p as [|c p _] using rev_ind; [done|]. rewrite parent_dir_snoc. apply (tw_parent _ (upper_wf _ Hco) p c). by exists n.
    + rewrite lookup_strip, app_nil_r. destruct (upper_tree s !! p) as [n|] eqn:Hn; [right|by left]. intros q c ->.
      apply (upper_plain s q); [done|by rewrite Hn].
  - intros q. destruct (upto_unseen _ _ Hco Hs) as [_ Hv]. apply Hv.
Qed.

(** ** Whiteouts in place of entries *)

Lemma whiteout_gone s s' p : coherent s → p ≠ [] → (∀ q c, p = q ++ [c] → dot_free c) → dir_at (upper_tree s) (parent_dir p) = true →
  upto (graft p {[ [] := whiteout_node ]} (upper_tree s)) s s' → gone p s (dropped p s').
Proof.
  intros Hco Hp Hplain Hd Hs. assert (sub_wf {[ [] := whiteout_node ]}) as HA by (by apply sub_single). split.
  - by apply (drop_coherent s s' p {[ [] := whiteout_node ]}); try done; right.
  - intros q. change (shown_at (dropped p s')) with (shown_at s').
    rewrite (drop_shown s s' p {[ [] := whiteout_node ]} Hco Hp HA (or_intror Hd) Hs) by (by eapply sealed_root; [apply lookup_singleton_eq|]).
    destruct (Os.below p q); [|apply same_opt_refl]. destruct (decide (drop (length p) q = [])) as [->|Hne]; [by rewrite lookup_singleton_eq|].
    by rewrite lookup_singleton_ne.
Qed.
Lemma removed_gone s s' p : coherent s → p ≠ [] → low_none (upper_tree s) (below_at s) p →
  upto (graft p ∅ (upper_tree s)) s s' → gone p s (dropped p s').
Proof.
  intros Hco Hp Hlow Hs. split.
  - apply (drop_coherent s s' p ∅); try done; [apply sub_empty|by left|by left].
  - intros q. change (shown_at (dropped p s')) with (shown_at s').
    rewrite (drop_shown s s' p ∅ Hco Hp sub_empty (or_introl eq_refl) Hs) by (by apply sealed_low).
    destruct (Os.below p q); [by rewrite lookup_empty|apply same_opt_refl].
Qed.

(** A directory that shows nothing is replaced by an opaque one. *)
Lemma cleared_unseen s s' p : coherent s → p ≠ [] → (∀ r, r ≠ [] → shown_at s (p ++ r) = None) →
  cleared s (upper_tree s) sec p s' →
  unseen s (dropped p s') ∧ (low_none (upper_tree s) (below_at s) p → low_none (upper_tree (dropped p s')) (below_at (dropped p s')) p).
Proof.
  intros Hco Hp Hempty (n&stat&Hs&Hstat&Hdir&Hsame&Hhide&Hred&Hd).
  assert (sub_wf {[ [] := n ]}) as HA by (by apply sub_single).
  assert (∀ q c, p = q ++ [c] → dot_free c) as Hplain by (intros q c ->; apply (upper_plain s q); [done|by rewrite Hstat]).
  split; [split|].
  - by apply (drop_coherent s s' p {[ [] := n ]}); try done; right.
  - intros q. change (shown_at (dropped p s')) with (shown_at s').
    rewrite (drop_shown s s' p {[ [] := n ]} Hco Hp HA (or_intror Hd) Hs) by (by eapply sealed_root; [apply lookup_singleton_eq|]).
    destruct (below_cases p q) as [(t&->&->)|[_ ->]]; [|apply same_opt_refl]. rewrite drop_app_length.
    destruct (decide (t = [])) as [->|Ht].
    + assert (∀ m, is_dir_node m = true → ovl_is_whiteout m = false) as Hw.
      { unfold is_dir_node, ovl_is_whiteout. intros m. by destruct (ri_type m). }
      rewrite app_nil_r, lookup_singleton_eq, (shown_over s) by done. unfold over. rewrite Hstat. cbn. rewrite Hw by done.
      rewrite Hw; [by constructor|]. destruct Hsame as (Ht&_). unfold is_dir_node in *. by rewrite Ht.
    + rewrite Hempty, lookup_singleton_ne by done. constructor.
  - intros Hlow. change (below_at (dropped p s')) with (below_at s').
    change (upper_tree (dropped p s')) with (upper_tree s'). rewrite (upto_upper _ _ _ Hs). unfold low_none.
    rewrite (upto_below_at _ s s') by done. apply low_none_graft; auto.
Qed.

Section Remove.
Context (fs_mode : Z → Z) (p : path) (Hp : p ≠ []).

(** The first step, if the directory has whiteouts. *)
Lemma clear_if list s : coherent s → (list ≠ [] → ∀ r, r ≠ [] → shown_at s (p ++ r) = None) →
  triple (λ t, t = s) (if negb (bool_decide (list = [])) then ovl_clear_empty sec fs_mode p list else mret tt)
    (λ _ b, unseen s b ∧ (low_none (upper_tree s) (below_at s) p → low_none (upper_tree b) (below_at b) p)) (λ _, unseen s).
Proof.
  intros Hco Hempty. case_bool_decide as Hl; cbn [negb]; [apply triple_ret; intros ? ->; by split; [apply unseen_refl|]|].
  eapply triple_conseq; [apply (clear_empty_ok s (upper_tree s) (upper_wf _ Hco) sec (co_xattr _ Hco) fs_mode p list)|intros ? ->; by apply upto_refl| |].
  - intros [] b (s1&Hcl&->). by apply cleared_unseen; [| |apply Hempty|].
  - intros e b Hb. by apply upto_unseen.
Qed.

Lemma remove_and_whiteout_ok e list s : coherent s → is_Some (shown_at s p) → (list ≠ [] → ∀ r, r ≠ [] → shown_at s (p ++ r) = None) →
  triple (λ t, t = s) (ovl_remove_and_whiteout sec fs_mode p e list) (λ _, gone p s) (λ _, unseen s).
Proof.
  intros Hco Hsome Hempty. assert (∀ q c, p = q ++ [c] → dot_free c) as Hplain by (intros q c ->; by eapply shown_dot_free).
  unfold ovl_remove_and_whiteout. apply triple_get. intros s1 ->. destruct (ofs_workdir _); [|by apply triple_fail; intros ? ->; apply unseen_refl].
  eapply triple_bind; [by apply clear_if|]. intros []. apply triple_at. intros b [Hb _]. pose proof (proj1 Hb) as Hcb.
  apply (triple_pre _ (upto (upper_tree b) b)); [|intros ? ->; by apply upto_refl].
  assert (∀ e t, upto (upper_tree b) b t → (λ _ : error, unseen s) e t) as HE by (intros ? t Ht; eapply unseen_trans; [exact Hb|by apply upto_unseen]).
  eapply triple_bind; [eapply triple_conseq; [apply call_upto|done|done|exact HE]|]. intros [].
  eapply triple_bind; [eapply triple_conseq; [apply lookup_upto|done|done|exact HE]|]. intros upper.
  apply (triple_pre _ (upto (upper_tree b) b)); [|by intros t []]. destruct (_ && _); [apply triple_fail; intros t; apply (HE (OsError ESTALE))|].
  eapply (triple_bind _ _ _ (λ r t, match r with
    | inr _ => upto (graft p {[ [] := whiteout_node ]} (upper_tree b)) b t ∧ dir_at (upper_tree b) (parent_dir p) = true
    | inl _ => upto (upper_tree b) b t end)).
  { eapply triple_attempt; [apply (whiteout_over b (upper_tree b) (upper_wf _ Hcb))|]. done. }
  intros [err|[]]; (eapply triple_bind; [|intros []]).
  - apply (triple_modify _ _ (λ _, unseen s)). intros t Ht. eapply unseen_trans; [exact Hb|]. by apply drop_unseen.
  - by apply triple_fail.
  - apply (triple_modify _ _ (λ _, gone p s)). intros t [Ht Hd]. eapply unseen_gone; [exact Hb|]. by apply whiteout_gone.
  - by apply triple_ret.
Qed.

Lemma remove_upper_ok e is_dir list s : coherent s → low_none (upper_tree s) (below_at s) p → (list ≠ [] → ∀ r, r ≠ [] → shown_at s (p ++ r) = None) →
  triple (λ t, t = s) (ovl_remove_upper sec fs_mode p e is_dir list)
    (λ _ s', gone p s s' ∧ (is_dir = true → ∀ r, r ≠ [] → shown_at s (p ++ r) = None)) (λ _, unseen s).
Proof.
  intros Hco Hlow Hempty. unfold ovl_remove_upper. eapply triple_bind; [by apply clear_if|]. intros []. apply triple_at. intros b [Hb Hlb].
  pose proof (proj1 Hb) as Hcb. specialize (Hlb Hlow). apply (triple_pre _ (upto (upper_tree b) b)); [|intros ? ->; by apply upto_refl].
  assert (∀ e t, upto (upper_tree b) b t → (λ _ : error, unseen s) e t) as HE by (intros ? t Ht; eapply unseen_trans; [exact Hb|by apply upto_unseen]).
  eapply triple_bind; [eapply triple_conseq; [apply lookup_upto|done|done|exact HE]|]. intros upper.
  apply (triple_pre _ (upto (upper_tree b) b)); [|by intros t []]. case_bool_decide; [apply triple_fail; intros t; apply (HE (OsError ESTALE))|].
  eapply (triple_bind _ _ _ (λ _ t, upto (graft p ∅ (upper_tree b)) b t ∧ (is_dir = true → ∀ r, r ≠ [] → upper_tree b !! (p ++ r) = None))).
  { pose proof (upper_wf _ Hcb) as Hu. destruct is_dir.
    - eapply triple_conseq; [apply rmdir_upto|done| |exact HE]. intros [] t []. by split.
    - eapply triple_conseq; [apply (unlink_upto b _ Hu)|done| |exact HE]. intros [] t []. by split. }
  intros []. apply triple_modify. intros t [Ht Hch]. split.
  - eapply unseen_gone; [exact Hb|]. by apply removed_gone.
  - intros Hd r Hr. destruct Hb as [_ Hv]. specialize (Hv (p ++ r)).
    rewrite (shown_over b), over_sealed in Hv; [|by apply below_closed|done|by right|done].
    rewrite Hch in Hv by done. by inversion Hv.
Qed.
End Remove.

(** ** What the lower layers have *)

Lemma faults_kept s f : coherent s → kept_dir sec s (with_faults f s).
Proof.
  intros Hco. split; [|intros q; apply same_opt_refl|done|eauto|intros q e He; by exists e].
  apply (still_coherent s); [done|]. apply upto_still; [done|]. by apply upto_faults, upto_refl.
Qed.
Lemma layers_called {A} (m : M LS A) s (Q : A → Prop) :
  (match m (ds_ls s) with (Ok a, l) => called (ds_ls s) l ∧ Q a | (Err _, l) => called (ds_ls s) l | (Panic _, _) => False end) →
  triple (λ t, t = s) (on_layers m) (λ a t, (∃ f, t = with_faults f s) ∧ Q a) (λ _ t, ∃ f, t = with_faults f s).
Proof.
  intros Hm t ->. unfold on_layers, zoom. destruct (m (ds_ls s)) as [[a|e|x] l]; [| |done].
  - destruct Hm as [[f ->] ?]. split; [by exists f|done].
  - destruct Hm as [f ->]. by exists f.
Qed.

(** The loop of [ovl_lower_positive]: no entry below, or a whiteout first. *)
Lemma positive_loop_called dir name l : ∀ s,
  match lower_positive_loop (at_path dir l) name s with
  | (Ok r, s') => called s s' ∧ (r = false → pick_layers s (dir ++ [name]) l false = [])
  | _ => False
  end.
Proof.
  induction l as [|i l IH]; intros s; cbn [at_path fmap list_fmap lower_positive_loop].
  { split; [apply called_refl|done]. }
  unfold lookup_one_len. destruct (read_called (λ s, node s i (dir ++ [name])) s) as (s1&Hc&Hr).
  unfold mbind, M_bind, attempt. cbn [pick_layers]. destruct Hr as [-> | ->].
  - destruct (node s i (dir ++ [name])) as [n|] eqn:Hn.
    + split; [done|]. intros Hw%negb_false_iff. by rewrite Hw.
    + specialize (IH s1). unfold at_path in IH. destruct (lower_positive_loop _ name s1) as [[r|e|x] s']; [|done|done].
      destruct IH as [Hc' Hp]. split; [by eapply called_trans|]. intros H. specialize (Hp H).
      rewrite (pick_shape s s1) in Hp; [done|]. intros j _. by rewrite (called_node s s1).
  - rewrite bool_decide_eq_false_2 by (by intros [|]). split; [done|done].
Qed.

(** Without the upper entry nothing is seen, if the directories below do not show it. *)
Lemma lower_none s dir c rest : coherent s → union (ds_ls s) dir = 0 :: rest → pick_layers (ds_ls s) (dir ++ [c]) rest false = [] →
  low_none (upper_tree s) (below_at s) (dir ++ [c]).
Proof.
  intros Hco Hu Hpick. set (p := dir ++ [c]) in *. assert (p ≠ []) as Hp by (unfold p; by destruct dir).
  apply low_none_over; [done|]. rewrite prune_graft. set (v := graft p ∅ (upper_tree s)).
  assert (tree_wf v) as Hv by (apply graft_wf; [by apply upper_wf|done|apply empty_sub|by left]).
  set (s' := set_tree Upper v s). assert (upto v s s') as Hs by (by apply (set_upper_upto s (upper_tree s)), upto_refl).
  rewrite <-(upto_shown v s s' p Hco Hv Hs). apply view_none. unfold p.
  rewrite (union_snoc _ (upto_layers_wf v s s' Hco Hv Hs)). fold p.
  assert (union (ds_ls s') dir = 0 :: rest) as ->.
  { rewrite <-Hu. apply union_shape. intros i r Hr. rewrite (node_aside s s' p ∅ Hs); [done|]. apply not_below_spec. intros Hpr.
    assert (p `prefix_of` dir) as Hl%prefix_length by (by etrans). unfold p in Hl. rewrite length_app in Hl. cbn in Hl. lia. }
  cbn [pick_layers]. rewrite (upto_top v s s' p Hs). unfold v. rewrite lookup_graft, (proj2 (below_spec p p)), lookup_empty by done.
  rewrite <-Hpick. apply pick_shape. intros [|i] Hi; [|by rewrite (upto_below v s s')].
  pose proof (union_sorted (ds_ls s) dir) as Hso. rewrite Hu in Hso. inversion Hso as [|?? _ Hlt]; subst. rewrite Forall_forall in Hlt. specialize (Hlt _ Hi). lia.
Qed.

Lemma the_dentry_ok p d s : ds_dentries s !! p = Some d → ∀ E, triple (λ t, t = s) (the_dentry p) (λ d' t, d' = d ∧ t = s) E.
Proof. intros Hd E t ->. unfold the_dentry, mbind, M_bind, get. cbn. by rewrite Hd. Qed.
Lemma lower_positive_ok s dir name e : coherent s → ds_dentries s !! (dir ++ [name]) = Some e → oe_positive e = true →
  triple (λ t, t = s) (lower_positive dir name e)
    (λ r t, (∃ f, t = with_faults f s) ∧ (r = false → low_none (upper_tree s) (below_at s) (dir ++ [name]))) (λ _ t, ∃ f, t = with_faults f s).
Proof.
  intros Hco He Hpos. destruct (co_parent _ Hco dir name) as (d&Hd&Hdp&Hdd); [by exists e|].
  unfold lower_positive. eapply triple_bind; [by apply (the_dentry_ok dir d)|].
  intros d'. apply (triple_pull (d' = d)); [by intros t []|]. intros ->. apply (triple_pre _ (λ t, t = s)); [|by intros t []].
  apply layers_called. unfold ovl_lower_positive, fo_positive. cbn [fo_upper fo_lowers fo_opaque]. fold (oe_positive e). rewrite Hpos. cbn [negb].
  case_bool_decide as Hup; [by split; [apply called_refl|]|].
  pose proof (upper_positive _ Hco _ _ He Hpos) as Hu. destruct (upper_tree s !! (dir ++ [name])) as [n|] eqn:Hn; [|congruence].
  assert (dir_at (upper_tree s) dir = true) as Hda by (apply (tw_parent _ (upper_wf _ Hco) dir name); by exists n).
  pose proof (eo_positive _ _ _ (co_entry _ Hco _ _ Hd) Hdp) as Hst. pose proof (upper_positive _ Hco _ _ Hd Hdp) as Hud.
  unfold dir_at in Hda. unfold stands in Hst. cbn in Hst. rewrite Hud in Hst. destruct (upper_tree s !! dir) as [m|] eqn:Hm; [|done].
  destruct Hst as [_ (rest&Hun&Hl)]. rewrite <-dir_at_lookup in Hl. unfold dir_at in Hl. rewrite Hm in Hl. specialize (Hl Hda).
  cbn [de_lowers oe_dentry]. rewrite Hl. pose proof (positive_loop_called dir name rest (ds_ls s)) as Hlp.
  destruct (lower_positive_loop _ name (ds_ls s)) as [[r|err|x] l]; [|done|done]. destruct Hlp as [Hc Hr]. split; [done|].
  intros H. eapply lower_none; [done|done|by apply Hr].
Qed.

(** ** Empty directories *)

Section Check.
Context (iterate : LS → nat → path → list (string * bool)) (rebalance : rb_tree → rb_tree).
Context (Hrebalance : ∀ t, inorder (rebalance t) = inorder t) (Hiter : ∀ s i p, iterate_ok iterate s i p).

Lemma visible_shown s p e c : coherent s → ds_dentries s !! p = Some e → oe_positive e = true → oe_is_dir s e = true →
  visible (ds_ls s) (real_dirs (oe_dentry e)) c = false → shown_at s (p ++ [c]) = None.
Proof.
  intros Hco He Hpos Hdir Hv. apply view_none. pose proof (eo_positive _ _ _ (co_entry _ Hco _ _ He) Hpos) as Hst.
  assert (de_is_dir (ds_ls s) (oe_dentry e) = true) as Hd.
  { unfold de_is_dir, dirs_of. unfold stands in Hst. unfold oe_is_dir, real_node in Hdir. cbn in *. destruct (oe_upper e) as [q|].
    - cbn. unfold can_lookup. by rewrite <-upper_node.
    - unfold first_lower in Hdir. cbn. destruct (oe_lowers e) as [|[i q] l]; [done|]. unfold can_lookup. done. }
  rewrite <-found_visible in Hv. apply negb_false_iff, bool_decide_eq_true in Hv. unfold found_in in Hv.
  rewrite (stands_dirs _ _ _ Hst Hd) in Hv. unfold at_path in Hv. rewrite (collect_union _ (co_wf _ Hco)) in Hv. by apply fmap_nil_inv in Hv.
Qed.
Lemma check_empty_ok s p e : coherent s → ds_dentries s !! p = Some e → oe_positive e = true → oe_is_dir s e = true →
  triple (λ t, t = s) (check_empty_dir iterate rebalance e)
    (λ _ t, (∃ f, t = with_faults f s) ∧ ∀ r, r ≠ [] → shown_at s (p ++ r) = None) (λ _ t, ∃ f, t = with_faults f s).
Proof.
  intros Hco He Hpos Hdir. apply layers_called. pose proof (check_empty_called iterate rebalance Hrebalance Hiter (oe_dentry e) (ds_ls s)) as Hc.
  destruct (ovl_check_empty_dir _ _ _ (ds_ls s)) as [[l|err|x] l']; [|done|done]. destruct Hc as [Hc Hv]. split; [done|]. intros r Hr.
  destruct r as [|c r]; [done|]. replace (p ++ c :: r) with ((p ++ [c]) ++ r) by (by rewrite <-app_assoc).
  apply closed_none; [by apply view_closed, Hco|]. destruct (shown_at s (p ++ [c])) as [n|] eqn:Hn; [|done].
  destruct (shown_dot_free s p c Hco) as [H1 H2]; [by rewrite Hn|]. unfold shown_at in Hn. rewrite <-Hn. by eapply visible_shown; [| | | |apply Hv].
Qed.

(** ** Removing *)

Context (nlink_start_indexed nlink_end_indexed : path → M DS ()) (fs_mode : Z → Z).
Abbreviation do_remove := (ovl_do_remove sec encode_fh copy_up_indexed iterate rebalance fs_mode nlink_start_indexed nlink_end_indexed).

Lemma low_none_kept s0 s p : kept_dir sec s0 s → low_none (upper_tree s0) (below_at s0) p → low_none (upper_tree s) (below_at s) p.
Proof.
  intros Hk [Hc|Hl]; [left|right; by rewrite (kd_below _ _ _ Hk)]. apply covered_true in Hc as (q&Hq&Hpre&Hh). apply covered_true. exists q.
  split_and!; [done|done|]. unfold hide_at in *. destruct (upper_tree s0 !! q) as [i|] eqn:Hi; [|done].
  destruct (kd_upper _ _ _ Hk _ _ Hi) as (j&->&(Hd&_&Ho)%shape_parts). unfold hide_node in *. by rewrite Hd, Ho.
Qed.
Lemma kept_empty s0 s p : kept_dir sec s0 s → (∀ r, r ≠ [] → shown_at s0 (p ++ r) = None) → ∀ r, r ≠ [] → shown_at s (p ++ r) = None.
Proof. intros Hk Hn r Hr. pose proof (kd_view _ _ _ Hk (p ++ r)) as Hv. rewrite Hn in Hv by done. by inversion Hv. Qed.
Lemma kept_faults s0 s f : kept_dir sec s0 s → kept_dir sec s0 (with_faults f s).
Proof. intros Hk. eapply kept_dir_trans; [done|]. apply faults_kept, Hk. Qed.
Lemma kept_call s0 : triple (kept_dir sec s0) real_call (λ _, kept_dir sec s0) (λ _, kept_dir sec s0).
Proof. apply triple_real; [intros s f; apply kept_faults|done|done]. Qed.
Lemma nlink_start_kept s0 p e : triple (kept_dir sec s0) (ovl_nlink_start nlink_start_indexed p e) (λ _, kept_dir sec s0) (λ _, kept_dir sec s0).
Proof.
  unfold ovl_nlink_start. destruct (negb _); [by apply triple_ret|]. apply triple_get. intros s Hs.
  rewrite (co_index _ (kd_coherent _ _ _ Hs)). eapply triple_pre; [apply kept_call|by intros ? ->].
Qed.
Lemma nlink_end_any p (P : DS → Prop) E : (∀ s, P s → ofs_indexdir (ds_ofs s) = None) → triple P (ovl_nlink_end nlink_end_indexed p) (λ _, P) E.
Proof.
  intros HP. unfold ovl_nlink_end. apply triple_get. intros s Hs. rewrite (HP _ Hs). by apply triple_ret; intros ? ->.
Qed.

Lemma do_remove_ok s dir name e is_dir :
  coherent s → ds_dentries s !! (dir ++ [name]) = Some e → oe_positive e = true → (is_dir = true → oe_is_dir s e = true) →
  triple (λ t, t = s) (do_remove dir name is_dir)
    (λ _ s', gone (dir ++ [name]) s s' ∧ (is_dir = true → ∀ r, r ≠ [] → shown_at s ((dir ++ [name]) ++ r) = None)) (λ _, unseen s).
Proof.
  intros Hco He Hpos Hdir. unfold ovl_do_remove. set (p := dir ++ [name]) in *. assert (p ≠ []) as Hp by (unfold p; by destruct dir).
  destruct (co_parent _ Hco dir name) as (d&Hd&Hdp&_); [by exists e|].
  eapply triple_bind; [by apply (the_dentry_ok p e)|]. intros e'. apply (triple_pull (e' = e)); [by intros t []|]. intros ->.
  apply (triple_pre _ (λ t, t = s)); [|by intros t []].
  eapply triple_bind; [eapply triple_conseq; [by apply lower_positive_ok|done|done|]; intros err t [f ->]; by apply kept_unseen, faults_kept|].
  intros positive. apply (triple_pull (positive = false → low_none (upper_tree s) (below_at s) p)); [by intros t []|]. intros Hlow.
  set (check := is_dir && (positive || negb (ovl_pure_upper e))).
  eapply (triple_bind _ _ _ (λ list t, kept_dir sec s t ∧ (list ≠ [] ∨ check = true → ∀ r, r ≠ [] → shown_at s (p ++ r) = None))).
  { destruct check eqn:Hc; [|apply triple_ret; intros t [[f ->] _]; split; [by apply faults_kept|by intros [|]]].
    apply andb_true_iff in Hc as [Hc _]. apply triple_at. intros t [[f ->] _].
    eapply triple_conseq; [apply (check_empty_ok (with_faults f s) p e)|done| |].
    - apply (kd_coherent sec s), faults_kept, Hco.
    - exact He.
    - exact Hpos.
    - exact (Hdir Hc).
    - intros list t [[g ->] Hn]. split; [by apply kept_faults, faults_kept|]. intros _. exact Hn.
    - intros err t [g ->]. by apply kept_unseen, kept_faults, faults_kept. }
  intros list. match goal with |- triple (λ t, _ ∧ ?φ) _ _ _ => apply (triple_pull φ) end; [by intros t []|]. intros Hempty.
  apply (triple_pre _ (kept_dir sec s)); [|by intros t []].
  assert (∀ (err : error) t, kept_dir sec s t → unseen s t) as HE by (intros _ t; apply kept_unseen).
  eapply triple_bind; [eapply triple_conseq; [apply want_write_kept|done|done|exact HE]|]. intros [].
  eapply triple_bind; [eapply triple_conseq; [by apply (copy_up_kept sec encode_fh copy_up_indexed s dir d)|done|done|exact HE]|]. intros [].
  apply (triple_pre _ (kept_dir sec s)); [|by intros t []].
  eapply triple_bind; [eapply triple_conseq; [apply nlink_start_kept|done|done|exact HE]|]. intros [].
  set (Q := λ s', gone p s s' ∧ (is_dir = true → ∀ r, r ≠ [] → shown_at s (p ++ r) = None)).
  eapply (triple_defer_when _ _ _ _ (λ _, Q) _ (λ _, unseen s)).
  - apply triple_at. intros b Hb. pose proof (kd_coherent _ _ _ Hb) as Hcb.
    assert (list ≠ [] → ∀ r, r ≠ [] → shown_at b (p ++ r) = None) as Hlb by (intros Hl; apply (kept_empty s b p Hb); auto).
    destruct positive.
    + eapply triple_conseq; [apply (remove_and_whiteout_ok fs_mode p Hp e list b Hcb)|done| |].
      * pose proof (positive_shown _ Hco _ _ He) as Hs. rewrite Hpos in Hs. symmetry in Hs. apply bool_decide_eq_true in Hs as [n Hn].
        pose proof (kd_view _ _ _ Hb p) as Hv. rewrite Hn in Hv. by inversion Hv.
      * done.
      * intros [] t Ht. split; [eapply unseen_gone; [by apply kept_unseen|done]|]. intros ->. apply Hempty. by right.
      * intros err t Ht. eapply unseen_trans; [by apply kept_unseen|done].
    + eapply triple_conseq; [apply (remove_upper_ok fs_mode p Hp e is_dir list b Hcb)|done| |].
      * eapply low_none_kept; [done|auto].
      * done.
      * intros [] t [Ht Hn]. split; [eapply unseen_gone; [by apply kept_unseen|done]|]. intros Hid r Hr. specialize (Hn Hid r Hr).
        pose proof (kd_view _ _ _ Hb (p ++ r)) as Hv. rewrite Hn in Hv. by inversion Hv.
      * intros err t Ht. eapply unseen_trans; [by apply kept_unseen|done].
  - intros err. apply nlink_end_any. intros t [Ht _]; apply (co_index _ Ht).
  - intros [] _. apply nlink_end_any. intros t [[Ht _] _]; apply (co_index _ Ht).
  - done.
Qed.
End Check.

(** ** Creating *)

(** The entry [p] is there, and nothing else changed. *)
Definition added (p : path) (a : ovl_cattr) (s s' : DS) : Prop :=
  coherent s' ∧ ∃ n, new_inode a n ∧ shown_at s' p = Some n ∧
    ∀ q, q ≠ p → option_Forall2 (same_file sec) (shown_at s q) (shown_at s' q).
Lemma unseen_added p a s1 s2 s3 : unseen s1 s2 → added p a s2 s3 → added p a s1 s3.
Proof. intros [_ H1] [? (n&Hn&Hp&H2)]. split; [done|]. exists n. split_and!; [done|done|]. intros q Hq. eapply same_opt_trans; [apply H1|auto]. Qed.

(** The union of a sealed entry is the upper layer alone. *)
Lemma union_sealed s p n : layers_wf (ds_ls s) → 0 < length (ls_layers (ds_ls s)) → p ≠ [] → upper_tree s !! p = Some n → ovl_is_whiteout n = false →
  sealed (upper_tree s) (below_at s) p → union (ds_ls s) p = [0].
Proof.
  intros Hwf Hlen Hp Hn Hw Hse. pose proof (upper_layers _ Hlen) as Hl.
  apply sorted_same; [apply union_sorted|repeat constructor|]. intros j. rewrite list_elem_of_singleton. split.
  - intros [Hs _]%union_elem. destruct j as [|j]; [done|]. rewrite seen_tail, (blocked_covered _ _ _ _ Hl) in Hs.
    apply andb_true_iff in Hs as [Hc%negb_true_iff Hs]. exfalso. destruct Hse as [Hh|[Hc'|HL]].
    + assert (covered (upper_tree s) p = true); [|congruence]. apply covered_true. by exists p.
    + assert (covered (upper_tree s) p = true); [|congruence]. apply covered_true in Hc' as (q&?&Hq&?). apply covered_true. exists q.
      split_and!; [done|by apply parent_prefix|done].
    + apply view_none in HL. destruct (least_seen _ _ _ Hs) as (k&Hk&_&Hf).
      assert (k ∈ union (lower_of (ds_ls s)) p) as Hin by (apply union_elem; auto). rewrite HL in Hin. by apply not_elem_of_nil in Hin.
  - intros ->. apply union_elem. split; [|right; lia]. apply seen_true. split; [|lia]. unfold shows. by rewrite <-upper_node, Hn, Hw.
Qed.

Section Create.
Context (b t : DS) (p : path) (e : oentry) (a : ovl_cattr) (n : rinode).
Context (Hco : coherent b) (Hp : p ≠ []) (Hplain : ∀ q c, p = q ++ [c] → dot_free c).
Context (He : ds_dentries b !! p = Some e) (Hneg : oe_positive e = false).
Context (Ht : upto (graft p {[ [] := n ]} (upper_tree b)) b t) (Hd : dir_at (upper_tree b) (parent_dir p) = true).
Context (Hnew : new_inode a n) (Hw : ovl_is_whiteout n = false) (Hse : sealed (graft p {[ [] := n ]} (upper_tree b)) (below_at b) p).

Definition instantiated : DS := ds_set_dentries (alter (oe_set_upper (Some p)) p (ds_dentries t)) t.
Lemma no_child_dentry q : Os.below p q = true → q ≠ p → ds_dentries t !! q = None.
Proof.
  intros [r ->]%below_spec Hne. destruct (ds_dentries t !! (p ++ r)) as [e'|] eqn:He'; [|done]. exfalso.
  destruct (upto_lookup _ _ _ _ _ Ht He') as (e0&He0&_). clear He'.
  assert (∀ r, r ≠ [] → ds_dentries b !! (p ++ r) = None) as Hnone.
  { clear -Hco He Hneg. intros r. induction r as [|c r IH] using rev_ind; [done|]. intros _. rewrite app_assoc.
    destruct (ds_dentries b !! ((p ++ r) ++ [c])) as [x|] eqn:Hx; [|done]. destruct (co_parent _ Hco (p ++ r) c) as (d&Hd&Hdp&_); [by exists x|].
    destruct r as [|c' r]; [rewrite app_nil_r in Hd; congruence|]. by rewrite IH in Hd. }
  rewrite Hnone in He0; [done|]. intros ->. by rewrite app_nil_r in Hne.
Qed.
Lemma instantiated_coherent : coherent instantiated.
Proof.
  pose proof (sub_single n (proj2 (proj2 (proj2 Hnew)))) as HA.
  assert (coherent (dropped p t)) as Hdr by (by apply (drop_coherent b t p {[ [] := n ]}); try done; right).
  destruct (upto_lookup_r _ _ _ _ _ Ht He) as (e1&He1&Heq). pose proof (negative_lowers _ Hneg) as [Hun Hln].
  injection Heq as Hu1 Hl1.
  assert (instantiated = ds_set_dentries (<[p := oe_set_upper (Some p) e1]> (ds_dentries (dropped p t))) (dropped p t)) as ->.
  { unfold instantiated, ds_set_dentries. cbn. f_equal. apply map_eq. intros q. destruct (decide (p = q)) as [<-|Hne].
    - by rewrite lookup_alter_eq, lookup_insert_eq, He1.
    - rewrite lookup_alter_ne, lookup_insert_ne by done. change (filter _ (ds_dentries t)) with (ds_dentries (dropped p t)).
      rewrite dropped_lookup. destruct (Os.below p q) eqn:Hb; [|done]. by apply no_child_dentry. }
  apply add_coherent; [done|done|by rewrite dropped_lookup, (proj2 (below_spec p p))| |].
  - assert (union (ds_ls t) p = [0]) as Hun'.
    { assert (upper_tree t !! p = Some n) as Hn.
      { rewrite (upto_upper _ _ _ Ht), lookup_graft, (proj2 (below_spec p p)), drop_ge by done. by rewrite lookup_singleton_eq. }
      apply (union_sealed t p n (co_wf _ Hdr) (co_some _ Hdr) Hp Hn Hw). rewrite (upto_upper _ _ _ Ht). unfold sealed, low_none.
      by rewrite (upto_below_at _ b t p Hco Ht). }
    split; cbn; try done. intros _. split; [done|]. exists []. split; [done|]. intros _. by rewrite <-Hl1, Hln.
  - destruct p as [|c q _] using rev_ind; [done|]. destruct (co_parent _ Hco q c) as (d&Hd'&Hdp&Hdd); [by exists e|]. rewrite parent_dir_snoc.
    assert (Os.below (q ++ [c]) q = false) as Hb.
    { apply not_below_spec. intros Hl%prefix_length. rewrite length_app in Hl. cbn in Hl. lia. }
    destruct (upto_lookup_r _ _ _ _ _ Ht Hd') as (d1&Hd1&Heq1). exists d1. rewrite dropped_lookup, Hb.
    split_and!; [done|by rewrite (positive_dentry d)|]. unfold oe_is_dir.
    by rewrite (real_aside b t (q ++ [c]) {[ [] := n ]} Hco Ht q d d1).
Qed.
Lemma instantiated_added : added p a b instantiated.
Proof.
  split; [exact instantiated_coherent|]. exists n. split; [done|].
  pose proof (sub_single n (proj2 (proj2 (proj2 Hnew)))) as HA.
  assert (∀ q, shown_at instantiated q = if Os.below p q then nonwhite (({[ [] := n ]} : gmap path rinode) !! drop (length p) q) else shown_at b q) as Hsh.
  { intros q. change (shown_at instantiated q) with (shown_at t q).
    exact (drop_shown b t p {[ [] := n ]} Hco Hp HA (or_intror Hd) Ht q Hse). }
  split.
  - rewrite Hsh, (proj2 (below_spec p p)), drop_ge, lookup_singleton_eq by done. cbn. by rewrite Hw.
  - intros q Hq. rewrite Hsh. destruct (below_cases p q) as [(r&->&->)|[_ ->]]; [|apply same_opt_refl]. rewrite drop_app_length.
    assert (r ≠ []) as Hr by (intros ->; by rewrite app_nil_r in Hq). rewrite lookup_singleton_ne by done.
    assert (shown_at b (p ++ r) = None) as ->; [|constructor]. apply closed_none; [apply view_closed, Hco|].
    pose proof (positive_shown _ Hco _ _ He) as Hs. rewrite Hneg in Hs. symmetry in Hs. apply bool_decide_eq_false in Hs.
    unfold shown_at in Hs |- *. by apply eq_None_not_Some.
Qed.
End Create.

Lemma alter_graft (p : path) (n : rinode) (f : rinode → rinode) (u : gmap path rinode) : alter f p (graft p {[ [] := n ]} u) = graft p {[ [] := f n ]} u.
Proof.
  apply map_eq. intros q. destruct (decide (p = q)) as [<-|Hne].
  - rewrite lookup_alter_eq, !lookup_graft, (proj2 (below_spec p p)), drop_ge by done. by rewrite !lookup_singleton_eq.
  - rewrite lookup_alter_ne, !lookup_graft by done. destruct (below_cases p q) as [(r&->&->)|[_ ->]]; [|done]. rewrite drop_app_length.
    rewrite !lookup_singleton_ne; [done|..]; intros <-; by rewrite app_nil_r in Hne.
Qed.
(** Marking the new directory, as far as that works. *)
Lemma set_opaque_upper b u p n :
  triple (upto (graft p {[ [] := n ]} u) b) (ovl_set_opaque p (Upper, p))
    (λ _, upto (graft p {[ [] := set_xattr OVL_XATTR_OPAQUE "y" n ]} u) b) (λ _, upto (graft p {[ [] := n ]} u) b).
Proof.
  unfold ovl_set_opaque, ovl_set_opaque_xerr. apply triple_get. intros s1 Hs1. destruct (ls_noxattr _); [by apply triple_fail; intros ? ->|].
  apply (triple_pre _ (upto (graft p {[ [] := n ]} u) b)); [|by intros ? ->].
  eapply (triple_bind _ _ _ (λ _, upto (graft p {[ [] := set_xattr OVL_XATTR_OPAQUE "y" n ]} u) b)).
  - apply triple_real; [auto..|]. intros s Hs. cbn [tree fst snd]. rewrite (upto_upper _ _ _ Hs), alter_graft. by eapply set_upper_upto.
  - intros []. apply triple_modify. intros s Hs. by apply mark_opaque_upto.
Qed.

Section NewEntry.
Context (umask fsuid fsgid : Z) (posixacl : bool) (posix_acl_create : path → ftype → Z → Z * option string * option string)
        (fs_mode : Z → Z) (inode_stale : path → bool) (Hstale : ∀ p, inode_stale p = false).

Definition not_whiteout (f : ftype) : Prop := f ≠ S_IFCHR WHITEOUT_DEV.
Lemma new_not_whiteout a n : new_inode a n → not_whiteout (ca_type a) → ovl_is_whiteout n = false.
Proof.
  intros (Ht&_) Hn. unfold ovl_is_whiteout. rewrite Ht. destruct (ca_type a) as [| | |rdev|]; try done. apply Z.eqb_neq. intros ->. by destruct Hn.
Qed.
Lemma negative_shown s p e : coherent s → ds_dentries s !! p = Some e → oe_positive e = false → shown_at s p = None.
Proof.
  intros Hco He Hneg. pose proof (positive_shown _ Hco _ _ He) as Hs. rewrite Hneg in Hs. symmetry in Hs. apply bool_decide_eq_false in Hs.
  by apply eq_None_not_Some.
Qed.
(** A name the overlay does not have, and the upper layer neither. *)
Lemma negative_low b p e : coherent b → p ≠ [] → ds_dentries b !! p = Some e → oe_positive e = false → upper_tree b !! p = None →
  low_none (upper_tree b) (below_at b) p.
Proof.
  intros Hco Hp He Hneg Hn. apply low_none_over; [done|]. rewrite prune_graft, <-delete_graft.
  - rewrite delete_id by done. rewrite <-(shown_over b) by done. by eapply negative_shown.
  - intros r _. apply tree_none; [by apply upper_wf|done].
Qed.

Section Entry.
Context (b : DS) (dir : path) (name : string) (e : oentry) (a : ovl_cattr).
Context (Hco : coherent b) (Hname : dot_free name) (He : ds_dentries b !! (dir ++ [name]) = Some e) (Hneg : oe_positive e = false)
        (Hty : not_whiteout (ca_type a)).
Let p := dir ++ [name].
Lemma entry_ne : p ≠ [].
Proof. unfold p. by destruct dir. Qed.
Lemma entry_plain q c : p = q ++ [c] → dot_free c.
Proof. unfold p. by intros [-> <-]%app_inj_tail. Qed.

Lemma instantiate_ok n t :
  upto (graft p {[ [] := n ]} (upper_tree b)) b t → dir_at (upper_tree b) (parent_dir p) = true → new_inode a n →
  sealed (graft p {[ [] := n ]} (upper_tree b)) (below_at b) p → ∃ t', ovl_instantiate inode_stale p t = (Ok tt, t') ∧ added p a b t'.
Proof.
  intros Ht Hd Hn Hse. unfold ovl_instantiate. rewrite Hstale. eexists. split; [done|].
  apply (instantiated_added b t p e a n); try done; [apply entry_ne|exact entry_plain|by eapply new_not_whiteout].
Qed.

Lemma create_upper_ok : oe_opaque e = false →
  triple (λ t, t = b) (ovl_create_upper umask posixacl fs_mode inode_stale dir name a) (λ _, added p a b) (λ _, unseen b).
Proof.
  intros Hop. assert (upper_tree b !! p = None) as Hn.
  { rewrite upper_node. apply eq_None_not_Some. intros Hs. apply (eo_negative _ _ _ (co_entry _ Hco _ _ He) Hneg) in Hs. congruence. }
  pose proof (negative_low b p e Hco entry_ne He Hneg Hn) as Hlow. pose proof (upper_wf _ Hco) as Hu.
  unfold ovl_create_upper. fold p. set (a' := if posixacl then a else _). assert (new_inode a (attr_node fs_mode a') ∧ ca_type a' = ca_type a) as [Hna Hta].
  { unfold a'. by destruct posixacl; split_and!. }
  assert (∀ (err : error) t, upto (upper_tree b) b t → unseen b t) as HE by (intros _ t; by apply upto_unseen).
  apply (triple_pre _ (upto (upper_tree b) b)); [|intros ? ->; by apply upto_refl].
  eapply (triple_bind _ _ _ (λ _ t, upto (graft p {[ [] := attr_node fs_mode a' ]} (upper_tree b)) b t ∧ dir_at (upper_tree b) (parent_dir p) = true)).
  { unfold ovl_create_real. eapply triple_bind; [eapply triple_conseq; [apply lookup_upto|done|done|exact HE]|]. intros [m|].
    - apply triple_fail. intros t [? _]. by apply (HE (OsError EIO)).
    - eapply triple_conseq; [apply (create_upto b _ Hu p)|by intros t []| |exact HE]. by intros [] t (?&?&?). }
  intros []. apply (triple_pull (dir_at (upper_tree b) (parent_dir p) = true)); [by intros t []|]. intros Hd.
  apply (triple_pre _ (upto (graft p {[ [] := attr_node fs_mode a' ]} (upper_tree b)) b)); [|by intros t []].
  destruct (co_parent _ Hco dir name) as (d&Hdd&_); [by exists e|].
  eapply (triple_bind _ _ _ (λ _, upto (graft p {[ [] := attr_node fs_mode a' ]} (upper_tree b)) b)).
  { intros t Ht. destruct (upto_lookup_r _ _ _ _ _ Ht Hdd) as (d'&Hd'&_). unfold the_dentry, mbind, M_bind, get. cbn. by rewrite Hd'. }
  intros parent. apply triple_get. intros s1 Hs1. apply (triple_pre _ (upto (graft p {[ [] := attr_node fs_mode a' ]} (upper_tree b)) b)); [|by intros ? ->].
  eapply (triple_bind _ _ _ (λ _ t, ∃ n, upto (graft p {[ [] := n ]} (upper_tree b)) b t ∧ new_inode a n)).
  { destruct (_ && _); [|apply triple_ret; intros t Ht; by exists (attr_node fs_mode a')]. apply triple_ignore. eapply triple_conseq; [apply set_opaque_upper|done| |].
    - intros [] t Ht. eexists. split; [exact Ht|]. destruct Hna as (?&?&?&?). by split_and!.
    - intros err t Ht. by exists (attr_node fs_mode a'). }
  intros [] t (n&Ht&Hni). destruct (instantiate_ok n t Ht Hd Hni) as (t'&Hrun&Had); [apply sealed_low; [apply entry_ne|done]|].
  unfold defer_on_error, defer_when. by rewrite Hrun.
Qed.
Lemma create_over_ok :
  triple (λ t, t = b) (ovl_create_over_whiteout posix_acl_create fs_mode inode_stale dir name a) (λ _, added p a b) (λ _, unseen b).
Proof.
  pose proof (upper_wf _ Hco) as Hu. unfold ovl_create_over_whiteout. fold p. apply triple_get. intros s1 ->.
  destruct (ofs_workdir _); [|by apply triple_fail; intros ? ->; apply unseen_refl].
  apply (triple_pre _ (upto (upper_tree b) b)); [|intros ? ->; by apply upto_refl].
  assert (∀ (err : error) t, upto (upper_tree b) b t → unseen b t) as HE by (intros _ t; by apply upto_unseen).
  eapply triple_bind; [eapply triple_conseq; [apply call_upto|done|done|exact HE]|]. intros [].
  destruct (posix_acl_create dir (ca_type a) (ca_mode a)) as [[mode acl] default_acl].
  eapply triple_bind; [eapply triple_conseq; [apply call_upto|done|done|exact HE]|]. intros [].
  eapply triple_bind; [eapply triple_conseq; [apply lookup_upto|done|done|exact HE]|]. intros upper.
  apply (triple_pre _ (upto (upper_tree b) b)); [|by intros t []].
  apply over_whiteout; [done|exact HE|]. intros t (n&Ht&Hni&Hh&Hd).
  destruct (instantiate_ok n t Ht Hd Hni) as (t'&Hrun&Had); [by eapply sealed_root; [apply lookup_singleton_eq|]|].
  unfold mbind, M_bind, attempt. by rewrite Hrun.
Qed.
End Entry.

Abbreviation create_object :=
  (ovl_create_object sec encode_fh copy_up_indexed umask fsuid fsgid posixacl posix_acl_create fs_mode inode_stale).

(** The owner of a new entry depends on what its directory is, not on where it is. *)
Lemma owner_same o o' f mode : option_Forall2 (same_file sec) o o' → (∀ n, o = Some n → is_dir_node n = true) →
  inode_init_owner fsuid fsgid o' f mode = inode_init_owner fsuid fsgid o f mode.
Proof.
  intros [n m (Ht&Hu&Hg&Hm&_)|] Hd; [|done]. cbn. assert (ri_mode m = ri_mode n) as Hmode.
  { apply Hm. specialize (Hd n eq_refl). unfold is_dir_node in Hd. by destruct (ri_type n). }
  by rewrite Hmode, Hg.
Qed.
Lemma create_object_ok s dir name e f mode :
  coherent s → dot_free name → ds_dentries s !! (dir ++ [name]) = Some e → oe_positive e = false → not_whiteout f →
  triple (λ t, t = s) (create_object dir name f mode)
    (λ _, added (dir ++ [name]) (inode_init_owner fsuid fsgid (shown_at s dir) f mode) s) (λ _, unseen s).
Proof.
  intros Hco Hname He Hneg Hty. destruct (co_parent _ Hco dir name) as (d&Hd&Hdp&Hdd); [by exists e|].
  set (a := inode_init_owner fsuid fsgid (shown_at s dir) f mode).
  assert (ca_type a = f) as Ha by (unfold a, inode_init_owner; destruct (shown_at s dir); [destruct (has _ _)|]; done).
  assert (∀ n, shown_at s dir = Some n → is_dir_node n = true) as Hdir.
  { intros n Hn. by rewrite <-(dir_shown s Hco dir d n Hd Hdp Hn). }
  assert (∀ (err : error) t, kept_dir sec s t → unseen s t) as HE by (intros _ t; apply kept_unseen).
  unfold ovl_create_object. apply (triple_pre _ (kept_dir sec s)); [|intros ? ->; by apply kept_dir_refl].
  eapply triple_bind; [eapply triple_conseq; [apply want_write_kept|done|done|exact HE]|]. intros [].
  apply triple_at. intros t Ht. pose proof (kd_coherent _ _ _ Ht) as Hct. destruct (kd_dentry _ _ _ Ht _ _ Hd) as (d'&Hd'&Hdp'&_).
  eapply triple_bind; [by apply (the_dentry_ok dir d')|]. intros d''. apply (triple_pull (d'' = d')); [by intros u []|]. intros ->.
  apply triple_get. intros t' [_ ->]. rewrite Hdp in Hdp'. rewrite (real_shown t Hct dir d' Hd' Hdp').
  rewrite (owner_same (shown_at s dir)) by (done || apply (kd_view _ _ _ Ht)). fold a.
  apply (triple_pre _ (kept_dir sec s)); [|by intros ? ->]. unfold ovl_create_or_link.
  eapply triple_bind; [eapply triple_conseq; [by apply (copy_up_kept sec encode_fh copy_up_indexed s dir d)|done|done|exact HE]|]. intros [].
  apply (triple_pre _ (kept_dir sec s)); [|by intros u []].
  eapply triple_bind; [eapply triple_conseq; [apply kept_call|done|done|exact HE]|]. intros [].
  apply triple_at. intros b Hb. pose proof (kd_coherent _ _ _ Hb) as Hcb. destruct (kd_dentry _ _ _ Hb _ _ He) as (e'&He'&_&Heq&_). rewrite (Heq Hneg) in He'.
  eapply triple_bind; [by apply (the_dentry_ok (dir ++ [name]) e)|]. intros e''. apply (triple_pull (e'' = e)); [by intros u []|]. intros ->.
  apply (triple_pre _ (λ t, t = b)); [|by intros u []].
  assert (not_whiteout (ca_type a)) as Hty' by (by rewrite Ha).
  unfold ovl_dentry_is_whiteout. rewrite Hneg. cbn [negb andb].
  apply (triple_conseq _ (λ t, t = b) _ _ (λ _, added (dir ++ [name]) a b) _ (λ _, unseen b)).
  - destruct (oe_opaque e) eqn:Hop; [by eapply create_over_ok|by eapply create_upper_ok].
  - done.
  - intros [] u Hu. eapply unseen_added; [by apply kept_unseen|done].
  - intros err u Hu. eapply unseen_trans; [by apply kept_unseen|done].
Qed.
End NewEntry.
End Props.
