(* ===== verification/OvlDcache.v ===== *)
(** * The cache of dentries when an entry moves

    After a rename the VFS moves the dentry, with the ones below it, to its new place
    ([d_move]), or lets two dentries change places ([d_exchange]); what is known of the
    entries stays with them.  Moved like that the dentries stand for the layers. *)

From S2P Require Import Prelude FileSys OvlOpts OvlMount OvlCopyUp OvlProps OvlLookup OvlReaddir OvlDir OvlMountProps OvlReaddirProps OvlLookupProps OvlUnion OvlView OvlDirInv OvlDirCopy OvlDirOps OvlDirProps.

(** ** Moving dentries *)

(** A dentry keeps its flags and its lower entries; the dentry of the upper file system it
    has was moved by the rename there. *)
Definition rehome (old new : path) (e : oentry) : oentry :=
  oe_set_upper ((λ u, new ++ drop (length old) u) <$> oe_upper e) e.
Definition rehomed (old new : path) (d : gmap path oentry) : gmap path oentry := rehome old new <$> Os.strip old d.
(** The dentries at [new] are unhashed, and those below it are gone. *)
Definition d_move (old new : path) (s : DS) : DS :=
  ds_set_dentries (graft new (rehomed old new (ds_dentries s)) (graft old ∅ (ds_dentries s))) s.
Definition d_exchange (old new : path) (s : DS) : DS :=
  ds_set_dentries (graft new (rehomed old new (ds_dentries s)) (graft old (rehomed new old (ds_dentries s)) (ds_dentries s))) s.

Lemma rehome_positive old new e : oe_positive (rehome old new e) = oe_positive e.
Proof. unfold oe_positive. cbn. by destruct (oe_upper e). Qed.

(** ** What the upper layer has alone *)

Lemma union_moved l l' old new :
  layers_wf l → layers_wf l' → union l old = [0] → union l' new = [0] → (∀ r, node l' 0 (new ++ r) = node l 0 (old ++ r)) →
  ∀ r, union l' (new ++ r) = union l (old ++ r) ∧ (union l (old ++ r) = [] ∨ union l (old ++ r) = [0]).
Proof.
  intros Hwf Hwf' Ho Hn Hnode r. induction r as [|c r [IH Hcase]] using rev_ind; [rewrite !app_nil_r, Ho; auto|].
  rewrite !app_assoc, (union_snoc _ Hwf), (union_snoc _ Hwf'), IH. destruct Hcase as [-> | ->]; [by auto|].
  cbn [pick_layers]. pose proof (Hnode (r ++ [c])) as He. rewrite !app_assoc in He. rewrite He. split; [done|].
  destruct (node l 0 _) as [n|]; [|by auto]. repeat case_match; auto.
Qed.

Section Entry.
Context (l l' : LS) (old new : path) (Hwf : layers_wf l) (Hwf' : layers_wf l') (Hold : union l old = [0]) (Hnew : union l' new = [0])
        (Hnode : ∀ r, node l' 0 (new ++ r) = node l 0 (old ++ r)).
Lemma view_moved r : view l' (new ++ r) = view l (old ++ r).
Proof.
  unfold view. destruct (union_moved l l' old new Hwf Hwf' Hold Hnew Hnode r) as [-> [-> | ->]]; [done|apply Hnode].
Qed.
Lemma entry_moved r e : entry_ok l (old ++ r) e → entry_ok l' (new ++ r) (rehome old new e).
Proof.
  intros [Hpos Hup Hneg]. destruct (union_moved l l' old new Hwf Hwf' Hold Hnew Hnode r) as [Hu Hcase]. split; rewrite ?rehome_positive; cbn.
  - intros Hp. specialize (Hpos Hp). unfold stands in *. cbn in *. destruct (oe_upper e) as [u|] eqn:He; cbn.
    + destruct Hpos as [-> (rest&Hr&Hl)]. rewrite drop_app_length. split; [done|]. exists rest. rewrite Hu. split; [done|].
      assert (rest = []) as -> by (destruct Hcase as [Hc|Hc]; rewrite Hc in Hr; congruence).
      unfold can_lookup in *. rewrite Hnode. intros Hd. by apply Hl.
    + destruct Hpos as [Hne Hl]. destruct Hcase as [Hc|Hc]; [done|]. specialize (Hup eq_refl Hp).
      assert (0 ∈ union l (old ++ r)) as [[Hs _]%seen_true _]%union_elem by (rewrite Hc; left). apply shows_node in Hs as [n Hn]. congruence.
  - rewrite Hnode. intros Hnone. apply Hup. by destruct (oe_upper e).
  - intros Hp. specialize (Hneg Hp). by rewrite Hu, Hnode.
Qed.
End Entry.

(** ** Dentries come in *)

(** A dentry of a state that has changed above some place only. *)
Lemma upto_entry v c t q e : coherent c → upto v c t → ds_dentries t !! q = Some e → entry_ok (ds_ls c) q e.
Proof.
  intros Hco Ht He. destruct (upto_lookup _ _ _ _ _ Ht He) as (e0&He0&Heq). destruct (co_entry _ Hco _ _ He0) as [Hpos Hup Hneg].
  assert (oe_upper e0 = oe_upper e) as Hu by (by injection Heq). pose proof (positive_dentry e0 e Heq) as Hp. split; rewrite Hp.
  - by rewrite <-Heq.
  - by rewrite <-Hu.
  - intros H. specialize (Hneg H) as [? Hop]. split; [done|]. intros Hn. eapply (up_opaque _ _ _ Ht); [done..|]. by apply Hop.
Qed.

Lemma splice_coherent s p D :
  coherent (dropped p s) → p ≠ [] → (∀ r e, D !! r = Some e → entry_ok (ds_ls s) (p ++ r) e) →
  (∀ r c, is_Some (D !! (r ++ [c])) → ∃ d, D !! r = Some d ∧ oe_positive d = true ∧ oe_is_dir s d = true) →
  (is_Some (D !! []) → ∃ d, ds_dentries s !! parent_dir p = Some d ∧ oe_positive d = true ∧ oe_is_dir s d = true) →
  coherent (ds_set_dentries (graft p D (ds_dentries s)) s).
Proof.
  intros [H1 H2 H3 H4 H5 H6 H7 H8 H9 Hroot Hpar Hent] Hp HD Hdirs Htop. split; try done; cbn [ds_dentries ds_set_dentries].
  - rewrite lookup_graft. rewrite dropped_lookup in Hroot. destruct (Os.below p []) eqn:Hb; [by destruct Hroot|done].
  - intros q c. rewrite !lookup_graft, below_snoc. destruct (below_cases p q) as [(r&->&->)|[Hn Hb]]; [rewrite <-app_assoc, !drop_app_length; apply Hdirs|].
    rewrite Hb. cbn [orb]. case_bool_decide as Heq; intros Hc.
    + subst p. rewrite drop_ge in Hc by done. destruct (Htop Hc) as (d&Hd&?&?). rewrite parent_dir_snoc in Hd. by exists d.
    + destruct (Hpar q c) as (d&Hd&?&?); [|exists d; by rewrite dropped_lookup, Hb in Hd].
      rewrite dropped_lookup, below_snoc, Hb. by rewrite bool_decide_eq_false_2.
  - intros q e. rewrite lookup_graft. destruct (below_cases p q) as [(r&->&->)|[Hn Hb]]; [rewrite drop_app_length; apply HD|].
    rewrite Hb. intros He. apply Hent. by rewrite dropped_lookup, Hb.
Qed.

(** The dentries of [old] go to [new], where the upper layer has now what it had at
    [old]. *)
Section Rehome.
Context (v : gmap path rinode) (c t : DS) (old new : path).
Context (Hco : coherent c) (Ht : upto v c t) (Hwf : layers_wf (ds_ls t)) (Hold : union (ds_ls c) old = [0]) (Hnew : union (ds_ls t) new = [0])
        (Hnode : ∀ r, v !! (new ++ r) = upper_tree c !! (old ++ r)).
Lemma rehome_node r : node (ds_ls t) 0 (new ++ r) = node (ds_ls c) 0 (old ++ r).
Proof. by rewrite (upto_top v c t), <-upper_node. Qed.
Lemma rehomed_entry r e : rehomed old new (ds_dentries t) !! r = Some e → entry_ok (ds_ls t) (new ++ r) e.
Proof.
  unfold rehomed. rewrite lookup_fmap, lookup_strip. destruct (ds_dentries t !! (old ++ r)) as [e0|] eqn:He; [|done]. intros [= <-].
  apply (entry_moved (ds_ls c)); [apply Hco|done|done|done|exact rehome_node|]. by eapply upto_entry.
Qed.
Lemma rehomed_dirs r x : is_Some (rehomed old new (ds_dentries t) !! (r ++ [x])) →
  ∃ d, rehomed old new (ds_dentries t) !! r = Some d ∧ oe_positive d = true ∧ oe_is_dir t d = true.
Proof.
  intros Hx. unfold rehomed in Hx. rewrite lookup_fmap, lookup_strip, app_assoc in Hx. destruct (ds_dentries t !! ((old ++ r) ++ [x])) as [e|] eqn:He; [|by destruct Hx].
  destruct (upto_lookup _ _ _ _ _ Ht He) as (e0&He0&_). destruct (co_parent _ Hco (old ++ r) x) as (d0&Hd0&Hdp&Hdd); [by exists e0|].
  destruct (upto_lookup_r _ _ _ _ _ Ht Hd0) as (d&Hd&Heq). exists (rehome old new d).
  assert (rehomed old new (ds_dentries t) !! r = Some (rehome old new d)) as Hr by (unfold rehomed; by rewrite lookup_fmap, lookup_strip, Hd).
  assert (oe_positive (rehome old new d) = true) as Hpos by (by rewrite rehome_positive, (positive_dentry d0)).
  split_and!; [done|done|]. unfold oe_is_dir. rewrite (entry_real t (new ++ r)) by (done || by apply rehomed_entry).
  unfold shown_at. rewrite (view_moved (ds_ls c) (ds_ls t) old new) by (done || apply Hco || exact rehome_node). change (view (ds_ls c)) with (shown_at c).
  rewrite <-(real_shown _ Hco _ _ Hd0 Hdp). exact Hdd.
Qed.
End Rehome.
