(* ===== verification/OvlDirRename.v ===== *)
(** * Renaming entries of an overlay

    A rename that succeeds moves the entry with all that is below it, and leaves
    nothing behind; one that fails does not show. *)

From S2P Require Import Prelude FileSys OvlOpts OvlMount OvlCopyUp OvlProps OvlLookup OvlReaddir OvlDir OvlMountProps OvlReaddirProps OvlLookupProps OvlUnion OvlView OvlDirInv OvlDirCopy OvlDirOps OvlDirProps OvlDcache.

(** ** Directories of the upper layer alone *)

Lemma snoc_ne (p : path) c : p ++ [c] ≠ [].
Proof. by destruct p. Qed.

Lemma seen_below s p c : coherent s → union (ds_ls s) p = [0] → dir_at (upper_tree s) p = true → low_none (upper_tree s) (below_at s) (p ++ [c]).
Proof.
  intros Hco Hu Hd. unfold low_none. rewrite parent_dir_snoc. destruct (covered (upper_tree s) p) eqn:Hc; [by left|right].
  destruct (below_at s (p ++ [c])) as [n|] eqn:Hn; [|done]. exfalso.
  destruct (view_closed _ (lower_wf _ Hco) p c) as (m&Hm&Hmd); [unfold below_at in Hn; by rewrite Hn|].
  apply view_first in Hm as (j&Hj&Hs&_). assert (S j ∈ union (ds_ls s) p) as Hin; [|rewrite Hu in Hin; by apply list_elem_of_singleton in Hin].
  apply union_elem. split.
  - rewrite seen_tail, (blocked_covered _ _ _ _ (upper_layers _ (co_some _ Hco))), Hc. done.
  - left. unfold can_lookup. rewrite <-node_tail, Hj. done.
Qed.
(** What is below such a directory is what the upper layer has. *)
Lemma pure_shown s p r : coherent s → p ≠ [] → union (ds_ls s) p = [0] → shown_at s (p ++ r) = nonwhite (upper_tree s !! (p ++ r)).
Proof.
  intros Hco Hp Hu. rewrite (shown_over s) by done. assert (is_Some (upper_tree s !! p)) as [n Hn].
  { assert (0 ∈ union (ds_ls s) p) as [[Hs _]%seen_true _]%union_elem by (rewrite Hu; left). rewrite upper_node. by apply shows_node. }
  destruct r as [|c r]; [rewrite app_nil_r; unfold over; by rewrite Hn|]. destruct (dir_at (upper_tree s) p) eqn:Hd.
  - replace (p ++ c :: r) with ((p ++ [c]) ++ r) by (by rewrite <-app_assoc).
    apply over_sealed; [by apply below_closed|by destruct p|]. right. by apply seen_below.
  - apply over_sealed; [by apply below_closed|done|]. left. unfold hide_at, hide_node, is_dir_node. unfold dir_at in Hd. rewrite Hn in Hd |- *.
    by rewrite Hd.
Qed.

(** An opaque mark on such a directory does not show. *)
Lemma union_opaque s s' p :
  layers_wf s → layers_wf s' → p ≠ [] → union s p = [0] → can_lookup s' 0 p = true → hides s' 0 p = true →
  (∀ i q, (i, q) ≠ (0, p) → shape <$> node s' i q = shape <$> node s i q) → ∀ q, union s' q = union s q.
Proof.
  intros Hwf Hwf' Hp Hu Hd Hh Hsh q. induction q as [|c q IH] using rev_ind.
  { apply union_shape. intros i r ->%prefix_nil_inv. apply Hsh. intros [= _ <-]. done. }
  rewrite (union_snoc _ Hwf'), IH. destruct (decide (p = q ++ [c])) as [->|Hne].
  2:{ rewrite (union_snoc _ Hwf). apply pick_shape. intros i _. apply Hsh. intros [= _ <-]. done. }
  rewrite Hu. assert (∃ rest, union s q = 0 :: rest) as [rest Hq].
  { assert (0 ∈ union s q) as Hin by (apply (union_parent _ Hwf _ c); rewrite Hu; left).
    pose proof (union_sorted s q) as Hs. destruct Hs as [|i rest Hs Hi]; [by apply not_elem_of_nil in Hin|]. rewrite Forall_forall in Hi.
    apply elem_of_cons in Hin as [<-|Hin]; [by exists rest|]. specialize (Hi _ Hin). lia. }
  rewrite Hq. cbn [pick_layers]. unfold can_lookup in Hd. unfold hides in Hh. destruct (node s' 0 (q ++ [c])) as [m|]; [|done].
  unfold is_dir_node in *. rewrite Hd in *. cbn in Hh |- *. rewrite Hh. unfold ovl_is_whiteout. by destruct (ri_type m).
Qed.

Section Rename.
Context (sec : string → Z) (encode_fh : path → string) (copy_up_indexed : path → path → Z → M OS ()).

(** One step of a rename that does not show: what has nothing below keeps it so. *)
Definition onward (s t : DS) : Prop :=
  unseen sec s t ∧ ∀ p, low_none (upper_tree s) (below_at s) p → low_none (upper_tree t) (below_at t) p.
Lemma onward_refl s : coherent s → onward s s.
Proof. intros Hco. split; [by apply unseen_refl|done]. Qed.
Lemma onward_trans s1 s2 s3 : onward s1 s2 → onward s2 s3 → onward s1 s3.
Proof. intros [H1 L1] [H2 L2]. split; [by eapply unseen_trans|auto]. Qed.
Lemma kept_onward s t : kept_dir sec s t → onward s t.
Proof. intros Hk. split; [by apply kept_unseen|]. intros p. by eapply low_none_kept. Qed.

Lemma mark_dir c t p :
  coherent c → p ≠ [] → union (ds_ls c) p = [0] → dir_at (upper_tree c) p = true →
  upto (alter (set_xattr OVL_XATTR_OPAQUE "y") p (upper_tree c)) c t →
  onward c t ∧ hide_at (upper_tree t) p = true ∧ (∀ q, union (ds_ls t) q = union (ds_ls c) q) ∧ ∀ q, q ≠ p → upper_tree t !! q = upper_tree c !! q.
Proof.
  intros Hco Hp Hu Hd Ht. set (v := alter _ p (upper_tree c)) in *.
  assert (tree_wf v) as Hv by (apply alter_tree_wf; [done|by apply upper_wf]).
  assert (∃ n, upper_tree c !! p = Some n ∧ v !! p = Some (set_xattr OVL_XATTR_OPAQUE "y" n)) as (n&Hn&Hvn).
  { unfold dir_at in Hd. destruct (upper_tree c !! p) as [n|] eqn:Hn; [|done]. exists n. split; [done|]. unfold v. by rewrite lookup_alter_eq, Hn. }
  assert (hide_at v p = true) as Hh.
  { unfold hide_at, hide_node, is_opaque_node. rewrite Hvn. cbn. rewrite lookup_insert_eq. apply orb_true_r. }
  assert (∀ i q, (i, q) ≠ (0, p) → node (ds_ls t) i q = node (ds_ls c) i q) as Hsame.
  { intros [|i] q Hne; [|by eapply upto_below]. rewrite (upto_top v c t), <-upper_node by done. apply lookup_alter_ne. congruence. }
  pose proof (upto_layers_wf v c t Hco Hv Ht) as Hwf.
  assert (can_lookup (ds_ls t) 0 p = true) as Hct.
  { unfold can_lookup. rewrite (upto_top v c t), Hvn by done. unfold dir_at in Hd. by rewrite Hn in Hd. }
  assert (∀ q, union (ds_ls t) q = union (ds_ls c) q) as Hun.
  { apply (union_opaque _ _ p); [apply Hco|done|done|done|done| |intros i q Hne; by rewrite Hsame].
    unfold hides. rewrite (upto_top v c t) by done. unfold hide_at in Hh. by rewrite Hvn in Hh |- *. }
  assert (∀ q, option_Forall2 (same_file sec) (upper_tree c !! q) (upper_tree t !! q)) as Hup.
  { intros q. rewrite (upto_upper _ _ _ Ht). destruct (decide (p = q)) as [<-|Hne].
    - rewrite Hn, Hvn. constructor. split_and!; try done. intros x Hx. cbn. rewrite lookup_insert_ne; [done|]. intros <-. by destruct Hx.
    - unfold v. rewrite lookup_alter_ne by done. apply same_opt_refl. }
  assert (∀ i q, option_Forall2 (same_file sec) (node (ds_ls c) i q) (node (ds_ls t) i q)) as Hnode.
  { intros [|i] q; [by rewrite <-!upper_node|]. rewrite (upto_below v c t) by done. apply same_opt_refl. }
  assert (∀ q, can_lookup (ds_ls t) 0 q = can_lookup (ds_ls c) 0 q) as Hcl.
  { intros q. unfold can_lookup. by destruct (Hnode 0 q) as [x y (->&_)|]. }
  assert (same_view sec c t) as Hsv.
  { intros q. unfold shown_at, view. rewrite Hun. destruct (union (ds_ls c) q); [constructor|apply Hnode]. }
  assert (∀ q e, ds_dentries t !! q = Some e → entry_ok (ds_ls t) q e) as Hent.
  { intros q e He. destruct (upto_lookup _ _ _ _ _ Ht He) as (e0&He0&Heq). pose proof (up_opaque _ _ _ Ht _ _ _ He0 He) as Hop. destruct (co_entry _ Hco _ _ He0) as [Hpos Hupp Hneg].
    assert (oe_upper e0 = oe_upper e) as Hu0 by (by injection Heq). split.
    - rewrite (positive_dentry e0 e) by done. intros Hp0. specialize (Hpos Hp0). unfold stands in *. rewrite <-Heq, Hun. by destruct (de_upper _); [rewrite Hcl|].
    - rewrite (positive_dentry e0 e), <-Hu0 by done. intros H1 H2. specialize (Hupp H1 H2). pose proof (Hnode 0 q) as H. rewrite Hupp in H. by inversion H.
    - rewrite (positive_dentry e0 e) by done. intros Hp0. specialize (Hneg Hp0) as [Hnil Hs]. rewrite Hun. split; [done|]. intros [x Hx]. apply Hop, Hs.
      pose proof (Hnode 0 q) as H. rewrite Hx in H. by inversion H. }
  split; [|rewrite (upto_upper _ _ _ Ht); split_and!; [done|done|]; intros q Hq; by apply lookup_alter_ne]. split; [split; [|done]|].
  - split; [done| | | |apply Ht|rewrite (up_ofs _ _ _ Ht); apply Hco..| | |done].
    + rewrite (up_layers _ _ _ Ht). cbn. lia.
    + intros i q x Hx. destruct (decide ((i, q) = (0, p))) as [[= -> ->]|Hne]; [|rewrite Hsame in Hx by done; by eapply (co_redirect _ Hco)].
      rewrite (upto_top v c t), Hvn in Hx by done. injection Hx as <-. cbn. rewrite lookup_insert_ne by done. eapply (co_redirect _ Hco 0 p). by rewrite <-upper_node.
    + intros i q x [y Hy]. pose proof (Hnode i (q ++ [x])) as H. rewrite Hy in H. apply (co_names _ Hco i q). by inversion H.
    + destruct (co_root _ Hco) as [e He]. by destruct (upto_lookup_r _ _ _ _ _ Ht He) as (e'&->&_).
    + intros q x [e He]. destruct (upto_lookup _ _ _ _ _ Ht He) as (e0&He0&_). destruct (co_parent _ Hco q x) as (d0&Hd0&Hp0&Hdir); [by exists e0|].
      destruct (upto_lookup_r _ _ _ _ _ Ht Hd0) as (d1&Hd1&Heq). exists d1. rewrite (positive_dentry d0 d1) by done. split_and!; [done|done|].
      unfold oe_is_dir in *. rewrite (entry_real t q) by (by apply Hent || by rewrite (positive_dentry d0 d1)).
      rewrite (real_shown _ Hco _ _ Hd0 Hp0) in Hdir. by destruct (Hsv q) as [y z (->&_)|].
  - intros q [Hc|HL]; [left|right; by rewrite (upto_below_at v c t)]. rewrite (upto_upper _ _ _ Ht).
    apply covered_true in Hc as (r&Hr1&Hr2&Hr3). apply covered_true. exists r. split_and!; [done|done|].
    destruct (decide (p = r)) as [<-|Hne]; [done|]. unfold hide_at, v in *. by rewrite lookup_alter_ne.
Qed.

(** ** Moving a subtree *)

(** The entry [old] is at [new], with what is below it; what [new] was is gone.  The
    dentries are right when they have moved as well. *)
Definition moved (old new : path) (s s' : DS) : Prop :=
  coherent (d_move old new s') ∧
  ∀ q, if Os.below new q then option_Forall2 (same_file sec) (shown_at s (old ++ drop (length new) q)) (shown_at s' q)
       else if Os.below old q then shown_at s' q = None
       else option_Forall2 (same_file sec) (shown_at s q) (shown_at s' q).
Lemma unseen_moved old new s1 s2 s3 : unseen sec s1 s2 → moved old new s2 s3 → moved old new s1 s3.
Proof.
  intros [_ H1] [? H2]. split; [done|]. intros q. specialize (H2 q).
  destruct (Os.below new q); [by eapply same_opt_trans|]. destruct (Os.below old q); [done|]. by eapply same_opt_trans.
Qed.

(** The entries have changed places, with what is below them. *)
Definition swapped (old new : path) (s s' : DS) : Prop :=
  coherent (d_exchange old new s') ∧
  ∀ q, if Os.below new q then option_Forall2 (same_file sec) (shown_at s (old ++ drop (length new) q)) (shown_at s' q)
       else if Os.below old q then option_Forall2 (same_file sec) (shown_at s (new ++ drop (length old) q)) (shown_at s' q)
       else option_Forall2 (same_file sec) (shown_at s q) (shown_at s' q).
Lemma unseen_swapped old new s1 s2 s3 : unseen sec s1 s2 → swapped old new s2 s3 → swapped old new s1 s3.
Proof.
  intros [_ H1] [? H2]. split; [done|]. intros q. specialize (H2 q).
  destruct (Os.below new q); [by eapply same_opt_trans|]. destruct (Os.below old q); by eapply same_opt_trans.
Qed.

Lemma alone_there c p : union (ds_ls c) p = [0] → ∃ n, upper_tree c !! p = Some n.
Proof.
  intros Hp. assert (0 ∈ union (ds_ls c) p) as [[Hs _]%seen_true _]%union_elem by (rewrite Hp; left). rewrite upper_node. by apply shows_node.
Qed.
Lemma alone_parent c p : coherent c → p ≠ [] → union (ds_ls c) p = [0] → dir_at (upper_tree c) (parent_dir p) = true.
Proof.
  intros Hco Hne Hp. destruct (alone_there c p Hp) as [n Hn]. destruct p as [|x q _] using rev_ind; [done|]. rewrite parent_dir_snoc.
  apply (tw_parent _ (upper_wf _ Hco) q x). by exists n.
Qed.
Section Move.
Context (c : DS) (old new : path) (B : gmap path rinode).
Context (Hco : coherent c) (Hold : old ≠ []) (Hnew : new ≠ []) (Hon : Os.below old new = false) (Hno : Os.below new old = false).
Context (Hplain : ∀ q x, new = q ++ [x] → dot_free x) (Hunion : union (ds_ls c) old = [0]) (Hpar : dir_at (upper_tree c) (parent_dir new) = true).
Context (Hdpar : is_Some (ds_dentries c !! parent_dir new)) (HB : sub_wf B) (HBs : sealed (graft old B (upper_tree c)) (below_at c) old).
Context (Hseal : hide_at (upper_tree c) old = true ∨ low_none (upper_tree c) (below_at c) new).

Definition moved_tree : gmap path rinode := graft new (Os.strip old (upper_tree c)) (graft old B (upper_tree c)).
Definition left_state : DS := dropped old (set_tree Upper (graft old B (upper_tree c)) c).

Lemma old_there : ∃ n, upper_tree c !! old = Some n.
Proof. by apply alone_there. Qed.
Lemma left_upto : upto (graft old B (upper_tree c)) c (set_tree Upper (graft old B (upper_tree c)) c).
Proof. by apply (set_upper_upto c (upper_tree c)), upto_refl. Qed.
Lemma old_parent : dir_at (upper_tree c) (parent_dir old) = true.
Proof. by apply alone_parent. Qed.
Lemma left_coherent : coherent left_state.
Proof.
  apply (drop_coherent c _ old B); [done|done|done|right; apply old_parent| |exact left_upto]. right. intros q x Heq.
  destruct old_there as [n Hn]. apply (upper_plain c q x Hco). rewrite <-Heq, Hn. done.
Qed.
Lemma left_upper : upper_tree left_state = graft old B (upper_tree c).
Proof. exact (upto_upper _ _ _ left_upto). Qed.
Lemma left_below q : below_at left_state q = below_at c q.
Proof. exact (upto_below_at _ c _ q Hco left_upto). Qed.
Lemma left_shown q : shown_at left_state q = if Os.below old q then nonwhite (B !! drop (length old) q) else shown_at c q.
Proof.
  change (shown_at left_state q) with (shown_at (set_tree Upper (graft old B (upper_tree c)) c) q).
  by rewrite (drop_shown c _ old B Hco Hold HB (or_intror old_parent) left_upto q HBs).
Qed.

Lemma moved_upto t : upto moved_tree c t → upto (graft new (Os.strip old (upper_tree c)) (upper_tree left_state)) left_state (dropped old t).
Proof.
  intros Ht. destruct Ht as [Hl Ho Hw Hd Hop]. rewrite left_upper. split; cbn.
  - rewrite Hl. destruct (ls_layers (ds_ls c)) eqn:He; [pose proof (co_some _ Hco) as Hz; rewrite He in Hz; cbn in Hz; lia|done].
  - done.
  - done.
  - apply map_eq. intros q. rewrite !lookup_fmap. change (filter _ (ds_dentries t)) with (ds_dentries (dropped old t)).
    change (filter _ (ds_dentries c)) with (ds_dentries (dropped old c)). rewrite !dropped_lookup. destruct (Os.below old q); [done|].
    by rewrite <-!lookup_fmap, Hd.
  - intros q e0 e. change (filter _ (ds_dentries t)) with (ds_dentries (dropped old t)).
    change (filter _ (ds_dentries c)) with (ds_dentries (dropped old c)). rewrite !dropped_lookup. destruct (Os.below old q); [done|]. apply Hop.
Qed.
Lemma new_sealed : sealed (graft new (Os.strip old (upper_tree c)) (upper_tree left_state)) (below_at left_state) new.
Proof.
  destruct Hseal as [Hh|Hlow].
  - unfold hide_at in Hh. destruct (upper_tree c !! old) as [n|] eqn:Hn; [|done]. eapply sealed_root; [|exact Hh].
    by rewrite lookup_strip, app_nil_r.
  - apply sealed_low; [done|]. rewrite left_upper. unfold low_none. rewrite left_below. apply low_none_graft; [done| |done].
    left. by apply not_below_spec.
Qed.
Lemma parent_aside : Os.below old (parent_dir new) = false.
Proof. apply not_below_spec in Hon. apply not_below_spec. intros Hb. destruct Hon. etrans; [exact Hb|]. by apply (parent_prefix new (parent_dir new)). Qed.
Lemma left_parent : dir_at (upper_tree left_state) (parent_dir new) = true.
Proof. by rewrite left_upper, dir_at_graft, parent_aside. Qed.
Lemma moved_aside t : upto moved_tree c t → coherent (dropped new (dropped old t)).
Proof.
  intros Ht. apply (drop_coherent left_state (dropped old t) new (Os.strip old (upper_tree c))); [exact left_coherent|done|by apply strip_sub_wf|right; exact left_parent|by right|].
  by apply moved_upto.
Qed.
Lemma moved_shown t q : upto moved_tree c t → shown_at t q =
  if Os.below new q then shown_at c (old ++ drop (length new) q)
  else if Os.below old q then nonwhite (B !! drop (length old) q) else shown_at c q.
Proof.
  intros Ht. change (shown_at t q) with (shown_at (dropped old t) q).
  rewrite (drop_shown left_state (dropped old t) new _ left_coherent Hnew (strip_sub_wf c old Hco) (or_intror left_parent) (moved_upto t Ht) q new_sealed).
  by rewrite lookup_strip, <-(pure_shown c old _ Hco Hold Hunion), left_shown.
Qed.
Lemma moved_there r : moved_tree !! (new ++ r) = upper_tree c !! (old ++ r).
Proof. unfold moved_tree. by rewrite lookup_graft, below_app, drop_app_length, lookup_strip. Qed.
Lemma moved_union t : upto moved_tree c t → union (ds_ls t) new = [0].
Proof.
  intros Ht. destruct old_there as [n Hn]. pose proof (moved_aside t Ht) as Hc.
  apply (union_sealed t new n (co_wf _ Hc) (co_some _ Hc) Hnew).
  - rewrite (upto_upper _ _ _ Ht). pose proof (moved_there []) as H. by rewrite !app_nil_r, Hn in H.
  - assert (0 ∈ union (ds_ls c) old) as [[Hs _]%seen_true _]%union_elem by (rewrite Hunion; left). unfold shows in Hs.
    rewrite <-upper_node, Hn in Hs. by apply negb_true_iff.
  - pose proof new_sealed as Hse. rewrite left_upper in Hse. rewrite (upto_upper _ _ _ Ht). destruct Hse as [?|[?|Hb]]; [by left|by right; left|].
    right. right. rewrite (upto_below_at _ c t new Hco Ht). by rewrite <-left_below.
Qed.
(** The parent of the new place keeps its dentry. *)
Lemma parent_dentry t q : upto moved_tree c t → Os.below old q = false → Os.below new q = false → dir_at (upper_tree c) q = true → is_Some (ds_dentries c !! q) →
  ∃ d, ds_dentries t !! q = Some d ∧ oe_positive d = true ∧ oe_is_dir t d = true.
Proof.
  intros Ht Hq1 Hq2 Hd [d0 Hd0]. destruct (upto_lookup_r _ _ _ _ _ Ht Hd0) as (d&Hdt&_). exists d. split; [done|].
  pose proof (moved_aside t Ht) as Hc. assert (ds_dentries (dropped new (dropped old t)) !! q = Some d) as Hin by (by rewrite !dropped_lookup, Hq2, Hq1).
  assert (∃ n, shown_at t q = Some n ∧ is_dir_node n = true) as (n&Hn&Hnd).
  { rewrite (moved_shown t q Ht), Hq1, Hq2. unfold dir_at in Hd. destruct (upper_tree c !! q) as [n|] eqn:Hn; [|done]. exists n. split; [|done].
    rewrite (shown_over c) by done. unfold over. rewrite Hn. cbn. unfold ovl_is_whiteout. by destruct (ri_type n). }
  pose proof (positive_shown _ Hc q d Hin) as Hp. change (shown_at (dropped new (dropped old t))) with (shown_at t) in Hp. rewrite Hn, bool_decide_eq_true_2 in Hp by done.
  split; [done|]. change (oe_is_dir t d) with (oe_is_dir (dropped new (dropped old t)) d). by rewrite (dir_shown _ Hc q d n).
Qed.
Lemma new_parent t : upto moved_tree c t → ∃ d, ds_dentries t !! parent_dir new = Some d ∧ oe_positive d = true ∧ oe_is_dir t d = true.
Proof.
  intros Ht. apply parent_dentry; try done; [exact parent_aside|]. apply not_below_spec. by apply (parent_prefix new (parent_dir new)).
Qed.
Lemma moved_cached t : upto moved_tree c t → coherent (ds_set_dentries (graft new (rehomed old new (ds_dentries t)) (graft old ∅ (ds_dentries t))) t).
Proof.
  intros Ht. set (t' := dropped old t). assert (graft old ∅ (ds_dentries t) = ds_dentries t') as -> by (symmetry; apply prune_graft).
  apply (splice_coherent t' new (rehomed old new (ds_dentries t)) (moved_aside t Ht) Hnew).
  - intros r e. eapply (rehomed_entry moved_tree c t); try done; [apply (moved_aside t Ht)|by apply moved_union|exact moved_there].
  - intros r x. eapply (rehomed_dirs moved_tree c t); try done; [apply (moved_aside t Ht)|by apply moved_union|exact moved_there].
  - intros _. destruct (new_parent t Ht) as (d&Hd&?&?). exists d. split; [|done]. unfold t'. by rewrite dropped_lookup, parent_aside.
Qed.
Lemma moved_ok t : (∀ r, nonwhite (B !! r) = None) → upto moved_tree c t → moved old new c t.
Proof.
  intros HBw Ht. split; [by apply moved_cached|]. intros q. rewrite (moved_shown t q Ht).
  destruct (Os.below new q); [apply same_opt_refl|]. destruct (Os.below old q); [apply HBw|apply same_opt_refl].
Qed.
End Move.

Lemma below_disjoint (old new q : path) : Os.below old new = false → Os.below new old = false → Os.below new q = true → Os.below old q = false.
Proof.
  intros Hon Hno [r ->]%below_spec. apply not_below_spec. intros Hpre. destruct (prefix_weak_total old new (new ++ r)) as [H|H]; [done|by exists r| |].
  - by apply below_spec in H; rewrite H in Hon.
  - by apply below_spec in H; rewrite H in Hno.
Qed.
Lemma graft_comm {V} (old new : path) (A A' u : gmap path V) : Os.below old new = false → Os.below new old = false →
  graft new A (graft old A' u) = graft old A' (graft new A u).
Proof.
  intros Hon Hno. apply map_eq. intros q. rewrite !lookup_graft. destruct (Os.below new q) eqn:Hq; [|done].
  by rewrite (below_disjoint old new q).
Qed.

Section Swap.
Context (c : DS) (old new : path).
Context (Hco : coherent c) (Hold : old ≠ []) (Hnew : new ≠ []) (Hon : Os.below old new = false) (Hno : Os.below new old = false).
Context (Hu : union (ds_ls c) old = [0]) (Hu' : union (ds_ls c) new = [0]).
Context (Hd : is_Some (ds_dentries c !! parent_dir old)) (Hd' : is_Some (ds_dentries c !! parent_dir new)).
Context (Hseal : hide_at (upper_tree c) old = true ∨ low_none (upper_tree c) (below_at c) new)
        (Hseal' : hide_at (upper_tree c) new = true ∨ low_none (upper_tree c) (below_at c) old).
Let v := moved_tree c old new (Os.strip new (upper_tree c)).

Lemma swap_sym : v = moved_tree c new old (Os.strip old (upper_tree c)).
Proof. by apply graft_comm. Qed.
Lemma plain_at p q x : union (ds_ls c) p = [0] → p = q ++ [x] → dot_free x.
Proof. intros Hp ->. destruct (alone_there c _ Hp) as [n Hn]. apply (upper_plain c q x Hco). by rewrite Hn. Qed.
Lemma came_sealed p q : union (ds_ls c) q = [0] → p ≠ [] → hide_at (upper_tree c) q = true ∨ low_none (upper_tree c) (below_at c) p →
  sealed (graft p (Os.strip q (upper_tree c)) (upper_tree c)) (below_at c) p.
Proof.
  intros Hq Hp [Hh|Hl]; [|by apply sealed_low]. destruct (alone_there c q Hq) as [n Hn]. unfold hide_at in Hh. rewrite Hn in Hh.
  eapply sealed_root; [|exact Hh]. by rewrite lookup_strip, app_nil_r.
Qed.
Lemma swapped_ok t : upto v c t → swapped old new c t.
Proof.
  intros Ht. pose proof Ht as Ht'. rewrite swap_sym in Ht'. unfold v in Ht.
  pose proof (alone_parent c old Hco Hold Hu) as Hpo. pose proof (alone_parent c new Hco Hnew Hu') as Hpn.
  pose proof (strip_sub_wf c old Hco) as Hs. pose proof (strip_sub_wf c new Hco) as Hs'.
  pose proof (came_sealed old new Hu' Hold Hseal') as Hc. pose proof (came_sealed new old Hu Hnew Hseal) as Hc'.
  pose proof (λ q x, plain_at old q x Hu) as Hx. pose proof (λ q x, plain_at new q x Hu') as Hx'.
  set (D := ds_dentries t). set (M := rehomed old new D). set (E := rehomed new old D). split.
  - set (t2 := ds_set_dentries (graft new M D) t). assert (d_exchange old new t = ds_set_dentries (graft old E (ds_dentries t2)) t2) as ->.
    { unfold d_exchange. by rewrite (graft_comm old new). }
    assert (coherent (dropped old t2)) as Hbase.
    { assert (coherent (d_move old new t)) as Hm by (apply (moved_cached c old new (Os.strip new (upper_tree c))); eassumption). unfold d_move in Hm. fold D M in Hm.
      rewrite (graft_comm old new) in Hm by done. rewrite <-prune_graft in Hm. exact Hm. }
    assert (union (ds_ls t) old = [0]) as Huo by (apply (moved_union c new old (Os.strip old (upper_tree c))); eassumption).
    pose proof (λ r, moved_there c new old (Os.strip old (upper_tree c)) r) as Hthere.
    apply splice_coherent; [exact Hbase|done|..].
    + intros r e. eapply (rehomed_entry _ c t new old Hco Ht'); [apply Hbase|done..].
    + intros r x. eapply (rehomed_dirs _ c t new old Hco Ht'); [apply Hbase|done..].
    + intros _. destruct (new_parent c new old (Os.strip old (upper_tree c))) with (t := t) as (d&Hdt&?&?); [eassumption..|]. exists d. split; [|done].
      cbn. by rewrite lookup_graft, (parent_aside new old Hold Hno).
  - intros q. rewrite (moved_shown c old new (Os.strip new (upper_tree c))) with (t := t) by done.
    destruct (Os.below new q); [apply same_opt_refl|]. destruct (Os.below old q); [|apply same_opt_refl].
    rewrite lookup_strip, <-(pure_shown c new _ Hco Hnew Hu'). apply same_opt_refl.
Qed.
End Swap.

(** ** The rename of the upper file system *)

Definition left_behind (flags : Z) (u : gmap path rinode) (new : path) : gmap path rinode :=
  if (flags =? RENAME_EXCHANGE)%Z then Os.strip new u else if (flags =? RENAME_WHITEOUT)%Z then {[ [] := whiteout_node ]} else ∅.
Lemma rename_upto c old new flags :
  coherent c → old ≠ [] → new ≠ [] → Os.below old new = false → Os.below new old = false →
  flags = 0%Z ∨ flags = RENAME_EXCHANGE ∨ flags = RENAME_WHITEOUT →
  triple (upto (upper_tree c) c) (real_rename (Upper, old) (Upper, new) flags)
    (λ _ t, upto (moved_tree c old new (left_behind flags (upper_tree c) new)) c t ∧ dir_at (upper_tree c) (parent_dir new) = true ∧
       (flags = RENAME_EXCHANGE → is_Some (upper_tree c !! new)) ∧
       (flags ≠ RENAME_EXCHANGE → dir_at (upper_tree c) new = true → ∀ r, r ≠ [] → upper_tree c !! (new ++ r) = None))
    (λ _, upto (upper_tree c) c).
Proof.
  intros Hco Hold Hnew Hon Hno Hfl. set (u := upper_tree c). apply triple_real; [auto..|]. intros s Hs. cbn [fst snd tree].
  rewrite (upto_upper _ _ _ Hs). fold u. destruct (u !! old) as [o|] eqn:Ho; [|done]. destruct (dir_at u (parent_dir new)) eqn:Hd; cbn [negb]; [|done].
  set (s1 := set_tree Upper (prune old u) s). assert (upto (prune old u) c s1) as Hs1 by (by eapply set_upper_upto).
  rewrite (upto_upper _ _ _ Hs1). set (s2 := set_tree Upper (graft new (Os.strip old u) (prune old u)) s1).
  assert (upto (graft new (Os.strip old u) (prune old u)) c s2) as Hs2 by (by eapply set_upper_upto).
  rewrite ?(upto_upper _ _ _ Hs2).
  assert (∀ v, upto v c (set_tree Upper v s2)) as Hset by (intros v; by eapply set_upper_upto).
  assert (∀ q, Os.below new q = true → Os.below old q = false) as Hdis by (intros q; by apply below_disjoint).
  assert (∀ B v, (∀ q, v !! q = if Os.below new q then Os.strip old u !! drop (length new) q else if Os.below old q then B !! drop (length old) q else u !! q) →
    v = moved_tree c old new B) as Heq.
  { intros B v Hv. apply map_eq. intros q. rewrite Hv. unfold moved_tree. by rewrite !lookup_graft. }
  assert (∀ e, replaces o (u !! new) (no_children u new) = e → e = None → dir_at u new = true → ∀ r, r ≠ [] → u !! (new ++ r) = None) as Hrep.
  { unfold replaces, dir_at. intros e <-. destruct (u !! new) as [m|]; [|done]. intros Hn Hm. rewrite Hm in Hn. destruct (is_dir_type (ri_type o)); [|done].
    cbn [negb] in Hn. destruct (no_children u new) eqn:Hc; [|done]. by apply no_children_spec. }
  destruct Hfl as [-> |[-> | ->]].
  - change (left_behind 0 u new) with (∅ : gmap path rinode). change (has 0 RENAME_EXCHANGE) with false. change (has 0 RENAME_WHITEOUT) with false. cbv iota.
    destruct (replaces _ _ _) eqn:Hr; [done|]. split_and!; [|done|done|intros _; by apply (Hrep None)].
    rewrite <-(Heq ∅ (graft new (Os.strip old u) (prune old u))); [done|]. intros q. by rewrite lookup_graft, lookup_prune, lookup_empty.
  - change (left_behind RENAME_EXCHANGE u new) with (Os.strip new u). change (has RENAME_EXCHANGE RENAME_EXCHANGE) with true. cbv iota.
    destruct (u !! new) as [m|]; [|done]. split_and!; [|done|done|done].
    rewrite <-(Heq (Os.strip new u) (graft old (Os.strip new u) (graft new (Os.strip old u) (prune old u)))); [done|]. intros q.
    rewrite !lookup_graft, lookup_prune. destruct (Os.below new q) eqn:Hq; [by rewrite (Hdis q Hq)|by destruct (Os.below old q)].
  - change (left_behind RENAME_WHITEOUT u new) with ({[ [] := whiteout_node ]} : gmap path rinode).
    change (has RENAME_WHITEOUT RENAME_EXCHANGE) with false. change (has RENAME_WHITEOUT RENAME_WHITEOUT) with true. cbv iota.
    destruct (replaces _ _ _) eqn:Hr; [done|]. split_and!; [|done|done|intros _; by apply (Hrep None)].
    rewrite <-(Heq {[ [] := whiteout_node ]} (<[old := whiteout_node]> (graft new (Os.strip old u) (prune old u)))); [done|]. intros q.
    destruct (decide (old = q)) as [<-|Hne].
    + rewrite lookup_insert_eq, Hno, (proj2 (below_spec old old)), drop_ge by done. by rewrite lookup_singleton_eq.
    + rewrite lookup_insert_ne, lookup_graft, lookup_prune by done. destruct (Os.below new q); [done|].
      destruct (below_cases old q) as [(r&->&->)|[_ ->]]; [|done]. rewrite drop_app_length, lookup_singleton_ne; [done|].
      intros <-. by rewrite app_nil_r in Hne.
Qed.

(** ** Both directories locked *)

Section Locked.
Context (c : DS) (olddir newdir : path) (oldname newname : string).
Let old := olddir ++ [oldname].
Let new := newdir ++ [newname].
Context (Hco : coherent c) (Hname : dot_free newname) (e d : oentry) (is_dir positive new_white : bool).
Context (He : ds_dentries c !! old = Some e) (Hpos : oe_positive e = true) (Hup : is_Some (upper_tree c !! old)) (Hdir : dir_at (upper_tree c) old = is_dir).
Context (Hpure : is_dir = true → oe_lowers e = []) (Hop : is_dir = true → oe_opaque e = true → hide_at (upper_tree c) old = true).
Context (Hd : ds_dentries c !! newdir = Some d) (Hdpos : oe_positive d = true) (Hdup : is_Some (upper_tree c !! newdir)) (Hddir : oe_is_dir c d = true).
Context (Hlow : positive = false → low_none (upper_tree c) (below_at c) old).

Lemma old_ne : old ≠ [].
Proof. apply snoc_ne. Qed.
Lemma new_ne : new ≠ [].
Proof. apply snoc_ne. Qed.
Lemma old_alone : union (ds_ls c) old = [0].
Proof.
  pose proof (eo_positive _ _ _ (co_entry _ Hco _ _ He) Hpos) as Hst. pose proof (upper_positive _ Hco _ _ He Hpos) as Hu.
  destruct Hup as [n Hn]. rewrite Hn in Hu. unfold stands in Hst. cbn in Hst. rewrite Hu in Hst. destruct Hst as [_ (rest&Hun&Hl)].
  destruct (Sumbool.sumbool_of_bool is_dir) as [Hisd|Hisd].
  - rewrite <-dir_at_lookup in Hl. rewrite Hdir in Hl. specialize (Hl Hisd). rewrite Hpure in Hl by done. rewrite Hun. f_equal. symmetry in Hl. by apply fmap_nil_inv in Hl.
  - eapply union_sealed; [apply Hco|apply Hco|apply old_ne|exact Hn| |].
    + assert (0 ∈ union (ds_ls c) old) as [[Hs _]%seen_true _]%union_elem by (rewrite Hun; left). unfold shows in Hs.
      rewrite <-upper_node, Hn in Hs. by apply negb_true_iff.
    + left. unfold hide_at, hide_node, is_dir_node. pose proof Hdir as Hdn. unfold dir_at in Hdn. rewrite Hn in Hdn |- *. by rewrite Hdn, Hisd.
Qed.
(** A directory whose parent has nothing below it needs no mark. *)
Lemma parent_alone : ovl_type_merge c d = false → low_none (upper_tree c) (below_at c) new.
Proof.
  intros Hm. pose proof (upper_positive _ Hco _ _ Hd Hdpos) as Hu. destruct Hdup as [n Hn]. rewrite Hn in Hu.
  pose proof (eo_positive _ _ _ (co_entry _ Hco _ _ Hd) Hdpos) as Hst. unfold stands in Hst. cbn in Hst. rewrite Hu in Hst. destruct Hst as [_ (rest&Hun&Hl)].
  unfold ovl_type_merge, type_upper in Hm. rewrite Hu, Hddir in Hm. rewrite bool_decide_eq_true_2 in Hm by done. rewrite andb_true_r in Hm.
  apply negb_false_iff, bool_decide_eq_true in Hm.
  assert (dir_at (upper_tree c) newdir = true) as Hda by (unfold oe_is_dir, real_node in Hddir; rewrite Hu, Hn in Hddir; unfold dir_at; by rewrite Hn).
  rewrite <-dir_at_lookup in Hl. specialize (Hl Hda). rewrite Hm in Hl. symmetry in Hl. apply fmap_nil_inv in Hl as ->.
  by apply seen_below.
Qed.

(** [prepare_move] makes sure that nothing below shows through, at its new place. *)
Definition prepared (t : DS) : Prop :=
  onward c t ∧ (∀ q, union (ds_ls t) q = union (ds_ls c) q) ∧
  (∀ q, q ≠ old → upper_tree t !! q = upper_tree c !! q ∧ ds_dentries t !! q = ds_dentries c !! q) ∧
  (hide_at (upper_tree t) old = true ∨ low_none (upper_tree t) (below_at t) new).
Lemma faults_onward f : onward c (with_faults f c).
Proof. by apply kept_onward, faults_kept. Qed.
Lemma prepare_move_ok rmax samedir :
  triple (λ t, ∃ f, t = with_faults f c) (prepare_move rmax old e is_dir (oe_opaque e) samedir newdir) (λ _, prepared) (λ _, unseen sec c).
Proof.
  assert (∀ f, (hide_at (upper_tree c) old = true ∨ low_none (upper_tree c) (below_at c) new) → prepared (with_faults f c)) as Hready.
  { intros f Hs. split_and!; [apply faults_onward|done|done|exact Hs]. }
  unfold prepare_move. destruct (Sumbool.sumbool_of_bool is_dir) as [Hisd|Hisd]; rewrite Hisd at 1; cbn [negb].
  2:{ apply triple_ret. intros t [f ->]. apply Hready. left. unfold hide_at, hide_node, is_dir_node. destruct Hup as [n Hn]. pose proof Hdir as Hdn.
      unfold dir_at in Hdn. rewrite Hn in Hdn |- *. by rewrite Hdn, Hisd. }
  apply triple_at. intros t [f ->]. eapply triple_bind; [by apply (the_dentry_ok newdir d)|]. intros d'. apply (triple_pull (d' = d)); [by intros u []|].
  intros ->. apply triple_get. intros t' [_ ->].
  assert (ovl_type_merge_or_lower (with_faults f c) e = false) as ->.
  { pose proof (upper_positive _ Hco _ _ He Hpos) as Hu. destruct Hup as [n Hn]. rewrite Hn in Hu.
    unfold ovl_type_merge_or_lower, ovl_type_merge, type_upper. rewrite Hu, Hpure by done. done. }
  change (ovl_type_merge (with_faults f c) d) with (ovl_type_merge c d). apply (triple_pre _ (λ t, t = with_faults f c)); [|by intros u ->].
  destruct (oe_opaque e) eqn:Hopq; cbn [negb andb]; [apply triple_ret; intros ? ->; apply Hready; left; by apply Hop|].
  destruct (ovl_type_merge c d) eqn:Hm; [|apply triple_ret; intros ? ->; apply Hready; right; by apply parent_alone].
  unfold ovl_set_opaque_xerr. apply triple_get. intros t ->. destruct (ls_noxattr _); [apply triple_fail; intros ? ->; apply faults_onward|].
  apply (triple_pre _ (λ t, upto (upper_tree c) c t ∧ ds_dentries t = ds_dentries c)); [|intros ? ->; split; [by apply upto_faults, upto_refl|done]].
  set (v := alter (set_xattr OVL_XATTR_OPAQUE "y") old (upper_tree c)). eapply (triple_bind _ _ _ (λ _ t, upto v c t ∧ ds_dentries t = ds_dentries c)).
  - eapply triple_real; [intros t f' [Ht Hdt]; split; [by apply upto_faults|done]|intros err t [Ht _]; by apply upto_unseen|].
    intros t [Ht Hdt]. cbn [tree fst snd]. rewrite (upto_upper _ _ _ Ht). split; [by eapply set_upper_upto|done].
  - intros []. apply triple_modify. intros t [Ht Hdt].
    destruct (mark_dir c (ds_set_dentries (alter oe_set_opaque old (ds_dentries t)) t) old Hco old_ne old_alone) as (Ho&Hh&Hu&Hq);
      [by rewrite Hdir|by apply mark_opaque_upto|]. split_and!; auto.
    intros q Hne. split; [auto|]. cbn. by rewrite lookup_alter_ne, Hdt.
Qed.

(** What is left where the entry was: nothing, or a whiteout. *)
Lemma single_white n : ovl_is_whiteout n = true → ∀ r, nonwhite (({[ [] := n ]} : gmap path rinode) !! r) = None.
Proof.
  intros Hn r. destruct (decide (r = [])) as [->|Hne]; [rewrite lookup_singleton_eq; cbn; by rewrite Hn|by rewrite lookup_singleton_ne].
Qed.
Lemma strip_white (u : gmap path rinode) p n : tree_wf u → u !! p = Some n → ovl_is_whiteout n = true → Os.strip p u = {[ [] := n ]}.
Proof.
  intros Hu Hn Hw. apply map_eq. intros r. rewrite lookup_strip. destruct (decide (r = [])) as [->|Hne]; [by rewrite app_nil_r, lookup_singleton_eq|].
  rewrite lookup_singleton_ne by done. apply tree_file; [done| |done]. unfold dir_at. rewrite Hn. unfold ovl_is_whiteout in Hw. by destruct (ri_type n).
Qed.
Definition overwritten_empty : Prop := new_white = false → dir_at (upper_tree c) new = true → ∀ r, r ≠ [] → upper_tree c !! (new ++ r) = None.

Section Core.
Context (c1 : DS) (Hprep : prepared c1) (Hon : Os.below old new = false) (Hno : Os.below new old = false).
Context (Hwhite : new_white = true → match upper_tree c !! new with Some n => ovl_is_whiteout n = true | None => True end).

Lemma core_coherent : coherent c1.
Proof. apply Hprep. Qed.
Lemma new_same r : upper_tree c1 !! (new ++ r) = upper_tree c !! (new ++ r).
Proof.
  destruct Hprep as (_&_&Hq&_). apply Hq. intros Heq. assert (new `prefix_of` old) as H%below_spec by (by exists r). congruence.
Qed.
Lemma core_moved t B : dir_at (upper_tree c1) (parent_dir new) = true → sub_wf B → (∀ r, nonwhite (B !! r) = None) →
  sealed (graft old B (upper_tree c1)) (below_at c1) old → upto (moved_tree c1 old new B) c1 t → moved old new c t.
Proof.
  intros Hpar HB HBw HBs Ht. destruct Hprep as ([Hun _]&Hu&Hsame&Hseal). eapply unseen_moved; [exact Hun|].
  apply (moved_ok c1 old new B); try done; [apply Hun|apply old_ne|apply new_ne| |rewrite Hu; exact old_alone|].
  - intros q x Heq. apply app_inj_tail in Heq as [_ Heq]. by rewrite <-Heq.
  - unfold new. rewrite parent_dir_snoc. destruct (Hsame newdir) as [_ ->]; [|by exists d]. intros Heq.
    unfold new in Hon. by rewrite below_snoc, Heq, (proj2 (below_spec old old)) in Hon.
Qed.
Lemma core_low : positive = false → low_none (upper_tree c1) (below_at c1) old.
Proof. intros Hp. apply Hprep. by apply Hlow. Qed.

(** The whiteout that came to the old place may stay. *)
Lemma cleanup_moved w t : positive = false → dir_at (upper_tree c1) (parent_dir new) = true → ovl_is_whiteout w = true → ri_xattrs w !! OVL_XATTR_REDIRECT = None →
  upto (moved_tree c1 old new {[ [] := w ]}) c1 t → ∃ t', ovl_cleanup Upper old t = (Ok tt, t') ∧ moved old new c t'.
Proof.
  intros Hp Hpar Hw Hred Ht. set (v := moved_tree c1 old new {[ [] := w ]}) in *.
  assert (v !! old = Some w) as Hv.
  { unfold v, moved_tree. rewrite !lookup_graft, Hno, (proj2 (below_spec old old)), drop_ge by done. by rewrite lookup_singleton_eq. }
  assert (∀ f, moved old new c (with_faults f t)) as Hstay.
  { intros f. apply (core_moved _ {[ [] := w ]}); [done|by apply sub_single|by apply single_white| |by apply upto_faults].
    eapply sealed_root; [apply lookup_singleton_eq|]. unfold hide_node, is_dir_node. unfold ovl_is_whiteout in Hw. by destruct (ri_type w). }
  assert (dir_at (tree Upper t) old = false ∧ is_dir_type (ri_type w) = false) as [Hnd Hwd].
  { unfold dir_at. cbn. rewrite (upto_upper _ _ _ Ht), Hv. unfold ovl_is_whiteout in Hw. by destruct (ri_type w). }
  assert (∀ s, upto v c1 s → moved old new c (set_tree Upper (delete old (tree Upper s)) s)) as Hdel.
  { intros s Hs. apply (core_moved _ ∅); [done|apply sub_empty|done|apply sealed_low; [apply old_ne|by apply core_low]|].
    cbn [tree]. rewrite (upto_upper _ _ _ Hs). replace (moved_tree c1 old new ∅) with (delete old v); [by eapply set_upper_upto|].
    apply map_eq. intros q. unfold v, moved_tree. destruct (decide (old = q)) as [<-|Hne].
    - rewrite lookup_delete_eq, !lookup_graft, Hno, (proj2 (below_spec old old)) by done. by rewrite lookup_empty.
    - rewrite lookup_delete_ne, !lookup_graft by done. destruct (Os.below new q); [done|].
      destruct (below_cases old q) as [(r&->&->)|[_ ->]]; [|done]. rewrite drop_app_length, lookup_empty, lookup_singleton_ne; [done|].
      intros <-. by rewrite app_nil_r in Hne. }
  unfold ovl_cleanup, mbind, M_bind, get. cbn [fst]. rewrite Hnd. unfold ignore_err, mbind, M_bind, attempt, real_unlink, real.
  destruct (ls_faults (ds_ls t)) as [|[|k] fs].
  - cbn [tree]. rewrite (upto_upper _ _ _ Ht), Hv, Hwd. eexists. split; [done|]. rewrite <-(upto_upper _ _ _ Ht). by apply Hdel.
  - cbn [tree]. change (ds_set_ls (ls_set_faults fs (ds_ls t)) t) with (with_faults fs t). pose proof (upto_faults _ _ _ fs Ht) as Hf.
    rewrite (upto_upper _ _ _ Hf), Hv, Hwd. eexists. split; [done|]. rewrite <-(upto_upper _ _ _ Hf). by apply Hdel.
  - eexists. split; [done|]. apply Hstay.
Qed.

Lemma core_white : new_white = true → is_Some (upper_tree c1 !! new) →
  ∃ w, Os.strip new (upper_tree c1) = {[ [] := w ]} ∧ ovl_is_whiteout w = true ∧ ri_xattrs w !! OVL_XATTR_REDIRECT = None.
Proof.
  intros Hw [w Hw1]. pose proof (new_same []) as Hsame. rewrite !app_nil_r, Hw1 in Hsame. specialize (Hwhite Hw). rewrite <-Hsame in Hwhite. exists w.
  split; [apply strip_white; [apply upper_wf, core_coherent|done|done]|]. split; [done|].
  eapply (co_redirect _ core_coherent 0 new). by rewrite <-upper_node.
Qed.
Lemma core_rename flags cleanup : rename_flags 0 true positive is_dir new_white = (flags, cleanup) →
  triple (λ t, t = c1) (_ ← real_rename (Upper, old) (Upper, new) flags; if cleanup then ovl_cleanup Upper old else mret tt)
    (λ _ t, moved old new c t ∧ overwritten_empty) (λ _, unseen sec c).
Proof.
  intros Hfl. pose proof core_coherent as Hc1. unfold rename_flags in Hfl. cbn [negb] in Hfl.
  assert (flags = 0%Z ∨ flags = RENAME_EXCHANGE ∨ flags = RENAME_WHITEOUT) as Hcases.
  { destruct positive; [destruct new_white|destruct (is_dir && new_white)]; injection Hfl as <- <-; auto. }
  apply (triple_pre _ (upto (upper_tree c1) c1)); [|intros ? ->; by apply upto_refl].
  eapply triple_bind.
  { eapply triple_conseq; [by apply (rename_upto c1 old new flags Hc1 old_ne new_ne)|done|done|].
    intros err t Ht. eapply unseen_trans; [apply Hprep|by apply upto_unseen]. }
  intros [] t (Ht&Hpar&Hex&Hemp).
  assert (flags ≠ RENAME_EXCHANGE → overwritten_empty) as Hover.
  { intros Hne _ Hdn r Hr. rewrite <-new_same. apply Hemp; [done| |done]. unfold dir_at in *. pose proof (new_same []) as Hs. rewrite !app_nil_r in Hs. by rewrite Hs. }
  assert (new_white = true → overwritten_empty) as Hover' by (unfold overwritten_empty; congruence).
  destruct (Sumbool.sumbool_of_bool positive) as [Hp|Hp], (Sumbool.sumbool_of_bool new_white) as [Hw|Hw]; rewrite Hp, Hw in Hfl; cbn in Hfl.
  - injection Hfl as <- <-. destruct (core_white Hw (Hex eq_refl)) as (w&Hst&Hww&Hwr). change (left_behind _ (upper_tree c1) new) with (Os.strip new (upper_tree c1)) in Ht.
    rewrite Hst in Ht. split; [|by apply Hover']. apply (core_moved _ {[ [] := w ]}); [done|by apply sub_single|by apply single_white| |done].
    eapply sealed_root; [apply lookup_singleton_eq|]. unfold hide_node, is_dir_node. unfold ovl_is_whiteout in Hww. by destruct (ri_type w).
  - injection Hfl as <- <-. split; [|by apply Hover]. apply (core_moved _ {[ [] := whiteout_node ]}); [done|by apply sub_single|by apply single_white| |done].
    by eapply sealed_root; [apply lookup_singleton_eq|].
  - rewrite andb_true_r in Hfl. destruct (Sumbool.sumbool_of_bool is_dir) as [Hi|Hi]; rewrite Hi in Hfl; injection Hfl as <- <-.
    + destruct (core_white Hw (Hex eq_refl)) as (w&Hst&Hww&Hwr). change (left_behind _ (upper_tree c1) new) with (Os.strip new (upper_tree c1)) in Ht. rewrite Hst in Ht.
      destruct (cleanup_moved w t Hp Hpar Hww Hwr Ht) as (t'&->&Hm). split; [done|by apply Hover'].
    + split; [|by apply Hover]. apply (core_moved _ ∅); [done|apply sub_empty|done|apply sealed_low; [apply old_ne|by apply core_low]|done].
  - rewrite andb_false_r in Hfl. injection Hfl as <- <-. split; [|by apply Hover].
    apply (core_moved _ ∅); [done|apply sub_empty|done|apply sealed_low; [apply old_ne|by apply core_low]|done].
Qed.
End Core.

Context (new0 : oentry) (Hneg : new_white = true → ∃ e', ds_dentries c !! new = Some e' ∧ oe_positive e' = false).
Lemma lookup_faults p : triple (λ t, ∃ f, t = with_faults f c) (real_lookup Upper p) (λ r t, (∃ f, t = with_faults f c) ∧ r = upper_tree c !! p) (λ _, unseen sec c).
Proof.
  apply triple_real; [intros t f [g ->]; by exists f|intros err t [f ->]; apply faults_onward|]. intros t [f ->]. split; [by exists f|done].
Qed.
Lemma rename_locked_ok rmax new_is_dir samedir flags cleanup : rename_flags 0 true positive is_dir new_white = (flags, cleanup) →
  triple (λ t, ∃ f, t = with_faults f c)
    (rename_locked rmax olddir newdir old new is_dir new_is_dir true samedir flags cleanup new0)
    (λ _ t, moved old new c t ∧ overwritten_empty) (λ _, unseen sec c).
Proof.
  intros Hfl. unfold rename_locked. eapply (triple_bind _ _ _ (λ e0 t, e0 = e ∧ ∃ f, t = with_faults f c)).
  { apply triple_at. intros t [f ->]. eapply triple_conseq; [apply (the_dentry_ok old e (with_faults f c) He (λ _, unseen sec c))|done| |done]. intros e0 t [-> ->]. eauto. }
  intros e0. apply (triple_pull (e0 = e)); [by intros t []|]. intros ->. apply (triple_pre _ (λ t, ∃ f, t = with_faults f c)); [|by intros t []].
  eapply triple_bind; [apply lookup_faults|]. intros olddentry. case_bool_decide.
  { apply triple_fail. intros t [[f ->] _]. apply faults_onward. }
  apply (triple_pre _ (λ t, ∃ f, t = with_faults f c)); [|by intros t []].
  eapply triple_bind; [apply lookup_faults|]. intros newdentry. apply (triple_pull (newdentry = upper_tree c !! new)); [by intros t []|]. intros ->.
  apply triple_get. intros t0 [[f0 ->] _]. apply (triple_pre _ (λ t, ∃ f, t = with_faults f c)); [|intros t ->; by eexists].
  change (ds_dentries (with_faults f0 c)) with (ds_dentries c). set (e' := default new0 (ds_dentries c !! new)).
  set (g := if oe_positive e' && type_upper e' then _ else _). eapply (triple_bind _ _ _ (λ _ t, (∃ f, t = with_faults f c) ∧ g = true)).
  { apply triple_guard; [done|]. intros t [f ->] _. apply faults_onward. }
  intros []. apply (triple_pull (g = true)); [by intros t []|]. intros Hg. apply (triple_pre _ (λ t, ∃ f, t = with_faults f c)); [|by intros t []].
  set (g2 := _ && _ && _). eapply (triple_bind _ _ _ (λ _ t, (∃ f, t = with_faults f c) ∧ g2 = true)).
  { apply triple_guard; [done|]. intros t [f ->] _. apply faults_onward. }
  intros []. apply (triple_pull (g2 = true)); [by intros t []|]. intros Hg2. apply (triple_pre _ (λ t, ∃ f, t = with_faults f c)); [|by intros t []].
  unfold g2 in Hg2. apply andb_true_iff in Hg2 as [[H1%negb_true_iff H2%negb_true_iff]%andb_true_iff H3%negb_true_iff%bool_decide_eq_false].
  eapply triple_bind; [apply prepare_move_ok|]. intros []. cbn [negb]. eapply (triple_bind _ _ _ (λ _, prepared)); [by apply triple_ret|]. intros [].
  apply triple_at. intros c1 Hprep. apply core_rename; [done|..|done].
  - unfold new. rewrite below_snoc. fold new. apply orb_false_iff. split; [done|]. by apply bool_decide_eq_false.
  - unfold old. rewrite below_snoc. fold old. apply orb_false_iff. split; [done|]. apply bool_decide_eq_false. congruence.
  - intros Hw. destruct (Hneg Hw) as (x&Hx&Hxn). unfold g, e' in Hg. rewrite Hx in Hg. cbn in Hg. rewrite Hxn in Hg. cbn in Hg.
    destruct (upper_tree c !! new) as [n|]; [|done]. by apply andb_true_iff in Hg as [_ ?].
Qed.
End Locked.

(** ** The whole rename *)

Lemma set_impure_safe o p : wf_os o → os_safe sec (ovl_set_impure p) (λ _ _, True) o.
Proof.
  intros Hwf. assert (reached sec [] 0 o o) as Hr by (split; [done|apply grown_refl]). unfold os_safe, ovl_set_impure, mbind, M_bind, get, modify. cbn.
  assert (∀ o', reached sec [] 0 o o' → wf_os o' ∧ (∃ q, grown sec q 0 o o') ∧ True) as Hok by (intros o' []; eauto).
  case_bool_decide; [by apply Hok|]. destruct (ofs_noxattr (os_ofs o)); [apply Hok; by apply reached_impure|].
  destruct (vfs_run (λ s, os_set_upper (alter (set_xattr OVL_XATTR_IMPURE "y") p (os_upper s)) s) o) as [(o1&Hc&->)|(o1&Hc&->&_)].
  - apply Hok, reached_impure, reached_alter; [apply set_impure_kept|by eapply reached_consumed].
  - destruct (reached_consumed _ _ _ _ _ _ Hr Hc). eauto.
Qed.
Lemma impure_if s0 (b : bool) p : triple (kept_dir sec s0) (if b then on_os (ovl_set_impure p) else mret tt) (λ _, kept_dir sec s0) (λ _, kept_dir sec s0).
Proof.
  destruct b; [|by apply triple_ret]. eapply triple_conseq; [apply (on_os_kept sec s0 _ (λ _ _, True) (kept_dir sec s0)); [done|]|done| |done].
  - intros s Hs. apply set_impure_safe, os_wf, Hs.
  - intros [] s' (s&Hs&Hk&_). by eapply kept_dir_trans.
Qed.

Lemma triple_and {St A} (P P' : St → Prop) (m : M St A) Q Q' E E' :
  triple P m Q E → triple P' m Q' E' → triple (λ s, P s ∧ P' s) m (λ a s, Q a s ∧ Q' a s) (λ e s, E e s ∧ E' e s).
Proof. intros H H' s [Hs Hs']. specialize (H s Hs). specialize (H' s Hs'). by destruct (m s) as [[a|e|x] t]. Qed.

(** Clearing a directory leaves the dentries aside alone. *)
Section Aside.
Context (b : DS) (p : path).
Definition aside (t : DS) : Prop := can_copy t ∧ ∀ q, Os.below p q = false → ds_dentries t !! q = ds_dentries b !! q.
Lemma aside_real {A} (f : DS → outcome A * DS) : (∀ t, aside t → aside (f t).2 ∧ (∀ x, (f t).1 ≠ Panic x)) → triple aside (real f) (λ _, aside) (λ _, aside).
Proof.
  intros Hf. apply triple_real; [by intros|done|]. intros t Ht. destruct (Hf t Ht) as [Ha Hx]. destruct (f t) as [[a|e|x] t']; [done|done|]. by destruct (Hx x).
Qed.
Lemma aside_tree side v t : aside t → aside (set_tree side v t).
Proof. intros [[Hl Hx] Hd]. destruct side; split; try done. split; [|done]. cbn. intros Heq%(f_equal length). rewrite length_insert in Heq. by destruct (ls_layers (ds_ls t)). Qed.
Ltac aside_tac := apply aside_real; intros t Ht; repeat (case_match; simpl); (split; [eauto using aside_tree|done]).
Lemma aside_call : triple aside real_call (λ _, aside) (λ _, aside).
Proof. aside_tac. Qed.
Lemma aside_lookup side q : triple aside (real_lookup side q) (λ _, aside) (λ _, aside).
Proof. aside_tac. Qed.
Lemma aside_create side q n : triple aside (real_create side q n) (λ _, aside) (λ _, aside).
Proof. aside_tac. Qed.
Lemma aside_alter side q f : triple aside (real_alter side q f) (λ _, aside) (λ _, aside).
Proof. aside_tac. Qed.
Lemma aside_rename x y flags : triple aside (real_rename x y flags) (λ _, aside) (λ _, aside).
Proof. aside_tac. Qed.
Lemma aside_cleanup side q E : triple aside (ovl_cleanup side q) (λ _, aside) E.
Proof.
  unfold ovl_cleanup. apply triple_get. intros s Hs. apply (triple_pre _ aside); [|by intros ? ->]. apply triple_ignore. destruct (dir_at _ _); aside_tac.
Qed.
Lemma aside_bind {A B} (m : M DS A) (k : A → M DS B) : triple aside m (λ _, aside) (λ _, aside) → (∀ a, triple aside (k a) (λ _, aside) (λ _, aside)) →
  triple aside (m ≫= k) (λ _, aside) (λ _, aside).
Proof. intros Hm Hk. by eapply (triple_bind _ _ _ (λ _, aside)). Qed.
Lemma aside_get {A} (k : DS → M DS A) : (∀ s, triple aside (k s) (λ _, aside) (λ _, aside)) → triple aside (s ← get; k s) (λ _, aside) (λ _, aside).
Proof. intros Hk. apply triple_get. intros s Hs. eapply triple_pre; [apply Hk|by intros ? ->]. Qed.
Lemma aside_temp fs_mode a : triple aside (ovl_create_temp fs_mode a) (λ _, aside) (λ _, aside).
Proof.
  apply aside_bind.
  - apply aside_bind; [apply (triple_modify _ _ (λ _, aside)); by intros|]. intros []. apply aside_get. intros s. apply aside_bind; [apply aside_lookup|].
    intros [n|]; [by apply triple_fail|by apply triple_ret].
  - intros tmp. apply aside_bind; [apply aside_create|]. intros []. by apply triple_ret.
Qed.
Lemma aside_opaque x : triple aside (ovl_set_opaque p x) (λ _, aside) (λ _, aside).
Proof.
  apply aside_get. intros s. destruct (ls_noxattr _); [by apply triple_fail|]. apply aside_bind; [apply aside_alter|]. intros [].
  apply triple_modify. intros t [Hl Hd]. split; [done|]. intros q Hq. cbn. rewrite lookup_alter_ne; [by apply Hd|].
  intros <-. by rewrite (proj2 (below_spec p p)) in Hq.
Qed.
Lemma aside_os {A} veto (m : M OS A) φ : OvlProps.quiet veto m φ → triple aside (on_os m) (λ _, aside) (λ _, aside).
Proof. intros Hq. eapply triple_conseq; [apply (on_os_quiet veto m φ aside Hq); [by intros s []|by intros s f]|done|by intros a s []|done]. Qed.
Lemma clear_aside fs_mode list : triple aside (ovl_clear_empty sec fs_mode p list) (λ _, aside) (λ _, aside).
Proof.
  unfold ovl_clear_empty. apply aside_get. intros s. destruct (ofs_workdir _); [|by apply triple_fail]. apply aside_bind; [apply aside_call|]. intros [].
  apply aside_bind; [apply aside_lookup|]. intros [stat|]; [|by apply triple_fail]. destruct (negb _); [by apply triple_fail|].
  apply aside_bind; [apply aside_temp|]. intros tmp. apply aside_bind.
  - eapply (triple_defer _ _ _ _ (λ _, aside)); [|intros e; apply aside_cleanup]. apply aside_bind; [by refine (aside_os _ _ _ (copy_xattr_copies sec stat _ _))|].
    intros n1. apply aside_bind; [apply (triple_modify _ _ (λ _, aside)); intros t; apply aside_tree|]. intros [].
    apply aside_bind; [apply aside_opaque|]. intros []. apply aside_get. intros s'. apply aside_bind; [exact (aside_os _ _ _ (set_attr_sets sec stat _))|]. intros n2.
    apply aside_bind; [apply (triple_modify _ _ (λ _, aside)); intros t; apply aside_tree|]. intros []. apply aside_rename.
  - intros []. apply aside_bind.
    { apply triple_for_each. intros e _. destruct (negb _); [by apply triple_ret|]. apply aside_bind.
      - eapply (triple_attempt _ _ _ _ (λ _, aside)); [apply aside_lookup|done].
      - intros [?|[n|]]; [by apply triple_ret|apply aside_cleanup|by apply triple_ret]. }
    intros []. apply aside_bind; [apply aside_cleanup|]. intros []. apply triple_modify. intros t [Hl Hd]. split; [done|]. intros q Hq.
    change (ds_dentries (dropped p t) !! q = ds_dentries b !! q). rewrite dropped_lookup, Hq. by apply Hd.
Qed.
End Aside.

(** The directory that is replaced is cleared, if it has whiteouts. *)
Record cleared_base (new : path) (b c : DS) : Prop := {
  cb_unseen : unseen sec b c;
  cb_below : ∀ q, below_at c q = below_at b q;
  cb_upper : ∀ q, Os.below new q = false → upper_tree c !! q = upper_tree b !! q;
  cb_dentry : ∀ q, Os.below new q = false → ds_dentries c !! q = ds_dentries b !! q;
}.
Lemma clear_base fs_mode new list b : coherent b → new ≠ [] → (list ≠ [] → ∀ r, r ≠ [] → shown_at b (new ++ r) = None) →
  triple (λ t, t = b) (if negb (bool_decide (list = [])) then ovl_clear_empty sec fs_mode new list else mret tt)
    (λ _ c, cleared_base new b c ∧ (list = [] → c = b)) (λ _, unseen sec b).
Proof.
  intros Hco Hnew Hempty. case_bool_decide as Hl; cbn [negb].
  { apply triple_ret. intros ? ->. split; [|done]. split; [by apply unseen_refl|done|done|done]. }
  eapply triple_conseq; [apply triple_and; [apply (clear_empty_ok b (upper_tree b) (upper_wf _ Hco) sec (co_xattr _ Hco) fs_mode new list)|apply (clear_aside b new fs_mode list)]|..].
  - intros ? ->. split; [by apply upto_refl|]. split; [|done]. split; [by rewrite (upper_layers _ (co_some _ Hco))|apply Hco].
  - intros [] c [(s1&Hcl&->) [_ Hd]]. split; [|done]. destruct (cleared_unseen sec b s1 new Hco Hnew (Hempty Hl) Hcl) as [Hun _].
    destruct Hcl as (n&stat&Hs&_). split; [done| | |exact Hd].
    + intros q. exact (upto_below_at _ b s1 q Hco Hs).
    + intros q Hq. change (upper_tree (dropped new s1)) with (upper_tree s1). by rewrite (upto_upper _ _ _ Hs), lookup_graft, Hq.
  - intros e c [Hc _]. by apply upto_unseen.
Qed.

Section Whole.
Context (iterate : LS → nat → path → list (string * bool)) (rebalance : rb_tree → rb_tree).
Context (Hrebalance : ∀ t, inorder (rebalance t) = inorder t) (Hiter : ∀ s i p, iterate_ok iterate s i p).
Context (fs_mode : Z → Z) (nlink_start_indexed nlink_end_indexed : path → M DS ()) (rmax : nat).
Abbreviation rename := (ovl_rename sec encode_fh copy_up_indexed iterate rebalance fs_mode nlink_start_indexed nlink_end_indexed rmax).

Context (s : DS) (olddir newdir : path) (oldname newname : string) (e e' : oentry).
Let old := olddir ++ [oldname].
Let new := newdir ++ [newname].
Context (Hco : coherent s) (Hname : dot_free newname).
Context (Hne : old ≠ new) (He : ds_dentries s !! old = Some e) (Hpos : oe_positive e = true) (He' : ds_dentries s !! new = Some e').
Context (Hredirect : ovl_redirect_dir s = false) (Hop : oe_is_dir s e = true → oe_opaque e = true → hide_at (upper_tree s) old = true).

(** What has been learnt when the directories are locked: [b] has the copies, [c] the
    cleared directory, [c2] the mark on the new parent. *)
Record locked (list : list ovl_cache_entry) (b c c2 : DS) : Prop := {
  lk_b : kept_dir sec s b;
  lk_old : is_Some (upper_tree b !! old);
  lk_newdir : is_Some (upper_tree b !! newdir);
  lk_clear : cleared_base new b c;
  lk_same : list = [] → c = b;
  lk_c2 : kept_dir sec c c2;
}.
Lemma shown_dir_at t p n : coherent t → is_Some (upper_tree t !! p) → shown_at t p = Some n → dir_at (upper_tree t) p = is_dir_node n.
Proof.
  intros Ht [m Hm] Hn. rewrite (shown_over t) in Hn by done. unfold over in Hn. rewrite Hm in Hn. cbn in Hn. unfold dir_at. rewrite Hm.
  destruct (ovl_is_whiteout m); [done|]. by injection Hn as ->.
Qed.
Lemma same_dir t p n : unseen sec s t → shown_at s p = Some n → ∃ m, shown_at t p = Some m ∧ is_dir_node m = is_dir_node n.
Proof.
  intros [_ Hv] Hn. specialize (Hv p). rewrite Hn in Hv. inversion Hv as [x m (Ht&_) H1 H2|]; subst. exists m. split; [done|]. unfold is_dir_node. by rewrite Ht.
Qed.

Section AtLock.
Context (list : Datatypes.list ovl_cache_entry) (b c c2 : DS) (Hlk : locked list b c c2).
(** What is not below the cleared directory, if one was cleared. *)
Definition spared (q : path) : Prop := Os.below new q = false ∨ c = b.
Context (Hno : spared old).
Lemma spared_upper q : spared q → upper_tree c !! q = upper_tree b !! q.
Proof. intros [Hq|Hcb]; [by apply (cb_upper _ _ _ (lk_clear _ _ _ _ Hlk))|by rewrite Hcb]. Qed.
Lemma spared_dentry q : spared q → ds_dentries c !! q = ds_dentries b !! q.
Proof. intros [Hq|Hcb]; [by apply (cb_dentry _ _ _ (lk_clear _ _ _ _ Hlk))|by rewrite Hcb]. Qed.

Lemma lk_unseen : unseen sec s c2.
Proof. destruct Hlk as [Hb _ _ Hc _ Hc2]. eapply unseen_trans; [by apply kept_unseen|]. eapply unseen_trans; [apply Hc|by apply kept_unseen]. Qed.
Lemma newdir_aside : spared newdir.
Proof. left. apply not_below_spec. intros Hl%prefix_length. unfold new in Hl. rewrite length_app in Hl. cbn in Hl. lia. Qed.
(** An entry aside, from the start to the lock. *)
Lemma lk_upper q i : spared q → upper_tree s !! q = Some i → ∃ j, upper_tree c2 !! q = Some j ∧ shape j = shape i.
Proof.
  intros Hq Hi. destruct (kd_upper _ _ _ (lk_b _ _ _ _ Hlk) _ _ Hi) as (j&Hj&Hs).
  rewrite <-spared_upper in Hj by done. destruct (kd_upper _ _ _ (lk_c2 _ _ _ _ Hlk) _ _ Hj) as (k&Hk&Hs'). exists k. split; [done|congruence].
Qed.
Lemma lk_present q : spared q → is_Some (upper_tree b !! q) → is_Some (upper_tree c2 !! q).
Proof.
  intros Hq [i Hi]. rewrite <-spared_upper in Hi by done. by destruct (kd_upper _ _ _ (lk_c2 _ _ _ _ Hlk) _ _ Hi) as (k&->&_).
Qed.
Lemma lk_dentry q x : spared q → ds_dentries s !! q = Some x →
  ∃ y, ds_dentries c2 !! q = Some y ∧ oe_positive y = oe_positive x ∧ oe_lowers y = oe_lowers x ∧ oe_opaque y = oe_opaque x.
Proof.
  intros Hq Hx. destruct (kd_dentry _ _ _ (lk_b _ _ _ _ Hlk) _ _ Hx) as (y&Hy&Hp&_&Hl&Ho).
  rewrite <-spared_dentry in Hy by done. destruct (kd_dentry _ _ _ (lk_c2 _ _ _ _ Hlk) _ _ Hy) as (z&Hz&Hp'&_&Hl'&Ho').
  exists z. split_and!; [done|congruence..].
Qed.
Lemma lk_low : low_none (upper_tree s) (below_at s) old → low_none (upper_tree c2) (below_at c2) old.
Proof.
  intros Hlow. apply (low_none_kept sec c c2); [apply Hlk|]. apply (low_none_kept sec s b) in Hlow; [|apply Hlk].
  unfold low_none. rewrite (cb_below _ _ _ (lk_clear _ _ _ _ Hlk)). rewrite (covered_same (upper_tree b)); [done|]. intros q Hq.
  apply spared_upper. destruct Hno as [Hno'|]; [left|by right]. apply not_below_spec in Hno'. apply not_below_spec. intros Hnq. destruct Hno'.
  etrans; [exact Hnq|]. by apply (parent_prefix old q (snoc_ne _ _)) in Hq as [? _].
Qed.

Lemma lock_rename positive flags cleanup new0 new_is_dir samedir f0 :
  let is_dir := oe_is_dir s e in
  ovl_can_move s e = true → (positive = false → low_none (upper_tree s) (below_at s) old) → (ovl_dentry_is_whiteout e' = true → list = []) →
  rename_flags 0 true positive is_dir (ovl_dentry_is_whiteout e') = (flags, cleanup) →
  triple (λ t, t = with_faults f0 c2) (rename_locked rmax olddir newdir old new is_dir new_is_dir true samedir flags cleanup new0)
    (λ _ t, moved old new s t ∧ overwritten_empty c2 newdir newname (ovl_dentry_is_whiteout e')) (λ _, unseen sec s).
Proof.
  intros is_dir Hmove Hlow Hlist Hfl. pose proof lk_unseen as Hun. pose proof (proj1 Hun) as Hc2.
  destruct (co_parent _ Hco newdir newname) as (d&Hd&Hdp&Hdd); [by exists e'|].
  destruct (lk_dentry old e Hno He) as (e2&He2&Hp2&Hl2&Ho2). destruct (lk_dentry newdir d newdir_aside Hd) as (d2&Hd2&Hdp2&_).
  rewrite Hpos in Hp2. rewrite Hdp in Hdp2.
  assert (is_Some (upper_tree c2 !! old)) as Hup by (apply lk_present; [done|apply Hlk]).
  pose proof (positive_shown _ Hco _ _ He) as Hsh. rewrite Hpos in Hsh. symmetry in Hsh. apply bool_decide_eq_true in Hsh as [n Hn].
  destruct (same_dir c2 old n Hun Hn) as (m&Hm&Hmd).
  pose proof (positive_shown _ Hco _ _ Hd) as Hshd. rewrite Hdp in Hshd. symmetry in Hshd. apply bool_decide_eq_true in Hshd as [nd Hnd].
  destruct (same_dir c2 newdir nd Hun Hnd) as (md&Hmdn&Hmdd).
  eapply triple_conseq; [apply (rename_locked_ok c2 olddir newdir oldname newname Hc2 Hname e2 d2 is_dir positive (ovl_dentry_is_whiteout e'))|..].
  - exact He2.
  - done.
  - exact Hup.
  - fold old. rewrite (shown_dir_at c2 old m), Hmd by done. unfold is_dir. by rewrite (dir_shown s Hco old e n He Hpos Hn).
  - intros Hid. rewrite Hl2. unfold ovl_can_move in Hmove. rewrite Hredirect in Hmove. fold is_dir in Hmove. rewrite Hid in Hmove. cbn in Hmove.
    apply negb_true_iff, orb_false_iff in Hmove as [Hmg Hty%negb_false_iff]. unfold ovl_type_merge in Hmg. rewrite Hty in Hmg. fold is_dir in Hmg.
    rewrite Hid, andb_true_r in Hmg. by apply negb_false_iff, bool_decide_eq_true in Hmg.
  - intros Hid Hopq. rewrite Ho2 in Hopq. specialize (Hop Hid Hopq). unfold hide_at in Hop. destruct (upper_tree s !! old) as [i|] eqn:Hi; [|done].
    destruct (lk_upper old i Hno Hi) as (j&Hj&(Hs1&_&Hs2)%shape_parts). unfold hide_at. fold old. rewrite Hj. unfold hide_node in *. by rewrite Hs1, Hs2.
  - exact Hd2.
  - done.
  - apply lk_present; [apply newdir_aside|apply Hlk].
  - rewrite (dir_shown c2 Hc2 newdir d2 md Hd2 Hdp2 Hmdn), Hmdd. by rewrite <-(dir_shown s Hco newdir d nd Hd Hdp Hnd).
  - intros Hp. apply lk_low. by apply Hlow.
  - intros Hw. specialize (Hlist Hw). pose proof (lk_same _ _ _ _ Hlk Hlist) as Hcb. unfold ovl_dentry_is_whiteout in Hw.
    apply andb_true_iff in Hw as [Hw%negb_true_iff _]. destruct (kd_dentry _ _ _ (lk_b _ _ _ _ Hlk) _ _ He') as (y&Hy&_&Heq&_). rewrite (Heq Hw) in Hy.
    rewrite <-Hcb in Hy. destruct (kd_dentry _ _ _ (lk_c2 _ _ _ _ Hlk) _ _ Hy) as (z&Hz&_&Heq'&_). exists z. by rewrite (Heq' Hw) in Hz |- *.
  - exact Hfl.
  - intros t ->. by exists f0.
  - intros [] t [Hmv Hov]. split; [by eapply unseen_moved|done].
  - intros err t Ht. by eapply unseen_trans.
Qed.

(** What is replaced showed nothing below it. *)
Lemma lock_empty : (oe_is_dir s e' = true → ovl_pure_upper e' = false → ∀ r, r ≠ [] → shown_at s (new ++ r) = None) → (ovl_pure_upper e' = true → list = []) →
  overwritten_empty c2 newdir newname (ovl_dentry_is_whiteout e') → ∀ r, r ≠ [] → shown_at s (new ++ r) = None.
Proof.
  intros Hcheck Hlist Hov r Hr. pose proof (positive_shown _ Hco _ _ He') as Hsh. destruct (shown_at s new) as [n|] eqn:Hn.
  2:{ by apply closed_none; [apply view_closed, Hco|]. }
  rewrite bool_decide_eq_true_2 in Hsh by done. pose proof (dir_shown s Hco new e' n He' Hsh Hn) as Hd. destruct (is_dir_node n) eqn:Hnd.
  2:{ by eapply closed_file; [apply view_closed, Hco| | |]. }
  destruct (ovl_pure_upper e') eqn:Hp; [|by apply Hcheck]. specialize (Hlist eq_refl). pose proof (lk_same _ _ _ _ Hlk Hlist) as Hcb.
  unfold ovl_pure_upper in Hp. apply andb_true_iff in Hp as [Hl%bool_decide_eq_true _].
  assert (is_Some (oe_upper e')) as [u Hu].
  { unfold oe_positive in Hsh. rewrite Hl, orb_false_r in Hsh. by apply bool_decide_eq_true in Hsh. }
  pose proof (upper_positive _ Hco _ _ He' Hsh) as Hup. destruct (upper_tree s !! new) as [x|] eqn:Hx; [|congruence].
  assert (dir_at (upper_tree s) new = true) as Hda by (by rewrite (shown_dir_at s new n), Hnd).
  assert (union (ds_ls s) new = [0]) as Hun.
  { pose proof (eo_positive _ _ _ (co_entry _ Hco _ _ He') Hsh) as Hst. unfold stands in Hst. cbn in Hst. rewrite Hup in Hst. destruct Hst as [_ (rest&Hr0&Hlo)].
    rewrite <-dir_at_lookup in Hlo. specialize (Hlo Hda). rewrite Hl in Hlo. symmetry in Hlo. apply fmap_nil_inv in Hlo as ->. done. }
  assert (∀ q i, upper_tree s !! q = Some i → ∃ j, upper_tree c2 !! q = Some j ∧ shape j = shape i) as Hsub.
  { intros q i Hi. destruct (kd_upper _ _ _ (lk_b _ _ _ _ Hlk) _ _ Hi) as (j&Hj&Hs). rewrite <-Hcb in Hj.
    destruct (kd_upper _ _ _ (lk_c2 _ _ _ _ Hlk) _ _ Hj) as (k&Hk&Hs'). exists k. split; [done|congruence]. }
  rewrite (pure_shown s new r Hco (snoc_ne _ _) Hun). destruct (upper_tree s !! (new ++ r)) as [y|] eqn:Hy; [|done]. exfalso.
  destruct (Hsub _ _ Hy) as (z&Hz&_). destruct (Hsub _ _ Hx) as (x'&Hx'&(Hxd&_)%shape_parts). rewrite Hov in Hz; [done| | |done].
  - unfold ovl_dentry_is_whiteout. by rewrite Hsh.
  - unfold dir_at. fold new. rewrite Hx'. unfold is_dir_node in Hxd. rewrite Hxd. unfold dir_at in Hda. by rewrite Hx in Hda.
Qed.
End AtLock.

Lemma dir_positive x : oe_is_dir s x = true → oe_positive x = true.
Proof.
  intros Hd. destruct (oe_positive x) eqn:Hp; [done|]. destruct (negative_lowers _ Hp) as [Hu Hl]. unfold oe_is_dir, real_node, first_lower in Hd.
  by rewrite Hu, Hl in Hd.
Qed.
(** The part of [ovl_rename] between [ovl_nlink_start] and [ovl_nlink_end]. *)
Lemma rename_tail list b positive fl cleanup :
  let check := oe_is_dir s e' && negb (ovl_pure_upper e') in
  kept_dir sec s b → is_Some (upper_tree b !! old) → is_Some (upper_tree b !! newdir) → ovl_can_move s e = true →
  (list ≠ [] → check = true) → (check = true → ∀ r, r ≠ [] → shown_at s (new ++ r) = None) →
  (positive = false → low_none (upper_tree s) (below_at s) old) →
  rename_flags 0 true positive (oe_is_dir s e) (ovl_dentry_is_whiteout e') = (fl, cleanup) →
  triple (λ t, t = b)
    (_ ← (if negb (bool_decide (list = [])) then ovl_clear_empty sec fs_mode new list else mret tt);
     x ← the_dentry old;
     _ ← (if negb (bool_decide (olddir = newdir)) && ovl_type_origin x then on_os (ovl_set_impure newdir) else mret tt);
     s1 ← get;
     let y := default e' (ds_dentries s1 !! new) in
     _ ← (if negb (bool_decide (olddir = newdir)) && false && ovl_type_origin y then on_os (ovl_set_impure olddir) else mret tt);
     rename_locked rmax olddir newdir old new (oe_is_dir s e) (oe_is_dir s e') true (bool_decide (olddir = newdir)) fl cleanup y)
    (λ _ t, moved old new s t ∧ ∀ r, r ≠ [] → shown_at s (new ++ r) = None) (λ _, unseen sec s).
Proof.
  intros check Hb Hob Hnb Hmove Hlist Hempty Hlow Hrf. pose proof (kept_unseen _ _ _ Hb) as Hsb. pose proof (kd_coherent _ _ _ Hb) as Hbc.
  eapply triple_bind; [eapply triple_conseq; [apply (clear_base fs_mode new list b Hbc (snoc_ne _ _))|done|done|]|].
  { intros Hl r Hr. destruct Hsb as [_ Hv]. specialize (Hv (new ++ r)). rewrite (Hempty (Hlist Hl) r Hr) in Hv. by inversion Hv. }
  { intros err t Ht. by eapply unseen_trans. }
  intros []. apply triple_at. intros c [Hcl Hsame].
  assert (spared b c old) as Hsp.
  { destruct (decide (list = [])) as [Hl|Hl]; [right; by apply Hsame|left]. apply not_below_spec. intros [r Hr].
    pose proof (positive_shown _ Hco _ _ He) as Hsh. rewrite Hpos in Hsh. symmetry in Hsh. apply bool_decide_eq_true in Hsh as [n Hn].
    destruct (decide (r = [])) as [->|Hr0]; [by rewrite app_nil_r in Hr|]. by rewrite Hr, (Hempty (Hlist Hl) r Hr0) in Hn. }
  assert (kept_dir sec c c) as Hcc by (apply kept_dir_refl, Hcl).
  assert (locked list b c c) as Hlk0 by by split.
  destruct (lk_dentry list b c c Hlk0 old e Hsp He) as (e2&He2&_).
  eapply triple_bind; [by apply (the_dentry_ok old e2)|]. intros x.
  apply (triple_pre _ (kept_dir sec c)); [|intros t [_ ->]; exact Hcc]. eapply triple_bind.
  { eapply triple_conseq; [apply impure_if|done|done|]. intros err t Ht. eapply unseen_trans; [exact Hsb|]. eapply unseen_trans; [apply Hcl|by apply kept_unseen]. }
  intros []. apply triple_get. intros c2 Hc2. rewrite andb_false_r. cbn [andb].
  eapply (triple_bind _ _ _ (λ _ t, t = c2)); [by apply triple_ret|]. intros [].
  assert (locked list b c c2) as Hlk by by split.
  assert (ovl_pure_upper e' = true → list = []) as Hpure.
  { intros Hp. destruct (decide (list = [])) as [Hl|Hl]; [done|]. specialize (Hlist Hl). unfold check in Hlist. by rewrite Hp, andb_false_r in Hlist. }
  eapply triple_conseq; [apply (lock_rename list b c c2 Hlk Hsp positive fl cleanup _ _ _ (ls_faults (ds_ls c2)) Hmove Hlow)|..].
  - intros Hw. destruct (decide (list = [])) as [Hl|Hl]; [done|]. specialize (Hlist Hl). apply andb_true_iff in Hlist as [Hd%dir_positive _].
    unfold ovl_dentry_is_whiteout in Hw. by rewrite Hd in Hw.
  - exact Hrf.
  - intros t ->. by destruct c2 as [? []].
  - intros [] t [Hmv Hov]. split; [done|]. eapply (lock_empty list b c c2 Hlk); [|exact Hpure|exact Hov].
    intros Hd Hp. apply Hempty. unfold check. by rewrite Hd, Hp.
  - done.
Qed.
Lemma rename_ok flags : flags = 0%Z ∨ flags = RENAME_NOREPLACE →
  triple (λ t, t = s) (rename olddir oldname newdir newname flags)
    (λ _ t, moved old new s t ∧ ∀ r, r ≠ [] → shown_at s (new ++ r) = None) (λ _, unseen sec s).
Proof.
  intros Hflags. destruct (co_parent _ Hco newdir newname) as (d&Hd&Hdp&_); [by exists e'|].
  assert (negb (has flags RENAME_EXCHANGE) = true ∧ Z.land flags (Z.lnot RENAME_NOREPLACE) = 0%Z ∧
    (Z.land flags (Z.lnot (Z.lor RENAME_EXCHANGE RENAME_NOREPLACE)) =? 0)%Z = true) as (Hex&Hfl&Hgu) by (by destruct Hflags as [-> | ->]).
  unfold ovl_rename. fold old new. rewrite Hex, Hfl, Hgu. cbn [orb andb negb guard_err].
  eapply triple_bind; [by apply (the_dentry_ok old e)|]. intros x. apply (triple_pull (x = e)); [by intros t []|]. intros ->.
  apply (triple_pre _ (λ t, t = s)); [|by intros t []].
  eapply triple_bind; [by apply (the_dentry_ok new e')|]. intros x. apply (triple_pull (x = e')); [by intros t []|]. intros ->.
  apply triple_get. intros t0 [_ ->]. apply (triple_pre _ (λ t, t = s)); [|done].
  eapply (triple_bind _ _ _ (λ _ t, t = s)); [by apply triple_ret|]. intros []. rewrite andb_true_r.
  eapply (triple_bind _ _ _ (λ _ t, t = s ∧ ovl_can_move s e = true)).
  { apply triple_guard; [done|]. intros t -> _. by apply unseen_refl. }
  intros []. apply (triple_pull (ovl_can_move s e = true)); [by intros t []|]. intros Hmove. apply (triple_pre _ (λ t, t = s)); [|by intros t []].
  set (check := oe_is_dir s e' && negb (ovl_pure_upper e')).
  eapply (triple_bind _ _ _ (λ list t, (∃ f, t = with_faults f s) ∧ (list ≠ [] → check = true) ∧ (check = true → ∀ r, r ≠ [] → shown_at s (new ++ r) = None))).
  { destruct check eqn:Hc; [|apply triple_ret; intros t ->; split; [by exists (ls_faults (ds_ls s)); destruct s as [? []]|done]].
    apply andb_true_iff in Hc as [Hc _]. eapply triple_conseq; [apply (check_empty_ok iterate rebalance Hrebalance Hiter s new e'); try done; by apply dir_positive|done| |].
    - intros l t [Hf Hn]. by split_and!.
    - intros err t [f ->]. by apply kept_unseen, faults_kept. }
  intros list. match goal with |- triple (λ t, _ ∧ ?φ) _ _ _ => apply (triple_pull φ) end; [by intros t []|]. intros [Hlist Hempty].
  apply triple_at. intros t1 [[f1 ->] _]. eapply triple_bind.
  { eapply triple_conseq; [apply (lower_positive_ok (with_faults f1 s) olddir oldname e)|done|done|].
    - apply (kd_coherent sec s), faults_kept, Hco.
    - exact He.
    - done.
    - intros err t [f ->]. by apply kept_unseen, kept_faults, faults_kept. }
  intros positive. apply (triple_pull (positive = false → low_none (upper_tree s) (below_at s) old)); [intros t [_ H]; exact H|]. intros Hlow.
  apply (triple_pre _ (kept_dir sec s)). 2:{ intros t [[f ->] _]. by apply kept_faults, faults_kept. }
  destruct (rename_flags 0 true positive (oe_is_dir s e) (ovl_dentry_is_whiteout e')) as [fl cleanup] eqn:Hrf.
  assert (∀ (err : error) t, kept_dir sec s t → unseen sec s t) as HE by (intros _ t; apply kept_unseen).
  eapply triple_bind; [eapply triple_conseq; [apply want_write_kept|done|done|exact HE]|]. intros [].
  eapply triple_bind; [eapply triple_conseq; [by apply (copy_up_kept sec encode_fh copy_up_indexed s old e)|done|done|exact HE]|]. intros [].
  apply triple_at. intros b1 [Hb1 Ho1]. destruct (kd_dentry _ _ _ Hb1 _ _ Hd) as (d1&Hd1&Hdp1&_). rewrite Hdp in Hdp1.
  apply (triple_pre _ (kept_dir sec b1)); [|intros ? ->; by apply kept_dir_refl, Hb1].
  assert (∀ (err : error) t, kept_dir sec b1 t → unseen sec s t) as HE1 by (intros _ t Ht; eapply unseen_trans; [by apply kept_unseen|by apply kept_unseen]).
  eapply triple_bind; [eapply triple_conseq; [by apply (copy_up_kept sec encode_fh copy_up_indexed b1 newdir d1)|done|done|exact HE1]|]. intros [].
  apply triple_at. intros b2 [Hb2 Hn2]. apply (triple_pre _ (kept_dir sec b2)); [|intros ? ->; by apply kept_dir_refl, Hb2].
  assert (∀ (err : error) t, kept_dir sec b2 t → unseen sec s t) as HE2 by (intros err t Ht; apply (HE1 err); by eapply kept_dir_trans).
  eapply triple_bind; [eapply triple_conseq; [apply nlink_start_kept|done|done|exact HE2]|]. intros []. apply triple_at. intros b Hb.
  assert (kept_dir sec s b) as Hsb by (do 2 (eapply kept_dir_trans; [eassumption|]); done).
  assert (is_Some (upper_tree b !! old) ∧ is_Some (upper_tree b !! newdir)) as [Hob Hnb].
  { destruct Ho1 as [i Hi], Hn2 as [j Hj]. destruct (kd_upper _ _ _ Hb2 _ _ Hi) as (i2&Hi2&_). destruct (kd_upper _ _ _ Hb _ _ Hi2) as (i3&->&_).
    by destruct (kd_upper _ _ _ Hb _ _ Hj) as (j3&->&_). }
  eapply (triple_defer_when _ _ _ _ (λ _ t, moved old new s t ∧ ∀ r, r ≠ [] → shown_at s (new ++ r) = None) _ (λ _, unseen sec s));
    [|intros err; apply nlink_end_any; intros t [Ht _]; apply (co_index _ Ht)|intros [] _; apply nlink_end_any; intros t [[Ht _] _]; apply (co_index _ Ht)|done].
  by apply (rename_tail list b positive fl cleanup).
Qed.
End Whole.
End Rename.
