(* ===== verification/OvlDirExchange.v ===== *)
(** * Exchanging entries of an overlay

    A rename with [RENAME_EXCHANGE] that succeeds lets two entries change places, each
    with all that is below it; one that fails does not show. *)

From S2P Require Import Prelude FileSys OvlOpts OvlMount OvlCopyUp OvlProps OvlLookup OvlReaddir OvlDir OvlMountProps OvlReaddirProps OvlLookupProps OvlUnion OvlView OvlDirInv OvlDirCopy OvlDirOps OvlDirProps OvlDcache OvlDirRename.

(** An entry that has been copied up and may be moved. *)
Record movable (c : DS) (p : path) (e : oentry) (is_dir : bool) : Prop := {
  mv_dentry : ds_dentries c !! p = Some e;
  mv_positive : oe_positive e = true;
  mv_upper : is_Some (upper_tree c !! p);
  mv_dir : dir_at (upper_tree c) p = is_dir;
  mv_pure : is_dir = true → oe_lowers e = [];
  mv_opaque : is_dir = true → oe_opaque e = true → hide_at (upper_tree c) p = true;
}.
Lemma movable_alone c dir name e is_dir : coherent c → movable c (dir ++ [name]) e is_dir → union (ds_ls c) (dir ++ [name]) = [0].
Proof. intros Hco [????? _]. by eapply old_alone. Qed.
Lemma movable_parent c dir name e is_dir : coherent c → movable c (dir ++ [name]) e is_dir →
  ∃ d, ds_dentries c !! dir = Some d ∧ oe_positive d = true ∧ is_Some (upper_tree c !! dir) ∧ oe_is_dir c d = true.
Proof.
  intros Hco Hm. destruct (co_parent _ Hco dir name) as (d&Hd&Hp&Hdd); [exists e; apply Hm|]. exists d. split_and!; [done|done| |done].
  pose proof (tw_parent _ (upper_wf _ Hco) dir name (mv_upper _ _ _ _ Hm)) as H. unfold dir_at in H. by destruct (upper_tree c !! dir).
Qed.

Section Exchange.
Context (sec : string → Z) (encode_fh : path → string) (copy_up_indexed : path → path → Z → M OS ()).

(** From what is asked for to what is locked. *)
Lemma movable_kept s c p e : coherent s → kept_dir sec s c → ds_dentries s !! p = Some e → oe_positive e = true →
  ovl_can_move s e = true → ovl_redirect_dir s = false → is_Some (upper_tree c !! p) →
  (oe_is_dir s e = true → oe_opaque e = true → hide_at (upper_tree s) p = true) → ∃ e2, movable c p e2 (oe_is_dir s e).
Proof.
  intros Hco Hk He Hpos Hmove Hrd Hup Hop. destruct (kd_dentry _ _ _ Hk _ _ He) as (e2&He2&Hp2&_&Hl2&Ho2). exists e2.
  pose proof (positive_shown _ Hco _ _ He) as Hsh. rewrite Hpos in Hsh. symmetry in Hsh. apply bool_decide_eq_true in Hsh as [n Hn].
  destruct (same_dir sec s c p n (kept_unseen _ _ _ Hk) Hn) as (m&Hm&Hmd). split; [done|congruence|done|..].
  - rewrite (shown_dir_at c p m), Hmd by (done || apply Hk). by rewrite (dir_shown s Hco p e n).
  - intros Hd. rewrite Hl2. unfold ovl_can_move in Hmove. rewrite Hrd, Hd in Hmove. cbn in Hmove.
    apply negb_true_iff, orb_false_iff in Hmove as [Hmg Hty%negb_false_iff]. unfold ovl_type_merge in Hmg. rewrite Hty, Hd, andb_true_r in Hmg.
    by apply negb_false_iff, bool_decide_eq_true in Hmg.
  - intros Hd Hopq. rewrite Ho2 in Hopq. specialize (Hop Hd Hopq). unfold hide_at in *. destruct (upper_tree s !! p) as [i|] eqn:Hi; [|done].
    destruct (kd_upper _ _ _ Hk _ _ Hi) as (j&->&(Hs1&_&Hs2)%shape_parts). unfold hide_node in *. by rewrite Hs1, Hs2.
Qed.

Section Locked.
Context (c : DS) (olddir newdir : path) (oldname newname : string).
Let old := olddir ++ [oldname].
Let new := newdir ++ [newname].
Context (Hco : coherent c) (e e' : oentry) (is_dir new_is_dir : bool) (Hm : movable c old e is_dir) (Hm' : movable c new e' new_is_dir).

Lemma movable_prepared c1 : old ≠ new → prepared sec c olddir newdir oldname newname c1 → movable c1 new e' new_is_dir.
Proof.
  intros Hne (_&_&Hsame&_). destruct (Hsame new) as [Hu Hd]; [done|]. destruct Hm' as [?????]. split; try done; unfold hide_at, dir_at in *; by rewrite ?Hu, ?Hd.
Qed.
Lemma exchange_core rmax samedir : Os.below old new = false → Os.below new old = false →
  triple (λ t, ∃ f, t = with_faults f c)
    (_ ← prepare_move rmax old e is_dir (oe_opaque e) samedir newdir;
     _ ← prepare_move rmax new e' new_is_dir (oe_opaque e') samedir olddir;
     _ ← real_rename (Upper, old) (Upper, new) RENAME_EXCHANGE; mret tt)
    (λ _, swapped sec old new c) (λ _, unseen sec c).
Proof.
  intros Hon Hno. assert (old ≠ new) as Hne by (intros Heq; by rewrite Heq, (proj2 (below_spec new new)) in Hon).
  destruct (movable_parent c newdir newname e' new_is_dir Hco Hm') as (d&Hd&Hdp&Hdu&Hdd).
  eapply triple_bind; [destruct Hm; by apply (prepare_move_ok sec c olddir newdir oldname newname Hco e d is_dir)|]. intros []. apply triple_at.
  intros c1 Hp1. pose proof Hp1 as ([[Hc1 Hv1] Hl1]&Hun1&Hsame1&Hseal1). pose proof (movable_prepared c1 Hne Hp1) as Hm1.
  assert (olddir ≠ old) as Hdo by (intros Heq%(f_equal length); unfold old in Heq; rewrite length_app in Heq; cbn in Heq; lia).
  destruct (movable_parent c olddir oldname e is_dir Hco Hm) as (d0&Hd0&Hdp0&Hdu0&Hdd0). destruct (Hsame1 olddir Hdo) as [Hou Hod].
  assert (oe_is_dir c1 d0 = true) as Hdd1.
  { pose proof (positive_shown _ Hco _ _ Hd0) as Hsh. rewrite Hdp0 in Hsh. symmetry in Hsh. apply bool_decide_eq_true in Hsh as [n Hn].
    destruct (same_dir sec c c1 olddir n (conj Hc1 Hv1) Hn) as (m&Hmn&Hmd). rewrite (dir_shown c1 Hc1 olddir d0 m), Hmd by (done || by rewrite Hod).
    by rewrite <-(dir_shown c Hco olddir d0 n). }
  apply (triple_pre _ (λ t, ∃ f, t = with_faults f c1)); [|intros ? ->; exists (ls_faults (ds_ls c1)); by destruct c1 as [? []]].
  eapply triple_bind.
  { eapply triple_conseq; [destruct Hm1; apply (prepare_move_ok sec c1 newdir olddir newname oldname Hc1 e' d0 new_is_dir); try done; [by rewrite Hod|by rewrite Hou]|done|done|].
    intros err t Ht. eapply unseen_trans; [|exact Ht]. by split. }
  intros []. apply triple_at. intros c2 ([[Hc2 Hv2] Hl2]&Hun2&Hsame2&Hseal2). assert (unseen sec c c2) as Hunseen by (eapply unseen_trans; [exact (conj Hc1 Hv1)|by split]).
  apply (triple_pre _ (upto (upper_tree c2) c2)); [|intros ? ->; by apply upto_refl].
  eapply triple_bind.
  { eapply triple_conseq; [apply (rename_upto c2 old new RENAME_EXCHANGE Hc2 (snoc_ne _ _) (snoc_ne _ _) Hon Hno); by right; left|done|done|].
    intros err t Ht. eapply unseen_trans; [exact Hunseen|by apply upto_unseen]. }
  intros []. apply triple_ret. intros t (Ht&_&_&_). eapply unseen_swapped; [exact Hunseen|].
  change (left_behind _ (upper_tree c2) new) with (Os.strip new (upper_tree c2)) in Ht. destruct (Hsame2 old Hne) as [Huo Hdo2].
  assert (newdir ≠ new ∧ olddir ≠ new ∧ newdir ≠ old) as (Hn1&Hn2&Hn3).
  { split_and!; intros Heq.
    - apply (f_equal length) in Heq. unfold new in Heq. rewrite length_app in Heq. cbn in Heq. lia.
    - unfold old in Hno. by rewrite below_snoc, Heq, (proj2 (below_spec new new)) in Hno.
    - unfold new in Hon. by rewrite below_snoc, Heq, (proj2 (below_spec old old)) in Hon. }
  apply swapped_ok; [done|apply snoc_ne|apply snoc_ne|done|done| | | | | | |done].
  - rewrite Hun2, Hun1. by eapply movable_alone.
  - rewrite Hun2, Hun1. by eapply movable_alone.
  - unfold old. rewrite parent_dir_snoc. destruct (Hsame2 olddir Hn2) as [_ ->]. by rewrite Hod, Hd0.
  - unfold new. rewrite parent_dir_snoc. destruct (Hsame2 newdir Hn1) as [_ ->]. destruct (Hsame1 newdir Hn3) as [_ ->]. by rewrite Hd.
  - destruct Hseal1 as [Hh|Hl]; [left|right; by apply Hl2]. unfold hide_at in *. by rewrite Huo.
  - exact Hseal2.
Qed.
Lemma exchange_locked rmax samedir new0 :
  triple (λ t, ∃ f, t = with_faults f c) (rename_locked rmax olddir newdir old new is_dir new_is_dir false samedir RENAME_EXCHANGE false new0)
    (λ _, swapped sec old new c) (λ _, unseen sec c).
Proof.
  unfold rename_locked. pose proof (mv_dentry _ _ _ _ Hm) as He. pose proof (λ f, proj1 (faults_onward sec c Hco f)) as Hf.
  eapply (triple_bind _ _ _ (λ e0 t, e0 = e ∧ ∃ f, t = with_faults f c)).
  { apply triple_at. intros t [f ->]. eapply triple_conseq; [apply (the_dentry_ok old e (with_faults f c) He (λ _, unseen sec c))|done| |done]. intros e0 t [-> ->]. eauto. }
  intros e0. apply (triple_pull (e0 = e)); [by intros t []|]. intros ->. apply (triple_pre _ (λ t, ∃ f, t = with_faults f c)); [|by intros t []].
  eapply triple_bind; [by apply lookup_faults|]. intros olddentry. case_bool_decide; [apply triple_fail; intros t [[f ->] _]; apply Hf|].
  apply (triple_pre _ (λ t, ∃ f, t = with_faults f c)); [|by intros t []].
  eapply triple_bind; [by apply lookup_faults|]. intros newdentry. apply triple_get. intros t0 [[f0 ->] _].
  apply (triple_pre _ (λ t, ∃ f, t = with_faults f c)); [|intros t ->; by eexists].
  change (ds_dentries (with_faults f0 c)) with (ds_dentries c). rewrite (mv_dentry _ _ _ _ Hm'). cbn [default from_option id].
  eapply (triple_bind _ _ _ (λ _ t, ∃ f, t = with_faults f c)); [apply triple_guard; [done|intros t [f ->] _; apply Hf]|]. intros [].
  set (g := _ && _ && _). eapply (triple_bind _ _ _ (λ _ t, (∃ f, t = with_faults f c) ∧ g = true)).
  { apply triple_guard; [done|]. intros t [f ->] _. apply Hf. }
  intros []. apply (triple_pull (g = true)); [by intros t []|]. intros Hg. apply (triple_pre _ (λ t, ∃ f, t = with_faults f c)); [|by intros t []].
  unfold g in Hg. apply andb_true_iff in Hg as [[H1%negb_true_iff H2%negb_true_iff]%andb_true_iff H3%negb_true_iff%bool_decide_eq_false].
  apply exchange_core.
  - unfold new. rewrite below_snoc. fold new. apply orb_false_iff. split; [done|]. by apply bool_decide_eq_false.
  - unfold old. rewrite below_snoc. fold old. apply orb_false_iff. split; [done|]. apply bool_decide_eq_false. congruence.
Qed.
End Locked.

(** ** The whole exchange *)

Section Whole.
Context (iterate : LS → nat → path → list (string * bool)) (rebalance : rb_tree → rb_tree).
Context (fs_mode : Z → Z) (nlink_start_indexed nlink_end_indexed : path → M DS ()) (rmax : nat).
Abbreviation rename := (ovl_rename sec encode_fh copy_up_indexed iterate rebalance fs_mode nlink_start_indexed nlink_end_indexed rmax).
Context (s : DS) (olddir newdir : path) (oldname newname : string) (e e' : oentry).
Let old := olddir ++ [oldname].
Let new := newdir ++ [newname].
Context (Hco : coherent s) (He : ds_dentries s !! old = Some e) (Hpos : oe_positive e = true) (He' : ds_dentries s !! new = Some e') (Hpos' : oe_positive e' = true).
Context (Hredirect : ovl_redirect_dir s = false).
Context (Hop : oe_is_dir s e = true → oe_opaque e = true → hide_at (upper_tree s) old = true)
        (Hop' : oe_is_dir s e' = true → oe_opaque e' = true → hide_at (upper_tree s) new = true).

(** With both entries in the upper layer. *)
Lemma exchange_tail b : kept_dir sec s b → is_Some (upper_tree b !! old) → is_Some (upper_tree b !! new) → ovl_can_move s e = true → ovl_can_move s e' = true →
  triple (λ t, t = b)
    (x ← the_dentry old;
     _ ← (if negb (bool_decide (olddir = newdir)) && ovl_type_origin x then on_os (ovl_set_impure newdir) else mret tt);
     s1 ← get;
     let y := default e' (ds_dentries s1 !! new) in
     _ ← (if negb (bool_decide (olddir = newdir)) && true && ovl_type_origin y then on_os (ovl_set_impure olddir) else mret tt);
     rename_locked rmax olddir newdir old new (oe_is_dir s e) (oe_is_dir s e') false (bool_decide (olddir = newdir)) RENAME_EXCHANGE false y)
    (λ _, swapped sec old new s) (λ _, unseen sec s).
Proof.
  intros Hb Hob Hnb Hmv Hmv'. destruct (kd_dentry _ _ _ Hb _ _ He) as (e2&He2&_).
  assert (kept_dir sec b b) as Hbb by (apply kept_dir_refl, Hb).
  assert (∀ (err : error) t, kept_dir sec b t → unseen sec s t) as HE by (intros _ t Ht; eapply unseen_trans; by apply kept_unseen).
  eapply triple_bind; [by apply (the_dentry_ok old e2)|]. intros x. apply (triple_pre _ (kept_dir sec b)); [|intros t [_ ->]; exact Hbb].
  eapply triple_bind; [eapply triple_conseq; [apply impure_if|done|done|exact HE]|]. intros []. apply triple_get. intros b1 Hb1.
  apply (triple_pre _ (kept_dir sec b)); [|by intros ? ->]. eapply triple_bind; [eapply triple_conseq; [apply impure_if|done|done|exact HE]|]. intros [].
  apply triple_at. intros c Hc. pose proof (kept_dir_trans _ _ _ _ Hb Hc) as Hsc.
  assert (∀ q, is_Some (upper_tree b !! q) → is_Some (upper_tree c !! q)) as Hup by (intros q [i Hi]; by destruct (kd_upper _ _ _ Hc _ _ Hi) as (j&->&_)).
  destruct (movable_kept s c old e) as [x1 Hm]; [done..|by apply Hup|done|]. destruct (movable_kept s c new e') as [x2 Hm']; [done..|by apply Hup|done|].
  eapply triple_conseq; [apply (exchange_locked c olddir newdir oldname newname (kd_coherent _ _ _ Hc) x1 x2 _ _ Hm Hm')|..].
  - intros ? ->. exists (ls_faults (ds_ls c)). by destruct c as [? []].
  - intros [] t. apply unseen_swapped. by apply kept_unseen.
  - intros err t Ht. eapply unseen_trans; [by apply kept_unseen|exact Ht].
Qed.
Lemma exchange_ok : triple (λ t, t = s) (rename olddir oldname newdir newname RENAME_EXCHANGE) (λ _, swapped sec old new s) (λ _, unseen sec s).
Proof.
  destruct (co_parent _ Hco newdir newname) as (d&Hd&Hdp&_); [by exists e'|].
  unfold ovl_rename. fold old new. change (negb (has RENAME_EXCHANGE RENAME_EXCHANGE)) with false.
  change (Z.land RENAME_EXCHANGE (Z.lnot (Z.lor RENAME_EXCHANGE RENAME_NOREPLACE)) =? 0)%Z with true.
  change (Z.land RENAME_EXCHANGE (Z.lnot RENAME_NOREPLACE)) with RENAME_EXCHANGE. cbn [orb andb negb guard_err rename_flags].
  eapply triple_bind; [by apply (the_dentry_ok old e)|]. intros x. apply (triple_pull (x = e)); [by intros t []|]. intros ->.
  apply (triple_pre _ (λ t, t = s)); [|by intros t []].
  eapply triple_bind; [by apply (the_dentry_ok new e')|]. intros x. apply (triple_pull (x = e')); [by intros t []|]. intros ->.
  apply triple_get. intros t0 [_ ->]. apply (triple_pre _ (λ t, t = s)); [|done].
  eapply (triple_bind _ _ _ (λ _ t, t = s)); [by apply triple_ret|]. intros [].
  eapply (triple_bind _ _ _ (λ _ t, t = s ∧ ovl_can_move s e && ovl_can_move s e' = true)).
  { apply triple_guard; [done|]. intros t -> _. by apply unseen_refl. }
  intros []. apply (triple_pull (ovl_can_move s e && ovl_can_move s e' = true)); [by intros t []|]. intros [Hmv Hmv']%andb_true_iff.
  apply (triple_pre _ (λ t, t = s)); [|by intros t []].
  eapply (triple_bind _ _ _ (λ list t, t = s ∧ list = [])); [by apply triple_ret|]. intros list. apply (triple_pull (list = [])); [by intros t []|]. intros ->.
  eapply (triple_bind _ _ _ (λ (_ : bool) t, t = s)); [apply triple_ret; by intros t []|]. intros _.
  apply (triple_pre _ (kept_dir sec s)). 2:{ intros t ->. by apply kept_dir_refl. }
  assert (∀ (err : error) t, kept_dir sec s t → unseen sec s t) as HE by (intros _ t; apply kept_unseen).
  eapply triple_bind; [eapply triple_conseq; [apply want_write_kept|done|done|exact HE]|]. intros [].
  eapply triple_bind; [eapply triple_conseq; [by apply (copy_up_kept sec encode_fh copy_up_indexed s old e)|done|done|exact HE]|]. intros [].
  apply triple_at. intros b1 [Hb1 Ho1]. destruct (kd_dentry _ _ _ Hb1 _ _ Hd) as (d1&Hd1&Hdp1&_). rewrite Hdp in Hdp1.
  apply (triple_pre _ (kept_dir sec b1)); [|intros ? ->; by apply kept_dir_refl, Hb1].
  assert (∀ (err : error) t, kept_dir sec b1 t → unseen sec s t) as HE1 by (intros _ t Ht; eapply unseen_trans; [by apply kept_unseen|by apply kept_unseen]).
  eapply triple_bind; [eapply triple_conseq; [by apply (copy_up_kept sec encode_fh copy_up_indexed b1 newdir d1)|done|done|exact HE1]|]. intros [].
  apply triple_at. intros b2 [Hb2 _]. pose proof (kept_dir_trans _ _ _ _ Hb1 Hb2) as Hs2. destruct (kd_dentry _ _ _ Hs2 _ _ He') as (e2&He2&Hp2&_). rewrite Hpos' in Hp2.
  apply (triple_pre _ (kept_dir sec b2)); [|intros ? ->; by apply kept_dir_refl, Hb2].
  assert (∀ (err : error) t, kept_dir sec b2 t → unseen sec s t) as HE2 by (intros err t Ht; apply (HE1 err); by eapply kept_dir_trans).
  eapply triple_bind; [eapply triple_conseq; [by apply (copy_up_kept sec encode_fh copy_up_indexed b2 new e2)|done|done|exact HE2]|]. intros [].
  apply triple_at. intros b [Hb Hn]. rewrite (bool_decide_eq_true_2 ([] = ([] : list ovl_cache_entry))) by done. cbn [negb].
  eapply (triple_defer_when _ _ _ _ (λ _, swapped sec old new s) _ (λ _, unseen sec s)); [|by intros err; apply triple_ret|by intros [] _; apply triple_ret|done].
  eapply (triple_bind _ _ _ (λ _ t, t = b)); [by apply triple_ret|]. intros []. apply exchange_tail; [by eapply kept_dir_trans| |done..].
  destruct Ho1 as [i Hi]. destruct (kd_upper _ _ _ Hb2 _ _ Hi) as (i2&Hi2&_). by destruct (kd_upper _ _ _ Hb _ _ Hi2) as (i3&->&_).
Qed.
End Whole.
End Exchange.
