(* ===== verification/OvlSession.v ===== *)
(** * Sessions

    Names are looked up, entries created, removed, renamed and exchanged, in any order
    and with calls failing: what the overlay shows is what the operations that
    succeeded make of it. *)

From S2P Require Import Prelude FileSys OvlOpts OvlMount OvlCopyUp OvlProps OvlLookup OvlReaddir OvlDir OvlMountProps OvlReaddirProps OvlLookupProps OvlUnion OvlView OvlDirInv OvlDirCopy OvlDirOps OvlDirProps OvlDcache OvlDirRename OvlDirExchange.

(** ** Looking up *)

(** [ovl_check_origin_xattr]. *)
Definition ovl_check_origin_xattr (i : nat) (p : path) : M LS bool :=
  r ← attempt (vfs_getxattr i p OVL_XATTR_ORIGIN);
  mret (match r with inr (Some _) => true | _ => false end).

Section Lookup.
Context (weird remote : nat → path → bool) (namelen : nat) (fh : nat * path → string)
        (check_origin : path → M LS (list (nat * path))) (verify_origin : path → nat * path → M LS ())
        (lookup_index : option path → nat * path → M LS (option path)) (inode_stale : path → bool).

(** The flag [OVL_WHITEOUTS] [ovl_get_inode] gives a directory: it is merged, or was
    copied up. *)
Definition may_have_whiteouts (f : ovl_found) : M LS bool :=
  s ← get;
  match match fo_upper f with Some u => Some (0, u) | None => head (fo_lowers f) end with
  | None => mret false
  | Some (i, p) =>
      if negb (can_lookup s i p) then mret false
      else if (bool_decide (is_Some (fo_upper f)) && negb (bool_decide (fo_lowers f = []))) || (1 <? length (fo_lowers f)) then mret true
      else ovl_check_origin_xattr i p
  end.
(** What [ovl_lookup] makes of what it found: the dentry is negative, or has an
    inode. *)
Definition lookup_dentry (dir : path) (name : string) : M DS () :=
  let p := dir ++ [name] in
  parent ← the_dentry dir;
  root ← the_dentry [];
  s ← get;
  f ← on_layers (ovl_lookup (ds_ofs s) weird remote namelen fh check_origin verify_origin lookup_index (oe_dentry root) (oe_dentry parent) name);
  e ← (if negb (fo_positive f) then mret (mkOentry (fo_upper f) (fo_lowers f) (fo_opaque f) false None)
       else if inode_stale p then fail (OsError ESTALE)
       else
         whiteouts ← on_layers (may_have_whiteouts f);
         mret (mkOentry (fo_upper f) (fo_lowers f) (fo_opaque f) whiteouts (fo_redirect f)));
  modify (λ s, ds_set_dentries (<[p := e]> (ds_dentries s)) s).
End Lookup.

(** ** Looking up does not show *)

Section Similar.
Context (sec : string → Z) (s : DS) (l : LS) (Hco : coherent s) (Hs : similar (ds_ls s) l).
Lemma similar_shape i p : shape <$> node l i p = shape <$> node (ds_ls s) i p.
Proof.
  destruct (sm_node _ _ Hs i p) as [n m Hnm|]; [|done]. cbn. unfold shape.
  by rewrite (similar_dir n m), (similar_whiteout n m), (similar_opaque n m).
Qed.
Lemma similar_real e : option_Forall2 similar_node (real_node s e) (real_node (ds_set_ls l s) e).
Proof.
  unfold real_node, first_lower. destruct (oe_upper e) as [u|]; [rewrite !upper_node; apply Hs|].
  destruct (oe_lowers e) as [|[i q] ?]; [constructor|apply Hs].
Qed.
Lemma similar_coherent : coherent (ds_set_ls l s).
Proof.
  destruct Hco as [Hwf Hsome Hred Hnames Hwork Hidx Hwd Hmnt Hxa Hroot Hpar Hent]. split; try done; cbn.
  - by eapply layers_wf_similar.
  - by rewrite (sm_length _ _ Hs).
  - by eapply similar_no_redirect.
  - intros i q c Hn. apply (Hnames i q). by destruct (sm_node _ _ Hs i (q ++ [c])).
  - intros p c Hp. destruct (Hpar p c Hp) as (d&Hd&Hdp&Hdd). exists d. split_and!; [done|done|]. unfold oe_is_dir in *.
    destruct (similar_real d) as [n m [Ht _]|]; [|done]. by rewrite <-Ht.
  - intros p e He. apply (entry_same (ds_ls s)); [|auto]. intros i r _. apply similar_shape.
Qed.
Lemma similar_unseen : unseen sec s (ds_set_ls l s).
Proof.
  split; [exact similar_coherent|]. intros q. unfold shown_at, view. cbn. rewrite (union_similar _ _ _ Hs).
  destruct (union (ds_ls s) q) as [|i ?]; [constructor|]. destruct (sm_node _ _ Hs i q) as [n m (Ht&Hx&Hu&Hg&Hm)|]; [|constructor].
  constructor. split_and!; [done..|]. intros x [Hp _]. symmetry. apply Hx; by intros ->.
Qed.
End Similar.

Lemma parent_is_dir s d : oe_is_dir s d = true → de_is_dir (ds_ls s) (oe_dentry d) = true.
Proof.
  unfold oe_is_dir, real_node, first_lower, de_is_dir, dirs_of, can_lookup. cbn. destruct (oe_upper d) as [u|]; cbn [app]; [by rewrite upper_node|].
  by destruct (oe_lowers d) as [|[i q] ?].
Qed.
Lemma root_lowers s e : coherent s → ds_dentries s !! [] = Some e → S (length (oe_lowers e)) = length (ls_layers (ds_ls s)).
Proof.
  intros Hco He. pose proof (co_entry _ Hco _ _ He) as [Hpos Hup Hneg]. pose proof (lw_root _ (co_wf _ Hco) 0 (co_some _ Hco)) as Hdir.
  destruct (root_stands _ (co_wf _ Hco) (co_some _ Hco)) as [_ (rest&Hun&Hl)]. specialize (Hl Hdir). cbn in Hl.
  assert (oe_positive e = true) as Hp.
  { destruct (oe_positive e) eqn:Hp; [done|]. destruct (Hneg eq_refl) as [Hnil _]. by rewrite Hnil in Hun. }
  specialize (Hpos Hp). unfold stands in Hpos. cbn in Hpos. destruct (oe_upper e) as [u|] eqn:Hu.
  - destruct Hpos as [_ (rest'&Hun'&Hl')]. rewrite Hun in Hun'. injection Hun' as <-. rewrite (Hl' Hdir), <-Hl. unfold at_path. rewrite length_fmap, length_seq.
    pose proof (co_some _ Hco). lia.
  - unfold can_lookup in Hdir. by rewrite (Hup eq_refl Hp) in Hdir.
Qed.

(** A lookup that fails leaves the dentries alone, and of the layers all but the notes. *)
Definition erase (n : rinode) : rinode :=
  mkReal (ri_type n) (ri_mode n) (ri_uid n) (ri_gid n) (ri_atime n) (ri_mtime n) (ri_nlink n) (ri_append n)
    (delete OVL_XATTR_ORIGIN (delete OVL_XATTR_IMPURE (ri_xattrs n))).
Definition erased (l : LS) : list (gmap path rinode) := (λ t : gmap path rinode, erase <$> t) <$> ls_layers l.
Lemma erased_similar l l' : erased l' = erased l → similar l (ls_set_faults (ls_faults l) l').
Proof.
  intros He. split; [|intros i p|done].
  - apply (f_equal length) in He. unfold erased in He. by rewrite !length_fmap in He.
  - assert (erase <$> node l' i p = erase <$> node l i p) as Hn.
    { apply (f_equal (λ t, t !! i)) in He. unfold erased in He. rewrite !list_lookup_fmap in He. unfold node.
      destruct (ls_layers l' !! i) as [t'|], (ls_layers l !! i) as [t|]; cbn in He |- *; try done. apply (inj Some) in He.
      apply (f_equal (λ t, t !! p)) in He. by rewrite !lookup_fmap in He. }
    change (node (ls_set_faults (ls_faults l) l') i p) with (node l' i p). destruct (node l' i p) as [m|], (node l i p) as [n|]; try done; constructor.
    injection Hn as Ht Hm Hu Hg _ _ _ _ Hx. split_and!; try done. intros x Ho Hi. apply (f_equal (λ t, t !! x)) in Hx.
    by rewrite !lookup_delete_ne in Hx.
Qed.
Lemma erased_write p x v : x = OVL_XATTR_ORIGIN ∨ x = OVL_XATTR_IMPURE → fixes erased (λ _, True) (vfs_write 0 (alter (set_xattr x v) p)).
Proof.
  intros Hx s _. assert (∀ t : gmap path rinode, erase <$> alter (set_xattr x v) p t = erase <$> t) as Ht.
  { intros t. apply map_eq. intros q. rewrite !lookup_fmap. destruct (decide (p = q)) as [<-|Hne]; [|by rewrite lookup_alter_ne].
    rewrite lookup_alter_eq. destruct (t !! p) as [n|]; [|done]. cbn. f_equal. unfold erase. cbn. f_equal.
    apply map_eq. intros y. destruct (decide (y = OVL_XATTR_ORIGIN)) as [->|Ho]; [by rewrite !lookup_delete_eq|]. rewrite !(lookup_delete_ne _ OVL_XATTR_ORIGIN) by done.
    destruct (decide (y = OVL_XATTR_IMPURE)) as [->|Hi]; [by rewrite !lookup_delete_eq|]. rewrite !lookup_delete_ne, lookup_insert_ne by (done || (intros ->; by destruct Hx)). done. }
  unfold vfs_write, erased. destruct (ls_faults s) as [|[] ?]; cbn; [| |done]; destruct (ls_layers s) as [|t ts]; cbn; by rewrite ?Ht.
Qed.
Lemma may_whiteouts_total f l : ∃ b l', may_have_whiteouts f l = (Ok b, l').
Proof.
  unfold may_have_whiteouts, mbind, M_bind, get. cbn [fst snd]. destruct (match fo_upper f with Some _ => _ | None => _ end) as [[i p]|]; [|by eexists _, _].
  destruct (negb _); [by eexists _, _|]. destruct (_ || _); [by eexists _, _|]. unfold ovl_check_origin_xattr, mbind, M_bind, attempt, vfs_getxattr, vfs_read.
  destruct (ls_faults l) as [|[] ?]; by eexists _, _.
Qed.

Section LookupOk.
Context (weird remote : nat → path → bool) (namelen : nat) (fh : nat * path → string)
        (check_origin : path → M LS (list (nat * path))) (verify_origin : path → nat * path → M LS ())
        (lookup_index : option path → nat * path → M LS (option path)) (inode_stale : path → bool).
Context (Hweird : ∀ i p, weird i p = false) (Hremote : ∀ i p, remote i p = false)
        (Horigin : ∀ u s, ∃ st, check_origin u s = (Ok st, s)) (Hstale : ∀ p, inode_stale p = false).
Context (sec : string → Z).
Abbreviation lookup_dentry := (lookup_dentry weird remote namelen fh check_origin verify_origin lookup_index inode_stale).

Lemma may_whiteouts_run f l : quiet l → ∃ b, may_have_whiteouts f l = (Ok b, l).
Proof.
  intros Hq. unfold may_have_whiteouts. rewrite (bind_ok _ _ _ l l) by done. destruct (match fo_upper f with Some _ => _ | None => _ end) as [[i p]|]; [|by eexists].
  destruct (negb _); [by eexists|]. destruct (_ || _); [by eexists|]. unfold ovl_check_origin_xattr, vfs_getxattr.
  rewrite (bind_ok _ _ _ _ _ (attempt_ok _ _ _ _ (read_quiet _ l Hq))). by eexists.
Qed.
(** The dentry of what was found. *)
Lemma found_entry s dir name d f whiteouts redirect :
  coherent s → ds_dentries s !! dir = Some d → oe_positive d = true →
  (if fo_positive f then stands (ds_ls s) (mkDentry (fo_upper f) (fo_lowers f)) (dir ++ [name]) else union (ds_ls s) (dir ++ [name]) = []) →
  (fo_upper f = None → ∀ base n, oe_upper d = Some base → node (ds_ls s) 0 (base ++ [name]) = Some n → fo_opaque f = true ∧ fo_lowers f = []) →
  entry_ok (ds_ls s) (dir ++ [name]) (mkOentry (fo_upper f) (fo_lowers f) (fo_opaque f) whiteouts redirect).
Proof.
  intros Hco Hd Hdp Hst Hw.
  assert (fo_upper f = None → ∀ n, node (ds_ls s) 0 (dir ++ [name]) = Some n → fo_opaque f = true ∧ fo_lowers f = []) as Hw'.
  { intros Hu n Hn. pose proof (co_entry _ Hco _ _ Hd) as [Hpos Hup _]. specialize (Hpos Hdp). unfold stands in Hpos. cbn in Hpos. destruct (oe_upper d) as [base|] eqn:Hb.
    - destruct Hpos as [-> _]. by eapply Hw.
    - specialize (Hup eq_refl Hdp). assert (can_lookup (ds_ls s) 0 dir = true) as Hc by (apply (lw_parent _ (co_wf _ Hco) 0 dir name); by exists n).
      unfold can_lookup in Hc. by rewrite Hup in Hc. }
  assert (oe_positive (mkOentry (fo_upper f) (fo_lowers f) (fo_opaque f) whiteouts redirect) = fo_positive f) as Heq by done.
  split; rewrite Heq; cbn.
  - intros Hp. by rewrite Hp in Hst.
  - intros Hu Hp. destruct (node (ds_ls s) 0 (dir ++ [name])) as [n|] eqn:Hn; [|done]. destruct (Hw' Hu n eq_refl) as [_ Hl].
    unfold fo_positive in Hp. by rewrite Hu, Hl in Hp.
  - intros Hp. rewrite Hp in Hst. split; [done|]. intros [n Hn]. apply (Hw' ltac:(unfold fo_positive in Hp; by destruct (fo_upper f)) n Hn).
Qed.

Lemma lookup_ok s dir name d :
  coherent s → quiet (ds_ls s) → ovl_verify_lower (ds_ofs s) = false → plain_name namelen name →
  ds_dentries s !! dir = Some d → oe_positive d = true → oe_is_dir s d = true → ds_dentries s !! (dir ++ [name]) = None →
  ∃ s', lookup_dentry dir name s = (Ok tt, s') ∧ unseen sec s s' ∧
    ∃ e, ds_dentries s' !! (dir ++ [name]) = Some e ∧ oe_positive e = bool_decide (is_Some (shown_at s (dir ++ [name]))).
Proof.
  intros Hco Hq Hver Hname Hd Hdp Hdd Hnone. destruct (co_root _ Hco) as [r Hr]. unfold OvlSession.lookup_dentry.
  assert (∀ p e, ds_dentries s !! p = Some e → the_dentry p s = (Ok e, s)) as Hthe.
  { intros p e He. unfold the_dentry, mbind, M_bind, get. cbn. by rewrite He. }
  rewrite (bind_ok _ _ _ _ _ (Hthe _ _ Hd)), (bind_ok _ _ _ _ _ (Hthe _ _ Hr)), (bind_ok _ _ _ s s) by done.
  destruct (lookup_step (ds_ofs s) weird remote namelen fh check_origin verify_origin lookup_index Hweird Hremote Hver (co_index _ Hco) Horigin
    (oe_dentry r) (ds_ls s) (oe_dentry d) dir name) as (f&l&Hrun&Hsim&Hst&Hwh); try done.
  - apply Hco.
  - apply Hco.
  - by apply root_lowers.
  - by apply (eo_positive _ _ _ (co_entry _ Hco _ _ Hd)).
  - by apply parent_is_dir.
  - rewrite (bind_ok _ _ _ f (ds_set_ls l s)) by (unfold on_layers, zoom; by rewrite Hrun).
    set (s1 := ds_set_ls l s). destruct (similar_unseen sec s l Hco Hsim) as [Hco1 Hv]. fold s1 in Hco1, Hv.
    assert (∃ whiteouts redirect, (if negb (fo_positive f) then mret (mkOentry (fo_upper f) (fo_lowers f) (fo_opaque f) false None)
       else if inode_stale (dir ++ [name]) then fail (OsError ESTALE)
       else
         whiteouts ← on_layers (may_have_whiteouts f);
         mret (mkOentry (fo_upper f) (fo_lowers f) (fo_opaque f) whiteouts (fo_redirect f))) s1 =
       (Ok (mkOentry (fo_upper f) (fo_lowers f) (fo_opaque f) whiteouts redirect), s1)) as (w&rd&Hmk).
    { destruct (fo_positive f); cbn [negb]; [|by eexists _, _]. rewrite Hstale.
      destruct (may_whiteouts_run f l) as [b Hb]; [by eapply similar_quiet|]. eexists b, _. rewrite (bind_ok _ _ _ b s1); [done|].
      unfold on_layers, zoom, s1. cbn. by rewrite Hb. }
    rewrite (bind_ok _ _ _ _ _ Hmk). eexists. split; [done|].
    pose proof (found_entry s dir name d f w rd Hco Hd Hdp Hst Hwh) as Hent.
    apply (entry_same (ds_ls s) (ds_ls s1)) in Hent; [|intros; by apply similar_shape].
    assert (coherent (ds_set_dentries (<[dir ++ [name] := mkOentry (fo_upper f) (fo_lowers f) (fo_opaque f) w rd]> (ds_dentries s1)) s1)) as Hfin.
    { apply add_coherent; [done|by destruct dir|done|done|]. rewrite parent_dir_snoc. exists d. split_and!; [done|done|]. unfold oe_is_dir in Hdd |- *. unfold s1.
      destruct (similar_real s l Hsim d) as [n m [Ht _]|]; [|done]. by rewrite <-Ht. }
    split; [split; [exact Hfin|exact Hv]|]. eexists. split; [cbn; by rewrite lookup_insert_eq|].
    rewrite (positive_shown _ Hfin (dir ++ [name])) by (cbn; by rewrite lookup_insert_eq).
    apply bool_decide_ext. change (shown_at _ _) with (shown_at s1 (dir ++ [name])) at 1. specialize (Hv (dir ++ [name])).
    by destruct Hv.
Qed.

Lemma erased_lookup ofs root parent name : ovl_verify_lower ofs = false → ofs_indexdir ofs = None →
  fixes erased (λ _, True) (ovl_lookup ofs weird remote namelen fh check_origin verify_origin lookup_index root parent name).
Proof.
  intros Hv Hi. apply fixes_lookup; [|..|done|].
  - intros A g s _. unfold vfs_read. by destruct (ls_faults s) as [|[] ?].
  - intros p x v e Hx. unfold ovl_check_setxattr. cbn [fst snd]. fixing. by apply erased_write.
  - done.
  - intros u s _. by destruct (Horigin u s) as [st ->].
  - done.
Qed.
Lemma lookup_fails s dir name e s' : coherent s → ovl_verify_lower (ds_ofs s) = false → lookup_dentry dir name s = (Err e, s') →
  ∃ l, erased l = erased (ds_ls s) ∧ s' = ds_set_ls l s.
Proof.
  intros Hco Hv. unfold OvlSession.lookup_dentry, the_dentry, mbind, M_bind, get. cbn [fst snd].
  destruct (co_root _ Hco) as [r Hr]. destruct (ds_dentries s !! dir) as [d|]; [|done]. cbn [mret M_ret]. rewrite Hr. cbn [mret M_ret].
  pose proof (erased_lookup (ds_ofs s) (oe_dentry r) (oe_dentry d) name Hv (co_index _ Hco) (ds_ls s) I) as Hfix.
  unfold on_layers, zoom. destruct (ovl_lookup _ _ _ _ _ _ _ _ _ _ _ (ds_ls s)) as [[f|err|x] l]; cbn in Hfix; [|intros [= _ <-]; by exists l|done].
  destruct (fo_positive f); cbn [negb]; [|done]. rewrite Hstale. cbn [ds_set_ls ds_ls]. by destruct (may_whiteouts_total f l) as (b&l'&->).
Qed.
Lemma lookup_failed s dir name e s' : coherent s → ovl_verify_lower (ds_ofs s) = false → lookup_dentry dir name s = (Err e, s') → unseen sec s s'.
Proof.
  intros Hco Hv Hrun. destruct (lookup_fails s dir name e s' Hco Hv Hrun) as (l&Hl&->). set (l0 := ls_set_faults (ls_faults (ds_ls s)) l).
  pose proof (similar_unseen sec s l0 Hco (erased_similar _ _ Hl)) as H0. eapply unseen_trans; [exact H0|].
  replace (ds_set_ls l s) with (with_faults (ls_faults l) (ds_set_ls l0 s)) by (by destruct l). apply kept_unseen, faults_kept, H0.
Qed.
End LookupOk.

(** ** Requests *)

(** What the VFS asks of an overlay. *)
Inductive request :=
  | Lookup (dir : path) (name : string)
  | Create (dir : path) (name : string) (mode : Z)
  | Mkdir (dir : path) (name : string) (mode : Z)
  | Mknod (dir : path) (name : string) (f : ftype) (mode : Z)
  | Symlink (dir : path) (name : string) (link : string)
  | Unlink (dir : path) (name : string)
  | Rmdir (dir : path) (name : string)
  | Rename (olddir : path) (oldname : string) (newdir : path) (newname : string) (flags : Z).

Section Session.
Context (sec : string → Z) (encode_fh : path → string) (copy_up_indexed : path → path → Z → M OS ())
        (iterate : LS → nat → path → list (string * bool)) (rebalance : rb_tree → rb_tree)
        (umask fsuid fsgid : Z) (posixacl : bool) (posix_acl_create : path → ftype → Z → Z * option string * option string)
        (fs_mode : Z → Z) (inode_stale : path → bool) (nlink_start_indexed nlink_end_indexed : path → M DS ()) (rmax : nat).
Context (weird remote : nat → path → bool) (namelen : nat) (fh : nat * path → string)
        (check_origin : path → M LS (list (nat * path))) (verify_origin : path → nat * path → M LS ())
        (lookup_index : option path → nat * path → M LS (option path)).

Abbreviation create_object :=
  (ovl_create_object sec encode_fh copy_up_indexed umask fsuid fsgid posixacl posix_acl_create fs_mode inode_stale).

(** The operations of the directories, [ovl_dir_inode_operations]. *)
Definition serve (r : request) : M DS () :=
  match r with
  | Lookup dir name => lookup_dentry weird remote namelen fh check_origin verify_origin lookup_index inode_stale dir name
  | Create dir name mode =>
      ovl_create sec encode_fh copy_up_indexed umask fsuid fsgid posixacl posix_acl_create fs_mode inode_stale dir name mode
  | Mkdir dir name mode =>
      ovl_mkdir sec encode_fh copy_up_indexed umask fsuid fsgid posixacl posix_acl_create fs_mode inode_stale dir name mode
  | Mknod dir name f mode =>
      ovl_mknod sec encode_fh copy_up_indexed umask fsuid fsgid posixacl posix_acl_create fs_mode inode_stale dir name f mode
  | Symlink dir name link =>
      ovl_symlink sec encode_fh copy_up_indexed umask fsuid fsgid posixacl posix_acl_create fs_mode inode_stale dir name link
  | Unlink dir name =>
      ovl_unlink sec encode_fh copy_up_indexed iterate rebalance fs_mode nlink_start_indexed nlink_end_indexed dir name
  | Rmdir dir name =>
      ovl_rmdir sec encode_fh copy_up_indexed iterate rebalance fs_mode nlink_start_indexed nlink_end_indexed dir name
  | Rename olddir oldname newdir newname flags =>
      ovl_rename sec encode_fh copy_up_indexed iterate rebalance fs_mode nlink_start_indexed nlink_end_indexed rmax olddir oldname newdir newname flags
  end.

(** What the VFS has made sure of when it asks: the dentries are there, negative for an
    entry that is created, and positive for one that is removed or exchanged.  Looking up
    is asked while no call fails; what becomes of one that fails is said below.  A rename
    is not to itself; directories are not redirected, and one with the flag
    [OVL_OPAQUE] is opaque. *)
Definition negative_at (s : DS) (dir : path) (name : string) : Prop :=
  dot_free name ∧ ∃ e, ds_dentries s !! (dir ++ [name]) = Some e ∧ oe_positive e = false.
Definition movable_at (s : DS) (p : path) (e : oentry) : Prop :=
  ds_dentries s !! p = Some e ∧ oe_positive e = true ∧ (oe_is_dir s e = true → oe_opaque e = true → hide_at (upper_tree s) p = true).
Definition asked (s : DS) (r : request) : Prop :=
  match r with
  | Lookup dir name =>
      quiet (ds_ls s) ∧ ovl_verify_lower (ds_ofs s) = false ∧ plain_name namelen name ∧ ds_dentries s !! (dir ++ [name]) = None ∧
      ∃ d, ds_dentries s !! dir = Some d ∧ oe_positive d = true ∧ oe_is_dir s d = true
  | Create dir name _ | Mkdir dir name _ | Mknod dir name _ _ | Symlink dir name _ => negative_at s dir name
  | Unlink dir name => ∃ e, ds_dentries s !! (dir ++ [name]) = Some e ∧ oe_positive e = true
  | Rmdir dir name => ∃ e, ds_dentries s !! (dir ++ [name]) = Some e ∧ oe_positive e = true ∧ oe_is_dir s e = true
  | Rename olddir oldname newdir newname flags =>
      let old := olddir ++ [oldname] in
      let new := newdir ++ [newname] in
      old ≠ new ∧ dot_free newname ∧ ovl_redirect_dir s = false ∧
      ∃ e e', movable_at s old e ∧ ds_dentries s !! new = Some e' ∧
        (flags = 0%Z ∨ flags = RENAME_NOREPLACE ∨ flags = RENAME_EXCHANGE ∧ movable_at s new e')
  end.
(** After a rename the VFS moves the dentries, or exchanges them. *)
Definition settle (r : request) (o : outcome ()) (s : DS) : DS :=
  match r, o with
  | Rename olddir oldname newdir newname flags, Ok _ =>
      (if has flags RENAME_EXCHANGE then d_exchange else d_move) (olddir ++ [oldname]) (newdir ++ [newname]) s
  | _, _ => s
  end.

(** ** What the requests promise *)

Definition seen_as (v v' : path → option rinode) : Prop := ∀ q, option_Forall2 (same_file sec) (v q) (v' q).
Definition adds (dir : path) (name : string) (f : ftype) (mode : Z) (v v' : path → option rinode) : Prop :=
  v (dir ++ [name]) = None ∧ ∃ n, new_inode (inode_init_owner fsuid fsgid (v dir) f mode) n ∧ v' (dir ++ [name]) = Some n ∧
    ∀ q, q ≠ dir ++ [name] → option_Forall2 (same_file sec) (v q) (v' q).
Definition removes (p : path) (v v' : path → option rinode) : Prop :=
  is_Some (v p) ∧ ∀ q, if Os.below p q then v' q = None else option_Forall2 (same_file sec) (v q) (v' q).
Definition moves (old new : path) (v v' : path → option rinode) : Prop :=
  is_Some (v old) ∧ (∀ r, r ≠ [] → v (new ++ r) = None) ∧
  ∀ q, if Os.below new q then option_Forall2 (same_file sec) (v (old ++ drop (length new) q)) (v' q)
       else if Os.below old q then v' q = None else option_Forall2 (same_file sec) (v q) (v' q).
Definition swaps (old new : path) (v v' : path → option rinode) : Prop :=
  is_Some (v old) ∧ is_Some (v new) ∧
  ∀ q, if Os.below new q then option_Forall2 (same_file sec) (v (old ++ drop (length new) q)) (v' q)
       else if Os.below old q then option_Forall2 (same_file sec) (v (new ++ drop (length old) q)) (v' q)
       else option_Forall2 (same_file sec) (v q) (v' q).
Definition effect (r : request) (v v' : path → option rinode) : Prop :=
  match r with
  | Lookup _ _ => seen_as v v'
  | Create dir name mode => adds dir name (S_IFREG EmptyString) (Z.land mode 4095) v v'
  | Mkdir dir name mode => adds dir name S_IFDIR (Z.land mode 4095) v v'
  | Mknod dir name f mode => f ≠ S_IFCHR WHITEOUT_DEV ∧ adds dir name f mode v v'
  | Symlink dir name link => adds dir name (S_IFLNK link) 0 v v'
  | Unlink dir name => removes (dir ++ [name]) v v'
  | Rmdir dir name => (∀ r, r ≠ [] → v ((dir ++ [name]) ++ r) = None) ∧ removes (dir ++ [name]) v v'
  | Rename olddir oldname newdir newname flags =>
      (if has flags RENAME_EXCHANGE then swaps else moves) (olddir ++ [oldname]) (newdir ++ [newname]) v v'
  end.

Inductive spec_run : (path → option rinode) → list (request * outcome ()) → (path → option rinode) → Prop :=
  | spec_end v v' : seen_as v v' → spec_run v [] v'
  | spec_done v r v1 tr v' : effect r v v1 → spec_run v1 tr v' → spec_run v ((r, Ok tt) :: tr) v'
  | spec_failed v r e v1 tr v' : seen_as v v1 → spec_run v1 tr v' → spec_run v ((r, Err e) :: tr) v'.

(** A session: between two requests the cache may forget dentries, and calls start to
    fail or stop failing.  A lookup that fails is one more request that is answered; one
    that finds its way past a failing call may take an opaque directory for one that
    is not. *)
Inductive session : DS → list (request * outcome ()) → DS → Prop :=
  | ses_end s : session s [] s
  | ses_faults s f tr s' : session (with_faults f s) tr s' → session s tr s'
  | ses_forget s p tr s' : p ≠ [] → session (dropped p s) tr s' → session s tr s'
  | ses_failed s dir name e s1 tr s' :
      ovl_verify_lower (ds_ofs s) = false → serve (Lookup dir name) s = (Err e, s1) → session s1 tr s' → session s ((Lookup dir name, Err e) :: tr) s'
  | ses_serve s r o s1 tr s' : asked s r → serve r s = (o, s1) → session (settle r o s1) tr s' → session s ((r, o) :: tr) s'.

Context (Hrebalance : ∀ t, inorder (rebalance t) = inorder t) (Hiter : ∀ s i p, iterate_ok iterate s i p).
Context (Hweird : ∀ i p, weird i p = false) (Hremote : ∀ i p, remote i p = false)
        (Horigin : ∀ u s, ∃ st, check_origin u s = (Ok st, s)) (Hstale : ∀ p, inode_stale p = false).

Definition outcome_of (r : request) (s : DS) (x : outcome () * DS) : Prop :=
  match x with
  | (Ok _, s') => coherent (settle r (Ok tt) s') ∧ effect r (shown_at s) (shown_at s')
  | (Err _, s') => unseen sec s s'
  | (Panic _, _) => False
  end.
Lemma triple_outcome r s (m : M DS ()) Q :
  triple (λ t, t = s) m (λ _, Q) (λ _, unseen sec s) → (∀ s', Q s' → coherent (settle r (Ok tt) s') ∧ effect r (shown_at s) (shown_at s')) →
  outcome_of r s (m s).
Proof. intros Hm HQ. specialize (Hm s eq_refl). unfold outcome_of. destruct (m s) as [[[]|e|x] s']; auto. Qed.

Lemma added_adds s s' dir name e f mode : coherent s → ds_dentries s !! (dir ++ [name]) = Some e → oe_positive e = false →
  added sec (dir ++ [name]) (inode_init_owner fsuid fsgid (shown_at s dir) f mode) s s' →
  coherent s' ∧ adds dir name f mode (shown_at s) (shown_at s').
Proof.
  intros Hco He Hneg [Hco' Hn]. split; [done|]. split; [by eapply negative_shown|done].
Qed.
Lemma create_outcome r s dir name f mode : coherent s → negative_at s dir name → not_whiteout f →
  settle r (Ok tt) = id → (∀ v v', adds dir name f mode v v' → effect r v v') → outcome_of r s (create_object dir name f mode s).
Proof.
  intros Hco (Hname&e&He&Hneg) Hty Hset Heff. eapply triple_outcome; [by eapply create_object_ok|].
  intros s' Hs'. destruct (added_adds s s' dir name e f mode) as [? Ha]; try done. rewrite Hset. auto.
Qed.
Lemma shown_positive s p e : coherent s → ds_dentries s !! p = Some e → oe_positive e = true → is_Some (shown_at s p).
Proof. intros Hco He Hpos. pose proof (positive_shown _ Hco _ _ He) as Hs. rewrite Hpos in Hs. symmetry in Hs. by apply bool_decide_eq_true in Hs. Qed.
Lemma gone_removes s s' p e : coherent s → ds_dentries s !! p = Some e → oe_positive e = true → gone sec p s s' →
  coherent s' ∧ removes p (shown_at s) (shown_at s').
Proof.
  intros Hco He Hpos [Hco' Hv]. split; [done|]. split; [by eapply shown_positive|done].
Qed.
Lemma serve_ok s r : coherent s → asked s r → outcome_of r s (serve r s).
Proof.
  intros Hco Ha. destruct r as [dir name|dir name mode|dir name mode|dir name f mode|dir name link|dir name|dir name|olddir oldname newdir newname flags]; cbn [serve asked] in *.
  - destruct Ha as (Hq&Hv&Hn&Hnone&d&Hd&Hdp&Hdd).
    destruct (lookup_ok weird remote namelen fh check_origin verify_origin lookup_index inode_stale Hweird Hremote Horigin Hstale sec s dir name d)
      as (s'&->&[Hco' Hs]&_); done.
  - by eapply create_outcome.
  - by eapply create_outcome.
  - assert (f = S_IFCHR WHITEOUT_DEV ∧ ovl_mknod sec encode_fh copy_up_indexed umask fsuid fsgid posixacl posix_acl_create fs_mode inode_stale dir name f mode s
        = (Err (OsError EPERM), s) ∨
      f ≠ S_IFCHR WHITEOUT_DEV ∧ ovl_mknod sec encode_fh copy_up_indexed umask fsuid fsgid posixacl posix_acl_create fs_mode inode_stale dir name f mode
        = create_object dir name f mode) as [[_ ->]|[Hty ->]].
    { unfold ovl_mknod. destruct f as [| | |rdev|]; try (by right). destruct (Z.eqb_spec rdev WHITEOUT_DEV) as [->|Hne]; [by left|right]. split; [congruence|done]. }
    + by apply unseen_refl.
    + by eapply create_outcome.
  - by eapply create_outcome.
  - destruct Ha as (e&He&Hpos). eapply triple_outcome; [by eapply do_remove_ok|]. intros s' [Hg _]. by eapply gone_removes.
  - destruct Ha as (e&He&Hpos&Hd). eapply triple_outcome; [by eapply do_remove_ok|]. intros s' [Hg Hempty].
    destruct (gone_removes s s' (dir ++ [name]) e) as [? Hr]; try done. split; [done|]. split; [by apply Hempty|done].
  - destruct Ha as (Hne&Hname&Hrd&e&e'&(He&Hpos&Hop)&He'&Hfl). pose proof (shown_positive _ _ _ Hco He Hpos) as Hs.
    destruct (decide (flags = RENAME_EXCHANGE)) as [->|Hnx].
    + destruct Hfl as [Hfl|[Hfl|[_ (_&Hpos'&Hop')]]]; [done|done|]. eapply triple_outcome; [by eapply exchange_ok|].
      intros s' [Hco' Hv]. split; [done|]. split; [done|]. split; [by eapply shown_positive|done].
    + assert (flags = 0%Z ∨ flags = RENAME_NOREPLACE) as Hf by (destruct Hfl as [?|[?|[? _]]]; by auto).
      assert (has flags RENAME_EXCHANGE = false) as Hnox by (by destruct Hf as [-> | ->]).
      eapply triple_outcome; [by eapply rename_ok|]. intros s' [[Hco' Hv] Hempty]. cbn. rewrite Hnox. split; [done|]. split; [done|by split].
Qed.
Lemma session_run s tr s' : coherent s → session s tr s' → coherent s' ∧ spec_run (shown_at s) tr (shown_at s').
Proof.
  intros Hco Hs. revert Hco. induction Hs as [s|s f tr s' _ IH|s p tr s' Hp _ IH|s dir name e s1 tr s' Hv Hrun _ IH|s r o s1 tr s' Ha Hrun _ IH]; intros Hco.
  - split; [done|]. constructor. intros q. apply same_opt_refl.
  - apply IH. by apply (kd_coherent sec s), faults_kept.
  - apply IH. apply (drop_unseen sec s s p Hco Hp). by apply upto_refl.
  - destruct (lookup_failed weird remote namelen fh check_origin verify_origin lookup_index inode_stale Horigin Hstale sec s dir name e s1 Hco Hv Hrun) as [Hco1 Hs].
    destruct (IH Hco1) as [Hco' Hspec]. split; [done|]. by eapply spec_failed.
  - pose proof (serve_ok s r Hco Ha) as Hok. rewrite Hrun in Hok. destruct o as [[]|e|x]; cbn in Hok; [| |done].
    + destruct Hok as [Hco1 Heff]. destruct (IH Hco1) as [Hco' Hspec]. split; [done|]. eapply spec_done; [exact Heff|].
      assert (shown_at (settle r (Ok tt) s1) = shown_at s1) as Hset by (destruct r as [| | | | | | |? ? ? ? fl]; try done; cbn; by destruct (has fl _)).
      by rewrite <-Hset.
    + assert (settle r (Err e) s1 = s1) as Heq by (by destruct r). rewrite Heq in IH. destruct (IH (proj1 Hok)) as [Hco' Hspec]. split; [done|].
      eapply spec_failed; [exact (proj2 Hok)|exact Hspec].
Qed.
End Session.

(** C3. Requests to an overlay that is mounted for writing, over an upper file system with
    attributes and without an index or redirects: looking names up, making files,
    directories, devices and links, unlinking, removing directories, renaming and
    exchanging, in any order, with dentries dropped from the cache in between.  Calls into
    the layers may fail in any request; of a lookup it is then only the failing that is
    covered, since one that goes on after a failing call can miss that a directory is
    opaque.  New inodes can be had, and a directory that is renamed with the flag
    [OVL_OPAQUE] is opaque; what happens otherwise is shown in [OvlSessionDemo].  Then no
    request ends in a bug of the kernel, the dentries that are cached, moved as the VFS
    moves them, stand for the layers at the end, and what the overlay shows changes as an
    ordinary file system would have it: a request that succeeds makes, removes, moves
    or exchanges the entries it is about, replaces a directory only if it showed nothing,
    and changes nothing else; one that fails changes nothing that is to be seen. *)
Theorem session_refines sec encode_fh copy_up_indexed iterate rebalance umask fsuid fsgid posixacl posix_acl_create fs_mode inode_stale
    nlink_start_indexed nlink_end_indexed rmax weird remote namelen fh check_origin verify_origin lookup_index s tr s' :
  (∀ t, inorder (rebalance t) = inorder t) → (∀ s i p, iterate_ok iterate s i p) →
  (∀ i p, weird i p = false) → (∀ i p, remote i p = false) → (∀ u s, ∃ st, check_origin u s = (Ok st, s)) → (∀ p, inode_stale p = false) →
  coherent s →
  session sec encode_fh copy_up_indexed iterate rebalance umask fsuid fsgid posixacl posix_acl_create fs_mode inode_stale
    nlink_start_indexed nlink_end_indexed rmax weird remote namelen fh check_origin verify_origin lookup_index s tr s' →
  coherent s' ∧ spec_run sec fsuid fsgid (shown_at s) tr (shown_at s').
Proof. intros ???????. by eapply session_run. Qed.
