(* ===== verification/OvlLower.v ===== *)
(** * The lower layers

    The lower layers of an overlay are shared, between images and containers.  The calls
    of the overlay into the file systems below name the tree they are about; none that
    changes a tree is about a lower layer, whatever the layers hold and whichever calls
    fail. *)

From S2P Require Import Prelude FileSys OvlOpts OvlMount OvlCopyUp OvlProps OvlLookup OvlReaddir OvlDir OvlMountProps OvlReaddirProps OvlLookupProps OvlUnion OvlView OvlDirInv OvlDirCopy OvlDirOps OvlDirProps OvlDirRename OvlSession.

(** ** Reading and looking up *)

Definition lower_layers (l : LS) : list (gmap path rinode) := tail (ls_layers l).
Abbreviation lfixes := (fixes lower_layers (λ _, True)).
Lemma lfixes_read {A} (g : LS → A) : lfixes (vfs_read g).
Proof. intros s _. unfold vfs_read. by destruct (ls_faults s) as [|[] ?]. Qed.
Lemma set_upper_lower t l : lower_layers (set_layer 0 t l) = lower_layers l.
Proof. unfold lower_layers. cbn. by destruct (ls_layers l). Qed.
Lemma lfixes_write g : lfixes (vfs_write 0 g).
Proof. intros s _. unfold vfs_write. destruct (ls_faults s) as [|[] ?]; cbn [snd]; by rewrite ?set_upper_lower. Qed.
#[export] Hint Resolve lfixes_read lfixes_write : fixdb.
Lemma lfixes_setxattr p x v e : lfixes (ovl_check_setxattr (0, p) x v e).
Proof. unfold ovl_check_setxattr. cbn [fst snd]. fixing. Qed.
#[export] Hint Resolve lfixes_setxattr : fixdb.
Lemma lfixes_lookup_one i p c : lfixes (lookup_one_len i p c).
Proof. apply lfixes_read. Qed.
Lemma lfixes_getxattr i p x : lfixes (vfs_getxattr i p x).
Proof. apply lfixes_read. Qed.
#[export] Hint Resolve lfixes_lookup_one lfixes_getxattr : fixdb.

Section Reading.
Context (iterate : LS → nat → path → list (string * bool)) (rebalance : rb_tree → rb_tree).
Lemma lfixes_whiteouts i p names : ∀ d, lfixes (whiteouts_loop i p names d).
Proof. induction names as [|c names IH]; intros d; cbn [whiteouts_loop]; fixing. Qed.
#[local] Hint Resolve lfixes_whiteouts : fixdb.
Lemma lfixes_dir_read lowest up i p d : lfixes (ovl_dir_read iterate rebalance lowest up i p d).
Proof. unfold ovl_dir_read, ovl_check_whiteouts. fixing. Qed.
#[local] Hint Resolve lfixes_dir_read : fixdb.
Lemma lfixes_merged_loop l : ∀ d, lfixes (read_merged_loop iterate rebalance l d).
Proof. induction l as [|[up [i p]] l IH]; intros d; cbn [read_merged_loop]; fixing. Qed.
#[local] Hint Resolve lfixes_merged_loop : fixdb.
Lemma lfixes_empty de : lfixes (ovl_check_empty_dir iterate rebalance de).
Proof. unfold ovl_check_empty_dir, ovl_dir_read_merged. fixing. Qed.
End Reading.
Lemma lfixes_positive_loop l name : lfixes (lower_positive_loop l name).
Proof. induction l as [|[i base] l IH]; cbn [lower_positive_loop]; fixing. Qed.
#[export] Hint Resolve lfixes_empty lfixes_positive_loop : fixdb.
Lemma lfixes_lower_positive de name f : lfixes (ovl_lower_positive de name f).
Proof. unfold ovl_lower_positive. fixing. Qed.
#[export] Hint Resolve lfixes_lower_positive : fixdb.

Lemma lfixes_lookup ofs weird remote namelen fh check_origin verify_origin lookup_index root parent name :
  (∀ u, lfixes (check_origin u)) → ovl_verify_lower ofs = false → ofs_indexdir ofs = None →
  lfixes (ovl_lookup ofs weird remote namelen fh check_origin verify_origin lookup_index root parent name).
Proof. intros Ho Hv Hi. apply fixes_lookup; [intros; apply lfixes_read|intros; apply lfixes_setxattr|done..]. Qed.

(** ** Copying up *)

(** An overlay without an index: what an index needs is done by other code. *)
Definition plain_ofs (ofs : ovl_fs) : Prop := ofs_indexdir ofs = None ∧ ovl_verify_lower ofs = false.
Definition sources (o : OS) : gmap path rinode * ovl_fs := (os_lower o, os_ofs o).
Abbreviation ofixes := (fixes sources (λ x, plain_ofs x.2)).
Lemma ofixes_vfs g : (∀ o, sources (g o) = sources o) → ofixes (vfs g).
Proof. intros Hg o _. unfold vfs. destruct (os_faults o) as [|[] ?]; cbn [snd]; by rewrite ?Hg. Qed.
Lemma ofixes_call : ofixes vfs_call.
Proof. by apply ofixes_vfs. Qed.
#[export] Hint Resolve ofixes_call : fixdb.
Ltac sourcing := fixing; try (apply ofixes_vfs; intros; repeat case_match; done).
Section Copying.
Context (sec : string → Z) (encode_fh : path → string) (copy_up_indexed : path → path → Z → M OS ()).
Lemma ofixes_xattr_loop l : ∀ new, ofixes (copy_xattr_loop sec l new).
Proof. induction l as [|[x v] l IH]; intros new; cbn [copy_xattr_loop]; fixing. Qed.
Lemma ofixes_splice fuel : ∀ len old new, ofixes (splice_loop fuel len old new).
Proof. induction fuel as [|fuel IH]; intros len old new; cbn [splice_loop]; fixing. Qed.
Lemma ofixes_impure p : ofixes (ovl_set_impure p).
Proof. unfold ovl_set_impure. sourcing. Qed.
Lemma ofixes_times p st : ofixes (restore_times p st).
Proof. unfold restore_times. sourcing. Qed.
#[local] Hint Resolve ofixes_xattr_loop ofixes_splice ofixes_impure ofixes_times : fixdb.
Lemma ofixes_xattr old new : ofixes (ovl_copy_xattr sec old new).
Proof. unfold ovl_copy_xattr. fixing. Qed.
Lemma ofixes_attr st new : ofixes (ovl_set_attr st new).
Proof. unfold ovl_set_attr. fixing. Qed.
#[local] Hint Resolve ofixes_xattr ofixes_attr : fixdb.
Lemma ofixes_inode c size temp : ofixes (ovl_copy_up_inode sec encode_fh c size temp).
Proof. unfold ovl_copy_up_inode, ovl_copy_up_data, ovl_set_origin. sourcing. Qed.
#[local] Hint Resolve ofixes_inode : fixdb.
Lemma ofixes_locked c size : ofixes (ovl_copy_up_locked sec encode_fh c size).
Proof. unfold ovl_copy_up_locked. sourcing. Qed.
#[local] Hint Resolve ofixes_locked : fixdb.
Lemma no_index o p : plain_ofs (os_ofs o) → ovl_need_index o p = false.
Proof. intros [Hi _]. unfold ovl_need_index. rewrite Hi. by destruct (ovl_dentry_lower o p). Qed.
Lemma ofixes_do_copy_up parent p stat pstat flags : ofixes (ovl_do_copy_up sec encode_fh copy_up_indexed parent p stat pstat flags).
Proof. unfold ovl_do_copy_up. apply fixes_get_bind. intros o Ho. rewrite no_index by done. sourcing. Qed.
#[local] Hint Resolve ofixes_do_copy_up : fixdb.
Lemma ofixes_one parent p flags : ofixes (ovl_copy_up_one sec encode_fh copy_up_indexed parent p flags).
Proof. unfold ovl_copy_up_one, ovl_link_up. sourcing. Qed.
#[local] Hint Resolve ofixes_one : fixdb.
Lemma ofixes_loop fuel p flags : ofixes (copy_up_loop sec encode_fh copy_up_indexed fuel p flags).
Proof. induction fuel as [|fuel IH]; cbn [copy_up_loop]; sourcing. Qed.
Lemma ofixes_copy_up p : ofixes (ovl_copy_up sec encode_fh copy_up_indexed p).
Proof. apply ofixes_loop. Qed.
End Copying.
Lemma ofixes_want_write : ofixes ovl_want_write.
Proof. unfold ovl_want_write. sourcing. Qed.
#[export] Hint Resolve ofixes_xattr ofixes_attr ofixes_impure ofixes_copy_up ofixes_want_write : fixdb.

(** ** Changing directories *)

Definition lower_trees (s : DS) : list (gmap path rinode) := lower_layers (ds_ls s).
Definition kept (s : DS) : list (gmap path rinode) * ovl_fs := (lower_trees s, ds_ofs s).
Abbreviation dfixes := (fixes kept (λ x, plain_ofs x.2)).
(** The trees an overlay may write to. *)
Definition writable (d : side) : Prop := d = Upper ∨ d = Work.
Lemma writable_upper : writable Upper.
Proof. by left. Qed.
Lemma writable_work : writable Work.
Proof. by right. Qed.
#[export] Hint Resolve writable_upper writable_work : fixdb.
Lemma set_tree_kept d t s : writable d → kept (set_tree d t s) = kept s.
Proof. intros [-> | ->]; [|done]. unfold kept, lower_trees. cbn. by rewrite set_upper_lower. Qed.
Lemma dfixes_layers {A} (m : M LS A) : lfixes m → dfixes (on_layers m).
Proof. intros Hm s _. specialize (Hm (ds_ls s) I). unfold on_layers, zoom, kept, lower_trees. destruct (m (ds_ls s)). cbn in *. by rewrite Hm. Qed.
Lemma dfixes_os {A} (m : M OS A) : ofixes m → dfixes (on_os m).
Proof.
  intros Hm s Hs. specialize (Hm (os_of s) Hs). unfold on_os, kept, lower_trees, lower_layers. destruct (m (os_of s)) as [r o]. injection Hm as Hl _.
  cbn [snd put_os ds_ls ls_layers ds_ofs]. rewrite put_sources_same by done. by destruct (ls_layers (ds_ls s)).
Qed.
Lemma dfixes_real {A} (g : DS → outcome A * DS) : (∀ s, kept (g s).2 = kept s) → dfixes (real g).
Proof. intros Hg s _. unfold real. destruct (ls_faults (ds_ls s)) as [|[] ?]; [apply Hg|by rewrite Hg|done]. Qed.
#[export] Hint Resolve dfixes_layers dfixes_os : fixdb.
Ltac real_fixes := intros; apply dfixes_real; intros s; repeat case_match; cbn [snd]; by rewrite ?set_tree_kept.
Lemma dfixes_call : dfixes real_call.
Proof. real_fixes. Qed.
Lemma dfixes_lookup d p : dfixes (real_lookup d p).
Proof. real_fixes. Qed.
Lemma dfixes_create d p n : writable d → dfixes (real_create d p n).
Proof. real_fixes. Qed.
Lemma dfixes_unlink d p : writable d → dfixes (real_unlink d p).
Proof. real_fixes. Qed.
Lemma dfixes_rmdir d p : writable d → dfixes (real_rmdir d p).
Proof. real_fixes. Qed.
Lemma dfixes_alter d p g : writable d → dfixes (real_alter d p g).
Proof. real_fixes. Qed.
Lemma dfixes_rename x y flags : writable x.1 → writable y.1 → dfixes (real_rename x y flags).
Proof. real_fixes. Qed.
Lemma dfixes_dentry p : dfixes (the_dentry p).
Proof. unfold the_dentry. fixing. Qed.
Lemma dfixes_drop p : dfixes (d_drop p).
Proof. done. Qed.
#[export] Hint Resolve dfixes_call dfixes_lookup dfixes_create dfixes_unlink dfixes_rmdir dfixes_alter dfixes_rename dfixes_dentry dfixes_drop : fixdb.

Section Changing.
Context (sec : string → Z) (encode_fh : path → string) (copy_up_indexed : path → path → Z → M OS ())
        (iterate : LS → nat → path → list (string * bool)) (rebalance : rb_tree → rb_tree)
        (umask fsuid fsgid : Z) (posixacl : bool) (posix_acl_create : path → ftype → Z → Z * option string * option string)
        (fs_mode : Z → Z) (inode_stale : path → bool) (nlink_start_indexed nlink_end_indexed : path → M DS ()) (rmax : nat).

Lemma dfixes_cleanup d p : writable d → dfixes (ovl_cleanup d p).
Proof. unfold ovl_cleanup. fixing. Qed.
Lemma dfixes_temp : dfixes ovl_lookup_temp.
Proof. unfold ovl_lookup_temp. fixing. Qed.
#[local] Hint Resolve dfixes_cleanup dfixes_temp : fixdb.
Lemma dfixes_whiteout p : dfixes (ovl_cleanup_and_whiteout p).
Proof. unfold ovl_cleanup_and_whiteout, ovl_whiteout. fixing. Qed.
Lemma dfixes_create_temp a : dfixes (ovl_create_temp fs_mode a).
Proof. unfold ovl_create_temp. fixing. Qed.
Lemma dfixes_opaque_xerr p x e : writable x.1 → dfixes (ovl_set_opaque_xerr p x e).
Proof. unfold ovl_set_opaque_xerr. fixing. Qed.
Lemma dfixes_opaque p x : writable x.1 → dfixes (ovl_set_opaque p x).
Proof. apply dfixes_opaque_xerr. Qed.
Lemma dfixes_instantiate p : dfixes (ovl_instantiate inode_stale p).
Proof. unfold ovl_instantiate. fixing. Qed.
Lemma dfixes_cleanup_whiteouts d p l : writable d → dfixes (ovl_cleanup_whiteouts d p l).
Proof. unfold ovl_cleanup_whiteouts. fixing. Qed.
Lemma dfixes_acl tmp x acl : dfixes (ovl_set_upper_acl tmp x acl).
Proof. unfold ovl_set_upper_acl. fixing. Qed.
#[local] Hint Resolve dfixes_whiteout dfixes_create_temp dfixes_opaque_xerr dfixes_opaque dfixes_instantiate dfixes_cleanup_whiteouts dfixes_acl : fixdb.
Lemma dfixes_clear p l : dfixes (ovl_clear_empty sec fs_mode p l).
Proof. unfold ovl_clear_empty. fixing. Qed.
Lemma dfixes_create_upper dir name a : dfixes (ovl_create_upper umask posixacl fs_mode inode_stale dir name a).
Proof. unfold ovl_create_upper, ovl_create_real. fixing. Qed.
Lemma dfixes_create_over dir name a : dfixes (ovl_create_over_whiteout posix_acl_create fs_mode inode_stale dir name a).
Proof. unfold ovl_create_over_whiteout. fixing. Qed.
#[local] Hint Resolve dfixes_clear dfixes_create_upper dfixes_create_over : fixdb.
Lemma dfixes_create_object dir name f mode :
  dfixes (ovl_create_object sec encode_fh copy_up_indexed umask fsuid fsgid posixacl posix_acl_create fs_mode inode_stale dir name f mode).
Proof. unfold ovl_create_object, ovl_create_or_link, want_write, copy_up. fixing. Qed.
Lemma dfixes_nlink_start p e : dfixes (ovl_nlink_start nlink_start_indexed p e).
Proof.
  unfold ovl_nlink_start. destruct (oe_positive e); cbn [negb]; [|fixing].
  apply fixes_get_bind. intros s [Hi _]. cbn in Hi. rewrite Hi. fixing.
Qed.
Lemma dfixes_nlink_end p : dfixes (ovl_nlink_end nlink_end_indexed p).
Proof. unfold ovl_nlink_end. apply fixes_get_bind. intros s [Hi _]. cbn in Hi. rewrite Hi. fixing. Qed.
Lemma dfixes_lower_positive dir name e : dfixes (lower_positive dir name e).
Proof. unfold lower_positive. fixing. Qed.
Lemma dfixes_check_empty e : dfixes (check_empty_dir iterate rebalance e).
Proof. unfold check_empty_dir. fixing. Qed.
#[local] Hint Resolve dfixes_nlink_start dfixes_nlink_end dfixes_lower_positive dfixes_check_empty : fixdb.
Lemma dfixes_remove dir name is_dir :
  dfixes (ovl_do_remove sec encode_fh copy_up_indexed iterate rebalance fs_mode nlink_start_indexed nlink_end_indexed dir name is_dir).
Proof. unfold ovl_do_remove, ovl_remove_and_whiteout, ovl_remove_upper, want_write, copy_up. fixing. Qed.
Lemma dfixes_prepare p e d o sd dir : dfixes (prepare_move rmax p e d o sd dir).
Proof. unfold prepare_move, ovl_set_redirect. fixing. Qed.
#[local] Hint Resolve dfixes_prepare : fixdb.
Lemma dfixes_rename_op od on nd nn flags :
  dfixes (ovl_rename sec encode_fh copy_up_indexed iterate rebalance fs_mode nlink_start_indexed nlink_end_indexed rmax od on nd nn flags).
Proof. unfold ovl_rename, rename_locked, want_write, copy_up. fixing. Qed.
End Changing.
Lemma lfixes_may_whiteouts f : lfixes (may_have_whiteouts f).
Proof. unfold may_have_whiteouts, ovl_check_origin_xattr. fixing. Qed.
Lemma dfixes_lookup_dentry weird remote namelen fh check_origin verify_origin lookup_index inode_stale dir name :
  (∀ u, lfixes (check_origin u)) →
  dfixes (lookup_dentry weird remote namelen fh check_origin verify_origin lookup_index inode_stale dir name).
Proof.
  intros Ho. unfold lookup_dentry. apply fixes_bind; [fixing|intros parent]. apply fixes_bind; [fixing|intros root]. apply fixes_get_bind. intros s [Hi Hv].
  fixing; apply dfixes_layers; [by apply lfixes_lookup|apply lfixes_may_whiteouts].
Qed.

Lemma serve_fixes sec encode_fh copy_up_indexed iterate rebalance umask fsuid fsgid posixacl posix_acl_create fs_mode inode_stale
    nlink_start_indexed nlink_end_indexed rmax weird remote namelen fh check_origin verify_origin lookup_index r :
  (∀ u, lfixes (check_origin u)) →
  dfixes (serve sec encode_fh copy_up_indexed iterate rebalance umask fsuid fsgid posixacl posix_acl_create fs_mode inode_stale
    nlink_start_indexed nlink_end_indexed rmax weird remote namelen fh check_origin verify_origin lookup_index r).
Proof.
  intros Ho.
  destruct r as [dir name|dir name mode|dir name mode|dir name f mode|dir name link|dir name|dir name|od on nd nn flags]; cbn [serve];
    unfold ovl_create, ovl_mkdir, ovl_mknod, ovl_symlink, ovl_unlink, ovl_rmdir.
  - by apply dfixes_lookup_dentry.
  - apply dfixes_create_object.
  - apply dfixes_create_object.
  - destruct f as [| | |rdev|]; [apply dfixes_create_object..| |apply dfixes_create_object]. destruct (rdev =? WHITEOUT_DEV)%Z; [done|apply dfixes_create_object].
  - apply dfixes_create_object.
  - by apply dfixes_remove.
  - by apply dfixes_remove.
  - by apply dfixes_rename_op.
Qed.

(** C7. Looking up, creating, removing and renaming only read the lower layers.  In
    whatever state the layers and the cache are and whichever calls fail, such a request
    to an overlay without an index leaves every layer below the upper one as it is, also
    when it fails half way.  The calls that write say which layer or work directory they
    write to, and copying up could write to what it copies from.  Resolving the handle of
    an origin, which is code of the file systems below, is taken to write to no lower
    layer. *)
Theorem lower_layers_untouched sec encode_fh copy_up_indexed iterate rebalance umask fsuid fsgid posixacl posix_acl_create fs_mode inode_stale
    nlink_start_indexed nlink_end_indexed rmax weird remote namelen fh check_origin verify_origin lookup_index r s :
  ofs_indexdir (ds_ofs s) = None → ovl_verify_lower (ds_ofs s) = false → (∀ u, lfixes (check_origin u)) →
  lower_trees (serve sec encode_fh copy_up_indexed iterate rebalance umask fsuid fsgid posixacl posix_acl_create fs_mode inode_stale
    nlink_start_indexed nlink_end_indexed rmax weird remote namelen fh check_origin verify_origin lookup_index r s).2 = lower_trees s.
Proof.
  intros Hi Hv Ho. pose proof (serve_fixes sec encode_fh copy_up_indexed iterate rebalance umask fsuid fsgid posixacl posix_acl_create fs_mode inode_stale
    nlink_start_indexed nlink_end_indexed rmax weird remote namelen fh check_origin verify_origin lookup_index r Ho s (conj Hi Hv)) as H. by injection H.
Qed.
