(* ===== verification/OvlUnionDemo.v ===== *)
(** * An overlay of three layers

    A file system that lists its tree, and layers with a whiteout and an opaque
    directory: the theorems of [OvlLookupProps], [OvlUnion] and
    [OvlDirFileProps] on them. *)

From S2P Require Import Prelude FileSys OvlOpts OvlMount OvlCopyUp OvlLookup OvlReaddir OvlDirFile OvlMountProps OvlProps OvlReaddirProps OvlDirFileProps OvlLookupProps OvlUnion.

(** ** Listing a tree *)

Definition child_of (p : path) (e : path * rinode) : option (string * bool) :=
  match last (e.1) with
  | Some c => if bool_decide (e.1 = p ++ [c]) then Some (c, match ri_type e.2 with S_IFCHR _ => true | _ => false end) else None
  | None => None
  end.
Definition list_tree (s : LS) (i : nat) (p : path) : list (string * bool) :=
  match ls_layers s !! i with Some t => omap (child_of p) (map_to_list t) | None => [] end.

Lemma child_of_some p e c b :
  child_of p e = Some (c, b) ↔ e.1 = p ++ [c] ∧ b = match ri_type e.2 with S_IFCHR _ => true | _ => false end.
Proof.
  unfold child_of. split.
  - destruct (last e.1) as [c'|]; [|done]. case_bool_decide; [|done]. by intros [= -> <-].
  - intros [He ->]. rewrite He, last_snoc. by rewrite bool_decide_eq_true_2.
Qed.
Lemma list_tree_ok s i p : iterate_ok list_tree s i p.
Proof.
  unfold list_tree. split; unfold node; destruct (ls_layers s !! i) as [t|] eqn:Ht; cbn.
  - pose proof (NoDup_fst_map_to_list t) as Hnd. induction (map_to_list t) as [|e l IH]; [constructor|]. cbn in Hnd |- *.
    apply NoDup_cons in Hnd as [He Hnd]. destruct (child_of p e) as [[c b]|] eqn:Hc; [|by apply IH]. cbn. constructor; [|by apply IH].
    intros ([c' b']&Hc'&(e'&He'&Hce')%list_elem_of_omap)%list_elem_of_fmap. cbn in Hc'. subst c'. apply He, list_elem_of_fmap.
    exists e'. split; [|done]. apply child_of_some in Hc as [-> _], Hce' as [-> _]. done.
  - constructor.
  - intros c _ _. rewrite list_elem_of_fmap. split.
    + intros ([c' b]&Hc'&(e&He&Hce)%list_elem_of_omap). cbn in Hc'. subst c'. destruct e as [q n]. apply child_of_some in Hce as [Hq _].
      cbn in Hq. subst q. apply elem_of_map_to_list in He. by exists n.
    + intros [n Hn]. eexists (c, _). split; [done|]. apply list_elem_of_omap. exists (p ++ [c], n).
      split; [by apply elem_of_map_to_list|]. by apply child_of_some.
  - intros c _ _. split; [by intros ?%not_elem_of_nil|by intros []].
  - intros c b n (e&He&Hce)%list_elem_of_omap _ _ Hn. destruct e as [q m]. apply child_of_some in Hce as [Hq ->]. cbn in *. subst q.
    apply elem_of_map_to_list in He. rewrite He in Hn. by injection Hn as ->.
  - by intros c b n ?%not_elem_of_nil.
Qed.

(** ** Deciding what is asked of layers *)

Definition all_nodes (f : nat → path → rinode → bool) (s : LS) : bool :=
  forallb (λ i, match ls_layers s !! i with Some t => forallb (λ e, f i e.1 e.2) (map_to_list t) | None => true end)
    (seq 0 (length (ls_layers s))).
Lemma all_nodes_true f s : all_nodes f s = true → ∀ i p n, node s i p = Some n → f i p n = true.
Proof.
  intros Hall i p n Hn. unfold all_nodes in Hall. rewrite forallb_forall in Hall. unfold node in Hn.
  destruct (ls_layers s !! i) as [t|] eqn:Ht; [|done]. cbn in Hn. specialize (Hall i). rewrite Ht in Hall.
  assert (In i (seq 0 (length (ls_layers s)))) as Hi by (apply in_seq; split; [lia|by eapply lookup_lt_Some]).
  specialize (Hall Hi). rewrite forallb_forall in Hall. apply (Hall (p, n)). by apply list_elem_of_In, elem_of_map_to_list.
Qed.
Lemma no_redirect_b s :
  all_nodes (λ _ _ n, bool_decide (ri_xattrs n !! OVL_XATTR_REDIRECT = None)) s = true → no_redirect s.
Proof. intros H i p n Hn. by apply (all_nodes_true _ _ H), bool_decide_eq_true in Hn. Qed.
Lemma layers_wf_b s :
  all_nodes (λ i p _, bool_decide (p = []) || can_lookup s i (parent_dir p)) s = true →
  forallb (λ i, can_lookup s i []) (seq 0 (length (ls_layers s))) = true → layers_wf s.
Proof.
  intros H Hr. split.
  - intros i p c [n Hn]. apply (all_nodes_true _ _ H) in Hn. rewrite bool_decide_eq_false_2 in Hn by (by intros [_ ?]%app_nil).
    by rewrite parent_dir_snoc in Hn.
  - intros i Hi. rewrite forallb_forall in Hr. apply Hr, in_seq. lia.
Qed.

(** ** The layers *)

Module Demo.
Definition a_directory (x : gmap string string) : rinode := mkReal S_IFDIR 493 0 0 0 0 2 false x.
Definition file (data : string) : rinode := mkReal (S_IFREG data) 420 0 0 0 0 1 false ∅.
Definition whiteout : rinode := mkReal (S_IFCHR WHITEOUT_DEV) 0 0 0 0 0 1 false ∅.

Definition upper : gmap path rinode :=
  {[ [] := a_directory ∅; ["etc"] := a_directory ∅; ["etc"; "hosts"] := file "new"; ["tmp"] := whiteout;
     ["var"] := a_directory {[ OVL_XATTR_OPAQUE := "y" ]} ]}.
Definition middle : gmap path rinode :=
  {[ [] := a_directory ∅; ["etc"] := a_directory ∅; ["etc"; "passwd"] := file "root"; ["tmp"] := a_directory ∅; ["tmp"; "x"] := file "x";
     ["var"] := a_directory ∅; ["var"; "log"] := file "log" ]}.
Definition base : gmap path rinode :=
  {[ [] := a_directory ∅; ["etc"] := a_directory ∅; ["etc"; "hosts"] := file "old"; ["bin"] := a_directory ∅; ["bin"; "sh"] := file "sh" ]}.
Definition s : LS := mkLS [upper; middle; base] false ∅ [].

Definition no_weird (i : nat) (p : path) : bool := false.
Definition handle (e : nat * path) : string := "handle".
Definition no_origin (u : path) : M LS (list (nat * path)) := mret [].
Definition verify (u : path) (e : nat * path) : M LS () := mret tt.
Definition no_index (u : option path) (e : nat * path) : M LS (option path) := mret None.
Definition ofs : ovl_fs := demo_mount "lowerdir=/low:/base,upperdir=/up,workdir=/work".

Definition look_up (root de : ovl_dentry) (c : string) : M LS ovl_found :=
  ovl_lookup ofs no_weird no_weird 255 handle no_origin verify no_index root de c.
Definition walk_to (p : path) : M LS (option ovl_dentry) :=
  walk ofs no_weird no_weird 255 handle no_origin verify no_index (root_dentry s) (root_dentry s) p.
Definition etc : ovl_dentry := mkDentry (Some ["etc"]) [(1, ["etc"]); (2, ["etc"])].

Lemma s_no_redirect : no_redirect s.
Proof. apply no_redirect_b. by vm_compute. Qed.
Lemma s_wf : layers_wf s.
Proof. apply layers_wf_b; by vm_compute. Qed.
End Demo.

(** The directory [/etc] of the three layers is listed, and looked up. *)
Lemma listing_is_lookup_witness :
  ∃ names, ovl_iterate list_tree id Demo.etc Demo.s = (Ok names, Demo.s) ∧ NoDup names ∧
    ∀ c, c ≠ "." → c ≠ ".." → is_absolute c = false → String.length c ≤ 255 →
      ∃ f s', Demo.look_up (root_dentry Demo.s) Demo.etc c Demo.s = (Ok f, s') ∧ (c ∈ names ↔ fo_positive f = true).
Proof.
  refine (listing_is_lookup list_tree id Demo.ofs Demo.no_weird Demo.no_weird 255 Demo.handle Demo.no_origin Demo.verify Demo.no_index
    (root_dentry Demo.s) Demo.etc Demo.s _ _ _ _ _ _ _ Demo.s_no_redirect _ _); try done.
  - intros u s. by exists [].
  - repeat (constructor; [apply list_tree_ok|]). constructor.
Defined.

(** The walk to a file of the lower layers that an upper directory merges with. *)
Lemma walk_is_union_witness :
  ∃ r s', Demo.walk_to ["etc"; "passwd"] Demo.s = (Ok r, s') ∧
    match r with Some de => stands Demo.s de ["etc"; "passwd"] | None => union Demo.s ["etc"; "passwd"] = [] end.
Proof.
  refine (walk_is_union Demo.ofs Demo.no_weird Demo.no_weird 255 Demo.handle Demo.no_origin Demo.verify Demo.no_index
    Demo.s ["etc"; "passwd"] _ _ _ _ _ _ Demo.s_no_redirect Demo.s_wf _ _); try done.
  - intros u s. by exists [].
  - cbn. lia.
  - repeat constructor; cbn; lia.
Defined.

(** What the layers show: the upper file, the lower one, nothing below a whiteout or
    an opaque directory, and a directory of all layers. *)
Lemma demo_union :
  union Demo.s ["etc"; "hosts"] = [0] ∧ union Demo.s ["etc"; "passwd"] = [1] ∧ union Demo.s ["tmp"; "x"] = [] ∧
  union Demo.s ["var"; "log"] = [] ∧ union Demo.s ["bin"; "sh"] = [2] ∧ union Demo.s ["etc"] = [0; 1; 2].
Proof. by vm_compute. Qed.

(** The directory [/etc] and its files; a directory that is not merged would be empty. *)
Module DirDemo.
Definition d : DF := mkDF Demo.s Demo.etc 0 true ∅ None ∅.
Definition no_ino (e : ovl_cache_entry) : bool := false.
Definition real_empty (de : ovl_dentry) (pos : Z) (room : nat) : M LS (list string * Z) := mret ([], pos).
Definition real_seek (de : ovl_dentry) (pos off org : Z) : M LS Z := mret off.
Definition run (ops : list df_op) : M DF () := df_run list_tree id no_ino real_empty real_seek ops.

(** [/etc/passwd] is whited out. *)
Definition hide_passwd (l : list (gmap path rinode)) : list (gmap path rinode) :=
  alter (<[ ["etc"; "passwd"] := Demo.whiteout ]>) 0 l.
Lemma d_unused : unused d.
Proof. done. Qed.
Lemma real_reads de pos room : reads (real_empty de pos room).
Proof. apply lreads_ret. Qed.
Lemma seek_reads de pos off org : reads (real_seek de pos off org).
Proof. apply lreads_ret. Qed.

(** Two readers with a change in between: the first one reads on in its list, the
    second one gets the new one. *)
Definition session : list df_op :=
  [DOpen 1; DIterate 1 1; DChange hide_passwd; DOpen 2; DIterate 2 9; DIterate 1 9; DSeek 2 0 0; DRelease 2; DRelease 1].
Definition out_of (fd : nat) (ops : list df_op) : option (list string) := od_out <$> df_files (run ops d).2 !! fd.
Lemma session_lists :
  out_of 1 (take 6 session) = Some ["hosts"; "passwd"] ∧ out_of 2 (take 6 session) = Some ["hosts"].
Proof. by vm_compute. Qed.
End DirDemo.

Lemma dir_caches_safe_witness :
  ∃ s', DirDemo.run DirDemo.session DirDemo.d = (Ok tt, s') ∧ dwf s' ∧ (df_files s' = ∅ → df_caches s' = ∅ ∧ df_icache s' = None).
Proof.
  exact (dir_caches_safe list_tree id DirDemo.no_ino DirDemo.real_empty DirDemo.real_seek DirDemo.session DirDemo.d
           DirDemo.real_reads DirDemo.seek_reads DirDemo.d_unused).
Defined.

Lemma readdir_snapshot_witness :
  ∃ s2 od, DirDemo.run (DOpen 1 :: [DIterate 1 1; DChange DirDemo.hide_passwd; DIterate 1 9]) DirDemo.d = (Ok tt, s2) ∧
    df_files s2 !! 1 = Some od ∧
    match od_cache od with
    | None => od_out od = []
    | Some c => ∃ dc ops3 ops4 s3, df_caches s2 !! c = Some dc ∧
        DOpen 1 :: [DIterate 1 1; DChange DirDemo.hide_passwd; DIterate 1 9] = ops3 ++ ops4 ∧
        DirDemo.run ops3 DirDemo.d = (Ok tt, s3) ∧ NoDup (od_out od) ∧
        (∀ x, x ≠ "." → x ≠ ".." → x ∈ od_out od → visible (df_ls s3) (real_dirs Demo.etc) x = true) ∧
        (od_cursor od = length (dc_entries dc) →
           ∀ x, x ≠ "." → x ≠ ".." → visible (df_ls s3) (real_dirs Demo.etc) x = true → x ∈ od_out od)
    end.
Proof.
  refine (readdir_snapshot list_tree id DirDemo.no_ino DirDemo.real_empty DirDemo.real_seek 1 [] [DIterate 1 1; DChange DirDemo.hide_passwd; DIterate 1 9]
           DirDemo.d DirDemo.d _ list_tree_ok DirDemo.real_reads DirDemo.seek_reads DirDemo.d_unused _ _ _ _ _ _ _); done.
Defined.

Lemma readdir_finishes_witness :
  ∃ s' od, DirDemo.run (DOpen 1 :: replicate 3 (DIterate 1 1)) DirDemo.d = (Ok tt, s') ∧ df_files s' !! 1 = Some od ∧ NoDup (od_out od) ∧
    ∀ x, x ≠ "." → x ≠ ".." → x ∈ od_out od ↔ visible Demo.s (real_dirs Demo.etc) x = true.
Proof.
  refine (readdir_finishes list_tree id DirDemo.no_ino DirDemo.real_empty DirDemo.real_seek 1 0 DirDemo.d 3 _ list_tree_ok
            DirDemo.real_reads DirDemo.seek_reads DirDemo.d_unused _ _ _ _); try done.
  apply Nat.ltb_lt. vm_compute. reflexivity.
Defined.
