(* ===== verification/OvlSessionDemo.v ===== *)
(** * A session

    The layers of [OvlUnionDemo], mounted for writing: a script of requests is run, and
    the theorems of [OvlSession] and [OvlLower] are applied to it. *)

From S2P Require Import Prelude FileSys OvlOpts OvlMount OvlCopyUp OvlProps OvlLookup OvlReaddir OvlDir OvlMountProps OvlReaddirProps OvlDirFileProps OvlLookupProps OvlUnion OvlView OvlDirInv OvlDirCopy OvlDirOps OvlDirProps OvlDcache OvlDirRename OvlDirExchange OvlSession OvlLower OvlUnionDemo.

Module SesDemo.
(** A mode is stored as it is, no access control lists. *)
Definition keep_mode (m : Z) : Z := m.
Definition no_acl (dir : path) (f : ftype) (mode : Z) : Z * option string * option string := (mode, None, None).
Definition fresh (p : path) : bool := false.
Definition no_nlink (p : path) : M DS () := mret tt.

Definition run_with (stale : path → bool) (r : request) : M DS () :=
  serve allow_all demo_fh OvlProps.no_index list_tree id 18 1000 1000 true no_acl keep_mode stale no_nlink no_nlink 256
    Demo.no_weird Demo.no_weird 255 Demo.handle Demo.no_origin Demo.verify Demo.no_index r.
Definition session_with (stale : path → bool) : DS → list (request * outcome ()) → DS → Prop :=
  session allow_all demo_fh OvlProps.no_index list_tree id 18 1000 1000 true no_acl keep_mode stale no_nlink no_nlink 256
    Demo.no_weird Demo.no_weird 255 Demo.handle Demo.no_origin Demo.verify Demo.no_index.
Definition asked_of : DS → request → Prop := asked 255.

(** ** Running a script *)

(** [Miss] is a lookup that fails. *)
Inductive act := Do (r : request) | Miss (dir : path) (name : string) | Faults (f : list fault) | Forget (p : path).

Definition has_entry (s : DS) (p : path) (f : oentry → bool) : bool := match ds_dentries s !! p with Some e => f e | None => false end.
Definition movable_b (s : DS) (p : path) : bool :=
  has_entry s p (λ e, oe_positive e && (negb (oe_is_dir s e) || negb (oe_opaque e) || hide_at (upper_tree s) p)).
Definition asked_b (s : DS) (r : request) : bool :=
  match r with
  | Lookup dir name =>
      bool_decide (ls_faults (ds_ls s) = []) && negb (ovl_verify_lower (ds_ofs s)) && negb (is_absolute name) && (String.length name <=? 255) &&
      bool_decide (ds_dentries s !! (dir ++ [name]) = None) && has_entry s dir (λ d, oe_positive d && oe_is_dir s d)
  | Create dir name _ | Mkdir dir name _ | Mknod dir name _ _ | Symlink dir name _ =>
      negb (String.eqb name ".") && negb (String.eqb name "..") && has_entry s (dir ++ [name]) (λ e, negb (oe_positive e))
  | Unlink dir name => has_entry s (dir ++ [name]) oe_positive
  | Rmdir dir name => has_entry s (dir ++ [name]) (λ e, oe_positive e && oe_is_dir s e)
  | Rename olddir oldname newdir newname flags =>
      let old := olddir ++ [oldname] in
      let new := newdir ++ [newname] in
      negb (bool_decide (old = new)) && negb (String.eqb newname ".") && negb (String.eqb newname "..") && negb (ovl_redirect_dir s) && movable_b s old &&
      ((((flags =? 0) || (flags =? RENAME_NOREPLACE))%Z && has_entry s new (λ _, true)) || ((flags =? RENAME_EXCHANGE)%Z && movable_b s new))
  end.
Lemma has_entry_some s p f : has_entry s p f = true → ∃ e, ds_dentries s !! p = Some e ∧ f e = true.
Proof. unfold has_entry. destruct (ds_dentries s !! p) as [e|]; [|done]. by exists e. Qed.
Lemma movable_true s p : movable_b s p = true → ∃ e, movable_at s p e.
Proof.
  intros (e&He&[Hp Ho]%andb_true_iff)%has_entry_some. exists e. split_and!; [done|done|]. intros H1 H2. by rewrite H1, H2 in Ho.
Qed.
Lemma asked_true s r : asked_b s r = true → asked_of s r.
Proof.
  assert (∀ dir name, negb (String.eqb name ".") && negb (String.eqb name "..") && has_entry s (dir ++ [name]) (λ e, negb (oe_positive e)) = true →
    negative_at s dir name) as Hneg.
  { intros dir name. rewrite !andb_true_iff, !negb_true_iff, !String.eqb_neq. intros [Hn (e&He&Hp%negb_true_iff)%has_entry_some].
    split; [done|]. by exists e. }
  destruct r as [dir name|dir name mode|dir name mode|dir name f mode|dir name link|dir name|dir name|od on nd nn flags];
    unfold asked_of; cbn [asked asked_b]; try apply Hneg.
  - rewrite !andb_true_iff, !negb_true_iff, !bool_decide_eq_true, Nat.leb_le. intros [[[[[Hq Hv] Ha] Hl] Hn] (d&Hd&[Hp Hdd]%andb_true_iff)%has_entry_some].
    split_and!; [done|done|by split|done|]. by exists d.
  - intros (e&He&Hp)%has_entry_some. by exists e.
  - intros (e&He&[Hp Hd]%andb_true_iff)%has_entry_some. by exists e.
  - rewrite !andb_true_iff, !negb_true_iff, !String.eqb_neq, bool_decide_eq_false, !orb_true_iff, !andb_true_iff, !orb_true_iff, !Z.eqb_eq.
    intros [[[[[Hne Hd1] Hd2] Hr] (e&He)%movable_true] [[Hf (e'&He'&_)%has_entry_some]|[Hf (e'&He')%movable_true]]];
      (split_and!; [done|done|done|]); exists e, e'; (split_and!; [done|first [done|apply He']|]); [by destruct Hf; auto|by auto].
Qed.
(** The script runs, if every request of it is one the VFS makes. *)
Fixpoint replay (stale : path → bool) (script : list act) (s : DS) : option (list (request * outcome ()) * DS) :=
  match script with
  | [] => Some ([], s)
  | Faults f :: script => replay stale script (with_faults f s)
  | Forget p :: script => if bool_decide (p = []) then None else replay stale script (dropped p s)
  | Miss dir name :: script =>
      match run_with stale (Lookup dir name) s with
      | (Err e, s1) =>
          if ovl_verify_lower (ds_ofs s) then None
          else '(tr, s') ← replay stale script s1; Some ((Lookup dir name, Err e) :: tr, s')
      | _ => None
      end
  | Do r :: script =>
      if asked_b s r then
        let '(o, s1) := run_with stale r s in
        '(tr, s') ← replay stale script (settle r o s1);
        Some ((r, o) :: tr, s')
      else None
  end.
Lemma replay_session stale script : ∀ s tr s', replay stale script s = Some (tr, s') → session_with stale s tr s'.
Proof.
  induction script as [|[r|dir name|f|p] script IH]; intros s tr s'; cbn [replay].
  - intros [= <- <-]. constructor.
  - destruct (asked_b s r) eqn:Ha; [|done]. destruct (run_with stale r s) as [o s1] eqn:Hr.
    destruct (replay stale script (settle r o s1)) as [[tr' s2]|] eqn:Hrest; [|done]. intros [= <- <-].
    eapply ses_serve; [by apply asked_true|exact Hr|by apply IH].
  - destruct (run_with stale (Lookup dir name) s) as [[[]|e|x] s1] eqn:Hr; [done| |done]. destruct (ovl_verify_lower _) eqn:Hv; [done|].
    destruct (replay stale script s1) as [[tr' s2]|] eqn:Hrest; [|done]. intros [= <- <-]. by eapply ses_failed; [..|apply IH].
  - intros H. eapply ses_faults. by apply IH.
  - case_bool_decide; [done|]. intros H'. eapply ses_forget; [done|]. by apply IH.
Qed.

(** ** The state after the mount *)

Definition d0 : DS :=
  mkDS Demo.ofs Demo.s {[ [] := Demo.a_directory ∅ ]} 0
    {[ [] := mkOentry (Some []) (de_lowers (root_dentry Demo.s)) false true None ]}.
Lemma names_plain i q c : is_Some (node Demo.s i (q ++ [c])) → dot_free c.
Proof.
  intros [n Hn].
  assert (all_nodes (λ _ p _, match last p with Some c => negb (String.eqb c ".") && negb (String.eqb c "..") | None => true end) Demo.s = true) as Hall
    by (vm_compute; reflexivity).
  apply (all_nodes_true _ _ Hall) in Hn. rewrite last_snoc in Hn. clear Hall.
  apply andb_true_iff in Hn as [H1%negb_true_iff%String.eqb_neq H2%negb_true_iff%String.eqb_neq]. by split.
Qed.
Lemma d0_coherent : coherent d0.
Proof.
  pose proof Demo.s_wf as Hwf. split; cbn [d0 ds_ls ds_ofs ds_work ds_dentries].
  - exact Hwf.
  - cbn; lia.
  - exact Demo.s_no_redirect.
  - exact names_plain.
  - split; [by vm_compute|]. intros p c [n [Hn _]%lookup_singleton_Some]. by destruct p.
  - vm_compute; reflexivity.
  - exists ["work"; "work"]; vm_compute; reflexivity.
  - exists ["up"]; vm_compute; reflexivity.
  - vm_compute; reflexivity.
  - rewrite lookup_singleton_eq; by eexists.
  - intros p c [e [He _]%lookup_singleton_Some]; by destruct p.
  - intros p e [<- <-]%lookup_singleton_Some. split. intros _. apply root_stands; [exact Hwf|cbn; lia]. intros [=]. intros [=].
Qed.

(** ** A session *)

(** A file is unlinked, and a directory takes its name; one that a layer below has is
    made again, and a file cannot take its place; removing it then works.  A file moves
    to another directory, and changes places with the directory.  A lookup fails.  A
    directory is removed when its file is gone, and its name becomes a link. *)
Definition script : list act :=
  [Do (Lookup [] "etc"); Do (Lookup ["etc"] "passwd"); Do (Unlink ["etc"] "passwd"); Do (Lookup ["etc"] "passwd"); Do (Mkdir ["etc"] "passwd" 493);
   Do (Lookup ["etc"] "hosts"); Faults [NoFault; NoFault; FailAt 0]; Do (Unlink ["etc"] "hosts"); Faults []; Do (Lookup [] "tmp");
   Do (Mkdir [] "tmp" 493); Do (Rename ["etc"] "hosts" [] "tmp" 0); Do (Rmdir [] "tmp"); Do (Lookup [] "tmp"); Do (Lookup [] "hosts");
   Do (Rename ["etc"] "hosts" [] "hosts" 0); Do (Lookup ["etc"] "hosts"); Do (Rename [] "hosts" ["etc"] "passwd" RENAME_EXCHANGE); Do (Lookup ["hosts"] "a");
   Do (Create ["hosts"] "a" 420); Faults [FailAt 0]; Miss [] "bin"; Do (Lookup [] "bin"); Do (Lookup ["bin"] "sh");
   Do (Rmdir [] "bin"); Do (Unlink ["bin"] "sh"); Do (Rmdir [] "bin"); Do (Lookup [] "bin"); Do (Mknod [] "bin" (S_IFCHR 0) 0); Do (Symlink [] "bin" "etc")].
Definition trace : list (request * outcome ()) := match replay fresh script d0 with Some (tr, _) => tr | None => [] end.
Definition final : DS := match replay fresh script d0 with Some (_, s) => s | None => d0 end.
Lemma script_runs : session_with fresh d0 trace final.
Proof.
  assert (bool_decide (is_Some (replay fresh script d0)) = true) as [[tr s] Hr]%bool_decide_eq_true by (vm_compute; reflexivity).
  apply (replay_session fresh script). unfold trace, final. by rewrite Hr.
Qed.
Lemma script_outcomes :
  trace.*2 =
    [Ok (); Ok (); Ok (); Ok (); Ok (); Ok (); Err (OsError EIO); Ok (); Ok (); Err (OsError EISDIR); Ok (); Ok (); Ok (); Ok (); Ok (); Ok ();
     Ok (); Ok (); Err (OsError EIO); Ok (); Ok (); Err (OsError ENOTEMPTY); Ok (); Ok (); Ok (); Err (OsError EPERM); Ok ()] ∧
  map (λ p, is_dir_node <$> shown_at final p) [["etc"; "passwd"]; ["hosts"]] = [Some false; Some true] ∧
  map (λ p, bool_decide (is_Some (shown_at final p))) [["etc"]; ["etc"; "passwd"]; ["etc"; "hosts"]; ["hosts"]; ["bin"]; ["tmp"]; ["bin"; "sh"]; ["hosts"; "a"]] =
    [true; true; false; true; true; false; false; true].
Proof. split_and!; vm_compute; reflexivity. Qed.

(** ** Layers of which a directory of the upper one hides a file *)

Definition flag_layers : LS :=
  mkLS [{[ [] := Demo.a_directory ∅; ["d"] := Demo.a_directory ∅; ["d"; "x"] := Demo.whiteout; ["e"] := Demo.whiteout ]};
        {[ [] := Demo.a_directory ∅; ["d"] := Demo.file "d"; ["e"] := Demo.a_directory ∅; ["e"; "f"] := Demo.file "f" ]}] false ∅ [].
Definition d1 : DS :=
  mkDS Demo.ofs flag_layers {[ [] := Demo.a_directory ∅ ]} 0
    {[ [] := mkOentry (Some []) (de_lowers (root_dentry flag_layers)) false true None ]}.
(** Requests, each with the calls that fail. *)
Fixpoint requests (rs : list (list fault * request)) (s : DS) : list (outcome ()) * DS :=
  match rs with
  | [] => ([], s)
  | (f, r) :: rs => let '(o, s1) := run_with fresh r (with_faults f s) in let '(os, s') := requests rs (settle r o s1) in (o :: os, s')
  end.
Definition stale_tmp (p : path) : bool := bool_decide (p = ["tmp"]).
End SesDemo.

Lemma session_refines_witness :
  coherent SesDemo.final ∧ spec_run allow_all 1000 1000 (shown_at SesDemo.d0) SesDemo.trace (shown_at SesDemo.final).
Proof.
  refine (session_refines allow_all demo_fh OvlProps.no_index list_tree id 18 1000 1000 true SesDemo.no_acl SesDemo.keep_mode SesDemo.fresh
    SesDemo.no_nlink SesDemo.no_nlink 256 Demo.no_weird Demo.no_weird 255 Demo.handle Demo.no_origin Demo.verify Demo.no_index
    SesDemo.d0 SesDemo.trace SesDemo.final _ list_tree_ok _ _ _ _ SesDemo.d0_coherent SesDemo.script_runs); try done.
  intros u s. by exists [].
Defined.
Lemma lower_layers_untouched_witness :
  lower_trees (SesDemo.run_with SesDemo.fresh (Rename [] "d" [] "e" 0) SesDemo.d1).2 = lower_trees SesDemo.d1.
Proof.
  refine (lower_layers_untouched allow_all demo_fh OvlProps.no_index list_tree id 18 1000 1000 true SesDemo.no_acl SesDemo.keep_mode SesDemo.fresh
    SesDemo.no_nlink SesDemo.no_nlink 256 Demo.no_weird Demo.no_weird 255 Demo.handle Demo.no_origin Demo.verify Demo.no_index
    (Rename [] "d" [] "e" 0) SesDemo.d1 _ _ _); done.
Defined.

(** When the new inode cannot be had, making an entry in the place of a whiteout ends
    in a bug of the kernel: [ovl_create_over_whiteout] cleans the new entry up in the work
    directory, where it is no more, and the entry is left in the upper layer. *)
Theorem create_over_whiteout_stale :
  match SesDemo.replay SesDemo.stale_tmp [SesDemo.Do (Lookup [] "tmp"); SesDemo.Do (Mkdir [] "tmp" 493)] SesDemo.d0 with
  | Some (tr, s) => tr.*2 = [Ok (); Panic wrong_parent] ∧ dir_at (upper_tree s) ["tmp"] = true
  | None => False
  end.
Proof. by vm_compute. Qed.

(** [ovl_clear_empty] marks the dentry opaque before the opaque directory is in its
    place.  When it fails then, and the directory is renamed to a name that a directory
    below has, [ovl_rename] takes it for opaque already, and the files of the directory
    below, which were removed, are back. *)
Example stale_flag_shows_lower :
  let rs := [([], Lookup [] "d"); ([], Lookup [] "e"); (replicate 14 NoFault ++ [FailAt 0], Rmdir [] "d"); ([], Rename [] "d" [] "e" 0)] in
  let x := SesDemo.requests rs SesDemo.d1 in
  x.1 = [Ok (); Ok (); Err (OsError EIO); Ok ()] ∧
  shown_at SesDemo.d1 ["e"; "f"] = None ∧ shown_at SesDemo.d1 ["d"; "f"] = None ∧ is_Some (shown_at x.2 ["e"; "f"]).
Proof. vm_compute. split_and!; [done..|by eexists]. Qed.
