(* ===== verification/DriverBase.v ===== *)
(** * What a storage driver builds on

    Links, mounts and their table, [src/engine/pkg/idtools],
    [src/engine/pkg/mount/mount.go], [src/engine/pkg/system/rm.go] and the
    reference counter of [src/engine/daemon/graphdriver/counter.go]. *)

From S2P Require Import Prelude FileSys OvlOpts OvlMount.

(** ** Paths as strings *)

Module GoPath.
(** [path.Clean], component by component, on top of an absolute path. *)
Fixpoint clean (acc : path) (comps : list string) : path :=
  match comps with
  | [] => acc
  | c :: comps =>
      if String.eqb c EmptyString || String.eqb c "." then clean acc comps
      else if String.eqb c ".." then clean (parent_dir acc) comps
      else clean (acc ++ [c]) comps
  end.
(** [path.Join] of an absolute path and a string. *)
Definition Join (dir : path) (s : string) : path := clean dir (GoString.split slash s).
(** An absolute path as a string. *)
Definition abs (p : path) : string := String slash (GoString.join "/" p).
End GoPath.

Module OsLink.
Definition Lstat (p : path) : M FS node := Os.Stat p.
Definition Symlink (target : string) (p : path) : M FS () := syscall (λ t,
  match node_at t p with
  | Some _ => (Err (OsError EEXIST), t)
  | None => if is_dir t (parent_dir p) then (Ok tt, <[p := FileSys.Symlink target]> t) else (Err (OsError ENOENT), t)
  end).
Definition Readlink (p : path) : M FS string := syscall (λ t,
  match node_at t p with
  | Some (FileSys.Symlink target) => (Ok target, t)
  | Some _ => (Err (OsError EINVAL), t)
  | None => (Err (OsError ENOENT), t)
  end).
(** [os.Chown]: owners are not modelled. *)
Definition Chown (p : path) : M FS () := syscall (λ t,
  match node_at t p with Some _ => (Ok tt, t) | None => (Err (OsError ENOENT), t) end).
Definition Rmdir (p : path) : M FS () := syscall (λ t,
  match t !! p with
  | None => (Err (OsError ENOENT), t)
  | Some Dir => if Os.has_children t p then (Err (OsError ENOTEMPTY), t) else (Ok tt, delete p t)
  | Some _ => (Err (OsError ENOTDIR), t)
  end).
End OsLink.

(** ** [pkg/idtools] *)

Module Idtools.
Record IDMap := mkIDMap { ContainerID : Z; HostID : Z; Size : Z }.

(** [toHost]; no map at all maps every identifier to itself. *)
Fixpoint toHost_loop (contID : Z) (idMap : list IDMap) : error + Z :=
  match idMap with
  | [] => inl (Errorf ("Container ID " +:+ GoString.format_int contID +:+ " cannot be mapped to a host ID"))
  | m :: idMap =>
      if ((ContainerID m <=? contID) && (contID <=? ContainerID m + Size m - 1))%Z
      then inr (HostID m + (contID - ContainerID m))%Z
      else toHost_loop contID idMap
  end.
Definition toHost (contID : Z) (idMap : option (list IDMap)) : error + Z :=
  match idMap with None => inr contID | Some l => toHost_loop contID l end.

(** [GetRootUIDGID]. *)
Definition GetRootUIDGID (uidMap gidMap : option (list IDMap)) : error + (Z * Z) :=
  match toHost 0 uidMap with
  | inl e => inl e
  | inr uid => match toHost 0 gidMap with inl e => inl e | inr gid => inr (uid, gid) end
  end.

(** [lazyChown]: [known] if the caller has the status already. *)
Definition lazyChown (p : path) (known : bool) : M FS () :=
  _ ← (if known then mret tt else _ ← Os.Stat p; mret tt);
  OsLink.Chown p.

(** The directories above [p] that do not exist, from the bottom up. *)
Fixpoint missing_above (fuel : nat) (p : path) (paths : list path) : M FS (list path) :=
  match fuel, p with
  | S fuel, _ :: _ =>
      r ← attempt (Os.Stat p);
      missing_above fuel (parent_dir p)
        (match r with inl e => if Os.IsNotExist e then paths ++ [p] else paths | inr _ => paths end)
  | _, _ => mret paths
  end.

(** [mkdirAs]; there are as many directories above [p] as it has components. *)
Definition mkdirAs (p : path) (mkAll chownExisting : bool) : M FS () :=
  r ← attempt (Os.Stat p);
  match r with
  | inr n =>
      match n with
      | Dir => if chownExisting then lazyChown p true else mret tt
      | _ => fail (OsError ENOTDIR)
      end
  | inl e =>
      let paths := if Os.IsNotExist e then [p] else [] in
      paths ← (if mkAll then
                 paths ← missing_above (length p) (parent_dir p) paths;
                 _ ← Os.MkdirAll p; mret paths
               else
                 r ← attempt (Os.Mkdir p);
                 match r with
                 | inl e => if bool_decide (e = OsError EEXIST) then mret paths else fail e
                 | inr _ => mret paths
                 end);
      for_each paths (λ q, lazyChown q false)
  end.
Definition MkdirAllAndChown (p : path) : M FS () := mkdirAs p true true.
Definition MkdirAndChown (p : path) : M FS () := mkdirAs p false true.
End Idtools.

(** ** Mounts *)

(** The file tree, the overlays mounted on each directory, last one first, and
    the directories an overlay holds. *)
Record Host := mkHost {
  ho_fs : FS;
  ho_mounts : gmap path (list ovl_fs);
  ho_inuse : gset path;
}.
Definition ho_set_mounts m h := mkHost (ho_fs h) m (ho_inuse h).
Definition onTree {A} (m : M FS A) : M Host A := zoom ho_fs (λ f h, mkHost f (ho_mounts h) (ho_inuse h)) m.

Definition mounted_at (h : Host) (p : path) : bool :=
  match ho_mounts h !! p with Some (_ :: _) => true | _ => false end.

Section Syscalls.
Context (k : ovl_params) (b : backing) (verify_origin verify_index : path → path → M MS ()).

(** The size of a page, which bounds the data of a mount. *)
Definition page_size : nat := 4096.

(** A computation on a super block, on the host. *)
Definition with_super (o : ovl_fs) (m : M MS ()) : M Host ovl_fs := λ h,
  let '(r, s) := m (mkMS (ho_fs h) (ho_inuse h) o) in
  (match r with Ok _ => Ok (ms_ofs s) | Err e => Err e | Panic x => Panic x end,
   mkHost (ms_fs s) (ho_mounts h) (ms_inuse s)).

(** [mount(2)] of type overlay: the data is cut to what fits a page with its end. *)
Definition sys_mount (cwd : path) (target data : string) : M Host () :=
  p ← onTree (syscall (λ t, match kern_path t cwd target with
                            | inl e => (Err e, t)
                            | inr p => if is_dir t p then (Ok p, t) else (Err (OsError ENOTDIR), t)
                            end));
  o ← with_super (mount_ofs k)
        (ovl_fill_super k b cwd verify_origin verify_index (Some (GoString.take (page_size - 1) data)));
  modify (λ h, ho_set_mounts (<[p := o :: default [] (ho_mounts h !! p)]> (ho_mounts h)) h).

(** [umount2(2)]: the last mount goes, with the locks it has. *)
Definition sys_unmount (p : path) : M Host () :=
  _ ← onTree (syscall (λ t, (Ok tt, t)));
  h ← get;
  match ho_mounts h !! p with
  | Some (o :: os) =>
      _ ← with_super o ovl_free_fs;
      modify (λ h, ho_set_mounts (match os with [] => delete p (ho_mounts h) | _ => <[p := os]> (ho_mounts h) end) h)
  | _ => fail (OsError EINVAL)
  end.

(** [rmdir(2)]. *)
Definition sys_rmdir (p : path) : M Host () :=
  h ← get;
  if mounted_at h p then fail (OsError EBUSY) else onTree (OsLink.Rmdir p).

(** [graphdriver.Mounted] with the magic of overlays: [statfs(2)]. *)
Definition Mounted (p : path) : M Host bool :=
  r ← attempt (onTree (Os.Stat p));
  h ← get;
  mret (match r with inl _ => false | inr _ => mounted_at h p end).
End Syscalls.

(** ** [pkg/mount] *)

Module Mount.
Definition longer (a b : path) : Prop := String.length (GoPath.abs b) ≤ String.length (GoPath.abs a).
#[export] Instance longer_dec : RelDecision longer.
Proof. intros a b. unfold longer. apply _. Defined.

(** The mount points [PrefixFilter] lets through, once for each mount on them,
    the deepest first. *)
Definition below (h : Host) (target : path) : list path :=
  merge_sort longer
    (concat ((λ '(p, os), replicate (length (os : list ovl_fs)) p) <$>
       filter (λ kv, GoString.has_prefix (GoPath.abs kv.1) (GoPath.abs target) = true) (map_to_list (ho_mounts h)))).

Fixpoint unmount_loop (ms : list path) : M Host () :=
  match ms with
  | [] => mret tt
  | m :: ms =>
      r ← attempt (sys_unmount m);
      match r with
      | inr _ => unmount_loop ms
      | inl e =>
          if bool_decide (e = OsError EINVAL) then unmount_loop ms
          else
            h ← get;
            match ms with
            | [] => if mounted_at h m then fail e else mret tt
            | _ => unmount_loop ms
            end
      end
  end.
(** [RecursiveUnmount]. *)
Definition RecursiveUnmount (target : path) : M Host () :=
  _ ← onTree (syscall (λ t, (Ok tt, t)));
  h ← get;
  unmount_loop (below h target).

(** [Unmount]. *)
Definition Unmount (p : path) : M Host () :=
  r ← attempt (sys_unmount p);
  match r with inl e => if bool_decide (e = OsError EINVAL) then mret tt else fail e | inr _ => mret tt end.
End Mount.

(** ** [pkg/system/rm.go] *)

Module System.
(** [os.RemoveAll]: a mount point below the directory is busy; the path of the
    error is that of the mount point. *)
Definition busy (h : Host) (dir : path) : option path :=
  head (filter (λ p, mounted_at h p = true ∧ Os.below dir p = true) (map_to_list (ho_mounts h)).*1).
Definition RemoveAll (dir : path) : M Host (option path) :=
  h ← get;
  match busy h dir with
  | Some p => mret (Some p)
  | None => _ ← onTree (Os.RemoveAll dir); mret None
  end.

Definition maxRetry : nat := 50.
(** The loop of [EnsureRemoveAll]: [tries] counts for each path how often it was
    busy; with one mount table a path that stays busy is tried again until the
    count is reached, so [fuel] rounds for every mount point are enough. *)
Fixpoint remove_loop (fuel : nat) (dir : path) (tries : gmap path nat) : M Host () :=
  match fuel with
  | 0 => fail (Errorf "out of fuel")
  | S fuel =>
      r ← RemoveAll dir;
      match r with
      | None => mret tt
      | Some p =>
          r ← attempt (Mount.Unmount p);
          h ← get;
          match r with
          | inl e =>
              if mounted_at h p then fail (Wrap e ("error while removing " +:+ GoPath.abs dir))
              else if default 0 (tries !! p) =? maxRetry then fail (OsError EBUSY)
              else remove_loop fuel dir (<[p := S (default 0 (tries !! p))]> tries)
          | inr _ =>
              if default 0 (tries !! p) =? maxRetry then fail (OsError EBUSY)
              else remove_loop fuel dir (<[p := S (default 0 (tries !! p))]> tries)
          end
      end
  end.
(** [EnsureRemoveAll]. *)
Definition EnsureRemoveAll (dir : path) : M Host () :=
  _ ← ignore_err (Mount.RecursiveUnmount dir);
  h ← get;
  remove_loop (S (size (ho_mounts h) * S maxRetry)) dir ∅.
End System.
