(* ===== verification/Overlay2.v ===== *)
(** * The storage driver overlay2

    [src/engine/daemon/graphdriver/overlay2]: every layer is a directory with
    its files in [diff], a short link to them, and the links of the layers
    below it in [lower]; a mount puts them on top of each other. *)

From S2P Require Import Prelude FileSys GraphDriver OvlOpts OvlMount DriverBase.

(** ** [randomid.go] *)

Module Base32.
Definition alphabet : string := "ABCDEFGHIJKLMNOPQRSTUVWXYZ234567".
Definition digit (n : nat) : ascii := default "A"%char (String.get n alphabet).
(** The bits of a byte, the highest one first. *)
Definition bits (c : ascii) : list bool :=
  let n := N_of_ascii c in N.testbit_nat n <$> [7; 6; 5; 4; 3; 2; 1; 0].
Definition value (bs : list bool) : nat := foldl (λ n (b : bool), 2 * n + if b then 1 else 0) 0 bs.
(** Five bits a character, the last ones padded. *)
Fixpoint chars (fuel : nat) (bs : list bool) : string :=
  match fuel, bs with
  | S fuel, _ :: _ => String (digit (value (take 5 (bs ++ replicate 4 false)))) (chars fuel (drop 5 bs))
  | _, _ => EmptyString
  end.
Fixpoint repeat_char (n : nat) (c : ascii) : string :=
  match n with 0 => EmptyString | S n => String c (repeat_char n c) end.
(** [base32.StdEncoding.EncodeToString]. *)
Definition EncodeToString (src : list ascii) : string :=
  let bs := concat (bits <$> src) in
  let s := chars (length bs) bs in
  s +:+ repeat_char ((8 - String.length s mod 8) mod 8) "="%char.
End Base32.

(** ** The state of the driver *)

Record minfo := mkMinfo { check : bool; count : Z }.

(** The host, the counts of the mounts, and the source of random bytes: the
    bytes, how the reads from it end, and how far it has been read. *)
Record OV := mkOV {
  ov_host : Host;
  ov_counts : gmap path minfo;
  ov_bytes : nat → ascii;
  ov_reads : nat → option (nat * bool);
  ov_nbytes : nat;
  ov_nreads : nat;
}.
Definition ov_set_counts c s := mkOV (ov_host s) c (ov_bytes s) (ov_reads s) (ov_nbytes s) (ov_nreads s).
Definition ov_read n s := mkOV (ov_host s) (ov_counts s) (ov_bytes s) (ov_reads s) (n + ov_nbytes s) (S (ov_nreads s)).
Definition onHost {A} (m : M Host A) : M OV A :=
  zoom ov_host (λ h s, mkOV h (ov_counts s) (ov_bytes s) (ov_reads s) (ov_nbytes s) (ov_nreads s)) m.
Definition onDisk {A} (m : M FS A) : M OV A := onHost (onTree m).

(** [io.ReadFull] of [n] bytes: all of them, or fewer and an error, of which
    [true] says that it may go away. *)
Definition ReadFull (n : nat) : M OV (list ascii * option bool) := λ s,
  let got := match ov_reads s (ov_nreads s) with None => n | Some (m, _) => min m n end in
  (Ok ((λ i, ov_bytes s (ov_nbytes s + i)) <$> seq 0 got, snd <$> ov_reads s (ov_nreads s)), ov_read got s).

Definition maxretries : nat := 9.
(** [generateID]: [more] retries are left; [u] is what has been read. *)
Fixpoint read_random (more size : nat) (u : list ascii) : M OV (list ascii) :=
  '(b, err) ← ReadFull (size - length u);
  match err with
  | None => mret (u ++ b)
  | Some retry =>
      match more with
      | S more => if (retry : bool) then read_random more size (u ++ b) else panic "error reading random number generator"
      | 0 => panic "error reading random number generator"
      end
  end.
Definition generateID (l : nat) : M OV string :=
  u ← read_random maxretries ((l * 5 + 7) / 8) [];
  mret (GoString.take l (Base32.EncodeToString u)).

(** ** [counter.go] *)

(** [incdec], with the check of the first use. *)
Definition incdec (p : path) (infoOp : Z → Z) : M OV Z :=
  s ← get;
  let m := default (mkMinfo false 0) (ov_counts s !! p) in
  n ← (if check m then mret (count m)
       else mounted ← onHost (Mounted p); mret (if (mounted : bool) then count m + 1 else count m)%Z);
  let n := infoOp n in
  _ ← modify (λ s, ov_set_counts
        (if (n <=? 0)%Z then delete p (ov_counts s) else <[p := mkMinfo true n]> (ov_counts s)) s);
  mret n.
Definition Increment (p : path) : M OV Z := incdec p Z.succ.
Definition Decrement (p : path) : M OV Z := incdec p Z.pred.

Definition linkDir : string := "l".
Definition lowerFile : string := "lower".
Definition maxDepth : nat := 128.
Definition idLength : nat := 26.

(** [label.FormatMountLabel]; [quoted] is the verb q of [fmt.Sprintf]. *)
Definition FormatMountLabel (quoted : string → string) (src mountLabel : string) : string :=
  if String.eqb mountLabel EmptyString then src
  else if String.eqb src EmptyString then "context=" +:+ quoted mountLabel
  else src +:+ ",context=" +:+ quoted mountLabel.

Section Driver.
(** The kernel. *)
Context (kp : ovl_params) (bk : backing) (verify_origin verify_index : path → path → M MS ()).
(** The fields of [Driver], and whether the backing file system has quotas. *)
Context (home : path) (uidMaps gidMaps : option (list Idtools.IDMap)) (quota_Size : Z) (projectQuotaSupported : bool).
(** Setting a quota, the sizes of [units.RAMInBytes], the order in which a map
    is ranged over, and quoting. *)
Context (SetQuota : path → Z → M FS ()) (RAMInBytes : string → error + Z)
        (range : gmap string string → list (string * string)) (quoted : string → string).

Definition dir (id : string) : path := GoPath.Join home id.
Definition file (id name : string) : path := GoPath.Join (dir id) name.

(** [parseStorageOpt]: the options in the order of the range. *)
Fixpoint storage_loop (opts : list (string * string)) (size : Z) : error + Z :=
  match opts with
  | [] => inr size
  | (key, val) :: opts =>
      let key := GoString.to_lower key in
      if String.eqb key "size" then
        match RAMInBytes val with inl e => inl e | inr size => storage_loop opts (size `mod` 2 ^ 64) end
      else inl (Errorf ("Unknown option " +:+ key))
  end.
Definition parseStorageOpt (storageOpt : gmap string string) : error + Z := storage_loop (range storageOpt) 0.

(** [getLower]. *)
Definition getLower (parent : string) : M OV string :=
  _ ← onDisk (OsLink.Lstat (dir parent));
  parentLink ← onDisk (Os.ReadFile (file parent "link"));
  r ← attempt (onDisk (Os.ReadFile (file parent lowerFile)));
  let lowers := (linkDir +:+ "/" +:+ parentLink) ::
                match r with inr parentLower => GoString.split colon parentLower | inl _ => [] end in
  if maxDepth <? length lowers then fail (Errorf "max depth exceeded")
  else mret (GoString.join ":" lowers).

(** The part of [create] that runs with the directory made. *)
Definition create_body (id parent : string) (opts : option CreateOpts) : M OV () :=
  _ ← match opts with
      | Some o =>
          if negb (bool_decide (co_StorageOpt o = ∅)) then
            size ← of_sum (parseStorageOpt (co_StorageOpt o));
            if (0 <? size)%Z then
              if projectQuotaSupported then onDisk (SetQuota (dir id) size)
              else panic "invalid memory address or nil pointer dereference"
            else mret tt
          else mret tt
      | None => mret tt
      end;
  _ ← onDisk (Idtools.MkdirAndChown (file id "diff"));
  lid ← generateID idLength;
  _ ← onDisk (OsLink.Symlink ("../" +:+ id +:+ "/diff") (GoPath.Join (GoPath.Join home linkDir) lid));
  _ ← onDisk (Os.WriteFile (file id "link") lid);
  if String.eqb parent EmptyString then mret tt
  else
    _ ← onDisk (Idtools.MkdirAndChown (file id "work"));
    lower ← getLower parent;
    if negb (String.eqb lower EmptyString) then onDisk (Os.WriteFile (file id lowerFile) lower) else mret tt.

(** [create]. *)
Definition create (id parent : string) (opts : option CreateOpts) : M OV () :=
  '(rootUID, rootGID) ← of_sum (Idtools.GetRootUIDGID uidMaps gidMaps);
  _ ← onDisk (Idtools.MkdirAllAndChown (parent_dir (dir id)));
  _ ← onDisk (Idtools.MkdirAndChown (dir id));
  defer_on_error (create_body id parent opts) (ignore_err (onDisk (Os.RemoveAll (dir id)))).

Definition storage_opts (opts : option CreateOpts) : gmap string string :=
  match opts with Some o => co_StorageOpt o | None => ∅ end.

(** [CreateReadWrite]. *)
Definition CreateReadWrite (id parent : string) (opts : option CreateOpts) : M OV () :=
  if negb (bool_decide (storage_opts opts = ∅)) && negb projectQuotaSupported then
    fail (Errorf "--storage-opt is supported only for overlay over xfs with 'pquota' mount option")
  else
    let label := match opts with Some o => co_MountLabel o | None => EmptyString end in
    let so := storage_opts opts in
    let so := match so !! "size" with Some _ => so | None => <["size" := GoString.format_int quota_Size]> so end in
    create id parent (Some {| co_MountLabel := label; co_StorageOpt := so |}).

(** [Create]. *)
Definition Create (id parent : string) (opts : option CreateOpts) : M OV () :=
  if bool_decide (is_Some (storage_opts opts !! "size"))
  then fail (Errorf "--storage-opt size is only supported for ReadWrite Layers")
  else create id parent opts.

(** [getLowerDirs]. *)
Fixpoint readlinks (ls : list string) : M OV (list path) :=
  match ls with
  | [] => mret []
  | s :: ls =>
      lp ← onDisk (OsLink.Readlink (GoPath.Join home s));
      ps ← readlinks ls;
      mret (GoPath.Join (GoPath.Join home linkDir) lp :: ps)
  end.
Definition getLowerDirs (id : string) : M OV (list path) :=
  r ← attempt (onDisk (Os.ReadFile (file id lowerFile)));
  match r with
  | inr lowers => readlinks (GoString.split colon lowers)
  | inl e => if Os.IsNotExist e then mret [] else fail e
  end.

(** [Remove]. *)
Definition Remove (id : string) : M OV () :=
  if String.eqb id EmptyString then fail (Errorf "refusing to remove the directories: id is empty")
  else
    r ← attempt (onDisk (Os.ReadFile (file id "link")));
    _ ← match r with
        | inr lid => if String.eqb lid EmptyString then mret tt
                     else ignore_err (onDisk (Os.RemoveAll (GoPath.Join (GoPath.Join home linkDir) lid)))
        | inl _ => mret tt
        end;
    r ← attempt (onHost (System.EnsureRemoveAll (dir id)));
    match r with
    | inl e => if Os.IsNotExist e then mret tt else fail e
    | inr _ => mret tt
    end.

Definition mount_opts (lowers upper work : string) : string :=
  "lowerdir=" +:+ lowers +:+ ",upperdir=" +:+ upper +:+ ",workdir=" +:+ work.

(** The data of the mount with absolute paths.  A label is appended as it is. *)
Definition abs_data (id lowers mountLabel : string) : string :=
  let absLowers := (λ s, GoPath.abs (GoPath.Join home s)) <$> GoString.split colon lowers in
  let opts := mount_opts (GoString.join ":" absLowers) (GoPath.abs (file id "diff")) (GoPath.abs (file id "work")) in
  if negb (String.eqb mountLabel EmptyString) then FormatMountLabel quoted (opts +:+ mountLabel) EmptyString
  else FormatMountLabel quoted opts mountLabel.
(** The data with paths relative to the home directory; the label is gone by then. *)
Definition rel_data (id lowers : string) : string :=
  FormatMountLabel quoted (mount_opts lowers (id +:+ "/diff") (id +:+ "/work")) EmptyString.

(** [mountFrom]: a process in the directory [from] mounts. *)
Definition mountFrom (from : path) (target data : string) : M OV () :=
  _ ← onDisk (syscall (λ t, if is_dir t from then (Ok tt, t) else (Err (OsError ENOENT), t)));
  onHost (sys_mount kp bk verify_origin verify_index from target data).

(** The end of [Get]: the mount, and the owner of the kernel's work directory. *)
Definition get_mount (id : string) (mount : M OV ()) : M OV path :=
  r ← attempt mount;
  match r with
  | inl e => fail (Wrap e "error creating overlay mount")
  | inr _ =>
      _ ← onDisk (OsLink.Chown (GoPath.Join (file id "work") "work"));
      mret (file id "merged")
  end.
(** The part of [Get] that runs with the count taken. *)
Definition get_body (id lowers mountLabel : string) : M OV path :=
  let mergedDir := file id "merged" in
  let mountData := abs_data id lowers mountLabel in
  '(rootUID, rootGID) ← of_sum (Idtools.GetRootUIDGID uidMaps gidMaps);
  _ ← onDisk (Idtools.MkdirAndChown mergedDir);
  if page_size <? String.length mountData then
    let mountData := rel_data id lowers in
    if page_size <? String.length mountData then fail (Errorf "cannot mount layer, mount label too large")
    else get_mount id (mountFrom home (id +:+ "/merged") mountData)
  else get_mount id (onHost (sys_mount kp bk verify_origin verify_index [] (GoPath.abs mergedDir) mountData)).
(** Its deferred function. *)
Definition get_undo (id : string) : M OV () :=
  let mergedDir := file id "merged" in
  c ← Decrement mergedDir;
  if (c <=? 0)%Z then
    _ ← ignore_err (onHost (sys_unmount mergedDir));
    ignore_err (onHost (sys_rmdir mergedDir))
  else mret tt.

(** [Get]. *)
Definition Get (id mountLabel : string) : M OV path :=
  _ ← onDisk (Os.Stat (dir id));
  r ← attempt (onDisk (Os.ReadFile (file id lowerFile)));
  match r with
  | inl e => if Os.IsNotExist e then mret (file id "diff") else fail e
  | inr lowers =>
      c ← Increment (file id "merged");
      if (1 <? c)%Z then mret (file id "merged")
      else defer_on_error (get_body id lowers mountLabel) (get_undo id)
  end.

(** [Put]. *)
Definition Put (id : string) : M OV () :=
  r ← attempt (onDisk (Os.ReadFile (file id lowerFile)));
  match r with
  | inl e => if Os.IsNotExist e then mret tt else fail e
  | inr _ =>
      c ← Decrement (file id "merged");
      if (0 <? c)%Z then mret tt
      else
        _ ← ignore_err (onHost (sys_unmount (file id "merged")));
        ignore_err (onHost (sys_rmdir (file id "merged")))
  end.

(** [Exists]. *)
Definition Exists (id : string) : M OV bool :=
  r ← attempt (onDisk (Os.Stat (dir id)));
  mret (match r with inl _ => false | inr _ => true end).

(** [GetMetadata]. *)
Definition GetMetadata (id : string) : M OV (gmap string string) :=
  _ ← onDisk (Os.Stat (dir id));
  let metadata : gmap string string :=
    {[ "WorkDir" := GoPath.abs (file id "work"); "MergedDir" := GoPath.abs (file id "merged");
       "UpperDir" := GoPath.abs (file id "diff") ]} in
  lowerDirs ← getLowerDirs id;
  mret (match lowerDirs with
        | [] => metadata
        | _ => <["LowerDir" := GoString.join ":" (GoPath.abs <$> lowerDirs)]> metadata
        end).

(** [isParent]. *)
Definition isParent (id parent : string) : M OV bool :=
  r ← attempt (getLowerDirs id);
  mret (match r with
        | inl _ => false
        | inr lowers =>
            if String.eqb parent EmptyString && negb (bool_decide (lowers = [])) then false
            else
              match lowers with
              | [] => String.eqb parent EmptyString
              | l :: _ => bool_decide (parent_dir l = dir parent)
              end
        end).

(** [Cleanup]. *)
Definition Cleanup : M OV () := onHost (Mount.RecursiveUnmount home).
End Driver.
