(* ===== verification/Overlay2Props.v ===== *)
(** * The layers of overlay2

    How the driver keeps the line of ancestors of every layer in its files, and
    that what the kernel mounts is that line. *)

From S2P Require Import Prelude FileSys GraphDriver OvlOpts OvlMount OvlOptProps OvlMountProps DriverBase Overlay2.

(** ** Names *)

Lemma clean_name acc s l : name_ok s → GoPath.clean acc (s :: l) = GoPath.clean (acc ++ [s]) l.
Proof.
  intros Hs. destruct (name_not_dots s Hs). destruct Hs as [Hne _]. cbn [GoPath.clean].
  by repeat match goal with |- context [String.eqb s ?x] => rewrite (proj2 (String.eqb_neq s x)) by done end.
Qed.
Lemma Join_name p s : name_ok s → GoPath.Join p s = p ++ [s].
Proof.
  intros Hs. unfold GoPath.Join. rewrite split_avoids by by apply name_avoids. by rewrite clean_name.
Qed.

(** ** The links *)

Lemma digit_ok n : id_char (Base32.digit n) = true.
Proof. unfold Base32.digit, Base32.alphabet. do 32 (destruct n as [|n]; [done|]). done. Qed.
Lemma chars_ok fuel bs :
  length bs ≤ fuel →
  GoString.all_chars id_char (Base32.chars fuel bs) = true ∧ length bs ≤ 5 * String.length (Base32.chars fuel bs).
Proof.
  revert bs. induction fuel as [|fuel IH]; intros bs Hf; [destruct bs; simpl in *; [done|lia]|].
  destruct bs as [|b bs]; [done|]. cbn [Base32.chars].
  destruct (IH (drop 5 (b :: bs))) as [Ha Hl]; [rewrite length_drop; simpl in *; lia|].
  cbn [GoString.all_chars String.length]. rewrite digit_ok, Ha. split; [done|].
  rewrite length_drop in Hl. lia.
Qed.
Lemma take_app_fit n s t : n ≤ String.length s → GoString.take n (s +:+ t) = GoString.take n s.
Proof.
  revert n. induction s as [|c s IH]; intros [|n] Hn; simpl in *; try done; [lia|]. f_equal. apply IH. lia.
Qed.
Lemma all_chars_take p n s : GoString.all_chars p s = true → GoString.all_chars p (GoString.take n s) = true.
Proof.
  revert n. induction s as [|c s IH]; intros [|n]; simpl; try done. intros [Hc Hs]%andb_prop. by rewrite Hc, IH.
Qed.
Lemma encode_ok (u : list ascii) l :
  (l * 5 + 7) / 8 ≤ length u →
  String.length (GoString.take l (Base32.EncodeToString u)) = l ∧
  GoString.all_chars id_char (GoString.take l (Base32.EncodeToString u)) = true.
Proof.
  intros Hu. unfold Base32.EncodeToString. set (bs := concat (Base32.bits <$> u)).
  assert (length bs = 8 * length u) as Hbs.
  { unfold bs. clear. induction u as [|c u IH]; [done|]. rewrite fmap_cons. cbn [concat].
    rewrite length_app, IH. change (length (Base32.bits c)) with 8. cbn [length]. lia. }
  destruct (chars_ok (length bs) bs (le_n _)) as [Ha Hl].
  assert (l ≤ String.length (Base32.chars (length bs) bs)) as Hle.
  { pose proof (Nat.div_mod_eq (l * 5 + 7) 8). pose proof (Nat.mod_upper_bound (l * 5 + 7) 8). lia. }
  rewrite take_app_fit by done. split; [rewrite str_take_length; lia|by apply all_chars_take].
Qed.

Lemma read_random_ok more size u s b s' :
  read_random more size u s = (Ok b, s') → length u ≤ size → length b = size ∧ ov_host s' = ov_host s ∧ ov_counts s' = ov_counts s.
Proof.
  revert u s. induction more as [|more IH]; intros u s; cbn [read_random]; unfold mbind, M_bind, ReadFull;
    destruct (ov_reads s (ov_nreads s)) as [[m retry]|]; simpl; try done.
  - intros [= <- <-] Hu. rewrite length_app, length_fmap, length_seq. split; [lia|done].
  - destruct retry; [|done]. intros Hr Hu. apply IH in Hr; [done|]. rewrite length_app, length_fmap, length_seq. lia.
  - intros [= <- <-] Hu. rewrite length_app, length_fmap, length_seq. split; [lia|done].
Qed.

(** The identifiers of links have the length asked for and only letters and
    digits; drawing one changes nothing else. *)
Lemma generateID_ok l s x s' :
  generateID l s = (Ok x, s') →
  String.length x = l ∧ GoString.all_chars id_char x = true ∧ ov_host s' = ov_host s ∧ ov_counts s' = ov_counts s.
Proof.
  unfold generateID, mbind, M_bind. destruct (read_random _ _ _ s) as [[u|e|m] s1] eqn:Hr; [|done|done].
  apply read_random_ok in Hr as (Hlen&Hh&Hc); [|simpl; lia]. intros [= <- <-].
  destruct (encode_ok u l ltac:(lia)). done.
Qed.
Lemma generateID_run l s : (∀ i, ov_reads s i = None) → ∃ x n, generateID l s = (Ok x, ov_read n s).
Proof.
  intros Hr. unfold generateID, mbind, M_bind.
  assert (∀ more, ∃ u n, read_random more ((l * 5 + 7) / 8) [] s = (Ok u, ov_read n s)) as Hread.
  { intros more. destruct more; cbn [read_random]; unfold mbind, M_bind, ReadFull; rewrite Hr; by eexists _, _. }
  destruct (Hread maxretries) as (u&n&->). by eexists _, n.
Qed.

(** The entries of a name below the home directory. *)
Section Home.
Context (home : path).

Lemma dir_name id : name_ok id → dir home id = home ++ [id].
Proof. apply Join_name. Qed.
Lemma file_name id f : name_ok id → name_ok f → file home id f = home ++ [id; f].
Proof. intros Hid Hf. unfold file. rewrite dir_name, Join_name by done. by rewrite <-app_assoc. Qed.

(** The string of a link in a [lower] file. *)
Definition link_ref (lid : string) : string := "l/" +:+ lid.
Lemma split_link_ref lid : name_ok lid → GoString.split slash (link_ref lid) = ["l"; lid].
Proof.
  intros Hl. unfold link_ref. change ("l/" +:+ lid) with ("l" +:+ String slash lid). rewrite split_app_sep by done.
  by rewrite split_avoids by by apply name_avoids.
Qed.
Lemma Join_link_ref lid : name_ok lid → GoPath.Join home (link_ref lid) = home ++ ["l"; lid].
Proof.
  intros Hl. unfold GoPath.Join. rewrite split_link_ref, !clean_name by done. simpl. by rewrite <-app_assoc.
Qed.
Lemma link_ref_avoids lid : name_ok lid → avoids colon (link_ref lid).
Proof.
  intros Hl. pose proof (name_avoids colon lid Hl eq_refl) as Ha. unfold avoids, link_ref in *.
  change ("l/" +:+ lid) with (String "l" (String slash lid)). simpl. by rewrite Ha.
Qed.

(** The target of the link of a layer. *)
Definition link_target (id : string) : string := "../" +:+ id +:+ "/diff".
Lemma split_link_target id : name_ok id → GoString.split slash (link_target id) = [".."; id; "diff"].
Proof.
  intros Hid. unfold link_target. change ("../" +:+ id +:+ "/diff") with (".." +:+ String slash (id +:+ String slash "diff")).
  rewrite !split_app_sep; [done|by apply name_avoids|done].
Qed.
Lemma Join_link_target id : name_ok id → GoPath.Join (GoPath.Join home linkDir) (link_target id) = home ++ [id; "diff"].
Proof.
  intros Hid. rewrite (Join_name home) by done. unfold GoPath.Join. rewrite split_link_target by done.
  change (GoPath.clean (home ++ [linkDir]) [".."; id; "diff"]) with
    (GoPath.clean (parent_dir (home ++ [linkDir])) [id; "diff"]). rewrite parent_dir_snoc, !clean_name by done. simpl.
  by rewrite <-app_assoc.
Qed.

(** ** The line of a layer *)

(** What the driver stores: for each layer its link and the layers below it, the
    next one first. *)
Record layer_rec := mkLayer { ly_link : string; ly_line : list string }.
Implicit Types (L : gmap string layer_rec) (t : gmap path node).

Definition link_of L (id : string) : string := default EmptyString (ly_link <$> L !! id).
(** The contents of the [lower] file of a line. *)
Definition lower_of L (line : list string) : string := GoString.join ":" ((λ a, link_ref (link_of L a)) <$> line).

(** The files of one layer. *)
Record stored L (t : gmap path node) (id : string) (r : layer_rec) : Prop := {
  st_name : name_ok id;
  st_link_name : name_ok (ly_link r);
  st_dir : t !! (home ++ [id]) = Some Dir;
  st_diff : t !! (home ++ [id; "diff"]) = Some Dir;
  st_link : t !! (home ++ [id; "link"]) = Some (File (ly_link r));
  st_target : t !! (home ++ ["l"; ly_link r]) = Some (Symlink (link_target id));
  st_lower : t !! (home ++ [id; "lower"]) = match ly_line r with [] => None | line => Some (File (lower_of L line)) end;
  st_work : ly_line r ≠ [] → t !! (home ++ [id; "work"]) = Some Dir;
  st_line : match ly_line r with [] => True | p :: rest => ∃ lp, L !! p = Some (mkLayer lp rest) end;
  st_depth : length (ly_line r) ≤ maxDepth;
  st_link_len : String.length (ly_link r) = idLength;
}.

(** The tree holds the layers: the home directory and the directory of the links
    are there, and the files of every layer. *)
Record rep L (t : gmap path node) : Prop := {
  rp_home : ∀ n, is_dir t (take n home) = true;
  rp_links : t !! (home ++ ["l"]) = Some Dir;
  rp_layer : ∀ id r, L !! id = Some r → id ≠ "l" ∧ stored L t id r;
}.

Lemma rep_line L t id r a : rep L t → L !! id = Some r → a ∈ ly_line r → is_Some (L !! a).
Proof.
  intros Hrep. remember (length (ly_line r)) as n eqn:Hn. revert id r Hn. induction n as [|n IH]; intros id r Hn Hid Ha.
  - destruct (ly_line r); [by apply not_elem_of_nil in Ha|done].
  - destruct (rp_layer _ _ Hrep _ _ Hid) as [_ Hs]. pose proof (st_line _ _ _ _ Hs) as Hl.
    destruct (ly_line r) as [|p rest]; [done|]. destruct Hl as [lp Hp].
    apply elem_of_cons in Ha as [->|Ha]; [by eexists|]. simpl in Hn.
    apply (IH p (mkLayer lp rest)); [simpl; lia|done|done].
Qed.
End Home.

(** ** Running the driver while nothing fails *)

Definition tree (s : OV) : gmap path node := nodes (ho_fs (ov_host s)).
Definition calm (s : OV) : Prop := faults (ho_fs (ov_host s)) = [].
Definition set_tree (t : gmap path node) (s : OV) : OV :=
  mkOV (mkHost (mkFS t []) (ho_mounts (ov_host s)) (ho_inuse (ov_host s))) (ov_counts s) (ov_bytes s) (ov_reads s)
    (ov_nbytes s) (ov_nreads s).

Lemma set_tree_calm t s : calm (set_tree t s).
Proof. done. Qed.
Lemma set_tree_id s : calm s → set_tree (tree s) s = s.
Proof. destruct s as [[[n f] m i] c b r nb nr]. unfold calm. simpl. by intros ->. Qed.

Lemma onDisk_run {A} (m : M FS A) s r t' :
  calm s → m (mkFS (tree s) []) = (r, mkFS t' []) → onDisk m s = (r, set_tree t' s).
Proof.
  destruct s as [[[n f] mn i] c b rd nb nr]. unfold calm, tree, onDisk, onHost, onTree, zoom. simpl. intros ->. by intros ->.
Qed.
Lemma onDisk_step {A} (m : M FS A) s t r t' :
  m (mkFS t []) = (r, mkFS t' []) → onDisk m (set_tree t s) = (r, set_tree t' s).
Proof. intros Hm. exact (onDisk_run m (set_tree t s) r t' eq_refl Hm). Qed.
Lemma onDisk_step_read {A} (m : M FS A) s n t r t' :
  m (mkFS t []) = (r, mkFS t' []) → onDisk m (ov_read n (set_tree t s)) = (r, ov_read n (set_tree t' s)).
Proof. intros Hm. exact (onDisk_run m (ov_read n (set_tree t s)) r t' eq_refl Hm). Qed.
(** An operation that only reads. *)
Lemma onDisk_read {A} (m : M FS A) s r :
  calm s → m (mkFS (tree s) []) = (r, mkFS (tree s) []) → onDisk m s = (r, s).
Proof. intros Hc Hm. rewrite (onDisk_run _ _ _ _ Hc Hm). by rewrite set_tree_id. Qed.

Section FsRuns.
Implicit Types (t : gmap path node) (p : path).
Lemma Stat_run t p n : node_at t p = Some n → Os.Stat p (mkFS t []) = (Ok n, mkFS t []).
Proof. intros Hn. unfold Os.Stat, syscall. simpl. by rewrite Hn. Qed.
Lemma Stat_none t p : p ≠ [] → t !! p = None → Os.Stat p (mkFS t []) = (Err (OsError ENOENT), mkFS t []).
Proof. intros Hp Hn. unfold Os.Stat, syscall. simpl. by rewrite node_at_ne, Hn. Qed.
Lemma ReadFile_run t p d : p ≠ [] → t !! p = Some (File d) → Os.ReadFile p (mkFS t []) = (Ok d, mkFS t []).
Proof. intros Hp Hn. unfold Os.ReadFile, syscall. simpl. by rewrite node_at_ne, Hn. Qed.
Lemma ReadFile_none t p : p ≠ [] → t !! p = None → Os.ReadFile p (mkFS t []) = (Err (OsError ENOENT), mkFS t []).
Proof. intros Hp Hn. unfold Os.ReadFile, syscall. simpl. by rewrite node_at_ne, Hn. Qed.
Lemma Readlink_run t p d : p ≠ [] → t !! p = Some (Symlink d) → OsLink.Readlink p (mkFS t []) = (Ok d, mkFS t []).
Proof. intros Hp Hn. unfold OsLink.Readlink, syscall. simpl. by rewrite node_at_ne, Hn. Qed.
Lemma Chown_run t p n : node_at t p = Some n → OsLink.Chown p (mkFS t []) = (Ok tt, mkFS t []).
Proof. intros Hn. unfold OsLink.Chown, syscall. simpl. by rewrite Hn. Qed.
Lemma Symlink_run t p d :
  p ≠ [] → t !! p = None → is_dir t (parent_dir p) = true →
  OsLink.Symlink d p (mkFS t []) = (Ok tt, mkFS (<[p := Symlink d]> t) []).
Proof. intros Hp Hn Hd. unfold OsLink.Symlink, syscall. simpl. by rewrite node_at_ne, Hn, Hd. Qed.
Lemma WriteFile_run t p d :
  p ≠ [] → is_dir t p = false → is_dir t (parent_dir p) = true →
  Os.WriteFile p d (mkFS t []) = (Ok tt, mkFS (<[p := File d]> t) []).
Proof.
  intros Hp Hn Hd. unfold Os.WriteFile, Os.OpenTrunc, syscall, mbind, M_bind. simpl. rewrite Hn, Hd. simpl.
  rewrite lookup_insert_eq, Nat.ltb_irrefl. unfold attempt, Os.Close, syscall. simpl. by rewrite insert_insert_eq.
Qed.
Lemma MkdirAndChown_run t p :
  p ≠ [] → t !! p = None → is_dir t (parent_dir p) = true →
  Idtools.MkdirAndChown p (mkFS t []) = (Ok tt, mkFS (<[p := Dir]> t) []).
Proof.
  intros Hp Hn Hd. unfold Idtools.MkdirAndChown, Idtools.mkdirAs.
  rewrite (bind_ok _ _ _ _ _ (attempt_err _ _ _ _ (Stat_none t p Hp Hn))). cbn [Os.IsNotExist].
  assert (Os.Mkdir p (mkFS t []) = (Ok tt, mkFS (<[p := Dir]> t) [])) as Hmk.
  { unfold Os.Mkdir, syscall. simpl. by rewrite node_at_ne, Hn, Hd. }
  assert (node_at (<[p := Dir]> t) p = Some Dir) as Hp' by by rewrite node_at_ne, lookup_insert_eq.
  unfold Os.IsNotExist. rewrite bool_decide_eq_true_2 by done.
  erewrite bind_ok; [|by rewrite (bind_ok _ _ _ _ _ (attempt_ok _ _ _ _ Hmk))]. cbn [for_each].
  erewrite bind_ok; [done|]. unfold Idtools.lazyChown.
  erewrite bind_ok; [|by rewrite (bind_ok _ _ _ _ _ (Stat_run _ _ _ Hp'))]. by apply (Chown_run _ _ Dir).
Qed.
Lemma MkdirChown_exists t p all :
  node_at t p = Some Dir → Idtools.mkdirAs p all true (mkFS t []) = (Ok tt, mkFS t []).
Proof.
  intros Hp. unfold Idtools.mkdirAs. rewrite (bind_ok _ _ _ _ _ (attempt_ok _ _ _ _ (Stat_run _ _ _ Hp))).
  unfold Idtools.lazyChown. rewrite (bind_ok _ _ _ tt (mkFS t [])) by done. by apply (Chown_run _ _ Dir).
Qed.
Lemma RemoveAll_run t p :
  Os.RemoveAll p (mkFS t []) = (Ok tt, mkFS (filter (λ kv, Os.below p kv.1 = false) t) []).
Proof. done. Qed.
End FsRuns.

Section Layers.
Context (home : path).
Implicit Types (L : gmap string layer_rec) (t : gmap path node).

Lemma home_ne (x : string) (l : path) : home ++ x :: l ≠ [].
Proof. by destruct home. Qed.

Lemma links_of_line L t line :
  rep home L t → (∀ a, a ∈ line → is_Some (L !! a)) → Forall name_ok (link_of L <$> line).
Proof.
  intros Hrep Hl. apply Forall_fmap, Forall_forall. intros a Ha. destruct (Hl a Ha) as [r Hr].
  destruct (rp_layer _ _ _ Hrep _ _ Hr) as [_ Hs]. unfold link_of. simpl. rewrite Hr. apply (st_link_name _ _ _ _ _ Hs).
Qed.
(** Splitting a [lower] file gives the links back. *)
Lemma split_lower L t line :
  rep home L t → (∀ a, a ∈ line → is_Some (L !! a)) → line ≠ [] →
  GoString.split colon (lower_of L line) = (λ a, link_ref (link_of L a)) <$> line.
Proof.
  intros Hrep Hl Hne. unfold lower_of. apply split_join; [by destruct line|].
  pose proof (links_of_line L t line Hrep Hl) as Hlinks. rewrite !Forall_fmap in *.
  eapply Forall_impl; [exact Hlinks|]. intros a. apply link_ref_avoids.
Qed.

Lemma readlinks_run L s line :
  rep home L (tree s) → calm s → (∀ a, a ∈ line → is_Some (L !! a)) →
  readlinks home ((λ a, link_ref (link_of L a)) <$> line) s = (Ok ((λ a, home ++ [a; "diff"]) <$> line), s).
Proof.
  intros Hrep Hc. induction line as [|a line IH]; intros Hl; [done|]. rewrite !fmap_cons. cbn [readlinks].
  destruct (Hl a ltac:(by left)) as [r Hr]. destruct (rp_layer _ _ _ Hrep _ _ Hr) as [_ Hs].
  assert (link_of L a = ly_link r) as Hlk by (unfold link_of; by rewrite Hr). rewrite Hlk.
  rewrite Join_link_ref by apply (st_link_name _ _ _ _ _ Hs).
  rewrite (bind_ok _ _ _ _ _ (onDisk_read _ _ _ Hc (Readlink_run _ _ _ (home_ne _ _) (st_target _ _ _ _ _ Hs)))).
  rewrite (bind_ok _ _ _ _ _ (IH ltac:(intros b Hb; apply Hl; by right))).
  by rewrite Join_link_target by apply (st_name _ _ _ _ _ Hs).
Qed.

(** Reading the lower directories of a layer gives the directories of its line. *)
Lemma getLowerDirs_run L s id r :
  rep home L (tree s) → calm s → L !! id = Some r →
  getLowerDirs home id s = (Ok ((λ a, home ++ [a; "diff"]) <$> ly_line r), s).
Proof.
  intros Hrep Hc Hid. destruct (rp_layer _ _ _ Hrep _ _ Hid) as [_ Hs]. unfold getLowerDirs.
  rewrite (file_name home id lowerFile) by (by try apply (st_name _ _ _ _ _ Hs)). change lowerFile with "lower".
  pose proof (st_lower _ _ _ _ _ Hs) as Hlow.
  destruct (ly_line r) as [|p rest] eqn:Hline.
  - rewrite (bind_ok _ _ _ _ _ (attempt_err _ _ _ _ (onDisk_read _ _ _ Hc (ReadFile_none _ _ (home_ne _ _) Hlow)))).
    done.
  - rewrite (bind_ok _ _ _ _ _ (attempt_ok _ _ _ _ (onDisk_read _ _ _ Hc (ReadFile_run _ _ _ (home_ne _ _) Hlow)))).
    assert (∀ a, a ∈ p :: rest → is_Some (L !! a)) as Hl.
    { intros a Ha. eapply rep_line; [done|done|]. by rewrite Hline. }
    rewrite (split_lower L (tree s)) by done. by apply readlinks_run.
Qed.

(** [getLower] is the line of a child. *)
Lemma getLower_run L s id r :
  rep home L (tree s) → calm s → L !! id = Some r →
  getLower home id s =
    if maxDepth <=? length (ly_line r) then (Err (Errorf "max depth exceeded"), s)
    else (Ok (lower_of L (id :: ly_line r)), s).
Proof.
  intros Hrep Hc Hid. destruct (rp_layer _ _ _ Hrep _ _ Hid) as [_ Hs]. unfold getLower.
  rewrite (dir_name home id), !(file_name home id) by (by try apply (st_name _ _ _ _ _ Hs)).
  assert (node_at (tree s) (home ++ [id]) = Some Dir) as Hd by (rewrite node_at_ne by apply home_ne; apply (st_dir _ _ _ _ _ Hs)).
  rewrite (bind_ok _ _ _ _ _ (onDisk_read _ _ _ Hc (Stat_run _ _ _ Hd))).
  rewrite (bind_ok _ _ _ _ _ (onDisk_read _ _ _ Hc (ReadFile_run _ _ _ (home_ne _ _) (st_link _ _ _ _ _ Hs)))).
  change lowerFile with "lower". pose proof (st_lower _ _ _ _ _ Hs) as Hlow.
  assert (linkDir +:+ "/" +:+ ly_link r = link_ref (link_of L id)) as Hlink by (unfold link_of; by rewrite Hid).
  destruct (ly_line r) as [|p rest] eqn:Hline.
  - rewrite (bind_ok _ _ _ _ _ (attempt_err _ _ _ _ (onDisk_read _ _ _ Hc (ReadFile_none _ _ (home_ne _ _) Hlow)))).
    by rewrite Hlink.
  - rewrite (bind_ok _ _ _ _ _ (attempt_ok _ _ _ _ (onDisk_read _ _ _ Hc (ReadFile_run _ _ _ (home_ne _ _) Hlow)))).
    assert (∀ a, a ∈ p :: rest → is_Some (L !! a)) as Hl.
    { intros a Ha. eapply rep_line; [done|done|]. by rewrite Hline. }
    rewrite (split_lower L (tree s)) by done. rewrite Hlink. cbn [length]. rewrite length_fmap.
    replace (maxDepth <? S (length (p :: rest))) with (maxDepth <=? length (p :: rest)) by done.
    by destruct (maxDepth <=? _).
Qed.

(** ** What one layer's directory does to the others *)

(** [t'] is [t] but for what is below the directory of [id], and for new links. *)
Record spares (id : string) (t t' : gmap path node) : Prop := {
  sp_kept : ∀ q n, t !! q = Some n → ¬ (home ++ [id]) `prefix_of` q → t' !! q = Some n;
  sp_new : ∀ q, t !! q = None → ¬ (home ++ [id]) `prefix_of` q → (∀ x, q ≠ home ++ ["l"; x]) → t' !! q = None;
}.

Lemma spares_refl id t : spares id t t.
Proof. by split. Qed.
Lemma spares_trans id t1 t2 t3 : spares id t1 t2 → spares id t2 t3 → spares id t1 t3.
Proof. intros [K1 N1] [K2 N2]. split; auto. Qed.
Lemma spares_insert id t q n :
  (home ++ [id]) `prefix_of` q ∨ (t !! q = None ∧ ∃ x, q = home ++ ["l"; x]) → spares id t (<[q := n]> t).
Proof.
  intros Hq. split.
  - intros r m Hr Hp. rewrite lookup_insert_ne; [done|]. intros ->. destruct Hq as [?|[? _]]; [done|congruence].
  - intros r Hr Hp Hl. rewrite lookup_insert_ne; [done|]. intros ->. destruct Hq as [?|[_ [x ->]]]; [done|by apply (Hl x)].
Qed.
Lemma spares_remove id t : spares id t (filter (λ kv, Os.below (home ++ [id]) kv.1 = false) t).
Proof.
  split.
  - intros q n Hq Hp. apply map_lookup_filter_Some. split; [done|]. by apply not_below_spec.
  - intros q Hq _ _. apply map_lookup_filter_None. by left.
Qed.

Lemma prefix_home (a b : string) (l : path) : (home ++ [a]) `prefix_of` (home ++ b :: l) ↔ a = b.
Proof.
  split.
  - intros [k Hk]. rewrite <-app_assoc in Hk. by apply app_inv_head in Hk as [= ->].
  - intros ->. exists l. by rewrite <-app_assoc.
Qed.
Lemma take_home_prefix a n : ¬ (home ++ [a]) `prefix_of` take n home.
Proof. intros Hp%prefix_length. rewrite length_app, length_take in Hp. simpl in Hp. lia. Qed.

(** The layers stay as they are while another one comes and goes. *)
Lemma rep_spares L id t t' : rep home L t → L !! id = None → id ≠ "l" → spares id t t' → rep home L t'.
Proof.
  intros [Hh Hl Hlay] Hid Hne [Hk Hn].
  assert (∀ a l n, t !! (home ++ a :: l) = Some n → id ≠ a → t' !! (home ++ a :: l) = Some n) as Hk'.
  { intros a l n Ha Hia. apply Hk; [done|]. by rewrite prefix_home. }
  split.
  - intros n. specialize (Hh n). unfold is_dir in *. destruct (take n home) as [|c p] eqn:Ht; [done|]. simpl in *.
    destruct (t !! (c :: p)) as [m|] eqn:Hm; [|done]. rewrite (Hk _ _ Hm); [done|]. rewrite <-Ht. apply take_home_prefix.
  - by apply Hk'.
  - intros a r Ha. destruct (Hlay a r Ha) as [Hal [? ? ? ? ? ? Hlow Hw ? ? ?]]. split; [done|].
    assert (id ≠ a) by (intros ->; congruence). split; auto.
    destruct (ly_line r); [|by apply Hk']. apply Hn; [done|by rewrite prefix_home|].
    intros x Hx. by apply app_inv_head in Hx as [= -> _].
Qed.

(** Adding a layer whose files are there. *)
Lemma rep_insert L t id r :
  rep home L t → L !! id = None → id ≠ "l" → stored home (<[id := r]> L) t id r → rep home (<[id := r]> L) t.
Proof.
  intros Hrep Hid Hne Hst. pose proof Hrep as [Hh Hl Hlay]. split; [done|done|]. intros a r' Ha.
  destruct (decide (id = a)) as [<-|Hia]; [rewrite lookup_insert_eq in Ha; by simplify_eq|].
  rewrite lookup_insert_ne in Ha by done. destruct (Hlay a r' Ha) as [Hal [? ? ? ? ? ? Hlow Hw Hline ? ?]]. split; [done|].
  split; try done.
  - rewrite Hlow. destruct (ly_line r') as [|p rest] eqn:Hr'; [done|]. unfold lower_of. do 3 f_equal.
    apply list_fmap_ext. intros i b Hb. unfold link_of. destruct (decide (id = b)) as [<-|Hib]; [|by rewrite lookup_insert_ne].
    destruct (rep_line home L t a r' id Hrep Ha) as [? ?]; [rewrite Hr'; by eapply list_elem_of_lookup_2|congruence].
  - destruct (ly_line r') as [|p rest]; [done|]. destruct Hline as [lp Hp]. exists lp.
    rewrite lookup_insert_ne; [done|]. intros ->. congruence.
Qed.
End Layers.

(** ** Creating a layer *)

(** The link the next layer gets. *)
Definition next_link (s : OV) : string := match generateID idLength s with (Ok x, _) => x | _ => EmptyString end.
(** The source of random bytes works. *)
Definition random_ok (s : OV) : Prop := ∀ i, ov_reads s i = None.

Lemma next_link_run s t :
  random_ok s → ∃ n, generateID idLength (set_tree t s) = (Ok (next_link s), ov_read n (set_tree t s)).
Proof.
  intros Hr. unfold next_link. destruct (generateID_run idLength (set_tree t s) Hr) as (x&n&Hx).
  exists n. rewrite Hx. f_equal. f_equal. revert Hx. unfold generateID, mbind, M_bind.
  assert (∀ more size u, ∃ b k, read_random more size u s = (Ok b, ov_read k s) ∧
    read_random more size u (set_tree t s) = (Ok b, ov_read k (set_tree t s))) as Hread.
  { intros more size u. destruct more; cbn [read_random]; unfold mbind, M_bind, ReadFull; simpl; rewrite !Hr; by eexists _, _. }
  destruct (Hread maxretries ((idLength * 5 + 7) / 8) []) as (b&k&->&->). by intros [= <- _].
Qed.
Lemma next_link_ok s : random_ok s → name_ok (next_link s) ∧ String.length (next_link s) = idLength.
Proof.
  intros Hr. destruct (generateID_run idLength s Hr) as (x&n&Hx). unfold next_link. rewrite Hx.
  destruct (generateID_ok _ _ _ _ Hx) as (Hl&Ha&_). split; [|done]. split; [|done]. by intros ->.
Qed.

Section Creating.
Context (home : path) (uidMaps gidMaps : option (list Idtools.IDMap)) (quota_Size : Z) (projectQuotaSupported : bool)
        (SetQuota : path → Z → M FS ()) (RAMInBytes : string → error + Z)
        (range : gmap string string → list (string * string)).
Implicit Types (L : gmap string layer_rec) (t : gmap path node).

(** The options ask for no quota. *)
Definition no_quota (opts : option CreateOpts) : Prop :=
  storage_opts opts = ∅ ∨ ∃ z, parseStorageOpt RAMInBytes range (storage_opts opts) = inr z ∧ (z ≤ 0)%Z.
(** The line of a child of [parent]. *)
Definition child_line L (parent : string) : option (list string) :=
  if String.eqb parent EmptyString then Some [] else (λ r, parent :: ly_line r) <$> L !! parent.
(** Nothing is at [p] or below it. *)
Definition vacant t (p : path) : Prop := ∀ q, p `prefix_of` q → t !! q = None.

(** The tree with the files of a new layer. *)
Definition with_dirs (id lid : string) t : gmap path node :=
  <[home ++ [id; "link"] := File lid]> (<[home ++ ["l"; lid] := Symlink (link_target id)]>
    (<[home ++ [id; "diff"] := Dir]> (<[home ++ [id] := Dir]> t))).
Definition with_lower (id : string) (lower : string) t : gmap path node :=
  <[home ++ [id; "lower"] := File lower]> (<[home ++ [id; "work"] := Dir]> t).

Lemma with_dirs_spares id lid t :
  t !! (home ++ ["l"; lid]) = None → id ≠ "l" → spares home id t (with_dirs id lid t).
Proof.
  intros Hl Hne. unfold with_dirs.
  eapply spares_trans; [apply (spares_insert home id t (home ++ [id]) Dir); left; by apply prefix_home|].
  eapply spares_trans; [eapply (spares_insert home id _ (home ++ [id; "diff"]) Dir); left; by apply prefix_home|].
  eapply spares_trans; [eapply (spares_insert home id _ (home ++ ["l"; lid])); right; split; [|by eexists]|].
  - rewrite !lookup_insert_ne; [done|intros [= ?]%app_inv_head; congruence..].
  - eapply spares_insert. left. by apply prefix_home.
Qed.

Ltac other_path := let H := fresh in intros H; apply app_inv_head in H; first [discriminate H|congruence].

Lemma parent_two (a b : string) : parent_dir (home ++ [a; b]) = home ++ [a].
Proof. change [a; b] with ([a] ++ [b]). by rewrite app_assoc, parent_dir_snoc. Qed.
Lemma is_dir_home t (a : string) l : t !! (home ++ a :: l) = Some Dir → is_dir t (home ++ a :: l) = true.
Proof. intros Ht. apply is_dir_Some; [apply home_ne|done]. Qed.

Lemma opts_run id opts (s : OV) :
  no_quota opts →
  (match opts with
   | Some o =>
       if negb (bool_decide (co_StorageOpt o = ∅)) then
         size ← of_sum (parseStorageOpt RAMInBytes range (co_StorageOpt o));
         if (0 <? size)%Z then
           if projectQuotaSupported then onDisk (SetQuota (dir home id) size)
           else panic "invalid memory address or nil pointer dereference"
         else mret tt
       else mret tt
   | None => mret tt
   end) s = (Ok tt, s).
Proof.
  destruct opts as [o|]; [|done]. unfold no_quota. cbn [storage_opts].
  destruct (bool_decide (co_StorageOpt o = ∅)) eqn:Hb; [done|]. apply bool_decide_eq_false in Hb.
  intros [?|(z&Hz&Hle)]; [done|]. cbn [negb]. rewrite Hz. unfold of_sum, mbind, M_bind, mret, M_ret.
  by destruct (Z.ltb_spec 0 z); [lia|].
Qed.

(** The calls of a run, one at a time. *)
Ltac step H := first [rewrite (bind_ok _ _ _ _ _ H) | erewrite bind_ok; [|exact H]].

Lemma body_run L s id parent opts line :
  rep home L (tree s) → calm s → name_ok id → id ≠ "l" → L !! id = None → vacant (tree s) (home ++ [id]) →
  random_ok s → tree s !! (home ++ ["l"; next_link s]) = None → no_quota opts → child_line L parent = Some line →
  ∃ n, create_body home projectQuotaSupported SetQuota RAMInBytes range id parent opts
         (set_tree (<[home ++ [id] := Dir]> (tree s)) s) =
    if maxDepth <? length line then
      (Err (Errorf "max depth exceeded"),
       ov_read n (set_tree (<[home ++ [id; "work"] := Dir]> (with_dirs id (next_link s) (tree s))) s))
    else
      (Ok tt, ov_read n (set_tree (match line with
                                   | [] => with_dirs id (next_link s) (tree s)
                                   | _ => with_lower id (lower_of L line) (with_dirs id (next_link s) (tree s))
                                   end) s)).
Proof.
  intros Hrep Hc Hid Hne HL Hvac Hrand Hlink Hq Hline. unfold create_body.
  assert (∀ f, tree s !! (home ++ [id; f]) = None) as Hf by (intros f; apply Hvac, prefix_home; done).
  destruct (next_link_ok s Hrand) as [Hlid _].
  rewrite !(file_name home id), (Join_name home) by done.
  rewrite (bind_ok _ _ _ _ _ (opts_run id opts _ Hq)).
  set (t1 := <[home ++ [id] := Dir]> (tree s)). set (t2 := <[home ++ [id; "diff"] := Dir]> t1).
  set (t3 := <[home ++ ["l"; next_link s] := Symlink (link_target id)]> t2).
  change (with_dirs id (next_link s) (tree s)) with (<[home ++ [id; "link"] := File (next_link s)]> t3).
  set (t4 := <[home ++ [id; "link"] := File (next_link s)]> t3).
  assert (t1 !! (home ++ [id]) = Some Dir) as D1 by (unfold t1; by rewrite lookup_insert_eq).
  assert (t3 !! (home ++ [id]) = Some Dir) as D3 by (unfold t3, t2; rewrite !lookup_insert_ne; [done|other_path..]).
  assert (t4 !! (home ++ [id]) = Some Dir) as D4 by (unfold t4; rewrite lookup_insert_ne; [done|other_path]).
  assert (∀ f, f ≠ "diff" → f ≠ "link" → t4 !! (home ++ [id; f]) = None) as F4.
  { intros f Hf1 Hf2. unfold t4, t3, t2, t1. rewrite !lookup_insert_ne; [done|other_path..]. }
  assert (onDisk (Idtools.MkdirAndChown (home ++ [id; "diff"])) (set_tree t1 s) = (Ok tt, set_tree t2 s)) as Hdiff.
  { apply onDisk_step. apply MkdirAndChown_run; [apply home_ne| |rewrite parent_two; by apply is_dir_home].
    cbn. unfold t1. rewrite lookup_insert_ne; [done|other_path]. }
  rewrite (bind_ok _ _ _ _ _ Hdiff). destruct (next_link_run s t2 Hrand) as [n Hgen]. exists n.
  rewrite (bind_ok _ _ _ _ _ Hgen), (Join_name (home ++ [linkDir])) by done.
  replace ((home ++ [linkDir]) ++ [next_link s]) with (home ++ ["l"; next_link s]) by by rewrite <-app_assoc.
  assert (onDisk (OsLink.Symlink (link_target id) (home ++ ["l"; next_link s])) (ov_read n (set_tree t2 s))
    = (Ok tt, ov_read n (set_tree t3 s))) as Hsym.
  { apply onDisk_step_read. apply Symlink_run; [apply home_ne| |rewrite parent_two; apply is_dir_home]; cbn; unfold t2, t1.
    - rewrite !lookup_insert_ne; [done|other_path..].
    - rewrite !lookup_insert_ne; [apply (rp_links _ _ _ Hrep)|other_path..]. }
  rewrite (bind_ok _ _ _ _ _ Hsym).
  assert (onDisk (Os.WriteFile (home ++ [id; "link"]) (next_link s)) (ov_read n (set_tree t3 s))
    = (Ok tt, ov_read n (set_tree t4 s))) as Hwr.
  { apply onDisk_step_read. apply WriteFile_run; [apply home_ne| |rewrite parent_two; by apply is_dir_home].
    unfold is_dir. rewrite node_at_ne by apply home_ne. cbn. unfold t3, t2, t1.
    rewrite !lookup_insert_ne; [by rewrite Hf|other_path..]. }
  rewrite (bind_ok _ _ _ _ _ Hwr). unfold child_line in Hline.
  destruct (String.eqb_spec parent EmptyString) as [->|Hpar]; [by injection Hline as <-|].
  destruct (L !! parent) as [rp|] eqn:HLp; [|done]. injection Hline as <-.
  set (t5 := <[home ++ [id; "work"] := Dir]> t4).
  assert (onDisk (Idtools.MkdirAndChown (home ++ [id; "work"])) (ov_read n (set_tree t4 s))
    = (Ok tt, ov_read n (set_tree t5 s))) as Hwork.
  { apply onDisk_step_read. apply MkdirAndChown_run; [apply home_ne|by apply F4|rewrite parent_two; by apply is_dir_home]. }
  rewrite (bind_ok _ _ _ _ _ Hwork).
  assert (rep home L t5) as Hrep5.
  { eapply rep_spares; [exact Hrep|done|done|]. eapply spares_trans; [by apply (with_dirs_spares id (next_link s))|].
    apply spares_insert. left. by apply prefix_home. }
  pose proof (getLower_run home L (ov_read n (set_tree t5 s)) parent rp Hrep5 eq_refl HLp) as Hlow.
  change (maxDepth <? length (parent :: ly_line rp)) with (maxDepth <=? length (ly_line rp)).
  destruct (maxDepth <=? length (ly_line rp)); [by rewrite (bind_err _ _ _ _ _ Hlow)|].
  rewrite (bind_ok _ _ _ _ _ Hlow).
  assert (String.eqb (lower_of L (parent :: ly_line rp)) EmptyString = false) as ->.
  { unfold lower_of. rewrite fmap_cons. by destruct (_ <$> ly_line rp). }
  apply onDisk_step_read. apply WriteFile_run; [apply home_ne| |rewrite parent_two; apply is_dir_home]; cbn; unfold t5.
  - unfold is_dir. rewrite node_at_ne by apply home_ne. rewrite lookup_insert_ne by other_path. by rewrite F4.
  - by rewrite lookup_insert_ne by other_path.
Qed.

(** The line of a child names layers that are there. *)
Lemma child_line_in L t parent line a :
  rep home L t → child_line L parent = Some line → a ∈ line → is_Some (L !! a).
Proof.
  intros Hrep. unfold child_line. destruct (String.eqb_spec parent EmptyString) as [->|Hp].
  - intros [= <-] []%not_elem_of_nil.
  - destruct (L !! parent) as [rp|] eqn:HLp; [|done]. intros [= <-] [->|Ha]%elem_of_cons; [by eexists|].
    by eapply rep_line.
Qed.

Lemma stored_new L t id lid parent line :
  rep home L t → L !! id = None → id ≠ "l" → name_ok id → name_ok lid → String.length lid = idLength → vacant t (home ++ [id]) →
  child_line L parent = Some line → length line ≤ maxDepth →
  stored home (<[id := mkLayer lid line]> L)
    (match line with [] => with_dirs id lid t | _ => with_lower id (lower_of L line) (with_dirs id lid t) end)
    id (mkLayer lid line).
Proof.
  intros Hrep HL Hne Hid Hlid Hlen Hvac Hline Hdepth.
  assert (∀ f, t !! (home ++ [id; f]) = None) as Hf by (intros f; apply Hvac, prefix_home; done).
  set (L' := <[id := mkLayer lid line]> L).
  assert (lower_of L' line = lower_of L line) as Hlower.
  { unfold lower_of. f_equal. apply list_fmap_ext. intros i a Ha%list_elem_of_lookup_2. unfold link_of, L'.
    rewrite lookup_insert_ne; [done|]. intros ->. destruct (child_line_in _ _ _ _ a Hrep Hline Ha). congruence. }
  set (t' := with_dirs id lid t).
  assert (t' !! (home ++ [id]) = Some Dir ∧ t' !! (home ++ [id; "diff"]) = Some Dir ∧
    t' !! (home ++ [id; "link"]) = Some (File lid) ∧ t' !! (home ++ ["l"; lid]) = Some (Symlink (link_target id)) ∧
    t' !! (home ++ [id; "lower"]) = None) as (H1&H2&H3&H4&H5).
  { unfold t', with_dirs. split_and!.
    - rewrite !lookup_insert_ne by other_path. apply lookup_insert_eq.
    - rewrite !(lookup_insert_ne _ _ (home ++ [id; "diff"])) by other_path. apply lookup_insert_eq.
    - apply lookup_insert_eq.
    - rewrite lookup_insert_ne by other_path. apply lookup_insert_eq.
    - rewrite !lookup_insert_ne by other_path. apply Hf. }
  assert (match line with [] => True | p :: rest => ∃ lp, L' !! p = Some (mkLayer lp rest) end) as Hl.
  { unfold child_line in Hline. destruct (String.eqb _ _); [by injection Hline as <-|].
    destruct (L !! parent) as [rp|] eqn:HLp; [|done]. injection Hline as <-. exists (ly_link rp). unfold L'.
    rewrite lookup_insert_ne by congruence. rewrite HLp. by destruct rp. }
  destruct line as [|p rest]; [by split|].
  assert (∀ q n, t' !! q = Some n → q ≠ home ++ [id; "lower"] → q ≠ home ++ [id; "work"] →
    with_lower id (lower_of L (p :: rest)) t' !! q = Some n) as Hkeep.
  { intros q n Hq Hq1 Hq2. unfold with_lower. by rewrite !lookup_insert_ne. }
  split; try done; cbn [ly_link ly_line].
  - apply Hkeep; [done|other_path..].
  - apply Hkeep; [done|other_path..].
  - apply Hkeep; [done|other_path..].
  - apply Hkeep; [done|other_path..].
  - unfold with_lower. rewrite lookup_insert_eq. by rewrite Hlower.
  - intros _. unfold with_lower. rewrite lookup_insert_ne by other_path. apply lookup_insert_eq.
Qed.

Lemma with_lower_spares id lower t : spares home id t (with_lower id lower t).
Proof.
  unfold with_lower. eapply spares_trans; [eapply (spares_insert home id t (home ++ [id; "work"]) Dir); left; by apply prefix_home|].
  apply spares_insert. left. by apply prefix_home.
Qed.

Lemma create_run L s id parent opts line ug :
  rep home L (tree s) → calm s → random_ok s → Idtools.GetRootUIDGID uidMaps gidMaps = inr ug → no_quota opts →
  name_ok id → id ≠ "l" → L !! id = None → vacant (tree s) (home ++ [id]) →
  tree s !! (home ++ ["l"; next_link s]) = None → child_line L parent = Some line →
  ∃ t n, let s' := ov_read n (set_tree t s) in spares home id (tree s) t ∧
    if maxDepth <? length line then
      create home uidMaps gidMaps projectQuotaSupported SetQuota RAMInBytes range id parent opts s =
        (Err (Errorf "max depth exceeded"), s') ∧ rep home L t ∧ vacant t (home ++ [id]) ∧
        t !! (home ++ ["l"; next_link s]) = Some (Symlink (link_target id))
    else
      create home uidMaps gidMaps projectQuotaSupported SetQuota RAMInBytes range id parent opts s = (Ok tt, s') ∧
        rep home (<[id := mkLayer (next_link s) line]> L) t.
Proof.
  intros Hrep Hc Hrand Hroot Hq Hid Hne HL Hvac Hlink Hline.
  destruct (body_run L s id parent opts line Hrep Hc Hid Hne HL Hvac Hrand Hlink Hq Hline) as [n Hbody].
  assert (create home uidMaps gidMaps projectQuotaSupported SetQuota RAMInBytes range id parent opts s =
    defer_on_error (create_body home projectQuotaSupported SetQuota RAMInBytes range id parent opts)
      (ignore_err (onDisk (Os.RemoveAll (home ++ [id])))) (set_tree (<[home ++ [id] := Dir]> (tree s)) s)) as Hcreate.
  { unfold create. rewrite Hroot. destruct ug as [u g]. unfold of_sum. rewrite (bind_ok _ _ _ (u, g) s) by done.
    cbv beta iota. rewrite (dir_name home id) by done. rewrite parent_dir_snoc.
    assert (node_at (tree s) home = Some Dir) as Hh.
    { pose proof (rp_home _ _ _ Hrep (length home)) as Hd. rewrite firstn_all in Hd. unfold is_dir in Hd.
      destruct (node_at (tree s) home) as [[]|]; done. }
    rewrite (bind_ok _ _ _ _ _ (onDisk_read _ _ _ Hc (MkdirChown_exists _ _ true Hh))).
    rewrite (bind_ok _ _ _ _ _ (onDisk_run _ _ _ _ Hc (MkdirAndChown_run _ _ (home_ne home _ _)
      (Hvac _ (reflexivity _)) ltac:(rewrite parent_dir_snoc; unfold is_dir; by rewrite Hh)))). done. }
  rewrite Hcreate. unfold defer_on_error, defer_when. rewrite Hbody.
  destruct (next_link_ok s Hrand) as [Hlid Hll].
  destruct (maxDepth <? length line) eqn:Hdeep.
  - set (t1 := <[home ++ [id; "work"] := Dir]> (with_dirs id (next_link s) (tree s))).
    rewrite (ignore_ok _ _ _ _ (onDisk_step_read (Os.RemoveAll (home ++ [id])) s n t1 _ _ (RemoveAll_run _ _))).
    eexists _, n. cbv zeta.
    assert (spares home id (tree s) (filter (λ kv, Os.below (home ++ [id]) kv.1 = false) t1)) as Hsp.
    { eapply spares_trans; [by apply (with_dirs_spares id (next_link s))|].
      eapply spares_trans; [|apply spares_remove]. apply spares_insert. left. by apply prefix_home. }
    split; [exact Hsp|]. split_and!; [reflexivity| | |].
    + by eapply rep_spares.
    + intros q Hpre. apply map_lookup_filter_None. right. intros m _ Hb. simpl in Hb. by apply not_below_spec in Hb.
    + apply map_lookup_filter_Some. split; [|simpl; apply not_below_spec; by rewrite prefix_home].
      unfold t1, with_dirs. rewrite !(lookup_insert_ne _ _ (home ++ ["l"; next_link s])) by other_path.
      apply lookup_insert_eq.
  - eexists _, n. cbv zeta.
    assert (spares home id (tree s) (match line with [] => with_dirs id (next_link s) (tree s)
      | _ => with_lower id (lower_of L line) (with_dirs id (next_link s) (tree s)) end)) as Hsp.
    { destruct line; [by apply with_dirs_spares|].
      eapply spares_trans; [by apply (with_dirs_spares id (next_link s))|]. apply with_lower_spares. }
    split; [exact Hsp|]. split; [reflexivity|]. apply rep_insert; [|done|done|].
    + by eapply rep_spares.
    + eapply stored_new; [exact Hrep|done..|]. apply Nat.ltb_ge in Hdeep. done.
Qed.
End Creating.
