(* ===== verification/Overlay2Mount.v ===== *)
(** * What overlay2 mounts

    From the files of a layer over the option string and the parser of the
    kernel to the directories that lie on top of each other. *)

From S2P Require Import Prelude FileSys GraphDriver OvlOpts OvlMount OvlOptProps OvlMountProps DriverBase Overlay2 Overlay2Props.

(** ** Strings the kernel takes apart as the driver put them together *)

Definition path_char (c : ascii) : bool := id_char c || (c =? slash)%char.

Lemma id_path s : GoString.all_chars id_char s = true → GoString.all_chars path_char s = true.
Proof. apply all_chars_impl. intros c Hc. unfold path_char. by rewrite Hc. Qed.
Lemma join_path_chars ps : Forall name_ok ps → GoString.all_chars path_char (GoString.join "/" ps) = true.
Proof.
  induction 1 as [|p ps [_ Hp] Hps IH]; [done|]. apply id_path in Hp. destruct ps as [|q ps]; [done|].
  change (GoString.join "/" (p :: q :: ps)) with (p +:+ String slash (GoString.join "/" (q :: ps))).
  rewrite all_chars_app, Hp. cbn [GoString.all_chars]. rewrite IH. done.
Qed.
Lemma abs_chars p : Forall name_ok p → GoString.all_chars path_char (GoPath.abs p) = true.
Proof. intros Hp. unfold GoPath.abs. cbn [GoString.all_chars]. by rewrite join_path_chars. Qed.

(** Strings of paths, with colons between them. *)
Definition data_char (c : ascii) : bool := path_char c || (c =? colon)%char.
Lemma path_data s : GoString.all_chars path_char s = true → GoString.all_chars data_char s = true.
Proof. apply all_chars_impl. intros c Hc. unfold data_char. by rewrite Hc. Qed.
Lemma join_data_chars ws :
  Forall (λ w, GoString.all_chars path_char w = true) ws → GoString.all_chars data_char (GoString.join ":" ws) = true.
Proof.
  induction 1 as [|w ws Hw Hws IH]; [done|]. apply path_data in Hw. destruct ws as [|v ws]; [done|].
  change (GoString.join ":" (w :: v :: ws)) with (w +:+ String colon (GoString.join ":" (v :: ws))).
  rewrite all_chars_app, Hw. cbn [GoString.all_chars]. rewrite IH. done.
Qed.
Lemma data_plain s : GoString.all_chars data_char s = true → plain s = true.
Proof.
  apply all_chars_impl. intros c Hc. unfold plain_char. apply andb_true_intro.
  split; apply negb_true_iff, Ascii.eqb_neq; intros ->; vm_compute in Hc; discriminate Hc.
Qed.
Lemma unescape_plain s : GoString.all_chars data_char s = true → ovl_unescape s = s.
Proof.
  intros Hs. assert (avoids backslash s) as Ha by by eapply all_chars_avoids. clear Hs. unfold avoids in Ha.
  induction s as [|c s IH]; [done|]. cbn [ovl_unescape GoString.index_byte] in *. rewrite Ascii.eqb_sym.
  destruct (backslash =? c)%char; [done|]. f_equal. apply IH. by destruct (GoString.index_byte backslash s).
Qed.
Lemma split_lowerdirs_plain s : GoString.all_chars data_char s = true → ovl_split_lowerdirs s = GoString.split colon s.
Proof.
  intros Hs. assert (avoids backslash s) as Ha by by eapply all_chars_avoids. clear Hs. unfold avoids in Ha.
  induction s as [|c s IH]; [done|]. cbn [ovl_split_lowerdirs GoString.split GoString.index_byte] in *.
  rewrite (Ascii.eqb_sym c backslash). destruct (backslash =? c)%char; [done|]. rewrite (Ascii.eqb_sym c colon).
  rewrite IH by by destruct (GoString.index_byte backslash s). by destruct (colon =? c)%char.
Qed.
Lemma split_lowerdirs_join ws :
  ws ≠ [] → Forall (λ w, GoString.all_chars path_char w = true) ws → ovl_split_lowerdirs (GoString.join ":" ws) = ws.
Proof.
  intros Hne Hws. rewrite split_lowerdirs_plain by by apply join_data_chars. apply split_join; [done|].
  eapply Forall_impl; [exact Hws|]. intros w Hw. by apply (all_chars_avoids path_char).
Qed.

(** ** Resolving the names of a layer *)

Lemma split_abs p : p ≠ [] → Forall name_ok p → GoString.split slash (GoPath.abs p) = EmptyString :: p.
Proof.
  intros Hne Hp. unfold GoPath.abs. change (String slash (GoString.join "/" p)) with (EmptyString +:+ String slash (GoString.join "/" p)).
  rewrite split_app_sep by done. f_equal. apply split_join; [done|]. eapply Forall_impl; [exact Hp|].
  intros c Hc. by apply name_avoids.
Qed.
Lemma kern_abs t cwd p : p ≠ [] → Forall name_ok p → kern_path t cwd (GoPath.abs p) = link_walk MAXSYMLINKS t [] p.
Proof.
  intros Hne Hp. unfold kern_path. change (String.eqb (GoPath.abs p) EmptyString) with false. cbv iota.
  assert (GoString.has_prefix (GoPath.abs p) "/" = true) as ->.
  { unfold GoPath.abs. by destruct (GoString.join "/" p). }
  rewrite split_abs by done. by rewrite walk_empty.
Qed.
Lemma name_relative s r : name_ok s → GoString.has_prefix (s +:+ r) "/" = false ∧ String.eqb (s +:+ r) EmptyString = false.
Proof.
  intros [Hne Hs]. destruct s as [|c s]; [done|]. rewrite app_cons. cbn [GoString.all_chars] in Hs.
  apply andb_prop in Hs as [Hc _]. split; [|done]. unfold GoString.has_prefix. cbn [String.prefix].
  destruct (ascii_dec "/" c) as [<-|]; [discriminate Hc|done].
Qed.

Section Names.
Context (home : path) (Hhome : Forall name_ok home).
Implicit Types (L : gmap string layer_rec) (t : gmap path node).

(** A path below the home directory whose way is made of directories. *)
Lemma walk_home n t l :
  (∀ i, is_dir t (take i home) = true) → link_walk n t [] (home ++ l) = link_walk n t home l.
Proof. intros Hd. by rewrite walk_dirs by done. Qed.

(** The ways from the root and from the home directory. *)
Lemma kern_both L t (l : path) :
  rep home L t → Forall name_ok l → l ≠ [] →
  ∀ cwd, kern_path t cwd (GoPath.abs (home ++ l)) = link_walk MAXSYMLINKS t home l.
Proof.
  intros Hrep Hl Hne cwd. rewrite kern_abs; [apply walk_home, (rp_home _ _ _ Hrep)|by destruct home, l|by apply Forall_app_2].
Qed.
Lemma kern_rel t (a b : string) :
  name_ok a → name_ok b → kern_path t home (a +:+ "/" +:+ b) = link_walk MAXSYMLINKS t home [a; b].
Proof.
  intros Ha Hb. unfold kern_path. destruct (name_relative a ("/" +:+ b) Ha) as [-> ->]. f_equal.
  change ("/" +:+ b) with (String slash b). rewrite split_app_sep by by apply name_avoids.
  by rewrite split_avoids by by apply name_avoids.
Qed.

(** A directory of a layer, and the directory a link leads to. *)
Lemma walk_entry L t id (f : string) n :
  rep home L t → name_ok id → name_ok f → is_dir t (home ++ [id]) = true → is_dir t (home ++ [id; f]) = true →
  link_walk n t home [id; f] = inr (home ++ [id; f]).
Proof.
  intros Hrep Hid Hf Hd Hdf. pose proof (rp_home _ _ _ Hrep (length home)) as Hh. rewrite firstn_all in Hh.
  rewrite walk_dir by done. rewrite walk_dir; [by rewrite walk_nil, <-app_assoc|done|done|by rewrite <-app_assoc].
Qed.
Lemma walk_layer_link L t id r n :
  rep home L t → L !! id = Some r → link_walk (S n) t home ["l"; ly_link r] = inr (home ++ [id; "diff"]).
Proof.
  intros Hrep Hid. destruct (rp_layer _ _ _ Hrep _ _ Hid) as [_ Hs].
  pose proof (rp_home _ _ _ Hrep (length home)) as Hh. rewrite firstn_all in Hh.
  assert (is_dir t (home ++ ["l"]) = true) as Hl by (apply is_dir_home, (rp_links _ _ _ Hrep)).
  rewrite walk_dir by done.
  rewrite (walk_link n t (home ++ ["l"]) (ly_link r) [] (link_target id)).
  - rewrite split_link_target by apply (st_name _ _ _ _ _ Hs). rewrite app_nil_r, walk_up by done. rewrite parent_dir_snoc.
    apply (walk_entry L); [done|apply (st_name _ _ _ _ _ Hs)|done|apply is_dir_home, (st_dir _ _ _ _ _ Hs)|
      apply is_dir_home, (st_diff _ _ _ _ _ Hs)].
  - done.
  - apply (st_link_name _ _ _ _ _ Hs).
  - rewrite <-app_assoc. rewrite node_at_ne by apply home_ne. apply (st_target _ _ _ _ _ Hs).
  - done.
Qed.
End Names.

(** ** What a mount does to the files of the layers *)

Section Touching.
Context (home : path).
Implicit Types (L : gmap string layer_rec) (t : gmap path node).

(** [t'] is [t] but for mount points and what the kernel keeps in [work]. *)
Definition mount_touches t t' : Prop :=
  ∀ q, (∀ a, a ≠ "l" → q ≠ home ++ [a; "merged"]) → (∀ a, ¬ (home ++ [a; "work"; "work"]) `prefix_of` q) → t' !! q = t !! q.

Lemma touches_refl t : mount_touches t t.
Proof. done. Qed.
Lemma touches_trans t1 t2 t3 : mount_touches t1 t2 → mount_touches t2 t3 → mount_touches t1 t3.
Proof. intros H1 H2 q Hm Hw. by rewrite H2, H1. Qed.
Lemma touches_merged t a n : a ≠ "l" → mount_touches t (<[home ++ [a; "merged"] := n]> t).
Proof. intros Ha q Hm _. rewrite lookup_insert_ne; [done|]. intros <-. by apply (Hm a). Qed.
Lemma touches_unmerged t a : a ≠ "l" → mount_touches t (delete (home ++ [a; "merged"]) t).
Proof. intros Ha q Hm _. rewrite lookup_delete_ne; [done|]. intros <-. by apply (Hm a). Qed.
Lemma remade_other t p q : ¬ p `prefix_of` q → remade t p !! q = t !! q.
Proof.
  intros Hp. unfold remade. rewrite lookup_insert_ne by (intros <-; by apply Hp).
  destruct (t !! p) as [n|]; [|done]. destruct (t !! q) as [m|] eqn:Hq.
  - apply map_lookup_filter_Some. split; [done|]. by apply not_below_spec.
  - apply map_lookup_filter_None. by left.
Qed.
Lemma touches_remade t a : mount_touches t (remade t (home ++ [a; "work"; "work"])).
Proof. intros q _ Hw. apply remade_other, Hw. Qed.

Lemma prefix_long (l q : path) : length q < length home + length l → ¬ (home ++ l) `prefix_of` q.
Proof. intros Hlen Hp%prefix_length. rewrite length_app in Hp. lia. Qed.

Lemma rep_touches L t t' : rep home L t → mount_touches t t' → rep home L t'.
Proof.
  intros [Hh Hl Hlay] Ht.
  assert (∀ l : path, length l ≤ 2 → (∀ a, a ≠ "l" → l ≠ [a; "merged"]) → t' !! (home ++ l) = t !! (home ++ l)) as Hk.
  { intros l Hlen Hl'. apply Ht; [intros a Hal He%app_inv_head; by apply (Hl' a)|].
    intros a. apply prefix_long. rewrite length_app. simpl. lia. }
  assert (∀ a, t' !! (home ++ [a]) = t !! (home ++ [a])) as Hk1 by (intros a; apply Hk; [simpl; lia|done]).
  assert (∀ a f, a = "l" ∨ f ≠ "merged" → t' !! (home ++ [a; f]) = t !! (home ++ [a; f])) as Hk2.
  { intros a f Hf. apply Hk; [simpl; lia|]. intros b Hb [= -> ->]. by destruct Hf. }
  split.
  - intros n. specialize (Hh n). unfold is_dir in *. destruct (take n home) as [|c p] eqn:Hn; [done|]. simpl in *.
    rewrite Ht; [done| |].
    + intros a _ He. apply (f_equal length) in He. rewrite <-Hn, length_take, length_app in He. simpl in He. lia.
    + intros a. apply prefix_long. rewrite <-Hn, length_take. simpl. lia.
  - by rewrite Hk1.
  - intros a r Ha. destruct (Hlay a r Ha) as [Hal [? Hln ? ? ? ? ? Hw ? ? ?]]. split; [done|].
    split; rewrite ?Hk1, ?Hk2 by first [by left|by right]; done.
Qed.

End Touching.

(** ** The data of a mount, read by the kernel *)

Section Data.
Context (k : ovl_params).

Lemma mount_opts_join l u w :
  mount_opts l u w = GoString.join (String comma EmptyString) ["lowerdir=" +:+ l; "upperdir=" +:+ u; "workdir=" +:+ w].
Proof. done. Qed.
Lemma mount_opts_simp l u w :
  mount_opts l u w +:+ ",simp=on" =
    GoString.join (String comma EmptyString) ["lowerdir=" +:+ l; "upperdir=" +:+ u; "workdir=" +:+ w; "simp=on"].
Proof.
  unfold mount_opts. cbn [GoString.join]. rewrite !app_assoc_str. reflexivity.
Qed.

(** The label the container service passes for a simplified image. *)
Definition simp_label : string := ",simp=on".

Lemma parse_data l u w (simp : bool) :
  l ≠ EmptyString → u ≠ EmptyString → w ≠ EmptyString →
  GoString.all_chars data_char l = true → GoString.all_chars data_char u = true → GoString.all_chars data_char w = true →
  ∃ c, ovl_parse_opt k (Some (mount_opts l u w +:+ if simp then simp_label else EmptyString)) (mount_config k) = inr c ∧
       parsed_as k c l u w simp.
Proof.
  intros Hl Hu Hw Pl Pu Pw. apply data_plain in Pl, Pu, Pw.
  assert (∀ s v, plain s = true → plain v = true → plain (s +:+ v) = true) as Happ.
  { intros s v Hs Hv. by rewrite all_chars_app, Hs, Hv. }
  destruct simp.
  - unfold simp_label. rewrite mount_opts_simp. apply parse_steps; [done|repeat constructor; auto|].
    intros c. cbn [opt_steps]. by rewrite lowerdir_step, upperdir_step, workdir_step.
  - rewrite app_nil_r_str, mount_opts_join. apply parse_steps; [done|repeat constructor; auto|].
    intros c. cbn [opt_steps]. rewrite lowerdir_step, upperdir_step, workdir_step by done. by destruct c.
Qed.
End Data.

(** ** The mount of a layer *)

Section Mounting.
Context (k : ovl_params) (b : backing) (vo vi : path → path → M MS ()) (home : path).
Context (Hhome : Forall name_ok home) (Hb : backing_ok b) (Hk : defaults_off k).
Implicit Types (L : gmap string layer_rec) (t : gmap path node).

Lemma sys_mount_run cwd target data t m i c l u w simp p up wk lows :
  kern_path t cwd target = inr p → is_dir t p = true → String.length data < page_size →
  ovl_parse_opt k (Some data) (mount_config k) = inr c → parsed_as k c l u w simp →
  u ≠ EmptyString → ovl_unescape u = u → kern_path t cwd u = inr up → is_dir t up = true → up ∉ i →
  w ≠ EmptyString → ovl_unescape w = w → kern_path t cwd w = inr wk → is_dir t wk = true → wk ≠ [] → wk ∉ i →
  ovl_workdir_ok wk up = true → length (ovl_split_lowerdirs l) ≤ OVL_MAX_STACK →
  Forall2 (λ name p, name ≠ EmptyString ∧ kern_path (remade t (wk ++ ["work"])) cwd name = inr p ∧
             is_dir (remade t (wk ++ ["work"])) p = true) (ovl_split_lowerdirs l) lows →
  ∃ o, sys_mount k b vo vi cwd target data (mkHost (mkFS t []) m i) =
         (Ok tt, mkHost (mkFS (remade t (wk ++ ["work"])) []) (<[p := o :: default [] (m !! p)]> m) ({[wk]} ∪ ({[up]} ∪ i))) ∧
       mounts_as o up wk lows simp.
Proof.
  intros Hp Hd Hlen Hparse Has Une Uesc Uk Ud Ui Wne Wesc Wk Wd Wn Wi Hok Hl Hall.
  destruct (fill_super_run k b cwd vo vi t i (mount_ofs k) (Some data) c l u w simp up wk lows) as (o&Hrun&Ho); try done.
  exists o. split; [|done]. unfold sys_mount.
  rewrite (bind_ok _ _ _ p (mkHost (mkFS t []) m i)).
  2: { unfold onTree, zoom, syscall. simpl. by rewrite Hp, Hd. }
  rewrite str_take_all by (unfold page_size in *; lia).
  rewrite (bind_ok _ _ _ o (mkHost (mkFS (remade t (wk ++ ["work"])) []) m ({[wk]} ∪ ({[up]} ∪ i)))); [done|].
  unfold with_super. cbn [ho_fs ho_inuse ho_mounts].
  change (mkMS (mkFS t []) i (mount_ofs k)) with (calm_ms t i (mount_ofs k)). rewrite Hrun. reflexivity.
Qed.

(** A string that names an entry below the home directory for the kernel. *)
Record named L (cwd : path) (s : string) (l : path) : Prop := {
  nm_chars : GoString.all_chars path_char s = true;
  nm_ne : s ≠ EmptyString;
  nm_walk : ∀ t, rep home L t → kern_path t cwd s = link_walk MAXSYMLINKS t home l;
}.
Lemma named_abs L cwd l : Forall name_ok l → l ≠ [] → named L cwd (GoPath.abs (home ++ l)) l.
Proof.
  intros Hl Hne. split; [apply abs_chars; by apply Forall_app_2|done|]. intros t Hrep. by eapply kern_both.
Qed.
Lemma named_rel L x y : name_ok x → name_ok y → named L home (x +:+ "/" +:+ y) [x; y].
Proof.
  intros Hx Hy. split; [| |intros t _; by apply kern_rel].
  - destruct Hx as [_ Hx%id_path], Hy as [_ Hy%id_path]. rewrite !all_chars_app, Hx, Hy. done.
  - destruct Hx as [Hx _]. by destruct x.
Qed.

Lemma workdir_ok_own (id : string) : ovl_workdir_ok (home ++ [id; "work"]) (home ++ [id; "diff"]) = true.
Proof.
  unfold ovl_workdir_ok. rewrite bool_decide_eq_false_2 by (by intros [=]%app_inv_head). cbn [negb andb].
  assert (∀ x y : string, x ≠ y → Os.below (home ++ [id; x]) (home ++ [id; y]) = false) as Hxy.
  { intros x y Hxy. apply not_below_spec. intros [r Hr]. rewrite <-app_assoc in Hr. by apply app_inv_head in Hr as [= -> _]. }
  by rewrite !Hxy.
Qed.

(** The names of a line, in a string with colons. *)
Definition named_line L cwd (ls : list string) (line : list string) : Prop :=
  Forall2 (λ s a, is_Some (L !! a) ∧ named L cwd s ["l"; link_of L a]) ls line.
Lemma named_line_data L cwd ls line :
  named_line L cwd ls line → line ≠ [] →
  GoString.join ":" ls ≠ EmptyString ∧ GoString.all_chars data_char (GoString.join ":" ls) = true ∧
  ovl_split_lowerdirs (GoString.join ":" ls) = ls.
Proof.
  intros Hls Hne.
  assert (Forall (λ s, GoString.all_chars path_char s = true) ls) as Hch.
  { eapply Forall2_Forall_l; [exact Hls|]. apply Forall_forall. intros a _ s [_ Hs]. apply (nm_chars _ _ _ _ Hs). }
  assert (ls ≠ []) as Hls' by (intros ->; by apply Forall2_nil_inv_l in Hls).
  split; [|split; [by apply join_data_chars|by apply split_lowerdirs_join]].
  destruct Hls as [|s a ls line [_ Hs] _]; [done|]. pose proof (nm_ne _ _ _ _ Hs) as Hse.
  destruct s as [|ch s]; [done|]. by destruct ls.
Qed.

(** Mounting with names for the directories of a layer: the kernel stacks the
    files of its line under its own. *)
Lemma layer_mount L cwd t m i id r u w tgt ls (simp : bool) :
  rep home L t → L !! id = Some r → ly_line r ≠ [] → t !! (home ++ [id; "merged"]) = Some Dir →
  home ++ [id; "diff"] ∉ i → home ++ [id; "work"] ∉ i →
  named L cwd u [id; "diff"] → named L cwd w [id; "work"] → named L cwd tgt [id; "merged"] →
  named_line L cwd ls (ly_line r) →
  String.length (mount_opts (GoString.join ":" ls) u w +:+ if simp then simp_label else EmptyString) < page_size →
  ∃ o, sys_mount k b vo vi cwd tgt (mount_opts (GoString.join ":" ls) u w +:+ if simp then simp_label else EmptyString)
         (mkHost (mkFS t []) m i) =
         (Ok tt, mkHost (mkFS (remade t (home ++ [id; "work"; "work"])) [])
                   (<[home ++ [id; "merged"] := o :: default [] (m !! (home ++ [id; "merged"]))]> m)
                   ({[home ++ [id; "work"]]} ∪ ({[home ++ [id; "diff"]]} ∪ i))) ∧
       mounts_as o (home ++ [id; "diff"]) (home ++ [id; "work"]) ((λ a, home ++ [a; "diff"]) <$> ly_line r) simp.
Proof.
  intros Hrep Hid Hne Hm Hdi Hwi Hu Hw Ht Hls Hlen. destruct (rp_layer _ _ _ Hrep _ _ Hid) as [_ Hs].
  destruct (named_line_data _ _ _ _ Hls Hne) as (Lne&Lch&Lsp).
  pose proof (nm_chars _ _ _ _ Hu) as Uch%path_data. pose proof (nm_chars _ _ _ _ Hw) as Wch%path_data.
  destruct (parse_data k _ _ _ simp Lne (nm_ne _ _ _ _ Hu) (nm_ne _ _ _ _ Hw) Lch Uch Wch) as (c&Hc&Has).
  assert (is_dir t (home ++ [id]) = true) as Dd by (apply is_dir_home, (st_dir _ _ _ _ _ Hs)).
  assert (∀ f, name_ok f → t !! (home ++ [id; f]) = Some Dir → link_walk MAXSYMLINKS t home [id; f] = inr (home ++ [id; f])) as Hwalk.
  { intros f Hf Hdf. apply (walk_entry home L); [done|apply (st_name _ _ _ _ _ Hs)|done|done|by apply is_dir_home]. }
  pose proof (st_diff _ _ _ _ _ Hs) as Ddiff. pose proof (st_work _ _ _ _ _ Hs Hne) as Dwork.
  assert ((home ++ [id; "work"]) ++ ["work"] = home ++ [id; "work"; "work"]) as Hww by by rewrite <-app_assoc.
  rewrite <-Hww.
  apply (sys_mount_run cwd tgt _ t m i c (GoString.join ":" ls) u w simp).
  all: rewrite ?(nm_walk _ _ _ _ Hu t Hrep), ?(nm_walk _ _ _ _ Hw t Hrep), ?(nm_walk _ _ _ _ Ht t Hrep); try done.
  all: rewrite ?Hwalk by done; try done.
  all: try by apply is_dir_home. all: try by apply unescape_plain.
  - apply (nm_ne _ _ _ _ Hu).
  - apply (nm_ne _ _ _ _ Hw).
  - apply home_ne.
  - apply workdir_ok_own.
  - rewrite Lsp, (Forall2_length _ _ _ Hls). pose proof (st_depth _ _ _ _ _ Hs). unfold maxDepth, OVL_MAX_STACK in *. lia.
  - rewrite Lsp, Hww. apply Forall2_fmap_r. eapply Forall2_impl; [exact Hls|]. intros s a [[ra Ha] Hn].
    assert (rep home L (remade t (home ++ [id; "work"; "work"]))) as Hrep' by (eapply rep_touches, touches_remade; done).
    split; [apply (nm_ne _ _ _ _ Hn)|]. rewrite (nm_walk _ _ _ _ Hn _ Hrep'). unfold link_of. rewrite Ha.
    split; [by apply (walk_layer_link home L)|]. destruct (rp_layer _ _ _ Hrep' _ _ Ha) as [_ Hsa].
    apply is_dir_home, (st_diff _ _ _ _ _ Hsa).
Qed.

Lemma abs_line L t id r cwd :
  rep home L t → L !! id = Some r → named_line L cwd ((λ a, GoPath.abs (home ++ ["l"; link_of L a])) <$> ly_line r) (ly_line r).
Proof.
  intros Hrep Hid. apply Forall2_fmap_l, Forall_Forall2_diag, Forall_forall. intros a Ha.
  destruct (rep_line home L t id r a Hrep Hid Ha) as [ra Hra]. split; [done|]. apply named_abs; [|done].
  unfold link_of. rewrite Hra. destruct (rp_layer _ _ _ Hrep _ _ Hra) as [_ Hs].
  repeat constructor; try done; apply (st_link_name _ _ _ _ _ Hs).
Qed.
Lemma rel_line L t id r :
  rep home L t → L !! id = Some r → named_line L home ((λ a, link_ref (link_of L a)) <$> ly_line r) (ly_line r).
Proof.
  intros Hrep Hid. apply Forall2_fmap_l, Forall_Forall2_diag, Forall_forall. intros a Ha.
  destruct (rep_line home L t id r a Hrep Hid Ha) as [ra Hra]. split; [done|].
  apply (named_rel L "l" (link_of L a)); [done|]. unfold link_of. rewrite Hra.
  destruct (rp_layer _ _ _ Hrep _ _ Hra) as [_ Hs]. apply (st_link_name _ _ _ _ _ Hs).
Qed.
End Mounting.
