(* ===== verification/Overlay2Get.v ===== *)
(** * Getting and putting layers of overlay2

    The counted mounts of the driver: the first [Get] of a layer stacks the
    files of its line, the last [Put] takes them apart. *)

From S2P Require Import Prelude FileSys GraphDriver OvlOpts OvlMount OvlOptProps OvlMountProps DriverBase Overlay2.
From S2P Require Import Overlay2Props Overlay2Mount.

(** ** Steps on the host and of the counter *)

Definition set_host (h : Host) (s : OV) : OV :=
  mkOV h (ov_counts s) (ov_bytes s) (ov_reads s) (ov_nbytes s) (ov_nreads s).

Lemma onHost_run {A} (m : M Host A) s r h : m (ov_host s) = (r, h) → onHost m s = (r, set_host h s).
Proof. unfold onHost, zoom. by intros ->. Qed.
Lemma set_host_id s : set_host (ov_host s) s = s.
Proof. by destruct s. Qed.
Lemma host_calm s : calm s → ov_host s = mkHost (mkFS (tree s) []) (ho_mounts (ov_host s)) (ho_inuse (ov_host s)).
Proof. destruct s as [[[n f] m i] ? ? ? ? ?]. unfold calm. simpl. by intros ->. Qed.

Lemma Mounted_run s p :
  calm s → p ≠ [] → mounted_at (ov_host s) p = false → onHost (Mounted p) s = (Ok false, s).
Proof.
  intros Hc Hp Hm. rewrite <-(set_host_id s) at 2. apply onHost_run. rewrite (host_calm s Hc) in *.
  unfold Mounted, attempt, onTree, zoom, syscall, Os.Stat, mbind, M_bind. cbn. unfold Os.Stat, syscall. cbn.
  destruct (node_at (tree s) p); cbn; unfold mounted_at in *; cbn in *; by rewrite ?Hm.
Qed.

Lemma Increment_first s p :
  calm s → p ≠ [] → ov_counts s !! p = None → mounted_at (ov_host s) p = false →
  Increment p s = (Ok 1%Z, ov_set_counts (<[p := mkMinfo true 1]> (ov_counts s)) s).
Proof.
  intros Hc Hp Hn Hm. unfold Increment, incdec. rewrite (bind_ok _ _ _ s s) by done. rewrite Hn. cbn [default from_option id check].
  rewrite (bind_ok _ _ _ 0%Z s); [done|]. by rewrite (bind_ok _ _ _ _ _ (Mounted_run s p Hc Hp Hm)).
Qed.
Lemma incdec_counted s p n f :
  ov_counts s !! p = Some (mkMinfo true n) →
  incdec p f s = (Ok (f n), ov_set_counts (if (f n <=? 0)%Z then delete p (ov_counts s)
                                           else <[p := mkMinfo true (f n)]> (ov_counts s)) s).
Proof.
  intros Hn. unfold incdec. rewrite (bind_ok _ _ _ s s) by done. rewrite Hn. cbn [default from_option id check count].
  by rewrite (bind_ok _ _ _ n s) by done.
Qed.

(** ** The length of the data *)

Lemma join_length (ws : list string) n :
  Forall (λ w, String.length w ≤ n) ws → String.length (GoString.join ":" ws) ≤ length ws * S n - 1.
Proof.
  induction 1 as [|w ws Hw Hws IH]; [done|]. destruct ws as [|v ws]; [cbn; lia|].
  change (GoString.join ":" (w :: v :: ws)) with (w +:+ ":" +:+ GoString.join ":" (v :: ws)).
  rewrite !str_length_app. cbn [length String.length] in *. lia.
Qed.

(** The locks of a mount. *)
Lemma unlocked (i : gset path) (d w : path) : (d ∉ (i ∖ {[w]}) ∖ {[d]}) ∧ (w ∉ (i ∖ {[w]}) ∖ {[d]}).
Proof. rewrite !elem_of_difference, !elem_of_singleton. tauto. Qed.
Lemma unlock_other (i : gset path) (d w p : path) : p ≠ d → p ≠ w → p ∈ (i ∖ {[w]}) ∖ {[d]} ↔ p ∈ i.
Proof. rewrite !elem_of_difference, !elem_of_singleton. tauto. Qed.
Lemma lock_other (i : gset path) (d w p : path) : p ≠ d → p ≠ w → p ∈ {[w]} ∪ ({[d]} ∪ i) ↔ p ∈ i.
Proof. rewrite !elem_of_union, !elem_of_singleton. tauto. Qed.

Section Getting.
Context (kp : ovl_params) (bk : backing) (vo vi : path → path → M MS ()) (home : path)
        (uidMaps gidMaps : option (list Idtools.IDMap)) (quoted : string → string).
Implicit Types (L : gmap string layer_rec) (t : gmap path node).

Lemma lower_length L t id r :
  rep home L t → L !! id = Some r → String.length (lower_of L (ly_line r)) ≤ length (ly_line r) * 29 - 1.
Proof.
  intros Hrep Hid. unfold lower_of. etrans; [apply (join_length _ 28)|by rewrite length_fmap].
  apply Forall_fmap, Forall_forall. intros a Ha. cbn. unfold link_ref, link_of.
  destruct (rep_line home L t id r a Hrep Hid Ha) as [ra Hra]. rewrite Hra. rewrite str_length_app. cbn.
  destruct (rp_layer _ _ _ Hrep _ _ Hra) as [_ Hs]. rewrite (st_link_len _ _ _ _ _ Hs). unfold idLength. lia.
Qed.

(** The data with relative paths always fits a page. *)
Lemma rel_data_fits L t id r :
  rep home L t → L !! id = Some r → String.length id ≤ 173 →
  String.length (rel_data quoted id (lower_of L (ly_line r))) < page_size.
Proof.
  intros Hrep Hid Hlen. pose proof (lower_length L t id r Hrep Hid) as Hl.
  destruct (rp_layer _ _ _ Hrep _ _ Hid) as [_ Hs]. pose proof (st_depth _ _ _ _ _ Hs) as Hd.
  unfold rel_data, FormatMountLabel, mount_opts. cbn [String.eqb]. rewrite !str_length_app.
  unfold page_size, maxDepth in *. cbn [String.length]. lia.
Qed.

Lemma abs_data_of L t id r label :
  rep home L t → L !! id = Some r → ly_line r ≠ [] →
  abs_data home quoted id (lower_of L (ly_line r)) label =
    mount_opts (GoString.join ":" ((λ a, GoPath.abs (home ++ ["l"; link_of L a])) <$> ly_line r))
      (GoPath.abs (home ++ [id; "diff"])) (GoPath.abs (home ++ [id; "work"])) +:+ label.
Proof.
  intros Hrep Hid Hne. destruct (rp_layer _ _ _ Hrep _ _ Hid) as [_ Hs]. unfold abs_data.
  rewrite !(file_name home id) by (done || apply (st_name _ _ _ _ _ Hs)).
  assert (∀ a, a ∈ ly_line r → is_Some (L !! a)) as Hl by (intros a; by eapply rep_line).
  rewrite (split_lower home L t) by done. rewrite <-list_fmap_compose.
  replace ((λ s, GoPath.abs (GoPath.Join home s)) ∘ (λ a, link_ref (link_of L a)) <$> ly_line r)
    with ((λ a, GoPath.abs (home ++ ["l"; link_of L a])) <$> ly_line r).
  - unfold FormatMountLabel. destruct (String.eqb_spec label EmptyString) as [->|]; cbn [negb String.eqb].
    + by rewrite app_nil_r_str.
    + done.
  - pose proof (links_of_line home L t _ Hrep Hl) as Hok. rewrite Forall_fmap in Hok. apply list_fmap_ext.
    intros i a Ha%list_elem_of_lookup_2. unfold compose. rewrite Forall_forall in Hok. by rewrite Join_link_ref by by apply Hok.
Qed.

(** ** The users of a layer *)

Definition merged (id : string) : path := home ++ [id; "merged"].
Definition own_diff (id : string) : path := home ++ [id; "diff"].
Definition own_work (id : string) : path := home ++ [id; "work"].
Definition line_dirs (r : layer_rec) : list path := (λ a, home ++ [a; "diff"]) <$> ly_line r.

(** [n] users hold a layer: with none it is not mounted, with some the files of
    its line are stacked under its own. *)
Record holds L (id : string) (r : layer_rec) (n : nat) (simp : bool) (s : OV) : Prop := {
  hd_calm : calm s;
  hd_rep : rep home L (tree s);
  hd_below : ∀ c l, tree s !! (home ++ id :: "merged" :: c :: l) = None;
  hd_state :
    match n with
    | 0 => ov_counts s !! merged id = None ∧ ho_mounts (ov_host s) !! merged id = None ∧
           tree s !! merged id = None ∧ (own_diff id ∉ ho_inuse (ov_host s)) ∧ (own_work id ∉ ho_inuse (ov_host s))
    | S _ => ov_counts s !! merged id = Some (mkMinfo true (Z.of_nat n)) ∧ tree s !! merged id = Some Dir ∧
             ∃ o, ho_mounts (ov_host s) !! merged id = Some [o] ∧
                  mounts_as o (own_diff id) (own_work id) (line_dirs r) simp
    end;
}.

(** What using a layer leaves as it is. *)
Record aside (id : string) (s s' : OV) : Prop := {
  as_counts : ∀ p, p ≠ merged id → ov_counts s' !! p = ov_counts s !! p;
  as_mounts : ∀ p, p ≠ merged id → ho_mounts (ov_host s') !! p = ho_mounts (ov_host s) !! p;
  as_inuse : ∀ p, p ≠ own_diff id → p ≠ own_work id → p ∈ ho_inuse (ov_host s') ↔ p ∈ ho_inuse (ov_host s);
  as_tree : mount_touches home (tree s) (tree s');
}.
Lemma aside_refl id s : aside id s s.
Proof. by split. Qed.
Lemma aside_trans id s1 s2 s3 : aside id s1 s2 → aside id s2 s3 → aside id s1 s3.
Proof.
  intros [C1 M1 I1 T1] [C2 M2 I2 T2]. split.
  - intros p Hp. by rewrite C2, C1.
  - intros p Hp. by rewrite M2, M1.
  - intros p Hd Hw. by rewrite I2, I1.
  - by eapply touches_trans.
Qed.
Lemma aside_counts id s c : (∀ p, p ≠ merged id → c !! p = ov_counts s !! p) → aside id s (ov_set_counts c s).
Proof. intros Hc. by split. Qed.

Section Layer.
Context (L : gmap string layer_rec) (id : string) (r : layer_rec).
Context (Hid : L !! id = Some r) (Hline : ly_line r ≠ []).

Lemma lower_file s : rep home L (tree s) → calm s →
  name_ok id ∧ onDisk (Os.ReadFile (file home id lowerFile)) s = (Ok (lower_of L (ly_line r)), s).
Proof.
  intros Hrep Hc. destruct (rp_layer _ _ _ Hrep _ _ Hid) as [_ Hs]. pose proof (st_name _ _ _ _ _ Hs) as Hn.
  split; [done|]. rewrite (file_name home id) by done. apply onDisk_read; [done|]. apply ReadFile_run; [apply home_ne|].
  change lowerFile with "lower". rewrite (st_lower _ _ _ _ _ Hs). by destruct (ly_line r).
Qed.

(** The way to the counter. *)
Lemma Get_counts label s :
  rep home L (tree s) → calm s →
  Get kp bk vo vi home uidMaps gidMaps quoted id label s =
    (c ← Increment (merged id);
     if (1 <? c)%Z then mret (merged id)
     else defer_on_error (get_body kp bk vo vi home uidMaps gidMaps quoted id (lower_of L (ly_line r)) label)
            (get_undo home id)) s.
Proof.
  intros Hrep Hc. destruct (lower_file s Hrep Hc) as [Hn Hlow]. destruct (rp_layer _ _ _ Hrep _ _ Hid) as [_ Hs].
  unfold Get. rewrite (dir_name home id), (file_name home id "merged") by done.
  assert (node_at (tree s) (home ++ [id]) = Some Dir) as Hd by (rewrite node_at_ne by apply home_ne; apply (st_dir _ _ _ _ _ Hs)).
  rewrite (bind_ok _ _ _ _ _ (onDisk_read _ _ _ Hc (Stat_run _ _ _ Hd))).
  by rewrite (bind_ok _ _ _ _ _ (attempt_ok _ _ _ _ Hlow)).
Qed.

(** A layer in use is counted once more. *)
Lemma Get_more n simp label s :
  holds L id r (S n) simp s →
  ∃ s', Get kp bk vo vi home uidMaps gidMaps quoted id label s = (Ok (merged id), s') ∧
        holds L id r (S (S n)) simp s' ∧ aside id s s'.
Proof.
  intros [Hc Hrep Hb (Hcnt&Hm&Ho)]. rewrite Get_counts by done. unfold Increment.
  rewrite (bind_ok _ _ _ _ _ (incdec_counted s _ _ Z.succ Hcnt)).
  rewrite (proj2 (Z.ltb_lt 1 _)), (proj2 (Z.leb_gt _ 0)) by lia. eexists. split; [done|]. split; [|apply aside_counts].
  - split; [done..|]. split; [|done]. cbn. rewrite lookup_insert_eq. do 2 f_equal. lia.
  - intros p Hp. by rewrite lookup_insert_ne.
Qed.
Lemma Put_more n simp s :
  holds L id r (S (S n)) simp s →
  ∃ s', Put home id s = (Ok tt, s') ∧ holds L id r (S n) simp s' ∧ aside id s s'.
Proof.
  intros [Hc Hrep Hb (Hcnt&Hm&Ho)]. destruct (lower_file s Hrep Hc) as [Hn Hlow]. unfold Put.
  rewrite (file_name home id "merged") by done. fold (merged id).
  rewrite (bind_ok _ _ _ _ _ (attempt_ok _ _ _ _ Hlow)). unfold Decrement.
  rewrite (bind_ok _ _ _ _ _ (incdec_counted s _ _ Z.pred Hcnt)).
  rewrite (proj2 (Z.ltb_lt 0 _)), (proj2 (Z.leb_gt _ 0)) by lia. eexists. split; [done|]. split; [|apply aside_counts].
  - split; [done..|]. split; [|done]. cbn. rewrite lookup_insert_eq. do 2 f_equal. lia.
  - intros p Hp. by rewrite lookup_insert_ne.
Qed.

Lemma sys_unmount_run t m i p o up wk lows simp :
  m !! p = Some [o] → mounts_as o up wk lows simp →
  sys_unmount p (mkHost (mkFS t []) m i) = (Ok tt, mkHost (mkFS t []) (delete p m) ((i ∖ {[wk]}) ∖ {[up]})).
Proof.
  intros Hp [Mu _ Mw _ _ [Lu Lw] _ _]. unfold sys_unmount.
  rewrite (bind_ok _ _ _ tt (mkHost (mkFS t []) m i)) by done.
  rewrite (bind_ok _ _ _ (mkHost (mkFS t []) m i) (mkHost (mkFS t []) m i)) by done. cbn [ho_mounts]. rewrite Hp.
  rewrite (bind_ok _ _ _ o (mkHost (mkFS t []) m ((i ∖ {[wk]}) ∖ {[up]}))); [done|].
  unfold with_super, ovl_free_fs. cbn [ho_fs ho_inuse ho_mounts].
  rewrite (bind_ok _ _ _ o (mkMS (mkFS t []) i o)) by done. by rewrite Lu, Lw, Mu, Mw.
Qed.
Lemma sys_rmdir_run t m i (p : path) :
  m !! p = None → t !! p = Some Dir → (∀ c l, t !! (p ++ c :: l) = None) →
  sys_rmdir p (mkHost (mkFS t []) m i) = (Ok tt, mkHost (mkFS (delete p t) []) m i).
Proof.
  intros Hm Hp Hb. unfold sys_rmdir. rewrite (bind_ok _ _ _ (mkHost (mkFS t []) m i) (mkHost (mkFS t []) m i)) by done.
  unfold mounted_at. cbn [ho_mounts]. rewrite Hm. unfold onTree, zoom, OsLink.Rmdir, syscall. cbn. rewrite Hp.
  assert (Os.has_children t p = false) as ->; [|done]. apply bool_decide_eq_false_2. intros Hne. apply Hne.
  apply map_eq. intros q. rewrite lookup_empty. apply map_lookup_filter_None. right.
  intros n Hq [[k Hk]%below_spec Hqp]. cbn in *. subst q. destruct k as [|c l]; [by rewrite app_nil_r in Hqp|].
  by rewrite Hb in Hq.
Qed.

(** The last user takes the stack apart. *)
Lemma Put_last simp s :
  holds L id r 1 simp s →
  ∃ s', Put home id s = (Ok tt, s') ∧ holds L id r 0 simp s' ∧ aside id s s'.
Proof.
  intros [Hc Hrep Hb (Hcnt&Hm&o&Ho&Has)]. destruct (lower_file s Hrep Hc) as [Hn Hlow].
  destruct (rp_layer _ _ _ Hrep _ _ Hid) as [Hidl _]. unfold Put.
  rewrite (file_name home id "merged") by done. fold (merged id).
  rewrite (bind_ok _ _ _ _ _ (attempt_ok _ _ _ _ Hlow)). unfold Decrement.
  rewrite (bind_ok _ _ _ _ _ (incdec_counted s _ _ Z.pred Hcnt)). 
  change (0 <? Z.pred (Z.of_nat 1))%Z with false. change (Z.pred (Z.of_nat 1) <=? 0)%Z with true. cbv iota.
  set (s1 := ov_set_counts (delete (merged id) (ov_counts s)) s).
  set (i' := (ho_inuse (ov_host s) ∖ {[own_work id]}) ∖ {[own_diff id]}).
  set (m' := delete (merged id) (ho_mounts (ov_host s))).
  assert (onHost (sys_unmount (merged id)) s1 = (Ok tt, set_host (mkHost (mkFS (tree s) []) m' i') s1)) as Hum.
  { apply onHost_run. change (ov_host s1) with (ov_host s). rewrite (host_calm s Hc). by eapply sys_unmount_run. }
  rewrite (bind_ok _ _ _ _ _ (ignore_ok _ _ _ _ Hum)).
  assert (onHost (sys_rmdir (merged id)) (set_host (mkHost (mkFS (tree s) []) m' i') s1) =
    (Ok tt, set_host (mkHost (mkFS (delete (merged id) (tree s)) []) m' i') s1)) as Hrm.
  { erewrite onHost_run; [done|]. apply sys_rmdir_run; [apply lookup_delete_eq|done|]. intros c l. unfold merged.
    rewrite <-app_assoc. apply Hb. }
  rewrite (ignore_ok _ _ _ _ Hrm). eexists. split; [done|]. split; split.
  - done.
  - eapply rep_touches; [exact Hrep|]. by apply touches_unmerged.
  - intros c l. cbn. rewrite lookup_delete_ne; [apply Hb|]. by intros [=]%app_inv_head.
  - cbn. split_and!; [apply lookup_delete_eq..|apply unlocked|apply unlocked].
  - intros p Hp. cbn. by rewrite lookup_delete_ne.
  - intros p Hp. cbn. unfold m'. by rewrite lookup_delete_ne.
  - intros p Hd Hw. by apply unlock_other.
  - by apply touches_unmerged.
Qed.

(** ** The first user *)

Context (Hhome : Forall name_ok home) (Hbk : backing_ok bk) (Hkp : defaults_off kp).

Definition data_length (label : string) : nat := String.length (abs_data home quoted id (lower_of L (ly_line r)) label).

(** What the kernel is asked for, and what it makes of it. *)
Lemma mount_step s (simp : bool) :
  let label := if simp then simp_label else EmptyString in
  let fits := data_length label <=? page_size in
  data_length label ≠ page_size → String.length id ≤ 173 →
  calm s → rep home L (tree s) → tree s !! merged id = Some Dir → ho_mounts (ov_host s) !! merged id = None →
  own_diff id ∉ ho_inuse (ov_host s) → own_work id ∉ ho_inuse (ov_host s) →
  ∃ o, (if fits
        then onHost (sys_mount kp bk vo vi [] (GoPath.abs (merged id)) (abs_data home quoted id (lower_of L (ly_line r)) label))
        else mountFrom kp bk vo vi home (id +:+ "/merged") (rel_data quoted id (lower_of L (ly_line r)))) s =
         (Ok tt, set_host (mkHost (mkFS (remade (tree s) (home ++ [id; "work"; "work"])) [])
                   (<[merged id := [o]]> (ho_mounts (ov_host s)))
                   ({[own_work id]} ∪ ({[own_diff id]} ∪ ho_inuse (ov_host s)))) s) ∧
       mounts_as o (own_diff id) (own_work id) (line_dirs r) (simp && fits).
Proof.
  intros label fits Hne Hlen Hc Hrep Hm Hnm Hdi Hwi.
  destruct (rp_layer _ _ _ Hrep _ _ Hid) as [_ Hs]. pose proof (st_name _ _ _ _ _ Hs) as Hn.
  assert (∀ f, name_ok f → Forall name_ok [id; f]) as Hnames by (intros f Hf; by rewrite !Forall_cons, Forall_nil).
  destruct fits eqn:Hfits; unfold fits in Hfits.
  - apply Nat.leb_le in Hfits. rewrite andb_true_r. unfold data_length in *. unfold label in *.
    rewrite (abs_data_of L (tree s) id r) in * by done.
    destruct (layer_mount kp bk vo vi home Hbk Hkp L [] (tree s) (ho_mounts (ov_host s)) (ho_inuse (ov_host s)) id r
      (GoPath.abs (own_diff id)) (GoPath.abs (own_work id)) (GoPath.abs (merged id))
      ((λ a, GoPath.abs (home ++ ["l"; link_of L a])) <$> ly_line r) simp
      Hrep Hid Hline Hm Hdi Hwi) as (o&Hrun&Has).
    1: apply (named_abs home Hhome L [] [id; "diff"]); [by apply Hnames|done].
    1: apply (named_abs home Hhome L [] [id; "work"]); [by apply Hnames|done].
    1: apply (named_abs home Hhome L [] [id; "merged"]); [by apply Hnames|done].
    { by eapply abs_line. }
    { unfold own_diff, own_work. lia. }
    exists o. split; [|done]. apply onHost_run. rewrite (host_calm s Hc) at 1. etrans; [exact Hrun|].
    fold (merged id). by rewrite Hnm.
  - rewrite andb_false_r. unfold mountFrom.
    rewrite (bind_ok _ _ _ tt s).
    2: { apply onDisk_read; [done|]. pose proof (rp_home _ _ _ Hrep (length home)) as Hh. rewrite firstn_all in Hh.
         unfold syscall. cbn. by rewrite Hh. }
    pose proof (rel_data_fits L (tree s) id r Hrep Hid Hlen) as Hrl. unfold rel_data, FormatMountLabel in *. cbn [String.eqb] in *.
    destruct (layer_mount kp bk vo vi home Hbk Hkp L home (tree s) (ho_mounts (ov_host s)) (ho_inuse (ov_host s)) id r
      (id +:+ "/diff") (id +:+ "/work") (id +:+ "/merged")
      ((λ a, link_ref (link_of L a)) <$> ly_line r) false Hrep Hid Hline Hm Hdi Hwi) as (o&Hrun&Has).
    1: apply (named_rel home L id "diff"); done.
    1: apply (named_rel home L id "work"); done.
    1: apply (named_rel home L id "merged"); done.
    { by eapply rel_line. }
    { by rewrite app_nil_r_str. }
    rewrite app_nil_r_str in Hrun. exists o. split; [|done]. apply onHost_run. rewrite (host_calm s Hc) at 1.
    etrans; [exact Hrun|]. fold (merged id). by rewrite Hnm.
Qed.

Lemma get_mount_run (mount : M OV ()) s t m i :
  name_ok id → mount s = (Ok tt, set_host (mkHost (mkFS t []) m i) s) → t !! (home ++ [id; "work"; "work"]) = Some Dir →
  get_mount home id mount s = (Ok (merged id), set_host (mkHost (mkFS t []) m i) s).
Proof.
  intros Hn Hm Hw. unfold get_mount. rewrite (bind_ok _ _ _ _ _ (attempt_ok _ _ _ _ Hm)).
  rewrite !(file_name home id) by done. rewrite (Join_name (home ++ [id; "work"])) by done.
  replace ((home ++ [id; "work"]) ++ ["work"]) with (home ++ [id; "work"; "work"]) by by rewrite <-app_assoc.
  set (s' := set_host _ s).
  assert (onDisk (OsLink.Chown (home ++ [id; "work"; "work"])) s' = (Ok tt, s')) as Hch.
  { apply onDisk_read; [done|]. eapply Chown_run. rewrite node_at_ne by apply home_ne. exact Hw. }
  by rewrite (bind_ok _ _ _ _ _ Hch).
Qed.

Context (ug : Z * Z) (Hroot : Idtools.GetRootUIDGID uidMaps gidMaps = inr ug).

Lemma mkdir_merged s :
  calm s → rep home L (tree s) → tree s !! merged id = None →
  onDisk (Idtools.MkdirAndChown (merged id)) s = (Ok tt, set_tree (<[merged id := Dir]> (tree s)) s).
Proof.
  intros Hc Hrep Hm. destruct (rp_layer _ _ _ Hrep _ _ Hid) as [_ Hs]. apply onDisk_run; [done|].
  apply MkdirAndChown_run; [apply home_ne|done|]. unfold merged. rewrite parent_two. apply is_dir_home, (st_dir _ _ _ _ _ Hs).
Qed.

(** The first user has the files of the line stacked.  Whether the mount is a
    simplified one is what the label says, if the data fits a page with it. *)
Lemma Get_first s s0 (simp : bool) :
  let label := if simp then simp_label else EmptyString in
  data_length label ≠ page_size → String.length id ≤ 173 → holds L id r 0 s0 s →
  ∃ s', Get kp bk vo vi home uidMaps gidMaps quoted id label s = (Ok (merged id), s') ∧
        holds L id r 1 (simp && (data_length label <=? page_size)) s' ∧ aside id s s'.
Proof.
  intros label Hne Hlen [Hc Hrep Hb (Hcnt&Hnm&Hm&Hdi&Hwi)]. rewrite Get_counts by done.
  destruct (rp_layer _ _ _ Hrep _ _ Hid) as [Hidl Hs]. pose proof (st_name _ _ _ _ _ Hs) as Hn.
  rewrite (bind_ok _ _ _ _ _ (Increment_first s (merged id) Hc (home_ne _ _ _) Hcnt
    ltac:(unfold mounted_at; by rewrite Hnm))).
  change (1 <? 1)%Z with false. cbv iota. set (s1 := ov_set_counts _ s).
  unfold defer_on_error, defer_when, get_body. rewrite (bind_ok _ _ _ ug s1) by (by unfold of_sum; rewrite Hroot).
  destruct ug as [u g]. rewrite (file_name home id "merged") by done. fold (merged id).
  rewrite (bind_ok _ _ _ _ _ (mkdir_merged s1 Hc Hrep Hm)). set (s2 := set_tree _ s1).
  assert (rep home L (tree s2)) as Hrep2 by (eapply rep_touches; [exact Hrep|by apply touches_merged]).
  destruct (mount_step s2 simp Hne Hlen eq_refl Hrep2) as (o&Hrun&Has); [apply lookup_insert_eq|done..|].
  fold label in Hrun, Has. set (fits := data_length label <=? page_size) in *. fold (data_length label).
  rewrite !Nat.ltb_antisym. fold fits.
  rewrite (proj2 (Nat.leb_le _ page_size) (Nat.lt_le_incl _ _ (rel_data_fits L (tree s) id r Hrep Hid Hlen))). cbn [negb].
  set (s3 := set_host _ s2) in Hrun.
  replace ((if negb fits then _ else _) s2) with (get_mount home id
    (if fits then onHost (sys_mount kp bk vo vi [] (GoPath.abs (merged id)) (abs_data home quoted id (lower_of L (ly_line r)) label))
     else mountFrom kp bk vo vi home (id +:+ "/merged") (rel_data quoted id (lower_of L (ly_line r)))) s2) by by destruct fits.
  assert (remade (tree s2) (home ++ [id; "work"; "work"]) !! (home ++ [id; "work"; "work"]) = Some Dir) as Hww
    by apply lookup_insert_eq.
  rewrite (get_mount_run _ _ _ _ _ Hn Hrun Hww). eexists. split; [reflexivity|].
  assert (mount_touches home (tree s) (tree s3)) as Ht.
  { eapply touches_trans; [by apply (touches_merged home (tree s) id Dir)|apply touches_remade]. }
  split; split.
  - done.
  - exact (rep_touches home L (tree s) (tree s3) Hrep Ht).
  - intros c l. cbn. rewrite remade_other.
    + rewrite lookup_insert_ne; [apply Hb|by intros [=]%app_inv_head].
    + intros [k Hk]. rewrite <-app_assoc in Hk. by apply app_inv_head in Hk.
  - split_and!; [apply lookup_insert_eq| |exists o; split; [apply lookup_insert_eq|done]]. cbn. rewrite remade_other.
    + apply lookup_insert_eq.
    + apply prefix_long. unfold merged. rewrite length_app. simpl. lia.
  - intros p Hp. cbn. by rewrite lookup_insert_ne.
  - intros p Hp. cbn. by rewrite lookup_insert_ne.
  - intros p Hd Hw. by apply lock_other.
  - done.
Qed.
End Layer.
End Getting.
