(* ===== verification/Overlay2Users.v ===== *)
(** * The users of the layers of overlay2

    What the container store relies on: the line of a layer is the one of its
    parent and the parent, a mount stacks exactly that line, and users that come
    and go leave the layer as it was.

    A host with two layers: A driver on a host that works: a base and a layer on it, made by the driver
    itself; and how to check a representation by computation. *)

From S2P Require Import Prelude FileSys GraphDriver OvlOpts OvlMount OvlOptProps OvlMountProps DriverBase Overlay2 Overlay2Props Overlay2Mount Overlay2Get.

(** ** Checking a representation *)

Section Checks.
Context (home : path).
Implicit Types (L : gmap string layer_rec) (t : gmap path node).

Definition name_ok_b (s : string) : bool := negb (String.eqb s EmptyString) && GoString.all_chars id_char s.
Definition stored_b L t (id : string) (r : layer_rec) : bool :=
  forallb (λ b : bool, b)
    [name_ok_b id; name_ok_b (ly_link r);
     bool_decide (t !! (home ++ [id]) = Some Dir); bool_decide (t !! (home ++ [id; "diff"]) = Some Dir);
     bool_decide (t !! (home ++ [id; "link"]) = Some (File (ly_link r)));
     bool_decide (t !! (home ++ ["l"; ly_link r]) = Some (FileSys.Symlink (link_target id)));
     bool_decide (t !! (home ++ [id; "lower"]) = match ly_line r with [] => None | line => Some (File (lower_of L line)) end);
     bool_decide (ly_line r = [] ∨ t !! (home ++ [id; "work"]) = Some Dir);
     match ly_line r with [] => true | p :: rest => bool_decide (ly_line <$> L !! p = Some rest) end;
     length (ly_line r) <=? maxDepth; String.length (ly_link r) =? idLength].
Definition rep_b L t : bool :=
  forallb (λ n, is_dir t (take n home)) (seq 0 (S (length home))) && bool_decide (t !! (home ++ ["l"]) = Some Dir) &&
  forallb (λ kv, negb (String.eqb kv.1 "l") && stored_b L t kv.1 kv.2) (map_to_list L).

Lemma name_ok_b_ok s : name_ok_b s = true → name_ok s.
Proof. unfold name_ok_b. intros [Hn Hc]%andb_prop. split; [|done]. intros ->. done. Qed.
Lemma stored_b_ok L t id r : stored_b L t id r = true → stored home L t id r.
Proof.
  unfold stored_b. cbn [forallb]. rewrite !andb_true_iff. intros (H1&H2&H3&H4&H5&H6&H7&H8&H9&H10&H11&_).
  apply name_ok_b_ok in H1, H2. apply bool_decide_eq_true in H3, H4, H5, H6, H7, H8. apply Nat.leb_le in H10. apply Nat.eqb_eq in H11.
  split; try done.
  - intros Hl. by destruct H8.
  - destruct (ly_line r) as [|p rest]; [done|]. apply bool_decide_eq_true in H9.
    destruct (L !! p) as [[lp ln]|]; [|done]. injection H9 as ->. by exists lp.
Qed.
Lemma rep_b_ok L t : rep_b L t = true → rep home L t.
Proof.
  unfold rep_b. intros [[Hh Hl]%andb_prop Ha]%andb_prop. rewrite forallb_forall in Hh, Ha. split.
  - intros n. destruct (decide (n ≤ length home)) as [Hn|Hn].
    + apply Hh, list_elem_of_In, elem_of_seq. lia.
    + rewrite take_ge by lia. rewrite <-(firstn_all home). apply Hh, list_elem_of_In, elem_of_seq. lia.
  - by apply bool_decide_eq_true in Hl.
  - intros id r Hid. apply elem_of_map_to_list, list_elem_of_In, Ha in Hid as [Hi Hs]%andb_prop. split; [|by apply stored_b_ok].
    intros ->. done.
Qed.
End Checks.

(** Nothing of a tree is below a path, by its entries. *)
Lemma none_below (t : gmap path node) (p : path) :
  forallb (λ kv, negb (Os.below p kv.1)) (map_to_list t) = true → vacant t p.
Proof.
  intros Hall q Hq. destruct (t !! q) as [n|] eqn:Hn; [|done]. apply elem_of_map_to_list in Hn.
  rewrite forallb_forall in Hall. apply list_elem_of_In, Hall in Hn. cbn in Hn. by apply negb_true_iff, not_below_spec in Hn.
Qed.

(** ** Two layers below a home directory *)

Module Demo.
Definition kernel : ovl_params := mkParams false true false false false.
Definition disk : backing := mkBacking false 0 false false true true true.
Definition verify (_ _ : path) : M MS () := mret tt.
Definition quoted (s : string) : string := s.
Definition noQuota (_ : path) (_ : Z) : M FS () := mret tt.
Definition size_of (_ : string) : error + Z := inl (Errorf "invalid size").
Definition range (m : gmap string string) : list (string * string) := map_to_list m.

(** Bytes that count up. *)
Definition bytes (n : nat) : ascii := ascii_of_nat n.
Definition start_in (home : path) : OV :=
  mkOV (mkHost (mkFS (list_to_map ((λ p, (p, Dir)) <$> (home ++ ["l"]) :: ((λ n, take (S n) home) <$> seq 0 (length home)))) []) ∅ ∅)
    ∅ bytes (λ _, None) 0 0.
Definition make (home : path) (id parent : string) : M OV () := create home None None false noQuota size_of range id parent None.
Definition base_in (home : path) : OV := snd (make home "a" "" (start_in home)).
Definition layered_in (home : path) : OV := snd (make home "b" "a" (base_in home)).
Definition rec_b (home : path) : layer_rec := mkLayer (next_link (base_in home)) ["a"].
Definition layers_in (home : path) : gmap string layer_rec :=
  <["b" := rec_b home]> (<["a" := mkLayer (next_link (start_in home)) []]> ∅).

(** Nobody uses the upper layer yet, by computation. *)
Lemma idle_in home :
  calm (layered_in home) → rep_b home (layers_in home) (tree (layered_in home)) = true →
  forallb (λ kv, negb (Os.below (home ++ ["b"; "merged"]) kv.1)) (map_to_list (tree (layered_in home))) = true →
  ov_counts (layered_in home) = ∅ → ho_mounts (ov_host (layered_in home)) = ∅ → ho_inuse (ov_host (layered_in home)) = ∅ →
  holds home (layers_in home) "b" (rec_b home) 0 false (layered_in home).
Proof.
  intros Hc Hrep%rep_b_ok Hb%none_below Hcnt Hm Hi. split; [done|done| |].
  - intros c l. apply Hb. exists (c :: l). by rewrite <-app_assoc.
  - rewrite Hcnt, Hm, Hi. split_and!; [done|done|by apply Hb|apply not_elem_of_empty..].
Qed.

(** A short home directory. *)
Definition home : path := ["o"].
Definition start : OV := start_in home.
Definition layered : OV := layered_in home.
Definition layers : gmap string layer_rec := layers_in home.
Lemma start_vacant id : id ≠ "l" → vacant (tree start) (home ++ [id]).
Proof.
  intros Hid q [k ->]. cbn. rewrite lookup_insert_ne by congruence. rewrite lookup_insert_ne by done. done.
Qed.
Lemma start_rep : rep home ∅ (tree start).
Proof. apply rep_b_ok. by vm_compute. Qed.
Lemma layered_rep : rep home layers (tree layered).
Proof. apply rep_b_ok. by vm_compute. Qed.
Lemma layered_idle : holds home layers "b" (rec_b home) 0 false layered.
Proof. apply idle_in; by vm_compute. Qed.

(** One as long as it takes for the data of a simplified mount to be a page. *)
Definition x222 : string := Base32.repeat_char 222 "x"%char.
Definition deep : path := [x222; x222; x222; x222; x222; x222 +:+ "x"].
Lemma deep_idle : holds deep (layers_in deep) "b" (rec_b deep) 0 false (layered_in deep).
Proof. apply idle_in; by vm_compute. Qed.
End Demo.

(** ** The users of the layers of overlay2 *)

(** ** Sequences of uses *)

(** A user gets the layer, as a simplified one or not, or puts it back. *)
Inductive use := UseGet (simp : bool) | UsePut.

(** The users after a sequence of uses, if nobody puts what nobody holds. *)
Fixpoint users (n : nat) (us : list use) : option nat :=
  match us with
  | [] => Some n
  | UseGet _ :: us => users (S n) us
  | UsePut :: us => match n with 0 => None | S n => users n us end
  end.

Section Users.
Context (kp : ovl_params) (bk : backing) (vo vi : path → path → M MS ()) (home : path)
        (uidMaps gidMaps : option (list Idtools.IDMap)) (quoted : string → string).
Implicit Types (L : gmap string layer_rec) (t : gmap path node).

Definition label_of (simp : bool) : string := if simp then simp_label else EmptyString.
Definition run_use (id : string) (u : use) : M OV () :=
  match u with
  | UseGet simp => _ ← Get kp bk vo vi home uidMaps gidMaps quoted id (label_of simp); mret tt
  | UsePut => Put home id
  end.

(** The conditions of a host that works: the kernel's defaults, its file system,
    and the owner of the files. *)
Record host_ok : Prop := {
  ok_home : Forall name_ok home;
  ok_backing : backing_ok bk;
  ok_defaults : defaults_off kp;
  ok_root : ∃ ug, Idtools.GetRootUIDGID uidMaps gidMaps = inr ug;
}.

(** C20. The first [Get] of a layer with parents mounts, on its directory merged,
    the files of exactly its line under its own, with its own work directory, and
    touches nothing else.  The mount is a simplified one if the label asks for it
    and the data fits a page with absolute paths: the relative paths the driver
    falls back on come without the label. *)
Theorem Get_stacks_line L id r s (simp0 simp : bool) :
  host_ok → L !! id = Some r → ly_line r ≠ [] → String.length id ≤ 173 → holds home L id r 0 simp0 s →
  data_length home quoted L id r (label_of simp) ≠ page_size →
  ∃ s' o, Get kp bk vo vi home uidMaps gidMaps quoted id (label_of simp) s = (Ok (merged home id), s') ∧
    ho_mounts (ov_host s') !! merged home id = Some [o] ∧
    ofs_upper o = Some (own_diff home id) ∧ ofs_workbasedir o = Some (own_work home id) ∧ ofs_lower o = line_dirs home r ∧
    sb_rdonly o = false ∧
    cf_simp (ofs_config o) = simp && (data_length home quoted L id r (label_of simp) <=? page_size) ∧
    rep home L (tree s') ∧ aside home id s s'.
Proof.
  intros [Hhome Hbk Hkp [ug Hroot]] Hid Hline Hlen Hh Hne.
  destruct (Get_first kp bk vo vi home uidMaps gidMaps quoted L id r Hid Hline Hhome Hbk Hkp ug Hroot s simp0 simp Hne Hlen Hh)
    as (s'&Hrun&[_ Hrep _ (_&_&o&Ho&[? ? ? ? ? ? ? ?])]&Has).
  by exists s', o.
Qed.

Lemma use_run L id r n n1 simp u us s :
  host_ok → L !! id = Some r → ly_line r ≠ [] → String.length id ≤ 173 →
  (∀ b, data_length home quoted L id r (label_of b) ≠ page_size) →
  holds home L id r n simp s → users n (u :: us) = Some n1 →
  ∃ n' simp' s', run_use id u s = (Ok tt, s') ∧ holds home L id r n' simp' s' ∧ aside home id s s' ∧ users n' us = Some n1.
Proof.
  intros [Hhome Hbk Hkp [ug Hroot]] Hid Hline Hlen Hne Hh Hus. destruct u as [b|]; cbn [users run_use] in *.
  - destruct n as [|n].
    + destruct (Get_first kp bk vo vi home uidMaps gidMaps quoted L id r Hid Hline Hhome Hbk Hkp ug Hroot s simp b (Hne b) Hlen Hh)
        as (s'&Hrun&Hh'&Has).
      eexists 1, _, s'. by rewrite (bind_ok _ _ _ _ _ Hrun).
    + destruct (Get_more kp bk vo vi home uidMaps gidMaps quoted L id r Hid Hline n simp (label_of b) s Hh) as (s'&Hrun&Hh'&Has).
      eexists (S (S n)), _, s'. by rewrite (bind_ok _ _ _ _ _ Hrun).
  - destruct n as [|[|n]]; [done| |].
    + destruct (Put_last home L id r Hid Hline simp s Hh) as (s'&Hrun&Hh'&Has). by eexists 0, _, s'.
    + destruct (Put_more home L id r Hid Hline n simp s Hh) as (s'&Hrun&Hh'&Has). by eexists (S n), _, s'.
Qed.

(** C21. Any sequence of [Get]s and [Put]s of a layer, in which nobody puts what
    nobody holds, succeeds; the layer is mounted exactly while somebody holds it,
    the other layers, mounts and counts stay as they are. *)
Theorem uses_balance L id r us n n' simp s :
  host_ok → L !! id = Some r → ly_line r ≠ [] → String.length id ≤ 173 →
  (∀ b, data_length home quoted L id r (label_of b) ≠ page_size) →
  holds home L id r n simp s → users n us = Some n' →
  ∃ s' simp', for_each us (run_use id) s = (Ok tt, s') ∧ holds home L id r n' simp' s' ∧ aside home id s s' ∧
    (mounted_at (ov_host s') (merged home id) = true ↔ 0 < n').
Proof.
  intros Hok Hid Hline Hlen Hne. revert n simp s. induction us as [|u us IH]; intros n simp s Hh Hus.
  - injection Hus as ->. exists s, simp. split_and!; [done|done|apply aside_refl|]. unfold mounted_at.
    pose proof (hd_state _ _ _ _ _ _ _ Hh) as Hst. destruct n' as [|n'].
    + destruct Hst as (_&->&_). split; [done|lia].
    + destruct Hst as (_&_&o&->&_). split; [lia|done].
  - destruct (use_run _ _ _ _ _ _ _ _ _ Hok Hid Hline Hlen Hne Hh Hus) as (n1&simp1&s1&Hrun&Hh1&Ha1&Hus1).
    destruct (IH _ _ _ Hh1 Hus1) as (s'&simp'&Hruns&Hh'&Ha'&Hm). exists s', simp'. cbn [for_each].
    rewrite (bind_ok _ _ _ _ _ Hrun). split_and!; [done|done|by eapply aside_trans|done].
Qed.

(** The driver's fallback for long lines works: with paths relative to its
    home directory the data of any layer it has made fits a page with its end, up
    to the longest line and for names up to 173 characters. *)
Theorem fallback_fits_page L t id r :
  rep home L t → L !! id = Some r → String.length id ≤ 173 →
  String.length (rel_data quoted id (lower_of L (ly_line r))) < page_size.
Proof. apply rel_data_fits. Qed.
End Users.

(** The names of links: [generateID], whenever it returns, has drawn at most
    ten times and gives a string of the length asked for, of letters and digits
    only; it changes nothing but how far the random bytes are read. *)
Theorem generateID_names l s x s' :
  generateID l s = (Ok x, s') →
  String.length x = l ∧ GoString.all_chars id_char x = true ∧ ov_host s' = ov_host s ∧ ov_counts s' = ov_counts s ∧
  ov_nreads s' ≤ ov_nreads s + S maxretries.
Proof.
  intros Hg. destruct (generateID_ok l s x s' Hg) as (Hl&Hc&Hh&Hcn). split_and!; try done.
  revert Hg. unfold generateID, mbind, M_bind. generalize maxretries as more. intros more.
  assert (∀ more size u s1 b s2, read_random more size u s1 = (Ok b, s2) → ov_nreads s2 ≤ ov_nreads s1 + S more) as Hr.
  { clear. induction more as [|more IH]; intros size u s1 b s2; cbn [read_random]; unfold mbind, M_bind, ReadFull;
      destruct (ov_reads s1 (ov_nreads s1)) as [[m retry]|]; cbn; try done.
    - intros [= <- <-]. cbn. lia.
    - destruct retry; [|done]. intros Hs%IH. cbn in Hs. lia.
    - intros [= <- <-]. cbn. lia. }
  destruct (read_random more _ [] s) as [[u|e|m] s1] eqn:H1; [|done|done]. intros [= <- <-]. by eapply Hr.
Qed.

(** ** On a host with two layers *)

Lemma demo_ok : host_ok Demo.kernel Demo.disk Demo.home None None.
Proof. split; [by apply Forall_singleton|by split_and!; cbn; try lia|done|by eexists]. Qed.
Lemma demo_data b : data_length Demo.home Demo.quoted Demo.layers "b" (Demo.rec_b Demo.home) (label_of b) ≠ page_size.
Proof. apply Nat.eqb_neq. destruct b; by vm_compute. Qed.

Lemma Get_stacks_line_witness :
  ∃ s' o, Get Demo.kernel Demo.disk Demo.verify Demo.verify Demo.home None None Demo.quoted "b" ",simp=on" Demo.layered =
      (Ok ["o"; "b"; "merged"], s') ∧
    ho_mounts (ov_host s') !! ["o"; "b"; "merged"] = Some [o] ∧ ofs_lower o = [["o"; "a"; "diff"]] ∧ cf_simp (ofs_config o) = true.
Proof.
  destruct (Get_stacks_line Demo.kernel Demo.disk Demo.verify Demo.verify Demo.home None None Demo.quoted Demo.layers "b" (Demo.rec_b Demo.home)
    Demo.layered false true demo_ok eq_refl ltac:(done) ltac:(cbn; lia) Demo.layered_idle (demo_data true))
    as (s'&o&Hrun&Hm&_&_&Hlow&_&Hsimp&_).
  exists s', o. split_and!; [exact Hrun|exact Hm|exact Hlow|]. rewrite Hsimp. by vm_compute.
Defined.

Lemma uses_balance_witness :
  ∃ s' simp', for_each [UseGet true; UseGet false; UsePut; UsePut]
      (run_use Demo.kernel Demo.disk Demo.verify Demo.verify Demo.home None None Demo.quoted "b") Demo.layered = (Ok tt, s') ∧
    holds Demo.home Demo.layers "b" (Demo.rec_b Demo.home) 0 simp' s' ∧ mounted_at (ov_host s') ["o"; "b"; "merged"] ≠ true.
Proof.
  destruct (uses_balance Demo.kernel Demo.disk Demo.verify Demo.verify Demo.home None None Demo.quoted Demo.layers "b" (Demo.rec_b Demo.home)
    [UseGet true; UseGet false; UsePut; UsePut] 0 0 false Demo.layered demo_ok eq_refl ltac:(done) ltac:(cbn; lia) demo_data
    Demo.layered_idle eq_refl) as (s'&simp'&Hrun&Hh&_&Hm).
  exists s', simp'. split_and!; [exact Hrun|exact Hh|]. intros Hmm. apply Hm in Hmm. lia.
Defined.

Lemma fallback_fits_page_witness :
  String.length (rel_data Demo.quoted "b" (lower_of Demo.layers ["a"])) < page_size.
Proof.
  exact (fallback_fits_page Demo.home Demo.quoted Demo.layers (tree Demo.layered) "b" (Demo.rec_b Demo.home) Demo.layered_rep eq_refl
    ltac:(cbn; lia)).
Defined.

Lemma generateID_names_witness :
  String.length (next_link Demo.start) = 26 ∧ GoString.all_chars id_char (next_link Demo.start) = true.
Proof.
  destruct (generateID_run idLength Demo.start (λ _, eq_refl)) as (x&n&Hx).
  pose proof (generateID_names idLength Demo.start x _ Hx) as (Hl&Hc&_). unfold next_link. by rewrite Hx.
Defined.
