(* ===== verification/Overlay2Label.v ===== *)
(** * Mounts of overlay2 that the kernel refuses

    [Get] appends the label to the options as it is: what the kernel makes of a
    label that is not a list of its options, and of data it has to cut. *)

From S2P Require Import Prelude FileSys GraphDriver OvlOpts OvlMount OvlOptProps OvlMountProps DriverBase Overlay2.
From S2P Require Import Overlay2Props Overlay2Mount Overlay2Get Overlay2Users.

(** ** Refusals *)

Section Refusals.
Context (k : ovl_params) (b : backing) (vo vi : path → path → M MS ()) (Hb : backing_ok b).

Lemma sys_mount_refused cwd target data t m i p e s' :
  kern_path t cwd target = inr p → is_dir t p = true →
  fill_super_body k b cwd vo vi (Some (GoString.take (page_size - 1) data)) (calm_ms t i (mount_ofs k)) = (Err e, s') →
  ∀ i', ovl_free_fs s' = (Ok tt, calm_ms t i' (ms_ofs s')) →
  sys_mount k b vo vi cwd target data (mkHost (mkFS t []) m i) = (Err e, mkHost (mkFS t []) m i').
Proof.
  intros Hp Hd Hbody i' Hfree. unfold sys_mount.
  rewrite (bind_ok _ _ _ p (mkHost (mkFS t []) m i)); [|unfold onTree, zoom, syscall; cbn; by rewrite Hp, Hd].
  apply bind_err. unfold with_super. cbn [ho_fs ho_inuse ho_mounts].
  change (mkMS (mkFS t []) i (mount_ofs k)) with (calm_ms t i (mount_ofs k)). unfold ovl_fill_super.
  rewrite (bind_ok _ _ _ tt (calm_ms t i (mount_ofs k))) by done. unfold defer_on_error, defer_when. rewrite Hbody.
  by rewrite Hfree.
Qed.

(** An option the kernel does not know. *)
Lemma sys_mount_bad_option cwd target data t m i p e :
  kern_path t cwd target = inr p → is_dir t p = true →
  ovl_parse_opt k (Some (GoString.take (page_size - 1) data)) (mount_config k) = inl e →
  sys_mount k b vo vi cwd target data (mkHost (mkFS t []) m i) = (Err e, mkHost (mkFS t []) m i).
Proof.
  intros Hp Hd Hparse. eapply sys_mount_refused; [done|done| |].
  - unfold fill_super_body. rewrite Hparse. by apply bind_err.
  - done.
Qed.

(** A work directory that is missing: the lock on the upper one is given back. *)
Lemma sys_mount_no_workdir cwd target data t m i c l u w simp p up :
  kern_path t cwd target = inr p → is_dir t p = true →
  ovl_parse_opt k (Some (GoString.take (page_size - 1) data)) (mount_config k) = inr c → parsed_as k c l u w simp →
  u ≠ EmptyString → ovl_unescape u = u → kern_path t cwd u = inr up → is_dir t up = true → up ∉ i →
  w ≠ EmptyString → ovl_unescape w = w → kern_path t cwd w = inl (OsError ENOENT) →
  sys_mount k b vo vi cwd target data (mkHost (mkFS t []) m i) = (Err (OsError ENOENT), mkHost (mkFS t []) m i).
Proof.
  intros Hp Hd Hparse [Pl Pu Pw Ps Pix Pn] Une Uesc Uk Ud Ui Wne Wesc Wk.
  set (o1 := set_config c (mount_ofs k)). set (o2 := set_upper (Some up) (set_locked true (ofs_workdir_locked o1) o1)).
  eapply (sys_mount_refused _ _ _ _ _ _ _ _ (calm_ms t ({[up]} ∪ i) o2)); [done|done| |].
  - unfold fill_super_body. rewrite Hparse. rewrite (bind_ok _ _ _ c (calm_ms t i (mount_ofs k))) by done.
    rewrite (bind_ok _ _ _ tt (calm_ms t i o1)) by done.
    rewrite (bool_decide_eq_true_2 (is_Some (cf_lowerdir c))) by by rewrite Pl.
    rewrite (bind_ok _ _ _ tt (calm_ms t i o1)) by done. rewrite Pu.
    rewrite (bool_decide_eq_true_2 (is_Some (cf_workdir c))) by by rewrite Pw.
    apply bind_err. rewrite (bind_ok _ _ _ tt (calm_ms t i o1)) by done.
    rewrite (bind_ok _ _ _ _ _ (get_upper_run b cwd t i o1 u up Hb Pu Une Uesc Uk Ud Ui)). apply bind_err.
    unfold ovl_get_workdir. rewrite (bind_ok _ _ _ o2 (calm_ms t ({[up]} ∪ i) o2)) by done. cbn [o2 ofs_config].
    change (cf_workdir (ofs_config o2)) with (cf_workdir c). rewrite Pw. apply bind_err. by apply mount_dir_missing.
  - unfold ovl_free_fs. rewrite (bind_ok _ _ _ o2 (calm_ms t ({[up]} ∪ i) o2)) by done. cbn.
    unfold ovl_inuse_unlock, modify, mbind, M_bind, mret, M_ret. cbn. unfold calm_ms. do 2 f_equal.
    apply leibniz_equiv. intros q. rewrite elem_of_difference, elem_of_union, !elem_of_singleton. split; [tauto|].
    intros Hq. split; [by right|]. by intros ->.
Qed.

(** The last name of a path is missing. *)
Lemma walk_missing n t cur c :
  is_dir t cur = true → c ≠ EmptyString → c ≠ "." → c ≠ ".." → t !! (cur ++ [c]) = None →
  link_walk n t cur [c] = inl (OsError ENOENT).
Proof.
  intros Hd H1 H2 H3 Hn. apply String.eqb_neq in H1, H2, H3.
  assert (node_at t (cur ++ [c]) = None) as Hn' by by rewrite node_at_ne by by destruct cur.
  destruct n; cbn [link_walk]; rewrite Hd, H1, H2, H3; cbn [negb orb]; by rewrite Hn'.
Qed.
End Refusals.

(** ** A refused [Get] *)

Section RefusedGet.
Context (kp : ovl_params) (bk : backing) (vo vi : path → path → M MS ()) (home : path)
        (uidMaps gidMaps : option (list Idtools.IDMap)) (quoted : string → string).
Context (L : gmap string layer_rec) (id : string) (r : layer_rec).
Context (Hok : host_ok kp bk home uidMaps gidMaps) (Hid : L !! id = Some r) (Hline : ly_line r ≠ []).

Definition abs_lowers : string := GoString.join ":" ((λ a, GoPath.abs (home ++ ["l"; link_of L a])) <$> ly_line r).

(** The host while the kernel looks at the mount. *)
Definition mounting (s : OV) : Host :=
  mkHost (mkFS (<[merged home id := Dir]> (tree s)) []) (ho_mounts (ov_host s)) (ho_inuse (ov_host s)).

(** [Get] undoes what it did. *)
Lemma Get_refused s simp0 label e :
  holds home L id r 0 simp0 s → data_length home quoted L id r label ≤ page_size →
  sys_mount kp bk vo vi [] (GoPath.abs (merged home id)) (abs_data home quoted id (lower_of L (ly_line r)) label) (mounting s) =
    (Err e, mounting s) →
  Get kp bk vo vi home uidMaps gidMaps quoted id label s = (Err (Wrap e "error creating overlay mount"), s).
Proof.
  intros [Hc Hrep Hbl (Hcnt&Hnm&Hm&_)] Hlen Hmount. rewrite (Get_counts kp bk vo vi home _ _ _ L id r) by done.
  destruct (rp_layer _ _ _ Hrep _ _ Hid) as [Hidl Hs]. pose proof (st_name _ _ _ _ _ Hs) as Hn.
  destruct (ok_root _ _ _ _ _ Hok) as [[u g] Hroot].
  rewrite (bind_ok _ _ _ _ _ (Increment_first s (merged home id) Hc (home_ne _ _ _) Hcnt
    ltac:(unfold mounted_at; by rewrite Hnm))).
  change (1 <? 1)%Z with false. cbv iota. set (s1 := ov_set_counts _ s).
  unfold defer_on_error, defer_when, get_body. rewrite (bind_ok _ _ _ (u, g) s1) by (by unfold of_sum; rewrite Hroot).
  cbv beta iota. rewrite (file_name home id "merged") by done. fold (merged home id).
  rewrite (bind_ok _ _ _ _ _ (mkdir_merged home L id r Hid s1 Hc Hrep Hm)).
  fold (data_length home quoted L id r label). rewrite (proj2 (Nat.ltb_ge page_size _)) by done.
  set (s2 := set_tree _ s1).
  assert (onHost (sys_mount kp bk vo vi [] (GoPath.abs (merged home id)) (abs_data home quoted id (lower_of L (ly_line r)) label)) s2
    = (Err e, s2)) as Hms by (rewrite <-(set_host_id s2) at 2; by apply onHost_run).
  unfold get_mount. rewrite (bind_ok _ _ _ _ _ (attempt_err _ _ _ _ Hms)). cbn [fail].
  unfold get_undo. rewrite (file_name home id "merged") by done. fold (merged home id). unfold Decrement.
  assert (ov_counts s2 !! merged home id = Some (mkMinfo true 1)) as Hcnt2 by apply lookup_insert_eq.
  rewrite (bind_ok _ _ _ _ _ (incdec_counted s2 _ _ Z.pred Hcnt2)). change (Z.pred 1 <=? 0)%Z with true. cbv iota.
  set (s3 := ov_set_counts _ s2).
  assert (onHost (sys_unmount (merged home id)) s3 = (Err (OsError EINVAL), s3)) as Hum.
  { rewrite <-(set_host_id s3) at 2. apply onHost_run. unfold sys_unmount.
    rewrite (bind_ok _ _ _ tt (ov_host s3)), (bind_ok _ _ _ (ov_host s3) (ov_host s3)) by done.
    change (ho_mounts (ov_host s3)) with (ho_mounts (ov_host s)). by rewrite Hnm. }
  rewrite (bind_ok _ _ _ _ _ (ignore_fails _ _ _ _ Hum)).
  assert (onHost (sys_rmdir (merged home id)) s3 = (Ok tt, s)) as Hrm.
  { erewrite onHost_run; [|apply sys_rmdir_run; [exact Hnm|apply lookup_insert_eq|]].
    - f_equal. unfold set_host, s3, s2, s1, ov_set_counts. cbn. rewrite !delete_insert_id by done.
      destruct s as [[[n f] mn i] c bb rd nb nr]. unfold calm in Hc. cbn in *. by rewrite Hc.
    - intros c l. unfold merged. rewrite <-app_assoc. cbn. rewrite lookup_insert_ne; [apply Hbl|].
      by intros [=]%app_inv_head. }
  by rewrite (ignore_ok _ _ _ _ Hrm).
Qed.

(** The kernel's view of the mount point and of the upper directory meanwhile. *)
Lemma mounting_paths s :
  rep home L (tree s) → let t := <[merged home id := Dir]> (tree s) in
  rep home L t ∧
  kern_path t [] (GoPath.abs (merged home id)) = inr (merged home id) ∧ is_dir t (merged home id) = true ∧
  kern_path t [] (GoPath.abs (own_diff home id)) = inr (own_diff home id) ∧ is_dir t (own_diff home id) = true ∧
  is_dir t (home ++ [id]) = true.
Proof.
  intros Hrep t. destruct (rp_layer _ _ _ Hrep _ _ Hid) as [Hidl Hs]. pose proof (st_name _ _ _ _ _ Hs) as Hn.
  assert (rep home L t) as Hrep' by (eapply rep_touches; [exact Hrep|by apply touches_merged]).
  destruct (rp_layer _ _ _ Hrep' _ _ Hid) as [_ Hs'].
  assert (∀ f, name_ok f → t !! (home ++ [id; f]) = Some Dir →
    kern_path t [] (GoPath.abs (home ++ [id; f])) = inr (home ++ [id; f])) as Hkp.
  { intros f Hf Hd. pose proof (ok_home _ _ _ _ _ Hok) as Hhome.
    rewrite (kern_both home Hhome L t) by (done || by rewrite !Forall_cons, Forall_nil).
    apply (walk_entry home L); [done|done|done|apply is_dir_home, (st_dir _ _ _ _ _ Hs')|by apply is_dir_home]. }
  pose proof (st_diff _ _ _ _ _ Hs') as Hdiff.
  assert (t !! (home ++ [id; "merged"]) = Some Dir) as Hmg by apply lookup_insert_eq.
  split_and!; [done|by apply Hkp|by apply is_dir_home|by apply Hkp|by apply is_dir_home|].
  apply is_dir_home, (st_dir _ _ _ _ _ Hs').
Qed.

(** Characters of a label that is a single name. *)
Definition label_char (c : ascii) : bool := id_char c || (c =? colon)%char.
Lemma label_data s : GoString.all_chars label_char s = true → GoString.all_chars data_char s = true.
Proof.
  apply all_chars_impl. intros c. unfold label_char, data_char, path_char. destruct (id_char c), (c =? colon)%char; by rewrite ?orb_true_r.
Qed.
Lemma label_avoids s : GoString.all_chars label_char s = true → avoids slash s.
Proof. intros Hs. by apply (all_chars_avoids label_char). Qed.

(** The way to a file of the layer with a name that is not one of its own. *)
Lemma kern_missing t (c : string) :
  rep home L t → GoString.all_chars label_char c = true → c ≠ EmptyString → c ≠ "." → c ≠ ".." → t !! (home ++ [id; c]) = None →
  kern_path t [] (GoPath.abs (home ++ [id; c])) = inl (OsError ENOENT).
Proof.
  intros Hrep Hch Hne Hd1 Hd2 Hn. pose proof (ok_home _ _ _ _ _ Hok) as Hhome.
  destruct (rp_layer _ _ _ Hrep _ _ Hid) as [Hidl Hs]. pose proof (st_name _ _ _ _ _ Hs) as Hnm.
  unfold kern_path. change (String.eqb (GoPath.abs _) EmptyString) with false. cbv iota.
  assert (GoString.has_prefix (GoPath.abs (home ++ [id; c])) "/" = true) as ->.
  { unfold GoPath.abs. by destruct (GoString.join "/" _). }
  assert (GoString.split slash (GoPath.abs (home ++ [id; c])) = EmptyString :: home ++ [id; c]) as ->.
  { unfold GoPath.abs. change (String slash ?x) with (EmptyString +:+ String slash x).
    rewrite split_app_sep by done. f_equal. apply split_join; [apply home_ne|]. apply Forall_app_2.
    - eapply Forall_impl; [exact Hhome|]. intros x Hx. by apply name_avoids.
    - rewrite !Forall_cons, Forall_nil. split_and!; [by apply name_avoids|by apply label_avoids|done]. }
  rewrite walk_empty by done. rewrite (walk_home home Hhome) by apply (rp_home _ _ _ Hrep).
  pose proof (rp_home _ _ _ Hrep (length home)) as Hh. rewrite firstn_all in Hh.
  assert (is_dir t (home ++ [id]) = true) as Hd by (apply is_dir_home, (st_dir _ _ _ _ _ Hs)).
  rewrite walk_dir by done. apply walk_missing; try done. by rewrite <-app_assoc.
Qed.

Lemma join_snoc_app (p : path) (x y : string) : GoString.join "/" (p ++ [x]) +:+ y = GoString.join "/" (p ++ [x +:+ y]).
Proof.
  induction p as [|c p IH]; [done|]. destruct p as [|d p].
  - cbn. by rewrite !app_assoc_str.
  - change (GoString.join "/" ((c :: d :: p) ++ [?z])) with (c +:+ "/" +:+ GoString.join "/" ((d :: p) ++ [z])).
    by rewrite <-IH, !app_assoc_str.
Qed.
Lemma abs_snoc_app (x y : string) : GoPath.abs (home ++ [id; x]) +:+ y = GoPath.abs (home ++ [id; x +:+ y]).
Proof.
  unfold GoPath.abs. change [id; x] with ([id] ++ [x]). change [id; x +:+ y] with ([id] ++ [x +:+ y]).
  rewrite !app_assoc. by rewrite <-join_snoc_app.
Qed.
Lemma mount_opts_app l u w x : mount_opts l u w +:+ x = mount_opts l u (w +:+ x).
Proof. unfold mount_opts. by rewrite !app_assoc_str. Qed.

Lemma join_slash_chars ps :
  Forall (λ w, GoString.all_chars data_char w = true) ps → GoString.all_chars data_char (GoString.join "/" ps) = true.
Proof.
  induction 1 as [|w ws Hw Hws IH]; [done|]. destruct ws as [|v ws]; [done|].
  change (GoString.join "/" (w :: v :: ws)) with (w +:+ String slash (GoString.join "/" (v :: ws))).
  rewrite all_chars_app, Hw. cbn [GoString.all_chars]. by rewrite IH.
Qed.

(** The strings of the data. *)
Lemma abs_strings t : rep home L t →
  abs_lowers ≠ EmptyString ∧ GoString.all_chars data_char abs_lowers = true ∧
  GoString.all_chars data_char (GoPath.abs (own_diff home id)) = true ∧
  ∀ c, GoString.all_chars label_char c = true → GoString.all_chars data_char (GoPath.abs (home ++ [id; c])) = true.
Proof.
  intros Hrep. pose proof (ok_home _ _ _ _ _ Hok) as Hhome.
  destruct (rp_layer _ _ _ Hrep _ _ Hid) as [Hidl Hs]. pose proof (st_name _ _ _ _ _ Hs) as Hn.
  destruct (named_line_data home L [] _ _ (abs_line home Hhome L t id r [] Hrep Hid) Hline) as (Hne&Hch&_).
  assert (∀ c, GoString.all_chars label_char c = true → GoString.all_chars data_char (GoPath.abs (home ++ [id; c])) = true) as Hc.
  { intros c Hc%label_data. unfold GoPath.abs. cbn [GoString.all_chars]. apply join_slash_chars, Forall_app_2.
    - eapply Forall_impl; [exact Hhome|]. intros x [_ Hx]. by apply path_data, id_path.
    - destruct Hn as [_ Hn%id_path%path_data]. by rewrite !Forall_cons, Forall_nil. }
  split_and!; [done|done| |done]. apply Hc. done.
Qed.

(** A mount whose work directory is misnamed. *)
Lemma refused_workdir s simp0 label (c : string) data :
  holds home L id r 0 simp0 s → data_length home quoted L id r label ≤ page_size →
  GoString.take (page_size - 1) (abs_data home quoted id (lower_of L (ly_line r)) label) = data →
  data = mount_opts abs_lowers (GoPath.abs (own_diff home id)) (GoPath.abs (home ++ [id; c])) →
  GoString.all_chars label_char c = true → c ≠ EmptyString → c ≠ "." → c ≠ ".." → c ≠ "merged" → tree s !! (home ++ [id; c]) = None →
  Get kp bk vo vi home uidMaps gidMaps quoted id label s = (Err (Wrap (OsError ENOENT) "error creating overlay mount"), s).
Proof.
  intros Hh Hlen Hcut Hdata Hch Hne Hd1 Hd2 Hmg Hmiss. apply (Get_refused s simp0 label); [done|done|].
  destruct Hh as [Hc Hrep _ (_&_&_&Hdi&_)]. destruct (mounting_paths s Hrep) as (Hrep'&Hkm&Hdm&Hku&Hdu&_).
  destruct (abs_strings _ Hrep) as (Lne&Lch&Uch&Wch).
  destruct (parse_data kp abs_lowers (GoPath.abs (own_diff home id)) (GoPath.abs (home ++ [id; c])) false) as (cf&Hcf&Has);
    [done|done|done|done|done|by apply Wch|]. rewrite app_nil_r_str in Hcf.
  unfold mounting. eapply (sys_mount_no_workdir kp bk vo vi (ok_backing _ _ _ _ _ Hok)).
  - exact Hkm.
  - exact Hdm.
  - rewrite Hcut, Hdata. exact Hcf.
  - exact Has.
  - done.
  - by apply unescape_plain.
  - exact Hku.
  - exact Hdu.
  - done.
  - done.
  - by apply unescape_plain, Wch.
  - apply kern_missing; try done. rewrite lookup_insert_ne; [done|]. intros He%app_inv_head. congruence.
Qed.

(** A mount with an option that the kernel does not know after its own. *)
Lemma refused_option s simp0 label (l1 l2 : string) :
  holds home L id r 0 simp0 s → data_length home quoted L id r label ≤ page_size →
  GoString.take (page_size - 1) (abs_data home quoted id (lower_of L (ly_line r)) label) =
    mount_opts abs_lowers (GoPath.abs (own_diff home id)) (GoPath.abs (home ++ [id; "work" +:+ l1])) +:+ "," +:+ l2 →
  GoString.all_chars label_char l1 = true → plain l2 = true → (∀ c, opt_step l2 c = inl (OsError EINVAL)) →
  Get kp bk vo vi home uidMaps gidMaps quoted id label s = (Err (Wrap (OsError EINVAL) "error creating overlay mount"), s).
Proof.
  intros Hh Hlen Hcut Hl1 Hl2 Hbad. apply (Get_refused s simp0 label); [done|done|].
  destruct Hh as [Hc Hrep _ _]. destruct (mounting_paths s Hrep) as (Hrep'&Hkm&Hdm&_).
  destruct (abs_strings _ Hrep) as (Lne&Lch&Uch&Wch). specialize (Wch ("work" +:+ l1)).
  unfold mounting. eapply sys_mount_bad_option; [exact Hkm|exact Hdm|]. rewrite Hcut.
  set (w := GoPath.abs (home ++ [id; "work" +:+ l1])). set (u := GoPath.abs (own_diff home id)).
  replace (mount_opts abs_lowers u w +:+ "," +:+ l2) with
    (GoString.join (String comma EmptyString) ["lowerdir=" +:+ abs_lowers; "upperdir=" +:+ u; "workdir=" +:+ w; l2])
    by (unfold mount_opts; cbn [GoString.join]; rewrite !app_assoc_str; reflexivity).
  assert (∀ x y, plain x = true → plain y = true → plain (x +:+ y) = true) as Happ.
  { intros x y Hx Hy. by rewrite all_chars_app, Hx, Hy. }
  unfold ovl_parse_opt. change (ovl_parse_loop (opt_fuel ?o) ?o ?x) with (parse_opts o x).
  rewrite parse_opts_join; [|done|].
  - cbn [opt_steps]. rewrite lowerdir_step, upperdir_step, workdir_step by done. by rewrite Hbad.
  - rewrite !Forall_cons, Forall_nil. split_and!; [apply Happ..|done|done]; try done; apply data_plain; try done.
    apply Wch. rewrite all_chars_app, Hl1. done.
Qed.

Lemma label_name l : GoString.all_chars label_char l = true →
  GoString.all_chars label_char ("work" +:+ l) = true ∧ "work" +:+ l ≠ "" ∧ "work" +:+ l ≠ "." ∧ "work" +:+ l ≠ ".." ∧ "work" +:+ l ≠ "merged".
Proof. intros Hl. by rewrite all_chars_app, Hl. Qed.

(** C40. [Get] with a label that is not one for simplified images: the label becomes
    part of the name of the work directory, or, after a comma, an option the kernel
    does not know.  In both cases, as long as the data of the mount is shorter than a
    page, the first use of a layer fails, and leaves the state as it was. *)
Theorem Get_refuses_labels s simp0 (l1 rest : string) :
  holds home L id r 0 simp0 s → data_length home quoted L id r (l1 +:+ rest) < page_size →
  GoString.all_chars label_char l1 = true →
  (rest = EmptyString ∧ tree s !! (home ++ [id; "work" +:+ l1]) = None) ∨
  (∃ l2, rest = "," +:+ l2 ∧ plain l2 = true ∧ ∀ c, opt_step l2 c = inl (OsError EINVAL)) →
  ∃ e, Get kp bk vo vi home uidMaps gidMaps quoted id (l1 +:+ rest) s = (Err (Wrap e "error creating overlay mount"), s).
Proof.
  intros Hh Hlen Hl1 Hrest. pose proof (hd_rep _ _ _ _ _ _ _ Hh) as Hrep. pose proof Hlen as Hlen'. unfold data_length in Hlen'.
  rewrite (abs_data_of home quoted L (tree s) id r) in Hlen' by done.
  assert (GoString.take (page_size - 1) (abs_data home quoted id (lower_of L (ly_line r)) (l1 +:+ rest)) =
    mount_opts abs_lowers (GoPath.abs (own_diff home id)) (GoPath.abs (home ++ [id; "work" +:+ l1])) +:+ rest) as Hcut.
  { rewrite (abs_data_of home quoted L (tree s) id r) by done. rewrite str_take_all by (unfold page_size in *; lia).
    rewrite <-(app_assoc_str _ l1 rest), mount_opts_app, abs_snoc_app. done. }
  destruct Hrest as [[-> Hmiss]|(l2&->&Hp&Hbad)].
  - exists (OsError ENOENT). rewrite (app_nil_r_str (mount_opts _ _ _)) in Hcut. destruct (label_name l1 Hl1) as (?&?&?&?&?).
    eapply (refused_workdir s simp0 _ ("work" +:+ l1)); [done|lia|exact Hcut|done..].
  - exists (OsError EINVAL). eapply (refused_option s simp0 _ l1 l2); [done|lia|exact Hcut|done..].
Qed.

Lemma take_app_more n s t : GoString.take (String.length s + n) (s +:+ t) = s +:+ GoString.take n t.
Proof. induction s as [|c s IH]; [done|]. rewrite !app_cons. cbn [String.length Nat.add GoString.take]. by rewrite IH. Qed.

(** [Get] with data of exactly a page: the driver takes it to fit, but the
    kernel keeps one byte less, and what it reads then is no mount.  The first use
    of the layer fails, and leaves the state as it was. *)
Theorem Get_refuses_page s simp0 (simp : bool) :
  holds home L id r 0 simp0 s → data_length home quoted L id r (label_of simp) = page_size →
  tree s !! (home ++ [id; "wor"]) = None →
  ∃ e, Get kp bk vo vi home uidMaps gidMaps quoted id (label_of simp) s = (Err (Wrap e "error creating overlay mount"), s).
Proof.
  intros Hh Hlen Hmiss. pose proof (hd_rep _ _ _ _ _ _ _ Hh) as Hrep. pose proof Hlen as Hlen'. unfold data_length in Hlen'.
  rewrite (abs_data_of home quoted L (tree s) id r), str_length_app in Hlen' by done. fold abs_lowers in Hlen'.
  destruct simp; cbn [label_of] in *.
  - exists (OsError EINVAL). eapply (refused_option s simp0 _ EmptyString "simp=o"); [done|lia| |done|done|done].
    rewrite (abs_data_of home quoted L (tree s) id r) by done. fold abs_lowers. rewrite app_nil_r_str.
    replace (page_size - 1) with (String.length (mount_opts abs_lowers (GoPath.abs (home ++ [id; "diff"]))
      (GoPath.abs (home ++ [id; "work"]))) + 7) by (cbn [simp_label String.length] in Hlen'; unfold page_size in *; lia).
    by rewrite take_app_more.
  - exists (OsError ENOENT). eapply (refused_workdir s simp0 _ "wor"); [done|lia|reflexivity| |done..].
    rewrite (abs_data_of home quoted L (tree s) id r) by done. fold abs_lowers. rewrite app_nil_r_str.
    change "work" with ("wor" +:+ "k") in Hlen' |- *. rewrite <-abs_snoc_app, <-mount_opts_app in Hlen' |- *.
    set (d := mount_opts abs_lowers _ (GoPath.abs (home ++ [id; "wor"]))) in *. rewrite str_length_app in Hlen'.
    replace (page_size - 1) with (String.length d + 0) by (cbn [String.length] in Hlen'; unfold page_size in *; lia).
    by rewrite take_app_more, app_nil_r_str.
Qed.
End RefusedGet.

(** ** On a host with two layers *)

Lemma Get_refuses_labels_witness :
  ∃ e, Get Demo.kernel Demo.disk Demo.verify Demo.verify Demo.home None None Demo.quoted "b"
         "system_u:object_r:container_file_t:s0:c1,c2" Demo.layered = (Err (Wrap e "error creating overlay mount"), Demo.layered).
Proof.
  apply (Get_refuses_labels Demo.kernel Demo.disk Demo.verify Demo.verify Demo.home None None Demo.quoted Demo.layers "b"
    (Demo.rec_b Demo.home) demo_ok eq_refl ltac:(done) Demo.layered false "system_u:object_r:container_file_t:s0:c1" ",c2" Demo.layered_idle).
  - apply Nat.ltb_lt. by vm_compute.
  - done.
  - right. by exists "c2".
Defined.

Lemma Get_refuses_page_witness :
  ∃ e, Get Demo.kernel Demo.disk Demo.verify Demo.verify Demo.deep None None Demo.quoted "b" ",simp=on" (Demo.layered_in Demo.deep) =
         (Err (Wrap e "error creating overlay mount"), Demo.layered_in Demo.deep).
Proof.
  apply (Get_refuses_page Demo.kernel Demo.disk Demo.verify Demo.verify Demo.deep None None Demo.quoted (Demo.layers_in Demo.deep) "b"
    (Demo.rec_b Demo.deep)) with (simp0 := false) (simp := true).
  - split; [|by split_and!; cbn; try lia|done|by eexists]. unfold Demo.deep. rewrite !Forall_cons, Forall_nil. split_and!; done.
  - done.
  - done.
  - apply Demo.deep_idle.
  - apply Nat.eqb_eq. by vm_compute.
  - by vm_compute.
Defined.
