(* ===== verification/Overlay2Remove.v ===== *)
(** * Removing layers of overlay2

    Unmounting by name, the retries of [EnsureRemoveAll], and that removing a
    layer takes its files and nothing else. *)

From S2P Require Import Prelude FileSys GraphDriver OvlOpts OvlMount OvlOptProps OvlMountProps DriverBase Overlay2.
From S2P Require Import Overlay2Props Overlay2Mount Overlay2Get.

(** ** Names of paths *)

Lemma prefix_app_str p q : GoString.has_prefix (p +:+ q) p = true.
Proof.
  unfold GoString.has_prefix. induction p as [|c p IH]; [by destruct q|]. rewrite app_cons. cbn [String.prefix].
  by destruct (ascii_dec c c).
Qed.
Lemma join_app_path (a b : path) :
  a ≠ [] → GoString.join "/" (a ++ b) = GoString.join "/" a +:+ match b with [] => EmptyString | _ => "/" +:+ GoString.join "/" b end.
Proof.
  intros Ha. induction a as [|c a IH]; [done|]. destruct a as [|d a].
  - destruct b; [|done]. cbn. by rewrite app_nil_r_str.
  - change (GoString.join "/" ((c :: d :: a) ++ b)) with (c +:+ "/" +:+ GoString.join "/" ((d :: a) ++ b)).
    rewrite IH by done. change (GoString.join "/" (c :: d :: a)) with (c +:+ "/" +:+ GoString.join "/" (d :: a)).
    by rewrite !app_assoc_str.
Qed.
Lemma abs_prefix (a b : path) : a ≠ [] → a `prefix_of` b → GoString.has_prefix (GoPath.abs b) (GoPath.abs a) = true.
Proof.
  intros Ha [k ->]. unfold GoPath.abs. rewrite join_app_path by done.
  change (String slash (?x +:+ ?y)) with ((String slash x) +:+ y). apply prefix_app_str.
Qed.
(** The name of a sibling may start with the name of a directory. *)
Lemma abs_sibling (p : path) (a b : string) (l : path) :
  GoString.has_prefix (GoPath.abs (p ++ (a +:+ b) :: l)) (GoPath.abs (p ++ [a])) = true.
Proof.
  assert (GoString.join "/" (p ++ (a +:+ b) :: l) = GoString.join "/" (p ++ [a]) +:+ (b +:+ match l with [] => EmptyString | _ => "/" +:+ GoString.join "/" l end)) as Hj.
  { destruct p as [|c p].
    - cbn [app]. rewrite <-app_assoc_str. change ((a +:+ b) :: l) with ([a +:+ b] ++ l). by rewrite join_app_path.
    - rewrite !join_app_path by done. rewrite !app_assoc_str. do 2 f_equal.
      change ((a +:+ b) :: l) with ([a +:+ b] ++ l). rewrite join_app_path by done. cbn. by rewrite !app_assoc_str. }
  unfold GoPath.abs. rewrite Hj. change (String slash (?x +:+ ?y)) with ((String slash x) +:+ y). apply prefix_app_str.
Qed.

(** ** Unmounting by name *)

(** How often a path is in a list. *)
Definition occ (p : path) (ms : list path) : nat := length (filter (λ q, p = q) ms).
Lemma occ_cons p q ms : occ p (q :: ms) = (if decide (p = q) then 1 else 0) + occ p ms.
Proof. unfold occ. rewrite filter_cons. by destruct (decide (p = q)). Qed.
Lemma occ_app p ms ns : occ p (ms ++ ns) = occ p ms + occ p ns.
Proof. unfold occ. by rewrite filter_app, length_app. Qed.
Lemma occ_replicate p q n : occ p (replicate n q) = if decide (p = q) then n else 0.
Proof. induction n as [|n IH]; cbn [replicate]; [by destruct (decide _)|]. rewrite occ_cons, IH. by destruct (decide _). Qed.

(** A stack with [n] mounts taken off. *)
Definition popped (n : nat) (os : option (list ovl_fs)) : option (list ovl_fs) :=
  os ← os; match drop n os with [] => None | l => Some l end.
Definition stacks_ok (m : gmap path (list ovl_fs)) : Prop := ∀ p, m !! p ≠ Some [].
Lemma popped_0 m p : stacks_ok m → popped 0 (m !! p) = m !! p.
Proof. intros Hm. specialize (Hm p). destruct (m !! p) as [[|o os]|]; [done|done|done]. Qed.
Lemma popped_S n os : popped n (popped 1 os) = popped (S n) os.
Proof. destruct os as [[|o [|o' os]]|]; [by destruct n|by destruct n|done|done]. Qed.

Lemma unmount_step t m i p :
  stacks_ok m →
  ∃ r m' i', sys_unmount p (mkHost (mkFS t []) m i) = (r, mkHost (mkFS t []) m' i') ∧ (r = Ok tt ∨ r = Err (OsError EINVAL)) ∧
    stacks_ok m' ∧ ∀ q, m' !! q = popped (if decide (q = p) then 1 else 0) (m !! q).
Proof.
  intros Hm. unfold sys_unmount. rewrite (bind_ok _ _ _ tt (mkHost (mkFS t []) m i)) by done.
  rewrite (bind_ok _ _ _ (mkHost (mkFS t []) m i) (mkHost (mkFS t []) m i)) by done. cbn [ho_mounts].
  destruct (m !! p) as [[|o os]|] eqn:Hp; [by apply Hm in Hp| |].
  - assert (∃ o' i', with_super o ovl_free_fs (mkHost (mkFS t []) m i) = (Ok o', mkHost (mkFS t []) m i')) as (o'&i'&Hf).
    { unfold with_super, ovl_free_fs. cbn [ho_fs ho_inuse ho_mounts]. unfold gets, mbind, M_bind, mret, M_ret. cbn.
      destruct (ofs_workdir_locked o), (ofs_upperdir_locked o), (ofs_workbasedir o), (ofs_upper o); by eexists _, _. }
    rewrite (bind_ok _ _ _ _ _ Hf). eexists (Ok tt), _, i'. split; [reflexivity|]. split; [by left|]. cbn [ho_mounts].
    assert (∀ q, match os with [] => delete p m | _ => <[p := os]> m end !! q =
      popped (if decide (q = p) then 1 else 0) (m !! q)) as Hq.
    { intros q. destruct (decide (q = p)) as [->|Hqp].
      - rewrite Hp. destruct os; [apply lookup_delete_eq|by rewrite lookup_insert_eq].
      - rewrite popped_0 by done. destruct os; [by rewrite lookup_delete_ne|by rewrite lookup_insert_ne]. }
    split; [|done]. intros q. rewrite Hq. unfold popped. destruct (m !! q) as [l|]; [|done]. cbn.
    by destruct (drop _ l).
  - eexists (Err _), m, i. split; [reflexivity|]. split; [by right|]. split; [done|]. intros q.
    destruct (decide (q = p)) as [->|]; [by rewrite Hp|by rewrite popped_0].
Qed.

Lemma unmount_loop_run t ms m i :
  stacks_ok m →
  ∃ m' i', Mount.unmount_loop ms (mkHost (mkFS t []) m i) = (Ok tt, mkHost (mkFS t []) m' i') ∧
    ∀ q, m' !! q = popped (occ q ms) (m !! q).
Proof.
  revert m i. induction ms as [|p ms IH]; intros m i Hm.
  - exists m, i. split; [done|]. intros q. by rewrite popped_0.
  - destruct (unmount_step t m i p Hm) as (r&m1&i1&Hrun&Hr&Hm1&Hq1). destruct (IH m1 i1 Hm1) as (m'&i'&Hloop&Hq).
    exists m', i'. cbn [Mount.unmount_loop]. split.
    + destruct Hr as [-> | ->].
      * by rewrite (bind_ok _ _ _ _ _ (attempt_ok _ _ _ _ Hrun)).
      * rewrite (bind_ok _ _ _ _ _ (attempt_err _ _ _ _ Hrun)). by rewrite bool_decide_eq_true_2.
    + intros q. rewrite Hq, Hq1, occ_cons. destruct (decide (q = p)); [apply popped_S|by rewrite popped_0].
Qed.

Lemma occ_mounts (P : path * list ovl_fs → Prop) `{∀ kv, Decision (P kv)} (l : list (path * list ovl_fs)) p :
  NoDup l.*1 →
  occ p (concat ((λ '(p, os), replicate (length (os : list ovl_fs)) p) <$> filter P l)) =
    match list_to_map (M := gmap path (list ovl_fs)) l !! p with Some os => if decide (P (p, os)) then length os else 0 | None => 0 end.
Proof.
  induction l as [|[q os] l IH]; intros Hnd; [done|]. apply NoDup_cons in Hnd as [Hq Hnd].
  cbn [list_to_map fst snd]. rewrite filter_cons. cbn [fst].
  assert (p = q → list_to_map (M := gmap path (list ovl_fs)) l !! p = None) as Hnone.
  { intros ->. by apply not_elem_of_list_to_map_1. }
  specialize (IH Hnd). destruct (decide (p = q)) as [->|Hpq].
  - cbn. rewrite lookup_insert_eq. rewrite Hnone in IH by done. destruct (decide (P (q, os))); [|done].
    rewrite fmap_cons. cbn [concat]. rewrite occ_app, IH, occ_replicate, decide_True by done. lia.
  - cbn. rewrite lookup_insert_ne by done. destruct (decide (P (q, os))); [|done].
    rewrite fmap_cons. cbn [concat]. by rewrite occ_app, IH, occ_replicate, decide_False by done.
Qed.

Lemma occ_below h target p :
  occ p (Mount.below h target) =
    match ho_mounts h !! p with
    | Some os => if GoString.has_prefix (GoPath.abs p) (GoPath.abs target) then length os else 0
    | None => 0
    end.
Proof.
  unfold Mount.below, occ. rewrite (Permutation_length (filter_Permutation _ _ _ (merge_sort_Permutation _ _))).
  match goal with |- length (filter _ ?l) = ?n => change (occ p l = n) end.
  rewrite occ_mounts by apply NoDup_fst_map_to_list. rewrite list_to_map_to_list. destruct (ho_mounts h !! p) as [os|]; [|done].
  cbn [fst]. destruct (decide _) as [->|Hn]; [done|]. by apply not_true_is_false in Hn as ->.
Qed.

Lemma RecursiveUnmount_run t m i target :
  stacks_ok m →
  ∃ m' i', Mount.RecursiveUnmount target (mkHost (mkFS t []) m i) = (Ok tt, mkHost (mkFS t []) m' i') ∧
    ∀ q, m' !! q = if GoString.has_prefix (GoPath.abs q) (GoPath.abs target) then None else m !! q.
Proof.
  intros Hm. set (h := mkHost (mkFS t []) m i). unfold Mount.RecursiveUnmount.
  rewrite (bind_ok _ _ _ tt h), (bind_ok _ _ _ h h) by done.
  destruct (unmount_loop_run t (Mount.below h target) m i Hm) as (m'&i'&Hrun&Hq). exists m', i'. split; [done|].
  intros q. rewrite Hq, occ_below. change (ho_mounts h) with m. destruct (m !! q) as [os|] eqn:Hmq.
  - destruct (GoString.has_prefix _ _).
    + unfold popped. simpl. by rewrite drop_all.
    + rewrite <-Hmq. by apply popped_0.
  - by destruct (GoString.has_prefix _ _).
Qed.

(** [RecursiveUnmount], on a host on which no system call fails, takes off
    every mount on a path whose name starts with the name of the target, and no
    other: all mounts at and below the target, but also those of a directory next
    to it whose name goes on, as that of the init layer of a container does. *)
Theorem RecursiveUnmount_by_name t m i target :
  target ≠ [] → stacks_ok m →
  ∃ m' i', Mount.RecursiveUnmount target (mkHost (mkFS t []) m i) = (Ok tt, mkHost (mkFS t []) m' i') ∧
    (∀ q, GoString.has_prefix (GoPath.abs q) (GoPath.abs target) = false → m' !! q = m !! q) ∧
    (∀ q, target `prefix_of` q → m' !! q = None) ∧
    (∀ p a b l, target = p ++ [a] → m' !! (p ++ (a +:+ b) :: l) = None).
Proof.
  intros Hne Hm. destruct (RecursiveUnmount_run t m i target Hm) as (m'&i'&Hrun&Hq). exists m', i'. split_and!.
  - done.
  - intros q Hp. by rewrite Hq, Hp.
  - intros q Hp. by rewrite Hq, (abs_prefix target q Hne Hp).
  - intros p a b l ->. by rewrite Hq, abs_sibling.
Qed.

(** ** The retries of [EnsureRemoveAll] *)

(** What is left of the retries for the paths of a list. *)
Definition left_for (tries : gmap path nat) (p : path) : nat := System.maxRetry - default 0 (tries !! p).
Definition retries_left (D : list path) (tries : gmap path nat) : nat := sum_list_with (left_for tries) D.
Lemma retries_decrease D tries p :
  p ∈ D → default 0 (tries !! p) < System.maxRetry →
  retries_left D (<[p := S (default 0 (tries !! p))]> tries) < retries_left D tries.
Proof.
  intros Hp Hlt. set (tries' := <[p := S (default 0 (tries !! p))]> tries). unfold retries_left.
  assert (∀ q, left_for tries' q ≤ left_for tries q) as Hone.
  { intros q. unfold left_for, tries'. destruct (decide (p = q)) as [<-|Hpq]; [rewrite lookup_insert_eq; change (default 0 (Some ?x)) with x; lia|].
    by rewrite lookup_insert_ne. }
  assert (∀ E, sum_list_with (left_for tries') E ≤ sum_list_with (left_for tries) E) as Hle.
  { induction E as [|q E IH]; [done|]. cbn [sum_list_with]. specialize (Hone q). lia. }
  assert (left_for tries' p < left_for tries p) as Hpp by (unfold left_for, tries'; rewrite lookup_insert_eq; change (default 0 (Some ?x)) with x; lia).
  apply list_elem_of_split in Hp as (D1&D2&->). rewrite !sum_list_with_app. cbn [sum_list_with].
  pose proof (Hle D1). pose proof (Hle D2). lia.
Qed.
Lemma retries_start D : retries_left D ∅ = length D * System.maxRetry.
Proof. unfold retries_left. induction D as [|p D IH]; [done|]. cbn [sum_list_with length]. rewrite IH. done. Qed.

(** The mount points are among [D]; no call of the loop makes one. *)
Definition mounts_in (D : list path) (h : Host) : Prop := ∀ p, is_Some (ho_mounts h !! p) → p ∈ D.

Lemma onTree_mounts {A} (m : M FS A) h r h' : onTree m h = (r, h') → ho_mounts h' = ho_mounts h.
Proof. unfold onTree, zoom. destruct (m (ho_fs h)). by intros [= <- <-]. Qed.
Lemma unmount_mounts D p h r h' : mounts_in D h → sys_unmount p h = (r, h') → mounts_in D h'.
Proof.
  intros HD. unfold sys_unmount, mbind, M_bind.
  destruct (onTree _ h) as [[[]|e|x] h1] eqn:H1; apply onTree_mounts in H1; [|intros [= <- <-] q; rewrite H1; apply HD..].
  cbn. destruct (ho_mounts h1 !! p) as [[|o os]|] eqn:Hp; [intros [= <- <-] q; rewrite H1; apply HD| |intros [= <- <-] q; rewrite H1; apply HD].
  destruct (with_super o ovl_free_fs h1) as [r2 h2] eqn:H2.
  assert (ho_mounts h2 = ho_mounts h) as Hm2.
  { unfold with_super in H2. destruct (ovl_free_fs _). injection H2 as <- <-. exact H1. }
  destruct r2 as [o2|e|x]; [|intros [= <- <-] q; rewrite Hm2; apply HD..].
  intros [= <- <-] q. cbn. rewrite Hm2. intros Hq. apply HD. destruct (decide (q = p)) as [->|Hqp]; [by rewrite <-H1, Hp|].
  destruct os; [by rewrite lookup_delete_ne in Hq|by rewrite lookup_insert_ne in Hq].
Qed.
Lemma Unmount_mounts D p h r h' : mounts_in D h → Mount.Unmount p h = (r, h') → mounts_in D h'.
Proof.
  intros HD. unfold Mount.Unmount, attempt, mbind, M_bind. destruct (sys_unmount p h) as [r1 h1] eqn:H1.
  apply (unmount_mounts D) in H1; [|done]. destruct r1 as [[]|e|x]; [by intros [= <- <-]| |by intros [= <- <-]].
  destruct (bool_decide _); by intros [= <- <-].
Qed.
Lemma busy_in D h dir p : mounts_in D h → System.busy h dir = Some p → p ∈ D.
Proof.
  intros HD Hb. apply HD. unfold System.busy in Hb. apply head_Some_elem_of, list_elem_of_filter in Hb as [_ Hb].
  apply list_elem_of_fmap in Hb as ([q os]&->&Hq). apply elem_of_map_to_list in Hq. by eexists.
Qed.

(** With fuel for the retries that are left the loop comes to an end. *)
Lemma remove_loop_ends D dir n : ∀ tries h,
  mounts_in D h → (∀ p, default 0 (tries !! p) ≤ System.maxRetry) → retries_left D tries < n →
  fst (System.remove_loop n dir tries h) ≠ Err (Errorf "out of fuel").
Proof.
  induction n as [|n IH]; intros tries h HD Hmax Hn; [lia|]. cbn [System.remove_loop]. unfold mbind, M_bind.
  destruct (System.RemoveAll dir h) as [r h1] eqn:H1. unfold System.RemoveAll, mbind, M_bind in H1. cbn in H1.
  destruct (System.busy h dir) as [p|] eqn:Hb.
  2: { unfold onTree, zoom, Os.RemoveAll, syscall in H1. destruct (faults (ho_fs h)) as [|[|e] fs]; by injection H1 as <- <-. }
  injection H1 as <- <-. apply (busy_in D) in Hb; [|done].
  assert (default 0 (tries !! p) ≠ System.maxRetry → ∀ h', mounts_in D h' →
    fst (System.remove_loop n dir (<[p := S (default 0 (tries !! p))]> tries) h') ≠ Err (Errorf "out of fuel")) as Hnext.
  { intros Hne h' HD'. pose proof (Hmax p) as Hp. apply IH; [done| |].
    - intros q. destruct (decide (p = q)) as [<-|]; [rewrite lookup_insert_eq; change (default 0 (Some ?x)) with x; lia|].
      by rewrite lookup_insert_ne.
    - pose proof (retries_decrease D tries p Hb). lia. }
  unfold attempt. destruct (Mount.Unmount p h) as [[[]|e|x] h2] eqn:H2; apply (Unmount_mounts D) in H2; try done; cbn -[System.maxRetry].
  - destruct (Nat.eqb_spec (default 0 (tries !! p)) System.maxRetry); [done|by apply Hnext].
  - destruct (mounted_at h2 p); [done|].
    destruct (Nat.eqb_spec (default 0 (tries !! p)) System.maxRetry); [done|by apply Hnext].
Qed.

(** [EnsureRemoveAll] comes to an end, whatever system calls fail: a directory
    that stays busy is given up after the retries of each mount point. *)
Theorem EnsureRemoveAll_ends dir h : fst (System.EnsureRemoveAll dir h) ≠ Err (Errorf "out of fuel").
Proof.
  assert (∀ h1, fst (System.remove_loop (S (size (ho_mounts h1) * S System.maxRetry)) dir ∅ h1) ≠ Err (Errorf "out of fuel")) as Hl.
  { intros h1. apply (remove_loop_ends (map_to_list (ho_mounts h1)).*1).
    - intros p [os Hp]. apply list_elem_of_fmap. exists (p, os). split; [done|by apply elem_of_map_to_list].
    - intros p. rewrite lookup_empty. change (default 0 None) with 0. lia.
    - rewrite retries_start, length_fmap, length_map_to_list. lia. }
  unfold System.EnsureRemoveAll, ignore_err, attempt, mbind, M_bind.
  destruct (Mount.RecursiveUnmount dir h) as [[u|e|x] h1]; [apply (Hl h1)|apply (Hl h1)|done].
Qed.

(** ** Removing a layer *)

Section Removing.
Context (home : path).
Implicit Types (L : gmap string layer_rec) (t : gmap path node).

(** Nothing is mounted on a path whose name starts like the directory of [id]. *)
Definition unmounted (s : OV) (id : string) : Prop :=
  stacks_ok (ho_mounts (ov_host s)) ∧
  ∀ p, is_Some (ho_mounts (ov_host s) !! p) → GoString.has_prefix (GoPath.abs p) (GoPath.abs (home ++ [id])) = false.
(** No layer has [id] below it. *)
Definition leaf L (id : string) : Prop := ∀ a ra, L !! a = Some ra → id ∉ ly_line ra.

(** The tree without a link and the directory of a layer. *)
Definition without (id lid : string) t : gmap path node :=
  filter (λ kv, Os.below (home ++ [id]) kv.1 = false) (filter (λ kv, Os.below (home ++ ["l"; lid]) kv.1 = false) t).
Lemma without_lookup id lid t q :
  ¬ (home ++ [id]) `prefix_of` q → ¬ (home ++ ["l"; lid]) `prefix_of` q → without id lid t !! q = t !! q.
Proof.
  intros Hd Hl. unfold without. rewrite map_lookup_filter, map_lookup_filter. destruct (t !! q) as [n|]; [|done]. cbn.
  rewrite option_guard_True by by apply not_below_spec. cbn. by rewrite option_guard_True by by apply not_below_spec.
Qed.
Lemma without_gone id lid t q :
  (home ++ [id]) `prefix_of` q ∨ (home ++ ["l"; lid]) `prefix_of` q → without id lid t !! q = None.
Proof.
  intros Hq. apply map_lookup_filter_None. destruct (decide ((home ++ [id]) `prefix_of` q)) as [Hd|Hd].
  - right. intros n _ Hb. by apply not_below_spec in Hb.
  - destruct Hq as [?|Hl]; [done|]. left. apply map_lookup_filter_None. right. intros n _ Hb. by apply not_below_spec in Hb.
Qed.

Lemma link_target_inj a b : name_ok a → name_ok b → link_target a = link_target b → a = b.
Proof.
  intros Ha Hb He. apply (f_equal (GoString.split slash)) in He. rewrite !split_link_target in He by done. by injection He.
Qed.

Lemma rep_without L t id r :
  rep home L t → L !! id = Some r → leaf L id → rep home (delete id L) (without id (ly_link r) t).
Proof.
  intros Hrep Hid Hleaf. destruct (rp_layer _ _ _ Hrep _ _ Hid) as [Hidl Hs].
  assert (∀ a l, a ≠ id → a ≠ "l" → without id (ly_link r) t !! (home ++ a :: l) = t !! (home ++ a :: l)) as Hother.
  { intros a l Ha Hl. apply without_lookup; [rewrite prefix_home; congruence|]. intros [k Hk].
    rewrite <-app_assoc in Hk. by apply app_inv_head in Hk as [= -> _]. }
  split.
  - intros n. pose proof (rp_home _ _ _ Hrep n) as Hh. unfold is_dir in *. destruct (take n home) as [|c p] eqn:Hn; [done|].
    cbn in *. rewrite without_lookup; [done| |]; rewrite <-Hn; intros Hp%prefix_length;
      rewrite length_app, length_take in Hp; cbn in Hp; lia.
  - rewrite without_lookup; [apply (rp_links _ _ _ Hrep)|by rewrite prefix_home|]. intros Hp%prefix_length.
    rewrite !length_app in Hp. cbn in Hp. lia.
  - intros a ra [Ha Hra]%lookup_delete_Some. destruct (rp_layer _ _ _ Hrep _ _ Hra) as [Hal Hsa]. split; [done|].
    pose proof (Hleaf a ra Hra) as Hin.
    destruct Hsa as [Hna Hln Hd Hdf Hlk Htg Hlow Hw Hline Hdep Hlen]. split; rewrite ?Hother by done; try done.
    + rewrite without_lookup; [done|by rewrite prefix_home|]. intros [k Hk]. rewrite <-app_assoc in Hk.
      apply app_inv_head in Hk as [= Hla _]. rewrite Hla, (st_target _ _ _ _ _ Hs) in Htg.
      apply Ha, link_target_inj; [apply (st_name _ _ _ _ _ Hs)|done|congruence].
    + rewrite Hlow. destruct (ly_line ra) as [|p rest]; [done|]. do 2 f_equal. unfold lower_of. f_equal. apply list_fmap_ext.
      intros i b Hb%list_elem_of_lookup_2. unfold link_of. rewrite lookup_delete_ne; [done|]. by intros ->.
    + destruct (ly_line ra) as [|p rest]; [done|]. destruct Hline as [lp Hp]. exists lp. rewrite lookup_delete_ne; [done|].
      intros ->. apply Hin. by left.
Qed.

Lemma below_nil h target :
  (∀ p, is_Some (ho_mounts h !! p) → GoString.has_prefix (GoPath.abs p) (GoPath.abs target) = false) → Mount.below h target = [].
Proof.
  intros Hno. destruct (Mount.below h target) as [|p ms] eqn:Hb; [done|]. pose proof (occ_below h target p) as Ho.
  rewrite Hb, occ_cons, decide_True in Ho by done. destruct (ho_mounts h !! p) as [os|] eqn:Hp; [|done].
  rewrite Hno in Ho by by rewrite Hp. done.
Qed.
(** Without mounts [EnsureRemoveAll] is a removal. *)
Lemma EnsureRemoveAll_run t m i (p : path) :
  p ≠ [] → (∀ q, is_Some (m !! q) → GoString.has_prefix (GoPath.abs q) (GoPath.abs p) = false) →
  System.EnsureRemoveAll p (mkHost (mkFS t []) m i) =
    (Ok tt, mkHost (mkFS (filter (λ kv, Os.below p kv.1 = false) t) []) m i).
Proof.
  intros Hp Hno. set (h := mkHost (mkFS t []) m i). unfold System.EnsureRemoveAll.
  assert (Mount.RecursiveUnmount p h = (Ok tt, h)) as Hr.
  { unfold Mount.RecursiveUnmount. rewrite (bind_ok _ _ _ tt h), (bind_ok _ _ _ h h) by done. by rewrite below_nil. }
  rewrite (bind_ok _ _ _ _ _ (ignore_ok _ _ _ _ Hr)), (bind_ok _ _ _ h h) by done. cbn [System.remove_loop].
  assert (System.busy h p = None) as Hbusy.
  { destruct (System.busy h p) as [q|] eqn:Hq; [|done]. unfold System.busy in Hq.
    apply head_Some_elem_of, list_elem_of_filter in Hq as [[_ Hb%below_spec] Hq].
    apply list_elem_of_fmap in Hq as ([q' os]&->&Hq). apply elem_of_map_to_list in Hq. cbn [fst] in *.
    pose proof (abs_prefix p q' Hp Hb) as Ht.
    rewrite (Hno q' (mk_is_Some _ _ Hq)) in Ht. done. }
  rewrite (bind_ok _ _ _ None (mkHost (mkFS (filter (λ kv, Os.below p kv.1 = false) t) []) m i)); [done|].
  unfold System.RemoveAll. rewrite (bind_ok _ _ _ h h) by done. by rewrite Hbusy.
Qed.

Lemma Remove_run L s id r :
  rep home L (tree s) → calm s → L !! id = Some r → unmounted s id →
  Remove home id s = (Ok tt, set_tree (without id (ly_link r) (tree s)) s).
Proof.
  intros Hrep Hc Hid [Hst Hum]. destruct (rp_layer _ _ _ Hrep _ _ Hid) as [Hidl Hs].
  pose proof (st_name _ _ _ _ _ Hs) as Hn. pose proof (st_link_name _ _ _ _ _ Hs) as Hl.
  unfold Remove. rewrite (proj2 (String.eqb_neq id EmptyString)) by apply Hn. rewrite (dir_name home id), (file_name home id) by done.
  rewrite (bind_ok _ _ _ _ _ (attempt_ok _ _ _ _ (onDisk_read _ _ _ Hc (ReadFile_run _ _ _ (home_ne _ _ _) (st_link _ _ _ _ _ Hs))))).
  rewrite (proj2 (String.eqb_neq (ly_link r) EmptyString)) by apply Hl.
  rewrite (Join_name home), (Join_name (home ++ [linkDir])) by done.
  replace ((home ++ [linkDir]) ++ [ly_link r]) with (home ++ ["l"; ly_link r]) by by rewrite <-app_assoc.
  rewrite (bind_ok _ _ _ _ _ (ignore_ok _ _ _ _ (onDisk_run _ _ _ _ Hc (RemoveAll_run _ _)))).
  set (t1 := filter _ (tree s)).
  assert (onHost (System.EnsureRemoveAll (home ++ [id])) (set_tree t1 s) =
    (Ok tt, set_tree (filter (λ kv, Os.below (home ++ [id]) kv.1 = false) t1) s)) as He.
  { erewrite onHost_run; [|apply EnsureRemoveAll_run; [apply home_ne|exact Hum]]. done. }
  by rewrite (bind_ok _ _ _ _ _ (attempt_ok _ _ _ _ He)).
Qed.
End Removing.

(** ** A mount of an init layer *)

Lemma RecursiveUnmount_by_name_witness :
  ∃ m' i', Mount.RecursiveUnmount ["o"; "c"]
             (mkHost (mkFS ∅ []) {[ ["o"; "c-init"; "merged"] := [mount_ofs (mkParams false true false false false)] ]} ∅) =
           (Ok tt, mkHost (mkFS ∅ []) m' i') ∧
    m' !! ["o"; "c-init"; "merged"] = None.
Proof.
  destruct (RecursiveUnmount_by_name ∅ {[ ["o"; "c-init"; "merged"] := [mount_ofs (mkParams false true false false false)] ]} ∅
    ["o"; "c"] ltac:(done)) as (m'&i'&Hrun&_&_&Hsib).
  - intros p. destruct (decide (p = ["o"; "c-init"; "merged"])) as [->|Hp]; [by rewrite lookup_singleton_eq|by rewrite lookup_singleton_ne].
  - exists m', i'. split; [exact Hrun|]. exact (Hsib ["o"] "c" "-init" ["merged"] eq_refl).
Defined.
