(* ===== verification/Overlay2Spec.v ===== *)
(** * overlay2 as a store of lines

    The contract of the driver without its files: for every layer the layers
    below it.  The driver implements it with directories, links and [lower]
    files. *)

From S2P Require Import Prelude FileSys GraphDriver OvlOpts OvlMount OvlOptProps OvlMountProps DriverBase Overlay2.
From S2P Require Import Overlay2Props Overlay2Mount Overlay2Get Overlay2Users Overlay2Remove.

(** ** The contract *)

Module Lines.
Inductive op := CreateLayer (id parent : string) | RemoveLayer (id : string).

(** The line of a child of [parent]; without a parent it is empty. *)
Definition child (A : gmap string (list string)) (parent : string) : option (list string) :=
  if String.eqb parent EmptyString then Some [] else cons parent <$> A !! parent.

(** One operation: whether it succeeds, and the lines then. *)
Definition step (A : gmap string (list string)) (o : op) : bool * gmap string (list string) :=
  match o with
  | CreateLayer id parent =>
      match child A parent with
      | Some line => if maxDepth <? length line then (false, A) else (true, <[id := line]> A)
      | None => (false, A)
      end
  | RemoveLayer id => (true, delete id A)
  end.
Fixpoint steps (A : gmap string (list string)) (os : list op) : list bool * gmap string (list string) :=
  match os with
  | [] => ([], A)
  | o :: os => let '(b, A1) := step A o in let '(bs, A2) := steps A1 os in (b :: bs, A2)
  end.

(** What callers ask for: new layers of known parents, and removals of layers
    that have no children. *)
Definition allowed (A : gmap string (list string)) (o : op) : Prop :=
  match o with
  | CreateLayer id parent => name_ok id ∧ id ≠ "l" ∧ A !! id = None ∧ is_Some (child A parent)
  | RemoveLayer id => is_Some (A !! id) ∧ ∀ a line, A !! a = Some line → id ∉ line
  end.
Fixpoint all_allowed (A : gmap string (list string)) (os : list op) : Prop :=
  match os with
  | [] => True
  | o :: os => allowed A o ∧ all_allowed (snd (step A o)) os
  end.
End Lines.

(** ** The driver implements it *)

Section Refinement.
Context (home : path) (uidMaps gidMaps : option (list Idtools.IDMap)) (projectQuotaSupported : bool)
        (SetQuota : path → Z → M FS ()) (RAMInBytes : string → error + Z)
        (range : gmap string string → list (string * string)).
Context (ug : Z * Z) (Hroot : Idtools.GetRootUIDGID uidMaps gidMaps = inr ug).

Definition exec (o : Lines.op) : M OV () :=
  match o with
  | Lines.CreateLayer id parent =>
      Create home uidMaps gidMaps projectQuotaSupported SetQuota RAMInBytes range id parent None
  | Lines.RemoveLayer id => Remove home id
  end.
Fixpoint exec_all (os : list Lines.op) : M OV (list bool) :=
  match os with
  | [] => mret []
  | o :: os =>
      r ← attempt (exec o);
      bs ← exec_all os;
      mret ((match r with inl _ => false | inr _ => true end) :: bs)
  end.

(** The state of the driver represents the lines [A]. *)
Record represents (A : gmap string (list string)) (s : OV) : Prop := {
  rs_layers : ∃ L, ly_line <$> L = A ∧ rep home L (tree s);
  rs_calm : calm s;
  rs_random : random_ok s;
  rs_mounts : ho_mounts (ov_host s) = ∅;
  rs_vacant : ∀ id, A !! id = None → id ≠ "l" → vacant (tree s) (home ++ [id]);
}.

(** The links drawn on the way are new. *)
Fixpoint fresh_links (os : list Lines.op) (s : OV) : Prop :=
  match os with
  | [] => True
  | o :: os => tree s !! (home ++ ["l"; next_link s]) = None ∧ fresh_links os (snd (exec o s))
  end.

Lemma child_lines L parent : child_line L parent = Lines.child (ly_line <$> L) parent.
Proof.
  unfold child_line, Lines.child. destruct (String.eqb _ _); [done|]. rewrite lookup_fmap. by destruct (L !! parent).
Qed.

Lemma exec_refines A s o :
  represents A s → Lines.allowed A o → tree s !! (home ++ ["l"; next_link s]) = None →
  ∃ r s', exec o s = (r, s') ∧ represents (snd (Lines.step A o)) s' ∧
    match r with Ok _ => fst (Lines.step A o) = true | Err _ => fst (Lines.step A o) = false | Panic _ => False end.
Proof.
  intros [(L&HA&Hrep) Hc Hrand Hm Hvac] Hall Hlink. destruct o as [id parent|id]; cbn [exec Lines.step Lines.allowed] in *.
  - destruct Hall as (Hid&Hne&Hnew&[line Hline]). rewrite Hline. pose proof Hline as Hcl.
    rewrite <-HA, <-child_lines in Hcl.
    assert (L !! id = None) as HL by (rewrite <-HA, lookup_fmap in Hnew; by destruct (L !! id)).
    destruct (create_run home uidMaps gidMaps projectQuotaSupported SetQuota RAMInBytes range L s id parent None line ug
      Hrep Hc Hrand Hroot (or_introl eq_refl) Hid Hne HL (Hvac _ Hnew Hne) Hlink Hcl) as (t&n&Hsp&Hrun). cbv zeta in Hrun.
    assert (∀ b, A !! b = None → b ≠ id → b ≠ "l" → vacant t (home ++ [b])) as Hvac'.
    { intros b Hb Hbi Hbl q Hq. pose proof (Hvac b Hb Hbl q Hq) as Hn. destruct Hq as [k ->].
      rewrite <-app_assoc in *. cbn [app] in *. apply (sp_new _ _ _ _ Hsp); [done|rewrite prefix_home; congruence|].
      intros x Hx%app_inv_head. congruence. }
    unfold Create. cbn [storage_opts]. rewrite bool_decide_eq_false_2 by (rewrite lookup_empty; by intros []).
    destruct (maxDepth <? length line); cbn [fst snd].
    + destruct Hrun as (Hrun&Hrep'&Hv&_). eexists _, _. split; [exact Hrun|]. split; [|done]. split; try done; [by eexists|].
      intros b Hb Hbl. destruct (decide (b = id)) as [->|]; [done|by apply Hvac'].
    + destruct Hrun as (Hrun&Hrep'). eexists _, _. split; [exact Hrun|]. split; [|done]. split; try done.
      * eexists. split; [|exact Hrep']. by rewrite fmap_insert, HA.
      * intros b [Hb Hbi]%lookup_insert_None Hbl. by apply Hvac'.
  - destruct Hall as ([line Hline]&Hleaf). rewrite <-HA, lookup_fmap in Hline.
    destruct (L !! id) as [r|] eqn:HL; [|done].
    assert (leaf L id) as Hlf.
    { intros a ra Ha. apply (Hleaf a). by rewrite <-HA, lookup_fmap, Ha. }
    assert (unmounted home s id) as Hum.
    { split; intros p; rewrite Hm, lookup_empty; [done|by intros []]. }
    eexists _, _. split; [by apply (Remove_run home L s id r)|]. split; [|done]. split; try done.
    + exists (delete id L). split; [by rewrite fmap_delete, HA|]. by apply rep_without.
    + intros b Hb Hbl q Hq. destruct (decide (b = id)) as [->|Hbi]; [apply without_gone; by left|].
      pose proof (Hvac b) as Hv. cbn [snd] in Hb. rewrite lookup_delete_ne in Hb by done. specialize (Hv Hb Hbl q Hq).
      apply map_lookup_filter_None. left. apply map_lookup_filter_None. by left.
Qed.

(** C17. The driver implements the contract: for every sequence of creations and
    removals that callers may ask for, the calls succeed and fail as the contract
    says, and reading the lower directories of any layer then gives the directories
    of the line it has in the contract, the next parent first. *)
Theorem driver_refines A s os :
  represents A s → Lines.all_allowed A os → fresh_links os s →
  ∃ s', exec_all os s = (Ok (fst (Lines.steps A os)), s') ∧ represents (snd (Lines.steps A os)) s' ∧
    ∀ id line, snd (Lines.steps A os) !! id = Some line →
      getLowerDirs home id s' = (Ok ((λ a, home ++ [a; "diff"]) <$> line), s').
Proof.
  assert (∀ A s, represents A s → ∀ id line, A !! id = Some line →
    getLowerDirs home id s = (Ok ((λ a, home ++ [a; "diff"]) <$> line), s)) as Hget.
  { intros A' s' [(L&<-&Hrep) Hc _ _ _] id line Hid. rewrite lookup_fmap in Hid.
    destruct (L !! id) as [r|] eqn:HL; [|done]. injection Hid as <-. by eapply getLowerDirs_run. }
  revert A s. induction os as [|o os IH]; intros A s Hr Hall Hf.
  - exists s. split_and!; [done|done|by apply Hget].
  - destruct Hall as [Ho Hall], Hf as [Hl Hf]. destruct (exec_refines A s o Hr Ho Hl) as (r&s1&Hrun&Hr1&Hres).
    rewrite Hrun in Hf. destruct (IH _ _ Hr1 Hall Hf) as (s'&Hruns&Hr'&_). exists s'. cbn [Lines.steps exec_all].
    destruct (Lines.step A o) as [b A1]. cbn [fst snd] in *. destruct (Lines.steps A1 os) as [bs A2]. cbn [fst snd] in *.
    split_and!; [|done|by apply Hget]. destruct r as [u|e|x]; [| |done]; subst b.
    + rewrite (bind_ok _ _ _ _ _ (attempt_ok _ _ _ _ Hrun)). by rewrite (bind_ok _ _ _ _ _ Hruns).
    + rewrite (bind_ok _ _ _ _ _ (attempt_err _ _ _ _ Hrun)). by rewrite (bind_ok _ _ _ _ _ Hruns).
Qed.
End Refinement.

(** ** On a host with two layers *)

Lemma demo_start : represents Demo.home ∅ Demo.start.
Proof.
  split; [exists ∅; split; [done|apply Demo.start_rep]|done|done|done|]. intros id _ Hid. by apply Demo.start_vacant.
Qed.

Lemma driver_refines_witness :
  ∃ s', exec_all Demo.home None None false Demo.noQuota Demo.size_of Demo.range
          [Lines.CreateLayer "a" ""; Lines.CreateLayer "b" "a"; Lines.RemoveLayer "b"] Demo.start = (Ok [true; true; true], s') ∧
        getLowerDirs Demo.home "a" s' = (Ok [], s').
Proof.
  destruct (driver_refines Demo.home None None false Demo.noQuota Demo.size_of Demo.range (0, 0)%Z eq_refl ∅ Demo.start
    [Lines.CreateLayer "a" ""; Lines.CreateLayer "b" "a"; Lines.RemoveLayer "b"] demo_start) as (s'&Hrun&_&Hget).
  - cbn [Lines.all_allowed Lines.allowed]. split_and!; try done; try by eexists.
    change (snd (Lines.step _ (Lines.CreateLayer "b" "a"))) with (<["b" := ["a"]]> (<["a" := []]> ∅ : gmap string (list string))).
    intros a line [[<- <-]|[_ [[<- <-]|[_ Ha]]%lookup_insert_Some]]%lookup_insert_Some; [|apply not_elem_of_nil|by rewrite lookup_empty in Ha].
    by intros Hb%list_elem_of_singleton.
  - cbn [fresh_links]. split_and!; by vm_compute.
  - exists s'. split; [exact Hrun|]. exact (Hget "a" [] eq_refl).
Defined.
